(* ===== verification/_CoqProject ===== *)
-Q . S2P
Prelude.v
CMem.v
Dfsan.v
Env.v
DfsanCustom.v
DfsanSys.v
DfsanFormat.v
IoFunc.v
StdAlloc.v
TagSet.v
TagSetProofs.v
TagSetJoin.v
TagSetOps.v
TagSetFind.v
TagSetTies.v
TagStore.v
TrackLog.v
AngoraClang.v
PinLogger.v
PriorityQueue.v
SanPrintf.v
SanFlags.v
SanSort.v
Ir.v
IDAssigner.v
DiffConsumer.v
DiffEngine.v
DiffIdentical.v
LlvmDiff.v
PassIr.v
AngoraPass.v
AngoraPassLogic.v
AngoraPassIds.v
AngoraPassKeep.v
AngoraPassCode.v
AngoraPassTrace.v
UnfoldBranch.v
AngoraPassEx.v
DfsanIr.v
DfsanPass.v
DfsanPassMach.v
DfsanPassMem.v
DfsanPassBlocks.v
DfsanPassLoad.v
DfsanPassCombine.v
DfsanPassSetup.v
DfsanPassCustom.v
DfsanPassCalls.v
DfsanPassModule.v
DfsanPassEx.v
FuzzCond.v
FuzzInput.v
FuzzCfg.v
FuzzBranches.v
FuzzDepot.v
FuzzExec.v
