(* ===== verification/Prelude.v ===== *)
(** * ParmeSan: a verification library

    ParmeSan is a fuzzer that is directed at targets found by comparing two
    builds of a program.  It has these parts.

    - A taint-tracking runtime (a changed DataFlowSanitizer): every byte of
      application memory has a four-byte label in shadow memory, and wrappers of
      libc functions move labels along with data
      ([llvm_mode/dfsan_rt], [llvm_mode/external_lib], [runtime/src]).
    - A compiler wrapper that builds programs in one of four modes
      ([llvm_mode/compiler/angora_clang.c]), and the LLVM passes it adds: one that
      keeps branches apart, one that instruments the program with edge counters,
      calling contexts and calls of tracing functions, and one that makes a program
      carry labels along with its values and call the taint runtime
      ([llvm_mode/pass]).
    - An alternative taint tracker on Pin, which logs the tainted comparisons of a
      run for the fuzzer ([pin_mode], [fuzzer/src/track/load_pin_data.rs]).
    - [llvm-diff], which numbers the blocks of a module, maps them to the
      comparisons the fuzzer sees, compares two modules and writes the comparisons
      of changed blocks to [targets.json] ([tools/llvm-diff-parmesan]).
    - The fuzzer itself and its fast runtime, in Rust ([fuzzer], [runtime_fast],
      [common]): conditions that were logged wait in a queue; a search selects one,
      mutates the bytes it depends on and runs the program; coverage and a graph of
      comparisons decide what is kept and what comes first.

    ** Conventions

    Programs are written in the state-and-fault monad [M] below: a computation
    returns a value and a state, or stops the process with a [fault].  A w-bit
    integer is an element of [Z], wrapped where the source stores it ([u32],
    [s32], ...).  Assertions are enabled: a failed [assert], CHECK or LLVM
    assertion is [AssertFailed].  What the program calls outside its own sources
    is a parameter: the operating system and libc are the class [Env] (Env.v),
    the environment of the compiler wrapper is [Shell] (AngoraClang.v), libdft is
    a parameter of PinLogger.v, LLVM's printer and the iteration order of its
    [DenseMap] are parameters of DiffConsumer.v and DiffEngine.v, and [random],
    the rule files and the numbers of opcodes are parameters of AngoraPass.v.  The
    record [config] of DfsanPass.v has the flags of the data-flow pass and what it
    asks LLVM; it also says whether assertions are enabled there ([NDEBUG]).  For the
    fuzzer, petgraph's graphs and traversals are the classes [GraphMap],
    [GraphMapSpec] and [WalkerSpec], the mean of libmath is [Mean] (FuzzCfg.v), the
    crate priority-queue is [PriorityQueue] with [PriorityQueueSpec] (FuzzDepot.v),
    and [Target] (FuzzExec.v) is what the programs under test do with an input.  Each
    theorem with such a hypothesis has a witness that instantiates the parameter.

    The taint runtime is C++ and asks a store of label sets, which is Rust.  The class
    [LabelStore] (Dfsan.v) is the functions it calls, [LabelStoreView] what labels mean
    (the input offsets of a label, whether any were lost, how many more operations have
    room) and [LabelStoreSpec] the laws.  The runtime and the code of the data-flow pass
    are verified against these classes; TagStore proves the laws of the Rust tag set and
    composes both sides.

    ** Files

    - Prelude: results, the monad, loops, machine integers, tactics.
    - CMem: byte memory, and [sanitizer_libc.cc] over it.
    - Dfsan: shadow memory, labels and start-up ([dfsan.cc], [dfsan_platform.h]).
      Labels are set, read and joined exactly on their range; the x86-64 mapping
      is injective; the regions tile the address space.
    - Env: the operating system and libc as the wrappers call them, and a concrete
      instance for witnesses.
    - DfsanCustom, DfsanSys, DfsanFormat: the wrappers of [dfsan_custom.cc] for
      strings and memory, for the operating system, and for [printf].  Value,
      memory and label of the results; which bytes are labelled and that no others
      are.
    - IoFunc: the taint sources of [io_func.c], [zlib_func.c], [ffds.rs] and
      [len_label.rs].  Bytes of the fuzzed input get the label of their offset;
      only its descriptors are tracked; length labels can be decoded.
    - StdAlloc: [stdalloc.c] and [heapmap.rs].  [realloc] moves labels.
    - TagSet: [tag_set.rs], the tries of input offsets behind labels.
    - TagSetProofs: their invariant, [wf], and that walks down keep it.
    - TagSetJoin: the offsets of a label, and joins.
    - TagSetOps: inserting an offset, joining many labels, shapes, signs and masks.
    - TagSetFind: looking a label up gives its offsets exactly.
    - TagSetTies: when a join is the union, and an example in which it is not.
    - TagStore: [tag_set_wrap.rs].  The tag set meets [LabelStoreSpec]; bytes read from
      the input, and labels read from memory, are looked up as their offsets.
    - TrackLog: [track.rs], [logger.rs], the rest of [len_label.rs].  Tainted comparisons
      are logged with the offsets of their operands; the log is bounded.
    - AngoraClang: [angora_clang.c].  The parameter array is large enough for
      every command line; the command line of a plain build.
    - PinLogger: [logger.h], [cond_stmt.h], the handlers of [pin_track.cpp] and the
      reader of their file.  The log is well formed; tags are read back; condition
      records are not.
    - PriorityQueue: the heap of [DifferenceEngine.cpp].
    - SanPrintf: the formatter of [sanitizer_printf.cc].  It writes the text its format
      describes and nothing outside its buffer; numbers are read back.
    - SanFlags: the options of the runtime ([sanitizer_flag_parser.cc],
      [sanitizer_flags.cc], [InitializeFlags] of [dfsan.cc]).  Texts of settings set
      the flags they name; flags keep their types; parsing ends unless files include
      each other in a circle.
    - SanSort: the heap sort and the binary search of [sanitizer_common.h].
    - Ir: the part of LLVM's representation of programs that the tool reads.
    - IDAssigner: [IDAssigner.cpp].  Identifiers are serial numbers; the comparison
      map is a partition; the graph between comparisons is exact; the search for
      the comparisons behind an indirect call terminates and is exact.
    - DiffConsumer: [DiffConsumer.cpp] and [DiffLog.cpp].  An abstract
      specification by sequences of calls, and a simulation that shows that the
      consumer implements it.
    - DiffEngine: the rest of [DifferenceEngine.cpp].  Comparing terminates; the
      alignment of two blocks has minimal cost, for the pairs of instructions that the run finds
      to be the same; an example on which the engine fails an assertion.
    - DiffIdentical: a program and a copy of it at other addresses have no
      differences, if no compared operand is a block, a block address, or an aggregate
      that is not shared; examples of such operands that the engine reports.
    - LlvmDiff: [llvm-diff.cpp].  Comparing a program with itself gives no target, with the
      same exceptions.
    - PassIr: the typed representation of programs that the instrumentation pass
      rewrites, with LLVM's builder operations on it.
    - AngoraPass: [AngoraPass.cc] and the part of [abilist.h] it uses, as a function
      from modules to modules.
    - AngoraPassLogic: a relation between states that the primitives of the pass
      respect is respected by the pass (class [PassStep]).
    - AngoraPassIds: the search for comparison identifiers terminates, and
      identifiers are unique.
    - AngoraPassKeep: the instrumented module contains the program.
    - AngoraPassCode: a machine for the emitted code.  Edge counters stay inside
      their map and never wrap to zero; contexts are saved and restored.
    - AngoraPassTrace: what is reported to the tracing functions, and when.
    - UnfoldBranch: [UnfoldBranchPass.cc].  The successors of conditional branches
      are marked once each.
    - AngoraPassEx: the passes on small modules.
    - DfsanIr: the representation of programs that the data-flow pass rewrites: typed
      values, functions, aliases, splitting of blocks, the dominator tree.
    - DfsanPass: [DFSanPass.cc] as a function from modules to modules.
    - DfsanPassMach: a machine for the code it emits, on the memory and labels of
      Dfsan; calls of the runtime run the definitions of Dfsan.
    - DfsanPassMem: straight-line code: addresses of labels and stores of labels.
    - DfsanPassBlocks: what inserting code and splitting blocks does to a module, and
      that the dominator tree stays right.
    - DfsanPassLoad: loads and stores.  Labels read and written at run time are those
      of the bytes accessed, on every path of the emitted code; a union of labels has all
      offsets as long as no join of the tag set has lost one (TagSetTies).
    - DfsanPassCombine: operations.  The label of the result is the union of the labels
      of the operands, also where the pass reuses an earlier union.
    - DfsanPassSetup: the tables of the pass.  The emitted code and the runtime agree on
      the address of a label, on every target.
    - DfsanPassCustom: calls of wrappers [__dfsw_F] are well typed, and attributes
      follow their parameters.
    - DfsanPassCalls: labels of arguments and results arrive on the other side.
    - DfsanPassModule: what the whole pass keeps of the functions of a module.
    - DfsanPassEx: the pass on small modules.
    - FuzzCond: conditions and their outputs ([cond_stmt_base.rs], [output.rs]) and the
      condition in shared memory ([shm_conds.rs] of both sides, [fast.rs]).  Outputs
      measure how far a goal was missed, modulo 2^64; one run reports the execution selected.
    - FuzzInput: the bytes under mutation ([mut_input]).  They are a view of the input, also
      where segments overlap; entries can be read, set and moved; offsets are merged.
    - FuzzCfg: the graph of comparisons ([dyncfg/cfg.rs]).  What an edge changes, when
      scores are up to date, paths to targets, edges behind indirect calls.
    - FuzzBranches: coverage ([branches.rs]).  What counts as new, and the density.
    - FuzzDepot: conditions, the states of their search, priorities, the queue and the
      loop ([cond_stmt.rs], [cond_state.rs], [depot], [fuzz_loop.rs]).  No condition
      starves; searches go through their states; nothing is dropped.
    - FuzzExec: [track], [executor.rs] and [handler.rs].  A comparison in the
      instrumented program arrives as a condition with the offsets it depends on
      (composed with TrackLog, TagStore and Dfsan); duplicates are filtered; what a tracked
      run adds to the graph; an execution keeps the fuzzer's state; searches end, in whichever
      way of [handler.rs] they execute inputs.

    ** Fuel

    String loops run at most as often as there are bytes before the terminator or
    the bound; their theorems say that this is enough.  [walk_fuel] (IDAssigner) is
    the number of instructions, each of which is visited once.  The search for an
    identifier ([getInstructionId]) has one step more than there are identifiers in
    use, which is enough because the orbits it walks have 2^31 elements.  [queue_fuel]
    (DiffEngine) is the number of blocks, each of which is queued once.  In the
    data-flow pass the loops over the bytes of an access ([wide_compare],
    [store_vectors], [store_singles]) have as much fuel as there are bytes, walks up
    the dominator tree as much as the tree has nodes, [visit_from] as many rounds
    as the block has instructions, and [run] (the machine) is given fuel by the
    theorems: they say that some amount of it is enough.  In the tag set the loops that
    insert zeros and ones have one round more than there are offsets to go, the first loop
    of [combine] as many as both labels have offsets, [find] and [climb] as many as the
    end of the label; the theorems say that they return.  The room a join needs,
    [join_cost], is four nodes for each byte of the input.  The formatter has as many
    rounds as the memory has bytes, because each reads one byte further; the option
    parser has one more than its text has characters, and the nesting of included files
    is a parameter that [ParseString_ends] bounds.  The traversals of the graph of
    comparisons have one round more than there are nodes and the start.
    [printValue_] needs two rounds, because what is printed for a void value is a
    pointer; [void_ok] states this about a module.  No theorem is about runs that
    merely happen to have enough fuel.

    ** Not modelled

    Of the fuzzer: the strategies of the searches (random numbers and floating-point
    gradients; the theorems hold for whatever they execute), starting of processes and the
    fork server, statistics, synchronisation with other fuzzers, and the locks around the
    state, of which one thread is modelled.  Reading and writing logs, which is serde; branch
    weights, calling conventions and function attributes that the passes set; the
    parts of sanitizer_common and interception that the taint runtime does not use
    (allocator, symbolizer, coverage, platform layers); the
    registration of the Pin tool's callbacks; the debug-information output of the
    identifier pass.  Concurrency is not modelled: the runtime is used by one
    thread at a time except for thread creation, where what is handed to the new
    thread is modelled.

    ** Left to do

    For the data-flow pass, operations with more than two operands, select and phi
    nodes, and the argument form of the ABI are modelled but not proved; the
    platform layers of sanitizer_common that the runtime links are not modelled. *)

From Stdlib Require Export ZArith Lia.
From stdpp Require Export base gmap list strings numbers.

#[export] Set Default Goal Selector "!".

(** ** Results and faults

    A C, C++ or Rust computation of the program either returns, or stops the
    process.  The ways in which it stops are kept apart, because several
    theorems say that one of them cannot happen. *)

Inductive fault : Set :=
| Segv          (* access to an unmapped address *)
| DieCalled     (* sanitizer Die(), exit(1) after a FATAL message *)
| AbortCalled   (* abort() *)
| AssertFailed  (* assert(), CHECK or llvm_unreachable *)
| Panicked      (* Rust panic!() *)
| OutOfFuel.    (* artefact of the model: a loop needed more fuel *)

#[export] Instance fault_eq_dec : EqDecision fault.
Proof. solve_decision. Defined.

Inductive res (A : Type) : Type :=
| Ok (a : A)
| Fault (e : fault).
Arguments Ok {A} a.
Arguments Fault {A} e.

Definition res_bind {A B} (r : res A) (k : A -> res B) : res B :=
  match r with Ok a => k a | Fault e => Fault e end.

(** ** The state-and-fault monad *)

Definition M (St A : Type) : Type := St -> res (A * St).

Definition ret {St A} (a : A) : M St A := fun s => Ok (a, s).
Definition bind {St A B} (m : M St A) (k : A -> M St B) : M St B :=
  fun s => match m s with
           | Ok (a, s') => k a s'
           | Fault e => Fault e
           end.
Definition fail {St A} (e : fault) : M St A := fun _ => Fault e.
Definition gets {St A} (f : St -> A) : M St A := fun s => Ok (f s, s).
Definition modify {St} (f : St -> St) : M St unit := fun s => Ok (tt, f s).
Definition of_res {St A} (r : res A) : M St A :=
  fun s => match r with Ok a => Ok (a, s) | Fault e => Fault e end.
Definition when {St} (b : bool) (m : M St unit) : M St unit :=
  if b then m else ret tt.

Declare Scope cprog_scope.
Delimit Scope cprog_scope with cprog.
Notation "x <- m ;; k" := (bind m (fun x => k))
  (at level 100, m at next level, right associativity) : cprog_scope.
Notation "m ;;; k" := (bind m (fun _ => k))
  (at level 100, right associativity) : cprog_scope.
Open Scope cprog_scope.

Lemma bind_Ok {St A B} (m : M St A) (k : A -> M St B) s a s' :
  m s = Ok (a, s') -> bind m k s = k a s'.
Proof. unfold bind. by intros ->. Qed.

Lemma bind_assoc {St A B C} (m : M St A) (f : A -> M St B) (g : B -> M St C) s :
  bind m (fun x => bind (f x) g) s = bind (bind m f) g s.
Proof. unfold bind. by destruct (m s) as [[a s1]|e]. Qed.

Lemma bind_Ok_inv {St A B} (m : M St A) (k : A -> M St B) s b s' :
  bind m k s = Ok (b, s') ->
  exists a s1, m s = Ok (a, s1) /\ k a s1 = Ok (b, s').
Proof. unfold bind. destruct (m s) as [[a s1]|e]; [eauto | done]. Qed.

(** [for (i = start; ; ++i) body], a loop left from inside its body.  The body
    answers [Some a] to leave with [a] and [None] to go on. *)
Fixpoint for_ever {St A} (fuel : nat) (body : Z -> M St (option A)) (i : Z)
  : M St A :=
  match fuel with
  | O => fail OutOfFuel
  | S n => o <- body i ;;
           match o with
           | Some a => ret a
           | None => for_ever n body (i + 1)%Z
           end
  end.

(** Enough fuel: a body that goes on without touching the state at
    [i .. i+k-1] and stops at [i+k] makes the loop stop there. *)
Lemma for_ever_stop {St A} (body : Z -> M St (option A)) s r (k : nat) :
  forall (i : Z) (fuel : nat),
  (k < fuel)%nat ->
  (forall j : nat, (j < k)%nat -> body (i + Z.of_nat j)%Z s = Ok (None, s)) ->
  body (i + Z.of_nat k)%Z s = r ->
  (match r with Ok (None, _) => False | _ => True end) ->
  for_ever fuel body i s =
    match r with
    | Ok (Some a, s') => Ok (a, s')
    | Ok (None, s') => Fault OutOfFuel
    | Fault e => Fault e
    end.
Proof.
  induction k as [|k IH]; intros i fuel Hf Hgo Hstop Hr.
  - destruct fuel as [|fuel]; [lia|]. simpl. unfold bind.
    rewrite Z.add_0_r in Hstop. rewrite Hstop.
    by destruct r as [[[a|] s']|e].
  - destruct fuel as [|fuel]; [lia|]. simpl. unfold bind.
    pose proof (Hgo 0%nat ltac:(lia)) as H0. rewrite Z.add_0_r in H0.
    rewrite H0. apply IH; [lia| |by rewrite <-Hstop; f_equal; lia|done].
    intros j Hj. rewrite <-(Hgo (S j)) by lia. f_equal. lia.
Qed.

(** [for (; n != 0; --n, ++i) body]: a counted loop. *)
Fixpoint for_count {St} (n : nat) (body : Z -> M St unit) (i : Z) : M St unit :=
  match n with
  | O => ret tt
  | S m => body i ;;; for_count m body (i + 1)%Z
  end.

(** [for (i = n - 1; i >= 0; --i) body]. *)
Fixpoint for_down {St} (n : nat) (body : Z -> M St unit) : M St unit :=
  match n with
  | O => ret tt
  | S m => body (Z.of_nat m) ;;; for_down m body
  end.

(** Loop rules: an invariant indexed by the number of rounds done. *)
Lemma for_count_inv {St} (P : nat -> St -> Prop) (body : Z -> M St unit) n :
  forall i s,
  (forall k s, (k < n)%nat -> P k s ->
     exists s', body (i + Z.of_nat k)%Z s = Ok (tt, s') /\ P (S k) s') ->
  P O s ->
  exists s', for_count n body i s = Ok (tt, s') /\ P n s'.
Proof.
  revert P. induction n as [|n IH]; intros P i s Hb H0; simpl.
  { by exists s. }
  destruct (Hb O s ltac:(lia) H0) as (s1 & E1 & H1).
  rewrite Z.add_0_r in E1. unfold bind. rewrite E1.
  apply (IH (fun k => P (S k))); [|done].
  intros k s2 Hk Hp. destruct (Hb (S k) s2 ltac:(lia) Hp) as (s3 & E3 & H3).
  exists s3. split; [|done]. rewrite <-E3. f_equal. lia.
Qed.

(** Partial correctness: what every round preserves, the loop preserves. *)
Lemma for_count_pres {St} (P : St -> Prop) (body : Z -> M St unit) n :
  (forall i s s', P s -> body i s = Ok (tt, s') -> P s') ->
  forall i s s', P s -> for_count n body i s = Ok (tt, s') -> P s'.
Proof.
  intros Hb. induction n as [|n IH]; intros i s s' Hs; simpl.
  - by intros [= <-].
  - intros ([] & s1 & E1 & E2)%bind_Ok_inv. eauto.
Qed.

Lemma for_down_inv {St} (P : nat -> St -> Prop) (body : Z -> M St unit) n :
  forall s,
  (forall k s, (k < n)%nat -> P (S k) s ->
     exists s', body (Z.of_nat k) s = Ok (tt, s') /\ P k s') ->
  P n s ->
  exists s', for_down n body s = Ok (tt, s') /\ P O s'.
Proof.
  induction n as [|n IH]; intros s Hb H0; simpl.
  { by exists s. }
  destruct (Hb n s ltac:(lia) H0) as (s1 & E1 & H1).
  unfold bind. rewrite E1. apply IH; [|done].
  intros k s2 Hk Hp. apply Hb; [lia|done].
Qed.

(** ** Steps that respect a relation

    [always R m]: whatever [m] does to the state, [R] relates the state before to
    the state after.  For a preorder this is compositional, which gives invariants
    ([R s s' := I s -> I s']), frames and monotone counters of long programs by
    one rule per construct. *)

Definition always {St A} (R : relation St) (m : M St A) : Prop :=
  forall s a s', m s = Ok (a, s') -> R s s'.

Create HintDb always.

Section Always.
Context {St : Type} (R : relation St) `{!PreOrder R}.

Lemma always_ret {A} (a : A) : always R (ret a).
Proof. by intros s a' s' [= <- <-]. Qed.
Lemma always_fail {A} e : always R (fail (A := A) e).
Proof. by intros s a' s'. Qed.
Lemma always_gets {A} (f : St -> A) : always R (gets f).
Proof. by intros s a' s' [= <- <-]. Qed.
Lemma always_bind {A B} (m : M St A) (k : A -> M St B) :
  always R m -> (forall a, always R (k a)) -> always R (bind m k).
Proof. intros Hm Hk s b s' (a & s1 & E1 & E2)%bind_Ok_inv. etrans; [eapply Hm|eapply Hk]; eauto. Qed.
Lemma always_modify f : (forall s, R s (f s)) -> always R (modify f).
Proof. intros Hf s a s' [= <- <-]. apply Hf. Qed.
Lemma always_when b m : always R m -> always R (when b m).
Proof. intros Hm. destruct b; [done|apply always_ret]. Qed.
(** A computation whose text depends on the state is right if it is right for the
    state at hand. *)
Lemma always_gets_bind {A B} (f : St -> A) (k : A -> M St B) :
  (forall s b s', k (f s) s = Ok (b, s') -> R s s') -> always R (bind (gets f) k).
Proof. intros Hk s b s'. apply Hk. Qed.
End Always.

Ltac always_step :=
  lazymatch goal with
  | |- always _ (bind _ _) => apply always_bind; [exact _| |intros ?]
  | |- always _ (ret _) => apply always_ret; exact _
  | |- always _ (fail _) => apply always_fail; exact _
  | |- always _ (gets _) => apply always_gets; exact _
  | |- always _ (when _ _) => apply always_when; [exact _|]
  | |- always _ (if ?b then _ else _) => destruct b
  | |- always _ (match ?x with _ => _ end) => destruct x
  end.
(** Decompose a program text down to the operations the hints know. *)
Ltac always_auto :=
  repeat first [always_step | solve [eauto with always] | progress intros].

(** ** Machine integers

    A w-bit unsigned value is an integer of [0 .. 2^w-1]; arithmetic is done in
    [Z] and wrapped where the source stores into a w-bit object. *)

Definition wrap (w z : Z) : Z := Z.modulo z (2 ^ w).
Definition u8 (z : Z) : Z := wrap 8 z.
Definition u32 (z : Z) : Z := wrap 32 z.
Definition u64 (z : Z) : Z := wrap 64 z.
Definition signed (w z : Z) : Z :=
  let m := wrap w z in if Z.ltb m (2 ^ (w - 1)) then m else (m - 2 ^ w)%Z.
Definition s8 (z : Z) : Z := signed 8 z.
Definition s32 (z : Z) : Z := signed 32 z.
Definition s64 (z : Z) : Z := signed 64 z.

Lemma wrap_small w z : (0 <= z < 2 ^ w)%Z -> wrap w z = z.
Proof. intros. by apply Z.mod_small. Qed.

Lemma wrap_range w z : (0 <= w)%Z -> (0 <= wrap w z < 2 ^ w)%Z.
Proof. intros. apply Z.mod_pos_bound. by apply Z.pow_pos_nonneg. Qed.

Lemma u32_small z : (0 <= z < 2 ^ 32)%Z -> u32 z = z.
Proof. apply wrap_small. Qed.
Lemma u64_small z : (0 <= z < 2 ^ 64)%Z -> u64 z = z.
Proof. apply wrap_small. Qed.
Lemma s8_range z : (-128 <= s8 z < 128)%Z.
Proof.
  unfold s8, signed. pose proof (wrap_range 8 z ltac:(lia)).
  change (2 ^ 8)%Z with 256%Z in *. change (2 ^ (8 - 1))%Z with 128%Z.
  case (Z.ltb_spec (wrap 8 z) 128); lia.
Qed.
Lemma s8_id b : (0 <= b < 128)%Z -> s8 b = b.
Proof.
  intros. unfold s8, signed. rewrite wrap_small by lia.
  case (Z.ltb_spec b (2 ^ (8 - 1))); lia.
Qed.
Lemma s8_inj a b : (0 <= a < 256)%Z -> (0 <= b < 256)%Z -> s8 a = s8 b -> a = b.
Proof.
  intros ??. unfold s8, signed. rewrite !wrap_small by lia.
  change (2 ^ 8)%Z with 256%Z. change (2 ^ (8 - 1))%Z with 128%Z.
  case (Z.ltb_spec a 128); case (Z.ltb_spec b 128); lia.
Qed.
Lemma s8_zero b : (0 <= b < 256)%Z -> s8 b = 0%Z <-> b = 0%Z.
Proof.
  intros. split; [|by intros ->].
  intros Hz. apply s8_inj; [lia|lia|done].
Qed.
Lemma s32_small z : (- 2 ^ 31 <= z < 2 ^ 31)%Z -> s32 z = z.
Proof.
  intros. unfold s32, signed, wrap. change (2 ^ (32 - 1))%Z with (2 ^ 31)%Z.
  destruct (Z_lt_le_dec z 0) as [Hn|Hp].
  - replace (z mod 2 ^ 32)%Z with (z + 2 ^ 32)%Z.
    + case (Z.ltb_spec (z + 2 ^ 32) (2 ^ 31)); lia.
    + symmetry. rewrite <-(Z_mod_plus_full z 1). apply Z.mod_small. lia.
  - rewrite Z.mod_small by lia. case (Z.ltb_spec z (2 ^ 31)); lia.
Qed.

(** ** Automation *)

Create HintDb cprog.

(** Evaluate the monadic glue of a concrete program text. *)
Ltac mnorm := cbv [bind ret gets modify when fail] in *; cbn -[Z.add Z.mul Z.sub] in *.

(** Turn the boolean tests of the source into propositions. *)
Ltac breflect :=
  repeat match goal with
  | H : Z.eqb _ _ = true |- _ => apply Z.eqb_eq in H
  | H : Z.eqb _ _ = false |- _ => apply Z.eqb_neq in H
  | H : Z.ltb _ _ = true |- _ => apply Z.ltb_lt in H
  | H : Z.ltb _ _ = false |- _ => apply Z.ltb_ge in H
  | H : Z.leb _ _ = true |- _ => apply Z.leb_le in H
  | H : Z.leb _ _ = false |- _ => apply Z.leb_gt in H
  | H : andb _ _ = true |- _ => apply andb_true_iff in H as [? ?]
  | H : orb _ _ = false |- _ => apply orb_false_iff in H as [? ?]
  | H : negb _ = true |- _ => apply negb_true_iff in H
  | H : negb _ = false |- _ => apply negb_false_iff in H
  end.

(** Split on the condition of an [if] in the goal, reflecting it. *)
Ltac case_test :=
  match goal with
  | |- context [if ?b then _ else _] => let E := fresh "E" in destruct b eqn:E; breflect
  end.
