(* ===== verification/CMem.v ===== *)
(** * Application memory and the runtime's own C library

    The application's memory is a finite map from addresses to bytes; an access
    to an address that is not mapped is a segmentation fault.  On top of it,
    the string and memory routines of
    [llvm_mode/dfsan_rt/sanitizer_common/sanitizer_libc.cc], which the DFSan
    runtime links instead of libc's.  Loops that end at a NUL get as fuel one
    more than the number of mapped bytes: a loop that reads a new address at
    every round cannot do more rounds than that without a fault
    ([for_ever_reads], [internal_strlen_total]). *)

From S2P Require Import Prelude.

Local Open Scope Z_scope.

Abbreviation mem := (gmap Z Z).

Definition load (a : Z) : M mem Z :=
  fun m => match m !! a with Some b => Ok (b, m) | None => Fault Segv end.
(** A read of a (signed) [char]. *)
Definition loadc (a : Z) : M mem Z := b <- load a ;; ret (s8 b).
Definition store (a v : Z) : M mem unit :=
  fun m => match m !! a with
           | Some _ => Ok (tt, <[a := u8 v]> m)
           | None => Fault Segv
           end.
(** Fuel of the loops that scan memory for a terminator. *)
Definition scan {A} (body : Z -> M mem (option A)) : M mem A :=
  fun m => for_ever (S (size m)) body 0 m.

(** ** Characters and rounding ([sanitizer_common.h]) *)

Definition IsSpace (c : Z) : bool :=
  (c =? 32) || (c =? 10) || (c =? 9) || (c =? 12) || (c =? 13) || (c =? 11).
Definition IsDigit (c : Z) : bool := (48 <=? c) && (c <=? 57).
Definition ToLower (c : Z) : Z :=
  if (65 <=? c) && (c <=? 90) then c + 97 - 65 else c.
Definition IsPowerOfTwo (x : Z) : bool := Z.land x (u64 (x - 1)) =? 0.
Definition RoundUpTo (size boundary : Z) : res Z :=
  if IsPowerOfTwo boundary
  then Ok (Z.land (u64 (size + boundary - 1)) (u64 (Z.lnot (boundary - 1))))
  else Fault AssertFailed.
Definition RoundDownTo (x boundary : Z) : Z :=
  Z.land x (u64 (Z.lnot (boundary - 1))).
Definition IsAligned (a alignment : Z) : bool := Z.land a (alignment - 1) =? 0.

(** ** [sanitizer_libc.cc] *)

Fixpoint memchr_loop (k : nat) (c t : Z) : M mem Z :=
  match k with
  | O => ret 0
  | S k => b <- loadc t ;; if b =? c then ret t else memchr_loop k c (t + 1)
  end.
Definition internal_memchr (s c n : Z) : M mem Z :=
  memchr_loop (Z.to_nat n) c s.

Fixpoint memrchr_loop (k : nat) (c t res : Z) : M mem Z :=
  match k with
  | O => ret res
  | S k => b <- loadc t ;;
           memrchr_loop k c (t + 1) (if b =? c then t else res)
  end.
Definition internal_memrchr (s c n : Z) : M mem Z :=
  memrchr_loop (Z.to_nat n) c s 0.

Fixpoint memcmp_loop (k : nat) (t1 t2 : Z) : M mem Z :=
  match k with
  | O => ret 0
  | S k => b1 <- loadc t1 ;; b2 <- loadc t2 ;;
           if negb (b1 =? b2) then ret (if b1 <? b2 then -1 else 1)
           else memcmp_loop k (t1 + 1) (t2 + 1)
  end.
Definition internal_memcmp (s1 s2 n : Z) : M mem Z :=
  memcmp_loop (Z.to_nat n) s1 s2.

Definition copy_byte (d s i : Z) : M mem unit :=
  b <- load (s + i) ;; store (d + i) b.

Definition internal_memcpy (d s n : Z) : M mem Z :=
  for_count (Z.to_nat n) (copy_byte d s) 0 ;;; ret d.

(** [CHECK_GE(signed_n, 0)]: a size of 2^63 or more fails the check. *)
Definition internal_memmove (d s n : Z) : M mem Z :=
  if 2 ^ 63 <=? n then fail AssertFailed else
  (if d <? s then for_count (Z.to_nat n) (copy_byte d s) 0
   else when ((s <? d) && (0 <? n)) (for_down (Z.to_nat n) (copy_byte d s))) ;;;
  ret d.

Definition internal_bzero_aligned16 (s n : Z) : M mem unit :=
  if negb (Z.land (Z.lor s n) 15 =? 0) then fail AssertFailed else
  for_count (Z.to_nat (n / 16))
    (fun i => for_count 16 (fun j => store (s + 16 * i + j) 0) 0) 0.

Definition internal_memset (s c n : Z) : M mem Z :=
  for_count (Z.to_nat n) (fun i => store (s + i) c) 0 ;;; ret s.

Definition internal_strlen (s : Z) : M mem Z :=
  scan (fun i => c <- load (s + i) ;; ret (if c =? 0 then Some i else None)).

Definition internal_strnlen (s maxlen : Z) : M mem Z :=
  scan (fun i => if maxlen <=? i then ret (Some i) else
                 c <- load (s + i) ;; ret (if c =? 0 then Some i else None)).

(** [*s == (char)c]: both sides are chars. *)
Definition internal_strchr (s c : Z) : M mem Z :=
  scan (fun i => b <- loadc (s + i) ;;
                 ret (if b =? s8 c then Some (s + i)
                      else if b =? 0 then Some 0 else None)).

Definition internal_strchrnul (s c : Z) : M mem Z :=
  r <- internal_strchr s c ;;
  if r =? 0 then n <- internal_strlen s ;; ret (s + n) else ret r.

(** [s[i] == c]: a char against an int, the last match is kept. *)
Fixpoint strrchr_loop (fuel : nat) (s c i res : Z) : M mem Z :=
  match fuel with
  | O => fail OutOfFuel
  | S f => b <- loadc (s + i) ;;
           if b =? 0 then ret res
           else strrchr_loop f s c (i + 1) (if b =? c then s + i else res)
  end.
Definition internal_strrchr (s c : Z) : M mem Z :=
  fun m => strrchr_loop (S (size m)) s c 0 0 m.

Definition internal_strcspn (s reject : Z) : M mem Z :=
  scan (fun i => b <- loadc (s + i) ;;
                 if b =? 0 then ret (Some i) else
                 r <- internal_strchr reject b ;;
                 ret (if negb (r =? 0) then Some i else None)).

(** [unsigned c1 = *s1]: the char is converted to 32 bits. *)
Definition internal_strcmp (s1 s2 : Z) : M mem Z :=
  scan (fun i => b1 <- loadc (s1 + i) ;; b2 <- loadc (s2 + i) ;;
                 let c1 := u32 b1 in let c2 := u32 b2 in
                 ret (if negb (c1 =? c2) then Some (if c1 <? c2 then -1 else 1)
                      else if c1 =? 0 then Some 0 else None)).

Definition internal_strncmp (s1 s2 n : Z) : M mem Z :=
  scan (fun i => if n <=? i then ret (Some 0) else
                 b1 <- loadc (s1 + i) ;; b2 <- loadc (s2 + i) ;;
                 let c1 := u32 b1 in let c2 := u32 b2 in
                 ret (if negb (c1 =? c2) then Some (if c1 <? c2 then -1 else 1)
                      else if c1 =? 0 then Some 0 else None)).

Definition internal_strlcat (dst src maxlen : Z) : M mem Z :=
  srclen <- internal_strlen src ;;
  dstlen <- internal_strnlen dst maxlen ;;
  if dstlen =? maxlen then ret (maxlen + srclen) else
  (if srclen <? maxlen - dstlen then
     internal_memmove (dst + dstlen) src (srclen + 1) ;;; ret tt
   else
     internal_memmove (dst + dstlen) src (maxlen - dstlen - 1) ;;;
     store (dst + (maxlen - 1)) 0) ;;;
  ret (dstlen + srclen).

(** [for (i = 0; i < n && src[i]; i++) dst[i] = src[i];], answering [i]. *)
Definition strncpy_loop (dst src n : Z) : M mem Z :=
  scan (fun i => if n <=? i then ret (Some i) else
                 c <- load (src + i) ;;
                 if c =? 0 then ret (Some i)
                 else store (dst + i) c ;;; ret None).

Definition internal_strncat (dst src n : Z) : M mem Z :=
  len <- internal_strlen dst ;;
  i <- strncpy_loop (dst + len) src n ;;
  store (dst + len + i) 0 ;;; ret dst.

Definition internal_strlcpy (dst src maxlen : Z) : M mem Z :=
  srclen <- internal_strlen src ;;
  (if srclen <? maxlen then internal_memmove dst src (srclen + 1) ;;; ret tt
   else if negb (maxlen =? 0) then
     internal_memmove dst src (maxlen - 1) ;;; store (dst + (maxlen - 1)) 0
   else ret tt) ;;;
  ret srclen.

Definition internal_strncpy (dst src n : Z) : M mem Z :=
  i <- strncpy_loop dst src n ;;
  internal_memset (dst + i) 0 (n - i) ;;; ret dst.

Fixpoint strstr_loop (k : nat) (haystack needle len2 pos : Z) : M mem Z :=
  match k with
  | O => ret 0
  | S k => r <- internal_memcmp (haystack + pos) needle len2 ;;
           if r =? 0 then ret (haystack + pos)
           else strstr_loop k haystack needle len2 (pos + 1)
  end.
Definition internal_strstr (haystack needle : Z) : M mem Z :=
  len1 <- internal_strlen haystack ;;
  len2 <- internal_strlen needle ;;
  if len1 <? len2 then ret 0
  else strstr_loop (Z.to_nat (len1 - len2 + 1)) haystack needle len2 0.

Definition UINT64_MAX : Z := 2 ^ 64 - 1.
Definition INT64_MAX : Z := 2 ^ 63 - 1.
Definition INT64_MIN : Z := - 2 ^ 63.

(** One digit of the accumulation loop of [internal_simple_strtoll]. *)
Definition strtoll_digit (res digit : Z) : Z :=
  let res := if res <=? UINT64_MAX / 10 then u64 (res * 10) else UINT64_MAX in
  if res <=? UINT64_MAX - digit then res + digit else UINT64_MAX.

Definition skip_spaces (nptr : Z) : M mem Z :=
  scan (fun i => c <- loadc (nptr + i) ;;
                 ret (if IsSpace c then None else Some (nptr + i))).

Fixpoint strtoll_loop (fuel : nat) (t res : Z) (have_digits : bool)
  : M mem (Z * Z * bool) :=
  match fuel with
  | O => fail OutOfFuel
  | S f => d <- loadc t ;;
           if IsDigit d
           then strtoll_loop f (t + 1) (strtoll_digit res (d - 48)) true
           else ret (t, res, have_digits)
  end.

(** Sign, digits and final clamping, from the first non-space character [p];
    the answer is the value and the [*endptr] that the source stores when
    [endptr] is not null. *)
Definition strtoll_number (p : Z) : M mem (Z * Z) :=
  c <- loadc p ;;
  let sgn := if c =? 45 then -1 else 1 in
  let q := if (c =? 43) || (c =? 45) then p + 1 else p in
  r <- (fun m => strtoll_loop (S (size m)) q 0 false m) ;;
  let '(t, res, have_digits) := r in
  ret (if 0 <? sgn then Z.min INT64_MAX res
       else if INT64_MAX <? res then INT64_MIN else - res,
       if (have_digits : bool) then t else p).

Definition internal_simple_strtoll (nptr base : Z) : M mem (Z * Z) :=
  if negb (base =? 10) then fail AssertFailed else
  p <- skip_spaces nptr ;; strtoll_number p.

Definition internal_atoll (nptr : Z) : M mem Z :=
  r <- internal_simple_strtoll nptr 10 ;; ret (fst r).

(** [all |= *mem]: the char is converted to the 64 bits of [uptr]. *)
Fixpoint or_bytes (n : nat) (p all : Z) : M mem Z :=
  match n with
  | O => ret all
  | S k => b <- loadc p ;; or_bytes k (p + 1) (Z.lor all (u64 b))
  end.
(** A little-endian read of [n] bytes. *)
Fixpoint load_le (n : nat) (p : Z) : M mem Z :=
  match n with
  | O => ret 0
  | S k => b <- load p ;; r <- load_le k (p + 1) ;;
           ret (Z.lor b (Z.shiftl r 8))
  end.
Fixpoint or_words (n : nat) (p all : Z) : M mem Z :=
  match n with
  | O => ret all
  | S k => w <- load_le 8 p ;; or_words k (p + 8) (Z.lor all w)
  end.

Definition mem_is_zero (beg size : Z) : M mem bool :=
  if 2 ^ 40 <? size then fail AssertFailed else
  let end_ := beg + size in
  aligned_beg <- (fun m => match RoundUpTo beg 8 with
                           | Ok a => Ok (a, m) | Fault e => Fault e end) ;;
  let aligned_end := RoundDownTo end_ 8 in
  all <- or_bytes (Z.to_nat (Z.min aligned_beg end_ - beg)) beg 0 ;;
  all <- or_words (Z.to_nat ((aligned_end - aligned_beg) / 8)) aligned_beg all ;;
  all <- (if beg <=? aligned_end
          then or_bytes (Z.to_nat (end_ - aligned_end)) aligned_end all
          else ret all) ;;
  ret (all =? 0).

(** ** Contents of memory *)

Definition bytes_at (m : mem) (a : Z) (l : list Z) : Prop :=
  forall i b, l !! i = Some b -> m !! (a + Z.of_nat i) = Some b.
Definition mapped (m : mem) (a n : Z) : Prop :=
  forall b, a <= b < a + n -> is_Some (m !! b).
Definition mem_ok (m : mem) : Prop := map_Forall (fun _ b => 0 <= b < 256) m.
(** A NUL-terminated string with the characters [l] at [a]. *)
Definition cstr (m : mem) (a : Z) (l : list Z) : Prop :=
  bytes_at m a (l ++ [0]) /\ Forall (fun b => 0 < b < 256) l.

Lemma load_Some m a b : m !! a = Some b -> load a m = Ok (b, m).
Proof. unfold load. by intros ->. Qed.
Lemma loadc_Some m a b : m !! a = Some b -> loadc a m = Ok (s8 b, m).
Proof. unfold loadc, bind, load. by intros ->. Qed.
Lemma store_Some m a v : is_Some (m !! a) -> store a v m = Ok (tt, <[a := u8 v]> m).
Proof. unfold store. by intros [b ->]. Qed.

(** Mapped bytes are counted by the size of the map. *)
Lemma mapped_size m a n : 0 <= n -> mapped m a n -> n <= Z.of_nat (size m).
Proof.
  intros Hn Hm.
  set (ks := (fun i : nat => a + Z.of_nat i) <$> seq 0 (Z.to_nat n)).
  assert (Hks : length ks = Z.to_nat n) by (unfold ks; rewrite length_fmap; by rewrite length_seq).
  assert (Hnd : NoDup ks).
  { unfold ks. apply NoDup_fmap_2; [intros x y ?; lia | apply NoDup_seq]. }
  assert (Hsub : list_to_set ks ⊆ dom m).
  { intros k Hk. apply elem_of_list_to_set in Hk.
    unfold ks in Hk. apply list_elem_of_fmap in Hk as (i & -> & Hi).
    apply elem_of_seq in Hi. apply elem_of_dom. apply Hm. lia. }
  apply subseteq_size in Hsub. rewrite size_list_to_set in Hsub by done.
  rewrite size_dom in Hsub. lia.
Qed.

Lemma bytes_at_mapped m a l : bytes_at m a l -> mapped m a (Z.of_nat (length l)).
Proof.
  intros H b Hb. destruct (lookup_lt_is_Some_2 l (Z.to_nat (b - a))) as [x Hx]; [lia|].
  exists x. rewrite <-(H _ _ Hx). f_equal. lia.
Qed.
Lemma bytes_at_size m a l : bytes_at m a l -> (length l <= size m)%nat.
Proof. intros H%bytes_at_mapped. apply mapped_size in H; lia. Qed.

Lemma cstr_size m a l : cstr m a l -> (length l < size m)%nat.
Proof. intros [H%bytes_at_size _]. rewrite length_app in H. simpl in H. lia. Qed.
Lemma cstr_char m a l i b : cstr m a l -> l !! i = Some b ->
  m !! (a + Z.of_nat i) = Some b /\ 0 < b < 256.
Proof.
  intros [H Hl] Hi. split.
  - apply H. by apply lookup_app_l_Some.
  - rewrite Forall_lookup in Hl. eauto.
Qed.
Lemma cstr_end m a l : cstr m a l -> m !! (a + Z.of_nat (length l)) = Some 0.
Proof. intros [H _]. apply H. by rewrite lookup_app_r, Nat.sub_diag by lia. Qed.
#[export] Hint Resolve load_Some loadc_Some store_Some : cprog.

(** A scan over a string stops at the first position where the body does. *)
Lemma scan_stop {A} (body : Z -> M mem (option A)) m (k : nat) r :
  (k <= size m)%nat ->
  (forall j : nat, (j < k)%nat -> body (Z.of_nat j) m = Ok (None, m)) ->
  body (Z.of_nat k) m = r ->
  (match r with Ok (None, _) => False | _ => True end) ->
  scan body m = match r with
                | Ok (Some a, s') => Ok (a, s')
                | Ok (None, s') => Fault OutOfFuel
                | Fault e => Fault e
                end.
Proof.
  intros Hk Hgo Hs Hr. unfold scan.
  apply (for_ever_stop body m r k 0 (S (size m))); [lia| |by rewrite <-Hs|done].
  intros j Hj. rewrite Z.add_0_l. by apply Hgo.
Qed.

Lemma internal_strlen_cstr m a l :
  cstr m a l -> internal_strlen a m = Ok (Z.of_nat (length l), m).
Proof.
  intros Hc. unfold internal_strlen.
  rewrite (scan_stop _ m (length l) (Ok (Some (Z.of_nat (length l)), m))); [done| | | |done].
  - pose proof (cstr_size _ _ _ Hc). lia.
  - intros j Hj. destruct (lookup_lt_is_Some_2 l j Hj) as [b Hb].
    destruct (cstr_char _ _ _ _ _ Hc Hb) as [Hm Hr].
    unfold bind. rewrite (load_Some _ _ _ Hm). unfold ret.
    case (Z.eqb_spec b 0); [lia|done].
  - unfold bind. by rewrite (load_Some _ _ _ (cstr_end _ _ _ Hc)).
Qed.

(** Fuel is never what stops a scan that reads a new address every round. *)
Lemma for_ever_reads {A} (body : Z -> M mem (option A)) m a :
  (forall i o m', body i m = Ok (o, m') -> m' = m /\ is_Some (m !! (a + i))) ->
  (forall i, body i m <> Fault OutOfFuel) ->
  forall fuel i, 0 <= i -> (forall j, 0 <= j < i -> is_Some (m !! (a + j))) ->
  Z.of_nat (size m) < i + Z.of_nat fuel ->
  for_ever fuel body i m <> Fault OutOfFuel.
Proof.
  intros Hst Hne fuel. induction fuel as [|f IH]; intros i Hi Hmap Hf.
  { assert (i <= Z.of_nat (size m)); [|lia].
    apply (mapped_size m a i Hi). intros b Hb.
    replace b with (a + (b - a)) by lia. apply Hmap. lia. }
  simpl. unfold bind. destruct (body i m) as [[o m1]|e] eqn:E.
  - apply Hst in E as [-> HS]. destruct o as [r|]; [done|].
    apply IH; [lia| |lia]. intros j Hj.
    destruct (decide (j = i)) as [->|]; [done|apply Hmap; lia].
  - intros [= ->]. by apply (Hne i).
Qed.

Lemma scan_reads {A} (body : Z -> M mem (option A)) m a :
  (forall i o m', body i m = Ok (o, m') -> m' = m /\ is_Some (m !! (a + i))) ->
  (forall i, body i m <> Fault OutOfFuel) ->
  scan body m <> Fault OutOfFuel.
Proof.
  intros H1 H2. unfold scan.
  apply (for_ever_reads _ _ a H1 H2); [lia| |lia]. intros; lia.
Qed.

(** [internal_strlen] returns or faults on an unmapped byte, on any memory. *)
Lemma internal_strlen_total s m : internal_strlen s m <> Fault OutOfFuel.
Proof.
  apply (scan_reads _ _ s).
  - intros i o m'. unfold bind, load. destruct (m !! (s + i)); [|done].
    intros [= <- <-]. eauto.
  - intros i. unfold bind, load. by destruct (m !! (s + i)).
Qed.

(** ** Block copies *)

(** [m'] is [m] with the [n] bytes of [m] at [s] written at [d]. *)
Definition copied (m m' : mem) (d s n : Z) : Prop :=
  forall a, m' !! a = if bool_decide (d <= a < d + n) then m !! (s + (a - d)) else m !! a.

Lemma copied_ok m m' d s n : mem_ok m -> copied m m' d s n -> mem_ok m'.
Proof.
  intros Hok Hc a b Hb. rewrite Hc in Hb.
  case_bool_decide; by apply Hok in Hb.
Qed.

Lemma copy_byte_Ok m d s i b :
  mem_ok m -> m !! (s + i) = Some b -> is_Some (m !! (d + i)) ->
  copy_byte d s i m = Ok (tt, <[d + i := b]> m).
Proof.
  intros Hok Hs Hd. unfold copy_byte, bind. rewrite (load_Some _ _ _ Hs).
  rewrite store_Some by done. apply Hok in Hs. unfold u8. by rewrite wrap_small by lia.
Qed.

(** Copying upwards is right when the destination starts below the source or
    behind its end, copying downwards in the opposite situation. *)
Lemma copy_up m d s n :
  0 <= n -> mem_ok m -> mapped m s n -> mapped m d n -> (d <= s \/ s + n <= d) ->
  exists m', for_count (Z.to_nat n) (copy_byte d s) 0 m = Ok (tt, m') /\ copied m m' d s n.
Proof.
  intros Hn Hok Hs Hd Hdir.
  destruct (for_count_inv (fun k m' => copied m m' d s (Z.of_nat k)) (copy_byte d s)
              (Z.to_nat n) 0 m) as (m' & E & P).
  - intros k m1 Hk HP.
    destruct (Hs (s + Z.of_nat k)) as [b Hb]; [lia|].
    assert (Hb1 : m1 !! (s + Z.of_nat k) = Some b).
    { rewrite HP. case_bool_decide; [lia|done]. }
    assert (HS : is_Some (m1 !! (d + Z.of_nat k))).
    { rewrite HP. case_bool_decide; [lia|]. apply Hd. lia. }
    rewrite Z.add_0_l. eexists. split.
    { apply copy_byte_Ok; [by eapply copied_ok|done|done]. }
    intros a. destruct (decide (a = d + Z.of_nat k)) as [->|Hne].
    + rewrite lookup_insert_eq. rewrite bool_decide_eq_true_2 by lia.
      rewrite <-Hb. f_equal. lia.
    + rewrite lookup_insert_ne by done. rewrite HP.
      repeat case_bool_decide; try done; lia.
  - intros a. rewrite bool_decide_eq_false_2 by lia. done.
  - exists m'. split; [done|]. intros a. rewrite (P a). by rewrite Z2Nat.id by lia.
Qed.

Lemma copy_down m d s n :
  0 <= n -> mem_ok m -> mapped m s n -> mapped m d n -> s <= d ->
  exists m', for_down (Z.to_nat n) (copy_byte d s) m = Ok (tt, m') /\ copied m m' d s n.
Proof.
  intros Hn Hok Hs Hd Hdir.
  (* after the rounds n-1 .. k, the bytes [k .. n-1] are in place *)
  set (P := fun (k : nat) (m' : mem) => forall a,
        m' !! a = if bool_decide (d + Z.of_nat k <= a < d + n) then m !! (s + (a - d)) else m !! a).
  destruct (for_down_inv P (copy_byte d s) (Z.to_nat n) m) as (m' & E & HP).
  - intros k m1 Hk HP.
    assert (Hok1 : mem_ok m1).
    { intros a b Hb. rewrite HP in Hb. case_bool_decide; by apply Hok in Hb. }
    destruct (Hs (s + Z.of_nat k)) as [b Hb]; [lia|].
    assert (Hb1 : m1 !! (s + Z.of_nat k) = Some b).
    { rewrite HP. case_bool_decide; [lia|done]. }
    assert (HS : is_Some (m1 !! (d + Z.of_nat k))).
    { rewrite HP. case_bool_decide; [lia|]. apply Hd. lia. }
    eexists. split; [by apply copy_byte_Ok|].
    intros a. destruct (decide (a = d + Z.of_nat k)) as [->|Hne].
    + rewrite lookup_insert_eq. rewrite bool_decide_eq_true_2 by lia.
      rewrite <-Hb. f_equal. lia.
    + rewrite lookup_insert_ne by done. rewrite HP.
      repeat case_bool_decide; try done; lia.
  - intros a. rewrite bool_decide_eq_false_2 by lia. done.
  - exists m'. split; [done|]. intros a. rewrite (HP a).
    repeat case_bool_decide; try done; lia.
Qed.

Lemma internal_memcpy_spec m d s n :
  0 <= n -> mem_ok m -> mapped m s n -> mapped m d n -> (d <= s \/ s + n <= d) ->
  exists m', internal_memcpy d s n m = Ok (d, m') /\ copied m m' d s n.
Proof.
  intros. destruct (copy_up m d s n) as (m' & E & P); [done..|].
  exists m'. split; [|done]. unfold internal_memcpy, bind. by rewrite E.
Qed.

Lemma internal_memset_spec m s c n :
  0 <= n -> mapped m s n ->
  exists m', internal_memset s c n m = Ok (s, m') /\
    forall a, m' !! a = if bool_decide (s <= a < s + n) then Some (u8 c) else m !! a.
Proof.
  intros Hn Hs.
  destruct (for_count_inv (fun k (m' : mem) => forall a,
      m' !! a = if bool_decide (s <= a < s + Z.of_nat k) then Some (u8 c) else m !! a)
      (fun i => store (s + i) c) (Z.to_nat n) 0 m) as (m' & E & P).
  - intros k m1 Hk HP. rewrite Z.add_0_l. eexists. split.
    { apply store_Some. rewrite HP. case_bool_decide; [lia|]. apply Hs. lia. }
    intros a. destruct (decide (a = s + Z.of_nat k)) as [->|Hne].
    + rewrite lookup_insert_eq. by rewrite bool_decide_eq_true_2 by lia.
    + rewrite lookup_insert_ne by done. rewrite HP.
      repeat case_bool_decide; try done; lia.
  - intros a. by rewrite bool_decide_eq_false_2 by lia.
  - exists m'. split; [unfold internal_memset, bind; by rewrite E|].
    intros a. rewrite P. by rewrite Z2Nat.id by lia.
Qed.

Lemma bytes_at_app m a l1 l2 :
  bytes_at m a (l1 ++ l2) <-> bytes_at m a l1 /\ bytes_at m (a + Z.of_nat (length l1)) l2.
Proof.
  split.
  - intros H. split; intros i b Hi.
    + apply H. by apply lookup_app_l_Some.
    + rewrite <-(H (length l1 + i)%nat b); [f_equal; lia|].
      by rewrite lookup_app_r, Nat.add_comm, Nat.add_sub by lia.
  - intros [H1 H2] i b Hi. apply lookup_app_Some in Hi as [Hi|[Hl Hi]]; [by apply H1|].
    rewrite <-(H2 _ _ Hi). f_equal. lia.
Qed.
Lemma bytes_at_cons m a b l :
  bytes_at m a (b :: l) <-> m !! a = Some b /\ bytes_at m (a + 1) l.
Proof.
  change (b :: l) with ([b] ++ l). rewrite bytes_at_app. simpl. split.
  - intros [H1 H2]. split; [|done]. rewrite <-(H1 0%nat b); [f_equal; lia|done].
  - intros [H1 H2]. split; [|done]. intros [|i] c Hi; simplify_eq/=.
    by rewrite Z.add_0_r.
Qed.

(** Executable forms of the predicates, for concrete memories. *)
Fixpoint bytes_atb (m : mem) (a : Z) (l : list Z) : bool :=
  match l with
  | [] => true
  | b :: l => match m !! a with Some c => c =? b | None => false end && bytes_atb m (a + 1) l
  end.
Definition cstrb (m : mem) (a : Z) (l : list Z) : bool :=
  bytes_atb m a (l ++ [0]) && forallb (fun b => (0 <? b) && (b <? 256)) l.
Definition mappedb (m : mem) (a n : Z) : bool :=
  forallb (fun i => match m !! (a + Z.of_nat i) with Some _ => true | None => false end)
          (seq 0 (Z.to_nat n)).
Definition mem_okb (m : mem) : bool :=
  forallb (fun kb => (0 <=? snd kb) && (snd kb <? 256)) (map_to_list m).

Lemma bytes_atb_sound m a l : bytes_atb m a l = true -> bytes_at m a l.
Proof.
  revert a. induction l as [|b l IH]; intros a; simpl; [by intros _ i c|].
  intros Hb. breflect. apply bytes_at_cons. split; [|by apply IH].
  destruct (m !! a); [|done]. breflect. by subst.
Qed.
Lemma cstrb_sound m a l : cstrb m a l = true -> cstr m a l.
Proof.
  unfold cstrb. intros Hb. apply andb_true_iff in Hb as [H1 H2].
  split; [by apply bytes_atb_sound|]. apply Forall_lookup. intros i b Hi.
  rewrite forallb_forall in H2. specialize (H2 b (proj1 (list_elem_of_In _ _) (list_elem_of_lookup_2 _ _ _ Hi))).
  breflect. lia.
Qed.
Lemma mappedb_sound m a n : mappedb m a n = true -> mapped m a n.
Proof.
  unfold mappedb. rewrite forallb_forall. intros Hb b Hr.
  specialize (Hb (Z.to_nat (b - a))). rewrite in_seq in Hb. specialize (Hb ltac:(lia)).
  replace (a + Z.of_nat (Z.to_nat (b - a))) with b in Hb by lia.
  by destruct (m !! b).
Qed.
Lemma mem_okb_sound m : mem_okb m = true -> mem_ok m.
Proof.
  unfold mem_okb. rewrite forallb_forall. intros Hb a b Hab.
  specialize (Hb (a, b)). rewrite <-list_elem_of_In, elem_of_map_to_list in Hb.
  specialize (Hb Hab). simpl in Hb. breflect. lia.
Qed.

(** ** Memmove *)

(** [internal_memmove] copies the source block as it was before the call
    into the destination, for every overlap of the two blocks, and changes no
    other byte; it fails its check exactly on sizes of 2^63 and more. *)
Theorem internal_memmove_snapshot m d s n :
  0 <= n -> mem_ok m -> mapped m s n -> mapped m d n ->
  (n < 2 ^ 63 -> exists m', internal_memmove d s n m = Ok (d, m') /\ copied m m' d s n) /\
  (2 ^ 63 <= n -> internal_memmove d s n m = Fault AssertFailed).
Proof.
  intros Hn Hok Hs Hd. unfold internal_memmove. split; intros Hsz.
  - case (Z.leb_spec (2 ^ 63) n); [lia|intros _]. unfold bind.
    case (Z.ltb_spec d s); intros Hds.
    + destruct (copy_up m d s n) as (m' & E & P); [done..|by left; lia|].
      exists m'. by rewrite E.
    + unfold when. case (Z.ltb_spec s d); intros Hsd; simpl.
      * case (Z.ltb_spec 0 n); intros Hp.
        -- destruct (copy_down m d s n) as (m' & E & P); [done..|lia|].
           exists m'. by rewrite E.
        -- exists m. split; [done|]. intros a. by rewrite bool_decide_eq_false_2 by lia.
      * exists m. split; [done|]. assert (d = s) as -> by lia.
        intros a. case_bool_decide; [f_equal; lia|done].
  - case (Z.leb_spec (2 ^ 63) n); [done|lia].
Qed.

(** ** Decimal parsing *)

Definition dec_value (ds : list Z) : Z := fold_left (fun acc d => acc * 10 + (d - 48)) ds 0.
Definition clamp64 (v : Z) : Z := Z.max INT64_MIN (Z.min INT64_MAX v).

Lemma strtoll_digit_saturates v d :
  0 <= v -> 0 <= d <= 9 ->
  strtoll_digit (Z.min UINT64_MAX v) d = Z.min UINT64_MAX (v * 10 + d).
Proof.
  intros Hv Hd. unfold strtoll_digit.
  pose proof (Z_div_mod_eq_full UINT64_MAX 10) as E10.
  pose proof (Z.mod_pos_bound UINT64_MAX 10 ltac:(lia)).
  assert (HU : UINT64_MAX = 18446744073709551615) by done.
  change (UINT64_MAX / 10) with 1844674407370955161 in *.
  change (UINT64_MAX mod 10) with 5 in *.
  case (Z.leb_spec (Z.min UINT64_MAX v) 1844674407370955161); intros.
  - rewrite u64_small by lia. case (Z.leb_spec (Z.min UINT64_MAX v * 10) (UINT64_MAX - d)); lia.
  - case (Z.leb_spec UINT64_MAX (UINT64_MAX - d)); lia.
Qed.

Lemma strtoll_loop_digits m ds : forall fuel t stop v have,
  (length ds < fuel)%nat -> 0 <= v ->
  bytes_at m t (ds ++ [stop]) ->
  Forall (fun d => IsDigit d = true) ds -> IsDigit (s8 stop) = false ->
  strtoll_loop fuel t (Z.min UINT64_MAX v) have m =
    Ok ((t + Z.of_nat (length ds),
         Z.min UINT64_MAX (fold_left (fun acc d => acc * 10 + (d - 48)) ds v),
         have || negb (bool_decide (ds = []))), m).
Proof.
  induction ds as [|d ds IH]; intros fuel t stop v have Hf Hv Hb Hd Hs;
    (destruct fuel as [|fuel]; [simpl in Hf; lia|]); simpl in Hb;
    apply bytes_at_cons in Hb as [Hb Hr]; simpl; unfold bind; rewrite (loadc_Some _ _ _ Hb).
  - rewrite Hs. unfold ret. rewrite Z.add_0_r, orb_false_r. done.
  - inversion Hd as [|?? Hd1 Hd2]; subst. unfold IsDigit in Hd1. breflect.
    rewrite s8_id by lia. unfold IsDigit.
    destruct (Z.leb_spec 48 d); [|lia]. destruct (Z.leb_spec d 57); [|lia]. simpl.
    rewrite strtoll_digit_saturates by lia.
    rewrite (IH fuel (t + 1) stop (v * 10 + (d - 48)) true); [|simpl in Hf; lia|lia|done..].
    rewrite orb_true_l, orb_true_r. do 3 f_equal. f_equal. simpl length. lia.
Qed.

Lemma skip_spaces_spec m sp : forall a c,
  bytes_at m a (sp ++ [c]) -> Forall (fun b => IsSpace b = true) sp ->
  Forall (fun b => 0 <= b < 128) sp -> IsSpace (s8 c) = false ->
  skip_spaces a m = Ok (a + Z.of_nat (length sp), m).
Proof.
  intros a c Hb Hsp Hr Hc. unfold skip_spaces.
  pose proof (bytes_at_size _ _ _ Hb) as Hsz. rewrite length_app in Hsz. simpl in Hsz.
  apply bytes_at_app in Hb as [Hb1 Hb2]. apply bytes_at_cons in Hb2 as [Hb2 _].
  rewrite (scan_stop _ m (length sp) (Ok (Some (a + Z.of_nat (length sp)), m))); [done|lia| | |done].
  - intros j Hj. destruct (lookup_lt_is_Some_2 sp j Hj) as [b Hbj].
    unfold bind. rewrite (loadc_Some _ _ _ (Hb1 _ _ Hbj)).
    rewrite Forall_lookup in Hsp, Hr. apply Hr in Hbj as Hbr. apply Hsp in Hbj.
    rewrite s8_id by lia. by rewrite Hbj.
  - unfold bind. rewrite (loadc_Some _ _ _ Hb2). by rewrite Hc.
Qed.

Lemma dec_value_nonneg ds : forall v, 0 <= v ->
  Forall (fun d => IsDigit d = true) ds ->
  0 <= fold_left (fun acc d => acc * 10 + (d - 48)) ds v.
Proof.
  induction ds as [|d ds IH]; intros v Hv Hd; simpl; [done|].
  inversion Hd as [|?? Hx ?]; subst. unfold IsDigit in Hx. breflect. apply IH; [lia|done].
Qed.

Lemma clamp64_pos v : 0 <= v -> Z.min INT64_MAX (Z.min UINT64_MAX v) = clamp64 v.
Proof. unfold clamp64, INT64_MAX, INT64_MIN, UINT64_MAX. lia. Qed.
Lemma clamp64_neg v : 0 <= v ->
  (if INT64_MAX <? Z.min UINT64_MAX v then INT64_MIN else - Z.min UINT64_MAX v) = clamp64 (- v).
Proof. unfold clamp64, INT64_MAX, INT64_MIN, UINT64_MAX. intros. case_test; lia. Qed.

Lemma strtoll_number_spec m p sg ds stop :
  bytes_at m p (sg ++ ds ++ [stop]) ->
  sg ∈ [[]; [43]; [45]] -> ds <> [] ->
  Forall (fun d => IsDigit d = true) ds -> IsDigit (s8 stop) = false ->
  strtoll_number p m =
    Ok ((clamp64 (if bool_decide (sg = [45]) then - dec_value ds else dec_value ds),
         p + Z.of_nat (length sg + length ds)), m).
Proof.
  intros Hb Hsg Hne Hds Hstop.
  pose proof (bytes_at_size _ _ _ Hb) as Hsz. rewrite !length_app in Hsz. simpl in Hsz.
  pose proof (dec_value_nonneg ds 0 ltac:(lia) Hds) as Hnn. fold (dec_value ds) in Hnn.
  apply bytes_at_app in Hb as [Hb1 Hb2].
  pose proof (strtoll_loop_digits m ds (S (size m)) _ stop 0 false ltac:(lia) ltac:(lia) Hb2 Hds Hstop) as Hl.
  change (fold_left _ ds 0) with (dec_value ds) in Hl.
  rewrite (bool_decide_eq_false_2 (ds = []) Hne) in Hl.
  change (Z.min UINT64_MAX 0) with 0 in Hl. cbn [negb orb] in Hl.
  unfold strtoll_number, bind at 1.
  repeat (apply elem_of_cons in Hsg as [->|Hsg]); [| | |by apply elem_of_nil in Hsg]; simpl length in *.
  - destruct ds as [|d0 ds']; [done|]. simpl in Hb2. apply bytes_at_cons in Hb2 as [Hd _].
    rewrite Z.add_0_r in Hd, Hl. rewrite (loadc_Some _ _ _ Hd).
    inversion Hds as [|?? Hx ?]; subst. unfold IsDigit in Hx. breflect.
    rewrite s8_id by lia.
    destruct (Z.eqb_spec d0 43); [lia|]. destruct (Z.eqb_spec d0 45); [lia|]. simpl orb. cbv iota.
    unfold bind. rewrite Hl. cbn -[Z.min]. by rewrite clamp64_pos.
  - apply bytes_at_cons in Hb1 as [Hd _]. rewrite (loadc_Some _ _ _ Hd).
    change (s8 43) with 43. cbn [Z.eqb Pos.eqb orb].
    unfold bind. change (Z.of_nat 1) with 1 in Hl. rewrite Hl. cbn -[Z.min Z.add]. rewrite clamp64_pos by done.
    unfold ret. do 3 f_equal. lia.
  - apply bytes_at_cons in Hb1 as [Hd _]. rewrite (loadc_Some _ _ _ Hd).
    change (s8 45) with 45. cbn [Z.eqb Pos.eqb orb].
    unfold bind. change (Z.of_nat 1) with 1 in Hl. rewrite Hl. cbn -[Z.min Z.add Z.ltb Z.opp]. rewrite clamp64_neg by done.
    unfold ret. do 3 f_equal. lia.
Qed.

Lemma number_head_not_space sg ds stop :
  sg ∈ [[]; [43]; [45]] -> ds <> [] -> Forall (fun d => IsDigit d = true) ds ->
  exists c r, sg ++ ds ++ [stop] = c :: r /\ IsSpace (s8 c) = false.
Proof.
  intros Hsg Hne Hds. repeat (apply elem_of_cons in Hsg as [->|Hsg]);
    [|by repeat eexists..|by apply elem_of_nil in Hsg].
  destruct ds as [|d ds]; [done|]. exists d, (ds ++ [stop]). split; [done|].
  inversion Hds as [|?? Hx ?]; subst. unfold IsDigit in Hx. breflect.
  rewrite s8_id by lia. unfold IsSpace.
  repeat (match goal with |- context [?x =? ?y] => destruct (Z.eqb_spec x y); [lia|] end). done.
Qed.

Lemma space_ascii b : IsSpace b = true -> 0 <= b < 128.
Proof.
  unfold IsSpace. intros Hx.
  repeat (apply orb_true_iff in Hx as [Hx|Hx]); breflect; lia.
Qed.

(** On spaces, an optional sign and a non-empty run of decimal digits,
    [internal_simple_strtoll] answers the signed value of the digits clamped to
    64 bits (no wrap-around whatever the number of digits) and the address of
    the first character behind them. *)
Theorem internal_simple_strtoll_clamps m a sp sg ds stop :
  bytes_at m a (sp ++ sg ++ ds ++ [stop]) ->
  Forall (fun b => IsSpace b = true) sp ->
  sg ∈ [[]; [43]; [45]] -> ds <> [] ->
  Forall (fun d => IsDigit d = true) ds -> IsDigit (s8 stop) = false ->
  internal_simple_strtoll a 10 m =
    Ok ((clamp64 (if bool_decide (sg = [45]) then - dec_value ds else dec_value ds),
         a + Z.of_nat (length sp) + Z.of_nat (length sg + length ds)), m).
Proof.
  intros Hb Hsp Hsg Hne Hds Hstop. apply bytes_at_app in Hb as [Hb1 Hb2].
  destruct (number_head_not_space sg ds stop Hsg Hne Hds) as (c & r & Hq & Hc).
  unfold internal_simple_strtoll. change (negb (10 =? 10)) with false. cbv iota.
  unfold bind.
  rewrite (skip_spaces_spec m sp a c); [by apply strtoll_number_spec with stop| |done| |done].
  - apply bytes_at_app. split; [done|]. rewrite Hq in Hb2.
    apply bytes_at_cons in Hb2 as [Hb2 _]. apply bytes_at_cons. done.
  - eapply Forall_impl; [|exact Hsp]. intros b. apply space_ascii.
Qed.

Definition ex_strtoll : mem := list_to_map (zip [100; 101; 102; 103; 104] [32; 45; 52; 50; 0]).
Lemma internal_simple_strtoll_clamps_witness :
  internal_simple_strtoll 100 10 ex_strtoll = Ok ((-42, 104), ex_strtoll).
Proof.
  apply (internal_simple_strtoll_clamps ex_strtoll 100 [32] [45] [52; 50] 0).
  - by apply bytes_atb_sound.
  - by repeat constructor.
  - set_solver.
  - done.
  - by repeat constructor.
  - reflexivity.
Defined.

Definition ex_block : mem := list_to_map (zip [10; 11; 12; 13] [1; 2; 3; 4]).
Lemma internal_memmove_snapshot_witness :
  exists m', internal_memmove 11 10 3 ex_block = Ok (11, m') /\ copied ex_block m' 11 10 3.
Proof.
  apply (internal_memmove_snapshot ex_block 11 10 3); [lia|..|lia].
  - by apply mem_okb_sound.
  - by apply mappedb_sound.
  - by apply mappedb_sound.
Defined.
