(* ===== verification/Dfsan.v ===== *)
(** * The DFSan runtime core

    [llvm_mode/dfsan_rt/dfsan/dfsan.cc], [dfsan.h] and [dfsan_platform.h]: the
    shadow mapping, the label operations the instrumentation calls, and the
    state every wrapper of the runtime works on.  Labels are created and joined
    by the tag set of [runtime/src/tag_set_wrap.rs]; the runtime reaches it
    through the six C functions of [runtime/include/tag_set.h], which are the
    operations of the class [LabelStore].  [LabelStoreSpec] says what the
    runtime relies on: labels denote sets of input offsets and joining labels
    joins the sets. *)

From S2P Require Import Prelude CMem.

Local Open Scope Z_scope.

(** ** The tag set as the runtime sees it ([runtime/include/tag_set.h]) *)

Class LabelStore (T : Type) := {
  tag_set_insert : Z -> T -> res (Z * T);
  tag_set_combine : Z -> Z -> T -> res (Z * T);
  tag_set_combine_n : list Z -> bool -> T -> res (Z * T);
  tag_set_mark_sign : Z -> T -> res T;
  tag_set_infer_shape_in_math_op : Z -> Z -> T -> res T;
  tag_set_combine_and : Z -> T -> res T;
}.

(** With its flag set, [tag_set_combine_n] looks, among 2, 4 or 8 labels, at the first
    one that is not zero and at the last one: if they begin and end a run of as many
    offsets as there are labels, it takes the labels for the bytes of one variable.
    This is right if the first label is a single offset and the labels together are
    that run. *)
Definition shape_sound (Xs : list (gset Z)) : Prop :=
  let n := Z.of_nat (length Xs) in
  n = 2 \/ n = 4 \/ n = 8 -> forall X Y b, head (filter (fun X => X <> ∅) Xs) = Some X -> list.last Xs = Some Y ->
    b ∈ X -> (forall o, o ∈ X -> b <= o) ->
    b + n - 1 ∈ Y -> (forall o, o ∈ Y -> o <= b + n - 1) ->
    X = {[ b ]} /\ forall o, o ∈ ⋃ Xs <-> b <= o < b + n.

(** What a store of labels means: [taint t l] is the set of input offsets the label
    [l] stands for.  [ls_exact t] says that no join so far has lost an offset,
    [ls_room t k] that there is room for [k] more joins, [ls_offset o] that the store
    can hold the offset [o]. *)
Class LabelStoreView (T : Type) := {
  ls_ok : T -> Prop;
  ls_valid : T -> Z -> Prop;
  taint : T -> Z -> gset Z;
  ls_exact : T -> Prop;
  ls_room : T -> nat -> Prop;
  ls_offset : Z -> Prop;
}.

Section View.
Context {T : Type} `{!LabelStoreView T}.

(** [t'] is [t] with more labels, after [k] joins: existing labels keep their meaning. *)
Record tags_ext (k : nat) (t t' : T) : Prop := mkTagsExt {
  te_ok : ls_ok t';
  te_label l : ls_valid t l -> ls_valid t' l /\ taint t' l = taint t l;
  te_exact : ls_exact t' -> ls_exact t;
  te_room j : ls_room t (k + j) -> ls_room t' j
}.
(** The offsets of [l] are among [P], and are all of [P] if no join has lost one. *)
Definition taint_is (t : T) (l : Z) (P : Z -> Prop) : Prop :=
  (forall o, o ∈ taint t l -> P o) /\ (ls_exact t -> forall o, P o -> o ∈ taint t l).

Lemma tags_ext_refl t : ls_ok t -> tags_ext 0 t t.
Proof. by split. Qed.
Lemma tags_ext_trans j k t1 t2 t3 : tags_ext j t1 t2 -> tags_ext k t2 t3 -> tags_ext (j + k) t1 t3.
Proof.
  intros [_ L1 E1 R1] [Hok L2 E2 R2]. split; [done| |auto|].
  - intros l Hl. destruct (L1 l Hl) as [Hl2 T1]. destruct (L2 l Hl2) as [Hl3 T2].
    split; [done|congruence].
  - intros i Hi. apply R2, R1. by rewrite Nat.add_assoc.
Qed.
Lemma taint_is_eq t l X : (ls_exact t -> taint t l = X) -> taint t l ⊆ X -> taint_is t l (fun o => o ∈ X).
Proof. intros He Hs. split; [set_solver|]. intros Hx o. by rewrite He. Qed.
Lemma taint_is_refl t l : taint_is t l (fun o => o ∈ taint t l).
Proof. by split. Qed.
Lemma taint_is_iff t l P Q : taint_is t l P -> (forall o, P o <-> Q o) -> taint_is t l Q.
Proof. intros [H1 H2] HPQ. split; [intros o Ho; by apply HPQ, H1|intros He o Ho; by apply H2, HPQ]. Qed.
(** An old label in a store with more labels. *)
Lemma taint_is_ext k t t' l P : tags_ext k t t' -> ls_valid t l -> taint_is t l P -> taint_is t' l P.
Proof.
  intros [_ L E _] Hl [H1 H2]. destruct (L l Hl) as [_ Et]. unfold taint_is. rewrite Et.
  split; [done|]. intros He. by apply H2, E.
Qed.
(** A join of labels whose offsets are known. *)
Lemma taint_is_join k t t' l l1 l2 P1 P2 : tags_ext k t t' -> taint_is t l1 P1 -> taint_is t l2 P2 ->
  taint_is t' l (fun o => o ∈ taint t l1 \/ o ∈ taint t l2) -> taint_is t' l (fun o => P1 o \/ P2 o).
Proof.
  intros [_ _ E _] [A1 B1] [A2 B2] [A B]. split.
  - intros o [?|?]%A; [left|right]; auto.
  - intros He o Ho. apply B; [done|]. destruct Ho; [left|right]; auto.
Qed.
Lemma room_le k t t' j n : tags_ext k t t' -> ls_room t n -> (n = k + j)%nat -> ls_room t' j.
Proof. intros X R ->. by apply (te_room _ _ _ X). Qed.
End View.

(** What the runtime expects of the operations.  A join may run out of room.  Signs,
    shapes and masks are notes on a label that leave its offsets alone. *)
Class LabelStoreSpec (T : Type) `{LabelStore T} `{LabelStoreView T} := {
  ls_valid_zero t : ls_ok t -> ls_valid t 0;
  taint_zero t : ls_ok t -> taint t 0 = ∅;
  ls_room_mono t j k : ls_room t k -> (j <= k)%nat -> ls_room t j;
  combine_spec t l1 l2 : ls_ok t -> ls_valid t l1 -> ls_valid t l2 -> ls_room t 1 ->
    exists l t', tag_set_combine l1 l2 t = Ok (l, t') /\ tags_ext 1 t t' /\ ls_valid t' l /\
      taint_is t' l (fun o => o ∈ taint t l1 \/ o ∈ taint t l2);
  combine_n_spec t ls : ls_ok t -> Forall (ls_valid t) ls -> ls_room t (length ls) ->
    exists l t', tag_set_combine_n ls false t = Ok (l, t') /\ tags_ext (length ls) t t' /\ ls_valid t' l /\
      taint_is t' l (fun o => o ∈ ⋃ (taint t <$> ls));
  combine_n_shape_spec t ls : ls_ok t -> Forall (ls_valid t) ls -> ls_room t (length ls) ->
    shape_sound (taint t <$> ls) ->
    exists l t', tag_set_combine_n ls true t = Ok (l, t') /\ tags_ext (length ls) t t' /\ ls_valid t' l /\
      taint_is t' l (fun o => o ∈ ⋃ (taint t <$> ls));
  insert_spec t off : ls_ok t -> ls_offset off -> ls_room t 1 ->
    exists l t', tag_set_insert off t = Ok (l, t') /\ tags_ext 1 t t' /\ ls_valid t' l /\
      taint t' l = {[ off ]};
  mark_sign_spec t l : ls_ok t -> ls_valid t l ->
    exists t', tag_set_mark_sign l t = Ok t' /\ tags_ext 0 t t';
  math_op_spec t l n : ls_ok t -> ls_valid t l -> 0 < n ->
    exists t', tag_set_infer_shape_in_math_op l n t = Ok t' /\ tags_ext 0 t t';
  combine_and_spec t l : ls_ok t -> ls_valid t l ->
    exists t', tag_set_combine_and l t = Ok t' /\ tags_ext 0 t t';
}.

(** ** Address space ([dfsan_platform.h], x86-64 and the other targets) *)

Inductive arch := X86_64 | MIPS64 | AARCH64_39 | AARCH64_42 | AARCH64_48.

Record Mapping := { kShadowAddr : Z; kUnionTableAddr : Z; kAppAddr : Z; kShadowMask : Z }.
Definition MappingOf (a : arch) : Mapping :=
  match a with
  | X86_64 => Build_Mapping 0x10000 0x400000000000 0x700000008000 (u64 (Z.lnot 0x700000000000))
  | MIPS64 => Build_Mapping 0x10000 0x2000000000 0xF000008000 (u64 (Z.lnot 0xF000000000))
  | AARCH64_39 => Build_Mapping 0x10000 0x1000000000 0x7000008000 (u64 (Z.lnot 0x7800000000))
  | AARCH64_42 => Build_Mapping 0x10000 0x8000000000 0x3ff00008000 (u64 (Z.lnot 0x3c000000000))
  | AARCH64_48 => Build_Mapping 0x10000 0x8000000000 0xffff00008000 (u64 (Z.lnot 0xfffff0000000))
  end.

Inductive MappingType :=
  MAPPING_SHADOW_ADDR | MAPPING_UNION_TABLE_ADDR | MAPPING_APP_ADDR | MAPPING_SHADOW_MASK.
Definition MappingImpl (m : Mapping) (t : MappingType) : Z :=
  match t with
  | MAPPING_SHADOW_ADDR => kShadowAddr m
  | MAPPING_UNION_TABLE_ADDR => kUnionTableAddr m
  | MAPPING_APP_ADDR => kAppAddr m
  | MAPPING_SHADOW_MASK => kShadowMask m
  end.
Definition ShadowAddr (a : arch) : Z := MappingImpl (MappingOf a) MAPPING_SHADOW_ADDR.
Definition UnionTableAddr (a : arch) : Z := MappingImpl (MappingOf a) MAPPING_UNION_TABLE_ADDR.
Definition AppAddr (a : arch) : Z := MappingImpl (MappingOf a) MAPPING_APP_ADDR.
Definition ShadowMask (a : arch) : Z := MappingImpl (MappingOf a) MAPPING_SHADOW_MASK.
Definition UnusedAddr (a : arch) : Z := MappingImpl (MappingOf a) MAPPING_UNION_TABLE_ADDR.

(** [shadow_for] of dfsan.h: 4 bytes of shadow for a byte of memory. *)
Definition shadow_for_on (a : arch) (ptr : Z) : Z :=
  u64 (Z.shiftl (Z.land ptr (ShadowMask a)) 2).
Definition shadow_for (ptr : Z) : Z := shadow_for_on X86_64 ptr.

(** ** State of the runtime *)

Record Flags := {
  warn_unimplemented : bool;
  warn_nonzero_labels : bool;
  strict_data_dependencies : bool;
  dump_labels_at_exit : string;
}.
(** [Flags::SetDefaults] over dfsan_flags.inc. *)
Definition SetDefaults : Flags :=
  {| warn_unimplemented := true; warn_nonzero_labels := false;
     strict_data_dependencies := true; dump_labels_at_exit := "" |}.

(** The messages of [Report]. *)
Inductive report :=
| CallToUninstrumented (fname : Z)
| SawNonzeroLabel
| UnsupportedVarargCall (fname : Z).

(** [app] is the application's memory, [shadow] the labels by shadow address
    (the shadow region is mapped zero-filled), [tags] the tag set, [os] what
    the operating system and libc keep, [retl] the cell a wrapper's
    [ret_label] points to, [wcb] the [write_callback_info] of
    dfsan_custom.cc. *)
Record st (T OS : Type) := mkSt {
  app : mem;
  shadow : gmap Z Z;
  tags : T;
  os : OS;
  retl : Z;
  flags : Flags;
  reports : list report;
  wcb : Z * Z;
}.
Arguments mkSt {T OS}.
Arguments app {T OS}. Arguments shadow {T OS}. Arguments tags {T OS}.
Arguments os {T OS}. Arguments retl {T OS}. Arguments flags {T OS}.
Arguments reports {T OS}. Arguments wcb {T OS}.

Section State.
Context {T OS : Type}.
Implicit Types s : st T OS.

Definition set_app (m : mem) s : st T OS :=
  mkSt m (shadow s) (tags s) (os s) (retl s) (flags s) (reports s) (wcb s).
Definition set_shadow (h : gmap Z Z) s : st T OS :=
  mkSt (app s) h (tags s) (os s) (retl s) (flags s) (reports s) (wcb s).
Definition set_tags (t : T) s : st T OS :=
  mkSt (app s) (shadow s) t (os s) (retl s) (flags s) (reports s) (wcb s).
Definition set_os (o : OS) s : st T OS :=
  mkSt (app s) (shadow s) (tags s) o (retl s) (flags s) (reports s) (wcb s).
Definition set_retl (l : Z) s : st T OS :=
  mkSt (app s) (shadow s) (tags s) (os s) l (flags s) (reports s) (wcb s).
Definition set_reports (r : list report) s : st T OS :=
  mkSt (app s) (shadow s) (tags s) (os s) (retl s) (flags s) r (wcb s).
Definition set_wcb (w : Z * Z) s : st T OS :=
  mkSt (app s) (shadow s) (tags s) (os s) (retl s) (flags s) (reports s) w.

(** A routine that only uses the application's memory. *)
Definition on_mem {A} (f : M mem A) : M (st T OS) A :=
  fun s => match f (app s) with
           | Ok (a, m) => Ok (a, set_app m s)
           | Fault e => Fault e
           end.
(** A call of the tag set. *)
Definition on_tags {A} (f : T -> res (A * T)) : M (st T OS) A :=
  fun s => match f (tags s) with
           | Ok (a, t) => Ok (a, set_tags t s)
           | Fault e => Fault e
           end.
Definition on_tags_ (f : T -> res T) : M (st T OS) unit :=
  fun s => match f (tags s) with
           | Ok t => Ok (tt, set_tags t s)
           | Fault e => Fault e
           end.
(** [*ret_label = l]. *)
Definition set_ret_label (l : Z) : M (st T OS) unit := modify (set_retl l).
Definition Report (r : report) : M (st T OS) unit :=
  modify (fun s => set_reports (reports s ++ [r]) s).

(** The shadow word at a shadow address, and the accesses the code makes:
    outside the region [dfsan_init] maps (the shadow of a null pointer, say)
    they fault. *)
Definition label_at (p : Z) s : Z := default 0 (shadow s !! p).
Definition shadow_mapped (p : Z) : bool :=
  (ShadowAddr X86_64 <=? p) && (p + 4 <=? UnusedAddr X86_64).
Definition read_shadow (p : Z) : M (st T OS) Z :=
  fun s => if shadow_mapped p then Ok (label_at p s, s) else Fault Segv.
Definition write_label (p l : Z) : M (st T OS) unit :=
  fun s => if shadow_mapped p then Ok (tt, set_shadow (<[p := l]> (shadow s)) s) else Fault Segv.

(** The label of an application byte. *)
Definition lbl s (a : Z) : Z := label_at (shadow_for a) s.
End State.

(** ** dfsan.cc *)

Section Runtime.
Context {T OS : Type} `{LabelStore T}.
Abbreviation D := (M (st T OS)).

Definition __dfsan_union (l1 l2 : Z) : D Z :=
  if l1 =? 0 then ret l2 else
  if l2 =? 0 then ret l1 else
  on_tags (tag_set_combine l1 l2).

(** The array of [n] labels that starts at shadow address [p]. *)
Definition labels_at (s : st T OS) (p : Z) (n : nat) : list Z :=
  (fun i : nat => label_at (p + 4 * Z.of_nat i) s) <$> seq 0 n.
Definition read_labels (p n : Z) : D (list Z) :=
  fun s => if (n =? 0) || (shadow_mapped p && shadow_mapped (p + 4 * (n - 1)))
           then Ok (labels_at s p (Z.to_nat n), s) else Fault Segv.

(** [(uint32_t)n]: the count is cut to 32 bits. *)
Definition __dfsan_union_load (ls n : Z) : D Z :=
  if ls =? 0 then ret 0 else
  labs <- read_labels ls (u32 n) ;;
  on_tags (tag_set_combine_n labs true).

Definition __dfsan_unimplemented (fname : Z) : D unit :=
  w <- gets (fun s => warn_unimplemented (flags s)) ;;
  when w (Report (CallToUninstrumented fname)).

Definition __dfsan_nonzero_label : D unit :=
  w <- gets (fun s => warn_nonzero_labels (flags s)) ;;
  when w (Report SawNonzeroLabel).

Definition __dfsan_vararg_wrapper (fname : Z) : D unit :=
  Report (UnsupportedVarargCall fname) ;;; fail DieCalled.

Definition dfsan_mark_signed (l1 l2 : Z) : D Z :=
  when (0 <? l1) (on_tags_ (tag_set_mark_sign l1)) ;;;
  when (0 <? l2) (on_tags_ (tag_set_mark_sign l2)) ;;;
  ret 0.

Definition dfsan_infer_shape_in_math_op (l1 l2 len : Z) : D unit :=
  when (0 <? l1) (on_tags_ (tag_set_infer_shape_in_math_op l1 len)) ;;;
  when (0 <? l2) (on_tags_ (tag_set_infer_shape_in_math_op l2 len)).

Definition dfsan_combine_and_ins (lb : Z) : D unit :=
  on_tags_ (tag_set_combine_and lb).

Definition dfsan_union (l1 l2 : Z) : D Z :=
  if l1 =? l2 then ret l1 else __dfsan_union l1 l2.

(** [int pos] is passed on as a [uint32_t]. *)
Definition dfsan_create_label (pos : Z) : D Z :=
  on_tags (tag_set_insert (u32 pos)).

Definition set_label_body (label p i : Z) : D unit :=
  old <- read_shadow (p + 4 * i) ;;
  if label =? old then ret tt else write_label (p + 4 * i) label.
Definition __dfsan_set_label (label addr size : Z) : D unit :=
  for_count (Z.to_nat size) (set_label_body label (shadow_for addr)) 0.

Definition dfsan_set_label (label addr size : Z) : D unit :=
  __dfsan_set_label label addr size.

Definition add_label_body (label p i : Z) : D unit :=
  old <- read_shadow (p + 4 * i) ;;
  if old =? label then ret tt
  else l <- __dfsan_union old label ;; write_label (p + 4 * i) l.
Definition dfsan_add_label (label addr size : Z) : D unit :=
  for_count (Z.to_nat size) (add_label_body label (shadow_for addr)) 0.

Definition __dfsw_dfsan_get_label (data data_label : Z) : D Z :=
  set_ret_label 0 ;;; ret data_label.

Definition dfsan_read_label (addr size : Z) : D Z :=
  if size =? 0 then ret 0 else
  let ls := shadow_for addr in
  if ls =? 0 then ret 0 else
  labs <- read_labels ls (u32 size) ;;
  on_tags (tag_set_combine_n labs false).

Definition dfsan_shadow_for (addr : Z) : Z := shadow_for addr.

(** [InitializePlatformEarly] where DFSAN_RUNTIME_VMA is defined (aarch64):
    the number of address bits the frame address shows selects the mapping. *)
Definition InitializePlatformEarly (frame : Z) : res Z :=
  let vmaSize := Z.log2 frame + 1 in
  if vmaSize =? 39 then Ok (ShadowMask AARCH64_39) else
  if vmaSize =? 42 then Ok (ShadowMask AARCH64_42) else
  if vmaSize =? 48 then Ok (ShadowMask AARCH64_48) else
  Fault DieCalled.

(** The mappings [dfsan_init] makes: the shadow region, which must be mapped,
    and the protected gap, unless the executable was loaded inside it. *)
Record Region := mkRegion { r_addr : Z; r_size : Z; r_access : bool }.
Definition dfsan_init (a : arch) (mmap_ok : bool) (init_addr : Z) : res (list Region) :=
  if negb mmap_ok then Fault DieCalled else
  Ok (mkRegion (ShadowAddr a) (UnusedAddr a - ShadowAddr a) true ::
      (if negb ((UnusedAddr a <=? init_addr) && (init_addr <? AppAddr a))
       then [mkRegion (UnusedAddr a) (AppAddr a - UnusedAddr a) false] else [])).

End Runtime.

(** ** The shadow mapping *)

(** The addresses the application may use on x86-64: from [AppAddr] to the end
    of the user address space. *)
Definition is_app (a : Z) : Prop := AppAddr X86_64 <= a < 2 ^ 47.
Definition app_range (a n : Z) : Prop := AppAddr X86_64 <= a /\ a + n <= 2 ^ 47 /\ 0 <= n.

Lemma land_shiftl_small a b n : 0 <= n -> 0 <= a < 2 ^ n -> Z.land a (Z.shiftl b n) = 0.
Proof.
  intros Hn Ha. apply Z.bits_inj'. intros i Hi.
  rewrite Z.land_spec, Z.bits_0, Z.shiftl_spec by done.
  destruct (Z_lt_le_dec i n) as [Hl|Hl].
  - rewrite (Z.testbit_neg_r b) by lia. apply andb_false_r.
  - rewrite <-(Z.mod_small a (2 ^ n)) by done. by rewrite Z.mod_pow2_bits_high by lia.
Qed.

Lemma x86_64_mask a : 0 <= a < 2 ^ 47 -> Z.land a (ShadowMask X86_64) = a mod 2 ^ 44.
Proof.
  intros Ha.
  change (ShadowMask X86_64) with (Z.lor (Z.ones 44) (Z.shiftl (Z.ones 17) 47)).
  rewrite Z.land_lor_distr_r, Z.land_ones by lia.
  rewrite land_shiftl_small by lia. apply Z.lor_0_r.
Qed.

Lemma shadow_for_app a : is_app a -> shadow_for a = 4 * (a - 0x700000000000).
Proof.
  intros Ha. change (0x700000008000 <= a < 140737488355328) in Ha.
  unfold shadow_for, shadow_for_on.
  rewrite x86_64_mask by lia. rewrite Z.shiftl_mul_pow2 by lia.
  replace (a mod 2 ^ 44) with (a - 0x700000000000).
  - rewrite u64_small; lia.
  - replace a with (a - 0x700000000000 + 7 * 2 ^ 44) at 2 by lia.
    rewrite Z_mod_plus_full, Z.mod_small; lia.
Qed.

Lemma app_range_in a n b : app_range a n -> a <= b < a + n -> is_app b.
Proof. unfold app_range, is_app. lia. Qed.

Lemma app_range_shadow a n i : app_range a n -> 0 <= i < n ->
  shadow_for a + 4 * i = shadow_for (a + i).
Proof.
  intros Hr Hi. rewrite !shadow_for_app; [lia|..]; eapply app_range_in; eauto; lia.
Qed.

Lemma app_shadow_nonzero a : is_app a -> shadow_for a <> 0.
Proof.
  intros Ha. rewrite shadow_for_app by done.
  change (0x700000008000 <= a < 140737488355328) in Ha. lia.
Qed.

Lemma app_shadow_mapped a : is_app a -> shadow_mapped (shadow_for a) = true.
Proof.
  intros Ha. unfold shadow_mapped. rewrite shadow_for_app by done.
  change (0x700000008000 <= a < 140737488355328) in Ha.
  change (ShadowAddr X86_64) with 0x10000. change (UnusedAddr X86_64) with 0x400000000000.
  apply andb_true_iff. rewrite !Z.leb_le. lia.
Qed.

Lemma read_shadow_app {T OS} a (s : st T OS) :
  is_app a -> read_shadow (shadow_for a) s = Ok (lbl s a, s).
Proof. intros Ha. unfold read_shadow. by rewrite app_shadow_mapped. Qed.
Lemma write_label_app {T OS} a l (s : st T OS) :
  is_app a -> write_label (shadow_for a) l s = Ok (tt, set_shadow (<[shadow_for a := l]> (shadow s)) s).
Proof. intros Ha. unfold write_label. by rewrite app_shadow_mapped. Qed.
Lemma read_labels_app {T OS} a n (s : st T OS) :
  app_range a n ->
  read_labels (shadow_for a) n s = Ok (labels_at s (shadow_for a) (Z.to_nat n), s).
Proof.
  intros Hr. unfold read_labels. case (Z.eqb_spec n 0); [done|intros Hn].
  unfold app_range in Hr. rewrite (app_range_shadow a n) by (unfold app_range; lia).
  by rewrite !app_shadow_mapped by (unfold is_app; lia).
Qed.

(** The shadow words of the application's bytes are four bytes long, lie
    inside the region [dfsan_init] maps for them, hence away from the
    application's own addresses, and two different bytes never share a shadow
    byte. *)
Theorem shadow_mapping_sound a b :
  is_app a -> is_app b ->
  ShadowAddr X86_64 <= shadow_for a /\ shadow_for a + 4 <= UnusedAddr X86_64 /\
  UnusedAddr X86_64 <= AppAddr X86_64 /\
  (a <> b -> shadow_for a + 4 <= shadow_for b \/ shadow_for b + 4 <= shadow_for a).
Proof.
  intros Ha Hb. rewrite !shadow_for_app by done.
  change (0x700000008000 <= a < 140737488355328) in Ha.
  change (0x700000008000 <= b < 140737488355328) in Hb.
  change (ShadowAddr X86_64) with 0x10000. change (UnusedAddr X86_64) with 0x400000000000.
  change (AppAddr X86_64) with 0x700000008000. lia.
Qed.

Lemma shadow_mapping_sound_witness :
  ShadowAddr X86_64 <= shadow_for 0x7fffffffe000 /\ shadow_for 0x7fffffffe000 + 4 <= UnusedAddr X86_64.
Proof.
  destruct (shadow_mapping_sound 0x7fffffffe000 0x7ffff7fff000) as (H1 & H2 & _);
    [by vm_compute | by vm_compute | by split].
Defined.

(** The ranges [dfsan_init] maps tile the addresses from the shadow to the
    application without a gap or an overlap; only the protected part is left
    out, and only when the executable itself was loaded into it. *)
Theorem dfsan_init_regions a init_addr rs :
  dfsan_init a true init_addr = Ok rs ->
  exists gap,
    rs = mkRegion (ShadowAddr a) (UnusedAddr a - ShadowAddr a) true :: gap /\
    ShadowAddr a < UnusedAddr a < AppAddr a /\
    (gap = [] <-> UnusedAddr a <= init_addr < AppAddr a) /\
    (forall g, g ∈ gap -> r_addr g = UnusedAddr a /\ r_addr g + r_size g = AppAddr a /\ r_access g = false).
Proof.
  unfold dfsan_init. cbn [negb]. intros [= <-]. eexists. split; [reflexivity|].
  split; [by destruct a|].
  destruct (Z.leb_spec (UnusedAddr a) init_addr); destruct (Z.ltb_spec init_addr (AppAddr a));
    cbn [negb andb]; (split; [split; [done||lia|lia||done] |]);
    intros g Hg; try (by apply elem_of_nil in Hg);
    apply list_elem_of_singleton in Hg as ->; cbn [r_addr r_size r_access];
    (repeat split; lia).
Qed.

Lemma dfsan_init_regions_witness :
  exists gap, [mkRegion 0x10000 (0x400000000000 - 0x10000) true;
               mkRegion 0x400000000000 (0x700000008000 - 0x400000000000) false]
    = mkRegion (ShadowAddr X86_64) (UnusedAddr X86_64 - ShadowAddr X86_64) true :: gap.
Proof.
  destruct (dfsan_init_regions X86_64 0x7ffff7a00000 _ eq_refl) as (gap & E & _).
  exists gap. rewrite <-E. reflexivity.
Defined.

(** The label words are twice as long as in the original runtime, and only the
    x86-64 table was moved to make room for them. *)
Lemma shadow_region_too_small :
  (exists p, AppAddr MIPS64 <= p < 2 ^ 40 /\ UnusedAddr MIPS64 <= shadow_for_on MIPS64 p) /\
  (exists p, AppAddr AARCH64_39 <= p < 2 ^ 39 /\
             UnusedAddr AARCH64_39 <= shadow_for_on AARCH64_39 p).
Proof.
  split; [exists 0xFF00008000|exists 0x7F00008000]; vm_compute;
    repeat split; discriminate.
Qed.

(** ** Effect of the label operations *)

Section LabelOps.
Context {T OS : Type} `{LabelStore T}.
Implicit Types s : st T OS.

Definition in_range (a n b : Z) : bool := bool_decide (a <= b < a + n).

(** [h] is the shadow of [s] with the application bytes [a .. a+n-1] labelled
    by [f]. *)
Definition relabelled s (h : gmap Z Z) (a n : Z) (f : Z -> Z) : Prop :=
  forall b, is_app b ->
    default 0 (h !! shadow_for b) = if in_range a n b then f b else lbl s b.

Lemma set_label_body_spec l a n k s h :
  app_range a n -> (k < Z.to_nat n)%nat ->
  relabelled s h a (Z.of_nat k) (fun _ => l) ->
  exists h', set_label_body l (shadow_for a) (Z.of_nat k) (set_shadow h s) = Ok (tt, set_shadow h' s)
    /\ relabelled s h' a (Z.of_nat (S k)) (fun _ => l).
Proof.
  intros Hr Hk HP. unfold set_label_body, bind.
  rewrite (app_range_shadow a n) by (done || lia).
  assert (Hka : is_app (a + Z.of_nat k)) by (eapply app_range_in; eauto; lia).
  rewrite read_shadow_app by done. unfold lbl at 1, label_at at 1. cbn [shadow set_shadow].
  case (Z.eqb_spec l (default 0 (h !! shadow_for (a + Z.of_nat k)))); intros Hl.
  - exists h. split; [done|]. intros b Hb. rewrite HP by done. unfold in_range.
    repeat case_bool_decide; try done; try lia.
    assert (b = a + Z.of_nat k) as -> by lia. rewrite Hl, HP by done.
    unfold in_range. by rewrite bool_decide_eq_false_2 by lia.
  - exists (<[shadow_for (a + Z.of_nat k) := l]> h). split; [by rewrite write_label_app|].
    intros b Hb. destruct (decide (b = a + Z.of_nat k)) as [->|Hne].
    + rewrite lookup_insert_eq. unfold in_range. by rewrite bool_decide_eq_true_2 by lia.
    + rewrite lookup_insert_ne by (rewrite !shadow_for_app by done; lia).
      rewrite HP by done. unfold in_range. repeat case_bool_decide; try done; lia.
Qed.

Lemma dfsan_set_label_spec l a n s :
  app_range a n ->
  exists h, dfsan_set_label l a n s = Ok (tt, set_shadow h s) /\
            relabelled s h a n (fun _ => l).
Proof.
  intros Hr. unfold dfsan_set_label, __dfsan_set_label.
  destruct (for_count_inv (fun k s' => exists h, s' = set_shadow h s /\
       relabelled s h a (Z.of_nat k) (fun _ => l))
     (set_label_body l (shadow_for a)) (Z.to_nat n) 0 s) as (s' & E & h & -> & P).
  - intros k s1 Hk (h & -> & HP). rewrite Z.add_0_l.
    destruct (set_label_body_spec l a n k s h Hr Hk HP) as (h' & E & P). eauto 10.
  - exists (shadow s). split; [by destruct s|]. intros b Hb. unfold in_range.
    by rewrite bool_decide_eq_false_2 by lia.
  - exists h. split; [done|]. unfold app_range in Hr. by rewrite Z2Nat.id in P by lia.
Qed.

(** No label appears from nowhere. *)
Lemma dfsan_set_label_values (P : Z -> Prop) l a n s s' :
  P l -> (forall p, P (label_at p s)) -> dfsan_set_label l a n s = Ok (tt, s') ->
  forall p, P (label_at p s').
Proof.
  intros Hl Hs. unfold dfsan_set_label, __dfsan_set_label.
  apply (for_count_pres (fun s => forall p, P (label_at p s))); [|done].
  intros i s1 s2 H1. unfold set_label_body, read_shadow, bind.
  destruct (shadow_mapped _) eqn:Em; [|done].
  case_test; [by intros [= <-]|]. unfold write_label. rewrite Em. intros [= <-] p.
  unfold label_at. cbn [shadow set_shadow].
  destruct (decide (p = shadow_for a + 4 * i)) as [->|Hne].
  - by rewrite lookup_insert_eq.
  - rewrite lookup_insert_ne by done. apply H1.
Qed.

(** C9: [dfsan_set_label] gives its label to every byte of the range and to no
    other byte, whatever the labels were, and changes nothing else. *)
Theorem dfsan_set_label_exact l a n s :
  app_range a n ->
  exists h, dfsan_set_label l a n s = Ok (tt, set_shadow h s) /\
    forall b, is_app b ->
      lbl (set_shadow h s) b = if bool_decide (a <= b < a + n) then l else lbl s b.
Proof. apply dfsan_set_label_spec. Qed.

End LabelOps.

(** ** Labels as sets of offsets *)

Section Taint.
Context {T OS : Type} `{!LabelStore T, !LabelStoreView T, !LabelStoreSpec T}.
Implicit Types s : st T OS.

(** Every label in the shadow is one the tag set knows. *)
Definition st_ok s : Prop :=
  ls_ok (tags s) /\ forall p, ls_valid (tags s) (label_at p s).

Lemma tags_ext_le j k (t t' : T) : tags_ext j t t' -> (j <= k)%nat -> tags_ext k t t'.
Proof. intros [A B C D] Hle. split; try done. intros i Hi. apply D, (ls_room_mono _ _ _ Hi). lia. Qed.

Lemma st_ok_ext k s t' : st_ok s -> tags_ext k (tags s) t' -> st_ok (set_tags t' s).
Proof. intros [_ Hv] [Hok He _ _]. split; [done|]. intros p. by destruct (He _ (Hv p)). Qed.

Lemma set_label_st_ok l a n s s' :
  st_ok s -> ls_valid (tags s) l -> dfsan_set_label l a n s = Ok (tt, s') ->
  tags s' = tags s -> st_ok s'.
Proof.
  intros [Hok Hv] Hl E Ht. split; [by rewrite Ht|]. rewrite Ht.
  eapply dfsan_set_label_values; eauto.
Qed.

(** The union of two labels. *)
Lemma dfsan_union_spec l1 l2 s :
  ls_ok (tags s) -> ls_valid (tags s) l1 -> ls_valid (tags s) l2 -> ls_room (tags s) 1 ->
  exists l t', dfsan_union l1 l2 s = Ok (l, set_tags t' s) /\ tags_ext 1 (tags s) t' /\
    ls_valid t' l /\ taint_is t' l (fun o => o ∈ taint (tags s) l1 \/ o ∈ taint (tags s) l2).
Proof.
  intros Hok H1 H2 Hroom.
  assert (Hid : forall l, ls_valid (tags s) l ->
    (forall o, o ∈ taint (tags s) l <-> o ∈ taint (tags s) l1 \/ o ∈ taint (tags s) l2) ->
    exists l' t', Ok (l, s) = Ok (l', set_tags t' s) /\ tags_ext 1 (tags s) t' /\
      ls_valid t' l' /\ taint_is t' l' (fun o => o ∈ taint (tags s) l1 \/ o ∈ taint (tags s) l2)).
  { intros l Hl Heq. exists l, (tags s). split; [by destruct s|]. split; [|split; [done|eapply taint_is_iff; [apply taint_is_refl|done]]].
    eapply tags_ext_le; [by apply tags_ext_refl|lia]. }
  unfold dfsan_union, __dfsan_union, ret.
  case (Z.eqb_spec l1 l2); [intros ->|intros Hne]; [apply Hid; [done|tauto]|].
  case (Z.eqb_spec l1 0); [intros ->|intros Hz1]; [apply Hid; [done|rewrite taint_zero by done; set_solver]|].
  case (Z.eqb_spec l2 0); [intros ->|intros Hz2]; [apply Hid; [done|rewrite taint_zero by done; set_solver]|].
  destruct (combine_spec (tags s) l1 l2 Hok H1 H2 Hroom) as (l & t' & E & He & Hv & Ht).
  exists l, t'. unfold on_tags. by rewrite E.
Qed.

Lemma elem_of_labels_union (s : st T OS) a n o :
  app_range a n ->
  o ∈ ⋃ (taint (tags s) <$> labels_at s (shadow_for a) (Z.to_nat n)) <->
  exists b, a <= b < a + n /\ o ∈ taint (tags s) (lbl s b).
Proof.
  intros Hr. rewrite elem_of_union_list. split.
  - intros (X & HX & Ho). apply list_elem_of_fmap in HX as (l & -> & Hl).
    unfold labels_at in Hl. apply list_elem_of_fmap in Hl as (i & -> & Hi).
    apply elem_of_seq in Hi. rewrite (app_range_shadow a n) in Ho by (done || lia).
    exists (a + Z.of_nat i). split; [lia|done].
  - intros (b & Hb & Ho). exists (taint (tags s) (lbl s b)). split; [|done].
    apply list_elem_of_fmap. exists (lbl s b). split; [done|].
    unfold labels_at. apply list_elem_of_fmap. exists (Z.to_nat (b - a)). split.
    + rewrite (app_range_shadow a n) by (done || lia). unfold lbl. do 2 f_equal. lia.
    + apply elem_of_seq. lia.
Qed.

Lemma length_labels_at s p n : length (labels_at s p n) = n.
Proof. unfold labels_at. by rewrite length_fmap, length_seq. Qed.
Lemma labels_valid s a n : st_ok s -> Forall (ls_valid (tags s)) (labels_at s (shadow_for a) (Z.to_nat n)).
Proof. intros [_ Hv]. unfold labels_at. apply Forall_fmap, Forall_true. intros i. apply Hv. Qed.

(** The join of the labels of a range. *)
Lemma dfsan_read_label_spec a n s :
  st_ok s -> app_range a n -> n < 2 ^ 32 -> ls_room (tags s) (Z.to_nat n) ->
  exists l t', dfsan_read_label a n s = Ok (l, set_tags t' s) /\ tags_ext (Z.to_nat n) (tags s) t' /\
    ls_valid t' l /\
    taint_is t' l (fun o => exists b, a <= b < a + n /\ o ∈ taint (tags s) (lbl s b)).
Proof.
  intros [Hok Hv] Hr Hn Hroom. unfold dfsan_read_label.
  case (Z.eqb_spec n 0); [intros ->|intros Hn0].
  { exists 0, (tags s). split; [by destruct s|]. split; [by apply tags_ext_refl|].
    split; [by apply ls_valid_zero|]. eapply taint_is_iff; [apply taint_is_refl|]. intros o. rewrite taint_zero by done.
    split; [set_solver|]. intros (b & Hb & _). lia. }
  assert (Ha : is_app a) by (unfold app_range, is_app in *; lia).
  case (Z.eqb_spec (shadow_for a) 0); [by intros E; apply app_shadow_nonzero in Ha|intros _].
  rewrite u32_small by (unfold app_range in Hr; lia).
  unfold bind. rewrite read_labels_app by done. unfold on_tags.
  destruct (combine_n_spec (tags s) _ Hok (labels_valid s a n (conj Hok Hv))) as (l & t' & E & He & Hvl & Ht);
    [by rewrite length_labels_at|]. rewrite length_labels_at in He.
  exists l, t'. rewrite E. split; [done|]. split; [done|]. split; [done|].
  eapply taint_is_iff; [exact Ht|]. intros o. by apply elem_of_labels_union.
Qed.

(** The call that instrumented code makes for a load. *)
Lemma dfsan_union_load_spec a n s :
  st_ok s -> app_range a n -> 0 < n < 2 ^ 32 -> ls_room (tags s) (Z.to_nat n) ->
  shape_sound (taint (tags s) <$> labels_at s (shadow_for a) (Z.to_nat n)) ->
  exists l t', __dfsan_union_load (shadow_for a) n s = Ok (l, set_tags t' s) /\
    tags_ext (Z.to_nat n) (tags s) t' /\ ls_valid t' l /\
    taint_is t' l (fun o => exists b, a <= b < a + n /\ o ∈ taint (tags s) (lbl s b)).
Proof.
  intros [Hok Hv] Hr Hn Hroom Hsh. unfold __dfsan_union_load.
  assert (Ha : is_app a) by (unfold app_range, is_app in *; lia).
  case (Z.eqb_spec (shadow_for a) 0); [by intros E; apply app_shadow_nonzero in Ha|intros _].
  rewrite u32_small by lia. unfold bind. rewrite read_labels_app by done. unfold on_tags.
  destruct (combine_n_shape_spec (tags s) _ Hok (labels_valid s a n (conj Hok Hv))) as (l & t' & E & He & Hvl & Ht);
    [by rewrite length_labels_at|done|]. rewrite length_labels_at in He.
  exists l, t'. rewrite E. split; [done|]. split; [done|]. split; [done|].
  eapply taint_is_iff; [exact Ht|]. intros o. by apply elem_of_labels_union.
Qed.

(** The same, some label operations later: [t] extends the tags of [s]. *)
Lemma set_tags_set_tags t1 t2 s : set_tags t1 (set_tags t2 s) = set_tags t1 s.
Proof. done. Qed.

Lemma taint_ext_lbl k s t b : st_ok s -> tags_ext k (tags s) t ->
  taint t (lbl s b) = taint (tags s) (lbl s b).
Proof. intros [_ Hv] [_ He _ _]. apply (He _ (Hv (shadow_for b))). Qed.

Lemma read_label_ext k a n s t :
  st_ok s -> tags_ext k (tags s) t -> app_range a n -> n < 2 ^ 32 -> ls_room t (Z.to_nat n) ->
  exists l t', dfsan_read_label a n (set_tags t s) = Ok (l, set_tags t' s) /\ tags_ext (Z.to_nat n) t t' /\
    ls_valid t' l /\
    taint_is t' l (fun o => exists b, a <= b < a + n /\ o ∈ taint (tags s) (lbl s b)).
Proof.
  intros Hok He Hr Hn Hroom.
  destruct (dfsan_read_label_spec a n (set_tags t s)) as (l & t' & E & X & V & Q);
    [by eapply st_ok_ext|done|done|done|].
  exists l, t'. split; [done|]. split; [done|]. split; [done|]. eapply taint_is_iff; [exact Q|]. intros o.
  split; intros (b & Hb & Ho); exists b; (split; [done|]);
    by rewrite <-?(taint_ext_lbl k s t) in * by done.
Qed.

Lemma union_ext l1 l2 s t :
  ls_ok t -> ls_valid t l1 -> ls_valid t l2 -> ls_room t 1 ->
  exists l t', dfsan_union l1 l2 (set_tags t s) = Ok (l, set_tags t' s) /\ tags_ext 1 t t' /\
    ls_valid t' l /\ taint_is t' l (fun o => o ∈ taint t l1 \/ o ∈ taint t l2).
Proof. apply (dfsan_union_spec l1 l2 (set_tags t s)). Qed.

(** [dfsan_union] is the join of the two taints for every pair of labels,
    equal ones and the zero label included, as long as the tag set loses nothing, adds
    no other offset in any case, and keeps every existing label. *)
Theorem dfsan_union_join l1 l2 s :
  ls_ok (tags s) -> ls_valid (tags s) l1 -> ls_valid (tags s) l2 -> ls_room (tags s) 1 ->
  exists l t', dfsan_union l1 l2 s = Ok (l, set_tags t' s) /\
    taint t' l ⊆ taint (tags s) l1 ∪ taint (tags s) l2 /\
    (ls_exact t' -> taint t' l = taint (tags s) l1 ∪ taint (tags s) l2) /\
    forall l0, ls_valid (tags s) l0 -> ls_valid t' l0 /\ taint t' l0 = taint (tags s) l0.
Proof.
  intros Hok H1 H2 Hroom.
  destruct (dfsan_union_spec l1 l2 s Hok H1 H2 Hroom) as (l & t' & E & [_ He _ _] & _ & Hs & Ht).
  exists l, t'. split; [done|]. split; [set_solver|]. split; [|done].
  intros Hx. apply set_eq. intros o. rewrite elem_of_union. split; [apply Hs|by apply Ht].
Qed.

(** [dfsan_read_label] answers a label whose offsets are exactly those of
    the bytes of the range, for every range of less than 2^32 bytes, as long as the tag
    set loses nothing; the empty range gives the zero label. *)
Theorem dfsan_read_label_exact a n s :
  st_ok s -> app_range a n -> n < 2 ^ 32 -> ls_room (tags s) (Z.to_nat n) ->
  exists l t', dfsan_read_label a n s = Ok (l, set_tags t' s) /\
    (n = 0 -> l = 0) /\ st_ok (set_tags t' s) /\
    taint_is t' l (fun o => exists b, a <= b < a + n /\ o ∈ taint (tags s) (lbl s b)).
Proof.
  intros Hs Hr Hn Hroom. destruct (dfsan_read_label_spec a n s Hs Hr Hn Hroom) as (l & t' & E & He & Hv & Ht).
  exists l, t'. split; [done|]. split; [|split; [by eapply st_ok_ext|done]].
  intros ->. by injection E.
Qed.

(** What [dfsan_add_label] makes of a byte when [k] bytes are done. *)
Definition added_taint l a (k : Z) s b (o : Z) : Prop :=
  o ∈ taint (tags s) (lbl s b) \/ (a <= b < a + k /\ o ∈ taint (tags s) l).
Definition add_label_inv l a (k : nat) s (s' : st T OS) : Prop :=
  exists h t', s' = set_tags t' (set_shadow h s) /\ tags_ext k (tags s) t' /\ st_ok s' /\
    forall b, is_app b -> taint_is t' (lbl s' b) (added_taint l a (Z.of_nat k) s b).

Lemma add_label_body_spec l a n k s s1 :
  app_range a n -> ls_valid (tags s) l -> (k < Z.to_nat n)%nat -> ls_room (tags s) (Z.to_nat n) ->
  add_label_inv l a k s s1 ->
  exists s2, add_label_body l (shadow_for a) (Z.of_nat k) s1 = Ok (tt, s2) /\
    add_label_inv l a (S k) s s2.
Proof.
  intros Hr Hl Hk Hroom (h & t & -> & He & Hok & HP).
  set (p := a + Z.of_nat k). assert (Hp : is_app p) by (eapply app_range_in; eauto; lia).
  unfold add_label_body. rewrite (app_range_shadow a n) by (done || lia). fold p.
  set (s1 := set_tags t (set_shadow h s)) in *. unfold bind at 1. rewrite read_shadow_app by done.
  destruct (te_label _ _ _ He l Hl) as [Hl1 El1].
  assert (Hroom1 : ls_room t 1) by (apply (te_room _ _ _ He), (ls_room_mono _ _ _ Hroom); lia).
  assert (Hlast : forall b o, b <> p -> added_taint l a (Z.of_nat k) s b o <-> added_taint l a (Z.of_nat (S k)) s b o).
  { intros b o Hne. unfold added_taint, p in *. intuition lia. }
  assert (Hnew : forall o, (added_taint l a (Z.of_nat k) s p o \/ o ∈ taint (tags s) l) <-> added_taint l a (Z.of_nat (S k)) s p o).
  { intros o. unfold added_taint, p. intuition lia. }
  assert (Hlt : taint_is t l (fun o => o ∈ taint (tags s) l)) by (eapply taint_is_ext; [exact He|done|apply taint_is_refl]).
  case (Z.eqb_spec (lbl s1 p) l); intros El.
  - exists s1. split; [done|]. exists h, t. split; [done|]. split; [|split; [done|]].
    { eapply tags_ext_le; [exact He|lia]. }
    intros b Hb. destruct (decide (b = p)) as [->|Hne]; [|eapply taint_is_iff; [by apply HP|]; intros o; by apply Hlast].
    pose proof (HP p Hb) as [H1 H2]. rewrite El in *. destruct Hlt as [H3 H4]. split.
    + intros o Ho. apply Hnew. right. by apply H3.
    + intros Hx o [?|?]%Hnew; [by apply H2|by apply H4].
  - destruct (dfsan_union_spec (lbl s1 p) l s1) as (l2 & t2 & E2 & He2 & Hv2 & Ht2);
      [apply Hok|apply Hok|done|done|].
    unfold dfsan_union in E2. rewrite (proj2 (Z.eqb_neq _ _) El) in E2.
    unfold bind. rewrite E2, write_label_app by done. eexists. split; [reflexivity|].
    exists (<[shadow_for p := l2]> h), t2. split; [done|].
    split; [replace (S k) with (k + 1)%nat by lia; by eapply tags_ext_trans|]. split.
    + split; [apply (te_ok _ _ _ He2)|]. intros q. unfold label_at. cbn [shadow set_shadow set_tags tags].
      destruct (decide (q = shadow_for p)) as [->|Hq].
      * by rewrite lookup_insert_eq.
      * rewrite lookup_insert_ne by done. apply (te_label _ _ _ He2 _ (proj2 Hok q)).
    + intros b Hb. unfold lbl, label_at. cbn [shadow set_shadow set_tags].
      destruct (decide (b = p)) as [->|Hne].
      * rewrite lookup_insert_eq. cbn. eapply taint_is_iff; [|exact Hnew].
        eapply taint_is_join; [exact He2|by apply HP|exact Hlt|exact Ht2].
      * rewrite lookup_insert_ne by (rewrite !shadow_for_app by done; lia).
        eapply taint_is_iff; [|intros o; by apply Hlast].
        eapply taint_is_ext; [exact He2|apply (proj2 Hok (shadow_for b))|by apply HP].
Qed.

(** [dfsan_add_label] adds the offsets of its label to every byte of the
    range and leaves the taint of every other byte as it was. *)
Theorem dfsan_add_label_joins l a n s :
  st_ok s -> ls_valid (tags s) l -> app_range a n -> ls_room (tags s) (Z.to_nat n) ->
  exists s', dfsan_add_label l a n s = Ok (tt, s') /\ st_ok s' /\
    forall b, is_app b -> taint_is (tags s') (lbl s' b) (added_taint l a n s b).
Proof.
  intros Hok Hl Hr Hroom. unfold dfsan_add_label.
  destruct (for_count_inv (fun k s' => add_label_inv l a k s s')
     (add_label_body l (shadow_for a)) (Z.to_nat n) 0 s) as (s' & E & h & t & -> & _ & Hok' & P).
  - intros k s1 Hk HP. rewrite Z.add_0_l. by apply (add_label_body_spec l a n).
  - exists (shadow s), (tags s). split; [by destruct s|]. split; [by apply tags_ext_refl, Hok|].
    split; [done|]. intros b Hb. eapply taint_is_iff; [apply taint_is_refl|]. intros o. unfold added_taint. intuition lia.
  - rewrite Z2Nat.id in P by (unfold app_range in Hr; lia). eauto.
Qed.

End Taint.

(** ** A reference store

    The specification of the tag set in its simplest form: labels are indices
    into a list of sets.  It shows that [LabelStoreSpec] can be met. *)
Module SetStore.

Abbreviation T := (list (gset Z)).
Definition new (X : gset Z) (t : T) : res (Z * T) := Ok (Z.of_nat (length t), t ++ [X]).
Definition get (t : T) (l : Z) : gset Z := default ∅ (t !! Z.to_nat l).

#[global] Instance store : LabelStore T := {
  tag_set_insert off t := new {[ off ]} t;
  tag_set_combine l1 l2 t := new (get t l1 ∪ get t l2) t;
  tag_set_combine_n ls _ t := new (⋃ (get t <$> ls)) t;
  tag_set_mark_sign _ t := Ok t;
  tag_set_infer_shape_in_math_op _ _ t := Ok t;
  tag_set_combine_and _ t := Ok t;
}.

Definition ok (t : T) : Prop := t !! 0%nat = Some ∅.
Definition valid (t : T) (l : Z) : Prop := 0 <= l < Z.of_nat (length t).

#[global] Instance view : LabelStoreView T := {
  ls_ok := ok; ls_valid := valid; taint := get;
  ls_exact _ := True; ls_room _ _ := True; ls_offset _ := True }.

Lemma new_spec X (t : T) k : ok t -> exists l t', new X t = Ok (l, t') /\ tags_ext k t t' /\ valid t' l /\
  get t' l = X.
Proof.
  intros Hok. eexists _, _. split; [reflexivity|].
  assert (Hl : valid (t ++ [X]) (Z.of_nat (length t))) by (unfold valid; rewrite length_app; cbn; lia).
  split; [|split; [done|unfold get; by rewrite Nat2Z.id, lookup_app_r, Nat.sub_diag by lia]].
  split; cbn; [by apply lookup_app_l_Some| |done..].
  intros l0 [? ?]. unfold valid, get. rewrite length_app. cbn. split; [lia|]. by rewrite lookup_app_l by lia.
Qed.
Lemma new_joins X (t : T) k (P : Z -> Prop) : ok t -> (forall o, o ∈ X <-> P o) ->
  exists l t', new X t = Ok (l, t') /\ tags_ext k t t' /\ valid t' l /\ taint_is t' l P.
Proof.
  intros Hok HP. destruct (new_spec X t k Hok) as (l & t' & E & He & Hv & Ht). exists l, t'.
  do 3 (split; [done|]). split; cbn; [intros o; rewrite Ht; apply HP|intros _ o; rewrite Ht; apply HP].
Qed.

#[global] Program Instance spec : LabelStoreSpec T.
Next Obligation. intros t Hok. apply lookup_lt_Some in Hok. cbn. unfold valid. lia. Qed.
Next Obligation. intros t Hok. cbn. unfold get. change (Z.to_nat 0) with 0%nat. by rewrite Hok. Qed.
Next Obligation. done. Qed.
Next Obligation. intros. apply new_joins; [done|]. intros o. apply elem_of_union. Qed.
Next Obligation. intros. by apply new_joins. Qed.
Next Obligation. intros. by apply new_joins. Qed.
Next Obligation. intros. by apply new_spec. Qed.
Next Obligation. intros t l Hok Hl. exists t. split; [done|by apply tags_ext_refl]. Qed.
Next Obligation. intros t l n Hok Hl Hn. exists t. split; [done|by apply tags_ext_refl]. Qed.
Next Obligation. intros t l Hok Hl. exists t. split; [done|by apply tags_ext_refl]. Qed.

(** A small state for examples: two tainted bytes. *)
Definition a0 : Z := 0x700000010000.
Definition ex : st T unit :=
  mkSt (list_to_map (zip [a0; a0 + 1; a0 + 2; a0 + 3] [65; 66; 0; 7]))
       (list_to_map (zip [shadow_for a0; shadow_for (a0 + 1)] [1; 2]))
       [∅; {[ 4 ]}; {[ 9 ]}] tt 0 SetDefaults [] (0, 0).

Lemma ex_ok : st_ok ex.
Proof.
  split; [done|]. intros p. unfold label_at. cbn [shadow ex].
  destruct (_ !! p) as [l|] eqn:E; [|by vm_compute].
  apply elem_of_list_to_map_2 in E. cbn [zip_with] in E.
  repeat (apply elem_of_cons in E as [E|E]; [injection E as -> ->; by vm_compute|]).
  by apply elem_of_nil in E.
Qed.
End SetStore.

Lemma dfsan_set_label_exact_witness :
  exists h, dfsan_set_label 2 SetStore.a0 3 SetStore.ex = Ok (tt, set_shadow h SetStore.ex) /\
    lbl (set_shadow h SetStore.ex) (SetStore.a0 + 2) = 2.
Proof.
  destruct (dfsan_set_label_exact 2 SetStore.a0 3 SetStore.ex) as (h & E & P).
  - by vm_compute.
  - exists h. split; [exact E|]. rewrite P; [reflexivity|by vm_compute].
Defined.

Lemma dfsan_union_join_witness :
  exists l t', dfsan_union 1 2 SetStore.ex = Ok (l, set_tags t' SetStore.ex) /\
    taint t' l = taint (tags SetStore.ex) 1 ∪ taint (tags SetStore.ex) 2.
Proof.
  destruct (dfsan_union_join 1 2 SetStore.ex) as (l & t' & E & _ & P & _); [done|by vm_compute..|].
  exists l, t'. split; [exact E|by apply P].
Defined.

Lemma dfsan_read_label_exact_witness :
  exists l t', dfsan_read_label SetStore.a0 2 SetStore.ex = Ok (l, set_tags t' SetStore.ex) /\
    9 ∈ taint t' l.
Proof.
  destruct (dfsan_read_label_exact SetStore.a0 2 SetStore.ex) as (l & t' & E & _ & _ & _ & P);
    [apply SetStore.ex_ok|by vm_compute|lia|done|].
  exists l, t'. split; [exact E|]. apply P; [done|]. exists (SetStore.a0 + 1).
  split; [lia|]. change (9 ∈ ({[ 9 ]} : gset Z)). set_solver.
Defined.

Lemma dfsan_add_label_joins_witness :
  exists s', dfsan_add_label 2 SetStore.a0 1 SetStore.ex = Ok (tt, s') /\
    9 ∈ taint (tags s') (lbl s' SetStore.a0).
Proof.
  destruct (dfsan_add_label_joins 2 SetStore.a0 1 SetStore.ex) as (s' & E & _ & P);
    [apply SetStore.ex_ok|by vm_compute|by vm_compute|done|].
  exists s'. split; [exact E|]. apply P; [by vm_compute|done|]. right. split; [lia|].
  change (9 ∈ ({[ 9 ]} : gset Z)). set_solver.
Defined.
