(* ===== verification/Env.v ===== *)
(** * What surrounds the runtime

    The wrappers of the runtime call three kinds of code that is not theirs:
    the operating system and libc's stateful functions, the instrumented
    application (callbacks through a trampoline), and hooks a user may link
    in.  They are the operations of the class [Env]; every theorem about the
    wrappers holds for all of them.  libc's pure string functions are defined
    here, following the C standard. *)

From S2P Require Import Prelude CMem Dfsan.

Local Open Scope Z_scope.

(** libc and system functions the wrappers call; the arguments are passed as
    machine words, a pointer being an address of the application's memory. *)
Inductive sysfn :=
| sys_clock_gettime | sys_dlopen | sys_malloc | sys_free | sys_calloc | sys_realloc
| sys_pthread_create | sys_ctime_r | sys_getcwd | sys_get_current_dir_name
| sys_gethostname | sys_getrlimit | sys_getrusage | sys_time | sys_inet_pton
| sys_localtime_r | sys_getpwuid_r | sys_poll | sys_select | sys_sched_getaffinity
| sys_sigemptyset | sys_sigaction | sys_gettimeofday | sys_nanosleep | sys_socketpair
| sys_write | sys_mmap | sys_mmap64 | sys_munmap | sys_open | sys_fopen | sys_close | sys_fclose
| sys_ftell | sys_lseek | sys_fread | sys_fread_unlocked | sys_read | sys_pread
| sys_fgetc | sys_fgetc_unlocked | sys_getc | sys_getchar | sys_fgets | sys_getutent
| sys_getline | sys_getdelim | sys___getdelim
| sys_stat | sys___xstat | sys_fstat | sys___fxstat | sys_lstat | sys___lxstat
| sys_fileno | sys_crc32.

Inductive strtofn := strtol | strtod | strtoll | strtoul | strtoull.
Inductive hookfn := dfsan_weak_hook_memcmp | dfsan_weak_hook_strcmp | dfsan_weak_hook_strncmp.

Class Env (T OS : Type) := {
  (** result, memory and system state after the call *)
  sys : sysfn -> list Z -> mem -> OS -> Z * mem * OS;
  (** value and end pointer of the number parsed at an address in a base *)
  strto : strtofn -> Z -> Z -> mem -> Z * Z;
  (** a call of the application's function at an address *)
  app_call : Z -> list Z -> st T OS -> res (Z * st T OS);
  (** a weak symbol is null or the address of a function *)
  weak_hook : hookfn -> option Z;
  (** [GET_LINK_MAP_BY_DLOPEN_HANDLE] and [ForEachMappedRegion]: the mapped
      regions (address, size) of a loaded object, none for a null map *)
  mapped_regions : Z -> OS -> option (list (Z * Z));
  (** the callback [dl_iterate_phdr] is given, applied to each loaded object
      (address of its dl_phdr_info and size) until one answers non-zero *)
  loaded_objects : OS -> list (Z * Z);
  caller_pc : Z;
  (** the address of the runtime's own thread entry [pthread_create_cb] *)
  pthread_create_cb_addr : Z;
  (** the text [printf] makes of a format and its arguments (machine words),
      [None] for an output error *)
  printf_text : list Z -> list Z -> mem -> option (list Z);
}.

Section Calls.
Context {T OS : Type} `{Env T OS}.

Definition call (f : sysfn) (args : list Z) : M (st T OS) Z :=
  fun s => let '(r, m, o) := sys f args (app s) (os s) in
           Ok (r, set_os o (set_app m s)).

Definition call_weak_hook (h : hookfn) (args : list Z) : M (st T OS) unit :=
  match weak_hook h with
  | None => ret tt
  | Some f => app_call f args ;;; ret tt
  end.

Lemma call_eq f args s r m o :
  sys f args (app s) (os s) = (r, m, o) -> call f args s = Ok (r, set_os o (set_app m s)).
Proof. unfold call. by intros ->. Qed.
End Calls.

(** ** Pure libc functions *)

Definition libc_strlen := internal_strlen.
Definition libc_strstr := internal_strstr.

(** [memchr] compares as [unsigned char]. *)
Fixpoint libc_memchr_loop (k : nat) (c t : Z) : M mem Z :=
  match k with
  | O => ret 0
  | S k => b <- load t ;; if b =? u8 c then ret t else libc_memchr_loop k c (t + 1)
  end.
Definition libc_memchr (s c n : Z) : M mem Z := libc_memchr_loop (Z.to_nat n) c s.

(** [strrchr]: the last match of [(char)c], the terminator being part of the
    string. *)
Fixpoint libc_strrchr_loop (fuel : nat) (s c i res : Z) : M mem Z :=
  match fuel with
  | O => fail OutOfFuel
  | S f => b <- loadc (s + i) ;;
           let res := if b =? s8 c then s + i else res in
           if b =? 0 then ret res else libc_strrchr_loop f s c (i + 1) res
  end.
Definition libc_strrchr (s c : Z) : M mem Z := fun m => libc_strrchr_loop (S (size m)) s c 0 0 m.

Definition libc_strcpy (d s : Z) : M mem Z :=
  n <- libc_strlen s ;; internal_memcpy d s (n + 1).
Definition libc_stpcpy (d s : Z) : M mem Z :=
  n <- libc_strlen s ;; internal_memcpy d s (n + 1) ;;; ret (d + n).

(** [tolower] in the C locale. *)
Definition tolower (c : Z) : Z := ToLower c.

(** An eight-byte little-endian store and load (a pointer in memory). *)
Definition store64 (p v : Z) : M mem unit :=
  for_count 8 (fun i => store (p + i) (Z.shiftr v (8 * i))) 0.
Definition store32 (p v : Z) : M mem unit :=
  for_count 4 (fun i => store (p + i) (Z.shiftr v (8 * i))) 0.
Definition load64 (p : Z) : M mem Z := load_le 8 p.
Definition load16 (p : Z) : M mem Z := load_le 2 p.

(** The bytes from an address on. *)
Fixpoint load_bytes (n : nat) (p : Z) : M mem (list Z) :=
  match n with
  | O => ret []
  | S n => b <- load p ;; l <- load_bytes n (p + 1) ;; ret (b :: l)
  end.

Lemma load_bytes_spec m : forall l p, bytes_at m p l -> load_bytes (length l) p m = Ok (l, m).
Proof.
  induction l as [|b l IH]; intros p Hb; [done|].
  apply bytes_at_cons in Hb as [H0 Hb]. cbn [load_bytes length]. unfold bind.
  by rewrite (load_Some _ _ _ H0), (IH _ Hb).
Qed.

(** The [n] bytes at [p] are those of the word [v], low byte first. *)
Definition word_at (m : mem) (p : Z) (n : nat) (v : Z) : Prop :=
  forall i, 0 <= i < Z.of_nat n -> m !! (p + i) = Some (u8 (Z.shiftr v (8 * i))).

Lemma lor_byte b r : 0 <= b < 2 ^ 8 -> Z.lor b (Z.shiftl r 8) = b + 2 ^ 8 * r.
Proof.
  intros Hb. assert (H0 : Z.land b (Z.shiftl r 8) = 0) by (apply land_shiftl_small; lia).
  rewrite <-Z.lxor_lor, <-Z.add_nocarry_lxor by done.
  by rewrite Z.shiftl_mul_pow2, (Z.mul_comm r) by lia.
Qed.

Lemma load_le_word m n : forall p v,
  word_at m p n v -> load_le n p m = Ok (wrap (8 * Z.of_nat n) v, m).
Proof.
  induction n as [|n IH]; intros p v Hw.
  - cbn. unfold wrap. by rewrite Z.mod_1_r.
  - cbn [load_le]. unfold bind.
    pose proof (Hw 0 ltac:(lia)) as H0. rewrite Z.add_0_r in H0. rewrite (load_Some _ _ _ H0).
    rewrite (IH (p + 1) (Z.shiftr v 8)).
    + unfold ret. f_equal. f_equal. change (8 * 0) with 0. rewrite Z.shiftr_0_r.
      rewrite lor_byte by apply (wrap_range 8 v ltac:(lia)).
      unfold u8, wrap. rewrite Z.shiftr_div_pow2 by lia.
      replace (8 * Z.of_nat (S n)) with (8 + 8 * Z.of_nat n) by lia.
      rewrite Z.pow_add_r by lia. symmetry. apply Z.rem_mul_r; lia.
    + intros i Hi. rewrite <-Z.add_assoc, Hw by lia. do 2 f_equal.
      rewrite Z.shiftr_shiftr by lia. f_equal. lia.
Qed.

Lemma store_word_spec n m p v :
  mapped m p (Z.of_nat n) ->
  exists m', for_count n (fun i => store (p + i) (Z.shiftr v (8 * i))) 0 m = Ok (tt, m') /\
    word_at m' p n v /\ (forall a, ~ p <= a < p + Z.of_nat n -> m' !! a = m !! a) /\
    (forall a l, mapped m a l -> mapped m' a l).
Proof.
  intros Hm.
  destruct (for_count_inv (fun k m1 => word_at m1 p k v /\
      (forall a, ~ p <= a < p + Z.of_nat k -> m1 !! a = m !! a) /\
      (forall a, is_Some (m !! a) -> is_Some (m1 !! a)))
    (fun i => store (p + i) (Z.shiftr v (8 * i))) n 0 m) as (m' & E & W & P & Q).
  - intros k m1 Hk (W & P & Q). rewrite Z.add_0_l.
    assert (Hs : is_Some (m1 !! (p + Z.of_nat k))) by (apply Q, Hm; lia).
    rewrite (store_Some _ _ _ Hs). eexists. split; [reflexivity|]. split; [|split].
    + intros i Hi. destruct (decide (i = Z.of_nat k)) as [->|Hne].
      * by rewrite lookup_insert_eq.
      * rewrite lookup_insert_ne by lia. apply W. lia.
    + intros a Ha. rewrite lookup_insert_ne by lia. apply P. lia.
    + intros a Ha. destruct (decide (a = p + Z.of_nat k)) as [->|Hne].
      * rewrite lookup_insert_eq. eauto.
      * rewrite lookup_insert_ne by done. auto.
  - split; [intros i Hi; lia|]. by split.
  - exists m'. split; [done|]. split; [done|]. split; [done|]. intros a l Ha b Hb. apply Q, Ha, Hb.
Qed.

(** ** Sizes and offsets of the libc structures (x86-64 glibc) *)

Definition sizeof_timespec : Z := 16.
Definition sizeof_rlimit : Z := 16.
Definition sizeof_rusage : Z := 144.
Definition sizeof_time_t : Z := 8.
Definition sizeof_in_addr : Z := 4.
Definition sizeof_in6_addr : Z := 16.
Definition sizeof_tm : Z := 56.
Definition sizeof_passwd : Z := 48.
Definition sizeof_ptr : Z := 8.
Definition sizeof_int : Z := 4.
Definition sizeof_pollfd : Z := 8.
Definition offsetof_revents : Z := 6.
Definition sizeof_revents : Z := 2.
Definition sizeof_fd_set : Z := 128.
Definition sizeof_timeval : Z := 16.
Definition sizeof_timezone : Z := 8.
Definition sizeof_sigset_t : Z := 128.
Definition sizeof_sigaction : Z := 152.
Definition sizeof_dl_phdr_info : Z := 64.
Definition offsetof_dlpi_name : Z := 8.
Definition offsetof_dlpi_phdr : Z := 16.
Definition offsetof_dlpi_phnum : Z := 24.
Definition sizeof_phdr : Z := 56.
Definition sizeof_stat : Z := 144.
Definition offsetof_st_size : Z := 48.
Definition sizeof_st_size : Z := 8.
Definition sizeof_utmp : Z := 384.
Definition sizeof_pthread_create_info : Z := 24.
Definition AF_INET : Z := 2.

(** ** A small environment for examples

    [malloc] hands out zeroed blocks one after the other from the address kept
    as system state; no hooks are linked and the other calls answer zero. *)
Module SimpleEnv.
Definition block (p n : Z) : mem :=
  list_to_map ((fun i : nat => (p + Z.of_nat i, 0)) <$> seq 0 (Z.to_nat n)).
Definition simple_sys (f : sysfn) (args : list Z) (m : mem) (next : Z) : Z * mem * Z :=
  match f, args with
  | sys_malloc, [n] => (next, m ∪ block next n, next + n)
  | _, _ => (0, m, next)
  end.
#[global] Instance env (T : Type) : Env T Z := {
  sys := simple_sys;
  strto _ nptr _ _ := (0, nptr);
  app_call _ _ s := Ok (0, s);
  weak_hook _ := None;
  mapped_regions _ _ := None;
  loaded_objects _ := [];
  caller_pc := 0;
  pthread_create_cb_addr := 0;
  printf_text fmt _ _ := Some fmt;
}.
(** The same without memory to allocate. *)
Definition no_memory (T : Type) : Env T Z := {|
  sys _ _ m next := (0, m, next);
  strto _ nptr _ _ := (0, nptr);
  app_call _ _ s := Ok (0, s);
  weak_hook _ := None;
  mapped_regions _ _ := None;
  loaded_objects _ := [];
  caller_pc := 0;
  pthread_create_cb_addr := 0;
  printf_text fmt _ _ := Some fmt;
|}.
End SimpleEnv.

(** A state for examples: two short strings with labelled characters. *)
Module Ex.
Definition a0 : Z := 0x700000010000.
Definition a1 : Z := 0x700000010010.
(** "AB" at [a0], "Ab" at [a1], each of their chars labelled. *)
Definition ex : st (list (gset Z)) Z :=
  mkSt (list_to_map (zip [a0; a0 + 1; a0 + 2; a0 + 3; a0 + 4; a1; a1 + 1; a1 + 2; a1 + 3; a1 + 4]
                         [65; 66; 0; 7; 7; 65; 98; 0; 9; 9]))
       (list_to_map (zip [shadow_for a0; shadow_for (a0 + 1); shadow_for a1] [1; 2; 2]))
       [∅; {[ 4 ]}; {[ 9 ]}] 0x700000020000 0
       {| warn_unimplemented := true; warn_nonzero_labels := false;
          strict_data_dependencies := false; dump_labels_at_exit := "" |} [] (0, 0).

Lemma ex_st_ok : st_ok ex.
Proof.
  split; [done|]. intros p. unfold label_at. cbn [shadow ex].
  destruct (_ !! p) as [l|] eqn:E; [|by vm_compute].
  apply elem_of_list_to_map_2 in E. cbn [zip_with] in E.
  repeat (apply elem_of_cons in E as [E|E]; [injection E as -> ->; by vm_compute|]).
  by apply elem_of_nil in E.
Qed.
Lemma ex_s0 : cstr (app ex) a0 [65; 66].
Proof. by apply cstrb_sound. Qed.
Lemma ex_s1 : cstr (app ex) a1 [65; 98].
Proof. by apply cstrb_sound. Qed.
Lemma ex_mem_ok : mem_ok (app ex).
Proof. by apply mem_okb_sound. Qed.
End Ex.
