(* ===== verification/DfsanCustom.v ===== *)
(** * Wrappers of libc's string and memory functions

    [llvm_mode/dfsan_rt/dfsan/dfsan_custom.cc], first part: the functions
    listed as [custom] in the ABI list are replaced by these wrappers, which
    compute the same result and propagate labels.  A wrapper's out parameter
    [ret_label] is the cell [retl] of the state.  Arguments of a C++ call are
    evaluated from left to right, as clang does. *)

From S2P Require Import Prelude CMem Dfsan Env.

Local Open Scope Z_scope.

Section Custom.
Context {T OS : Type} `{LabelStore T} `{!Env T OS}.
Abbreviation D := (M (st T OS)).

Definition strict : D bool := gets (fun s => strict_data_dependencies (flags s)).

(** [for (size_t i = 0;; ++i)] over strings. *)
Definition scan_st {A} (body : Z -> D (option A)) : D A :=
  fun s => for_ever (S (size (app s))) body 0 s.

Definition __dfsw_strchr (s c s_label c_label : Z) : D Z :=
  scan_st (fun i =>
    b <- on_mem (loadc (s + i)) ;;
    if (b =? c) || (b =? 0) then
      x <- strict ;;
      (if (x : bool) then set_ret_label s_label
       else l1 <- dfsan_read_label s (i + 1) ;;
            l2 <- dfsan_union s_label c_label ;;
            l <- dfsan_union l1 l2 ;; set_ret_label l) ;;;
      ret (Some (if b =? 0 then 0 else s + i))
    else ret None).

(** The label of a comparison that looked at [n] bytes of both strings. *)
Definition cmp_ret_label (s1 s2 n : Z) : D unit :=
  x <- strict ;;
  if (x : bool) then set_ret_label 0
  else l1 <- dfsan_read_label s1 n ;;
       l2 <- dfsan_read_label s2 n ;;
       l <- dfsan_union l1 l2 ;; set_ret_label l.

Fixpoint dfsw_memcmp_loop (k : nat) (cs1 cs2 n i : Z) : D Z :=
  match k with
  | O => cmp_ret_label cs1 cs2 n ;;; ret 0
  | S k =>
      b1 <- on_mem (loadc (cs1 + i)) ;; b2 <- on_mem (loadc (cs2 + i)) ;;
      if negb (b1 =? b2) then
        cmp_ret_label cs1 cs2 (i + 1) ;;; ret (b1 - b2)
      else dfsw_memcmp_loop k cs1 cs2 n (i + 1)
  end.
Definition __dfsw_memcmp (s1 s2 n s1_label s2_label n_label : Z) : D Z :=
  call_weak_hook dfsan_weak_hook_memcmp
    [caller_pc; s1; s2; n; s1_label; s2_label; n_label] ;;;
  dfsw_memcmp_loop (Z.to_nat n) s1 s2 n 0.

(** One round of the string comparisons; [eq] is the equality the function
    uses, [last] whether the bound is reached.  The value is the difference of
    the two chars in every variant. *)
Definition strcmp_round (differ : Z -> Z -> bool) (last : Z -> bool) (s1 s2 i : Z)
  : D (option Z) :=
  b1 <- on_mem (loadc (s1 + i)) ;; b2 <- on_mem (loadc (s2 + i)) ;;
  if differ b1 b2 || (b1 =? 0) || (b2 =? 0) || last i then
    cmp_ret_label s1 s2 (i + 1) ;;; ret (Some (b1 - b2))
  else ret None.
Definition char_differ (a b : Z) : bool := negb (a =? b).
Definition lower_differ (a b : Z) : bool := negb (tolower a =? tolower b).

Definition __dfsw_strcmp (s1 s2 s1_label s2_label : Z) : D Z :=
  call_weak_hook dfsan_weak_hook_strcmp [caller_pc; s1; s2; s1_label; s2_label] ;;;
  scan_st (strcmp_round char_differ (fun _ => false) s1 s2).

Definition __dfsw_strcasecmp (s1 s2 s1_label s2_label : Z) : D Z :=
  scan_st (strcmp_round lower_differ (fun _ => false) s1 s2).

Definition __dfsw_strncmp (s1 s2 n s1_label s2_label n_label : Z) : D Z :=
  if n =? 0 then set_ret_label 0 ;;; ret 0 else
  call_weak_hook dfsan_weak_hook_strncmp
    [caller_pc; s1; s2; n; s1_label; s2_label; n_label] ;;;
  scan_st (strcmp_round char_differ (fun i => i =? n - 1) s1 s2).

Definition __dfsw_strncasecmp (s1 s2 n s1_label s2_label n_label : Z) : D Z :=
  if n =? 0 then set_ret_label 0 ;;; ret 0 else
  scan_st (strcmp_round lower_differ (fun i => i =? n - 1) s1 s2).

Definition __dfsw_strlen (s s_label : Z) : D Z :=
  r <- on_mem (libc_strlen s) ;;
  x <- strict ;;
  (if (x : bool) then set_ret_label 0
   else l <- dfsan_read_label s (r + 1) ;; set_ret_label l) ;;;
  ret r.

(** [internal_memcpy] of [n] labels: shadow addresses are multiples of four,
    so the bytes move label by label. *)
Definition copy_labels (sdest ssrc n : Z) : D unit :=
  for_count (Z.to_nat n)
    (fun i => l <- read_shadow (ssrc + 4 * i) ;; write_label (sdest + 4 * i) l) 0.

Definition dfsan_memcpy (dest src n : Z) : D Z :=
  copy_labels (shadow_for dest) (shadow_for src) n ;;;
  on_mem (internal_memcpy dest src n).

Definition dfsan_memset (s c c_label n : Z) : D unit :=
  on_mem (internal_memset s c n) ;;; dfsan_set_label c_label s n.

Definition __dfsw_memcpy (dest src n dest_label src_label n_label : Z) : D Z :=
  set_ret_label dest_label ;;; dfsan_memcpy dest src n.

(** The length check has an empty body; the start of the destination is
    returned. *)
Definition __dfsw___mempcpy_chk
  (dest src n dst_len dest_label src_label n_label dst_len_label : Z) : D Z :=
  when (dst_len <? n) (ret tt) ;;;
  set_ret_label dest_label ;;; dfsan_memcpy dest src n.

Definition __dfsw_memset (s c n s_label c_label n_label : Z) : D Z :=
  dfsan_memset s c c_label n ;;; set_ret_label s_label ;;; ret s.

Definition __dfsw_strcat (dest src d_label s_label : Z) : D Z :=
  len <- on_mem (libc_strlen dest) ;;
  slen <- on_mem (libc_strlen src) ;;
  dfsan_memcpy (dest + len) src (slen + 1) ;;;
  set_ret_label d_label ;;; ret dest.

Definition __dfsw_strdup (s s_label : Z) : D Z :=
  len <- on_mem (libc_strlen s) ;;
  p <- call sys_malloc [len + 1] ;;
  dfsan_memcpy p s (len + 1) ;;;
  set_ret_label 0 ;;; ret p.

Definition __dfsw___strdup (s s_label : Z) : D Z :=
  len <- on_mem (libc_strlen s) ;;
  p <- call sys_malloc [len + 1] ;;
  dfsan_memcpy p s (len + 1) ;;;
  set_ret_label 0 ;;; ret p.

(** The terminator is stored without a label of its own. *)
Definition __dfsw___strndup (s n s_label n_label : Z) : D Z :=
  len <- on_mem (libc_strlen s) ;;
  let len := if n <? len then n else len in
  p <- call sys_malloc [len + 1] ;;
  dfsan_memcpy p s len ;;;
  on_mem (store (p + len) 0) ;;;
  set_ret_label 0 ;;; ret p.

Definition __dfsw_strncpy (s1 s2 n s1_label s2_label n_label : Z) : D Z :=
  len <- on_mem (libc_strlen s2) ;;
  (if len <? n then
     dfsan_memcpy s1 s2 (len + 1) ;;;
     dfsan_memset (s1 + len + 1) 0 0 (n - len - 1)
   else dfsan_memcpy s1 s2 n ;;; ret tt) ;;;
  set_ret_label s1_label ;;; ret s1.

Definition __dfsw_strcpy (dest src dst_label src_label : Z) : D Z :=
  r <- on_mem (libc_strcpy dest src) ;;
  (if negb (r =? 0) then
     n <- on_mem (libc_strlen src) ;;
     copy_labels (shadow_for dest) (shadow_for src) (n + 1)
   else ret tt) ;;;
  set_ret_label dst_label ;;; ret r.

Definition __dfsw_stpcpy (dest src dst_label src_label : Z) : D Z :=
  r <- on_mem (libc_stpcpy dest src) ;;
  (if negb (r =? 0) then
     n <- on_mem (libc_strlen src) ;;
     copy_labels (shadow_for dest) (shadow_for src) (n + 1)
   else ret tt) ;;;
  set_ret_label dst_label ;;; ret r.

(** The number parsers: [tmp_endptr] is stored through [endptr] when that is
    not null, then the label of the characters read, the terminator included
    when the number ends there, is joined with that of the base. *)
Definition store_endptr (endptr tmp_endptr : Z) : D unit :=
  when (negb (endptr =? 0)) (on_mem (store64 endptr tmp_endptr)).
Definition number_len (nptr tmp_endptr : Z) : D Z :=
  b <- on_mem (load tmp_endptr) ;;
  ret (tmp_endptr - nptr + (if b =? 0 then 1 else 0)).
Definition strto_int (f : strtofn) (nptr endptr base base_label : Z) : D Z :=
  r <- gets (fun s => strto f nptr base (app s)) ;;
  let '(v, tmp_endptr) := r in
  store_endptr endptr tmp_endptr ;;;
  (if nptr <? tmp_endptr then
     n <- number_len nptr tmp_endptr ;;
     l1 <- dfsan_read_label nptr n ;;
     l <- dfsan_union base_label l1 ;; set_ret_label l
   else set_ret_label 0) ;;;
  ret v.

Definition __dfsw_strtol (nptr endptr base nptr_label endptr_label base_label : Z) : D Z :=
  strto_int strtol nptr endptr base base_label.

Definition __dfsw_strtod (nptr endptr nptr_label endptr_label : Z) : D Z :=
  r <- gets (fun s => strto strtod nptr 0 (app s)) ;;
  let '(v, tmp_endptr) := r in
  store_endptr endptr tmp_endptr ;;;
  (if nptr <? tmp_endptr then
     n <- number_len nptr tmp_endptr ;;
     l <- dfsan_read_label nptr n ;; set_ret_label l
   else set_ret_label 0) ;;;
  ret v.

Definition __dfsw_strtoll (nptr endptr base nptr_label endptr_label base_label : Z) : D Z :=
  strto_int strtoll nptr endptr base base_label.

Definition __dfsw_strtoul (nptr endptr base nptr_label endptr_label base_label : Z) : D Z :=
  strto_int strtoul nptr endptr base base_label.

(** The third parameter is declared as the label of [nptr] and the fourth as
    the base: the instrumentation passes the base third. *)
Definition __dfsw_strtoull (nptr endptr nptr_label base endptr_label base_label : Z) : D Z :=
  strto_int strtoull nptr endptr base base_label.

Definition __dfsw_memchr (s c n s_label c_label n_label : Z) : D Z :=
  r <- on_mem (libc_memchr s c n) ;;
  x <- strict ;;
  (if (x : bool) then set_ret_label (if r =? 0 then 0 else s_label)
   else
     let len := if r =? 0 then n else r - s + 1 in
     l1 <- dfsan_read_label s len ;;
     l2 <- dfsan_union s_label c_label ;;
     l <- dfsan_union l1 l2 ;; set_ret_label l) ;;;
  ret r.

Definition __dfsw_strrchr (s c s_label c_label : Z) : D Z :=
  r <- on_mem (libc_strrchr s c) ;;
  x <- strict ;;
  (if (x : bool) then set_ret_label (if r =? 0 then 0 else s_label)
   else
     n <- on_mem (libc_strlen s) ;;
     l1 <- dfsan_read_label s (n + 1) ;;
     l2 <- dfsan_union s_label c_label ;;
     l <- dfsan_union l1 l2 ;; set_ret_label l) ;;;
  ret r.

Definition __dfsw_strstr (haystack needle haystack_label needle_label : Z) : D Z :=
  r <- on_mem (libc_strstr haystack needle) ;;
  x <- strict ;;
  (if (x : bool) then set_ret_label (if r =? 0 then 0 else haystack_label)
   else
     len <- (if r =? 0 then n <- on_mem (libc_strlen haystack) ;; ret (n + 1)
             else n <- on_mem (libc_strlen needle) ;; ret (r + n - haystack)) ;;
     l1 <- dfsan_read_label haystack len ;;
     n <- on_mem (libc_strlen needle) ;;
     l2 <- dfsan_read_label needle (n + 1) ;;
     l3 <- dfsan_union haystack_label needle_label ;;
     l4 <- dfsan_union l2 l3 ;;
     l <- dfsan_union l1 l4 ;; set_ret_label l) ;;;
  ret r.

End Custom.

(** ** Comparisons *)

Section Compare.
Context {T OS : Type} `{!LabelStore T, !LabelStoreView T, !LabelStoreSpec T} `{!Env T OS}.
Implicit Types s : st T OS.

(** What a comparison that inspected the bytes [P] does to the state: nothing
    but the return label, which is zero under strict data dependencies and
    otherwise has exactly the offsets of the inspected bytes. *)
Definition taints_ret s (s' : st T OS) (P : Z -> Prop) : Prop :=
  exists l t', s' = set_retl l (set_tags t' s) /\ (exists k, tags_ext k (tags s) t') /\
    (strict_data_dependencies (flags s) = true -> l = 0 /\ t' = tags s) /\
    (strict_data_dependencies (flags s) = false ->
     taint_is t' l (fun o => exists b, P b /\ o ∈ taint (tags s) (lbl s b))).

Lemma taints_ret_iff s s' P Q : taints_ret s s' P -> (forall b, P b <-> Q b) -> taints_ret s s' Q.
Proof.
  intros (l & t' & Hs & X & A & B) HPQ. exists l, t'. do 3 (split; [done|]). intros Hst.
  eapply taint_is_iff; [by apply B|]. intros o. by split; intros (b & Hb%HPQ & Ho); exists b.
Qed.

(** Joins that comparing [n] bytes may take. *)
Definition cmp_room (n : Z) : nat := Z.to_nat n + (Z.to_nat n + 1).

Lemma cmp_ret_label_spec a1 a2 n s :
  st_ok s -> app_range a1 n -> app_range a2 n -> n < 2 ^ 32 -> ls_room (tags s) (cmp_room n) ->
  exists s', cmp_ret_label a1 a2 n s = Ok (tt, s') /\
    taints_ret s s' (fun b => a1 <= b < a1 + n \/ a2 <= b < a2 + n).
Proof.
  intros Hok H1 H2 Hn Hroom. unfold cmp_ret_label, strict, bind, gets.
  destruct (strict_data_dependencies (flags s)) eqn:Hst.
  { eexists. split; [reflexivity|]. exists 0, (tags s). split; [by destruct s|].
    split; [eexists; apply tags_ext_refl, Hok|]. by rewrite Hst. }
  destruct (dfsan_read_label_spec a1 n s Hok H1 Hn) as (l1 & t1 & E1 & X1 & V1 & T1);
    [apply (ls_room_mono _ _ _ Hroom); unfold cmp_room; lia|].
  rewrite E1. pose proof (te_room _ _ _ X1 _ Hroom) as Hroom1.
  destruct (read_label_ext _ a2 n s t1 Hok X1 H2 Hn) as (l2 & t2 & E2 & X2 & V2 & T2);
    [apply (ls_room_mono _ _ _ Hroom1); lia|].
  rewrite E2. destruct (te_label _ _ _ X2 l1 V1) as [V1' _].
  destruct (union_ext l1 l2 s t2) as (l & t3 & E3 & X3 & V3 & T3);
    [apply (te_ok _ _ _ X2)|done..|by apply (te_room _ _ _ X2)|].
  rewrite E3. eexists. split; [reflexivity|]. exists l, t3. split; [done|].
  split; [eexists; eapply tags_ext_trans; [exact X1|eapply tags_ext_trans; [exact X2|exact X3]]|].
  rewrite Hst. split; [done|]. intros _.
  eapply taint_is_iff; [eapply taint_is_join; [exact X3|by eapply taint_is_ext|exact T2|exact T3]|].
  intros o. cbv beta. split.
  - intros [(b & Hb & Ho)|(b & Hb & Ho)]; exists b; (split; [tauto|done]).
  - intros (b & [Hb|Hb] & Ho); [left|right]; by exists b.
Qed.

Lemma on_mem_loadc s a b : app s !! a = Some b -> on_mem (loadc a) s = Ok (s8 b, s).
Proof. intros E. unfold on_mem. rewrite (loadc_Some _ _ _ E). by destruct s. Qed.

(** A round that goes on, and one that stops. *)
Lemma strcmp_round_step differ last a1 a2 i s b1 b2 :
  app s !! (a1 + i) = Some b1 -> app s !! (a2 + i) = Some b2 ->
  strcmp_round differ last a1 a2 i s =
    if differ (s8 b1) (s8 b2) || (s8 b1 =? 0) || (s8 b2 =? 0) || last i
    then (cmp_ret_label a1 a2 (i + 1) ;;; ret (Some (s8 b1 - s8 b2))) s
    else Ok (None, s).
Proof.
  intros E1 E2. unfold strcmp_round, bind at 1. rewrite (on_mem_loadc s _ b1 E1).
  unfold bind at 1. rewrite (on_mem_loadc s _ b2 E2). by case_match.
Qed.

(** The comparison loops stop at the first index [k] where their condition
    holds, with the difference of the chars there. *)
Lemma strcmp_scan differ last a1 a2 s (f1 f2 : Z -> Z) (k : nat) :
  st_ok s -> app_range a1 (Z.of_nat k + 1) -> app_range a2 (Z.of_nat k + 1) ->
  Z.of_nat k + 1 < 2 ^ 32 -> ls_room (tags s) (cmp_room (Z.of_nat k + 1)) ->
  (forall j : nat, (j <= k)%nat -> app s !! (a1 + Z.of_nat j) = Some (f1 (Z.of_nat j)) /\
                                   app s !! (a2 + Z.of_nat j) = Some (f2 (Z.of_nat j))) ->
  let stop j := differ (s8 (f1 j)) (s8 (f2 j)) || (s8 (f1 j) =? 0) || (s8 (f2 j) =? 0) || last j in
  (forall j : nat, (j < k)%nat -> stop (Z.of_nat j) = false) ->
  stop (Z.of_nat k) = true ->
  exists s', scan_st (strcmp_round differ last a1 a2) s =
               Ok (s8 (f1 (Z.of_nat k)) - s8 (f2 (Z.of_nat k)), s') /\
    taints_ret s s' (fun b => a1 <= b <= a1 + Z.of_nat k \/ a2 <= b <= a2 + Z.of_nat k).
Proof.
  intros Hok H1 H2 Hk Hroom Hm stop Hgo Hstop.
  destruct (cmp_ret_label_spec a1 a2 (Z.of_nat k + 1) s) as (s' & E & HP); [done..|].
  exists s'. split.
  - unfold scan_st.
    rewrite (for_ever_stop _ s (Ok (Some (s8 (f1 (Z.of_nat k)) - s8 (f2 (Z.of_nat k))), s')) k 0);
      [done| | | |done].
    + assert (Hmap : mapped (app s) a1 (Z.of_nat k + 1)).
      { intros b Hb. destruct (Hm (Z.to_nat (b - a1))) as [Hx _]; [lia|].
        rewrite Z2Nat.id in Hx by lia. replace (a1 + (b - a1)) with b in Hx by lia. eauto. }
      apply mapped_size in Hmap; lia.
    + intros j Hj. rewrite Z.add_0_l. destruct (Hm j) as [E1 E2]; [lia|].
      rewrite (strcmp_round_step _ _ _ _ _ _ _ _ E1 E2). fold (stop (Z.of_nat j)).
      by rewrite Hgo.
    + rewrite Z.add_0_l. destruct (Hm k) as [E1 E2]; [lia|].
      rewrite (strcmp_round_step _ _ _ _ _ _ _ _ E1 E2). fold (stop (Z.of_nat k)).
      rewrite Hstop. unfold bind. by rewrite E.
  - eapply taints_ret_iff; [exact HP|]. intros b. cbv beta. lia.
Qed.

(** Length of the common prefix up to the equality [same]. *)
Fixpoint lcp (same : Z -> Z -> bool) (x1 x2 : list Z) : nat :=
  match x1, x2 with
  | a :: x1, b :: x2 => if same a b then S (lcp same x1 x2) else O
  | _, _ => O
  end.
(** The j-th byte of a string, its terminator included. *)
Definition char_at (x : list Z) (j : Z) : Z := nth (Z.to_nat j) (x ++ [0]) 0.

Lemma lcp_le same x1 x2 : (lcp same x1 x2 <= length x1)%nat /\ (lcp same x1 x2 <= length x2)%nat.
Proof.
  revert x2. induction x1 as [|a x1 IH]; intros [|b x2]; simpl; try lia.
  destruct (same a b); [|lia]. specialize (IH x2). lia.
Qed.
Lemma char_at_lt x (j : nat) : (j < length x)%nat ->
  exists b, x !! j = Some b /\ char_at x (Z.of_nat j) = b.
Proof.
  intros Hj. destruct (lookup_lt_is_Some_2 x j Hj) as [b Hb]. exists b. split; [done|].
  unfold char_at. rewrite Nat2Z.id, app_nth1 by done. by apply nth_lookup_Some.
Qed.
Lemma char_at_end x : char_at x (Z.of_nat (length x)) = 0.
Proof. unfold char_at. by rewrite Nat2Z.id, app_nth2, Nat.sub_diag by lia. Qed.

Lemma lcp_go same x1 x2 (j : nat) : (j < lcp same x1 x2)%nat ->
  same (char_at x1 (Z.of_nat j)) (char_at x2 (Z.of_nat j)) = true.
Proof.
  unfold char_at. rewrite !Nat2Z.id. revert x2 j.
  induction x1 as [|a x1 IH]; intros [|b x2] j; simpl; try lia.
  destruct (same a b) eqn:E; [|lia]. destruct j as [|j]; [done|]. intros Hj. apply IH. lia.
Qed.
Lemma lcp_stop same x1 x2 : let k := lcp same x1 x2 in
  k = length x1 \/ k = length x2 \/
  same (char_at x1 (Z.of_nat k)) (char_at x2 (Z.of_nat k)) = false.
Proof.
  cbv zeta. unfold char_at. rewrite !Nat2Z.id. revert x2.
  induction x1 as [|a x1 IH]; intros [|b x2]; simpl; try tauto.
  destruct (same a b) eqn:E; [|tauto]. specialize (IH x2). simpl. destruct IH as [-> | [-> | ?]]; tauto.
Qed.

Lemma cstr_char_at m a x (j : nat) : cstr m a x -> (j <= length x)%nat ->
  m !! (a + Z.of_nat j) = Some (char_at x (Z.of_nat j)) /\ 0 <= char_at x (Z.of_nat j) < 256.
Proof.
  intros Hc Hj. destruct (decide (j = length x)) as [->|Hne].
  - rewrite char_at_end. split; [by apply cstr_end|lia].
  - destruct (char_at_lt x j) as (b & Hb & ->); [lia|].
    destruct (cstr_char _ _ _ _ _ Hc Hb). split; [done|lia].
Qed.
Lemma cstr_char_nonzero m a x (j : nat) : cstr m a x -> (j < length x)%nat ->
  0 < char_at x (Z.of_nat j) < 256.
Proof.
  intros Hc Hj. destruct (char_at_lt x j Hj) as (b & Hb & ->).
  by destruct (cstr_char _ _ _ _ _ Hc Hb).
Qed.

(** All comparison wrappers on two strings: they stop at the end of the common
    prefix, or at the bound. *)
Lemma strcmp_strings differ last same a1 a2 x1 x2 (k : nat) s :
  st_ok s -> cstr (app s) a1 x1 -> cstr (app s) a2 x2 ->
  app_range a1 (Z.of_nat k + 1) -> app_range a2 (Z.of_nat k + 1) -> Z.of_nat k + 1 < 2 ^ 32 ->
  ls_room (tags s) (cmp_room (Z.of_nat k + 1)) ->
  (forall b1 b2, 0 <= b1 < 256 -> 0 <= b2 < 256 -> differ (s8 b1) (s8 b2) = negb (same b1 b2)) ->
  (k <= lcp same x1 x2)%nat ->
  (forall j : nat, (j < k)%nat -> last (Z.of_nat j) = false) ->
  (k = lcp same x1 x2 \/ last (Z.of_nat k) = true) ->
  exists s', scan_st (strcmp_round differ last a1 a2) s =
      Ok (s8 (char_at x1 (Z.of_nat k)) - s8 (char_at x2 (Z.of_nat k)), s') /\
    taints_ret s s' (fun b => a1 <= b <= a1 + Z.of_nat k \/ a2 <= b <= a2 + Z.of_nat k).
Proof.
  intros Hok C1 C2 R1 R2 Hk Hroom Hd Hkl Hgo Hend. pose proof (lcp_le same x1 x2) as [L1 L2].
  apply (strcmp_scan differ last a1 a2 s (char_at x1) (char_at x2) k); try done.
  - intros j Hj. split; [apply (cstr_char_at _ _ x1)|apply (cstr_char_at _ _ x2)]; (done || lia).
  - intros j Hj.
    pose proof (cstr_char_nonzero _ _ _ j C1 ltac:(lia)).
    pose proof (cstr_char_nonzero _ _ _ j C2 ltac:(lia)).
    rewrite Hd, lcp_go, Hgo by lia. simpl.
    destruct (Z.eqb_spec (s8 (char_at x1 (Z.of_nat j))) 0) as [E|_]; [rewrite s8_zero in E by lia; lia|].
    destruct (Z.eqb_spec (s8 (char_at x2 (Z.of_nat j))) 0) as [E|_]; [rewrite s8_zero in E by lia; lia|]. done.
  - destruct Hend as [->|E]; [|by rewrite E, !orb_true_r].
    destruct (lcp_stop same x1 x2) as [E|[E|E]].
    + rewrite E, char_at_end. change (s8 0 =? 0) with true. by rewrite !orb_true_r.
    + rewrite E, char_at_end. change (s8 0 =? 0) with true. by rewrite !orb_true_r.
    + pose proof (cstr_char_at _ _ _ (lcp same x1 x2) C1 ltac:(lia)) as [_ B1].
      pose proof (cstr_char_at _ _ _ (lcp same x1 x2) C2 ltac:(lia)) as [_ B2].
      by rewrite Hd, E.
Qed.

Definition same_char (a b : Z) : bool := a =? b.
Definition same_lower (a b : Z) : bool := tolower (s8 a) =? tolower (s8 b).

Lemma differ_same_char b1 b2 : 0 <= b1 < 256 -> 0 <= b2 < 256 ->
  char_differ (s8 b1) (s8 b2) = negb (same_char b1 b2).
Proof.
  intros H1 H2. unfold char_differ, same_char. f_equal.
  destruct (Z.eqb_spec b1 b2) as [->|Hne]; [by rewrite Z.eqb_refl|].
  apply Z.eqb_neq. intros E. by apply s8_inj in E.
Qed.

Lemma equal_strings m a1 a2 x1 x2 : cstr m a1 x1 -> cstr m a2 x2 ->
  let k := lcp same_char x1 x2 in
  s8 (char_at x1 (Z.of_nat k)) - s8 (char_at x2 (Z.of_nat k)) = 0 <-> x1 = x2.
Proof.
  intros C1 C2 k. pose proof (lcp_le same_char x1 x2) as [L1 L2]. split.
  - intros E. pose proof (cstr_char_at _ _ _ k C1 ltac:(lia)) as [_ B1].
    pose proof (cstr_char_at _ _ _ k C2 ltac:(lia)) as [_ B2].
    assert (E' : char_at x1 (Z.of_nat k) = char_at x2 (Z.of_nat k)) by (apply s8_inj; lia).
    assert (Hk : k = length x1 /\ k = length x2).
    { destruct (lcp_stop same_char x1 x2) as [Ek|[Ek|Ek]]; fold k in Ek.
      - split; [done|]. destruct (decide (k = length x2)) as [|Hne]; [done|].
        pose proof (cstr_char_nonzero _ _ _ k C2 ltac:(lia)). rewrite Ek in E' at 1.
        rewrite char_at_end in E'. lia.
      - split; [|done]. destruct (decide (k = length x1)) as [|Hne]; [done|].
        pose proof (cstr_char_nonzero _ _ _ k C1 ltac:(lia)). rewrite Ek in E' at 2.
        rewrite char_at_end in E'. lia.
      - unfold same_char in Ek. by apply Z.eqb_neq in Ek. }
    destruct Hk as [K1 K2]. apply list_eq_same_length with k; [done..|].
    intros i y1 y2 Hi Y1 Y2. pose proof (lcp_go same_char x1 x2 i Hi) as G.
    unfold same_char in G. apply Z.eqb_eq in G.
    destruct (char_at_lt x1 i) as (z1 & Z1 & Q1); [lia|].
    destruct (char_at_lt x2 i) as (z2 & Z2 & Q2); [lia|]. congruence.
  - intros ->. lia.
Qed.

(** [__dfsw_strcmp] compares like C's strcmp up to the char type: it
    answers the difference of the first chars that differ, zero exactly on
    equal strings, leaves memory and all labels alone, and its return label is
    zero in strict mode and else has exactly the offsets of the bytes it had
    to look at, those of the common prefix and one more on each side. *)
Theorem dfsw_strcmp_correct a1 a2 x1 x2 l1 l2 s :
  weak_hook dfsan_weak_hook_strcmp = None ->
  st_ok s -> cstr (app s) a1 x1 -> cstr (app s) a2 x2 ->
  app_range a1 (Z.of_nat (length x1) + 1) -> app_range a2 (Z.of_nat (length x2) + 1) ->
  Z.of_nat (length x1) + 1 < 2 ^ 32 -> ls_room (tags s) (cmp_room (Z.of_nat (length x1) + 1)) ->
  let k := Z.of_nat (lcp same_char x1 x2) in
  exists v s', __dfsw_strcmp a1 a2 l1 l2 s = Ok (v, s') /\
    v = s8 (char_at x1 k) - s8 (char_at x2 k) /\ (v = 0 <-> x1 = x2) /\
    taints_ret s s' (fun b => a1 <= b <= a1 + k \/ a2 <= b <= a2 + k).
Proof.
  intros Hh Hok C1 C2 R1 R2 Hn Hroom k. pose proof (lcp_le same_char x1 x2) as [L1 L2].
  destruct (strcmp_strings char_differ (fun _ => false) same_char a1 a2 x1 x2
              (lcp same_char x1 x2) s) as (s' & E & HT);
    [done|done|done|unfold app_range in *; lia|unfold app_range in *; lia|lia
    |apply (ls_room_mono _ _ _ Hroom); unfold cmp_room; lia|apply differ_same_char|lia|done|by left|].
  eexists _, s'. split; [|split; [reflexivity|split; [by eapply equal_strings|exact HT]]].
  unfold __dfsw_strcmp, call_weak_hook, bind. rewrite Hh. exact E.
Qed.

(** [__dfsw_strncmp] with a positive bound does the same on at most [n]
    chars; with bound zero it answers zero with a zero label and reads
    nothing. *)
Theorem dfsw_strncmp_correct a1 a2 x1 x2 n l1 l2 l3 s :
  weak_hook dfsan_weak_hook_strncmp = None ->
  st_ok s -> cstr (app s) a1 x1 -> cstr (app s) a2 x2 ->
  app_range a1 (Z.of_nat (length x1) + 1) -> app_range a2 (Z.of_nat (length x2) + 1) ->
  Z.of_nat (length x1) + 1 < 2 ^ 32 -> 0 <= n -> ls_room (tags s) (cmp_room (Z.of_nat (length x1) + 1)) ->
  let k := Z.min (Z.of_nat (lcp same_char x1 x2)) (n - 1) in
  exists v s', __dfsw_strncmp a1 a2 n l1 l2 l3 s = Ok (v, s') /\
    (n = 0 -> v = 0 /\ s' = set_retl 0 s) /\
    (0 < n -> v = s8 (char_at x1 k) - s8 (char_at x2 k) /\
      taints_ret s s' (fun b => a1 <= b <= a1 + k \/ a2 <= b <= a2 + k)).
Proof.
  intros Hh Hok C1 C2 R1 R2 Hn Hn0 Hroom k. pose proof (lcp_le same_char x1 x2) as [L1 L2].
  unfold __dfsw_strncmp. case (Z.eqb_spec n 0); [intros ->|intros Hnz].
  { eexists _, _. split; [reflexivity|]. split; [done|lia]. }
  destruct (strcmp_strings char_differ (fun i => i =? n - 1) same_char a1 a2 x1 x2
              (Z.to_nat k) s) as (s' & E & HT);
    [done|done|done|unfold app_range in *; lia|unfold app_range in *; lia|lia
    |apply (ls_room_mono _ _ _ Hroom); unfold cmp_room; lia|apply differ_same_char|lia| | |].
  { intros j Hj. apply Z.eqb_neq. lia. }
  { destruct (decide (k = n - 1)) as [->|]; [right|left; lia].
    rewrite Z2Nat.id by lia. by apply Z.eqb_eq. }
  rewrite Z2Nat.id in * by lia.
  eexists _, s'. split; [|split; [lia|]].
  - unfold call_weak_hook, bind. rewrite Hh. exact E.
  - intros _. split; [reflexivity|exact HT].
Qed.

(** [__dfsw_strncasecmp] stops where the bound is reached even when the
    strings agree up to case there, and then answers the difference of the two
    chars as they are: on strings whose first [n] chars differ in nothing but
    case it is the case difference of the last of them, where C's strncasecmp
    answers zero. *)
Theorem dfsw_strncasecmp_case_difference a1 a2 x1 x2 n l1 l2 l3 s :
  st_ok s -> cstr (app s) a1 x1 -> cstr (app s) a2 x2 ->
  app_range a1 (Z.of_nat (length x1) + 1) -> app_range a2 (Z.of_nat (length x2) + 1) ->
  Z.of_nat (length x1) + 1 < 2 ^ 32 ->
  0 < n <= Z.of_nat (lcp same_lower x1 x2) -> ls_room (tags s) (cmp_room n) ->
  exists s', __dfsw_strncasecmp a1 a2 n l1 l2 l3 s =
      Ok (s8 (char_at x1 (n - 1)) - s8 (char_at x2 (n - 1)), s') /\
    taints_ret s s' (fun b => a1 <= b < a1 + n \/ a2 <= b < a2 + n).
Proof.
  intros Hok C1 C2 R1 R2 Hn Hn0 Hroom. pose proof (lcp_le same_lower x1 x2) as [L1 L2].
  destruct (strcmp_strings lower_differ (fun i => i =? n - 1) same_lower a1 a2 x1 x2
              (Z.to_nat (n - 1)) s) as (s' & E & HT);
    [done|done|done|unfold app_range in *; lia|unfold app_range in *; lia|lia
    |apply (ls_room_mono _ _ _ Hroom); unfold cmp_room; lia|done|lia| | |].
  { intros j Hj. apply Z.eqb_neq. lia. }
  { right. rewrite Z2Nat.id by lia. by apply Z.eqb_eq. }
  rewrite Z2Nat.id in * by lia.
  exists s'. split.
  - unfold __dfsw_strncasecmp. case (Z.eqb_spec n 0); [lia|done].
  - eapply taints_ret_iff; [exact HT|]. intros b. cbv beta. lia.
Qed.

(** The loop of [__dfsw_memcmp] from index [i], when the first [i] bytes are
    known to agree. *)
Lemma memcmp_loop_spec a1 a2 n s (f1 f2 : Z -> Z) : forall (k : nat) i,
  st_ok s -> 0 <= i -> n = i + Z.of_nat k -> n < 2 ^ 32 -> ls_room (tags s) (cmp_room n) ->
  app_range a1 n -> app_range a2 n ->
  (forall j, 0 <= j < n -> app s !! (a1 + j) = Some (f1 j) /\ app s !! (a2 + j) = Some (f2 j)) ->
  exists v s' m, dfsw_memcmp_loop k a1 a2 n i s = Ok (v, s') /\ i <= m <= n /\
    (forall j, i <= j < m -> s8 (f1 j) = s8 (f2 j)) /\
    (m = n /\ v = 0 /\ taints_ret s s' (fun b => a1 <= b < a1 + n \/ a2 <= b < a2 + n) \/
     m < n /\ s8 (f1 m) <> s8 (f2 m) /\ v = s8 (f1 m) - s8 (f2 m) /\
     taints_ret s s' (fun b => a1 <= b <= a1 + m \/ a2 <= b <= a2 + m)).
Proof.
  induction k as [|k IH]; intros i Hok Hi Hk Hn Hroom R1 R2 Hm; cbn [dfsw_memcmp_loop].
  - destruct (cmp_ret_label_spec a1 a2 n s) as (s' & E & HT); [done..|].
    exists 0, s', n. unfold bind. rewrite E. split; [done|]. split; [lia|]. split; [lia|].
    left. auto.
  - destruct (Hm i) as [E1 E2]; [lia|].
    unfold bind at 1. rewrite (on_mem_loadc s _ _ E1). unfold bind at 1.
    rewrite (on_mem_loadc s _ _ E2).
    case (Z.eqb_spec (s8 (f1 i)) (s8 (f2 i))); intros Heq; cbn [negb].
    + destruct (IH (i + 1)) as (v & s' & m & E & Hmr & Hpre & Hres); [done|lia|lia|done..|].
      exists v, s', m. split; [done|]. split; [lia|]. split; [|done].
      intros j Hj. destruct (decide (j = i)) as [->|]; [done|apply Hpre; lia].
    + destruct (cmp_ret_label_spec a1 a2 (i + 1) s) as (s' & E & HT);
        [done|unfold app_range in *; lia|unfold app_range in *; lia|lia
        |apply (ls_room_mono _ _ _ Hroom); unfold cmp_room; lia|].
      exists (s8 (f1 i) - s8 (f2 i)), s', i. unfold bind. rewrite E.
      split; [done|]. split; [lia|]. split; [lia|]. right. split; [lia|]. split; [done|].
      split; [done|]. eapply taints_ret_iff; [exact HT|]. intros b. cbv beta. lia.
Qed.

(** [__dfsw_memcmp] answers zero exactly when the [n] bytes agree, and
    otherwise the difference, as signed chars, of the first bytes that differ;
    the return label covers exactly the bytes inspected (all [n] of both
    blocks when they agree). *)
Theorem dfsw_memcmp_correct a1 a2 n l1 l2 l3 s (f1 f2 : Z -> Z) :
  weak_hook dfsan_weak_hook_memcmp = None ->
  st_ok s -> 0 <= n < 2 ^ 32 -> app_range a1 n -> app_range a2 n -> ls_room (tags s) (cmp_room n) ->
  (forall j, 0 <= j < n -> app s !! (a1 + j) = Some (f1 j) /\ app s !! (a2 + j) = Some (f2 j) /\
                           0 <= f1 j < 256 /\ 0 <= f2 j < 256) ->
  exists v s' m, __dfsw_memcmp a1 a2 n l1 l2 l3 s = Ok (v, s') /\ 0 <= m <= n /\
    (forall j, 0 <= j < m -> f1 j = f2 j) /\
    (m = n /\ v = 0 /\ taints_ret s s' (fun b => a1 <= b < a1 + n \/ a2 <= b < a2 + n) \/
     m < n /\ f1 m <> f2 m /\ v = s8 (f1 m) - s8 (f2 m) /\ v <> 0 /\
     taints_ret s s' (fun b => a1 <= b <= a1 + m \/ a2 <= b <= a2 + m)).
Proof.
  intros Hh Hok Hn R1 R2 Hroom Hm.
  destruct (memcmp_loop_spec a1 a2 n s f1 f2 (Z.to_nat n) 0) as (v & s' & m & E & Hmr & Hpre & Hres);
    [done|lia|lia|lia|done|done|done|by intros j Hj; destruct (Hm j Hj) as (? & ? & _)|].
  exists v, s', m. split; [unfold __dfsw_memcmp, call_weak_hook, bind; by rewrite Hh|].
  split; [done|]. split.
  - intros j Hj. destruct (Hm j) as (_ & _ & B1 & B2); [lia|]. apply s8_inj; auto.
  - destruct Hres as [?|(? & Hne & -> & ?)]; [by left|right].
    split; [done|]. split; [congruence|]. split; [done|]. split; [lia|done].
Qed.

End Compare.

(** ** Copies *)

Section Copies.
Context {T OS : Type} `{LabelStore T} `{!Env T OS}.
Implicit Types s : st T OS.

Lemma copy_labels_spec d src n s :
  app_range d n -> app_range src n -> (d <= src \/ src + n <= d) ->
  exists h, copy_labels (shadow_for d) (shadow_for src) n s = Ok (tt, set_shadow h s) /\
    relabelled s h d n (fun b => lbl s (src + (b - d))).
Proof.
  intros Rd Rs Hdir. unfold copy_labels.
  set (body := fun i => l <- read_shadow (shadow_for src + 4 * i) ;;
                        write_label (shadow_for d + 4 * i) l).
  destruct (for_count_inv (fun k s' => exists h, s' = set_shadow h s /\
       relabelled s h d (Z.of_nat k) (fun b => lbl s (src + (b - d))))
     body (Z.to_nat n) 0 s) as (s' & E & h & -> & P).
  - intros k s1 Hk (h & -> & HP). rewrite Z.add_0_l.
    assert (Hsk : is_app (src + Z.of_nat k)) by (eapply (app_range_in src n); eauto; lia).
    assert (Hdk : is_app (d + Z.of_nat k)) by (eapply (app_range_in d n); eauto; lia).
    unfold body, bind.
    rewrite (app_range_shadow d n), (app_range_shadow src n) by (done || lia).
    rewrite read_shadow_app, write_label_app by done.
    eexists. split; [reflexivity|]. eexists. split; [reflexivity|]. cbn [shadow set_shadow].
    intros b Hb. destruct (decide (b = d + Z.of_nat k)) as [->|Hne].
    + rewrite lookup_insert_eq. unfold in_range. rewrite bool_decide_eq_true_2 by lia.
      cbn [default from_option]. unfold lbl at 1, label_at. cbn [shadow set_shadow].
      rewrite HP by done. unfold in_range. rewrite bool_decide_eq_false_2 by lia.
      by replace (src + (d + Z.of_nat k - d)) with (src + Z.of_nat k) by lia.
    + rewrite lookup_insert_ne by (rewrite !shadow_for_app by done; lia).
      rewrite HP by done. unfold in_range. repeat case_bool_decide; try done; lia.
  - exists (shadow s). split; [by destruct s|]. intros b Hb. unfold in_range.
    by rewrite bool_decide_eq_false_2 by lia.
  - exists h. split; [done|]. unfold app_range in Rd. by rewrite Z2Nat.id in P by lia.
Qed.

Lemma on_mem_Ok {A} (f : M mem A) s a m : f (app s) = Ok (a, m) -> on_mem f s = Ok (a, set_app m s).
Proof. unfold on_mem. by intros ->. Qed.

Lemma dfsan_memcpy_spec d src n s :
  mem_ok (app s) -> mapped (app s) src n -> mapped (app s) d n ->
  app_range d n -> app_range src n -> (d <= src \/ src + n <= d) ->
  exists m h, dfsan_memcpy d src n s = Ok (d, set_app m (set_shadow h s)) /\
    copied (app s) m d src n /\ relabelled s h d n (fun b => lbl s (src + (b - d))).
Proof.
  intros Hok Ms Md Rd Rs Hdir. unfold dfsan_memcpy.
  destruct (copy_labels_spec d src n s) as (h & E & P); [done..|].
  destruct (internal_memcpy_spec (app s) d src n) as (m & Em & Pm);
    [unfold app_range in Rd; lia|done..|].
  exists m, h. split; [|done]. unfold bind. rewrite E. by apply on_mem_Ok.
Qed.

(** [__dfsw_memcpy] copies the bytes and, byte for byte, their labels,
    returns the destination with the destination's label, and changes no other
    byte and no other label; the blocks may not overlap upwards. *)
Theorem dfsw_memcpy_exact d src n dl sl nl s :
  mem_ok (app s) -> mapped (app s) src n -> mapped (app s) d n ->
  app_range d n -> app_range src n -> (d <= src \/ src + n <= d) ->
  exists s', __dfsw_memcpy d src n dl sl nl s = Ok (d, s') /\ retl s' = dl /\ tags s' = tags s /\
    (forall a, app s' !! a = if bool_decide (d <= a < d + n) then app s !! (src + (a - d)) else app s !! a) /\
    (forall b, is_app b -> lbl s' b = if bool_decide (d <= b < d + n) then lbl s (src + (b - d)) else lbl s b).
Proof.
  intros Hok Ms Md Rd Rs Hdir.
  destruct (dfsan_memcpy_spec d src n (set_retl dl s)) as (m & h & E & Pm & Ph); [done..|].
  eexists. split; [exact E|]. done.
Qed.

(** What a string copy with padding leaves: the [k] leading source bytes with
    their labels, then zeros without a label up to [n]. *)
Definition padded_copy s (s' : st T OS) d src k n : Prop :=
  (forall a, app s' !! a =
     if bool_decide (d <= a < d + k) then app s !! (src + (a - d))
     else if bool_decide (d <= a < d + n) then Some 0 else app s !! a) /\
  (forall b, is_app b -> lbl s' b =
     if bool_decide (d <= b < d + k) then lbl s (src + (b - d))
     else if bool_decide (d <= b < d + n) then 0 else lbl s b).

Lemma pad_after_copy s d src k n :
  mem_ok (app s) -> mapped (app s) src k -> mapped (app s) d n ->
  app_range d n -> app_range src k -> 0 <= k <= n -> (d <= src \/ src + k <= d) ->
  exists s', (dfsan_memcpy d src k ;;; dfsan_memset (d + k) 0 0 (n - k)) s = Ok (tt, s') /\
    padded_copy s s' d src k n /\ retl s' = retl s /\ tags s' = tags s.
Proof.
  intros Hok Ms Md Rd Rs Hk Hdir.
  destruct (dfsan_memcpy_spec d src k s) as (m & h & E & Pm & Ph);
    [done|done|intros b Hb; apply Md; lia|unfold app_range in *; lia|done|done|].
  unfold bind. rewrite E. unfold dfsan_memset, bind.
  destruct (internal_memset_spec m (d + k) 0 (n - k)) as (m2 & E2 & P2); [lia| |].
  { intros b Hb. rewrite Pm. rewrite bool_decide_eq_false_2 by lia. apply Md. lia. }
  rewrite (on_mem_Ok _ (set_app m (set_shadow h s)) _ _ E2).
  destruct (dfsan_set_label_spec 0 (d + k) (n - k)
     (set_app m2 (set_app m (set_shadow h s)))) as (h2 & E3 & P3); [unfold app_range in *; lia|].
  rewrite E3. eexists. split; [reflexivity|]. split; [split|done].
  - intros a. cbn [app set_app set_shadow]. rewrite P2, Pm.
    repeat case_bool_decide; try done; lia.
  - intros b Hb. unfold lbl, label_at. cbn [shadow set_shadow]. rewrite P3 by done.
    unfold lbl at 1, label_at. cbn [shadow set_app set_shadow]. rewrite Ph by done. unfold in_range.
    repeat case_bool_decide; try done; lia.
Qed.

Lemma libc_strlen_st s a x : cstr (app s) a x ->
  on_mem (libc_strlen a) s = Ok (Z.of_nat (length x), s).
Proof.
  intros Hc. unfold on_mem, libc_strlen. rewrite (internal_strlen_cstr _ _ _ Hc). by destruct s.
Qed.

Lemma cstr_mapped m a x : cstr m a x -> mapped m a (Z.of_nat (length x) + 1).
Proof.
  intros [Hb _]. apply bytes_at_mapped in Hb. rewrite length_app in Hb. simpl in Hb.
  by replace (Z.of_nat (length x) + 1) with (Z.of_nat (length x + 1)) by lia.
Qed.

(** [__dfsw_strncpy] leaves at its destination the source string, labels
    included, followed by unlabelled zeros up to [n] when the string is
    shorter, and exactly the first [n] bytes of it when it is not; bytes and
    labels elsewhere stay. *)
Theorem dfsw_strncpy_exact d src x n dl sl nl s :
  mem_ok (app s) -> cstr (app s) src x -> mapped (app s) d n -> 0 <= n ->
  app_range d n -> app_range src (Z.of_nat (length x) + 1) ->
  (d + n <= src \/ src + Z.of_nat (length x) + 1 <= d) ->
  exists s', __dfsw_strncpy d src n dl sl nl s = Ok (d, s') /\ retl s' = dl /\
    padded_copy s s' d src (Z.min n (Z.of_nat (length x) + 1)) n.
Proof.
  intros Hok Hc Md Hn Rd Rs Hdir. unfold __dfsw_strncpy, bind at 1.
  rewrite (libc_strlen_st s src x Hc). pose proof (cstr_mapped _ _ _ Hc) as Ms.
  case (Z.ltb_spec (Z.of_nat (length x)) n); intros Hlt.
  - destruct (pad_after_copy s d src (Z.of_nat (length x) + 1) n) as (s' & E & P & _);
      [done..|lia|lia|].
    exists (set_retl dl s'). split; [|split; [done|]].
    + replace (d + Z.of_nat (length x) + 1) with (d + (Z.of_nat (length x) + 1)) by lia.
      replace (n - Z.of_nat (length x) - 1) with (n - (Z.of_nat (length x) + 1)) by lia.
      unfold bind at 1. by rewrite E.
    + by rewrite Z.min_r by lia.
  - destruct (dfsan_memcpy_spec d src n s) as (m & h & E & Pm & Ph);
      [done|intros b Hb; apply Ms; lia|done|done|unfold app_range in *; lia|lia|].
    eexists. split; [unfold bind; rewrite E; reflexivity|]. split; [done|].
    rewrite Z.min_l by lia. split.
    + intros a. cbn [app set_app set_shadow set_retl]. rewrite Pm. by repeat case_bool_decide.
    + intros b Hb. unfold lbl at 1, label_at. cbn [shadow set_app set_shadow set_retl].
      rewrite Ph by done. unfold in_range. by repeat case_bool_decide.
Qed.

(** What C promises of a successful [malloc]. *)
Definition malloc_returns (m : mem) (n p : Z) (m' : mem) : Prop :=
  mem_ok m' /\ mapped m' p n /\ app_range p n /\
  (forall a, p <= a < p + n -> m !! a = None) /\
  (forall a b, m !! a = Some b -> m' !! a = Some b).

(** [__dfsw_strdup] returns a fresh block that holds the string with the
    label of every character and of the terminator, and changes neither bytes
    nor labels of the original. *)
Theorem dfsw_strdup_copies a x sl p m' o' s :
  mem_ok (app s) -> cstr (app s) a x -> app_range a (Z.of_nat (length x) + 1) ->
  sys sys_malloc [Z.of_nat (length x) + 1] (app s) (os s) = (p, m', o') ->
  malloc_returns (app s) (Z.of_nat (length x) + 1) p m' ->
  exists s', __dfsw_strdup a sl s = Ok (p, s') /\ retl s' = 0 /\ os s' = o' /\
    cstr (app s') p x /\ cstr (app s') a x /\
    (forall i, 0 <= i <= Z.of_nat (length x) ->
       lbl s' (p + i) = lbl s (a + i) /\ lbl s' (a + i) = lbl s (a + i)).
Proof.
  intros Hok Hc Ra Hsys (Hok' & Mp & Rp & Hfresh & Hold).
  set (n := Z.of_nat (length x) + 1) in *. pose proof (cstr_mapped _ _ _ Hc) as Ma.
  assert (Hdis : p + n <= a \/ a + n <= p).
  { destruct (Z_lt_le_dec a (p + n)) as [H1|]; [|lia]. destruct (Z_lt_le_dec p (a + n)) as [H2|]; [|lia].
    destruct (Ma (Z.max a p)) as [b Hb]; [lia|]. rewrite Hfresh in Hb; [done|lia]. }
  assert (Hc' : cstr m' a x).
  { destruct Hc as [Hb Hr]. split; [|done]. intros i b Hi. by apply Hold, Hb. }
  set (s1 := set_os o' (set_app m' s)).
  destruct (dfsan_memcpy_spec p a n s1) as (m2 & h & E & Pm & Ph);
    [done|by apply cstr_mapped|done|done|done|lia|].
  exists (set_retl 0 (set_app m2 (set_shadow h s1))).
  split; [|split; [reflexivity|split; [reflexivity|]]].
  { unfold __dfsw_strdup, bind. rewrite (libc_strlen_st s a x Hc). fold n.
    rewrite (call_eq sys_malloc [n] s p m' o' Hsys). fold s1. by rewrite E. }
  cbn [app set_app set_retl set_shadow set_os]. split; [|split].
  - destruct Hc' as [Hb Hr]. split; [|done]. intros i b Hi. rewrite Pm.
    pose proof (lookup_lt_Some _ _ _ Hi) as Hlt. rewrite length_app in Hlt. simpl in Hlt.
    rewrite bool_decide_eq_true_2 by lia. rewrite <-(Hb i b Hi). f_equal. lia.
  - destruct Hc' as [Hb Hr]. split; [|done]. intros i b Hi. rewrite Pm.
    pose proof (lookup_lt_Some _ _ _ Hi) as Hlt. rewrite length_app in Hlt. simpl in Hlt.
    rewrite bool_decide_eq_false_2 by lia. by apply Hb.
  - intros i Hi. unfold lbl, label_at. cbn [shadow set_app set_shadow set_retl].
    rewrite (Ph (p + i)) by (apply (app_range_in p n); [done|lia]).
    rewrite (Ph (a + i)) by (apply (app_range_in a n); [done|lia]). unfold in_range.
    rewrite bool_decide_eq_true_2, bool_decide_eq_false_2 by lia.
    split; [|done]. by replace (a + (p + i - p)) with (a + i) by lia.
Qed.

(** When [malloc] fails, [__dfsw_strdup] copies the labels to the shadow of
    the null pointer it got: the process faults instead of returning null. *)
Theorem dfsw_strdup_malloc_failure a x sl o' s :
  cstr (app s) a x ->
  sys sys_malloc [Z.of_nat (length x) + 1] (app s) (os s) = (0, app s, o') ->
  __dfsw_strdup a sl s = Fault Segv.
Proof.
  intros Hc Hsys. unfold __dfsw_strdup, bind. rewrite (libc_strlen_st s a x Hc).
  rewrite (call_eq _ _ s _ _ _ Hsys). unfold dfsan_memcpy, bind, copy_labels.
  replace (Z.to_nat (Z.of_nat (length x) + 1)) with (S (length x)) by lia.
  cbn [for_count]. unfold bind, read_shadow at 1. by destruct (shadow_mapped _).
Qed.

(** The custom function of [strtoull] is declared with its third and fourth
    parameter in the wrong order.  Instrumented code passes the call's three
    arguments, then their labels; the number is then parsed in the base given
    by the label of [nptr], and the base argument has no influence. *)
Lemma dfsw_strtoull_base_is_label nptr base base' nptr_label endptr_label base_label s :
  __dfsw_strtoull nptr 0 base nptr_label endptr_label base_label s =
  __dfsw_strtoull nptr 0 base' nptr_label endptr_label base_label s /\
  forall v s', __dfsw_strtoull nptr 0 base nptr_label endptr_label base_label s = Ok (v, s') ->
    v = fst (strto strtoull nptr nptr_label (app s)).
Proof.
  split; [done|]. intros v s'. unfold __dfsw_strtoull, strto_int, bind at 1, gets.
  destruct (strto strtoull nptr nptr_label (app s)) as [v0 e]. cbn [fst].
  unfold store_endptr, when. cbn [negb Z.eqb]. intros E.
  apply bind_Ok_inv in E as (? & s1 & _ & E). apply bind_Ok_inv in E as (? & s2 & _ & E).
  by injection E.
Qed.

End Copies.

(** ** Searches *)

Section Searches.
Context {T OS : Type} `{!LabelStore T, !LabelStoreView T, !LabelStoreSpec T} `{!Env T OS}.
Implicit Types s : st T OS.

(** Number of leading chars of a string that satisfy [p]. *)
Definition span (p : Z -> bool) (x : list Z) : nat := lcp (fun a _ => p a) x x.

(** The join of the labels of a range with two more labels. *)
Lemma join_read_label a n l1 l2 s :
  st_ok s -> app_range a n -> n < 2 ^ 32 -> ls_valid (tags s) l1 -> ls_valid (tags s) l2 ->
  ls_room (tags s) (Z.to_nat n + 2) ->
  exists l t', (k1 <- dfsan_read_label a n ;; k2 <- dfsan_union l1 l2 ;; dfsan_union k1 k2) s
       = Ok (l, set_tags t' s) /\ (exists k, tags_ext k (tags s) t') /\
    taint_is t' l (fun o => o ∈ taint (tags s) l1 \/ o ∈ taint (tags s) l2 \/
                     exists b, a <= b < a + n /\ o ∈ taint (tags s) (lbl s b)).
Proof.
  intros Hok R Hn V1 V2 Hroom. unfold bind.
  destruct (dfsan_read_label_spec a n s Hok R Hn) as (k1 & t1 & E1 & X1 & W1 & T1);
    [apply (ls_room_mono _ _ _ Hroom); lia|]. pose proof (te_room _ _ _ X1 _ Hroom) as Hroom1.
  rewrite E1. destruct (te_label _ _ _ X1 l1 V1) as [V1' E1']. destruct (te_label _ _ _ X1 l2 V2) as [V2' E2'].
  destruct (union_ext l1 l2 s t1) as (k2 & t2 & E2 & X2 & W2 & T2);
    [apply (te_ok _ _ _ X1)|done..|apply (ls_room_mono _ _ _ Hroom1); lia|].
  rewrite E2. destruct (te_label _ _ _ X2 k1 W1) as [W1' F1].
  destruct (union_ext k1 k2 s t2) as (l & t3 & E3 & X3 & W3 & T3);
    [apply (te_ok _ _ _ X2)|done..|by apply (te_room _ _ _ X2)|].
  exists l, t3. split; [done|].
  split; [eexists; eapply tags_ext_trans; [exact X1|eapply tags_ext_trans; [exact X2|exact X3]]|].
  eapply taint_is_iff; [eapply taint_is_join; [exact X3|eapply taint_is_ext; [exact X2|exact W1|exact T1]|exact T2|exact T3]|].
  intros o. cbv beta. rewrite E1', E2'. tauto.
Qed.

(** The effect of a search on the state: only the return label changes, which
    is [l0] in strict mode and otherwise joins the labels of the two arguments
    and of the bytes looked at. *)
Definition taints_search s (s' : st T OS) (l0 l1 l2 : Z) (P : Z -> Prop) : Prop :=
  exists l t', s' = set_retl l (set_tags t' s) /\ (exists k, tags_ext k (tags s) t') /\
    (strict_data_dependencies (flags s) = true -> l = l0 /\ t' = tags s) /\
    (strict_data_dependencies (flags s) = false ->
     taint_is t' l (fun o => o ∈ taint (tags s) l1 \/ o ∈ taint (tags s) l2 \/
                      exists b, P b /\ o ∈ taint (tags s) (lbl s b))).

Lemma search_label_spec a n l0 l1 l2 s :
  st_ok s -> app_range a n -> n < 2 ^ 32 -> ls_valid (tags s) l1 -> ls_valid (tags s) l2 ->
  ls_room (tags s) (Z.to_nat n + 2) ->
  exists s', (x <- strict ;;
              (if (x : bool) then set_ret_label l0
               else k1 <- dfsan_read_label a n ;; k2 <- dfsan_union l1 l2 ;;
                    l <- dfsan_union k1 k2 ;; set_ret_label l)) s = Ok (tt, s') /\
    taints_search s s' l0 l1 l2 (fun b => a <= b < a + n).
Proof.
  intros Hok R Hn V1 V2 Hroom. unfold strict, bind at 1, gets.
  destruct (strict_data_dependencies (flags s)) eqn:Hst.
  { eexists. split; [reflexivity|]. exists l0, (tags s). split; [by destruct s|].
    split; [eexists; apply tags_ext_refl, Hok|]. by rewrite Hst. }
  destruct (join_read_label a n l1 l2 s Hok R Hn V1 V2 Hroom) as (l & t' & E & X & Q).
  exists (set_retl l (set_tags t' s)). split.
  - revert E. unfold bind.
    destruct (dfsan_read_label a n s) as [[k1 s1]|]; [|done].
    destruct (dfsan_union l1 l2 s1) as [[k2 s2]|]; [|done].
    by destruct (dfsan_union k1 k2 s2) as [[k3 s3]|]; [intros [= -> ->]|].
  - exists l, t'. split; [done|]. split; [done|]. rewrite Hst. split; [done|]. by intros _.
Qed.

Lemma strchr_round a c l1 l2 i b s :
  app s !! (a + i) = Some b ->
  (b' <- on_mem (loadc (a + i)) ;;
   if (b' =? c) || (b' =? 0) then
     x <- strict ;;
     (if (x : bool) then set_ret_label l1
      else k1 <- dfsan_read_label a (i + 1) ;; k2 <- dfsan_union l1 l2 ;;
           l <- dfsan_union k1 k2 ;; set_ret_label l) ;;;
     ret (Some (if b' =? 0 then 0 else a + i))
   else ret None) s =
  if (s8 b =? c) || (s8 b =? 0) then
    match (x <- strict ;;
      (if (x : bool) then set_ret_label l1
       else k1 <- dfsan_read_label a (i + 1) ;; k2 <- dfsan_union l1 l2 ;;
            l <- dfsan_union k1 k2 ;; set_ret_label l)) s with
    | Ok (_, s') => Ok (Some (if s8 b =? 0 then 0 else a + i), s')
    | Fault e => Fault e
    end
  else Ok (None, s).
Proof.
  intros E. unfold bind at 1. rewrite (on_mem_loadc s _ _ E).
  destruct ((s8 b =? c) || (s8 b =? 0)); [|done]. by rewrite bind_assoc.
Qed.

(** [__dfsw_strchr] on a string answers the address of the first char
    equal to [c], or null if there is none before the terminator; so for
    [c = 0] it answers null, where C's strchr answers the terminator.  Its
    return label is that of the pointer in strict mode, and otherwise the join
    of the labels of both arguments and of every byte up to the match. *)
Theorem dfsw_strchr_correct a x c l1 l2 s :
  st_ok s -> cstr (app s) a x -> app_range a (Z.of_nat (length x) + 1) ->
  Z.of_nat (length x) + 1 < 2 ^ 32 -> ls_valid (tags s) l1 -> ls_valid (tags s) l2 ->
  ls_room (tags s) (length x + 3) ->
  let k := span (fun b => negb (s8 b =? c)) x in
  exists s', __dfsw_strchr a c l1 l2 s =
      Ok (if bool_decide (k < length x)%nat then a + Z.of_nat k else 0, s') /\
    taints_search s s' l1 l1 l2 (fun b => a <= b <= a + Z.of_nat k).
Proof.
  intros Hok Hc R Hn V1 V2 Hroom k. unfold span in k.
  pose proof (lcp_le (fun b _ => negb (s8 b =? c)) x x) as [Hk _]. fold k in Hk.
  destruct (search_label_spec a (Z.of_nat k + 1) l1 l1 l2 s) as (s' & E & l & t & Hs & X & A & B);
    [done|unfold app_range in *; lia|lia|done|done|apply (ls_room_mono _ _ _ Hroom); lia|].
  exists s'. split.
  - unfold __dfsw_strchr, scan_st.
    rewrite (for_ever_stop _ s (Ok (Some (if bool_decide (k < length x)%nat
              then a + Z.of_nat k else 0), s')) k 0); [done| | | |done].
    + pose proof (cstr_size _ _ _ Hc). lia.
    + intros j Hj. rewrite Z.add_0_l.
      destruct (cstr_char_at _ _ _ j Hc ltac:(lia)) as [Ej _].
      rewrite (strchr_round _ _ _ _ _ _ _ Ej).
      pose proof (lcp_go _ x x j Hj) as G. cbv beta in G. breflect.
      pose proof (cstr_char_nonzero _ _ _ j Hc ltac:(lia)) as Hnz.
      destruct (Z.eqb_spec (s8 (char_at x (Z.of_nat j))) c); [done|].
      destruct (Z.eqb_spec (s8 (char_at x (Z.of_nat j))) 0) as [E0|]; [rewrite s8_zero in E0; lia|done].
    + rewrite Z.add_0_l. destruct (cstr_char_at _ _ _ k Hc ltac:(lia)) as [Ek _].
      rewrite (strchr_round _ _ _ _ _ _ _ Ek).
      destruct (decide (k = length x)) as [Hkl|Hkl].
      * assert (Hz : char_at x (Z.of_nat k) = 0) by (rewrite Hkl; apply char_at_end).
        rewrite Hz. change (s8 0) with 0. rewrite Z.eqb_refl, orb_true_r.
        rewrite E. by rewrite bool_decide_eq_false_2 by lia.
      * pose proof (cstr_char_nonzero _ _ _ k Hc ltac:(lia)) as Hnz.
        destruct (lcp_stop (fun b _ => negb (s8 b =? c)) x x) as [F|[F|F]]; [done|done|].
        fold k in F. cbv beta in F. breflect. rewrite F, Z.eqb_refl. simpl orb. cbv iota.
        rewrite E. rewrite bool_decide_eq_true_2 by lia.
        destruct (Z.eqb_spec c 0) as [E0|]; [|done]. rewrite <-F, s8_zero in E0 by lia. lia.
  - exists l, t. split; [done|]. split; [done|]. split; [done|]. intros Hst.
    eapply taint_is_iff; [by apply B|]. intros o.
    split; (intros [?|[?|(b & Hb & Ho)]]; [by left|by right; left|right; right; exists b; split; [lia|done]]).
Qed.

End Searches.

(** ** Witnesses *)

Lemma dfsw_strcmp_correct_witness :
  exists v s', __dfsw_strcmp Ex.a0 Ex.a1 0 0 Ex.ex = Ok (v, s') /\ v = -32 /\
    (v = 0 <-> [65; 66] = [65; 98]).
Proof.
  destruct (dfsw_strcmp_correct Ex.a0 Ex.a1 [65; 66] [65; 98] 0 0 Ex.ex)
    as (v & s' & E & Hv & Hz & _); [done|apply Ex.ex_st_ok|apply Ex.ex_s0|apply Ex.ex_s1|by vm_compute..|].
  exists v, s'. by repeat split; try apply Hz.
Defined.

Lemma dfsw_strncmp_correct_witness :
  exists v s', __dfsw_strncmp Ex.a0 Ex.a1 1 0 0 0 Ex.ex = Ok (v, s') /\ v = 0.
Proof.
  destruct (dfsw_strncmp_correct Ex.a0 Ex.a1 [65; 66] [65; 98] 1 0 0 0 Ex.ex)
    as (v & s' & E & _ & Hv); [done|apply Ex.ex_st_ok|apply Ex.ex_s0|apply Ex.ex_s1|by vm_compute..|].
  exists v, s'. split; [exact E|]. by destruct (Hv ltac:(lia)) as [-> _].
Defined.

Lemma dfsw_strncasecmp_case_difference_witness :
  exists s', __dfsw_strncasecmp Ex.a0 Ex.a1 2 0 0 0 Ex.ex = Ok (-32, s').
Proof.
  destruct (dfsw_strncasecmp_case_difference Ex.a0 Ex.a1 [65; 66] [65; 98] 2 0 0 0 Ex.ex)
    as (s' & E & _); [apply Ex.ex_st_ok|apply Ex.ex_s0|apply Ex.ex_s1|by vm_compute..|].
  exists s'. exact E.
Defined.

Lemma dfsw_memcmp_correct_witness :
  exists v s' m, __dfsw_memcmp Ex.a0 Ex.a1 2 0 0 0 Ex.ex = Ok (v, s') /\ 0 <= m <= 2.
Proof.
  destruct (dfsw_memcmp_correct Ex.a0 Ex.a1 2 0 0 0 Ex.ex
     (fun j => if j =? 0 then 65 else 66) (fun j => if j =? 0 then 65 else 98))
    as (v & s' & m & E & Hm & _); [done|apply Ex.ex_st_ok|lia|by vm_compute|by vm_compute|done| |].
  - intros j Hj. assert (j = 0 \/ j = 1) as [-> | ->] by lia; by vm_compute.
  - exists v, s', m. by split.
Defined.

Lemma dfsw_memcpy_exact_witness :
  exists s', __dfsw_memcpy Ex.a1 Ex.a0 2 5 0 0 Ex.ex = Ok (Ex.a1, s') /\ lbl s' (Ex.a1 + 1) = 2.
Proof.
  destruct (dfsw_memcpy_exact Ex.a1 Ex.a0 2 5 0 0 Ex.ex) as (s' & E & _ & _ & _ & Hl);
    [apply Ex.ex_mem_ok|by apply mappedb_sound|by apply mappedb_sound|by vm_compute|by vm_compute|by right|].
  exists s'. split; [exact E|]. rewrite Hl; [reflexivity|by vm_compute].
Defined.

Lemma dfsw_strncpy_exact_witness :
  exists s', __dfsw_strncpy Ex.a1 Ex.a0 5 3 0 0 Ex.ex = Ok (Ex.a1, s') /\
    app s' !! (Ex.a1 + 4) = Some 0.
Proof.
  destruct (dfsw_strncpy_exact Ex.a1 Ex.a0 [65; 66] 5 3 0 0 Ex.ex) as (s' & E & _ & P & _);
    [apply Ex.ex_mem_ok|apply Ex.ex_s0|by apply mappedb_sound|lia|by vm_compute|by vm_compute|by right|].
  exists s'. split; [exact E|]. by rewrite P.
Defined.

Lemma dfsw_strdup_copies_witness :
  exists s', __dfsw_strdup Ex.a0 0 Ex.ex = Ok (0x700000020000, s') /\
    lbl s' (0x700000020000 + 1) = 2.
Proof.
  destruct (dfsw_strdup_copies Ex.a0 [65; 66] 0 0x700000020000
    (app Ex.ex ∪ SimpleEnv.block 0x700000020000 3) 0x700000020003 Ex.ex)
    as (s' & E & _ & _ & _ & _ & P);
    [apply Ex.ex_mem_ok|apply Ex.ex_s0|by vm_compute|reflexivity| |].
  - split; [by apply mem_okb_sound|]. split; [by apply mappedb_sound|]. split; [by vm_compute|].
    split; [|intros a b Hab; by apply lookup_union_Some_l].
    intros a Ha. cbn [length Z.of_nat] in Ha.
    assert (a = 0x700000020000 \/ a = 0x700000020001 \/ a = 0x700000020002) as [-> | [-> | ->] ] by lia;
      by vm_compute.
  - exists s'. split; [exact E|]. destruct (P 1) as [-> _]; [simpl; lia|]. reflexivity.
Defined.

Lemma dfsw_strdup_malloc_failure_witness :
  __dfsw_strdup (Env0 := SimpleEnv.no_memory _) Ex.a0 0 Ex.ex = Fault Segv.
Proof.
  apply (dfsw_strdup_malloc_failure (Env0 := SimpleEnv.no_memory _) Ex.a0 [65; 66] 0 0x700000020000);
    [apply Ex.ex_s0|reflexivity].
Defined.

Lemma dfsw_strchr_correct_witness :
  exists s', __dfsw_strchr Ex.a0 66 0 0 Ex.ex = Ok (Ex.a0 + 1, s').
Proof.
  destruct (dfsw_strchr_correct Ex.a0 [65; 66] 66 0 0 Ex.ex) as (s' & E & _);
    [apply Ex.ex_st_ok|apply Ex.ex_s0|by vm_compute..|].
  exists s'. exact E.
Defined.
