(* ===== verification/DfsanSys.v ===== *)
(** * Wrappers of system functions

    [llvm_mode/dfsan_rt/dfsan/dfsan_custom.cc], second part, and
    [dfsan_interceptors.cc]: functions whose output comes from the system.
    They call the function and clear (or set) the labels of what it wrote.
    The theorems say that a wrapper is transparent -- result, memory and
    system state are those of the call -- and which labels it touches. *)

From S2P Require Import Prelude CMem Dfsan Env.

Local Open Scope Z_scope.

Section Sys.
Context {T OS : Type} `{LabelStore T} `{!Env T OS}.
Abbreviation D := (M (st T OS)).

Definition clear (p n : Z) : D unit := dfsan_set_label 0 p n.
Definition strlen (p : Z) : D Z := on_mem (libc_strlen p).
Definition nonnull (p : Z) : bool := negb (p =? 0).

Definition __dfsw_clock_gettime (clk_id tp clk_id_label tp_label : Z) : D Z :=
  r <- call sys_clock_gettime [clk_id; tp] ;;
  when (r =? 0) (clear tp sizeof_timespec) ;;;
  set_ret_label 0 ;;; ret r.

Definition unpoison (ptr size : Z) : D unit := clear ptr size.

Fixpoint for_each_mapped_region (rs : list (Z * Z)) : D unit :=
  match rs with
  | [] => ret tt
  | (p, n) :: rs => unpoison p n ;;; for_each_mapped_region rs
  end.

Definition __dfsw_dlopen (filename flag filename_label flag_label : Z) : D Z :=
  handle <- call sys_dlopen [filename; flag] ;;
  map <- gets (fun s => mapped_regions handle (os s)) ;;
  match map with
  | Some rs => for_each_mapped_region rs
  | None => ret tt
  end ;;;
  set_ret_label 0 ;;; ret handle.

(** A [pthread_create_info] is three pointers: trampoline, routine, argument. *)
Definition pthread_create_cb (p : Z) : D Z :=
  tramp <- on_mem (load64 p) ;;
  routine <- on_mem (load64 (p + 8)) ;;
  arg <- on_mem (load64 (p + 16)) ;;
  call sys_free [p] ;;;
  app_call tramp [routine; arg; 0].

Definition __dfsw_pthread_create
  (thread attr start_routine_trampoline start_routine arg
   thread_label attr_label start_routine_label arg_label : Z) : D Z :=
  pci <- call sys_malloc [sizeof_pthread_create_info] ;;
  on_mem (store64 pci start_routine_trampoline) ;;;
  on_mem (store64 (pci + 8) start_routine) ;;;
  on_mem (store64 (pci + 16) arg) ;;;
  rv <- call sys_pthread_create [thread; attr; pthread_create_cb_addr; pci] ;;
  when (negb (rv =? 0)) (call sys_free [pci] ;;; ret tt) ;;;
  set_ret_label 0 ;;; ret rv.

Record dl_iterate_phdr_info :=
  { callback_trampoline : Z; dipi_callback : Z; dipi_data : Z }.

Definition dl_iterate_phdr_cb (dipi : dl_iterate_phdr_info) (info size : Z) : D Z :=
  clear info sizeof_dl_phdr_info ;;;
  name <- on_mem (load64 (info + offsetof_dlpi_name)) ;;
  len <- strlen name ;;
  clear name (len + 1) ;;;
  phdr <- on_mem (load64 (info + offsetof_dlpi_phdr)) ;;
  phnum <- on_mem (load16 (info + offsetof_dlpi_phnum)) ;;
  clear phdr (sizeof_phdr * phnum) ;;;
  app_call (callback_trampoline dipi) [dipi_callback dipi; info; size; dipi_data dipi; 0; 0; 0].

(** libc's [dl_iterate_phdr]: objects in turn until a callback answers
    non-zero; the last answer is returned. *)
Fixpoint dl_iterate_phdr (cb : Z -> Z -> D Z) (objs : list (Z * Z)) : D Z :=
  match objs with
  | [] => ret 0
  | (info, size) :: objs =>
      r <- cb info size ;;
      if (r =? 0) && negb (bool_decide (objs = [])) then dl_iterate_phdr cb objs else ret r
  end.

Definition __dfsw_dl_iterate_phdr
  (callback_trampoline callback data callback_label data_label : Z) : D Z :=
  let dipi := {| callback_trampoline := callback_trampoline;
                 dipi_callback := callback; dipi_data := data |} in
  set_ret_label 0 ;;;
  objs <- gets (fun s => loaded_objects (os s)) ;;
  dl_iterate_phdr (dl_iterate_phdr_cb dipi) objs.

Definition __dfsw_ctime_r (timep buf timep_label buf_label : Z) : D Z :=
  r <- call sys_ctime_r [timep; buf] ;;
  (if nonnull r then
     l <- dfsan_read_label timep sizeof_time_t ;;
     n <- strlen buf ;;
     dfsan_set_label l buf (n + 1) ;;;
     set_ret_label buf_label
   else set_ret_label 0) ;;;
  ret r.

Definition __dfsw_getcwd (buf size buf_label size_label : Z) : D Z :=
  r <- call sys_getcwd [buf; size] ;;
  (if nonnull r then
     n <- strlen r ;; clear r (n + 1) ;;; set_ret_label buf_label
   else set_ret_label 0) ;;;
  ret r.

Definition __dfsw_get_current_dir_name : D Z :=
  r <- call sys_get_current_dir_name [] ;;
  when (nonnull r) (n <- strlen r ;; clear r (n + 1)) ;;;
  set_ret_label 0 ;;; ret r.

Definition __dfsw_gethostname (name len name_label len_label : Z) : D Z :=
  r <- call sys_gethostname [name; len] ;;
  when (r =? 0) (n <- strlen name ;; clear name (n + 1)) ;;;
  set_ret_label 0 ;;; ret r.

Definition __dfsw_getrlimit (resource rlim resource_label rlim_label : Z) : D Z :=
  r <- call sys_getrlimit [resource; rlim] ;;
  when (r =? 0) (clear rlim sizeof_rlimit) ;;;
  set_ret_label 0 ;;; ret r.

Definition __dfsw_getrusage (who usage who_label usage_label : Z) : D Z :=
  r <- call sys_getrusage [who; usage] ;;
  when (r =? 0) (clear usage sizeof_rusage) ;;;
  set_ret_label 0 ;;; ret r.

Definition __dfsw_time (t t_label : Z) : D Z :=
  r <- call sys_time [t] ;;
  when (negb (r =? -1) && nonnull t) (clear t sizeof_time_t) ;;;
  set_ret_label 0 ;;; ret r.

Definition __dfsw_inet_pton (af src dst af_label src_label dst_label : Z) : D Z :=
  r <- call sys_inet_pton [af; src; dst] ;;
  when (r =? 1)
    (n <- strlen src ;;
     l <- dfsan_read_label src (n + 1) ;;
     dfsan_set_label l dst (if af =? AF_INET then sizeof_in_addr else sizeof_in6_addr)) ;;;
  set_ret_label 0 ;;; ret r.

Definition __dfsw_localtime_r (timep result timep_label result_label : Z) : D Z :=
  r <- call sys_localtime_r [timep; result] ;;
  (if nonnull r then
     l <- dfsan_read_label timep sizeof_time_t ;;
     dfsan_set_label l result sizeof_tm ;;;
     set_ret_label result_label
   else set_ret_label 0) ;;;
  ret r.

Definition __dfsw_getpwuid_r (uid pwd buf buflen result
  uid_label pwd_label buf_label buflen_label result_label : Z) : D Z :=
  r <- call sys_getpwuid_r [uid; pwd; buf; buflen; result] ;;
  when (r =? 0)
    (clear pwd sizeof_passwd ;;; n <- strlen buf ;; clear buf (n + 1)) ;;;
  set_ret_label 0 ;;;
  clear result sizeof_ptr ;;;
  ret r.

(** [for (; nfds > 0; --nfds)] over [fds[nfds - 1].revents]. *)
Definition poll_body (fds i : Z) : D unit :=
  clear (fds + sizeof_pollfd * i + offsetof_revents) sizeof_revents.
Definition __dfsw_poll (fds nfds timeout dfs_label nfds_label timeout_label : Z) : D Z :=
  r <- call sys_poll [fds; nfds; timeout] ;;
  when (0 <=? r) (for_down (Z.to_nat nfds) (poll_body fds)) ;;;
  set_ret_label 0 ;;; ret r.

Definition __dfsw_select (nfds readfds writefds exceptfds timeout
  nfds_label readfds_label writefds_label exceptfds_label timeout_label : Z) : D Z :=
  r <- call sys_select [nfds; readfds; writefds; exceptfds; timeout] ;;
  when (nonnull readfds) (clear readfds sizeof_fd_set) ;;;
  when (nonnull writefds) (clear writefds sizeof_fd_set) ;;;
  when (nonnull exceptfds) (clear exceptfds sizeof_fd_set) ;;;
  clear timeout sizeof_timeval ;;;
  set_ret_label 0 ;;; ret r.

Definition __dfsw_sched_getaffinity (pid cpusetsize mask
  pid_label cpusetsize_label mask_label : Z) : D Z :=
  r <- call sys_sched_getaffinity [pid; cpusetsize; mask] ;;
  when (r =? 0) (clear mask cpusetsize) ;;;
  set_ret_label 0 ;;; ret r.

(** [*ret_label] is left as it was. *)
Definition __dfsw_sigemptyset (set set_label : Z) : D Z :=
  r <- call sys_sigemptyset [set] ;;
  clear set sizeof_sigset_t ;;;
  ret r.

Definition __dfsw_sigaction (signum act oldact signum_label act_label oldact_label : Z) : D Z :=
  r <- call sys_sigaction [signum; act; oldact] ;;
  when (nonnull oldact) (clear oldact sizeof_sigaction) ;;;
  set_ret_label 0 ;;; ret r.

Definition __dfsw_gettimeofday (tv tz tv_label tz_label : Z) : D Z :=
  r <- call sys_gettimeofday [tv; tz] ;;
  when (nonnull tv) (clear tv sizeof_timeval) ;;;
  when (nonnull tz) (clear tz sizeof_timezone) ;;;
  set_ret_label 0 ;;; ret r.

Definition __dfsw_nanosleep (req rem req_label rem_label : Z) : D Z :=
  r <- call sys_nanosleep [req; rem] ;;
  set_ret_label 0 ;;;
  when (r =? -1) (clear rem sizeof_timespec) ;;;
  ret r.

Definition __dfsw_socketpair (domain type protocol sv
  domain_label type_label protocol_label sv_label : Z) : D Z :=
  r <- call sys_socketpair [domain; type; protocol; sv] ;;
  set_ret_label 0 ;;;
  when (r =? 0) (clear sv (sizeof_int * 2)) ;;;
  ret r.

(** [write_callback_info] is the pair [wcb] of trampoline and callback. *)
Definition __dfsw_dfsan_set_write_callback
  (write_callback_trampoline write_callback write_callback_label : Z) : D unit :=
  modify (set_wcb (write_callback_trampoline, write_callback)).

Definition __dfsw_write (fd buf count fd_label buf_label count_label : Z) : D Z :=
  cb <- gets wcb ;;
  when (nonnull (snd cb))
    (app_call (fst cb) [snd cb; fd; buf; count; fd_label; buf_label; count_label] ;;; ret tt) ;;;
  set_ret_label 0 ;;;
  call sys_write [fd; buf; count].

(** dfsan_interceptors.cc: fresh mappings carry no label.  [pagesize] is the
    result of [GetPageSize]; [(void * )-1] is the largest word. *)
Definition MAP_FAILED : Z := 2 ^ 64 - 1.
Definition interceptor_mmap (pagesize addr length prot flags fd offset : Z) : D Z :=
  r <- call sys_mmap [addr; length; prot; flags; fd; offset] ;;
  when (negb (r =? MAP_FAILED)) (n <- of_res (RoundUpTo length pagesize) ;; clear r n) ;;;
  ret r.
Definition interceptor_mmap64 (pagesize addr length prot flags fd offset : Z) : D Z :=
  r <- call sys_mmap64 [addr; length; prot; flags; fd; offset] ;;
  when (negb (r =? MAP_FAILED)) (n <- of_res (RoundUpTo length pagesize) ;; clear r n) ;;;
  ret r.

End Sys.

(** [InitializeInterceptors] checks that it runs once; [inited] is its static
    variable. *)
Definition InitializeInterceptors (inited : Z) : res (Z * list sysfn) :=
  if inited =? 0 then Ok (1, [sys_mmap; sys_mmap64]) else Fault DieCalled.

(** ** Proofs *)

Section Proofs.
Context {T OS : Type} `{LabelStore T} `{!Env T OS}.
Implicit Types s : st T OS.

(** The state after a wrapper that made one call: only the labels [h] and the
    label cell differ from what the call itself leaves. *)
Definition after (s : st T OS) (m : mem) (o : OS) (h : gmap Z Z) : st T OS :=
  set_shadow h (set_os o (set_app m s)).

Lemma when_clear_spec (c : bool) p n s :
  (c = true -> app_range p n) ->
  exists h, when c (clear p n) s = Ok (tt, set_shadow h s) /\
    relabelled s h p (if c then n else 0) (fun _ => 0).
Proof.
  intros Hr. destruct c; cbn [when].
  - by apply dfsan_set_label_spec, Hr.
  - exists (shadow s). split; [by destruct s|]. intros b Hb. unfold in_range.
    by rewrite bool_decide_eq_false_2 by lia.
Qed.

(** Wrappers that fill one output parameter: the wrapper of [f], its arguments,
    the output parameter, its size and when it was written. *)
Inductive out_wrapper : M (st T OS) Z -> sysfn -> list Z -> Z -> Z -> (Z -> bool) -> Prop :=
| ow_clock_gettime c tp l1 l2 :
    out_wrapper (__dfsw_clock_gettime c tp l1 l2) sys_clock_gettime [c; tp] tp 16 (fun r => r =? 0)
| ow_getrlimit x p l1 l2 :
    out_wrapper (__dfsw_getrlimit x p l1 l2) sys_getrlimit [x; p] p 16 (fun r => r =? 0)
| ow_getrusage x p l1 l2 :
    out_wrapper (__dfsw_getrusage x p l1 l2) sys_getrusage [x; p] p 144 (fun r => r =? 0)
| ow_time p l1 :
    out_wrapper (__dfsw_time p l1) sys_time [p] p 8 (fun r => negb (r =? -1) && negb (p =? 0))
| ow_sched_getaffinity x n p l1 l2 l3 :
    out_wrapper (__dfsw_sched_getaffinity x n p l1 l2 l3) sys_sched_getaffinity [x; n; p] p n
      (fun r => r =? 0)
| ow_sigaction x a p l1 l2 l3 :
    out_wrapper (__dfsw_sigaction x a p l1 l2 l3) sys_sigaction [x; a; p] p 152
      (fun _ => negb (p =? 0))
| ow_nanosleep q p l1 l2 :
    out_wrapper (__dfsw_nanosleep q p l1 l2) sys_nanosleep [q; p] p 16 (fun r => r =? -1)
| ow_socketpair d t c p l1 l2 l3 l4 :
    out_wrapper (__dfsw_socketpair d t c p l1 l2 l3 l4) sys_socketpair [d; t; c; p] p 8
      (fun r => r =? 0).

(** The wrappers of clock_gettime, getrlimit, getrusage, time,
    sched_getaffinity, sigaction, nanosleep and socketpair return what the
    function returned, with the memory and system state it left; they clear the
    labels of the output structure -- all of it and nothing else -- exactly
    when the function reports to have written it, and return an unlabelled
    value. *)
Theorem out_wrapper_exact w f args p n c r m o s :
  out_wrapper w f args p n c ->
  sys f args (app s) (os s) = (r, m, o) ->
  (c r = true -> app_range p n) ->
  exists h, w s = Ok (r, set_retl 0 (after s m o h)) /\
    forall b, is_app b ->
      lbl (after s m o h) b = if c r && bool_decide (p <= b < p + n) then 0 else lbl s b.
Proof.
  intros Hw Hsys Hr.
  assert (Hsplit : forall s1 : st T OS, (forall b, lbl s1 b = lbl s b) ->
    exists h, when (c r) (clear p n) s1 = Ok (tt, set_shadow h s1) /\
    forall b, is_app b -> default 0 (h !! shadow_for b) =
      if c r && bool_decide (p <= b < p + n) then 0 else lbl s b).
  { intros s1 Hl. destruct (when_clear_spec (c r) p n s1 Hr) as (h & E & P).
    exists h. split; [done|]. intros b Hb. rewrite P, <-Hl by done. unfold in_range.
    destruct (c r); [done|]. by rewrite bool_decide_eq_false_2 by lia. }
  destruct Hw; cbv beta in Hsplit;
    cbv [__dfsw_clock_gettime __dfsw_getrlimit __dfsw_getrusage __dfsw_time
      __dfsw_sched_getaffinity __dfsw_sigaction __dfsw_nanosleep __dfsw_socketpair];
    unfold bind; rewrite (call_eq _ _ s _ _ _ Hsys); unfold set_ret_label, modify, ret;
    match goal with |- context [when _ _ ?s1] => destruct (Hsplit s1) as (h & E & P) end;
    try done; exists h; unfold nonnull, sizeof_timespec, sizeof_rlimit, sizeof_rusage, sizeof_time_t,
      sizeof_sigaction, sizeof_int in *; try change (4 * 2) with 8; rewrite E; (split; [done|exact P]).
Qed.

(** ** poll *)

(** [b] is a byte of [fds[i].revents] for some [k <= i < n]. *)
Definition revents_byte (fds k n b : Z) : bool :=
  let d := b - fds in (8 * k <=? d) && (d <? 8 * n) && (6 <=? d mod 8).

Lemma revents_byte_iff fds k n b :
  revents_byte fds k n b = true <->
  exists i, k <= i < n /\ fds + sizeof_pollfd * i + offsetof_revents <= b
    < fds + sizeof_pollfd * i + offsetof_revents + sizeof_revents.
Proof.
  unfold revents_byte, sizeof_pollfd, offsetof_revents, sizeof_revents.
  rewrite !andb_true_iff, !Z.leb_le, Z.ltb_lt.
  pose proof (Z.div_mod (b - fds) 8 ltac:(lia)). pose proof (Z.mod_pos_bound (b - fds) 8 ltac:(lia)).
  split.
  - intros [[]]. exists ((b - fds) / 8). lia.
  - intros (i & Hi & Hb). assert ((b - fds) / 8 = i) by lia. lia.
Qed.

Lemma poll_body_spec fds n k s h :
  app_range fds (sizeof_pollfd * n) -> 0 <= k < n ->
  (forall b, is_app b -> default 0 (h !! shadow_for b) =
     if revents_byte fds (k + 1) n b then 0 else lbl s b) ->
  exists h', poll_body fds k (set_shadow h s) = Ok (tt, set_shadow h' s) /\
    (forall b, is_app b -> default 0 (h' !! shadow_for b) =
       if revents_byte fds k n b then 0 else lbl s b).
Proof.
  intros Hr Hk HP. unfold poll_body.
  destruct (dfsan_set_label_spec 0 (fds + sizeof_pollfd * k + offsetof_revents) sizeof_revents
    (set_shadow h s)) as (h' & E & P).
  { unfold app_range, sizeof_pollfd, offsetof_revents, sizeof_revents in *. lia. }
  exists h'. split; [exact E|]. intros b Hb. rewrite P by done.
  change (lbl (set_shadow h s) b) with (default 0 (h !! shadow_for b)). rewrite HP by done.
  unfold in_range, sizeof_pollfd, offsetof_revents, sizeof_revents in *.
  destruct (revents_byte fds k n b) eqn:E1.
  - apply revents_byte_iff in E1 as (i & Hi & Hb1).
    case_bool_decide as Hin; [done|].
    replace (revents_byte fds (k + 1) n b) with true; [done|]. symmetry. apply revents_byte_iff.
    exists i. unfold sizeof_pollfd, offsetof_revents, sizeof_revents in *.
    destruct (decide (i = k)) as [->|]; lia.
  - case_bool_decide as Hin.
    + exfalso. apply not_true_iff_false in E1. apply E1, revents_byte_iff. exists k.
      unfold sizeof_pollfd, offsetof_revents, sizeof_revents in *. lia.
    + destruct (revents_byte fds (k + 1) n b) eqn:E2; [|done]. exfalso.
      apply revents_byte_iff in E2 as (i & Hi & Hb1). apply not_true_iff_false in E1.
      apply E1, revents_byte_iff. exists i. lia.
Qed.

(** The wrapper of [poll] clears the [revents] field of every descriptor
    entry and keeps the labels of the [fd] and [events] fields next to it; on an
    error no label changes. *)
Theorem dfsw_poll_exact fds nfds timeout l1 l2 l3 r m o s :
  sys sys_poll [fds; nfds; timeout] (app s) (os s) = (r, m, o) ->
  0 <= nfds -> app_range fds (sizeof_pollfd * nfds) ->
  exists h, __dfsw_poll fds nfds timeout l1 l2 l3 s = Ok (r, set_retl 0 (after s m o h)) /\
    forall b, is_app b ->
      lbl (after s m o h) b = if (0 <=? r) && revents_byte fds 0 nfds b then 0 else lbl s b.
Proof.
  intros Hsys Hn Hr. unfold __dfsw_poll, bind. rewrite (call_eq _ _ s _ _ _ Hsys).
  set (s1 := set_os o (set_app m s)). destruct (0 <=? r) eqn:Er; cbn [when andb].
  2: { exists (shadow s). split; [by destruct s|]. done. }
  destruct (for_down_inv (fun k s' => exists h, s' = set_shadow h s1 /\
      forall b, is_app b -> default 0 (h !! shadow_for b) =
        if revents_byte fds (Z.of_nat k) nfds b then 0 else lbl s b)
    (poll_body fds) (Z.to_nat nfds) s1) as (s' & E & h & -> & P).
  - intros k s2 Hk (h & -> & HP).
    destruct (poll_body_spec fds nfds (Z.of_nat k) s1 h) as (h' & E & P); [done|lia| |by eauto].
    intros b Hb. rewrite HP by done. by replace (Z.of_nat (S k)) with (Z.of_nat k + 1) by lia.
  - exists (shadow s1). split; [done|]. intros b Hb. rewrite Z2Nat.id by lia.
    destruct (revents_byte fds nfds nfds b) eqn:E2; [|done].
    apply revents_byte_iff in E2 as (i & Hi & _). lia.
  - exists h. rewrite E. split; [done|exact P].
Qed.

(** ** select *)

Lemma clear_null n s : 0 < n -> clear 0 n s = Fault Segv.
Proof.
  intros Hn. unfold clear, dfsan_set_label, __dfsan_set_label.
  destruct (Z.to_nat n) as [|k] eqn:E; [lia|]. done.
Qed.

(** [select] with a null [timeout] (wait for ever) is a legal call, but its
    wrapper clears the labels of the timeout without the test it makes for the
    three sets: the shadow of the null pointer is not mapped and the process
    faults, whatever the system call answered. *)
Theorem dfsw_select_null_timeout nfds rd wr ex l1 l2 l3 l4 l5 s :
  (rd = 0 \/ app_range rd sizeof_fd_set) -> (wr = 0 \/ app_range wr sizeof_fd_set) ->
  (ex = 0 \/ app_range ex sizeof_fd_set) ->
  __dfsw_select nfds rd wr ex 0 l1 l2 l3 l4 l5 s = Fault Segv.
Proof.
  assert (Hset : forall p s1, (p = 0 \/ app_range p sizeof_fd_set) -> exists h,
    when (nonnull p) (clear p sizeof_fd_set) s1 = Ok (tt, set_shadow h s1)).
  { intros p s1 Hp. destruct (when_clear_spec (nonnull p) p sizeof_fd_set s1) as (h & E & _); [|by exists h].
    destruct Hp as [->|Hp]; done. }
  intros Hrd Hwr Hex. unfold __dfsw_select, bind, call. destruct (sys _ _ _ _) as [[r m] o].
  destruct (Hset rd (set_os o (set_app m s)) Hrd) as (h1 & ->).
  match goal with |- context [when (nonnull wr) _ ?s1] => destruct (Hset wr s1 Hwr) as (h2 & ->) end.
  match goal with |- context [when (nonnull ex) _ ?s1] => destruct (Hset ex s1 Hex) as (h3 & ->) end.
  by rewrite clear_null by done.
Qed.

(** ** Threads *)

(** The three words of a [pthread_create_info]. *)
Definition pci_at (m : mem) (p tramp routine arg : Z) : Prop :=
  word_at m p 8 tramp /\ word_at m (p + 8) 8 routine /\ word_at m (p + 16) 8 arg.

(** A thread created through the wrapper starts in the application's
    routine.  The block handed to the system holds the trampoline, the routine
    and its argument; when the system later runs [pthread_create_cb] on that
    block -- in any state in which the block is unchanged -- it frees the block
    and calls the trampoline on exactly that routine and argument, with a
    cleared label. *)
Theorem pthread_create_hands_over thread attr tramp routine arg l1 l2 l3 l4 s pci m o :
  0 <= tramp < 2 ^ 64 -> 0 <= routine < 2 ^ 64 -> 0 <= arg < 2 ^ 64 ->
  sys sys_malloc [sizeof_pthread_create_info] (app s) (os s) = (pci, m, o) ->
  mapped m pci sizeof_pthread_create_info ->
  exists m1, pci_at m1 pci tramp routine arg /\
    (let '(rv, m2, o2) := sys sys_pthread_create [thread; attr; pthread_create_cb_addr; pci] m1 o in
     rv = 0 ->
     __dfsw_pthread_create thread attr tramp routine arg l1 l2 l3 l4 s =
       Ok (0, set_retl 0 (set_os o2 (set_app m2 s)))) /\
    forall s2, pci_at (app s2) pci tramp routine arg ->
      pthread_create_cb pci s2 =
        (call sys_free [pci] ;;; app_call tramp [routine; arg; 0]) s2.
Proof.
  intros Ht Hro Ha Hsys Hm.
  destruct (store_word_spec 8 m pci tramp) as (m1 & E1 & W1 & P1 & Q1);
    [intros b Hb; apply Hm; unfold sizeof_pthread_create_info; lia|].
  destruct (store_word_spec 8 m1 (pci + 8) routine) as (m2 & E2 & W2 & P2 & Q2);
    [intros b Hb; apply (Q1 _ _ Hm); unfold sizeof_pthread_create_info; lia|].
  destruct (store_word_spec 8 m2 (pci + 16) arg) as (m3 & E3 & W3 & P3 & Q3);
    [intros b Hb; apply (Q2 _ _ (Q1 _ _ Hm)); unfold sizeof_pthread_create_info; lia|].
  exists m3. split; [|split].
  - split; [|split; [|done]]; intros i Hi; rewrite P3 by lia; [rewrite P2 by lia|]; auto.
  - destruct (sys sys_pthread_create _ m3 o) as [[rv m4] o4] eqn:Ep. intros ->.
    unfold __dfsw_pthread_create, bind. rewrite (call_eq _ _ s _ _ _ Hsys).
    unfold on_mem, store64. cbn [app set_app set_os]. rewrite E1. cbn [app set_app set_os].
    rewrite E2. cbn [app set_app set_os]. rewrite E3.
    rewrite (call_eq _ _ (set_app m3 (set_app m2 (set_app m1 (set_os o (set_app m s))))) _ _ _ Ep).
    done.
  - intros s2 (V1 & V2 & V3). unfold pthread_create_cb, on_mem, load64. unfold bind at 1.
    rewrite (load_le_word _ _ _ _ V1), wrap_small by done.
    replace (set_app (app s2) s2) with s2 by by destruct s2.
    unfold bind at 1. rewrite (load_le_word _ _ _ _ V2), wrap_small by done.
    replace (set_app (app s2) s2) with s2 by by destruct s2.
    unfold bind at 1. rewrite (load_le_word _ _ _ _ V3), wrap_small by done.
    by replace (set_app (app s2) s2) with s2 by by destruct s2.
Qed.
End Proofs.

(** ** Outputs computed from tainted inputs *)

Section Propagate.
Context {T OS : Type} `{!LabelStore T, !LabelStoreView T, !LabelStoreSpec T} `{!Env T OS}.
Implicit Types s : st T OS.

Lemma strlen_st s a x : cstr (app s) a x -> strlen a s = Ok (Z.of_nat (length x), s).
Proof.
  intros Hc. unfold strlen, on_mem, libc_strlen. rewrite (internal_strlen_cstr _ _ _ Hc).
  by destruct s.
Qed.

(** Label a range with the join of another. *)
Lemma relabel_from_spec src n dst k s :
  st_ok s -> app_range src n -> n < 2 ^ 32 -> app_range dst k -> ls_room (tags s) (Z.to_nat n) ->
  exists l t h, (l <- dfsan_read_label src n ;; dfsan_set_label l dst k) s =
      Ok (tt, set_shadow h (set_tags t s)) /\ st_ok (set_shadow h (set_tags t s)) /\
    taint_is t l (fun o => exists b, src <= b < src + n /\ o ∈ taint (tags s) (lbl s b)) /\
    relabelled s h dst k (fun _ => l).
Proof.
  intros Hok Hs Hn Hd Hroom. destruct (dfsan_read_label_spec src n s Hok Hs Hn Hroom) as (l & t & E & He & Hv & Ht).
  destruct (dfsan_set_label_spec l dst k (set_tags t s) Hd) as (h & E2 & P).
  exists l, t, h. unfold bind. rewrite E, E2. split; [done|]. split; [|done].
  eapply (set_label_st_ok l dst k (set_tags t s)); eauto. by eapply st_ok_ext.
Qed.

(** A successful [inet_pton] taints every byte of the address it wrote -- 4
    bytes for AF_INET, 16 otherwise -- with exactly the offsets of the text it
    was parsed from, terminator included, and touches no other label; the
    runtime's labels stay well formed. *)
Theorem dfsw_inet_pton_propagates af src dst l1 l2 l3 m o s x :
  st_ok s -> sys sys_inet_pton [af; src; dst] (app s) (os s) = (1, m, o) ->
  cstr m src x -> app_range src (Z.of_nat (length x) + 1) -> Z.of_nat (length x) + 1 < 2 ^ 32 ->
  let k := if af =? AF_INET then 4 else 16 in
  app_range dst k -> ls_room (tags s) (S (length x)) ->
  exists s', __dfsw_inet_pton af src dst l1 l2 l3 s = Ok (1, s') /\
    app s' = m /\ retl s' = 0 /\ st_ok s' /\
    forall b, is_app b ->
      if in_range dst k b
      then taint_is (tags s') (lbl s' b) (fun i =>
             exists c, src <= c < src + Z.of_nat (length x) + 1 /\ i ∈ taint (tags s) (lbl s c))
      else lbl s' b = lbl s b.
Proof.
  intros Hok Hsys Hc Hs Hn k Hd Hroom. unfold __dfsw_inet_pton, bind at 1.
  rewrite (call_eq _ _ s _ _ _ Hsys). set (s1 := set_os o (set_app m s)).
  change (1 =? 1) with true. cbn [when]. rewrite <-bind_assoc.
  rewrite (bind_Ok _ _ _ _ _ (strlen_st s1 src x Hc)).
  destruct (relabel_from_spec src (Z.of_nat (length x) + 1) dst k s1) as (l & t & h & E & Hok' & Ht & P);
    [done..|apply (ls_room_mono _ _ _ Hroom); lia|]. fold k. unfold sizeof_in_addr, sizeof_in6_addr. fold k.
  rewrite (bind_Ok _ _ _ _ _ E). unfold set_ret_label, modify, bind, ret.
  eexists. split; [reflexivity|]. split; [done|]. split; [done|]. split; [exact Hok'|].
  intros b Hb. pose proof (P b Hb) as Pb. destruct (in_range dst k b); [|exact Pb].
  unfold lbl, label_at at 1. cbn [shadow set_shadow set_retl tags set_tags].
  rewrite Pb. eapply taint_is_iff; [exact Ht|]. intros i. cbv beta. by setoid_rewrite Z.add_assoc.
Qed.
End Propagate.

(** ** Witnesses *)

Lemma out_wrapper_exact_witness :
  exists h, __dfsw_clock_gettime 1 Ex.a0 0 0 Ex.ex =
      Ok (0, set_retl 0 (after Ex.ex (app Ex.ex) (os Ex.ex) h)) /\
    lbl (after Ex.ex (app Ex.ex) (os Ex.ex) h) Ex.a0 = 0.
Proof.
  destruct (out_wrapper_exact _ _ _ _ _ _ 0 (app Ex.ex) (os Ex.ex) Ex.ex
    (ow_clock_gettime 1 Ex.a0 0 0)) as (h & E & P); [reflexivity|by vm_compute|].
  exists h. split; [exact E|]. by rewrite P by by vm_compute.
Defined.

Lemma dfsw_poll_exact_witness :
  exists h, __dfsw_poll Ex.a0 2 10 0 0 0 Ex.ex =
      Ok (0, set_retl 0 (after Ex.ex (app Ex.ex) (os Ex.ex) h)) /\
    lbl (after Ex.ex (app Ex.ex) (os Ex.ex) h) (Ex.a0 + 1) = 2.
Proof.
  destruct (dfsw_poll_exact Ex.a0 2 10 0 0 0 0 (app Ex.ex) (os Ex.ex) Ex.ex) as (h & E & P);
    [reflexivity|lia|by vm_compute|].
  exists h. split; [exact E|]. by rewrite P by by vm_compute.
Defined.

Lemma dfsw_select_null_timeout_witness :
  __dfsw_select 4 Ex.a0 0 0 0 0 0 0 0 0 Ex.ex = Fault Segv.
Proof.
  apply (dfsw_select_null_timeout 4 Ex.a0 0 0 0 0 0 0 0 Ex.ex);
    [right; by vm_compute|by left..].
Defined.

Lemma pthread_create_hands_over_witness :
  exists m1, pci_at m1 0x700000020000 0x701000000000 0x701000000100 7 /\
    __dfsw_pthread_create Ex.a0 0 0x701000000000 0x701000000100 7 0 0 0 0 Ex.ex =
      Ok (0, set_retl 0 (set_os 0x700000020018 (set_app m1 Ex.ex))).
Proof.
  destruct (pthread_create_hands_over Ex.a0 0 0x701000000000 0x701000000100 7 0 0 0 0 Ex.ex
    0x700000020000 (app Ex.ex ∪ SimpleEnv.block 0x700000020000 24) 0x700000020018)
    as (m1 & P & E & _); [lia|lia|lia|reflexivity|by apply mappedb_sound; vm_compute|].
  exists m1. split; [exact P|]. apply E. reflexivity.
Defined.

(** An environment in which [inet_pton] succeeds. *)
Definition pton_env (T : Type) : Env T Z := {|
  sys f args m o := match f with sys_inet_pton => (1, m, o) | _ => SimpleEnv.simple_sys f args m o end;
  strto _ nptr _ _ := (0, nptr);
  app_call _ _ s := Ok (0, s);
  weak_hook _ := None;
  mapped_regions _ _ := None;
  loaded_objects _ := [];
  caller_pc := 0;
  pthread_create_cb_addr := 0;
  printf_text fmt _ _ := Some fmt;
|}.

Lemma dfsw_inet_pton_propagates_witness :
  exists s', __dfsw_inet_pton (Env0 := pton_env _) 2 Ex.a0 Ex.a1 0 0 0 Ex.ex = Ok (1, s') /\
    9 ∈ taint (tags s') (lbl s' (Ex.a1 + 3)).
Proof.
  assert (Ha : is_app (Ex.a1 + 3)) by by vm_compute.
  destruct (dfsw_inet_pton_propagates (Env0 := pton_env _) 2 Ex.a0 Ex.a1 0 0 0 (app Ex.ex)
    0x700000020000 Ex.ex [65; 66]) as (s' & E & _ & _ & _ & P);
    [apply Ex.ex_st_ok|reflexivity|apply Ex.ex_s0|by vm_compute..|].
  exists s'. split; [exact E|]. pose proof (P _ Ha) as Q.
  assert (Hin : in_range Ex.a1 (if 2 =? AF_INET then 4 else 16) (Ex.a1 + 3) = true) by by vm_compute.
  rewrite Hin in Q. destruct Q as [_ Q]. apply Q; [done|]. exists (Ex.a0 + 1). split; [cbn [length]; lia|].
  change (9 ∈ ({[ 9 ]} : gset Z)). set_solver.
Defined.
