(* ===== verification/DfsanFormat.v ===== *)
(** * The sprintf and snprintf wrappers

    [llvm_mode/dfsan_rt/dfsan/dfsan_custom.cc], last part: [Formatter],
    [format_buffer] and the two wrappers.  A format string is cut into chunks,
    each a run of ordinary characters or one conversion directive; every chunk
    is formatted by its own call of libc's [snprintf], so that the labels of
    its output bytes can be set from the label of its argument.

    The text libc makes of one chunk is the operation [printf_text] of the
    environment.  A [va_list] is the list of the argument words that are left,
    and [va_labels] the list of their labels; reading past the end of either
    is undefined and represented as a fault. *)

From S2P Require Import Prelude CMem Dfsan Env DfsanCustom.

Local Open Scope Z_scope.

Record Formatter := mkFormatter {
  f_str : Z; str_off : Z; f_size : Z; fmt_start : Z; fmt_cur : Z; width : Z }.

Definition new_Formatter (str fmt size : Z) : Formatter := mkFormatter str 0 size fmt fmt (-1).

Definition set_cur (c : Z) (f : Formatter) : Formatter :=
  mkFormatter (f_str f) (str_off f) (f_size f) (fmt_start f) c (width f).
Definition set_width (w : Z) (f : Formatter) : Formatter :=
  mkFormatter (f_str f) (str_off f) (f_size f) (fmt_start f) (fmt_cur f) w.

Definition str_cur (f : Formatter) : Z := f_str f + str_off f.

(** [str_off < size ? size - str_off : 0] *)
Definition num_avail (f : Formatter) : Z :=
  if str_off f <? f_size f then f_size f - str_off f else 0.

Definition num_written_bytes (f : Formatter) (retval : Z) : Z :=
  if retval <? 0 then 0 else
  if num_avail f =? 0 then 0 else
  if num_avail f <=? retval then retval - num_avail f else retval.

(** What is left of the variable arguments: their words and their labels. *)
Record va := mkVa { va_list : list Z; va_labels : list Z }.

(** What one round of the loop leaves. *)
Inductive outcome := Returned (r : Z) | Goes (f : Formatter) (a : va).

Definition chr_pct : Z := 37.

Section Format.
Context {T OS : Type} `{LabelStore T} `{!Env T OS}.
Abbreviation D := (M (st T OS)).

(** ** libc's snprintf *)

Fixpoint store_bytes (p : Z) (l : list Z) : M mem unit :=
  match l with
  | [] => ret tt
  | b :: l => store p b ;;; store_bytes (p + 1) l
  end.

(** At most [n - 1] characters and a terminator are stored; the result is the
    length of the whole text, or -1 for an error or a text too long for an
    [int]. *)
Definition snprintf (dst n fmt : Z) (args : list Z) : D Z :=
  len <- on_mem (libc_strlen fmt) ;;
  f <- on_mem (load_bytes (Z.to_nat len) fmt) ;;
  m <- gets app ;;
  match printf_text f args m with
  | None => ret (-1)
  | Some txt =>
      if 2 ^ 31 <=? Z.of_nat (length txt) then ret (-1) else
      (if n =? 0 then ret tt
       else on_mem (store_bytes dst (take (Z.to_nat (n - 1)) txt ++ [0]))) ;;;
      ret (Z.of_nat (length txt))
  end.

(** ** Formatter *)

Definition build_format_string (f : Formatter) : D Z :=
  let fmt_size := fmt_cur f - fmt_start f + 1 in
  new_fmt <- call sys_malloc [fmt_size + 1] ;;
  if new_fmt =? 0 then fail AssertFailed else
  on_mem (internal_memcpy new_fmt (fmt_start f) fmt_size) ;;;
  on_mem (store (new_fmt + fmt_size) 0) ;;;
  ret new_fmt.

(** [format()], for a chunk without an argument. *)
Definition format (f : Formatter) : D Z :=
  tmp_fmt <- build_format_string f ;;
  retval <- snprintf (str_cur f) (num_avail f) tmp_fmt [0] ;;
  call sys_free [tmp_fmt] ;;;
  ret retval.

(** [format(T arg)]: a width given by a star is passed before the argument. *)
Definition format_arg (f : Formatter) (arg : Z) : D Z :=
  tmp_fmt <- build_format_string f ;;
  retval <- (if 0 <=? width f
             then snprintf (str_cur f) (num_avail f) tmp_fmt [width f; arg]
             else snprintf (str_cur f) (num_avail f) tmp_fmt [arg]) ;;
  call sys_free [tmp_fmt] ;;;
  ret retval.

(** ** format_buffer *)

Definition va_arg (a : va) : D (Z * va) :=
  match va_list a with
  | w :: ws => ret (w, mkVa ws (va_labels a))
  | [] => fail Segv
  end.
(** [va_labels++], and [*va_labels++] *)
Definition next_label (a : va) : D (Z * va) :=
  match va_labels a with
  | l :: ls => ret (l, mkVa (va_list a) ls)
  | [] => fail Segv
  end.
Definition skip_label (a : va) : va := mkVa (va_list a) (tail (va_labels a)).

(** Ordinary characters: up to a percent sign or the end. *)
Fixpoint skip_ordinary (fuel : nat) (cur : Z) : D Z :=
  match fuel with
  | O => fail OutOfFuel
  | S n => c <- on_mem (loadc (cur + 1)) ;;
           if negb (c =? 0) && negb (c =? chr_pct) then skip_ordinary n (cur + 1) else ret cur
  end.

(** [dfsan_set_label(label, str_cur(), num_written_bytes(retval))] *)
Definition label_output (label : Z) (f : Formatter) (retval : Z) : D unit :=
  dfsan_set_label label (str_cur f) (num_written_bytes f retval).

(** A directive that consumes one argument, converted by [conv], and labels its
    output with the argument's label. *)
Definition format_labelled (conv : Z -> Z) (f : Formatter) (a : va) : D (Z * va) :=
  wa <- va_arg a ;;
  retval <- format_arg f (conv (fst wa)) ;;
  la <- next_label (snd wa) ;;
  label_output (fst la) f retval ;;;
  ret (retval, snd la).

Definition is_int_conv (c : Z) : bool :=
  bool_decide (c ∈ [100; 105; 111; 117; 120; 88]).          (* d i o u x X *)
Definition is_float_conv (c : Z) : bool :=
  bool_decide (c ∈ [97; 65; 101; 69; 102; 70; 103; 71]).    (* a A e E f F g G *)

(** The argument type of an integer conversion, by the length modifier before
    it: [h] and none are an int, [l], [ll], [q] and [j] 64-bit signed, [z] and
    [t] a size_t. *)
Definition int_conv_arg (f : Formatter) : D (Z -> Z) :=
  p <- on_mem (loadc (fmt_cur f - 1)) ;;
  if p =? 104 then ret s32 else
  if p =? 108 then
    (if 2 <=? fmt_cur f - fmt_start f
     then (q <- on_mem (loadc (fmt_cur f - 2)) ;; if q =? 108 then ret s64 else ret s64)
     else ret s64) else
  if p =? 113 then ret s64 else
  if p =? 106 then ret s64 else
  if (p =? 122) || (p =? 116) then ret u64 else
  ret s32.

(** The directive loop, from a cursor on the percent sign or on a character
    that is no conversion specifier.  The result is the formatter, the
    arguments left and [retval]. *)
Fixpoint directive (fuel : nat) (f : Formatter) (a : va) : D (Formatter * va * Z) :=
  match fuel with
  | O => fail OutOfFuel
  | S n =>
      here <- on_mem (loadc (fmt_cur f)) ;;
      if here =? 0 then ret (f, a, 0) else
      let f := set_cur (fmt_cur f + 1) f in
      c <- on_mem (loadc (fmt_cur f)) ;;
      if is_int_conv c then
        conv <- int_conv_arg f ;;
        r <- format_labelled conv f a ;; ret (f, snd r, fst r)
      else if is_float_conv c then
        on_mem (loadc (fmt_cur f - 1)) ;;;
        r <- format_labelled (fun w => w) f a ;; ret (f, snd r, fst r)
      else if c =? 99 then                                  (* c *)
        r <- format_labelled s32 f a ;; ret (f, snd r, fst r)
      else if c =? 115 then                                 (* s *)
        wa <- va_arg a ;;
        retval <- format_arg f (fst wa) ;;
        copy_labels (shadow_for (str_cur f)) (shadow_for (fst wa)) (num_written_bytes f retval) ;;;
        ret (f, skip_label (snd wa), retval)
      else if c =? 112 then                                 (* p *)
        r <- format_labelled (fun w => w) f a ;; ret (f, snd r, fst r)
      else if c =? 110 then                                 (* n *)
        wa <- va_arg a ;;
        on_mem (store32 (fst wa) (str_off f)) ;;;
        dfsan_set_label 0 (fst wa) sizeof_ptr ;;;
        ret (f, skip_label (snd wa), 0)
      else if c =? chr_pct then
        retval <- format f ;;
        label_output 0 f retval ;;;
        ret (f, a, retval)
      else if c =? 42 then                                  (* a star *)
        wa <- va_arg a ;;
        directive n (set_width (s32 (fst wa)) f) (skip_label (snd wa))
      else directive n f a
  end.

(** One round of [while ( *formatter.fmt_cur )]. *)
Definition format_chunk (f : Formatter) (a : va) : D outcome :=
  fun s => (
  c <- on_mem (loadc (fmt_cur f)) ;;
  if c =? 0 then set_ret_label 0 ;;; ret (Returned (s32 (str_off f))) else
  let f := mkFormatter (f_str f) (str_off f) (f_size f) (fmt_cur f) (fmt_cur f) (-1) in
  r <- (if negb (c =? chr_pct) then
          cur <- skip_ordinary (S (size (app s))) (fmt_cur f) ;;
          let f := set_cur cur f in
          retval <- format f ;;
          label_output 0 f retval ;;;
          ret (f, a, retval)
        else directive (S (size (app s))) f a) ;;
  let '(f, a, retval) := r in
  if retval <? 0 then ret (Returned retval) else
  ret (Goes (mkFormatter (f_str f) (str_off f + retval) (f_size f) (fmt_start f)
               (fmt_cur f + 1) (width f)) a)) s.

Fixpoint format_loop (fuel : nat) (f : Formatter) (a : va) : D Z :=
  match fuel with
  | O => fail OutOfFuel
  | S n => o <- format_chunk f a ;;
           match o with Returned r => ret r | Goes f a => format_loop n f a end
  end.

Definition format_buffer (str size fmt : Z) (a : va) : D Z :=
  fun s => format_loop (S (stdpp.base.size (app s))) (new_Formatter str fmt size) a s.

Definition __dfsw_sprintf (str format str_label format_label : Z) (labels ap : list Z) : D Z :=
  format_buffer str (2 ^ 64 - 1) format (mkVa ap labels).

Definition __dfsw_snprintf (str size format str_label size_label format_label : Z)
  (labels ap : list Z) : D Z :=
  format_buffer str size format (mkVa ap labels).

End Format.

(** ** Proofs *)

(** What the wrapper relies on of the allocator: a block that was not mapped
    before, and a [free] that only touches the block. *)
Definition allocates {T OS} `{!Env T OS} (n : Z) (m : mem) (o : OS) (p : Z) (m1 : mem) (o1 : OS) : Prop :=
  sys sys_malloc [n] m o = (p, m1, o1) /\ p <> 0 /\ mapped m1 p n /\ mem_ok m1 /\
  (forall a, is_Some (m !! a) -> ~ p <= a < p + n /\ m1 !! a = m !! a).
Definition frees {T OS} `{!Env T OS} (n p : Z) : Prop :=
  forall m (o : OS), exists r m' o', sys sys_free [p] m o = (r, m', o') /\
    forall a, ~ p <= a < p + n -> m' !! a = m !! a.

Lemma store_bytes_spec : forall l m p,
  Forall (fun b => 0 <= b < 256) l -> mapped m p (Z.of_nat (length l)) ->
  exists m', store_bytes p l m = Ok (tt, m') /\ bytes_at m' p l /\
    (forall a, ~ p <= a < p + Z.of_nat (length l) -> m' !! a = m !! a).
Proof.
  induction l as [|b l IH]; intros m p Hf Hm.
  { exists m. split; [done|]. split; [by intros i c|done]. }
  apply Forall_cons_1 in Hf as [Hb Hf]. cbn [store_bytes length] in *. unfold bind.
  rewrite store_Some by (apply Hm; lia). unfold u8. rewrite wrap_small by lia.
  destruct (IH (<[p := b]> m) (p + 1) Hf) as (m' & E & B & P).
  { intros a Ha. rewrite lookup_insert_ne by lia. apply Hm. lia. }
  exists m'. split; [done|]. split.
  - apply bytes_at_cons. split; [|done]. rewrite P, lookup_insert_eq by lia. done.
  - intros a Ha. rewrite P by lia. by rewrite lookup_insert_ne by lia.
Qed.

Section FormatProofs.
Context {T OS : Type} `{LabelStore T} `{!Env T OS}.
Implicit Types s : st T OS.

Lemma snprintf_complete s dst n fmt x args txt :
  cstr (app s) fmt x -> printf_text x args (app s) = Some txt ->
  Forall (fun b => 0 <= b < 256) txt -> Z.of_nat (length txt) < 2 ^ 31 ->
  Z.of_nat (length txt) < n -> mapped (app s) dst (Z.of_nat (length txt) + 1) ->
  exists m, snprintf dst n fmt args s = Ok (Z.of_nat (length txt), set_app m s) /\
    bytes_at m dst (txt ++ [0]) /\
    (forall a, ~ dst <= a < dst + Z.of_nat (length txt) + 1 -> m !! a = app s !! a).
Proof.
  intros Hc Ht Hb Hl Hn Hm. unfold snprintf, bind. rewrite (libc_strlen_st s fmt x Hc).
  assert (Hx : bytes_at (app s) fmt x) by (destruct Hc as [Hc _]; apply bytes_at_app in Hc; apply Hc).
  unfold on_mem at 1. rewrite Nat2Z.id, (load_bytes_spec _ x fmt Hx).
  unfold gets. replace (set_app (app s) s) with s by by destruct s. rewrite Ht.
  case (Z.leb_spec (2 ^ 31) (Z.of_nat (length txt))); [lia|intros _].
  case (Z.eqb_spec n 0); [lia|intros _]. rewrite take_ge by lia.
  destruct (store_bytes_spec (txt ++ [0]) (app s) dst) as (m & E & B & P).
  { apply Forall_app. split; [done|]. constructor; [lia|constructor]. }
  { rewrite length_app. cbn [length]. intros a Ha. apply Hm. lia. }
  exists m. unfold on_mem. rewrite E. split; [done|]. split; [done|].
  intros a Ha. apply P. rewrite length_app. cbn [length]. lia.
Qed.

(** A chunk [x] of the format, copied to fresh memory. *)
Lemma build_format_string_spec f x s p m1 o1 :
  fmt_cur f - fmt_start f + 1 = Z.of_nat (length x) ->
  bytes_at (app s) (fmt_start f) x -> Forall (fun b => 0 < b < 256) x ->
  allocates (Z.of_nat (length x) + 1) (app s) (os s) p m1 o1 ->
  exists m2, build_format_string f s = Ok (p, set_os o1 (set_app m2 s)) /\ cstr m2 p x /\
    (forall a, is_Some (app s !! a) -> m2 !! a = app s !! a).
Proof.
  intros Hlen Hx Hf (Hsys & Hp & Hm1 & Hok1 & Hkeep). unfold build_format_string, bind.
  rewrite Hlen, (call_eq _ _ s _ _ _ Hsys).
  case (Z.eqb_spec p 0); [done|intros _].
  assert (Hx1 : forall i b, x !! i = Some b -> m1 !! (fmt_start f + Z.of_nat i) = Some b).
  { intros i b Hi. apply Hx in Hi. destruct (Hkeep (fmt_start f + Z.of_nat i)) as [_ E]; [by eauto|].
    by rewrite E. }
  destruct (internal_memcpy_spec m1 p (fmt_start f) (Z.of_nat (length x))) as (m2 & E2 & C2).
  - lia.
  - done.
  - apply bytes_at_mapped. done.
  - intros b Hb. apply Hm1. lia.
  - destruct x as [|c x]; [cbn [length] in *; lia|].
    assert (Hd : forall i : nat, (i < length (c :: x))%nat ->
      ~ p <= fmt_start f + Z.of_nat i < p + (Z.of_nat (length (c :: x)) + 1)).
    { intros i Hi. destruct (lookup_lt_is_Some_2 (c :: x) i Hi) as [b Hb].
      apply Hx in Hb. apply Hkeep. eauto. }
    pose proof (Hd 0%nat ltac:(cbn; lia)). pose proof (Hd (length x) ltac:(cbn; lia)).
    destruct (Z_le_gt_dec p (fmt_start f)) as [|Hgt]; [by left|].
    destruct (Z_le_gt_dec (fmt_start f + Z.of_nat (length (c :: x))) p) as [|Hgt2]; [by right|].
    exfalso. apply (Hd (Z.to_nat (p - fmt_start f))); lia.
  - unfold on_mem at 1. cbn [app set_app set_os]. rewrite E2. unfold on_mem.
    cbn [app set_app set_os]. rewrite store_Some.
    2: { rewrite C2. rewrite bool_decide_eq_false_2 by lia. apply Hm1. lia. }
    exists (<[p + Z.of_nat (length x) := 0]> m2). split; [reflexivity|]. split.
    + split; [|done]. apply bytes_at_app. split.
      * intros i b Hi. rewrite lookup_insert_ne by (apply lookup_lt_Some in Hi; lia).
        rewrite C2. pose proof (lookup_lt_Some _ _ _ Hi). rewrite bool_decide_eq_true_2 by lia.
        rewrite <-(Hx1 _ _ Hi). f_equal. lia.
      * apply bytes_at_cons. split; [|by intros i c]. by rewrite lookup_insert_eq.
    + intros a Ha. destruct (Hkeep a Ha) as [Hout E]. rewrite lookup_insert_ne by lia.
      rewrite C2. rewrite bool_decide_eq_false_2 by lia. done.
Qed.

Lemma format_complete f x txt s p m1 o1 :
  fmt_cur f - fmt_start f + 1 = Z.of_nat (length x) ->
  bytes_at (app s) (fmt_start f) x -> Forall (fun b => 0 < b < 256) x ->
  allocates (Z.of_nat (length x) + 1) (app s) (os s) p m1 o1 ->
  frees (Z.of_nat (length x) + 1) p ->
  (forall m, printf_text x [0] m = Some txt) ->
  Forall (fun b => 0 <= b < 256) txt -> Z.of_nat (length txt) < 2 ^ 31 ->
  Z.of_nat (length txt) < num_avail f ->
  mapped (app s) (str_cur f) (Z.of_nat (length txt) + 1) ->
  exists m o, format f s = Ok (Z.of_nat (length txt), set_os o (set_app m s)) /\
    bytes_at m (str_cur f) (txt ++ [0]) /\
    (forall a, is_Some (app s !! a) ->
       ~ str_cur f <= a < str_cur f + Z.of_nat (length txt) + 1 -> m !! a = app s !! a).
Proof.
  intros Hlen Hx Hf Hal Hfree Hpt Hb Hl Hav Hd.
  destruct (build_format_string_spec f x s p m1 o1) as (m2 & E2 & C2 & K2); [done..|].
  unfold format, bind. rewrite E2. set (s2 := set_os o1 (set_app m2 s)).
  destruct (snprintf_complete s2 (str_cur f) (num_avail f) p x [0] txt) as (m3 & E3 & B3 & K3);
    [done|apply Hpt|done..| |].
  { intros a Ha. rewrite K2 by by apply Hd. by apply Hd. }
  rewrite E3. destruct (Hfree m3 o1) as (r & m4 & o4 & E4 & K4).
  rewrite (call_eq _ _ (set_app m3 s2) _ _ _ E4). exists m4, o4. split; [done|].
  assert (Hout : forall a, is_Some (app s !! a) -> ~ p <= a < p + (Z.of_nat (length x) + 1)).
  { intros a Ha. by apply Hal. }
  split.
  - intros i b Hi. rewrite K4; [by apply B3|]. apply Hout, Hd.
    apply lookup_lt_Some in Hi. rewrite length_app in Hi. cbn [length] in Hi. lia.
  - intros a Ha Hn. rewrite K4 by by apply Hout. rewrite K3 by done. by apply K2.
Qed.

Lemma skip_ordinary_spec x fmt s : forall k fuel,
  cstr (app s) fmt x -> Forall (fun b => b <> chr_pct) x ->
  (k < length x)%nat -> (length x - k <= fuel)%nat ->
  skip_ordinary fuel (fmt + Z.of_nat k) s = Ok (fmt + Z.of_nat (length x) - 1, s).
Proof.
  intros k fuel Hc Hp. revert k. induction fuel as [|fuel IH]; intros k Hk Hf; [lia|].
  cbn [skip_ordinary]. unfold bind, on_mem.
  destruct (cstr_char_at _ _ x (S k) Hc) as [E B]; [lia|].
  replace (fmt + Z.of_nat k + 1) with (fmt + Z.of_nat (S k)) by lia.
  rewrite (loadc_Some _ _ _ E). replace (set_app (app s) s) with s by by destruct s.
  destruct (decide (S k = length x)) as [He|He].
  - replace (fmt + Z.of_nat (length x) - 1) with (fmt + Z.of_nat k) by lia.
    by rewrite He, char_at_end.
  - pose proof (cstr_char_nonzero _ _ _ (S k) Hc ltac:(lia)) as Hnz.
    destruct (char_at_lt x (S k) ltac:(lia)) as (b & Hb & Eb).
    rewrite Forall_lookup in Hp. pose proof (Hp _ _ Hb) as Hne. rewrite <-Eb in Hne.
    destruct (Z.eqb_spec (s8 (char_at x (Z.of_nat (S k)))) 0) as [E0|_];
      [rewrite s8_zero in E0 by lia; lia|].
    destruct (Z.eqb_spec (s8 (char_at x (Z.of_nat (S k)))) chr_pct) as [E0|_].
    { change chr_pct with (s8 chr_pct) in E0. apply s8_inj in E0; [done|lia|by vm_compute]. }
    cbn [negb andb]. apply IH; lia.
Qed.

Lemma plain_char c : 0 < c < 256 -> c <> chr_pct -> (s8 c =? 0) = false /\ (s8 c =? chr_pct) = false.
Proof.
  intros Hc Hp. split; apply Z.eqb_neq; intros E.
  - rewrite s8_zero in E by lia. lia.
  - change chr_pct with (s8 chr_pct) in E. apply s8_inj in E; [done|lia|by vm_compute].
Qed.

(** The buffer after the text [x] was formatted into it: its bytes, the memory
    around it and its labels. *)
Definition text_written s (m : mem) (h : gmap Z Z) (str : Z) (x : list Z) : Prop :=
  bytes_at m str (x ++ [0]) /\
  (forall a, is_Some (app s !! a) -> in_range str (Z.of_nat (length x) + 1) a = false ->
     m !! a = app s !! a) /\
  relabelled s h str (Z.of_nat (length x)) (fun _ => 0).

(** The first round over a format without directives consumes all of it. *)
Lemma format_chunk_plain str size fmt x a s p m1 o1 :
  cstr (app s) fmt x -> x <> [] -> Forall (fun b => b <> chr_pct) x ->
  (forall m, printf_text x [0] m = Some x) ->
  allocates (Z.of_nat (length x) + 1) (app s) (os s) p m1 o1 ->
  frees (Z.of_nat (length x) + 1) p ->
  Z.of_nat (length x) < 2 ^ 31 -> Z.of_nat (length x) < size ->
  mapped (app s) str (Z.of_nat (length x) + 1) -> app_range str (Z.of_nat (length x) + 1) ->
  exists m o h,
    format_chunk (new_Formatter str fmt size) a s =
      Ok (Goes (mkFormatter str (Z.of_nat (length x)) size fmt (fmt + Z.of_nat (length x)) (-1)) a,
          set_shadow h (set_os o (set_app m s))) /\
    text_written s m h str x.
Proof.
  intros Hc Hne Hp Hpt Hal Hfr Hl31 Hsz Hm Hr.
  pose proof (cstr_size _ _ _ Hc) as Hfuel.
  assert (Hx : bytes_at (app s) fmt x) by (destruct Hc as [Hc' _]; apply bytes_at_app in Hc'; apply Hc').
  assert (Hhd : exists c, app s !! fmt = Some c /\ 0 < c < 256 /\ c <> chr_pct).
  { destruct x as [|c x']; [done|]. exists c. apply bytes_at_cons in Hx as [H0 _].
    destruct Hc as [_ Hf]. apply Forall_cons_1 in Hf as [Hf _]. by apply Forall_cons_1 in Hp as [Hp _]. }
  destruct Hhd as (c & H0 & Hc0 & Hcp). destruct (plain_char c Hc0 Hcp) as [Ez Ep].
  assert (Hx0 : (0 < length x)%nat) by (destruct x; [done|cbn; lia]).
  set (f1 := mkFormatter str 0 size fmt fmt (-1)).
  set (f2 := set_cur (fmt + Z.of_nat (length x) - 1) f1).
  assert (Estr : str_cur f2 = str) by (unfold str_cur; cbn; lia).
  assert (Hav : num_avail f2 = size).
  { unfold num_avail. cbn [str_off f_size f2 f1 set_cur]. case_test; lia. }
  destruct (format_complete f2 x x s p m1 o1) as (m & o & E & B & K); rewrite ?Estr, ?Hav; try done.
  { cbn [fmt_cur fmt_start f2 f1 set_cur]. lia. } { apply Hc. }
  { eapply Forall_impl; [|apply Hc]. intros b Hb. cbn beta in *. lia. }
  rewrite Estr in B, K.
  destruct (dfsan_set_label_spec 0 str (Z.of_nat (length x)) (set_os o (set_app m s)))
    as (h & Eh & Ph); [unfold app_range in *; lia|].
  assert (Hnw : num_written_bytes f2 (Z.of_nat (length x)) = Z.of_nat (length x)).
  { unfold num_written_bytes. rewrite Hav. repeat case_test; lia. }
  exists m, o, h. split.
  - unfold format_chunk, bind. unfold on_mem at 1. cbn [fmt_cur new_Formatter].
    rewrite (loadc_Some _ _ _ H0). replace (set_app (app s) s) with s by by destruct s.
    rewrite Ez, Ep. cbn [negb new_Formatter f_str str_off f_size fmt_cur]. fold f1.
    pose proof (skip_ordinary_spec x fmt s 0 (S (stdpp.base.size (app s))) Hc Hp
      Hx0 ltac:(lia)) as Es.
    change (fmt + Z.of_nat 0) with (fmt + 0) in Es. rewrite Z.add_0_r in Es. rewrite Es. fold f2.
    rewrite E. unfold label_output. rewrite Hnw, Estr, Eh. unfold ret.
    case (Z.ltb_spec (Z.of_nat (length x)) 0); [lia|intros _].
    cbn [f_str str_off f_size fmt_start fmt_cur width f2 f1 set_cur]. rewrite Z.add_0_l.
    by replace (fmt + Z.of_nat (length x) - 1 + 1) with (fmt + Z.of_nat (length x)) by lia.
  - split; [done|]. split; [|exact Ph]. intros b Hb Hin. unfold in_range in Hin.
    apply bool_decide_eq_false in Hin. apply K; [done|lia].
Qed.

(** On a format without directives, [__dfsw_snprintf] makes one call of
    libc's function: for every buffer that has room, the text and its
    terminator are in the buffer afterwards, exactly the bytes of the text have
    lost their labels, the result is the length of the text, and the rest of
    the application's memory is as it was. *)
Theorem dfsw_snprintf_plain str size fmt x l1 l2 l3 labels ap s p m1 o1 :
  cstr (app s) fmt x -> x <> [] -> Forall (fun b => b <> chr_pct) x ->
  (forall m, printf_text x [0] m = Some x) ->
  allocates (Z.of_nat (length x) + 1) (app s) (os s) p m1 o1 ->
  frees (Z.of_nat (length x) + 1) p ->
  Z.of_nat (length x) < 2 ^ 31 -> Z.of_nat (length x) < size ->
  mapped (app s) str (Z.of_nat (length x) + 1) -> app_range str (Z.of_nat (length x) + 1) ->
  (fmt + Z.of_nat (length x) + 1 <= str \/ str + Z.of_nat (length x) + 1 <= fmt) ->
  exists m o h,
    __dfsw_snprintf str size fmt l1 l2 l3 labels ap s =
      Ok (Z.of_nat (length x), set_retl 0 (set_shadow h (set_os o (set_app m s)))) /\
    text_written s m h str x.
Proof.
  intros Hc Hne Hp Hpt Hal Hfr Hl31 Hsz Hm Hr Hdis.
  destruct (format_chunk_plain str size fmt x (mkVa ap labels) s p m1 o1)
    as (m & o & h & E & P); [done..|]. exists m, o, h. split; [|done].
  destruct P as (_ & K & _). pose proof (cstr_size _ _ _ Hc) as Hfuel.
  unfold __dfsw_snprintf, format_buffer. cbn [format_loop]. rewrite (bind_Ok _ _ _ _ _ E).
  destruct (stdpp.base.size (app s)) as [|k]; [lia|]. cbn [format_loop].
  unfold format_chunk, bind, on_mem. cbn [fmt_cur app set_shadow set_os set_app].
  rewrite (loadc_Some m _ 0).
  - change (s8 0 =? 0) with true. cbn [str_off]. by rewrite s32_small by lia.
  - pose proof (cstr_end _ _ _ Hc) as Hend. rewrite K; [done|by eauto|].
    unfold in_range. apply bool_decide_eq_false. lia.
Qed.

(** [num_written_bytes] is right for a chunk that fits: the bytes of its
    text, and only they, get the label.  For a chunk that was cut off it
    answers the excess instead of the number of bytes stored; with a text more
    than twice as long as the room left, the label is also given to the first
    byte behind the caller's buffer. *)
Theorem label_output_bytes label f retval s :
  0 <= str_off f < f_size f -> 0 <= retval -> app_range (str_cur f) retval ->
  exists h, label_output label f retval s = Ok (tt, set_shadow h s) /\
    (retval < num_avail f -> relabelled s h (str_cur f) retval (fun _ => label)) /\
    (num_avail f <= retval ->
       relabelled s h (str_cur f) (retval - num_avail f) (fun _ => label)) /\
    (2 * num_avail f < retval ->
       lbl (set_shadow h s) (f_str f + f_size f) = label).
Proof.
  intros Ho Hret Hr. set (n := num_written_bytes f retval).
  assert (Hav : num_avail f = f_size f - str_off f) by (unfold num_avail; case_test; lia).
  assert (Hn : n = if retval <? num_avail f then retval else retval - num_avail f).
  { unfold n, num_written_bytes. repeat case_test; lia. }
  destruct (dfsan_set_label_spec label (str_cur f) n s) as (h & E & P).
  { rewrite Hn. unfold app_range in *. case_test; lia. }
  exists h. split; [exact E|]. rewrite Hn in P. split; [|split]; intros Hlt.
  { by rewrite (proj2 (Z.ltb_lt _ _) Hlt) in P. }
  { by rewrite (proj2 (Z.ltb_ge _ _) Hlt) in P. }
  rewrite (proj2 (Z.ltb_ge retval (num_avail f))) in P by lia.
  unfold str_cur, app_range in *. unfold lbl, label_at. cbn [shadow set_shadow].
  rewrite P; [|unfold is_app; lia]. unfold in_range. by rewrite bool_decide_eq_true_2 by lia.
Qed.
End FormatProofs.

(** ** Witnesses *)

Module FormatEx.
Definition fmt0 : Z := 0x700000011000.
Definition buf0 : Z := 0x700000012000.
(** "A B" as the format and a labelled buffer of six bytes. *)
Definition ex : st (list (gset Z)) Z :=
  mkSt (list_to_map (zip [fmt0; fmt0 + 1; fmt0 + 2; fmt0 + 3] [65; 32; 66; 0]) ∪ SimpleEnv.block buf0 6)
       (list_to_map (zip [shadow_for buf0; shadow_for (buf0 + 4)] [1; 2]))
       [∅; {[ 4 ]}; {[ 9 ]}] 0x700000020000 0 SetDefaults [] (0, 0).
Abbreviation m1 := (app ex ∪ SimpleEnv.block 0x700000020000 4).

(** The keys of the memory lie below the heap. *)
Lemma ex_below_heap a : is_Some (app ex !! a) -> ~ 0x700000020000 <= a < 0x700000020000 + 4.
Proof.
  intros Ha. assert (Hall : forallb (fun k => k <? 0x700000020000) (elements (dom (app ex))) = true)
    by by vm_compute.
  apply elem_of_dom, elem_of_elements in Ha. rewrite forallb_forall in Hall.
  apply list_elem_of_In, Hall in Ha. breflect. lia.
Qed.

Lemma ex_alloc : allocates (T := list (gset Z)) 4 (app ex) 0x700000020000 0x700000020000 m1 0x700000020004.
Proof.
  split; [reflexivity|]. split; [done|]. split; [by apply mappedb_sound; vm_compute|].
  split; [by apply mem_okb_sound; vm_compute|].
  intros a Ha. split; [by apply ex_below_heap|]. destruct Ha as [b Hb].
  rewrite Hb. by apply lookup_union_Some_l.
Qed.
Lemma ex_free : frees (T := list (gset Z)) (OS := Z) 4 0x700000020000.
Proof. intros m o. by exists 0, m, o. Qed.
End FormatEx.

Lemma dfsw_snprintf_plain_witness :
  exists m o h, __dfsw_snprintf FormatEx.buf0 6 FormatEx.fmt0 0 0 0 [] [] FormatEx.ex =
      Ok (3, set_retl 0 (set_shadow h (set_os o (set_app m FormatEx.ex)))) /\
    text_written FormatEx.ex m h FormatEx.buf0 [65; 32; 66].
Proof.
  apply (dfsw_snprintf_plain FormatEx.buf0 6 FormatEx.fmt0 [65; 32; 66] 0 0 0 [] [] FormatEx.ex
    0x700000020000 FormatEx.m1 0x700000020004).
  - by apply cstrb_sound; vm_compute.
  - done.
  - by repeat constructor.
  - reflexivity.
  - apply FormatEx.ex_alloc.
  - apply FormatEx.ex_free.
  - cbn; lia.
  - cbn; lia.
  - by apply mappedb_sound; vm_compute.
  - by vm_compute.
  - left. by vm_compute.
Defined.

Lemma label_output_bytes_witness :
  exists h, label_output 2 (mkFormatter FormatEx.buf0 0 2 0 0 (-1)) 6 FormatEx.ex =
      Ok (tt, set_shadow h FormatEx.ex) /\
    lbl (set_shadow h FormatEx.ex) (FormatEx.buf0 + 2) = 2.
Proof.
  destruct (label_output_bytes 2 (mkFormatter FormatEx.buf0 0 2 0 0 (-1)) 6 FormatEx.ex)
    as (h & E & _ & _ & P); [cbn; lia|lia|by vm_compute|].
  exists h. split; [exact E|]. apply P. cbn. lia.
Defined.

(** A directive keeps the label of its argument: ["%d"] through an environment
    whose [printf] answers a fixed text. *)
Definition fixed_env (txt : list Z) : Env (list (gset Z)) Z := {|
  sys := SimpleEnv.simple_sys;
  strto _ nptr _ _ := (0, nptr);
  app_call _ _ s := Ok (0, s);
  weak_hook _ := None;
  mapped_regions _ _ := None;
  loaded_objects _ := [];
  caller_pc := 0;
  pthread_create_cb_addr := 0;
  printf_text _ _ _ := Some txt;
|}.
Definition pct_d : st (list (gset Z)) Z :=
  set_app (list_to_map (zip [FormatEx.fmt0; FormatEx.fmt0 + 1; FormatEx.fmt0 + 2] [37; 100; 0])
           ∪ SimpleEnv.block FormatEx.buf0 6) FormatEx.ex.
Example dfsw_snprintf_int_directive :
  match __dfsw_snprintf (Env0 := fixed_env [52; 50]) FormatEx.buf0 6 FormatEx.fmt0 0 0 0 [2] [42] pct_d with
  | Ok (r, s) => (r, app s !! FormatEx.buf0, lbl s FormatEx.buf0, lbl s (FormatEx.buf0 + 1),
                  lbl s (FormatEx.buf0 + 2), lbl s (FormatEx.buf0 + 4))
  | Fault _ => (-1, None, 0, 0, 0, 0)
  end = (2, Some 52, 2, 2, 0, 2).
Proof. by vm_compute. Qed.
