(* ===== verification/IoFunc.v ===== *)
(** * Taint sources

    [llvm_mode/external_lib/io_func.c] and [zlib_func.c]: the wrappers that
    give the bytes of the fuzzed input their labels.  They use three small
    stores of the Rust runtime: the set of tracked descriptors
    ([runtime/src/ffds.rs]), the table of length labels
    ([runtime/src/len_label.rs]) and a static offset for utmp records. *)

From S2P Require Import Prelude CMem Dfsan Env.

Local Open Scope Z_scope.

(** ** State *)

Record io (T OS : Type) := mkIo {
  rt : st T OS;
  ffds : gset Z;              (* FFDS *)
  len_info : list (Z * Z);    (* LEN_INFO *)
  utmp_offset : Z;            (* __rt_utmp_offset *)
}.
Arguments mkIo {T OS}. Arguments rt {T OS}. Arguments ffds {T OS}.
Arguments len_info {T OS}. Arguments utmp_offset {T OS}.

(** The initial contents: standard input is tracked, entry 0 of the length
    table is taken. *)
Definition ffds0 : gset Z := {[ 0 ]}.
Definition len_info0 : list (Z * Z) := [(0, 1)].

Definition NORMAL_LABEL_WITDH : Z := 22.
Definition MAX_NORMAL_LABEL : Z := Z.shiftl 1 22 - 1.
Definition MAX_LEN_LABEL : Z := Z.shiftl 1 10 - 1.

Definition is_len_label (lb : Z) : bool := MAX_NORMAL_LABEL <? lb.
Definition get_len_label (lb : Z) : Z := Z.land (Z.shiftr lb NORMAL_LABEL_WITDH) MAX_LEN_LABEL.
Definition get_normal_label (lb : Z) : Z := Z.land lb MAX_NORMAL_LABEL.
Definition get_fat_label (normal_lb len_lb : Z) : Z :=
  Z.lor (u32 (Z.shiftl len_lb NORMAL_LABEL_WITDH)) normal_lb.

Definition EOF : Z := -1.
Definition SEEK_CUR : Z := 1.
(** "cur_input" *)
Definition FUZZING_INPUT_FILE : list Z := [99; 117; 114; 95; 105; 110; 112; 117; 116].

(** [strstr] on the contents of two strings, as a test. *)
Fixpoint prefixb (x y : list Z) : bool :=
  match x, y with
  | [], _ => true
  | a :: x, b :: y => (a =? b) && prefixb x y
  | _, [] => false
  end.
Fixpoint containsb (needle l : list Z) : bool :=
  prefixb needle l || match l with [] => false | _ :: l => containsb needle l end.

Section Io.
Context {T OS : Type} `{LabelStore T} `{!Env T OS}.
Abbreviation I := (M (io T OS)).

Definition set_rt (r : st T OS) (s : io T OS) : io T OS :=
  mkIo r (ffds s) (len_info s) (utmp_offset s).
(** A routine of the runtime. *)
Definition lift {A} (f : M (st T OS) A) : I A :=
  fun s => match f (rt s) with
           | Ok (a, r) => Ok (a, set_rt r s)
           | Fault e => Fault e
           end.
Definition set_ffds (X : gset Z) (s : io T OS) : io T OS :=
  mkIo (rt s) X (len_info s) (utmp_offset s).

(** ** ffds.rs *)

Definition __angora_io_add_fd (fd : Z) : I unit :=
  modify (fun s => set_ffds ({[ u32 fd ]} ∪ ffds s) s).
Definition __angora_io_remove_fd (fd : Z) : I unit :=
  modify (fun s => set_ffds (ffds s ∖ {[ u32 fd ]}) s).
Definition __angora_io_find_fd (fd : Z) : I bool :=
  gets (fun s => bool_decide (u32 fd ∈ ffds s)).
Definition fileno (pfile : Z) : I Z := lift (call sys_fileno [pfile]).
Definition __angora_io_add_pfile (pfile : Z) : I unit :=
  fd <- fileno pfile ;; __angora_io_add_fd fd.
Definition __angora_io_remove_pfile (pfile : Z) : I unit :=
  fd <- fileno pfile ;; __angora_io_remove_fd fd.
Definition __angora_io_find_pfile (pfile : Z) : I bool :=
  fd <- fileno pfile ;; __angora_io_find_fd fd.

(** ** len_label.rs: at most 1023 entries, then label 0. *)

Definition __angora_get_len_label (offset size : Z) : I Z :=
  info <- gets len_info ;;
  if Z.of_nat (length info) <? MAX_LEN_LABEL then
    modify (fun s => mkIo (rt s) (ffds s) (info ++ [(u32 offset, u32 size)]) (utmp_offset s)) ;;;
    ret (get_fat_label 0 (Z.of_nat (length info)))
  else ret (get_fat_label 0 0).

(** ** io_func.c *)

Definition granularity : Z := 1.

Definition assign_body (buf offset size i : Z) : I unit :=
  L <- lift (dfsan_create_label (offset + i)) ;;
  if size <? i + granularity
  then lift (dfsan_set_label L (buf + i) (size - i))
  else lift (dfsan_set_label L (buf + i) granularity).
(** [for (i = 0; i < size; i += granularity)], the granularity being one. *)
Definition assign_taint_labels (buf offset size : Z) : I unit :=
  for_count (Z.to_nat size) (assign_body buf offset size) 0.

(** [int len] and [int res] cut [size_t] products to 32 bits; [len] is turned
    into a [size_t] again when it is passed on. *)
Definition exf_len (ret count size : Z) : Z :=
  let len := s32 (u64 (ret * size)) in
  if ret <? count then
    let res := s32 (u64 ((count - ret) * size)) in
    if res <? 1024 then s32 (len + res) else s32 (len + 1024)
  else len.
Definition assign_taint_labels_exf (buf offset ret count size : Z) : I unit :=
  let offset := if offset <? 0 then 0 else offset in
  assign_taint_labels buf offset (u64 (exf_len ret count size)).

Definition IS_FUZZING_FILE (filename : Z) : I bool :=
  n <- lift (on_mem (libc_strlen filename)) ;;
  name <- lift (on_mem (load_bytes (Z.to_nat n) filename)) ;;
  ret (containsb FUZZING_INPUT_FILE name).

Definition set_ret (l : Z) : I unit := lift (set_ret_label l).

(** [mode] is the variable argument, read only when the flags need it. *)
Definition __OPEN_NEEDS_MODE (oflags : Z) : bool :=
  negb (Z.land oflags 64 =? 0) || (Z.land oflags 0x410000 =? 0x410000).
Definition __dfsw_open (path oflags path_label flag_label va_mode : Z) : I Z :=
  let mode := if __OPEN_NEEDS_MODE oflags then va_mode else 0 in
  fd <- lift (call sys_open [path; oflags; mode]) ;;
  (if 0 <=? fd then
     b <- IS_FUZZING_FILE path ;;
     when b (__angora_io_add_fd fd)
   else ret tt) ;;;
  set_ret 0 ;;; ret fd.

Definition __dfsw_fopen (filename mode fn_label mode_label : Z) : I Z :=
  fd <- lift (call sys_fopen [filename; mode]) ;;
  (if negb (fd =? 0) then
     b <- IS_FUZZING_FILE filename ;;
     when b (__angora_io_add_pfile fd)
   else ret tt) ;;;
  set_ret 0 ;;; ret fd.
(** The same body: [fopen64] is served by [fopen]. *)
Definition __dfsw_fopen64 (filename mode fn_label mode_label : Z) : I Z :=
  fd <- lift (call sys_fopen [filename; mode]) ;;
  (if negb (fd =? 0) then
     b <- IS_FUZZING_FILE filename ;;
     when b (__angora_io_add_pfile fd)
   else ret tt) ;;;
  set_ret 0 ;;; ret fd.

Definition __dfsw_close (fd fd_label : Z) : I Z :=
  r <- lift (call sys_close [fd]) ;;
  (if r =? 0 then
     b <- __angora_io_find_fd fd ;;
     when b (__angora_io_remove_fd fd)
   else ret tt) ;;;
  set_ret 0 ;;; ret r.

(** The descriptor is looked up after the stream was closed. *)
Definition __dfsw_fclose (fd fd_label : Z) : I Z :=
  r <- lift (call sys_fclose [fd]) ;;
  (if r =? 0 then
     b <- __angora_io_find_pfile fd ;;
     when b (__angora_io_remove_pfile fd)
   else ret tt) ;;;
  set_ret 0 ;;; ret r.

(** [ret > 0] compares a pointer: it holds for every non-null one. *)
Definition __dfsw_mmap (start length prot flags fd offset
  start_label len_label prot_label flags_label fd_label offset_label : Z) : I Z :=
  r <- lift (call sys_mmap [start; length; prot; flags; fd; offset]) ;;
  (if 0 <? r then
     b <- __angora_io_find_fd fd ;;
     when b (assign_taint_labels r offset length)
   else ret tt) ;;;
  set_ret 0 ;;; ret r.

Definition __dfsw_munmap (addr length addr_label length_label : Z) : I Z :=
  r <- lift (call sys_munmap [addr; length]) ;;
  lift (dfsan_set_label 0 addr length) ;;;
  set_ret 0 ;;; ret r.

(** The common end of the reading functions. *)
Definition taint_read (tracked : bool) (buf offset r count size : Z) : I unit :=
  if tracked then
    when (0 <? r) (assign_taint_labels_exf buf offset r count size) ;;;
    l <- __angora_get_len_label offset size ;;
    set_ret l
  else set_ret 0.

Definition __dfsw_fread (buf size count fd buf_label size_label count_label fd_label : Z) : I Z :=
  offset <- lift (call sys_ftell [fd]) ;;
  r <- lift (call sys_fread [buf; size; count; fd]) ;;
  b <- __angora_io_find_pfile fd ;;
  taint_read b buf offset r count size ;;;
  ret r.
Definition __dfsw_fread_unlocked
  (buf size count fd buf_label size_label count_label fd_label : Z) : I Z :=
  offset <- lift (call sys_ftell [fd]) ;;
  r <- lift (call sys_fread_unlocked [buf; size; count; fd]) ;;
  b <- __angora_io_find_pfile fd ;;
  taint_read b buf offset r count size ;;;
  ret r.
Definition __dfsw_read (fd buf count fd_label buf_label count_label : Z) : I Z :=
  offset <- lift (call sys_lseek [fd; 0; SEEK_CUR]) ;;
  r <- lift (call sys_read [fd; buf; count]) ;;
  b <- __angora_io_find_fd fd ;;
  taint_read b buf offset r count 1 ;;;
  ret r.
Definition __dfsw_pread (fd buf count offset fd_label buf_label count_label offset_label : Z) : I Z :=
  r <- lift (call sys_pread [fd; buf; count; offset]) ;;
  b <- __angora_io_find_fd fd ;;
  taint_read b buf offset r count 1 ;;;
  ret r.

(** One character: its label is the return label. *)
Definition label_char (offset : Z) : I unit :=
  l <- lift (dfsan_create_label offset) ;; set_ret l.

Definition __dfsw_fgetc (fd fd_label : Z) : I Z :=
  offset <- lift (call sys_ftell [fd]) ;;
  c <- lift (call sys_fgetc [fd]) ;;
  set_ret 0 ;;;
  (if negb (c =? EOF) then b <- __angora_io_find_pfile fd ;; when b (label_char offset)
   else ret tt) ;;;
  ret c.
Definition __dfsw_fgetc_unlocked (fd fd_label : Z) : I Z :=
  offset <- lift (call sys_ftell [fd]) ;;
  c <- lift (call sys_fgetc_unlocked [fd]) ;;
  set_ret 0 ;;;
  (if negb (c =? EOF) then b <- __angora_io_find_pfile fd ;; when b (label_char offset)
   else ret tt) ;;;
  ret c.
Definition __dfsw__IO_getc (fd fd_label : Z) : I Z :=
  offset <- lift (call sys_ftell [fd]) ;;
  c <- lift (call sys_getc [fd]) ;;
  set_ret 0 ;;;
  b <- __angora_io_find_pfile fd ;;
  when (b && negb (c =? EOF)) (label_char offset) ;;;
  ret c.
(** [stdin] is the address of libc's standard input stream. *)
Definition __dfsw_getchar (stdin : Z) : I Z :=
  offset <- lift (call sys_ftell [stdin]) ;;
  c <- lift (call sys_getchar []) ;;
  set_ret 0 ;;;
  when (negb (c =? EOF)) (label_char offset) ;;;
  ret c.

Definition __dfsw_fgets (str count fd str_label count_label fd_label : Z) : I Z :=
  offset <- lift (call sys_ftell [fd]) ;;
  r <- lift (call sys_fgets [str; count; fd]) ;;
  (if negb (r =? 0) then
     b <- __angora_io_find_pfile fd ;;
     if (b : bool) then
       n <- lift (on_mem (libc_strlen r)) ;;
       (* int len and int count become size_t *)
       assign_taint_labels_exf str offset (u64 (s32 n)) (u64 count) 1 ;;;
       set_ret str_label
     else set_ret 0
   else set_ret 0) ;;;
  ret r.

(** [sizeof str] is the size of a pointer. *)
Definition __dfsw_gets (stdin str str_label : Z) : I Z :=
  offset <- lift (call sys_ftell [stdin]) ;;
  r <- lift (call sys_fgets [str; sizeof_ptr; stdin]) ;;
  (if negb (r =? 0) then
     n <- lift (on_mem (libc_strlen r)) ;;
     assign_taint_labels str offset (n + 1) ;;;
     set_ret str_label
   else set_ret 0) ;;;
  ret r.

Definition __dfsw_getutxent : I Z :=
  r <- lift (call sys_getutent []) ;;
  (if negb (r =? 0) then
     off <- gets utmp_offset ;;
     assign_taint_labels r off sizeof_utmp ;;;
     modify (fun s => mkIo (rt s) (ffds s) (len_info s) (u64 (utmp_offset s + sizeof_utmp)))
   else ret tt) ;;;
  set_ret 0 ;;; ret r.

Definition __dfsw_getline (lineptr n fd buf_label size_label fd_label : Z) : I Z :=
  offset <- lift (call sys_ftell [fd]) ;;
  r <- lift (call sys_getline [lineptr; n; fd]) ;;
  b <- __angora_io_find_pfile fd ;;
  (if (b : bool) then
     when (0 <? r) (p <- lift (on_mem (load64 lineptr)) ;; assign_taint_labels p offset r) ;;;
     l <- __angora_get_len_label offset 1 ;;
     set_ret l
   else set_ret 0) ;;;
  ret r.
Definition __dfsw_getdelim (lineptr n delim fd buf_label size_label delim_label fd_label : Z) : I Z :=
  offset <- lift (call sys_ftell [fd]) ;;
  r <- lift (call sys_getdelim [lineptr; n; delim; fd]) ;;
  (if 0 <? r then
     b <- __angora_io_find_pfile fd ;;
     when b (p <- lift (on_mem (load64 lineptr)) ;; assign_taint_labels p offset r)
   else ret tt) ;;;
  set_ret 0 ;;; ret r.
Definition __dfsw___getdelim (lineptr n delim fd buf_label size_label delim_label fd_label : Z) : I Z :=
  offset <- lift (call sys_ftell [fd]) ;;
  r <- lift (call sys___getdelim [lineptr; n; delim; fd]) ;;
  (if 0 <? r then
     b <- __angora_io_find_pfile fd ;;
     when b (p <- lift (on_mem (load64 lineptr)) ;; assign_taint_labels p offset r)
   else ret tt) ;;;
  set_ret 0 ;;; ret r.

(** The six functions of the stat family differ in the call only: the structure
    is cleared and the file size gets a length label. *)
Definition label_stat (r buf : Z) : I unit :=
  when (0 <=? r)
    (lift (dfsan_set_label 0 buf sizeof_stat) ;;;
     lb <- __angora_get_len_label 0 1 ;;
     lift (dfsan_set_label lb (buf + offsetof_st_size) sizeof_st_size)).
Definition __dfsw_stat (path buf path_label buf_label : Z) : I Z :=
  r <- lift (call sys_stat [path; buf]) ;; label_stat r buf ;;; set_ret 0 ;;; ret r.
Definition __dfsw___xstat (vers path buf vers_label path_label buf_label : Z) : I Z :=
  r <- lift (call sys___xstat [vers; path; buf]) ;; label_stat r buf ;;; set_ret 0 ;;; ret r.
Definition __dfsw_fstat (fd buf fd_label buf_label : Z) : I Z :=
  r <- lift (call sys_fstat [fd; buf]) ;; label_stat r buf ;;; set_ret 0 ;;; ret r.
Definition __dfsw___fxstat (vers fd buf vers_label fd_label buf_label : Z) : I Z :=
  r <- lift (call sys___fxstat [vers; fd; buf]) ;; label_stat r buf ;;; set_ret 0 ;;; ret r.
Definition __dfsw_lstat (path buf path_label buf_label : Z) : I Z :=
  r <- lift (call sys_lstat [path; buf]) ;; label_stat r buf ;;; set_ret 0 ;;; ret r.
Definition __dfsw___lxstat (vers path buf vers_label path_label buf_label : Z) : I Z :=
  r <- lift (call sys___lxstat [vers; path; buf]) ;; label_stat r buf ;;; set_ret 0 ;;; ret r.

(** ** zlib_func.c *)

Definition __dfsw_crc32 (crc buf len crc_label buf_label len_label : Z) : I Z :=
  l1 <- lift (dfsan_union crc_label len_label) ;;
  lb <- lift (dfsan_read_label buf len) ;;
  l2 <- lift (dfsan_union l1 lb) ;;
  r <- lift (call sys_crc32 [crc; buf; len]) ;;
  set_ret l2 ;;; ret r.

End Io.

(** ** Length labels *)

Lemma get_fat_label_fields n l :
  0 <= n <= MAX_NORMAL_LABEL -> 0 <= l <= MAX_LEN_LABEL ->
  0 <= get_fat_label n l < 2 ^ 32 /\
  get_normal_label (get_fat_label n l) = n /\ get_len_label (get_fat_label n l) = l.
Proof.
  change MAX_NORMAL_LABEL with (2 ^ 22 - 1). change MAX_LEN_LABEL with (2 ^ 10 - 1). intros Hn Hl.
  assert (E : get_fat_label n l = n + 2 ^ 22 * l).
  { unfold get_fat_label, NORMAL_LABEL_WITDH.
    rewrite u32_small by (rewrite Z.shiftl_mul_pow2; lia). rewrite Z.lor_comm.
    assert (H0 : Z.land n (Z.shiftl l 22) = 0) by (apply land_shiftl_small; lia).
    rewrite <-Z.lxor_lor, <-Z.add_nocarry_lxor by done. rewrite Z.shiftl_mul_pow2; lia. }
  rewrite E. split; [lia|]. unfold get_normal_label, get_len_label, NORMAL_LABEL_WITDH.
  change MAX_NORMAL_LABEL with (Z.ones 22). change MAX_LEN_LABEL with (Z.ones 10).
  rewrite !Z.land_ones, Z.shiftr_div_pow2 by lia.
  rewrite (Z.mul_comm (2 ^ 22)), Z_mod_plus_full, Z.mod_small by lia. split; [done|].
  rewrite Z.div_add by lia. rewrite (Z.div_small n), Z.add_0_l by lia. rewrite Z.mod_small; lia.
Qed.

(** What the length table guarantees. *)
Definition len_info_ok (l : list (Z * Z)) : Prop :=
  0 < Z.of_nat (length l) <= MAX_LEN_LABEL.

Section LenLabel.
Context {T OS : Type}.
Implicit Types s : io T OS.

Lemma get_len_label_spec offset size s :
  len_info_ok (len_info s) ->
  exists l info, __angora_get_len_label offset size s =
      Ok (l, mkIo (rt s) (ffds s) info (utmp_offset s)) /\
    len_info_ok info /\ 0 <= l < 2 ^ 32 /\ len_info s `prefix_of` info.
Proof.
  unfold len_info_ok. intros Hi. unfold __angora_get_len_label, bind, gets. case_test.
  - eexists _, _. split; [reflexivity|]. rewrite length_app. cbn [length].
    split; [lia|]. split; [|by apply prefix_app_r].
    apply get_fat_label_fields; change MAX_NORMAL_LABEL with (2 ^ 22 - 1); lia.
  - exists 0, (len_info s). split; [by destruct s|]. split; [lia|]. split; [lia|done].
Qed.

(** Length labels can be told apart and decoded.  As long as the table has
    room, a new label is larger than every ordinary label, its ordinary part is
    zero, and the entry it decodes to is the offset and size it was made for;
    entries made before keep their place.  A full table gives the zero label
    and stays as it is. *)
Theorem len_label_roundtrip offset size s :
  len_info_ok (len_info s) ->
  exists l info, __angora_get_len_label offset size s =
      Ok (l, mkIo (rt s) (ffds s) info (utmp_offset s)) /\
    len_info_ok info /\
    if Z.of_nat (length (len_info s)) <? MAX_LEN_LABEL
    then is_len_label l = true /\ get_normal_label l = 0 /\
         info !! Z.to_nat (get_len_label l) = Some (u32 offset, u32 size) /\
         (forall i e, len_info s !! i = Some e -> info !! i = Some e)
    else l = 0 /\ info = len_info s.
Proof.
  intros Hi. unfold len_info_ok in *. unfold __angora_get_len_label, bind, gets. case_test.
  - destruct (get_fat_label_fields 0 (Z.of_nat (length (len_info s)))) as (_ & En & El);
      [by vm_compute|lia|].
    eexists _, _. split; [reflexivity|]. rewrite length_app. cbn [length].
    split; [lia|]. split; [|split; [done|split]].
    + unfold is_len_label. apply Z.ltb_lt. unfold get_fat_label, NORMAL_LABEL_WITDH.
      rewrite Z.lor_0_r, u32_small, Z.shiftl_mul_pow2 by
        (rewrite ?Z.shiftl_mul_pow2 by lia; change MAX_LEN_LABEL with (2 ^ 10 - 1) in *; lia).
      change MAX_NORMAL_LABEL with (2 ^ 22 - 1). lia.
    + by rewrite El, Nat2Z.id, lookup_app_r, Nat.sub_diag by lia.
    + intros i e Hie. by apply lookup_app_l_Some.
  - exists 0, (len_info s). split; [by destruct s|]. done.
Qed.
End LenLabel.

(** ** The bytes of the input *)

Section Sources.
Context {T OS : Type} `{!LabelStore T, !LabelStoreView T, !LabelStoreSpec T} `{!Env T OS}.
Implicit Types s : io T OS.

Lemma lift_Ok {A} (f : M (st T OS) A) s a r : f (rt s) = Ok (a, r) -> lift f s = Ok (a, set_rt r s).
Proof. unfold lift. by intros ->. Qed.

(** [r'] is [r] with the [n] bytes at [buf] tainted by the input offsets from
    [offset] on, one offset for each byte. *)
Definition tainted_by (offset buf n : Z) (r r' : st T OS) : Prop :=
  exists h t, r' = set_shadow h (set_tags t r) /\ tags_ext (Z.to_nat n) (tags r) t /\ st_ok r' /\
    forall b, is_app b ->
      if in_range buf n b then taint t (lbl r' b) = {[ u32 (offset + (b - buf)) ]}
      else lbl r' b = lbl r b.

(** The tag set can hold the offsets of [n] bytes from [offset] on. *)
Definition holds_offsets (offset n : Z) : Prop := forall i, 0 <= i < n -> ls_offset (u32 (offset + i)).

Lemma assign_body_spec offset buf n k s r1 :
  app_range buf n -> 0 <= k < n -> holds_offsets offset n -> ls_room (tags (rt s)) (Z.to_nat n) ->
  tainted_by offset buf k (rt s) r1 ->
  exists r2, assign_body buf offset n k (set_rt r1 s) = Ok (tt, set_rt r2 s) /\
    tainted_by offset buf (k + 1) (rt s) r2.
Proof.
  intros Hr Hk Hoff Hroom (h & t & Er & He & Hok & HP).
  assert (Ht1 : tags r1 = t) by by rewrite Er.
  destruct (insert_spec t (u32 (offset + k))) as (L & t2 & E & Hx2 & Hv & Hta);
    [by rewrite <-Ht1; apply Hok|by apply Hoff|apply (te_room _ _ _ He), (ls_room_mono _ _ _ Hroom); lia|].
  destruct (dfsan_set_label_spec L (buf + k) 1 (set_tags t2 r1)) as (h2 & E2 & P2);
    [unfold app_range in *; lia|].
  exists (set_shadow h2 (set_tags t2 r1)). unfold assign_body, bind.
  rewrite (lift_Ok _ (set_rt r1 s) L (set_tags t2 r1)).
  2: { unfold dfsan_create_label, on_tags. cbn [rt set_rt]. by rewrite Ht1, E. }
  unfold granularity. case (Z.ltb_spec n (k + 1)); [lia|intros _].
  rewrite (lift_Ok _ (set_rt (set_tags t2 r1) (set_rt r1 s)) tt (set_shadow h2 (set_tags t2 r1)) E2).
  split; [done|]. exists h2, t2.
  split; [by rewrite Er|].
  split; [replace (Z.to_nat (k + 1)) with (Z.to_nat k + 1)%nat by lia; by eapply tags_ext_trans|]. split.
  { eapply (set_label_st_ok L (buf + k) 1 (set_tags t2 r1)); eauto.
    eapply st_ok_ext; [done|by rewrite Ht1]. }
  intros b Hb. unfold lbl at 1 2, label_at at 1 2. cbn [shadow set_shadow]. rewrite P2 by done.
  specialize (HP b Hb). unfold in_range in *.
  destruct (decide (b = buf + k)) as [->|Hne].
  - rewrite (bool_decide_eq_true_2 (buf + k <= _ < _)) by lia.
    rewrite bool_decide_eq_true_2 by lia. rewrite Hta. do 2 f_equal. lia.
  - rewrite (bool_decide_eq_false_2 (buf + k <= b < _)) by lia.
    change (lbl (set_tags t2 r1) b) with (lbl r1 b).
    destruct (decide (buf <= b < buf + k)) as [Hin|Hin].
    + rewrite bool_decide_eq_true_2 in HP by done. rewrite bool_decide_eq_true_2 by lia.
      rewrite <-HP. apply (te_label _ _ _ Hx2). rewrite <-Ht1. apply Hok.
    + rewrite bool_decide_eq_false_2 in HP by done. by rewrite bool_decide_eq_false_2 by lia.
Qed.

Lemma assign_taint_labels_spec offset buf n s :
  st_ok (rt s) -> app_range buf n -> holds_offsets offset n -> ls_room (tags (rt s)) (Z.to_nat n) ->
  exists r, assign_taint_labels buf offset n s = Ok (tt, set_rt r s) /\
    tainted_by offset buf n (rt s) r.
Proof.
  intros Hok Hr Hoff Hroom. unfold assign_taint_labels.
  destruct (for_count_inv (fun k s' => exists r, s' = set_rt r s /\
      tainted_by offset buf (Z.of_nat k) (rt s) r)
    (assign_body buf offset n) (Z.to_nat n) 0 s) as (s' & E & r & -> & P).
  - intros k s1 Hk (r1 & -> & HP). rewrite Z.add_0_l.
    destruct (assign_body_spec offset buf n (Z.of_nat k) s r1) as (r2 & E & P); [done|lia|done..|].
    exists (set_rt r2 s). split; [done|]. exists r2. split; [done|].
    by replace (Z.of_nat (S k)) with (Z.of_nat k + 1) by lia.
  - exists (rt s). split; [by destruct s|]. exists (shadow (rt s)), (tags (rt s)).
    split; [by destruct (rt s)|]. split; [by apply tags_ext_refl, Hok|]. split; [done|].
    intros b Hb. unfold in_range. by rewrite bool_decide_eq_false_2 by lia.
  - exists r. split; [done|]. unfold app_range in Hr. by rewrite Z2Nat.id in P by lia.
Qed.

Lemma exf_len_small r count size :
  0 < r <= count -> 0 < size -> count * size < 2 ^ 31 - 1024 ->
  exf_len r count size = r * size + Z.min ((count - r) * size) 1024.
Proof.
  intros Hr Hs Hc. unfold exf_len. assert (0 <= r * size <= count * size) by nia.
  assert (0 <= (count - r) * size <= count * size) by nia.
  rewrite !u64_small by nia. rewrite (s32_small (r * size)) by lia.
  rewrite (s32_small ((count - r) * size)) by lia.
  repeat case_test; rewrite ?s32_small by lia; try lia.
  assert (r = count) as -> by lia. lia.
Qed.

Lemma taint_read_tracked buf offset r count size s :
  st_ok (rt s) -> len_info_ok (len_info s) ->
  0 < r <= count -> 0 < size -> count * size < 2 ^ 31 - 1024 -> app_range buf (count * size) ->
  holds_offsets (Z.max offset 0) (count * size) -> ls_room (tags (rt s)) (Z.to_nat (count * size)) ->
  exists r' info l, taint_read true buf offset r count size s =
      Ok (tt, mkIo (set_retl l r') (ffds s) info (utmp_offset s)) /\
    len_info_ok info /\ len_info s `prefix_of` info /\
    tainted_by (Z.max offset 0) buf (r * size + Z.min ((count - r) * size) 1024) (rt s) r'.
Proof.
  intros Hok Hli Hr Hs Hc Ha Hoff Hroom. unfold taint_read, assign_taint_labels_exf.
  rewrite exf_len_small by done. assert (0 <= (count - r) * size) by nia.
  assert (0 <= r * size) by nia. rewrite u64_small by nia.
  case (Z.ltb_spec 0 r); [intros _|lia]. cbn [when].
  replace (if offset <? 0 then 0 else offset) with (Z.max offset 0) by (case_test; lia).
  destruct (assign_taint_labels_spec (Z.max offset 0) buf
    (r * size + Z.min ((count - r) * size) 1024) s) as (r' & E & P); [done| | | |].
  { unfold app_range in *. nia. }
  { intros i Hi. apply Hoff. nia. }
  { apply (ls_room_mono _ _ _ Hroom). nia. }
  destruct (get_len_label_spec offset size (set_rt r' s)) as (l & info & El & Hi & _ & Hp); [done|].
  exists r', info, l. unfold bind. rewrite E, El. by split.
Qed.

Lemma find_fd_Ok fd s : __angora_io_find_fd fd s = Ok (bool_decide (u32 fd ∈ ffds s), s).
Proof. done. Qed.

(** A [read] from a tracked descriptor. *)
Lemma read_tainted fd buf count l1 l2 l3 s offset m1 o1 r m2 o2 :
  st_ok (rt s) -> len_info_ok (len_info s) -> u32 fd ∈ ffds s ->
  sys sys_lseek [fd; 0; SEEK_CUR] (app (rt s)) (os (rt s)) = (offset, m1, o1) ->
  sys sys_read [fd; buf; count] m1 o1 = (r, m2, o2) ->
  0 < r <= count -> count < 2 ^ 31 - 1024 -> app_range buf count ->
  holds_offsets (Z.max offset 0) count -> ls_room (tags (rt s)) (Z.to_nat count) ->
  exists s', __dfsw_read fd buf count l1 l2 l3 s = Ok (r, s') /\
    app (rt s') = m2 /\ os (rt s') = o2 /\ st_ok (rt s') /\ len_info_ok (len_info s') /\
    tags_ext (Z.to_nat count) (tags (rt s)) (tags (rt s')) /\
    forall b, is_app b ->
      if in_range buf (r + Z.min (count - r) 1024) b
      then taint (tags (rt s')) (lbl (rt s') b) = {[ u32 (Z.max offset 0 + (b - buf)) ]}
      else lbl (rt s') b = lbl (rt s) b.
Proof.
  intros Hok Hli Hfd Hl Hrd Hr Hc Ha Hoff Hroom. unfold __dfsw_read, bind.
  rewrite (lift_Ok _ s _ _ (call_eq _ _ (rt s) _ _ _ Hl)).
  set (s1 := set_rt _ s). rewrite (lift_Ok _ s1 _ _ (call_eq _ _ (rt s1) _ _ _ Hrd)).
  rewrite find_fd_Ok. cbn [ffds set_rt s1]. rewrite bool_decide_eq_true_2 by done.
  set (s2 := set_rt _ s1).
  destruct (taint_read_tracked buf offset r count 1 s2) as (r' & info & l & E & Hi & _ & P);
    [done|done|done|lia|lia|by rewrite Z.mul_1_r..|].
  rewrite E. rewrite !Z.mul_1_r in P. destruct P as (h & t & -> & He & Hok' & HP).
  eexists. split; [reflexivity|]. split; [done|]. split; [done|]. split; [exact Hok'|].
  split; [done|]. split; [|exact HP]. eapply tags_ext_le; [exact He|lia].
Qed.

(** Bytes read from the fuzzed input carry their position.  After a
    successful [read] of [r] bytes from a tracked descriptor at file offset
    [offset], the byte at [buf + i] is tainted by exactly the input offset
    [offset + i], for the bytes read and for up to 1024 bytes of the rest of
    the buffer; no label outside the buffer changes, the memory is what the
    system call wrote, and the runtime's invariants hold again. *)
Theorem dfsw_read_taints fd buf count l1 l2 l3 s offset m1 o1 r m2 o2 :
  st_ok (rt s) -> len_info_ok (len_info s) -> u32 fd ∈ ffds s ->
  sys sys_lseek [fd; 0; SEEK_CUR] (app (rt s)) (os (rt s)) = (offset, m1, o1) ->
  sys sys_read [fd; buf; count] m1 o1 = (r, m2, o2) ->
  0 < r <= count -> count < 2 ^ 31 - 1024 -> app_range buf count ->
  holds_offsets (Z.max offset 0) count -> ls_room (tags (rt s)) (Z.to_nat count) ->
  exists s', __dfsw_read fd buf count l1 l2 l3 s = Ok (r, s') /\
    app (rt s') = m2 /\ os (rt s') = o2 /\ st_ok (rt s') /\ len_info_ok (len_info s') /\
    forall b, is_app b ->
      if in_range buf (r + Z.min (count - r) 1024) b
      then taint (tags (rt s')) (lbl (rt s') b) = {[ u32 (Z.max offset 0 + (b - buf)) ]}
      else lbl (rt s') b = lbl (rt s) b.
Proof.
  intros. destruct (read_tainted fd buf count l1 l2 l3 s offset m1 o1 r m2 o2)
    as (s' & ? & ? & ? & ? & ? & _ & ?); [done..|]. by exists s'.
Qed.

(** ** Tracking of descriptors *)

Lemma is_fuzzing_file_spec p name s :
  cstr (app (rt s)) p name -> IS_FUZZING_FILE p s = Ok (containsb FUZZING_INPUT_FILE name, s).
Proof.
  intros Hc. unfold IS_FUZZING_FILE, bind.
  assert (Hb : bytes_at (app (rt s)) p name)
    by (destruct Hc as [Hc' _]; apply bytes_at_app in Hc'; apply Hc').
  assert (Hid : set_rt (set_app (app (rt s)) (rt s)) s = s) by (by destruct s as [[]]).
  rewrite (lift_Ok _ s (Z.of_nat (length name)) (set_app (app (rt s)) (rt s))), Hid.
  2: { unfold on_mem, libc_strlen. by rewrite (internal_strlen_cstr _ _ _ Hc). }
  rewrite (lift_Ok _ s name (set_app (app (rt s)) (rt s))), Hid; [done|].
  unfold on_mem. rewrite Nat2Z.id. by rewrite (load_bytes_spec _ _ _ Hb).
Qed.

(** Exactly the descriptors of the fuzzed input are tracked.  A successful
    [open] tracks its descriptor if and only if the path contains the input's
    file name, a failed one changes nothing, and a successful [close] ends the
    tracking of that descriptor and of no other. *)
Theorem open_close_tracking path oflags l1 l2 mode name s fd m o :
  let mode' := if __OPEN_NEEDS_MODE oflags then mode else 0 in
  sys sys_open [path; oflags; mode'] (app (rt s)) (os (rt s)) = (fd, m, o) ->
  cstr m path name ->
  exists s', __dfsw_open path oflags l1 l2 mode s = Ok (fd, s') /\
    app (rt s') = m /\ retl (rt s') = 0 /\ shadow (rt s') = shadow (rt s) /\
    ffds s' = (if (0 <=? fd) && containsb FUZZING_INPUT_FILE name
               then {[ u32 fd ]} ∪ ffds s else ffds s) /\
    forall r m2 o2, sys sys_close [fd] (app (rt s')) (os (rt s')) = (r, m2, o2) ->
      exists s2, __dfsw_close fd l1 s' = Ok (r, s2) /\
        ffds s2 = if r =? 0 then ffds s' ∖ {[ u32 fd ]} else ffds s'.
Proof.
  intros mode' Hop Hc. unfold __dfsw_open, bind. fold mode'.
  rewrite (lift_Ok _ s _ _ (call_eq _ _ (rt s) _ _ _ Hop)). set (s1 := set_rt _ s).
  assert (Hcl : forall s' r m2 o2, sys sys_close [fd] (app (rt s')) (os (rt s')) = (r, m2, o2) ->
      exists s2, __dfsw_close fd l1 s' = Ok (r, s2) /\
        ffds s2 = if r =? 0 then ffds s' ∖ {[ u32 fd ]} else ffds s').
  { clear. intros s' r m2 o2 Hs. unfold __dfsw_close, bind.
    rewrite (lift_Ok _ s' _ _ (call_eq _ _ (rt s') _ _ _ Hs)).
    destruct (r =? 0); [|by eexists]. rewrite find_fd_Ok. cbn [ffds set_rt].
    case_bool_decide as Hin; (eexists; split; [reflexivity|]); cbn [ffds set_rt set_ffds]; [done|].
    symmetry. apply difference_disjoint_L, disjoint_singleton_r. done. }
  destruct (0 <=? fd); cbn [andb].
  - rewrite (is_fuzzing_file_spec path name s1 Hc).
    destruct (containsb _ _); (eexists; split; [reflexivity|]); split_and!; try done; by apply Hcl.
  - eexists. split; [reflexivity|]. split_and!; try done. by apply Hcl.
Qed.

(** A failed [mmap] of the fuzzed input is not recognised: [MAP_FAILED] is
    greater than zero as a pointer, and labelling the range it stands for
    faults on an address that has no shadow. *)
Theorem dfsw_mmap_failure_faults start len prot fl fd offset l1 l2 l3 l4 l5 l6 s m o :
  ls_ok (tags (rt s)) -> ls_offset (u32 offset) -> ls_room (tags (rt s)) 1 ->
  u32 fd ∈ ffds s -> 0 < len ->
  sys sys_mmap [start; len; prot; fl; fd; offset] (app (rt s)) (os (rt s)) = (2 ^ 64 - 1, m, o) ->
  __dfsw_mmap start len prot fl fd offset l1 l2 l3 l4 l5 l6 s = Fault Segv.
Proof.
  intros Hok Hoff Hroom Hfd Hl Hs. unfold __dfsw_mmap, bind.
  rewrite (lift_Ok _ s _ _ (call_eq _ _ (rt s) _ _ _ Hs)).
  change (0 <? 2 ^ 64 - 1) with true. cbv beta iota. rewrite find_fd_Ok. cbn [ffds set_rt].
  rewrite bool_decide_eq_true_2 by done. cbn [when]. unfold assign_taint_labels.
  destruct (Z.to_nat len) as [|k] eqn:Ek; [lia|]. cbn [for_count]. unfold assign_body, bind, granularity.
  set (s1 := set_rt _ s).
  destruct (insert_spec (tags (rt s)) (u32 (offset + 0))) as (L & t2 & E & _);
    [done|by rewrite Z.add_0_r|done|].
  rewrite (lift_Ok _ s1 L (set_tags t2 (rt s1))).
  2: { unfold dfsan_create_label, on_tags. cbn [s1 rt set_rt tags set_os set_app]. by rewrite E. }
  case (Z.ltb_spec len (0 + 1)); [lia|done].
Qed.
End Sources.

(** ** Witnesses *)

Module IoEx.
Definition path : Z := 0x700000030000.
Definition buf : Z := 0x700000031000.
(** [open] answers 3, [read] one byte less than asked for, [mmap] fails. *)
Definition io_sys (f : sysfn) (args : list Z) (m : mem) (o : Z) : Z * mem * Z :=
  match f, args with
  | sys_open, _ => (3, m, o)
  | sys_lseek, _ => (o, m, o)
  | sys_read, [_; _; count] => (count - 1, m, o + (count - 1))
  | sys_mmap, _ => (2 ^ 64 - 1, m, o)
  | _, _ => (0, m, o)
  end.
Definition env : Env (list (gset Z)) Z := {|
  sys := io_sys;
  strto _ nptr _ _ := (0, nptr);
  app_call _ _ s := Ok (0, s);
  weak_hook _ := None;
  mapped_regions _ _ := None;
  loaded_objects _ := [];
  caller_pc := 0;
  pthread_create_cb_addr := 0;
  printf_text fmt _ _ := Some fmt;
|}.
Definition name : list Z := 47 :: FUZZING_INPUT_FILE.
Definition ex : io (list (gset Z)) Z :=
  mkIo (mkSt (list_to_map (imap (fun i c => (path + Z.of_nat i, c)) (name ++ [0])) ∪ SimpleEnv.block buf 8)
             ∅ [∅] 40 0 SetDefaults [] (0, 0))
       {[ 0; 3 ]} len_info0 0.
Lemma io_ex_ok : st_ok (rt ex).
Proof. split; [done|]. intros p. unfold label_at. cbn [shadow ex rt]. by rewrite lookup_empty; vm_compute. Qed.
Lemma io_ex_name : cstr (app (rt ex)) path name.
Proof. by apply cstrb_sound; vm_compute. Qed.
End IoEx.

Lemma len_label_roundtrip_witness :
  exists l info, __angora_get_len_label 12 4 IoEx.ex =
      Ok (l, mkIo (rt IoEx.ex) (ffds IoEx.ex) info (utmp_offset IoEx.ex)) /\
    info !! Z.to_nat (get_len_label l) = Some (12, 4).
Proof.
  destruct (len_label_roundtrip 12 4 IoEx.ex) as (l & info & E & _ & _ & _ & P & _); [by vm_compute|].
  exists l, info. split; [exact E|exact P].
Defined.

Lemma dfsw_read_taints_witness :
  exists s', __dfsw_read (Env0 := IoEx.env) 3 IoEx.buf 8 0 0 0 IoEx.ex = Ok (7, s') /\
    taint (tags (rt s')) (lbl (rt s') (IoEx.buf + 2)) = {[ 42 ]}.
Proof.
  assert (Ha : is_app (IoEx.buf + 2)) by by vm_compute.
  destruct (dfsw_read_taints (Env0 := IoEx.env) 3 IoEx.buf 8 0 0 0 IoEx.ex 40 (app (rt IoEx.ex)) 40 7
    (app (rt IoEx.ex)) 47) as (s' & E & _ & _ & _ & _ & P);
    [apply IoEx.io_ex_ok|by vm_compute|by apply (bool_decide_unpack (u32 3 ∈ ffds IoEx.ex)); vm_compute|reflexivity|reflexivity|lia|lia|by vm_compute|done|done|].
  exists s'. split; [exact E|]. exact (P _ Ha).
Defined.

Lemma open_close_tracking_witness :
  exists s', __dfsw_open (Env0 := IoEx.env) IoEx.path 0 0 0 0 IoEx.ex = Ok (3, s') /\
    ffds s' = {[ 3 ]} ∪ {[ 0; 3 ]}.
Proof.
  destruct (open_close_tracking (Env0 := IoEx.env) IoEx.path 0 0 0 0 IoEx.name IoEx.ex 3
    (app (rt IoEx.ex)) 40) as (s' & E & _ & _ & _ & P & _); [reflexivity|apply IoEx.io_ex_name|].
  exists s'. split; [exact E|exact P].
Defined.

Lemma dfsw_mmap_failure_faults_witness :
  __dfsw_mmap (Env0 := IoEx.env) 0 4096 1 2 3 0 0 0 0 0 0 0 IoEx.ex = Fault Segv.
Proof.
  apply (dfsw_mmap_failure_faults (Env0 := IoEx.env) 0 4096 1 2 3 0 0 0 0 0 0 0 IoEx.ex
    (app (rt IoEx.ex)) 40);
    [done|done|done|by apply (bool_decide_unpack (u32 3 ∈ ffds IoEx.ex)); vm_compute|lia|reflexivity].
Defined.
