(* ===== verification/StdAlloc.v ===== *)
(** * The allocation wrappers

    [llvm_mode/external_lib/stdalloc.c] with the heap map of
    [runtime/src/heapmap.rs]: every block's size is kept by address, so that a
    [realloc] that moves a block can move its labels.  [ALLOC_PRELOAD] and
    [DEBUG_INFO] are undefined, as in defs.h. *)

From S2P Require Import Prelude CMem Dfsan Env DfsanCustom.

Local Open Scope Z_scope.

Record heap (T OS : Type) := mkHeap { hrt : st T OS; heapmap : gmap Z Z }.
Arguments mkHeap {T OS}. Arguments hrt {T OS}. Arguments heapmap {T OS}.

Section Alloc.
Context {T OS : Type} `{LabelStore T} `{!Env T OS}.
Abbreviation H_ := (M (heap T OS)).

Definition hlift {A} (f : M (st T OS) A) : H_ A :=
  fun s => match f (hrt s) with
           | Ok (a, r) => Ok (a, mkHeap r (heapmap s))
           | Fault e => Fault e
           end.

(** heapmap.rs *)
Definition heapmap_set (base bound : Z) : H_ unit :=
  modify (fun s => mkHeap (hrt s) (<[base := bound]> (heapmap s))).
Definition heapmap_invalidate (base : Z) : H_ unit :=
  modify (fun s => mkHeap (hrt s) (delete base (heapmap s))).
Definition heapmap_get (base : Z) : H_ Z :=
  gets (fun s => default 0 (heapmap s !! base)).

Definition __dfsw_malloc (size size_label : Z) : H_ Z :=
  hlift (set_ret_label 0) ;;;
  ptr <- hlift (call sys_malloc [size]) ;;
  when (negb (ptr =? 0)) (heapmap_set ptr size) ;;;
  ret ptr.

Definition __dfsw_free (ptr ptr_label : Z) : H_ unit :=
  hlift (call sys_free [ptr]) ;;;
  heapmap_invalidate ptr.

Definition __dfsw_calloc (nmemb size nmemb_label size_label : Z) : H_ Z :=
  hlift (set_ret_label 0) ;;;
  ptr <- hlift (call sys_calloc [nmemb; size]) ;;
  when (negb (ptr =? 0)) (heapmap_set ptr (u64 (nmemb * size))) ;;;
  ret ptr.

Definition __dfsw_reallocarray (ptr nmemb size ptr_label nmemb_label size_label : Z) : H_ Z :=
  fail AbortCalled.

Definition __dfsw_realloc (ptr size ptr_label size_label : Z) : H_ Z :=
  hlift (set_ret_label 0) ;;;
  old_size <- heapmap_get ptr ;;
  r <- hlift (call sys_realloc [ptr; size]) ;;
  (if negb (r =? 0) then
     when (negb (ptr =? 0) && negb (r =? ptr))
       (heapmap_invalidate ptr ;;;
        hlift (copy_labels (dfsan_shadow_for r) (dfsan_shadow_for ptr) old_size)) ;;;
     heapmap_set r size
   else ret tt) ;;;
  ret r.
End Alloc.

Section AllocProofs.
Context {T OS : Type} `{LabelStore T} `{!Env T OS}.
Implicit Types s : heap T OS.

Lemma hlift_Ok {A} (f : M (st T OS) A) s a r :
  f (hrt s) = Ok (a, r) -> hlift f s = Ok (a, mkHeap r (heapmap s)).
Proof. unfold hlift. by intros ->. Qed.

(** A block that moved: the recorded number of labels goes along. *)
Lemma realloc_moved ptr size l1 l2 s r m o old :
  heapmap s !! ptr = Some old -> ptr <> 0 -> r <> 0 -> r <> ptr ->
  sys sys_realloc [ptr; size] (app (hrt s)) (os (hrt s)) = (r, m, o) ->
  app_range ptr old -> app_range r old -> (r + old <= ptr \/ ptr + old <= r) ->
  exists h, __dfsw_realloc ptr size l1 l2 s =
      Ok (r, mkHeap (set_shadow h (set_os o (set_app m (set_retl 0 (hrt s)))))
               (<[r := size]> (delete ptr (heapmap s)))) /\
    relabelled (hrt s) h r old (fun b => lbl (hrt s) (ptr + (b - r))).
Proof.
  intros Hold Hp Hr Hne Hs Ra Rr Hd. unfold __dfsw_realloc, bind.
  rewrite (hlift_Ok _ s tt (set_retl 0 (hrt s)) eq_refl). set (s1 := mkHeap _ _).
  change (heapmap_get ptr s1) with (@Ok (Z * heap T OS) (default 0 (heapmap s !! ptr), s1)).
  rewrite Hold. cbn [default from_option].
  rewrite (hlift_Ok _ s1 _ _ (call_eq _ _ (hrt s1) _ _ _ Hs)).
  rewrite !(proj2 (Z.eqb_neq _ _)) by done. cbn [negb andb when].
  destruct (copy_labels_spec r ptr old (set_os o (set_app m (set_retl 0 (hrt s))))) as (h & E & P);
    [done|done|lia|].
  exists h. split; [|exact P]. unfold heapmap_invalidate, modify, dfsan_shadow_for.
  cbv beta iota zeta. unfold hlift. cbn [hrt heapmap s1 id]. by rewrite E.
Qed.

(** [realloc] keeps the labels of a block's bytes.  A block that moved has
    its old labels at the new address -- byte for byte, as many as were recorded
    for the old block -- and no other label changes; a block that stayed, or a
    failed call, changes no label.  The heap map then knows the new block with
    its new size and no longer the old one; after a failure it is as before. *)
Theorem dfsw_realloc_labels ptr size l1 l2 s r m o old :
  heapmap s !! ptr = Some old -> ptr <> 0 ->
  sys sys_realloc [ptr; size] (app (hrt s)) (os (hrt s)) = (r, m, o) ->
  app_range ptr old -> (r <> 0 -> app_range r old) ->
  (r = 0 \/ r = ptr \/ r + old <= ptr \/ ptr + old <= r) ->
  exists s', __dfsw_realloc ptr size l1 l2 s = Ok (r, s') /\
    app (hrt s') = m /\ retl (hrt s') = 0 /\
    heapmap s' = (if r =? 0 then heapmap s else <[r := size]> (delete ptr (heapmap s))) /\
    forall b, is_app b -> lbl (hrt s') b =
      if negb (r =? 0) && negb (r =? ptr) && in_range r old b
      then lbl (hrt s) (ptr + (b - r)) else lbl (hrt s) b.
Proof.
  intros Hold Hp Hs Ra Rr Hd.
  destruct (decide (r <> 0 /\ r <> ptr)) as [[Hr Hne]|Hstay].
  - destruct (realloc_moved ptr size l1 l2 s r m o old) as (h & E & P); [done..|auto|lia|].
    eexists. split; [exact E|]. rewrite !(proj2 (Z.eqb_neq _ _)) by done. cbn [negb andb].
    split_and!; try done.
  - unfold __dfsw_realloc, bind. rewrite (hlift_Ok _ s tt (set_retl 0 (hrt s)) eq_refl).
    set (s1 := mkHeap _ _).
    change (heapmap_get ptr s1) with (@Ok (Z * heap T OS) (default 0 (heapmap s !! ptr), s1)).
    cbv beta iota. rewrite (hlift_Ok _ s1 _ _ (call_eq _ _ (hrt s1) _ _ _ Hs)).
    destruct (Z.eqb_spec r 0) as [->|Hr0]; cbn [negb andb].
    { eexists. split; [reflexivity|]. by split_and!. }
    assert (r = ptr) as -> by (destruct (decide (r = ptr)); tauto).
    rewrite Z.eqb_refl, andb_false_r. cbn [negb when andb].
    eexists. split; [reflexivity|]. cbn [hrt heapmap s1]. split_and!; try done.
    by rewrite insert_delete_eq.
Qed.

(** A [realloc] that shrinks and moves a block copies as many labels as the
    old block had: the labels of the bytes behind the new block are overwritten
    too. *)
Theorem dfsw_realloc_shrink_overwrites ptr size l1 l2 s r m o old :
  heapmap s !! ptr = Some old -> ptr <> 0 -> r <> 0 -> r <> ptr -> 0 <= size < old ->
  sys sys_realloc [ptr; size] (app (hrt s)) (os (hrt s)) = (r, m, o) ->
  app_range ptr old -> app_range r old -> (r + old <= ptr \/ ptr + old <= r) ->
  exists s', __dfsw_realloc ptr size l1 l2 s = Ok (r, s') /\
    heapmap s' !! r = Some size /\
    forall i, size <= i < old -> lbl (hrt s') (r + i) = lbl (hrt s) (ptr + i).
Proof.
  intros Hold Hp Hr Hne Hsz Hs Ra Rr Hd.
  destruct (realloc_moved ptr size l1 l2 s r m o old) as (h & E & P); [done..|].
  eexists. split; [exact E|]. split; [apply lookup_insert_eq|]. intros i Hi.
  cbn [hrt]. unfold lbl at 1, label_at. cbn [shadow set_shadow].
  rewrite P by (eapply (app_range_in r old); [done|lia]). unfold in_range.
  rewrite bool_decide_eq_true_2 by lia. f_equal. lia.
Qed.
End AllocProofs.

(** ** Witnesses *)

Module AllocEx.
(** [realloc] moves every block to an address it keeps as system state. *)
Definition env : Env (list (gset Z)) Z := {|
  sys f args m o := match f with sys_realloc => (o, m, o) | _ => (0, m, o) end;
  strto _ nptr _ _ := (0, nptr);
  app_call _ _ s := Ok (0, s);
  weak_hook _ := None;
  mapped_regions _ _ := None;
  loaded_objects _ := [];
  caller_pc := 0;
  pthread_create_cb_addr := 0;
  printf_text fmt _ _ := Some fmt;
|}.
Definition ex : heap (list (gset Z)) Z := mkHeap Ex.ex {[ Ex.a0 := 2 ]}.
End AllocEx.

Lemma dfsw_realloc_labels_witness :
  exists s', __dfsw_realloc (Env0 := AllocEx.env) Ex.a0 8 0 0 AllocEx.ex = Ok (0x700000020000, s') /\
    lbl (hrt s') 0x700000020001 = 2.
Proof.
  assert (Ha : is_app 0x700000020001) by by vm_compute.
  destruct (dfsw_realloc_labels (Env0 := AllocEx.env) Ex.a0 8 0 0 AllocEx.ex 0x700000020000
    (app Ex.ex) 0x700000020000 2) as (s' & E & _ & _ & _ & P);
    [reflexivity|done|reflexivity|by vm_compute|by vm_compute|right; right; right; by vm_compute|].
  exists s'. split; [exact E|]. by rewrite (P _ Ha).
Defined.

Lemma dfsw_realloc_shrink_overwrites_witness :
  exists s', __dfsw_realloc (Env0 := AllocEx.env) Ex.a0 1 0 0 AllocEx.ex = Ok (0x700000020000, s') /\
    heapmap s' !! 0x700000020000 = Some 1 /\ lbl (hrt s') (0x700000020000 + 1) = 2.
Proof.
  destruct (dfsw_realloc_shrink_overwrites (Env0 := AllocEx.env) Ex.a0 1 0 0 AllocEx.ex 0x700000020000
    (app Ex.ex) 0x700000020000 2) as (s' & E & Hm & P);
    [reflexivity|done|done|done|lia|reflexivity|by vm_compute|by vm_compute|right; by vm_compute|].
  exists s'. split; [exact E|]. split; [exact Hm|]. rewrite P by lia. reflexivity.
Defined.
