(* ===== verification/TagSet.v ===== *)
(** * Tag sets

    [runtime/src/tag_set.rs]: the store of the label sets.  It is a trie over the
    characteristic sequences of the sets: a node stands for a run of zeros (a left
    child) or of ones (a right child), [seg] is the run, and a label is the number of a
    node that ends a run of ones.  [parent] is the previous run of ones, so that the
    set of a label is the union of the segments on its way to the root.  A segment may
    begin before its run does: then the bytes from there on are one variable.

    This file has the operations; their meaning is proved in TagSetProofs.v. *)

From S2P Require Import Prelude.
Local Open Scope Z_scope.

(** [TagSeg] of [common/src/tag.rs]. *)
Record TagSeg := mkSeg { seg_sign : bool; seg_begin : Z; seg_end : Z }.
Record TagNode := mkNode {
  node_left : nat; node_right : nat; node_parent : nat; node_and_op : bool; node_seg : TagSeg }.

Definition LABEL_WITDH : Z := 22.
Definition MAX_LB : Z := 2 ^ LABEL_WITDH - 1.
Definition ROOT : nat := 0.

Definition TagNode_new (parent : nat) (begin end_ : Z) : TagNode :=
  mkNode 0 0 parent false (mkSeg false begin end_).
Definition get_seg_size (n : TagNode) : Z := u32 (seg_end (node_seg n) - seg_begin (node_seg n)).

(** The vector [nodes].  An index out of range panics. *)
Abbreviation TagSet := (list TagNode).
Abbreviation TS := (M (list TagNode)).
Definition TagSet_new : TagSet := [TagNode_new ROOT 0 0].

Definition node (lb : nat) : TS TagNode :=
  fun t => match t !! lb with Some n => Ok (n, t) | None => Fault Panicked end.
Definition update (lb : nat) (f : TagNode -> TagNode) : TS unit :=
  fun t => match t !! lb with Some n => Ok (tt, <[ lb := f n ]> t) | None => Fault Panicked end.
Definition set_left (l : nat) (n : TagNode) : TagNode :=
  mkNode l (node_right n) (node_parent n) (node_and_op n) (node_seg n).
Definition set_right (r : nat) (n : TagNode) : TagNode :=
  mkNode (node_left n) r (node_parent n) (node_and_op n) (node_seg n).
Definition set_parent (p : nat) (n : TagNode) : TagNode :=
  mkNode (node_left n) (node_right n) p (node_and_op n) (node_seg n).
Definition set_and_op (n : TagNode) : TagNode :=
  mkNode (node_left n) (node_right n) (node_parent n) true (node_seg n).
Definition set_begin (b : Z) (n : TagNode) : TagNode :=
  mkNode (node_left n) (node_right n) (node_parent n) (node_and_op n)
    (mkSeg (seg_sign (node_seg n)) b (seg_end (node_seg n))).
Definition set_seg_sign (n : TagNode) : TagNode :=
  mkNode (node_left n) (node_right n) (node_parent n) (node_and_op n)
    (mkSeg true (seg_begin (node_seg n)) (seg_end (node_seg n))).

Definition new_node (parent : nat) (begin end_ : Z) : TS nat :=
  lb <- gets (@length TagNode) ;;
  if Z.of_nat lb <? MAX_LB
  then modify (fun t => t ++ [TagNode_new parent begin end_]) ;;; ret lb
  else fail Panicked.

(** ** Walking down *)

Fixpoint zeros_loop (fuel : nat) (cur_lb : nat) (n : Z) (last_one_lb : nat) : TS nat :=
  match fuel with
  | O => fail OutOfFuel
  | S k =>
      if n =? 0 then ret cur_lb else
      cur <- node cur_lb ;;
      let next := node_left cur in
      nx <- node next ;;
      let next_size := get_seg_size nx in
      let off := seg_end (node_seg cur) in
      if (next =? 0)%nat then
        new_lb <- new_node last_one_lb off (u32 (off + n)) ;;
        update cur_lb (set_left new_lb) ;;;
        ret new_lb
      else if n <? next_size then
        new_lb <- new_node last_one_lb off (u32 (off + n)) ;;
        update cur_lb (set_left new_lb) ;;;
        update new_lb (set_left next) ;;;
        update next (set_begin (u32 (off + n))) ;;;
        ret new_lb
      else zeros_loop k next (u32 (n - next_size)) last_one_lb
  end.
Definition insert_n_zeros (cur_lb : nat) (num : Z) (last_one_lb : nat) : TS nat :=
  zeros_loop (S (Z.to_nat num)) cur_lb num last_one_lb.

Fixpoint ones_loop (fuel : nat) (cur_lb : nat) (n : Z) (last_one_lb : nat) : TS nat :=
  match fuel with
  | O => fail OutOfFuel
  | S k =>
      if n =? 0 then ret cur_lb else
      cur <- node cur_lb ;;
      let next := node_right cur in
      let last_end := seg_end (node_seg cur) in
      if (next =? 0)%nat then
        new_lb <- new_node last_one_lb last_end (u32 (last_end + n)) ;;
        update cur_lb (set_right new_lb) ;;;
        ret new_lb
      else
        nx <- node next ;;
        let next_size := u32 (seg_end (node_seg nx) - last_end) in
        if n <? next_size then
          new_lb <- new_node last_one_lb last_end (u32 (last_end + n)) ;;
          update cur_lb (set_right new_lb) ;;;
          update new_lb (set_right next) ;;;
          update next (set_parent new_lb) ;;;
          update next (set_begin (u32 (last_end + n))) ;;;
          ret new_lb
        else ones_loop k next (u32 (n - next_size)) next
  end.
Definition insert_n_ones (cur_lb : nat) (num : Z) (last_one_lb : nat) : TS nat :=
  ones_loop (S (Z.to_nat num)) cur_lb num last_one_lb.

Definition insert (offset : Z) : TS nat :=
  cur_lb <- insert_n_zeros ROOT offset ROOT ;;
  insert_n_ones cur_lb 1 ROOT.

(** ** Notes on labels *)

Definition set_sign (lb : nat) : TS unit := update lb set_seg_sign.
Definition get_sign (lb : nat) (t : TagSet) : bool :=
  match t !! lb with Some n => seg_sign (node_seg n) | None => false end.
Definition combine_and (lb : nat) : TS unit := update lb set_and_op.

(** [while cur_lb != lb { cur_lb = insert_n_ones(cur_lb, 1, cur_lb) }] *)
Fixpoint split_ones (fuel : nat) (cur_lb lb : nat) : TS unit :=
  match fuel with
  | O => fail OutOfFuel
  | S k =>
      if (cur_lb =? lb)%nat then ret tt
      else c <- insert_n_ones cur_lb 1 cur_lb ;; split_ones k c lb
  end.
Definition split_and_op (lb : nat) : TS nat :=
  n <- node lb ;;
  let s := node_seg n in
  let p := node_parent n in
  (if (1 <? u32 (seg_end s - seg_begin s)) && negb (p =? ROOT)%nat then
     np <- node p ;;
     when (seg_begin s <=? seg_begin (node_seg np))
       (when (seg_end (node_seg np) <? seg_end s)
          (split_ones (S (Z.to_nat (seg_end s - seg_end (node_seg np)))) p lb) ;;;
        update lb (set_begin (u32 (seg_end s - 1))))
   else ret tt) ;;;
  ret lb.

(** ** Shapes *)

Definition infer_shape (l1 l2 : nat) (len : Z) : TS (option nat) :=
  if negb (len =? 2) && negb (len =? 4) && negb (len =? 8) then ret None else
  n1 <- node l1 ;;
  if negb (node_parent n1 =? ROOT)%nat then ret None else
  n2 <- node l2 ;;
  if (node_parent n2 =? ROOT)%nat &&
     (u32 (seg_begin (node_seg n1) + len) =? seg_end (node_seg n2))
  then
    cur_lb <- insert_n_ones l1 (len - 1) l1 ;;
    m1 <- node l1 ;;
    update cur_lb (set_begin (seg_begin (node_seg m1))) ;;;
    ret (Some cur_lb)
  else ret None.

(** [for _ in 0..count { cur_lb = parent; if cur_lb == ROOT { return } }] *)
Fixpoint climb (fuel : nat) (count : Z) (cur_lb : nat) : TS (option nat) :=
  match fuel with
  | O => fail OutOfFuel
  | S k =>
      if count =? 0 then ret (Some cur_lb) else
      n <- node cur_lb ;;
      if (node_parent n =? ROOT)%nat then ret None else climb k (count - 1) (node_parent n)
  end.
Definition infer_shape2 (lb : nat) (len : Z) : TS unit :=
  if (lb =? ROOT)%nat then ret tt else
  n <- node lb ;;
  let s := node_seg n in
  if u32 (seg_begin s + 1) <? seg_end s then ret tt else
  c <- climb (S (Z.to_nat (seg_end s))) (u64 (len - 1)) lb ;;
  match c with
  | None => ret tt
  | Some cur_lb =>
      nc <- node cur_lb ;;
      when ((node_parent nc =? ROOT)%nat && (u32 (seg_begin (node_seg nc) + len) =? seg_end s))
        (update lb (set_begin (seg_begin (node_seg nc))))
  end.

(** ** Joining labels *)

(** The first loop of [combine]: the segments of both labels, the one that begins
    last first; gives the stack and the label to start from. *)
Fixpoint merge (fuel : nat) (l1 l2 : nat) (last_begin : Z) (lb_st : list nat)
  : TS (list nat * nat) :=
  match fuel with
  | O => fail OutOfFuel
  | S k =>
      if (0 <? l1)%nat && negb (l1 =? l2)%nat then
        n1 <- node l1 ;; n2 <- node l2 ;;
        let b1 := seg_begin (node_seg n1) in
        let b2 := seg_begin (node_seg n2) in
        if b1 <? b2 then
          if b2 <? last_begin then merge k l1 (node_parent n2) b2 (l2 :: lb_st)
          else merge k l1 (node_parent n2) last_begin lb_st
        else
          if b1 <? last_begin then merge k (node_parent n1) l2 b1 (l1 :: lb_st)
          else merge k (node_parent n1) l2 last_begin lb_st
      else ret (lb_st, if (0 <? l1)%nat then l1 else l2)
  end.
(** The second loop: the segments of the stack are added, the one that begins first
    first. *)
Fixpoint unstack (cur_lb : nat) (lb_st : list nat) : TS nat :=
  match lb_st with
  | [] => ret cur_lb
  | next :: rest =>
      nc <- node cur_lb ;; nn <- node next ;;
      let cur_seg := node_seg nc in
      let next_seg := node_seg nn in
      c <- (if seg_begin next_seg <=? seg_end cur_seg then
              if seg_end cur_seg <? seg_end next_seg
              then insert_n_ones cur_lb (u32 (seg_end next_seg - seg_end cur_seg)) cur_lb
              else ret cur_lb
            else
              z <- insert_n_zeros cur_lb (u32 (seg_begin next_seg - seg_end cur_seg)) cur_lb ;;
              insert_n_ones z (u32 (seg_end next_seg - seg_begin next_seg)) cur_lb) ;;
      when (seg_sign next_seg) (update c set_seg_sign) ;;;
      unstack c rest
  end.
Definition merge_fuel (t : TagSet) (l1 l2 : nat) : nat :=
  let e l := match t !! l with Some n => Z.to_nat (seg_end (node_seg n)) | None => O end in
  S (e l1 + e l2).
Definition combine (l1 l2 : nat) : TS nat :=
  if (l1 =? 0)%nat then ret l2
  else if (l2 =? 0)%nat || (l1 =? l2)%nat then ret l1
  else
    let a := Nat.min l1 l2 in
    let b := Nat.max l1 l2 in
    fuel <- gets (fun t => merge_fuel t a b) ;;
    r <- merge fuel a b MAX_LB [] ;;
    unstack r.2 r.1.

Fixpoint combine_all (cur_lb : nat) (lbs : list nat) : TS nat :=
  match lbs with
  | [] => ret cur_lb
  | l :: r => c <- combine cur_lb l ;; combine_all c r
  end.
Fixpoint drop_roots (lbs : list nat) : list nat :=
  match lbs with
  | [] => []
  | l :: r => if (l =? ROOT)%nat then drop_roots r else lbs
  end.
Definition combine_n (lbs : list nat) (infer : bool) : TS nat :=
  match drop_roots lbs with
  | [] => ret ROOT
  | [cur_lb] => ret cur_lb
  | cur_lb :: rest =>
      o <- (if infer then infer_shape cur_lb (default ROOT (list.last lbs)) (Z.of_nat (length lbs))
            else ret None) ;;
      match o with
      | Some lb => ret lb
      | None => combine_all cur_lb rest
      end
  end.

(** ** Reading a label *)

Fixpoint find_loop (fuel : nat) (lb : nat) (last_begin : Z) (tag_list : list TagSeg)
  : TS (list TagSeg) :=
  match fuel with
  | O => fail OutOfFuel
  | S k =>
      if (0 <? lb)%nat then
        n <- node lb ;;
        lb <- (if node_and_op n then split_and_op lb else ret lb) ;;
        n <- node lb ;;
        let t := node_seg n in
        if seg_begin t <? last_begin
        then find_loop k (node_parent n) (seg_begin t) (t :: tag_list)
        else find_loop k (node_parent n) last_begin tag_list
      else ret tag_list
  end.
(** [tag_list] is kept in reverse. *)
Definition find (lb : nat) : TS (list TagSeg) :=
  fuel <- gets (fun t => S (match t !! lb with
                            | Some n => Z.to_nat (seg_end (node_seg n))
                            | None => O end)) ;;
  find_loop fuel lb MAX_LB [].
Definition get_num_nodes (t : TagSet) : nat := length t.
