(* ===== verification/TagSetProofs.v ===== *)
(** * The meaning of tag sets

    What the nodes of a tag set (TagSet.v) stand for, and that the operations of
    [tag_set.rs] keep it: joining two labels adds nothing, and loses nothing unless a
    variable of one label hides a longer variable of the other one. *)

From S2P Require Import Prelude TagSet.
Local Open Scope Z_scope.

Abbreviation nbegin n := (seg_begin (node_seg n)).
Abbreviation nend n := (seg_end (node_seg n)).

(** ** Well-formed tries

    [den x] is the set of offsets that the way from the root to [x] stands for, and
    [one x] says that [x] ends a run of ones. *)
Section Wf.
Context (t : TagSet) (den : nat -> Z -> Prop) (one : nat -> Prop).

Record one_ok (x : nat) (n p : TagNode) : Prop := mkOneOk {
  oo_node : t !! x = Some n;
  oo_parent : t !! node_parent n = Some p;
  oo_up : node_parent n = 0%nat \/ one (node_parent n);
  oo_begin : 0 <= nbegin n < nend n;
  oo_end : nend p < nend n;
  oo_den o : den x o <-> den (node_parent n) o \/ nbegin n <= o < nend n;
  oo_prefix o : o < nend p -> den x o -> den (node_parent n) o;
  oo_next : nbegin n <= nend p -> node_right p = x
}.
Record wf : Prop := mkWf {
  wf_root : exists n, t !! 0%nat = Some n /\ nend n = 0 /\ nbegin n = 0;
  wf_root_den o : ~ den 0 o;
  wf_end x n : t !! x = Some n -> 0 <= nend n < 2 ^ 32;
  wf_den x n o : t !! x = Some n -> den x o -> 0 <= o < nend n;
  wf_left x n : t !! x = Some n -> node_left n <> 0%nat ->
    ~ one (node_left n) /\ exists m, t !! node_left n = Some m /\ nbegin m = nend n /\ nend n < nend m /\
      forall o, den (node_left n) o <-> den x o;
  wf_left_inj x y n m : t !! x = Some n -> t !! y = Some m -> node_left n <> 0%nat ->
    node_left n = node_left m -> x = y;
  wf_right x n : t !! x = Some n -> node_right n <> 0%nat ->
    one (node_right n) /\ exists m, t !! node_right n = Some m /\ nend n < nend m /\
      nbegin m <= nend n /\ forall o, den (node_right n) o <-> den x o \/ nend n <= o < nend m;
  wf_right_inj x y n m : t !! x = Some n -> t !! y = Some m -> node_right n <> 0%nat ->
    node_right n = node_right m -> x = y;
  wf_one x : one x -> x <> 0%nat /\ exists n p, one_ok x n p;
  wf_child x : one x -> exists y m, t !! y = Some m /\ node_right m = x
}.
End Wf.

(** Labels: the zero label and the nodes that end a run of ones. *)
Definition is_label (one : nat -> Prop) (x : nat) : Prop := x = 0%nat \/ one x.

(** Notes do not matter. *)
Definition same_node (n m : TagNode) : Prop :=
  node_left m = node_left n /\ node_right m = node_right n /\ node_parent m = node_parent n /\
  nbegin m = nbegin n /\ nend m = nend n.

Section Facts.
Context (t : TagSet) (den : nat -> Z -> Prop) (one : nat -> Prop) (Hwf : wf t den one).

Lemma one_lookup x : one x -> exists n, t !! x = Some n.
Proof. intros Hx. destruct (wf_one _ _ _ Hwf x Hx) as (_ & n & p & []). eauto. Qed.
Lemma label_lookup x : is_label one x -> exists n, t !! x = Some n.
Proof.
  intros [->|Hx]; [|by apply one_lookup]. destruct (wf_root _ _ _ Hwf) as (n & E & _). eauto.
Qed.
Lemma wf_length : (0 < length t)%nat.
Proof. destruct (wf_root _ _ _ Hwf) as (n & E & _). by eapply lookup_lt_Some. Qed.
Lemma not_one_fresh : ~ one (length t).
Proof. intros (n & E)%one_lookup. apply lookup_lt_Some in E. lia. Qed.
Lemma one_nonzero x : one x -> x <> 0%nat.
Proof. intros Hx. by destruct (wf_one _ _ _ Hwf x Hx). Qed.
Lemma one_end_pos x n : one x -> t !! x = Some n -> 0 < nend n.
Proof.
  intros Hx E. destruct (wf_one _ _ _ Hwf x Hx) as (_ & n' & p & []). simplify_eq. lia.
Qed.
End Facts.

(** ** Growing *)

(** More nodes, with what was there kept. *)
Record grown (t : TagSet) (den : nat -> Z -> Prop) (one : nat -> Prop)
  (t' : TagSet) (den' : nat -> Z -> Prop) (one' : nat -> Prop) : Prop := mkGrown {
  gr_wf : wf t' den' one';
  gr_length : (length t <= length t')%nat;
  gr_node x n : t !! x = Some n -> exists n', t' !! x = Some n' /\ nend n' = nend n;
  gr_den x n o : t !! x = Some n -> den' x o <-> den x o;
  gr_one x : one x -> one' x
}.
Lemma grown_refl t den one : wf t den one -> grown t den one t den one.
Proof. intros. split; eauto. Qed.
Lemma grown_trans t den one t1 den1 one1 t2 den2 one2 :
  grown t den one t1 den1 one1 -> grown t1 den1 one1 t2 den2 one2 -> grown t den one t2 den2 one2.
Proof.
  intros [_ L1 N1 D1 O1] [W2 L2 N2 D2 O2]. split; [done|lia| | |eauto].
  - intros x n E. destruct (N1 x n E) as (n1 & E1 & <-). eauto.
  - intros x n o E. destruct (N1 x n E) as (n1 & E1 & _). rewrite (D2 x n1), (D1 x n) by done. done.
Qed.
Lemma grown_label t den one t' den' one' x :
  grown t den one t' den' one' -> is_label one x -> is_label one' x.
Proof. intros Hg [->|Hx]; [by left|right; by eapply gr_one]. Qed.

(** Where a segment begins changes only to the end [e] of the new node, and what is
    left out then belongs to the new node. *)
Definition begins_kept (t : TagSet) (one : nat -> Prop) (t' : TagSet) (d : Z -> Prop) (e : Z) : Prop :=
  forall q nq nq', one q -> t !! q = Some nq -> t' !! q = Some nq' ->
    nbegin nq' = nbegin nq \/
    (nbegin nq <= nbegin nq' /\ nbegin nq' = e /\ forall o, nbegin nq <= o < e -> d o).
Lemma begins_kept_refl t one d e : begins_kept t one t d e.
Proof. intros q n n' _ E1 E2. left. congruence. Qed.

Definition ends_le (t : TagSet) (M : Z) : Prop := forall x n, t !! x = Some n -> nend n <= M.

(** [x] is reached: its end and its offsets, with at most one new node. *)
Record landed (t : TagSet) (den : nat -> Z -> Prop) (one : nat -> Prop) (d : Z -> Prop) (e : Z)
  (x : nat) (t' : TagSet) (den' : nat -> Z -> Prop) (one' : nat -> Prop) : Prop := mkLanded {
  ld_grown : grown t den one t' den' one';
  ld_end : exists n, t' !! x = Some n /\ nend n = e;
  ld_den o : den' x o <-> d o;
  ld_room : (length t' <= length t + 1)%nat;
  ld_begins : begins_kept t one t' d e;
  ld_bound M : e <= M -> ends_le t M -> ends_le t' M
}.

(** ** A new node

    Both loops that walk down end by adding at most one node: below [cur], and above
    the child that [cur] had on this side. *)
Definition with_den (den : nat -> Z -> Prop) (x : nat) (d : Z -> Prop) (y : nat) (o : Z) : Prop :=
  if decide (y = x) then d o else den y o.
Lemma with_den_new den x d o : with_den den x d x o <-> d o.
Proof. unfold with_den. by rewrite decide_True. Qed.
Lemma with_den_old den x d y o : y <> x -> with_den den x d y o <-> den y o.
Proof. intros. unfold with_den. by rewrite decide_False. Qed.

Section AddRight.
Context (t t' : TagSet) (den : nat -> Z -> Prop) (one : nat -> Prop) (Hwf : wf t den one).
Context (cur last : nat) (nc nl : TagNode) (n : Z).
Context (Ec : t !! cur = Some nc) (El : t !! last = Some nl).
Context (Hn : 0 < n) (H32 : nend nc + n < 2 ^ 32).
Context (Hlast : is_label one last) (Hle : nend nl <= nend nc) (Heq : nend nl = nend nc -> last = cur).
Context (Hden : forall o, den cur o <-> den last o).
Context (Hnext : node_right nc <> 0%nat -> forall m, t !! node_right nc = Some m -> nend nc + n < nend m).

Definition added_right : Prop := forall y, t' !! y =
  if decide (y = length t) then
    Some (mkNode 0 (node_right nc) last false (mkSeg false (nend nc) (nend nc + n)))
  else if decide (y = cur) then Some (set_right (length t) nc)
  else if decide (y = node_right nc /\ y <> 0%nat) then
    (fun m => set_begin (nend nc + n) (set_parent (length t) m)) <$> t !! y
  else t !! y.
Definition right_den : nat -> Z -> Prop :=
  with_den den (length t) (fun o => den cur o \/ nend nc <= o < nend nc + n).
Definition right_one (y : nat) : Prop := one y \/ y = length t.

Context (Hlook : added_right).

Lemma right_den_old y m o : t !! y = Some m -> right_den y o <-> den y o.
Proof. intros E%lookup_lt_Some. apply with_den_old. lia. Qed.
Lemma right_den_new o : right_den (length t) o <-> den cur o \/ nend nc <= o < nend nc + n.
Proof. apply with_den_new. Qed.

(** An old node is still there, with the same end and the same children on the left. *)
Lemma right_old y m : t !! y = Some m -> exists m', t' !! y = Some m' /\ nend m' = nend m /\
  node_left m' = node_left m /\ (y <> cur -> node_right m' = node_right m) /\
  (~ (y = node_right nc /\ y <> 0%nat) -> nbegin m' = nbegin m /\ node_parent m' = node_parent m).
Proof.
  intros E. rewrite Hlook. pose proof (lookup_lt_Some _ _ _ E).
  rewrite decide_False by lia. destruct (decide (y = cur)) as [->|].
  { rewrite E in Ec. injection Ec as ->. by eexists. }
  case_decide; rewrite E; by eexists.
Qed.
(** What was not a node before is the new one. *)
Lemma right_back y m' : t' !! y = Some m' -> y = length t \/ exists m, t !! y = Some m.
Proof.
  rewrite Hlook. case_decide; [by left|]. case_decide; [subst; by right; exists nc|].
  case_decide; [|eauto]. destruct (t !! y); [eauto|done].
Qed.

Lemma cur_not_next : node_right nc <> 0%nat -> cur <> node_right nc.
Proof.
  intros H0 E. destruct (wf_right _ _ _ Hwf _ _ Ec H0) as (_ & m & Em & Hlt & _).
  rewrite <-E, Ec in Em. injection Em as <-. lia.
Qed.

Lemma new_lookup : t' !! length t =
  Some (mkNode 0 (node_right nc) last false (mkSeg false (nend nc) (nend nc + n))).
Proof. by rewrite Hlook, decide_True. Qed.

(** The new node, the node below it, and the others. *)
Lemma right_one_new : exists m p, one_ok t' right_den right_one (length t) m p.
Proof.
  destruct (right_old last nl El) as (nl' & El' & Een & _).
  exists (mkNode 0 (node_right nc) last false (mkSeg false (nend nc) (nend nc + n))), nl'.
  pose proof (wf_end _ _ _ Hwf _ _ Ec).
  split; cbn [node_parent node_seg seg_begin seg_end]; try lia; [apply new_lookup|done| | | |].
  - destruct Hlast; [by left|right; by left].
  - intros o. rewrite right_den_new, (right_den_old last nl), Hden by done. tauto.
  - intros o Ho. rewrite right_den_new, (right_den_old last nl), Hden by done.
    intros [?|?]; [done|lia].
  - intros Hc. assert (last = cur) as -> by (apply Heq; lia).
    assert (cur <> length t) by (apply lookup_lt_Some in Ec; lia).
    rewrite Hlook, decide_False, decide_True in El' by done. by injection El' as <-.
Qed.
Lemma right_one_next m : node_right nc <> 0%nat -> t !! node_right nc = Some m ->
  exists m' p, one_ok t' right_den right_one (node_right nc) m' p.
Proof.
  intros H0 Em. pose proof (Hnext H0 m Em) as Hlt.
  destruct (wf_right _ _ _ Hwf _ _ Ec H0) as (_ & m0 & Em0 & _ & _ & Hd). rewrite Em in Em0. injection Em0 as <-.
  pose proof (wf_end _ _ _ Hwf _ _ Ec).
  eexists _, _. split.
  - rewrite Hlook, decide_False by (apply lookup_lt_Some in Em; lia).
    rewrite decide_False by (by apply not_eq_sym, cur_not_next). rewrite decide_True, Em by done. reflexivity.
  - cbn. apply new_lookup.
  - cbn. right. by right.
  - cbn. lia.
  - cbn. lia.
  - intros o. cbn. rewrite right_den_new, (right_den_old _ m), Hd by done. intuition lia.
  - intros o. cbn. rewrite right_den_new, (right_den_old _ m), Hd by done. intros ? [?|?]; [by left|right; lia].
  - done.
Qed.
Lemma right_one_other x : one x -> x <> node_right nc ->
  exists m p, one_ok t' right_den right_one x m p.
Proof.
  intros Hx Hne. destruct (wf_one _ _ _ Hwf x Hx) as (H0 & m & p & [Em Ep Hu Hb He Hd Hp Hr]).
  destruct (right_old x m Em) as (m' & Em' & Een & _ & _ & [Hbe Hpa]); [tauto|].
  destruct (right_old _ p Ep) as (p' & Ep' & Een' & _ & Hri & _).
  exists m', p'. split; rewrite ?Hpa, ?Hbe, ?Een, ?Een'; try done.
  - destruct Hu; [by left|right; by left].
  - intros o. rewrite (right_den_old x m), (right_den_old _ p) by done. apply Hd.
  - intros o. rewrite (right_den_old x m), (right_den_old _ p) by done. apply Hp.
  - intros Hc. specialize (Hr Hc). destruct (decide (node_parent m = cur)) as [E|E]; [|by rewrite Hri].
    rewrite E, Ec in Ep. injection Ep as <-. by rewrite Hr in Hne.
Qed.

Lemma right_left_ok x m' : t' !! x = Some m' -> node_left m' <> 0%nat ->
  exists m, t !! x = Some m /\ node_left m' = node_left m /\ nend m' = nend m.
Proof.
  intros E' H0. destruct (right_back _ _ E') as [->|[m E]].
  { rewrite new_lookup in E'. by injection E' as <-. }
  destruct (right_old x m E) as (m1 & E1 & Een & Hle1 & _). rewrite E' in E1. injection E1 as <-. eauto.
Qed.
Lemma right_left x m' : t' !! x = Some m' -> node_left m' <> 0%nat ->
  ~ right_one (node_left m') /\ exists m, t' !! node_left m' = Some m /\ nbegin m = nend m' /\
    nend m' < nend m /\ forall o, right_den (node_left m') o <-> right_den x o.
Proof.
  intros E' H0. destruct (right_left_ok x m' E' H0) as (m & E & El1 & Een). rewrite El1 in *.
  destruct (wf_left _ _ _ Hwf x m E H0) as (Hno & m2 & E2 & Hb & Hlt & Hd).
  assert (Hnext2 : ~ (node_left m = node_right nc /\ node_left m <> 0%nat)).
  { intros [Hr _]. rewrite Hr in Hno, H0. by destruct (wf_right _ _ _ Hwf _ _ Ec H0). }
  destruct (right_old _ m2 E2) as (m3 & E3 & Een3 & _ & _ & Hb3). destruct (Hb3 Hnext2) as [Hb3' _]. split.
  - intros [?|Hx]; [done|]. apply lookup_lt_Some in E2. lia.
  - exists m3. split; [done|]. split; [congruence|]. split; [lia|]. intros o.
    rewrite (right_den_old _ m2), (right_den_old x m) by done. apply Hd.
Qed.
Lemma right_right x m' : t' !! x = Some m' -> node_right m' <> 0%nat ->
  right_one (node_right m') /\ exists m, t' !! node_right m' = Some m /\ nend m' < nend m /\
    nbegin m <= nend m' /\ forall o, right_den (node_right m') o <-> right_den x o \/ nend m' <= o < nend m.
Proof.
  intros E' H0. pose proof (wf_end _ _ _ Hwf _ _ Ec). destruct (decide (x = length t)) as [->|HL].
  { rewrite new_lookup in E'. injection E' as <-. cbn in H0 |- *.
    destruct (wf_right _ _ _ Hwf _ _ Ec H0) as (Ho & m & Em & Hlt & Hbe & Hd). split; [by left|].
    pose proof (Hnext H0 m Em). assert (node_right nc <> length t) by (apply lookup_lt_Some in Em; lia).
    pose proof (cur_not_next H0). eexists.
    split; [by rewrite Hlook, decide_False, decide_False, decide_True, Em by done|]. cbn.
    split; [lia|]. split; [lia|]. intros o.
    rewrite (right_den_old _ m), right_den_new, Hd by done. intuition lia. }
  destruct (right_back _ _ E') as [?|[m E]]; [done|].
  destruct (right_old x m E) as (m1 & E1 & Een & _ & Hri & _). rewrite E' in E1. injection E1 as <-.
  destruct (decide (x = cur)) as [->|Hx].
  { rewrite Ec in E. injection E as <-. rewrite Hlook, decide_False, decide_True in E' by done.
    injection E' as <-. cbn. split; [by right|]. eexists. split; [apply new_lookup|]. cbn. split; [lia|].
    split; [lia|]. intros o. rewrite right_den_new, (right_den_old cur nc) by done. done. }
  rewrite Hri in * by done. destruct (wf_right _ _ _ Hwf _ _ E H0) as (Ho & m2 & E2 & Hlt & Hbe & Hd).
  split; [by left|]. destruct (right_old _ m2 E2) as (m3 & E3 & Een3 & _ & _ & Hb3). exists m3. split; [done|].
  destruct Hb3 as [Hb3 _]; [intros [Hc _]; by apply Hx, (wf_right_inj _ _ _ Hwf _ _ _ _ E Ec)|].
  split; [lia|]. split; [lia|]. intros o.
  rewrite (right_den_old _ m2), (right_den_old x m), Een, Een3 by done. apply Hd.
Qed.
Lemma right_inj x y m1 m2 : t' !! x = Some m1 -> t' !! y = Some m2 -> node_right m1 <> 0%nat ->
  node_right m1 = node_right m2 -> x = y.
Proof.
  assert (Hold : forall y m', t' !! y = Some m' -> y <> length t -> exists m, t !! y = Some m /\
    node_right m' = if decide (y = cur) then length t else node_right m).
  { intros z m' E' Hz. destruct (right_back _ _ E') as [?|[m E]]; [done|]. exists m. split; [done|].
    destruct (right_old z m E) as (m3 & E3 & _ & _ & Hri & _). rewrite E' in E3. injection E3 as <-.
    case_decide; [|by apply Hri]. subst. rewrite Hlook, decide_False, decide_True in E' by done. by injection E' as <-. }
  assert (Hlt : forall y m, t !! y = Some m -> node_right m <> 0%nat -> (node_right m < length t)%nat).
  { intros z m E Hz. destruct (wf_right _ _ _ Hwf _ _ E Hz) as (_ & m3 & E3 & _). by eapply lookup_lt_Some. }
  intros E1 E2 H0 Hl. destruct (decide (x = length t)) as [->|Hx], (decide (y = length t)) as [->|Hy]; try done.
  - destruct (Hold y m2 E2 Hy) as (m & E & F). rewrite new_lookup in E1. injection E1 as <-. cbn in H0, Hl.
    rewrite F in Hl. case_decide; [pose proof (Hlt _ _ Ec H0); lia|].
    exfalso. by eapply H, (wf_right_inj _ _ _ Hwf _ _ _ _ E Ec); rewrite <-Hl.
  - destruct (Hold x m1 E1 Hx) as (m & E & F). rewrite new_lookup in E2. injection E2 as <-. cbn in H0, Hl.
    rewrite Hl in H0. rewrite F in Hl. case_decide; [pose proof (Hlt _ _ Ec H0); lia|].
    exfalso. by eapply H, (wf_right_inj _ _ _ Hwf _ _ _ _ E Ec); rewrite Hl.
  - destruct (Hold x m1 E1 Hx) as (k1 & F1 & G1), (Hold y m2 E2 Hy) as (k2 & F2 & G2).
    rewrite G1 in H0, Hl. rewrite G2 in Hl. repeat case_decide; subst; try done.
    + pose proof (Hlt _ _ F1 H0). lia.
    + pose proof (Hlt _ _ F2 ltac:(congruence)). lia.
    + by eapply (wf_right_inj _ _ _ Hwf).
Qed.

Lemma added_right_wf : wf t' right_den right_one.
Proof.
  pose proof (wf_length _ _ _ Hwf) as HL. destruct (wf_root _ _ _ Hwf) as (n0 & E0 & Z0 & B0).
  destruct (right_old 0 n0 E0) as (n0' & E0' & Z0' & _ & _ & Hb0). split.
  - exists n0'. split; [done|]. destruct Hb0; [tauto|]. split; congruence.
  - intros o. rewrite (right_den_old 0 n0) by done. apply (wf_root_den _ _ _ Hwf).
  - intros x m' E'. destruct (right_back _ _ E') as [->|[m E]].
    + rewrite new_lookup in E'. injection E' as <-. cbn. pose proof (wf_end _ _ _ Hwf _ _ Ec). lia.
    + destruct (right_old x m E) as (m1 & E1 & Een & _). rewrite E' in E1. injection E1 as <-.
      rewrite Een. by eapply wf_end.
  - intros x m' o E'. destruct (right_back _ _ E') as [->|[m E]].
    + rewrite new_lookup in E'. injection E' as <-. cbn. rewrite right_den_new.
      pose proof (wf_end _ _ _ Hwf _ _ Ec). intros [?%(wf_den _ _ _ Hwf _ _ _ Ec)|?]; lia.
    + destruct (right_old x m E) as (m1 & E1 & Een & _). rewrite E' in E1. injection E1 as <-.
      rewrite Een, (right_den_old x m) by done. by eapply wf_den.
  - apply right_left.
  - intros x y m1 m2 E1 E2 H0 Hl. destruct (right_left_ok x m1 E1 H0) as (n1 & F1 & L1 & _).
    rewrite Hl in H0. destruct (right_left_ok y m2 E2 H0) as (n2 & F2 & L2 & _).
    eapply (wf_left_inj _ _ _ Hwf); [exact F1|exact F2|congruence|congruence].
  - apply right_right.
  - apply right_inj.
  - intros x [Hx| ->]; [|split; [lia|apply right_one_new]]. split; [by eapply one_nonzero|].
    destruct (decide (x = node_right nc)) as [->|Hne]; [|by apply right_one_other].
    destruct (one_lookup _ _ _ Hwf _ Hx) as [m Em]. eapply right_one_next; [|exact Em].
    by eapply one_nonzero.
  - intros x [Hx| ->]; [|by eexists cur, _; split; [rewrite Hlook, decide_False, decide_True by (apply lookup_lt_Some in Ec; done || lia)|]].
    destruct (wf_child _ _ _ Hwf x Hx) as (y & m & Ey & Hr). destruct (decide (y = cur)) as [->|Hy].
    + rewrite Ec in Ey. injection Ey as <-. eexists _, _. split; [exact new_lookup|done].
    + destruct (right_old y m Ey) as (m' & Ey' & _ & _ & Hri & _). exists y, m'. split; [done|]. by rewrite Hri.
Qed.
Lemma landed_right : (length t' <= length t + 1)%nat ->
  landed t den one (fun o => den cur o \/ nend nc <= o < nend nc + n) (nend nc + n) (length t) t'
    right_den right_one.
Proof.
  intros Hlen. split.
  - split; [apply added_right_wf|pose proof (lookup_lt_Some _ _ _ new_lookup); lia| | |by left].
    + intros x m E. destruct (right_old x m E) as (m' & ? & ? & _). eauto.
    + intros x m o E. by apply (right_den_old x m).
  - eexists. split; [apply new_lookup|done].
  - intros o. apply right_den_new.
  - done.
  - intros q nq nq' Hq Eq Eq'. destruct (right_old q nq Eq) as (m & E & _ & _ & _ & Hb).
    rewrite Eq' in E. injection E as <-.
    destruct (decide (q = node_right nc /\ q <> 0%nat)) as [[-> H0]|Hne]; [|left; by apply Hb]. right.
    pose proof (Hnext H0 nq Eq) as Hlt.
    destruct (wf_right _ _ _ Hwf _ _ Ec H0) as (_ & m & Em & _ & Hbe & Hd). rewrite Eq in Em. injection Em as <-.
    pose proof (cur_not_next H0) as Hcur.
    assert (HL : node_right nc <> length t) by (apply lookup_lt_Some in Eq; lia).
    rewrite Hlook, decide_False, decide_False, decide_True, Eq in Eq' by done. injection Eq' as <-. cbn.
    split; [lia|]. split; [done|]. intros o Ho.
    destruct (wf_one _ _ _ Hwf _ Hq) as (_ & m & p & [Em _ _ _ _ Hd' _ _]). rewrite Eq in Em. injection Em as <-.
    assert (den (node_right nc) o) as [?|?]%Hd by (apply Hd'; lia); [by left|right; lia].
  - intros M HM Hend y m' E'. destruct (right_back _ _ E') as [->|[m E]].
    + rewrite new_lookup in E'. by injection E' as <-.
    + destruct (right_old y m E) as (m1 & E1 & Een & _). rewrite E' in E1. injection E1 as <-.
      rewrite Een. by eapply Hend.
Qed.
End AddRight.

Section AddLeft.
Context (t t' : TagSet) (den : nat -> Z -> Prop) (one : nat -> Prop) (Hwf : wf t den one).
Context (cur last : nat) (nc : TagNode) (n : Z).
Context (Ec : t !! cur = Some nc) (Hn : 0 < n) (H32 : nend nc + n < 2 ^ 32).
Context (Hnext : node_left nc <> 0%nat -> forall m, t !! node_left nc = Some m -> nend nc + n < nend m).

Definition added_left : Prop := forall y, t' !! y =
  if decide (y = length t) then
    Some (mkNode (node_left nc) 0 last false (mkSeg false (nend nc) (nend nc + n)))
  else if decide (y = cur) then Some (set_left (length t) nc)
  else if decide (y = node_left nc /\ y <> 0%nat) then set_begin (nend nc + n) <$> t !! y
  else t !! y.
Definition left_den : nat -> Z -> Prop := with_den den (length t) (den cur).

Context (Hlook : added_left).

Lemma left_den_old y m o : t !! y = Some m -> left_den y o <-> den y o.
Proof. intros E%lookup_lt_Some. apply with_den_old. lia. Qed.
Lemma left_den_new o : left_den (length t) o <-> den cur o.
Proof. apply with_den_new. Qed.
Lemma left_new : t' !! length t =
  Some (mkNode (node_left nc) 0 last false (mkSeg false (nend nc) (nend nc + n))).
Proof. by rewrite Hlook, decide_True. Qed.

Lemma left_old y m : t !! y = Some m -> exists m', t' !! y = Some m' /\ nend m' = nend m /\
  node_right m' = node_right m /\ node_parent m' = node_parent m /\
  (y <> cur -> node_left m' = node_left m) /\
  (~ (y = node_left nc /\ y <> 0%nat) -> nbegin m' = nbegin m).
Proof.
  intros E. rewrite Hlook. pose proof (lookup_lt_Some _ _ _ E).
  rewrite decide_False by lia. destruct (decide (y = cur)) as [->|].
  { rewrite E in Ec. injection Ec as ->. by eexists. }
  case_decide; rewrite E; by eexists.
Qed.
Lemma left_back y m' : t' !! y = Some m' -> y = length t \/ exists m, t !! y = Some m.
Proof.
  rewrite Hlook. case_decide; [by left|]. case_decide; [subst; by right; exists nc|].
  case_decide; [|eauto]. destruct (t !! y); [eauto|done].
Qed.

Lemma left_right_ok x m' : t' !! x = Some m' -> node_right m' <> 0%nat ->
  exists m, t !! x = Some m /\ node_right m' = node_right m /\ nend m' = nend m.
Proof.
  intros E' H0. destruct (left_back _ _ E') as [->|[m E]].
  { rewrite left_new in E'. by injection E' as <-. }
  destruct (left_old x m E) as (m1 & E1 & Een & Hri & _). rewrite E' in E1. injection E1 as <-. eauto.
Qed.
Lemma left_right x m' : t' !! x = Some m' -> node_right m' <> 0%nat ->
  one (node_right m') /\ exists m, t' !! node_right m' = Some m /\ nend m' < nend m /\
    nbegin m <= nend m' /\ forall o, left_den (node_right m') o <-> left_den x o \/ nend m' <= o < nend m.
Proof.
  intros E' H0. destruct (left_right_ok x m' E' H0) as (m & E & Hri & Een). rewrite Hri in *.
  destruct (wf_right _ _ _ Hwf _ _ E H0) as (Ho & m2 & E2 & Hlt & Hbe & Hd).
  split; [done|]. destruct (left_old _ m2 E2) as (m3 & E3 & Een3 & _ & _ & _ & Hb3). exists m3. split; [done|].
  rewrite Een, Een3, Hb3.
  - split; [done|]. split; [done|]. intros o. rewrite (left_den_old _ m2), (left_den_old x m) by done. apply Hd.
  - intros [Hc H1]. rewrite Hc in Ho, H1. by destruct (wf_left _ _ _ Hwf _ _ Ec H1).
Qed.
Lemma left_left x m' : t' !! x = Some m' -> node_left m' <> 0%nat ->
  ~ one (node_left m') /\ exists m, t' !! node_left m' = Some m /\ nbegin m = nend m' /\
    nend m' < nend m /\ forall o, left_den (node_left m') o <-> left_den x o.
Proof.
  intros E' H0. destruct (decide (x = length t)) as [->|HL].
  { rewrite left_new in E'. injection E' as <-. cbn in H0 |- *.
    destruct (wf_left _ _ _ Hwf _ _ Ec H0) as (Hno & m & Em & Hb & Hlt & Hd). split; [done|].
    pose proof (Hnext H0 m Em). assert (node_left nc <> cur) by (intros E; rewrite E, Ec in Em; injection Em as <-; lia).
    assert (node_left nc <> length t) by (apply lookup_lt_Some in Em; lia).
    eexists. split; [by rewrite Hlook, decide_False, decide_False, decide_True, Em by done|]. cbn.
    split; [done|]. split; [lia|]. intros o. by rewrite (left_den_old _ m), left_den_new, Hd by done. }
  destruct (left_back _ _ E') as [?|[m E]]; [done|].
  destruct (left_old x m E) as (m1 & E1 & Een & _ & _ & Hle & _). rewrite E' in E1. injection E1 as <-.
  destruct (decide (x = cur)) as [->|Hx].
  { rewrite Ec in E. injection E as <-. rewrite Hlook, decide_False, decide_True in E' by done.
    injection E' as <-. cbn. split; [by apply (not_one_fresh _ _ _ Hwf)|]. eexists. split; [apply left_new|].
    cbn. split; [done|]. split; [lia|]. intros o. by rewrite left_den_new, (left_den_old cur nc) by done. }
  rewrite Hle in * by done. destruct (wf_left _ _ _ Hwf _ _ E H0) as (Hno & m2 & E2 & Hb & Hlt & Hd).
  split; [done|]. destruct (left_old _ m2 E2) as (m3 & E3 & Een3 & _ & _ & _ & Hb3).
  exists m3. split; [done|]. rewrite Een, Een3, Hb3.
  - split; [done|]. split; [done|]. intros o. by rewrite (left_den_old _ m2), (left_den_old x m) by done.
  - intros [Hc _]. apply Hx. by eapply (wf_left_inj _ _ _ Hwf).
Qed.
Lemma left_inj x y m1 m2 : t' !! x = Some m1 -> t' !! y = Some m2 -> node_left m1 <> 0%nat ->
  node_left m1 = node_left m2 -> x = y.
Proof.
  assert (Hold : forall y m', t' !! y = Some m' -> y <> length t -> exists m, t !! y = Some m /\
    node_left m' = if decide (y = cur) then length t else node_left m).
  { intros z m' E' Hz. destruct (left_back _ _ E') as [?|[m E]]; [done|]. exists m. split; [done|].
    destruct (left_old z m E) as (m3 & E3 & _ & _ & _ & Hle & _). rewrite E' in E3. injection E3 as <-.
    case_decide; [|by apply Hle]. subst. rewrite Hlook, decide_False, decide_True in E' by done. by injection E' as <-. }
  assert (Hlt : forall y m, t !! y = Some m -> node_left m <> 0%nat -> (node_left m < length t)%nat).
  { intros z m E Hz. destruct (wf_left _ _ _ Hwf _ _ E Hz) as (_ & m3 & E3 & _). by eapply lookup_lt_Some. }
  intros E1 E2 H0 Hl. destruct (decide (x = length t)) as [->|Hx], (decide (y = length t)) as [->|Hy]; try done.
  - destruct (Hold y m2 E2 Hy) as (m & E & F). rewrite left_new in E1. injection E1 as <-. cbn in H0, Hl.
    rewrite F in Hl. case_decide; [pose proof (Hlt _ _ Ec H0); lia|].
    exfalso. by eapply H, (wf_left_inj _ _ _ Hwf _ _ _ _ E Ec); rewrite <-Hl.
  - destruct (Hold x m1 E1 Hx) as (m & E & F). rewrite left_new in E2. injection E2 as <-. cbn in H0, Hl.
    rewrite Hl in H0. rewrite F in Hl. case_decide; [pose proof (Hlt _ _ Ec H0); lia|].
    exfalso. by eapply H, (wf_left_inj _ _ _ Hwf _ _ _ _ E Ec); rewrite Hl.
  - destruct (Hold x m1 E1 Hx) as (k1 & F1 & G1), (Hold y m2 E2 Hy) as (k2 & F2 & G2).
    rewrite G1 in H0, Hl. rewrite G2 in Hl. repeat case_decide; subst; try done.
    + pose proof (Hlt _ _ F1 H0). lia.
    + pose proof (Hlt _ _ F2 ltac:(congruence)). lia.
    + by eapply (wf_left_inj _ _ _ Hwf).
Qed.

Lemma added_left_wf : wf t' left_den one.
Proof.
  pose proof (wf_length _ _ _ Hwf) as HL. destruct (wf_root _ _ _ Hwf) as (n0 & E0 & Z0 & B0).
  destruct (left_old 0 n0 E0) as (n0' & E0' & Z0' & _ & _ & _ & Hb0). pose proof (wf_end _ _ _ Hwf _ _ Ec). split.
  - exists n0'. split; [done|]. split; [congruence|]. rewrite Hb0; [done|tauto].
  - intros o. rewrite (left_den_old 0 n0) by done. apply (wf_root_den _ _ _ Hwf).
  - intros x m' E'. destruct (left_back _ _ E') as [->|[m E]].
    + rewrite left_new in E'. injection E' as <-. cbn. lia.
    + destruct (left_old x m E) as (m1 & E1 & Een & _). rewrite E' in E1. injection E1 as <-.
      rewrite Een. by eapply wf_end.
  - intros x m' o E'. destruct (left_back _ _ E') as [->|[m E]].
    + rewrite left_new in E'. injection E' as <-. cbn. rewrite left_den_new.
      intros ?%(wf_den _ _ _ Hwf _ _ _ Ec); lia.
    + destruct (left_old x m E) as (m1 & E1 & Een & _). rewrite E' in E1. injection E1 as <-.
      rewrite Een, (left_den_old x m) by done. by eapply wf_den.
  - apply left_left.
  - apply left_inj.
  - apply left_right.
  - intros x y m1 m2 E1 E2 H0 Hl. destruct (left_right_ok x m1 E1 H0) as (n1 & F1 & L1 & _).
    rewrite Hl in H0. destruct (left_right_ok y m2 E2 H0) as (n2 & F2 & L2 & _).
    eapply (wf_right_inj _ _ _ Hwf); [exact F1|exact F2|congruence|congruence].
  - intros x Hx. split; [by eapply one_nonzero|].
    destruct (wf_one _ _ _ Hwf x Hx) as (_ & m & p & [Em Ep Hu Hb He Hd Hp Hr]).
    destruct (left_old x m Em) as (m' & Em' & Een & _ & Hpa & _ & Hbe).
    destruct (left_old _ p Ep) as (p' & Ep' & Een' & Hri & _).
    assert (Hbe' : nbegin m' = nbegin m).
    { apply Hbe. intros [-> H0]. by destruct (wf_left _ _ _ Hwf _ _ Ec H0). }
    exists m', p'. split; rewrite ?Hpa, ?Hbe', ?Een, ?Een', ?Hri; try done.
    + intros o. rewrite (left_den_old x m), (left_den_old _ p) by done. apply Hd.
    + intros o. rewrite (left_den_old x m), (left_den_old _ p) by done. apply Hp.
  - intros x Hx. destruct (wf_child _ _ _ Hwf x Hx) as (y & m & Ey & Hr).
    destruct (left_old y m Ey) as (m' & Ey' & _ & Hri & _). exists y, m'. split; [done|congruence].
Qed.
Lemma landed_left : (length t' <= length t + 1)%nat ->
  landed t den one (den cur) (nend nc + n) (length t) t' left_den one.
Proof.
  intros Hlen. split.
  - split; [apply added_left_wf|pose proof (lookup_lt_Some _ _ _ left_new); lia| | |done].
    + intros x m E. destruct (left_old x m E) as (m' & ? & ? & _). eauto.
    + intros x m o E. by apply (left_den_old x m).
  - eexists. split; [apply left_new|done].
  - intros o. apply left_den_new.
  - done.
  - intros q nq nq' Hq Eq Eq'. left. destruct (left_old q nq Eq) as (m & E & _ & _ & _ & _ & Hb).
    rewrite Eq' in E. injection E as <-. apply Hb. intros [-> H0].
    by destruct (wf_left _ _ _ Hwf _ _ Ec H0).
  - intros M HM Hend y m' E'. destruct (left_back _ _ E') as [->|[m E]].
    + rewrite left_new in E'. by injection E' as <-.
    + destruct (left_old y m E) as (m1 & E1 & Een & _). rewrite E' in E1. injection E1 as <-.
      rewrite Een. by eapply Hend.
Qed.
End AddLeft.

(** ** The walks *)

Lemma new_node_Ok p b e (t : TagSet) : Z.of_nat (length t) < MAX_LB ->
  new_node p b e t = Ok (length t, t ++ [TagNode_new p b e]).
Proof. intros H. unfold new_node, bind, gets, modify, ret. by rewrite (proj2 (Z.ltb_lt _ _) H). Qed.
Lemma update_Ok x f (t : TagSet) n : t !! x = Some n -> update x f t = Ok (tt, <[ x := f n ]> t).
Proof. unfold update. by intros ->. Qed.
Lemma node_Ok x (t : TagSet) n : t !! x = Some n -> node x t = Ok (n, t).
Proof. unfold node. by intros ->. Qed.

(** Lookups after the updates of one step. *)
Lemma lookup_snoc {A} (t : list A) v y : (t ++ [v]) !! y = if decide (y = length t) then Some v else t !! y.
Proof.
  case_decide; [subst; by apply list_lookup_middle|]. destruct (decide (y < length t)%nat) as [?|?].
  - by rewrite lookup_app_l by done.
  - rewrite lookup_app_r by lia. rewrite lookup_ge_None_2 by (cbn; lia).
    symmetry. apply lookup_ge_None_2. lia.
Qed.
Lemma lookup_update {A} (t : list A) x v y n : t !! x = Some n ->
  <[ x := v ]> t !! y = if decide (y = x) then Some v else t !! y.
Proof.
  intros E. case_decide; [subst|by apply list_lookup_insert_ne].
  apply list_lookup_insert_eq. by eapply lookup_lt_Some.
Qed.

(** The ways in which the loops end. *)
Lemma ones_leaf (t : TagSet) cur last nc n : t !! cur = Some nc -> node_right nc = 0%nat ->
  added_right t (<[ cur := set_right (length t) nc ]> (t ++ [TagNode_new last (nend nc) (nend nc + n)]))
    cur last nc n.
Proof.
  intros Ec H0 y. assert (length t <> cur) by (apply lookup_lt_Some in Ec; lia).
  rewrite (lookup_update _ _ _ _ nc) by (by rewrite lookup_snoc, decide_False).
  rewrite lookup_snoc, H0. repeat case_decide; try done; [congruence|tauto].
Qed.
Lemma ones_split (t : TagSet) cur last nc nx n : t !! cur = Some nc -> node_right nc <> 0%nat ->
  t !! node_right nc = Some nx -> cur <> node_right nc ->
  exists t', (update cur (set_right (length t)) ;;; update (length t) (set_right (node_right nc)) ;;;
       update (node_right nc) (set_parent (length t)) ;;;
       update (node_right nc) (set_begin (nend nc + n)) ;;; ret (length t))
      (t ++ [TagNode_new last (nend nc) (nend nc + n)]) = Ok (length t, t') /\
    length t' = (length t + 1)%nat /\ added_right t t' cur last nc n.
Proof.
  intros Ec H0 Ex Hne. pose proof (lookup_lt_Some _ _ _ Ec). pose proof (lookup_lt_Some _ _ _ Ex).
  set (t0 := t ++ _).
  assert (E0 : t0 !! cur = Some nc) by (unfold t0; rewrite lookup_snoc, decide_False by lia; done).
  rewrite (bind_Ok _ _ _ _ _ (update_Ok _ _ _ _ E0)). set (t1 := <[cur:=_]> t0).
  assert (E1 : t1 !! length t = Some (TagNode_new last (nend nc) (nend nc + n))).
  { unfold t1, t0. rewrite (lookup_update _ _ _ _ nc), decide_False by (done || lia). by rewrite lookup_snoc, decide_True. }
  rewrite (bind_Ok _ _ _ _ _ (update_Ok _ _ _ _ E1)). set (t2 := <[length t:=_]> t1).
  assert (E2 : t2 !! node_right nc = Some nx).
  { unfold t2. rewrite (lookup_update _ _ _ _ _ E1), decide_False by lia. unfold t1.
    rewrite (lookup_update _ _ _ _ _ E0), decide_False by done. unfold t0. by rewrite lookup_snoc, decide_False by lia. }
  rewrite (bind_Ok _ _ _ _ _ (update_Ok _ _ _ _ E2)). set (t3 := <[node_right nc:=_]> t2).
  assert (E3 : t3 !! node_right nc = Some (set_parent (length t) nx)).
  { unfold t3. by rewrite (lookup_update _ _ _ _ _ E2), decide_True. }
  rewrite (bind_Ok _ _ _ _ _ (update_Ok _ _ _ _ E3)). eexists. split; [reflexivity|].
  split; [unfold t3, t2, t1, t0; by rewrite !length_insert, length_app|]. intros y.
  rewrite (lookup_update _ _ _ _ _ E3). unfold t3. rewrite (lookup_update _ _ _ _ _ E2).
  unfold t2. rewrite (lookup_update _ _ _ _ _ E1). unfold t1. rewrite (lookup_update _ _ _ _ _ E0).
  unfold t0. rewrite lookup_snoc. repeat case_decide; subst; rewrite ?Ex; try done; try lia; tauto.
Qed.

Lemma ones_loop_spec fuel : forall t den one cur last nc nl n, wf t den one ->
  t !! cur = Some nc -> t !! last = Some nl -> 0 <= n -> nend nc + n < 2 ^ 32 -> is_label one last ->
  nend nl <= nend nc -> (nend nl = nend nc -> last = cur) -> (forall o, den cur o <-> den last o) ->
  (Z.to_nat n < fuel)%nat -> Z.of_nat (length t) < MAX_LB ->
  let d := fun o => den cur o \/ nend nc <= o < nend nc + n in
  exists x t' den' one', ones_loop fuel cur n last t = Ok (x, t') /\
    landed t den one d (nend nc + n) x t' den' one' /\ (0 < n -> one' x) /\ (n = 0 -> x = cur).
Proof.
  induction fuel as [|fuel IH]; intros t den one cur last nc nl n Hwf Ec El Hn H32 Hlast Hle Heq Hden Hf Hroom d;
    [lia|]. cbn [ones_loop]. pose proof (wf_end _ _ _ Hwf _ _ Ec) as He.
  destruct (Z.eqb_spec n 0) as [->|Hn0].
  { exists cur, t, den, one. split; [done|]. split; [|split; [lia|done]].
    split; [by apply grown_refl|exists nc; split; [done|lia]| |lia|apply begins_kept_refl|by intros].
    intros o. unfold d. intuition lia. }
  rewrite (bind_Ok _ _ _ _ _ (node_Ok _ _ _ Ec)). cbv zeta.
  destruct (Nat.eqb_spec (node_right nc) 0) as [H0|H0].
  { rewrite u32_small by lia. rewrite (bind_Ok _ _ _ _ _ (new_node_Ok _ _ _ _ Hroom)).
    assert (Ec' : (t ++ [TagNode_new last (nend nc) (nend nc + n)]) !! cur = Some nc)
      by (rewrite lookup_snoc, decide_False by (apply lookup_lt_Some in Ec; lia); done).
    rewrite (bind_Ok _ _ _ _ _ (update_Ok _ _ _ _ Ec')). eexists _, _, _, _. split; [reflexivity|].
    split; [eapply (landed_right t _ den one Hwf cur last nc nl n); eauto; [lia|done|by apply ones_leaf|rewrite length_insert, length_app; cbn; lia]|].
    split; [by right|lia]. }
  destruct (wf_right _ _ _ Hwf _ _ Ec H0) as (Ho & m & Em & Hlt & Hbe & Hd).
  pose proof (wf_end _ _ _ Hwf _ _ Em) as Hem.
  rewrite (bind_Ok _ _ _ _ _ (node_Ok _ _ _ Em)). rewrite !u32_small by lia.
  destruct (Z.ltb_spec n (nend m - nend nc)) as [Hs|Hs].
  { rewrite (bind_Ok _ _ _ _ _ (new_node_Ok _ _ _ _ Hroom)).
    destruct (ones_split t cur last nc m n) as (t' & -> & Hlen & Hlook); [done..|intros Hc; rewrite <-Hc, Ec in Em; injection Em as <-; lia|].
    exists (length t), t', (right_den t den cur nc n), (right_one t one).
    split; [reflexivity|]. split; [|split; [by right|lia]]. eapply (landed_right t _ den one Hwf cur last nc nl n); eauto; [lia|intros _ m' Em'; rewrite Em in Em'; injection Em' as <-; lia|lia]. }
  rewrite u32_small by lia.
  destruct (IH t den one (node_right nc) (node_right nc) m m (n - (nend m - nend nc)))
    as (x & t' & den' & one' & E & [G (nx & Ex & Hex) D R B M0] & H1 & H2); try done; try lia; [by right|].
  exists x, t', den', one'. split; [done|]. replace (nend m + (n - (nend m - nend nc))) with (nend nc + n) in * by lia.
  assert (Hdd : forall o, (den (node_right nc) o \/ nend m <= o < nend nc + n) <-> d o).
  { intros o. rewrite Hd. unfold d. intuition lia. }
  split; [split|split; [|lia]]; try done.
  - exists nx. done.
  - intros o. by rewrite D, Hdd.
  - intros q nq nq' Hq Eq Eq'. destruct (B q nq nq' Hq Eq Eq') as [?|(? & ? & Hin)]; [by left|right].
    split; [done|]. split; [done|]. intros o Hr. by apply Hdd, Hin.
  - intros _. destruct (decide (n - (nend m - nend nc) = 0)) as [Hz|]; [|apply H1; lia].
    rewrite (H2 Hz). by apply (gr_one _ _ _ _ _ _ G).
Qed.

Lemma zeros_leaf (t : TagSet) cur last nc n : t !! cur = Some nc -> node_left nc = 0%nat ->
  added_left t (<[ cur := set_left (length t) nc ]> (t ++ [TagNode_new last (nend nc) (nend nc + n)]))
    cur last nc n.
Proof.
  intros Ec H0 y. assert (length t <> cur) by (apply lookup_lt_Some in Ec; lia).
  rewrite (lookup_update _ _ _ _ nc) by (by rewrite lookup_snoc, decide_False).
  rewrite lookup_snoc, H0. repeat case_decide; try done; [congruence|tauto].
Qed.
Lemma zeros_split (t : TagSet) cur last nc nx n : t !! cur = Some nc -> node_left nc <> 0%nat ->
  t !! node_left nc = Some nx -> cur <> node_left nc ->
  exists t', (update cur (set_left (length t)) ;;; update (length t) (set_left (node_left nc)) ;;;
       update (node_left nc) (set_begin (nend nc + n)) ;;; ret (length t))
      (t ++ [TagNode_new last (nend nc) (nend nc + n)]) = Ok (length t, t') /\
    length t' = (length t + 1)%nat /\ added_left t t' cur last nc n.
Proof.
  intros Ec H0 Ex Hne. pose proof (lookup_lt_Some _ _ _ Ec). pose proof (lookup_lt_Some _ _ _ Ex).
  set (t0 := t ++ _).
  assert (E0 : t0 !! cur = Some nc) by (unfold t0; rewrite lookup_snoc, decide_False by lia; done).
  rewrite (bind_Ok _ _ _ _ _ (update_Ok _ _ _ _ E0)). set (t1 := <[cur:=_]> t0).
  assert (E1 : t1 !! length t = Some (TagNode_new last (nend nc) (nend nc + n))).
  { unfold t1, t0. rewrite (lookup_update _ _ _ _ nc), decide_False by (done || lia). by rewrite lookup_snoc, decide_True. }
  rewrite (bind_Ok _ _ _ _ _ (update_Ok _ _ _ _ E1)). set (t2 := <[length t:=_]> t1).
  assert (E2 : t2 !! node_left nc = Some nx).
  { unfold t2. rewrite (lookup_update _ _ _ _ _ E1), decide_False by lia. unfold t1.
    rewrite (lookup_update _ _ _ _ _ E0), decide_False by done. unfold t0. by rewrite lookup_snoc, decide_False by lia. }
  rewrite (bind_Ok _ _ _ _ _ (update_Ok _ _ _ _ E2)). eexists. split; [reflexivity|].
  split; [unfold t2, t1, t0; by rewrite !length_insert, length_app|]. intros y.
  rewrite (lookup_update _ _ _ _ _ E2). unfold t2. rewrite (lookup_update _ _ _ _ _ E1). unfold t1.
  rewrite (lookup_update _ _ _ _ _ E0). unfold t0. rewrite lookup_snoc.
  repeat case_decide; subst; rewrite ?Ex; try done; try lia; tauto.
Qed.

Lemma zeros_loop_spec fuel : forall t den one cur last nc n, wf t den one ->
  t !! cur = Some nc -> 0 <= n -> nend nc + n < 2 ^ 32 -> (Z.to_nat n < fuel)%nat ->
  Z.of_nat (length t) < MAX_LB ->
  exists x t' den' one', zeros_loop fuel cur n last t = Ok (x, t') /\
    landed t den one (den cur) (nend nc + n) x t' den' one'.
Proof.
  induction fuel as [|fuel IH]; intros t den one cur last nc n Hwf Ec Hn H32 Hf Hroom; [lia|].
  cbn [zeros_loop]. pose proof (wf_end _ _ _ Hwf _ _ Ec) as He.
  destruct (Z.eqb_spec n 0) as [->|Hn0].
  { exists cur, t, den, one. split; [done|].
    split; [by apply grown_refl|exists nc; split; [done|lia]|done|lia|apply begins_kept_refl|by intros]. }
  rewrite (bind_Ok _ _ _ _ _ (node_Ok _ _ _ Ec)). cbv zeta.
  assert (Hm : exists m, t !! node_left nc = Some m).
  { destruct (decide (node_left nc = 0%nat)) as [->|H0].
    - destruct (wf_root _ _ _ Hwf) as (m & ? & _). eauto.
    - destruct (wf_left _ _ _ Hwf _ _ Ec H0) as (_ & m & ? & _). eauto. }
  destruct Hm as [m Em]. rewrite (bind_Ok _ _ _ _ _ (node_Ok _ _ _ Em)).
  destruct (Nat.eqb_spec (node_left nc) 0) as [H0|H0].
  { rewrite u32_small by lia. rewrite (bind_Ok _ _ _ _ _ (new_node_Ok _ _ _ _ Hroom)).
    assert (Ec' : (t ++ [TagNode_new last (nend nc) (nend nc + n)]) !! cur = Some nc)
      by (rewrite lookup_snoc, decide_False by (apply lookup_lt_Some in Ec; lia); done).
    rewrite (bind_Ok _ _ _ _ _ (update_Ok _ _ _ _ Ec')). eexists _, _, _, _. split; [reflexivity|].
    eapply (landed_left t _ den one Hwf cur last nc n); eauto;
      [lia|done|by apply zeros_leaf|rewrite length_insert, length_app; cbn; lia]. }
  destruct (wf_left _ _ _ Hwf _ _ Ec H0) as (_ & m0 & Em0 & Hbe & Hlt & Hd). rewrite Em in Em0. injection Em0 as <-.
  pose proof (wf_end _ _ _ Hwf _ _ Em) as Hem.
  unfold get_seg_size. rewrite Hbe, (u32_small (nend m - nend nc)) by lia.
  destruct (Z.ltb_spec n (nend m - nend nc)) as [Hs|Hs].
  { rewrite u32_small by lia. rewrite (bind_Ok _ _ _ _ _ (new_node_Ok _ _ _ _ Hroom)).
    destruct (zeros_split t cur last nc m n) as (t' & -> & Hlen & Hlook);
      [done..|intros Hc; rewrite <-Hc, Ec in Em; injection Em as <-; lia|].
    eexists _, _, _, _. split; [reflexivity|]. eapply (landed_left t _ den one Hwf cur last nc n); eauto;
      [lia|intros _ m' Em'; rewrite Em in Em'; injection Em' as <-; lia|lia]. }
  rewrite u32_small by lia.
  destruct (IH t den one (node_left nc) last m (n - (nend m - nend nc)))
    as (x & t' & den' & one' & E & [G (nx & Ex & Hex) D R B M0]); try done; try lia.
  exists x, t', den', one'. split; [done|]. replace (nend m + (n - (nend m - nend nc))) with (nend nc + n) in * by lia.
  split; try done.
  - exists nx. done.
  - intros o. by rewrite D, Hd.
  - intros q nq nq' Hq Eq Eq'. destruct (B q nq nq' Hq Eq Eq') as [?|(? & ? & Hin)]; [by left|right].
    split; [done|]. split; [done|]. intros o Hr. by apply Hd, Hin.
Qed.

(** ** Adding a segment *)

Definition begins_rise (t : TagSet) (one : nat -> Prop) (t' : TagSet) (d : Z -> Prop) : Prop :=
  forall q nq nq', one q -> t !! q = Some nq -> t' !! q = Some nq' ->
    nbegin nq <= nbegin nq' /\ forall o, nbegin nq <= o < nbegin nq' -> d o.
Lemma begins_kept_rise t one t' d e : begins_kept t one t' d e -> begins_rise t one t' d.
Proof.
  intros H q nq nq' Hq E E'. destruct (H q nq nq' Hq E E') as [E2|(H1 & E2 & H2)]; rewrite E2 in *; [split; [lia|intros; lia]|by split].
Qed.
Lemma begins_rise_trans t den one t1 den1 one1 t2 (d1 d2 : Z -> Prop) :
  grown t den one t1 den1 one1 -> begins_rise t one t1 d1 -> begins_rise t1 one1 t2 d2 ->
  (forall o, d1 o -> d2 o) -> begins_rise t one t2 d2.
Proof.
  intros Hg H1 H2 Hd q nq nq' Hq E E'. destruct (gr_node _ _ _ _ _ _ Hg q nq E) as (n1 & E1 & _).
  destruct (H1 q nq n1 Hq E E1) as [Hle1 Ho1].
  destruct (H2 q n1 nq' (gr_one _ _ _ _ _ _ Hg q Hq) E1 E') as [Hle2 Ho2]. split; [lia|].
  intros o Ho. destruct (decide (o < nbegin n1)); [apply Hd, Ho1; lia|apply Ho2; lia].
Qed.

(** The label [x] for the offsets [d], which end at [e]; [k] nodes may be new. *)
Record extended (t : TagSet) (den : nat -> Z -> Prop) (one : nat -> Prop) (d : Z -> Prop) (e : Z) (k : nat)
  (x : nat) (t' : TagSet) (den' : nat -> Z -> Prop) (one' : nat -> Prop) : Prop := mkExtended {
  ex_grown : grown t den one t' den' one';
  ex_label : is_label one' x;
  ex_end : exists n, t' !! x = Some n /\ nend n = e;
  ex_den o : den' x o <-> d o;
  ex_room : (length t' <= length t + k)%nat;
  ex_begins : begins_rise t one t' d;
  ex_bound M : e <= M -> ends_le t M -> ends_le t' M
}.

Section Extend.
Context (t : TagSet) (den : nat -> Z -> Prop) (one : nat -> Prop) (Hwf : wf t den one).
Context (cur : nat) (nc : TagNode) (Ec : t !! cur = Some nc) (Hcur : is_label one cur).

Lemma insert_n_ones_spec n : 0 <= n -> nend nc + n < 2 ^ 32 -> Z.of_nat (length t) < MAX_LB ->
  exists x t' den' one', insert_n_ones cur n cur t = Ok (x, t') /\ (0 < n -> one' x) /\
    extended t den one (fun o => den cur o \/ nend nc <= o < nend nc + n) (nend nc + n) 1 x t' den' one'.
Proof.
  intros Hn H32 Hroom. unfold insert_n_ones.
  destruct (ones_loop_spec (S (Z.to_nat n)) t den one cur cur nc nc n) as
    (x & t' & den' & one' & E & [G X D R B M0] & H1 & H2); try done; [lia|].
  exists x, t', den', one'. split; [done|]. split; [done|]. split; try done; [|by eapply begins_kept_rise].
  destruct (decide (n = 0)) as [Hz|]; [rewrite (H2 Hz); by eapply grown_label|right; apply H1; lia].
Qed.

(** Zeros up to [b], then ones up to [b + n]. *)
Lemma insert_gap_spec b n : nend nc <= b -> 0 < n -> b + n < 2 ^ 32 -> Z.of_nat (length t) + 1 < MAX_LB ->
  exists x t' den' one',
    (z <- insert_n_zeros cur (b - nend nc) cur ;; insert_n_ones z n cur) t = Ok (x, t') /\ one' x /\
    extended t den one (fun o => den cur o \/ b <= o < b + n) (b + n) 2 x t' den' one'.
Proof.
  intros Hb Hn H32 Hroom. unfold insert_n_zeros, insert_n_ones.
  destruct (zeros_loop_spec (S (Z.to_nat (b - nend nc))) t den one cur cur nc (b - nend nc))
    as (z & t1 & den1 & one1 & E1 & [G1 (nz & Ez & Hz) D1 R1 B1 M1]); try done; try lia.
  rewrite (bind_Ok _ _ _ _ _ E1). destruct (gr_node _ _ _ _ _ _ G1 cur nc Ec) as (nc1 & Ec1 & Hc1).
  assert (Hzc : nend nc1 = nend nz -> cur = z).
  { rewrite Hc1, Hz. intros Heq. replace (b - nend nc) with 0 in E1 by lia. by injection E1. }
  destruct (ones_loop_spec (S (Z.to_nat n)) t1 den1 one1 z cur nz nc1 n)
    as (x & t2 & den2 & one2 & E2 & [G2 (nx & Ex & Hx) D2 R2 B2 M2] & H1 & H2); try done; try lia.
  - apply (gr_wf _ _ _ _ _ _ G1).
  - by eapply grown_label.
  - intros o. by rewrite D1, (gr_den _ _ _ _ _ _ G1 cur nc).
  - assert (Hd : forall o, (den1 z o \/ nend nz <= o < nend nz + n) <-> (den cur o \/ b <= o < b + n)).
    { intros o. rewrite D1, Hz. replace (nend nc + (b - nend nc)) with b by lia. done. }
    exists x, t2, den2, one2. split; [done|]. split; [by apply H1|]. split.
    + by eapply grown_trans.
    + right. by apply H1.
    + exists nx. split; [done|]. lia.
    + intros o. by rewrite D2, Hd.
    + lia.
    + eapply begins_rise_trans; [exact G1|eapply begins_kept_rise, B1| |].
      * intros q nq nq' Hq Eq Eq'. destruct (begins_kept_rise _ _ _ _ _ B2 q nq nq' Hq Eq Eq') as [? Ho].
        split; [done|]. intros o Hr. by apply Hd, Ho.
      * by left.
    + intros M HM Hend. apply M2; [lia|]. apply M1; [lia|done].
Qed.
End Extend.
