(* ===== verification/TagSetJoin.v ===== *)
(** * Joining labels of a tag set

    The two loops of [combine] of [tag_set.rs], [combine_n], the inference of shapes
    and [find], on the tries of TagSetProofs.v. *)

From Stdlib Require Import Sorted.
From S2P Require Import Prelude TagSet TagSetProofs.
Local Open Scope Z_scope.

(** ** Changes of one node *)

(** [n'] is [n] with other notes, or with another beginning that fits its offsets. *)
Definition fits (t : TagSet) (den : nat -> Z -> Prop) (one : nat -> Prop) (x : nat) (n n' : TagNode) : Prop :=
  nbegin n' = nbegin n \/
  (one x /\ 0 <= nbegin n' < nend n /\
   (forall o, den x o <-> den (node_parent n) o \/ nbegin n' <= o < nend n) /\
   (forall p, t !! node_parent n = Some p -> nbegin n' <= nend p -> node_right p = x) /\
   (forall y m, t !! y = Some m -> node_right m = x -> nbegin n' <= nend m)).

Section Replace.
Context (t : TagSet) (den : nat -> Z -> Prop) (one : nat -> Prop) (Hwf : wf t den one).
Context (x : nat) (n n' : TagNode) (Ex : t !! x = Some n).
Context (Hl : node_left n' = node_left n) (Hr : node_right n' = node_right n).
Context (Hp : node_parent n' = node_parent n) (He : nend n' = nend n) (Hb : fits t den one x n n').

Lemma replaced y m : t !! y = Some m -> exists m', <[ x := n' ]> t !! y = Some m' /\
  node_left m' = node_left m /\ node_right m' = node_right m /\ node_parent m' = node_parent m /\
  nend m' = nend m /\ (y <> x -> m' = m) /\ (y = x -> m' = n').
Proof.
  intros E. rewrite (lookup_update _ _ _ _ _ Ex). case_decide; [subst|].
  - rewrite Ex in E. injection E as <-. exists n'. naive_solver.
  - exists m. naive_solver.
Qed.
Lemma replaced_back y m' : <[ x := n' ]> t !! y = Some m' -> exists m, t !! y = Some m.
Proof. rewrite (lookup_update _ _ _ _ _ Ex). case_decide; [subst|]; eauto. Qed.

Lemma replaced_one y : one y -> exists m p, one_ok (<[ x := n' ]> t) den one y m p.
Proof.
  intros Hy. destruct (wf_one _ _ _ Hwf y Hy) as (_ & m & p & [Em Ep Hu Hbe Hen Hd Hpr Hnx]).
  destruct (replaced y m Em) as (m' & Em' & _ & _ & Hp' & He' & Hne & Heq).
  destruct (replaced _ p Ep) as (p' & Ep' & _ & Hr' & _ & Hep & _).
  exists m', p'. destruct (decide (y = x)) as [->|Hyx].
  - rewrite (Heq eq_refl) in *. rewrite Ex in Em. injection Em as <-.
    destruct Hb as [Hsame|(_ & Hb1 & Hb2 & Hb3 & _)];
      [split; rewrite ?Hp', ?Hsame, ?He', ?Hep, ?Hr'; done|].
    split; rewrite ?Hp', ?He', ?Hep, ?Hr'; try done. by apply Hb3.
  - rewrite (Hne Hyx) in *. split; rewrite ?Hep, ?Hr'; try done.
Qed.

Lemma wf_replace : wf (<[ x := n' ]> t) den one.
Proof.
  split.
  - destruct (wf_root _ _ _ Hwf) as (n0 & E0 & Z0 & B0). destruct (replaced 0 n0 E0) as (m & Em & _ & _ & _ & Hen & Hne & Heq).
    exists m. split; [done|]. split; [congruence|]. destruct (decide (0%nat = x)) as [Hx|Hx]; [|by rewrite (Hne Hx)].
    rewrite (Heq Hx). subst x. rewrite E0 in Ex. injection Ex as <-.
    destruct Hb as [->|(Ho & _)]; [done|by apply (one_nonzero _ _ _ Hwf) in Ho].
  - apply (wf_root_den _ _ _ Hwf).
  - intros y m' E'. destruct (replaced_back _ _ E') as [m E]. destruct (replaced y m E) as (m1 & E1 & _ & _ & _ & Hen & _).
    rewrite E' in E1. injection E1 as <-. rewrite Hen. by eapply wf_end.
  - intros y m' o E'. destruct (replaced_back _ _ E') as [m E]. destruct (replaced y m E) as (m1 & E1 & _ & _ & _ & Hen & _).
    rewrite E' in E1. injection E1 as <-. rewrite Hen. by eapply wf_den.
  - intros y m' E'. destruct (replaced_back _ _ E') as [m E]. destruct (replaced y m E) as (m1 & E1 & Hle & _ & _ & Hen & _).
    rewrite E' in E1. injection E1 as <-. rewrite Hle, Hen. intros H0.
    destruct (wf_left _ _ _ Hwf y m E H0) as (Hno & m2 & E2 & Hb2 & Hlt & Hd). split; [done|].
    destruct (replaced _ m2 E2) as (m3 & E3 & _ & _ & _ & Hen3 & Hne & Heq). exists m3. rewrite Hen3.
    split; [done|]. split; [|done]. destruct (decide (node_left m = x)) as [Hx|Hx]; [|by rewrite (Hne Hx)].
    rewrite (Heq Hx). rewrite Hx, Ex in E2. injection E2 as <-.
    destruct Hb as [->|(Ho & _)]; [done|]. by rewrite Hx in Hno.
  - intros y z m1 m2 E1 E2 H0 Hlr. destruct (replaced_back _ _ E1) as [k1 F1]. destruct (replaced_back _ _ E2) as [k2 F2].
    destruct (replaced y k1 F1) as (h1 & G1 & L1 & _). rewrite E1 in G1. injection G1 as <-.
    destruct (replaced z k2 F2) as (h2 & G2 & L2 & _). rewrite E2 in G2. injection G2 as <-.
    eapply (wf_left_inj _ _ _ Hwf); [exact F1|exact F2|congruence|congruence].
  - intros y m' E'. destruct (replaced_back _ _ E') as [m E]. destruct (replaced y m E) as (m1 & E1 & _ & Hri & _ & Hen & _).
    rewrite E' in E1. injection E1 as <-. rewrite Hri, Hen. intros H0.
    destruct (wf_right _ _ _ Hwf y m E H0) as (Ho & m2 & E2 & Hlt & Hb2 & Hd). split; [done|].
    destruct (replaced _ m2 E2) as (m3 & E3 & _ & _ & _ & Hen3 & Hne & Heq). exists m3. rewrite Hen3.
    split; [done|]. split; [done|]. split; [|done].
    destruct (decide (node_right m = x)) as [Hx|Hx]; [|by rewrite (Hne Hx)].
    rewrite (Heq Hx). rewrite Hx, Ex in E2. injection E2 as <-.
    destruct Hb as [->|(_ & _ & _ & _ & Hb4)]; [done|by eapply Hb4].
  - intros y z m1 m2 E1 E2 H0 Hlr. destruct (replaced_back _ _ E1) as [k1 F1]. destruct (replaced_back _ _ E2) as [k2 F2].
    destruct (replaced y k1 F1) as (h1 & G1 & _ & L1 & _). rewrite E1 in G1. injection G1 as <-.
    destruct (replaced z k2 F2) as (h2 & G2 & _ & L2 & _). rewrite E2 in G2. injection G2 as <-.
    eapply (wf_right_inj _ _ _ Hwf); [exact F1|exact F2|congruence|congruence].
  - intros y Hy. split; [by eapply one_nonzero|by apply replaced_one].
  - intros y Hy. destruct (wf_child _ _ _ Hwf y Hy) as (z & m & Ez & Hrz).
    destruct (replaced z m Ez) as (m' & Ez' & _ & Hr' & _). exists z, m'. split; [done|congruence].
Qed.
Lemma grown_replace : grown t den one (<[ x := n' ]> t) den one.
Proof.
  split; [apply wf_replace|by rewrite length_insert| |done|done].
  intros y m E. destruct (replaced y m E) as (m' & ? & _ & _ & _ & ? & _). eauto.
Qed.
End Replace.

(** ** Labels as sets *)

Definition begin_of (t : TagSet) (x : nat) : Z := match t !! x with Some n => nbegin n | None => 0 end.
Definition end_of (t : TagSet) (x : nat) : Z := match t !! x with Some n => nend n | None => 0 end.

(** The nodes of a label, last one first. *)
Fixpoint chain (fuel : nat) (t : TagSet) (lb : nat) : list nat :=
  match fuel with
  | O => []
  | S k => if (lb =? 0)%nat then [] else
           match t !! lb with Some n => lb :: chain k t (node_parent n) | None => [] end
  end.
Definition chain_of (t : TagSet) (lb : nat) : list nat := chain (Z.to_nat (end_of t lb)) t lb.
Definition segment (b e : Z) : gset Z := list_to_set (seqZ b (e - b)).
(** The offsets of a label. *)
Definition offsets (t : TagSet) (lb : nat) : gset Z :=
  ⋃ ((fun y => segment (begin_of t y) (end_of t y)) <$> chain_of t lb).

Lemma elem_of_segment o b e : o ∈ segment b e <-> b <= o < e.
Proof. unfold segment. rewrite elem_of_list_to_set, elem_of_seqZ. lia. Qed.
Lemma elem_of_offsets t lb o :
  o ∈ offsets t lb <-> exists y, y ∈ chain_of t lb /\ begin_of t y <= o < end_of t y.
Proof.
  unfold offsets. rewrite elem_of_union_list. split.
  - intros (X & (y & -> & Hy)%list_elem_of_fmap & Ho%elem_of_segment). eauto.
  - intros (y & Hy & Ho). exists (segment (begin_of t y) (end_of t y)). split; [|by apply elem_of_segment].
    apply list_elem_of_fmap. eauto.
Qed.

Section Chains.
Context (t : TagSet) (den : nat -> Z -> Prop) (one : nat -> Prop) (Hwf : wf t den one).

Lemma begin_of_eq x n : t !! x = Some n -> begin_of t x = nbegin n.
Proof. unfold begin_of. by intros ->. Qed.
Lemma end_of_eq x n : t !! x = Some n -> end_of t x = nend n.
Proof. unfold end_of. by intros ->. Qed.
Lemma end_of_root : end_of t 0 = 0.
Proof. destruct (wf_root _ _ _ Hwf) as (n & E & Hn & _). by rewrite (end_of_eq 0 n). Qed.
Lemma begin_of_root : begin_of t 0 = 0.
Proof. destruct (wf_root _ _ _ Hwf) as (n & E & _ & Hn). by rewrite (begin_of_eq 0 n). Qed.
Lemma end_of_nonneg x : 0 <= end_of t x.
Proof.
  unfold end_of. destruct (t !! x) as [n|] eqn:E; [|done]. apply (wf_end _ _ _ Hwf) in E. lia.
Qed.

(** One step up: what a label is, by its parent. *)
Lemma up x : one x -> exists p, (exists n, t !! x = Some n /\ node_parent n = p) /\ is_label one p /\
  0 <= begin_of t x < end_of t x /\ 0 <= end_of t p < end_of t x /\
  (forall o, den x o <-> den p o \/ begin_of t x <= o < end_of t x) /\
  (forall o, o < end_of t p -> den x o -> den p o).
Proof.
  intros Hx. destruct (wf_one _ _ _ Hwf x Hx) as (_ & n & p & [Ex Ep Hu Hb He Hd Hpr _]).
  exists (node_parent n). rewrite (begin_of_eq x n), (end_of_eq x n), (end_of_eq _ p) by done.
  pose proof (wf_end _ _ _ Hwf _ _ Ep). split; [eauto|]. split; [done|]. split; [done|]. split; [lia|]. done.
Qed.

Lemma den_chain fuel : forall x o, is_label one x -> (Z.to_nat (end_of t x) <= fuel)%nat ->
  den x o <-> exists y, y ∈ chain fuel t x /\ begin_of t y <= o < end_of t y.
Proof.
  induction fuel as [|fuel IH]; intros x o Hx Hf; cbn [chain].
  - destruct Hx as [->|Hx].
    + split; [by intros []%(wf_root_den _ _ _ Hwf)|]. by intros (y & []%elem_of_nil & _).
    + destruct (up x Hx) as (p & _ & _ & ? & _). lia.
  - destruct Hx as [->|Hx].
    + cbn. split; [by intros []%(wf_root_den _ _ _ Hwf)|]. by intros (y & []%elem_of_nil & _).
    + destruct (up x Hx) as (p & (n & Ex & Hp) & Hpl & Hb & He & Hd & _).
      rewrite (proj2 (Nat.eqb_neq x 0)) by (by eapply one_nonzero). rewrite Ex, Hp, Hd, (IH p) by (done || lia). split.
      * intros [(y & Hy & Ho)|Ho]; [exists y; split; [by right|done]|exists x; split; [by left|done]].
      * intros (y & [->|Hy]%elem_of_cons & Ho); [by right|left; eauto].
Qed.
Lemma offsets_den x o : is_label one x -> o ∈ offsets t x <-> den x o.
Proof. intros Hx. by rewrite elem_of_offsets, <-(den_chain _ x o Hx (le_n _)). Qed.

Lemma chain_sub fuel : forall x y o, is_label one x -> y ∈ chain fuel t x -> one y /\ (den y o -> den x o).
Proof.
  induction fuel as [|fuel IH]; intros x y o Hx; cbn [chain]; [by intros []%elem_of_nil|].
  destruct Hx as [->|Hx]; [by intros []%elem_of_nil|].
  destruct (up x Hx) as (p & (n & Ex & Hp) & Hpl & Hb & He & Hd & _).
  rewrite (proj2 (Nat.eqb_neq x 0)) by (by eapply one_nonzero). rewrite Ex, Hp.
  intros [->|Hy]%elem_of_cons; [done|]. destruct (IH p y o Hpl Hy) as [H1 H2]. split; [done|].
  intros ?. apply Hd. left. by apply H2.
Qed.
End Chains.

(** A label is zero or ends a run of ones, that is, it is a child on the right. *)
Definition labelled (t : TagSet) (x : nat) : Prop := x = 0%nat \/ exists y m, t !! y = Some m /\ node_right m = x.
Lemma labelled_iff t den one x : wf t den one -> labelled t x <-> is_label one x.
Proof.
  intros Hwf. split.
  - intros [->|(y & m & E & Hr)]; [by left|]. destruct (decide (x = 0%nat)) as [->|H0]; [by left|right].
    rewrite <-Hr in H0 |- *. by destruct (wf_right _ _ _ Hwf y m E H0).
  - intros [->|Hx]; [by left|right]. by apply (wf_child _ _ _ Hwf).
Qed.
Lemma wf_new : wf TagSet_new (fun _ _ => False) (fun _ => False).
Proof.
  assert (H1 : forall x n, TagSet_new !! x = Some n -> x = 0%nat /\ n = TagNode_new ROOT 0 0).
  { intros [|x] n; cbn; [by intros [= <-]|done]. }
  split; try done.
  - by eexists.
  - by intros o [].
  - intros x n [-> ->]%H1. cbn. lia.
  - by intros x n [-> ->]%H1.
  - by intros x y n m [-> ->]%H1.
  - by intros x n [-> ->]%H1.
  - by intros x y n m [-> ->]%H1.
Qed.
(** A trie, for some reading of its nodes. *)
Definition trie (t : TagSet) : Prop := exists den one, wf t den one.
Lemma trie_new : trie TagSet_new.
Proof. eexists _, _. apply wf_new. Qed.
(** What growing means for labels. *)
Definition labels_kept (t t' : TagSet) : Prop :=
  trie t' /\ forall l, labelled t l -> labelled t' l /\ offsets t' l = offsets t l.
Lemma grown_kept t den one t' den' one' : wf t den one -> grown t den one t' den' one' -> labels_kept t t'.
Proof.
  intros Hwf G. pose proof (gr_wf _ _ _ _ _ _ G) as Hwf'. split; [by exists den', one'|]. intros l Hl.
  apply (labelled_iff _ _ _ _ Hwf) in Hl. pose proof (grown_label _ _ _ _ _ _ _ G Hl) as Hl'.
  split; [by apply (labelled_iff _ _ _ _ Hwf')|]. apply set_eq. intros o.
  rewrite (offsets_den _ _ _ Hwf' _ _ Hl'), (offsets_den _ _ _ Hwf _ _ Hl).
  destruct (label_lookup _ _ _ Hwf l Hl) as [n E]. by apply (gr_den _ _ _ _ _ _ G l n).
Qed.

(** ** The first loop of [combine] *)

Section Merge.
Context (t : TagSet) (den : nat -> Z -> Prop) (one : nat -> Prop) (Hwf : wf t den one).
Context (D : Z -> Prop).
Abbreviation B := (begin_of t).
Abbreviation E := (end_of t).

Definition part (x : nat) : Prop := forall o, den x o -> D o.
(** The way to [x] goes through [y]. *)
Definition through (x y : nat) : Prop := E y <= E x /\ forall o, o < E y -> den x o -> den y o.

(** The loop: what is on the stack is sorted and came by [l1] or [l2], and the label
    that is to be looked at next does not begin too late. *)
Record merging (l1 l2 : nat) (last : Z) (st : list nat) : Prop := mkMerging {
  mg_l1 : is_label one l1 /\ part l1;
  mg_l2 : is_label one l2 /\ part l2;
  mg_stack p : p ∈ st -> one p /\ part p /\ (through p l1 \/ through p l2);
  mg_sorted : StronglySorted (fun p q => B p < B q) st;
  mg_last p : p ∈ st -> last <= B p;
  mg_phase : st = [] \/ B l2 <= last \/ (l1 <> 0%nat /\ B l1 < last);
  mg_head : match st with [] => True | p :: _ => B p = last end
}.
(** Its result: the stack, to be added to a label that has all offsets from where the
    first segment begins. *)
Record merged (st : list nat) (base : nat) : Prop := mkMerged {
  md_base : is_label one base /\ part base;
  md_stack p : p ∈ st -> one p /\ part p;
  md_sorted : StronglySorted (fun p q => B p < B q) st;
  md_head : match st with [] => True | p :: _ => forall o, B p <= o < E base -> den base o end
}.

Lemma through_up x y p : one y -> (exists n, t !! y = Some n /\ node_parent n = p) -> through x y -> through x p.
Proof.
  intros Hy (n & En & Hp) [Hle Hxy]. destruct (up _ _ _ Hwf y Hy) as (q & (n' & En' & Hq) & _ & _ & He & _ & Hpr).
  rewrite En in En'. injection En' as <-. rewrite Hp in Hq. subst q. split; [lia|]. intros o Ho Hd.
  apply Hpr; [done|]. apply Hxy; [lia|done].
Qed.
Lemma through_parent y p : one y -> (exists n, t !! y = Some n /\ node_parent n = p) -> through y p.
Proof. intros Hy Hp. eapply through_up; [exact Hy|exact Hp|]. by split. Qed.

(** A step on either side, with and without a push. *)
Lemma part_parent x p : one x -> part x -> (exists n, t !! x = Some n /\ node_parent n = p) ->
  is_label one p /\ part p.
Proof.
  intros Hx Hpx (n & En & Hp). destruct (up _ _ _ Hwf x Hx) as (q & (n' & En' & Hq) & Hl & _ & _ & Hd & _).
  rewrite En in En'. injection En' as <-. rewrite Hp in Hq. subst q. split; [done|].
  intros o Ho. apply Hpx, Hd. by left.
Qed.
Lemma push_sorted last st x : StronglySorted (fun p q => B p < B q) st ->
  (forall p, p ∈ st -> last <= B p) -> B x < last -> StronglySorted (fun p q => B p < B q) (x :: st).
Proof. intros Hs Hl Hx. constructor; [done|]. apply list.Forall_forall. intros p Hp. specialize (Hl p Hp). lia. Qed.

Lemma step_1 l1 l2 last st p : l1 <> 0%nat -> (exists n, t !! l1 = Some n /\ node_parent n = p) ->
  B l2 <= B l1 -> merging l1 l2 last st ->
  if decide (B l1 < last) then merging p l2 (B l1) (l1 :: st) else merging p l2 last st.
Proof.
  intros H0 Hp Hb [[L1 P1] M2 Hst Hso Hla Hph Hhd]. assert (O1 : one l1) by (by destruct L1).
  case_decide as Hlt.
  - split; try done; [by eapply part_parent| |by eapply push_sorted| |].
    + intros q [->|Hq]%elem_of_cons; [split; [done|]; split; [done|]; left; by apply through_parent|].
      destruct (Hst q Hq) as (? & ? & [?|?]); (split; [done|]; split; [done|]); [left; by apply (through_up _ l1 p)|by right].
    + intros q [->|Hq]%elem_of_cons; [lia|]. specialize (Hla q Hq). lia.
    + right. by left.
  - split; try done; [by eapply part_parent| |].
    + intros q Hq. destruct (Hst q Hq) as (? & ? & [?|?]); (split; [done|]; split; [done|]); [left; by apply (through_up _ l1 p)|by right].
    + destruct Hph as [?|[?|[_ ?]]]; [by left|right; by left|lia].
Qed.
Lemma step_2 l1 l2 last st p : l1 <> 0%nat -> l2 <> 0%nat -> (exists n, t !! l2 = Some n /\ node_parent n = p) ->
  B l1 < B l2 -> merging l1 l2 last st ->
  if decide (B l2 < last) then merging l1 p (B l2) (l2 :: st) else merging l1 p last st.
Proof.
  intros H1 H0 Hp Hb [M1 [L2 P2] Hst Hso Hla Hph Hhd]. assert (O2 : one l2) by (by destruct L2).
  case_decide as Hlt.
  - split; try done; [by eapply part_parent| |by eapply push_sorted| |].
    + intros q [->|Hq]%elem_of_cons; [split; [done|]; split; [done|]; right; by apply through_parent|].
      destruct (Hst q Hq) as (? & ? & [?|?]); (split; [done|]; split; [done|]); [by left|right; by apply (through_up _ l2 p)].
    + intros q [->|Hq]%elem_of_cons; [lia|]. specialize (Hla q Hq). lia.
    + right. right. by split.
  - split; try done; [by eapply part_parent| |].
    + intros q Hq. destruct (Hst q Hq) as (? & ? & [?|?]); (split; [done|]; split; [done|]); [by left|right; by apply (through_up _ l2 p)].
    + destruct Hph as [?|[?|[_ ?]]]; [by left|right; right; split; [done|lia]|right; right; by split].
Qed.
Lemma step_0 l1 l2 last st : (0 <? l1)%nat && negb (l1 =? l2)%nat = false -> merging l1 l2 last st ->
  merged st (if (0 <? l1)%nat then l1 else l2).
Proof.
  intros Hstop [M1 M2 Hst Hso Hla Hph Hhd]. split; [by destruct (0 <? l1)%nat| |done|].
  { intros p Hp. by destruct (Hst p Hp) as (? & ? & _). }
  destruct st as [|p st]; [done|]. intros o [Hb Ho].
  destruct (Hst p ltac:(by left)) as (Op & _ & Hth).
  destruct (up _ _ _ Hwf p Op) as (q & _ & _ & Hbp & _ & Hd & _).
  destruct (Nat.ltb_spec 0 l1) as [Hlt|Hge]; cbn in Hstop.
  - apply negb_false_iff, Nat.eqb_eq in Hstop as <-.
    destruct Hth as [[? Hth]|[? Hth]]; (apply Hth; [done|apply Hd; right; lia]).
  - destruct Hph as [?|[Hl2|[? _]]]; [done| |lia]. destruct M2 as [[->|O2] _].
    { rewrite (end_of_root _ _ _ Hwf) in Ho. lia. }
    destruct (up _ _ _ Hwf l2 O2) as (r & _ & _ & _ & _ & Hd2 & _). apply Hd2. right. lia.
Qed.

Lemma merge_spec fuel : forall l1 l2 last st, merging l1 l2 last st ->
  (Z.to_nat (E l1) + Z.to_nat (E l2) < fuel)%nat ->
  exists st' base, merge fuel l1 l2 last st t = Ok ((st', base), t) /\ merged st' base /\
    (length st' <= length st + Z.to_nat (E l1) + Z.to_nat (E l2))%nat.
Proof.
  induction fuel as [|fuel IH]; intros l1 l2 last st Hm Hf; [lia|]. cbn [merge].
  destruct ((0 <? l1)%nat && negb (l1 =? l2)%nat) eqn:Hgo.
  2: { exists st, (if (0 <? l1)%nat then l1 else l2). split; [done|]. split; [by eapply step_0|lia]. }
  apply andb_true_iff in Hgo as [H1%Nat.ltb_lt H2%negb_true_iff%Nat.eqb_neq].
  assert (H10 : l1 <> 0%nat) by lia.
  destruct (mg_l1 _ _ _ _ Hm) as [[?|O1] _]; [done|]. destruct (up _ _ _ Hwf l1 O1) as (p1 & (n1 & E1 & Hp1) & _ & Hb1 & He1 & _).
  rewrite (bind_Ok _ _ _ _ _ (node_Ok _ _ _ E1)). rewrite <-(begin_of_eq _ _ _ E1).
  destruct (label_lookup _ _ _ Hwf l2 (proj1 (mg_l2 _ _ _ _ Hm))) as [n2 E2].
  rewrite (bind_Ok _ _ _ _ _ (node_Ok _ _ _ E2)). rewrite <-(begin_of_eq _ _ _ E2). cbv zeta.
  destruct (Z.ltb_spec (B l1) (B l2)) as [Hlt|Hge].
  - assert (H20 : l2 <> 0%nat) by (intros ->; rewrite (begin_of_root _ _ _ Hwf) in Hlt; lia).
    destruct (mg_l2 _ _ _ _ Hm) as [[?|O2] _]; [done|].
    destruct (up _ _ _ Hwf l2 O2) as (p2 & (n2' & E2' & Hp2) & _ & Hb2 & He2 & _).
    rewrite E2 in E2'. injection E2' as <-. rewrite Hp2.
    pose proof (step_2 l1 l2 last st p2 H10 H20 ltac:(eauto) Hlt Hm) as Hstep.
    destruct (Z.ltb_spec (B l2) last); case_decide; try lia;
      destruct (IH _ _ _ _ Hstep) as (st' & base & Em & Hmd & Hlen); try lia;
      exists st', base; (split; [done|]); (split; [done|]); cbn [length] in Hlen; lia.
  - rewrite Hp1. pose proof (step_1 l1 l2 last st p1 H10 ltac:(eauto) Hge Hm) as Hstep.
    destruct (Z.ltb_spec (B l1) last); case_decide; try lia;
      destruct (IH _ _ _ _ Hstep) as (st' & base & Em & Hmd & Hlen); try lia;
      exists st', base; (split; [done|]); (split; [done|]); cbn [length] in Hlen; lia.
Qed.
End Merge.

(** ** The second loop of [combine] *)

(** One round of it. *)
Definition add_segment (cur_lb next : nat) : TS nat :=
  nc <- node cur_lb ;; nn <- node next ;;
  let cur_seg := node_seg nc in
  let next_seg := node_seg nn in
  c <- (if seg_begin next_seg <=? seg_end cur_seg then
          if seg_end cur_seg <? seg_end next_seg
          then insert_n_ones cur_lb (u32 (seg_end next_seg - seg_end cur_seg)) cur_lb
          else ret cur_lb
        else
          z <- insert_n_zeros cur_lb (u32 (seg_begin next_seg - seg_end cur_seg)) cur_lb ;;
          insert_n_ones z (u32 (seg_end next_seg - seg_begin next_seg)) cur_lb) ;;
  when (seg_sign next_seg) (update c set_seg_sign) ;;;
  ret c.
Lemma unstack_cons cur_lb next rest t :
  unstack cur_lb (next :: rest) t = (c <- add_segment cur_lb next ;; unstack c rest) t.
Proof.
  cbn [unstack]. unfold add_segment, bind, ret. repeat (case_match; try done).
Qed.

Lemma grown_begins t den one t' den' one' : grown t den one t' den' one' -> wf t den one ->
  forall x, one x -> end_of t' x = end_of t x.
Proof.
  intros Hg Hw x Hx. destruct (one_lookup _ _ _ Hw x Hx) as [n E].
  destruct (gr_node _ _ _ _ _ _ Hg x n E) as (n' & E' & He). by rewrite (end_of_eq _ _ _ E), (end_of_eq _ _ _ E').
Qed.

(** [p] is to be added to [cur]; its segment began at [b] before the loop. *)
Definition pending (t : TagSet) (den : nat -> Z -> Prop) (one : nat -> Prop) (cur : nat) (pb : nat * Z) : Prop :=
  one pb.1 /\ 0 <= pb.2 <= begin_of t pb.1 /\ forall o, pb.2 <= o < begin_of t pb.1 -> den cur o.

Lemma extended_iff t den one (d d' : Z -> Prop) e k k' x t' den' one' :
  extended t den one d e k x t' den' one' -> (forall o, d o <-> d' o) -> (k <= k')%nat ->
  extended t den one d' e k' x t' den' one'.
Proof.
  intros [G L X D R B M0] Hd Hk. split; try done; [intros o; by rewrite D|lia|].
  intros q nq nq' Hq E E'. destruct (B q nq nq' Hq E E') as [? Ho]. split; [done|].
  intros o Hr. by apply Hd, Ho.
Qed.
Lemma extended_refl t den one x n : wf t den one -> is_label one x -> t !! x = Some n ->
  extended t den one (den x) (nend n) 0 x t den one.
Proof.
  intros Hwf Hx E. split; try done; [by apply grown_refl|eauto|lia|].
  intros q nq nq' _ E1 E2. rewrite E1 in E2. injection E2 as <-. split; [lia|intros; lia].
Qed.

(** The label is a note: nothing else changes with it. *)
Lemma sign_note t den one x (b : bool) : wf t den one -> is_label one x ->
  exists t', (when b (update x set_seg_sign) ;;; ret x) t = Ok (x, t') /\ grown t den one t' den one /\
    length t' = length t /\ (forall y, begin_of t' y = begin_of t y) /\ (forall M, ends_le t M -> ends_le t' M).
Proof.
  intros Hwf Hx. destruct b; [|exists t; split; [done|]; split; [by apply grown_refl|done]].
  destruct (label_lookup _ _ _ Hwf x Hx) as [n E]. cbn [when].
  rewrite (bind_Ok _ _ _ _ _ (update_Ok _ _ _ _ E)). eexists. split; [reflexivity|].
  split; [eapply grown_replace; try done; by left|]. split; [by rewrite length_insert|]. split.
  - intros y. unfold begin_of. rewrite (lookup_update _ _ _ _ _ E). case_decide; [subst; by rewrite E|done].
  - intros M HM y m. rewrite (lookup_update _ _ _ _ _ E). case_decide; [intros [= <-]; by apply (HM x n)|apply HM].
Qed.

Lemma segment_label t den one cur p b nc np : wf t den one -> is_label one cur ->
  t !! cur = Some nc -> t !! p = Some np -> one p -> 0 <= b <= nbegin np ->
  (forall o, b <= o < nbegin np -> den cur o) -> (forall o, b <= o < nend nc -> den cur o) ->
  Z.of_nat (length t) + 2 <= MAX_LB ->
  exists x t' den' one',
    (if nbegin np <=? nend nc then
       if nend nc <? nend np then insert_n_ones cur (u32 (nend np - nend nc)) cur else ret cur
     else z <- insert_n_zeros cur (u32 (nbegin np - nend nc)) cur ;;
          insert_n_ones z (u32 (nend np - nbegin np)) cur) t = Ok (x, t') /\
    extended t den one (fun o => den cur o \/ b <= o < nend np) (Z.max (nend nc) (nend np)) 2 x t' den' one'.
Proof.
  intros Hwf Hcur Ec Ep Op Hb Hlow Hhead Hroom. destruct (up _ _ _ Hwf p Op) as (_ & _ & _ & Hbe & _).
  rewrite (end_of_eq _ _ _ Ep), (begin_of_eq _ _ _ Ep) in Hbe.
  pose proof (wf_end _ _ _ Hwf _ _ Ec). pose proof (wf_end _ _ _ Hwf _ _ Ep).
  destruct (Z.leb_spec (nbegin np) (nend nc)) as [Hle|Hgt].
  - destruct (Z.ltb_spec (nend nc) (nend np)) as [Hlt|Hge].
    + rewrite u32_small by lia.
      destruct (insert_n_ones_spec t den one Hwf cur nc Ec Hcur (nend np - nend nc)) as (x & t' & den' & one' & E & _ & Hx); [lia..|].
      exists x, t', den', one'. split; [done|]. replace (Z.max (nend nc) (nend np)) with (nend nc + (nend np - nend nc)) by lia.
      eapply extended_iff; [exact Hx| |lia]. intros o. split; [intros [?|?]; [by left|right; lia]|].
      intros [?|?]; [by left|]. destruct (decide (o < nend nc)); [left; apply Hhead; lia|right; lia].
    + exists cur, t, den, one. split; [done|]. rewrite Z.max_l by lia.
      eapply extended_iff; [by apply extended_refl| |lia]. intros o. split; [by left|].
      intros [?|?]; [done|apply Hhead; lia].
  - assert (b = nbegin np) as ->.
    { destruct (decide (b = nbegin np)) as [|Hne]; [done|].
      pose proof (wf_den _ _ _ Hwf cur nc _ Ec (Hlow (nbegin np - 1) ltac:(lia))). lia. }
    rewrite !u32_small by lia.
    destruct (insert_gap_spec t den one Hwf cur nc Ec Hcur (nbegin np) (nend np - nbegin np)) as (x & t' & den' & one' & E & _ & Hx); [lia..|].
    exists x, t', den', one'. split; [done|]. replace (Z.max (nend nc) (nend np)) with (nbegin np + (nend np - nbegin np)) by lia.
    eapply extended_iff; [exact Hx| |lia]. intros o. by replace (nbegin np + (nend np - nbegin np)) with (nend np) by lia.
Qed.

Lemma add_segment_spec t den one cur p b : wf t den one -> is_label one cur ->
  pending t den one cur (p, b) -> (forall o, b <= o < end_of t cur -> den cur o) ->
  Z.of_nat (length t) + 2 <= MAX_LB ->
  exists x t' den' one', add_segment cur p t = Ok (x, t') /\ grown t den one t' den' one' /\ is_label one' x /\
    (forall o, den' x o <-> den cur o \/ b <= o < end_of t p) /\
    (forall o, b <= o < end_of t' x -> den' x o) /\
    (length t' <= length t + 2)%nat /\
    (forall q, one q -> begin_of t q <= begin_of t' q /\
       forall o, begin_of t q <= o < begin_of t' q -> den' x o) /\
    (forall M, ends_le t M -> ends_le t' M).
Proof.
  intros Hwf Hcur (Op & Hb & Hlow) Hhead Hroom. cbn [fst snd] in *. unfold add_segment.
  destruct (label_lookup _ _ _ Hwf cur Hcur) as [nc Ec]. destruct (one_lookup _ _ _ Hwf p Op) as [np Ep].
  rewrite (bind_Ok _ _ _ _ _ (node_Ok _ _ _ Ec)), (bind_Ok _ _ _ _ _ (node_Ok _ _ _ Ep)). cbv zeta.
  rewrite (end_of_eq _ _ _ Ec), (end_of_eq _ _ _ Ep), (begin_of_eq _ _ _ Ep) in *.
  destruct (segment_label t den one cur p b nc np) as (x & t1 & den1 & one1 & E1 & [G L (nx & Ex & Hx) D R B M1]); [done..|].
  rewrite (bind_Ok _ _ _ _ _ E1).
  destruct (sign_note t1 den1 one1 x (seg_sign (node_seg np)) (gr_wf _ _ _ _ _ _ G) L) as (t2 & E2 & G2 & L2 & B2 & M2).
  exists x, t2, den1, one1. split; [done|]. split; [by eapply grown_trans|]. split; [done|]. split; [done|].
  split; [|split; [lia|split]].
  - intros o Ho. apply D. destruct (gr_node _ _ _ _ _ _ G2 x nx Ex) as (nx' & Ex' & Hx').
    rewrite (end_of_eq _ _ _ Ex'), Hx', Hx in Ho. destruct (decide (o < nend nc)); [left; apply Hhead; lia|right; lia].
  - intros q Hq. rewrite B2. destruct (one_lookup _ _ _ Hwf q Hq) as [nq Eq].
    destruct (gr_node _ _ _ _ _ _ G q nq Eq) as (nq' & Eq' & _).
    rewrite (begin_of_eq _ _ _ Eq), (begin_of_eq _ _ _ Eq'). destruct (B q nq nq' Hq Eq Eq') as [? Ho].
    split; [done|]. intros o Hr. by apply D, Ho.
  - intros M HM. apply M2, M1; [|done]. pose proof (HM _ _ Ec). pose proof (HM _ _ Ep). lia.
Qed.

Lemma unstack_spec items : forall t den one cur, wf t den one -> is_label one cur ->
  Forall (pending t den one cur) items -> StronglySorted (fun p q => p.2 < q.2) items ->
  match items with [] => True | (_, b) :: _ => forall o, b <= o < end_of t cur -> den cur o end ->
  Z.of_nat (length t) + 2 * Z.of_nat (length items) <= MAX_LB ->
  exists x t' den' one', unstack cur items.*1 t = Ok (x, t') /\ grown t den one t' den' one' /\ is_label one' x /\
    (forall o, den' x o <-> den cur o \/ exists p b, (p, b) ∈ items /\ b <= o < end_of t p) /\
    (length t' <= length t + 2 * length items)%nat /\ (forall M, ends_le t M -> ends_le t' M).
Proof.
  induction items as [|[p b] items IH]; intros t den one cur Hwf Hcur Hpend Hsort Hhead Hroom.
  { exists cur, t, den, one. split; [done|]. split; [by apply grown_refl|]. split; [done|]. split; [|split; [lia|done]].
    intros o. split; [by left|]. intros [?|(? & ? & []%elem_of_nil & _)]. done. }
  cbn [length] in *. apply list.Forall_cons in Hpend as [Hp Hpend]. inversion_clear Hsort as [|? ? Hsort' Hlt].
  destruct (add_segment_spec t den one cur p b Hwf Hcur Hp Hhead ltac:(lia))
    as (x & t1 & den1 & one1 & E1 & G1 & L1 & D1 & H1 & R1 & B1 & M1).
  rewrite list.fmap_cons, unstack_cons, (bind_Ok _ _ _ _ _ E1).
  assert (Hend : forall q c, (q, c) ∈ items -> end_of t1 q = end_of t q).
  { intros q c Hq. rewrite list.Forall_forall in Hpend. destruct (Hpend _ Hq) as (Oq & _). by eapply grown_begins. }
  destruct (IH t1 den1 one1 x) as (y & t2 & den2 & one2 & E2 & G2 & L2 & D2 & R2 & M2); try done; try lia.
  - apply (gr_wf _ _ _ _ _ _ G1).
  - apply list.Forall_forall. intros [q c] Hq. rewrite list.Forall_forall in Hpend. destruct (Hpend _ Hq) as (Oq & Hc & Hlow).
    cbn [fst snd] in *. destruct (B1 q Oq) as [Hle Hin]. split; [by apply (gr_one _ _ _ _ _ _ G1)|]. cbn [fst snd].
    split; [lia|]. intros o Ho. destruct (decide (o < begin_of t q)); [apply D1; left; apply Hlow; lia|apply Hin; lia].
  - destruct items as [|[q c] items]; [done|]. apply list.Forall_cons in Hlt as [Hlt _]. cbn in Hlt.
    intros o Ho. apply H1. lia.
  - exists y, t2, den2, one2. split; [done|]. split; [by eapply grown_trans|]. split; [done|]. split; [|split; [lia|auto]].
    intros o. rewrite D2, D1. split.
    + intros [[?|?]|(q & c & Hq & Ho)]; [by left|right; exists p, b; split; [by left|done]|].
      right. exists q, c. split; [by right|]. by rewrite <-(Hend q c).
    + intros [?|(q & c & [[= -> ->]|Hq]%elem_of_cons & Ho)]; [by left; left|left; by right|].
      right. exists q, c. split; [done|]. by rewrite (Hend q c).
Qed.

(** ** [combine] *)

(** No segment of the nodes [xs] is left out: it is inside a segment of the stack, or
    part of the label the second loop starts from. *)
Definition covered (t : TagSet) (st : list nat) (base : nat) (xs : list nat) : bool :=
  forallb (fun x => existsb (Nat.eqb x) (chain_of t base) ||
                    existsb (fun p => (begin_of t p <=? begin_of t x) && (end_of t x <=? end_of t p)) st) xs.
Definition join_exact (t : TagSet) (l1 l2 : nat) : bool :=
  if (l1 =? 0)%nat || (l2 =? 0)%nat || (l1 =? l2)%nat then true else
  let a := Nat.min l1 l2 in
  let b := Nat.max l1 l2 in
  match merge (merge_fuel t a b) a b MAX_LB [] t with
  | Ok ((st, base), _) => covered t st base (chain_of t a ++ chain_of t b)
  | Fault _ => false
  end.

(** A label for offsets of [D], for all of them if [exact]. *)
Record joined (t : TagSet) (den : nat -> Z -> Prop) (one : nat -> Prop) (D : Z -> Prop) (exact : Prop) (k : nat)
  (x : nat) (t' : TagSet) (den' : nat -> Z -> Prop) (one' : nat -> Prop) : Prop := mkJoined {
  jn_grown : grown t den one t' den' one';
  jn_label : is_label one' x;
  jn_sound o : den' x o -> D o;
  jn_exact : exact -> forall o, D o -> den' x o;
  jn_room : (length t' <= length t + k)%nat;
  jn_bound M : ends_le t M -> ends_le t' M
}.
Lemma joined_refl t den one x (D : Z -> Prop) (exact : Prop) : wf t den one -> is_label one x ->
  (forall o, D o <-> den x o) -> joined t den one D exact 0 x t den one.
Proof. intros Hwf Hx Hd. split; try done; [by apply grown_refl|intros o; apply Hd|intros _ o; apply Hd|lia]. Qed.
Lemma joined_weaken t den one (D D' : Z -> Prop) (ex ex' : Prop) k k' x t' den' one' :
  joined t den one D ex k x t' den' one' -> (forall o, D o -> D' o) ->
  (ex' -> ex /\ forall o, D' o -> D o) -> (k <= k')%nat -> joined t den one D' ex' k' x t' den' one'.
Proof.
  intros [G L S X R M] H1 H2 Hk. split; try done; [auto| |lia].
  intros He o Ho. destruct (H2 He) as [? Hs]. auto.
Qed.

Section Combine.
Context (t : TagSet) (den : nat -> Z -> Prop) (one : nat -> Prop) (Hwf : wf t den one).

Lemma merge_start a b : is_label one a -> is_label one b ->
  merging t den one (fun o => den a o \/ den b o) a b MAX_LB [].
Proof.
  intros Ha Hb. split; try done; [split; [done|by left]|split; [done|by right]| | | |].
  - by intros p []%elem_of_nil.
  - constructor.
  - by intros p []%elem_of_nil.
  - by left.
Qed.
Lemma merge_fuel_ok a b : is_label one a -> is_label one b ->
  (Z.to_nat (end_of t a) + Z.to_nat (end_of t b) < merge_fuel t a b)%nat.
Proof. unfold merge_fuel, end_of. destruct (t !! a), (t !! b); lia. Qed.

(** The stack as the second loop finds it. *)
Lemma merged_pending D st base : merged t den one D st base ->
  Forall (pending t den one base) ((fun p => (p, begin_of t p)) <$> st) /\
  StronglySorted (fun p q : nat * Z => p.2 < q.2) ((fun p => (p, begin_of t p)) <$> st).
Proof.
  intros [_ Hst Hso _]. split.
  - apply Forall_fmap, list.Forall_forall. intros p Hp. destruct (Hst p Hp) as [Op _].
    destruct (up _ _ _ Hwf p Op) as (_ & _ & _ & Hb & _). split; [done|]. cbn. split; [lia|intros; lia].
  - clear Hst. induction Hso as [|p st Hso IH Hlt]; cbn; constructor; [done|].
    apply Forall_fmap. eapply list.Forall_impl; [exact Hlt|]. done.
Qed.

Lemma hidden_exact st base a b : is_label one base -> is_label one a -> is_label one b ->
  covered t st base (chain_of t a ++ chain_of t b) = true ->
  forall o, den a o \/ den b o -> den base o \/ exists p, p ∈ st /\ begin_of t p <= o < end_of t p.
Proof.
  intros Hbase Ha Hb Hall o Ho.
  assert (exists y, y ∈ chain_of t a ++ chain_of t b /\ begin_of t y <= o < end_of t y) as (y & Hy & Hr).
  { destruct Ho as [Ho|Ho].
    - apply (den_chain _ _ _ Hwf _ _ _ Ha (le_n _)) in Ho as (y & Hy & Hr). exists y. set_solver.
    - apply (den_chain _ _ _ Hwf _ _ _ Hb (le_n _)) in Ho as (y & Hy & Hr). exists y. set_solver. }
  unfold covered in Hall. rewrite forallb_forall in Hall. specialize (Hall y (proj1 (list_elem_of_In _ _) Hy)).
  apply orb_true_iff in Hall as [(z & Hz%list_elem_of_In & ->%Nat.eqb_eq)%existsb_exists|Hex].
  - left. by apply (den_chain _ _ _ Hwf _ _ _ Hbase (le_n _)); exists z.
  - apply existsb_exists in Hex as (p & Hp%list_elem_of_In & [H1%Z.leb_le H2%Z.leb_le]%andb_true_iff).
    right. exists p. split; [done|lia].
Qed.

Lemma combine_spec_lt a b : is_label one a -> is_label one b -> a <> 0%nat -> a <> b ->
  Z.of_nat (length t) + 2 * (end_of t a + end_of t b) <= MAX_LB ->
  exists x t' den' one', (r <- merge (merge_fuel t a b) a b MAX_LB [] ;; unstack r.2 r.1) t = Ok (x, t') /\
    joined t den one (fun o => den a o \/ den b o)
      (match merge (merge_fuel t a b) a b MAX_LB [] t with
       | Ok ((st, base), _) => covered t st base (chain_of t a ++ chain_of t b)
       | Fault _ => false end = true)
      (2 * Z.to_nat (end_of t a + end_of t b)) x t' den' one'.
Proof.
  intros Ha Hb H0 Hne Hroom. pose proof (end_of_nonneg _ _ _ Hwf a). pose proof (end_of_nonneg _ _ _ Hwf b).
  destruct (merge_spec t den one Hwf _ _ a b MAX_LB [] (merge_start a b Ha Hb) (merge_fuel_ok a b Ha Hb))
    as (st & base & Em & Hmd & Hlen). rewrite (bind_Ok _ _ _ _ _ Em). cbn [fst snd length] in *.
  destruct (merged_pending _ _ _ Hmd) as [Hpend Hsort]. pose proof Hmd as [[Hbase Hpart] Hst _ Hhead].
  destruct (unstack_spec ((fun p => (p, begin_of t p)) <$> st) t den one base) as
    (x & t' & den' & one' & Eu & G & L & Dx & R & M); try done.
  - by destruct st.
  - rewrite length_fmap. lia.
  - rewrite <-list_fmap_compose in Eu. cbn in Eu. rewrite list_fmap_id in Eu.
    exists x, t', den', one'. split; [done|]. split; try done.
    + intros o [?|(p & b' & Hp & Ho)]%Dx; [by apply Hpart|].
      apply list_elem_of_fmap in Hp as (q & [= -> ->] & Hq). destruct (Hst q Hq) as [Oq Hpq]. apply Hpq.
      destruct (up _ _ _ Hwf q Oq) as (pp & _ & _ & _ & _ & Hd & _). apply Hd. by right.
    + rewrite Em. intros Hex o Ho.
      destruct (hidden_exact st base a b Hbase Ha Hb Hex o Ho) as [?|(p & Hp & Hr)]; apply Dx; [by left|right].
      exists p, (begin_of t p). split; [|done]. apply list_elem_of_fmap. eauto.
    + rewrite length_fmap in R. lia.
Qed.

(** Joining two labels gives a label for offsets of these two and for no others; for
    all of them, unless a segment is hidden. *)
Lemma combine_joined l1 l2 : is_label one l1 -> is_label one l2 ->
  Z.of_nat (length t) + 2 * (end_of t l1 + end_of t l2) <= MAX_LB ->
  exists x t' den' one', combine l1 l2 t = Ok (x, t') /\
    joined t den one (fun o => den l1 o \/ den l2 o) (join_exact t l1 l2 = true)
      (2 * Z.to_nat (end_of t l1 + end_of t l2)) x t' den' one'.
Proof.
  intros H1 H2 Hroom. unfold combine, join_exact. pose proof (wf_root_den _ _ _ Hwf) as Hz.
  destruct (Nat.eqb_spec l1 0) as [->|Hn1].
  { exists l2, t, den, one. split; [done|]. eapply joined_weaken; [apply (joined_refl _ _ _ _ _ True Hwf H2)| | |lia]; [reflexivity|by right|].
    intros _. split; [done|]. intros o [?%Hz|?]; done. }
  destruct (Nat.eqb_spec l2 0) as [->|Hn2].
  { exists l1, t, den, one. split; [done|]. eapply joined_weaken; [apply (joined_refl _ _ _ _ _ True Hwf H1)| | |lia]; [reflexivity|by left|].
    intros _. split; [done|]. intros o [?|?%Hz]; done. }
  destruct (Nat.eqb_spec l1 l2) as [->|Hne].
  { exists l2, t, den, one. split; [done|]. eapply joined_weaken; [apply (joined_refl _ _ _ _ _ True Hwf H2)| | |lia]; [reflexivity|by left|].
    intros _. split; [done|]. by intros o [?|?]. }
  cbn [orb]. rewrite (bind_Ok (gets _) _ t _ t) by done. cbv beta zeta.
  set (a := Nat.min l1 l2). set (b := Nat.max l1 l2).
  assert (Hab : (a = l1 /\ b = l2) \/ (a = l2 /\ b = l1)) by (unfold a, b; lia).
  destruct Hab as [[-> ->]|[-> ->]].
  - by apply combine_spec_lt.
  - destruct (combine_spec_lt l2 l1 H2 H1 Hn2 (not_eq_sym Hne) ltac:(lia)) as (x & t' & den' & one' & E & Hj).
    exists x, t', den', one'. split; [done|]. eapply joined_weaken; [exact Hj|intros o [?|?]; [by right|by left]| |lia].
    intros Hex. split; [done|intros o [?|?]; [by right|by left]].
Qed.
End Combine.
