(* ===== verification/TagSetOps.v ===== *)
(** * Operations on labels

    [insert], [combine_n], the inference of shapes and [find] of [tag_set.rs]. *)

From Stdlib Require Import Sorted.
From S2P Require Import Prelude Dfsan TagSet TagSetProofs TagSetJoin.
Local Open Scope Z_scope.

(** ** [insert] *)

Lemma insert_joined t den one off : wf t den one -> 0 <= off < 2 ^ 32 - 1 -> Z.of_nat (length t) + 1 < MAX_LB ->
  exists x t' den' one', insert off t = Ok (x, t') /\ grown t den one t' den' one' /\ one' x /\
    (forall o, den' x o <-> o = off) /\ (length t' <= length t + 2)%nat /\
    forall M, off < M -> ends_le t M -> ends_le t' M.
Proof.
  intros Hwf Ho Hroom. destruct (wf_root _ _ _ Hwf) as (n0 & E0 & Z0 & _).
  destruct (insert_gap_spec t den one Hwf 0 n0 E0 (or_introl eq_refl) off 1)
    as (x & t' & den' & one' & E & Hx & [G _ _ D R _ M]); [lia..|].
  exists x, t', den', one'. unfold insert, ROOT. rewrite Z0, Z.sub_0_r in E. split; [done|]. split; [done|].
  split; [done|]. split; [|split; [done|intros M0 HM; apply M; lia]].
  intros o. rewrite D. pose proof (wf_root_den _ _ _ Hwf o). split; [intros [?|?]; [done|lia]|lia].
Qed.

(** The label of an offset. *)
Lemma insert_kept t off : trie t -> 0 <= off < 2 ^ 32 - 1 -> Z.of_nat (length t) + 1 < MAX_LB ->
  exists x t', insert off t = Ok (x, t') /\ labels_kept t t' /\ labelled t' x /\ offsets t' x = {[ off ]}.
Proof.
  intros (den & one & Hwf) Ho Hroom.
  destruct (insert_joined t den one off Hwf Ho Hroom) as (x & t' & den' & one' & E & G & Ox & Dx & _).
  pose proof (gr_wf _ _ _ _ _ _ G) as Hwf'. exists x, t'. split; [done|]. split; [by eapply grown_kept|].
  split; [apply (labelled_iff _ _ _ _ Hwf'); by right|]. apply set_eq. intros o.
  by rewrite (offsets_den _ _ _ Hwf' _ _ (or_intror Ox)), Dx, elem_of_singleton.
Qed.

Lemma ends_leb (t : TagSet) M : forallb (fun n => nend n <=? M) t = true -> ends_le t M.
Proof. intros H x n E. rewrite forallb_forall in H. apply Z.leb_le, H, list_elem_of_In. by eapply list_elem_of_lookup_2. Qed.

(** A tag set for examples: the labels 2 and 4 stand for the offsets 3 and 5. *)
Module TagEx.
Definition run2 : res (nat * TagSet) := (insert 3 ;;; insert 5) TagSet_new.
Definition ex : TagSet := match run2 with Ok (_, t) => t | Fault _ => [] end.
Lemma ex_trie : trie ex.
Proof.
  destruct (insert_kept TagSet_new 3 trie_new) as (x & t1 & E1 & [T1 _] & _); [lia|done|].
  assert (L1 : length t1 = 3%nat) by (revert E1; vm_compute; by intros [= _ <-]).
  destruct (insert_kept t1 5 T1) as (y & t2 & E2 & [T2 _] & _); [lia|by rewrite L1|].
  unfold ex, run2. by rewrite (bind_Ok _ _ _ _ _ E1), E2.
Qed.
End TagEx.

(** ** Joining many labels *)

Fixpoint joins_exact (t : TagSet) (cur : nat) (ls : list nat) : bool :=
  match ls with
  | [] => true
  | l :: r => join_exact t cur l &&
              match combine cur l t with Ok (c, t') => joins_exact t' c r | Fault _ => false end
  end.

(** The nodes that joining a label may need, if no offset is above [M]. *)
Definition join_cost (M : Z) : Z := 4 * M.

Lemma joined_trans t den one (D1 D2 D : Z -> Prop) (e1 e2 : Prop) k1 k2 x t1 den1 one1 y t2 den2 one2 :
  joined t den one D1 e1 k1 x t1 den1 one1 -> joined t1 den1 one1 D2 e2 k2 y t2 den2 one2 ->
  (forall o, D2 o -> D o) -> (e1 -> forall o, D o -> D2 o) ->
  joined t den one D (e1 /\ e2) (k1 + k2) y t2 den2 one2.
Proof.
  intros [G1 L1 S1 X1 R1 M1] [G2 L2 S2 X2 R2 M2] H1 H2. split; [by eapply grown_trans|done|auto| |lia|auto].
  intros [He1 He2] o Ho. by apply X2, H2.
Qed.
Lemma end_of_bound t M x : 0 <= M -> ends_le t M -> end_of t x <= M.
Proof. intros H0 HM. unfold end_of. destruct (t !! x) eqn:E; [by eapply HM|done]. Qed.
Lemma grown_den t den one t' den' one' x o : grown t den one t' den' one' -> wf t den one -> is_label one x ->
  den' x o <-> den x o.
Proof. intros Hg Hw Hx. destruct (label_lookup _ _ _ Hw x Hx) as [n E]. by apply (gr_den _ _ _ _ _ _ Hg x n). Qed.

Lemma combine_all_joined M ls : 0 <= M -> forall t den one cur, wf t den one -> is_label one cur ->
  Forall (is_label one) ls -> ends_le t M -> Z.of_nat (length t) + Z.of_nat (length ls) * join_cost M <= MAX_LB ->
  exists x t' den' one', combine_all cur ls t = Ok (x, t') /\
    joined t den one (fun o => den cur o \/ exists l, l ∈ ls /\ den l o) (joins_exact t cur ls = true)
      (length ls * Z.to_nat (join_cost M)) x t' den' one'.
Proof.
  intros HM0. induction ls as [|l ls IH]; intros t den one cur Hwf Hcur Hls HM Hroom; cbn [combine_all].
  { exists cur, t, den, one. split; [done|]. eapply joined_weaken; [apply (joined_refl _ _ _ cur (den cur) True)| | |cbn; lia]; try done.
    - by left.
    - intros _. split; [done|]. intros o [?|(? & []%elem_of_nil & _)]; done. }
  apply list.Forall_cons in Hls as [Hl Hls]. cbn [length] in Hroom. unfold join_cost in *.
  pose proof (end_of_bound t M cur HM0 HM). pose proof (end_of_bound t M l HM0 HM).
  pose proof (end_of_nonneg _ _ _ Hwf cur). pose proof (end_of_nonneg _ _ _ Hwf l).
  destruct (combine_joined t den one Hwf cur l Hcur Hl) as (c & t1 & den1 & one1 & E1 & J1); [nia|].
  assert (J1' : joined t den one (fun o => den cur o \/ den l o) (join_exact t cur l = true) (Z.to_nat (4 * M)) c t1 den1 one1)
    by (eapply joined_weaken; [exact J1|done|done|lia]).
  pose proof J1' as [G1 L1 S1 X1 R1 M1].
  destruct (IH t1 den1 one1 c (gr_wf _ _ _ _ _ _ G1) L1) as (x & t2 & den2 & one2 & E2 & J2).
  - eapply list.Forall_impl; [exact Hls|]. intros. by eapply grown_label.
  - by apply M1.
  - nia.
  - exists x, t2, den2, one2. rewrite (bind_Ok _ _ _ _ _ E1). split; [done|].
    eapply joined_weaken; [eapply (joined_trans _ _ _ _ _ (fun o => den cur o \/ exists z, z ∈ l :: ls /\ den z o));
      [exact J1'|exact J2| |]|done| |cbn [length]; lia].
    + intros o [?%S1|(z & Hz & Hd)]; [set_solver|]. right. exists z. split; [by right|].
      rewrite list.Forall_forall in Hls. by rewrite <-(grown_den _ _ _ _ _ _ z o G1 Hwf (Hls z Hz)).
    + intros He o [Ho|(z & [->|Hz]%elem_of_cons & Hd)]; [left; apply X1; auto|left; apply X1; auto|].
      right. exists z. split; [done|]. rewrite list.Forall_forall in Hls. by rewrite (grown_den _ _ _ _ _ _ z o G1 Hwf (Hls z Hz)).
    + cbn [joins_exact]. rewrite E1. intros [? ?]%andb_true_iff. done.
Qed.

(** ** Shapes *)

(** A segment may begin earlier if the offsets in between belong to the label. *)
Lemma fits_lower t den one x n n' : wf t den one -> one x -> t !! x = Some n ->
  0 <= nbegin n' <= nbegin n -> (forall o, nbegin n' <= o < nend n -> den x o) -> fits t den one x n n'.
Proof.
  intros Hwf Hx E Hb Hin. right. destruct (wf_one _ _ _ Hwf x Hx) as (_ & m & p & [Em Ep Hu Hbe He Hd Hpr Hnx]).
  rewrite E in Em. injection Em as <-. split; [done|]. split; [lia|]. split; [|split].
  - intros o. split; [|intros [?|?]; [apply Hd; by left|by apply Hin]].
    intros [?|?]%Hd; [by left|right; lia].
  - intros p' Ep' Hle. rewrite Ep in Ep'. injection Ep' as <-. apply Hnx.
    destruct (proj1 (Hd (nend p)) (Hin (nend p) ltac:(lia))) as [Hc|?]; [|lia].
    apply (wf_den _ _ _ Hwf _ _ _ Ep) in Hc. lia.
  - intros y m Ey Hr. pose proof (one_nonzero _ _ _ Hwf x Hx) as H0. rewrite <-Hr in H0, E.
    destruct (wf_right _ _ _ Hwf y m Ey H0) as (_ & m' & Em' & _ & Hle & _). rewrite E in Em'. injection Em' as <-. lia.
Qed.
(** A label without a parent is its segment. *)
Lemma top_den t den one x n : wf t den one -> one x -> t !! x = Some n -> node_parent n = ROOT ->
  forall o, den x o <-> nbegin n <= o < nend n.
Proof.
  intros Hwf Hx E Hp o. destruct (wf_one _ _ _ Hwf x Hx) as (_ & m & p & [Em _ _ _ _ Hd _ _]).
  rewrite E in Em. injection Em as <-. rewrite Hd, Hp. pose proof (wf_root_den _ _ _ Hwf o). unfold ROOT. tauto.
Qed.

(** If [infer_shape] takes the labels for a variable, the first one is a segment and
    the last one ends [len] bytes after its beginning. *)
Lemma infer_shape_spec t den one l1 l2 len M : wf t den one -> one l1 -> is_label one l2 ->
  ends_le t M -> M + 8 < 2 ^ 32 -> Z.of_nat (length t) < MAX_LB ->
  exists r t', infer_shape l1 l2 len t = Ok (r, t') /\
    match r with
    | None => t' = t
    | Some x => exists den' one' n1 n2,
        (len = 2 \/ len = 4 \/ len = 8) /\ t !! l1 = Some n1 /\ t !! l2 = Some n2 /\
        node_parent n1 = ROOT /\ node_parent n2 = ROOT /\ nbegin n1 + len = nend n2 /\
        grown t den one t' den' one' /\ one' x /\
        (forall o, den' x o <-> den l1 o \/ nend n1 <= o < nend n1 + (len - 1)) /\
        (length t' <= length t + 1)%nat /\ (forall M, nend n1 + (len - 1) <= M -> ends_le t M -> ends_le t' M)
    end.
Proof.
  intros Hwf H1 H2 HM HM8 Hroom. unfold infer_shape.
  destruct (negb (len =? 2) && negb (len =? 4) && negb (len =? 8)) eqn:Hlen; [by eexists _, _|].
  assert (Hl : len = 2 \/ len = 4 \/ len = 8) by (destruct (Z.eqb_spec len 2), (Z.eqb_spec len 4), (Z.eqb_spec len 8); simpl in Hlen; auto; done).
  destruct (one_lookup _ _ _ Hwf l1 H1) as [n1 E1]. rewrite (bind_Ok _ _ _ _ _ (node_Ok _ _ _ E1)).
  destruct (Nat.eqb_spec (node_parent n1) ROOT) as [Hp1|]; [|by eexists _, _]. cbn [negb].
  destruct (label_lookup _ _ _ Hwf l2 H2) as [n2 E2]. rewrite (bind_Ok _ _ _ _ _ (node_Ok _ _ _ E2)).
  destruct (Nat.eqb_spec (node_parent n2) ROOT) as [Hp2|]; [|by eexists _, _]. cbn [andb].
  pose proof (wf_end _ _ _ Hwf _ _ E1). pose proof (HM _ _ E1).
  destruct (up _ _ _ Hwf l1 H1) as (pp & _ & _ & Hb1 & _). rewrite (begin_of_eq _ _ _ E1), (end_of_eq _ _ _ E1) in Hb1.
  rewrite u32_small by lia. destruct (Z.eqb_spec (nbegin n1 + len) (nend n2)) as [Heq|]; [|by eexists _, _].
  destruct (ones_loop_spec (S (Z.to_nat (len - 1))) t den one l1 l1 n1 n1 (len - 1))
    as (x & t1 & den1 & one1 & E & [G (nx & Ex & Hx) D R B Mb] & Ho & _); try done; try lia; [by right|].
  unfold insert_n_ones. rewrite (bind_Ok _ _ _ _ _ E).
  destruct (gr_node _ _ _ _ _ _ G l1 n1 E1) as (m1 & Em1 & Hm1). rewrite (bind_Ok _ _ _ _ _ (node_Ok _ _ _ Em1)).
  rewrite (bind_Ok _ _ _ _ _ (update_Ok _ _ _ _ Ex)). pose proof (gr_wf _ _ _ _ _ _ G) as Hwf1.
  specialize (Ho ltac:(lia)). assert (Hbm : nbegin m1 = nbegin n1).
  { destruct (up _ _ _ Hwf1 l1 (gr_one _ _ _ _ _ _ G l1 H1)) as (pq & _ & _ & Hb & _).
    rewrite (begin_of_eq _ _ _ Em1), (end_of_eq _ _ _ Em1) in Hb.
    destruct (B l1 n1 m1 H1 E1 Em1) as [?|(_ & Hc & _)]; [done|lia]. }
  pose proof (top_den _ _ _ l1 n1 Hwf H1 E1 Hp1) as Htop.
  assert (Hg2 : grown t1 den1 one1 (<[x:=set_begin (nbegin m1) nx]> t1) den1 one1).
  { eapply grown_replace; try done. apply fits_lower; try done; cbn [set_begin node_seg seg_begin].
    - destruct (up _ _ _ Hwf1 x Ho) as (pq & _ & _ & Hb & _ & Hd & _).
      rewrite (begin_of_eq _ _ _ Ex), (end_of_eq _ _ _ Ex) in *.
      assert (den1 x (nbegin nx)) as [?%Htop|?]%D by (apply Hd; right; lia); lia.
    - intros o Hr. apply D. rewrite Htop. lia. }
  eexists (Some x), _. split; [reflexivity|]. exists den1, one1, n1, n2. split_and!; try done.
  - by eapply grown_trans.
  - by rewrite length_insert.
  - intros M' HM' Hend y m. rewrite (lookup_update _ _ _ _ _ Ex). case_decide; [|by apply Mb].
    intros [= <-]. cbn. by apply (Mb M' HM' Hend x nx).
Qed.

(** Climbing [count] labels up: every step ends at least one byte earlier. *)
Lemma climb_spec t den one fuel : wf t den one -> forall count x, one x -> 0 <= count ->
  (Z.to_nat (end_of t x) < fuel)%nat ->
  exists r, climb fuel count x t = Ok (r, t) /\
    forall y, r = Some y -> one y /\ end_of t y + count <= end_of t x /\ (forall o, den y o -> den x o) /\
      (end_of t y + count = end_of t x -> forall o, end_of t y <= o < end_of t x -> den x o).
Proof.
  intros Hwf. induction fuel as [|fuel IH]; intros count x Hx Hc Hf; [lia|]. cbn [climb].
  destruct (Z.eqb_spec count 0) as [->|Hc0].
  { eexists. split; [done|]. intros y [= <-]. split; [done|]. split; [lia|]. split; [done|]. intros; lia. }
  destruct (up _ _ _ Hwf x Hx) as (p & (n & E & Hp) & Hpl & Hb & He & Hd & Hpr).
  rewrite (bind_Ok _ _ _ _ _ (node_Ok _ _ _ E)), Hp.
  destruct (Nat.eqb_spec p ROOT) as [|Hroot]; [by eexists|]. destruct Hpl as [?|Op]; [done|].
  destruct (IH (count - 1) p Op ltac:(lia) ltac:(lia)) as (r & Er & Hr). exists r. split; [done|].
  intros y Hy. destruct (Hr y Hy) as (Oy & Hle & Hsub & Hex). split; [done|]. split; [lia|].
  split; [intros o Ho; apply Hd; left; by apply Hsub|]. intros Heq o Ho.
  destruct (decide (o < end_of t p)) as [Hlt|Hge]; [apply Hd; left; apply Hex; lia|].
  apply Hd. right. lia.
Qed.
Lemma infer_shape2_spec t den one lb len : wf t den one -> is_label one lb -> 0 <= len < 2 ^ 32 -> end_of t lb < 2 ^ 31 ->
  exists t', infer_shape2 lb len t = Ok (tt, t') /\ grown t den one t' den one /\
    length t' = length t /\ forall M, ends_le t M -> ends_le t' M.
Proof.
  intros Hwf Hlb Hlen Hend. unfold infer_shape2.
  assert (Hid : forall b : bool, exists t', Ok (tt, t) = Ok (tt, t') /\ grown t den one t' den one /\
    length t' = length t /\ forall M, ends_le t M -> ends_le t' M).
  { intros _. exists t. split; [done|]. split; [by apply grown_refl|done]. }
  destruct (Nat.eqb_spec lb ROOT) as [|H0]; [by apply (Hid true)|]. destruct Hlb as [?|Hx]; [done|].
  destruct (up _ _ _ Hwf lb Hx) as (p & (n & E & Hp) & Hpl & Hb & He & Hd & Hpr).
  rewrite (bind_Ok _ _ _ _ _ (node_Ok _ _ _ E)). rewrite <-(begin_of_eq _ _ _ E), <-(end_of_eq _ _ _ E). cbv zeta.
  rewrite u32_small by lia. destruct (Z.ltb_spec (begin_of t lb + 1) (end_of t lb)) as [|Hsz]; [by apply (Hid true)|].
  assert (Hcount : 0 <= u64 (len - 1) < 2 ^ 64) by (apply (wrap_range 64); lia).
  destruct (climb_spec t den one (S (Z.to_nat (end_of t lb))) Hwf (u64 (len - 1)) lb Hx) as (r & Er & Hr); [lia..|].
  rewrite (bind_Ok _ _ _ _ _ Er). destruct r as [y|]; [|by apply (Hid true)].
  destruct (Hr y eq_refl) as (Oy & Hle & Hsub & Hex). pose proof (end_of_nonneg _ _ _ Hwf y).
  assert (Hlen1 : 1 <= len).
  { destruct (decide (len = 0)) as [->|]; [|lia]. change (u64 (0 - 1)) with (2 ^ 64 - 1) in Hle. lia. }
  rewrite u64_small in Hle, Hex by lia. destruct (one_lookup _ _ _ Hwf y Oy) as [ny Ey].
  destruct (up _ _ _ Hwf y Oy) as (py & _ & _ & Hby & _ & Hdy & _).
  rewrite (bind_Ok _ _ _ _ _ (node_Ok _ _ _ Ey)). rewrite <-(begin_of_eq _ _ _ Ey).
  rewrite u32_small by lia. unfold when.
  destruct ((node_parent ny =? ROOT)%nat && (begin_of t y + len =? end_of t lb)) eqn:Hc; [|by apply (Hid true)].
  apply andb_true_iff in Hc as [_ Hc%Z.eqb_eq]. rewrite (update_Ok _ _ _ _ E). eexists. split; [done|].
  split; [|split; [by rewrite length_insert|]].
  - eapply grown_replace; try done. apply fits_lower; try done; cbn [set_begin node_seg seg_begin];
      rewrite <-?(begin_of_eq _ _ _ E), <-?(end_of_eq _ _ _ E); [lia|].
    intros o Ho. destruct (decide (o < end_of t y)); [apply Hsub, Hdy; right; lia|apply Hex; lia].
  - intros M HM z m. rewrite (lookup_update _ _ _ _ _ E). case_decide; [|by apply HM].
    intros [= <-]. cbn. by apply (HM lb n).
Qed.

(** ** [combine_n] *)

(** Whether [combine_n] loses nothing: it takes the labels for a variable, or none of
    its joins loses an offset. *)
Definition join_n_exact (t : TagSet) (lbs : list nat) (infer : bool) : bool :=
  match drop_roots lbs with
  | [] | [_] => true
  | cur_lb :: rest =>
      match (if infer then infer_shape cur_lb (default ROOT (list.last lbs)) (Z.of_nat (length lbs))
             else ret None) t with
      | Ok (Some _, _) => true
      | Ok (None, _) => joins_exact t cur_lb rest
      | Fault _ => false
      end
  end.

Lemma drop_roots_sub lbs l : l ∈ drop_roots lbs -> l ∈ lbs.
Proof. induction lbs as [|x r IH]; cbn; [done|]. case_match; set_solver. Qed.
Lemma drop_roots_back lbs l : l ∈ lbs -> l <> ROOT -> l ∈ drop_roots lbs.
Proof.
  induction lbs as [|x r IH]; cbn; [done|]. intros H H0. destruct (Nat.eqb_spec x ROOT); [|done].
  apply IH; [|done]. apply elem_of_cons in H as [->|?]; done.
Qed.
Lemma drop_roots_head lbs l r : drop_roots lbs = l :: r -> l <> ROOT.
Proof. induction lbs as [|x s IH]; cbn; [done|]. destruct (Nat.eqb_spec x ROOT); [done|]. by intros [= -> _]. Qed.
Lemma drop_roots_length lbs : (length (drop_roots lbs) <= length lbs)%nat.
Proof. induction lbs as [|x r IH]; cbn; [done|]. case_match; cbn; lia. Qed.

Section CombineN.
Context (t : TagSet) (den : nat -> Z -> Prop) (one : nat -> Prop) (Hwf : wf t den one).

Lemma one_offsets x : one x -> offsets t x <> ∅.
Proof.
  intros Hx He. destruct (up _ _ _ Hwf x Hx) as (p & _ & _ & Hb & _ & Hd & _).
  assert (begin_of t x ∈ offsets t x) by (apply (offsets_den _ _ _ Hwf); [by right|]; apply Hd; right; lia).
  set_solver.
Qed.
Lemma root_offsets : offsets t 0 = ∅.
Proof.
  apply set_eq. intros o. rewrite (offsets_den _ _ _ Hwf) by by left. split; [by intros []%(wf_root_den _ _ _ Hwf)|set_solver].
Qed.
Lemma head_offsets lbs l r : Forall (is_label one) lbs -> drop_roots lbs = l :: r ->
  head (filter (fun X => X <> ∅) (offsets t <$> lbs)) = Some (offsets t l).
Proof.
  induction lbs as [|x s IH]; intros Hl E; [done|]. apply list.Forall_cons in Hl as [Hx Hs]. cbn in E.
  rewrite list.fmap_cons, filter_cons. destruct (Nat.eqb_spec x ROOT) as [->|Hne].
  - unfold ROOT. rewrite decide_False by (rewrite root_offsets; tauto). by apply IH.
  - injection E as -> ->. destruct Hx as [?|Hx]; [done|]. by rewrite decide_True by by apply one_offsets.
Qed.

(** If the labels are the bytes of a variable where they look so, [infer_shape] is right. *)
Lemma infer_shape_joined lbs l r M : Forall (is_label one) lbs -> drop_roots lbs = l :: r ->
  ends_le t M -> M + 8 < 2 ^ 32 -> Z.of_nat (length t) < MAX_LB -> shape_sound (offsets t <$> lbs) ->
  exists res t', infer_shape l (default ROOT (list.last lbs)) (Z.of_nat (length lbs)) t = Ok (res, t') /\
    match res with
    | None => t' = t
    | Some x => exists den' one', joined t den one (fun o => exists l, l ∈ lbs /\ den l o) True 1 x t' den' one'
    end.
Proof.
  intros Hl Ed HM HM8 Hroom Hsound. rewrite list.Forall_forall in Hl.
  pose proof (drop_roots_head _ _ _ Ed) as H0.
  assert (O1 : one l) by (destruct (Hl l); [apply drop_roots_sub; rewrite Ed; by left|done|done]).
  assert (exists l2, list.last lbs = Some l2) as [l2 El2].
  { destruct (list.last lbs) eqn:E; [eauto|]. apply last_None in E as ->. done. }
  assert (L2 : is_label one l2) by (apply Hl; by apply last_Some_elem_of). rewrite El2. cbn [default].
  destruct (infer_shape_spec t den one l l2 (Z.of_nat (length lbs)) M) as (res & t' & E & Hr); try done.
  exists res, t'. split; [done|]. destruct res as [x|]; [|done].
  destruct Hr as (den' & one' & n1 & n2 & Hlen & E1 & E2 & P1 & P2 & Hend & G & Ox & Dx & R & Mb).
  pose proof (top_den _ _ _ l n1 Hwf O1 E1 P1) as T1. pose proof (wf_end _ _ _ Hwf _ _ E2).
  destruct (up _ _ _ Hwf l O1) as (_ & _ & _ & B1 & _). rewrite (begin_of_eq _ _ _ E1), (end_of_eq _ _ _ E1) in B1.
  assert (O2 : one l2). { destruct L2 as [->|?]; [|done]. destruct (wf_root _ _ _ Hwf) as (n0 & E0 & Z0 & _). simplify_eq. lia. }
  pose proof (top_den _ _ _ l2 n2 Hwf O2 E2 P2) as T2.
  destruct (up _ _ _ Hwf l2 O2) as (_ & _ & _ & B2 & _). rewrite (begin_of_eq _ _ _ E2), (end_of_eq _ _ _ E2) in B2.
  destruct (Hsound ltac:(rewrite length_fmap; done) (offsets t l) (offsets t l2) (nbegin n1)) as [HX HU].
  { apply head_offsets with r; [by apply list.Forall_forall|done]. }
  { by rewrite fmap_last, El2. }
  { apply (offsets_den _ _ _ Hwf); [by right|]. apply T1. lia. }
  { intros o Ho%(offsets_den _ _ _ Hwf); [|by right]. apply T1 in Ho. lia. }
  { rewrite length_fmap. apply (offsets_den _ _ _ Hwf); [done|]. apply T2. lia. }
  { rewrite length_fmap. intros o Ho%(offsets_den _ _ _ Hwf); [|done]. apply T2 in Ho. lia. }
  rewrite length_fmap in HU.
  assert (He1 : nend n1 = nbegin n1 + 1).
  { assert (nend n1 - 1 ∈ offsets t l) as Hi by (apply (offsets_den _ _ _ Hwf); [by right|]; apply T1; lia).
    rewrite HX in Hi. apply elem_of_singleton in Hi. lia. }
  assert (HD : forall o, (exists l0, l0 ∈ lbs /\ den l0 o) <-> nbegin n1 <= o < nbegin n1 + Z.of_nat (length lbs)).
  { intros o. rewrite <-HU, elem_of_union_list. split.
    - intros (l0 & Hl0 & Ho). exists (offsets t l0). split; [by apply list_elem_of_fmap_2|]. apply (offsets_den _ _ _ Hwf); auto.
    - intros (X & (l0 & -> & Hl0)%list_elem_of_fmap & Ho). exists l0. split; [done|]. apply (offsets_den _ _ _ Hwf) in Ho; auto. }
  exists den', one'. split; [done|by right| | |done|].
  - intros o. rewrite Dx, T1, HD. lia.
  - intros _ o. rewrite Dx, T1, HD. lia.
  - intros M' HM'. apply Mb; [|done]. pose proof (HM' _ _ E2). lia.
Qed.

Lemma combine_n_joined lbs infer M : Forall (is_label one) lbs -> 0 <= M -> ends_le t M -> M + 8 < 2 ^ 32 ->
  Z.of_nat (length t) + Z.of_nat (length lbs) * (join_cost M + 1) <= MAX_LB ->
  (infer = true -> shape_sound (offsets t <$> lbs)) ->
  exists x t' den' one', combine_n lbs infer t = Ok (x, t') /\
    joined t den one (fun o => exists l, l ∈ lbs /\ den l o) (join_n_exact t lbs infer = true)
      (length lbs * Z.to_nat (join_cost M + 1)) x t' den' one'.
Proof.
  intros Hl HM0 HM HM8 Hroom Hsound. unfold combine_n, join_n_exact. pose proof (drop_roots_length lbs) as Hdl.
  assert (Hcov : forall l o, l ∈ lbs -> den l o -> l ∈ drop_roots lbs).
  { intros l o Hi Ho. apply drop_roots_back; [done|]. intros ->. by apply (wf_root_den _ _ _ Hwf) in Ho. }
  assert (Hsub : forall l, l ∈ drop_roots lbs -> l ∈ lbs /\ is_label one l).
  { intros l Hi%drop_roots_sub. rewrite list.Forall_forall in Hl. auto. }
  destruct (drop_roots lbs) as [|cur [|nx rest]] eqn:Ed.
  - exists 0%nat, t, den, one. split; [done|]. eapply joined_weaken; [apply (joined_refl _ _ _ 0%nat (den 0%nat) True Hwf)| | |lia]; try done.
    + by left.
    + by intros o []%(wf_root_den _ _ _ Hwf).
    + intros _. split; [done|]. intros o (l & Hi & Ho). by specialize (Hcov l o Hi Ho) as []%elem_of_nil.
  - destruct (Hsub cur) as [Hi Hc]; [by left|]. exists cur, t, den, one. split; [done|].
    eapply joined_weaken; [apply (joined_refl _ _ _ cur (den cur) True Hwf)| | |lia]; try done.
    + intros o Ho. eauto.
    + intros _. split; [done|]. intros o (l & Hl' & Ho). specialize (Hcov l o Hl' Ho). by apply list_elem_of_singleton in Hcov as ->.
  - destruct (Hsub cur) as [Hi Hc]; [by left|]. cbn [length] in Hdl.
    assert (Hnone : exists x t' den' one', combine_all cur (nx :: rest) t = Ok (x, t') /\
      joined t den one (fun o => exists l, l ∈ lbs /\ den l o) (joins_exact t cur (nx :: rest) = true)
        (length lbs * Z.to_nat (join_cost M + 1)) x t' den' one').
    { unfold join_cost in *. destruct (combine_all_joined M (nx :: rest) HM0 t den one cur Hwf Hc) as (x & t' & den' & one' & E & J); try done.
      - apply list.Forall_forall. intros l Hin. apply Hsub. by right.
      - unfold join_cost. cbn [length]. nia.
      - exists x, t', den', one'. split; [done|]. eapply joined_weaken; [exact J| | |unfold join_cost; cbn [length]; nia].
        + intros o [Ho|(l & Hin & Ho)]; [by exists cur|]. exists l. split; [|done]. apply Hsub. by right.
        + intros Hx. split; [done|]. intros o (l & Hin & Ho). destruct (proj1 (elem_of_cons _ _ _) (Hcov l o Hin Ho)) as [->|?]; eauto. }
    destruct infer; [|by rewrite (bind_Ok _ _ _ _ _ (eq_refl : ret None t = Ok (None, t)))].
    destruct (infer_shape_joined lbs cur (nx :: rest) M) as (res & t' & E & Hr); try done; [unfold join_cost in *; nia|by apply Hsound|].
    rewrite (bind_Ok _ _ _ _ _ E), E. destruct res as [x|]; [|by subst t'].
    destruct Hr as (den' & one' & J). exists x, t', den', one'. split; [done|]. eapply joined_weaken; [exact J|done|done|unfold join_cost; nia].
Qed.
End CombineN.
