(* ===== verification/TagSetFind.v ===== *)
(** * Reading a label back

    [split_and_op] and [find] of [tag_set.rs]: the segments [find] returns are sorted and
    are the offsets of the label. *)

From Stdlib Require Import Sorted.
From S2P Require Import Prelude TagSet TagSetProofs TagSetJoin TagSetOps.
Local Open Scope Z_scope.

(** ** Notes *)

Lemma note_grown t den one x n n' : wf t den one -> t !! x = Some n ->
  node_left n' = node_left n -> node_right n' = node_right n -> node_parent n' = node_parent n ->
  nbegin n' = nbegin n -> nend n' = nend n ->
  grown t den one (<[ x := n' ]> t) den one /\ forall M, ends_le t M -> ends_le (<[ x := n' ]> t) M.
Proof.
  intros Hwf E Hl Hr Hp Hb He. split; [eapply grown_replace; try done; by left|].
  intros M HM y m. rewrite (lookup_update _ _ _ _ _ E). case_decide; [|by apply HM].
  intros [= <-]. rewrite He. by apply (HM x n).
Qed.
Lemma set_sign_spec t den one x : wf t den one -> is_label one x ->
  exists t', set_sign x t = Ok (tt, t') /\ grown t den one t' den one /\ length t' = length t /\
    forall M, ends_le t M -> ends_le t' M.
Proof.
  intros Hwf Hx. destruct (label_lookup _ _ _ Hwf x Hx) as [n E]. unfold set_sign. rewrite (update_Ok _ _ _ _ E).
  eexists. split; [done|]. destruct (note_grown t den one x n (set_seg_sign n)); try done. by rewrite length_insert.
Qed.
Lemma combine_and_spec' t den one x : wf t den one -> is_label one x ->
  exists t', combine_and x t = Ok (tt, t') /\ grown t den one t' den one /\ length t' = length t /\
    forall M, ends_le t M -> ends_le t' M.
Proof.
  intros Hwf Hx. destruct (label_lookup _ _ _ Hwf x Hx) as [n E]. unfold combine_and. rewrite (update_Ok _ _ _ _ E).
  eexists. split; [done|]. destruct (note_grown t den one x n (set_and_op n)); try done. by rewrite length_insert.
Qed.

(** ** Room for splitting

    [gaps t x k]: [k] more nodes on the way to [x] would make every node end one byte
    after the one above it. *)
Inductive gaps (t : TagSet) : nat -> Z -> Prop :=
| gaps_root : gaps t 0 0
| gaps_up x n p j k : t !! x = Some n -> node_parent n = p -> x <> 0%nat -> gaps t p j ->
    k = j + (nend n - end_of t p - 1) -> gaps t x k.

Lemma gaps_exist t den one : wf t den one -> forall fuel x, is_label one x -> (Z.to_nat (end_of t x) <= fuel)%nat ->
  exists k, gaps t x k /\ 0 <= k <= end_of t x.
Proof.
  intros Hwf. induction fuel as [|fuel IH]; intros x [->|Hx] Hf.
  - exists 0. split; [constructor|]. rewrite (end_of_root _ _ _ Hwf). lia.
  - destruct (up _ _ _ Hwf x Hx) as (p & _ & _ & ? & _). lia.
  - exists 0. split; [constructor|]. rewrite (end_of_root _ _ _ Hwf). lia.
  - destruct (up _ _ _ Hwf x Hx) as (p & (n & E & Hp) & Lp & Hb & He & _).
    destruct (IH p Lp ltac:(lia)) as (k & Hk & Hle). eexists. split; [eapply gaps_up; [exact E|exact Hp|by eapply one_nonzero|exact Hk|done]|].
    rewrite (end_of_eq _ _ _ E) in *. lia.
Qed.
Lemma gaps_nonneg t den one x k : wf t den one -> gaps t x k -> is_label one x -> 0 <= k.
Proof.
  intros Hwf Hk. induction Hk as [|x n p j k E Hp H0 Hk IH Hj]; intros Hl; [done|]. destruct Hl as [?|Hx]; [done|].
  destruct (up _ _ _ Hwf x Hx) as (p0 & (n0 & E0 & Hp0) & Lp & Hb & He & _). rewrite E in E0. injection E0 as <-.
  rewrite Hp in Hp0. subst p0. rewrite (end_of_eq _ _ _ E) in He. specialize (IH Lp). lia.
Qed.
(** Parents above a node stay, if only nodes that end later change theirs. *)
Lemma gaps_kept t den one t' den' one' x k : wf t den one -> grown t den one t' den' one' -> gaps t x k -> is_label one x ->
  (forall y n n', end_of t y <= end_of t x -> t !! y = Some n -> t' !! y = Some n' -> node_parent n' = node_parent n) ->
  gaps t' x k.
Proof.
  intros Hwf G Hk. induction Hk as [|x n p j k E Hp H0 Hk IH Hj]; intros Hl Hsame; [constructor|].
  destruct Hl as [?|Hx]; [done|].
  destruct (up _ _ _ Hwf x Hx) as (p0 & (n0 & E0 & Hp0) & Lp & Hb & He & _). rewrite E in E0. injection E0 as <-.
  rewrite Hp in Hp0. subst p0. destruct (gr_node _ _ _ _ _ _ G x n E) as (n' & E' & Hn').
  assert (Hep : end_of t p = end_of t' p).
  { destruct (label_lookup _ _ _ Hwf p Lp) as [np Ep]. destruct (gr_node _ _ _ _ _ _ G p np Ep) as (np' & Ep' & Hnp).
    by rewrite (end_of_eq _ _ _ Ep), (end_of_eq _ _ _ Ep'). }
  rewrite Hep, <-Hn' in Hj. eapply gaps_up; [exact E'| |done| |exact Hj].
  - rewrite <-Hp. eapply Hsame; [|done..]. lia.
  - apply IH; [done|]. intros y m m' Hle. apply Hsame. lia.
Qed.

(** ** Splitting a variable *)

(** [cur] is the parent of [lb] and [lb] its child on the right. *)
Definition above (t : TagSet) (cur lb : nat) : Prop :=
  exists nc nl, t !! cur = Some nc /\ t !! lb = Some nl /\ node_right nc = lb /\ node_parent nl = cur /\ lb <> 0%nat.

Record splitting (t : TagSet) (den : nat -> Z -> Prop) (one : nat -> Prop) (lb : nat) (k : Z) (room : nat)
  (t' : TagSet) (den' : nat -> Z -> Prop) (one' : nat -> Prop) : Prop := mkSplitting {
  sp_grown : grown t den one t' den' one';
  sp_parent : exists nl p, t' !! lb = Some nl /\ node_parent nl = p /\ is_label one' p /\ gaps t' p k;
  sp_room : (length t' <= length t + room)%nat;
  sp_bound M : ends_le t M -> ends_le t' M
}.

Lemma split_step t den one cur lb k : wf t den one -> one cur -> above t cur lb -> gaps t cur k ->
  end_of t cur + 1 < end_of t lb -> Z.of_nat (length t) < MAX_LB ->
  exists t' den' one', insert_n_ones cur 1 cur t = Ok (length t, t') /\ grown t den one t' den' one' /\
    one' (length t) /\ above t' (length t) lb /\ gaps t' (length t) k /\ end_of t' (length t) = end_of t cur + 1 /\
    end_of t' lb = end_of t lb /\ length t' = S (length t) /\ forall M, ends_le t M -> ends_le t' M.
Proof.
  intros Hwf Hc (nc & nl & Ec & El & Hr & Hp & H0) Hk Hlt Hroom.
  rewrite (end_of_eq _ _ _ Ec), (end_of_eq _ _ _ El) in *. rewrite <-Hr in El, H0.
  pose proof (wf_end _ _ _ Hwf _ _ Ec). pose proof (wf_end _ _ _ Hwf _ _ El).
  assert (Hne : cur <> node_right nc) by (intros E; rewrite <-E, Ec in El; injection El as <-; lia).
  unfold insert_n_ones. change (Z.to_nat 1) with 1%nat. cbn [ones_loop Z.eqb].
  rewrite (bind_Ok _ _ _ _ _ (node_Ok _ _ _ Ec)). cbv zeta. rewrite (proj2 (Nat.eqb_neq _ _) H0).
  rewrite (bind_Ok _ _ _ _ _ (node_Ok _ _ _ El)). rewrite !u32_small by lia.
  rewrite (proj2 (Z.ltb_lt _ _)) by lia. rewrite (bind_Ok _ _ _ _ _ (new_node_Ok _ _ _ _ Hroom)).
  destruct (ones_split t cur cur nc nl 1) as (t' & -> & Hlen & Hlook); [done..|].
  destruct (landed_right t t' den one Hwf cur cur nc nc 1 Ec Ec) as [G (nx & Ex & Hx) D R B Mb]; try done; try lia.
  { by right. } { intros _ m Em. rewrite El in Em. injection Em as <-. lia. }
  exists t', (right_den t den cur nc 1), (right_one t one). split; [done|]. split; [done|]. split; [by right|].
  pose proof (lookup_lt_Some _ _ _ El). pose proof (lookup_lt_Some _ _ _ Ec).
  assert (El' : t' !! node_right nc = Some (set_begin (nend nc + 1) (set_parent (length t) nl)))
    by (rewrite Hlook, decide_False, decide_False, decide_True, El by (done || lia); done).
  assert (Ex' := Hlook (length t)). rewrite decide_True in Ex' by done.
  split_and!.
  - rewrite <-Hr. eexists _, _. split; [exact Ex'|]. split; [exact El'|]. done.
  - eapply (gaps_up t' (length t) _ cur k); [exact Ex'|done|lia| |].
    + cbn. eapply (gaps_kept t den one); try done; [by right|].
      intros y m m' Hle Em Em'. rewrite (end_of_eq _ _ _ Ec), (end_of_eq _ _ _ Em) in Hle.
      rewrite Hlook in Em'. rewrite decide_False in Em' by (apply lookup_lt_Some in Em; lia).
      destruct (decide (y = cur)) as [->|]; [simplify_eq; done|].
      rewrite decide_False in Em' by (intros [-> _]; simplify_eq; lia). congruence.
    + destruct (gr_node _ _ _ _ _ _ G cur nc Ec) as (nc' & Ec' & Hc'). cbn. rewrite (end_of_eq _ _ _ Ec'). lia.
  - by rewrite (end_of_eq _ _ _ Ex').
  - rewrite <-Hr. by rewrite (end_of_eq _ _ _ El').
  - lia.
  - intros M HM. apply Mb; [|done]. pose proof (HM _ _ El). lia.
Qed.

Lemma split_last t den one cur lb : wf t den one -> one cur -> above t cur lb -> end_of t cur + 1 = end_of t lb ->
  insert_n_ones cur 1 cur t = Ok (lb, t).
Proof.
  intros Hwf Hc (nc & nl & Ec & El & Hr & Hp & H0) Hlt. rewrite (end_of_eq _ _ _ Ec), (end_of_eq _ _ _ El) in *.
  pose proof (wf_end _ _ _ Hwf _ _ Ec). pose proof (wf_end _ _ _ Hwf _ _ El).
  unfold insert_n_ones. change (Z.to_nat 1) with 1%nat. cbn [ones_loop Z.eqb].
  rewrite (bind_Ok _ _ _ _ _ (node_Ok _ _ _ Ec)). cbv zeta. rewrite Hr, (proj2 (Nat.eqb_neq _ _) H0).
  rewrite (bind_Ok _ _ _ _ _ (node_Ok _ _ _ El)). rewrite !u32_small by lia.
  rewrite (proj2 (Z.ltb_ge _ _)) by lia.
  by replace (1 - (nend nl - nend nc)) with 0 by lia.
Qed.

Lemma split_ones_spec lb k fuel : forall t den one cur, wf t den one -> one cur -> above t cur lb -> gaps t cur k ->
  end_of t cur < end_of t lb -> (Z.to_nat (end_of t lb - end_of t cur) < fuel)%nat ->
  Z.of_nat (length t) + (end_of t lb - end_of t cur - 1) <= MAX_LB ->
  exists t' den' one' cur', split_ones fuel cur lb t = Ok (tt, t') /\ grown t den one t' den' one' /\
    one' cur' /\ above t' cur' lb /\ gaps t' cur' k /\ end_of t' cur' + 1 = end_of t' lb /\
    end_of t' lb = end_of t lb /\
    Z.of_nat (length t') = Z.of_nat (length t) + (end_of t lb - end_of t cur - 1) /\
    forall M, ends_le t M -> ends_le t' M.
Proof.
  induction fuel as [|fuel IH]; intros t den one cur Hwf Hc Ha Hk Hlt Hf Hroom; [lia|]. cbn [split_ones].
  rewrite (proj2 (Nat.eqb_neq cur lb)) by (intros ->; lia).
  destruct (decide (end_of t cur + 1 = end_of t lb)) as [Heq|Hne].
  - rewrite (bind_Ok _ _ _ _ _ (split_last _ _ _ _ _ Hwf Hc Ha Heq)).
    exists t, den, one, cur. destruct fuel; [lia|]. cbn [split_ones]. rewrite Nat.eqb_refl.
    split; [done|]. split; [by apply grown_refl|]. split_and!; try done; lia.
  - destruct (split_step t den one cur lb k) as (t1 & den1 & one1 & E & G1 & O1 & A1 & K1 & He1 & He2 & L1 & M1); try done; [lia..|].
    rewrite (bind_Ok _ _ _ _ _ E).
    destruct (IH t1 den1 one1 (length t)) as (t2 & den2 & one2 & c & -> & G2 & O2 & A2 & K2 & He3 & He4 & L2 & M2);
      try done; try lia; [by eapply gr_wf|].
    exists t2, den2, one2, c. split; [done|]. split; [by eapply grown_trans|]. split_and!; try done; try lia. auto.
Qed.

Lemma split_and_op_spec t den one lb k : wf t den one -> one lb -> gaps t lb k -> Z.of_nat (length t) + k <= MAX_LB ->
  exists t' den' one' nl j, split_and_op lb t = Ok (lb, t') /\ grown t den one t' den' one' /\
    t' !! lb = Some nl /\ gaps t' (node_parent nl) j /\
    Z.of_nat (length t') + j <= Z.of_nat (length t) + k /\ forall M, ends_le t M -> ends_le t' M.
Proof.
  intros Hwf Hx Hk Hroom. destruct (up _ _ _ Hwf lb Hx) as (p & (n & E & Hp) & Lp & Hb & He & _).
  assert (exists j, gaps t p j /\ k = j + (end_of t lb - end_of t p - 1)) as (j & Hj & Hjk).
  { inversion Hk as [|x m q j k' Em Hq H0 Hg Heq]; subst; [by apply (one_nonzero _ _ _ Hwf) in Hx|].
    rewrite E in Em. injection Em as <-. exists j. rewrite (end_of_eq _ _ _ E). done. }
  pose proof (gaps_nonneg _ _ _ _ _ Hwf Hj Lp).
  assert (Hid : exists t' den' one' nl j, Ok (lb, t) = Ok (lb, t') /\ grown t den one t' den' one' /\
    t' !! lb = Some nl /\ gaps t' (node_parent nl) j /\
    Z.of_nat (length t') + j <= Z.of_nat (length t) + k /\ forall M, ends_le t M -> ends_le t' M).
  { exists t, den, one, n, j. split; [done|]. split; [by apply grown_refl|]. rewrite Hp. split_and!; try done. lia. }
  rewrite (begin_of_eq _ _ _ E) in Hb. rewrite (end_of_eq _ _ _ E) in Hb, He, Hjk.
  unfold split_and_op. rewrite (bind_Ok _ _ _ _ _ (node_Ok _ _ _ E)). cbv zeta. rewrite Hp.
  match goal with |- context [if ?c then _ else _] => destruct c eqn:Hc end; [|by rewrite (bind_Ok (ret tt) _ t tt t)].
  apply andb_true_iff in Hc as [_ Hroot%negb_true_iff%Nat.eqb_neq]. destruct Lp as [?|Op]; [done|].
  destruct (one_lookup _ _ _ Hwf p Op) as [np Ep]. rewrite <-bind_assoc, (bind_Ok _ _ _ _ _ (node_Ok _ _ _ Ep)). unfold when.
  destruct (Z.leb_spec (nbegin n) (nbegin np)) as [Hle|]; [|by rewrite (bind_Ok (ret tt) _ t tt t)].
  rewrite (end_of_eq _ _ _ Ep) in He, Hjk. rewrite (proj2 (Z.ltb_lt (nend np) (nend n))) by lia.
  pose proof (one_nonzero _ _ _ Hwf lb Hx) as H0. pose proof (wf_end _ _ _ Hwf _ _ E).
  assert (Ha : above t p lb).
  { exists np, n. split_and!; try done. destruct (wf_one _ _ _ Hwf lb Hx) as (_ & m & q & [Em Eq _ _ _ _ _ Hn]).
    rewrite E in Em. injection Em as <-. rewrite Hp, Ep in Eq. injection Eq as <-. apply Hn.
    destruct (up _ _ _ Hwf p Op) as (_ & _ & _ & Hbp & _). rewrite (begin_of_eq _ _ _ Ep), (end_of_eq _ _ _ Ep) in Hbp. lia. }
  destruct (split_ones_spec lb j (S (Z.to_nat (nend n - nend np))) t den one p) as
    (t1 & den1 & one1 & c & E1 & G1 & O1 & (nc & nl & Ec & El & Hr & Hpl & _) & K1 & He3 & He4 & L1 & M1); try done;
    rewrite ?(end_of_eq _ _ _ E), ?(end_of_eq _ _ _ Ep) in *; try lia.
  rewrite <-bind_assoc, (bind_Ok _ _ _ _ _ E1), (bind_Ok _ _ _ _ _ (update_Ok _ _ _ _ El)).
  rewrite (end_of_eq _ _ _ Ec) in He3. rewrite (end_of_eq _ _ _ El) in He3, He4. rewrite u32_small by lia.
  pose proof (gr_wf _ _ _ _ _ _ G1) as Hwf1. pose proof (gr_one _ _ _ _ _ _ G1 lb Hx) as Hx1.
  destruct (wf_right _ _ _ Hwf1 c nc Ec ltac:(by rewrite Hr)) as (_ & nl' & El' & _ & _ & Hd). rewrite Hr, El in *. injection El' as <-.
  assert (G2 : grown t1 den1 one1 (<[lb:=set_begin (nend n - 1) nl]> t1) den1 one1).
  { eapply grown_replace; try done. right. cbn. rewrite Hpl. split; [done|]. split; [lia|]. split; [|split].
    - intros o. rewrite Hd. intuition lia.
    - intros q Eq _. rewrite Ec in Eq. by injection Eq as <-.
    - intros y m Ey Hry. assert (y = c) as -> by (eapply (wf_right_inj _ _ _ Hwf1); [exact Ey|exact Ec|congruence|congruence]).
      rewrite Ec in Ey. injection Ey as <-. lia. }
  eexists _, den1, one1, _, j. split; [done|]. split; [by eapply grown_trans|]. split; [by rewrite (lookup_update _ _ _ _ _ El), decide_True|].
  split_and!.
  - cbn. rewrite Hpl. eapply (gaps_kept t1 den1 one1); try done; [by right|].
    intros y m m' _ Em. rewrite (lookup_update _ _ _ _ _ El). case_decide; intros [= <-] || intros Em'; subst; simplify_eq; done.
  - rewrite length_insert. lia.
  - intros M HM y m. rewrite (lookup_update _ _ _ _ _ El). case_decide; [|by apply M1].
    intros [= <-]. cbn. by apply (M1 M HM lb nl).
Qed.

(** ** [find] *)

Definition in_seg (o : Z) (s : TagSeg) : Prop := seg_begin s <= o < seg_end s.
Definition seg_before (s1 s2 : TagSeg) : Prop := seg_begin s1 < seg_begin s2 /\ seg_end s1 < seg_end s2.

Section Find.
Context (D : Z -> Prop).

(** The loop: the segments found so far are the offsets from [lb]'s end on. *)
Record finding (t : TagSet) (den : nat -> Z -> Prop) (one : nat -> Prop) (lb : nat) (last : Z) (acc : list TagSeg)
  : Prop := mkFinding {
  fi_label : is_label one lb;
  fi_den o : den lb o <-> D o /\ o < end_of t lb;
  fi_sound s o : s ∈ acc -> in_seg o s -> D o;
  fi_size s : s ∈ acc -> seg_begin s < seg_end s;
  fi_found o : D o -> end_of t lb <= o -> exists s, s ∈ acc /\ in_seg o s;
  fi_sorted : StronglySorted seg_before acc;
  fi_last : match acc with [] => last = MAX_LB | s :: _ => last = seg_begin s /\ end_of t lb < seg_end s end
}.

Lemma finding_grown t den one t' den' one' lb last acc : wf t den one -> grown t den one t' den' one' ->
  finding t den one lb last acc -> finding t' den' one' lb last acc.
Proof.
  intros Hwf G [Hl Hd Hs Hz Hf Hso Hla]. destruct (label_lookup _ _ _ Hwf lb Hl) as [n E].
  destruct (gr_node _ _ _ _ _ _ G lb n E) as (n' & E' & Hn).
  assert (He : end_of t' lb = end_of t lb) by (by rewrite (end_of_eq _ _ _ E), (end_of_eq _ _ _ E')).
  split; rewrite ?He; try done; [by eapply grown_label|]. intros o. by rewrite (gr_den _ _ _ _ _ _ G lb n).
Qed.
Lemma before_push s acc last : StronglySorted seg_before acc ->
  match acc with [] => True | s0 :: _ => last = seg_begin s0 /\ seg_end s < seg_end s0 end ->
  seg_begin s < last -> StronglySorted seg_before (s :: acc).
Proof.
  intros Hso Hh Hlt. constructor; [done|]. destruct acc as [|s0 acc]; [constructor|]. destruct Hh as [-> He].
  apply StronglySorted_inv in Hso as [_ Hall]. constructor; [by split|].
  eapply list.Forall_impl; [exact Hall|]. intros s1 [? ?]. split; lia.
Qed.

(** One step: the segment of [lb] is kept, or lies inside the last one. *)
Lemma finding_step t den one lb n last acc : wf t den one -> one lb -> t !! lb = Some n -> nend n <= MAX_LB ->
  finding t den one lb last acc ->
  if nbegin n <? last then finding t den one (node_parent n) (nbegin n) (node_seg n :: acc)
  else finding t den one (node_parent n) last acc.
Proof.
  intros Hwf Hx E HM [Hl Hd Hs Hz Hf Hso Hla].
  destruct (up _ _ _ Hwf lb Hx) as (p & (n0 & E0 & Hp) & Lp & Hb & He & Hdx & Hpr). rewrite E in E0. injection E0 as <-.
  rewrite Hp. rewrite (begin_of_eq _ _ _ E), (end_of_eq _ _ _ E) in *.
  assert (Hdp : forall o, den p o <-> D o /\ o < end_of t p).
  { intros o. split.
    - intros Ho. split; [apply Hd, Hdx; by left|]. destruct (label_lookup _ _ _ Hwf p Lp) as [np Ep].
      rewrite (end_of_eq _ _ _ Ep). eapply (wf_den _ _ _ Hwf); [exact Ep|done].
    - intros [HD Ho]. apply Hpr; [done|]. apply Hd. split; [done|lia]. }
  assert (Hcase : forall o, D o -> end_of t p <= o -> nend n <= o \/ nbegin n <= o < nend n).
  { intros o HD Ho. destruct (decide (nend n <= o)); [by left|right].
    destruct (proj1 (Hdx o)) as [[_ ?]%Hdp|?]; [apply Hd; split; [done|lia]|lia|done]. }
  assert (Hin : forall o, nbegin n <= o < nend n -> D o) by (intros o Ho; apply Hd, Hdx; by right).
  destruct (Z.ltb_spec (nbegin n) last) as [Hlt|Hge]; split; try done.
  - intros s o [->|Hi]%elem_of_cons Ho; [by apply Hin|by eapply Hs].
  - intros s [->|Hi]%elem_of_cons; [lia|by apply Hz].
  - intros o HD Ho. destruct (Hcase o HD Ho) as [Hc|Hc]; [destruct (Hf o HD Hc) as (s & ? & ?); exists s; set_solver|].
    exists (node_seg n). split; [by left|done].
  - eapply before_push; [done| |exact Hlt]. destruct acc; [done|]. destruct Hla. by split.
  - cbn. split; [done|lia].
  - intros o HD Ho. destruct (Hcase o HD Ho) as [Hc|Hc]; [by apply Hf|].
    destruct acc as [|s acc]; [lia|]. exists s. split; [by left|]. unfold in_seg. lia.
  - destruct acc; [done|]. split; [tauto|lia].
Qed.

Lemma find_loop_spec fuel : forall t den one lb last acc k, wf t den one -> finding t den one lb last acc ->
  gaps t lb k -> Z.of_nat (length t) + k <= MAX_LB -> end_of t lb <= MAX_LB -> (Z.to_nat (end_of t lb) < fuel)%nat ->
  exists segs t' den' one', find_loop fuel lb last acc t = Ok (segs, t') /\ grown t den one t' den' one' /\
    (forall o, D o <-> exists s, s ∈ segs /\ in_seg o s) /\
    (forall s, s ∈ segs -> seg_begin s < seg_end s) /\ StronglySorted seg_before segs /\
    Z.of_nat (length t') <= Z.of_nat (length t) + k /\ forall M, ends_le t M -> ends_le t' M.
Proof.
  induction fuel as [|fuel IH]; intros t den one lb last acc k Hwf Hfi Hk Hroom HM Hf; [lia|]. cbn [find_loop].
  pose proof (gaps_nonneg _ _ _ _ _ Hwf Hk (fi_label _ _ _ _ _ _ Hfi)).
  destruct (Nat.ltb_spec 0 lb) as [Hpos|Hz].
  - destruct (fi_label _ _ _ _ _ _ Hfi) as [->|Hx]; [lia|].
    destruct (one_lookup _ _ _ Hwf lb Hx) as [n E]. rewrite (bind_Ok _ _ _ _ _ (node_Ok _ _ _ E)).
    assert (exists t1 den1 one1 nl j, (if node_and_op n then split_and_op lb else ret lb) t = Ok (lb, t1) /\
      grown t den one t1 den1 one1 /\ t1 !! lb = Some nl /\ gaps t1 (node_parent nl) j /\
      Z.of_nat (length t1) + j <= Z.of_nat (length t) + k /\ forall M, ends_le t M -> ends_le t1 M)
      as (t1 & den1 & one1 & nl & j & E1 & G1 & El & Kj & Hr & M1).
    { destruct (node_and_op n); [by eapply split_and_op_spec|].
      inversion Hk as [|x m q j k' Em Hq H0 Hg Heq]; subst; [lia|]. rewrite E in Em. injection Em as <-.
      destruct (up _ _ _ Hwf lb Hx) as (p & (n0 & E0 & Hp) & _ & Hb & He & _). rewrite E in E0. injection E0 as <-.
      rewrite (end_of_eq _ _ _ E), <-Hp in *. exists t, den, one, n, j. split; [done|]. split; [by apply grown_refl|].
      split_and!; try done. lia. }
    rewrite (bind_Ok _ _ _ _ _ E1), (bind_Ok _ _ _ _ _ (node_Ok _ _ _ El)). cbv zeta.
    pose proof (gr_wf _ _ _ _ _ _ G1) as Hwf1. pose proof (gr_one _ _ _ _ _ _ G1 lb Hx) as Hx1.
    destruct (gr_node _ _ _ _ _ _ G1 lb n E) as (n1 & El1 & Hen). rewrite El in El1. injection El1 as <-.
    rewrite (end_of_eq _ _ _ E) in *.
    pose proof (finding_step t1 den1 one1 lb nl last acc Hwf1 Hx1 El ltac:(lia) (finding_grown _ _ _ _ _ _ _ _ _ Hwf G1 Hfi)) as Hst.
    destruct (up _ _ _ Hwf1 lb Hx1) as (p & (n0 & E0 & Hp) & _ & _ & He & _). rewrite El in E0. injection E0 as <-.
    rewrite (end_of_eq _ _ _ El), <-Hp in He. clear Hp p.
    destruct (nbegin nl <? last);
      (destruct (IH t1 den1 one1 (node_parent nl) _ _ j Hwf1 Hst) as (segs & t2 & den2 & one2 & -> & G2 & HD & Hsz & Hso & Hr2 & M2); try done; try lia;
       exists segs, t2, den2, one2; split; [done|]; split; [by eapply grown_trans|]; split_and!; try done; [lia|auto]).
  - assert (lb = 0)%nat as -> by lia. destruct Hfi as [_ Hd Hs Hsz Hfo Hso _]. rewrite (end_of_root _ _ _ Hwf) in *.
    exists acc, t, den, one. split; [done|]. split; [by apply grown_refl|]. split_and!; try done; [|lia].
    intros o. split; [|intros (s & ? & ?); by eapply Hs].
    intros HD. destruct (decide (o < 0)); [|apply Hfo; [done|lia]].
    exfalso. apply (wf_root_den _ _ _ Hwf o). by apply Hd.
Qed.
End Find.

Lemma find_spec t den one lb : wf t den one -> is_label one lb -> end_of t lb <= MAX_LB ->
  Z.of_nat (length t) + end_of t lb <= MAX_LB ->
  exists segs t' den' one', find lb t = Ok (segs, t') /\ grown t den one t' den' one' /\
    (forall o, (exists s, s ∈ segs /\ in_seg o s) <-> den lb o) /\
    (forall s, s ∈ segs -> seg_begin s < seg_end s) /\ StronglySorted seg_before segs /\
    Z.of_nat (length t') <= Z.of_nat (length t) + end_of t lb /\ forall M, ends_le t M -> ends_le t' M.
Proof.
  intros Hwf Hl HM Hroom. destruct (gaps_exist _ _ _ Hwf _ lb Hl (le_n _)) as (k & Hk & Hle).
  destruct (label_lookup _ _ _ Hwf lb Hl) as [n E].
  destruct (find_loop_spec (den lb) (S (Z.to_nat (end_of t lb))) t den one lb MAX_LB [] k) as
    (segs & t' & den' & one' & Ef & G & HD & Hsz & Hso & Hr & Mb); try done; try lia.
  - split; try done; [|by intros s o []%elem_of_nil|by intros s []%elem_of_nil| |constructor].
    + intros o. rewrite (end_of_eq _ _ _ E). split; [intros Ho; split; [done|]; by eapply (wf_den _ _ _ Hwf)|tauto].
    + intros o Ho He. exfalso. apply (wf_den _ _ _ Hwf _ _ _ E) in Ho. rewrite (end_of_eq _ _ _ E) in He. lia.
  - exists segs, t', den', one'. split; [|split_and!; try done; lia].
    unfold find. rewrite (bind_Ok (gets _) _ t _ t) by done. cbv beta. rewrite E. rewrite (end_of_eq _ _ _ E) in Ef. done.
Qed.

(** C12: [find] on a label answers its segments from left to right: they are not empty,
    each one begins and ends after the one before it, and together they are exactly the
    offsets of the label.  Splitting variables that were masked changes no label. *)
Theorem find_exact t lb :
  trie t -> labelled t lb -> Z.of_nat (length t) + end_of t lb <= MAX_LB ->
  exists segs t', find lb t = Ok (segs, t') /\ labels_kept t t' /\
    (forall o, (exists s, s ∈ segs /\ in_seg o s) <-> o ∈ offsets t lb) /\
    (forall s, s ∈ segs -> seg_begin s < seg_end s) /\ StronglySorted seg_before segs.
Proof.
  intros (den & one & Hwf) Hl%(labelled_iff _ _ _ _ Hwf) Hroom.
  destruct (find_spec t den one lb Hwf Hl) as (segs & t' & den' & one' & E & G & HD & Hsz & Hso & _); [lia|done|].
  exists segs, t'. split; [done|]. split; [by eapply grown_kept|]. split; [|done].
  intros o. by rewrite HD, (offsets_den _ _ _ Hwf).
Qed.

Lemma find_exact_witness :
  exists segs t', find 4 TagEx.ex = Ok (segs, t') /\
    forall o, (exists s, s ∈ segs /\ in_seg o s) <-> o ∈ offsets TagEx.ex 4.
Proof.
  destruct (find_exact TagEx.ex 4) as (segs & t' & E & _ & P & _).
  - apply TagEx.ex_trie.
  - right. exists 3%nat. eexists. split; [by vm_compute|done].
  - by vm_compute.
  - exists segs, t'. split; [exact E|exact P].
Defined.
