(* ===== verification/TagSetTies.v ===== *)
(** * When joining labels loses nothing

    [combine] of [tag_set.rs] keeps all offsets of both labels unless a variable of the
    label with the smaller number begins where a longer variable of the other label does. *)

From S2P Require Import Prelude TagSet TagSetProofs TagSetJoin TagSetOps.
Local Open Scope Z_scope.

Section Ties.
Context (t : TagSet) (den : nat -> Z -> Prop) (one : nat -> Prop) (Hwf : wf t den one).
Abbreviation B := (begin_of t).
Abbreviation E := (end_of t).

(** ** The nodes of a label *)

Lemma chain_enough fuel : forall x, is_label one x -> (Z.to_nat (E x) <= fuel)%nat -> chain fuel t x = chain_of t x.
Proof.
  assert (H0 : forall k, chain k t 0 = []) by (by intros []).
  induction fuel as [fuel IH] using lt_wf_ind. intros x [->|Hx] Hf; [unfold chain_of; by rewrite !H0|].
  destruct (up _ _ _ Hwf x Hx) as (p & (n & En & Hp) & Lp & Hb & He & _). unfold chain_of.
  destruct fuel as [|fuel]; [lia|]. destruct (Z.to_nat (E x)) as [|k] eqn:Hk; [lia|]. cbn [chain].
  rewrite (proj2 (Nat.eqb_neq x 0)) by (by eapply one_nonzero). rewrite En, Hp. f_equal.
  destruct (decide (k < fuel)%nat); [|by replace k with fuel by lia].
  rewrite (IH fuel), (IH k); done || lia.
Qed.
Lemma chain_up x p : one x -> (exists n, t !! x = Some n /\ node_parent n = p) -> chain_of t x = x :: chain_of t p.
Proof.
  intros Hx (n & En & Hp). destruct (up _ _ _ Hwf x Hx) as (q & (m & Em & Hq) & Lp & Hb & He & _).
  rewrite En in Em. injection Em as <-. rewrite Hp in Hq. subst q.
  unfold chain_of at 1. destruct (Z.to_nat (E x)) as [|k] eqn:Hk; [lia|]. cbn [chain].
  rewrite (proj2 (Nat.eqb_neq x 0)) by (by eapply one_nonzero). rewrite En, Hp. f_equal.
  apply chain_enough; [done|lia].
Qed.
Lemma chain_root : chain_of t 0 = [].
Proof. unfold chain_of. by destruct (Z.to_nat _). Qed.
Lemma chain_end fuel : forall x y, is_label one x -> y ∈ chain fuel t x -> E y <= E x.
Proof.
  induction fuel as [|fuel IH]; intros x y Hx; cbn [chain]; [by intros []%elem_of_nil|].
  destruct Hx as [->|Hx]; [by intros []%elem_of_nil|].
  destruct (up _ _ _ Hwf x Hx) as (p & (n & En & Hp) & Lp & Hb & He & _).
  rewrite (proj2 (Nat.eqb_neq x 0)) by (by eapply one_nonzero). rewrite En, Hp.
  intros [->|Hy]%elem_of_cons; [done|]. specialize (IH p y Lp Hy). lia.
Qed.

(** ** The first loop of [combine] *)

(** The segment of [x] lies inside one of the stack's. *)
Definition inside (st : list nat) (x : nat) : Prop := exists p, p ∈ st /\ B p <= B x /\ E x <= E p.

Section Loop.
Context (a b : nat).
Context (Htie : forall p y, p ∈ chain_of t a -> y ∈ chain_of t b -> B p = B y -> E y <= E p).

Record keeping (l1 l2 : nat) (last : Z) (st : list nat) : Prop := mkKeeping {
  kp_l1 : is_label one l1 /\ forall x, x ∈ chain_of t l1 -> x ∈ chain_of t a;
  kp_l2 : is_label one l2 /\ forall x, x ∈ chain_of t l2 -> x ∈ chain_of t b;
  kp_all x : x ∈ chain_of t a ++ chain_of t b -> x ∈ chain_of t l1 \/ x ∈ chain_of t l2 \/ inside st x;
  kp_1 x : last <= B l1 -> x ∈ chain_of t l1 -> last <= B x -> inside st x;
  kp_2 x : last <= B l2 -> x ∈ chain_of t l2 -> last <= B x -> inside st x
}.

Lemma inside_push st y x : inside st x -> inside (y :: st) x.
Proof. intros (p & Hp & H). exists p. split; [by right|done]. Qed.
Lemma inside_top st y x : B y <= B x -> E x <= E y -> inside (y :: st) x.
Proof. intros. exists y. split; [by left|done]. Qed.

Lemma keep_1 l1 l2 last st p : one l1 -> (exists n, t !! l1 = Some n /\ node_parent n = p) -> B l2 <= B l1 ->
  keeping l1 l2 last st ->
  if decide (B l1 < last) then keeping p l2 (B l1) (l1 :: st) else keeping p l2 last st.
Proof.
  intros O1 Hp Hb [[L1 S1] [L2 S2] Hall H1 H2].
  destruct (up _ _ _ Hwf l1 O1) as (q & (n & En & Hq) & Lp & Hbe & He & _). destruct Hp as (n' & En' & Hp).
  rewrite En in En'. injection En' as <-. rewrite Hp in Hq. subst q.
  pose proof (chain_up l1 p O1 ltac:(eauto)) as Hch. rewrite Hch in *.
  case_decide as Hlt; split; try done; try (split; [done|]; intros x Hx; apply S1; by right).
  - intros x [[->|?]%elem_of_cons|[?|?]]%Hall; [right; right; by apply inside_top|by left|right; by left|right; right; by apply inside_push].
  - intros x _ Hx Hge. apply inside_top; [done|]. pose proof (chain_end _ p x Lp Hx). lia.
  - intros x Hge Hx Hgx. assert (Heq : B l1 = B l2) by lia. apply inside_top; [done|].
    pose proof (chain_end _ l2 x L2 Hx). destruct L2 as [->|O2]; [by rewrite chain_root in Hx; apply elem_of_nil in Hx|].
    destruct (up _ _ _ Hwf l2 O2) as (p2 & Hp2 & _). etrans; [done|].
    apply Htie; [apply S1; by left| |done]. apply S2. rewrite (chain_up l2 p2 O2 Hp2). by left.
  - intros x [[->|?]%elem_of_cons|?]%Hall; [right; right; apply H1; [lia|by left|lia]|by left|by right].
  - intros x Hge Hx. apply H1; [lia|by right].
Qed.
Lemma keep_2 l1 l2 last st p : one l2 -> (exists n, t !! l2 = Some n /\ node_parent n = p) -> B l1 < B l2 ->
  keeping l1 l2 last st ->
  if decide (B l2 < last) then keeping l1 p (B l2) (l2 :: st) else keeping l1 p last st.
Proof.
  intros O2 Hp Hb [[L1 S1] [L2 S2] Hall H1 H2].
  destruct (up _ _ _ Hwf l2 O2) as (q & (n & En & Hq) & Lp & Hbe & He & _). destruct Hp as (n' & En' & Hp).
  rewrite En in En'. injection En' as <-. rewrite Hp in Hq. subst q.
  pose proof (chain_up l2 p O2 ltac:(eauto)) as Hch. rewrite Hch in *.
  case_decide as Hlt; split; try done; try (split; [done|]; intros x Hx; apply S2; by right).
  - intros x [?|[[->|?]%elem_of_cons|?]]%Hall; [by left|right; right; by apply inside_top|right; by left|right; right; by apply inside_push].
  - intros x Hge. lia.
  - intros x _ Hx Hge. apply inside_top; [done|]. pose proof (chain_end _ p x Lp Hx). lia.
  - intros x [?|[[->|?]%elem_of_cons|?]]%Hall; [by left|right; right; apply H2; [lia|by left|lia]|right; by left|right; by right].
  - intros x Hge Hx. apply H2; [lia|by right].
Qed.
Lemma merge_keeps fuel : forall l1 l2 last st st' base, keeping l1 l2 last st ->
  merge fuel l1 l2 last st t = Ok ((st', base), t) ->
  forall x, x ∈ chain_of t a ++ chain_of t b -> x ∈ chain_of t base \/ inside st' x.
Proof.
  induction fuel as [|fuel IH]; intros l1 l2 last st st' base Hk; cbn [merge]; [done|].
  destruct ((0 <? l1)%nat && negb (l1 =? l2)%nat) eqn:Hgo.
  2: { intros [= <- <-] x [Hx|[Hx|Hx]]%(kp_all _ _ _ _ Hk); [left|left|by right].
    - destruct (Nat.ltb_spec 0 l1); [done|]. assert (l1 = 0)%nat as -> by lia. by rewrite chain_root in Hx; apply elem_of_nil in Hx.
    - destruct (Nat.ltb_spec 0 l1); [|done]. cbn in Hgo. apply negb_false_iff, Nat.eqb_eq in Hgo. by subst. }
  apply andb_true_iff in Hgo as [H1%Nat.ltb_lt _].
  destruct (kp_l1 _ _ _ _ Hk) as [[?|O1] _]; [lia|]. destruct (up _ _ _ Hwf l1 O1) as (p1 & (n1 & E1 & Hp1) & _).
  destruct (label_lookup _ _ _ Hwf l2 (proj1 (kp_l2 _ _ _ _ Hk))) as [n2 E2].
  rewrite (bind_Ok _ _ _ _ _ (node_Ok _ _ _ E1)), (bind_Ok _ _ _ _ _ (node_Ok _ _ _ E2)).
  rewrite <-(begin_of_eq _ _ _ E1), <-(begin_of_eq _ _ _ E2). cbv zeta.
  destruct (Z.ltb_spec (B l1) (B l2)) as [Hlt|Hge].
  - assert (O2 : one l2). { destruct (kp_l2 _ _ _ _ Hk) as [[->|?] _]; [|done]. rewrite (begin_of_root _ _ _ Hwf) in Hlt.
      destruct (up _ _ _ Hwf l1 O1) as (_ & _ & _ & ? & _). lia. }
    pose proof (keep_2 l1 l2 last st _ O2 (ex_intro _ n2 (conj E2 eq_refl)) Hlt Hk).
    destruct (Z.ltb_spec (B l2) last); case_decide; try lia; by eapply IH.
  - pose proof (keep_1 l1 l2 last st _ O1 (ex_intro _ n1 (conj E1 eq_refl)) Hge Hk).
    destruct (Z.ltb_spec (B l1) last); case_decide; try lia; by eapply IH.
Qed.
End Loop.
End Ties.

(** No variable of the label with the smaller number begins where a longer one of the
    other label does. *)
Definition no_tie (t : TagSet) (l1 l2 : nat) : bool :=
  forallb (fun p => forallb (fun y => negb (begin_of t p =? begin_of t y) || (end_of t y <=? end_of t p))
                      (chain_of t (Nat.max l1 l2))) (chain_of t (Nat.min l1 l2)).

Lemma join_exact_no_tie t den one l1 l2 : wf t den one -> is_label one l1 -> is_label one l2 ->
  ends_le t MAX_LB -> no_tie t l1 l2 = true -> join_exact t l1 l2 = true.
Proof.
  intros Hwf H1 H2 HM Ht. unfold join_exact. destruct ((l1 =? 0)%nat || (l2 =? 0)%nat || (l1 =? l2)%nat); [done|].
  unfold no_tie in Ht. set (a := Nat.min l1 l2) in *. set (b := Nat.max l1 l2) in *. cbv zeta.
  assert (Ha : is_label one a) by (unfold a; destruct (Nat.min_spec l1 l2) as [[_ ->]|[_ ->]]; done).
  assert (Hb : is_label one b) by (unfold b; destruct (Nat.max_spec l1 l2) as [[_ ->]|[_ ->]]; done).
  destruct (merge_spec t den one Hwf _ _ a b MAX_LB [] (merge_start t den one a b Ha Hb) (merge_fuel_ok t one a b Ha Hb))
    as (st & base & Em & Hmd & _). rewrite Em.
  assert (Hlow : forall l x, is_label one l -> x ∈ chain_of t l -> begin_of t x < MAX_LB).
  { intros l x Hl Hx. destruct (chain_sub _ _ _ Hwf _ l x 0 Hl Hx) as [Ox _].
    destruct (up _ _ _ Hwf x Ox) as (_ & (n & En & _) & _ & Hbe & _). rewrite (end_of_eq _ _ _ En) in Hbe. pose proof (HM _ _ En). lia. }
  apply forallb_forall. intros x Hx%list_elem_of_In.
  assert (x ∈ chain_of t base \/ inside t st x) as [Hi|(p & Hp & Hbe & Hen)].
  { eapply (merge_keeps t den one Hwf a b); [|..|exact Em|exact Hx].
    - intros p y Hp Hy Heq. rewrite forallb_forall in Ht. specialize (Ht p (proj1 (list_elem_of_In _ _) Hp)).
      rewrite forallb_forall in Ht. specialize (Ht y (proj1 (list_elem_of_In _ _) Hy)).
      rewrite (proj2 (Z.eqb_eq _ _) Heq) in Ht. cbn in Ht. by apply Z.leb_le.
    - split; try done.
      + intros y [?|?]%elem_of_app; [by left|right; by left].
      + intros y _ Hy Hge. pose proof (Hlow a y Ha Hy). lia.
      + intros y _ Hy Hge. pose proof (Hlow b y Hb Hy). lia. }
  - apply orb_true_iff. left. apply existsb_exists. exists x. split; [by apply list_elem_of_In|apply Nat.eqb_refl].
  - apply orb_true_iff. right. apply existsb_exists. exists p. split; [by apply list_elem_of_In|].
    apply andb_true_iff. split; by apply Z.leb_le.
Qed.

(** ** [combine] *)

(** C13: [combine] on a well-formed tag set with room for the new nodes answers a label.
    Its offsets are offsets of the two labels, and are all of them unless a segment of
    the label with the smaller number begins where a longer segment of the other one
    does; every existing label keeps its offsets. *)
Theorem combine_exact t l1 l2 :
  trie t -> labelled t l1 -> labelled t l2 ->
  Z.of_nat (length t) + 2 * (end_of t l1 + end_of t l2) <= MAX_LB ->
  exists x t', combine l1 l2 t = Ok (x, t') /\ labels_kept t t' /\ labelled t' x /\
    offsets t' x ⊆ offsets t l1 ∪ offsets t l2 /\
    (ends_le t MAX_LB -> no_tie t l1 l2 = true -> offsets t' x = offsets t l1 ∪ offsets t l2).
Proof.
  intros (den & one & Hwf) H1%(labelled_iff _ _ _ _ Hwf) H2%(labelled_iff _ _ _ _ Hwf) Hroom.
  destruct (combine_joined t den one Hwf l1 l2 H1 H2 Hroom) as (x & t' & den' & one' & E & [G L So Ex _ _]).
  pose proof (gr_wf _ _ _ _ _ _ G) as Hwf'. exists x, t'. split; [done|]. split; [by eapply grown_kept|].
  split; [by apply (labelled_iff _ _ _ _ Hwf')|].
  assert (Hsub : offsets t' x ⊆ offsets t l1 ∪ offsets t l2).
  { intros o. rewrite elem_of_union, (offsets_den _ _ _ Hwf' _ _ L), !(offsets_den _ _ _ Hwf) by done. apply So. }
  split; [done|]. intros HM Ht. apply set_eq. intros o. split; [apply Hsub|].
  rewrite elem_of_union, (offsets_den _ _ _ Hwf' _ _ L), !(offsets_den _ _ _ Hwf) by done.
  apply Ex. by eapply join_exact_no_tie.
Qed.

(** ** A join that loses an offset

    Bytes 0 and 5, and bytes 5 to 8 read as one variable: the join of both has the bytes
    0 and 5 only. *)
Definition lossy : TS (nat * nat * nat) :=
  a <- insert 0 ;; b <- insert 5 ;; l1 <- combine a b ;;
  c <- insert 6 ;; d <- insert 7 ;; e <- insert 8 ;;
  l2 <- combine_n [b; c; d; e] true ;;
  l <- combine l1 l2 ;;
  ret (l1, l2, l).
(** A tie: the shorter segment hides the longer one, and the offsets 6, 7 and 8 are lost. *)
Theorem combine_loses_offsets :
  match lossy TagSet_new with
  | Ok ((l1, l2, l), t) =>
      bool_decide (offsets t l1 = {[ 0; 5 ]}) && bool_decide (offsets t l2 = {[ 5; 6; 7; 8 ]}) &&
      bool_decide (offsets t l = {[ 0; 5 ]}) && negb (no_tie t l1 l2)
  | Fault _ => false
  end = true.
Proof. by vm_compute. Qed.

Lemma combine_exact_witness :
  exists x t', combine 2 4 TagEx.ex = Ok (x, t') /\ offsets t' x = offsets TagEx.ex 2 ∪ offsets TagEx.ex 4.
Proof.
  destruct (combine_exact TagEx.ex 2 4) as (x & t' & E & _ & _ & _ & P).
  - apply TagEx.ex_trie.
  - right. exists 1%nat. eexists. split; [by vm_compute|done].
  - right. exists 3%nat. eexists. split; [by vm_compute|done].
  - by vm_compute.
  - exists x, t'. split; [exact E|]. apply P; [|by vm_compute].
    by apply ends_leb; vm_compute.
Defined.
