(* ===== verification/TagStore.v ===== *)
(** * The tag set as the runtime uses it

    [runtime/src/tag_set_wrap.rs]: the C functions over the shared tag set.  They take
    the length part off a label, work on the tries of TagSet.v and put a length part
    back.  The store meets [LabelStoreSpec], so that what is proved of the DFSan runtime
    and of the code of the pass against that interface holds of this tag set. *)

From Stdlib Require Import Sorted.
From S2P Require Import Prelude CMem Dfsan Env IoFunc TagSet TagSetProofs TagSetJoin TagSetOps TagSetFind TagSetTies.
Local Open Scope Z_scope.

(** ** The C functions *)

(** [TS]: the tag set, until [__angora_tag_set_fini] drops it. *)
Abbreviation shared := (option (list TagNode)).
(** [if let Some(ref mut ts) = *tsl { .. } else { d }] *)
Definition with_ts {A} (d : A) (f : TS A) : M shared A := fun o =>
  match o with
  | Some t => match f t with Ok (a, t') => Ok (a, Some t') | Fault e => Fault e end
  | None => Ok (d, None)
  end.
(** [lb as usize] and back. *)
Definition usize (lb : Z) : nat := Z.to_nat lb.
Definition as_u32 (f : TS nat) : TS Z := l <- f ;; ret (u32 (Z.of_nat l)).

Definition __angora_tag_set_insert (offset : Z) : M shared Z := with_ts 0 (as_u32 (insert offset)).

(** The length part is taken from the label without its length part. *)
Definition __angora_tag_set_combine (lb1 lb2 : Z) : M shared Z :=
  let len_lb := 0 in
  let '(lb1, len_lb) :=
    if is_len_label lb1 then let lb1 := get_normal_label lb1 in (lb1, get_len_label lb1) else (lb1, len_lb) in
  let '(lb2, len_lb) :=
    if is_len_label lb2 then let lb2 := get_normal_label lb2 in (lb2, get_len_label lb2) else (lb2, len_lb) in
  lb <- with_ts 0 (as_u32 (combine (usize lb1) (usize lb2))) ;;
  ret (get_fat_label lb len_lb).

Definition plain (l : Z) : nat := usize (if is_len_label l then get_normal_label l else l).
Definition last_len (lbs : list Z) : Z :=
  fold_left (fun len_lb l => if is_len_label l then get_len_label l else len_lb) lbs 0.
Definition __angora_tag_set_combine_n (lbs : list Z) (infer_shape : bool) : M shared Z :=
  lb <- with_ts 0 (as_u32 (combine_n (plain <$> lbs) infer_shape)) ;;
  ret (get_fat_label lb (last_len lbs)).

Definition __angora_tag_set_mark_sign (lb : Z) : M shared unit :=
  with_ts tt (set_sign (usize (get_normal_label lb))).
Definition __angora_tag_set_infer_shape_in_math_op (lb len : Z) : M shared unit :=
  with_ts tt (infer_shape2 (usize (get_normal_label lb)) len).
Definition DISABLE_INFER_SHAPE_IF_HAS_AND_OP : bool := true.
Definition __angora_tag_set_combine_and (lb : Z) : M shared unit :=
  when DISABLE_INFER_SHAPE_IF_HAS_AND_OP (with_ts tt (combine_and (usize (get_normal_label lb)))).
Definition __angora_tag_set_fini : M shared unit := modify (fun _ => None).
Definition tag_set_find (lb : Z) : M shared (list TagSeg) := with_ts [] (find (usize (get_normal_label lb))).
Definition tag_set_get_sign (lb : Z) : M shared bool :=
  gets (fun o => match o with Some t => get_sign (usize (get_normal_label lb)) t | None => false end).

(** ** The store

    The shared tag set with a note, for the proofs only, whether a join has lost an
    offset. *)
Record tag_state := mkStore { ts : shared; exact : bool }.
Definition run_store {A} (f : M shared A) (ok : TagSet -> bool) (s : tag_state) : res (A * tag_state) :=
  match f (ts s) with
  | Ok (a, o) => Ok (a, mkStore o (exact s && match ts s with Some t => ok t | None => true end))
  | Fault e => Fault e
  end.
Definition run_note (f : M shared unit) (s : tag_state) : res tag_state :=
  match run_store f (fun _ => true) s with Ok (_, s') => Ok s' | Fault e => Fault e end.

#[global] Instance tag_store : LabelStore tag_state := {
  tag_set_insert off := run_store (__angora_tag_set_insert (u32 off)) (fun _ => true);
  tag_set_combine l1 l2 := run_store (__angora_tag_set_combine l1 l2) (fun t => join_exact t (plain l1) (plain l2));
  tag_set_combine_n ls b := run_store (__angora_tag_set_combine_n ls b) (fun t => join_n_exact t (plain <$> ls) b);
  tag_set_mark_sign l := run_note (__angora_tag_set_mark_sign l);
  tag_set_infer_shape_in_math_op l n := run_note (__angora_tag_set_infer_shape_in_math_op l (u32 n));
  tag_set_combine_and l := run_note (__angora_tag_set_combine_and l);
}.

(** ** Its meaning *)

Lemma normal_range lb : 0 <= get_normal_label lb <= MAX_NORMAL_LABEL.
Proof.
  unfold get_normal_label. change MAX_NORMAL_LABEL with (Z.ones 22). rewrite Z.land_ones by lia.
  pose proof (Z.mod_pos_bound lb (2 ^ 22)). change (Z.ones 22) with (2 ^ 22 - 1). lia.
Qed.
Lemma len_range lb : 0 <= get_len_label lb <= MAX_LEN_LABEL.
Proof.
  unfold get_len_label. change MAX_LEN_LABEL with (Z.ones 10). rewrite Z.land_ones by lia.
  pose proof (Z.mod_pos_bound (Z.shiftr lb NORMAL_LABEL_WITDH) (2 ^ 10)). change (Z.ones 10) with (2 ^ 10 - 1). lia.
Qed.
Lemma normal_small lb : 0 <= lb <= MAX_NORMAL_LABEL -> get_normal_label lb = lb.
Proof.
  unfold get_normal_label. change MAX_NORMAL_LABEL with (Z.ones 22). intros H. rewrite Z.land_ones by lia.
  apply Z.mod_small. change (Z.ones 22) with (2 ^ 22 - 1) in H. lia.
Qed.
Lemma plain_normal lb : 0 <= lb -> plain lb = usize (get_normal_label lb).
Proof.
  intros H. unfold plain. destruct (is_len_label lb) eqn:E; [done|].
  unfold is_len_label in E. apply Z.ltb_ge in E. by rewrite normal_small.
Qed.
Lemma last_len_range lbs : 0 <= last_len lbs <= MAX_LEN_LABEL.
Proof.
  unfold last_len. assert (H : forall z, 0 <= z <= MAX_LEN_LABEL -> 0 <= fold_left
    (fun len_lb l => if is_len_label l then get_len_label l else len_lb) lbs z <= MAX_LEN_LABEL); [|by apply H].
  induction lbs as [|l lbs IH]; intros z Hz; cbn; [done|].
  apply IH. destruct (is_len_label l); [apply len_range|done].
Qed.
Lemma fat_label x len (t : TagSet) : (x < length t)%nat -> Z.of_nat (length t) <= MAX_LB -> 0 <= len <= MAX_LEN_LABEL ->
  let l := get_fat_label (u32 (Z.of_nat x)) len in 0 <= l < 2 ^ 32 /\ usize (get_normal_label l) = x.
Proof.
  intros Hx Ht Hlen l. change MAX_LB with MAX_NORMAL_LABEL in Ht. unfold l. rewrite u32_small.
  - destruct (get_fat_label_fields (Z.of_nat x) len) as (H1 & H2 & _); [lia|done|].
    split; [done|]. rewrite H2. unfold usize. lia.
  - change MAX_NORMAL_LABEL with (2 ^ 22 - 1) in Ht. lia.
Qed.

(** *** The laws

    For inputs of at most [size] bytes. *)
Section Laws.
Context (size : Z) (Hsize : 0 <= size < 2 ^ 31 - 8).

Definition join_room : Z := join_cost size + 2.
Definition store_wf (s : tag_state) (t : TagSet) (den : nat -> Z -> Prop) (one : nat -> Prop) : Prop :=
  ts s = Some t /\ wf t den one /\ ends_le t size.
#[local] Instance tag_view : LabelStoreView tag_state := {
  ls_ok s := exists t den one, store_wf s t den one;
  ls_valid s l := 0 <= l < 2 ^ 32 /\ exists t, ts s = Some t /\ labelled t (usize (get_normal_label l));
  taint s l := match ts s with Some t => offsets t (usize (get_normal_label l)) | None => ∅ end;
  ls_exact s := exact s = true;
  ls_room s k := match ts s with
                 | Some t => Z.of_nat (length t) + Z.of_nat k * join_room <= MAX_LB | None => True end;
  ls_offset o := 0 <= o < size
}.

Lemma valid_label s t den one l : store_wf s t den one -> ls_valid s l ->
  0 <= l < 2 ^ 32 /\ is_label one (usize (get_normal_label l)).
Proof.
  intros (E & Hwf & _) (Hl & t' & E' & Hlab). rewrite E in E'. injection E' as <-.
  split; [done|by apply (labelled_iff t den one)].
Qed.
Lemma taint_den s t den one l o : store_wf s t den one -> ls_valid s l ->
  o ∈ taint s l <-> den (usize (get_normal_label l)) o.
Proof.
  intros Hs Hl. destruct (valid_label _ _ _ _ _ Hs Hl) as [_ Hlab]. destruct Hs as (E & Hwf & _).
  cbn. rewrite E. by apply (offsets_den t den one).
Qed.

(** A store that has grown. *)
Lemma store_ext k s t den one t' den' one' e : store_wf s t den one -> grown t den one t' den' one' ->
  ends_le t' size -> Z.of_nat (length t') <= Z.of_nat (length t) + Z.of_nat k * join_room ->
  (e = true -> exact s = true) ->
  store_wf (mkStore (Some t') e) t' den' one' /\ tags_ext k s (mkStore (Some t') e).
Proof.
  intros Hs G Mb R He. pose proof Hs as (E & Hwf & Hend).
  assert (Hs' : store_wf (mkStore (Some t') e) t' den' one') by (split; [done|]; split; [by eapply gr_wf|done]).
  assert (Hval : forall l, ls_valid s l -> ls_valid (mkStore (Some t') e) l).
  { intros l Hl. destruct (valid_label _ _ _ _ _ Hs Hl) as [Hl1 Hl2]. split; [done|]. exists t'. split; [done|].
    apply (labelled_iff t' den' one' _ (gr_wf _ _ _ _ _ _ G)). by eapply grown_label. }
  split; [done|]. split.
  - by exists t', den', one'.
  - intros l Hl. split; [by apply Hval|]. apply set_eq. intros o.
    rewrite (taint_den _ _ _ _ _ _ Hs' (Hval l Hl)), (taint_den _ _ _ _ _ _ Hs Hl).
    apply (grown_den _ _ _ _ _ _ _ _ G Hwf). by eapply valid_label.
  - done.
  - intros j. cbn. rewrite E. intros Hr. lia.
Qed.
(** A label the store has made. *)
Lemma made_label s t den one x len : store_wf s t den one -> is_label one x -> Z.of_nat (length t) <= MAX_LB ->
  0 <= len <= MAX_LEN_LABEL -> let l := get_fat_label (u32 (Z.of_nat x)) len in
  ls_valid s l /\ forall o, o ∈ taint s l <-> den x o.
Proof.
  intros Hs Hx Hroom Hlen l. pose proof Hs as (E & Hwf & _). destruct (label_lookup _ _ _ Hwf x Hx) as [n En].
  apply lookup_lt_Some in En. destruct (fat_label x len t En Hroom Hlen) as [Hl Hu]. fold l in Hl, Hu.
  assert (Hval : ls_valid s l). { split; [done|]. exists t. split; [done|]. rewrite Hu. by apply (labelled_iff t den one). }
  split; [done|]. intros o. by rewrite (taint_den _ _ _ _ _ _ Hs Hval), Hu.
Qed.

(** From a join on tries to a join on the store. *)
Lemma store_joined k s t den one (f : M shared Z) (ok : TagSet -> bool) x t' den' one' D len (P : Z -> Prop) :
  store_wf s t den one -> f (Some t) = Ok (get_fat_label (u32 (Z.of_nat x)) len, Some t') ->
  joined t den one D (ok t = true) (k * Z.to_nat (join_cost size + 1)) x t' den' one' ->
  Z.of_nat (length t) + Z.of_nat k * join_room <= MAX_LB -> 0 <= len <= MAX_LEN_LABEL -> (forall o, D o <-> P o) ->
  exists l s', run_store f ok s = Ok (l, s') /\ tags_ext k s s' /\ ls_valid s' l /\ taint_is s' l P.
Proof.
  intros Hs Hf [G L So Ex R Mb] Hroom Hlen HD. pose proof Hs as (E & _ & _). unfold run_store. rewrite E, Hf.
  unfold join_room, join_cost in *.
  destruct (store_ext k s t den one t' den' one' (exact s && ok t) Hs G (Mb _ (proj2 (proj2 Hs)))) as [Hs' He].
  { unfold join_room, join_cost. nia. } { by intros [? _]%andb_true_iff. }
  destruct (made_label _ _ _ _ x len Hs' L) as [Hv Ht]; [nia|done|].
  eexists _, _. split; [reflexivity|]. split; [done|]. split; [done|]. split.
  - intros o Ho. apply HD, So. by apply Ht.
  - cbn. intros [_ Hok]%andb_true_iff o Ho. apply Ht, Ex; [done|]. by apply HD.
Qed.
Lemma store_note s t den one (f : M shared unit) t' :
  store_wf s t den one -> f (Some t) = Ok (tt, Some t') -> grown t den one t' den one -> length t' = length t ->
  ends_le t' size -> exists s', run_note f s = Ok s' /\ tags_ext 0 s s'.
Proof.
  intros Hs Hf G Hlen Mb. pose proof Hs as (E & _ & _). unfold run_note, run_store. rewrite E, Hf.
  eexists. split; [reflexivity|]. rewrite andb_true_r. eapply (store_ext 0 s t den one t' den one); try done. lia.
Qed.
Lemma as_u32_Ok f (t : TagSet) x t' : f t = Ok (x, t') -> with_ts 0 (as_u32 f) (Some t) = Ok (u32 (Z.of_nat x), Some t').
Proof. intros E. unfold with_ts, as_u32, bind. by rewrite E. Qed.

Lemma combine_run lb1 lb2 t x t' : 0 <= lb1 -> 0 <= lb2 -> combine (plain lb1) (plain lb2) t = Ok (x, t') ->
  exists len, 0 <= len <= MAX_LEN_LABEL /\
    __angora_tag_set_combine lb1 lb2 (Some t) = Ok (get_fat_label (u32 (Z.of_nat x)) len, Some t').
Proof.
  intros H1 H2 E. unfold __angora_tag_set_combine, plain in *.
  destruct (is_len_label lb1), (is_len_label lb2); cbv beta iota zeta;
    (eexists; split; [|by rewrite (bind_Ok _ _ _ _ _ (as_u32_Ok _ _ _ _ E))]); try apply len_range; done.
Qed.
Lemma store_combine s l1 l2 : ls_ok s -> ls_valid s l1 -> ls_valid s l2 -> ls_room s 1 ->
  exists l s', tag_set_combine l1 l2 s = Ok (l, s') /\ tags_ext 1 s s' /\ ls_valid s' l /\
    taint_is s' l (fun o => o ∈ taint s l1 \/ o ∈ taint s l2).
Proof.
  intros (t & den & one & Hs) H1 H2 Hroom. pose proof Hs as (E & Hwf & Hend).
  destruct (valid_label _ _ _ _ _ Hs H1) as [R1 L1], (valid_label _ _ _ _ _ Hs H2) as [R2 L2].
  cbn in Hroom. rewrite E in Hroom. unfold join_room, join_cost in Hroom.
  pose proof (end_of_bound t size (plain l1) ltac:(lia) Hend). pose proof (end_of_bound t size (plain l2) ltac:(lia) Hend).
  rewrite <-plain_normal in L1, L2 by lia.
  pose proof (end_of_nonneg _ _ _ Hwf (plain l1)). pose proof (end_of_nonneg _ _ _ Hwf (plain l2)).
  destruct (combine_joined t den one Hwf (plain l1) (plain l2) L1 L2) as (x & t' & den' & one' & Ec & J); [lia|].
  destruct (combine_run l1 l2 t x t') as (len & Hlen & Ef); [lia|lia|done|].
  eapply (store_joined 1); [exact Hs|exact Ef| | |exact Hlen|].
  - eapply joined_weaken; [exact J|done|done|]. unfold join_cost. lia.
  - unfold join_room, join_cost. lia.
  - intros o. rewrite !(taint_den _ _ _ _ _ _ Hs), <-!plain_normal by (done || lia). done.
Qed.
Lemma plain_labels s t den one ls : store_wf s t den one -> Forall (ls_valid s) ls ->
  Forall (is_label one) (plain <$> ls) /\ (taint s <$> ls) = offsets t <$> (plain <$> ls) /\
  forall o, (exists l, l ∈ plain <$> ls /\ den l o) <-> o ∈ ⋃ (taint s <$> ls).
Proof.
  intros Hs Hls. rewrite list.Forall_forall in Hls. pose proof Hs as (E & Hwf & _).
  assert (Hp : forall l, l ∈ ls -> is_label one (plain l) /\ taint s l = offsets t (plain l)).
  { intros l Hl. specialize (Hls l Hl). destruct (valid_label _ _ _ _ _ Hs Hls) as [Hr Hlab].
    rewrite plain_normal by lia. split; [done|]. cbn. by rewrite E. }
  split; [|split].
  - apply Forall_fmap, list.Forall_forall. intros l Hl. by apply Hp.
  - rewrite <-list_fmap_compose. apply list_fmap_ext. intros i l Hl%list_elem_of_lookup_2. by apply Hp.
  - intros o. rewrite elem_of_union_list. split.
    + intros (y & (l & -> & Hl)%list_elem_of_fmap & Ho). exists (taint s l). split; [by apply list_elem_of_fmap_2|].
      destruct (Hp l Hl) as [Hlab ->]. by apply (offsets_den t den one).
    + intros (X & (l & -> & Hl)%list_elem_of_fmap & Ho). exists (plain l). split; [by apply list_elem_of_fmap_2|].
      destruct (Hp l Hl) as [Hlab Et]. rewrite Et in Ho. by apply (offsets_den t den one) in Ho.
Qed.
Lemma store_combine_n s ls b : ls_ok s -> Forall (ls_valid s) ls -> ls_room s (length ls) ->
  (b = true -> shape_sound (taint s <$> ls)) ->
  exists l s', tag_set_combine_n ls b s = Ok (l, s') /\ tags_ext (length ls) s s' /\ ls_valid s' l /\
    taint_is s' l (fun o => o ∈ ⋃ (taint s <$> ls)).
Proof.
  intros (t & den & one & Hs) Hls Hroom Hsh. pose proof Hs as (E & Hwf & Hend).
  destruct (plain_labels _ _ _ _ _ Hs Hls) as (Hlab & Ht & HD). rewrite Ht in Hsh.
  cbn in Hroom. rewrite E in Hroom. unfold join_room in Hroom.
  destruct (combine_n_joined t den one Hwf (plain <$> ls) b size Hlab) as (x & t' & den' & one' & Ec & J); try done; [lia|lia| |].
  { rewrite length_fmap. unfold join_cost in *. nia. }
  rewrite length_fmap in J.
  eapply (store_joined (length ls)); [exact Hs| |exact J|done|apply (last_len_range ls)|exact HD].
  unfold __angora_tag_set_combine_n. by rewrite (bind_Ok _ _ _ _ _ (as_u32_Ok _ _ _ _ Ec)).
Qed.
Lemma store_insert s off : ls_ok s -> ls_offset off -> ls_room s 1 ->
  exists l s', tag_set_insert off s = Ok (l, s') /\ tags_ext 1 s s' /\ ls_valid s' l /\ taint s' l = {[ off ]}.
Proof.
  intros (t & den & one & Hs) Hoff Hroom. pose proof Hs as (E & Hwf & Hend).
  cbn in Hroom, Hoff. rewrite E in Hroom. unfold join_room, join_cost in Hroom.
  destruct (insert_joined t den one off Hwf) as (x & t' & den' & one' & Ei & G & Ox & Dx & R & Mb); [lia|lia|].
  destruct (store_ext 1 s t den one t' den' one' (exact s) Hs G) as [Hs' He]; try done.
  { apply Mb; [lia|done]. } { unfold join_room, join_cost. lia. }
  destruct (made_label _ _ _ _ x 0 Hs' (or_intror Ox)) as [Hv Ht]; [lia|by split|].
  eexists _, _. split; [|split; [exact He|split; [exact Hv|]]].
  - cbn [tag_set_insert tag_store]. unfold run_store, __angora_tag_set_insert. rewrite E, u32_small by lia.
    by rewrite (as_u32_Ok _ _ _ _ Ei), andb_true_r.
  - apply set_eq. intros o. by rewrite Ht, Dx, elem_of_singleton.
Qed.
Lemma with_ts_Ok {A} d (f : TS A) t a t' : f t = Ok (a, t') -> with_ts d f (Some t) = Ok (a, Some t').
Proof. intros E. unfold with_ts. by rewrite E. Qed.

#[local] Program Instance tag_store_spec : LabelStoreSpec tag_state.
Next Obligation.
  intros s (t & den & one & E & Hwf & _). split; [lia|]. exists t. split; [done|by left].
Qed.
Next Obligation.
  intros s (t & den & one & E & Hwf & _). cbn. rewrite E. by eapply root_offsets.
Qed.
Next Obligation.
  intros s j k. cbn. destruct (ts s); [|done]. unfold join_room, join_cost. intros. nia.
Qed.
Next Obligation. exact store_combine. Qed.
Next Obligation. intros s ls Hok Hls Hroom. by apply store_combine_n. Qed.
Next Obligation. intros s ls Hok Hls Hroom Hsh. by apply store_combine_n. Qed.
Next Obligation. exact store_insert. Qed.
Next Obligation.
  intros s l (t & den & one & Hs) Hl. destruct (valid_label _ _ _ _ _ Hs Hl) as [_ Hlab].
  destruct (set_sign_spec t den one _ (proj1 (proj2 Hs)) Hlab) as (t' & E & G & Hlen & Mb).
  eapply store_note; try done; [by apply with_ts_Ok|apply Mb, Hs].
Qed.
Next Obligation.
  intros s l n (t & den & one & Hs) Hl Hn. destruct (valid_label _ _ _ _ _ Hs Hl) as [_ Hlab].
  pose proof (end_of_bound t size (usize (get_normal_label l)) ltac:(lia) (proj2 (proj2 Hs))).
  assert (0 <= u32 n < 2 ^ 32) by (apply (wrap_range 32); lia).
  destruct (infer_shape2_spec t den one _ (u32 n) (proj1 (proj2 Hs)) Hlab) as (t' & E & G & Hlen & Mb); [lia|lia|].
  eapply store_note; try done; [by apply with_ts_Ok|apply Mb, Hs].
Qed.
Next Obligation.
  intros s l (t & den & one & Hs) Hl. destruct (valid_label _ _ _ _ _ Hs Hl) as [_ Hlab].
  destruct (combine_and_spec' t den one _ (proj1 (proj2 Hs)) Hlab) as (t' & E & G & Hlen & Mb).
  eapply store_note; try done; [by apply with_ts_Ok|apply Mb, Hs].
Qed.

(** C4: the tag set of [tag_set.rs] behind its C functions meets the interface that the
    runtime and the code of the pass are verified against, for inputs of less than
    [2^31 - 8] bytes: while there are nodes left no operation panics, joining and loading
    answer labels with no offsets of their own, and with all offsets unless a join lost
    one, labels keep their meaning, and signs, shapes and masks change no label. *)
Theorem tag_set_refines : @LabelStoreSpec tag_state tag_store tag_view.
Proof. exact tag_store_spec. Qed.

(** ** From memory to the segments of the log *)

(** [tag_set_find] on a label of the store. *)
Lemma tag_set_find_taint s l : ls_ok s -> ls_valid s l -> ls_room s 1 ->
  exists segs o', tag_set_find l (ts s) = Ok (segs, o') /\
    (forall o, (exists sg, sg ∈ segs /\ in_seg o sg) <-> o ∈ taint s l) /\
    (forall sg, sg ∈ segs -> seg_begin sg < seg_end sg) /\ StronglySorted seg_before segs /\
    tags_ext 1 s (mkStore o' (exact s)).
Proof.
  intros (t & den & one & Hs) Hl Hroom. pose proof Hs as (E & Hwf & Hend).
  destruct (valid_label _ _ _ _ _ Hs Hl) as [Hr Hlab]. cbn in Hroom. rewrite E in Hroom. unfold join_room, join_cost in Hroom.
  pose proof (end_of_bound t size (usize (get_normal_label l)) ltac:(lia) Hend).
  pose proof (end_of_nonneg _ _ _ Hwf (usize (get_normal_label l))).
  destruct (find_spec t den one _ Hwf Hlab) as (segs & t' & den' & one' & Ef & G & HD & Hsz & Hso & Hlen & Mb); [lia|lia|].
  exists segs, (Some t'). split; [unfold tag_set_find; rewrite E; by apply with_ts_Ok|].
  split; [intros o; by rewrite HD, (taint_den _ _ _ _ _ _ Hs Hl)|]. split; [done|]. split; [done|].
  eapply (store_ext 1 s t den one); try done; [by apply Mb|]. unfold join_room, join_cost. lia.
Qed.

Section Compose.
Context {OS : Type} `{!Env tag_state OS}.

(** The label [dfsan_read_label] gives for a range of memory, looked up in the tag
    set, is a list of segments from left to right with no other offsets than those of the
    labels of the bytes, and with all of them if no join so far has lost one: the DFSan
    runtime and the tag set fit together. *)
Theorem read_label_found a n (s : st tag_state OS) :
  st_ok s -> app_range a n -> n < 2 ^ 32 -> ls_room (tags s) (S (Z.to_nat n)) ->
  exists l t' segs o', dfsan_read_label a n s = Ok (l, set_tags t' s) /\
    tag_set_find l (ts t') = Ok (segs, o') /\ StronglySorted seg_before segs /\
    (forall o, (exists sg, sg ∈ segs /\ in_seg o sg) ->
       exists b, a <= b < a + n /\ o ∈ taint (tags s) (lbl s b)) /\
    (exact t' = true -> forall b o, a <= b < a + n -> o ∈ taint (tags s) (lbl s b) ->
       exists sg, sg ∈ segs /\ in_seg o sg).
Proof.
  intros Hok Hr Hn Hroom.
  destruct (dfsan_read_label_spec a n s Hok Hr Hn) as (l & t' & E & He & Hv & Hso & Hex);
    [apply (ls_room_mono _ _ _ Hroom); lia|].
  destruct (tag_set_find_taint t' l (te_ok _ _ _ He) Hv) as (segs & o' & Ef & HD & _ & Hss & _).
  { apply (te_room _ _ _ He), (ls_room_mono _ _ _ Hroom). lia. }
  exists l, t', segs, o'. split; [done|]. split; [done|]. split; [done|]. split.
  - intros o Ho%HD. by apply Hso.
  - intros Hx b o Hb Ho. apply HD, Hex; [done|]. by exists b.
Qed.

End Compose.
End Laws.

(** ** Witnesses *)

Module StoreEx.
Lemma size_ok : 0 <= 64 < 2 ^ 31 - 8.
Proof. lia. Qed.
#[local] Instance view : LabelStoreView tag_state := tag_view 64.

(** Memory whose first two bytes have the labels of the offsets 3 and 5. *)
Definition ex : st tag_state Z :=
  mkSt (app SetStore.ex ∪ SimpleEnv.block IoEx.buf 8)
       (list_to_map (zip [shadow_for SetStore.a0; shadow_for (SetStore.a0 + 1)] [2; 4]))
       (mkStore (Some TagEx.ex) true) 0 0 SetDefaults [] (0, 0).
Lemma store_ok t : trie t -> ends_le t 64 -> ls_ok (mkStore (Some t) true).
Proof. intros (den & one & Hwf) He. by exists t, den, one. Qed.
Lemma store_ex_ok : st_ok ex.
Proof.
  split; [apply store_ok; [apply TagEx.ex_trie|by apply ends_leb; vm_compute]|].
  assert (Hv : forall l, l = 0 \/ l = 2 \/ l = 4 -> ls_valid (tags ex) l).
  { intros l Hl. split; [lia|]. exists TagEx.ex. split; [done|]. destruct Hl as [->|[->| ->]]; [by left|right..].
    - exists 1%nat. eexists. split; [by vm_compute|done].
    - exists 3%nat. eexists. split; [by vm_compute|done]. }
  intros p. apply Hv. unfold label_at. cbn [shadow ex].
  destruct (_ !! p) as [l|] eqn:E; [|by left]. right. cbn [default from_option].
  apply elem_of_list_to_map_2 in E. cbn [zip_with] in E.
  repeat (apply elem_of_cons in E as [E|E]; [injection E as -> ->; auto|]). by apply elem_of_nil in E.
Qed.

End StoreEx.

Lemma tag_set_refines_witness : @LabelStoreSpec tag_state tag_store (tag_view 64).
Proof. apply (tag_set_refines 64 StoreEx.size_ok). Defined.

Lemma read_label_found_witness :
  exists l t' segs o', dfsan_read_label SetStore.a0 2 StoreEx.ex = Ok (l, set_tags t' StoreEx.ex) /\
    tag_set_find l (ts t') = Ok (segs, o') /\ StronglySorted seg_before segs.
Proof.
  destruct (read_label_found 64 StoreEx.size_ok SetStore.a0 2 StoreEx.ex) as (l & t' & segs & o' & E1 & E2 & Hso & _);
    [apply StoreEx.store_ex_ok|by vm_compute|done|by vm_compute|].
  exists l, t', segs, o'. split; [exact E1|]. split; [exact E2|exact Hso].
Defined.

