(* ===== verification/TrackLog.v ===== *)
(** * The log of a tracked run

    [runtime/src/track.rs], [logger.rs] and the rest of [len_label.rs]: the functions that
    instrumented code calls at comparisons, switches, string comparisons and exploitable
    values.  Each one writes conditions to the log, with the segments of the labels it
    saw.  Writing the log to a file is not modelled. *)

From Stdlib Require Import Sorted.
From S2P Require Import Prelude CMem Dfsan Env IoFunc TagSet TagSetProofs TagSetJoin TagSetOps TagSetFind TagStore.
Local Open Scope Z_scope.

(** ** Data *)

(** [CondStmtBase] of [common/src/cond_stmt_base.rs]. *)
Record CondStmtBase := mkCond {
  cmpid : Z; context : Z; last_callsite : Z; order : Z; belong : Z;
  condition : Z; level : Z; op : Z; size : Z;
  lb1 : Z; lb2 : Z; arg1 : Z; arg2 : Z }.
Definition set_order (o : Z) (c : CondStmtBase) : CondStmtBase :=
  mkCond (cmpid c) (context c) (last_callsite c) o (belong c) (condition c) (level c) (op c) (size c)
    (lb1 c) (lb2 c) (arg1 c) (arg2 c).
Definition set_condition (x : Z) (c : CondStmtBase) : CondStmtBase :=
  mkCond (cmpid c) (context c) (last_callsite c) (order c) (belong c) x (level c) (op c) (size c)
    (lb1 c) (lb2 c) (arg1 c) (arg2 c).
Definition set_labels (l1 l2 : Z) (c : CondStmtBase) : CondStmtBase :=
  mkCond (cmpid c) (context c) (last_callsite c) (order c) (belong c) (condition c) (level c) (op c) (size c)
    l1 l2 (arg1 c) (arg2 c).
Definition set_op (o : Z) (c : CondStmtBase) : CondStmtBase :=
  mkCond (cmpid c) (context c) (last_callsite c) (order c) (belong c) (condition c) (level c) o (size c)
    (lb1 c) (lb2 c) (arg1 c) (arg2 c).
Definition set_size (n : Z) (c : CondStmtBase) : CondStmtBase :=
  mkCond (cmpid c) (context c) (last_callsite c) (order c) (belong c) (condition c) (level c) (op c) n
    (lb1 c) (lb2 c) (arg1 c) (arg2 c).
Definition set_arg2 (a : Z) (c : CondStmtBase) : CondStmtBase :=
  mkCond (cmpid c) (context c) (last_callsite c) (order c) (belong c) (condition c) (level c) (op c) (size c)
    (lb1 c) (lb2 c) (arg1 c) a.
(** [PartialEq for CondStmtBase] *)
Definition cond_eq (a b : CondStmtBase) : bool :=
  (cmpid a =? cmpid b) && (context a =? context b) && (order a =? order b).

(** [common/src/defs.rs], [config.rs] *)
Definition COND_ICMP_EQ_OP : Z := 32.
Definition COND_SW_OP : Z := 0xFF.
Definition COND_SIGN_MASK : Z := 0x100.
Definition COND_AFL_OP : Z := 0x8001.
Definition COND_FN_OP : Z := 0x8002.
Definition COND_LEN_OP : Z := 0x8003.
Definition COND_FALSE_ST : Z := 0.
Definition COND_DONE_ST : Z := 2.
Definition MAX_COND_ORDER : Z := 16.

(** [LogData] and [Logger], without the file. *)
Record Logger := mkLogger {
  cond_list : list CondStmtBase;
  log_tags : gmap Z (list TagSeg);
  magic_bytes : gmap nat (list Z * list Z);
  order_map : gmap (Z * Z) Z }.
Definition Logger_new : Logger := mkLogger [] ∅ ∅ ∅.

(** The logger, with the tag set it asks for segments. *)
Record lst := mkLst { data : Logger; tagset : shared }.
Abbreviation L := (M lst).
Definition upd (f : Logger -> Logger) : L unit := modify (fun s => mkLst (f (data s)) (tagset s)).

(** ** The logger *)

Definition on_tagset {A} (f : M shared A) : L A := fun s =>
  match f (tagset s) with Ok (a, o) => Ok (a, mkLst (data s) o) | Fault e => Fault e end.

Definition save_tag (lb : Z) : L unit :=
  when (0 <? lb)
    (tag <- on_tagset (tag_set_find lb) ;;
     upd (fun d => mkLogger (cond_list d)
       (match log_tags d !! lb with Some _ => log_tags d | None => <[ lb := tag ]> (log_tags d) end)
       (magic_bytes d) (order_map d))).

Definition save_magic_bytes (bytes : list Z * list Z) : L unit :=
  i <- gets (fun s => length (cond_list (data s))) ;;
  when (0 <? i)%nat
    (upd (fun d => mkLogger (cond_list d) (log_tags d) (<[ (i - 1)%nat := bytes ]> (magic_bytes d)) (order_map d))).

(** [get_order] gives the order and the condition with its order added. *)
Definition get_order (cond : CondStmtBase) : L (Z * CondStmtBase) :=
  let order_key := (cmpid cond, context cond) in
  o0 <- gets (fun s => default 0 (order_map (data s) !! order_key)) ;;
  let o := if order cond =? 0 then u32 (o0 + 1) else o0 in
  upd (fun d => mkLogger (cond_list d) (log_tags d) (magic_bytes d) (<[ order_key := o ]> (order_map d))) ;;;
  ret (o, set_order (u32 (order cond + o)) cond).

(** [get_len_cond] of [len_label.rs] on the table [LEN_INFO]. *)
Definition len_cond_of (lens : list (Z * Z)) (len_lb : Z) (cond : CondStmtBase)
  : res (CondStmtBase * option CondStmtBase) :=
  if MAX_LEN_LABEL <? len_lb then Ok (cond, None) else
  match lens !! Z.to_nat len_lb with
  | Some info => Ok (cond, Some (set_labels info.1 info.2 (set_op COND_LEN_OP cond)))
  | None => Fault Panicked
  end.
Definition get_len_cond (lens : list (Z * Z)) (cond : CondStmtBase) : res (CondStmtBase * option CondStmtBase) :=
  if is_len_label (lb1 cond) then
    len_cond_of lens (get_len_label (lb1 cond)) (set_labels (get_normal_label (lb1 cond)) (lb2 cond) cond)
  else if is_len_label (lb2 cond) then
    len_cond_of lens (get_len_label (lb2 cond)) (set_labels (lb1 cond) (get_normal_label (lb2 cond)) cond)
  else Ok (cond, None).

Definition push_cond (cond : CondStmtBase) : L unit :=
  upd (fun d => mkLogger (cond_list d ++ [cond]) (log_tags d) (magic_bytes d) (order_map d)).
(** The conditions that get an order. *)
Definition ordered (c : CondStmtBase) : bool := (op c <? COND_AFL_OP) || (op c =? COND_FN_OP).
Definition save (lens : list (Z * Z)) (cond : CondStmtBase) : L unit :=
  if (lb1 cond =? 0) && (lb2 cond =? 0) then ret tt else
  match get_len_cond lens cond with
  | Fault e => fail e
  | Ok (cond, len_cond) =>
      r <- (if ordered cond then get_order cond else ret (0, cond)) ;;
      let '(o, cond) := r in
      when (o <=? MAX_COND_ORDER)
        (save_tag (lb1 cond) ;;;
         save_tag (lb2 cond) ;;;
         push_cond cond ;;;
         match len_cond with
         | Some c => push_cond (set_order (u32 (0x10000 + o)) c)
         | None => ret tt
         end)
  end.

(** ** The functions the program calls *)

Section Track.
Context {OS : Type}.

(** The runtime, and [LC]. *)
Record track := mkTrack { tio : io tag_state OS; LC : option Logger }.
Abbreviation TR := (M track).
Definition on_io {A} (f : M (io tag_state OS) A) : TR A := fun s =>
  match f (tio s) with Ok (a, i) => Ok (a, mkTrack i (LC s)) | Fault e => Fault e end.
Definition put_ts (o : shared) (i : io tag_state OS) : io tag_state OS :=
  set_rt (set_tags (mkStore o (exact (tags (rt i)))) (rt i)) i.
(** [let mut lcl = LC.lock(); if let Some(ref mut lc) = *lcl { .. }] *)
Definition with_lc (f : list (Z * Z) -> L unit) : TR unit := fun s =>
  match LC s with
  | None => Ok (tt, s)
  | Some d =>
      match f (len_info (tio s)) (mkLst d (ts (tags (rt (tio s))))) with
      | Ok (_, l) => Ok (tt, mkTrack (put_ts (tagset l) (tio s)) (Some (data l)))
      | Fault e => Fault e
      end
  end.
Definition sign_of (lb : Z) : TR bool :=
  gets (fun s => match ts (tags (rt (tio s))) with
                 | Some t => get_sign (usize (get_normal_label lb)) t | None => false end).

Definition infer_eq_sign (op lb1 lb2 : Z) : TR Z :=
  s1 <- sign_of lb1 ;; s2 <- sign_of lb2 ;;
  ret (if (op =? COND_ICMP_EQ_OP) && (((0 <? lb1) && s1) || ((0 <? lb2) && s2))
       then Z.lor op COND_SIGN_MASK else op).
Definition infer_shape (lb size : Z) : TR unit :=
  when (0 <? lb) (on_io (lift (on_tags_ (tag_set_infer_shape_in_math_op lb size)))).

Definition log_cmp_callsite (cmpid context last_callsite condition op size lb1 lb2 arg1 arg2 : Z) : TR unit :=
  with_lc (fun lens => save lens
    (mkCond cmpid context last_callsite 0 0 condition 0 op size lb1 lb2 arg1 arg2)).

Definition __dfsw___angora_trace_cmp_tt (cmpid context last_callsite size op arg1 arg2 condition : Z)
  (l0 l1 lcallsite l2 l3 l4 l5 l6 : Z) : TR unit :=
  let lb1 := l4 in
  let lb2 := l5 in
  if (lb1 =? 0) && (lb2 =? 0) then ret tt else
  op <- infer_eq_sign op lb1 lb2 ;;
  infer_shape lb1 size ;;;
  infer_shape lb2 size ;;;
  log_cmp_callsite cmpid context last_callsite condition op size lb1 lb2 arg1 arg2.

(** The cases of a switch. *)
Fixpoint save_cases (lens : list (Z * Z)) (cond : CondStmtBase) (i : Z) (sw_args : list Z) : L unit :=
  match sw_args with
  | [] => ret tt
  | arg :: rest =>
      let cond_i := set_arg2 arg (set_order (u32 (order cond + u32 (Z.shiftl i 16))) cond) in
      save lens (if arg =? arg1 cond then set_condition COND_DONE_ST cond_i else cond_i) ;;;
      save_cases lens cond (i + 1) rest
  end.
Fixpoint load_u64s (n : nat) (p : Z) : M mem (list Z) :=
  match n with
  | O => ret []
  | S k => x <- load64 p ;; r <- load_u64s k (p + 8) ;; ret (x :: r)
  end.
Definition __dfsw___angora_trace_switch_tt (cmpid context last_callsite size condition num args : Z)
  (l0 l1 lcallsite l2 l3 l3' l4 : Z) : TR unit :=
  let lb := l3 in
  if lb =? 0 then ret tt else
  infer_shape lb size ;;;
  s <- sign_of lb ;;
  let op := if (s : bool) then Z.lor COND_SW_OP COND_SIGN_MASK else COND_SW_OP in
  let cond := mkCond cmpid context last_callsite 0 0 COND_FALSE_ST 0 op size lb 0 condition 0 in
  sw_args <- on_io (lift (on_mem (load_u64s (Z.to_nat num) args))) ;;
  with_lc (fun lens => save_cases lens cond 0 sw_args).

Definition __dfsw___angora_trace_fn_tt (cmpid context last_callsite size parg1 parg2 : Z)
  (l0 l1 lcallsite l2 l3 l4 : Z) : TR unit :=
  arglen1 <- (if size =? 0 then on_io (lift (on_mem (libc_strlen parg1))) else ret size) ;;
  arglen2 <- (if size =? 0 then on_io (lift (on_mem (libc_strlen parg2))) else ret size) ;;
  lb1 <- on_io (lift (dfsan_read_label parg1 arglen1)) ;;
  lb2 <- on_io (lift (dfsan_read_label parg2 arglen2)) ;;
  if (lb1 =? 0) && (lb2 =? 0) then ret tt else
  a1 <- on_io (lift (on_mem (load_bytes (Z.to_nat arglen1) parg1))) ;;
  a2 <- on_io (lift (on_mem (load_bytes (Z.to_nat arglen2) parg2))) ;;
  let cond := mkCond cmpid context last_callsite 0 0 COND_FALSE_ST 0 COND_FN_OP 0 0 0 0 0 in
  let cond := if 0 <? lb1 then set_size (u32 arglen2) (set_labels lb1 0 cond)
              else if 0 <? lb2 then set_size (u32 arglen1) (set_labels 0 lb2 cond) else cond in
  with_lc (fun lens => save lens cond ;;; save_magic_bytes (a1, a2)).

Definition __dfsw___angora_trace_exploit_val_tt (cmpid context last_callsite size op val : Z)
  (l0 l1 lcallsite l2 l3 l4 : Z) : TR unit :=
  let lb := l4 in
  if is_len_label lb || (lb =? 0) then ret tt else
  log_cmp_callsite cmpid context last_callsite COND_FALSE_ST op size lb 0 val 0.

Definition __angora_track_fini_rs : TR unit := modify (fun s => mkTrack (tio s) None).
End Track.
Arguments track : clear implicits.
Arguments mkTrack {OS}. Arguments tio {OS}. Arguments LC {OS}.

(** ** What the log means *)

Section Meaning.
Context (lim : Z) (Hlim : 0 <= lim < 2 ^ 31 - 8).
#[local] Instance view : LabelStoreView tag_state := tag_view lim.
#[local] Instance laws : LabelStoreSpec tag_state := tag_store_spec lim Hlim.
Implicit Types (s : tag_state) (d : Logger).

(** The segments are the offsets of the label, from left to right. *)
Definition segs_of s (lb : Z) (segs : list TagSeg) : Prop :=
  (forall o, (exists sg, sg ∈ segs /\ in_seg o sg) <-> o ∈ taint s lb) /\
  (forall sg, sg ∈ segs -> seg_begin sg < seg_end sg) /\ StronglySorted seg_before segs.

(** Every label of a logged condition has its segments in the log. *)
Record log_ok s d : Prop := mkLogOk {
  lo_tags lb segs : log_tags d !! lb = Some segs -> ls_valid s lb /\ segs_of s lb segs;
  lo_conds c lb : c ∈ cond_list d -> op c <> COND_LEN_OP -> lb = lb1 c \/ lb = lb2 c -> 0 < lb ->
    is_Some (log_tags d !! lb)
}.
Lemma log_ok_new s : log_ok s Logger_new.
Proof. split; [done|]. by intros c lb []%elem_of_nil. Qed.
Lemma segs_of_ext k s s' lb segs : tags_ext k s s' -> ls_valid s lb -> segs_of s lb segs -> segs_of s' lb segs.
Proof. intros He Hl (H1 & H2). split; [|done]. intros o. destruct (te_label _ _ _ He lb Hl) as [_ ->]. apply H1. Qed.
Lemma log_ok_ext k s s' d : tags_ext k s s' -> log_ok s d -> log_ok s' d.
Proof.
  intros He [Ht Hc]. split; [|done]. intros lb segs E. destruct (Ht lb segs E) as [Hv Hs].
  split; [apply (te_label _ _ _ He lb Hv)|by eapply segs_of_ext].
Qed.

(** *** [save_tag] *)

Definition tags_grow d d' : Prop :=
  cond_list d' = cond_list d /\ magic_bytes d' = magic_bytes d /\ order_map d' = order_map d /\
  forall lb, is_Some (log_tags d !! lb) -> is_Some (log_tags d' !! lb).
Lemma log_tag_spec s d lb : ls_ok s -> ls_valid s lb -> ls_room s 1 -> log_ok s d ->
  exists d' o', save_tag lb (mkLst d (ts s)) = Ok (tt, mkLst d' o') /\
    tags_ext 1 s (mkStore o' (exact s)) /\ log_ok (mkStore o' (exact s)) d' /\
    (0 < lb -> is_Some (log_tags d' !! lb)) /\ tags_grow d d'.
Proof.
  intros Hok Hl Hroom Hlog. unfold save_tag, when. destruct (Z.ltb_spec 0 lb) as [Hpos|Hneg].
  2: { exists d, (ts s). split; [done|]. replace (mkStore (ts s) (exact s)) with s by by destruct s.
       split; [eapply tags_ext_le; [by apply tags_ext_refl|lia]|]. split; [done|]. split; [lia|]. by split_and!. }
  destruct (tag_set_find_taint lim Hlim s lb Hok Hl Hroom) as (segs & o' & Ef & HD & Hz & Hso & He).
  set (s' := mkStore o' (exact s)) in *. pose proof (log_ok_ext _ _ _ _ He Hlog) as [Ht Hc].
  assert (Hsegs : ls_valid s' lb /\ segs_of s' lb segs).
  { split; [by apply (te_label _ _ _ He)|]. eapply segs_of_ext; [exact He|done|by split_and!]. }
  unfold on_tagset, bind, upd, modify. cbn [tagset]. rewrite Ef. eexists _, _. split; [reflexivity|]. cbn [data tagset].
  split; [done|]. destruct (log_tags d !! lb) as [old|] eqn:E.
  - split; [by split|]. split; [intros _; cbn; by rewrite E|by split_and!].
  - split; [|split; [intros _; cbn; by rewrite lookup_insert_eq|]].
    + split; cbn.
      * intros l sg. destruct (decide (l = lb)) as [->|Hne]; [rewrite lookup_insert_eq; by intros [= <-]|].
        rewrite lookup_insert_ne by done. apply Ht.
      * intros c l H1 H2 H3 H4. destruct (decide (l = lb)) as [->|Hne]; [by rewrite lookup_insert_eq|].
        rewrite lookup_insert_ne by done. by eapply Hc.
    + split_and!; try done. cbn. intros l Hs. destruct (decide (l = lb)) as [->|Hne]; [by rewrite lookup_insert_eq|].
      by rewrite lookup_insert_ne.
Qed.
Lemma push_ok s d c : log_ok s d ->
  (op c <> COND_LEN_OP -> forall lb, lb = lb1 c \/ lb = lb2 c -> 0 < lb -> is_Some (log_tags d !! lb)) ->
  log_ok s (mkLogger (cond_list d ++ [c]) (log_tags d) (magic_bytes d) (order_map d)).
Proof.
  intros [Ht Hc] H. split; [done|]. cbn. intros x lb [Hi|Hi]%elem_of_app; [by apply Hc|].
  apply list_elem_of_singleton in Hi as ->. intros H1 H2 H3. by eapply H.
Qed.

(** *** [save] *)

(** The length part of a label is known. *)
Definition len_known (lens : list (Z * Z)) (l : Z) : Prop :=
  is_len_label l = true -> (Z.to_nat (get_len_label l) < length lens)%nat.
(** The condition as it is logged: one of its labels without its length part. *)
Definition plain_cond (c : CondStmtBase) : CondStmtBase :=
  if is_len_label (lb1 c) then set_labels (get_normal_label (lb1 c)) (lb2 c) c
  else if is_len_label (lb2 c) then set_labels (lb1 c) (get_normal_label (lb2 c)) c else c.
Lemma get_len_cond_spec lens c : len_known lens (lb1 c) -> len_known lens (lb2 c) ->
  exists lc, get_len_cond lens c = Ok (plain_cond c, lc) /\
    forall c', lc = Some c' -> op c' = COND_LEN_OP /\ cmpid c' = cmpid c /\ context c' = context c.
Proof.
  intros H1 H2. unfold get_len_cond, plain_cond, len_cond_of, len_known in *.
  destruct (is_len_label (lb1 c)); [|destruct (is_len_label (lb2 c)); [|by eexists]].
  - rewrite (proj2 (Z.ltb_ge _ _)) by apply len_range. destruct (lookup_lt_is_Some_2 _ _ (H1 eq_refl)) as [i Ei].
    rewrite Ei. eexists. split; [done|]. by intros c' [= <-].
  - rewrite (proj2 (Z.ltb_ge _ _)) by apply len_range. destruct (lookup_lt_is_Some_2 _ _ (H2 eq_refl)) as [i Ei].
    rewrite Ei. eexists. split; [done|]. by intros c' [= <-].
Qed.
Lemma normal_valid s l : ls_valid s l -> ls_valid s (get_normal_label l) /\ taint s (get_normal_label l) = taint s l.
Proof.
  intros (Hl & t & E & Hlab). pose proof (normal_range l) as Hr. change MAX_NORMAL_LABEL with (2 ^ 22 - 1) in Hr.
  assert (En : get_normal_label (get_normal_label l) = get_normal_label l) by (apply normal_small, normal_range).
  split; [split; [lia|]; exists t; by rewrite En|]. cbn. by rewrite En.
Qed.
Lemma plain_cond_labels s c : ls_valid s (lb1 c) -> ls_valid s (lb2 c) ->
  ls_valid s (lb1 (plain_cond c)) /\ taint s (lb1 (plain_cond c)) = taint s (lb1 c) /\
  ls_valid s (lb2 (plain_cond c)) /\ taint s (lb2 (plain_cond c)) = taint s (lb2 c).
Proof.
  intros H1 H2. destruct (normal_valid s _ H1), (normal_valid s _ H2). unfold plain_cond.
  destruct (is_len_label (lb1 c)); [done|]. by destruct (is_len_label (lb2 c)).
Qed.
Lemma plain_cond_same c : set_labels (lb1 (plain_cond c)) (lb2 (plain_cond c)) c = plain_cond c.
Proof. unfold plain_cond. destruct c. repeat case_match; done. Qed.

(** How often the condition was executed before, and the order it gets. *)
Definition seen d (c : CondStmtBase) : Z := default 0 (order_map d !! (cmpid c, context c)).
Definition next_order d (c : CondStmtBase) : Z :=
  if ordered c then if order c =? 0 then u32 (seen d c + 1) else seen d c else 0.
Definition logged_order d (c : CondStmtBase) : Z := if ordered c then u32 (order c + next_order d c) else order c.
Definition count_order d (c : CondStmtBase) : Logger :=
  if ordered c then mkLogger (cond_list d) (log_tags d) (magic_bytes d)
                      (<[ (cmpid c, context c) := next_order d c ]> (order_map d)) else d.

Lemma plain_fields c : op (plain_cond c) = op c /\ order (plain_cond c) = order c /\
  cmpid (plain_cond c) = cmpid c /\ context (plain_cond c) = context c.
Proof. by rewrite <-plain_cond_same. Qed.
Lemma order_step d c t : (if ordered (plain_cond c) then get_order (plain_cond c) else ret (0, plain_cond c)) (mkLst d t) =
  Ok ((next_order d c, set_order (logged_order d c) (plain_cond c)), mkLst (count_order d c) t).
Proof.
  destruct (plain_fields c) as (Eop & Eor & Eid & Ecx).
  unfold ordered, get_order, logged_order, next_order, count_order, seen, ordered. rewrite Eop, Eor, Eid, Ecx.
  destruct ((op c <? COND_AFL_OP) || (op c =? COND_FN_OP)) eqn:E.
  - unfold bind, gets, upd, modify, ret, next_order, seen, ordered. rewrite E. cbn [data tagset].
    by destruct (order c =? 0).
  - unfold ret. rewrite <-Eor. by destruct (plain_cond c).
Qed.

(** What [save] does to the log. *)
Record saved d (c : CondStmtBase) d' : Prop := mkSaved {
  sv_orders : order_map d' = order_map (count_order d c);
  sv_magic : magic_bytes d' = magic_bytes d;
  sv_tags lb : is_Some (log_tags d !! lb) -> is_Some (log_tags d' !! lb);
  sv_conds : if next_order d c <=? MAX_COND_ORDER
    then exists lens, cond_list d' = cond_list d ++ set_order (logged_order d c) (plain_cond c) :: lens /\
           Forall (fun x => op x = COND_LEN_OP) lens
    else cond_list d' = cond_list d
}.
Lemma save_spec s d lens c :
  ls_ok s -> ls_valid s (lb1 c) -> ls_valid s (lb2 c) -> ls_room s 2 -> log_ok s d ->
  len_known lens (lb1 c) -> len_known lens (lb2 c) -> op c <> COND_LEN_OP -> lb1 c <> 0 \/ lb2 c <> 0 ->
  exists d' o', save lens c (mkLst d (ts s)) = Ok (tt, mkLst d' o') /\
    tags_ext 2 s (mkStore o' (exact s)) /\ log_ok (mkStore o' (exact s)) d' /\ saved d c d'.
Proof.
  intros Hok H1 H2 Hroom Hlog K1 K2 Hop Hnz. unfold save.
  replace ((lb1 c =? 0) && (lb2 c =? 0)) with false
    by (symmetry; apply andb_false_iff; destruct Hnz; [left|right]; by apply Z.eqb_neq).
  destruct (get_len_cond_spec lens c K1 K2) as (lc & -> & Hlc). rewrite (bind_Ok _ _ _ _ _ (order_step d c (ts s))).
  cbv beta iota. set (d0 := count_order d c). set (c0 := set_order _ _).
  assert (Hlog0 : log_ok s d0) by (unfold d0, count_order; destruct (ordered c); [destruct Hlog; by split|done]).
  assert (E0 : cond_list d0 = cond_list d /\ log_tags d0 = log_tags d /\ magic_bytes d0 = magic_bytes d)
    by (unfold d0, count_order; by destruct (ordered c)). destruct E0 as (Ec & Et & Em).
  unfold when. destruct (next_order d c <=? MAX_COND_ORDER) eqn:Ho.
  2: { exists d0, (ts s). split; [done|]. replace (mkStore (ts s) (exact s)) with s by by destruct s.
       split; [eapply tags_ext_le; [by apply tags_ext_refl|lia]|]. split; [done|]. split; rewrite ?Ho, ?Et; done. }
  destruct (plain_cond_labels s c H1 H2) as (V1 & _ & V2 & _).
  destruct (log_tag_spec s d0 (lb1 (plain_cond c)) Hok V1) as (d1 & o1 & E1 & X1 & L1 & P1 & (C1 & M1 & O1 & T1)); [|done|].
  { apply (ls_room_mono _ _ _ Hroom). lia. }
  rewrite (bind_Ok _ _ _ _ _ E1). set (s1 := mkStore o1 (exact s)) in *.
  destruct (log_tag_spec s1 d1 (lb2 (plain_cond c)) (te_ok _ _ _ X1) (proj1 (te_label _ _ _ X1 _ V2)))
    as (d2 & o2 & E2 & X2 & L2 & P2 & (C2 & M2 & O2 & T2)); [by apply (te_room _ _ _ X1)|done|].
  change (ts s1) with o1 in E2. rewrite (bind_Ok _ _ _ _ _ E2). set (s2 := mkStore o2 (exact s)) in *.
  pose proof (tags_ext_trans _ _ _ _ _ X1 X2) as X12. cbn [Nat.add] in X12.
  assert (L3 : log_ok s2 (mkLogger (cond_list d2 ++ [c0]) (log_tags d2) (magic_bytes d2) (order_map d2))).
  { apply push_ok; [done|]. intros _ lb [->| ->] Hp; [by apply T2, P1|by apply P2]. }
  unfold push_cond at 1, bind at 1, upd, modify. cbn [data tagset].
  destruct lc as [c'|].
  - destruct (Hlc c' eq_refl) as (Hlen & _). eexists _, o2. split; [reflexivity|]. cbn [data tagset]. split; [done|].
    split; [apply (push_ok s2 _ _ L3); cbn; by rewrite Hlen|]. split; rewrite ?Ho; cbn.
    + by rewrite O2, O1.
    + by rewrite M2, M1, Em.
    + intros lb Hs. apply T2, T1. by rewrite Et.
    + exists [set_order (u32 (0x10000 + next_order d c)) c']. split; [by rewrite C2, C1, Ec, <-app_assoc|by repeat constructor].
  - eexists _, o2. split; [reflexivity|]. split; [done|]. split; [exact L3|]. split; rewrite ?Ho; cbn.
    + by rewrite O2, O1.
    + by rewrite M2, M1, Em.
    + intros lb Hs. apply T2, T1. by rewrite Et.
    + exists []. split; [by rewrite C2, C1, Ec|constructor].
Qed.

(** *** How much is logged *)

Fixpoint save_all (lens : list (Z * Z)) (cs : list CondStmtBase) : L unit :=
  match cs with [] => ret tt | c :: r => save lens c ;;; save_all lens r end.
(** The conditions with an order, of one place in one context. *)
Definition counts (k : Z * Z) (c : CondStmtBase) : Prop := ordered c = true /\ (cmpid c, context c) = k.
#[local] Instance counts_dec k c : Decision (counts k c).
Proof. unfold counts. apply _. Defined.
Definition logged_count d (k : Z * Z) : nat := length (filter (counts k) (cond_list d)).
(** [n] executions so far: a place has at most as many conditions as executions, and at
    most sixteen. *)
Definition bounded d (n : Z) : Prop := forall k,
  let e := default 0 (order_map d !! k) in 0 <= e <= n /\ Z.of_nat (logged_count d k) <= Z.min e MAX_COND_ORDER.

Lemma count_lens k cs : Forall (fun x => op x = COND_LEN_OP) cs -> filter (counts k) cs = [].
Proof.
  induction 1 as [|x r Hx _ IH]; [done|]. rewrite filter_cons_False; [done|].
  intros [H _]. unfold ordered in H. rewrite Hx in H. done.
Qed.
Lemma saved_bounded d c d' n : saved d c d' -> order c = 0 -> bounded d n -> 0 <= n < 2 ^ 32 - 1 -> bounded d' (n + 1).
Proof.
  intros [So _ _ Sc] H0 Hb Hn k. cbv zeta. rewrite So. specialize (Hb k) as [He Hc]. cbv zeta in He, Hc.
  destruct (plain_fields c) as (Fo & _ & Fi & Fx).
  assert (Hcnt : Z.of_nat (logged_count d' k) <= Z.of_nat (logged_count d k) +
    if bool_decide (counts k c) && (next_order d c <=? MAX_COND_ORDER) then 1 else 0).
  { unfold logged_count. destruct (next_order d c <=? MAX_COND_ORDER); [|rewrite Sc; destruct (bool_decide _); cbn; lia].
    destruct Sc as (lc & -> & Hl). rewrite list.filter_app, length_app, filter_cons, (count_lens k lc Hl), andb_true_r.
    assert (Hiff : counts k (set_order (logged_order d c) (plain_cond c)) <-> counts k c)
      by (unfold counts, ordered; cbn; by rewrite Fo, Fi, Fx).
    case_decide as H1; case_bool_decide as H2; cbn; first [lia|tauto]. }
  unfold count_order, next_order in *. destruct (ordered c) eqn:Eo.
  - destruct (decide (k = (cmpid c, context c))) as [->|Hk]; cbn [order_map].
    + rewrite lookup_insert_eq. cbn [default from_option]. unfold id. clear So Sc. unfold seen in *. rewrite H0 in *. cbn [Z.eqb] in *.
      assert (Eu : u32 (default 0 (order_map d !! (cmpid c, context c)) + 1) = default 0 (order_map d !! (cmpid c, context c)) + 1)
        by (apply u32_small; lia). rewrite Eu in *. 
      split; [lia|]. unfold MAX_COND_ORDER in *.
      destruct (bool_decide _); cbn in Hcnt; destruct (Z.leb_spec (default 0 (order_map d !! (cmpid c, context c)) + 1) 16); lia.
    + rewrite lookup_insert_ne by done. split; [lia|]. rewrite bool_decide_eq_false_2 in Hcnt; [cbn in Hcnt; lia|].
      intros [_ ?]. congruence.
  - split; [lia|]. rewrite bool_decide_eq_false_2 in Hcnt; [cbn in Hcnt; lia|]. intros [? _]. congruence.
Qed.

(** The hypotheses under which a condition can be saved. *)
Record savable s (lens : list (Z * Z)) (c : CondStmtBase) : Prop := mkSavable {
  sb_1 : ls_valid s (lb1 c); sb_2 : ls_valid s (lb2 c);
  sb_len1 : len_known lens (lb1 c); sb_len2 : len_known lens (lb2 c);
  sb_op : op c <> COND_LEN_OP; sb_taint : lb1 c <> 0 \/ lb2 c <> 0
}.
Lemma savable_ext k s s' lens c : tags_ext k s s' -> savable s lens c -> savable s' lens c.
Proof. intros He [H1 H2 ? ? ? ?]. split; try done; [apply (te_label _ _ _ He _ H1)|apply (te_label _ _ _ He _ H2)]. Qed.

(** However often tainted conditions are executed (fewer than [2^32] times), saving
    them succeeds, the log stays well formed, and it has at most sixteen conditions of a
    place in a context. *)
Theorem saves_bounded lens cs : forall s d n,
  ls_ok s -> log_ok s d -> bounded d n -> 0 <= n -> n + Z.of_nat (length cs) < 2 ^ 32 ->
  ls_room s (2 * length cs) -> Forall (fun c => savable s lens c /\ order c = 0) cs ->
  exists d' o', save_all lens cs (mkLst d (ts s)) = Ok (tt, mkLst d' o') /\
    log_ok (mkStore o' (exact s)) d' /\ forall k, Z.of_nat (logged_count d' k) <= MAX_COND_ORDER.
Proof.
  induction cs as [|c cs IH]; intros s d n Hok Hlog Hb H0 Hn Hroom Hall; cbn [save_all].
  { exists d, (ts s). split; [done|]. split; [by destruct s|]. intros k. destruct (Hb k) as [_ ?]. cbv zeta in *. lia. }
  apply list.Forall_cons in Hall as [[[V1 V2 K1 K2 Ho Hz] H00] Hall]. cbn [length] in *.
  destruct (save_spec s d lens c Hok V1 V2) as (d1 & o1 & E & X & L1 & Hsv); try done.
  { apply (ls_room_mono _ _ _ Hroom). lia. }
  rewrite (bind_Ok _ _ _ _ _ E). set (s1 := mkStore o1 (exact s)) in *.
  destruct (IH s1 d1 (n + 1)) as (d2 & o2 & E2 & L2 & Hc); try done.
  - apply (te_ok _ _ _ X).
  - eapply saved_bounded; [done..|lia].
  - lia.
  - lia.
  - apply (te_room _ _ _ X), (ls_room_mono _ _ _ Hroom). lia.
  - eapply list.Forall_impl; [exact Hall|]. intros x [Hx ?]. split; [by eapply savable_ext|done].
  - by exists d2, o2.
Qed.

(** ** What the functions log *)

Section Calls.
Context {OS : Type}.
Implicit Types tr : track OS.
Abbreviation tags_of tr := (tags (rt (tio tr))).

(** The runtime is well formed, and so is the log. *)
Definition track_ok tr : Prop :=
  st_ok (rt (tio tr)) /\ match LC tr with Some d => log_ok (tags_of tr) d | None => True end.
Definition with_tags (t : tag_state) tr : track OS :=
  mkTrack (set_rt (set_tags t (rt (tio tr))) (tio tr)) (LC tr).
Lemma with_tags_ok k tr t : track_ok tr -> tags_ext k (tags_of tr) t -> track_ok (with_tags t tr).
Proof.
  intros [Hok Hlog] He. split; [by eapply st_ok_ext|]. cbn. destruct (LC tr); [by eapply log_ok_ext|done].
Qed.
Lemma with_tags_id tr : with_tags (tags_of tr) tr = tr.
Proof. by destruct tr as [[[]]]. Qed.

Lemma track_shape_spec lb n tr : track_ok tr -> ls_valid (tags_of tr) lb -> 0 < n ->
  exists t', infer_shape lb n tr = Ok (tt, with_tags t' tr) /\ tags_ext 0 (tags_of tr) t'.
Proof.
  intros [[Hok _] _] Hl Hn. unfold infer_shape, when. destruct (0 <? lb).
  - destruct (math_op_spec (tags_of tr) lb n Hok Hl Hn) as (t' & E & He). exists t'. split; [|done].
    unfold on_io, lift, on_tags_. by rewrite E.
  - exists (tags_of tr). rewrite with_tags_id. split; [done|by apply tags_ext_refl].
Qed.
Lemma infer_eq_sign_spec o l1 l2 tr : exists o', infer_eq_sign o l1 l2 tr = Ok (o', tr) /\
  (o' = o \/ o = COND_ICMP_EQ_OP /\ o' = Z.lor COND_ICMP_EQ_OP COND_SIGN_MASK).
Proof.
  unfold infer_eq_sign, sign_of, bind, gets, ret. eexists. split; [reflexivity|].
  destruct (Z.eqb_spec o COND_ICMP_EQ_OP) as [->|]; [|by left]. destruct (_ || _); [by right|by left].
Qed.

(** One condition goes to the log. *)
Lemma log_one c tr d : track_ok tr -> LC tr = Some d ->
  ls_valid (tags_of tr) (lb1 c) -> ls_valid (tags_of tr) (lb2 c) -> ls_room (tags_of tr) 2 ->
  len_known (len_info (tio tr)) (lb1 c) -> len_known (len_info (tio tr)) (lb2 c) ->
  op c <> COND_LEN_OP -> lb1 c <> 0 \/ lb2 c <> 0 ->
  exists d' t', with_lc (fun lens => save lens c) tr = Ok (tt, mkTrack (tio (with_tags t' tr)) (Some d')) /\
    tags_ext 2 (tags_of tr) t' /\ track_ok (mkTrack (tio (with_tags t' tr)) (Some d')) /\ saved d c d'.
Proof.
  intros [Hok Hlog] EL H1 H2 Hroom K1 K2 Hop Hnz. rewrite EL in Hlog.
  destruct (save_spec (tags_of tr) d (len_info (tio tr)) c (proj1 Hok) H1 H2 Hroom Hlog K1 K2 Hop Hnz)
    as (d' & o' & E & He & Hlog' & Hsv).
  exists d', (mkStore o' (exact (tags_of tr))). split; [unfold with_lc; by rewrite EL, E|].
  split; [done|]. split; [|done]. split; [by eapply st_ok_ext|done].
Qed.

(** The segments in the log for [lb] are the offsets that [l] has; there are none for zero. *)
Definition shows (t : tag_state) d (lb l : Z) : Prop :=
  lb = 0 /\ taint t l = ∅ \/
  0 < lb /\ exists segs, log_tags d !! lb = Some segs /\
    (forall o, (exists sg, sg ∈ segs /\ in_seg o sg) <-> o ∈ taint t l).
Lemma logged_shows t t' d c lb l : ls_ok t' -> log_ok t' d -> ls_valid t' lb -> c ∈ cond_list d -> op c <> COND_LEN_OP ->
  lb = lb1 c \/ lb = lb2 c -> taint t' lb = taint t l -> shows t d lb l.
Proof.
  intros Hok [Ht Hc] [Hr _] Hi Hop Hlb Heq. destruct (decide (lb = 0)) as [->|Hz].
  { left. split; [done|]. by rewrite <-Heq, taint_zero. }
  right. assert (Hpos : 0 < lb) by lia. split; [done|]. destruct (Hc c lb Hi Hop Hlb Hpos) as [segs E]. exists segs. split; [done|].
  destruct (Ht lb segs E) as [_ (HD & _)]. intros o. by rewrite HD, Heq.
Qed.

(** A comparison of tainted values that was executed less than sixteen times in its
    context is logged, with its values and with the next order.  The segments the log has
    for its labels, without their length part, are exactly the offsets of the values
    that were compared.  The log stays well formed: the labels of every condition in it
    have their segments there. *)
Lemma trace_cmp_logged tr d cid ctx callsite n o a1 a2 cond k0 k1 k2 k3 k4 l1 l2 k7 :
  track_ok tr -> LC tr = Some d -> ls_valid (tags_of tr) l1 -> ls_valid (tags_of tr) l2 -> l1 <> 0 \/ l2 <> 0 ->
  len_known (len_info (tio tr)) l1 -> len_known (len_info (tio tr)) l2 -> ls_room (tags_of tr) 2 ->
  0 < n -> 0 <= o < COND_AFL_OP -> 0 <= default 0 (order_map d !! (cid, ctx)) < MAX_COND_ORDER ->
  exists tr' d' c, __dfsw___angora_trace_cmp_tt cid ctx callsite n o a1 a2 cond k0 k1 k2 k3 k4 l1 l2 k7 tr = Ok (tt, tr') /\
    track_ok tr' /\ LC tr' = Some d' /\ c ∈ cond_list d' /\
    cmpid c = cid /\ context c = ctx /\ arg1 c = a1 /\ arg2 c = a2 /\ condition c = cond /\
    order c = default 0 (order_map d !! (cid, ctx)) + 1 /\
    (op c = o \/ o = COND_ICMP_EQ_OP /\ op c = Z.lor COND_ICMP_EQ_OP COND_SIGN_MASK) /\
    size c = n /\ last_callsite c = callsite /\
    shows (tags_of tr) d' (lb1 c) l1 /\ shows (tags_of tr) d' (lb2 c) l2.
Proof.
  intros Hok EL H1 H2 Hnz K1 K2 Hroom Hn Ho Hseen. unfold __dfsw___angora_trace_cmp_tt.
  replace ((l1 =? 0) && (l2 =? 0)) with false
    by (symmetry; apply andb_false_iff; destruct Hnz; [left|right]; by apply Z.eqb_neq).
  destruct (infer_eq_sign_spec o l1 l2 tr) as (o' & E0 & Ho'). rewrite (bind_Ok _ _ _ _ _ E0).
  assert (Hop : 0 <= o' < COND_AFL_OP) by (destruct Ho' as [->|[_ ->]]; [done|by vm_compute]). clear E0.
  destruct (track_shape_spec l1 n tr Hok H1 Hn) as (t1 & E1 & X1). rewrite (bind_Ok _ _ _ _ _ E1).
  pose proof (with_tags_ok _ _ _ Hok X1) as Hok1. set (tr1 := with_tags t1 tr) in *.
  destruct (te_label _ _ _ X1 l1 H1) as [V1 _], (te_label _ _ _ X1 l2 H2) as [V2 _].
  destruct (track_shape_spec l2 n tr1 Hok1 V2 Hn) as (t2 & E2 & X2). rewrite (bind_Ok _ _ _ _ _ E2).
  pose proof (with_tags_ok _ _ _ Hok1 X2) as Hok2. set (tr2 := with_tags t2 tr1) in *.
  destruct (te_label _ _ _ X2 l1 V1) as [W1 _], (te_label _ _ _ X2 l2 V2) as [W2 _].
  set (c := mkCond cid ctx callsite 0 0 cond 0 o' n l1 l2 a1 a2). unfold log_cmp_callsite. fold c.
  assert (Hlen : op c <> COND_LEN_OP) by (cbn; unfold COND_LEN_OP, COND_AFL_OP in *; lia).
  destruct (log_one c tr2 d Hok2 EL W1 W2) as (d' & t' & E3 & X3 & Hok3 & Hsv); try done.
  { apply (te_room _ _ _ X2), (te_room _ _ _ X1). done. }
  set (tr3 := mkTrack (tio (with_tags t' tr2)) (Some d')) in *. exists tr3, d', (set_order (logged_order d c) (plain_cond c)).
  assert (Hord : ordered c = true) by (unfold ordered; cbn; rewrite (proj2 (Z.ltb_lt _ _)) by lia; done).
  assert (Hnext : next_order d c = seen d c + 1).
  { unfold next_order. rewrite Hord. cbn [order c Z.eqb]. apply u32_small. unfold seen, MAX_COND_ORDER in *. cbn in *. lia. }
  assert (Hin : set_order (logged_order d c) (plain_cond c) ∈ cond_list d').
  { pose proof (sv_conds _ _ _ Hsv) as Hc. rewrite (proj2 (Z.leb_le _ _)) in Hc
      by (rewrite Hnext; unfold seen, c, MAX_COND_ORDER in *; cbn; lia).
    destruct Hc as (lc & -> & _). rewrite elem_of_app. right. by left. }
  destruct (plain_fields c) as (Fo & _ & Fi & Fx). destruct Hok3 as [Hst3 Hlog3]. change (LC tr3) with (Some d') in Hlog3. cbv iota in Hlog3.
  destruct (plain_cond_labels (tags_of tr3) c) as (Y1 & T1 & Y2 & T2).
  { apply (te_label _ _ _ X3 _ W1). } { apply (te_label _ _ _ X3 _ W2). }
  pose proof (plain_cond_same c) as Hpc.
  assert (Hkeep : forall l, ls_valid (tags_of tr) l -> taint (tags_of tr3) l = taint (tags_of tr) l).
  { intros l Hl. apply (te_label _ _ _ (tags_ext_trans _ _ _ _ _ X1 (tags_ext_trans _ _ _ _ _ X2 X3)) l Hl). }
  split_and!; try done.
  - by rewrite <-Hpc.
  - by rewrite <-Hpc.
  - by rewrite <-Hpc.
  - cbn [order set_order]. unfold logged_order. rewrite Hord, Hnext. cbn [order c]. apply u32_small. unfold seen, c, MAX_COND_ORDER in *. cbn. lia.
  - cbn. by rewrite Fo.
  - by rewrite <-Hpc.
  - by rewrite <-Hpc.
  - apply (logged_shows _ _ _ _ _ _ (proj1 Hst3) Hlog3 Y1 Hin); [by cbn; rewrite Fo|by left|]. by rewrite <-(Hkeep l1 H1).
  - apply (logged_shows _ _ _ _ _ _ (proj1 Hst3) Hlog3 Y2 Hin); [by cbn; rewrite Fo|by right|]. by rewrite <-(Hkeep l2 H2).
Qed.

(** Memory of the program that the functions read. *)
Lemma load_u64s_at m p xs : (forall i x, xs !! i = Some x -> load64 (p + 8 * Z.of_nat i) m = Ok (x, m)) ->
  load_u64s (length xs) p m = Ok (xs, m).
Proof.
  revert p. induction xs as [|x xs IH]; intros p H; [done|]. cbn [length load_u64s].
  specialize (H 0%nat x eq_refl) as Hx. rewrite Z.add_0_r in Hx. rewrite (bind_Ok _ _ _ _ _ Hx).
  rewrite (bind_Ok _ _ _ xs m); [done|]. apply IH. intros i y Hi. specialize (H (S i) y Hi).
  by replace (p + 8 + 8 * Z.of_nat i) with (p + 8 * Z.of_nat (S i)) by lia.
Qed.

(** The cases of a switch go to the log. *)
Lemma save_cases_spec lens c sw : forall i s d,
  ls_ok s -> ls_valid s (lb1 c) -> ls_valid s (lb2 c) -> ls_room s (2 * length sw) -> log_ok s d ->
  len_known lens (lb1 c) -> len_known lens (lb2 c) -> op c <> COND_LEN_OP -> lb1 c <> 0 \/ lb2 c <> 0 ->
  exists d' o', save_cases lens c i sw (mkLst d (ts s)) = Ok (tt, mkLst d' o') /\
    tags_ext (2 * length sw) s (mkStore o' (exact s)) /\ log_ok (mkStore o' (exact s)) d'.
Proof.
  induction sw as [|a sw IH]; intros i s d Hok H1 H2 Hroom Hlog K1 K2 Hop Hnz; cbn [save_cases].
  { exists d, (ts s). split; [done|]. replace (mkStore (ts s) (exact s)) with s by by destruct s.
    split; [by apply tags_ext_refl|done]. }
  set (ci := if a =? arg1 c then _ else _).
  assert (Eci : lb1 ci = lb1 c /\ lb2 ci = lb2 c /\ op ci = op c) by (unfold ci; by destruct (a =? arg1 c)).
  destruct Eci as (E1 & E2 & E3). cbn [length] in Hroom.
  destruct (save_spec s d lens ci Hok) as (d1 & o1 & Es & X1 & L1 & _); rewrite ?E1, ?E2, ?E3; try done.
  { apply (ls_room_mono _ _ _ Hroom). lia. }
  rewrite (bind_Ok _ _ _ _ _ Es). set (s1 := mkStore o1 (exact s)) in *.
  destruct (IH (i + 1) s1 d1) as (d2 & o2 & E & X2 & L2); try done; try apply (te_label _ _ _ X1 _); try done.
  { apply (te_ok _ _ _ X1). }
  { apply (te_room _ _ _ X1), (ls_room_mono _ _ _ Hroom). lia. }
  change (ts s1) with o1 in E. exists d2, o2. split; [done|]. split; [|done].
  replace (2 * length (a :: sw))%nat with (2 + 2 * length sw)%nat by (cbn; lia). by eapply tags_ext_trans.
Qed.

(** A switch over a tainted value keeps the runtime and the log well formed: after it
    the labels of all conditions in the log, its own cases included, still have exactly
    their offsets there. *)
Theorem trace_switch_keeps tr cid ctx callsite n v sw args k0 k1 k2 k3 l k5 k6 :
  track_ok tr -> ls_valid (tags_of tr) l -> len_known (len_info (tio tr)) l ->
  ls_room (tags_of tr) (2 * length sw) -> 0 < n ->
  (forall i x, sw !! i = Some x -> load64 (args + 8 * Z.of_nat i) (app (rt (tio tr))) = Ok (x, app (rt (tio tr)))) ->
  exists tr', __dfsw___angora_trace_switch_tt cid ctx callsite n v (Z.of_nat (length sw)) args k0 k1 k2 k3 l k5 k6 tr =
      Ok (tt, tr') /\ track_ok tr' /\
    forall l0, ls_valid (tags_of tr) l0 -> taint (tags_of tr') l0 = taint (tags_of tr) l0.
Proof.
  intros Hok Hl Hlen Hroom Hn Hmem. unfold __dfsw___angora_trace_switch_tt.
  destruct (Z.eqb_spec l 0) as [->|Hnz]; [by exists tr|].
  destruct (track_shape_spec l n tr Hok Hl Hn) as (t1 & E1 & X1). rewrite (bind_Ok _ _ _ _ _ E1).
  pose proof (with_tags_ok _ _ _ Hok X1) as Hok1. set (tr1 := with_tags t1 tr) in *.
  rewrite (bind_Ok (sign_of l) _ tr1 _ tr1) by reflexivity. cbv zeta.
  set (c := mkCond _ _ _ _ _ _ _ _ _ _ _ _ _).
  rewrite (bind_Ok _ _ tr1 sw tr1).
  2: { unfold on_io, lift, on_mem. rewrite Nat2Z.id. change (app (rt (tio tr1))) with (app (rt (tio tr))).
       rewrite (load_u64s_at _ _ _ Hmem). by destruct tr as [[[]]]. }
  destruct (te_label _ _ _ X1 l Hl) as [V1 _]. destruct Hok1 as [Hst1 Hlog1]. unfold with_lc.
  destruct (LC tr1) as [d|] eqn:EL.
  2: { exists tr1. split; [done|]. split; [split; [done|by rewrite EL]|]. intros l0 Hl0. apply (te_label _ _ _ X1 _ Hl0). }
  destruct (save_cases_spec (len_info (tio tr1)) c sw 0 (tags_of tr1) d) as (d' & o' & E & X2 & L2); try done.
  { apply Hst1. }
  { apply ls_valid_zero, Hst1. }
  { by apply (te_room _ _ _ X1). }
  { unfold c, op. destruct (match ts _ with Some _ => _ | None => _ end); by vm_compute. }
  { by left. }
  rewrite E. eexists. split; [reflexivity|]. split; [split; [by eapply st_ok_ext|done]|].
  intros l0 Hl0. apply (te_label _ _ _ (tags_ext_trans _ _ _ _ _ X1 X2) l0 Hl0).
Qed.
End Calls.
End Meaning.

(** ** Magic bytes

    [save_magic_bytes] attaches the compared strings to the last condition of the log.  If
    [save] has dropped the condition, that is another one, whose strings are replaced. *)
Theorem dropped_fn_overwrites lens c d t bytes :
  lb1 c <> 0 \/ lb2 c <> 0 -> is_len_label (lb1 c) = false -> is_len_label (lb2 c) = false ->
  op c = COND_FN_OP -> MAX_COND_ORDER < next_order d c -> cond_list d <> [] ->
  exists d', (save lens c ;;; save_magic_bytes bytes) (mkLst d t) = Ok (tt, mkLst d' t) /\
    cond_list d' = cond_list d /\ magic_bytes d' = <[ (length (cond_list d) - 1)%nat := bytes ]> (magic_bytes d).
Proof.
  intros Hnz N1 N2 Hop Hmax Hne.
  assert (Es : save lens c (mkLst d t) = Ok (tt, mkLst (count_order d c) t)).
  { unfold save. replace ((lb1 c =? 0) && (lb2 c =? 0)) with false
      by (symmetry; apply andb_false_iff; destruct Hnz; [left|right]; by apply Z.eqb_neq).
    assert (Ep : get_len_cond lens c = Ok (plain_cond c, None)) by (unfold get_len_cond, plain_cond; by rewrite N1, N2).
    rewrite Ep, (bind_Ok _ _ _ _ _ (order_step d c t)). by rewrite (proj2 (Z.leb_gt _ _) Hmax). }
  rewrite (bind_Ok _ _ _ _ _ Es).
  assert (Ec : cond_list (count_order d c) = cond_list d /\ magic_bytes (count_order d c) = magic_bytes d)
    by (unfold count_order; by destruct (ordered c)).
  destruct Ec as [Ec Em]. unfold save_magic_bytes, bind, gets, upd, modify, when. cbn [data]. rewrite Ec.
  destruct (cond_list d) as [|x r] eqn:Ed; [done|]. cbn [length Nat.ltb Nat.leb].
  eexists. split; [reflexivity|]. cbn. by rewrite Ec, Em.
Qed.

(** ** Orders of length conditions

    The order of a length condition is to differ from those of the other conditions, but
    it is that of the second case of a switch. *)
Definition two_cases : list CondStmtBase :=
  match save_cases [(0, 1); (12, 4)] (mkCond 7 1 0 0 0 0 0 COND_SW_OP 4 (get_fat_label 0 1) 0 5 0) 0 [5; 6]
          (mkLst Logger_new (Some TagSet_new)) with
  | Ok (_, l) => cond_list (data l)
  | Fault _ => []
  end.
Theorem len_cond_clashes :
  match two_cases with
  | [case0; len0; case1; len1] =>
      (op len0 =? COND_LEN_OP) && (op case1 =? COND_SW_OP) && cond_eq len0 case1
  | _ => false
  end = true.
Proof. by vm_compute. Qed.

(** ** Witnesses *)

Module TrackEx.
Definition tr : track Z := mkTrack (mkIo StoreEx.ex ∅ len_info0 0) (Some Logger_new).
Lemma tr_ok : track_ok 64 tr.
Proof. split; [apply StoreEx.store_ex_ok|apply log_ok_new]. Qed.
#[local] Instance view : LabelStoreView tag_state := tag_view 64.
Lemma labels_ok l : l = 2 \/ l = 4 -> ls_valid (tags (rt (tio tr))) l.
Proof.
  intros Hl. split; [lia|]. exists TagEx.ex. split; [done|]. destruct Hl as [->| ->]; right.
  - exists 1%nat. eexists. split; [by vm_compute|done].
  - exists 3%nat. eexists. split; [by vm_compute|done].
Qed.
Definition c0 : CondStmtBase := mkCond 7 1 0 0 0 0 0 32 4 2 4 10 11.
Lemma new_bounded : bounded Logger_new 0.
Proof. intros k. cbn. rewrite lookup_empty. cbn. unfold MAX_COND_ORDER. lia. Qed.
End TrackEx.

Lemma trace_switch_keeps_witness :
  exists tr', __dfsw___angora_trace_switch_tt 7 1 0 4 10 1 IoEx.buf 0 0 0 0 2 0 0 TrackEx.tr = Ok (tt, tr') /\ track_ok 64 tr'.
Proof.
  destruct (trace_switch_keeps 64 StoreEx.size_ok TrackEx.tr 7 1 0 4 10 [0] IoEx.buf 0 0 0 0 2 0 0) as (tr' & E & Hok & _).
  - apply TrackEx.tr_ok.
  - apply TrackEx.labels_ok. by left.
  - intros H. by vm_compute in H.
  - by vm_compute.
  - lia.
  - intros [|i] x H; [|discriminate H]. injection H as <-. by vm_compute.
  - exists tr'. split; [exact E|exact Hok].
Defined.

Lemma saves_bounded_witness :
  exists d' o', save_all len_info0 [TrackEx.c0; TrackEx.c0] (mkLst Logger_new (Some TagEx.ex)) = Ok (tt, mkLst d' o') /\
    Z.of_nat (logged_count d' (7, 1)) <= MAX_COND_ORDER.
Proof.
  destruct (saves_bounded 64 StoreEx.size_ok len_info0 [TrackEx.c0; TrackEx.c0] (tags (rt (tio TrackEx.tr))) Logger_new 0)
    as (d' & o' & E & _ & Hc).
  - apply StoreEx.store_ex_ok.
  - apply log_ok_new.
  - apply TrackEx.new_bounded.
  - done.
  - by vm_compute.
  - by vm_compute.
  - assert (Hs : savable 64 (tags (rt (tio TrackEx.tr))) len_info0 TrackEx.c0 /\ order TrackEx.c0 = 0).
    { split; [|done]. split; [by apply TrackEx.labels_ok; left|by apply TrackEx.labels_ok; right| | |done|by left];
        intros H; by vm_compute in H. }
    constructor; [exact Hs|]. constructor; [exact Hs|constructor].
  - exists d', o'. split; [exact E|apply Hc].
Defined.

Lemma dropped_fn_overwrites_witness :
  let d := mkLogger [TrackEx.c0] ∅ ∅ {[ (9, 1) := 16 ]} in
  exists d', (save len_info0 (mkCond 9 1 0 0 0 0 0 COND_FN_OP 4 2 0 0 0) ;;; save_magic_bytes ([1], [2])) (mkLst d None) =
      Ok (tt, mkLst d' None) /\ cond_list d' = [TrackEx.c0] /\ magic_bytes d' = <[ 0%nat := ([1], [2]) ]> ∅.
Proof.
  intros d. destruct (dropped_fn_overwrites len_info0 (mkCond 9 1 0 0 0 0 0 COND_FN_OP 4 2 0 0 0) d None ([1], [2]))
    as (d' & E & E1 & E2); [by left|done|done|done|by vm_compute|done|].
  exists d'. split; [exact E|]. split; [exact E1|exact E2].
Defined.
