(* ===== verification/AngoraClang.v ===== *)
(** * The compiler wrapper

    [llvm_mode/compiler/angora_clang.c]: [angora-clang] rewrites a clang command
    line.  The parameters collected so far are the list [cc_params] of the
    state; the array behind it has [cap] slots, and a store outside it is a
    fault.  The process environment, the file system and [execvp] are the
    operations of the class [Shell]. *)

From Stdlib Require Import Ascii.
From S2P Require Import Prelude.

Local Open Scope string_scope.

Inductive clang_mode := CLANG_FAST_TYPE | CLANG_TRACK_TYPE | CLANG_DFSAN_TYPE | CLANG_PIN_TYPE.

Definition clang_mode_eqb (a b : clang_mode) : bool :=
  match a, b with
  | CLANG_FAST_TYPE, CLANG_FAST_TYPE | CLANG_TRACK_TYPE, CLANG_TRACK_TYPE
  | CLANG_DFSAN_TYPE, CLANG_DFSAN_TYPE | CLANG_PIN_TYPE, CLANG_PIN_TYPE => true
  | _, _ => false
  end.

(** The static variables of the file. *)
Record cc := mkCc {
  obj_path : string;
  cc_params : list string;
  cap : nat;
  clang_type : clang_mode;
  is_cxx : bool;
}.

Class Shell := {
  getenv : string -> option string;
  readable : string -> bool;        (* access(path, R_OK) == 0 *)
  exec_ok : string -> bool;         (* execvp finds the program *)
}.

(** [strrchr]: what comes before and after the last occurrence of a character. *)
Fixpoint split_last (c : Ascii.ascii) (s : string) : option (string * string) :=
  match s with
  | EmptyString => None
  | String a s' =>
      match split_last c s' with
      | Some (pre, post) => Some (String a pre, post)
      | None => if Ascii.eqb a c then Some (EmptyString, s') else None
      end
  end.
(** [strstr] as a test. *)
Fixpoint substring_of (x s : string) : bool :=
  String.prefix x s ||
  match s with EmptyString => false | String _ s' => substring_of x s' end.

Definition slash : Ascii.ascii := "/"%char.
Definition dot : Ascii.ascii := "."%char.

(** What the loop over the arguments remembers. *)
Record argflags := mkFlags {
  fortify_set : bool; asan_set : bool; x_set : bool; maybe_linking : bool; bit_mode : nat }.

Section Clang.
Context `{Shell}.
Abbreviation C := (M cc).

Definition push (x : string) : C unit :=
  fun s => if decide (length (cc_params s) < cap s)%nat
           then Ok (tt, mkCc (obj_path s) (cc_params s ++ [x])%list (cap s) (clang_type s) (is_cxx s))
           else Fault Segv.
Fixpoint push_all (l : list string) : C unit :=
  match l with [] => ret tt | x :: l => push x ;;; push_all l end.

Definition FATAL {A} : C A := fail DieCalled.

Definition find_obj (argv0 : string) : C unit :=
  match split_last slash argv0 with
  | Some (dir, _) =>
      if readable (dir +:+ "/pass/libAngoraPass.so")
      then modify (fun s => mkCc dir (cc_params s) (cap s) (clang_type s) (is_cxx s))
      else FATAL
  | None => FATAL
  end.

Definition isset (v : string) : bool := bool_decide (is_Some (getenv v)).

Definition check_type (name : string) : C unit :=
  modify (fun s =>
    let t := if isset "USE_FAST" then CLANG_FAST_TYPE
             else if isset "USE_DFSAN" then CLANG_DFSAN_TYPE
             else if isset "USE_TRACK" then CLANG_TRACK_TYPE
             else if isset "USE_PIN" then CLANG_PIN_TYPE
             else clang_type s in
    let cxx := if String.eqb name "angora-clang++" then true else is_cxx s in
    mkCc (obj_path s) (cc_params s) (cap s) t cxx).

(** Over [argv[1]] and the rest. *)
Fixpoint check_if_assembler (args : list string) : bool :=
  match args with
  | [] => false
  | cur :: args =>
      match split_last dot cur with
      | Some (_, ext) => if String.eqb ext "s" || String.eqb ext "S" then true else check_if_assembler args
      | None => check_if_assembler args
      end
  end.

Definition mode_is (t : clang_mode) (s : cc) : bool := clang_mode_eqb (clang_type s) t.

Definition add_angora_pass : C unit :=
  obj <- gets obj_path ;;
  dfsan <- gets (mode_is CLANG_DFSAN_TYPE) ;;
  track <- gets (mode_is CLANG_TRACK_TYPE) ;;
  pin <- gets (mode_is CLANG_PIN_TYPE) ;;
  when (negb dfsan)
    (push_all ["-Xclang"; "-load"; "-Xclang"; obj +:+ "/pass/libUnfoldBranchPass.so"]) ;;;
  push_all ["-Xclang"; "-load"; "-Xclang"; obj +:+ "/pass/libAngoraPass.so"] ;;;
  (if (dfsan : bool) then push_all ["-mllvm"; "-DFSanMode"]
   else when (track || pin) (push_all ["-mllvm"; "-TrackMode"])) ;;;
  push_all ["-mllvm"; "-angora-dfsan-abilist=" +:+ obj +:+ "/rules/angora_abilist.txt";
            "-mllvm"; "-angora-dfsan-abilist=" +:+ obj +:+ "/rules/dfsan_abilist.txt";
            "-mllvm"; "-angora-exploitation-list=" +:+ obj +:+ "/rules/exploitation_list.txt"] ;;;
  match getenv "ANGORA_TAINT_RULE_LIST" with
  | Some rule_list => push_all ["-mllvm"; "-angora-dfsan-abilist=" +:+ rule_list]
  | None => ret tt
  end.

Definition add_angora_runtime : C unit :=
  obj <- gets obj_path ;;
  t <- gets clang_type ;;
  cxx <- gets is_cxx ;;
  match t with
  | CLANG_FAST_TYPE => push (obj +:+ "/lib/libruntime_fast.a")
  | CLANG_TRACK_TYPE | CLANG_DFSAN_TYPE =>
      push_all ["-Wl,--whole-archive"; obj +:+ "/lib/libdfsan_rt-x86_64.a"; "-Wl,--no-whole-archive";
                "-Wl,--dynamic-list=" +:+ obj +:+ "/lib/libdfsan_rt-x86_64.a.syms";
                obj +:+ "/lib/libruntime.a"; obj +:+ "/lib/libDFSanIO.a"] ;;;
      match getenv "ANGORA_TAINT_CUSTOM_RULE" with
      | Some rule_obj => push rule_obj
      | None => ret tt
      end
  | CLANG_PIN_TYPE => push (obj +:+ "/lib/pin_stub.o")
  end ;;;
  when (negb (clang_mode_eqb t CLANG_FAST_TYPE))
    (when (negb cxx) (push "-lstdc++") ;;; push "-lrt") ;;;
  push_all ["-Wl,--no-as-needed"; "-Wl,--gc-sections"; "-ldl"; "-lpthread"; "-lm"].

Definition add_dfsan_pass : C unit :=
  obj <- gets obj_path ;;
  track <- gets (mode_is CLANG_TRACK_TYPE) ;;
  dfsan <- gets (mode_is CLANG_DFSAN_TYPE) ;;
  when (track || dfsan)
    (push_all ["-Xclang"; "-load"; "-Xclang"; obj +:+ "/pass/libDFSanPass.so";
               "-mllvm"; "-angora-dfsan-abilist2=" +:+ obj +:+ "/rules/angora_abilist.txt";
               "-mllvm"; "-angora-dfsan-abilist2=" +:+ obj +:+ "/rules/dfsan_abilist.txt"] ;;;
     match getenv "ANGORA_TAINT_RULE_LIST" with
     | Some rule_list => push_all ["-mllvm"; "-angora-dfsan-abilist2=" +:+ rule_list]
     | None => ret tt
     end).

(** One round of the argument loop: the flags it sets, and whether the argument
    is passed on. *)
Definition is_opt (cur : string) : bool :=
  String.eqb cur "-O1" || String.eqb cur "-O2" || String.eqb cur "-O3".
Definition is_defs (cur : string) : bool :=
  String.eqb cur "-Wl,-z,defs" || String.eqb cur "-Wl,--no-undefined".
Definition scan_arg (cur : string) (f : argflags) : argflags :=
  mkFlags
    (fortify_set f || substring_of "FORTIFY_SOURCE" cur)
    (asan_set f || String.eqb cur "-fsanitize=address" || String.eqb cur "-fsanitize=memory")
    (x_set f || String.eqb cur "-x")
    (maybe_linking f &&
     negb (String.eqb cur "-c" || String.eqb cur "-S" || String.eqb cur "-E") &&
     negb (String.eqb cur "-shared"))
    (if String.eqb cur "-m64" then 64 else if String.eqb cur "-m32" then 32 else bit_mode f).
Fixpoint arg_loop (args : list string) (f : argflags) : C argflags :=
  match args with
  | [] => ret f
  | cur :: args =>
      if is_opt cur then arg_loop args f else
      let f := scan_arg cur f in
      if is_defs cur then arg_loop args f else
      push cur ;;; arg_loop args f
  end.

Definition sanitizer_params : C unit :=
  if isset "ANGORA_USE_ASAN" then
    (if isset "ANGORA_USE_MSAN" then FATAL else
     if isset "ANGORA_HARDEN" then FATAL else
     push_all ["-U_FORTIFY_SOURCE"; "-fsanitize=address"])
  else if isset "ANGORA_USE_MSAN" then
    (if isset "ANGORA_USE_ASAN" then FATAL else
     if isset "ANGORA_HARDEN" then FATAL else
     push_all ["-U_FORTIFY_SOURCE"; "-fsanitize=memory"])
  else ret tt.

Definition cxx_params : C unit :=
  obj <- gets obj_path ;;
  t <- gets clang_type ;;
  match t with
  | CLANG_FAST_TYPE =>
      push_all ["-L" +:+ obj +:+ "/lib/libcxx_fast/"; "-stdlib=libc++"; "-Wl,--start-group";
                "-lc++abifast"; "-lc++abi"; "-Wl,--end-group"]
  | CLANG_TRACK_TYPE =>
      push_all ["-L" +:+ obj +:+ "/lib/libcxx_track/"; "-stdlib=libc++"; "-Wl,--start-group";
                "-lc++abitrack"; "-lc++abi"; "-Wl,--end-group"]
  | _ => ret tt
  end.

Definition flags0 : argflags := mkFlags false false false true 0.

(** Everything after the argument loop. *)
Definition add_extra (maybe_assembler : bool) (f : argflags) : C unit :=
  when (negb maybe_assembler) (add_angora_pass ;;; add_dfsan_pass) ;;;
  push_all ["-pie"; "-fpic"; "-Qunused-arguments"] ;;;
  when (isset "ANGORA_HARDEN")
    (push "-fstack-protector-all" ;;; when (negb (fortify_set f)) (push "-D_FORTIFY_SOURCE=2")) ;;;
  fast <- gets (mode_is CLANG_FAST_TYPE) ;;
  when (negb (asan_set f) && fast) sanitizer_params ;;;
  when (negb (isset "ANGORA_DONT_OPTIMIZE")) (push_all ["-g"; "-O3"; "-funroll-loops"]) ;;;
  cxx <- gets is_cxx ;;
  when cxx cxx_params ;;;
  when (maybe_linking f) (when (x_set f) (push_all ["-x"; "none"]) ;;; add_angora_runtime).

(** The final [NULL] needs a slot too. *)
Definition terminate : C unit :=
  fun s => if decide (length (cc_params s) < cap s)%nat then Ok (tt, s) else Fault Segv.

Definition compiler_name (cxx : bool) : string :=
  if cxx then default "clang++" (getenv "ANGORA_CXX") else default "clang" (getenv "ANGORA_CC").

(** [argv0] and [args] are [argv[0]] and the rest; with no further argument the
    test for ["-v"] reads the null pointer at the end of [argv]. *)
Definition edit_params (argv0 : string) (args : list string) : C unit :=
  modify (fun s => mkCc (obj_path s) [] (S (length args) + 128) (clang_type s) (is_cxx s)) ;;;
  check_type (match split_last slash argv0 with Some (_, name) => name | None => argv0 end) ;;;
  cxx <- gets is_cxx ;;
  push (compiler_name cxx) ;;;
  let maybe_assembler := check_if_assembler args in
  (if bool_decide (args = []) then fail Segv else ret tt) ;;;
  f <- arg_loop args flags0 ;;
  add_extra maybe_assembler f ;;;
  terminate.

(** The command line the process becomes. *)
Definition main (argv : list string) : res (list string) :=
  match argv with
  | [] | [_] => Fault DieCalled
  | argv0 :: args =>
      match (find_obj argv0 ;;; edit_params argv0 args) (mkCc "" [] 0 CLANG_FAST_TYPE false) with
      | Ok (_, s) =>
          if exec_ok (default "" (head (cc_params s))) then Ok (cc_params s) else Fault DieCalled
      | Fault e => Fault e
      end
  end.
End Clang.

(** ** Proofs *)

Local Close Scope string_scope.

Definition add_params (l : list string) (s : cc) : cc :=
  mkCc (obj_path s) (cc_params s ++ l) (cap s) (clang_type s) (is_cxx s).

(** [m] gives up with a message or appends at most [n] parameters, and does not
    leave the array while there is room for [n]. *)
Definition adds (n : nat) (m : M cc unit) : Prop :=
  forall s, (length (cc_params s) + n <= cap s)%nat ->
    m s = Fault DieCalled \/
    exists l, m s = Ok (tt, add_params l s) /\ (length l <= n)%nat.

Lemma add_params_nil s : add_params [] s = s.
Proof. destruct s. unfold add_params. cbn. by rewrite app_nil_r. Qed.
Lemma add_params_app l1 l2 s : add_params l2 (add_params l1 s) = add_params (l1 ++ l2) s.
Proof. unfold add_params. cbn. by rewrite app_assoc. Qed.

Lemma adds_ret n : adds n (ret tt).
Proof. intros s _. right. exists []. rewrite add_params_nil. cbn. split; [done|lia]. Qed.
Lemma adds_fatal n : adds n (FATAL : M cc unit).
Proof. intros s _. by left. Qed.
Lemma adds_seq n1 n2 n m1 m2 :
  adds n1 m1 -> adds n2 m2 -> (n1 + n2 <= n)%nat -> adds n (m1 ;;; m2).
Proof.
  intros H1 H2 Hn s Hs. unfold bind.
  destruct (H1 s ltac:(lia)) as [->|(l1 & -> & L1)]; [by left|].
  destruct (H2 (add_params l1 s)) as [->|(l2 & -> & L2)].
  - cbn. rewrite length_app. lia.
  - by left.
  - right. exists (l1 ++ l2). rewrite add_params_app, length_app. split; [done|lia].
Qed.
Lemma adds_weaken n1 n m : adds n1 m -> (n1 <= n)%nat -> adds n m.
Proof.
  intros H1 Hn s Hs. destruct (H1 s ltac:(lia)) as [E|(l & E & L)]; [by left|].
  right. exists l. split; [done|lia].
Qed.
Lemma adds_gets {A} n (g : cc -> A) (k : A -> M cc unit) :
  (forall a, adds n (k a)) -> adds n (x <- gets g ;; k x).
Proof. intros Hk s Hs. by apply Hk. Qed.
Lemma adds_when n b m : adds n m -> adds n (when b m).
Proof. destruct b; [done|]. intros _. apply adds_ret. Qed.
Lemma adds_push x : adds 1 (push x).
Proof.
  intros s Hs. right. exists [x]. unfold push. rewrite decide_True by lia. done.
Qed.
Lemma adds_push_all l : adds (length l) (push_all l).
Proof.
  induction l as [|x l IH]; [apply adds_ret|].
  eapply adds_seq; [apply adds_push|apply IH|done].
Qed.

#[export] Hint Resolve adds_push adds_push_all : cprog.

(** Walk through a program text, bounding each part by the given number. *)
Ltac adds_step :=
  repeat first
    [ apply adds_gets; intros
    | apply adds_when
    | match goal with
      | |- adds _ (match ?x with _ => _ end) => destruct x
      | |- adds _ (if ?x then _ else _) => destruct x
      end ];
  try solve [apply adds_ret | apply adds_fatal];
  try (eapply adds_weaken; [solve [eauto with cprog]|cbn; lia]).

Section ClangProofs.
Context `{Shell}.

Lemma adds_angora_pass : adds 18 add_angora_pass.
Proof.
  unfold add_angora_pass. adds_step.
  apply (adds_seq 4 14); [adds_step|apply (adds_seq 4 10); [adds_step|apply (adds_seq 2 8);
    [adds_step|apply (adds_seq 6 2); [adds_step|adds_step|lia]|lia]|lia]|lia].
Qed.
Lemma adds_dfsan_pass : adds 10 add_dfsan_pass.
Proof.
  unfold add_dfsan_pass. adds_step. apply (adds_seq 8 2); [adds_step|adds_step|lia].
Qed.
Lemma adds_angora_runtime : adds 14 add_angora_runtime.
Proof.
  unfold add_angora_runtime. adds_step. apply (adds_seq 7 7); [|apply (adds_seq 2 5)|lia].
  - adds_step; (apply (adds_seq 6 1); [adds_step|adds_step|lia]).
  - adds_step. apply (adds_seq 1 1); [adds_step|adds_step|lia].
  - adds_step.
  - lia.
Qed.
Lemma adds_sanitizer : adds 2 sanitizer_params.
Proof. unfold sanitizer_params. adds_step. Qed.
Lemma adds_cxx : adds 6 cxx_params.
Proof. unfold cxx_params. adds_step. Qed.

Lemma adds_extra asm f : adds 60 (add_extra asm f).
Proof.
  pose proof adds_angora_pass. pose proof adds_dfsan_pass. pose proof adds_angora_runtime.
  pose proof adds_sanitizer. pose proof adds_cxx. unfold add_extra.
  apply (adds_seq 28 32); [|apply (adds_seq 3 29); [adds_step|apply (adds_seq 2 27)|lia]|lia].
  - adds_step. by apply (adds_seq 18 10).
  - adds_step. apply (adds_seq 1 1); [adds_step|adds_step|lia].
  - adds_step. apply (adds_seq 2 25); [by apply adds_when| |lia].
    apply (adds_seq 3 22); [adds_step| |lia]. adds_step.
    apply (adds_seq 6 16); [by apply adds_when| |lia]. adds_step.
    apply (adds_seq 2 14); [adds_step|done|lia].
  - lia.
Qed.

(** The arguments the wrapper passes on. *)
Definition kept (args : list string) : list string :=
  filter (fun a => negb (is_opt a) && negb (is_defs a) = true) args.

Lemma arg_loop_spec args : forall f s,
  (length (cc_params s) + length args <= cap s)%nat ->
  exists f', arg_loop args f s = Ok (f', add_params (kept args) s).
Proof.
  induction args as [|a args IH]; intros f s Hs; cbn [arg_loop length] in *.
  { exists f. by rewrite add_params_nil. }
  unfold kept. rewrite filter_cons. destruct (is_opt a); cbn [negb andb].
  { rewrite decide_False by done. apply IH. lia. }
  destruct (is_defs a); cbn [negb].
  { rewrite decide_False by done. apply IH. lia. }
  rewrite decide_True by done. unfold bind, push. rewrite decide_True by lia.
  destruct (IH (scan_arg a f) (add_params [a] s)) as (f' & E).
  { cbn. rewrite length_app. cbn. lia. }
  exists f'. fold (add_params [a] s). by rewrite E, add_params_app.
Qed.

(** The state in which the argument loop starts. *)
Definition start_state (argv0 : string) (args : list string) (s : cc) : cc :=
  let name := match split_last slash argv0 with Some (_, name) => name | None => argv0 end in
  let t := if isset "USE_FAST" then CLANG_FAST_TYPE
           else if isset "USE_DFSAN" then CLANG_DFSAN_TYPE
           else if isset "USE_TRACK" then CLANG_TRACK_TYPE
           else if isset "USE_PIN" then CLANG_PIN_TYPE
           else clang_type s in
  let cxx := if String.eqb name "angora-clang++" then true else is_cxx s in
  mkCc (obj_path s) [compiler_name cxx] (S (length args) + 128) t cxx.

Lemma edit_params_start argv0 args s :
  args <> [] ->
  edit_params argv0 args s =
    (f <- arg_loop args flags0 ;; add_extra (check_if_assembler args) f ;;; terminate)
      (start_state argv0 args s).
Proof.
  intros Hne. unfold edit_params, start_state. cbv zeta.
  unfold bind at 1, modify at 1. unfold bind at 1, check_type, modify at 1.
  unfold bind at 1, gets. unfold bind at 1, push. rewrite decide_True by (cbn; lia).
  unfold bind at 1. by rewrite bool_decide_eq_false_2 by done.
Qed.

(** C36: the parameter array is never overrun.  For every command line with at
    least one argument and every environment, the wrapper either stops with a
    message or produces the compiler's name, then the user's arguments in their
    order (less the -O1/-O2/-O3 levels and the two -Wl options that forbid
    undefined symbols), then at most 60 parameters of its own; with the
    terminating null pointer they fit into the [argc + 128] slots. *)
Theorem edit_params_in_bounds argv0 args s :
  args <> [] ->
  edit_params argv0 args s = Fault DieCalled \/
  exists s' extra, edit_params argv0 args s = Ok (tt, s') /\
    cc_params s' = compiler_name (is_cxx s') :: kept args ++ extra /\
    (length extra <= 60)%nat /\
    cap s' = (S (length args) + 128)%nat /\ (length (cc_params s') < cap s')%nat.
Proof.
  intros Hne. rewrite edit_params_start by done. set (s2 := start_state argv0 args s).
  assert (Hk : (length (kept args) <= length args)%nat) by apply length_filter.
  destruct (arg_loop_spec args flags0 s2) as (f & E); [cbn; lia|].
  rewrite (bind_Ok _ _ _ _ _ E).
  destruct (adds_extra (check_if_assembler args) f (add_params (kept args) s2)) as [E2|(l & E2 & L)].
  { cbn. lia. }
  { left. unfold bind. by rewrite E2. }
  rewrite (bind_Ok _ _ _ _ _ E2), add_params_app. unfold terminate.
  assert (Hlen : (length (cc_params (add_params (kept args ++ l) s2)) <
                  cap (add_params (kept args ++ l) s2))%nat).
  { cbn. rewrite length_app. lia. }
  rewrite decide_True by done. right. exists (add_params (kept args ++ l) s2), l. by split_and!.
Qed.

(** ** The command line of a plain build *)

(** No option of the list asks for less than a whole program. *)
Definition links (args : list string) : bool :=
  forallb (fun a => negb (bool_decide (a ∈ ["-c"; "-S"; "-E"; "-shared"]))) args.
Definition gives_language (args : list string) : bool := bool_decide ("-x" ∈ args).

Lemma arg_loop_flags args : forall f s f' s',
  arg_loop args f s = Ok (f', s') ->
  maybe_linking f' = maybe_linking f && links args /\
  x_set f' = x_set f || gives_language args.
Proof.
  assert (Hcons : forall a args f, is_opt a = false ->
    maybe_linking (scan_arg a f) && links args = maybe_linking f && links (a :: args) /\
    x_set (scan_arg a f) || gives_language args = x_set f || gives_language (a :: args)).
  { intros a l f _. split.
    - cbn [links forallb scan_arg maybe_linking]. rewrite <-!andb_assoc. f_equal.
      rewrite andb_assoc. f_equal. rewrite <-negb_orb. f_equal.
      apply eq_true_iff_eq. rewrite bool_decide_eq_true, !elem_of_cons, !orb_true_iff, !String.eqb_eq.
      rewrite elem_of_nil. tauto.
    - cbn [scan_arg x_set]. rewrite <-orb_assoc. f_equal. unfold gives_language.
      apply eq_true_iff_eq. rewrite orb_true_iff, !bool_decide_eq_true, String.eqb_eq, elem_of_cons.
      split; (intros [?|?]; [left|right]; done). }
  assert (Hopt : forall a args, is_opt a = true ->
    links (a :: args) = links args /\ gives_language (a :: args) = gives_language args).
  { intros a l Ha. unfold is_opt in Ha. rewrite !orb_true_iff, !String.eqb_eq in Ha.
    unfold gives_language. split.
    - by destruct Ha as [[->| ->]| ->].
    - apply bool_decide_ext. rewrite elem_of_cons. split; [|by right].
      intros [E|?]; [|done]. destruct Ha as [[->| ->]| ->]; done. }
  induction args as [|a args IH]; intros f s f' s'; cbn [arg_loop].
  { intros [= <- _]. cbn. by rewrite andb_true_r, orb_false_r. }
  destruct (is_opt a) eqn:Eo.
  { intros Hl. destruct (IH _ _ _ _ Hl) as [-> ->]. by destruct (Hopt a args Eo) as [-> ->]. }
  destruct (Hcons a args f Eo) as [E1 E2]. destruct (is_defs a).
  { intros Hl. destruct (IH _ _ _ _ Hl) as [-> ->]. done. }
  intros ([] & s1 & _ & Hl)%bind_Ok_inv. destruct (IH _ _ _ _ Hl) as [-> ->]. done.
Qed.

Definition fast_pass_params (obj : string) : list string :=
  ["-Xclang"; "-load"; "-Xclang"; obj +:+ "/pass/libUnfoldBranchPass.so";
   "-Xclang"; "-load"; "-Xclang"; obj +:+ "/pass/libAngoraPass.so";
   "-mllvm"; "-angora-dfsan-abilist=" +:+ obj +:+ "/rules/angora_abilist.txt";
   "-mllvm"; "-angora-dfsan-abilist=" +:+ obj +:+ "/rules/dfsan_abilist.txt";
   "-mllvm"; "-angora-exploitation-list=" +:+ obj +:+ "/rules/exploitation_list.txt"]%string.
Definition fast_link_params (obj : string) : list string :=
  [obj +:+ "/lib/libruntime_fast.a"; "-Wl,--no-as-needed"; "-Wl,--gc-sections";
   "-ldl"; "-lpthread"; "-lm"]%string.

Lemma push_all_Ok l : forall s, (length (cc_params s) + length l <= cap s)%nat ->
  push_all l s = Ok (tt, add_params l s).
Proof.
  induction l as [|x l IH]; intros s Hs; cbn [push_all length] in *.
  { by rewrite add_params_nil. }
  unfold bind, push. rewrite decide_True by lia. fold (add_params [x] s).
  rewrite IH by (cbn; rewrite length_app; cbn; lia). by rewrite add_params_app.
Qed.

Lemma push_Ok x s : (length (cc_params s) + 1 <= cap s)%nat -> push x s = Ok (tt, add_params [x] s).
Proof. intros Hs. unfold push. by rewrite decide_True by lia. Qed.

Lemma fields_add l s : clang_type (add_params l s) = clang_type s /\
  is_cxx (add_params l s) = is_cxx s /\ obj_path (add_params l s) = obj_path s.
Proof. done. Qed.

(** Execute a program text in fast mode; the bound on the array is in the
    context. *)
Ltac run_push :=
  repeat first
    [ rewrite push_all_Ok by (cbn; rewrite ?length_app; cbn; lia)
    | rewrite push_Ok by (cbn; rewrite ?length_app; cbn; lia)
    | rewrite add_params_app
    | rewrite (proj1 (fields_add _ _))
    | rewrite (proj1 (proj2 (fields_add _ _)))
    | rewrite (proj2 (proj2 (fields_add _ _)))
    | progress cbn [ret when negb andb orb obj_path clang_type is_cxx clang_mode_eqb] ].

(** What the wrapper adds for a C program in fast mode without any variable of
    its own in the environment. *)
Lemma add_extra_fast asm f s :
  (forall v, getenv v = None) -> clang_type s = CLANG_FAST_TYPE -> is_cxx s = false ->
  (length (cc_params s) + 60 <= cap s)%nat ->
  add_extra asm f s = Ok (tt, add_params
    ((if asm then [] else fast_pass_params (obj_path s)) ++
     ["-pie"; "-fpic"; "-Qunused-arguments"; "-g"; "-O3"; "-funroll-loops"]%string ++
     (if maybe_linking f then (if x_set f then ["-x"; "none"]%string else []) ++ fast_link_params (obj_path s)
      else [])) s).
Proof.
  intros He Ht Hx Hc.
  assert (Hi : forall v, isset v = false).
  { intros v. unfold isset. rewrite He. apply bool_decide_eq_false. by intros [? ?]. }
  destruct s as [obj ps c t x]. cbn [clang_type is_cxx cc_params cap obj_path] in *. subst t x.
  unfold add_extra, add_angora_pass, add_dfsan_pass, add_angora_runtime, mode_is, bind, gets, ret.
  rewrite !Hi, !He. unfold ret.
  assert (Hsan : forall s, when (negb (asan_set f) && true) sanitizer_params s = Ok (tt, s)).
  { intros s. unfold sanitizer_params. rewrite !Hi. by destruct (asan_set f). }
  destruct asm; cbn [when negb]; unfold ret; run_push; rewrite Hsan; run_push; unfold ret;
    destruct (maybe_linking f), (x_set f); cbn [when]; unfold ret; by run_push.
Qed.

(** The command line of a plain build.  Called under its C name in an
    environment without variables of its own, [angora-clang] runs clang on the
    user's arguments, with the branch-unfolding and the Angora pass loaded
    unless an argument is an assembler file, and links the fast runtime if and
    only if none of -c, -S, -E and -shared asks for less than a program; the
    language given with -x is reset before the runtime's archive. *)
Theorem angora_clang_fast_command argv0 dir args :
  (forall v, getenv v = None) -> split_last slash argv0 = Some (dir, "angora-clang"%string) ->
  readable (dir +:+ "/pass/libAngoraPass.so") = true -> exec_ok "clang" = true -> args <> [] ->
  main (argv0 :: args) = Ok ("clang"%string :: kept args ++
    (if check_if_assembler args then [] else fast_pass_params dir) ++
    ["-pie"; "-fpic"; "-Qunused-arguments"; "-g"; "-O3"; "-funroll-loops"]%string ++
    (if links args
     then (if gives_language args then ["-x"; "none"]%string else []) ++ fast_link_params dir
     else [])).
Proof.
  intros He Hs Hr Hx Hne.
  assert (Hi : forall v, isset v = false).
  { intros v. unfold isset. rewrite He. apply bool_decide_eq_false. by intros [? ?]. }
  set (s0 := mkCc dir [] 0 CLANG_FAST_TYPE false).
  assert (E2 : start_state argv0 args s0 =
    mkCc dir ["clang"%string] (S (length args) + 128) CLANG_FAST_TYPE false).
  { unfold start_state. rewrite Hs, !Hi. cbn. by rewrite He. }
  assert (Hm : (find_obj argv0 ;;; edit_params argv0 args) (mkCc "" [] 0 CLANG_FAST_TYPE false) =
    edit_params argv0 args s0).
  { unfold bind, find_obj. by rewrite Hs, Hr. }
  unfold main. destruct args as [|a args]; [done|]. rewrite Hm, edit_params_start, E2 by done.
  set (s2 := mkCc _ _ _ _ _).
  assert (Hk : (length (kept (a :: args)) <= length (a :: args))%nat) by apply length_filter.
  destruct (arg_loop_spec (a :: args) flags0 s2) as (f & E); [cbn in *; lia|].
  destruct (arg_loop_flags _ _ _ _ _ E) as [El Ex]. cbn [flags0 maybe_linking x_set andb orb] in El, Ex.
  rewrite (bind_Ok _ _ _ _ _ E). unfold bind.
  rewrite add_extra_fast by (done || (cbn in *; lia)). rewrite add_params_app, El, Ex.
  unfold terminate. rewrite decide_True; [|].
  { match goal with |- (if exec_ok ?x then _ else _) = _ => change x with "clang"%string end.
    by rewrite Hx. }
  cbn [cc_params add_params s2 app length cap]. rewrite !length_app.
  destruct (check_if_assembler _), (links _), (gives_language _); cbn in *; lia.
Qed.
End ClangProofs.

(** ** Witnesses *)

Module ClangEx.
Definition shell : Shell := {|
  getenv _ := None; readable _ := true; exec_ok _ := true |}.
End ClangEx.

Lemma edit_params_in_bounds_witness :
  edit_params (H := ClangEx.shell) "/opt/angora-clang" ["-O2"; "a.c"] (mkCc "/opt" [] 0 CLANG_FAST_TYPE false)
    = Fault DieCalled \/
  exists s' extra, edit_params (H := ClangEx.shell) "/opt/angora-clang" ["-O2"; "a.c"]
      (mkCc "/opt" [] 0 CLANG_FAST_TYPE false) = Ok (tt, s') /\
    cc_params s' = compiler_name (H := ClangEx.shell) (is_cxx s') :: ["a.c"%string] ++ extra.
Proof.
  destruct (edit_params_in_bounds (H := ClangEx.shell) "/opt/angora-clang" ["-O2"; "a.c"]%string
    (mkCc "/opt" [] 0 CLANG_FAST_TYPE false)) as [E|(s' & extra & E & P & _)]; [done|by left|].
  right. exists s', extra. split; [exact E|exact P].
Defined.

Lemma angora_clang_fast_command_witness :
  main (H := ClangEx.shell) ["/opt/angora-clang"; "-c"; "-O2"; "a.c"]%string =
    Ok (["clang"; "-c"; "a.c"]%string ++ fast_pass_params "/opt" ++
        ["-pie"; "-fpic"; "-Qunused-arguments"; "-g"; "-O3"; "-funroll-loops"]%string ++ []).
Proof.
  apply (angora_clang_fast_command (H := ClangEx.shell) "/opt/angora-clang" "/opt"
    ["-c"; "-O2"; "a.c"]%string); done.
Defined.
