(* ===== verification/PinLogger.v ===== *)
(** * The Pin back end

    [pin_mode/cond_stmt.h], [logger.h] and the handlers of [pin_track.cpp]: the
    alternative to compile-time tracking.  The handlers turn comparison events
    into condition statements; the logger collects them with the tags they
    refer to and writes one file, which the fuzzer reads with
    [fuzzer/src/track/load_pin_data.rs] (modelled at the end).

    libdft, which keeps the taint of registers and memory, is a submodule
    outside the repository: its functions are the operations of [Libdft]. *)

From S2P Require Import Prelude CMem Dfsan Env.

Local Open Scope Z_scope.

(** ** cond_stmt.h *)

Definition MAX_ORDER : Z := 16.
Definition COND_SW_OP : Z := 0x00FF.
Definition COND_FN_OP : Z := 0x8002.
Definition COND_LEN_OP : Z := 0x8003.
Definition COND_FALSE_ST : Z := 0.
Definition COND_TRUE_ST : Z := 1.
Definition COND_DONE_ST : Z := 2.

Record CondStmt := mkCond {
  cid : Z; context : Z; order : Z; belong : Z;
  condition : Z; level : Z; op : Z; c_size : Z;
  lb1 : Z; lb2 : Z; arg1 : Z; arg2 : Z }.

(** Little-endian bytes of a word. *)
Fixpoint le (n : nat) (v : Z) : list Z :=
  match n with O => [] | S n => u8 v :: le n (Z.shiftr v 8) end.

(** The structure in memory: ten words of four bytes, two of eight. *)
Definition cond_bytes (c : CondStmt) : list Z :=
  mjoin (le 4 <$> [cid c; context c; order c; belong c; condition c; level c; op c; c_size c;
                   lb1 c; lb2 c]) ++ le 8 (arg1 c) ++ le 8 (arg2 c).

(** ** logger.h *)

Definition BUF_LEN : Z := Z.shiftl 2 16.

(** [buffer] with its first [len] bytes as a list, and its capacity. *)
Record LogBuf := mkBuf { buf_data : list Z; buf_cap : Z }.
Definition new_LogBuf : LogBuf := mkBuf [] BUF_LEN.

(** The capacity is doubled once, whatever the size; a [memcpy] past the end of
    the allocation is a fault. *)
Definition push_bytes (bytes : list Z) (b : LogBuf) : res LogBuf :=
  if bool_decide (bytes = []) then Ok b else
  let next := Z.of_nat (length (buf_data b)) + Z.of_nat (length bytes) in
  let cap := if buf_cap b <? next then buf_cap b * 2 else buf_cap b in
  if next <=? cap then Ok (mkBuf (buf_data b ++ bytes) cap) else Fault Segv.

Record Logger := mkLogger {
  num_cond : Z; num_tag : Z; num_mb : Z;
  cond_buf : LogBuf; tag_buf : LogBuf; mb_buf : LogBuf;
  order_map : gmap Z Z;
  lb_set : gset Z;
}.
(** The logger is a global object: its counters start at zero. *)
Definition logger0 : Logger := mkLogger 0 0 0 new_LogBuf new_LogBuf new_LogBuf ∅ ∅.

Class Libdft := {
  tagmap_getn_reg : Z -> Z -> Z -> Z;      (* thread, register, size *)
  tagmap_getn : Z -> Z -> Z;               (* address, length *)
  tag_get : Z -> list (list Z);            (* the segments of a tag, each as its bytes *)
  tag_is_empty : Z -> bool;
  BDD_HAS_LEN_LB : Z -> bool;
  BDD_CLEAR_LEN_MASK : Z -> Z;
  X64_ARG3_REG : Z; X64_ARG4_REG : Z; X64_ARG5_REG : Z;
}.

Section Log.
Context `{Libdft}.
Abbreviation L := (M Logger).

Definition push_to (get : Logger -> LogBuf) (set : LogBuf -> Logger -> Logger) (bytes : list Z) : L unit :=
  fun l => match push_bytes bytes (get l) with
           | Ok b => Ok (tt, set b l)
           | Fault e => Fault e
           end.
Definition push_cond := push_to cond_buf (fun b l =>
  mkLogger (num_cond l) (num_tag l) (num_mb l) b (tag_buf l) (mb_buf l) (order_map l) (lb_set l)).
Definition push_tag := push_to tag_buf (fun b l =>
  mkLogger (num_cond l) (num_tag l) (num_mb l) (cond_buf l) b (mb_buf l) (order_map l) (lb_set l)).
Definition push_mb := push_to mb_buf (fun b l =>
  mkLogger (num_cond l) (num_tag l) (num_mb l) (cond_buf l) (tag_buf l) b (order_map l) (lb_set l)).

(** The file: three counters, then the used part of the three buffers. *)
Definition save_buffers (l : Logger) : list Z :=
  le 4 (num_cond l) ++ le 4 (num_tag l) ++ le 4 (num_mb l) ++
  buf_data (cond_buf l) ++ buf_data (tag_buf l) ++ buf_data (mb_buf l).

Definition order_key (cid ctx : Z) : Z := Z.lor (u64 (Z.shiftl cid 32)) ctx.
Definition set_order (k v : Z) (l : Logger) : Logger :=
  mkLogger (num_cond l) (num_tag l) (num_mb l) (cond_buf l) (tag_buf l) (mb_buf l)
    (<[k := v]> (order_map l)) (lb_set l).
Definition get_order (cid ctx : Z) : L Z :=
  let key := order_key cid ctx in
  o <- gets (fun l => order_map l !! key) ;;
  match o with
  | Some n => modify (set_order key (u32 (n + 1))) ;;; ret (u32 (n + 1))
  | None => modify (set_order key 1) ;;; ret 1
  end.

Definition save_tag (lb : Z) : L unit :=
  if BDD_HAS_LEN_LB lb then fail AssertFailed else
  seen <- gets (fun l => bool_decide (lb ∈ lb_set l)) ;;
  when ((0 <? lb) && negb seen)
    (let t := tag_get lb in
     let n := Z.of_nat (length t) in
     push_tag (le 4 lb) ;;;
     push_tag (le 4 n) ;;;
     push_tag (mjoin t) ;;;
     modify (fun l => mkLogger (num_cond l) (u32 (num_tag l + 1)) (num_mb l)
       (cond_buf l) (tag_buf l) (mb_buf l) (order_map l) ({[ lb ]} ∪ lb_set l))).

(** [arg1] and [arg2] are the bytes behind the two pointers, none for a null
    pointer. *)
Definition save_mb (i arg1_len arg2_len : Z) (arg1 arg2 : list Z) : L unit :=
  when (0 <? i)
    (push_mb (le 4 i) ;;;
     push_mb (le 4 arg1_len) ;;;
     push_mb (le 4 arg2_len) ;;;
     push_mb arg1 ;;;
     push_mb arg2 ;;;
     modify (fun l => mkLogger (num_cond l) (num_tag l) (u32 (num_mb l + 1))
       (cond_buf l) (tag_buf l) (mb_buf l) (order_map l) (lb_set l))).

Definition save_cond (cond : CondStmt) : L Z :=
  i <- gets num_cond ;;
  modify (fun l => mkLogger (u32 (num_cond l + 1)) (num_tag l) (num_mb l)
    (cond_buf l) (tag_buf l) (mb_buf l) (order_map l) (lb_set l)) ;;;
  save_tag (lb1 cond) ;;;
  save_tag (lb2 cond) ;;;
  push_cond (cond_bytes cond) ;;;
  ret i.

(** ** pin_track.cpp *)

Definition CmpHandler (tid cid ctx size op arg1 arg2 cond : Z) : L unit :=
  let t1 := tagmap_getn_reg tid X64_ARG4_REG size in
  let t2 := tagmap_getn_reg tid X64_ARG5_REG size in
  ctr <- get_order cid ctx ;;
  let has_len := BDD_HAS_LEN_LB t1 || BDD_HAS_LEN_LB t2 in
  when (has_len && (ctr <=? MAX_ORDER))
    (save_cond (mkCond cid ctx (u32 (ctr + 0x10000)) 0 cond 0 COND_LEN_OP size 0 1 arg1 arg2) ;;;
     ret tt) ;;;
  let t1 := if has_len then BDD_CLEAR_LEN_MASK t1 else t1 in
  let t2 := if has_len then BDD_CLEAR_LEN_MASK t2 else t2 in
  if tag_is_empty t1 && tag_is_empty t2 then ret tt else
  when (ctr <=? MAX_ORDER)
    (save_cond (mkCond cid ctx ctr 0 cond 0 op size t1 t2 arg1 arg2) ;;; ret tt).

(** The cases of the switch, numbered from [i]. *)
Fixpoint sw_loop (cid ctx ctr size t cond i : Z) (args : list Z) : L unit :=
  match args with
  | [] => ret tt
  | a :: args =>
      save_cond (mkCond cid ctx (u32 (ctr + Z.shiftl i 16)) 0
                   (if cond =? a then COND_DONE_ST else COND_FALSE_ST) 0 COND_SW_OP size t 0 cond a) ;;;
      sw_loop cid ctx ctr size t cond (i + 1) args
  end.
Definition SwHandler (tid cid ctx size cond : Z) (args : list Z) : L unit :=
  let t := tagmap_getn_reg tid X64_ARG3_REG size in
  ctr <- get_order cid ctx ;;
  let t := BDD_CLEAR_LEN_MASK t in
  if tag_is_empty t then ret tt else
  when (ctr <=? MAX_ORDER) (sw_loop cid ctx ctr size t cond 0 args).

(** The handler reads its arguments from the application's memory [m]. *)
Definition on_app {A} (m : mem) (f : M mem A) : L A :=
  of_res (match f m with Ok (a, _) => Ok a | Fault e => Fault e end).
Definition arg_bytes (m : mem) (p n : Z) : L (list Z) :=
  if p =? 0 then ret [] else on_app m (load_bytes (Z.to_nat n) p).

Definition FnHandler (m : mem) (tid cid ctx size arg1 arg2 : Z) : L unit :=
  arg1_len <- (if size =? 0 then n <- on_app m (libc_strlen arg1) ;; ret (u32 n) else ret size) ;;
  arg2_len <- (if size =? 0 then n <- on_app m (libc_strlen arg2) ;; ret (u32 n) else ret size) ;;
  let t1 := BDD_CLEAR_LEN_MASK (tagmap_getn arg1 arg1_len) in
  let t2 := BDD_CLEAR_LEN_MASK (tagmap_getn arg2 arg2_len) in
  ctr <- get_order cid ctx ;;
  when (ctr <=? MAX_ORDER)
    (if negb (tag_is_empty t1) then
       i <- save_cond (mkCond cid ctx ctr 0 COND_FALSE_ST 0 COND_FN_OP arg2_len t1 0 0 0) ;;
       a1 <- arg_bytes m arg1 arg1_len ;; a2 <- arg_bytes m arg2 arg2_len ;;
       save_mb i arg1_len arg2_len a1 a2
     else if negb (tag_is_empty t2) then
       i <- save_cond (mkCond cid ctx ctr 0 COND_FALSE_ST 0 COND_FN_OP arg1_len 0 t2 0 0) ;;
       a1 <- arg_bytes m arg1 arg1_len ;; a2 <- arg_bytes m arg2 arg2_len ;;
       save_mb i arg1_len arg2_len a1 a2
     else ret tt).

Definition ExploitHandler (tid cid ctx size op val : Z) : L unit :=
  let t := tagmap_getn_reg tid X64_ARG4_REG size in
  ctr <- get_order cid ctx ;;
  let t := BDD_CLEAR_LEN_MASK t in
  if tag_is_empty t then ret tt else
  when (ctr <=? MAX_ORDER)
    (save_cond (mkCond cid ctx ctr 0 COND_FALSE_ST 0 op size t 0 val 0) ;;; ret tt).

(** The events the instrumentation of [EntryPoint] reports, and a run. *)
Inductive event :=
| EvCmp (tid cid ctx size op arg1 arg2 cond : Z)
| EvSw (tid cid ctx size cond : Z) (args : list Z)
| EvFn (m : mem) (tid cid ctx size arg1 arg2 : Z)
| EvExploit (tid cid ctx size op val : Z).
Definition handle (e : event) : L unit :=
  match e with
  | EvCmp tid cid ctx size op arg1 arg2 cond => CmpHandler tid cid ctx size op arg1 arg2 cond
  | EvSw tid cid ctx size cond args => SwHandler tid cid ctx size cond args
  | EvFn m tid cid ctx size arg1 arg2 => FnHandler m tid cid ctx size arg1 arg2
  | EvExploit tid cid ctx size op val => ExploitHandler tid cid ctx size op val
  end.
Fixpoint run (es : list event) : L unit :=
  match es with [] => ret tt | e :: es => handle e ;;; run es end.
End Log.

(** ** The reader, load_pin_data.rs *)

(** [CondStmtBase] of common/src/cond_stmt_base.rs, which the reader copies from
    the file: 11 words of four bytes, padding, two words of eight. *)
Record CondStmtBase := mkBase {
  b_cmpid : Z; b_context : Z; b_last_callsite : Z; b_order : Z; b_belong : Z; b_condition : Z;
  b_level : Z; b_op : Z; b_size : Z; b_lb1 : Z; b_lb2 : Z; b_arg1 : Z; b_arg2 : Z }.
Definition sizeof_CondStmtBase : nat := 64.
(** A [TagSeg]: a bool and two words. *)
Definition sizeof_tag_seg : nat := 12.

(** [read_exact]: the bytes asked for, or an error. *)
Definition read_exact (n : nat) (b : list Z) : option (list Z * list Z) :=
  if decide (n <= length b)%nat then Some (take n b, drop n b) else None.
Fixpoint unle (l : list Z) : Z :=
  match l with [] => 0 | b :: l => b + 256 * unle l end.
Definition word_of (off n : nat) (b : list Z) : Z := unle (take n (drop off b)).
Definition decode_base (b : list Z) : CondStmtBase :=
  mkBase (word_of 0 4 b) (word_of 4 4 b) (word_of 8 4 b) (word_of 12 4 b) (word_of 16 4 b)
    (word_of 20 4 b) (word_of 24 4 b) (word_of 28 4 b) (word_of 32 4 b) (word_of 36 4 b)
    (word_of 40 4 b) (word_of 48 8 b) (word_of 56 8 b).

Definition read_u32 (b : list Z) : option (Z * list Z) :=
  '(w, b) ← read_exact 4 b; Some (unle w, b).
(** [read_vector] of elements of [k] bytes. *)
Fixpoint chunks (k : nat) (n : nat) (b : list Z) : list (list Z) :=
  match n with O => [] | S n => take k b :: chunks k n (drop k b) end.
Definition read_vector (k n : nat) (b : list Z) : option (list (list Z) * list Z) :=
  '(v, b) ← read_exact (k * n) b; Some (chunks k n v, b).

Fixpoint read_tags (n : nat) (b : list Z) (m : gmap Z (list (list Z)))
  : option (gmap Z (list (list Z)) * list Z) :=
  match n with
  | O => Some (m, b)
  | S n =>
      '(id, b) ← read_u32 b; '(size, b) ← read_u32 b;
      '(offsets, b) ← read_vector sizeof_tag_seg (Z.to_nat size) b;
      read_tags n b (<[id := offsets]> m)
  end.
Fixpoint read_mbs (n : nat) (b : list Z) (m : gmap Z (list Z * list Z))
  : option (gmap Z (list Z * list Z) * list Z) :=
  match n with
  | O => Some (m, b)
  | S n =>
      '(id, b) ← read_u32 b; '(n1, b) ← read_u32 b; '(n2, b) ← read_u32 b;
      '(a1, b) ← read_exact (Z.to_nat n1) b; '(a2, b) ← read_exact (Z.to_nat n2) b;
      read_mbs n b (<[id := (a1, a2)]> m)
  end.

Record LogData := mkLogData {
  cond_list : list CondStmtBase;
  tags_map : gmap Z (list (list Z));
  magic_bytes : gmap Z (list Z * list Z) }.

Definition get_log_data_pin (file : list Z) : option LogData :=
  '(num_cond, b) ← read_u32 file; '(num_tags, b) ← read_u32 b; '(num_mb, b) ← read_u32 b;
  '(conds, b) ← read_vector sizeof_CondStmtBase (Z.to_nat num_cond) b;
  '(tags, b) ← read_tags (Z.to_nat num_tags) b ∅;
  '(mbs, b) ← read_mbs (Z.to_nat num_mb) b ∅;
  Some (mkLogData (decode_base <$> conds) tags mbs).

(** ** Proofs: buffers *)

Lemma length_le n : forall v, length (le n v) = n.
Proof. induction n as [|n IH]; intros v; cbn; [done|]. by rewrite IH. Qed.

Lemma unle_le n : forall v, unle (le n v) = wrap (8 * Z.of_nat n) v.
Proof.
  induction n as [|n IH]; intros v; cbn [le unle].
  - unfold wrap. by rewrite Z.mod_1_r.
  - rewrite IH. unfold u8, wrap. rewrite Z.shiftr_div_pow2 by lia.
    replace (8 * Z.of_nat (S n)) with (8 + 8 * Z.of_nat n) by lia.
    rewrite Z.pow_add_r by lia. symmetry. apply Z.rem_mul_r; lia.
Qed.

Definition buf_ok (b : LogBuf) : Prop :=
  Z.of_nat (length (buf_data b)) <= buf_cap b /\ BUF_LEN <= buf_cap b.

Lemma push_bytes_ok bytes b :
  buf_ok b -> Z.of_nat (length bytes) <= BUF_LEN ->
  exists b', push_bytes bytes b = Ok b' /\ buf_data b' = buf_data b ++ bytes /\ buf_ok b'.
Proof.
  unfold buf_ok. change BUF_LEN with 131072. intros [Hl Hc] Hs. unfold push_bytes.
  case_bool_decide as Hn; [subst bytes; exists b; by rewrite app_nil_r|].
  destruct (Z.ltb_spec (buf_cap b) (Z.of_nat (length (buf_data b)) + Z.of_nat (length bytes)));
    (rewrite (proj2 (Z.leb_le _ _)) by lia; eexists; split; [reflexivity|]; cbn [buf_data buf_cap];
     split; [done|]; rewrite length_app; lia).
Qed.

(** One doubling is enough for what the logger normally writes: bytes no
    longer than the initial capacity are always appended at the end of the
    buffer and the buffer stays within its allocation.  It is not enough in
    general: bytes that do not fit into twice the capacity are copied past the
    end of the allocation. *)
Theorem push_bytes_capacity bytes b :
  buf_ok b ->
  (Z.of_nat (length bytes) <= BUF_LEN ->
   exists b', push_bytes bytes b = Ok b' /\ buf_data b' = buf_data b ++ bytes /\ buf_ok b') /\
  (2 * buf_cap b < Z.of_nat (length (buf_data b)) + Z.of_nat (length bytes) ->
   push_bytes bytes b = Fault Segv).
Proof.
  intros Hb. split; [by apply push_bytes_ok|]. intros Hs. destruct Hb as [Hl Hc].
  change BUF_LEN with 131072 in Hc. unfold push_bytes.
  rewrite bool_decide_eq_false_2 by (intros ->; cbn in Hs; lia).
  destruct (Z.ltb_spec (buf_cap b) (Z.of_nat (length (buf_data b)) + Z.of_nat (length bytes))); [|lia].
  by rewrite (proj2 (Z.leb_gt _ _)) by lia.
Qed.

(** ** Proofs: what the log contains *)

(** What the handlers rely on of libdft: clearing the length mask clears it,
    labels 0 and 1 and unmasked labels carry none, and a tag's segments fit
    into the buffer. *)
Class LibdftOk `{Libdft} := {
  clear_len t : BDD_HAS_LEN_LB (BDD_CLEAR_LEN_MASK t) = false;
  no_len_0 : BDD_HAS_LEN_LB 0 = false;
  no_len_1 : BDD_HAS_LEN_LB 1 = false;
  tag_seg_size lb : Forall (fun seg => length seg = sizeof_tag_seg) (tag_get lb);
  tag_size lb : Z.of_nat (length (mjoin (tag_get lb))) <= BUF_LEN;
}.

Section Logs.
Context `{LibdftOk}.

(** An entry of the tag section and of the magic-bytes section. *)
Definition tag_bytes (lb : Z) : list Z :=
  le 4 lb ++ le 4 (Z.of_nat (length (tag_get lb))) ++ mjoin (tag_get lb).
Record mb := mkMb { mb_id : Z; mb_arg1 : list Z; mb_arg2 : list Z }.
Definition mb_bytes (x : mb) : list Z :=
  le 4 (mb_id x) ++ le 4 (Z.of_nat (length (mb_arg1 x))) ++ le 4 (Z.of_nat (length (mb_arg2 x))) ++
  mb_arg1 x ++ mb_arg2 x.

(** The log holds the conditions [cs], the tags [ts] and the magic bytes [ms];
    [n] is the condition counter. *)
Definition logs (l : Logger) (n : Z) (cs : list CondStmt) (ts : list Z) (ms : list mb) : Prop :=
  buf_ok (cond_buf l) /\ buf_ok (tag_buf l) /\ buf_ok (mb_buf l) /\
  buf_data (cond_buf l) = mjoin (cond_bytes <$> cs) /\ num_cond l = u32 n /\
  buf_data (tag_buf l) = mjoin (tag_bytes <$> ts) /\ num_tag l = u32 (Z.of_nat (length ts)) /\
  buf_data (mb_buf l) = mjoin (mb_bytes <$> ms) /\ num_mb l = u32 (Z.of_nat (length ms)) /\
  lb_set l = list_to_set ts /\ NoDup ts.

(** Every label a condition refers to has its tag in the log. *)
Definition tagged (ts : list Z) (c : CondStmt) : Prop :=
  (0 < lb1 c -> lb1 c ∈ ts) /\ (0 < lb2 c -> lb2 c ∈ ts).
Definition logger_ok (l : Logger) : Prop :=
  exists cs ts ms, logs l (Z.of_nat (length cs)) cs ts ms /\ Forall (tagged ts) cs.

Lemma u32_succ n : u32 (u32 n + 1) = u32 (n + 1).
Proof. unfold u32, wrap. by rewrite Zplus_mod_idemp_l. Qed.

Lemma save_tag_spec lb l n cs ts ms :
  BDD_HAS_LEN_LB lb = false -> logs l n cs ts ms ->
  exists l' ts', save_tag lb l = Ok (tt, l') /\ logs l' n cs ts' ms /\
    ts ⊆ ts' /\ (0 < lb -> lb ∈ ts').
Proof.
  intros Hlb (B1 & B2 & B3 & D1 & N1 & D2 & N2 & D3 & N3 & Hset & Hnd).
  unfold save_tag. rewrite Hlb. unfold bind at 1, gets. rewrite Hset.
  case (Z.ltb_spec 0 lb); intros Hpos; cbn [andb].
  2: { exists l, ts. split; [done|]. split; [by repeat split; try apply B1; try apply B2; try apply B3|].
       split; [done|lia]. }
  case_bool_decide as Hin; cbn [negb when].
  { apply elem_of_list_to_set in Hin. exists l, ts. split; [done|]. split; [|done].
    by repeat split; try apply B1; try apply B2; try apply B3. }
  assert (H4 : forall v, Z.of_nat (length (le 4 v)) <= BUF_LEN)
    by (intros v; by rewrite length_le).
  destruct (push_bytes_ok (le 4 lb) (tag_buf l) B2 (H4 _)) as (b1 & E1 & F1 & O1).
  destruct (push_bytes_ok (le 4 (Z.of_nat (length (tag_get lb)))) b1 O1 (H4 _)) as (b2 & E2 & F2 & O2).
  destruct (push_bytes_ok (mjoin (tag_get lb)) b2 O2 (tag_size lb)) as (b3 & E3 & F3 & O3).
  unfold bind, push_tag, push_to. cbn [tag_buf]. rewrite E1. cbn [tag_buf]. rewrite E2.
  cbn [tag_buf]. rewrite E3. unfold modify. eexists _, (ts ++ [lb]). split; [reflexivity|].
  split; [|split; [intros x Hx; apply elem_of_app; by left|intros _; apply elem_of_app; right; by apply list_elem_of_singleton]].
  unfold logs. cbn. split_and!; try done.
  - rewrite F3, F2, F1, D2, fmap_app, join_app. cbn. unfold tag_bytes. by rewrite !app_nil_r, <-!app_assoc.
  - rewrite N2, u32_succ, length_app. f_equal. cbn. lia.
  - rewrite Hset, list_to_set_app_L. cbn. rewrite (right_id_L ∅ (∪)). apply (comm_L (∪)).
  - apply list.NoDup_app. split; [done|]. split; [|apply NoDup_singleton].
    intros x Hx Hx2. apply list_elem_of_singleton in Hx2 as ->. apply Hin. by apply elem_of_list_to_set.
Qed.

Lemma cond_bytes_length c : length (cond_bytes c) = 56%nat.
Proof. reflexivity. Qed.

Lemma save_cond_spec c l :
  BDD_HAS_LEN_LB (lb1 c) = false -> BDD_HAS_LEN_LB (lb2 c) = false -> logger_ok l ->
  exists i l', save_cond c l = Ok (i, l') /\ logger_ok l'.
Proof.
  intros H1 H2 (cs & ts & ms & Hl & Hall). unfold save_cond, bind at 1, gets.
  unfold bind at 1, modify. set (l0 := mkLogger _ _ _ _ _ _ _ _).
  assert (Hl0 : logs l0 (Z.of_nat (length cs) + 1) cs ts ms).
  { destruct Hl as (B1 & B2 & B3 & D1 & N1 & Hrest). unfold logs, l0. cbn.
    rewrite N1, u32_succ. by split_and!; try apply Hrest. }
  destruct (save_tag_spec _ _ _ _ _ _ H1 Hl0) as (l1 & ts1 & E1 & Hl1 & S1 & I1).
  destruct (save_tag_spec _ _ _ _ _ _ H2 Hl1) as (l2 & ts2 & E2 & Hl2 & S2 & I2).
  unfold bind. rewrite E1, E2.
  destruct Hl2 as (B1 & B2 & B3 & D1 & N1 & Hrest).
  destruct (push_bytes_ok (cond_bytes c) (cond_buf l2) B1) as (b & E & F & O);
    [by rewrite cond_bytes_length|].
  unfold push_cond, push_to. rewrite E. eexists _, _. split; [reflexivity|].
  exists (cs ++ [c]), ts2, ms. split.
  - unfold logs. cbn [cond_buf tag_buf mb_buf num_cond num_tag num_mb lb_set].
    rewrite F, D1, fmap_app, join_app, length_app. cbn [fmap list_fmap mjoin list_join length].
    rewrite app_nil_r. split_and!; try done; try apply Hrest.
    rewrite N1. f_equal. lia.
  - apply Forall_app. split.
    + eapply Forall_impl; [|exact Hall]. intros x [X1 X2]. split; auto.
    + constructor; [|constructor]. split; auto.
Qed.

Lemma logger_ok_order k v l : logger_ok l -> logger_ok (set_order k v l).
Proof. intros (cs & ts & ms & Hl & Hall). exists cs, ts, ms. by split. Qed.

Lemma get_order_spec cid ctx l :
  logger_ok l -> exists n l', get_order cid ctx l = Ok (n, l') /\ logger_ok l'.
Proof.
  intros Hl. unfold get_order, bind, gets. destruct (_ !! _);
    (eexists _, _; split; [reflexivity|by apply logger_ok_order]).
Qed.

(** Bytes behind an argument pointer that can be read and fit into the buffer. *)
Definition arg_ok (m : mem) (p n : Z) : Prop :=
  p <> 0 /\ exists x, bytes_at m p x /\ n = Z.of_nat (length x) /\ n <= BUF_LEN.

Lemma arg_bytes_spec m p n l :
  arg_ok m p n -> exists x, arg_bytes m p n l = Ok (x, l) /\ n = Z.of_nat (length x) /\ n <= BUF_LEN.
Proof.
  intros (Hp & x & Hx & Hn & Hb). exists x. unfold arg_bytes, on_app.
  rewrite (proj2 (Z.eqb_neq _ _) Hp), Hn, Nat2Z.id, (load_bytes_spec _ _ _ Hx). by subst n.
Qed.

Lemma save_mb_spec i n1 n2 x1 x2 l :
  n1 = Z.of_nat (length x1) -> n2 = Z.of_nat (length x2) -> n1 <= BUF_LEN -> n2 <= BUF_LEN ->
  logger_ok l -> exists l', save_mb i n1 n2 x1 x2 l = Ok (tt, l') /\ logger_ok l'.
Proof.
  intros E1 E2 L1 L2 Hok. unfold save_mb.
  destruct (0 <? i); cbn [when]; [|by exists l].
  destruct Hok as (cs & ts & ms & (B1 & B2 & B3 & D1 & N1 & D2 & N2 & D3 & N3 & Hset) & Hall).
  assert (H4 : forall v, Z.of_nat (length (le 4 v)) <= BUF_LEN) by (intros v; by rewrite length_le).
  destruct (push_bytes_ok (le 4 i) (mb_buf l) B3 (H4 _)) as (b1 & P1 & F1 & O1).
  destruct (push_bytes_ok (le 4 n1) b1 O1 (H4 _)) as (b2 & P2 & F2 & O2).
  destruct (push_bytes_ok (le 4 n2) b2 O2 (H4 _)) as (b3 & P3 & F3 & O3).
  destruct (push_bytes_ok x1 b3 O3) as (b4 & P4 & F4 & O4); [by rewrite <-E1|].
  destruct (push_bytes_ok x2 b4 O4) as (b5 & P5 & F5 & O5); [by rewrite <-E2|].
  unfold bind, push_mb, push_to. cbn [mb_buf]. rewrite P1. cbn [mb_buf]. rewrite P2. cbn [mb_buf].
  rewrite P3. cbn [mb_buf]. rewrite P4. cbn [mb_buf]. rewrite P5. unfold modify.
  eexists. split; [reflexivity|]. exists cs, ts, (ms ++ [mkMb i x1 x2]). split; [|done].
  unfold logs. cbn. split_and!; try done; try apply Hset.
  - rewrite F5, F4, F3, F2, F1, D3, fmap_app, join_app. cbn. unfold mb_bytes. cbn [mb_id mb_arg1 mb_arg2].
    rewrite <-E1, <-E2. by rewrite app_nil_r, <-!app_assoc.
  - rewrite N3, u32_succ, length_app. f_equal. cbn. lia.
Qed.

Lemma sw_loop_spec cid ctx ctr size t cond args : forall i l,
  BDD_HAS_LEN_LB t = false -> logger_ok l ->
  exists l', sw_loop cid ctx ctr size t cond i args l = Ok (tt, l') /\ logger_ok l'.
Proof.
  induction args as [|a args IH]; intros i l Ht Hl; cbn [sw_loop]; [by exists l|].
  edestruct save_cond_spec as (j & l1 & E1 & Hl1); [| |exact Hl|]; cycle 2.
  { unfold bind. rewrite E1. apply IH; [exact Ht|exact Hl1]. }
  { exact Ht. } { apply no_len_0. }
Qed.

(** An event whose pointer arguments can be read. *)
Definition event_ok (e : event) : Prop :=
  match e with
  | EvFn m _ _ _ size a1 a2 =>
      if size =? 0
      then exists x1 x2, cstr m a1 x1 /\ cstr m a2 x2 /\
             arg_ok m a1 (Z.of_nat (length x1)) /\ arg_ok m a2 (Z.of_nat (length x2))
      else arg_ok m a1 size /\ arg_ok m a2 size
  | _ => True
  end.

(** [m] returns and keeps the log well formed. *)
Definition keeps {A} (m : M Logger A) : Prop :=
  forall l, logger_ok l -> exists a l', m l = Ok (a, l') /\ logger_ok l'.

Lemma keeps_ret {A} (a : A) : keeps (ret a).
Proof. intros l Hl. by exists a, l. Qed.
Lemma keeps_bind {A B} (m : M Logger A) (k : A -> M Logger B) :
  keeps m -> (forall a, keeps (k a)) -> keeps (bind m k).
Proof.
  intros Hm Hk l Hl. destruct (Hm l Hl) as (a & l1 & E & Hl1). unfold bind. rewrite E. by apply Hk.
Qed.
Lemma keeps_when b m : keeps m -> keeps (when b m).
Proof. destruct b; [done|]. intros _. apply keeps_ret. Qed.
Lemma keeps_get_order cid ctx : keeps (get_order cid ctx).
Proof. intros l Hl. by apply get_order_spec. Qed.
Lemma keeps_save_cond c :
  BDD_HAS_LEN_LB (lb1 c) = false -> BDD_HAS_LEN_LB (lb2 c) = false -> keeps (save_cond c).
Proof. intros H1 H2 l Hl. by apply save_cond_spec. Qed.
Lemma keeps_sw_loop cid ctx ctr size t cond i args :
  BDD_HAS_LEN_LB t = false -> keeps (sw_loop cid ctx ctr size t cond i args).
Proof. intros Ht l Hl. destruct (sw_loop_spec cid ctx ctr size t cond args i l Ht Hl) as (l' & E). by exists tt, l'. Qed.

#[local] Hint Resolve keeps_ret keeps_when keeps_get_order keeps_save_cond keeps_sw_loop
  clear_len no_len_0 no_len_1 : cprog.
Ltac keeps_tac :=
  cbv zeta;
  repeat first
    [ match goal with |- keeps (bind _ _) => apply keeps_bind; [|intros] end
    | match goal with |- keeps (when _ _) => apply keeps_when end
    | match goal with |- keeps (if ?b then _ else _) => destruct b end ];
  first [ apply keeps_save_cond; cbn [lb1 lb2]; auto with cprog | auto with cprog ].

Lemma keeps_cmp tid cid ctx size op a1 a2 cond :
  keeps (CmpHandler tid cid ctx size op a1 a2 cond).
Proof.
  unfold CmpHandler. set (t1 := tagmap_getn_reg _ _ _). set (t2 := tagmap_getn_reg _ X64_ARG5_REG _).
  destruct (BDD_HAS_LEN_LB t1 || BDD_HAS_LEN_LB t2) eqn:Eh.
  - keeps_tac.
  - apply orb_false_iff in Eh as [Eh1 Eh2]. keeps_tac.
Qed.

(** The end of the function handler: a condition and its two strings. *)
Lemma keeps_fn_save c m a1 a2 n1 n2 :
  BDD_HAS_LEN_LB (lb1 c) = false -> BDD_HAS_LEN_LB (lb2 c) = false ->
  arg_ok m a1 n1 -> arg_ok m a2 n2 ->
  keeps (i <- save_cond c ;; x1 <- arg_bytes m a1 n1 ;; x2 <- arg_bytes m a2 n2 ;;
         save_mb i n1 n2 x1 x2).
Proof.
  intros H1 H2 A1 A2. apply keeps_bind; [by apply keeps_save_cond|]. intros i l Hl.
  destruct (arg_bytes_spec m a1 n1 l A1) as (x1 & E1 & L1 & B1). unfold bind. rewrite E1.
  destruct (arg_bytes_spec m a2 n2 l A2) as (x2 & E2 & L2 & B2). rewrite E2.
  destruct (save_mb_spec i n1 n2 x1 x2 l) as (l' & E & Hl'); [done..|]. by exists tt, l'.
Qed.

Lemma on_app_strlen m p x (l : Logger) :
  cstr m p x -> on_app m (libc_strlen p) l = Ok (Z.of_nat (length x), l).
Proof. intros Hc. unfold on_app, libc_strlen. by rewrite (internal_strlen_cstr _ _ _ Hc). Qed.

Lemma keeps_fn m tid cid ctx size a1 a2 :
  event_ok (EvFn m tid cid ctx size a1 a2) -> keeps (FnHandler m tid cid ctx size a1 a2).
Proof.
  assert (Hmain : forall n1 n2, arg_ok m a1 n1 -> arg_ok m a2 n2 -> forall l, logger_ok l ->
    exists a l', (let t1 := BDD_CLEAR_LEN_MASK (tagmap_getn a1 n1) in
      let t2 := BDD_CLEAR_LEN_MASK (tagmap_getn a2 n2) in
      ctr <- get_order cid ctx ;;
      when (ctr <=? MAX_ORDER)
       (if negb (tag_is_empty t1) then
          i <- save_cond (mkCond cid ctx ctr 0 COND_FALSE_ST 0 COND_FN_OP n2 t1 0 0 0) ;;
          x1 <- arg_bytes m a1 n1 ;; x2 <- arg_bytes m a2 n2 ;; save_mb i n1 n2 x1 x2
        else if negb (tag_is_empty t2) then
          i <- save_cond (mkCond cid ctx ctr 0 COND_FALSE_ST 0 COND_FN_OP n1 0 t2 0 0) ;;
          x1 <- arg_bytes m a1 n1 ;; x2 <- arg_bytes m a2 n2 ;; save_mb i n1 n2 x1 x2
        else ret tt)) l = Ok (a, l') /\ logger_ok l').
  { intros n1 n2 A1 A2 l Hl. cbv zeta.
    eapply keeps_bind; [apply keeps_get_order| |exact Hl]. intros ctr. apply keeps_when.
    repeat case_test; [apply keeps_fn_save|apply keeps_fn_save|apply keeps_ret];
      auto with cprog; cbn; auto with cprog. }
  intros He l Hl. cbn in He. unfold FnHandler. destruct (size =? 0).
  - destruct He as (x1 & x2 & C1 & C2 & A1 & A2). unfold bind at 1 2. rewrite (on_app_strlen _ _ _ _ C1).
    unfold ret at 1. unfold bind at 1 2. rewrite (on_app_strlen _ _ _ _ C2). unfold ret at 1.
    destruct A1 as (P1 & y1 & Y1 & L1 & B1), A2 as (P2 & y2 & Y2 & L2 & B2).
    change BUF_LEN with 131072 in *.
    rewrite !u32_small by lia. apply Hmain; [| |done].
    + split; [done|]. by exists y1.
    + split; [done|]. by exists y2.
  - destruct He as [A1 A2]. unfold bind at 1, ret at 1. unfold bind at 1, ret at 1. by apply Hmain.
Qed.

Lemma handle_keeps e : event_ok e -> keeps (handle e).
Proof.
  intros He. destruct e; cbn [handle].
  - apply keeps_cmp.
  - unfold SwHandler. keeps_tac.
  - by apply keeps_fn.
  - unfold ExploitHandler. keeps_tac.
Qed.

Lemma run_keeps es : Forall event_ok es -> keeps (run es).
Proof.
  induction 1 as [|e es He _ IH]; cbn [run]; [apply keeps_ret|].
  apply keeps_bind; [by apply handle_keeps|by intros].
Qed.

Lemma logger0_ok : logger_ok logger0.
Proof.
  exists [], [], []. split; [|constructor]. unfold logs. cbn.
  split_and!; try done; constructor.
Qed.

(** For every sequence of comparison, switch, function and exploitation
    events, the handlers return and the log they leave is well formed: its
    three counters are the numbers of condition, tag and magic-byte entries,
    the three buffers hold exactly these entries one after the other within
    their allocations, no tag is logged twice, and every label that a condition
    refers to has its tag in the log. *)
Theorem pin_log_well_formed es :
  Forall event_ok es ->
  exists l, run es logger0 = Ok (tt, l) /\ logger_ok l.
Proof.
  intros He. destruct (run_keeps es He logger0 logger0_ok) as ([] & l & E & Hl). by exists l.
Qed.

(** ** Proofs: the reader *)

Lemma read_exact_app n a b : length a = n -> read_exact n (a ++ b) = Some (a, b).
Proof.
  intros <-. unfold read_exact. rewrite length_app, decide_True by lia.
  by rewrite take_app_length, drop_app_length.
Qed.
Lemma read_u32_le v b : read_u32 (le 4 v ++ b) = Some (u32 v, b).
Proof. unfold read_u32. rewrite read_exact_app by apply length_le. cbn [mbind option_bind]. by rewrite unle_le. Qed.

Lemma chunks_join k l : Forall (fun x => length x = k) l -> chunks k (length l) (mjoin l) = l.
Proof.
  induction 1 as [|x l Hx _ IH]; [done|]. cbn [chunks length].
  change (mjoin (x :: l)) with (x ++ mjoin l). rewrite take_app_length' by done.
  rewrite drop_app_length' by done. by rewrite IH.
Qed.
Lemma length_join_const k (l : list (list Z)) :
  Forall (fun x => length x = k) l -> length (mjoin l) = (k * length l)%nat.
Proof.
  induction 1 as [|x l Hx _ IH]; [cbn; lia|].
  change (mjoin (x :: l)) with (x ++ mjoin l). rewrite length_app, IH, Hx. cbn [length]. lia.
Qed.

Lemma read_vector_join k l b :
  Forall (fun x => length x = k) l -> read_vector k (length l) (mjoin l ++ b) = Some (l, b).
Proof.
  intros Hl. unfold read_vector. rewrite read_exact_app by by apply length_join_const.
  cbn [mbind option_bind]. by rewrite chunks_join.
Qed.

Lemma read_tags_join ts rest : forall m,
  Forall (fun lb => 0 < lb < 2 ^ 32) ts ->
  read_tags (length ts) (mjoin (tag_bytes <$> ts) ++ rest) m =
    Some (foldl (fun m lb => <[lb := tag_get lb]> m) m ts, rest).
Proof.
  induction ts as [|lb ts IH]; intros m Hts; [done|]. apply Forall_cons_1 in Hts as [Hlb Hts].
  pose proof (tag_seg_size lb) as Hseg. pose proof (tag_size lb) as Hsz.
  rewrite (length_join_const _ _ Hseg) in Hsz. change BUF_LEN with 131072 in Hsz.
  cbn [length fmap list_fmap mjoin list_join read_tags foldl]. unfold tag_bytes at 1.
  rewrite <-!app_assoc. rewrite read_u32_le. cbn [mbind option_bind].
  rewrite read_u32_le. cbn [mbind option_bind]. unfold sizeof_tag_seg in *.
  rewrite (u32_small (Z.of_nat _)) by lia. rewrite Nat2Z.id, read_vector_join by done.
  cbn [mbind option_bind]. rewrite u32_small by lia. by apply IH.
Qed.

Lemma foldl_tags_lookup ts lb : forall m : gmap Z (list (list Z)),
  lb ∈ ts \/ m !! lb = Some (tag_get lb) ->
  foldl (fun m lb => <[lb := tag_get lb]> m) m ts !! lb = Some (tag_get lb).
Proof.
  induction ts as [|x ts IH]; intros m Hin; cbn [foldl].
  { destruct Hin as [Hin|Hin]; [by apply elem_of_nil in Hin|done]. }
  apply IH. rewrite elem_of_cons in Hin. destruct (decide (x = lb)) as [->|Hne].
  - right. apply lookup_insert_eq.
  - rewrite lookup_insert_ne by done. destruct Hin as [[->|?]|?]; [done|by left|by right].
Qed.

(** The tag section of a log can be read back.  Reading as many entries as
    the counter says consumes exactly the section, and the map the fuzzer
    builds gives every logged label the segments libdft has for it. *)
Theorem pin_tags_roundtrip l n cs ts ms rest :
  logs l n cs ts ms -> Forall (fun lb => 0 < lb < 2 ^ 32) ts -> Z.of_nat (length ts) < 2 ^ 32 ->
  exists m, read_tags (Z.to_nat (num_tag l)) (buf_data (tag_buf l) ++ rest) ∅ = Some (m, rest) /\
    forall lb, lb ∈ ts -> m !! lb = Some (tag_get lb).
Proof.
  intros (_ & _ & _ & _ & _ & D & N & _) Hts Hn. rewrite D, N, u32_small, Nat2Z.id by lia.
  eexists. split; [by apply read_tags_join|]. intros lb Hlb. apply foldl_tags_lookup. by left.
Qed.
End Logs.

Lemma decode_shifted c rest :
  let b := decode_base (take 64 (cond_bytes c ++ rest)) in
  b_cmpid b = u32 (cid c) /\ b_last_callsite b = u32 (order c) /\ b_order b = u32 (belong c) /\
  b_op b = u32 (c_size c) /\ b_lb1 b = u32 (lb2 c).
Proof.
  assert (Hw : forall v, u32 v = unle (le 4 v)) by (intros v; by rewrite unle_le).
  cbv zeta. rewrite !Hw. by split_and!.
Qed.

(** C35: the condition section cannot be read back: the fuzzer's structure has
    one more field than the logger's.  A log that consists of one condition is
    rejected, and in a log that is accepted the first condition has the order
    of the event in the place of the last call site, and its own order, operator
    and label fields hold what the logger wrote as [belong], [size] and [lb2]. *)
Theorem pin_cond_layout_mismatch c :
  get_log_data_pin (le 4 1 ++ le 4 0 ++ le 4 0 ++ cond_bytes c) = None /\
  forall n t k rest d,
    0 < n < 2 ^ 32 ->
    get_log_data_pin (le 4 n ++ le 4 t ++ le 4 k ++ cond_bytes c ++ rest) = Some d ->
    exists b bs, cond_list d = b :: bs /\
      b_cmpid b = u32 (cid c) /\ b_last_callsite b = u32 (order c) /\ b_order b = u32 (belong c) /\
      b_op b = u32 (c_size c) /\ b_lb1 b = u32 (lb2 c).
Proof.
  split.
  - unfold get_log_data_pin. do 3 (rewrite read_u32_le; cbn [mbind option_bind]). by vm_compute.
  - intros n t k rest d Hn. unfold get_log_data_pin. do 3 (rewrite read_u32_le; cbn [mbind option_bind]).
    rewrite (u32_small n) by lia. destruct (Z.to_nat n) as [|n'] eqn:En; [lia|].
    unfold read_vector, read_exact. case_decide as Hlen; [|discriminate]. cbn [mbind option_bind chunks].
    intros ([m1 b1] & _ & E)%bind_Some. apply bind_Some in E as ([m2 b2] & _ & E).
    apply (inj Some) in E. subst d. eexists _, _. split; [reflexivity|].
    rewrite take_take. replace (Nat.min _ _) with 64%nat by (unfold sizeof_CondStmtBase; lia).
    apply decode_shifted.
Qed.

(** ** Witnesses *)

Module PinEx.
(** A libdft in which label [n] stands for the byte [n] of the input and the
    two operands of every comparison have labels 5 and 0. *)
#[global] Instance dft : Libdft := {
  tagmap_getn_reg _ r _ := if r =? 4 then 5 else 0;
  tagmap_getn _ _ := 0;
  tag_get lb := if (0 <? lb) then [[0; 0; 0; 0; 5; 0; 0; 0; 6; 0; 0; 0]] else [];
  tag_is_empty t := t =? 0;
  BDD_HAS_LEN_LB _ := false;
  BDD_CLEAR_LEN_MASK t := t;
  X64_ARG3_REG := 3; X64_ARG4_REG := 4; X64_ARG5_REG := 5;
}.
#[global] Instance dft_ok : LibdftOk.
Proof.
  split; try done; intros lb; unfold tag_get, dft; destruct (0 <? lb); by repeat constructor.
Qed.
Definition es : list event := [EvCmp 0 7 1 4 32 65 66 0; EvExploit 0 8 1 4 0x4001 3].
Definition log : Logger := match run es logger0 with Ok (_, l) => l | Fault _ => logger0 end.
Definition conds : list CondStmt :=
  [mkCond 7 1 1 0 0 0 32 4 5 0 65 66; mkCond 8 1 1 0 0 0 0x4001 4 5 0 3 0].
End PinEx.

Lemma push_bytes_capacity_witness :
  exists b', push_bytes [1; 2] new_LogBuf = Ok b' /\ buf_data b' = [1; 2].
Proof.
  destruct (push_bytes_capacity [1; 2] new_LogBuf) as [P _]; [by vm_compute|].
  destruct P as (b' & E & D & _); [by vm_compute|]. exists b'. by split.
Defined.

Lemma pin_log_well_formed_witness :
  exists l, run PinEx.es logger0 = Ok (tt, l) /\ logger_ok l.
Proof. apply (pin_log_well_formed PinEx.es). by repeat constructor. Defined.

Lemma pin_tags_roundtrip_witness :
  exists m, read_tags (Z.to_nat (num_tag PinEx.log)) (buf_data (tag_buf PinEx.log) ++ []) ∅ = Some (m, []) /\
    m !! 5 = Some (tag_get 5).
Proof.
  assert (Hl : logs PinEx.log 2 PinEx.conds [5] []).
  { unfold logs. split_and!; try by vm_compute. apply NoDup_singleton. }
  destruct (pin_tags_roundtrip PinEx.log 2 PinEx.conds [5] [] [] Hl) as (m & E & P);
    [by repeat constructor|done|].
  exists m. split; [exact E|]. apply P. by apply list_elem_of_singleton.
Defined.

Lemma pin_cond_layout_mismatch_witness :
  get_log_data_pin (le 4 1 ++ le 4 0 ++ le 4 0 ++ cond_bytes (mkCond 7 1 1 0 0 0 32 4 0 0 65 66)) = None.
Proof. exact (proj1 (pin_cond_layout_mismatch (mkCond 7 1 1 0 0 0 32 4 0 0 65 66))). Defined.
