(* ===== verification/PriorityQueue.v ===== *)
(** * The block queue of the difference engine

    The class template [PriorityQueue] of
    [tools/llvm-diff-parmesan/DifferenceEngine.cpp]: a binary heap in a vector.
    [precedes] is the sorter's answer at the time of the call. *)

From S2P Require Import Prelude.

Section Queue.
Context {T : Type} `{Inhabited T}.
Variable precedes : T -> T -> bool.
Implicit Types l : list T.

(** [std::swap(data[i], data[j])] *)
Definition swap (i j : nat) (l : list T) : list T :=
  <[i := l !!! j]> (<[j := l !!! i]> l).

Definition parent (i : nat) : nat := (i + 1) / 2 - 1.

(** The loop of [insert]; [fuel] is the index itself. *)
Fixpoint sift_up (fuel index : nat) (l : list T) : list T :=
  match fuel with
  | O => l
  | S fuel =>
      let target := parent index in
      if negb (precedes (l !!! index) (l !!! target)) then l else
      let l := swap index target l in
      if (target =? 0)%nat then l else sift_up fuel target l
  end.
Definition insert (v : T) (l : list T) : list T :=
  let index := length l in
  let l := l ++ [v] in
  if (index =? 0)%nat then l else sift_up index index l.

(** The loop of [remove_min] over the first [n] slots; every round moves down. *)
Fixpoint sift_down (fuel n index : nat) (l : list T) : list T :=
  match fuel with
  | O => l
  | S fuel =>
      let r := (index + 1) * 2 in
      let lft := r - 1 in
      if (n <=? r)%nat then
        if (n <=? lft)%nat then l
        else if precedes (l !!! lft) (l !!! index) then swap lft index l else l
      else
        let i := if precedes (l !!! lft) (l !!! r) then lft else r in
        if negb (precedes (l !!! i) (l !!! index)) then l
        else sift_down fuel n i (swap i index l)
  end.
(** A pair of pointers is pod-like: the last slot is copied to the front. *)
Definition remove_min (l : list T) : res (T * list T) :=
  match l with
  | [] => Fault AssertFailed
  | tmp :: _ =>
      let n := length l - 1 in
      let l := if (n =? 0)%nat then l else sift_down n n 0 (<[0 := l !!! n]> l) in
      Ok (tmp, take n l)
  end.

(** ** Swaps *)

Lemma swap_length i j l : length (swap i j l) = length l.
Proof. unfold swap. by rewrite !length_insert. Qed.

Lemma swap_lookup i j k l : (i < length l)%nat -> (j < length l)%nat ->
  swap i j l !!! k = if decide (k = i) then l !!! j else if decide (k = j) then l !!! i else l !!! k.
Proof.
  intros Hi Hj. unfold swap. destruct (decide (k = i)) as [->|Hki].
  - by rewrite list_lookup_total_insert_eq by by rewrite length_insert.
  - rewrite list_lookup_total_insert_ne by done. destruct (decide (k = j)) as [->|Hkj].
    + by rewrite list_lookup_total_insert_eq.
    + by rewrite list_lookup_total_insert_ne by done.
Qed.

Lemma swap_perm i j l : (i < length l)%nat -> (j < length l)%nat -> swap i j l ≡ₚ l.
Proof.
  intros Hi Hj. apply Permutation_inj. split; [apply swap_length|].
  exists (fun k => if decide (k = i) then j else if decide (k = j) then i else k). split.
  - intros x y. repeat case_decide; intros; subst; congruence.
  - intros k. unfold swap.
    destruct (lookup_lt_is_Some_2 l i Hi) as [x Hx]. destruct (lookup_lt_is_Some_2 l j Hj) as [y Hy].
    rewrite (list_lookup_total_correct _ _ _ Hx), (list_lookup_total_correct _ _ _ Hy).
    destruct (decide (k = i)) as [->|Hki].
    + by rewrite list_lookup_insert_eq by by rewrite length_insert.
    + rewrite list_lookup_insert_ne by done. destruct (decide (k = j)) as [->|Hkj].
      * by rewrite list_lookup_insert_eq.
      * by rewrite list_lookup_insert_ne by done.
Qed.

Lemma parent_lt i : (0 < i)%nat -> (parent i < i)%nat.
Proof. intros. unfold parent. pose proof (Nat.div_lt (i + 1) 2 ltac:(lia) ltac:(lia)). lia. Qed.

(** The children of [i] are [2i+1] and [2i+2]. *)
Lemma parent_child i c : (0 < c)%nat -> parent c = i <-> c = (2 * i + 1)%nat \/ c = (2 * i + 2)%nat.
Proof.
  intros Hc. unfold parent. pose proof (Nat.div_mod (c + 1) 2 ltac:(lia)).
  pose proof (Nat.mod_upper_bound (c + 1) 2 ltac:(lia)).
  assert (1 <= (c + 1) / 2)%nat by (apply Nat.div_le_lower_bound; lia). lia.
Qed.

(** ** Contents, for any sorter

    The sorter of the block queue looks at a map that changes between calls, so
    that heap order may be lost; the contents are right all the same. *)

Lemma sift_up_perm fuel : forall i l, (0 < i < length l)%nat -> sift_up fuel i l ≡ₚ l.
Proof.
  induction fuel as [|fuel IH]; intros i l Hi; [done|]. cbn [sift_up].
  pose proof (parent_lt i ltac:(lia)). case_match; [done|].
  destruct (Nat.eqb_spec (parent i) 0); [apply swap_perm; lia|].
  rewrite IH by (rewrite swap_length; lia). apply swap_perm; lia.
Qed.
Lemma insert_perm v l : insert v l ≡ₚ v :: l.
Proof.
  unfold insert. destruct (Nat.eqb_spec (length l) 0) as [|Hne];
    [|rewrite sift_up_perm by (rewrite length_app; cbn; lia)]; symmetry; apply Permutation_cons_append.
Qed.

Lemma sift_down_perm fuel n : forall i l,
  (n <= length l)%nat -> (i < n)%nat ->
  sift_down fuel n i l ≡ₚ l /\ drop n (sift_down fuel n i l) = drop n l.
Proof.
  assert (Hswap : forall i j l, (n <= length l)%nat -> (i < n)%nat -> (j < n)%nat ->
    swap j i l ≡ₚ l /\ drop n (swap j i l) = drop n l).
  { intros i j l Hn Hi Hj. split; [apply swap_perm; lia|]. unfold swap. by rewrite !drop_insert_lt by lia. }
  induction fuel as [|fuel IH]; intros i l Hn Hi; [done|]. cbn [sift_down].
  destruct (Nat.leb_spec n ((i + 1) * 2)) as [Hr|Hr].
  - destruct (Nat.leb_spec n ((i + 1) * 2 - 1)); [done|]. case_match; [|done]. apply Hswap; lia.
  - case_match eqn:E; [done|]. set (j := if precedes _ (l !!! ((i + 1) * 2)%nat) then _ else _).
    assert (j < n)%nat by (unfold j; case_match; lia).
    destruct (Hswap i j l) as [P1 D1]; [done..|].
    destruct (IH j (swap j i l)) as [P2 D2]; [by rewrite swap_length|done|].
    split; [by rewrite P2|by rewrite D2].
Qed.
Lemma remove_min_perm x l :
  exists l', remove_min (x :: l) = Ok (x, l') /\ l ≡ₚ l'.
Proof.
  destruct l as [|last mid _] using rev_ind; [by exists []|].
  unfold remove_min. set (n := S (length mid)).
  replace (length (x :: mid ++ [last]) - 1)%nat with n by (cbn; rewrite length_app; cbn; lia).
  assert (Hlast : (x :: mid ++ [last]) !!! n = last).
  { apply list_lookup_total_correct. cbn. by apply list_lookup_middle. }
  rewrite Hlast. cbn [Nat.eqb n]. fold n. eexists. split; [reflexivity|].
  change (<[0%nat := last]> (x :: mid ++ [last])) with ((last :: mid) ++ [last]).
  destruct (sift_down_perm n n 0 ((last :: mid) ++ [last])) as [P D];
    [rewrite length_app; cbn; lia|unfold n; lia|].
  rewrite <-(take_drop n (sift_down n n 0 _)), D in P.
  rewrite drop_app_length' in P by done. apply Permutation_app_inv_r in P.
  rewrite P. by rewrite <-Permutation_cons_append.
Qed.

(** ** Heap order, for a sorter that compares keys *)

Variable key : T -> nat.
Hypothesis precedes_key : forall a b, precedes a b = (key a <? key b)%nat.

Definition kat l i : nat := key (l !!! i).
Definition heap l (n : nat) : Prop :=
  forall i, (0 < i < n)%nat -> (kat l (parent i) <= kat l i)%nat.

(** Heap order except between [i] and its parent. *)
Definition heap_up l (i : nat) : Prop :=
  (forall c, (0 < c < length l)%nat -> c <> i -> (kat l (parent c) <= kat l c)%nat) /\
  (forall c, (0 < c < length l)%nat -> parent c = i -> (0 < i)%nat ->
     (kat l (parent i) <= kat l c)%nat).

Lemma sift_up_spec fuel : forall i l,
  (0 < i < length l)%nat -> (i <= fuel)%nat -> heap_up l i ->
  sift_up fuel i l ≡ₚ l /\ heap (sift_up fuel i l) (length l).
Proof.
  induction fuel as [|fuel IH]; intros i l Hi Hf [H1 H2]; [lia|].
  cbn [sift_up]. rewrite precedes_key.
  pose proof (parent_lt i ltac:(lia)) as Hp.
  destruct (Nat.ltb_spec (key (l !!! i)) (key (l !!! parent i))) as [Hlt|Hge]; cbn [negb].
  2: { split; [done|]. intros c Hc. destruct (decide (c = i)) as [->|]; [done|]. by apply H1. }
  set (l' := swap i (parent i) l).
  assert (Hlen : length l' = length l) by apply swap_length.
  assert (Hperm : l' ≡ₚ l) by (apply swap_perm; lia).
  assert (Hk : forall k, kat l' k = if decide (k = i) then kat l (parent i)
      else if decide (k = parent i) then kat l i else kat l k).
  { intros k. unfold kat, l'. rewrite swap_lookup by lia. by repeat case_decide. }
  assert (Hup : heap_up l' (parent i)).
  { rewrite <-Hlen in H1, H2. split; intros c Hc; rewrite !Hk.
    - intros Hne. destruct (decide (c = i)) as [->|Hci].
      + rewrite decide_False, decide_True by lia. unfold kat in *. lia.
      + rewrite (decide_False (P := c = parent i)) by done.
        destruct (decide (parent c = i)) as [Epc|Epc]; [apply H2; [done|done|lia]|].
        destruct (decide (parent c = parent i)) as [Eqp|Eqp].
        * specialize (H1 c Hc Hci). rewrite Eqp in H1. unfold kat in *. lia.
        * by apply H1.
    - intros Hcp Hpos. pose proof (parent_lt (parent i) Hpos).
      rewrite !(decide_False (P := parent (parent i) = _)) by lia.
      assert (Hpp : (kat l (parent (parent i)) <= kat l (parent i))%nat) by (apply H1; lia).
      destruct (decide (c = i)) as [->|Hci]; [done|].
      pose proof (parent_lt c ltac:(lia)). rewrite decide_False by lia.
      specialize (H1 c Hc Hci). rewrite Hcp in H1. lia. }
  destruct (Nat.eqb_spec (parent i) 0) as [E0|Hn0].
  - split; [done|]. intros c Hc. apply Hup; lia.
  - destruct (IH (parent i) l') as [P Q]; [lia|lia|done|].
    split; [by rewrite P|]. by rewrite <-Hlen.
Qed.

Lemma insert_heap v l : heap l (length l) ->
  insert v l ≡ₚ v :: l /\ heap (insert v l) (length (insert v l)).
Proof.
  intros Hh. unfold insert.
  assert (Hsnoc : l ++ [v] ≡ₚ v :: l) by by rewrite Permutation_app_comm.
  destruct (Nat.eqb_spec (length l) 0) as [E|Hne].
  { split; [done|]. intros i Hi. rewrite length_app in Hi. cbn in Hi. lia. }
  assert (Hlk : forall i, (i < length l)%nat -> (l ++ [v]) !!! i = l !!! i)
    by (intros i Hi; by apply lookup_total_app_l).
  destruct (sift_up_spec (length l) (length l) (l ++ [v])) as [P Q].
  - rewrite length_app. cbn. lia.
  - done.
  - split; intros c; rewrite length_app; cbn [length]; intros Hc.
    + intros Hci. pose proof (parent_lt c ltac:(lia)). unfold kat. rewrite !Hlk by lia. apply Hh. lia.
    + intros Hpc. pose proof (parent_lt c ltac:(lia)). lia.
  - split; [by rewrite P|]. by rewrite (Permutation_length P).
Qed.

(** Heap order on the first [n] slots except below [i]. *)
Definition heap_down l (n i : nat) : Prop :=
  (forall c, (0 < c < n)%nat -> parent c <> i -> (kat l (parent c) <= kat l c)%nat) /\
  (forall c, (0 < c < n)%nat -> parent c = i -> (0 < i)%nat ->
     (kat l (parent i) <= kat l c)%nat).

(** One round of the loop: the smaller child [j] moves up. *)
Lemma heap_down_step l n i j :
  (n <= length l)%nat -> (0 < j < n)%nat -> parent j = i ->
  (forall c, (0 < c < n)%nat -> parent c = i -> (kat l j <= kat l c)%nat) ->
  (kat l j < kat l i)%nat -> heap_down l n i -> heap_down (swap j i l) n j.
Proof.
  intros Hn Hj Hp Hmin Hlt [H1 H2]. pose proof (parent_lt j ltac:(lia)) as Hij.
  assert (Hk : forall k, kat (swap j i l) k = if decide (k = j) then kat l i
      else if decide (k = i) then kat l j else kat l k).
  { intros k. unfold kat. rewrite swap_lookup by lia. by repeat case_decide. }
  split; intros c Hc; rewrite !Hk.
  - intros Hpc. rewrite (decide_False (P := parent c = j)) by done.
    destruct (decide (c = j)) as [->|Hcj].
    + rewrite decide_True by done. lia.
    + destruct (decide (parent c = i)) as [Epi|Epi].
      * rewrite decide_False by (intros ->; pose proof (parent_lt i ltac:(lia)); lia).
        by apply Hmin.
      * destruct (decide (c = i)) as [->|Hci]; [|by apply H1].
        apply H2; [done|done|lia].
  - intros Hpc _. rewrite (decide_False (P := parent j = j)) by lia.
    rewrite decide_True by done. pose proof (parent_lt c ltac:(lia)) as Hjc.
    rewrite !decide_False by lia. specialize (H1 c Hc). rewrite Hpc in H1. apply H1. lia.
Qed.

Lemma heap_down_done l n i :
  heap_down l n i ->
  (forall c, (0 < c < n)%nat -> parent c = i -> (kat l i <= kat l c)%nat) -> heap l n.
Proof.
  intros [H1 H2] Hc k Hk. destruct (decide (parent k = i)) as [E|E]; [rewrite E; by apply Hc|by apply H1].
Qed.

(** The part behind the heap is not touched. *)
Lemma sift_down_spec fuel n : forall i l,
  (n <= length l)%nat -> (i < n)%nat -> (n - i <= fuel)%nat -> heap_down l n i ->
  sift_down fuel n i l ≡ₚ l /\ heap (sift_down fuel n i l) n /\
  drop n (sift_down fuel n i l) = drop n l.
Proof.
  induction fuel as [|fuel IH]; intros i l Hn Hi Hf Hd; [lia|].
  cbn [sift_down]. rewrite !precedes_key.
  replace ((i + 1) * 2 - 1)%nat with (2 * i + 1)%nat by lia.
  replace ((i + 1) * 2)%nat with (2 * i + 2)%nat by lia.
  assert (Hswap : forall j, (j < n)%nat -> drop n (swap j i l) = drop n l).
  { intros j Hj. unfold swap. by rewrite !drop_insert_lt by lia. }
  destruct (Nat.leb_spec n (2 * i + 2)) as [Hr|Hr].
  - destruct (Nat.leb_spec n (2 * i + 1)) as [Hl|Hl].
    { split; [done|]. split; [|done]. eapply heap_down_done; [done|].
      intros c Hc [->| ->]%parent_child; lia. }
    destruct (Nat.ltb_spec (key (l !!! (2 * i + 1)%nat)) (key (l !!! i))) as [Hlt|Hge].
    + split; [apply swap_perm; lia|]. split; [|apply Hswap; lia].
      eapply heap_down_done; [eapply heap_down_step; eauto; try lia|].
      * apply parent_child; lia.
      * intros c Hc [->| ->]%parent_child; lia.
      * intros c Hc [->| ->]%parent_child; lia.
    + split; [done|]. split; [|done]. eapply heap_down_done; [done|].
      intros c Hc [->| ->]%parent_child; [unfold kat; lia|lia|lia].
  - set (j := if (key (l !!! (2 * i + 1)%nat) <? key (l !!! (2 * i + 2)%nat))%nat
              then (2 * i + 1)%nat else (2 * i + 2)%nat).
    assert (Hj : (j = 2 * i + 1 \/ j = 2 * i + 2)%nat) by (unfold j; case_match; lia).
    assert (Hpj : parent j = i) by (apply parent_child; lia).
    assert (Hmin : forall c, (0 < c < n)%nat -> parent c = i -> (kat l j <= kat l c)%nat).
    { intros c Hc [->| ->]%parent_child; unfold j, kat;
        destruct (Nat.ltb_spec (key (l !!! (2 * i + 1)%nat)) (key (l !!! (2 * i + 2)%nat))); lia. }
    destruct (Nat.ltb_spec (key (l !!! j)) (key (l !!! i))) as [Hlt|Hge]; cbn [negb].
    + destruct (IH j (swap j i l)) as (P & Q & R);
        [by rewrite swap_length|lia|lia|by apply heap_down_step; try lia|].
      split; [rewrite P; apply swap_perm; lia|]. split; [done|]. rewrite R. apply Hswap. lia.
    + split; [done|]. split; [|done]. eapply heap_down_done; [done|].
      intros c Hc Hpc. specialize (Hmin c Hc Hpc). unfold kat in *. lia.
Qed.

Lemma heap_root l n i : heap l n -> (i < n)%nat -> (kat l 0 <= kat l i)%nat.
Proof.
  intros Hh. induction (lt_wf i) as [i _ IH]. intros Hi.
  destruct (decide (i = 0%nat)) as [->|Hne]; [done|].
  pose proof (parent_lt i ltac:(lia)). specialize (IH (parent i) ltac:(lia) ltac:(lia)).
  specialize (Hh i ltac:(lia)). lia.
Qed.

Lemma heap_take l n : heap l n -> heap (take n l) n.
Proof.
  intros Hh i Hi. pose proof (parent_lt i ltac:(lia)). unfold kat.
  rewrite !lookup_total_take_lt by lia. by apply Hh.
Qed.

(** What is in the array while the root slot is replaced. *)
Lemma remove_min_spec x mid last :
  heap (x :: mid ++ [last]) (S (S (length mid))) ->
  exists l', remove_min (x :: mid ++ [last]) = Ok (x, l') /\ last :: mid ≡ₚ l' /\ heap l' (length l').
Proof.
  intros Hh. set (n := S (length mid)). unfold remove_min.
  assert (Hlen : length (x :: mid ++ [last]) = S n) by (cbn; rewrite length_app; cbn; lia).
  rewrite Hlen. replace (S n - 1)%nat with n by lia.
  assert (Hlast : (x :: mid ++ [last]) !!! n = last).
  { apply list_lookup_total_correct. cbn. by apply list_lookup_middle. }
  rewrite Hlast. cbn [Nat.eqb n]. fold n. set (l0 := <[0%nat := last]> (x :: mid ++ [last])).
  assert (E0 : l0 = (last :: mid) ++ [last]) by done.
  destruct (sift_down_spec n n 0 l0) as (P & Q & R).
  - rewrite E0, length_app. cbn. lia.
  - unfold n. lia.
  - lia.
  - split; [|lia]. intros c Hc Hpc. pose proof (parent_lt c ltac:(lia)).
    assert (Hl : forall i, (0 < i)%nat -> kat l0 i = kat (x :: mid ++ [last]) i).
    { intros i Hi. unfold kat, l0. by rewrite list_lookup_total_insert_ne by lia. }
    rewrite !Hl by lia. apply Hh. unfold n in Hc. lia.
  - eexists. split; [reflexivity|].
    assert (Hs : sift_down n n 0 l0 = take n (sift_down n n 0 l0) ++ [last]).
    { rewrite <-(take_drop n (sift_down n n 0 l0)) at 1. f_equal. rewrite R, E0.
      by rewrite drop_app_length' by done. }
    assert (Hl : length (take n (sift_down n n 0 l0)) = n).
    { rewrite length_take, (Permutation_length P), E0, length_app. cbn. lia. }
    split; [|rewrite Hl; by apply heap_take].
    rewrite Hs, E0 in P. symmetry. by apply Permutation_app_inv_r in P.
Qed.

(** The priority queue of the difference engine.  On a heap, [insert] gives a
    heap with one element more; on a non-empty heap, [remove_min] returns an
    element no other element precedes and leaves a heap of the others.  On the
    empty queue it fails its assertion. *)
Theorem priority_queue_correct l :
  heap l (length l) ->
  (forall v, insert v l ≡ₚ v :: l /\ heap (insert v l) (length (insert v l))) /\
  (l = [] -> remove_min l = Fault AssertFailed) /\
  (l <> [] -> exists x l', remove_min l = Ok (x, l') /\ l ≡ₚ x :: l' /\ heap l' (length l') /\
     forall y, y ∈ l -> precedes y x = false).
Proof.
  intros Hh. split; [intros v; by apply insert_heap|]. split; [by intros ->|]. intros Hne.
  assert (Hmin : forall x r y, l = x :: r -> y ∈ l -> precedes y x = false).
  { intros x r y -> Hy. rewrite precedes_key. apply Nat.ltb_ge.
    apply list_elem_of_lookup_1 in Hy as [i Hi]. pose proof (lookup_lt_Some _ _ _ Hi).
    pose proof (heap_root _ _ i Hh ltac:(done)) as Hr. unfold kat in Hr.
    by rewrite (list_lookup_total_correct _ _ _ Hi) in Hr. }
  destruct l as [|x r]; [done|]. destruct r as [|last mid _] using rev_ind.
  - exists x, []. split; [done|]. split; [done|]. split; [intros i Hi; cbn in Hi; lia|].
    intros y Hy. by eapply Hmin.
  - destruct (remove_min_spec x mid last) as (l' & E & P & Q).
    { intros i Hi. apply Hh. cbn. rewrite length_app. cbn. lia. }
    exists x, l'. split; [done|]. split; [|split; [done|intros y Hy; by eapply Hmin]].
    constructor. rewrite <-P. symmetry. apply Permutation_cons_append.
Qed.
End Queue.

Lemma priority_queue_correct_witness :
  exists x l', remove_min Nat.ltb [1; 4; 2; 9]%nat = Ok (x, l') /\ [1; 4; 2; 9]%nat ≡ₚ x :: l'.
Proof.
  destruct (priority_queue_correct Nat.ltb (fun x => x) (fun a b => eq_refl) [1; 4; 2; 9]%nat)
    as (_ & _ & P).
  - intros i Hi. do 4 (destruct i as [|i]; [by vm_compute; lia|]). cbn in Hi. lia.
  - destruct P as (x & l' & E & Q & _); [done|]. exists x, l'. by split.
Defined.
