(* ===== verification/SanPrintf.v ===== *)
(** * The printf of the runtime

    [sanitizer_printf.cc]: the formatter behind [Printf], [Report] and
    [internal_snprintf], which cannot call libc.  The theorems say that it prints what the
    format asks for, never writes outside its buffer and answers the length of the whole
    text, and that numbers it prints are read back by [internal_atoll]. *)

From Stdlib Require Import Ascii.
From S2P Require Import Prelude CMem.
Local Open Scope Z_scope.

(** Characters of the source. *)
Definition ch (c : ascii) : Z := Z.of_nat (nat_of_ascii c).
Definition text (s : string) : list Z := ch <$> String.list_ascii_of_string s.

(** Evaluate the characters of the goal. *)
Ltac chars := repeat match goal with
  | |- context [ch ?c] => let v := eval vm_compute in (ch c) in change (ch c) with v
  | H : context [ch ?c] |- _ => let v := eval vm_compute in (ch c) in change (ch c) with v in H
  end.

(** ** The formatter

    The state is memory and the place where the next character goes ([*buff]). *)

Record pr := mkPr { p_mem : mem; p_buff : Z }.
Abbreviation P := (M pr).
Definition on_mem {A} (f : M mem A) : P A := fun s =>
  match f (p_mem s) with Ok (a, m) => Ok (a, mkPr m (p_buff s)) | Fault e => Fault e end.
Definition raw_check (b : bool) : P unit := if b then ret tt else fail DieCalled.
(** [a && b] where [b] reads memory. *)
Definition and_then (a : bool) (b : P bool) : P bool := if a then b else ret false.

Definition AppendChar (buff_end c : Z) : P Z :=
  b <- gets p_buff ;;
  when (b <? buff_end) (on_mem (store b c) ;;; modify (fun s => mkPr (p_mem s) (b + 1))) ;;;
  ret 1.

(** [AppendNumber].  The digits of [num_buffer], the last one first. *)
Definition kMaxLen : nat := 30.
Fixpoint digits_loop (fuel : nat) (num_buffer : list Z) (absolute_value base : Z) : P (list Z) :=
  match fuel with
  | O => fail OutOfFuel
  | S k =>
      raw_check (length num_buffer <? kMaxLen)%nat ;;;
      let num_buffer := num_buffer ++ [absolute_value mod base] in
      let absolute_value := absolute_value / base in
      if 0 <? absolute_value then digits_loop k num_buffer absolute_value base else ret num_buffer
  end.
(** The two loops over [pos], on the digits from the first one. *)
Fixpoint append_lead (buff_end : Z) (pad_with_zero : bool) (ds : list Z) : P (Z * list Z) :=
  match ds with
  | 0 :: r =>
      c <- AppendChar buff_end (if pad_with_zero || (length r =? 0)%nat then ch "0" else ch " ") ;;
      x <- append_lead buff_end pad_with_zero r ;;
      ret (c + x.1, x.2)
  | _ => ret (0, ds)
  end.
Definition digit_char (digit : Z) : Z := if digit <? 10 then ch "0" + digit else ch "a" + digit - 10.
Fixpoint append_digits (buff_end : Z) (ds : list Z) : P Z :=
  match ds with
  | [] => ret 0
  | d :: r => c <- AppendChar buff_end (digit_char d) ;; x <- append_digits buff_end r ;; ret (c + x)
  end.
Definition AppendNumber (buff_end absolute_value base minimal_num_length : Z)
  (pad_with_zero negative : bool) : P Z :=
  raw_check ((base =? 10) || (base =? 16)) ;;;
  raw_check ((base =? 10) || negb negative) ;;;
  raw_check (negb (absolute_value =? 0) || negb negative) ;;;
  raw_check (minimal_num_length <? Z.of_nat kMaxLen) ;;;
  let minimal_num_length :=
    if negative && negb (minimal_num_length =? 0) then minimal_num_length - 1 else minimal_num_length in
  r0 <- (if negative && pad_with_zero then AppendChar buff_end (ch "-") else ret 0) ;;
  num_buffer <- digits_loop (S kMaxLen) [] absolute_value base ;;
  let num_buffer := num_buffer ++ replicate (Z.to_nat minimal_num_length - length num_buffer) 0 in
  x <- append_lead buff_end pad_with_zero (rev num_buffer) ;;
  r1 <- (if negative && negb pad_with_zero then AppendChar buff_end (ch "-") else ret 0) ;;
  r2 <- append_digits buff_end x.2 ;;
  ret (r0 + x.1 + r1 + r2).
Definition AppendUnsigned (buff_end num base minimal_num_length : Z) (pad_with_zero : bool) : P Z :=
  AppendNumber buff_end num base minimal_num_length pad_with_zero false.
Definition AppendSignedDecimal (buff_end num minimal_num_length : Z) (pad_with_zero : bool) : P Z :=
  let negative := num <? 0 in
  AppendNumber buff_end (u64 (if negative then - num else num)) 10 minimal_num_length pad_with_zero negative.

(** The loop of [AppendString], on memory and on a literal. *)
Fixpoint string_loop (fuel : nat) (buff_end precision s result : Z) : P Z :=
  match fuel with
  | O => fail OutOfFuel
  | S k =>
      c <- on_mem (loadc s) ;;
      if c =? 0 then ret result
      else if (0 <=? precision) && (precision <=? result) then ret result
      else r <- AppendChar buff_end c ;; string_loop k buff_end precision (s + 1) (s32 (result + r))
  end.
Fixpoint literal_loop (buff_end precision : Z) (s : list Z) (result : Z) : P Z :=
  match s with
  | [] => ret result
  | c :: s =>
      if (0 <=? precision) && (precision <=? result) then ret result
      else r <- AppendChar buff_end c ;; literal_loop buff_end precision s (s32 (result + r))
  end.
Definition AppendString (buff_end precision s : Z) : P Z :=
  if s =? 0 then literal_loop buff_end precision (text "<null>") 0
  else fun st => string_loop (S (size (p_mem st))) buff_end precision s 0 st.
Definition SANITIZER_POINTER_FORMAT_LENGTH : Z := 12.
Definition AppendPointer (buff_end ptr_value : Z) : P Z :=
  r <- literal_loop buff_end (-1) (text "0x") 0 ;;
  x <- AppendUnsigned buff_end ptr_value 16 SANITIZER_POINTER_FORMAT_LENGTH true ;;
  ret (r + x).

(** Arguments are 64-bit slots. *)
Definition va_arg (args : list Z) : P (Z * list Z) :=
  match args with a :: r => ret (a, r) | [] => fail Segv end.

Fixpoint width_loop (fuel : nat) (cur width : Z) : P (Z * Z) :=
  match fuel with
  | O => fail OutOfFuel
  | S k =>
      c <- on_mem (loadc cur) ;;
      if IsDigit c then width_loop k (cur + 1) (s32 (width * 10 + c - ch "0")) else ret (cur, width)
  end.
(** What stands between a percent sign and the conversion: the place of the conversion,
    whether the width starts with a zero, width, precision, size and flags. *)
Record spec_head := mkHead {
  h_cur : Z; h_pad : bool; h_width : Z; h_precision : Z; h_z : bool; h_ll : bool; h_flags : bool }.
(** Whether there is a width, whether it begins with a zero, the place behind it and its
    value. *)
Definition parse_width (cur : Z) : P (bool * bool * Z * Z) :=
  c <- on_mem (loadc cur) ;;
  let have_width := IsDigit c in
  let pad_with_zero := c =? ch "0" in
  w <- (if have_width then fun st => width_loop (S (size (p_mem st))) cur 0 st else ret (cur, 0)) ;;
  ret (have_width, pad_with_zero, w.1, w.2).
(** The place behind the precision, the precision and the arguments left. *)
Definition parse_precision (cur : Z) (args : list Z) : P (Z * Z * list Z) :=
  c <- on_mem (loadc cur) ;;
  have_precision <- and_then (c =? ch ".") (c1 <- on_mem (loadc (cur + 1)) ;; ret (c1 =? ch "*")) ;;
  if have_precision then x <- va_arg args ;; ret (cur + 2, s32 x.1, x.2) else ret (cur, -1, args).
(** The place of the conversion and its size. *)
Definition parse_size (cur : Z) : P (Z * bool * bool) :=
  c <- on_mem (loadc cur) ;;
  let have_z := c =? ch "z" in
  if have_z then ret (cur + 1, true, false) else
  have_ll <- and_then (c =? ch "l") (c1 <- on_mem (loadc (cur + 1)) ;; ret (c1 =? ch "l")) ;;
  ret (if have_ll then cur + 2 else cur, false, have_ll).
Definition parse_head (cur : Z) (args : list Z) : P (spec_head * list Z) :=
  w <- parse_width cur ;;
  let '(have_width, pad_with_zero, cur, width) := w in
  q <- parse_precision cur args ;;
  let '(cur, precision, args) := q in
  z <- parse_size cur ;;
  let '(cur, have_z, have_ll) := z in
  ret (mkHead cur pad_with_zero width precision have_z have_ll (have_width || have_z || have_ll), args).
(** One conversion: the characters it added and the arguments left. *)
Definition convert (buff_end : Z) (h : spec_head) (args : list Z) : P (Z * list Z) :=
  c <- on_mem (loadc (h_cur h)) ;;
  let wide := h_ll h || h_z h in
  if (0 <=? h_precision h) && negb (c =? ch "s") then fail AssertFailed else
  if c =? ch "d" then
    x <- va_arg args ;;
    let dval := if wide then s64 x.1 else s32 x.1 in
    r <- AppendSignedDecimal buff_end dval (u8 (h_width h)) (h_pad h) ;; ret (r, x.2)
  else if (c =? ch "u") || (c =? ch "x") then
    x <- va_arg args ;;
    let uval := if wide then u64 x.1 else u32 x.1 in
    r <- AppendUnsigned buff_end uval (if c =? ch "u" then 10 else 16) (u8 (h_width h)) (h_pad h) ;; ret (r, x.2)
  else if c =? ch "p" then
    raw_check (negb (h_flags h)) ;;;
    x <- va_arg args ;; r <- AppendPointer buff_end (u64 x.1) ;; ret (r, x.2)
  else if c =? ch "s" then
    raw_check (negb (h_flags h)) ;;;
    x <- va_arg args ;; r <- AppendString buff_end (h_precision h) (u64 x.1) ;; ret (r, x.2)
  else if c =? ch "c" then
    raw_check (negb (h_flags h)) ;;;
    x <- va_arg args ;; r <- AppendChar buff_end (s32 x.1) ;; ret (r, x.2)
  else if c =? ch "%" then
    raw_check (negb (h_flags h)) ;;;
    r <- AppendChar buff_end (ch "%") ;; ret (r, args)
  else fail DieCalled.
Fixpoint format_loop (fuel : nat) (buff_end cur : Z) (args : list Z) (result : Z) : P Z :=
  match fuel with
  | O => fail OutOfFuel
  | S k =>
      c <- on_mem (loadc cur) ;;
      if c =? 0 then ret result
      else if negb (c =? ch "%") then
        r <- AppendChar buff_end c ;;
        format_loop k buff_end (cur + 1) args (s32 (result + r))
      else
        h <- parse_head (cur + 1) args ;;
        r <- convert buff_end h.1 h.2 ;;
        format_loop k buff_end (h_cur h.1 + 1) r.2 (s32 (result + r.1))
  end.
Definition VSNPrintf (buff buff_length format : Z) (args : list Z) : M mem Z := fun m =>
  let buff_end := buff + buff_length - 1 in
  match (raw_check (negb (format =? 0)) ;;;
         raw_check (0 <? buff_length) ;;;
         result <- (fun st => format_loop (S (size (p_mem st))) buff_end format args 0 st) ;;
         b <- gets p_buff ;;
         raw_check (b <=? buff_end) ;;;
         AppendChar (buff_end + 1) 0 ;;;
         ret result) (mkPr m buff) with
  | Ok (r, s) => Ok (r, p_mem s)
  | Fault e => Fault e
  end.
(** [length] is a [uptr], which is passed on as an [int]. *)
Definition internal_snprintf (buffer length format : Z) (args : list Z) : M mem Z :=
  VSNPrintf buffer (s32 length) format args.

(** ** What a format asks for *)

(** The digits of a number, the first one first. *)
Fixpoint to_digits (fuel : nat) (base v : Z) : list Z :=
  match fuel with
  | O => [v]
  | S k => if v <? base then [v] else to_digits k base (v / base) ++ [v mod base]
  end.
Definition digits (base v : Z) : list Z := to_digits 64 base v.
(** A number with its sign, at least [w] characters long. *)
Definition number_text (base v : Z) (w : nat) (pad neg : bool) : list Z :=
  let ds := digit_char <$> digits base v in
  let fill := replicate ((if neg then w - 1 else w) - length ds) (if pad then ch "0" else ch " ") in
  let sign := if neg then [ch "-"] else [] in
  if pad then sign ++ fill ++ ds else fill ++ sign ++ ds.
Definition signed_text (v : Z) (w : nat) (pad : bool) : list Z := number_text 10 (Z.abs v) w pad (v <? 0).

(** A conversion has the digits of its width, whether it takes a precision, its size and
    its kind. *)
Inductive arg_size := SizeInt | SizeZ | SizeLL.
Inductive conv := ConvD | ConvU | ConvX | ConvP | ConvS | ConvC | ConvPercent.
Inductive item := Lit (c : Z) | Conv (wd : list Z) (prec : bool) (sz : arg_size) (c : conv).

Definition size_text (sz : arg_size) : list Z :=
  match sz with SizeInt => [] | SizeZ => text "z" | SizeLL => text "ll" end.
Definition conv_char (c : conv) : Z :=
  match c with
  | ConvD => ch "d" | ConvU => ch "u" | ConvX => ch "x" | ConvP => ch "p" | ConvS => ch "s" | ConvC => ch "c"
  | ConvPercent => ch "%"
  end.
Definition item_text (i : item) : list Z :=
  match i with
  | Lit c => [c]
  | Conv wd prec sz c => ch "%" :: wd ++ (if prec then text ".*" else []) ++ size_text sz ++ [conv_char c]
  end.
Definition format_text (items : list item) : list Z := concat (item_text <$> items).

Definition no_flags (wd : list Z) (sz : arg_size) : bool :=
  match wd, sz with [], SizeInt => true | _, _ => false end.
(** The formats the formatter supports. *)
Definition item_ok (i : item) : bool :=
  match i with
  | Lit c => (0 <? c) && (c <? 256) && negb (c =? ch "%")
  | Conv wd prec sz c =>
      forallb IsDigit wd && (dec_value wd <? 30) &&
      match c with
      | ConvD | ConvU | ConvX => negb prec
      | ConvS => no_flags wd sz
      | ConvP | ConvC | ConvPercent => no_flags wd sz && negb prec
      end
  end.
Definition arg_signed (sz : arg_size) (a : Z) : Z := match sz with SizeInt => s32 a | _ => s64 a end.
Definition arg_unsigned (sz : arg_size) (a : Z) : Z := match sz with SizeInt => u32 a | _ => u64 a end.
Definition pads (wd : list Z) : bool := match wd with c :: _ => c =? ch "0" | [] => false end.
Definition cut (precision : Z) (l : list Z) : list Z :=
  if 0 <=? precision then take (Z.to_nat precision) l else l.

(** The text of one item with the arguments [args], and the arguments it leaves.
    [live] are the addresses that keep their contents while the text is written. *)
Inductive prints (m : mem) (live : Z -> Prop) : item -> list Z -> list Z -> list Z -> Prop :=
| prints_lit c args : prints m live (Lit c) args [c] args
| prints_d wd sz a args :
    prints m live (Conv wd false sz ConvD) (a :: args)
      (signed_text (arg_signed sz a) (Z.to_nat (dec_value wd)) (pads wd)) args
| prints_u wd sz a args :
    prints m live (Conv wd false sz ConvU) (a :: args)
      (number_text 10 (arg_unsigned sz a) (Z.to_nat (dec_value wd)) (pads wd) false) args
| prints_x wd sz a args :
    prints m live (Conv wd false sz ConvX) (a :: args)
      (number_text 16 (arg_unsigned sz a) (Z.to_nat (dec_value wd)) (pads wd) false) args
| prints_p a args :
    prints m live (Conv [] false SizeInt ConvP) (a :: args) (text "0x" ++ number_text 16 (u64 a) 12 true false) args
| prints_c a args : prints m live (Conv [] false SizeInt ConvC) (a :: args) [u8 a] args
| prints_percent args : prints m live (Conv [] false SizeInt ConvPercent) args [ch "%"] args
| prints_null args : prints m live (Conv [] false SizeInt ConvS) (0 :: args) (text "<null>") args
| prints_null_cut k args :
    prints m live (Conv [] true SizeInt ConvS) (k :: 0 :: args) (cut (s32 k) (text "<null>")) args
| prints_s p l args :
    0 < p < 2 ^ 64 -> cstr m p l -> Z.of_nat (length l) < 2 ^ 31 -> (forall i, (i <= length l)%nat -> live (p + Z.of_nat i)) ->
    prints m live (Conv [] false SizeInt ConvS) (p :: args) l args
| prints_s_cut k p l args :
    0 < p < 2 ^ 64 -> cstr m p l -> Z.of_nat (length l) < 2 ^ 31 -> (forall i, (i <= length l)%nat -> live (p + Z.of_nat i)) ->
    prints m live (Conv [] true SizeInt ConvS) (k :: p :: args) (cut (s32 k) l) args.
Inductive prints_all (m : mem) (live : Z -> Prop) : list item -> list Z -> list Z -> Prop :=
| prints_nil args : prints_all m live [] args []
| prints_cons i items args t args' t' :
    prints m live i args t args' -> prints_all m live items args' t' -> prints_all m live (i :: items) args (t ++ t').

(** ** Text in the buffer *)

Fixpoint write (m : mem) (a : Z) (l : list Z) : mem :=
  match l with [] => m | x :: r => write (<[a := x]> m) (a + 1) r end.
Lemma write_app m a l1 l2 : write m a (l1 ++ l2) = write (write m a l1) (a + Z.of_nat (length l1)) l2.
Proof.
  revert m a. induction l1 as [|x l1 IH]; intros m a; cbn [write app length]; [by rewrite Z.add_0_r|].
  rewrite IH. f_equal. lia.
Qed.
Lemma write_other m l : forall a x, ~ (a <= x < a + Z.of_nat (length l)) -> write m a l !! x = m !! x.
Proof.
  revert m. induction l as [|y l IH]; intros m a x Hx; cbn [write]; [done|]. cbn [length] in Hx.
  rewrite IH by lia. rewrite lookup_insert_ne by lia. done.
Qed.
Lemma write_at m l : forall a i, write m a l !! (a + Z.of_nat i) = match l !! i with Some x => Some x | None => m !! (a + Z.of_nat i) end.
Proof.
  revert m. induction l as [|y l IH]; intros m a i; cbn [write]; [done|]. destruct i as [|i].
  - rewrite write_other by lia. rewrite Z.add_0_r. cbn. by rewrite lookup_insert_eq.
  - replace (a + Z.of_nat (S i)) with (a + 1 + Z.of_nat i) by lia. rewrite IH. cbn.
    destruct (l !! i); [done|]. rewrite lookup_insert_ne by lia. done.
Qed.
Lemma write_mapped m a l b n : mapped m b n -> mapped (write m a l) b n.
Proof.
  intros Hm x Hx. destruct (decide (a <= x < a + Z.of_nat (length l))) as [Hi|Hi].
  - replace x with (a + Z.of_nat (Z.to_nat (x - a))) by lia. rewrite write_at.
    destruct (lookup_lt_is_Some_2 l (Z.to_nat (x - a))) as [y ->]; [lia|]. by eexists.
  - rewrite write_other by done. by apply Hm.
Qed.
Lemma write_bytes m a l : bytes_at (write m a l) a l.
Proof. intros i b E. by rewrite write_at, E. Qed.

(** ** Digits *)

Lemma to_digits_fuel base k : 1 < base -> forall f f' v, 0 <= v < base ^ Z.of_nat (S k) -> (k <= f)%nat -> (k <= f')%nat ->
  to_digits f base v = to_digits f' base v.
Proof.
  intros Hb. induction k as [|k IH]; intros f f' v Hv Hf Hf'.
  { assert (E : forall g, to_digits g base v = [v]).
    { intros [|g]; cbn [to_digits]; [done|]. rewrite (proj2 (Z.ltb_lt v base)); [done|]. rewrite Z.pow_1_r in Hv. lia. }
    by rewrite !E. }
  destruct f as [|f], f' as [|f']; try lia. cbn [to_digits]. destruct (v <? base) eqn:E; [done|]. f_equal. apply IH; try lia.
  rewrite Nat2Z.inj_succ, Z.pow_succ_r in Hv by lia. split; [apply Z.div_pos; lia|]. apply Z.div_lt_upper_bound; lia.
Qed.
Lemma to_digits_length base k : 1 < base -> forall f v, 0 <= v < base ^ Z.of_nat (S k) -> (k <= f)%nat ->
  (1 <= length (to_digits f base v) <= S k)%nat.
Proof.
  intros Hb f v Hv Hf. rewrite (to_digits_fuel base k Hb f k v Hv) by lia. clear f Hf. revert v Hv.
  induction k as [|k IH]; intros v Hv; cbn [to_digits]; [cbn; lia|]. destruct (v <? base); [cbn; lia|].
  rewrite length_app. cbn [length]. rewrite Nat2Z.inj_succ, Z.pow_succ_r in Hv by lia.
  specialize (IH (v / base)). destruct IH; [|lia]. split; [apply Z.div_pos; lia|]. apply Z.div_lt_upper_bound; lia.
Qed.
Lemma to_digits_range base : 1 < base -> forall f v, 0 <= v < base ^ Z.of_nat (S f) ->
  Forall (fun d => 0 <= d < base) (to_digits f base v).
Proof.
  intros Hb. induction f as [|f IH]; intros v Hv; cbn [to_digits].
  - rewrite Z.pow_1_r in Hv. by apply list.Forall_singleton.
  - destruct (v <? base) eqn:E; breflect; [apply list.Forall_singleton; lia|]. apply Forall_app. split.
    + apply IH. rewrite Nat2Z.inj_succ, Z.pow_succ_r in Hv by lia. split; [apply Z.div_pos; lia|]. apply Z.div_lt_upper_bound; lia.
    + apply list.Forall_singleton, Z.mod_pos_bound. lia.
Qed.
(** No digits but zero itself begin with a zero. *)
Lemma to_digits_head base : 1 < base -> forall f v, 0 < v < base ^ Z.of_nat (S f) ->
  exists d r, to_digits f base v = d :: r /\ 0 < d.
Proof.
  intros Hb. induction f as [|f IH]; intros v Hv; cbn [to_digits]; [exists v, []; split; [done|lia]|].
  destruct (v <? base) eqn:E; breflect; [exists v, []; split; [done|lia]|].
  destruct (IH (v / base)) as (d & r & -> & Hd).
  - rewrite Nat2Z.inj_succ, Z.pow_succ_r in Hv by lia. split; [apply Z.div_str_pos; lia|]. apply Z.div_lt_upper_bound; lia.
  - exists d, (r ++ [v mod base]). done.
Qed.
Lemma digits_loop_spec base k (s : pr) : 1 < base -> forall fuel acc v,
  0 <= v < base ^ Z.of_nat (S k) -> (k < fuel)%nat -> (length acc + S k <= kMaxLen)%nat ->
  digits_loop fuel acc v base s = Ok (acc ++ rev (to_digits k base v), s).
Proof.
  intros Hb. induction k as [|k IH]; intros fuel acc v Hv Hf Hl; (destruct fuel as [|fuel]; [lia|]); cbn [digits_loop].
  - rewrite Z.pow_1_r in Hv. unfold raw_check, bind. rewrite (proj2 (Nat.ltb_lt _ _)) by lia.
    rewrite Z.div_small, Z.mod_small by lia. done.
  - rewrite (bind_Ok _ _ s tt s) by (unfold raw_check; by rewrite (proj2 (Nat.ltb_lt _ _)) by lia). cbv zeta.
    rewrite Nat2Z.inj_succ, Z.pow_succ_r in Hv by lia. cbn [to_digits].
    assert (Hd : 0 <= v / base < base ^ Z.of_nat (S k)).
    { split; [apply Z.div_pos; lia|]. apply Z.div_lt_upper_bound; lia. }
    destruct (v <? base) eqn:E; breflect.
    + rewrite Z.div_small, Z.mod_small by lia. done.
    + rewrite (proj2 (Z.ltb_lt _ _)) by (apply Z.div_str_pos; lia). rewrite IH; [|done|lia|rewrite length_app; cbn; lia].
      rewrite rev_app_distr, <-app_assoc. done.
Qed.
Lemma digits_max base v : base = 10 \/ base = 16 -> 0 <= v < 2 ^ 64 -> 1 < base /\ 0 <= v < base ^ Z.of_nat (S 19).
Proof. intros [-> | ->] Hv; (split; [lia|]); (split; [lia|]); (eapply Z.lt_le_trans; [apply Hv|]); by vm_compute. Qed.

(** ** Adding text to the buffer *)

Section Text.
Context (m : mem) (b : Z) (n : nat) (Hmap : mapped m b (Z.of_nat n)).
(** The state after the text [o]: as much of it as fits is in the buffer. *)
Definition st_of (o : list Z) : pr := mkPr (write m b (take n o)) (b + Z.of_nat (Nat.min (length o) n)).
Definition adds (f : P Z) (t : list Z) : Prop := forall o, f (st_of o) = Ok (Z.of_nat (length t), st_of (o ++ t)).
Abbreviation e := (b + Z.of_nat n).

Lemma adds_nil : adds (ret 0) [].
Proof. intros o. by rewrite app_nil_r. Qed.
Lemma adds_bind f t1 t2 (k : Z -> P Z) :
  adds f t1 -> (forall o, k (Z.of_nat (length t1)) (st_of (o ++ t1)) = Ok (Z.of_nat (length (t1 ++ t2)), st_of (o ++ t1 ++ t2))) ->
  adds (bind f k) (t1 ++ t2).
Proof. intros H1 H2 o. rewrite (bind_Ok _ _ _ _ _ (H1 o)). apply H2. Qed.
Lemma adds_plus f g t1 t2 : adds f t1 -> adds g t2 -> adds (x <- f ;; y <- g ;; ret (x + y)) (t1 ++ t2).
Proof.
  intros H1 H2. eapply adds_bind; [exact H1|]. intros o. rewrite (bind_Ok _ _ _ _ _ (H2 _)). unfold ret.
  rewrite length_app, <-app_assoc, Nat2Z.inj_add. done.
Qed.
Lemma AppendChar_adds c : adds (AppendChar e c) [u8 c].
Proof.
  intros o. unfold AppendChar. rewrite (bind_Ok (gets p_buff) _ (st_of o) _ _ eq_refl). cbn [p_buff st_of].
  destruct (Nat.lt_ge_cases (length o) n) as [Hl|Hl].
  - rewrite (proj2 (Z.ltb_lt _ _)) by lia. unfold when, on_mem. cbn [p_mem st_of].
    assert (Hs : store (b + Z.of_nat (Nat.min (length o) n)) c (write m b (take n o)) =
      Ok (tt, <[b + Z.of_nat (length o) := u8 c]> (write m b (take n o)))).
    { rewrite Nat.min_l by lia. apply store_Some. eapply write_mapped; [exact Hmap|]. lia. }
    unfold bind, ret, modify. cbn [p_mem st_of]. rewrite Hs. cbn [p_mem p_buff]. do 2 f_equal. unfold st_of. f_equal.
    + rewrite !take_ge by (rewrite ?length_app; cbn; lia). by rewrite write_app.
    + rewrite length_app. cbn [length]. rewrite !Nat.min_l by lia. lia.
  - rewrite (proj2 (Z.ltb_ge _ _)) by lia. unfold when, bind, ret. do 2 f_equal. unfold st_of. f_equal.
    + by rewrite take_app_le by lia.
    + rewrite length_app. rewrite !Nat.min_r by lia. done.
Qed.
Lemma append_digits_adds ds : Forall (fun d => 0 <= d < 16) ds -> adds (append_digits e ds) (digit_char <$> ds).
Proof.
  induction 1 as [|d ds Hd _ IH]; cbn [append_digits fmap list_fmap]; [apply adds_nil|].
  change (?x :: ?r) with ([x] ++ r). apply adds_plus; [|done].
  replace (digit_char d) with (u8 (digit_char d)) at 2; [apply AppendChar_adds|].
  apply wrap_small. unfold digit_char. destruct (d <? 10) eqn:E; breflect; chars; lia.
Qed.
Lemma check_bind {A} c (k : unit -> P A) s : c = true -> bind (raw_check c) k s = k tt s.
Proof. by intros ->. Qed.
(** The leading zeros, of which the last is the number if there is no other digit. *)
Lemma append_lead_zeros (pad : bool) k (ds o : list Z) : (exists d r, ds = d :: r /\ (d = 0 -> r = [])) ->
  let fill := replicate k (if pad then ch "0" else ch " ") in
  exists z r, append_lead e pad (replicate k 0 ++ ds) (st_of o) =
    Ok ((Z.of_nat (length z), r), st_of (o ++ z)) /\
    (r = ds /\ z = fill \/ ds = [0] /\ r = [] /\ z = fill ++ [ch "0"]).
Proof.
  intros (d & r & -> & H0). cbv zeta. revert o. induction k as [|k IH]; intros o; cbn [replicate app append_lead].
  - destruct (Z.eq_dec d 0) as [-> |Hd].
    + rewrite H0 by done. cbn [length]. rewrite orb_true_r. rewrite (bind_Ok _ _ _ _ _ (AppendChar_adds _ o)).
      exists [ch "0"], []. split; [done|by right].
    + exists [], (d :: r). rewrite app_nil_r. split; [by destruct d|by left].
  - replace (pad || _) with pad by (rewrite length_app; cbn; by destruct pad; rewrite ?Nat.add_succ_r).
    set (c := if pad then ch "0" else ch " ").
    rewrite (bind_Ok _ _ _ _ _ (AppendChar_adds c o)). destruct (IH (o ++ [u8 c])) as (z & r' & E & E2).
    exists (c :: z), r'. rewrite (bind_Ok _ _ _ _ _ E). split.
    + unfold ret. cbn [fst snd length]. rewrite <-app_assoc. replace (u8 c) with c by (by unfold c; destruct pad).
      do 3 f_equal. cbn [length]. lia.
    + destruct E2 as [[-> ->]|(? & -> & ->)]; [by left|by right].
Qed.

Lemma opt_sign (c : bool) : adds (if c then AppendChar e (ch "-") else ret 0) (if c then [ch "-"] else []).
Proof. destruct c; [apply (AppendChar_adds (ch "-"))|apply adds_nil]. Qed.
Lemma digits_shape base v : base = 10 \/ base = 16 -> 0 <= v < 2 ^ 64 ->
  Forall (fun d => 0 <= d < 16) (digits base v) /\ (1 <= length (digits base v) <= 20)%nat /\
  (exists d r, digits base v = d :: r /\ (d = 0 -> r = [])) /\ (0 < v -> digits base v <> [0]).
Proof.
  intros Hb Hv. destruct (digits_max base v Hb Hv) as [H1 H2]. unfold digits.
  rewrite (to_digits_fuel base 19 H1 64 19 v H2) by lia. split_and!.
  - eapply list.Forall_impl; [by apply to_digits_range|]. cbn. lia.
  - apply to_digits_length with (k := 19%nat); auto.
  - apply to_digits_length with (k := 19%nat); auto.
  - destruct (Z.eq_dec v 0) as [-> |Hn].
    + exists 0, []. cbn [to_digits]. by rewrite (proj2 (Z.ltb_lt 0 base)) by lia.
    + destruct (to_digits_head base H1 19 v) as (d & r & -> & Hd); [lia|]. exists d, r. split; [done|lia].
  - intros Hn. destruct (to_digits_head base H1 19 v) as (d & r & -> & Hd); [lia|]. injection. lia.
Qed.
Lemma AppendNumber_adds base v w pad neg :
  base = 10 \/ base = 16 -> 0 <= v < 2 ^ 64 -> (neg = true -> base = 10 /\ 0 < v) -> 0 <= w < 30 ->
  adds (AppendNumber e v base w pad neg) (number_text base v (Z.to_nat w) pad neg).
Proof.
  intros Hb Hv Hneg Hw o. destruct (digits_shape base v Hb Hv) as (Hrg & Hlen & Hhd & Hnz).
  destruct (digits_max base v Hb Hv) as [H1 H2]. unfold AppendNumber.
  rewrite check_bind by (destruct Hb; by subst).
  rewrite check_bind by (destruct neg; [by destruct (Hneg eq_refl) as [-> _]|by rewrite orb_true_r]).
  rewrite check_bind by (destruct neg; [destruct (Hneg eq_refl); by rewrite (proj2 (Z.eqb_neq v 0)) by lia|by rewrite orb_true_r]).
  rewrite check_bind by (apply Z.ltb_lt; change (Z.of_nat kMaxLen) with 30; lia). cbv zeta.
  set (w' := if neg && negb (w =? 0) then w - 1 else w).
  assert (Ew : Z.to_nat w' = if neg then (Z.to_nat w - 1)%nat else Z.to_nat w).
  { unfold w'. destruct neg; cbn; [|done]. destruct (w =? 0) eqn:E; breflect; cbn; lia. }
  rewrite (bind_Ok _ _ _ _ _ (opt_sign (neg && pad) o)).
  rewrite (bind_Ok _ _ _ _ _ (digits_loop_spec base 19 _ H1 (S kMaxLen) [] v H2 ltac:(unfold kMaxLen; lia) ltac:(unfold kMaxLen; cbn [length]; lia))).
  cbn [app]. rewrite (to_digits_fuel base 19 H1 19 64 v H2) by lia. change (to_digits 64 base v) with (digits base v).
  set (ds := digits base v) in *. rewrite rev_app_distr, rev_involutive, length_rev, (rev_alt (replicate _ 0)).
  change (rev_append (replicate ?k 0) []) with (reverse (replicate k 0)). rewrite reverse_replicate, Ew.
  unfold number_text. fold ds. rewrite length_fmap. set (k := (_ - length ds)%nat).
  destruct (append_lead_zeros pad k ds (o ++ (if neg && pad then [ch "-"] else [])) Hhd) as (z & r & E1 & E2).
  rewrite (bind_Ok _ _ _ _ _ E1). cbn [fst snd].
  rewrite (bind_Ok _ _ _ _ _ (opt_sign (neg && negb pad) _)).
  assert (Hr : Forall (fun d => 0 <= d < 16) r) by (destruct E2 as [[-> _]|(_ & -> & _)]; [done|constructor]).
  rewrite (bind_Ok _ _ _ _ _ (append_digits_adds r Hr _)). unfold ret.
  assert (E3 : neg = true -> r = ds /\ z = replicate k (if pad then ch "0" else ch " ")).
  { intros En. destruct E2 as [E2|(E0 & _)]; [done|]. destruct (Hneg En) as [_ Hp]. by apply Hnz in Hp. }
  destruct neg; cbn [andb].
  - destruct (E3 eq_refl) as [-> ->]. destruct pad; cbn [negb app length]; do 3 f_equal; rewrite <-?app_assoc; cbn [app];
      rewrite ?length_app; cbn [length]; rewrite ?length_app; done || lia.
  - destruct pad; cbn [app length]; rewrite !app_nil_r; destruct E2 as [[-> ->]|(E0 & -> & ->)]; rewrite ?E0; cbn [fmap list_fmap];
      rewrite <-?app_assoc, ?app_nil_r; do 3 f_equal; rewrite ?length_app; cbn [length]; try done; lia.
Qed.

(** Reading outside the buffer. *)
Definition live (a : Z) : Prop := ~ (b <= a < e).
Lemma live_mem o a : live a -> p_mem (st_of o) !! a = m !! a.
Proof.
  intros Ha. cbn. apply write_other. rewrite length_take. unfold live in Ha. lia.
Qed.
Lemma live_loadc o a x : live a -> m !! a = Some x -> on_mem (loadc a) (st_of o) = Ok (s8 x, st_of o).
Proof. intros Ha Hx. unfold on_mem. by rewrite (loadc_Some _ _ x) by (rewrite live_mem; done). Qed.
Lemma u8_s8 x : 0 <= x < 256 -> u8 (s8 x) = x.
Proof.
  intros Hx. unfold s8, signed. rewrite (wrap_small 8 x) by lia. change (2 ^ (8 - 1)) with 128.
  destruct (x <? 128) eqn:E; breflect; [by apply wrap_small|]. unfold u8, wrap. rewrite <-(Z_mod_plus_full _ 1).
  rewrite Z.mod_small; lia.
Qed.

(** What a precision leaves of a string of which [r] characters are printed. *)
Definition rest_of (precision r : Z) (l : list Z) : list Z :=
  if 0 <=? precision then take (Z.to_nat (precision - r)) l else l.
Lemma rest_of_cut k l : rest_of k 0 l = cut k l.
Proof. unfold rest_of, cut. by rewrite Z.sub_0_r. Qed.
Lemma rest_of_cons k r x l : 0 <= r ->
  rest_of k r (x :: l) = if (0 <=? k) && (k <=? r) then [] else x :: rest_of k (r + 1) l.
Proof.
  intros Hr. unfold rest_of. destruct (0 <=? k) eqn:E0, (k <=? r) eqn:E1; breflect; cbn [andb]; try done.
  - replace (Z.to_nat (k - r)) with 0%nat by lia. done.
  - replace (Z.to_nat (k - r)) with (S (Z.to_nat (k - (r + 1)))) by lia. done.
Qed.
Lemma literal_loop_spec k l : Forall (fun c => 0 <= c < 256) l -> forall r o, 0 <= r -> r + Z.of_nat (length l) < 2 ^ 31 ->
  literal_loop e k l r (st_of o) = Ok (r + Z.of_nat (length (rest_of k r l)), st_of (o ++ rest_of k r l)).
Proof.
  induction 1 as [|c l Hc _ IH]; intros r o Hr Hl; cbn [literal_loop].
  - unfold rest_of. rewrite take_nil. destruct (0 <=? k); by rewrite app_nil_r, Z.add_0_r.
  - rewrite rest_of_cons by done. cbn [length] in Hl. case_match; [by rewrite app_nil_r, Z.add_0_r|].
    rewrite (bind_Ok _ _ _ _ _ (AppendChar_adds c o)). change (Z.of_nat (length [u8 c])) with 1.
    rewrite s32_small, IH by lia. unfold u8 at 1. rewrite wrap_small by (change (2 ^ 8) with 256; lia).
    rewrite <-app_assoc. do 2 f_equal. cbn [length]. lia.
Qed.
Lemma string_loop_spec k l : Forall (fun c => 0 < c < 256) l -> forall fuel p r o, (length l < fuel)%nat ->
  bytes_at m p (l ++ [0]) -> (forall i, (i <= length l)%nat -> live (p + Z.of_nat i)) ->
  0 <= r -> r + Z.of_nat (length l) < 2 ^ 31 ->
  string_loop fuel e k p r (st_of o) = Ok (r + Z.of_nat (length (rest_of k r l)), st_of (o ++ rest_of k r l)).
Proof.
  induction 1 as [|c l Hc _ IH]; intros fuel p r o Hf Hb Hlv Hr Hl; (destruct fuel as [|fuel]; [lia|]); cbn [string_loop];
    apply bytes_at_cons in Hb as [H0 Hb]; pose proof (Hlv 0%nat ltac:(lia)) as L0; rewrite Z.add_0_r in L0;
    rewrite (bind_Ok _ _ _ _ _ (live_loadc o p _ L0 H0)).
  - unfold rest_of. rewrite take_nil. destruct (0 <=? k); by rewrite app_nil_r, Z.add_0_r.
  - rewrite (proj2 (Z.eqb_neq (s8 c) 0)) by (rewrite s8_zero; lia). rewrite rest_of_cons by done. cbn [length] in *.
    case_match; [by rewrite app_nil_r, Z.add_0_r|].
    rewrite (bind_Ok _ _ _ _ _ (AppendChar_adds _ o)). change (Z.of_nat (length [u8 (s8 c)])) with 1.
    rewrite s32_small by lia. rewrite IH; [|lia|done| |lia|lia].
    + rewrite u8_s8 by lia. rewrite <-app_assoc. do 2 f_equal. cbn [length]. lia.
    + intros i Hi. replace (p + 1 + Z.of_nat i) with (p + Z.of_nat (S i)) by lia. apply Hlv. lia.
Qed.
Lemma live_size p l o : bytes_at m p l -> (forall i, (i < length l)%nat -> live (p + Z.of_nat i)) ->
  (length l <= size (p_mem (st_of o)))%nat.
Proof.
  intros Hb Hl. apply bytes_at_size with (a := p). intros i x E. rewrite live_mem; [by apply Hb|].
  apply Hl. by eapply lookup_lt_Some.
Qed.
Lemma AppendString_adds k p l : p <> 0 -> cstr m p l -> (forall i, (i <= length l)%nat -> live (p + Z.of_nat i)) ->
  Z.of_nat (length l) < 2 ^ 31 -> adds (AppendString e k p) (cut k l).
Proof.
  intros Hp [Hb Hl] Hlv Hn o. unfold AppendString. rewrite (proj2 (Z.eqb_neq p 0)) by done.
  rewrite (string_loop_spec k l Hl), rest_of_cut; try done; try lia.
  pose proof (live_size p (l ++ [0]) o Hb) as Hs. rewrite length_app in Hs. cbn [length] in Hs.
  assert (forall i, (i < length l + 1)%nat -> live (p + Z.of_nat i)) by (intros; apply Hlv; lia). specialize (Hs H). lia.
Qed.
Lemma AppendString_null k : adds (AppendString e k 0) (cut k (text "<null>")).
Proof.
  intros o. unfold AppendString. cbn [Z.eqb]. rewrite literal_loop_spec, rest_of_cut; try done.
  by apply (bool_decide_eq_true_1 (Forall (fun c => 0 <= c < 256) (text "<null>"))).
Qed.
Lemma AppendPointer_adds v : 0 <= v < 2 ^ 64 -> adds (AppendPointer e v) (text "0x" ++ number_text 16 v 12 true false).
Proof.
  intros Hv. unfold AppendPointer. apply adds_plus; [|by apply (AppendNumber_adds 16 v 12 true false); auto; lia].
  intros o. rewrite literal_loop_spec; try done.
  by apply (bool_decide_eq_true_1 (Forall (fun c => 0 <= c < 256) (text "0x"))).
Qed.

(** The text [l] of the format is at [p]. *)
Definition reads (p : Z) (l : list Z) : Prop :=
  bytes_at m p l /\ forall i, (i < length l)%nat -> live (p + Z.of_nat i).
Lemma reads_cons p x l : reads p (x :: l) ->
  (forall o, on_mem (loadc p) (st_of o) = Ok (s8 x, st_of o)) /\ reads (p + 1) l.
Proof.
  intros [Hb Hl]. apply bytes_at_cons in Hb as [H0 Hb]. cbn [length] in Hl. split.
  - intros o. apply live_loadc; [|done]. rewrite <-(Z.add_0_r p). by apply (Hl 0%nat); lia.
  - split; [done|]. intros i Hi. replace (p + 1 + Z.of_nat i) with (p + Z.of_nat (S i)) by lia. apply Hl. lia.
Qed.
Lemma reads_app p l1 l2 : reads p (l1 ++ l2) -> reads (p + Z.of_nat (length l1)) l2.
Proof.
  intros [Hb Hl]. apply bytes_at_app in Hb as [_ Hb]. rewrite length_app in Hl. split; [done|].
  intros i Hi. replace (p + Z.of_nat (length l1) + Z.of_nat i) with (p + Z.of_nat (length l1 + i)) by lia. apply Hl. lia.
Qed.
Lemma reads_size p l o : reads p l -> (length l <= size (p_mem (st_of o)))%nat.
Proof. intros [Hb Hl]. by eapply live_size. Qed.

Lemma dec_le wd : Forall (fun d => IsDigit d = true) wd -> forall v, 0 <= v ->
  v <= fold_left (fun acc d => acc * 10 + (d - 48)) wd v.
Proof.
  induction 1 as [|d wd Hd _ IH]; intros v Hv; cbn [fold_left]; [done|]. unfold IsDigit in Hd. breflect.
  etransitivity; [|apply IH]; lia.
Qed.
Lemma width_loop_spec t0 tl wd : Forall (fun d => IsDigit d = true) wd -> IsDigit (s8 t0) = false ->
  forall fuel cur w o, (length wd < fuel)%nat -> reads cur (wd ++ t0 :: tl) -> 0 <= w ->
  fold_left (fun acc d => acc * 10 + (d - 48)) wd w < 2 ^ 31 ->
  width_loop fuel cur w (st_of o) =
    Ok ((cur + Z.of_nat (length wd), fold_left (fun acc d => acc * 10 + (d - 48)) wd w), st_of o).
Proof.
  intros Hwd H0. induction Hwd as [|d wd Hd Hwd IH]; intros fuel cur w o Hf Hr Hw Hlt; (destruct fuel as [|fuel]; [lia|]);
    cbn [width_loop app] in *; apply reads_cons in Hr as [Hc Hr]; rewrite (bind_Ok _ _ _ _ _ (Hc o)).
  - rewrite H0, Z.add_0_r. done.
  - pose proof Hd as Hd'. unfold IsDigit in Hd'. breflect. rewrite s8_id by lia. rewrite Hd. cbn [fold_left length] in *.
    change (ch "0") with 48. replace (w * 10 + d - 48) with (w * 10 + (d - 48)) by lia.
    pose proof (dec_le wd Hwd (w * 10 + (d - 48)) ltac:(lia)).
    rewrite s32_small, IH by (done || lia). do 3 f_equal. lia.
Qed.
Lemma parse_width_spec t0 tl wd cur o : forallb IsDigit wd = true -> dec_value wd < 30 -> IsDigit (s8 t0) = false ->
  reads cur (wd ++ t0 :: tl) ->
  parse_width cur (st_of o) =
    Ok ((negb (bool_decide (wd = [])), pads wd, cur + Z.of_nat (length wd), dec_value wd), st_of o).
Proof.
  intros Hwd Hdv H0 Hr. unfold parse_width.
  assert (Hf : Forall (fun d => IsDigit d = true) wd).
  { apply list.Forall_forall. intros x Hx. apply forallb_forall with (x := x) in Hwd; [done|]. by apply list_elem_of_In. }
  pose proof (reads_size _ _ o Hr) as Hs. rewrite length_app in Hs. cbn [length] in Hs.
  destruct wd as [|d wd]; cbn [app] in Hr; apply reads_cons in Hr as Hc; destruct Hc as [Hc _];
    rewrite (bind_Ok _ _ _ _ _ (Hc o)).
  - rewrite H0. unfold bind, ret. cbn. rewrite Z.add_0_r. rewrite (proj2 (Z.eqb_neq _ _)); [done|].
    intros E. rewrite E in H0. done.
  - pose proof (Forall_inv Hf) as Hd. pose proof Hd as Hd'. unfold IsDigit in Hd'. breflect. rewrite s8_id, Hd by lia.
    erewrite bind_Ok; [|apply (width_loop_spec t0 tl (d :: wd) Hf H0 (S (size (p_mem (st_of o)))) _ 0 o);
      [cbn [length] in *; lia|exact Hr|lia|unfold dec_value in *; lia]].
    done.
Qed.
Lemma parse_precision_spec t0 tl (prec : bool) k cur o args : (prec = false -> s8 t0 <> ch ".") ->
  reads cur ((if prec then text ".*" else []) ++ t0 :: tl) ->
  parse_precision cur (if prec then k :: args else args) (st_of o) =
    Ok ((cur + (if prec then 2 else 0), if prec then s32 k else -1, args), st_of o).
Proof.
  intros H0 Hr. unfold parse_precision. destruct prec; apply reads_cons in Hr as [Hc Hr]; rewrite (bind_Ok _ _ _ _ _ (Hc o)).
  - apply reads_cons in Hr as [Hc1 _]. change (s8 (ch ".") =? ch ".") with true. unfold and_then.
    rewrite (bind_Ok _ _ (st_of o) true (st_of o)); [done|]. by rewrite (bind_Ok _ _ _ _ _ (Hc1 o)).
  - rewrite (proj2 (Z.eqb_neq _ _)) by auto. unfold and_then, bind, ret. by rewrite Z.add_0_r.
Qed.
Lemma parse_size_spec t0 tl sz cur o : (sz = SizeInt -> s8 t0 <> ch "z" /\ s8 t0 <> ch "l") ->
  reads cur (size_text sz ++ t0 :: tl) ->
  parse_size cur (st_of o) =
    Ok ((cur + Z.of_nat (length (size_text sz)), match sz with SizeZ => true | _ => false end,
         match sz with SizeLL => true | _ => false end), st_of o).
Proof.
  intros H0 Hr. unfold parse_size. destruct sz; apply reads_cons in Hr as [Hc Hr]; rewrite (bind_Ok _ _ _ _ _ (Hc o)); cbv zeta.
  - destruct (H0 eq_refl). rewrite !(proj2 (Z.eqb_neq _ _)) by done. unfold and_then, bind, ret. cbn. by rewrite Z.add_0_r.
  - done.
  - apply reads_cons in Hr as [Hc1 _]. change (s8 (ch "l") =? ch "z") with false. change (s8 (ch "l") =? ch "l") with true.
    cbv iota. unfold and_then. rewrite (bind_Ok _ _ (st_of o) true (st_of o)); [done|]. by rewrite (bind_Ok _ _ _ _ _ (Hc1 o)).
Qed.

Lemma signed_bounds w z : 0 < w -> - 2 ^ (w - 1) <= signed w z < 2 ^ (w - 1).
Proof.
  intros Hw. unfold signed. pose proof (wrap_range w z ltac:(lia)).
  replace (2 ^ w) with (2 * 2 ^ (w - 1)) in * by (rewrite <-Z.pow_succ_r by lia; f_equal; lia).
  case_match; breflect; lia.
Qed.
Lemma AppendSignedDecimal_adds v w pad : - 2 ^ 63 <= v < 2 ^ 63 -> 0 <= w < 30 ->
  adds (AppendSignedDecimal e v w pad) (signed_text v (Z.to_nat w) pad).
Proof.
  intros Hv Hw. unfold AppendSignedDecimal, signed_text. cbv zeta.
  replace (u64 (if v <? 0 then - v else v)) with (Z.abs v).
  - apply AppendNumber_adds; [by left|lia| |done]. intros E. breflect. lia.
  - destruct (v <? 0) eqn:E; breflect; rewrite u64_small; lia.
Qed.
Lemma dec_width wd : forallb IsDigit wd = true -> dec_value wd < 30 -> u8 (dec_value wd) = dec_value wd /\ 0 <= dec_value wd < 30.
Proof.
  intros Hd Hlt. assert (0 <= dec_value wd).
  { apply dec_value_nonneg; [done|]. apply list.Forall_forall. intros x Hx.
    apply forallb_forall with (x := x) in Hd; [done|]. by apply list_elem_of_In. }
  split; [|lia]. apply wrap_small. change (2 ^ 8) with 256. lia.
Qed.

Lemma u8_s32 a : u8 (s32 a) = u8 a.
Proof.
  unfold u8, s32, signed, wrap. replace (2 ^ 32) with (2 ^ 8 * 2 ^ 24) by done. case_match.
  - rewrite Z.rem_mul_r, Z.add_mod, Z.mul_comm, Z_mod_mult, Z.add_0_r, !Z.mod_mod; done.
  - replace (_ - _) with (a mod (2 ^ 8 * 2 ^ 24) + (- 2 ^ 24) * 2 ^ 8) by lia.
    rewrite Z_mod_plus_full, Z.rem_mul_r, Z.add_mod, Z.mul_comm, Z_mod_mult, Z.add_0_r, !Z.mod_mod; done.
Qed.

Lemma wide_arg (sz : arg_size) (x y : Z) :
  (if match sz with SizeLL => true | _ => false end || match sz with SizeZ => true | _ => false end then x else y) =
  match sz with SizeInt => y | _ => x end.
Proof. by destruct sz. Qed.
Lemma arg_signed_range sz a : - 2 ^ 63 <= arg_signed sz a < 2 ^ 63.
Proof.
  pose proof (signed_bounds 32 a ltac:(lia)). pose proof (signed_bounds 64 a ltac:(lia)).
  destruct sz; unfold arg_signed, s32, s64; cbn in *; lia.
Qed.
Lemma arg_unsigned_range sz a : 0 <= arg_unsigned sz a < 2 ^ 64.
Proof.
  pose proof (wrap_range 32 a ltac:(lia)). pose proof (wrap_range 64 a ltac:(lia)).
  destruct sz; unfold arg_unsigned, u32, u64; lia.
Qed.

(** *** One conversion *)

Definition no_precision (prec : bool) (k : Z) : Z := if prec then s32 k else -1.
Definition head_of (cur : Z) (wd : list Z) (prec : bool) (k : Z) (sz : arg_size) : spec_head :=
  let z := match sz with SizeZ => true | _ => false end in
  let ll := match sz with SizeLL => true | _ => false end in
  mkHead (cur + Z.of_nat (length (wd ++ (if prec then text ".*" else []) ++ size_text sz)))
    (pads wd) (dec_value wd) (no_precision prec k) z ll (negb (bool_decide (wd = [])) || z || ll).
Lemma parse_head_spec wd (prec : bool) k sz c tl cur args o :
  forallb IsDigit wd = true -> dec_value wd < 30 ->
  reads cur (wd ++ (if prec then text ".*" else []) ++ size_text sz ++ conv_char c :: tl) ->
  parse_head cur (if prec then k :: args else args) (st_of o) = Ok ((head_of cur wd prec k sz, args), st_of o).
Proof.
  intros Hd Hlt Hr. unfold parse_head.
  assert (T2 : exists t0 t, size_text sz ++ conv_char c :: tl = t0 :: t /\ s8 t0 <> ch ".")
    by (destruct sz, c; by do 2 eexists).
  assert (T1 : exists t0 t, (if prec then text ".*" else []) ++ size_text sz ++ conv_char c :: tl = t0 :: t /\
    IsDigit (s8 t0) = false) by (destruct prec, sz, c; by do 2 eexists).
  destruct T1 as (t1 & l1 & E1 & D1). pose proof Hr as Hr1. rewrite E1 in Hr1.
  rewrite (bind_Ok _ _ _ _ _ (parse_width_spec t1 l1 wd cur o Hd Hlt D1 Hr1)). cbv beta iota.
  apply reads_app in Hr. destruct T2 as (t2 & l2 & E2 & D2). pose proof Hr as Hr2. rewrite E2 in Hr2.
  rewrite (bind_Ok _ _ _ _ _ (parse_precision_spec t2 l2 prec k _ o args (fun _ => D2) Hr2)). cbv beta iota.
  apply reads_app in Hr.
  assert (D3 : sz = SizeInt -> s8 (conv_char c) <> ch "z" /\ s8 (conv_char c) <> ch "l") by (intros _; by destruct c).
  replace (if prec then 2 else 0) with (Z.of_nat (length (if prec then text ".*" else []))) by (by destruct prec).
  rewrite (bind_Ok _ _ _ _ _ (parse_size_spec _ _ sz _ o D3 Hr)). cbv beta iota. unfold ret, head_of, no_precision.
  do 4 f_equal. rewrite !length_app. lia.
Qed.
(** The bind after a read of the conversion. *)
Lemma conv_read wd (prec : bool) sz c tl cur o :
  reads cur (wd ++ (if prec then text ".*" else []) ++ size_text sz ++ conv_char c :: tl) ->
  forall k, on_mem (loadc (h_cur (head_of cur wd prec k sz))) (st_of o) = Ok (conv_char c, st_of o).
Proof.
  intros Hr k. rewrite !app_assoc in Hr. apply reads_app, reads_cons in Hr as [Hc _]. rewrite <-app_assoc in Hc.
  unfold head_of. cbn [h_cur]. rewrite Hc. by destruct c.
Qed.
Lemma no_flags_eq wd sz : no_flags wd sz = true -> wd = [] /\ sz = SizeInt.
Proof. by destruct wd, sz. Qed.
Lemma adds_args {A} (f : P Z) t (a : A) o : adds f t ->
  (r <- f ;; ret (r, a)) (st_of o) = Ok ((Z.of_nat (length t), a), st_of (o ++ t)).
Proof. intros H. by rewrite (bind_Ok _ _ _ _ _ (H o)). Qed.

Lemma convert_spec i args t args' : prints m live i args t args' -> forall wd prec sz c cur tl o,
  i = Conv wd prec sz c -> item_ok i = true ->
  reads cur (wd ++ (if prec then text ".*" else []) ++ size_text sz ++ conv_char c :: tl) ->
  exists k args1, args = (if prec then k :: args1 else args1) /\
    convert e (head_of cur wd prec k sz) args1 (st_of o) = Ok ((Z.of_nat (length t), args'), st_of (o ++ t)).
Proof.
  intros Hp wd prec sz c cur tl o Ei Hok Hr. pose proof (conv_read _ _ _ _ _ _ o Hr) as Hc. unfold convert.
  assert (Hwd : forallb IsDigit wd = true /\ dec_value wd < 30) by (rewrite Ei in Hok; unfold item_ok in Hok; breflect; done).
  destruct Hwd as [Hwd Hlt]. destruct (dec_width wd Hwd Hlt) as [E8 Hw].
  destruct Hp as [| | | | | | | | |p l args Hp Hs Hl Hlv|k p l args Hp Hs Hl Hlv]; try discriminate Ei; injection Ei as <- <- <- <-;
    (first [exists 0; eexists; split; [reflexivity|]|eexists _, _; split; [reflexivity|]]); rewrite (bind_Ok _ _ _ _ _ (Hc _));
    cbn [conv_char h_precision head_of no_precision h_ll h_z h_flags h_width h_pad]; chars; cbn [Z.eqb Pos.eqb andb orb negb Z.leb Z.compare].
  all: try (rewrite check_bind by done); try (erewrite bind_Ok; [|reflexivity]); cbn [fst snd]; rewrite ?E8, ?andb_false_r.
  - apply adds_args. rewrite wide_arg. apply AppendSignedDecimal_adds; [|done]. apply arg_signed_range.
  - apply adds_args. rewrite wide_arg. apply AppendNumber_adds; [by left|apply arg_unsigned_range|done|done].
  - apply adds_args. rewrite wide_arg. apply AppendNumber_adds; [by right|apply arg_unsigned_range|done|done].
  - apply adds_args, AppendPointer_adds, wrap_range. lia.
  - rewrite <-(u8_s32 a). apply adds_args, AppendChar_adds.
  - apply adds_args, (AppendChar_adds (ch "%")).
  - rewrite u64_small by lia. apply adds_args, (AppendString_null (-1)).
  - rewrite check_bind by done. erewrite bind_Ok; [|reflexivity]. cbn [fst snd]. rewrite u64_small by lia. apply adds_args, AppendString_null.
  - rewrite u64_small by lia. apply adds_args, (AppendString_adds (-1)); try done. lia.
  - rewrite check_bind by done. erewrite bind_Ok; [|reflexivity]. cbn [fst snd]. rewrite u64_small by lia. apply adds_args, AppendString_adds; try done. lia.
Qed.

(** *** The format *)

Lemma format_loop_spec items args t : prints_all m live items args t -> forall fuel cur o r,
  Forall (fun i => item_ok i = true) items -> (length items < fuel)%nat -> reads cur (format_text items ++ [0]) ->
  0 <= r -> r + Z.of_nat (length t) < 2 ^ 31 ->
  format_loop fuel e cur args r (st_of o) = Ok (r + Z.of_nat (length t), st_of (o ++ t)).
Proof.
  induction 1 as [args|i items args t args' t' Hp _ IH]; intros fuel cur o r Hok Hf Hr H0 Hl;
    (destruct fuel as [|fuel]; [lia|]); cbn [format_loop].
  { apply reads_cons in Hr as [Hc _]. rewrite (bind_Ok _ _ _ _ _ (Hc o)). cbn. by rewrite app_nil_r, Z.add_0_r. }
  inversion Hok as [|? ? Hi Hok']; subst. unfold format_text in Hr. cbn [fmap list_fmap concat] in Hr. rewrite <-app_assoc in Hr.
  rewrite length_app in Hl. cbn [length] in Hf.
  assert (Hgo : forall cur' k, reads cur' (format_text items ++ [0]) -> k = Z.of_nat (length t) ->
    format_loop fuel e cur' args' (s32 (r + k)) (st_of (o ++ t)) = Ok (r + Z.of_nat (length (t ++ t')), st_of (o ++ t ++ t'))).
  { intros cur' k Hr' ->. rewrite s32_small by lia. rewrite IH, <-app_assoc, length_app by (done || lia). do 2 f_equal. lia. }
  destruct i as [c|wd prec sz c].
  - inversion Hp; subst. cbn [item_text app] in Hr. apply reads_cons in Hr as [Hc Hr]. rewrite (bind_Ok _ _ _ _ _ (Hc o)).
    cbn [item_ok] in Hi. breflect. rewrite (proj2 (Z.eqb_neq (s8 c) 0)) by (rewrite s8_zero; lia).
    rewrite (proj2 (Z.eqb_neq (s8 c) _)).
    2: { intros E. apply (s8_inj c (ch "%")) in E; [done|lia|done]. }
    cbn [negb]. rewrite (bind_Ok _ _ _ _ _ (AppendChar_adds _ o)), u8_s8 by lia. by apply Hgo.
  - cbn [item_text app] in Hr. apply reads_cons in Hr as [Hc Hr]. rewrite (bind_Ok _ _ _ _ _ (Hc o)).
    change (s8 (ch "%") =? 0) with false. change (negb (s8 (ch "%") =? ch "%")) with false. cbv iota.
    pose proof Hr as Hr'. rewrite <-!app_assoc in Hr. cbn [app] in Hr.
    destruct (convert_spec _ _ _ _ Hp wd prec sz c (cur + 1) _ o eq_refl Hi Hr) as (k & args1 & -> & Ec).
    cbn [item_ok] in Hi. breflect.
    rewrite (bind_Ok _ _ _ _ _ (parse_head_spec wd prec k sz c _ _ args1 o ltac:(done) ltac:(done) Hr)). cbn [fst snd].
    rewrite (bind_Ok _ _ _ _ _ Ec). cbn [fst snd]. apply Hgo; [|done]. apply reads_app in Hr'.
    replace (h_cur _ + 1) with (cur + 1 + Z.of_nat (length (wd ++ (if prec then text ".*" else []) ++ size_text sz ++ [conv_char c])));
      [done|]. unfold head_of. cbn [h_cur]. rewrite !length_app. cbn [length]. lia.
Qed.
End Text.

Lemma item_text_length i : (1 <= length (item_text i))%nat.
Proof. destruct i; cbn; lia. Qed.
Lemma format_length items : (length items <= length (format_text items))%nat.
Proof.
  induction items as [|i items IH]; [done|]. unfold format_text in *. cbn [fmap list_fmap concat length].
  rewrite length_app. pose proof (item_text_length i). lia.
Qed.

(** C37: formatting into a buffer of [n + 1] bytes prints what the format asks for: the
    answer is the length of the whole text, the buffer holds as much of the text as fits
    and a terminator, and no other byte of memory is changed. *)
Theorem VSNPrintf_correct m buff n format items args t :
  mapped m buff (Z.of_nat n + 1) -> format <> 0 ->
  Forall (fun i => item_ok i = true) items -> cstr m format (format_text items) ->
  (forall i, (i <= length (format_text items))%nat -> live buff n (format + Z.of_nat i)) ->
  prints_all m (live buff n) items args t -> Z.of_nat (length t) < 2 ^ 31 ->
  VSNPrintf buff (Z.of_nat n + 1) format args m = Ok (Z.of_nat (length t), write m buff (take n t ++ [0])).
Proof.
  intros Hmap Hf Hok [Hb _] Hlv Hp Hl. unfold VSNPrintf. cbv zeta.
  assert (Hm : mapped m buff (Z.of_nat n)) by (intros x Hx; apply Hmap; lia).
  assert (Hr : reads m buff n format (format_text items ++ [0])).
  { split; [done|]. rewrite length_app. cbn [length]. intros i Hi. apply Hlv. lia. }
  rewrite check_bind by (by rewrite (proj2 (Z.eqb_neq _ _))). rewrite check_bind by (apply Z.ltb_lt; lia).
  replace (mkPr m buff) with (st_of m buff n []) by (unfold st_of; rewrite take_nil; cbn; by rewrite Z.add_0_r).
  replace (buff + (Z.of_nat n + 1) - 1) with (buff + Z.of_nat n) by lia.
  erewrite bind_Ok.
  2: { apply (format_loop_spec m buff n Hm items args t Hp); try done.
       pose proof (reads_size m buff n _ _ [] Hr) as Hs. rewrite length_app in Hs. cbn [length] in Hs.
       pose proof (format_length items). lia. }
  cbn [app Z.add]. rewrite (bind_Ok (gets p_buff) _ _ _ _ eq_refl). cbn [p_buff st_of].
  rewrite check_bind by (apply Z.leb_le; lia). unfold AppendChar.
  rewrite <-bind_assoc, (bind_Ok (gets p_buff) _ _ _ _ eq_refl). cbn [p_buff st_of].
  rewrite (proj2 (Z.ltb_lt _ _)) by lia. unfold when, on_mem, bind, ret, modify. cbn [p_mem st_of].
  rewrite store_Some; [|apply write_mapped with (b := buff) (n := Z.of_nat n + 1); [done|lia]].
  cbn [p_mem]. rewrite write_app, length_take. cbn [write]. change (u8 0) with 0. by rewrite Nat.min_comm.
Qed.

(** ** Any format

    Whatever the format and the arguments are, only the buffer is written, and the
    formatter ends. *)

Record inside (lo hi : Z) (s s' : pr) : Prop := mkInside {
  in_ptr : lo <= p_buff s -> lo <= p_buff s';
  in_mem : lo <= p_buff s -> forall a, ~ (lo <= a < hi) -> p_mem s' !! a = p_mem s !! a;
  in_dom : dom (p_mem s') = dom (p_mem s)
}.
#[export] Instance inside_preorder lo hi : PreOrder (inside lo hi).
Proof.
  split.
  - intros s. by split.
  - intros s1 s2 s3 [P1 M1 D1] [P2 M2 D2]. split; [tauto| |congruence].
    intros H a Ha. rewrite M2 by tauto. by apply M1.
Qed.
(** A computation that ends, and only touches the buffer. *)
Definition tame (lo hi : Z) {A} (f : P A) : Prop := always (inside lo hi) f /\ forall s, f s <> Fault OutOfFuel.

Section Tame.
Context (lo hi : Z).
Abbreviation ok := (tame lo hi).
Lemma tame_ret {A} (a : A) : ok (ret a).
Proof. split; [apply always_ret, _|done]. Qed.
Lemma tame_fail {A} x : x <> OutOfFuel -> ok (fail (A := A) x).
Proof. intros H. split; [apply always_fail|]. intros s [=]. done. Qed.
Lemma tame_gets {A} (f : pr -> A) : ok (gets f).
Proof. split; [apply always_gets, _|done]. Qed.
Lemma tame_bind {A B} (f : P A) (k : A -> P B) : ok f -> (forall a, ok (k a)) -> ok (bind f k).
Proof.
  intros [F1 F2] K. split; [apply always_bind; [exact _|done|apply K]|]. intros s. unfold bind.
  specialize (F2 s). destruct (f s) as [[a s']|x]; [apply K|congruence].
Qed.
Lemma tame_if {A} (c : bool) (f g : P A) : ok f -> ok g -> ok (if c then f else g).
Proof. by destruct c. Qed.
Lemma tame_check c : ok (raw_check c).
Proof. apply tame_if; [apply tame_ret|by apply tame_fail]. Qed.
Lemma tame_loadc a : ok (on_mem (loadc a)).
Proof.
  split.
  - intros s x s'. unfold on_mem, loadc, load, bind. destruct (p_mem s !! a); [|done]. intros [= <- <-]. by split.
  - intros s. unfold on_mem, loadc, load, bind. by destruct (p_mem s !! a).
Qed.
Lemma tame_va_arg args : ok (va_arg args).
Proof. destruct args; [by apply tame_fail|apply tame_ret]. Qed.
Lemma tame_AppendChar e c : e <= hi -> ok (AppendChar e c).
Proof.
  intros He. unfold AppendChar, when, on_mem, store, bind, gets, modify, ret. split.
  - intros s x s'. destruct (p_buff s <? e) eqn:E; breflect; [|intros [= <- <-]; by split].
    destruct (p_mem s !! p_buff s) eqn:Em; [|done]. intros [= <- <-]. split; cbn; [lia| |].
    + intros Hp a Ha. by rewrite lookup_insert_ne by lia.
    + apply dom_insert_lookup_L. by eexists.
  - intros s. destruct (p_buff s <? e); [|done]. by destruct (p_mem s !! p_buff s).
Qed.
End Tame.
Create HintDb tame.
#[export] Hint Resolve tame_ret tame_check tame_gets tame_loadc tame_va_arg tame_AppendChar : tame.
Ltac tame_auto :=
  repeat first
    [ solve [eauto with tame]
    | lazymatch goal with
      | |- tame _ _ (bind _ _) => apply tame_bind; [|intros ?]
      | |- tame _ _ (fail _) => apply tame_fail; discriminate
      | |- tame _ _ (if _ then _ else _) => apply tame_if
      | |- tame _ _ (match ?x with _ => _ end) => destruct x
      end ].

Section Loops.
Context (lo hi : Z) (e : Z) (He : e <= hi).
Abbreviation ok := (tame lo hi).
Lemma tame_digits base fuel : forall nb v, (length nb <= kMaxLen < fuel + length nb)%nat -> ok (digits_loop fuel nb v base).
Proof.
  induction fuel as [|fuel IH]; intros nb v Hl; cbn [digits_loop]; [lia|].
  unfold raw_check. destruct (length nb <? kMaxLen)%nat eqn:E; [|split; [by intros s a s'|done]].
  apply Nat.ltb_lt in E. apply tame_bind; [apply tame_ret|intros _]. apply tame_if; [|apply tame_ret].
  apply IH. rewrite length_app. cbn [length]. lia.
Qed.
Lemma tame_lead pad ds : ok (append_lead e pad ds).
Proof. induction ds as [|[] ds IH]; cbn [append_lead]; tame_auto. Qed.
Lemma tame_append_digits ds : ok (append_digits e ds).
Proof. induction ds as [|d ds IH]; cbn [append_digits]; tame_auto. Qed.
Lemma tame_number v base w pad neg : ok (AppendNumber e v base w pad neg).
Proof.
  unfold AppendNumber. do 4 (apply tame_bind; [apply tame_check|intros _]). cbv zeta.
  apply tame_bind; [tame_auto|intros r0]. apply tame_bind; [apply tame_digits; unfold kMaxLen; cbn; lia|intros nb].
  apply tame_bind; [apply tame_lead|intros x]. apply tame_bind; [tame_auto|intros r1].
  apply tame_bind; [apply tame_append_digits|intros r2]. apply tame_ret.
Qed.
Lemma tame_literal k l : forall r, ok (literal_loop e k l r).
Proof. induction l as [|c l IH]; intros r; cbn [literal_loop]; tame_auto. Qed.

(** A loop over memory that still reads after [fuel] steps has read [fuel] bytes. *)
Lemma mapped_inside s s' a k : inside lo hi s s' -> mapped (p_mem s') a k -> mapped (p_mem s) a k.
Proof.
  intros Hi Hm x Hx. apply elem_of_dom. rewrite <-(in_dom _ _ _ _ Hi). apply elem_of_dom. by apply Hm.
Qed.
Lemma mapped_cons (m : mem) a k : is_Some (m !! a) -> mapped m (a + 1) (Z.of_nat k) -> mapped m a (Z.of_nat (S k)).
Proof. intros Ha Hm x Hx. destruct (Z.eq_dec x a) as [-> |Hne]; [done|]. apply Hm. lia. Qed.
Lemma loadc_inv a s x s' : on_mem (loadc a) s = Ok (x, s') -> s' = s /\ is_Some (p_mem s !! a).
Proof.
  unfold on_mem, loadc, load, bind. destruct (p_mem s !! a); [|done]. intros [= <- <-]. by destruct s.
Qed.
Lemma bind_out {A B} (f : P A) (k : A -> P B) s : (forall s, f s <> Fault OutOfFuel) -> bind f k s = Fault OutOfFuel ->
  exists a s', f s = Ok (a, s') /\ k a s' = Fault OutOfFuel.
Proof. intros Hf. unfold bind. specialize (Hf s). destruct (f s) as [[a s']|x]; [eauto|congruence]. Qed.
Lemma string_loop_out k fuel : forall p r s, string_loop fuel e k p r s = Fault OutOfFuel -> mapped (p_mem s) p (Z.of_nat fuel).
Proof.
  induction fuel as [|fuel IH]; intros p r s H; cbn [string_loop] in H; [intros x ?; lia|].
  apply bind_out in H as (c & s1 & [-> Hm]%loadc_inv & H); [|apply (tame_loadc lo hi)].
  do 2 (case_match; [done|]). apply bind_out in H as (x & s2 & E & H); [|apply (tame_AppendChar lo hi); done].
  apply mapped_cons; [done|]. eapply mapped_inside; [|by eapply IH]. eapply (proj1 (tame_AppendChar lo hi e c He)). exact E.
Qed.
Lemma string_loop_always k fuel : forall p r, always (inside lo hi) (string_loop fuel e k p r).
Proof.
  induction fuel as [|fuel IH]; intros p r; cbn [string_loop]; [by apply always_fail|].
  apply always_bind; [exact _|apply tame_loadc|intros c]. do 2 (case_match; [by apply always_ret, _|]).
  apply always_bind; [exact _|by apply tame_AppendChar|intros x]. apply IH.
Qed.
Lemma tame_string k p : ok (AppendString e k p).
Proof.
  unfold AppendString. apply tame_if; [apply tame_literal|]. split.
  - intros s x s'. apply string_loop_always.
  - intros s H%string_loop_out. apply mapped_size in H; lia.
Qed.
Lemma tame_pointer v : ok (AppendPointer e v).
Proof. apply tame_bind; [apply tame_literal|intros r]. apply tame_bind; [apply tame_number|intros x]. apply tame_ret. Qed.
Hint Resolve tame_number tame_string tame_pointer : tame.
Lemma tame_convert h args : ok (convert e h args).
Proof. unfold convert, AppendSignedDecimal, AppendUnsigned. tame_auto. Qed.

Lemma width_loop_out fuel : forall cur w s, width_loop fuel cur w s = Fault OutOfFuel -> mapped (p_mem s) cur (Z.of_nat fuel).
Proof.
  induction fuel as [|fuel IH]; intros cur w s H; cbn [width_loop] in H; [intros x ?; lia|].
  apply bind_out in H as (c & s1 & [-> Hm]%loadc_inv & H); [|apply (tame_loadc lo hi)].
  case_match; [|done]. apply mapped_cons; [done|]. by eapply IH.
Qed.
Lemma width_loop_ge fuel : forall cur w s r s', width_loop fuel cur w s = Ok (r, s') -> s' = s /\ cur <= r.1.
Proof.
  induction fuel as [|fuel IH]; intros cur w s r s' H; cbn [width_loop] in H; [done|].
  apply bind_Ok_inv in H as (c & s1 & [-> _]%loadc_inv & H). case_match.
  - apply IH in H as [-> H]. split; [done|lia].
  - injection H as <- <-. cbn. split; [done|lia].
Qed.
Lemma tame_width cur : ok (parse_width cur).
Proof.
  apply tame_bind; [apply tame_loadc|intros c]. apply tame_bind; [|intros w; apply tame_ret]. apply tame_if; [|apply tame_ret].
  split.
  - intros s x s' [-> _]%width_loop_ge. reflexivity.
  - intros s H%width_loop_out. apply mapped_size in H; lia.
Qed.
Lemma tame_head cur args : ok (parse_head cur args).
Proof.
  apply tame_bind; [apply tame_width|intros [[[hw pz] c1] w]]. unfold parse_precision, parse_size, and_then. tame_auto.
Qed.
(** The conversion stands behind its flags. *)
Lemma parse_head_ge cur args s h s' : parse_head cur args s = Ok (h, s') -> cur <= h_cur h.1.
Proof.
  unfold parse_head. intros ([[[hw pz] c1] w] & s1 & Ew & H)%bind_Ok_inv.
  assert (H1 : cur <= c1).
  { apply bind_Ok_inv in Ew as (c & s2 & _ & Ew). apply bind_Ok_inv in Ew as (x & s3 & Ex & Ew).
    assert (cur <= x.1) by (case_match; [by apply width_loop_ge in Ex as [_ ?]|injection Ex as <- <-; cbn; lia]).
    injection Ew as <- <- <- <- <-. done. }
  apply bind_Ok_inv in H as ([[c2 q] a] & s2 & Eq & H).
  assert (H2 : c1 <= c2).
  { apply bind_Ok_inv in Eq as (c & s4 & _ & Eq). apply bind_Ok_inv in Eq as (hp & s5 & _ & Eq). destruct hp.
    - apply bind_Ok_inv in Eq as (x & s6 & _ & Eq). injection Eq. lia.
    - injection Eq. lia. }
  apply bind_Ok_inv in H as ([[c3 z] ll] & s3 & Ez & H). injection H as <- <-. cbn.
  apply bind_Ok_inv in Ez as (c & s4 & _ & Ez). cbv zeta in Ez. destruct (c =? ch "z"); [injection Ez; lia|].
  apply bind_Ok_inv in Ez as (x & s5 & _ & Ez). injection Ez. destruct x; lia.
Qed.
(** The places at which [format_loop] reads are distinct. *)
Definition spread (m : mem) (cur : Z) (k : nat) : Prop :=
  exists l, length l = k /\ NoDup l /\ Forall (fun a => cur <= a /\ a ∈ dom m) l.
Lemma spread_size m cur k : spread m cur k -> (k <= size m)%nat.
Proof.
  intros (l & <- & Hd & Hl). rewrite <-size_dom, <-(size_list_to_set (C := gset Z) l Hd). apply subseteq_size.
  intros a Ha%elem_of_list_to_set. rewrite list.Forall_forall in Hl. by apply Hl.
Qed.
Lemma spread_cons m cur cur' k : is_Some (m !! cur) -> cur < cur' -> spread m cur' k -> spread m cur (S k).
Proof.
  intros Hc Hlt (l & <- & Hd & Hl). exists (cur :: l). split; [done|]. split.
  - apply list.NoDup_cons. split; [|done]. intros Hin. rewrite list.Forall_forall in Hl. apply Hl in Hin. lia.
  - constructor; [split; [lia|by apply elem_of_dom]|]. eapply list.Forall_impl; [exact Hl|]. intros a [? ?]. split; [lia|done].
Qed.
Lemma spread_inside s s' cur k : inside lo hi s s' -> spread (p_mem s') cur k -> spread (p_mem s) cur k.
Proof. intros Hi (l & E & Hd & Hl). exists l. rewrite (in_dom _ _ _ _ Hi) in Hl. done. Qed.
Lemma format_loop_out fuel : forall cur args r s, format_loop fuel e cur args r s = Fault OutOfFuel ->
  spread (p_mem s) cur fuel.
Proof.
  induction fuel as [|fuel IH]; intros cur args r s H; cbn [format_loop] in H; [exists []; split_and!; [done|constructor..]|].
  apply bind_out in H as (c & s1 & [-> Hm]%loadc_inv & H); [|apply (tame_loadc lo hi)].
  case_match; [done|]. case_match.
  - apply bind_out in H as (x & s2 & E & H); [|apply (tame_AppendChar lo hi); done].
    apply (spread_cons _ _ (cur + 1)); [done|lia|]. eapply spread_inside; [|by eapply IH].
    eapply (proj1 (tame_AppendChar lo hi e c He)). exact E.
  - apply bind_out in H as (h & s2 & E & H); [|apply tame_head]. apply bind_out in H as (x & s3 & E2 & H); [|apply tame_convert].
    pose proof (parse_head_ge _ _ _ _ _ E). apply (spread_cons _ _ (h_cur h.1 + 1)); [done|lia|].
    eapply spread_inside; [|by eapply IH]. etrans; [eapply (proj1 (tame_head _ _)), E|eapply (proj1 (tame_convert _ _)), E2].
Qed.
Lemma format_loop_always fuel : forall cur args r, always (inside lo hi) (format_loop fuel e cur args r).
Proof.
  induction fuel as [|fuel IH]; intros cur args r; cbn [format_loop]; [by apply always_fail|].
  apply always_bind; [exact _|apply tame_loadc|intros c]. case_match; [by apply always_ret, _|]. case_match.
  - apply always_bind; [exact _|by apply tame_AppendChar|intros x]. apply IH.
  - apply always_bind; [exact _|apply tame_head|intros h]. apply always_bind; [exact _|apply tame_convert|intros x]. apply IH.
Qed.
Lemma tame_format cur args r : ok (fun st => format_loop (S (size (p_mem st))) e cur args r st).
Proof.
  split.
  - intros s x s'. apply format_loop_always.
  - intros s H%format_loop_out%spread_size. lia.
Qed.
End Loops.

(** Whatever the format, the arguments and the contents of memory are, formatting ends,
    and if it returns it has changed no byte outside the buffer. *)
Theorem VSNPrintf_safe buff buff_length format args m :
  match VSNPrintf buff buff_length format args m with
  | Ok (_, m') => dom m' = dom m /\ forall a, ~ (buff <= a < buff + buff_length) -> m' !! a = m !! a
  | Fault x => x <> OutOfFuel
  end.
Proof.
  unfold VSNPrintf. cbv zeta.
  match goal with |- context [match ?f (mkPr m buff) with _ => _ end] => assert (Hf : tame buff (buff + buff_length) f) end.
  { do 2 (apply tame_bind; [apply tame_check|intros _]). apply tame_bind; [apply tame_format; lia|intros r].
    apply tame_bind; [apply tame_gets|intros b]. apply tame_bind; [apply tame_check|intros _].
    apply tame_bind; [apply tame_AppendChar; lia|intros _]. apply tame_ret. }
  destruct Hf as [Ha Hn]. specialize (Hn (mkPr m buff)).
  match goal with |- context [match ?f (mkPr m buff) with _ => _ end] => destruct (f (mkPr m buff)) as [[r s]|x] eqn:E end.
  - apply Ha in E as [_ Em Ed]. split; [done|]. apply Em. cbn. lia.
  - by intros ->.
Qed.

(** ** Numbers are read back *)

Lemma to_digits_value f v : 0 <= v < 10 ^ Z.of_nat (S f) -> dec_value (digit_char <$> to_digits f 10 v) = v.
Proof.
  revert v. induction f as [|f IH]; intros v Hv; cbn [to_digits].
  - rewrite Z.pow_1_r in Hv. unfold dec_value, digit_char. cbn. rewrite (proj2 (Z.ltb_lt v 10)) by lia. chars. lia.
  - destruct (v <? 10) eqn:E; breflect.
    + unfold dec_value, digit_char. cbn. rewrite (proj2 (Z.ltb_lt v 10)) by lia. chars. lia.
    + rewrite fmap_app. unfold dec_value in *. rewrite fold_left_app, IH.
      * cbn. pose proof (Z.mod_pos_bound v 10 ltac:(lia)). unfold digit_char. rewrite (proj2 (Z.ltb_lt _ 10)) by lia. chars.
        pose proof (Z.div_mod v 10 ltac:(lia)). lia.
      * rewrite Nat2Z.inj_succ, Z.pow_succ_r in Hv by lia. split; [apply Z.div_pos; lia|]. apply Z.div_lt_upper_bound; lia.
Qed.
Lemma digits_decimal v : 0 <= v < 2 ^ 64 ->
  dec_value (digit_char <$> digits 10 v) = v /\ Forall (fun d => IsDigit d = true) (digit_char <$> digits 10 v) /\
  (1 <= length (digit_char <$> digits 10 v) <= 20)%nat.
Proof.
  intros Hv. destruct (digits_max 10 v ltac:(by left) Hv) as [H1 H2]. unfold digits.
  rewrite (to_digits_fuel 10 19 H1 64 19 v H2) by lia. split; [by apply to_digits_value|]. split.
  - apply list.Forall_fmap. eapply list.Forall_impl; [by apply to_digits_range|]. cbn. intros d Hd.
    unfold digit_char, IsDigit. rewrite (proj2 (Z.ltb_lt d 10)) by lia. chars.
    apply andb_true_iff. split; apply Z.leb_le; lia.
  - rewrite length_fmap. apply (to_digits_length 10 19); auto.
Qed.

(** A 64-bit number printed with [%lld] into a buffer of at least 21 bytes is read back
    by [internal_atoll]. *)
Theorem number_roundtrip m buff n format v :
  - 2 ^ 63 <= v < 2 ^ 63 -> mapped m buff (Z.of_nat n + 1) -> (20 <= n)%nat -> format <> 0 ->
  cstr m format (text "%lld") -> (forall i, (i <= 4)%nat -> live buff n (format + Z.of_nat i)) ->
  exists k m', VSNPrintf buff (Z.of_nat n + 1) format [v] m = Ok (k, m') /\ internal_atoll buff m' = Ok (v, m').
Proof.
  intros Hv Hm Hn Hf Hc Hl. set (t := signed_text v 0 false).
  destruct (digits_decimal (Z.abs v)) as (Dv & Dd & Dl); [lia|].
  assert (Et : t = (if v <? 0 then [45] else []) ++ (digit_char <$> digits 10 (Z.abs v))).
  { unfold t, signed_text, number_text. cbn [replicate app]. by destruct (v <? 0). }
  assert (Hlen : (length t <= 20)%nat).
  { rewrite Et, length_app, length_fmap. pose proof (to_digits_length 10 18 ltac:(lia) 64 (Z.abs v)) as H. unfold digits.
    assert (0 <= Z.abs v < 10 ^ Z.of_nat 19) by (change (10 ^ Z.of_nat 19) with 10000000000000000000; lia).
    specialize (H ltac:(done) ltac:(lia)). destruct (v <? 0); cbn [length]; lia. }
  assert (Hs : s64 v = v).
  { unfold s64, signed, wrap. change (2 ^ (64 - 1)) with (2 ^ 63). destruct (Z_lt_le_dec v 0).
    - rewrite <-(Z_mod_plus_full v 1), Z.mod_small by lia. rewrite (proj2 (Z.ltb_ge _ _)); lia.
    - rewrite Z.mod_small by lia. by rewrite (proj2 (Z.ltb_lt _ _)) by lia. }
  exists (Z.of_nat (length t)), (write m buff (take n t ++ [0])). split.
  - apply (VSNPrintf_correct m buff n format [Conv [] false SizeLL ConvD] [v] t); try done.
    + by constructor.
    + rewrite <-(app_nil_r t). eapply prints_cons; [|constructor]. unfold t. rewrite <-Hs at 2. apply prints_d.
    + lia.
  - rewrite take_ge by lia. pose proof (write_bytes m buff (t ++ [0])) as Hb. unfold internal_atoll.
    erewrite bind_Ok; [|apply (internal_simple_strtoll_clamps _ buff [] (if v <? 0 then [45] else []) (digit_char <$> digits 10 (Z.abs v)) 0)]; try done.
    + unfold ret. cbn [fst]. rewrite Dv. do 2 f_equal. unfold clamp64, INT64_MIN, INT64_MAX.
      destruct (v <? 0) eqn:E; breflect; [rewrite bool_decide_eq_true_2 by done|rewrite bool_decide_eq_false_2 by done]; lia.
    + cbn [app]. by rewrite app_assoc, <-Et.
    + destruct (v <? 0); set_solver.
    + intros E. rewrite E in Dl. cbn in Dl. lia.
Qed.

(** ** Examples *)

Module PrintfEx.
(** The formats [x=%05d %s] and [%lld] and the string [ab]; the buffer is at 1000. *)
Definition fmt : mem := write (write (write ∅ 100 (text "x=%05d %s" ++ [0])) 200 (text "ab" ++ [0])) 300 (text "%lld" ++ [0]).
Definition ex : mem := write fmt 1000 (replicate 32 7).
Lemma printed : VSNPrintf 1000 32 100 [u64 (-42); 200] ex = Ok (10, write ex 1000 (text "x=-0042 ab" ++ [0])).
Proof. by vm_compute. Qed.
Lemma truncated : VSNPrintf 1000 5 100 [u64 (-42); 200] ex = Ok (10, write ex 1000 (text "x=-0" ++ [0])).
Proof. by vm_compute. Qed.
(** A width is passed on as a byte. *)
Lemma width_wraps : VSNPrintf 1000 32 400 [7] (write ex 400 (text "%257d" ++ [0])) =
  Ok (1, write (write ex 400 (text "%257d" ++ [0])) 1000 (text "7" ++ [0])).
Proof. by vm_compute. Qed.
End PrintfEx.

Lemma VSNPrintf_correct_witness : exists t,
  VSNPrintf 1000 (Z.of_nat 4 + 1) 100 [u64 (-42); 200] PrintfEx.ex =
    Ok (Z.of_nat (length t), write PrintfEx.ex 1000 (take 4 t ++ [0])).
Proof.
  exists ([ch "x"] ++ [ch "="] ++ signed_text (-42) 5 true ++ [ch " "] ++ text "ab" ++ []).
  apply (VSNPrintf_correct PrintfEx.ex 1000 4 100
    [Lit (ch "x"); Lit (ch "="); Conv (text "05") false SizeInt ConvD; Lit (ch " "); Conv [] false SizeInt ConvS]).
  - by apply mappedb_sound.
  - done.
  - by repeat constructor.
  - by apply cstrb_sound.
  - intros i. unfold live. vm_compute length. lia.
  - repeat (eapply prints_cons; [try apply prints_lit|]); [|apply prints_s|apply prints_nil].
    + apply (prints_d _ _ (text "05") SizeInt (u64 (-42)) [200]).
    + lia.
    + by apply cstrb_sound.
    + done.
    + intros i. unfold live. vm_compute length. lia.
  - by vm_compute.
Defined.
Lemma number_roundtrip_witness : exists k m',
  VSNPrintf 1000 (Z.of_nat 20 + 1) 300 [- 2 ^ 63] PrintfEx.ex = Ok (k, m') /\ internal_atoll 1000 m' = Ok (- 2 ^ 63, m').
Proof.
  apply (number_roundtrip PrintfEx.ex 1000 20 300 (- 2 ^ 63)); [lia|by apply mappedb_sound|lia|done|by apply cstrb_sound|].
  intros i. unfold live. lia.
Defined.
