(* ===== verification/SanFlags.v ===== *)
(** * Options of the runtime

    [sanitizer_flag_parser.h], [sanitizer_flag_parser.cc], [sanitizer_flags.cc],
    [sanitizer_flags.inc] and [InitializeFlags] of [dfsan.cc]: the text of [DFSAN_OPTIONS]
    and of the files it includes is parsed into the flags of the runtime.  Text is a list
    of characters; messages to the user are left out. *)

From Stdlib Require Import Ascii.
From S2P Require Import Prelude CMem SanPrintf.
Local Open Scope Z_scope.

(** ** Flags *)

Inductive flag_value := VBool (b : bool) | VInt (z : Z) | VUptr (z : Z) | VStr (s : option (list Z)).
Inductive flag_type := TBool | TInt | TUptr | TStr.
Definition type_of (v : flag_value) : flag_type :=
  match v with VBool _ => TBool | VInt _ => TInt | VUptr _ => TUptr | VStr _ => TStr end.
#[export] Instance flag_value_eq_dec : EqDecision flag_value.
Proof. solve_decision. Defined.
#[export] Instance flag_type_eq_dec : EqDecision flag_type.
Proof. solve_decision. Defined.

(** The table of [sanitizer_flags.inc] on Linux for x86-64. *)
Definition common_flags_inc : list (list Z * flag_value) :=
  [ (text "symbolize", VBool true); (text "external_symbolizer_path", VStr None);
    (text "allow_addr2line", VBool false); (text "strip_path_prefix", VStr (Some []));
    (text "fast_unwind_on_check", VBool false); (text "fast_unwind_on_fatal", VBool false);
    (text "fast_unwind_on_malloc", VBool true); (text "handle_ioctl", VBool false);
    (text "malloc_context_size", VInt 1); (text "log_path", VStr (Some (text "stderr")));
    (text "log_exe_name", VBool false); (text "log_to_syslog", VBool false); (text "verbosity", VInt 0);
    (text "detect_leaks", VBool true); (text "leak_check_at_exit", VBool true);
    (text "allocator_may_return_null", VBool false); (text "print_summary", VBool true);
    (text "check_printf", VBool true); (text "handle_segv", VBool true); (text "handle_abort", VBool false);
    (text "handle_sigill", VBool false); (text "handle_sigfpe", VBool true);
    (text "allow_user_segv_handler", VBool false); (text "use_sigaltstack", VBool true);
    (text "detect_deadlocks", VBool false); (text "clear_shadow_mmap_threshold", VUptr (64 * 1024));
    (text "color", VStr (Some (text "auto"))); (text "legacy_pthread_cond", VBool false);
    (text "intercept_tls_get_addr", VBool false); (text "help", VBool false); (text "mmap_limit_mb", VUptr 0);
    (text "hard_rss_limit_mb", VUptr 0); (text "soft_rss_limit_mb", VUptr 0);
    (text "heap_profile", VBool false); (text "allocator_release_to_os", VBool false);
    (text "can_use_proc_maps_statm", VBool true); (text "coverage", VBool false);
    (text "coverage_pcs", VBool true); (text "coverage_order_pcs", VBool false);
    (text "coverage_bitset", VBool false); (text "coverage_counters", VBool false);
    (text "coverage_direct", VBool false); (text "coverage_dir", VStr (Some (text ".")));
    (text "full_address_space", VBool false); (text "print_suppressions", VBool true);
    (text "disable_coredump", VBool true); (text "use_madv_dontdump", VBool true);
    (text "symbolize_inline_frames", VBool true); (text "symbolize_vs_style", VBool false);
    (text "dedup_token_length", VInt 0); (text "stack_trace_format", VStr (Some (text "DEFAULT")));
    (text "no_huge_pages_for_shadow", VBool true); (text "strict_string_checks", VBool false);
    (text "intercept_strstr", VBool true); (text "intercept_strspn", VBool true);
    (text "intercept_strpbrk", VBool true); (text "intercept_strlen", VBool true);
    (text "intercept_strchr", VBool true); (text "intercept_memcmp", VBool true);
    (text "strict_memcmp", VBool true); (text "intercept_memmem", VBool true);
    (text "intercept_intrin", VBool true); (text "intercept_stat", VBool true);
    (text "intercept_send", VBool true); (text "decorate_proc_maps", VBool false); (text "exitcode", VInt 1);
    (text "abort_on_error", VBool false); (text "suppress_equal_pcs", VBool true);
    (text "print_cmdline", VBool false); (text "html_cov_report", VBool false);
    (text "sancov_path", VStr (Some (text "sancov"))) ].
(** The table of [dfsan_flags.inc]. *)
Definition dfsan_flags_inc : list (list Z * flag_value) :=
  [ (text "warn_unimplemented", VBool true); (text "warn_nonzero_labels", VBool false);
    (text "strict_data_dependencies", VBool true); (text "dump_labels_at_exit", VStr (Some [])) ].

(** The flags that handlers point to, of both structures; the names of unknown flags; the
    verbosity. *)
Record fstate := mkF { vars : gmap (list Z) flag_value; unknown_flags : list (list Z); current_verbosity : Z }.
Abbreviation F := (M fstate).
Definition set_var (x : list Z) (v : flag_value) : F unit :=
  modify (fun s => mkF (<[x := v]> (vars s)) (unknown_flags s) (current_verbosity s)).
Definition get_int (x : list Z) (s : fstate) : Z :=
  match vars s !! x with Some (VInt z) => z | Some (VUptr z) => z | _ => 0 end.
Definition get_bool (x : list Z) (s : fstate) : bool :=
  match vars s !! x with Some (VBool b) => b | _ => false end.

Definition kMaxUnknownFlags : nat := 20.
Definition UnknownFlags_Add (name : list Z) : F unit :=
  u <- gets unknown_flags ;;
  if (length u <? kMaxUnknownFlags)%nat
  then modify (fun s => mkF (vars s) (unknown_flags s ++ [name]) (current_verbosity s))
  else fail AssertFailed.
Definition UnknownFlags_Report : F unit := modify (fun s => mkF (vars s) [] (current_verbosity s)).

(** ** Handlers

    A handler holds the variable it sets, or includes a file. *)

Inductive FlagHandler := HVar (t : flag_type) (x : list Z) | HInclude (ignore_missing : bool).
Record Flag := mkFlag { flag_name : list Z; flag_handler : FlagHandler }.

Definition parse_bool (x value : list Z) : F bool :=
  if bool_decide (value = text "0") || bool_decide (value = text "no") || bool_decide (value = text "false")
  then set_var x (VBool false) ;;; ret true
  else if bool_decide (value = text "1") || bool_decide (value = text "yes") || bool_decide (value = text "true")
  then set_var x (VBool true) ;;; ret true
  else ret false.
(** [internal_simple_strtoll] on a copy of the text: the number, and whether it ends with
    the text. *)
Definition strtoll_of (value : list Z) : res (Z * bool) :=
  let m := write ∅ 1 (value ++ [0]) in
  match internal_simple_strtoll 1 10 m with
  | Ok ((v, value_end), _) =>
      match m !! value_end with Some c => Ok (v, c =? 0) | None => Fault Segv end
  | Fault e => Fault e
  end.
Definition parse_int (x value : list Z) : F bool :=
  r <- of_res (strtoll_of value) ;; set_var x (VInt (s32 r.1)) ;;; ret r.2.
Definition parse_uptr (x value : list Z) : F bool :=
  r <- of_res (strtoll_of value) ;; set_var x (VUptr (u64 r.1)) ;;; ret r.2.
Definition parse_str (x value : list Z) : F bool := set_var x (VStr (Some value)) ;;; ret true.

(** What the parser asks the system: the name and number of the process, and files. *)
Class FlagEnv := {
  process_name : list Z;
  pid : Z;
  file : list Z -> option (list Z)
}.

(** *** [SubstituteForFlagValue] *)

Fixpoint pid_digits (fuel : nat) (pid : Z) (buf : list Z) : list Z :=
  match fuel with
  | O => buf
  | S k =>
      let buf := (pid mod 10 + ch "0") :: buf in
      if pid / 10 =? 0 then buf else pid_digits k (pid / 10) buf
  end.
(** [room] is [out_end - 1 - out]. *)
Fixpoint subst_loop `{FlagEnv} (room : nat) (s : list Z) : list Z * nat :=
  match s with
  | [] => ([], room)
  | c :: r =>
      if (room =? 0)%nat then ([], room)
      else if negb (c =? ch "%") then let x := subst_loop (room - 1) r in (c :: x.1, x.2)
      else match r with
           | d :: r' =>
               if d =? ch "b" then
                 let t := take room process_name in
                 let x := subst_loop (room - length t) r' in (t ++ x.1, x.2)
               else if d =? ch "p" then
                 let t := take room (pid_digits 32 pid []) in
                 let x := subst_loop (room - length t) r' in (t ++ x.1, x.2)
               else let x := subst_loop (room - 1) r in (c :: x.1, x.2)
           | [] => let x := subst_loop (room - 1) r in (c :: x.1, x.2)
           end
  end.
Definition SubstituteForFlagValue `{FlagEnv} (s : list Z) (out_size : nat) : F (list Z) :=
  let '(out, room) := subst_loop (out_size - 1) s in
  if (0 <? room)%nat then ret out else fail AssertFailed.

(** *** [ReadFileToBuffer] *)

Definition PageSize : nat := 4096.
Definition kMaxIncludeSize : nat := 2 ^ 15.
Definition kMaxPathLength : nat := 4096.
(** Pages are read until the end of the file or of the buffer: what is read, and whether
    the end of the file was seen. *)
Fixpoint read_pages (fuel size read_len : nat) (content : list Z) : nat * bool :=
  match fuel with
  | O => (read_len, false)
  | S k =>
      if (read_len + PageSize <=? size)%nat then
        let just_read := Nat.min PageSize (length content - read_len) in
        if (just_read =? 0)%nat then (read_len, true) else read_pages k size (read_len + just_read) content
      else (read_len, false)
  end.
(** The buffer, which is zero behind what was read. *)
Fixpoint read_sizes (fuel size max_len : nat) (content : list Z) : list Z :=
  let r := read_pages (S size) size 0 content in
  let buffer := take (fst r) content ++ replicate (size - fst r) 0 in
  match fuel with
  | O => buffer
  | S k => if snd r then buffer else if (2 * size <=? max_len)%nat then read_sizes k (2 * size) max_len content else buffer
  end.
Definition ReadFileToBuffer (content : list Z) : list Z :=
  read_sizes 4 PageSize (Nat.max kMaxIncludeSize PageSize) content.

(** ** The parser *)

Definition fatal_error {A} : F A := fail DieCalled.
Definition is_space (c : Z) : bool :=
  (c =? ch " ") || (c =? ch ",") || (c =? ch ":") || (c =? 10) || (c =? 9) || (c =? 13).
(** [buf_\[pos_\]]; the buffer includes its terminator. *)
Definition at_pos (buf : list Z) (pos : nat) : F Z :=
  match buf !! pos with Some c => ret c | None => fail Segv end.
(** [while (p(buf_\[pos_\])) ++pos_;] *)
Fixpoint scan_while (p : Z -> bool) (fuel : nat) (buf : list Z) (pos : nat) : F nat :=
  match fuel with
  | O => fail OutOfFuel
  | S k => c <- at_pos buf pos ;; if p c then scan_while p k buf (S pos) else ret pos
  end.
Definition scan_from (p : Z -> bool) (buf : list Z) (pos : nat) : F nat := scan_while p (S (length buf)) buf pos.
(** The text of [n] characters from [start], up to a terminator. *)
Fixpoint until_nul (l : list Z) : list Z :=
  match l with [] => [] | c :: r => if c =? 0 then [] else c :: until_nul r end.
Definition ll_strndup (buf : list Z) (start n : nat) : list Z := until_nul (take n (drop start buf)).
Definition quote_chars : list Z := [39; 34].

Section Parser.
Context `{FlagEnv} (flags_ : list Flag).
(** [ParseFile], which the handler for includes calls. *)
Context (ParseFile_ : list Z -> bool -> F bool).

Definition handler_Parse (h : FlagHandler) (value : list Z) : F bool :=
  match h with
  | HVar TBool x => parse_bool x value
  | HVar TInt x => parse_int x value
  | HVar TUptr x => parse_uptr x value
  | HVar TStr x => parse_str x value
  | HInclude ignore_missing =>
      if bool_decide (ch "%" ∈ value) then
        buf <- SubstituteForFlagValue value kMaxPathLength ;; ParseFile_ buf ignore_missing
      else ParseFile_ value ignore_missing
  end.
Fixpoint find_flag (fs : list Flag) (name : list Z) : option FlagHandler :=
  match fs with
  | [] => None
  | f :: r => if bool_decide (name = flag_name f) then Some (flag_handler f) else find_flag r name
  end.
Definition run_handler (name value : list Z) : F bool :=
  match find_flag flags_ name with
  | Some h => handler_Parse h value
  | None => UnknownFlags_Add name ;;; ret true
  end.

(** One flag, from [name_start]; gives the place behind it. *)
Definition parse_value (buf : list Z) (value_start : nat) : F (nat * list Z) :=
  quote <- at_pos buf value_start ;;
  if bool_decide (quote ∈ quote_chars) then
    pos <- scan_from (fun c => negb (c =? 0) && negb (c =? quote)) buf (S value_start) ;;
    c <- at_pos buf pos ;;
    if c =? 0 then fatal_error
    else ret (S pos, ll_strndup buf (value_start + 1) (pos - value_start - 1))
  else
    pos <- scan_from (fun c => negb (c =? 0) && negb (is_space c)) buf value_start ;;
    c <- at_pos buf pos ;;
    if negb (c =? 0) && negb (is_space c) then fatal_error
    else ret (pos, ll_strndup buf value_start (pos - value_start)).
Definition run_flag (name value : list Z) : F unit :=
  r <- run_handler name value ;; if r then ret tt else fatal_error.
Definition parse_flag (buf : list Z) (name_start : nat) : F nat :=
  pos <- scan_from (fun c => negb (c =? 0) && negb (c =? ch "=") && negb (is_space c)) buf name_start ;;
  c <- at_pos buf pos ;;
  if negb (c =? ch "=") then fatal_error else
  let name := ll_strndup buf name_start (pos - name_start) in
  v <- parse_value buf (S pos) ;;
  run_flag name v.2 ;;;
  ret v.1.
Fixpoint flags_loop (fuel : nat) (buf : list Z) (pos : nat) : F unit :=
  match fuel with
  | O => fail OutOfFuel
  | S k =>
      pos <- scan_from is_space buf pos ;;
      c <- at_pos buf pos ;;
      if c =? 0 then ret tt else pos <- parse_flag buf pos ;; flags_loop k buf pos
  end.
(** The check at the end of [parse_flags]. *)
Definition sanity_check : F unit :=
  n <- gets (get_int (text "malloc_context_size")) ;;
  when (n <? 1) (set_var (text "malloc_context_size") (VInt 1)).
Definition parse_flags (buf : list Z) : F unit := flags_loop (S (length buf)) buf 0 ;;; sanity_check.
End Parser.

(** [ParseFile]; [depth] bounds the nesting of files. *)
Fixpoint ParseFile `{FlagEnv} (flags_ : list Flag) (depth : nat) (path : list Z) (ignore_missing : bool) : F bool :=
  match depth with
  | O => fail OutOfFuel
  | S d =>
      match file path with
      | None => ret ignore_missing
      | Some content => parse_flags flags_ (ParseFile flags_ d) (ReadFileToBuffer content) ;;; ret true
      end
  end.
Definition ParseString `{FlagEnv} (flags_ : list Flag) (depth : nat) (s : option (list Z)) : F unit :=
  match s with
  | None => ret tt
  | Some s => parse_flags flags_ (ParseFile flags_ depth) (s ++ [0])
  end.

(** ** Registration and start-up *)

Definition kMaxFlags : nat := 200.
Definition RegisterHandler (name : list Z) (h : FlagHandler) (flags_ : list Flag) : res (list Flag) :=
  if (length flags_ <? kMaxFlags)%nat then Ok (flags_ ++ [mkFlag name h]) else Fault AssertFailed.
Fixpoint RegisterFlags (tab : list (list Z * flag_value)) (flags_ : list Flag) : res (list Flag) :=
  match tab with
  | [] => Ok flags_
  | (x, v) :: r => res_bind (RegisterHandler x (HVar (type_of v) x) flags_) (RegisterFlags r)
  end.
Definition RegisterIncludeFlags (flags_ : list Flag) : res (list Flag) :=
  res_bind (RegisterHandler (text "include") (HInclude false) flags_)
    (RegisterHandler (text "include_if_exists") (HInclude true)).
Definition RegisterCommonFlags (flags_ : list Flag) : res (list Flag) :=
  res_bind (RegisterFlags common_flags_inc flags_) RegisterIncludeFlags.
Definition RegisterDfsanFlags (flags_ : list Flag) : res (list Flag) := RegisterFlags dfsan_flags_inc flags_.
(** [SetDefaults] of a structure. *)
Fixpoint set_defaults (tab : list (list Z * flag_value)) : F unit :=
  match tab with [] => ret tt | (x, v) :: r => set_var x v ;;; set_defaults r end.
Definition InitializeCommonFlags : F unit :=
  c <- gets (get_bool (text "coverage")) ;;
  h <- gets (get_bool (text "html_cov_report")) ;;
  set_var (text "coverage") (VBool (c || h)) ;;;
  v <- gets (get_int (text "verbosity")) ;;
  modify (fun s => mkF (vars s) (unknown_flags s) v).
Definition InitializeFlags `{FlagEnv} (depth : nat) (DFSAN_OPTIONS : option (list Z)) : F unit :=
  set_defaults common_flags_inc ;;;
  set_defaults dfsan_flags_inc ;;;
  flags_ <- of_res (res_bind (RegisterCommonFlags []) RegisterDfsanFlags) ;;
  ParseString flags_ depth DFSAN_OPTIONS ;;;
  InitializeCommonFlags ;;;
  v <- gets current_verbosity ;;
  when (negb (v =? 0)) UnknownFlags_Report.

(** ** Settings and their text *)

Record setting := mkSetting { s_name : list Z; s_value : list Z; s_quote : option Z; s_sep : list Z }.
Definition quoted (x : setting) : list Z :=
  match s_quote x with None => s_value x | Some q => q :: s_value x ++ [q] end.
Definition setting_text (x : setting) : list Z := s_name x ++ ch "=" :: quoted x ++ s_sep x.
Definition settings_text (ss : list setting) : list Z := concat (setting_text <$> ss).
Definition plain_char (c : Z) : bool := negb (c =? 0) && negb (is_space c).
Definition setting_ok (x : setting) : bool :=
  forallb (fun c => negb (c =? 0) && negb (c =? ch "=") && negb (is_space c)) (s_name x) &&
  forallb is_space (s_sep x) &&
  match s_quote x with
  | None => forallb plain_char (s_value x) &&
            match s_value x with c :: _ => negb (bool_decide (c ∈ quote_chars)) | [] => true end
  | Some q => bool_decide (q ∈ quote_chars) && forallb (fun c => negb (c =? 0) && negb (c =? q)) (s_value x)
  end.
(** A bare value is separated from the next setting. *)
Fixpoint settings_ok (ss : list setting) : bool :=
  match ss with
  | [] => true
  | x :: r =>
      setting_ok x && settings_ok r &&
      match s_quote x, s_sep x, r with None, [], _ :: _ => false | _, _, _ => true end
  end.

Section Text.
Context `{FlagEnv} (flags_ : list Flag) (ParseFile_ : list Z -> bool -> F bool).
Implicit Types st : fstate.

Lemma at_app pre c rest st : at_pos (pre ++ c :: rest) (length pre) st = Ok (c, st).
Proof. unfold at_pos. by rewrite list_lookup_middle. Qed.
Lemma scan_while_spec p c rest w st : forallb p w = true -> p c = false -> forall fuel pre, (length w < fuel)%nat ->
  scan_while p fuel (pre ++ w ++ c :: rest) (length pre) st = Ok ((length pre + length w)%nat, st).
Proof.
  intros Hw Hc. induction w as [|x w IH]; intros fuel pre Hf; (destruct fuel as [|fuel]; [lia|]); cbn [scan_while app].
  - rewrite (bind_Ok _ _ _ _ _ (at_app pre c rest st)), Hc. unfold ret. do 2 f_equal. cbn. lia.
  - cbn [forallb length] in *. breflect. rewrite (bind_Ok _ _ _ _ _ (at_app pre x _ st)). rewrite H0.
    replace (pre ++ x :: w ++ c :: rest) with ((pre ++ [x]) ++ w ++ c :: rest) by (by rewrite <-app_assoc).
    replace (S (length pre)) with (length (pre ++ [x])) by (rewrite length_app; cbn; lia).
    rewrite IH by (done || lia). do 2 f_equal. rewrite length_app. cbn. lia.
Qed.
Lemma scan_from_spec p c rest w pre st : forallb p w = true -> p c = false ->
  scan_from p (pre ++ w ++ c :: rest) (length pre) st = Ok ((length pre + length w)%nat, st).
Proof. intros Hw Hc. apply scan_while_spec; [done..|]. rewrite !length_app. cbn. lia. Qed.
Lemma until_nul_id l : forallb (fun c => negb (c =? 0)) l = true -> until_nul l = l.
Proof. induction l as [|c l IH]; cbn; [done|]. intros Hc. breflect. rewrite (proj2 (Z.eqb_neq c 0)) by done. by rewrite IH. Qed.
Lemma ll_strndup_spec pre w rest : forallb (fun c => negb (c =? 0)) w = true ->
  ll_strndup (pre ++ w ++ rest) (length pre) (length w) = w.
Proof. intros Hw. unfold ll_strndup. rewrite drop_app_length, take_app_length. by apply until_nul_id. Qed.
Lemma forallb_weaken (p q : Z -> bool) l : (forall c, p c = true -> q c = true) -> forallb p l = true -> forallb q l = true.
Proof. intros Hpq. rewrite !forallb_forall. auto. Qed.

Lemma parse_value_spec x pre c rest st :
  setting_ok x = true -> (s_quote x = None -> c = 0 \/ is_space c = true) ->
  parse_value (pre ++ quoted x ++ c :: rest) (length pre) st = Ok (((length pre + length (quoted x))%nat, s_value x), st).
Proof.
  intros Hok Hc. unfold setting_ok in Hok. apply andb_true_iff in Hok as [_ Hok]. unfold parse_value, quoted in *.
  destruct (s_quote x) as [q|].
  - apply andb_true_iff in Hok as [Hq Hv]. cbn [app]. rewrite <-app_assoc. cbn [app].
    rewrite (bind_Ok _ _ _ _ _ (at_app pre q _ st)), Hq.
    replace (pre ++ q :: s_value x ++ q :: c :: rest) with ((pre ++ [q]) ++ s_value x ++ q :: c :: rest) by (by rewrite <-app_assoc).
    replace (S (length pre)) with (length (pre ++ [q])) by (rewrite length_app; cbn; lia).
    erewrite bind_Ok; [|apply scan_from_spec; [done|by rewrite Z.eqb_refl, andb_false_r]].
    rewrite app_assoc. erewrite bind_Ok; [|rewrite <-length_app; apply at_app].
    apply bool_decide_eq_true_1 in Hq. rewrite (proj2 (Z.eqb_neq q 0)) by (unfold quote_chars in Hq; set_solver).
    unfold ret. do 3 f_equal.
    + rewrite !length_app. cbn [length]. rewrite length_app. cbn. lia.
    + replace (length pre + 1)%nat with (length (pre ++ [q])) by (rewrite length_app; cbn; lia).
      replace (length (pre ++ [q]) + length (s_value x) - length pre - 1)%nat with (length (s_value x)) by (rewrite length_app; cbn; lia).
      rewrite <-app_assoc. apply ll_strndup_spec. eapply forallb_weaken; [|exact Hv]. by intros y [Hy _]%andb_true_iff.
  - apply andb_true_iff in Hok as [Hv Hh]. specialize (Hc eq_refl).
    assert (Hend : negb (c =? 0) && negb (is_space c) = false) by (destruct Hc as [-> | ->]; [done|apply andb_false_r]).
    assert (Hq : exists c0 r, s_value x ++ c :: rest = c0 :: r /\ bool_decide (c0 ∈ quote_chars) = false).
    { destruct (s_value x) as [|c0 v]; [|by exists c0, (v ++ c :: rest); breflect]. exists c, rest. split; [done|].
      apply bool_decide_eq_false_2. unfold quote_chars. intros Hin.
      destruct Hc as [-> | Hs]; [set_solver|]. assert (c = 39 \/ c = 34) as [-> | ->] by set_solver; discriminate Hs. }
    destruct Hq as (c0 & r & Eq & Hq). pose proof (at_app pre c0 r st) as Ha. rewrite <-Eq in Ha.
    rewrite (bind_Ok _ _ _ _ _ Ha), Hq. erewrite bind_Ok; [|apply scan_from_spec; [exact Hv|exact Hend]].
    rewrite app_assoc. erewrite bind_Ok; [|rewrite <-length_app; apply at_app]. rewrite Hend. unfold ret. do 3 f_equal.
    replace (length pre + length (s_value x) - length pre)%nat with (length (s_value x)) by lia. rewrite <-app_assoc.
    apply ll_strndup_spec. eapply forallb_weaken; [|exact Hv]. by intros y [Hy _]%andb_true_iff.
Qed.
Lemma parse_flag_spec x pre c rest st :
  setting_ok x = true -> (s_quote x = None -> c = 0 \/ is_space c = true) ->
  parse_flag flags_ ParseFile_ (pre ++ (s_name x ++ ch "=" :: quoted x) ++ c :: rest) (length pre) st =
  (run_flag flags_ ParseFile_ (s_name x) (s_value x) ;;; ret (length pre + length (s_name x ++ ch "=" :: quoted x))%nat) st.
Proof.
  intros Hok Hc. pose proof Hok as Hn. unfold setting_ok in Hn. apply andb_true_iff in Hn as [Hn _]. apply andb_true_iff in Hn as [Hn _].
  unfold parse_flag. rewrite <-app_assoc. cbn [app].
  erewrite bind_Ok; [|apply scan_from_spec; [exact Hn|by rewrite Z.eqb_refl, andb_false_r]].
  rewrite app_assoc. erewrite bind_Ok; [|rewrite <-length_app; apply at_app]. rewrite Z.eqb_refl. cbn [negb].
  replace ((pre ++ s_name x) ++ ch "=" :: quoted x ++ c :: rest) with ((pre ++ s_name x ++ [ch "="]) ++ quoted x ++ c :: rest)
    by (by rewrite <-!app_assoc).
  replace (S (length pre + length (s_name x))) with (length (pre ++ s_name x ++ [ch "="])) by (rewrite !length_app; cbn; lia).
  rewrite (bind_Ok _ _ _ _ _ (parse_value_spec x _ c rest st Hok Hc)). cbn [fst snd].
  replace (ll_strndup _ _ _) with (s_name x).
  - unfold bind, ret. destruct (run_flag _ _ _ _ st) as [[[] st']|]; [|done]. do 2 f_equal.
    rewrite !length_app. cbn [length]. lia.
  - symmetry. replace (length pre + length (s_name x) - length pre)%nat with (length (s_name x)) by lia. rewrite <-!app_assoc.
    apply ll_strndup_spec. eapply forallb_weaken; [|exact Hn]. by intros y [[Hy _]%andb_true_iff _]%andb_true_iff.
Qed.

(** The settings, one after the other. *)
Fixpoint run_settings (ss : list setting) : F unit :=
  match ss with [] => ret tt | x :: r => run_flag flags_ ParseFile_ (s_name x) (s_value x) ;;; run_settings r end.
Lemma settings_head x r : setting_ok x = true ->
  exists c t, setting_text x ++ r = c :: t /\ c <> 0 /\ is_space c = false.
Proof.
  intros Hok. unfold setting_ok in Hok. breflect. unfold setting_text. destruct (s_name x) as [|c n]; cbn [app].
  - do 2 eexists. split; [reflexivity|done].
  - do 2 eexists. split; [reflexivity|]. cbn [forallb] in *. by breflect.
Qed.
Lemma flags_loop_spec junk ss : forall fuel pre lead st, settings_ok ss = true -> forallb is_space lead = true ->
  (length ss < fuel)%nat ->
  flags_loop flags_ ParseFile_ fuel (pre ++ lead ++ settings_text ss ++ 0 :: junk) (length pre) st = run_settings ss st.
Proof.
  induction ss as [|x ss IH]; intros fuel pre lead st Hok Hl Hf; (destruct fuel as [|fuel]; [lia|]); cbn [flags_loop run_settings].
  - cbn [settings_text fmap list_fmap concat app]. erewrite bind_Ok; [|by apply scan_from_spec].
    rewrite app_assoc. erewrite bind_Ok; [|rewrite <-length_app; apply at_app]. done.
  - cbn [settings_ok] in Hok. apply andb_true_iff in Hok as [Hok Hsep]. apply andb_true_iff in Hok as [Hx Hss].
    unfold settings_text. cbn [fmap list_fmap concat]. fold (settings_text ss). rewrite <-app_assoc.
    destruct (settings_head x (settings_text ss ++ 0 :: junk) Hx) as (c & t & Et & Hc0 & Hcs). rewrite Et.
    erewrite bind_Ok; [|by apply scan_from_spec]. rewrite <-length_app, app_assoc.
    rewrite (bind_Ok _ _ _ _ _ (at_app (pre ++ lead) c t st)), (proj2 (Z.eqb_neq c 0)) by done. rewrite <-Et.
    assert (Hnext : exists c1 r1, s_sep x ++ settings_text ss ++ 0 :: junk = c1 :: r1 /\ (s_quote x = None -> c1 = 0 \/ is_space c1 = true)).
    { destruct (s_sep x) as [|c1 sp] eqn:Es.
      - destruct ss as [|y ss]; [by exists 0, junk; auto|]. cbn [app]. destruct (s_quote x); [|done].
        unfold settings_text. cbn [fmap list_fmap concat]. rewrite <-app_assoc. cbn [settings_ok] in Hss. breflect.
        destruct (settings_head y (concat (setting_text <$> ss) ++ 0 :: junk) ltac:(done)) as (c1 & r1 & -> & _). by exists c1, r1.
      - exists c1, (sp ++ settings_text ss ++ 0 :: junk). split; [done|]. intros _. right. unfold setting_ok in Hx. rewrite Es in Hx.
        cbn [forallb] in Hx. by breflect. }
    destruct Hnext as (c1 & r1 & E1 & Hc1).
    replace (setting_text x ++ settings_text ss ++ 0 :: junk) with ((s_name x ++ ch "=" :: quoted x) ++ c1 :: r1)
      by (rewrite <-E1; unfold setting_text; by rewrite <-!app_assoc, app_comm_cons, <-!app_assoc).
    pose proof (parse_flag_spec x (pre ++ lead) c1 r1 st Hx Hc1) as Hpf. unfold bind at 1. rewrite Hpf. unfold bind, ret.
    destruct (run_flag _ _ _ _ st) as [[[] st']|]; [|done].
    rewrite app_assoc, <-length_app, <-E1. apply IH; [done| |cbn [length] in Hf; lia].
    unfold setting_ok in Hx. by breflect.
Qed.
End Text.

(** ** The parser reads what settings say *)

Lemma settings_length ss : (length ss <= length (settings_text ss))%nat.
Proof.
  induction ss as [|x ss IH]; [done|]. unfold settings_text in *. cbn [fmap list_fmap concat length]. rewrite length_app.
  unfold setting_text at 1. rewrite length_app. cbn [length]. lia.
Qed.

(** C38: the text of a list of settings, with bare or quoted values and any separators, is
    parsed into these settings: parsing is the same computation as running their handlers
    in order, and then the check of [malloc_context_size]. *)
Theorem ParseString_settings `{FlagEnv} (flags_ : list Flag) (depth : nat) (lead : list Z) (ss : list setting) (st : fstate) :
  forallb is_space lead = true -> settings_ok ss = true ->
  ParseString flags_ depth (Some (lead ++ settings_text ss)) st =
    (run_settings flags_ (ParseFile flags_ depth) ss ;;; sanity_check) st.
Proof.
  intros Hl Hok. unfold ParseString, parse_flags. rewrite <-app_assoc. unfold bind.
  pose proof (flags_loop_spec flags_ (ParseFile flags_ depth) [] ss (S (length (lead ++ settings_text ss ++ [0]))) [] lead st Hok Hl) as E.
  cbn [app length] in E. rewrite E; [done|]. pose proof (settings_length ss). rewrite !length_app. cbn. lia.
Qed.

(** *** Values *)

(** The value a text has for a flag. *)
Definition value_of (t : flag_type) (v : list Z) : option flag_value :=
  match t with
  | TBool => if bool_decide (v ∈ [text "0"; text "no"; text "false"]) then Some (VBool false)
             else if bool_decide (v ∈ [text "1"; text "yes"; text "true"]) then Some (VBool true) else None
  | TInt => match strtoll_of v with Ok (z, true) => Some (VInt (s32 z)) | _ => None end
  | TUptr => match strtoll_of v with Ok (z, true) => Some (VUptr (u64 z)) | _ => None end
  | TStr => Some (VStr (Some v))
  end.
Lemma value_of_type t v fv : value_of t v = Some fv -> type_of fv = t.
Proof. destruct t; cbn; repeat case_match; by intros [= <-]. Qed.
Definition put (x : list Z) (fv : flag_value) (st : fstate) : fstate :=
  mkF (<[x := fv]> (vars st)) (unknown_flags st) (current_verbosity st).
Lemma parse_var t x v fv st `{FlagEnv} pf : value_of t v = Some fv ->
  handler_Parse pf (HVar t x) v st = Ok (true, put x fv st).
Proof.
  destruct t; cbn [value_of handler_Parse].
  - unfold parse_bool. intros Hv. destruct (bool_decide (v ∈ [text "0"; text "no"; text "false"])) eqn:E0;
      [|destruct (bool_decide (v ∈ [text "1"; text "yes"; text "true"])) eqn:E1; [|done]].
    + injection Hv as <-. apply bool_decide_eq_true_1 in E0.
      assert (bool_decide (v = text "0") || bool_decide (v = text "no") || bool_decide (v = text "false") = true) as ->; [|done].
      rewrite !elem_of_cons in E0. destruct E0 as [-> |[-> |[-> |[]%elem_of_nil]]]; done.
    + injection Hv as <-. apply bool_decide_eq_false_1 in E0. apply bool_decide_eq_true_1 in E1.
      assert (bool_decide (v = text "0") || bool_decide (v = text "no") || bool_decide (v = text "false") = false) as ->.
      { rewrite !elem_of_cons in E0. rewrite !bool_decide_eq_false_2; [done|tauto..]. }
      assert (bool_decide (v = text "1") || bool_decide (v = text "yes") || bool_decide (v = text "true") = true) as ->; [|done].
      rewrite !elem_of_cons in E1. destruct E1 as [-> |[-> |[-> |[]%elem_of_nil]]]; done.
  - intros Hv. unfold parse_int, of_res, bind. destruct (strtoll_of v) as [[z []]|]; [|done..]. by injection Hv as <-.
  - intros Hv. unfold parse_uptr, of_res, bind. destruct (strtoll_of v) as [[z []]|]; [|done..]. by injection Hv as <-.
  - by intros [= <-].
Qed.
(** The decimal text of a number is read as this number. *)
Lemma strtoll_of_number z : - 2 ^ 63 <= z < 2 ^ 63 -> strtoll_of (signed_text z 0 false) = Ok (z, true).
Proof.
  intros Hz. destruct (digits_decimal (Z.abs z)) as (Dv & Dd & Dl); [lia|]. unfold strtoll_of. set (m := write ∅ 1 _).
  assert (Et : signed_text z 0 false = (if z <? 0 then [45] else []) ++ (digit_char <$> digits 10 (Z.abs z))).
  { unfold signed_text, number_text. cbn [replicate app]. by destruct (z <? 0). }
  pose proof (write_bytes ∅ 1 (signed_text z 0 false ++ [0])) as Hb. fold m in Hb.
  rewrite (internal_simple_strtoll_clamps m 1 [] (if z <? 0 then [45] else []) (digit_char <$> digits 10 (Z.abs z)) 0).
  - rewrite Dv. set (p := 1 + _ + _).
    assert (Hp : m !! p = Some 0).
    { unfold p. rewrite <-length_app, <-Et. change (Z.of_nat (length (@nil Z))) with 0. rewrite Z.add_0_r.
      apply Hb. by rewrite lookup_app_r, Nat.sub_diag by lia. }
    rewrite Hp. do 2 f_equal. unfold clamp64, INT64_MIN, INT64_MAX.
    destruct (z <? 0) eqn:E; breflect; [rewrite bool_decide_eq_true_2 by done|rewrite bool_decide_eq_false_2 by done]; lia.
  - cbn [app]. by rewrite app_assoc, <-Et.
  - done.
  - destruct (z <? 0); set_solver.
  - intros E. rewrite E in Dl. cbn in Dl. lia.
  - done.
  - done.
Qed.
Lemma int_value z : - 2 ^ 31 <= z < 2 ^ 31 -> value_of TInt (signed_text z 0 false) = Some (VInt z).
Proof. intros Hz. cbn [value_of]. rewrite strtoll_of_number by lia. by rewrite s32_small. Qed.

(** *** Options set flags *)

Definition all_flags : list (list Z * flag_value) := common_flags_inc ++ dfsan_flags_inc.
(** The handlers that start-up registers. *)
Definition var_flag (e : list Z * flag_value) : Flag := mkFlag e.1 (HVar (type_of e.2) e.1).
Definition dfsan_parser : list Flag :=
  (var_flag <$> common_flags_inc) ++ [mkFlag (text "include") (HInclude false); mkFlag (text "include_if_exists") (HInclude true)] ++
  (var_flag <$> dfsan_flags_inc).
Lemma registration : res_bind (RegisterCommonFlags []) RegisterDfsanFlags = Ok dfsan_parser.
Proof. by vm_compute. Qed.
Definition names : list (list Z) := all_flags.*1.
Lemma names_distinct : NoDup names.
Proof. by apply (bool_decide_eq_true_1 (NoDup names)); vm_compute. Qed.
Lemma flag_found x dv : (x, dv) ∈ all_flags -> find_flag dfsan_parser x = Some (HVar (type_of dv) x).
Proof.
  assert (H : Forall (fun e => find_flag dfsan_parser e.1 = Some (HVar (type_of e.2) e.1)) all_flags).
  { unfold all_flags, common_flags_inc, dfsan_flags_inc. cbn [app]. repeat (constructor; [by vm_compute|]). constructor. }
  rewrite list.Forall_forall in H. intros Hx. by apply (H (x, dv)).
Qed.

(** A setting of a flag with a proper value. *)
Definition sets (x : setting) (fv : flag_value) : Prop :=
  exists dv, (s_name x, dv) ∈ all_flags /\ value_of (type_of dv) (s_value x) = Some fv.
Definition assign (ss : list (setting * flag_value)) (d : gmap (list Z) flag_value) : gmap (list Z) flag_value :=
  fold_left (fun d e => <[s_name e.1 := e.2]> d) ss d.
Lemma run_settings_assign `{FlagEnv} pf ss : Forall (fun e => sets e.1 e.2) ss -> forall st,
  run_settings dfsan_parser pf ss.*1 st = Ok (tt, mkF (assign ss (vars st)) (unknown_flags st) (current_verbosity st)).
Proof.
  induction 1 as [|[x fv] ss (dv & Hin & Hv) _ IH]; intros st; cbn [run_settings fmap list_fmap fst]; [by destruct st|].
  cbn [fst snd] in *. unfold run_flag, run_handler. rewrite (flag_found _ _ Hin). unfold bind at 1 2.
  rewrite (parse_var _ _ _ _ st pf Hv). unfold ret. rewrite IH. done.
Qed.

(** What a list of settings leaves in a flag: the last value, or what was there. *)
Lemma assign_lookup ss d x :
  assign ss d !! x = match list.last (filter (fun e => s_name e.1 = x) ss) with Some e => Some e.2 | None => d !! x end.
Proof.
  induction ss as [|e ss IH] using rev_ind; [done|]. unfold assign in *. rewrite fold_left_app. cbn [fold_left].
  rewrite list.filter_app. destruct (decide (s_name e.1 = x)) as [<-|Hne].
  - rewrite lookup_insert_eq. rewrite filter_cons_True, filter_nil by done. by rewrite last_snoc.
  - rewrite lookup_insert_ne by done. rewrite filter_cons_False, filter_nil by done. by rewrite app_nil_r.
Qed.
Lemma set_defaults_spec tab : forall st,
  set_defaults tab st = Ok (tt, mkF (fold_left (fun d e => <[e.1 := e.2]> d) tab (vars st)) (unknown_flags st) (current_verbosity st)).
Proof.
  induction tab as [|[x v] tab IH]; intros st; cbn [set_defaults fold_left]; [by destruct st|]. unfold bind. cbn. by rewrite IH.
Qed.
Lemma fold_default tab : NoDup tab.*1 -> forall (d : gmap (list Z) flag_value) x v, (x, v) ∈ tab ->
  fold_left (fun d e => <[e.1 := e.2]> d) tab d !! x = Some v.
Proof.
  assert (Hout : forall tab (d : gmap (list Z) flag_value) x, x ∉ tab.*1 -> fold_left (fun d e => <[e.1 := e.2]> d) tab d !! x = d !! x).
  { clear tab. induction tab as [|[y w] tab IH]; intros d x Hx; cbn [fold_left]; [done|]. cbn [fmap list_fmap fst] in Hx.
    rewrite not_elem_of_cons in Hx. rewrite IH by tauto. rewrite lookup_insert_ne; [done|]. cbn. naive_solver. }
  induction tab as [|[y w] tab IH]; intros Hd d x v Hin; [by apply elem_of_nil in Hin|]. cbn [fold_left fmap list_fmap fst] in *.
  apply list.NoDup_cons in Hd as [Hy Hd]. apply elem_of_cons in Hin as [[= -> ->]|Hin]; [|by apply IH].
  rewrite Hout by done. cbn. by rewrite lookup_insert_eq.
Qed.

(** C39: options reach the flags.  Start-up with the text of settings of known flags with
    proper values succeeds and leaves in every flag the value of its last setting, or its
    default if there is none.  (Start-up itself changes [coverage] and a
    [malloc_context_size] below one.) *)
Theorem options_set_flags `{FlagEnv} (depth : nat) (ss : list (setting * flag_value)) (st : fstate) :
  settings_ok ss.*1 = true -> Forall (fun e => sets e.1 e.2) ss ->
  exists st', InitializeFlags depth (Some (settings_text ss.*1)) st = Ok (tt, st') /\
    forall x dv, (x, dv) ∈ all_flags -> x <> text "coverage" -> x <> text "malloc_context_size" ->
      vars st' !! x = Some (match list.last (filter (fun e => s_name e.1 = x) ss) with Some e => e.2 | None => dv end).
Proof.
  intros Hok Hss. unfold InitializeFlags. rewrite (bind_Ok _ _ _ _ _ (set_defaults_spec _ st)).
  rewrite (bind_Ok _ _ _ _ _ (set_defaults_spec _ _)), registration. cbn [vars unknown_flags current_verbosity].
  rewrite <-fold_left_app. change (common_flags_inc ++ dfsan_flags_inc) with all_flags. set (st1 := mkF _ _ _).
  rewrite (bind_Ok (of_res _) _ st1 dfsan_parser st1) by done.
  pose proof (ParseString_settings dfsan_parser depth [] ss.*1 st1 eq_refl Hok) as Hps. cbn [app] in Hps.
  unfold bind at 1. rewrite Hps. unfold bind at 1. rewrite (run_settings_assign _ ss Hss). cbn [vars unknown_flags current_verbosity st1].
  unfold sanity_check, InitializeCommonFlags, UnknownFlags_Report, bind, gets, when, modify, set_var, ret.
  match goal with |- context [if ?b then _ else _] => destruct b end; cbv beta iota delta [modify]; cbn [vars unknown_flags current_verbosity];
    match goal with |- context [if ?b then _ else _] => destruct b end; eexists; (split; [reflexivity|]);
    intros x dv Hx Hc Hm; cbn [vars]; rewrite ?lookup_insert_ne by (intros E; by rewrite E in *);
    rewrite assign_lookup, (fold_default all_flags names_distinct _ x dv Hx); by destruct (list.last _).
Qed.

(** ** Any options

    Whatever the options are, flags keep their types and unknown flags their bound. *)

Definition typed (st : fstate) : Prop :=
  (forall x dv, (x, dv) ∈ all_flags -> exists v, vars st !! x = Some v /\ type_of v = type_of dv) /\
  (length (unknown_flags st) <= kMaxUnknownFlags)%nat.
Definition keeps_types (st st' : fstate) : Prop := typed st -> typed st'.
#[export] Instance keeps_types_preorder : PreOrder keeps_types.
Proof. split; unfold keeps_types; [by intros st|]. intros s1 s2 s3. tauto. Qed.
Lemma flag_unique x dv dv' : (x, dv) ∈ all_flags -> (x, dv') ∈ all_flags -> dv = dv'.
Proof.
  intros H1 H2. apply list_elem_of_lookup_1 in H1 as [i Hi], H2 as [j Hj].
  assert (i = j) as ->.
  { apply (proj1 (NoDup_alt names) names_distinct i j x); unfold names; rewrite list_lookup_fmap, ?Hi, ?Hj; done. }
  rewrite Hi in Hj. by injection Hj.
Qed.
Lemma set_var_typed x dv v : (x, dv) ∈ all_flags -> type_of v = type_of dv -> always keeps_types (set_var x v).
Proof.
  intros Hx Ht. apply always_modify. intros st [H1 H2]. split; [|done]. intros y dv' Hy. cbn.
  destruct (decide (x = y)) as [<-|Hne].
  - rewrite lookup_insert_eq. exists v. by rewrite (flag_unique x dv' dv).
  - rewrite lookup_insert_ne by done. by apply H1.
Qed.
Lemma flag_found_inv name h : find_flag dfsan_parser name = Some h ->
  (exists dv, (name, dv) ∈ all_flags /\ h = HVar (type_of dv) name) \/ exists b, h = HInclude b.
Proof.
  intros Hf. assert (Hin : mkFlag name h ∈ dfsan_parser).
  { induction dfsan_parser as [|f fs IH]; [done|]. cbn in Hf. case_bool_decide as E; [|by right; apply IH].
    injection Hf as <-. rewrite E. destruct f. left. }
  unfold dfsan_parser in Hin. rewrite !elem_of_app in Hin. destruct Hin as [Hin|[Hin|Hin]].
  - apply list_elem_of_fmap in Hin as ([y dv] & [= -> ->] & Hin). left. exists dv. split; [|done]. apply elem_of_app. by left.
  - right. rewrite !elem_of_cons in Hin. destruct Hin as [[= _ ->]|[[= _ ->]|[]%elem_of_nil]]; by eexists.
  - apply list_elem_of_fmap in Hin as ([y dv] & [= -> ->] & Hin). left. exists dv. split; [|done]. apply elem_of_app. by right.
Qed.

Section Keep.
Context `{FlagEnv} (pf : list Z -> bool -> F bool) (Hpf : forall p b, always keeps_types (pf p b)).
Hint Resolve Hpf : always.
Lemma run_handler_typed name value : always keeps_types (run_handler dfsan_parser pf name value).
Proof.
  unfold run_handler. destruct (find_flag dfsan_parser name) as [h|] eqn:E.
  - apply flag_found_inv in E as [(dv & Hin & ->)|[b ->]]; cbn [handler_Parse].
    + destruct (type_of dv) eqn:Et; unfold parse_bool, parse_int, parse_uptr, parse_str, of_res; always_auto;
        try (eapply set_var_typed; [exact Hin|by rewrite Et]).
      all: intros st a st' Hr; by destruct (strtoll_of value); simplify_eq.
    + unfold SubstituteForFlagValue. always_auto.
  - apply always_bind; [exact _| |intros []; always_auto]. unfold UnknownFlags_Add. intros st a st' Hr.
    unfold bind, gets in Hr. destruct (length (unknown_flags st) <? kMaxUnknownFlags)%nat eqn:El; [|done].
    unfold modify in Hr. injection Hr as <- <-. apply Nat.ltb_lt in El. intros [H1 H2]. split; [done|]. cbn. rewrite length_app. cbn. lia.
Qed.
Lemma scan_typed p fuel buf : forall pos, always keeps_types (scan_while p fuel buf pos).
Proof. induction fuel as [|fuel IH]; intros pos; cbn [scan_while]; unfold at_pos; always_auto. Qed.
Hint Resolve scan_typed run_handler_typed : always.
Lemma parse_flag_typed buf pos : always keeps_types (parse_flag dfsan_parser pf buf pos).
Proof. unfold parse_flag, parse_value, run_flag, scan_from, at_pos, fatal_error. always_auto. Qed.
Hint Resolve parse_flag_typed : always.
Lemma flags_loop_typed fuel buf : forall pos, always keeps_types (flags_loop dfsan_parser pf fuel buf pos).
Proof. induction fuel as [|fuel IH]; intros pos; cbn [flags_loop]; unfold scan_from, at_pos; always_auto. Qed.
Lemma context_flag : (text "malloc_context_size", VInt 1) ∈ all_flags.
Proof. apply (bool_decide_eq_true_1 _). by vm_compute. Qed.
Lemma sanity_typed : always keeps_types sanity_check.
Proof. unfold sanity_check. always_auto. by apply (set_var_typed _ (VInt 1)); [apply context_flag|]. Qed.
Lemma parse_flags_typed buf : always keeps_types (parse_flags dfsan_parser pf buf).
Proof. apply always_bind; [exact _|apply flags_loop_typed|intros _; apply sanity_typed]. Qed.
(** After parsing there is a context of at least one frame. *)
Lemma parse_flags_context buf st st' : typed st -> parse_flags dfsan_parser pf buf st = Ok (tt, st') ->
  1 <= get_int (text "malloc_context_size") st'.
Proof.
  intros Ht (u & st1 & E1 & E2)%bind_Ok_inv. unfold sanity_check, bind, gets, when in E2.
  destruct (_ <? 1) eqn:El; breflect.
  - unfold set_var, modify in E2. injection E2 as <-. unfold get_int. cbn [vars]. by rewrite lookup_insert_eq.
  - injection E2 as <-. done.
Qed.
End Keep.
Lemma ParseFile_typed `{FlagEnv} depth : forall p b, always keeps_types (ParseFile dfsan_parser depth p b).
Proof.
  induction depth as [|d IH]; intros p b; cbn [ParseFile]; [by apply always_fail|]. destruct (file p); [|by apply always_ret, _].
  apply always_bind; [exact _|by apply parse_flags_typed|intros _; by apply always_ret, _].
Qed.

(** Whatever the options and the files they include are, if start-up succeeds then every
    flag has a value of its declared type, stack traces have at least one frame, and no
    more than twenty unknown flags were kept. *)
Theorem flags_typed `{FlagEnv} (depth : nat) (options : option (list Z)) (st st' : fstate) :
  unknown_flags st = [] -> InitializeFlags depth options st = Ok (tt, st') ->
  (forall x dv, (x, dv) ∈ all_flags -> exists v, vars st' !! x = Some v /\ type_of v = type_of dv) /\
  1 <= get_int (text "malloc_context_size") st' /\ (length (unknown_flags st') <= kMaxUnknownFlags)%nat.
Proof.
  intros Hu. unfold InitializeFlags. rewrite (bind_Ok _ _ _ _ _ (set_defaults_spec _ st)).
  rewrite (bind_Ok _ _ _ _ _ (set_defaults_spec _ _)), registration. cbn [vars unknown_flags current_verbosity].
  rewrite <-fold_left_app. change (common_flags_inc ++ dfsan_flags_inc) with all_flags. set (st1 := mkF _ _ _).
  rewrite (bind_Ok (of_res _) _ st1 dfsan_parser st1) by done.
  assert (T1 : typed st1).
  { split; [|cbn; rewrite Hu; cbn; lia]. intros x dv Hx. exists dv. split; [|done]. by apply (fold_default all_flags names_distinct). }
  intros (u & st2 & E2 & E3)%bind_Ok_inv.
  assert (T2 : typed st2 /\ 1 <= get_int (text "malloc_context_size") st2).
  { destruct options as [s|]; cbn [ParseString] in E2.
    - split; [by apply (parse_flags_typed _ (ParseFile_typed depth) _ _ _ _ E2)|]. destruct u. by eapply parse_flags_context.
    - injection E2 as <- <-. split; [done|]. unfold get_int. cbn [vars st1].
      by rewrite (fold_default all_flags names_distinct _ _ _ context_flag). }
  destruct T2 as [T2 Hc]. unfold InitializeCommonFlags, bind, gets, set_var, modify, when in E3. cbn [vars unknown_flags current_verbosity] in E3.
  assert (T3 : typed (put (text "coverage") (VBool (get_bool (text "coverage") st2 || get_bool (text "html_cov_report") st2)) st2)).
  { refine (set_var_typed (text "coverage") (VBool false) _ _ _ st2 tt _ eq_refl T2); [|done]. apply (bool_decide_eq_true_1 _). by vm_compute. }
  assert (Hc3 : 1 <= get_int (text "malloc_context_size") (put (text "coverage") (VBool (get_bool (text "coverage") st2 || get_bool (text "html_cov_report") st2)) st2)).
  { unfold get_int, put in *. cbn [vars]. by rewrite lookup_insert_ne by done. }
  destruct T3 as [T3 L3]. destruct (negb _); injection E3 as <-; (split; [exact T3|split; [exact Hc3|]]); [cbn; lia|exact L3].
Qed.

(** ** The parser ends *)

Definition ends {A} (f : F A) : Prop := forall st, f st <> Fault OutOfFuel.
Lemma ends_ret {A} (a : A) : ends (ret a).
Proof. done. Qed.
Lemma ends_fail {A} x : x <> OutOfFuel -> ends (fail (A := A) x).
Proof. by intros Hx st [= ->]. Qed.
Lemma ends_bind {A B} (f : F A) (k : A -> F B) : ends f -> (forall a, ends (k a)) -> ends (bind f k).
Proof. intros Hf Hk st. unfold bind. specialize (Hf st). destruct (f st) as [[a s]|x]; [apply Hk|congruence]. Qed.
Lemma ends_state {A} (f : fstate -> A * fstate) : ends (fun st => Ok (f st)).
Proof. done. Qed.
Lemma ends_at buf pos : ends (at_pos buf pos).
Proof. unfold at_pos. destruct (buf !! pos); [done|by apply ends_fail]. Qed.
Lemma ends_scan p buf fuel : forall pos, (length buf < fuel + pos)%nat -> (0 < fuel)%nat -> ends (scan_while p fuel buf pos).
Proof.
  induction fuel as [|fuel IH]; intros pos Hf Hp; [lia|]. cbn [scan_while]. intros st. unfold bind, at_pos.
  destruct (buf !! pos) as [c|] eqn:E; [|done]. apply lookup_lt_Some in E. cbn. destruct (p c); [|done]. apply IH; lia.
Qed.
Lemma ends_scan_from p buf pos : ends (scan_from p buf pos).
Proof. apply ends_scan; lia. Qed.
(** A scan stops inside the buffer, not before its start. *)
Lemma scan_ge p buf fuel : forall pos st q st', scan_while p fuel buf pos st = Ok (q, st') -> (pos <= q < length buf)%nat.
Proof.
  induction fuel as [|fuel IH]; intros pos st q st' Hs; [done|]. cbn [scan_while] in Hs.
  apply bind_Ok_inv in Hs as (c & s1 & Ha & Hs). unfold at_pos in Ha. destruct (buf !! pos) eqn:E; [|done]. apply lookup_lt_Some in E.
  injection Ha as <- <-. destruct (p z); [|injection Hs as <- <-; lia]. apply IH in Hs. lia.
Qed.

Lemma loadc_total a m : loadc a m <> Fault OutOfFuel.
Proof. unfold loadc, load, bind. by destruct (m !! a). Qed.
Lemma strtoll_loop_out fuel : forall t r h m, strtoll_loop fuel t r h m = Fault OutOfFuel -> mapped m t (Z.of_nat fuel).
Proof.
  induction fuel as [|fuel IH]; intros t r h m Hl; [intros x ?; lia|]. cbn [strtoll_loop] in Hl. unfold bind, loadc, load, bind in Hl.
  destruct (m !! t) as [b|] eqn:E; [|done]. cbn in Hl. destruct (IsDigit (s8 b)); [|done].
  apply mapped_cons; [by eexists|]. by eapply IH.
Qed.
Lemma internal_simple_strtoll_total a m : internal_simple_strtoll a 10 m <> Fault OutOfFuel.
Proof.
  unfold internal_simple_strtoll. cbn [negb Z.eqb Pos.eqb]. unfold bind at 1.
  assert (Hs : skip_spaces a m <> Fault OutOfFuel).
  { apply (scan_reads _ _ a).
    - intros i o m'. unfold bind, loadc, load, bind. destruct (m !! (a + i)); [|done]. intros [= <- <-]. eauto.
    - intros i. unfold bind, loadc, load, bind. by destruct (m !! (a + i)). }
  destruct (skip_spaces a m) as [[p m1]|x]; [|congruence]. unfold strtoll_number, bind at 1.
  pose proof (loadc_total p m1). destruct (loadc p m1) as [[c m2]|x]; [|congruence]. unfold bind. cbv zeta.
  destruct (strtoll_loop _ _ _ _ m2) as [[[[t r] h] m3]|x] eqn:E; [done|]. intros [= ->].
  apply strtoll_loop_out in E. apply mapped_size in E; lia.
Qed.

(** The file that a value names, and the values that are parts of a text. *)
Definition target `{FlagEnv} (v : list Z) : list Z :=
  if bool_decide (ch "%" ∈ v) then (subst_loop (kMaxPathLength - 1) v).1 else v.
Lemma ends_bind_post {A B} (f : F A) (k : A -> F B) : ends f -> (forall a st st', f st = Ok (a, st') -> ends (k a)) -> ends (bind f k).
Proof.
  intros Hf Hk st. unfold bind. specialize (Hf st). destruct (f st) as [[a s]|x] eqn:E; [by eapply Hk|congruence].
Qed.
Section Ends.
Context `{FlagEnv} (flags_ : list Flag) (pf : list Z -> bool -> F bool) (buf : list Z).
Context (Hpf : forall i n b, ends (pf (target (ll_strndup buf i n)) b)).
Lemma ends_strtoll v : ends (of_res (strtoll_of v)).
Proof.
  intros st. unfold of_res, strtoll_of. pose proof (internal_simple_strtoll_total 1 (write ∅ 1 (v ++ [0]))).
  destruct (internal_simple_strtoll _ _ _) as [[[z e] m]|x]; [|congruence]. by destruct (_ !! e).
Qed.
Lemma ends_run_flag name i n : ends (run_flag flags_ pf name (ll_strndup buf i n)).
Proof.
  assert (Hset : forall x v, ends (set_var x v)) by done. specialize (Hpf i n). set (value := ll_strndup buf i n) in *.
  apply ends_bind; [|intros []; [done|by apply ends_fail]]. unfold run_handler. destruct (find_flag flags_ name) as [[[] x|b]|]; cbn [handler_Parse].
  - unfold parse_bool. by repeat case_match.
  - apply ends_bind; [apply ends_strtoll|done].
  - apply ends_bind; [apply ends_strtoll|done].
  - done.
  - unfold target in Hpf. case_match; [|apply Hpf]. unfold SubstituteForFlagValue.
    destruct (subst_loop (kMaxPathLength - 1) value) as [out room]. intros st. unfold bind. destruct (0 <? room)%nat; [apply Hpf|done].
  - apply ends_bind; [|done]. apply ends_bind; [done|]. intros u. case_match; [done|by apply ends_fail].
Qed.
Lemma parse_value_post pos st r st' : parse_value buf pos st = Ok (r, st') ->
  (pos <= r.1 <= length buf)%nat /\ exists i n, r.2 = ll_strndup buf i n.
Proof.
  unfold parse_value. intros (q & s1 & _ & Hv)%bind_Ok_inv.
  case_match; apply bind_Ok_inv in Hv as (p & s2 & Hs%scan_ge & Hv); apply bind_Ok_inv in Hv as (c & s3 & _ & Hv); case_match; try done;
    injection Hv as <- <-; cbn; (split; [lia|by do 2 eexists]).
Qed.
Lemma parse_flag_ge pos st q st' : parse_flag flags_ pf buf pos st = Ok (q, st') -> (pos < q <= length buf)%nat.
Proof.
  unfold parse_flag. intros (p & s1 & Hs%scan_ge & Hp)%bind_Ok_inv. apply bind_Ok_inv in Hp as (c & s2 & _ & Hp). case_match; [done|].
  apply bind_Ok_inv in Hp as (v & s3 & [Hv _]%parse_value_post & Hp). apply bind_Ok_inv in Hp as (u & s4 & _ & Hp). injection Hp as <- <-. lia.
Qed.
Lemma ends_parse_flag pos : ends (parse_flag flags_ pf buf pos).
Proof.
  apply ends_bind; [apply ends_scan_from|intros p]. apply ends_bind; [apply ends_at|intros c]. case_match; [by apply ends_fail|].
  apply ends_bind_post.
  - apply ends_bind; [apply ends_at|intros q]. case_match; (apply ends_bind; [apply ends_scan_from|intros p']); (apply ends_bind; [apply ends_at|intros c']);
      case_match; done || by apply ends_fail.
  - intros v st st' [_ (i & n & ->)]%parse_value_post. apply ends_bind; [apply ends_run_flag|done].
Qed.
Lemma ends_flags_loop fuel : forall pos, (length buf < fuel + pos)%nat -> (0 < fuel)%nat -> ends (flags_loop flags_ pf fuel buf pos).
Proof.
  induction fuel as [|fuel IH]; intros pos Hf Hp; [lia|]. cbn [flags_loop].
  apply ends_bind_post; [apply ends_scan_from|intros p s1 s2 Hs%scan_ge]. apply ends_bind; [apply ends_at|intros c]. case_match; [done|].
  apply ends_bind_post; [apply ends_parse_flag|intros q s3 s4 Hq%parse_flag_ge]. apply IH; lia.
Qed.
Lemma ends_parse_flags : ends (parse_flags flags_ pf buf).
Proof. apply ends_bind; [apply ends_flags_loop; lia|intros []]. apply ends_bind; [done|]. intros n. by destruct (n <? 1). Qed.
End Ends.

(** No chain of more than [d] files begins at [p], each named by a part of the text of the
    one before. *)
Fixpoint shallow `{FlagEnv} (d : nat) (p : list Z) : Prop :=
  match file p with
  | None => True
  | Some c => match d with
              | O => False
              | S d => forall i n, shallow d (target (ll_strndup (ReadFileToBuffer c) i n))
              end
  end.
Lemma ends_ParseFile `{FlagEnv} flags_ d : forall p b, shallow d p -> ends (ParseFile flags_ (S d) p b).
Proof.
  induction d as [|d IH]; intros p b Hs; cbn [shallow] in Hs.
  - cbn [ParseFile]. by destruct (file p).
  - change (ParseFile flags_ (S (S d)) p b) with (match file p with
      | None => ret b
      | Some c => parse_flags flags_ (ParseFile flags_ (S d)) (ReadFileToBuffer c) ;;; ret true end : F bool).
    destruct (file p) as [c|]; [|done]. apply ends_bind; [|done]. apply ends_parse_flags. intros i n b'. apply IH, Hs.
Qed.

(** Parsing ends, whatever the text is, unless files include each other in a circle: if no
    chain of more than [d] files begins in the text, a nesting of [d + 1] is enough. *)
Theorem ParseString_ends `{FlagEnv} (flags_ : list Flag) (d : nat) (s : list Z) (st : fstate) :
  (forall i n, shallow d (target (ll_strndup (s ++ [0]) i n))) ->
  ParseString flags_ (S d) (Some s) st <> Fault OutOfFuel.
Proof. intros Hs. cbn [ParseString]. apply ends_parse_flags. intros i n b. by apply ends_ParseFile. Qed.

(** ** Failures *)

(** More than twenty unknown flags stop the process. *)
Lemma run_unknown `{FlagEnv} flags_ pf ss : Forall (fun x => find_flag flags_ (s_name x) = None) ss -> forall st,
  (length (unknown_flags st) <= kMaxUnknownFlags)%nat -> (kMaxUnknownFlags < length (unknown_flags st) + length ss)%nat ->
  run_settings flags_ pf ss st = Fault AssertFailed.
Proof.
  induction 1 as [|x ss Hx _ IH]; intros st Hle Hlt; cbn [length run_settings] in *; [lia|].
  unfold run_flag, run_handler. rewrite Hx. unfold UnknownFlags_Add, bind, gets.
  destruct (length (unknown_flags st) <? kMaxUnknownFlags)%nat eqn:E; [|done]. apply Nat.ltb_lt in E. unfold modify, ret.
  apply IH; cbn [unknown_flags]; rewrite length_app; cbn; lia.
Qed.
Theorem unknown_flags_abort `{FlagEnv} (flags_ : list Flag) (depth : nat) (ss : list setting) (st : fstate) :
  settings_ok ss = true -> Forall (fun x => find_flag flags_ (s_name x) = None) ss ->
  unknown_flags st = [] -> (kMaxUnknownFlags < length ss)%nat ->
  ParseString flags_ depth (Some (settings_text ss)) st = Fault AssertFailed.
Proof.
  intros Hok Hu H0 Hl. pose proof (ParseString_settings flags_ depth [] ss st eq_refl Hok) as E. cbn [app] in E. rewrite E.
  unfold bind. by rewrite (run_unknown flags_ _ ss Hu st) by (rewrite H0; cbn; lia).
Qed.

(** ** Files *)

Lemma read_pages_spec (n : nat) c fuel : forall r, (r <= length c)%nat -> (r <= n * PageSize)%nat ->
  (r = length c \/ exists k, r = (k * PageSize)%nat) -> (n * PageSize < fuel + r)%nat ->
  read_pages fuel (n * PageSize) r c =
    (Nat.min (length c) (n * PageSize), bool_decide (length c + PageSize <= n * PageSize)%nat).
Proof.
  assert (HP : (0 < PageSize)%nat) by (unfold PageSize; lia).
  induction fuel as [|fuel IH]; intros r Hr Hs Hk Hf; [lia|]. cbn [read_pages].
  destruct (Nat.leb_spec (r + PageSize) (n * PageSize)) as [Hle|Hgt].
  - destruct (Nat.eqb_spec (Nat.min PageSize (length c - r)) 0) as [E0|E0].
    + assert (r = length c) as -> by lia. rewrite bool_decide_eq_true_2 by done. f_equal. lia.
    + apply IH; [lia|lia| |lia]. destruct (Nat.le_gt_cases PageSize (length c - r)) as [Hge|Hlt]; [|left; lia].
      right. destruct Hk as [->|[k ->]]; [lia|]. exists (S k). lia.
  - assert (Hb : ~ (length c + PageSize <= n * PageSize)%nat) by lia. rewrite bool_decide_eq_false_2 by done. f_equal.
    destruct Hk as [->|[k ->]]; [lia|].
    assert (k = n) as ->; [|lia]. destruct (Nat.lt_trichotomy k n) as [Hkn|[?|Hkn]]; [|done|].
    + pose proof (Nat.mul_le_mono_r (S k) n PageSize Hkn). lia.
    + pose proof (Nat.mul_le_mono_r (S n) k PageSize Hkn). lia.
Qed.
(** A file of less than 32 kilobytes is followed by a terminator; a longer one is cut. *)
Lemma read_sizes_spec max_len c fuel : forall n, (n * PageSize <= max_len)%nat -> (0 < n)%nat ->
  (max_len < 2 ^ fuel * (2 * (n * PageSize)))%nat -> (exists k, max_len = 2 ^ k * (n * PageSize))%nat ->
  exists size, read_sizes fuel (n * PageSize) max_len c =
    take (Nat.min (length c) size) c ++ replicate (size - Nat.min (length c) size) 0 /\
    (size <= max_len)%nat /\ (length c < size \/ size = max_len)%nat.
Proof.
  assert (HP : (0 < PageSize)%nat) by (unfold PageSize; lia).
  assert (Htop : forall k x, (2 ^ k * x < 2 * x)%nat -> (2 ^ k * x = x)%nat).
  { intros [|k] x Hx; [cbn; lia|]. pose proof (Nat.pow_nonzero 2 k ltac:(lia)). rewrite Nat.pow_succ_r' in *. nia. }
  induction fuel as [|fuel IH]; intros n Hn H0 Hf [k Hk]; cbn [read_sizes].
  all: rewrite (read_pages_spec n c (S (n * PageSize)) 0) by (lia || (right; by exists 0%nat)); cbn [fst snd].
  - exists (n * PageSize)%nat. split; [done|]. split; [done|]. right. rewrite Hk, Htop; [done|]. rewrite <-Hk. rewrite Nat.pow_0_r, Nat.mul_1_l in Hf. done.
  - case_bool_decide as Hb; [exists (n * PageSize)%nat; split; [done|]; split; [done|left; lia]|].
    destruct (Nat.leb_spec (2 * (n * PageSize)) max_len) as [Hle|Hgt].
    + replace (2 * (n * PageSize))%nat with ((2 * n) * PageSize)%nat in * by lia. apply IH; [done|lia| |].
      * rewrite Nat.pow_succ_r' in Hf. nia.
      * destruct k as [|k]; [rewrite Nat.pow_0_r in Hk; nia|]. exists k. rewrite Nat.pow_succ_r' in Hk. nia.
    + exists (n * PageSize)%nat. split; [done|]. split; [done|]. right. rewrite Hk, Htop; [done|]. by rewrite <-Hk.
Qed.
Lemma read_file_spec c :
  ((length c < kMaxIncludeSize)%nat -> exists junk, ReadFileToBuffer c = c ++ 0 :: junk) /\
  ((kMaxIncludeSize <= length c)%nat -> ReadFileToBuffer c = take kMaxIncludeSize c).
Proof.
  unfold ReadFileToBuffer. replace (Nat.max kMaxIncludeSize PageSize) with kMaxIncludeSize by (by symmetry; apply Nat.eqb_eq; vm_compute).
  assert (E : read_sizes 4 PageSize kMaxIncludeSize c = read_sizes 4 (1 * PageSize) kMaxIncludeSize c) by (f_equal; lia).
  rewrite !E. clear E.
  destruct (read_sizes_spec kMaxIncludeSize c 4 1) as (size & -> & Hm & Hs).
  - by apply Nat.leb_le; vm_compute.
  - lia.
  - by apply Nat.ltb_lt; vm_compute.
  - exists 3%nat. by apply Nat.eqb_eq; vm_compute.
  - split; intros Hl.
    + assert (length c < size)%nat by lia. rewrite Nat.min_l, take_ge by lia.
      destruct (size - length c)%nat as [|k] eqn:Ek; [lia|]. by exists (replicate k 0).
    + assert (size = kMaxIncludeSize) as -> by lia. rewrite Nat.min_r by lia. by rewrite Nat.sub_diag, app_nil_r.
Qed.

(** An included file of settings is the same as the settings. *)
Lemma ParseFile_settings `{FlagEnv} flags_ d p b ss st : file p = Some (settings_text ss) -> settings_ok ss = true ->
  (length (settings_text ss) < kMaxIncludeSize)%nat ->
  ParseFile flags_ (S d) p b st = (run_settings flags_ (ParseFile flags_ d) ss ;;; sanity_check ;;; ret true) st.
Proof.
  intros Hf Hok Hl. cbn [ParseFile]. rewrite Hf. destruct (proj1 (read_file_spec _) Hl) as [junk ->]. unfold parse_flags.
  pose proof (flags_loop_spec flags_ (ParseFile flags_ d) junk ss (S (length (settings_text ss ++ 0 :: junk))) [] [] st Hok eq_refl) as E.
  cbn [app length] in E. unfold bind. rewrite E; [|pose proof (settings_length ss); rewrite length_app; lia].
  by destruct (run_settings _ _ _ st) as [[[] st']|].
Qed.
(** A file that includes itself is never read to its end. *)
Theorem include_circle `{FlagEnv} (depth : nat) (p : list Z) (b : bool) (st : fstate) :
  let self := mkSetting (text "include") p None [] in
  file p = Some (settings_text [self]) -> settings_ok [self] = true -> ch "%" ∉ p ->
  (length (settings_text [self]) < kMaxIncludeSize)%nat ->
  ParseFile dfsan_parser depth p b st = Fault OutOfFuel.
Proof.
  intros self Hf Hok Hp Hl. revert b st. induction depth as [|d IH]; intros b st; [done|].
  rewrite (ParseFile_settings _ _ _ _ [self]) by done. unfold bind, run_settings, run_flag, run_handler, bind.
  replace (find_flag dfsan_parser (s_name self)) with (Some (HInclude false)) by (by vm_compute).
  cbn [handler_Parse]. rewrite bool_decide_eq_false_2 by done. cbn [s_value self]. by rewrite IH.
Qed.
(** A file of 32 kilobytes or more without a terminator is read past its end. *)
Theorem long_file_overrun `{FlagEnv} (d : nat) (p c : list Z) (b : bool) (st : fstate) :
  file p = Some c -> (kMaxIncludeSize <= length c)%nat -> forallb is_space c = true ->
  ParseFile dfsan_parser (S d) p b st = Fault Segv.
Proof.
  intros Hf Hl Hs. cbn [ParseFile]. rewrite Hf, (proj2 (read_file_spec c) Hl). unfold parse_flags. set (buf := take kMaxIncludeSize c).
  assert (Hb : forallb is_space buf = true).
  { apply forallb_forall. intros x Hx. rewrite forallb_forall in Hs. apply Hs. unfold buf in Hx. apply list_elem_of_In in Hx.
    apply list_elem_of_In. by eapply subseteq_take. }
  assert (Hscan : forall fuel pos, (pos <= length buf)%nat -> (length buf < fuel + pos)%nat -> scan_while is_space fuel buf pos st = Fault Segv).
  { induction fuel as [|fuel IH]; intros pos Hp Hq; [lia|]. cbn [scan_while]. unfold bind, at_pos.
    destruct (buf !! pos) as [x|] eqn:E; [|done]. cbn [ret]. unfold ret.
    rewrite forallb_forall in Hb. rewrite (Hb x) by (apply list_elem_of_In; by eapply list_elem_of_lookup_2).
    apply lookup_lt_Some in E. apply IH; lia. }
  cbn [flags_loop]. unfold bind, scan_from. rewrite Hscan by lia. done.
Qed.

(** ** Examples *)

Module FlagsEx.
(** One file, [F], and no others. *)
#[local] Instance env : FlagEnv := {|
  process_name := text "prog"; pid := 42;
  file p := if bool_decide (p = text "F") then Some (text "verbosity=1") else None |}.
Definition st0 : fstate := mkF ∅ [] 0.
Definition opts : list (setting * flag_value) :=
  [ (mkSetting (text "verbosity") (text "-12") None (text ":"), VInt (-12));
    (mkSetting (text "log_path") (text "/tmp/a b") (Some 39) [], VStr (Some (text "/tmp/a b")));
    (mkSetting (text "strict_data_dependencies") (text "no") None (text ", "), VBool false);
    (mkSetting (text "verbosity") (text "3") None [], VInt 3) ].
(** Parts of a text without a percent sign name no file but [F], and parts of that name none. *)
Definition lacks (c : Z) (s : list Z) : bool := forallb (fun x => negb (x =? c)) s.
Lemma until_nul_sub s : until_nul s ⊆ s.
Proof.
  induction s as [|x s IH]; [done|]. cbn [until_nul]. destruct (x =? 0); [apply list_subseteq_nil|].
  intros y [->|Hy]%elem_of_cons; [by left|right; by apply IH].
Qed.
Lemma part_lacks c buf i n : lacks c buf = true -> lacks c (ll_strndup buf i n) = true.
Proof.
  unfold lacks, ll_strndup. intros Hb. apply forallb_forall. intros x Hx. rewrite forallb_forall in Hb. apply Hb.
  apply list_elem_of_In in Hx. apply list_elem_of_In. eapply subseteq_drop, subseteq_take, until_nul_sub, Hx.
Qed.
Lemma lacks_notin c s : lacks c s = true -> c ∉ s.
Proof.
  unfold lacks. intros Hs Hc. rewrite forallb_forall in Hs. apply list_elem_of_In, Hs in Hc. by rewrite Z.eqb_refl in Hc.
Qed.
Lemma part_target buf i n : lacks (ch "%") buf = true -> target (ll_strndup buf i n) = ll_strndup buf i n.
Proof. intros Hb. unfold target. by rewrite bool_decide_eq_false_2 by (by apply lacks_notin, part_lacks). Qed.
Lemma one_file buf i n : lacks (ch "%") buf = true -> shallow 1 (target (ll_strndup buf i n)).
Proof.
  intros Hb. rewrite part_target by done. cbn [shallow]. destruct (file (ll_strndup buf i n)) as [c|] eqn:Ef; [|done].
  unfold file, env in Ef. case_bool_decide; [|done]. injection Ef as <-. intros j k.
  set (b := ReadFileToBuffer (text "verbosity=1")).
  assert (Hp : lacks (ch "%") b = true) by (by vm_compute). assert (Hf : lacks (ch "F") b = true) by (by vm_compute).
  rewrite part_target by done. unfold shallow, file, env. rewrite bool_decide_eq_false_2; [done|].
  intros Heq. apply (part_lacks _ _ j k) in Hf. rewrite Heq in Hf. done.
Qed.
Lemma opts_text : settings_text opts.*1 = text "verbosity=-12:log_path='/tmp/a b'strict_data_dependencies=no, verbosity=3".
Proof. by vm_compute. Qed.
Lemma opts_set : Forall (fun e => sets e.1 e.2) opts.
Proof.
  unfold opts. repeat constructor; unfold sets; cbn [fst snd s_name s_value].
  1: exists (VInt 0). 2: exists (VStr (Some (text "stderr"))). 3: exists (VBool true). 4: exists (VInt 0).
  all: split; [apply (bool_decide_eq_true_1 _); by vm_compute|by vm_compute].
Qed.
(** Values that end at a quote need no separator, and the empty text is the number zero. *)
Lemma empty_number : value_of TInt [] = Some (VInt 0).
Proof. by vm_compute. Qed.
End FlagsEx.
Lemma ParseString_settings_witness :
  ParseString (H := FlagsEx.env) dfsan_parser 1 (Some (text " ," ++ settings_text FlagsEx.opts.*1)) FlagsEx.st0 =
    (run_settings (H := FlagsEx.env) dfsan_parser (ParseFile (H := FlagsEx.env) dfsan_parser 1) FlagsEx.opts.*1 ;;; sanity_check) FlagsEx.st0.
Proof. apply (ParseString_settings (H := FlagsEx.env) dfsan_parser 1 (text " ,") FlagsEx.opts.*1 FlagsEx.st0); by vm_compute. Defined.
Lemma options_set_flags_witness :
  exists st', InitializeFlags (H := FlagsEx.env) 1 (Some (settings_text FlagsEx.opts.*1)) FlagsEx.st0 = Ok (tt, st') /\
    vars st' !! text "verbosity" = Some (VInt 3) /\ vars st' !! text "warn_unimplemented" = Some (VBool true).
Proof.
  destruct (options_set_flags (H := FlagsEx.env) 1 FlagsEx.opts FlagsEx.st0) as (st' & E & P); [by vm_compute|apply FlagsEx.opts_set|].
  exists st'. split; [exact E|]. split.
  - rewrite (P (text "verbosity") (VInt 0)); [done|apply (bool_decide_eq_true_1 _); by vm_compute|done|done].
  - rewrite (P (text "warn_unimplemented") (VBool true)); [done|apply (bool_decide_eq_true_1 _); by vm_compute|done|done].
Defined.
Lemma flags_typed_witness :
  exists st', InitializeFlags (H := FlagsEx.env) 2 (Some (text "include=F:zzz=1")) FlagsEx.st0 = Ok (tt, st') /\
    1 <= get_int (text "malloc_context_size") st' /\
    exists v, vars st' !! text "verbosity" = Some v /\ type_of v = TInt.
Proof.
  destruct (InitializeFlags (H := FlagsEx.env) 2 (Some (text "include=F:zzz=1")) FlagsEx.st0) as [[[] st']|x] eqn:E.
  - exists st'. destruct (flags_typed (H := FlagsEx.env) 2 _ FlagsEx.st0 st' eq_refl E) as (T & C & _).
    split; [done|]. split; [exact C|]. apply (T _ (VInt 0)). apply (bool_decide_eq_true_1 _). by vm_compute.
  - exfalso. assert (Ht : match InitializeFlags (H := FlagsEx.env) 2 (Some (text "include=F:zzz=1")) FlagsEx.st0 with Ok _ => true | Fault _ => false end = true) by (by vm_compute).
    by rewrite E in Ht.
Defined.
Lemma ParseString_ends_witness :
  ParseString (H := FlagsEx.env) dfsan_parser 2 (Some (text "include=F")) FlagsEx.st0 <> Fault OutOfFuel.
Proof.
  apply (ParseString_ends (H := FlagsEx.env) dfsan_parser 1 (text "include=F") FlagsEx.st0). intros i n.
  apply FlagsEx.one_file; by vm_compute.
Defined.
