(* ===== verification/SanSort.v ===== *)
(** * Sorting and searching in the runtime

    The templates [InternalSort] (a heap sort) and [InternalBinarySearch] of
    [sanitizer_common.h] and [SortArray] of [sanitizer_common.cc], over a list with
    checked accesses. *)

From S2P Require Import Prelude PriorityQueue.

Section Container.
Context {T : Type}.
(** [v\[i\]] and [Swap(v\[i\], v\[j\])]. *)
Definition vget (i : nat) : M (list T) T := fun v =>
  match v !! i with Some x => Ok (x, v) | None => Fault Segv end.
Definition vset (i : nat) (x : T) : M (list T) unit := fun v =>
  match v !! i with Some _ => Ok (tt, <[i := x]> v) | None => Fault Segv end.
Definition vget_z (i : Z) : M (list T) T := fun v =>
  if (i <? Z.of_nat (length v))%Z then vget (Z.to_nat i) v else Fault Segv.
Definition vswap (i j : nat) : M (list T) unit :=
  x <- vget i ;; y <- vget j ;; vset j x ;;; vset i y.
End Container.

Section Sort.
Context {T : Type} (comp : T -> T -> bool).

(** The first inner loop, from [j] upwards. *)
Fixpoint heap_insert (fuel j : nat) : M (list T) unit :=
  match fuel with
  | O => fail OutOfFuel
  | S k =>
      if (j =? 0)%nat then ret tt else
      let p := (j - 1) / 2 in
      x <- vget p ;; y <- vget j ;;
      if comp x y then vswap j p ;;; heap_insert k p else ret tt
  end.
(** The second inner loop: the element at [j] sinks in the first [i] elements. *)
Fixpoint sink (fuel i j : nat) : M (list T) unit :=
  match fuel with
  | O => fail OutOfFuel
  | S k =>
      if negb (j <? i)%nat then ret tt else
      let left := 2 * j + 1 in
      let right := 2 * j + 2 in
      let max_ind := j in
      max_ind <- (if (left <? i)%nat
                  then x <- vget max_ind ;; y <- vget left ;; ret (if comp x y then left else max_ind)
                  else ret max_ind) ;;
      max_ind <- (if (right <? i)%nat
                  then x <- vget max_ind ;; y <- vget right ;; ret (if comp x y then right else max_ind)
                  else ret max_ind) ;;
      if negb (max_ind =? j)%nat then vswap j max_ind ;;; sink k i max_ind else ret tt
  end.
(** [for (i = 1; i < size; i++)] *)
Fixpoint heapify (n i : nat) : M (list T) unit :=
  match n with
  | O => ret tt
  | S k => heap_insert (S i) i ;;; heapify k (S i)
  end.
(** [for (i = size - 1; i > 0; i--)] *)
Fixpoint unheap (i : nat) : M (list T) unit :=
  match i with
  | O => ret tt
  | S k => vswap 0 i ;;; sink (S i) i 0 ;;; unheap k
  end.
Definition InternalSort (size : nat) : M (list T) unit :=
  if (size <? 2)%nat then ret tt else heapify (size - 1) 1 ;;; unheap (size - 1).

(** Indices are unsigned: [mid - 1] wraps around. *)
Fixpoint search_loop {V} (less : T -> V -> bool) (greater : V -> T -> bool) (val : V) (not_found : Z)
  (fuel : nat) (first last : Z) : M (list T) Z :=
  match fuel with
  | O => fail OutOfFuel
  | S k =>
      if negb (first <=? last)%Z then ret not_found else
      let mid := (u64 (first + last) / 2)%Z in
      x <- vget_z mid ;;
      if less x val then search_loop less greater val not_found k (u64 (mid + 1)) last
      else if greater val x then search_loop less greater val not_found k first (u64 (mid - 1))
      else ret mid
  end.
Definition InternalBinarySearch {V} (less : T -> V -> bool) (greater : V -> T -> bool) (val : V)
  (first last : Z) : M (list T) Z := fun v =>
  search_loop less greater val (u64 (last + 1)) (S (length v)) first last v.
End Sort.

(** [SortArray] on an array of integers. *)
Definition CompareLess (a b : Z) : bool := (a <? b)%Z.
Definition SortArray (size : nat) : M (list Z) unit := InternalSort CompareLess size.

(** ** Accesses *)

Section Access.
Context {T : Type} `{Inhabited T}.
Implicit Types l : list T.
Lemma vget_Ok i l : (i < length l)%nat -> vget i l = Ok (l !!! i, l).
Proof.
  intros Hi. unfold vget. destruct (lookup_lt_is_Some_2 l i Hi) as [x Hx]. rewrite Hx.
  by rewrite (list_lookup_total_correct _ _ _ Hx).
Qed.
Lemma vget_z_Ok i l : (0 <= i < Z.of_nat (length l))%Z -> vget_z i l = Ok (l !!! Z.to_nat i, l).
Proof. intros Hi. unfold vget_z. rewrite (proj2 (Z.ltb_lt _ _)) by lia. apply vget_Ok. lia. Qed.
Lemma vset_Ok i x l : (i < length l)%nat -> vset i x l = Ok (tt, <[i := x]> l).
Proof. intros Hi. unfold vset. by destruct (lookup_lt_is_Some_2 l i Hi) as [y ->]. Qed.
Lemma vswap_Ok i j l : (i < length l)%nat -> (j < length l)%nat -> vswap i j l = Ok (tt, swap i j l).
Proof.
  intros Hi Hj. unfold vswap. rewrite (bind_Ok _ _ _ _ _ (vget_Ok i l Hi)), (bind_Ok _ _ _ _ _ (vget_Ok j l Hj)).
  rewrite (bind_Ok _ _ _ _ _ (vset_Ok j _ l Hj)). by rewrite vset_Ok by by rewrite length_insert.
Qed.
End Access.
Lemma half_parent j : (0 < j)%nat -> ((j - 1) / 2)%nat = parent j.
Proof.
  intros Hj. symmetry. apply parent_child; [done|]. pose proof (Nat.div_mod (j - 1) 2 ltac:(lia)).
  pose proof (Nat.mod_upper_bound (j - 1) 2 ltac:(lia)). lia.
Qed.

(** ** Sorting *)

Section Correct.
Context {T : Type} `{Inhabited T} (comp : T -> T -> bool).
(** [comp] is a strict weak order. *)
Definition le (x y : T) : Prop := comp y x = false.
Hypothesis le_trans : forall x y z, le x y -> le y z -> le x z.
Hypothesis comp_le : forall x y, comp x y = true -> le x y.
Implicit Types l : list T.

(** Every element of the first [n] is below its parent. *)
Definition heap_at l (n : nat) : Prop := forall c, (0 < c < n)%nat -> le (l !!! c) (l !!! parent c).
(** The same, but for [i] and its parent. *)
Definition rising l (n i : nat) : Prop :=
  (forall c, (0 < c < n)%nat -> c <> i -> le (l !!! c) (l !!! parent c)) /\
  (forall c, (0 < c < n)%nat -> parent c = i -> (0 < i)%nat -> le (l !!! c) (l !!! parent i)).
(** The same, but for [j] and its children. *)
Definition sinking l (n j : nat) : Prop :=
  (forall c, (0 < c < n)%nat -> parent c <> j -> le (l !!! c) (l !!! parent c)) /\
  (forall c, (0 < c < n)%nat -> parent c = j -> (0 < j)%nat -> le (l !!! c) (l !!! parent j)).

Lemma le_refl x : le x x.
Proof. unfold le. destruct (comp x x) eqn:E; [|done]. pose proof E as E'. apply comp_le in E'. unfold le in E'. congruence. Qed.
Lemma heap_top l n c : heap_at l n -> (c < n)%nat -> le (l !!! c) (l !!! 0).
Proof.
  intros Hh. induction c as [c IH] using lt_wf_ind. intros Hc. destruct (decide (c = 0)) as [->|Hne]; [apply le_refl|].
  pose proof (parent_lt c ltac:(lia)). eapply le_trans; [apply Hh; lia|]. apply IH; lia.
Qed.

Lemma heap_insert_spec n fuel : forall j l, (j < n <= length l)%nat -> (j < fuel)%nat -> rising l n j ->
  exists l', heap_insert comp fuel j l = Ok (tt, l') /\ l' ≡ₚ l /\ heap_at l' n /\ drop n l' = drop n l.
Proof.
  induction fuel as [|fuel IH]; intros j l Hj Hf [H1 H2]; [lia|]. cbn [heap_insert].
  destruct (Nat.eqb_spec j 0) as [->|Hj0].
  { exists l. split_and!; try done. intros c Hc. apply H1; lia. }
  rewrite half_parent by lia. pose proof (parent_lt j ltac:(lia)) as Hp.
  rewrite (bind_Ok _ _ _ _ _ (vget_Ok (parent j) l ltac:(lia))), (bind_Ok _ _ _ _ _ (vget_Ok j l ltac:(lia))).
  destruct (comp (l !!! parent j) (l !!! j)) eqn:E.
  2: { exists l. split_and!; try done. intros c Hc. destruct (decide (c = j)) as [->|]; [done|by apply H1]. }
  rewrite (bind_Ok _ _ _ _ _ (vswap_Ok j (parent j) l ltac:(lia) ltac:(lia))). set (l1 := swap j (parent j) l).
  assert (Hlen : length l1 = length l) by apply swap_length.
  assert (Hk : forall k, l1 !!! k = if decide (k = j) then l !!! parent j else if decide (k = parent j) then l !!! j else l !!! k)
    by (intros k; apply swap_lookup; lia).
  destruct (IH (parent j) l1) as (l' & E' & P & Hh & D); [lia|lia| |].
  - split; intros c Hc; rewrite !Hk.
    + intros Hne. destruct (decide (c = j)) as [->|Hcj].
      * rewrite decide_False, decide_True by lia. by apply comp_le.
      * rewrite (decide_False (P := c = parent j)) by done. destruct (decide (parent c = j)) as [Epc|Epc]; [apply H2; [done|done|lia]|].
        destruct (decide (parent c = parent j)) as [Eqp|Eqp]; [|by apply H1].
        apply (le_trans _ (l !!! parent j)); [rewrite <-Eqp; by apply H1|by apply comp_le].
    + intros Hcp Hpos. pose proof (parent_lt (parent j) Hpos). rewrite !(decide_False (P := parent (parent j) = _)) by lia.
      assert (Hpp : le (l !!! parent j) (l !!! parent (parent j))) by (apply H1; lia).
      destruct (decide (c = j)) as [->|Hcj]; [done|]. pose proof (parent_lt c ltac:(lia)).
      rewrite decide_False by lia. eapply le_trans; [|exact Hpp]. rewrite <-Hcp. by apply H1.
  - exists l'. split_and!; [done|rewrite P; apply swap_perm; lia|done|]. rewrite D. unfold l1, swap. by rewrite !drop_insert_lt by lia.
Qed.

(** The larger child, if one is larger than its parent. *)
Lemma pick_spec n j k l : (j < length l)%nat -> (k < length l)%nat ->
  exists m, (if (k <? n)%nat then x <- vget j ;; y <- vget k ;; ret (if comp x y then k else j) else ret j) l = Ok (m, l) /\
    (m = j \/ m = k /\ (k < n)%nat) /\ le (l !!! j) (l !!! m) /\ ((k < n)%nat -> le (l !!! k) (l !!! m)).
Proof.
  intros Hj Hk. destruct (Nat.ltb_spec k n) as [Hn|Hn].
  - rewrite (bind_Ok _ _ _ _ _ (vget_Ok j l Hj)), (bind_Ok _ _ _ _ _ (vget_Ok k l Hk)).
    destruct (comp (l !!! j) (l !!! k)) eqn:E; eexists; (split; [done|]).
    + split; [by right|]. split; [by apply comp_le|intros _; apply le_refl].
    + split; [by left|]. split; [apply le_refl|done].
  - exists j. split; [done|]. split; [by left|]. split; [apply le_refl|lia].
Qed.
Lemma pick_far n j k l : (n <= k)%nat ->
  (if (k <? n)%nat then x <- vget j ;; y <- vget k ;; ret (if comp x y then k else j) else ret j) l = Ok (j, l).
Proof. intros Hk. by rewrite (proj2 (Nat.ltb_ge k n)). Qed.
(** Both tests: the place of the largest of [j] and its children. *)
Lemma sink_step n j l : (j < n <= length l)%nat ->
  exists m, (m1 <- (if (2 * j + 1 <? n)%nat then x <- vget j ;; y <- vget (2 * j + 1) ;; ret (if comp x y then 2 * j + 1 else j) else ret j) ;;
     if (2 * j + 2 <? n)%nat then x <- vget m1 ;; y <- vget (2 * j + 2) ;; ret (if comp x y then 2 * j + 2 else m1) else ret m1) l = Ok (m, l) /\
    (m = j \/ (0 < m < n)%nat /\ parent m = j) /\ le (l !!! j) (l !!! m) /\
    forall c, (0 < c < n)%nat -> parent c = j -> le (l !!! c) (l !!! m).
Proof.
  intros Hj.
  assert (Hch : forall c, (0 < c < n)%nat -> parent c = j -> c = (2 * j + 1)%nat \/ c = (2 * j + 2)%nat)
    by (intros c Hc E; apply parent_child; lia).
  destruct (Nat.lt_ge_cases (2 * j + 1) n) as [Hl|Hl].
  2: { exists j. rewrite (bind_Ok _ _ _ _ _ (pick_far n j _ l Hl)), pick_far by lia. split; [done|].
       split; [by left|]. split; [apply le_refl|]. intros c Hc E. destruct (Hch c Hc E); lia. }
  destruct (pick_spec n j (2 * j + 1) l) as (m1 & E1 & M1 & L1 & C1); [lia|lia|]. rewrite (bind_Ok _ _ _ _ _ E1).
  assert (P1 : parent (2 * j + 1) = j) by (apply parent_child; lia).
  assert (P2 : parent (2 * j + 2) = j) by (apply parent_child; lia).
  destruct (Nat.lt_ge_cases (2 * j + 2) n) as [Hr|Hr].
  - destruct (pick_spec n m1 (2 * j + 2) l) as (m & E2 & M2 & L2 & C2); [lia|lia|]. rewrite E2. exists m. split; [done|].
    split; [|split; [by eapply le_trans|]].
    + destruct M2 as [-> |[-> _]]; [destruct M1 as [-> |[-> _]]; [by left|right; split; [lia|done]]|right; split; [lia|done]].
    + intros c Hc E. destruct (Hch c Hc E) as [-> | ->]; [eapply le_trans; [by apply C1|done]|by apply C2].
  - rewrite pick_far by lia. exists m1. split; [done|]. split; [|split; [done|]].
    + destruct M1 as [-> |[-> _]]; [by left|right; split; [lia|done]].
    + intros c Hc E. destruct (Hch c Hc E) as [-> | ->]; [by apply C1|lia].
Qed.
Lemma sink_spec n fuel : forall j l, (n <= length l)%nat -> (n < fuel + j)%nat -> (0 < fuel)%nat -> sinking l n j ->
  exists l', sink comp fuel n j l = Ok (tt, l') /\ l' ≡ₚ l /\ heap_at l' n /\ drop n l' = drop n l.
Proof.
  induction fuel as [|fuel IH]; intros j l Hn Hf Hp [H1 H2]; [lia|]. cbn [sink].
  destruct (Nat.ltb_spec j n) as [Hj|Hj]; cbn [negb].
  2: { exists l. split_and!; try done. intros c Hc. apply H1; [done|]. pose proof (parent_lt c ltac:(lia)). lia. }
  destruct (sink_step n j l) as (m & E & Hm & Lm & Cm); [lia|]. cbv zeta. rewrite bind_assoc, (bind_Ok _ _ _ _ _ E).
  destruct (Nat.eqb_spec m j) as [->|Hne]; cbn [negb].
  { exists l. split_and!; try done. intros c Hc. destruct (decide (parent c = j)) as [Ec|Ec]; [rewrite Ec; by apply Cm|by apply H1]. }
  destruct Hm as [?|[Hm Pm]]; [done|]. pose proof (parent_lt m ltac:(lia)) as Hjm. rewrite Pm in Hjm.
  rewrite (bind_Ok _ _ _ _ _ (vswap_Ok j m l ltac:(lia) ltac:(lia))). set (l1 := swap j m l).
  assert (Hlen : length l1 = length l) by apply swap_length.
  assert (Hk : forall k, l1 !!! k = if decide (k = j) then l !!! m else if decide (k = m) then l !!! j else l !!! k)
    by (intros k; apply swap_lookup; lia).
  destruct (IH m l1) as (l' & E' & P & Hh & D); [lia|lia|lia| |].
  - split; intros c Hc; rewrite !Hk.
    + intros Hpc. destruct (decide (c = j)) as [->|Hcj].
      * pose proof (parent_lt j ltac:(lia)). rewrite !decide_False by lia. apply H2; [lia|done|lia].
      * rewrite (decide_False (P := parent c = m)) by done. destruct (decide (c = m)) as [->|Hcm].
        -- by rewrite decide_True.
        -- destruct (decide (parent c = j)) as [Ec|Ec]; [by apply Cm|by apply H1].
    + intros Hpc _. pose proof (parent_lt c ltac:(lia)). rewrite Pm, !decide_False, decide_True by lia.
      rewrite <-Hpc. apply H1; lia.
  - exists l'. split_and!; [done|rewrite P; apply swap_perm; lia|done|]. rewrite D. unfold l1, swap. by rewrite !drop_insert_lt by lia.
Qed.

(** *** The outer loops *)

Lemma heap_rising l n : heap_at l n -> rising l (S n) n.
Proof.
  intros Hh. split; intros c Hc.
  - intros Hne. apply Hh. lia.
  - intros Hpc. pose proof (parent_lt c ltac:(lia)). lia.
Qed.
Lemma heapify_spec n : forall i l, (0 < i)%nat -> (i + n <= length l)%nat -> heap_at l i ->
  exists l', heapify comp n i l = Ok (tt, l') /\ l' ≡ₚ l /\ heap_at l' (i + n) /\ drop (i + n) l' = drop (i + n) l.
Proof.
  induction n as [|n IH]; intros i l Hi Hn Hh; cbn [heapify].
  { exists l. by rewrite Nat.add_0_r. }
  destruct (heap_insert_spec (S i) (S i) i l) as (l1 & E & P & H1 & D); [lia|lia|by apply heap_rising|].
  pose proof (Permutation_length P). rewrite (bind_Ok _ _ _ _ _ E).
  destruct (IH (S i) l1) as (l' & E' & P' & H' & D'); [lia|lia|done|].
  exists l'. replace (i + S n)%nat with (S i + n)%nat by lia. split_and!; [done|by rewrite P'|done|].
  rewrite D'. rewrite <-!(drop_drop l1), <-!(drop_drop l). by rewrite D.
Qed.
(** The elements from [k] are in order, and not below any before them. *)
Definition ordered_from l (size k : nat) : Prop := forall a c, (a < c < size)%nat -> (k <= c)%nat -> le (l !!! a) (l !!! c).
Lemma unheap_spec size i : forall l, (i < size <= length l)%nat -> heap_at l (S i) -> ordered_from l size (S i) ->
  exists l', unheap comp i l = Ok (tt, l') /\ l' ≡ₚ l /\ ordered_from l' size 1 /\ drop size l' = drop size l.
Proof.
  induction i as [|i IH]; intros l Hi Hh Ho; cbn [unheap]; [by exists l|].
  rewrite (bind_Ok _ _ _ _ _ (vswap_Ok 0 (S i) l ltac:(lia) ltac:(lia))). set (l1 := swap 0 (S i) l).
  assert (Hlen : length l1 = length l) by apply swap_length.
  assert (Hk : forall k, l1 !!! k = if decide (k = 0)%nat then l !!! S i else if decide (k = S i) then l !!! 0%nat else l !!! k)
    by (intros k; apply swap_lookup; lia).
  assert (Hbelow : forall k c, (k <= i)%nat -> (S i <= c < size)%nat -> le (l1 !!! k) (l1 !!! c)).
  { intros k c Hki Hc. rewrite !Hk. rewrite (decide_False (P := c = 0%nat)) by lia.
    assert (Hkk : exists k', (k' <= S i)%nat /\ (if decide (k = 0%nat) then l !!! S i else if decide (k = S i) then l !!! 0%nat else l !!! k) = l !!! k').
    { destruct (decide (k = 0%nat)); [by exists (S i)|]. rewrite decide_False by lia. by exists k; split; [lia|]. }
    destruct Hkk as (k' & Hk' & ->). destruct (decide (c = S i)); [apply (heap_top l (S (S i))); [done|lia]|apply Ho; lia]. }
  destruct (sink_spec (S i) (S (S i)) 0 l1) as (l2 & E & P & Hh2 & D); [lia|lia|lia| |].
  { split; intros c Hc; [|lia]. intros Hpc. pose proof (parent_lt c ltac:(lia)). rewrite !Hk, !decide_False by lia. apply Hh. lia. }
  pose proof (Permutation_length P). rewrite (bind_Ok _ _ _ _ _ E).
  assert (Hsame : forall c, (S i <= c)%nat -> l2 !!! c = l1 !!! c).
  { intros c Hc. replace c with (S i + (c - S i))%nat by lia. by rewrite <-!lookup_total_drop, D. }
  assert (Htake : take (S i) l2 ≡ₚ take (S i) l1).
  { rewrite <-(take_drop (S i) l2), <-(take_drop (S i) l1), D in P. by apply Permutation_app_inv_r in P. }
  destruct (IH l2) as (l' & E' & P' & O' & D'); [lia|done| |].
  - intros x c Hxc Hc. rewrite (Hsame c Hc). destruct (Nat.lt_ge_cases x (S i)) as [Hx|Hx].
    + destruct (lookup_lt_is_Some_2 l2 x) as [y Hy]; [lia|]. rewrite (list_lookup_total_correct _ _ _ Hy).
      assert (Hin : y ∈ take (S i) l1).
      { rewrite <-Htake. apply (list_elem_of_lookup_2 _ x). by rewrite lookup_take_lt. }
      apply list_elem_of_lookup_1 in Hin as [k Hyk]. apply lookup_take_Some in Hyk as [Hyk Hki].
      rewrite <-(list_lookup_total_correct _ _ _ Hyk). apply Hbelow; lia.
    + rewrite (Hsame x Hx), !Hk, !(decide_False (P := _ = 0%nat)) by lia. rewrite (decide_False (P := c = S i)) by lia.
      destruct (decide (x = S i)); apply Ho; lia.
  - exists l'. split_and!; [done|rewrite P', P; apply swap_perm; lia|done|]. rewrite D'.
    replace size with (S i + (size - S i))%nat by lia. rewrite <-!drop_drop, D, !drop_drop. unfold l1, swap. by rewrite !drop_insert_lt by lia.
Qed.

Lemma InternalSort_spec size l : (size <= length l)%nat ->
  exists l', InternalSort comp size l = Ok (tt, l') /\ l' ≡ₚ l /\ drop size l' = drop size l /\
    forall a c, (a < c < size)%nat -> le (l' !!! a) (l' !!! c).
Proof.
  intros Hs. unfold InternalSort. destruct (Nat.ltb_spec size 2) as [H2|H2].
  { exists l. split_and!; try done. lia. }
  destruct (heapify_spec (size - 1) 1 l) as (l1 & E & P & Hh & D); [lia|lia|intros c Hc; lia|].
  pose proof (Permutation_length P). rewrite (bind_Ok _ _ _ _ _ E). replace (1 + (size - 1))%nat with size in * by lia.
  destruct (unheap_spec size (size - 1) l1) as (l' & E' & P' & O & D'); [lia|by replace (S (size - 1)) with size by lia|intros x c; lia|].
  exists l'. split_and!; [done|by rewrite P'|by rewrite D'|]. intros x c Hc. apply O; lia.
Qed.

(** *** Searching *)

(** Where the search has still to look, in a list that is sorted from [f0] to [l0]. *)
Record searching (v : list T) (val : T) (f0 l0 first last : Z) : Prop := mkSearching {
  sg_first : (f0 <= first)%Z; sg_last : (last <= l0)%Z;
  sg_below k : (f0 <= k < first)%Z -> comp (v !!! Z.to_nat k) val = true;
  sg_above k : (last < k <= l0)%Z -> comp val (v !!! Z.to_nat k) = true }.
Definition equiv (x y : T) : Prop := comp x y = false /\ comp y x = false.
Lemma le_lt_trans x y z : le x y -> comp y z = true -> comp x z = true.
Proof.
  intros H1 H2. destruct (comp x z) eqn:E; [done|]. pose proof (le_trans z x y E H1) as H3. unfold le in H3. congruence.
Qed.
Lemma lt_le_trans x y z : comp x y = true -> le y z -> comp x z = true.
Proof.
  intros H1 H2. destruct (comp x z) eqn:E; [done|]. pose proof (le_trans y z x H2 E) as H3. unfold le in H3. congruence.
Qed.
Lemma search_loop_spec (v : list T) (val : T) (f0 l0 : Z) : (0 <= f0)%Z -> (l0 < Z.of_nat (length v) < 2 ^ 62)%Z ->
  (forall a c, (f0 <= a <= c)%Z -> (c <= l0)%Z -> le (v !!! Z.to_nat a) (v !!! Z.to_nat c)) ->
  comp val (v !!! Z.to_nat f0) = false ->
  forall fuel (first last : Z), searching v val f0 l0 first last -> (last - first + 1 < Z.of_nat fuel)%Z -> (0 < fuel)%nat -> (f0 <= last + 1)%Z ->
  exists r, search_loop comp comp val (l0 + 1) fuel first last v = Ok (r, v) /\
    ((f0 <= r <= l0)%Z /\ equiv (v !!! Z.to_nat r) val \/
     r = (l0 + 1)%Z /\ forall k, (f0 <= k <= l0)%Z -> ~ equiv (v !!! Z.to_nat k) val).
Proof.
  intros H0 Hl Hs Hv. induction fuel as [|fuel IH]; intros first last [Sf Sl Sb Sa] Hf Hp Hfl; [lia|]. cbn [search_loop].
  destruct (Z.leb_spec first last) as [Hle|Hgt]; cbn [negb].
  2: { eexists. split; [done|]. right. split; [done|]. intros k Hk [E1 E2]. destruct (Z_lt_le_dec k first) as [Hk1|Hk1].
       - rewrite Sb in E1 by lia. done.
       - rewrite Sa in E2 by lia. done. }
  rewrite (u64_small (first + last)) by lia. set (mid := ((first + last) / 2)%Z). cbv zeta.
  assert (Hm : (first <= mid <= last)%Z).
  { unfold mid. pose proof (Z.div_mod (first + last) 2 ltac:(lia)). pose proof (Z.mod_pos_bound (first + last) 2 ltac:(lia)). lia. }
  rewrite (bind_Ok _ _ _ _ _ (vget_z_Ok mid v ltac:(lia))).
  destruct (comp (v !!! Z.to_nat mid) val) eqn:E1; [|destruct (comp val (v !!! Z.to_nat mid)) eqn:E2].
  - rewrite u64_small by lia. apply IH; [|lia|lia|lia]. split; [lia|done| |done].
    intros k Hk. apply (le_lt_trans _ (v !!! Z.to_nat mid)); [|done]. apply Hs; lia.
  - assert (f0 < mid)%Z by (destruct (Z.eq_dec mid f0) as [Em|]; [rewrite Em in E2; congruence|lia]).
    rewrite u64_small by lia. apply IH; [|lia|lia|lia]. split; [done|lia|done|].
    intros k Hk. apply (lt_le_trans _ (v !!! Z.to_nat mid)); [done|]. apply Hs; lia.
  - exists mid. split; [done|]. left. split; [lia|done].
Qed.
End Correct.

(** C40: [InternalSort] with a strict weak order returns, and leaves the first [size] elements
    in order: the same elements, none out of order, and the rest untouched. *)
Theorem InternalSort_sorts {T} `{Inhabited T} (comp : T -> T -> bool) (v : list T) (size : nat) :
  (forall x y z, comp y x = false -> comp z y = false -> comp z x = false) ->
  (forall x y, comp x y = true -> comp y x = false) -> (size <= length v)%nat ->
  exists v', InternalSort comp size v = Ok (tt, v') /\ v' ≡ₚ v /\ drop size v' = drop size v /\
    forall a c, (a < c < size)%nat -> comp (v' !!! c) (v' !!! a) = false.
Proof. intros Ht Hc. by apply InternalSort_spec. Qed.
Lemma InternalSort_sorts_witness :
  exists v', InternalSort CompareLess 5 [5; 2; 9; 2; 7; 0]%Z = Ok (tt, v') /\
    forall a c, (a < c < 5)%nat -> CompareLess (v' !!! c) (v' !!! a) = false.
Proof.
  destruct (InternalSort_sorts CompareLess [5; 2; 9; 2; 7; 0]%Z 5) as (v' & E & _ & _ & Hs).
  - unfold CompareLess. intros x y z ?%Z.ltb_ge ?%Z.ltb_ge. apply Z.ltb_ge. lia.
  - unfold CompareLess. intros x y ?%Z.ltb_lt. apply Z.ltb_ge. lia.
  - cbn. lia.
  - by exists v'.
Defined.

(** The binary search of a value that is not below the first element is exact. *)
Theorem InternalBinarySearch_exact {T} `{Inhabited T} (comp : T -> T -> bool) (v : list T) (val : T) (first last : Z) :
  (forall x y z, comp y x = false -> comp z y = false -> comp z x = false) ->
  (0 <= first <= last)%Z -> (last < Z.of_nat (length v) < 2 ^ 62)%Z ->
  (forall a c, (first <= a <= c)%Z -> (c <= last)%Z -> comp (v !!! Z.to_nat c) (v !!! Z.to_nat a) = false) ->
  comp val (v !!! Z.to_nat first) = false ->
  exists r, InternalBinarySearch comp comp val first last v = Ok (r, v) /\
    ((first <= r <= last)%Z /\ equiv comp (v !!! Z.to_nat r) val \/
     r = (last + 1)%Z /\ forall k, (first <= k <= last)%Z -> ~ equiv comp (v !!! Z.to_nat k) val).
Proof.
  intros Ht H0 Hl Hs Hv. unfold InternalBinarySearch. rewrite (u64_small (last + 1)) by lia.
  apply (search_loop_spec comp Ht v val first last); try done; try lia. split; lia.
Qed.
Lemma InternalBinarySearch_exact_witness :
  exists r, InternalBinarySearch CompareLess CompareLess 7%Z 0 3 [2; 5; 7; 9]%Z = Ok (r, [2; 5; 7; 9]%Z).
Proof.
  destruct (InternalBinarySearch_exact CompareLess [2; 5; 7; 9]%Z 7%Z 0 3) as (r & E & _).
  - unfold CompareLess. intros x y z ?%Z.ltb_ge ?%Z.ltb_ge. apply Z.ltb_ge. lia.
  - lia.
  - cbn. lia.
  - intros a c Ha Hc. assert (a = 0 \/ a = 1 \/ a = 2 \/ a = 3)%Z as Ea by lia. assert (c = 0 \/ c = 1 \/ c = 2 \/ c = 3)%Z as Ec by lia.
    destruct Ea as [-> |[-> |[-> | ->]]], Ec as [-> |[-> |[-> | ->]]]; (done || lia).
  - done.
  - by exists r.
Defined.
(** A value below the first element sends the search out of bounds: [mid - 1] wraps. *)
Theorem search_below_first_faults :
  InternalBinarySearch CompareLess CompareLess 1%Z 0 3 [2; 5; 7; 9]%Z = Fault Segv.
Proof. by vm_compute. Qed.
