(* ===== verification/Ir.v ===== *)
(** * LLVM IR as the static analysis sees it

    The part of LLVM's in-memory representation that
    [tools/llvm-diff-parmesan] reads.  Objects have an address, which is their
    identity; values refer to arguments, instructions and blocks by address.
    Both modules that are compared live in one context, so that equal constants
    are one object. *)

From S2P Require Import Prelude.

Local Open Scope Z_scope.

(** Instruction opcodes; those the tool never looks at are numbered. *)
Inductive opcode :=
| OpBr | OpSwitch | OpIndirectBr | OpInvoke | OpUnreachable
| OpICmp | OpFCmp | OpPHI | OpCall | OpLoad | OpStore | OpOther (n : Z).
#[export] Instance opcode_eq_dec : EqDecision opcode.
Proof. solve_decision. Defined.

Local Set Warnings "-register-all".

(** Constants, with their address. *)
Inductive constant :=
| CGlobal (kind : Z) (p : Z) (name : string)              (* GlobalValue: function, variable, alias *)
| CExpr (p : Z) (opc : opcode) (pred : Z) (ops : list constant)
| CPointerNull (p : Z)
| CUndef (p : Z)
| CAggregateZero (p : Z)
| CBlockAddress (p : Z) (bb : Z)
| CVector (p : Z) (els : list constant)
| CInt (p : Z) (v : Z)
| CData (kind : Z) (p : Z).                               (* other constants *)
Definition GlobalFunction : Z := 0.

Definition const_ptr (c : constant) : Z :=
  match c with
  | CGlobal _ p _ | CExpr p _ _ _ | CPointerNull p | CUndef p | CAggregateZero p
  | CBlockAddress p _ | CVector p _ | CInt p _ | CData _ p => p
  end.

Inductive value :=
| VArgument (p : Z)
| VInst (p : Z) (opc : opcode)
| VBlock (p : Z)
| VConst (c : constant)
| VOther (kind : Z) (p : Z).                              (* inline assembly, metadata *)

(** [Value::getValueID]: for an instruction it includes the opcode. *)
Inductive value_id :=
| IdArgument | IdBlock | IdInst (opc : opcode) | IdOther (kind : Z)
| IdGlobal (kind : Z) | IdExpr | IdPointerNull | IdUndef | IdAggregateZero | IdBlockAddress
| IdVector | IdInt | IdData (kind : Z).
#[export] Instance value_id_eq_dec : EqDecision value_id.
Proof. solve_decision. Defined.

Definition const_id (c : constant) : value_id :=
  match c with
  | CGlobal k _ _ => IdGlobal k | CExpr _ _ _ _ => IdExpr | CPointerNull _ => IdPointerNull
  | CUndef _ => IdUndef | CAggregateZero _ => IdAggregateZero | CBlockAddress _ _ => IdBlockAddress
  | CVector _ _ => IdVector | CInt _ _ => IdInt | CData k _ => IdData k
  end.
Definition getValueID (v : value) : value_id :=
  match v with
  | VArgument _ => IdArgument | VInst _ o => IdInst o | VBlock _ => IdBlock
  | VConst c => const_id c | VOther k _ => IdOther k
  end.
Definition value_ptr (v : value) : Z :=
  match v with
  | VArgument p | VInst p _ | VBlock p | VOther _ p => p
  | VConst c => const_ptr c
  end.

(** What an instruction is, with the accessors of its class. *)
Inductive ikind :=
| KCmp (fcmp : bool) (pred : Z)
| KCall (callee : value) (args : list value)
| KPhi
| KInvoke (callee : value) (args : list value) (normal unwind : Z)
| KBr (cond : option (value * Z)) (succ0 : Z)             (* condition and successor 1 *)
| KIndirectBr (addr : value) (dests : list Z)
| KSwitch (cond : value) (default : Z) (cases : list (constant * Z))
| KUnreachable
| KLoad (ptr : value)
| KStore (val ptr : value)
| KOther (opc : Z).

Definition getOpcode (k : ikind) : opcode :=
  match k with
  | KCmp false _ => OpICmp | KCmp true _ => OpFCmp | KCall _ _ => OpCall | KPhi => OpPHI
  | KInvoke _ _ _ _ => OpInvoke | KBr _ _ => OpBr | KIndirectBr _ _ => OpIndirectBr
  | KSwitch _ _ _ => OpSwitch | KUnreachable => OpUnreachable | KLoad _ => OpLoad
  | KStore _ _ => OpStore | KOther n => OpOther n
  end.

(** A debug location: file, line, and where the code was inlined. *)
Record loc := mkLoc { l_file : string; l_line : Z; l_inlined : option (string * Z) }.

Record inst := mkInst {
  i_ptr : Z; i_name : string; i_void : bool; i_type : Z; i_type_ptr : bool;
  i_kind : ikind; i_ops : list value; i_used : bool; i_parent : Z; i_loc : option loc }.
Record block := mkBlock { b_ptr : Z; b_name : string; b_insts : list inst }.
Record arg := mkArg { a_ptr : Z; a_name : string }.
Record func := mkFunc { f_ptr : Z; f_name : string; f_args : list arg; f_blocks : list block }.
Abbreviation modul := (list func).

Definition inst_value (i : inst) : value := VInst (i_ptr i) (getOpcode (i_kind i)).

(** Successors of a terminator, in the order of [getSuccessor]. *)
Definition successors (k : ikind) : list Z :=
  match k with
  | KBr None s0 => [s0]
  | KBr (Some (_, s1)) s0 => [s0; s1]
  | KInvoke _ _ n u => [n; u]
  | KIndirectBr _ ds => ds
  | KSwitch _ d cs => d :: (snd <$> cs)
  | _ => []
  end.
Definition getTerminator (b : block) : option inst := head (reverse (b_insts b)).
Definition block_successors (b : block) : list Z :=
  match getTerminator b with Some t => successors (i_kind t) | None => [] end.

(** Predecessors: one entry for each edge. *)
Definition predecessors (f : func) (bb : Z) : list Z :=
  b ← f_blocks f; (fun _ => b_ptr b) <$> filter (fun s => s = bb) (block_successors b).

(** Look-up by address. *)
Definition func_insts (f : func) : list inst := b ← f_blocks f; b_insts b.
Definition module_insts (m : modul) : list inst := f ← m; func_insts f.
Definition find_inst (m : modul) (p : Z) : option inst :=
  snd <$> list_find (fun i => i_ptr i = p) (module_insts m).
Definition find_block_in (f : func) (p : Z) : option block :=
  snd <$> list_find (fun b => b_ptr b = p) (f_blocks f).
Definition find_block (m : modul) (p : Z) : option block :=
  snd <$> list_find (fun b => b_ptr b = p) (f ← m; f_blocks f).
Definition find_arg (m : modul) (p : Z) : option arg :=
  snd <$> list_find (fun a => a_ptr a = p) (f ← m; f_args f).
Definition getFunction (m : modul) (name : string) : option func :=
  snd <$> list_find (fun f => f_name f = name) m.

(** The instructions of a module that use a value. *)
Definition value_eqb (v w : value) : bool :=
  bool_decide (getValueID v = getValueID w) && (value_ptr v =? value_ptr w).
Definition users (m : modul) (v : value) : list inst :=
  filter (fun i => existsb (value_eqb v) (i_ops i) = true) (module_insts m).

(** The called function of a direct call. *)
Definition getCalledFunction (callee : value) : option string :=
  match callee with
  | VConst (CGlobal k _ name) => if k =? GlobalFunction then Some name else None
  | _ => None
  end.
Definition value_name (m : modul) (v : value) : string :=
  match v with
  | VConst (CGlobal _ _ n) => n
  | VInst p _ => from_option i_name ""%string (find_inst m p)
  | VArgument p => from_option a_name ""%string (find_arg m p)
  | VBlock p => from_option b_name ""%string (find_block m p)
  | _ => ""%string
  end.
Definition value_void (m : modul) (v : value) : bool :=
  match v with VInst p _ => from_option i_void false (find_inst m p) | _ => false end.

(** Induction on constants, through the operands of expressions and vectors. *)
Definition sub_constants (c : constant) : list constant :=
  match c with CExpr _ _ _ ops => ops | CVector _ els => els | _ => [] end.
Lemma constant_sub_ind (P : constant -> Prop) :
  (forall c, Forall P (sub_constants c) -> P c) -> forall c, P c.
Proof.
  intros H. fix IH 1. intros c. apply H. destruct c; cbn; try constructor.
  - induction ops as [|o ops IHo]; constructor; [apply IH|apply IHo].
  - induction els as [|o els IHo]; constructor; [apply IH|apply IHo].
Qed.
