(* ===== verification/IDAssigner.v ===== *)
(** * Identifiers and comparison maps

    [tools/llvm-diff-parmesan/id-assigner-pass/src/IDAssigner.cpp]: a module
    pass that numbers every value, groups basic blocks under the comparison
    that follows them ([CmpMap]), and collects, for each indirect call site, the
    comparisons its function pointer depends on. *)

From stdpp Require Import sorting pretty.
From Stdlib Require Import Ascii.
From S2P Require Import Prelude Ir.

Local Open Scope Z_scope.

(** The members of the pass, the static edge set and the identifier counter. *)
Record ids := mkIds {
  IdMap : gmap Z Z;
  CmpMap : gmap Z (gset Z);
  CallSiteDominatorsMap : gmap Z (gset Z);
  IdToAngoraMap : gmap Z Z;
  CfgEdges : gset (Z * Z);
  SerialIdentifier : Z;
}.
Definition ids0 : ids := mkIds ∅ ∅ ∅ ∅ ∅ 1.
Abbreviation A := (M ids).

Definition set_IdMap (m : gmap Z Z) (s : ids) : ids :=
  mkIds m (CmpMap s) (CallSiteDominatorsMap s) (IdToAngoraMap s) (CfgEdges s) (SerialIdentifier s).
Definition set_Csd (m : gmap Z (gset Z)) (s : ids) : ids :=
  mkIds (IdMap s) (CmpMap s) m (IdToAngoraMap s) (CfgEdges s) (SerialIdentifier s).
Definition set_Cmp (c : gmap Z (gset Z)) (a : gmap Z Z) (s : ids) : ids :=
  mkIds (IdMap s) c (CallSiteDominatorsMap s) a (CfgEdges s) (SerialIdentifier s).
Definition set_Edges (e : gset (Z * Z)) (s : ids) : ids :=
  mkIds (IdMap s) (CmpMap s) (CallSiteDominatorsMap s) (IdToAngoraMap s) e (SerialIdentifier s).

(** [IdMap.lookup(p)]: zero for an unknown value. *)
Definition id_of (p : Z) (s : ids) : Z := default 0 (IdMap s !! p).

(** [m[k]] of a map: a missing entry is created with zero. *)
Definition touch (k : Z) (m : gmap Z Z) : gmap Z Z :=
  match m !! k with Some _ => m | None => <[k := 0]> m end.
Definition id_at (p : Z) : A Z :=
  modify (fun s => set_IdMap (touch p (IdMap s)) s) ;;; gets (id_of p).

(** ** Numbering *)

Definition getUniqueIdentifier : A Z :=
  n <- gets SerialIdentifier ;;
  if n <? 2 ^ 64 - 1 then
    modify (fun s => mkIds (IdMap s) (CmpMap s) (CallSiteDominatorsMap s) (IdToAngoraMap s)
                           (CfgEdges s) (n + 1)) ;;;
    ret n
  else fail AssertFailed.

Definition assign_id (p : Z) : A unit :=
  n <- getUniqueIdentifier ;;
  modify (fun s => set_IdMap (<[p := n]> (IdMap s)) s).

Fixpoint for_each {X} (l : list X) (body : X -> A unit) : A unit :=
  match l with [] => ret tt | x :: l => body x ;;; for_each l body end.

Definition number_function (f : func) : A unit :=
  assign_id (f_ptr f) ;;;
  for_each (f_args f) (fun a => assign_id (a_ptr a)) ;;;
  for_each (f_blocks f) (fun b =>
    assign_id (b_ptr b) ;;; for_each (b_insts b) (fun i => assign_id (i_ptr i))).

(** ** Comparison map *)

Definition TraceFunctions : list string :=
  ["__angora_trace_cmp"; "__angora_trace_switch"; "__dfsw___angora_trace_cmp_tt";
   "__dfsw___angora_trace_exploit_val_tt"; "__dfsw___angora_trace_switch_tt";
   "__dfsw___angora_trace_fn_tt"]%string.

(** [StringRef::endswith] *)
Definition endswith (suf s : string) : bool :=
  bool_decide (String.substring (String.length s - String.length suf) (String.length suf) s = suf) &&
  (String.length suf <=? String.length s)%nat.

Definition arg_index (name : string) : nat :=
  if String.eqb name "__angora_trace_switch" then 0%nat
  else if endswith "_tt" name then 0%nat else 1%nat.

(** The comparison id a call instruction announces: [Ok None] for every other
    instruction.  The bound check compares with [argIndex - 1]; fetching an
    operand that does not exist fails LLVM's assertion. *)
Definition announced_cmp (i : inst) : res (option Z) :=
  match i_kind i with
  | KCall callee args =>
      match getCalledFunction callee with
      | Some name =>
          if bool_decide (name ∈ TraceFunctions) then
            let argIndex := arg_index name in
            if (length args <? (if (argIndex =? 0)%nat then 1 else argIndex - 1))%nat then Ok None else
            match args !! argIndex with
            | Some (VConst (CInt _ v)) => Ok (Some (s32 v))
            | Some _ => Ok None
            | None => Fault AssertFailed
            end
          else Ok None
      | None => Ok None
      end
  | _ => Ok None
  end.

(** The loop over the instructions of a block; the blocks waiting for a
    comparison are passed along. *)
Definition flush (c : Z) (waiting : gset Z) : A unit :=
  modify (fun s => set_Cmp (<[c := waiting]> (CmpMap s))
    (set_fold (fun bb m => <[bb := c]> m) (IdToAngoraMap s) waiting) s).
Fixpoint scan_insts (ins : list inst) (waiting : gset Z) : A (gset Z) :=
  match ins with
  | [] => ret waiting
  | i :: ins =>
      o <- of_res (announced_cmp i) ;;
      match o with
      | Some c => flush c waiting ;;; scan_insts ins ∅
      | None => scan_insts ins waiting
      end
  end.

Definition scan_block (b : block) (waiting : gset Z) : A (gset Z) :=
  srcId <- id_at (b_ptr b) ;;
  for_each (block_successors b) (fun succ =>
    dstId <- id_at succ ;;
    modify (fun s => set_Edges ({[ (srcId, dstId) ]} ∪ CfgEdges s) s)) ;;;
  scan_insts (b_insts b) ({[ srcId ]} ∪ waiting).
Fixpoint scan_blocks (bs : list block) (waiting : gset Z) : A (gset Z) :=
  match bs with
  | [] => ret waiting
  | b :: bs => w <- scan_block b waiting ;; scan_blocks bs w
  end.

(** ** Call-site dominators *)

Section Dominators.
Variable m : modul.
Variable follow : bool.          (* -parmesan-follow-dominators *)

(** [Result] and [Seen] are sets of instructions, by address. *)
Record walk := mkWalk { w_result : gset Z; w_seen : gset Z }.

Definition pred_terminators (bb : Z) : list inst :=
  f ← m; p ← predecessors f bb;
  from_option (fun b => from_option (fun t => [t]) [] (getTerminator b)) [] (find_block_in f p).

(** The instructions on which the function calls itself, in their order. *)
Definition next_insts (i : inst) : list inst :=
  match i_kind i with
  | KBr cond _ =>
      (match cond with
       | Some (VInst p _, _) => from_option (fun c => [c]) [] (find_inst m p)
       | _ => []
       end) ++ (if follow then pred_terminators (i_parent i) else [])
  | KLoad ptr => users m ptr
  | KStore _ _ => pred_terminators (i_parent i)
  | _ => []
  end.
Definition is_cmp (i : inst) : bool := match i_kind i with KCmp _ _ => true | _ => false end.

Fixpoint collectPreviousIndirectBranch (fuel : nat) (i : inst) (w : walk) : res walk :=
  match fuel with
  | O => Fault OutOfFuel
  | S n =>
      if bool_decide (i_ptr i ∈ w_seen w) then Ok w else
      let w := mkWalk (w_result w) ({[ i_ptr i ]} ∪ w_seen w) in
      if is_cmp i then Ok (mkWalk ({[ i_ptr i ]} ∪ w_result w) (w_seen w)) else
      (fix visit_all (l : list inst) (w : walk) : res walk :=
         match l with
         | [] => Ok w
         | j :: l => res_bind (collectPreviousIndirectBranch n j w) (visit_all l)
         end) (next_insts i) w
  end.

(** Every visited instruction is new, so the number of instructions is enough
    fuel. *)
Definition walk_fuel : nat := S (length (module_insts m)).

Definition getAngoraCmpIdForBB (bb : Z) : A Z :=
  id <- id_at bb ;;
  modify (fun s => set_Cmp (CmpMap s) (touch id (IdToAngoraMap s)) s) ;;;
  gets (fun s => default 0 (IdToAngoraMap s !! id)).

(** [CSDominatorCmpIds] *)
Fixpoint dominator_cmps (found : list Z) (acc : gset Z) : A (gset Z) :=
  match found with
  | [] => ret acc
  | p :: found =>
      match find_inst m p with
      | Some e => c <- getAngoraCmpIdForBB (i_parent e) ;; dominator_cmps found ({[ c ]} ∪ acc)
      | None => dominator_cmps found acc
      end
  end.

(** The instructions of a block; [prev] is [PrevCallSiteId], which each block
    starts with uninitialised. *)
Fixpoint callsite_insts (ins : list inst) (prev : Z) : A unit :=
  match ins with
  | [] => ret tt
  | i :: ins =>
      match i_kind i with
      | KStore val ptr =>
          let prev := if String.eqb (value_name m ptr) "__angora_indirect_call_site"
                      then match val with VConst (CInt _ v) => s32 v | _ => prev end
                      else prev in
          callsite_insts ins prev
      | KCall callee args =>
          match getCalledFunction callee, args with
          | None, VInst p _ :: _ =>
              match find_inst m p with
              | Some j =>
                  w <- of_res (collectPreviousIndirectBranch walk_fuel j (mkWalk ∅ ∅)) ;;
                  cmps <- dominator_cmps (elements (w_result w)) ∅ ;;
                  modify (fun s => set_Csd (<[prev := cmps]> (CallSiteDominatorsMap s)) s) ;;;
                  callsite_insts ins prev
              | None => callsite_insts ins prev
              end
          | _, _ => callsite_insts ins prev
          end
      | _ => callsite_insts ins prev
      end
  end.
Definition collectCallSiteDominators (uninit : Z) (f : func) : A unit :=
  for_each (f_blocks f) (fun b => callsite_insts (b_insts b) uninit).
End Dominators.

(** ** Custom targets *)

Fixpoint split_last_of (cs : list ascii) (s : string) : option (string * string) :=
  match s with
  | EmptyString => None
  | String a s' =>
      match split_last_of cs s' with
      | Some (pre, post) => Some (String a pre, post)
      | None => if bool_decide (a ∈ cs) then Some (EmptyString, s') else None
      end
  end.
(** [atoi]: spaces, a sign, digits; a prefix of the string. *)
Fixpoint atoi_digits (s : string) (acc : Z) : Z :=
  match s with
  | String a s' =>
      let d := Z.of_nat (nat_of_ascii a) - 48 in
      if (0 <=? d) && (d <=? 9) then atoi_digits s' (acc * 10 + d) else acc
  | EmptyString => acc
  end.
Fixpoint atoi (s : string) : Z :=
  match s with
  | String a s' =>
      let c := Z.of_nat (nat_of_ascii a) in
      if (c =? 32) || ((9 <=? c) && (c <=? 13)) then atoi s' else
      if c =? 45 then s32 (- atoi_digits s' 0) else
      if c =? 43 then s32 (atoi_digits s' 0) else s32 (atoi_digits s 0)
  | EmptyString => 0
  end.

Definition target_file_line (target : string) : string * Z :=
  let target := match split_last_of ["/"; "\"]%char target with Some (_, t) => t | None => target end in
  match split_last_of [":"]%char target with
  | Some (file, line) => (file, u32 (atoi line))
  | None => (target, u32 (atoi target))
  end.

(** [getDebugLoc] leaves its outputs alone when there is no location. *)
Definition getDebugLoc (i : inst) (prev : string * Z) : string * Z :=
  match i_loc i with
  | None => prev
  | Some l => if String.eqb (l_file l) "" then
                match l_inlined l with Some (f, n) => (f, n) | None => (l_file l, l_line l) end
              else (l_file l, l_line l)
  end.

Definition custom_target_call (id : Z) (i : inst) : inst :=
  mkInst 0 "" true 0 false
    (KCall (VConst (CGlobal GlobalFunction 0 "__parmesan_custom_target")) [VConst (CInt 0 (u32 id))])
    [VConst (CInt 0 (u32 id)); VConst (CGlobal GlobalFunction 0 "__parmesan_custom_target")]
    false (i_parent i) (i_loc i).

(** The instructions of one block: calls are inserted before the first
    instruction on a target line, one for each target that matches; [done_] is
    [is_target], which stays set for the rest of the function. *)
Fixpoint target_insts (s : ids) (targets : list string) (ins : list inst) (done_ : bool)
  (prev : string * Z) : list inst * bool :=
  match ins with
  | [] => ([], done_)
  | i :: ins =>
      if done_ then (i :: ins, true) else
      let fl := getDebugLoc i prev in
      if String.eqb (fst fl) "" || (snd fl =? 0) || String.prefix "/usr/" (fst fl)
      then let '(r, d) := target_insts s targets ins false fl in (i :: r, d)
      else
        let hits := filter (fun t => target_file_line t = fl) targets in
        let calls := (fun _ => custom_target_call (id_of (i_ptr i) s) i) <$> hits in
        let '(r, d) := target_insts s targets ins (negb (bool_decide (hits = []))) fl in
        (calls ++ i :: r, d)
  end.
Fixpoint target_blocks (s : ids) (targets : list string) (uninit : Z) (bs : list block) (done_ : bool)
  : list block :=
  match bs with
  | [] => []
  | b :: bs =>
      let '(ins, d) := target_insts s targets (b_insts b) done_ (""%string, uninit) in
      mkBlock (b_ptr b) (b_name b) ins :: target_blocks s targets uninit bs d
  end.
(** The module with the calls, and with the function they call. *)
Definition addCustomTargetsFromFile (targets : list string) (uninit : Z) (m : modul) (s : ids) : modul :=
  let m' := (fun f => mkFunc (f_ptr f) (f_name f) (f_args f)
                       (target_blocks s targets uninit (f_blocks f) false)) <$> m in
  match getFunction m "__parmesan_custom_target" with
  | Some _ => m'
  | None => m' ++ [mkFunc 0 "__parmesan_custom_target" [mkArg 0 ""] []]
  end.

(** ** The pass *)

Definition pass_function (m : modul) (follow : bool) (uninit : Z) (f : func) (waiting : gset Z)
  : A (gset Z) :=
  number_function f ;;;
  w <- scan_blocks (f_blocks f) waiting ;;
  collectCallSiteDominators m follow uninit f ;;;
  ret w.
Fixpoint pass_functions (m : modul) (follow : bool) (uninit : Z) (fs : list func) (waiting : gset Z)
  : A unit :=
  match fs with
  | [] => ret tt
  | f :: fs => w <- pass_function m follow uninit f waiting ;; pass_functions m follow uninit fs w
  end.
(** [targets] are the lines of the custom targets file, if one was given and
    could be opened.  The result is the module the pass leaves. *)
Definition runOnModule (follow : bool) (uninit : Z) (targets : option (list string)) (m : modul)
  : A modul :=
  modify (fun s => mkIds (IdMap s) (CmpMap s) (CallSiteDominatorsMap s) (IdToAngoraMap s) (CfgEdges s) 1) ;;;
  pass_functions m follow uninit m ∅ ;;;
  s <- gets (fun s => s) ;;
  ret (match targets with
       | Some ts => addCustomTargetsFromFile ts uninit m s
       | None => m
       end).

(** ** Queries *)

Definition getIdentifiersMap (s : ids) : gmap Z Z := IdMap s.
Definition getCmpMap (s : ids) : gmap Z (gset Z) := CmpMap s.
Definition getCallSiteDominators (s : ids) : gmap Z (gset Z) := CallSiteDominatorsMap s.

(** The keys of a [std::map] and the elements of a [std::set] come in
    increasing order. *)
Definition sorted (X : gset Z) : list Z := merge_sort Z.le (elements X).
Definition entry_le {V} (a b : Z * V) : Prop := fst a <= fst b.
#[export] Instance entry_le_dec {V} (a b : Z * V) : Decision (entry_le a b).
Proof. unfold entry_le. apply _. Defined.
Definition sorted_entries {V} (m : gmap Z V) : list (Z * V) :=
  merge_sort entry_le (map_to_list m).

(** [rev_map.insert] keeps the first entry. *)
Definition rev_map (s : ids) : gmap Z Z :=
  foldl (fun r e => foldl (fun r bb => match r !! bb with Some _ => r | None => <[bb := fst e]> r end)
                          r (sorted (snd e)))
        ∅ (sorted_entries (CmpMap s)).
Definition getCmpCfg (s : ids) : gset (Z * Z) :=
  let r := rev_map s in
  set_map (fun e => (default 0 (r !! fst e), default 0 (r !! snd e))) (CfgEdges s).

(** [std::set] of pairs: lexicographic order. *)
Definition pair_le (a b : Z * Z) : Prop := fst a < fst b \/ (fst a = fst b /\ snd a <= snd b).
#[export] Instance pair_le_dec a b : Decision (pair_le a b).
Proof. unfold pair_le. apply _. Defined.
Definition sorted_pairs (X : gset (Z * Z)) : list (Z * Z) := merge_sort pair_le (elements X).

Definition nl : string := String (ascii_of_nat 10) EmptyString.
Definition emitCfgFile (s : ids) : string :=
  "src,dst" +:+ nl +:+
  String.concat "" ((fun e => pretty (fst e) +:+ "," +:+ pretty (snd e) +:+ nl)%string
    <$> sorted_pairs (CfgEdges s)).
Definition emitCmpMapFile (s : ids) : string :=
  "cmpId,bbId" +:+ nl +:+
  String.concat "" (e ← sorted_entries (CmpMap s); (fun bb =>
     pretty (u32 (fst e)) +:+ "," +:+ pretty bb +:+ nl)%string <$> sorted (snd e)).

(** ** Proofs: the walk *)

Section WalkProofs.
Variable m : modul.
Variable follow : bool.

Fixpoint visit_all (n : nat) (l : list inst) (w : walk) : res walk :=
  match l with
  | [] => Ok w
  | j :: l => res_bind (collectPreviousIndirectBranch m follow n j w) (visit_all n l)
  end.

Lemma collect_S n i w :
  collectPreviousIndirectBranch m follow (S n) i w =
    if bool_decide (i_ptr i ∈ w_seen w) then Ok w else
    let w := mkWalk (w_result w) ({[ i_ptr i ]} ∪ w_seen w) in
    if is_cmp i then Ok (mkWalk ({[ i_ptr i ]} ∪ w_result w) (w_seen w)) else
    visit_all n (next_insts m follow i) w.
Proof.
  cbn [collectPreviousIndirectBranch]. destruct (bool_decide _); [done|]. destruct (is_cmp i); [done|].
  cbv zeta. generalize (mkWalk (w_result w) ({[ i_ptr i ]} ∪ w_seen w)).
  induction (next_insts m follow i) as [|j l IH]; intros w0; [done|].
  cbn [visit_all]. destruct (collectPreviousIndirectBranch m follow n j w0); cbn [res_bind]; [apply IH|done].
Qed.

Definition all_ptrs : gset Z := list_to_set (i_ptr <$> module_insts m).
Definition unseen (w : walk) : nat := size (all_ptrs ∖ w_seen w).

Lemma find_inst_Some p i : find_inst m p = Some i -> i ∈ module_insts m /\ i_ptr i = p.
Proof.
  unfold find_inst. intros ([k j] & F & ->)%fmap_Some. apply list_find_Some in F as (Hl & Hp & _).
  cbn in *. split; [by eapply list_elem_of_lookup_2|done].
Qed.

Lemma next_insts_module i j : j ∈ next_insts m follow i -> j ∈ module_insts m.
Proof.
  assert (Hpt : forall bb, j ∈ pred_terminators m bb -> j ∈ module_insts m).
  { intros bb. unfold pred_terminators. intros (f & Hj & Hf)%list_elem_of_bind.
    apply list_elem_of_bind in Hj as (p & Hj & _).
    destruct (find_block_in f p) as [b|] eqn:Eb; [|by apply elem_of_nil in Hj]. cbn in Hj.
    destruct (getTerminator b) as [t|] eqn:Et; [|by apply elem_of_nil in Hj]. cbn in Hj.
    apply list_elem_of_singleton in Hj as ->.
    unfold find_block_in in Eb. apply fmap_Some in Eb as ([k b'] & E & ->).
    apply list_find_Some in E as (Hl & _). cbn in *.
    unfold getTerminator in Et. apply head_Some_elem_of in Et. rewrite elem_of_reverse in Et.
    unfold module_insts, func_insts. apply list_elem_of_bind. exists f. split; [|done].
    apply list_elem_of_bind. exists b'. split; [exact Et|]. by eapply list_elem_of_lookup_2. }
  unfold next_insts. destruct (i_kind i); try (by intros ?%elem_of_nil); try apply Hpt.
  - rewrite elem_of_app. intros [Hj|Hj].
    + destruct cond as [[[] ?]|]; try by apply elem_of_nil in Hj.
      destruct (find_inst m p) eqn:E; [|by apply elem_of_nil in Hj].
      cbn in Hj. apply list_elem_of_singleton in Hj as ->. by apply find_inst_Some in E as [].
    + destruct follow; [by eapply Hpt|by apply elem_of_nil in Hj].
  - unfold users. intros Hj. by apply list_elem_of_filter in Hj as [].
Qed.

(** What a call leaves: more seen instructions; the new ones have their
    successors seen, and those of them that are comparisons are collected. *)
Definition closed (w w' : walk) : Prop :=
  w_seen w ⊆ w_seen w' /\ w_result w ⊆ w_result w' /\
  forall j, j ∈ module_insts m -> i_ptr j ∈ w_seen w' -> i_ptr j ∉ w_seen w ->
    (is_cmp j = true -> i_ptr j ∈ w_result w') /\
    (is_cmp j = false -> forall k, k ∈ next_insts m follow j -> i_ptr k ∈ w_seen w').

Lemma closed_refl w : closed w w.
Proof. split; [done|]. split; [done|]. intros j _ H1 H2. by destruct H2. Qed.
Lemma closed_trans w1 w2 w3 : closed w1 w2 -> closed w2 w3 -> closed w1 w3.
Proof.
  intros (S1 & R1 & C1) (S2 & R2 & C2). split; [by etrans|]. split; [by etrans|].
  intros j Hj H3 H1. destruct (decide (i_ptr j ∈ w_seen w2)) as [H2|H2].
  - destruct (C1 j Hj H2 H1) as [X Y]. split; [auto|]. intros Hn k Hk. auto.
  - by apply C2.
Qed.

Hypothesis ptrs_unique : NoDup (i_ptr <$> module_insts m).

Lemma ptr_inj i j : i ∈ module_insts m -> j ∈ module_insts m -> i_ptr i = i_ptr j -> i = j.
Proof.
  intros (a & Ha)%list_elem_of_lookup_1 (b & Hb)%list_elem_of_lookup_1 E.
  assert (a = b) as ->; [|congruence].
  eapply (NoDup_lookup (i_ptr <$> module_insts m)); [exact ptrs_unique| |].
  - by rewrite list_lookup_fmap, Ha.
  - by rewrite list_lookup_fmap, Hb, E.
Qed.

Lemma unseen_mono w w' : w_seen w ⊆ w_seen w' -> (unseen w' <= unseen w)%nat.
Proof. intros Hs. unfold unseen. apply subseteq_size. set_solver. Qed.

Lemma collect_spec n : forall i w,
  i ∈ module_insts m -> (unseen w < n)%nat ->
  exists w', collectPreviousIndirectBranch m follow n i w = Ok w' /\
    closed w w' /\ i_ptr i ∈ w_seen w'.
Proof.
  induction n as [|n IH]; intros i w Hi Hn; [lia|]. rewrite collect_S.
  case_bool_decide as Hs; [exists w; split; [done|]; split; [apply closed_refl|done]|]. cbv zeta.
  set (w1 := mkWalk (w_result w) ({[ i_ptr i ]} ∪ w_seen w)).
  destruct (is_cmp i) eqn:Ec.
  { eexists. split; [reflexivity|]. cbn [w_seen w_result w1]. split; [|set_solver].
    split; [cbn; set_solver|]. split; [cbn; set_solver|]. cbn.
    intros j Hj Hj1 Hj2. assert (j = i) as -> by (apply ptr_inj; set_solver).
    split; [set_solver|congruence]. }
  assert (Hu : (unseen w1 < n)%nat).
  { enough (unseen w1 < unseen w)%nat by lia. unfold unseen. apply subset_size. cbn.
    assert (i_ptr i ∈ all_ptrs) by (apply elem_of_list_to_set, list_elem_of_fmap; eauto). set_solver. }
  assert (Hall : forall l w0, (forall j, j ∈ l -> j ∈ module_insts m) -> w_seen w1 ⊆ w_seen w0 ->
    exists w', visit_all n l w0 = Ok w' /\ closed w0 w' /\ forall j, j ∈ l -> i_ptr j ∈ w_seen w').
  { induction l as [|j l IHl]; intros w0 Hl Hw0.
    - exists w0. split; [done|]. split; [apply closed_refl|]. by intros j ?%elem_of_nil.
    - destruct (IH j w0) as (w2 & E2 & C2 & S2).
      { apply Hl. by left. } { pose proof (unseen_mono w1 w0 Hw0). lia. }
      cbn [visit_all]. rewrite E2. cbn [res_bind].
      destruct (IHl w2) as (w3 & E3 & C3 & S3).
      { intros k Hk. apply Hl. by right. } { destruct C2 as [C2 _]. by etrans. }
      exists w3. split; [done|]. split; [by eapply closed_trans|].
      intros k [->|Hk]%elem_of_cons; [by apply C3|by apply S3]. }
  destruct (Hall (next_insts m follow i) w1) as (w' & E & C & S).
  { apply next_insts_module. } { done. }
  exists w'. split; [done|]. destruct C as (C1 & C2 & C3). split.
  - split; [set_solver|]. split; [done|]. intros j Hj Hj1 Hj2.
    destruct (decide (i_ptr j = i_ptr i)) as [Eq|Ne].
    + assert (j = i) as -> by by apply ptr_inj. split; [congruence|auto].
    + apply C3; [done|done|]. cbn. set_solver.
  - apply C1. cbn. set_solver.
Qed.

Lemma unseen_start : (unseen (mkWalk ∅ ∅) < walk_fuel m)%nat.
Proof.
  unfold unseen, walk_fuel. cbn [w_seen]. rewrite difference_empty_L.
  unfold all_ptrs. rewrite size_list_to_set by exact ptrs_unique. rewrite length_fmap. lia.
Qed.
Lemma collect_total i :
  i ∈ module_insts m ->
  exists w, collectPreviousIndirectBranch m follow (walk_fuel m) i (mkWalk ∅ ∅) = Ok w.
Proof.
  intros Hi. destruct (collect_spec (walk_fuel m) i (mkWalk ∅ ∅) Hi unseen_start) as (w & E & _). eauto.
Qed.

(** The instructions that can be reached. *)
Inductive reaches : inst -> inst -> Prop :=
| reaches_refl i : reaches i i
| reaches_step i j k : is_cmp i = false -> j ∈ next_insts m follow i -> reaches j k -> reaches i k.

(** Only reachable comparisons are collected. *)
Lemma collect_sound n : forall i w w',
  i ∈ module_insts m -> collectPreviousIndirectBranch m follow n i w = Ok w' ->
  forall p, p ∈ w_result w' -> p ∈ w_result w \/ exists j, reaches i j /\ is_cmp j = true /\ i_ptr j = p.
Proof.
  induction n as [|n IH]; intros i w w' Hi; [done|]. rewrite collect_S.
  case_bool_decide as Hs; [intros [= <-]; auto|]. cbv zeta.
  destruct (is_cmp i) eqn:Ec.
  { intros [= <-] p. cbn. rewrite elem_of_union, elem_of_singleton.
    intros [->|Hp]; [right; exists i; split; [constructor|done]|by left]. }
  set (w1 := mkWalk _ _). change (w_result w) with (w_result w1). generalize w1. clear w1.
  assert (Hl : forall j, j ∈ next_insts m follow i -> j ∈ next_insts m follow i) by done. revert Hl.
  generalize (next_insts m follow i) at 1 3 as l. induction l as [|j l IHl]; intros Hl w1.
  { intros [= <-]; auto. }
  cbn [visit_all]. destruct (collectPreviousIndirectBranch m follow n j w1) as [w2|] eqn:E2; [|done].
  cbn [res_bind]. intros E3 p Hp.
  destruct (IHl ltac:(intros k Hk; apply Hl; by right) w2 E3 p Hp) as [Hp2|?]; [|by right].
  assert (Hj : j ∈ next_insts m follow i) by (apply Hl; by left).
  destruct (IH j w1 w2 (next_insts_module i j Hj) E2 p Hp2) as [?|(k & Hk & Hc & Ep)]; [by left|].
  right. exists k. split; [by eapply reaches_step|done].
Qed.

(** The search for the comparisons an indirect call depends on terminates
    within the instructions of the module and is exact: the set it collects is
    the set of comparisons reachable from the instruction through branch
    conditions, users of a loaded pointer and the terminators before a store. *)
Theorem indirect_branch_exact i :
  i ∈ module_insts m ->
  exists w, collectPreviousIndirectBranch m follow (walk_fuel m) i (mkWalk ∅ ∅) = Ok w /\
    forall p, p ∈ w_result w <-> exists j, reaches i j /\ is_cmp j = true /\ i_ptr j = p.
Proof.
  intros Hi. destruct (collect_spec (walk_fuel m) i (mkWalk ∅ ∅) Hi unseen_start) as (w & E & C & S).
  exists w. split; [done|]. intros p. split.
  - intros Hp. destruct (collect_sound _ _ _ _ Hi E p Hp) as [Hp'|?]; [|done]. cbn in Hp'. set_solver.
  - intros (j & Hr & Hc & <-). destruct C as (_ & _ & C).
    assert (Hseen : forall a b, reaches a b -> a ∈ module_insts m -> i_ptr a ∈ w_seen w ->
      b ∈ module_insts m /\ i_ptr b ∈ w_seen w).
    { induction 1 as [a|a b c Hn Hb _ IH]; intros Ha Sa; [done|].
      apply IH; [by eapply next_insts_module|]. apply (C a); [done|done|cbn; set_solver|done|done]. }
    destruct (Hseen i j Hr Hi S) as [Hj Sj]. apply (C j); [done|done|cbn; set_solver|done].
Qed.
End WalkProofs.

(** ** Proofs: numbering *)

Definition func_ptrs (f : func) : list Z :=
  f_ptr f :: (a_ptr <$> f_args f) ++ (b ← f_blocks f; b_ptr b :: (i_ptr <$> b_insts b)).
Definition module_ptrs (m : modul) : list Z := f ← m; func_ptrs f.
Definition module_blocks (m : modul) : list block := f ← m; f_blocks f.

(** The position of an object in the order of the numbering, from one. *)
Definition num (m : modul) (p : Z) : Z :=
  match list_find (fun q => q = p) (module_ptrs m) with Some (k, _) => Z.of_nat k + 1 | None => 0 end.

(** A module the pass can take: one object for each address, fewer objects than
    identifiers, trace calls with their arguments, and terminators that stay in
    their function. *)
Record wf_module (m : modul) : Prop := {
  wf_ptrs : NoDup (module_ptrs m);
  wf_size : Z.of_nat (length (module_ptrs m)) < 2 ^ 64 - 1;
  wf_calls : forall i, i ∈ module_insts m -> exists o, announced_cmp i = Ok o;
  wf_succs : forall f b s, f ∈ m -> b ∈ f_blocks f -> s ∈ block_successors b ->
               s ∈ b_ptr <$> f_blocks f }.

Lemma for_each_app {X} (l1 l2 : list X) body s :
  for_each (l1 ++ l2) body s = (for_each l1 body ;;; for_each l2 body) s.
Proof.
  revert s. induction l1 as [|x l1 IH]; intros s; [done|]. cbn [for_each app]. unfold bind.
  destruct (body x s) as [[[] s1]|]; [|done]. apply IH.
Qed.
Lemma for_each_fmap {X Y} (g : X -> Y) (l : list X) body s :
  for_each (g <$> l) body s = for_each l (fun x => body (g x)) s.
Proof.
  revert s. induction l as [|x l IH]; intros s; [done|]. cbn. unfold bind.
  destruct (body (g x) s) as [[[] s1]|]; [|done]. apply IH.
Qed.
Lemma for_each_bind {X Y} (g : X -> list Y) (l : list X) body s :
  for_each (x ← l; g x) body s = for_each l (fun x => for_each (g x) body) s.
Proof.
  revert s. induction l as [|x l IH]; intros s; [done|]. cbn [mbind list_bind for_each].
  rewrite for_each_app. unfold bind. destruct (for_each (g x) body s) as [[[] s1]|]; [|done]. apply IH.
Qed.
Lemma for_each_ext {X} (l : list X) body body' s :
  (forall x s, x ∈ l -> body x s = body' x s) -> for_each l body s = for_each l body' s.
Proof.
  revert s. induction l as [|x l IH]; intros s H; [done|]. cbn. unfold bind.
  rewrite H by by left. destruct (body' x s) as [[[] s1]|]; [|done]. apply IH. intros. apply H. by right.
Qed.
Lemma for_each_inv {X} (P : ids -> Prop) (l : list X) body :
  (forall x s, x ∈ l -> P s -> exists s', body x s = Ok (tt, s') /\ P s') ->
  forall s, P s -> exists s', for_each l body s = Ok (tt, s') /\ P s'.
Proof.
  induction l as [|x l IH]; intros H s Hs; [by exists s|]. cbn. unfold bind.
  destruct (H x s ltac:(by left) Hs) as (s1 & -> & H1). apply IH; [|done]. intros y s2 Hy. apply H. by right.
Qed.

Lemma bind_ext {St X Y} (m m' : M St X) (k k' : X -> M St Y) s :
  m s = m' s -> (forall a s1, k a s1 = k' a s1) -> bind m k s = bind m' k' s.
Proof. intros E Hk. unfold bind. rewrite E. destruct (m' s) as [[a s1]|]; [apply Hk|done]. Qed.

Lemma number_function_flat f s : number_function f s = for_each (func_ptrs f) assign_id s.
Proof.
  unfold number_function, func_ptrs. cbn [for_each]. apply bind_ext; [done|]. intros _ s1.
  rewrite for_each_app. apply bind_ext; [by rewrite for_each_fmap|]. intros _ s2.
  rewrite for_each_bind. apply for_each_ext. intros b s3 _. cbn [for_each].
  apply bind_ext; [done|]. intros _ s4. by rewrite for_each_fmap.
Qed.

Section PassProofs.
Variable m : modul.
Hypothesis wf : wf_module m.

Lemma num_lookup k p : module_ptrs m !! k = Some p -> num m p = Z.of_nat k + 1.
Proof.
  intros Hk. unfold num. destruct (list_find_elem_of (fun q => q = p) (module_ptrs m) p) as [[k' q] E];
    [by eapply list_elem_of_lookup_2|done|].
  rewrite E. apply list_find_Some in E as (E & -> & _).
  by rewrite (NoDup_lookup _ _ _ _ (wf_ptrs m wf) E Hk).
Qed.
Lemma num_inj p q : p ∈ module_ptrs m -> q ∈ module_ptrs m -> num m p = num m q -> p = q.
Proof.
  intros (k & Hk)%list_elem_of_lookup_1 (j & Hj)%list_elem_of_lookup_1.
  rewrite (num_lookup k p Hk), (num_lookup j q Hj). intros E. assert (k = j) by lia. congruence.
Qed.

(** The objects of [L], a prefix of the order, have their identifiers. *)
Definition numbered (L : list Z) (s : ids) : Prop :=
  SerialIdentifier s = 1 + Z.of_nat (length L) /\ forall p, p ∈ L -> IdMap s !! p = Some (num m p).
Definition same_maps (s s' : ids) : Prop :=
  CmpMap s' = CmpMap s /\ IdToAngoraMap s' = IdToAngoraMap s /\ CfgEdges s' = CfgEdges s.

Lemma assign_ids l : forall L s,
  (L ++ l) `prefix_of` module_ptrs m -> numbered L s ->
  exists s', for_each l assign_id s = Ok (tt, s') /\ numbered (L ++ l) s' /\ same_maps s s'.
Proof.
  induction l as [|p l IH]; intros L s Hp [H1 H2].
  { exists s. rewrite app_nil_r. done. }
  assert (Hl : (length L < length (module_ptrs m))%nat).
  { apply prefix_length in Hp. rewrite length_app in Hp. cbn in Hp. lia. }
  pose proof (wf_size m wf) as Hz.
  assert (Hn : num m p = SerialIdentifier s).
  { rewrite (num_lookup (length L)); [lia|]. destruct Hp as [t ->].
    rewrite <-app_assoc, lookup_app_r, Nat.sub_diag by lia. done. }
  set (s1 := set_IdMap (<[p := SerialIdentifier s]> (IdMap s))
               (mkIds (IdMap s) (CmpMap s) (CallSiteDominatorsMap s) (IdToAngoraMap s) (CfgEdges s)
                      (SerialIdentifier s + 1))).
  assert (E : assign_id p s = Ok (tt, s1)).
  { unfold assign_id, getUniqueIdentifier, bind, gets.
    destruct (Z.ltb_spec (SerialIdentifier s) (2 ^ 64 - 1)); [done|lia]. }
  destruct (IH (L ++ [p]) s1) as (s' & E' & N' & S').
  - by rewrite <-app_assoc.
  - split; [cbn; rewrite length_app; cbn; lia|]. intros q Hq. cbn.
    destruct (decide (p = q)) as [->|Ne]; [rewrite lookup_insert; by rewrite decide_True, Hn|].
    rewrite lookup_insert_ne by done. apply H2. apply elem_of_app in Hq as [?|?%list_elem_of_singleton]; congruence.
  - exists s'. cbn [for_each]. unfold bind. rewrite E, E'. rewrite <-app_assoc in N'. done.
Qed.

(** The comparison map: the sets of different comparisons, and the blocks that
    still wait, do not meet, and the reverse map agrees. *)
Definition cmp_inv (B waiting : gset Z) (s : ids) : Prop :=
  waiting ⊆ B /\
  forall c S, CmpMap s !! c = Some S ->
    S ⊆ B /\ S ## waiting /\ forall bb, bb ∈ S -> IdToAngoraMap s !! bb = Some c.

Lemma flush_fold (c x : Z) (w : gset Z) (a : gmap Z Z) :
  let r := set_fold (fun bb m => <[bb := c]> m) a w in
  (x ∈ w -> r !! x = Some c) /\ (x ∉ w -> r !! x = a !! x).
Proof.
  apply (set_fold_ind_L (fun (r : gmap Z Z) X => (x ∈ X -> r !! x = Some c) /\ (x ∉ X -> r !! x = a !! x))).
  - split; [set_solver|done].
  - intros y X r Hy [E1 E2]. destruct (decide (y = x)) as [->|Ne].
    + rewrite lookup_insert, decide_True by done. split; [done|set_solver].
    + rewrite lookup_insert_ne by done. split; intros H; [apply E1|apply E2]; set_solver.
Qed.

Lemma flush_inv B w c s :
  cmp_inv B w s -> exists s', flush c w s = Ok (tt, s') /\ cmp_inv B ∅ s' /\
    IdMap s' = IdMap s /\ SerialIdentifier s' = SerialIdentifier s /\ CfgEdges s' = CfgEdges s.
Proof.
  intros [Hw H]. eexists. split; [reflexivity|]. split; [|done]. split; [set_solver|].
  intros d S. cbn. rewrite lookup_insert_Some. intros [[<- <-]|[Ne HS]].
  - split; [done|]. split; [set_solver|]. intros bb Hbb. by apply flush_fold.
  - destruct (H d S HS) as (HB & Hd & Ha). split; [done|]. split; [set_solver|].
    intros bb Hbb. rewrite (proj2 (flush_fold _ _ _ _)) by set_solver. auto.
Qed.

Lemma scan_insts_inv B ins : forall w s,
  (forall i, i ∈ ins -> exists o, announced_cmp i = Ok o) -> cmp_inv B w s ->
  exists w' s', scan_insts ins w s = Ok (w', s') /\ cmp_inv B w' s' /\
    IdMap s' = IdMap s /\ SerialIdentifier s' = SerialIdentifier s /\ CfgEdges s' = CfgEdges s.
Proof.
  induction ins as [|i ins IH]; intros w s Hi Hs; [by exists w, s|]. cbn [scan_insts].
  destruct (Hi i ltac:(by left)) as [o Ho]. unfold bind at 1. rewrite Ho. cbn [of_res].
  assert (Hi' : forall i, i ∈ ins -> exists o, announced_cmp i = Ok o) by (intros; apply Hi; by right).
  destruct o as [c|]; [|by apply IH].
  destruct (flush_inv B w c s Hs) as (s1 & E1 & H1 & I1 & S1 & C1).
  unfold bind. rewrite E1. destruct (IH ∅ s1 Hi' H1) as (w' & s' & E' & H' & I' & S' & C').
  exists w', s'. rewrite E'. split; [done|]. split; [done|]. split; [congruence|]. split; congruence.
Qed.

Lemma touch_id p v (a : gmap Z Z) : a !! p = Some v -> touch p a = a.
Proof. unfold touch. by intros ->. Qed.
Lemma touch_sub p (a : gmap Z Z) : a ⊆ touch p a.
Proof.
  unfold touch. destruct (a !! p) eqn:E; [done|]. by apply insert_subseteq.
Qed.
Lemma id_at_numbered L p s : numbered L s -> p ∈ L -> id_at p s = Ok (num m p, s).
Proof.
  intros [_ H] Hp. pose proof (H p Hp) as E. unfold id_at, bind, modify, gets.
  rewrite (touch_id _ _ _ E). destruct s. unfold set_IdMap, id_of. cbn in *. by rewrite E.
Qed.

Definition block_edges (b : block) : list (Z * Z) :=
  (fun succ => (num m (b_ptr b), num m succ)) <$> block_successors b.

Lemma add_edges L src l : forall s,
  numbered L s -> (forall p, p ∈ l -> p ∈ L) ->
  for_each l (fun succ => dstId <- id_at succ ;;
    modify (fun s => set_Edges ({[ (src, dstId) ]} ∪ CfgEdges s) s)) s =
  Ok (tt, set_Edges (list_to_set ((fun succ => (src, num m succ)) <$> l) ∪ CfgEdges s) s).
Proof.
  induction l as [|p l IH]; intros s Hs Hl.
  { cbn. rewrite union_empty_l_L. by destruct s. }
  cbn [for_each]. unfold bind. rewrite (id_at_numbered L) by (done || apply Hl; by left). cbn [modify].
  rewrite IH.
  - unfold set_Edges. cbn. do 3 f_equal. set_solver.
  - by destruct s.
  - intros q Hq. apply Hl. by right.
Qed.

Lemma scan_blocks_inv L bs : forall B w s,
  numbered L s -> cmp_inv B w s ->
  (forall b, b ∈ bs -> b_ptr b ∈ L /\ (forall p, p ∈ block_successors b -> p ∈ L) /\
     forall i, i ∈ b_insts b -> exists o, announced_cmp i = Ok o) ->
  NoDup ((fun b => num m (b_ptr b)) <$> bs) -> (forall b, b ∈ bs -> num m (b_ptr b) ∉ B) ->
  exists w' s', scan_blocks bs w s = Ok (w', s') /\
    numbered L s' /\ cmp_inv (list_to_set ((fun b => num m (b_ptr b)) <$> bs) ∪ B) w' s' /\
    CfgEdges s' = list_to_set (b ← bs; block_edges b) ∪ CfgEdges s.
Proof.
  induction bs as [|b bs IH]; intros B w s HL Hc Hb Hnd HB.
  { exists w, s. cbn. rewrite !union_empty_l_L. done. }
  cbn [scan_blocks]. destruct (Hb b ltac:(by left)) as (Hp & Hs & Hi).
  set (s1 := set_Edges (list_to_set (block_edges b) ∪ CfgEdges s) s).
  assert (Hc1 : cmp_inv ({[ num m (b_ptr b) ]} ∪ B) ({[ num m (b_ptr b) ]} ∪ w) s1).
  { destruct Hc as [Hw Hc]. pose proof (HB b ltac:(by left)). split; [set_solver|].
    intros c S HS. destruct (Hc c S HS) as (? & ? & ?). split; [set_solver|]. split; [set_solver|done]. }
  destruct (scan_insts_inv _ (b_insts b) _ _ Hi Hc1) as (w2 & s2 & E2 & Hc2 & I2 & S2 & C2).
  assert (E1 : scan_block b w s = Ok (w2, s2)).
  { unfold scan_block. rewrite (bind_Ok _ _ _ _ _ (id_at_numbered L _ _ HL Hp)).
    rewrite (bind_Ok _ _ _ _ _ (add_edges L _ _ _ HL Hs)). exact E2. }
  unfold bind. rewrite E1.
  assert (HL2 : numbered L s2) by (unfold numbered in *; by rewrite I2, S2).
  cbn [fmap list_fmap] in Hnd. apply list.NoDup_cons in Hnd as [Hn Hnd].
  destruct (IH _ w2 s2 HL2 Hc2) as (w' & s' & E' & HL' & Hc' & C').
  { intros b' Hb'. apply Hb. by right. }
  { done. }
  { intros b' Hb'. apply not_elem_of_union. split; [|apply HB; by right].
    intros Eq%elem_of_singleton. apply Hn. rewrite <-Eq. apply list_elem_of_fmap. eauto. }
  exists w', s'. split; [done|]. split; [done|]. split.
  - cbn [fmap list_fmap list_to_set]. 
    by rewrite (union_comm_L {[ _ ]}), <-union_assoc_L.
  - rewrite C', C2. subst s1. cbn [set_Edges CfgEdges mbind list_bind]. rewrite list_to_set_app_L.
    fold (block_edges b). set_solver.
Qed.

(** Collecting call sites only creates missing entries. *)
Definition touched (s s' : ids) : Prop :=
  SerialIdentifier s' = SerialIdentifier s /\ IdMap s ⊆ IdMap s' /\
  IdToAngoraMap s ⊆ IdToAngoraMap s' /\ CmpMap s' = CmpMap s /\ CfgEdges s' = CfgEdges s.
#[local] Instance touched_preorder : PreOrder touched.
Proof.
  split; [done|]. intros a b c (? & ? & ? & ? & ?) (? & ? & ? & ? & ?).
  split; [congruence|]. split; [by etrans|]. split; [by etrans|]. split; congruence.
Qed.
Lemma touched_numbered L s s' : touched s s' -> numbered L s -> numbered L s'.
Proof.
  intros (E & Hi & _) [H1 H2]. split; [congruence|]. intros p Hp. eapply lookup_weaken; [by apply H2|done].
Qed.
Lemma touched_cmp_inv B w s s' : touched s s' -> cmp_inv B w s -> cmp_inv B w s'.
Proof.
  intros (_ & _ & Ha & Hc & _) [Hw H]. split; [done|]. intros c S. rewrite Hc. intros HS.
  destruct (H c S HS) as (? & ? & Hb). split; [done|]. split; [done|].
  intros bb Hbb. eapply lookup_weaken; [by apply Hb|done].
Qed.

Lemma getAngoraCmpIdForBB_touched bb s :
  exists c s', getAngoraCmpIdForBB bb s = Ok (c, s') /\ touched s s'.
Proof.
  unfold getAngoraCmpIdForBB, id_at, bind, modify, gets. eexists _, _. split; [reflexivity|].
  split; [done|]. split; [apply touch_sub|]. split; [apply touch_sub|done].
Qed.
Lemma dominator_cmps_touched l : forall acc s,
  exists c s', dominator_cmps m l acc s = Ok (c, s') /\ touched s s'.
Proof.
  induction l as [|p l IH]; intros acc s; [by eexists _, _|]. cbn [dominator_cmps].
  destruct (find_inst m p); [|apply IH].
  destruct (getAngoraCmpIdForBB_touched (i_parent i) s) as (c & s1 & E & T).
  rewrite (bind_Ok _ _ _ _ _ E). destruct (IH ({[ c ]} ∪ acc) s1) as (c' & s2 & E2 & T2).
  exists c', s2. split; [done|]. by etrans.
Qed.

Lemma module_insts_ptrs : NoDup (i_ptr <$> module_insts m).
Proof.
  eapply sublist_NoDup; [exact (wf_ptrs m wf)|]. unfold module_insts, module_ptrs.
  clear wf. induction m as [|f fs IH]; [done|]. cbn [mbind list_bind]. rewrite fmap_app.
  apply sublist_app; [|exact IH]. unfold func_ptrs, func_insts. apply sublist_cons, sublist_inserts_l.
  induction (f_blocks f) as [|b bs IHb]; [done|]. cbn [mbind list_bind]. rewrite fmap_app.
  cbn. apply sublist_cons. by apply sublist_app.
Qed.

Lemma callsite_insts_touched follow ins : forall prev s,
  exists s', callsite_insts m follow ins prev s = Ok (tt, s') /\ touched s s'.
Proof.
  induction ins as [|i ins IH]; intros prev s; [by exists s|]. cbn [callsite_insts].
  destruct (i_kind i); try apply IH.
  destruct (getCalledFunction callee), args as [|[] args]; try apply IH.
  destruct (find_inst m p) as [j|] eqn:Ej; [|apply IH]. apply find_inst_Some in Ej as [Ej _].
  destruct (collect_total m follow module_insts_ptrs j Ej) as [w Ew].
  unfold bind at 1. rewrite Ew. cbn [of_res].
  destruct (dominator_cmps_touched (elements (w_result w)) ∅ s) as (c & s1 & E1 & T1).
  rewrite (bind_Ok _ _ _ _ _ E1). unfold bind at 1. cbn [modify].
  edestruct (IH prev) as (s2 & E2 & T2). rewrite E2. eexists. split; [reflexivity|].
  etrans; [exact T1|]. etrans; [|exact T2]. done.
Qed.
Lemma collectCallSiteDominators_touched follow uninit f s :
  exists s', collectCallSiteDominators m follow uninit f s = Ok (tt, s') /\ touched s s'.
Proof.
  apply (for_each_inv (touched s)); [|done]. intros b s1 _ T1.
  destruct (callsite_insts_touched follow (b_insts b) uninit s1) as (s2 & E2 & T2).
  exists s2. split; [done|]. by etrans.
Qed.

Definition block_nums (fs : list func) : gset Z :=
  list_to_set ((fun b => num m (b_ptr b)) <$> module_blocks fs).
Definition pass_inv (done_ : list func) (w : gset Z) (s : ids) : Prop :=
  numbered (module_ptrs done_) s /\ cmp_inv (block_nums done_) w s /\
  CfgEdges s = list_to_set (b ← module_blocks done_; block_edges b).

Lemma block_ptr_module f b : f ∈ m -> b ∈ f_blocks f -> b_ptr b ∈ module_ptrs m.
Proof.
  intros Hf Hb. apply list_elem_of_bind. exists f. split; [|done]. right. apply elem_of_app. right.
  apply list_elem_of_bind. exists b. split; [by left|done].
Qed.
Lemma blocks_nodup : NoDup ((fun b => num m (b_ptr b)) <$> module_blocks m).
Proof.
  rewrite (list_fmap_compose b_ptr (num m)). apply NoDup_fmap_2_strong.
  - intros p q Hp Hq. apply num_inj.
    + apply list_elem_of_fmap in Hp as (b & -> & (f & Hb & Hf)%list_elem_of_bind). by eapply block_ptr_module.
    + apply list_elem_of_fmap in Hq as (b & -> & (f & Hb & Hf)%list_elem_of_bind). by eapply block_ptr_module.
  - eapply sublist_NoDup; [exact (wf_ptrs m wf)|]. unfold module_blocks, module_ptrs. clear wf.
    induction m as [|f fs IH]; [done|]. cbn [mbind list_bind]. rewrite fmap_app.
    apply sublist_app; [|exact IH]. unfold func_ptrs. apply sublist_cons, sublist_inserts_l.
    induction (f_blocks f) as [|b bs IHb]; [done|]. cbn. apply sublist_skip. by apply sublist_inserts_l.
Qed.

Lemma pass_function_inv follow uninit done_ f fs w s :
  m = done_ ++ f :: fs -> pass_inv done_ w s ->
  exists w' s', pass_function m follow uninit f w s = Ok (w', s') /\ pass_inv (done_ ++ [f]) w' s'.
Proof.
  intros Hm (HL & Hc & He). assert (Hf : f ∈ m) by (rewrite Hm; set_solver).
  assert (HLf : module_ptrs (done_ ++ [f]) = module_ptrs done_ ++ func_ptrs f).
  { unfold module_ptrs. by rewrite bind_app, bind_singleton. }
  destruct (assign_ids (func_ptrs f) (module_ptrs done_) s) as (s1 & E1 & HL1 & C1 & A1 & G1).
  { exists (module_ptrs fs). rewrite Hm. unfold module_ptrs. by rewrite bind_app, bind_cons, <-app_assoc. }
  { done. }
  assert (Hin : forall b, b ∈ f_blocks f -> b_ptr b ∈ module_ptrs done_ ++ func_ptrs f).
  { intros b Hb. apply elem_of_app. right. right. apply elem_of_app. right. apply list_elem_of_bind.
    exists b. split; [by left|done]. }
  pose proof blocks_nodup as Hnd. rewrite Hm in Hnd. unfold module_blocks in Hnd.
  rewrite bind_app, bind_cons, !fmap_app in Hnd.
  apply list.NoDup_app in Hnd as (_ & Hd & Hnd). apply list.NoDup_app in Hnd as (Hnd & _ & _).
  destruct (scan_blocks_inv (module_ptrs done_ ++ func_ptrs f) (f_blocks f) (block_nums done_) w s1)
    as (w2 & s2 & E2 & HL2 & Hc2 & G2); [done|by unfold cmp_inv; rewrite C1, A1| |rewrite Hm; exact Hnd| |].
  { intros b Hb. split; [by apply Hin|]. split.
    - intros p Hp. apply (wf_succs m wf f) in Hp; [|done|done].
      apply list_elem_of_fmap in Hp as (b' & -> & Hb'). by apply Hin.
    - intros i Hi. apply (wf_calls m wf). apply list_elem_of_bind. exists f. split; [|done].
      apply list_elem_of_bind. by exists b. }
  { intros b Hb Hin'. apply elem_of_list_to_set in Hin'. rewrite Hm in Hin'. apply (Hd _ Hin').
    apply elem_of_app. left. apply list_elem_of_fmap. by exists b. }
  destruct (collectCallSiteDominators_touched follow uninit f s2) as (s3 & E3 & T3).
  exists w2, s3. split.
  - unfold pass_function. rewrite (bind_Ok _ _ _ _ _ (eq_trans (number_function_flat f s) E1)).
    rewrite (bind_Ok _ _ _ _ _ E2), (bind_Ok _ _ _ _ _ E3). done.
  - split; [rewrite HLf; by eapply touched_numbered|]. split.
    + eapply touched_cmp_inv; [exact T3|]. unfold block_nums, module_blocks.
      rewrite bind_app, bind_singleton, fmap_app, list_to_set_app_L, union_comm_L. exact Hc2.
    + destruct T3 as (_ & _ & _ & _ & ->). rewrite G2, G1, He. unfold module_blocks.
      rewrite !bind_app, bind_singleton, list_to_set_app_L. apply union_comm_L.
Qed.

Lemma pass_functions_inv follow uninit fs : forall done_ w s,
  m = done_ ++ fs -> pass_inv done_ w s ->
  exists w' s', pass_functions m follow uninit fs w s = Ok (tt, s') /\ pass_inv m w' s'.
Proof.
  induction fs as [|f fs IH]; intros done_ w s Hm H.
  - rewrite app_nil_r in Hm. exists w, s. split; [done|]. by rewrite Hm at 1.
  - destruct (pass_function_inv follow uninit done_ f fs w s Hm H) as (w1 & s1 & E1 & H1).
    destruct (IH (done_ ++ [f]) w1 s1) as (w' & s' & E' & H'); [by rewrite <-app_assoc|done|].
    exists w', s'. split; [|done]. cbn [pass_functions]. by rewrite (bind_Ok _ _ _ _ _ E1).
Qed.

Lemma pass_inv_start : pass_inv [] ∅ ids0.
Proof.
  split; [split; [done|by intros p ?%elem_of_nil]|]. split; [|done]. split; [set_solver|].
  intros c S. cbn. by rewrite lookup_empty.
Qed.
Lemma runOnModule_inv follow uninit targets :
  exists m' w s, runOnModule follow uninit targets m ids0 = Ok (m', s) /\ pass_inv m w s.
Proof.
  destruct (pass_functions_inv follow uninit m [] ∅ ids0) as (w & s & E & H).
  - done.
  - apply pass_inv_start.
  - eexists _, w, s. split; [|exact H]. unfold runOnModule.
    rewrite (bind_Ok _ _ _ tt ids0) by done. rewrite (bind_Ok _ _ _ _ _ E). reflexivity.
Qed.


(** The reverse map keeps the first entry of a block. *)
Lemma rev_inner (c bb : Z) l : forall r : gmap Z Z,
  foldl (fun r bb => match r !! bb with Some _ => r | None => <[bb := c]> r end) r l !! bb =
  match r !! bb with Some x => Some x | None => if decide (bb ∈ l) then Some c else None end.
Proof.
  induction l as [|a l IH]; intros r; cbn [foldl].
  - destruct (r !! bb); [done|]. by rewrite decide_False by apply not_elem_of_nil.
  - rewrite IH. destruct (decide (a = bb)) as [->|Ne].
    + destruct (r !! bb) eqn:E; [by rewrite E|]. rewrite lookup_insert, decide_True by done.
      by rewrite decide_True by by left.
    + assert (r !! bb = match r !! a with Some _ => r | None => <[a := c]> r end !! bb) as <-.
      { destruct (r !! a); [done|]. by rewrite lookup_insert_ne. }
      destruct (r !! bb); [done|]. apply decide_ext. rewrite elem_of_cons. naive_solver.
Qed.
Lemma rev_outer (bb : Z) (es : list (Z * gset Z)) : forall r : gmap Z Z,
  let r' := foldl (fun r e => foldl (fun r bb => match r !! bb with Some _ => r | None => <[bb := fst e]> r end)
                          r (sorted (snd e))) r es in
  (forall c, r' !! bb = Some c -> r !! bb = Some c \/ exists S, (c, S) ∈ es /\ bb ∈ S) /\
  (r' !! bb = None -> r !! bb = None /\ forall c S, (c, S) ∈ es -> bb ∉ S).
Proof.
  assert (Hs : forall S : gset Z, bb ∈ sorted S <-> bb ∈ S).
  { intros S. unfold sorted. by rewrite merge_sort_Permutation, elem_of_elements. }
  induction es as [|[d S] es IH]; intros r; cbn [foldl].
  { split; [by left|]. intros ->. split; [done|]. by intros c S ?%elem_of_nil. }
  cbn [fst snd] in *. match goal with |- context [foldl _ ?r1 es] => specialize (IH r1) end.
  destruct IH as [IH1 IH2]. rewrite rev_inner in IH1, IH2. split.
  - intros c Hc. apply IH1 in Hc as [Hc|(S' & ? & ?)]; [|right; exists S'; split; [by right|done]].
    destruct (r !! bb); [by left|]. case_decide as Hd; [|done]. injection Hc as ->.
    right. exists S. split; [by left|]. by apply Hs.
  - intros Hn. apply IH2 in Hn as [Hn H]. destruct (r !! bb); [done|]. case_decide as Hd; [done|].
    split; [done|]. intros c S' [[= -> ->]|?]%elem_of_cons; [by rewrite <-Hs|eauto].
Qed.
Lemma rev_map_spec s bb :
  match rev_map s !! bb with
  | Some c => exists S, CmpMap s !! c = Some S /\ bb ∈ S
  | None => forall c S, CmpMap s !! c = Some S -> bb ∉ S
  end.
Proof.
  assert (He : forall c S, (c, S) ∈ sorted_entries (CmpMap s) <-> CmpMap s !! c = Some S).
  { intros c S. unfold sorted_entries. by rewrite merge_sort_Permutation, elem_of_map_to_list. }
  destruct (rev_outer bb (sorted_entries (CmpMap s)) ∅) as [H1 H2]. fold (rev_map s) in H1, H2.
  destruct (rev_map s !! bb) as [c|].
  - destruct (H1 c eq_refl) as [Hc|(S & HS & Hb)]; [done|]. exists S. split; [by apply He|done].
  - intros c S HS. apply (proj2 (H2 eq_refl) c S). by apply He.
Qed.

(** The comparison a block belongs to, by the comparison map; zero for none. *)
Definition cmp_of (s : ids) (bb c : Z) : Prop :=
  (exists S, getCmpMap s !! c = Some S /\ bb ∈ S) \/
  (c = 0 /\ forall c' S, getCmpMap s !! c' = Some S -> bb ∉ S).
Lemma rev_map_cmp_of B w s bb c :
  cmp_inv B w s -> default 0 (rev_map s !! bb) = c <-> cmp_of s bb c.
Proof.
  intros [_ Hc]. pose proof (rev_map_spec s bb) as R. unfold cmp_of, getCmpMap.
  destruct (rev_map s !! bb) as [d|]; cbn.
  - destruct R as (S & HS & Hb). split; [intros <-; left; eauto|].
    intros [(S' & HS' & Hb')|[_ H]]; [|by destruct (H d S)].
    destruct (Hc d S HS) as (_ & _ & Ha). destruct (Hc c S' HS') as (_ & _ & Ha').
    specialize (Ha bb Hb). specialize (Ha' bb Hb'). congruence.
  - split; [intros <-; by right|]. intros [(S & HS & Hb)|[-> _]]; [by destruct (R c S)|done].
Qed.

(** C34: the comparison graph is exact: it has an edge between two comparisons
    just when some block of the first has a successor block of the second, zero
    standing for the blocks no comparison follows. *)
Theorem cmp_cfg_exact follow uninit targets m' s :
  runOnModule follow uninit targets m ids0 = Ok (m', s) ->
  forall c1 c2, (c1, c2) ∈ getCmpCfg s <->
    exists b succ, b ∈ module_blocks m /\ succ ∈ block_successors b /\
      cmp_of s (num m (b_ptr b)) c1 /\ cmp_of s (num m succ) c2.
Proof.
  intros E. destruct (runOnModule_inv follow uninit targets) as (m1 & w & s1 & E1 & _ & Hc & He).
  rewrite E in E1. injection E1 as -> ->. intros c1 c2. unfold getCmpCfg. rewrite elem_of_map. split.
  - intros ([x y] & [= -> ->] & Hxy). rewrite He in Hxy.
    apply elem_of_list_to_set, list_elem_of_bind in Hxy as (b & Hs & Hb).
    apply list_elem_of_fmap in Hs as (succ & [= -> ->] & Hs). exists b, succ.
    split; [done|]. split; [done|]. by split; apply (rev_map_cmp_of _ _ _ _ _ Hc).
  - intros (b & succ & Hb & Hs & H1 & H2). exists (num m (b_ptr b), num m succ). split.
    + cbn. f_equal; symmetry; by apply (rev_map_cmp_of _ _ _ _ _ Hc).
    + rewrite He. apply elem_of_list_to_set, list_elem_of_bind. exists b. split; [|done].
      apply list_elem_of_fmap. by exists succ.
Qed.

(** On a well-formed module the pass runs to its end without exhausting the
    identifiers, and every function, argument, block and instruction gets its
    position in module order, counted from one, as its identifier: identifiers
    are unique, never zero and reproducible from the module alone. *)
Theorem ids_serial follow uninit targets :
  exists m' s, runOnModule follow uninit targets m ids0 = Ok (m', s) /\
    forall k p, module_ptrs m !! k = Some p -> getIdentifiersMap s !! p = Some (Z.of_nat k + 1).
Proof.
  destruct (runOnModule_inv follow uninit targets) as (m' & w & s & E & (_ & H) & _).
  exists m', s. split; [done|]. intros k p Hk. unfold getIdentifiersMap.
  rewrite (H p) by by eapply list_elem_of_lookup_2. by rewrite (num_lookup k).
Qed.

(** The comparison map is a partition: a block belongs to at most one
    comparison, which is the one the reverse map names for it, and every member
    is the identifier of a block of the module. *)
Theorem cmp_map_partition follow uninit targets m' s :
  runOnModule follow uninit targets m ids0 = Ok (m', s) ->
  (forall c S bb, getCmpMap s !! c = Some S -> bb ∈ S ->
     IdToAngoraMap s !! bb = Some c /\
     exists b, b ∈ module_blocks m /\ getIdentifiersMap s !! b_ptr b = Some bb) /\
  (forall c c' S S', getCmpMap s !! c = Some S -> getCmpMap s !! c' = Some S' -> c <> c' -> S ## S').
Proof.
  intros E. destruct (runOnModule_inv follow uninit targets) as (m1 & w & s1 & E1 & (_ & H) & (_ & Hc) & _).
  rewrite E in E1. injection E1 as -> ->. split.
  - intros c S bb HS Hb. destruct (Hc c S HS) as (HB & _ & Ha). split; [by apply Ha|].
    specialize (HB bb Hb). apply elem_of_list_to_set, list_elem_of_fmap in HB as (b & -> & Hbm).
    exists b. split; [done|]. apply H. apply list_elem_of_bind in Hbm as (f & ? & ?). by eapply block_ptr_module.
  - intros c c' S S' HS HS' Ne x Hx Hx'.
    destruct (Hc c S HS) as (_ & _ & Ha). destruct (Hc c' S' HS') as (_ & _ & Ha').
    specialize (Ha x Hx). specialize (Ha' x Hx'). congruence.
Qed.
End PassProofs.

(** ** A concrete module *)

(** [f]: a block that compares and branches to a block with an indirect call,
    whose function pointer is loaded from a variable. *)
Module ExModule.
Definition trace (p id : Z) : inst :=
  mkInst p "" true 0 false
    (KCall (VConst (CGlobal GlobalFunction 90 "__angora_trace_cmp")) [VConst (CInt 80 0); VConst (CInt (100 + id) id)])
    [] false 10 None.
Definition cmp1 : inst := mkInst 21 "c" false 1 false (KCmp false 32) [VArgument 3] true 10 None.
Definition br1 : inst := mkInst 22 "" true 0 false (KBr (Some (VInst 21 OpICmp, 12)) 11) [VInst 21 OpICmp] false 10 None.
Definition store1 : inst :=
  mkInst 24 "" true 0 false (KStore (VConst (CInt 107 7)) (VConst (CGlobal 1 91 "__angora_indirect_call_site")))
    [VConst (CInt 107 7); VConst (CGlobal 1 91 "__angora_indirect_call_site")] false 11 None.
Definition load1 : inst :=
  mkInst 25 "p" false 5 true (KLoad (VConst (CGlobal 1 92 "fp"))) [VConst (CGlobal 1 92 "fp")] true 11 None.
Definition store2 : inst :=
  mkInst 27 "" true 0 false (KStore (VArgument 3) (VConst (CGlobal 1 92 "fp")))
    [VArgument 3; VConst (CGlobal 1 92 "fp")] false 11 None.
Definition call1 : inst :=
  mkInst 26 "" true 0 false (KCall (VInst 25 OpLoad) [VInst 25 OpLoad]) [VInst 25 OpLoad] false 11 None.
Definition ret (p bb : Z) : inst := mkInst p "" true 0 false (KOther 1) [] false bb None.
Definition f : func :=
  mkFunc 1 "f" [mkArg 3 "x"]
    [mkBlock 10 "entry" [trace 20 5; cmp1; br1]; mkBlock 11 "then" [store1; store2; load1; call1; ret 28 11];
     mkBlock 12 "else" [trace 29 6; ret 30 12]].
Definition md : modul := [f].

Lemma md_wf : wf_module md.
Proof.
  split.
  - apply (bool_decide_unpack _). vm_compute. exact I.
  - vm_compute. reflexivity.
  - intros i Hi. apply list_elem_of_lookup_1 in Hi as [k Hk].
    do 10 (destruct k as [|k]; [vm_compute in Hk; injection Hk as <-; eexists; vm_compute; reflexivity|]).
    vm_compute in Hk. done.
  - intros g b s [->|?%elem_of_nil]%elem_of_cons Hb Hs; [|done].
    apply list_elem_of_lookup_1 in Hb as [k Hk].
    do 3 (destruct k as [|k]; [vm_compute in Hk; injection Hk as <-; vm_compute in Hs; set_solver|]).
    vm_compute in Hk. done.
Qed.

Definition after : ids :=
  match runOnModule false 0 None md ids0 with Ok (_, s) => s | Fault _ => ids0 end.
Lemma after_eq : runOnModule false 0 None md ids0 = Ok (md, after).
Proof. vm_compute. reflexivity. Qed.

Lemma ids_serial_witness :
  wf_module md /\ exists m' s, runOnModule false 0 None md ids0 = Ok (m', s) /\ getIdentifiersMap s !! 30 = Some 15.
Proof.
  split; [exact md_wf|]. destruct (ids_serial md md_wf false 0 None) as (m' & s & E & H).
  exists m', s. split; [exact E|]. exact (H 14%nat 30 eq_refl).
Defined.
Lemma cmp_map_partition_witness :
  runOnModule false 0 None md ids0 = Ok (md, after) /\ IdToAngoraMap after !! 3 = Some 5.
Proof.
  split; [exact after_eq|].
  destruct (cmp_map_partition md md_wf false 0 None md after after_eq) as [H _].
  apply (H 5 {[ 3 ]} 3); [vm_compute; reflexivity|set_solver].
Defined.
Lemma cmp_cfg_exact_witness :
  runOnModule false 0 None md ids0 = Ok (md, after) /\ (5, 6) ∈ getCmpCfg after.
Proof.
  split; [exact after_eq|]. apply (cmp_cfg_exact md md_wf false 0 None md after after_eq).
  exists (mkBlock 10 "entry" [trace 20 5; cmp1; br1]), 12.
  split; [left|]. split; [right; left|]. split; left.
  - exists {[ 3 ]}. split; [vm_compute; reflexivity|]. vm_compute (num _ _). set_solver.
  - exists {[ 7; 13 ]}. split; [vm_compute; reflexivity|]. vm_compute (num _ _). set_solver.
Defined.
Lemma indirect_branch_exact_witness :
  NoDup (i_ptr <$> module_insts md) /\
  exists w, collectPreviousIndirectBranch md false (walk_fuel md) load1 (mkWalk ∅ ∅) = Ok w /\ 21 ∈ w_result w.
Proof.
  split; [exact (module_insts_ptrs md md_wf)|].
  destruct (indirect_branch_exact md false (module_insts_ptrs md md_wf) load1) as (w & E & H).
  - apply list_elem_of_lookup_2 with 5%nat. vm_compute. reflexivity.
  - exists w. split; [exact E|]. apply H. exists cmp1. split; [|split; reflexivity].
    eapply (reaches_step _ _ _ store2); [reflexivity|left|].
    eapply (reaches_step _ _ _ br1); [reflexivity|left|].
    eapply (reaches_step _ _ _ cmp1); [reflexivity|left|]. constructor.
Defined.
(** The call site depends on the comparison of the entry block. *)
Example call_site_7 : getCallSiteDominators after !! 7 = Some {[ 5 ]}.
Proof. vm_compute. reflexivity. Qed.
End ExModule.
