(* ===== verification/DiffConsumer.v ===== *)
(** * The difference consumer

    [tools/llvm-diff-parmesan/DiffLog.h], [DiffLog.cpp], [DiffConsumer.h] and
    [DiffConsumer.cpp]: the consumer is told which pair of functions, blocks and
    instructions is being compared and which differences were found.  It prints
    them, and collects the identifiers of the left blocks that contain one,
    which become the fuzzing targets. *)

From stdpp Require Import sorting pretty.
From Stdlib Require Import Ascii.
From S2P Require Import Prelude Ir IDAssigner.

Local Open Scope Z_scope.

(** ** Data *)

(** [DiffContext]: the pair being compared.  Both sides are of one kind. *)
Inductive pair_ctx :=
| CtxFunction (L R : func)
| CtxBlock (L R : block)
| CtxInst (L R : inst).
Definition IsFunction (p : pair_ctx) : bool := match p with CtxFunction _ _ => true | _ => false end.

Record DiffContext := mkContext {
  c_pair : pair_ctx;
  c_differences : bool;
  LNumbering : gmap Z Z;
  RNumbering : gmap Z Z;
}.
Definition new_DiffContext (p : pair_ctx) : DiffContext := mkContext p false ∅ ∅.

(** The consumer; [out] and [dbg] are what was written to [errs()] and to
    [dbgs()].  The vector of contexts has the innermost one at its end. *)
Record DiffConsumer := mkConsumer {
  out : string;
  dbg : string;
  contexts : list DiffContext;
  Differences : bool;
  Indent : Z;
  IdAssigner : option ids;
  DiffIdSet : gset Z;
}.
Definition new_DiffConsumer : DiffConsumer := mkConsumer "" "" [] false 0 None ∅.
Abbreviation C := (M DiffConsumer).

Definition emit (s : string) : C unit :=
  modify (fun c => mkConsumer (out c +:+ s) (dbg c) (contexts c) (Differences c) (Indent c)
                     (IdAssigner c) (DiffIdSet c)).
Definition emit_dbg (s : string) : C unit :=
  modify (fun c => mkConsumer (out c) (dbg c +:+ s) (contexts c) (Differences c) (Indent c)
                     (IdAssigner c) (DiffIdSet c)).
Definition set_contexts (l : list DiffContext) (c : DiffConsumer) : DiffConsumer :=
  mkConsumer (out c) (dbg c) l (Differences c) (Indent c) (IdAssigner c) (DiffIdSet c).
Definition add_diff_id (i : Z) (c : DiffConsumer) : DiffConsumer :=
  mkConsumer (out c) (dbg c) (contexts c) (Differences c) (Indent c) (IdAssigner c) ({[ i ]} ∪ DiffIdSet c).
Definition setIdAssigner (a : ids) : C unit :=
  modify (fun c => mkConsumer (out c) (dbg c) (contexts c) (Differences c) (Indent c) (Some a) (DiffIdSet c)).
Definition hadDifferences (c : DiffConsumer) : bool := Differences c.

(** [DiffLogBuilder]: a line is a pair of instructions, one of which may be
    null. *)
Inductive DiffChange := DC_match | DC_left | DC_right.
#[export] Instance DiffChange_eq_dec : EqDecision DiffChange.
Proof. solve_decision. Defined.
Abbreviation diff_lines := (list (option inst * option inst)).
Definition addMatch (l r : inst) (d : diff_lines) : diff_lines := d ++ [(Some l, Some r)].
Definition addLeft (l : inst) (d : diff_lines) : diff_lines := d ++ [(Some l, None)].
Definition addRight (r : inst) (d : diff_lines) : diff_lines := d ++ [(None, Some r)].
Definition getLineKind (rec : option inst * option inst) : DiffChange :=
  match rec with
  | (Some _, Some _) => DC_match
  | (Some _, None) => DC_left
  | (None, _) => DC_right
  end.

(** ** Numbering *)

(** [if (!V->hasName()) Numbering[V] = IN++] *)
Definition number (named : bool) (p : Z) (n : Z * gmap Z Z) : Z * gmap Z Z :=
  if named then n else (fst n + 1, <[p := fst n]> (snd n)).
Definition has_name (s : string) : bool := negb (String.eqb s "").
Definition number_block (n : Z * gmap Z Z) (b : block) : Z * gmap Z Z :=
  foldl (fun n i => number (has_name (i_name i) || i_void i) (i_ptr i) n)
        (number (has_name (b_name b)) (b_ptr b) n) (b_insts b).
Definition numbering (f : func) : gmap Z Z :=
  snd (foldl number_block
         (foldl (fun n a => number (has_name (a_name a)) (a_ptr a) n) (0, ∅) (f_args f)) (f_blocks f)).
Definition ComputeNumbering (f : func) : res (gmap Z Z) :=
  if decide (numbering f = ∅) then Fault AssertFailed else Ok (numbering f).

(** ** Printing *)

Section Printing.
(** The functions of both modules, the objects of which have distinct
    addresses, and LLVM's printer. *)
Variable heap : modul.
Variable print_ir : value -> string.

(** The index of the innermost function context. *)
Fixpoint function_context (l : list DiffContext) : option nat :=
  match l with
  | [] => None
  | c :: l => match function_context l with
              | Some k => Some (S k)
              | None => if IsFunction (c_pair c) then Some O else None
              end
  end.

(** [ctxt.LNumbering[V]], computed first if it is empty. *)
Definition numbered_name (p : Z) (isL : bool) (k : nat) (c : DiffContext) : C unit :=
  match c_pair c with
  | CtxFunction L R =>
      let old := if isL then LNumbering c else RNumbering c in
      n <- (if decide (old = ∅) then of_res (ComputeNumbering (if isL then L else R)) else ret old) ;;
      let n := touch p n in
      modify (fun s => set_contexts
        (<[k := if isL then mkContext (c_pair c) (c_differences c) n (RNumbering c)
                else mkContext (c_pair c) (c_differences c) (LNumbering c) n]> (contexts s)) s) ;;;
      emit ("%" +:+ pretty (default 0 (n !! p)))
  | _ => fail AssertFailed
  end.

Definition is_global (v : value) : bool := match v with VConst (CGlobal _ _ _) => true | _ => false end.
Definition is_constant (v : value) : bool := match v with VConst _ => true | _ => false end.

(** The loop from the innermost context outwards. *)
Definition print_number (p : Z) (isL : bool) : C unit :=
  l <- gets contexts ;;
  match function_context l with
  | Some k => match l !! k with
              | Some c => numbered_name p isL k c
              | None => fail AssertFailed
              end
  | None => emit "<anonymous>"
  end.

(** The operands that are printed for a void value are not void, so that two
    rounds are enough. *)
Fixpoint printValue_ (fuel : nat) (v : value) (isL : bool) : C unit :=
  match fuel with
  | O => fail OutOfFuel
  | S fuel =>
      if has_name (value_name heap v)
      then emit ((if is_global v then "@" else "%") +:+ value_name heap v)
      else if value_void heap v then
        match v with
        | VInst p _ =>
            match i_kind <$> find_inst heap p with
            | Some (KStore _ ptr) => emit "store to " ;;; printValue_ fuel ptr isL
            | Some (KCall callee _) => emit "call to " ;;; printValue_ fuel callee isL
            | Some (KInvoke callee _ _ _) => emit "invoke to " ;;; printValue_ fuel callee isL
            | _ => emit (print_ir v)
            end
        | _ => emit (print_ir v)
        end
      else if is_constant v then emit (print_ir v)
      else
        print_number (value_ptr v) isL
  end.
Definition printValue (v : value) (isL : bool) : C unit := printValue_ 2 v isL.

(** ** Contexts *)

Definition header_context (p : pair_ctx) : C unit :=
  match p with
  | CtxFunction L R =>
      d <- gets Differences ;;
      when d (emit (nl +:+ nl)) ;;;
      emit ("in function " +:+ f_name L +:+
            (if String.eqb (f_name L) (f_name R) then "" else " / " +:+ f_name R) +:+ ":" +:+ nl)
  | CtxBlock L R =>
      a <- gets IdAssigner ;;
      match a with
      | None => fail Segv
      | Some a =>
          let diffId := default 0 (getIdentifiersMap a !! b_ptr L) in
          modify (add_diff_id diffId) ;;;
          if has_name (b_name L) && has_name (b_name R) && String.eqb (b_name L) (b_name R) then
            emit ("  in block %" +:+ b_name L +:+ ":" +:+ nl) ;;;
            emit ("  in block %" +:+ b_name L +:+ "(" +:+ pretty diffId +:+ "):" +:+ nl)
          else
            emit "  in block " ;;; printValue (VBlock (b_ptr L)) true ;;;
            emit " / " ;;; printValue (VBlock (b_ptr R)) false ;;;
            emit (" (" +:+ pretty diffId +:+ "):" +:+ nl)
      end
  | CtxInst L R =>
      emit "    in instruction " ;;; printValue (inst_value L) true ;;;
      emit " / " ;;; printValue (inst_value R) false ;;; emit (":" +:+ nl)
  end.
Definition mark (c : DiffContext) : DiffContext :=
  mkContext (c_pair c) true (LNumbering c) (RNumbering c).
(** The loop over the contexts from index [k]; [n] are left. *)
Fixpoint header_loop (n k : nat) : C unit :=
  match n with
  | O => ret tt
  | S n =>
      l <- gets contexts ;;
      match l !! k with
      | None => ret tt
      | Some c =>
          if c_differences c then header_loop n (S k) else
          header_context (c_pair c) ;;;
          modify (fun s => set_contexts (alter mark k (contexts s)) s) ;;;
          header_loop n (S k)
      end
  end.
Definition header : C unit :=
  l <- gets contexts ;; header_loop (length l) 0.

Fixpoint spaces (n : nat) : string :=
  match n with O => EmptyString | S n => String (ascii_of_nat 32) (spaces n) end.
Definition indent : C unit :=
  n <- gets Indent ;; emit (spaces (Z.to_nat n)).

Definition enterContext (p : pair_ctx) : C unit :=
  modify (fun c => mkConsumer (out c) (dbg c) (contexts c ++ [new_DiffContext p]) (Differences c)
                     (u32 (Indent c + 2)) (IdAssigner c) (DiffIdSet c)).
Definition exitContext : C unit :=
  l <- gets contexts ;;
  match reverse l with
  | [] => fail AssertFailed
  | c :: r =>
      modify (fun s => mkConsumer (out s) (dbg s) (reverse r) (Differences s || c_differences c)
                         (u32 (Indent s - 2)) (IdAssigner s) (DiffIdSet s))
  end.

(** ** Messages *)

Definition log (text : string) : C unit :=
  header ;;; indent ;;; emit (text +:+ nl).

(** The format: [%l] and [%r] take the next argument, [%%] is a percent sign. *)
Fixpoint logf_format (format : string) (args : list value) : C unit :=
  match format with
  | EmptyString => ret tt
  | String a rest =>
      if ascii_dec a "%" then
        match rest with
        | EmptyString => fail AssertFailed
        | String b rest =>
            if ascii_dec b "%" then emit "%" ;;; logf_format rest args
            else if ascii_dec b "l" then
              match args with [] => fail AssertFailed
                         | v :: args => printValue v true ;;; logf_format rest args end
            else if ascii_dec b "r" then
              match args with [] => fail AssertFailed
                         | v :: args => printValue v false ;;; logf_format rest args end
            else fail AssertFailed
        end
      else emit (String a EmptyString) ;;; logf_format rest args
  end.
Definition print_ids (sep : string) (l : list Z) : string :=
  String.concat "" ((fun e => pretty e +:+ sep) <$> l).
Definition logf (format : string) (args : list value) : C unit :=
  header ;;; indent ;;; logf_format format args ;;;
  emit nl ;;;
  ids <- gets DiffIdSet ;;
  emit ("Diff IDs: " +:+ print_ids ", " (sorted ids) +:+ nl +:+ nl).

Definition log_line (rec : option inst * option inst) : C unit :=
  indent ;;;
  emit (match getLineKind rec with DC_match => "  " | DC_left => "< " | DC_right => "> " end) ;;;
  match getLineKind rec, rec with
  | (DC_match | DC_left), (Some i, _) | DC_right, (_, Some i) => emit_dbg (print_ir (inst_value i) +:+ nl)
  | _, _ => fail Segv
  end.
Fixpoint log_lines (d : diff_lines) : C unit :=
  match d with [] => ret tt | rec :: d => log_line rec ;;; log_lines d end.
Definition logd (d : diff_lines) : C unit := header ;;; log_lines d.
End Printing.

(** ** Statistics *)

(** The comparisons of which a block has a difference. *)
Definition diff_cmps (a : ids) (diff : gset Z) : gset Z :=
  list_to_set (e ← sorted_entries (getCmpMap a); bb ← sorted (snd e);
               if decide (bb ∈ diff) then [fst e] else []).

Definition printStats : C unit :=
  o <- gets IdAssigner ;;
  match o with
  | None => fail Segv
  | Some a =>
      d <- gets DiffIdSet ;;
      emit (nl +:+ "Diff BB IDs: " +:+ print_ids " " (sorted d) +:+ nl) ;;;
      emit ("Diff Cmp IDs: " +:+ print_ids " " (sorted (diff_cmps a d)) +:+ nl) ;;;
      emit ("Call Site Dominators:" +:+ nl) ;;;
      emit (String.concat "" ((fun e => pretty (fst e) +:+ ": " +:+ print_ids "," (sorted (snd e)) +:+ nl)
              <$> sorted_entries (getCallSiteDominators a)))
  end.

Definition quote : string := String (ascii_of_nat 34) EmptyString.
Definition quoted (s : string) : string := quote +:+ s +:+ quote.
Definition json_list (l : list string) : string := String.concat ", " l.
(** The text [printStatsJson] writes to its stream. *)
Definition json_text (a : ids) (d : gset Z) : string :=
  "{" +:+ nl +:+ quoted "targets" +:+ ": [" +:+
    json_list (pretty <$> sorted (diff_cmps a d)) +:+ "]," +:+ nl +:+
  quoted "edges" +:+ ": [" +:+
    json_list ((fun e => "[" +:+ pretty (fst e) +:+ "," +:+ pretty (snd e) +:+ "]")
                 <$> sorted_pairs (getCmpCfg a)) +:+ "]," +:+ nl +:+
  quoted "callsite_dominators" +:+ ":{" +:+
    json_list ((fun e => quoted (pretty (fst e)) +:+ ": [" +:+
                  json_list (pretty <$> sorted (snd e)) +:+ "]")
                 <$> sorted_entries (getCallSiteDominators a)) +:+ "}" +:+ nl +:+ "}".
Definition printStatsJson : C string :=
  o <- gets IdAssigner ;;
  match o with
  | None => fail Segv
  | Some a => d <- gets DiffIdSet ;; ret (json_text a d)
  end.

(** ** Proofs: printing cannot fail *)

Lemma foldl_stays {X Y} (P : X -> Prop) (g : X -> Y -> X) (l : list Y) :
  (forall n x, P n -> P (g n x)) -> forall n, P n -> P (foldl g n l).
Proof. intros H. induction l as [|x l IH]; intros n Hn; cbn; [done|auto]. Qed.
Lemma foldl_reaches {X Y} (P : X -> Prop) (g : X -> Y -> X) (l : list Y) x :
  (forall n y, P n -> P (g n y)) -> x ∈ l -> (forall n, P (g n x)) -> forall n, P (foldl g n l).
Proof.
  intros H. induction 1 as [x l|x y l Hx IH]; intros Hg n; cbn; [by apply foldl_stays|by apply IH].
Qed.

Definition some_number (n : Z * gmap Z Z) : Prop := snd n <> ∅.
Lemma number_stays b p n : some_number n -> some_number (number b p n).
Proof. unfold number, some_number. destruct b; [done|]. intros _. apply insert_non_empty. Qed.
Lemma number_reaches p n : some_number (number false p n).
Proof. apply insert_non_empty. Qed.
Lemma number_block_stays n b : some_number n -> some_number (number_block n b).
Proof. intros Hn. unfold number_block. apply foldl_stays; [intros; by apply number_stays|by apply number_stays]. Qed.

Lemma numbering_arg f a : a ∈ f_args f -> has_name (a_name a) = false -> numbering f <> ∅.
Proof.
  intros Ha Hn. unfold numbering. apply (foldl_stays some_number); [intros; by apply number_block_stays|].
  apply (foldl_reaches some_number _ _ a); [intros; by apply number_stays|done|].
  intros n. rewrite Hn. apply number_reaches.
Qed.
Lemma numbering_block f b : b ∈ f_blocks f -> has_name (b_name b) = false -> numbering f <> ∅.
Proof.
  intros Hb Hn. unfold numbering.
  apply (foldl_reaches some_number _ _ b); [intros; by apply number_block_stays|done|].
  intros n. unfold number_block. apply foldl_stays; [intros; by apply number_stays|]. rewrite Hn. apply number_reaches.
Qed.
Lemma numbering_inst f i :
  i ∈ func_insts f -> has_name (i_name i) = false -> i_void i = false -> numbering f <> ∅.
Proof.
  intros (b & Hi & Hb)%list_elem_of_bind Hn Hv. unfold numbering.
  apply (foldl_reaches some_number _ _ b); [intros; by apply number_block_stays|done|].
  intros n. unfold number_block. apply (foldl_reaches some_number _ _ i); [intros; by apply number_stays|done|].
  intros n'. rewrite Hn, Hv. apply number_reaches.
Qed.

Section ConsumerProofs.
Variable heap : modul.
Variable print_ir : value -> string.

(** A value that function [f] can refer to. *)
Definition value_in (f : func) (v : value) : Prop :=
  match v with
  | VArgument p => exists a, a ∈ f_args f /\ find_arg heap p = Some a
  | VBlock p => exists b, b ∈ f_blocks f /\ find_block heap p = Some b
  | VInst p _ => exists i, i ∈ func_insts f /\ find_inst heap p = Some i
  | VConst _ => True
  | VOther _ _ => numbering f <> ∅
  end.
(** The operand that is printed for a void instruction. *)
Definition printed_operand (k : ikind) : option value :=
  match k with KStore _ p => Some p | KCall c _ => Some c | KInvoke c _ _ _ => Some c | _ => None end.
Definition printable (f : func) (v : value) : Prop :=
  value_in f v /\
  forall p o i w, v = VInst p o -> find_inst heap p = Some i -> printed_operand (i_kind i) = Some w ->
    value_in f w /\ value_void heap w = false.

(** What printing does not change. *)
Definition flags (l : list DiffContext) : list (pair_ctx * bool) :=
  (fun c => (c_pair c, c_differences c)) <$> l.
Definition same_view (c c' : DiffConsumer) : Prop :=
  flags (contexts c') = flags (contexts c) /\ Differences c' = Differences c /\
  Indent c' = Indent c /\ IdAssigner c' = IdAssigner c /\ DiffIdSet c' = DiffIdSet c.
#[local] Instance same_view_preorder : PreOrder same_view.
Proof.
  split; [done|]. intros a b c (? & ? & ? & ? & ?) (? & ? & ? & ? & ?). repeat split; congruence.
Qed.

(** A computation that succeeds and keeps the view. *)
Definition harmless (P : DiffConsumer -> Prop) (m : C unit) : Prop :=
  forall c, P c -> exists c', m c = Ok (tt, c') /\ same_view c c'.
Definition view_pred (P : DiffConsumer -> Prop) : Prop :=
  forall c c', same_view c c' -> P c -> P c'.

Lemma harmless_emit P s : harmless P (emit s).
Proof. intros c _. eexists. split; [reflexivity|done]. Qed.
Lemma harmless_emit_dbg P s : harmless P (emit_dbg s).
Proof. intros c _. eexists. split; [reflexivity|done]. Qed.
Lemma harmless_seq P (m k : C unit) :
  view_pred P -> harmless P m -> harmless P k -> harmless P (m ;;; k).
Proof.
  intros HP Hm Hk c Hc. destruct (Hm c Hc) as (c1 & E1 & V1).
  destruct (Hk c1) as (c2 & E2 & V2); [by eapply HP|]. exists c2.
  rewrite (bind_Ok _ _ _ _ _ E1). split; [done|by etrans].
Qed.
Lemma harmless_gets {X} P (g : DiffConsumer -> X) k :
  (forall c, P c -> exists c', k (g c) c = Ok (tt, c') /\ same_view c c') -> harmless P (bind (gets g) k).
Proof. done. Qed.

(** The contexts are those of a comparison of two functions. *)
Definition in_function (L R : func) (c : DiffConsumer) : Prop :=
  exists l, c_pair <$> contexts c = CtxFunction L R :: l /\ Forall (fun p => IsFunction p = false) l.
Lemma flags_pairs l l' : flags l = flags l' -> c_pair <$> l = c_pair <$> l'.
Proof.
  intros E. apply (f_equal (fmap fst)) in E. unfold flags in E. by rewrite <-!list_fmap_compose in E.
Qed.
Lemma in_function_view L R : view_pred (in_function L R).
Proof.
  intros c c' (E & _) (l & El & Hl). exists l. split; [|done]. by rewrite (flags_pairs _ _ E).
Qed.
Lemma function_context_0 c0 l :
  IsFunction (c_pair c0) = true -> Forall (fun p => IsFunction p = false) (c_pair <$> l) ->
  function_context (c0 :: l) = Some 0%nat.
Proof.
  intros H0 Hl. cbn. assert (function_context l = None) as ->; [|by rewrite H0].
  induction l as [|c l IH]; [done|]. cbn in Hl. apply list.Forall_cons in Hl as [Hc Hl].
  cbn. by rewrite IH, Hc.
Qed.

(** A local value without a name gets a number. *)
Lemma number_harmless (L R : func) p (isL : bool) :
  numbering (if isL then L else R) <> ∅ ->
  harmless (in_function L R) (print_number p isL).
Proof.
  intros Hn c (l & El & Hl). unfold print_number.
  rewrite (bind_Ok (gets contexts) _ c (contexts c) c) by done.
  destruct (contexts c) as [|c0 cs] eqn:Ec; [done|]. cbn in El. injection El as E0 Ecs.
  rewrite function_context_0 by (rewrite ?E0, ?Ecs; done). cbn [lookup list_lookup].
  unfold numbered_name. rewrite E0.
  set (old := if isL then LNumbering c0 else RNumbering c0).
  assert (exists n, (if decide (old = ∅) then of_res (ComputeNumbering (if isL then L else R)) else ret old) c
                    = Ok (n, c)) as [n En].
  { case_decide; [|by eexists]. unfold ComputeNumbering. rewrite decide_False by done. by eexists. }
  rewrite (bind_Ok _ _ _ _ _ En). eexists. split; [reflexivity|].
  repeat split. cbn. rewrite Ec. by destruct isL; cbn; rewrite ?E0.
Qed.

Lemma value_in_named f v :
  value_in f v -> has_name (value_name heap v) = false -> value_void heap v = false ->
  is_constant v = false -> numbering f <> ∅.
Proof.
  destruct v as [p|p o|p|k|k p]; cbn; try done.
  - intros (a & Ha & ->) Hn _ _. by eapply numbering_arg.
  - intros (i & Hi & ->) Hn Hv _. by eapply numbering_inst.
  - intros (b & Hb & ->) Hn _ _. by eapply numbering_block.
Qed.

Lemma printValue_nonvoid (L R : func) fuel v (isL : bool) :
  value_in (if isL then L else R) v -> value_void heap v = false ->
  harmless (in_function L R) (printValue_ heap print_ir (S fuel) v isL).
Proof.
  intros Hin Hv. cbn [printValue_]. destruct (has_name (value_name heap v)) eqn:Hn; [apply harmless_emit|].
  rewrite Hv. destruct (is_constant v) eqn:Hc; [apply harmless_emit|].
  apply number_harmless. by eapply value_in_named.
Qed.
Lemma printValue_harmless (L R : func) v (isL : bool) :
  printable (if isL then L else R) v -> harmless (in_function L R) (printValue heap print_ir v isL).
Proof.
  intros [Hin Hop]. destruct (value_void heap v) eqn:Hv; [|by apply printValue_nonvoid].
  unfold printValue. remember 1%nat as fuel eqn:Ef. cbn [printValue_].
  destruct (has_name (value_name heap v)) eqn:Hn; [apply harmless_emit|]. rewrite Hv.
  destruct v as [p|p o|p|k|k p]; try apply harmless_emit.
  destruct Hin as (i & Hi & Hf). rewrite Hf. cbn [fmap option_fmap option_map].
  specialize (Hop p o i). destruct (i_kind i) as [| | | | | | | | |val ptr|];
    try apply harmless_emit;
    (apply harmless_seq; [apply in_function_view|apply harmless_emit|]; subst fuel;
     edestruct Hop; [done|done|done|]; by apply printValue_nonvoid).
Qed.

(** ** Proofs: headers *)

Definition block_id (a : ids) (p : pair_ctx) : gset Z :=
  match p with CtxBlock L _ => {[ default 0 (getIdentifiersMap a !! b_ptr L) ]} | _ => ∅ end.
Definition stack_ids (a : ids) (l : list pair_ctx) : gset Z := ⋃ (block_id a <$> l).
Definition pair_ok (L R : func) (p : pair_ctx) : Prop :=
  match p with
  | CtxFunction _ _ => True
  | CtxBlock l r => printable L (VBlock (b_ptr l)) /\ printable R (VBlock (b_ptr r))
  | CtxInst l r => printable L (inst_value l) /\ printable R (inst_value r)
  end.

(** The view changes by new flags and new identifiers. *)
Definition view_step (F : list (pair_ctx * bool)) (S : gset Z) (c c' : DiffConsumer) : Prop :=
  flags (contexts c') = F /\ Differences c' = Differences c /\
  Indent c' = Indent c /\ IdAssigner c' = IdAssigner c /\ DiffIdSet c' = S ∪ DiffIdSet c.

Lemma header_context_ok L R a p c :
  in_function L R c -> IdAssigner c = Some a -> pair_ok L R p ->
  exists c', header_context heap print_ir p c = Ok (tt, c') /\
    view_step (flags (contexts c)) (block_id a p) c c'.
Proof.
  intros Hc Ha Hp.
  assert (Hh : forall m, harmless (in_function L R) m ->
    exists c', m c = Ok (tt, c') /\ view_step (flags (contexts c)) ∅ c c').
  { intros m Hm. destruct (Hm c Hc) as (c' & E & V1 & V2 & V3 & V4 & V5). exists c'. split; [done|].
    repeat split; try done. by rewrite union_empty_l_L. }
  destruct p as [l r|l r|l r]; cbn [header_context block_id].
  - apply Hh. apply harmless_gets. intros c0 Hc0.
    assert (harmless (in_function L R) (when (Differences c0) (emit (nl +:+ nl)))).
    { destruct (Differences c0); [apply harmless_emit|]. intros c1 _. by exists c1. }
    revert c0 Hc0 H. intros c0 Hc0 Hw. apply (harmless_seq _ _ _ (in_function_view L R) Hw); [|done].
    apply harmless_emit.
  - destruct Hp as [Hl Hr]. rewrite (bind_Ok (gets IdAssigner) _ c (Some a) c) by (by rewrite <-Ha).
    set (d := default 0 _). rewrite (bind_Ok (modify (add_diff_id d)) _ c tt (add_diff_id d c)) by done.
    match goal with |- exists _, ?m _ = _ /\ _ =>
      assert (Hm : harmless (in_function L R) m) end.
    { destruct (_ && _).
      - apply harmless_seq; [apply in_function_view|apply harmless_emit|apply harmless_emit].
      - repeat (apply harmless_seq; [apply in_function_view| |]); try apply harmless_emit;
          by apply printValue_harmless. }
    destruct (Hm (add_diff_id d c)) as (c' & E & V1 & V2 & V3 & V4 & V5); [exact Hc|].
    exists c'. split; [exact E|]. by repeat split.
  - destruct Hp as [Hl Hr]. apply Hh.
    repeat (apply harmless_seq; [apply in_function_view| |]); try apply harmless_emit;
      by apply printValue_harmless.
Qed.

Lemma flags_lookup l k p b : flags l !! k = Some (p, b) ->
  exists c, l !! k = Some c /\ c_pair c = p /\ c_differences c = b.
Proof. unfold flags. rewrite list_lookup_fmap. intros (c & E & [= -> ->])%fmap_Some. by exists c. Qed.
Lemma flags_mark l k pre p b suf :
  flags l = pre ++ (p, b) :: suf -> k = length pre -> flags (alter mark k l) = pre ++ (p, true) :: suf.
Proof.
  intros E ->. unfold flags in *. apply list_eq. intros j. rewrite list_lookup_fmap.
  destruct (decide (j = length pre)) as [->|Ne].
  - rewrite list_lookup_alter_eq, list_lookup_middle by done.
    assert (Hl : flags l !! length pre = Some (p, b)) by (unfold flags; by rewrite E, list_lookup_middle).
    apply flags_lookup in Hl as (c & -> & <- & _). done.
  - rewrite list_lookup_alter_ne by done. rewrite <-list_lookup_fmap, E.
    destruct (decide (j < length pre)%nat); [by rewrite !lookup_app_l by lia|].
    rewrite !lookup_app_r by lia. by destruct (j - length pre)%nat eqn:?; [lia|].
Qed.

Lemma header_loop_ok L R a suf : forall pre c,
  in_function L R c -> IdAssigner c = Some a -> Forall (pair_ok L R) suf.*1 ->
  flags (contexts c) = pre ++ suf ->
  (forall p, (p, true) ∈ suf -> block_id a p ⊆ DiffIdSet c) ->
  exists c', header_loop heap print_ir (length suf) (length pre) c = Ok (tt, c') /\
    view_step (pre ++ ((fun x => (x.1, true)) <$> suf)) (stack_ids a suf.*1) c c'.
Proof.
  induction suf as [|[p b] suf IH]; intros pre c Hc Ha Hok HF Hi.
  { exists c. split; [done|]. repeat split; [by rewrite HF|]. cbn. by rewrite union_empty_l_L. }
  cbn [fmap list_fmap] in Hok. apply list.Forall_cons in Hok as [Hp Hok].
  destruct (flags_lookup (contexts c) (length pre) p b) as (x & Ex & Epx & Ebx);
    [rewrite HF; by apply list_lookup_middle|].
  cbn [length header_loop]. rewrite (bind_Ok (gets contexts) _ c (contexts c) c) by done.
  rewrite Ex, Ebx, Epx.
  assert (Hids : stack_ids a (fmap fst ((p, b) :: suf)) = block_id a p ∪ stack_ids a suf.*1) by done.
  replace (S (length pre)) with (length (pre ++ [(p, true)])) by (rewrite length_app; cbn; lia).
  destruct b.
  - destruct (IH (pre ++ [(p, true)]) c) as (c' & E & V1 & V2 & V3 & V4 & V5); [done|done|done| | |].
    { by rewrite <-app_assoc. } { intros q Hq. apply Hi. by right. }
    exists c'. split; [done|]. rewrite <-app_assoc in V1. repeat split; [done..|].
    rewrite Hids, V5. pose proof (Hi p ltac:(by left)). set_solver.
  - destruct (header_context_ok L R a p c Hc Ha Hp) as (c1 & E1 & V1 & V2 & V3 & V4 & V5).
    rewrite (bind_Ok _ _ _ _ _ E1). set (c2 := set_contexts (alter mark (length pre) (contexts c1)) c1).
    rewrite (bind_Ok (modify _) _ c1 tt c2) by done.
    assert (HF2 : flags (contexts c2) = pre ++ (p, true) :: suf).
    { cbn. eapply flags_mark; [by rewrite V1|done]. }
    destruct (IH (pre ++ [(p, true)]) c2) as (c' & E & W1 & W2 & W3 & W4 & W5).
    + destruct Hc as (l & El & Hl). exists l. split; [|done].
      apply (f_equal (fmap fst)) in HF2, HF. unfold flags in HF2, HF. rewrite <-!list_fmap_compose in HF2, HF.
      rewrite <-El. rewrite !fmap_app in HF2, HF. etrans; [exact HF2|]. symmetry. exact HF.
    + cbn. by rewrite V4.
    + done.
    + by rewrite <-app_assoc.
    + intros q Hq. cbn. rewrite V5. etrans; [apply Hi; by right|]. set_solver.
    + exists c'. split; [done|]. rewrite <-app_assoc in W1.
      repeat split; [exact W1|rewrite W2; exact V2|rewrite W3; exact V3|rewrite W4; exact V4|].
      rewrite Hids, W5. cbn. rewrite V5. set_solver.
Qed.

(** ** What the consumer promises

    The engine drives the consumer by a sequence of calls.  The specification
    keeps the stack of pairs, the set of identifiers of the left blocks that
    were on the stack when a difference was reported, and whether there was a
    report inside a context. *)
Inductive event :=
| EvEnter (p : pair_ctx)
| EvExit
| EvLog (text : string)
| EvLogf (format : string) (args : list value)
| EvLogd (d : diff_lines).

Definition perform (ev : event) : C unit :=
  match ev with
  | EvEnter p => enterContext p
  | EvExit => exitContext
  | EvLog text => log heap print_ir text
  | EvLogf format args => logf heap print_ir format args
  | EvLogd d => logd heap print_ir d
  end.
Fixpoint perform_all (evs : list event) : C unit :=
  match evs with [] => ret tt | ev :: evs => perform ev ;;; perform_all evs end.

Record spec_state := mkSpec { sp_stack : list pair_ctx; sp_diff : bool; sp_ids : gset Z }.
Definition spec_step (a : ids) (s : spec_state) (ev : event) : spec_state :=
  match ev with
  | EvEnter p => mkSpec (sp_stack s ++ [p]) (sp_diff s) (sp_ids s)
  | EvExit => mkSpec (removelast (sp_stack s)) (sp_diff s) (sp_ids s)
  | _ => mkSpec (sp_stack s) (sp_diff s || negb (bool_decide (sp_stack s = [])))
                (stack_ids a (sp_stack s) ∪ sp_ids s)
  end.

(** The sequences of calls an engine may make. *)
Definition arg_ok (st : list pair_ctx) (isL : bool) (v : value) : Prop :=
  match st with
  | CtxFunction L R :: _ => printable (if isL then L else R) v
  | _ => is_constant v = true
  end.
Fixpoint format_ok (st : list pair_ctx) (format : string) (args : list value) : Prop :=
  match format with
  | EmptyString => True
  | String a rest =>
      if ascii_dec a "%" then
        match rest with
        | EmptyString => False
        | String b rest =>
            if ascii_dec b "%" then format_ok st rest args
            else match args with
                 | [] => False
                 | v :: args =>
                     if ascii_dec b "l" then arg_ok st true v /\ format_ok st rest args
                     else if ascii_dec b "r" then arg_ok st false v /\ format_ok st rest args
                     else False
                 end
        end
      else format_ok st rest args
  end.
Definition event_ok (st : list pair_ctx) (ev : event) : Prop :=
  match ev with
  | EvEnter (CtxFunction _ _) => st = []
  | EvEnter p => match st with CtxFunction L R :: _ => pair_ok L R p | _ => False end
  | EvExit => st <> []
  | EvLog _ => True
  | EvLogf format args => format_ok st format args
  | EvLogd d => Forall (fun rec => rec <> (None, None)) d
  end.
Fixpoint events_ok (a : ids) (s : spec_state) (evs : list event) : Prop :=
  match evs with
  | [] => True
  | ev :: evs => event_ok (sp_stack s) ev /\ events_ok a (spec_step a s ev) evs
  end.

(** *** The simulation *)

Definition stack_shape (st : list pair_ctx) : Prop :=
  match st with
  | [] => True
  | CtxFunction L R :: l => Forall (fun p => IsFunction p = false) l /\ Forall (pair_ok L R) l
  | _ => False
  end.
Record sim (a : ids) (s : spec_state) (c : DiffConsumer) : Prop := {
  sim_stack : c_pair <$> contexts c = sp_stack s;
  sim_shape : stack_shape (sp_stack s);
  sim_diff : Differences c || existsb c_differences (contexts c) = sp_diff s;
  sim_ids : DiffIdSet c = sp_ids s;
  sim_indent : Indent c = u32 (2 * Z.of_nat (length (sp_stack s)));
  sim_assigner : IdAssigner c = Some a;
  sim_flagged : forall p, (p, true) ∈ flags (contexts c) -> block_id a p ⊆ DiffIdSet c }.

Lemma flags_fst l : (flags l).*1 = c_pair <$> l.
Proof. unfold flags. by rewrite <-list_fmap_compose. Qed.
Lemma existsb_flags l l' :
  flags l = flags l' -> existsb c_differences l = existsb c_differences l'.
Proof.
  revert l'. induction l as [|x l IH]; intros [|y l'] E; try done.
  cbn in E |- *. injection E as _ -> E. f_equal. by apply IH.
Qed.

(** [sim] survives what keeps the view. *)
Lemma sim_view a s c c' : same_view c c' -> sim a s c -> sim a s c'.
Proof.
  intros (V1 & V2 & V3 & V4 & V5) []. split; try congruence.
  - by rewrite (flags_pairs _ _ V1).
  - by rewrite V2, (existsb_flags _ _ V1).
  - rewrite V1, V5. done.
Qed.

Lemma header_sim a s c :
  sim a s c -> exists c', header heap print_ir c = Ok (tt, c') /\ sim a (spec_step a s (EvLog "")) c'.
Proof.
  intros [S1 S2 S3 S4 S5 S6 S7]. unfold header.
  rewrite (bind_Ok (gets contexts) _ c (contexts c) c) by done.
  destruct (contexts c) as [|x cs] eqn:Ec.
  { cbn in S1. exists c. split; [done|]. cbn [spec_step]. rewrite <-S1 in *.
    split; cbn [sp_stack sp_diff sp_ids]; rewrite ?Ec; try done.
    - by rewrite S3, bool_decide_true, orb_false_r.
    - cbn. by rewrite union_empty_l_L. }
  cbn [fmap list_fmap] in S1. rewrite <-S1 in S2. cbn in S2.
  destruct (c_pair x) as [L R| |] eqn:Ex; [|done|done]. destruct S2 as [Hn Hok].
  destruct (header_loop_ok L R a (flags (contexts c)) [] c) as (c' & E & V1 & V2 & V3 & V4 & V5).
  - exists (c_pair <$> cs). rewrite Ec. cbn. by rewrite Ex.
  - done.
  - rewrite flags_fst, Ec. cbn. rewrite Ex. by constructor.
  - done.
  - rewrite Ec. exact S7.
  - exists c'. rewrite Ec in E, V1, V5. unfold flags in E at 1. rewrite length_fmap in E.
    split; [exact E|]. cbn [app] in V1. rewrite flags_fst in V5. cbn [fmap list_fmap] in V5. rewrite Ex in V5.
    assert (Hp : c_pair <$> contexts c' = sp_stack s).
    { rewrite <-flags_fst, V1, <-S1. cbn [flags fmap list_fmap fst]. rewrite Ex. f_equal.
      unfold flags. by rewrite <-!list_fmap_compose. }
    cbn [spec_step]. split; cbn [sp_stack sp_diff sp_ids].
    + exact Hp.
    + rewrite <-S1. by split.
    + rewrite bool_decide_false by (by rewrite <-S1). cbn. rewrite orb_true_r.
      destruct (contexts c') as [|y l']; [by rewrite <-Hp in S1|]. cbn in V1 |- *. injection V1 as _ -> _.
      cbn. apply orb_true_r.
    + by rewrite V5, S1, S4.
    + by rewrite V3, S5.
    + congruence.
    + intros p Hpin. rewrite V5. apply union_subseteq_l'. unfold stack_ids.
      assert (p ∈ CtxFunction L R :: (c_pair <$> cs)) as Hin.
      { rewrite S1, <-Hp, <-flags_fst. apply list_elem_of_fmap. by exists (p, true). }
      intros z Hz. apply elem_of_union_list. exists (block_id a p). split; [|done].
      apply list_elem_of_fmap. by exists p.
Qed.

(** Text printed after the header. *)
Definition at_stack (st : list pair_ctx) (c : DiffConsumer) : Prop :=
  c_pair <$> contexts c = st /\ stack_shape st.
Lemma at_stack_view st : view_pred (at_stack st).
Proof. intros c c' (V & _) [E S]. split; [by rewrite (flags_pairs _ _ V)|done]. Qed.
Lemma arg_harmless st isL v :
  arg_ok st isL v -> harmless (at_stack st) (printValue heap print_ir v isL).
Proof.
  intros Hv c [E Hs]. destruct st as [|[L R| |] l]; cbn in Hs; try done.
  - cbn in Hv. destruct v as [| | |k|]; try done. unfold printValue. cbn [printValue_].
    case_match; by apply (harmless_emit (fun _ => True)).
  - apply (printValue_harmless L R); [done|]. exists l. by destruct Hs.
Qed.
Lemma format_harmless st format : forall args,
  format_ok st format args -> harmless (at_stack st) (logf_format heap print_ir format args).
Proof.
  assert (G : forall n format, (String.length format < n)%nat -> forall args,
    format_ok st format args -> harmless (at_stack st) (logf_format heap print_ir format args)).
  { clear format. induction n as [|n IH]; intros format Hn args; [lia|].
    destruct format as [|a rest]; [intros _ c _; by exists c|]. cbn in Hn. cbn [format_ok logf_format].
    destruct (ascii_dec a "%").
    - destruct rest as [|b rest]; [done|]. cbn in Hn. destruct (ascii_dec b "%").
      + intros H. apply harmless_seq; [apply at_stack_view|apply harmless_emit|]. apply IH; [lia|done].
      + destruct args as [|v args]; [done|].
        destruct (ascii_dec b "l"); [|destruct (ascii_dec b "r"); [|done]];
          (intros [Hv H]; apply harmless_seq; [apply at_stack_view|by apply arg_harmless|]; apply IH; [lia|done]).
    - intros H. apply harmless_seq; [apply at_stack_view|apply harmless_emit|]. apply IH; [lia|done]. }
  apply (G (S (String.length format))). lia.
Qed.
Lemma indent_harmless P : harmless P indent.
Proof. apply harmless_gets. intros c _. by apply (harmless_emit (fun _ => True)). Qed.
Lemma log_lines_harmless st d :
  Forall (fun rec => rec <> (None, None)) d -> harmless (at_stack st) (log_lines print_ir d).
Proof.
  induction 1 as [|rec d Hr _ IH]; [intros c _; by exists c|]. cbn [log_lines].
  apply harmless_seq; [apply at_stack_view| |done]. unfold log_line.
  repeat (apply harmless_seq; [apply at_stack_view| |]);
    [apply indent_harmless|apply harmless_emit|].
  destruct rec as [[l|] [r|]]; cbn; try apply harmless_emit_dbg. done.
Qed.

(** A message is a header and harmless text. *)
Lemma message_sim a s c (m : C unit) :
  harmless (at_stack (sp_stack s)) m -> sim a s c ->
  exists c', (header heap print_ir ;;; m) c = Ok (tt, c') /\ sim a (spec_step a s (EvLog "")) c'.
Proof.
  intros Hm Hs. destruct (header_sim a s c Hs) as (c1 & E1 & S1). rewrite (bind_Ok _ _ _ _ _ E1).
  destruct (Hm c1) as (c2 & E2 & V2).
  { destruct S1 as [T1 T2 _ _ _ _ _]. done. }
  exists c2. split; [done|]. by eapply sim_view.
Qed.

Lemma removelast_snoc {X} (l : list X) x : removelast (l ++ [x]) = l.
Proof. apply removelast_last. Qed.

Lemma enter_sim a s c p :
  event_ok (sp_stack s) (EvEnter p) -> sim a s c ->
  exists c', enterContext p c = Ok (tt, c') /\ sim a (spec_step a s (EvEnter p)) c'.
Proof.
  intros Hok [S1 S2 S3 S4 S5 S6 S7]. eexists. split; [reflexivity|]. cbn [spec_step].
  split; cbn [sp_stack sp_diff sp_ids contexts Differences DiffIdSet Indent IdAssigner].
  - by rewrite fmap_app, S1.
  - cbn in Hok. destruct p as [L R|l r|l r].
    + rewrite Hok. cbn. by split.
    + destruct (sp_stack s) as [|[L R| |] st]; try done. destruct S2. cbn. by split; apply Forall_app_2; auto.
    + destruct (sp_stack s) as [|[L R| |] st]; try done. destruct S2. cbn. by split; apply Forall_app_2; auto.
  - rewrite existsb_app. cbn. by rewrite !orb_false_r.
  - done.
  - rewrite S5, length_app. cbn. unfold u32, wrap. rewrite Zplus_mod_idemp_l. f_equal. lia.
  - done.
  - intros q. unfold flags. rewrite fmap_app, elem_of_app. cbn.
    intros [Hq|Hq%list_elem_of_singleton]; [by apply S7|done].
Qed.

Lemma exit_sim a s c :
  sp_stack s <> [] -> sim a s c ->
  exists c', exitContext c = Ok (tt, c') /\ sim a (spec_step a s EvExit) c'.
Proof.
  intros Hne [S1 S2 S3 S4 S5 S6 S7]. unfold exitContext.
  rewrite (bind_Ok (gets contexts) _ c (contexts c) c) by done.
  destruct (contexts c) as [|x l _] eqn:Ec using rev_ind; [by rewrite <-S1 in Hne|].
  rewrite reverse_snoc. eexists. split; [reflexivity|].
  rewrite fmap_app in S1. cbn [spec_step]. rewrite <-S1 in *. cbn [fmap list_fmap] in *.
  split; cbn [sp_stack sp_diff sp_ids contexts Differences DiffIdSet Indent IdAssigner];
    rewrite ?removelast_snoc, ?reverse_involutive.
  - done.
  - destruct (c_pair <$> l) as [|[L R| |] st]; try done. destruct S2 as [H1 H2].
    apply Forall_app in H1 as [? _], H2 as [? _]. by split.
  - rewrite <-S3, existsb_app. cbn. rewrite orb_false_r. by rewrite <-orb_assoc, (orb_comm (c_differences x)).
  - done.
  - rewrite S5, length_app. cbn. unfold u32, wrap. rewrite <-Zminus_mod_idemp_l, Z.mod_mod, Zminus_mod_idemp_l by lia.
    f_equal. lia.
  - done.
  - intros q Hq. apply S7. unfold flags. rewrite fmap_app. apply elem_of_app. by left.
Qed.

Lemma perform_sim a s c ev :
  event_ok (sp_stack s) ev -> sim a s c ->
  exists c', perform ev c = Ok (tt, c') /\ sim a (spec_step a s ev) c'.
Proof.
  intros Hok Hs. destruct ev as [p| |text|format args|d].
  - by apply enter_sim.
  - by apply exit_sim.
  - apply message_sim; [|done]. apply harmless_seq; [apply at_stack_view|apply indent_harmless|apply harmless_emit].
  - apply (message_sim a s c); [|done]. apply harmless_seq; [apply at_stack_view|apply indent_harmless|].
    apply harmless_seq; [apply at_stack_view|by apply format_harmless|].
    apply harmless_seq; [apply at_stack_view|apply harmless_emit|].
    apply harmless_gets. intros c0 _. by apply (harmless_emit (fun _ => True)).
  - apply (message_sim a s c); [|done]. by apply log_lines_harmless.
Qed.

Lemma perform_all_sim a evs : forall s c,
  events_ok a s evs -> sim a s c ->
  exists c', perform_all evs c = Ok (tt, c') /\ sim a (foldl (spec_step a) s evs) c'.
Proof.
  induction evs as [|ev evs IH]; intros s c Hok Hs; [by exists c|]. destruct Hok as [H1 H2].
  destruct (perform_sim a s c ev H1 Hs) as (c1 & E1 & S1).
  cbn [perform_all]. rewrite (bind_Ok _ _ _ _ _ E1). by apply IH.
Qed.

Definition spec0 : spec_state := mkSpec [] false ∅.
Definition consumer0 (a : ids) : DiffConsumer := mkConsumer "" "" [] false 0 (Some a) ∅.

(** C33: the consumer implements its contract.  For any sequence of calls an
    engine may make, no call fails; afterwards the contexts are those entered
    and not left, the indentation is two columns for each, the identifiers
    collected are exactly those of the left blocks that were being compared when
    a difference was reported, and outside all contexts it says it had
    differences just when one was reported inside a context. *)
Theorem consumer_refines a evs :
  events_ok a spec0 evs ->
  exists c', perform_all evs (consumer0 a) = Ok (tt, c') /\
    let s := foldl (spec_step a) spec0 evs in
    c_pair <$> contexts c' = sp_stack s /\
    Indent c' = u32 (2 * Z.of_nat (length (contexts c'))) /\
    DiffIdSet c' = sp_ids s /\
    (sp_stack s = [] -> hadDifferences c' = sp_diff s).
Proof.
  intros Hok. destruct (perform_all_sim a evs spec0 (consumer0 a) Hok) as (c' & E & S).
  { split; try done. by intros p ?%elem_of_nil. }
  exists c'. split; [done|]. destruct S as [S1 _ S3 S4 S5 _ _]. cbn zeta. split; [done|]. split.
  { by rewrite S5, <-S1, length_fmap. }
  split; [done|]. intros Hst. rewrite Hst in S1. apply fmap_nil_inv in S1. rewrite S1 in S3.
  cbn in S3. by rewrite orb_false_r in S3.
Qed.
End ConsumerProofs.

(** The targets: increasing, and exactly the comparisons one of whose blocks has
    a difference. *)
Lemma elem_of_sorted (X : gset Z) c : c ∈ sorted X <-> c ∈ X.
Proof. unfold sorted. by rewrite merge_sort_Permutation, elem_of_elements. Qed.
Lemma diff_cmps_spec a d c :
  c ∈ diff_cmps a d <-> exists S bb, getCmpMap a !! c = Some S /\ bb ∈ S /\ bb ∈ d.
Proof.
  unfold diff_cmps. rewrite elem_of_list_to_set, list_elem_of_bind. split.
  - intros ([c' S] & Hc & He). apply list_elem_of_bind in Hc as (bb & Hc & Hbb).
    case_decide; [|by apply elem_of_nil in Hc]. apply list_elem_of_singleton in Hc as ->. exists S, bb.
    unfold sorted_entries in He. rewrite merge_sort_Permutation, elem_of_map_to_list in He.
    split; [done|]. split; [by apply elem_of_sorted|done].
  - intros (S & bb & HS & Hb & Hd). exists (c, S). split.
    + apply list_elem_of_bind. exists bb. split; [|by apply elem_of_sorted].
      rewrite decide_True by done. by left.
    + unfold sorted_entries. by rewrite merge_sort_Permutation, elem_of_map_to_list.
Qed.

Module ExConsumer.
Import ExModule.
Definition pr (v : value) : string := "?".
Definition entry : block := mkBlock 10 "entry" [trace 20 5; cmp1; br1].
Definition evs : list event :=
  [EvEnter (CtxFunction f f); EvEnter (CtxBlock entry entry); EvLog "x"; EvExit; EvExit].
Lemma evs_ok : events_ok md after spec0 evs.
Proof.
  assert (P : printable md f (VBlock 10)).
  { split; [|done]. exists entry. split; [left|reflexivity]. }
  repeat split; done || apply P.
Qed.

Lemma consumer_refines_witness :
  events_ok md after spec0 evs /\
  exists c', perform_all md pr evs (consumer0 after) = Ok (tt, c') /\
    DiffIdSet c' = {[ 3 ]} /\ hadDifferences c' = true.
Proof.
  split; [exact evs_ok|].
  destruct (consumer_refines md pr after evs evs_ok) as (c' & E & _ & _ & H1 & H2).
  exists c'. split; [exact E|]. split; [rewrite H1; vm_compute; reflexivity|].
  rewrite H2 by reflexivity. vm_compute. reflexivity.
Defined.
End ExConsumer.
