(* ===== verification/DiffEngine.v ===== *)
(** * The difference engine

    [tools/llvm-diff-parmesan/DifferenceEngine.cpp] and [DifferenceEngine.h]: two
    functions are compared block by block, from the entry blocks along the
    control flow; blocks that do not agree instruction by instruction are
    aligned by a shortest edit path. *)

From Stdlib Require Import Ascii.
From S2P Require Import PriorityQueue Prelude Ir IDAssigner DiffConsumer.

Local Open Scope Z_scope.

(** ** State *)

(** [FunctionDifferenceEngine], with the consumer of the engine it belongs to.
    Maps hold addresses, zero being null. *)
Record fde := mkFde {
  engine : DiffConsumer;
  Values : gmap Z Z;
  Blocks : gmap Z Z;
  TentativeValues : gset (Z * Z);
  Queue : list (Z * Z);
}.
Abbreviation E := (M fde).

Definition set_Values (v : gmap Z Z) (s : fde) : fde :=
  mkFde (engine s) v (Blocks s) (TentativeValues s) (Queue s).
Definition set_Blocks (b : gmap Z Z) (s : fde) : fde :=
  mkFde (engine s) (Values s) b (TentativeValues s) (Queue s).
Definition set_Tentative (t : gset (Z * Z)) (s : fde) : fde :=
  mkFde (engine s) (Values s) (Blocks s) t (Queue s).
Definition set_Queue (q : list (Z * Z)) (s : fde) : fde :=
  mkFde (engine s) (Values s) (Blocks s) (TentativeValues s) q.

(** A call of the consumer. *)
Definition lift (m : M DiffConsumer unit) : E unit :=
  fun s => match m (engine s) with
           | Ok (_, c) => Ok (tt, mkFde c (Values s) (Blocks s) (TentativeValues s) (Queue s))
           | Fault e => Fault e
           end.

(** [Values[p]] and [Blocks[p]] create a null entry. *)
Definition Values_at (p : Z) : E Z :=
  modify (fun s => set_Values (touch p (Values s)) s) ;;; gets (fun s => default 0 (Values s !! p)).
Definition Blocks_at (p : Z) : E Z :=
  modify (fun s => set_Blocks (touch p (Blocks s)) s) ;;; gets (fun s => default 0 (Blocks s !! p)).

Section Engine.
(** The objects of both modules; LLVM's printer; the order in which a
    [DenseMap] is iterated; the oracle for global values, if one is installed. *)
Variable heap : modul.
Variable print_ir : value -> string.
Variable dense_iter : gmap Z (constant * Z) -> list (constant * Z).
Variable globalValueOracle : option (constant -> constant -> bool).

Definition elog (text : string) : E unit := lift (log heap print_ir text).
Definition elogf (format : string) (args : list value) : E unit := lift (logf heap print_ir format args).
Definition in_context {X} (p : pair_ctx) (m : E X) : E X :=
  lift (enterContext p) ;;; x <- m ;; lift exitContext ;;; ret x.

(** ** Blocks *)

Definition getUnprocPredCount (bb : Z) (blocks : gmap Z Z) : nat :=
  length (filter (fun p => blocks !! p = None) (f ← heap; predecessors f bb)).
Definition QueueSorter (blocks : gmap Z Z) (old new : Z * Z) : bool :=
  (getUnprocPredCount (fst old) blocks <? getUnprocPredCount (fst new) blocks)%nat.

Definition tryUnify (L R : Z) : E bool :=
  ref <- Blocks_at L ;;
  if negb (ref =? 0) then
    if ref =? R then ret false else
    elogf "successor %l cannot be equivalent to %r; it's already equivalent to %r"
          [VBlock L; VBlock R; VBlock ref] ;;;
    ret true
  else
    modify (fun s => set_Blocks (<[L := R]> (Blocks s)) s) ;;;
    modify (fun s => set_Queue (PriorityQueue.insert (QueueSorter (Blocks s)) (L, R) (Queue s)) s) ;;;
    ret false.
Fixpoint tryUnify_all (l : list (Z * Z)) : E unit :=
  match l with [] => ret tt | (a, b) :: l => tryUnify a b ;;; tryUnify_all l end.

(** ** Operands *)

Definition equiv_global (L R : constant) : bool :=
  match globalValueOracle with
  | Some oracle => oracle L R
  | None => match L, R with CGlobal _ _ n, CGlobal _ _ n' => String.eqb n n' | _, _ => false end
  end.
Definition is_cmp_expr (opc : opcode) : bool := bool_decide (opc = OpICmp \/ opc = OpFCmp).

Fixpoint equiv_const (L R : constant) : E bool :=
  if const_ptr L =? const_ptr R then ret true else
  if negb (bool_decide (const_id L = const_id R)) then ret false else
  let equiv_all := fix equiv_all (ls rs : list constant) : E bool :=
    match ls, rs with
    | l :: ls, r :: rs => e <- equiv_const l r ;; if e then equiv_all ls rs else ret false
    | _, _ => ret true
    end in
  match L, R with
  | CGlobal _ _ _, _ => ret (equiv_global L R)
  | CExpr _ opc pred ops, CExpr _ opc' pred' ops' =>
      if negb (bool_decide (opc = opc')) then ret false else
      if is_cmp_expr opc && negb (pred =? pred') then ret false else
      if negb (length ops =? length ops')%nat then ret false else equiv_all ops ops'
  | CPointerNull _, _ | CUndef _, _ | CAggregateZero _, _ => ret true
  | CBlockAddress _ bb, CBlockAddress _ bb' => r <- Blocks_at bb ;; ret (r =? bb')
  | CVector _ els, CVector _ els' =>
      if negb (length els =? length els')%nat then ret false else equiv_all els els'
  | _, _ => ret false
  end.

Definition equivalentAsOperands (L R : value) : E bool :=
  if negb (bool_decide (getValueID L = getValueID R)) then ret false else
  match L, R with
  | VConst l, VConst r => equiv_const l r
  | VInst p _, VInst q _ =>
      v <- Values_at p ;; t <- gets TentativeValues ;; ret ((v =? q) || bool_decide ((p, q) ∈ t))
  | VArgument p, VArgument q => v <- Values_at p ;; ret (v =? q)
  | VBlock p, VBlock q => r <- Blocks_at p ;; ret (negb (r =? q))
  | _, _ => ret true
  end.

(** The first pair of operands that is not equivalent. *)
Fixpoint first_difference (ls rs : list value) : E (option (value * value)) :=
  match ls, rs with
  | l :: ls, r :: rs =>
      e <- equivalentAsOperands l r ;; if e then first_difference ls rs else ret (Some (l, r))
  | _, _ => ret None
  end.

Definition complain (Complain : bool) (text : string) : E bool :=
  when Complain (elog text) ;;; ret true.

Definition diffCallSites (calleeL : value) (argsL : list value) (calleeR : value) (argsR : list value)
  (Complain : bool) : E bool :=
  e <- equivalentAsOperands calleeL calleeR ;;
  if negb e then complain Complain "called functions differ" else
  if negb (length argsL =? length argsR)%nat then complain Complain "argument counts differ" else
  d <- first_difference argsL argsR ;;
  match d with
  | None => ret false
  | Some (l, r) => when Complain (elogf "arguments %l and %r differ" [l; r]) ;;; ret true
  end.

(** ** Instructions *)

(** The loop over the cases of the right switch; what is left of [LCases] and
    [Difference]. *)
Fixpoint switch_cases (Complain TryUnify : bool) (rcases : list (constant * Z))
  (lcases : gmap Z (constant * Z)) (difference : bool) : E (gmap Z (constant * Z) * bool) :=
  match rcases with
  | [] => ret (lcases, difference)
  | (c, succ) :: rcases =>
      match lcases !! const_ptr c with
      | Some (_, lsucc) =>
          when TryUnify (tryUnify lsucc succ ;;; ret tt) ;;;
          switch_cases Complain TryUnify rcases (delete (const_ptr c) lcases) difference
      | None =>
          when Complain (elogf "right switch has extra case %r" [VConst c]) ;;;
          switch_cases Complain TryUnify rcases lcases true
      end
  end.
Fixpoint left_cases (Complain : bool) (l : list (constant * Z)) (difference : bool) : E bool :=
  match l with
  | [] => ret difference
  | (c, _) :: l =>
      when Complain (elogf "left switch has extra case %l" [VConst c]) ;;;
      left_cases Complain l true
  end.

(** The comparison of all operands, for every other instruction. *)
Definition diff_operands (L R : inst) (Complain : bool) : E bool :=
  if negb (length (i_ops L) =? length (i_ops R))%nat
  then complain Complain "instructions have different operand counts" else
  d <- first_difference (i_ops L) (i_ops R) ;;
  match d with
  | None => ret false
  | Some (l, r) => when Complain (elogf "operands %l and %r differ" [l; r]) ;;; ret true
  end.

Definition diff_inst (L R : inst) (Complain TryUnify : bool) : E bool :=
  if negb (bool_decide (getOpcode (i_kind L) = getOpcode (i_kind R)))
  then complain Complain "different instruction types" else
  match i_kind L, i_kind R with
  | KCmp _ p, KCmp _ p' =>
      if negb (p =? p') then complain Complain "different predicates" else diff_operands L R Complain
  | KCall c args, KCall c' args' => diffCallSites c args c' args' Complain
  | KPhi, KPhi =>
      if negb (i_type L =? i_type R) && (negb (i_type_ptr L) || negb (i_type_ptr R))
      then complain Complain "different phi types" else ret false
  | KInvoke c args n u, KInvoke c' args' n' u' =>
      d <- diffCallSites c args c' args' Complain ;;
      if d then ret true else
      when TryUnify (tryUnify n n' ;;; tryUnify u u' ;;; ret tt) ;;; ret false
  | KBr (Some (c, s1)) s0, KBr (Some (c', s1')) s0' =>
      e <- equivalentAsOperands c c' ;;
      if negb e then complain Complain "branch conditions differ" else
      when TryUnify (tryUnify s1 s1' ;;; tryUnify s0 s0' ;;; ret tt) ;;; ret false
  | KBr None s0, KBr None s0' => when TryUnify (tryUnify s0 s0' ;;; ret tt) ;;; ret false
  | KBr _ _, KBr _ _ => complain Complain "branch conditionality differs"
  | KIndirectBr a ds, KIndirectBr a' ds' =>
      if negb (length ds =? length ds')%nat
      then complain Complain "indirectbr # of destinations differ" else
      e <- equivalentAsOperands a a' ;;
      if negb e then complain Complain "indirectbr addresses differ" else
      when TryUnify (tryUnify_all (zip ds ds')) ;;; ret false
  | KSwitch c d cs, KSwitch c' d' cs' =>
      e <- equivalentAsOperands c c' ;;
      if negb e then complain Complain "switch conditions differ" else
      when TryUnify (tryUnify d d' ;;; ret tt) ;;;
      let lcases := list_to_map (reverse ((fun x => (const_ptr (fst x), x)) <$> cs)) in
      r <- switch_cases Complain TryUnify cs' lcases false ;;
      if snd r then ret true else left_cases Complain (dense_iter (fst r)) false
  | KUnreachable, KUnreachable => ret false
  | _, _ => diff_operands L R Complain
  end.

Definition unify (L R : inst) : E unit :=
  in_context (CtxInst L R) (
    d <- diff_inst L R true true ;;
    if d then fail AssertFailed else
    when (i_used L) (modify (fun s => set_Values (<[i_ptr L := i_ptr R]> (Values s)) s))).
Fixpoint unify_all (ls rs : list inst) : E unit :=
  match ls, rs with
  | [], _ => ret tt
  | l :: ls, r :: rs => unify l r ;;; unify_all ls rs
  | _ :: _, [] => fail Segv
  end.

(** ** Aligning two blocks *)

Record DiffEntry := mkEntry { Cost : Z; Path : list DiffChange }.
Definition LeftCost : Z := 2.
Definition RightCost : Z := 2.
Definition MatchCost : Z := 0.
Definition extend (e : DiffEntry) (cost : Z) (d : DiffChange) : DiffEntry :=
  mkEntry (u32 (Cost e + cost)) (Path e ++ [d]).

Definition matchForBlockDiff (L R : inst) : E bool :=
  d <- diff_inst L R false false ;; ret (negb d).

(** One row, for the right instruction [r]: [cur] starts at [Cur[Index-1]] and
    [prev] is [Next[Index-1]]. *)
Fixpoint diff_row (r : inst) (ls : list inst) (cur : list DiffEntry) (prev : DiffEntry) : E (list DiffEntry) :=
  match ls, cur with
  | l :: ls, c0 :: ((c1 :: _) as cur) =>
      b <- matchForBlockDiff l r ;;
      next <- (if b then
                 modify (fun s => set_Tentative ({[ (i_ptr l, i_ptr r) ]} ∪ TentativeValues s) s) ;;;
                 ret (extend c0 MatchCost DC_match)
               else if Cost prev <=? Cost c1 then ret (extend prev LeftCost DC_left)
               else ret (extend c1 RightCost DC_right)) ;;
      rest <- diff_row r ls cur next ;;
      ret (next :: rest)
  | _, _ => ret []
  end.
Fixpoint diff_rows (rs ls : list inst) (cur : list DiffEntry) : E (list DiffEntry) :=
  match rs, cur with
  | r :: rs, c0 :: _ =>
      let next0 := extend c0 RightCost DC_right in
      rest <- diff_row r ls cur next0 ;;
      diff_rows rs ls (next0 :: rest)
  | _, _ => ret cur
  end.
Definition first_column (nl : nat) : list DiffEntry :=
  (fun i => mkEntry (u32 (Z.of_nat i * LeftCost)) (replicate i DC_left)) <$> seq 0 (S nl).
Definition diff_path (ls rs : list inst) : E (list DiffChange) :=
  cur <- diff_rows rs ls (first_column (length ls)) ;;
  match cur !! length ls with
  | Some e => ret (Path e)
  | None => fail Segv
  end.

(** [while (Path.back() == DC_match) Path.pop_back()]: [back] of an empty vector
    fails its assertion. *)
Fixpoint drop_matches (rpath : list DiffChange) : res (list DiffChange) :=
  match rpath with
  | [] => Fault AssertFailed
  | DC_match :: rpath => drop_matches rpath
  | _ => Ok rpath
  end.

(** The iterators: what is left of both blocks. *)
Abbreviation cursors := (list inst * list inst)%type.
Fixpoint skip_matches (path : list DiffChange) (k : cursors) : E (list DiffChange * cursors) :=
  match path, k with
  | DC_match :: path, (l :: ls, r :: rs) => unify l r ;;; skip_matches path (ls, rs)
  | DC_match :: _, _ => fail Segv
  | _, _ => ret (path, k)
  end.
Fixpoint walk_path (path : list DiffChange) (k : cursors) (d : diff_lines) : E (cursors * diff_lines) :=
  match path with
  | [] => ret (k, d)
  | DC_match :: path =>
      match k with
      | (l :: ls, r :: rs) => unify l r ;;; walk_path path (ls, rs) (addMatch l r d)
      | _ => fail AssertFailed
      end
  | DC_left :: path =>
      match k with
      | (l :: ls, rs) => walk_path path (ls, rs) (addLeft l d)
      | _ => fail AssertFailed
      end
  | DC_right :: path =>
      match k with
      | (ls, r :: rs) => walk_path path (ls, rs) (addRight r d)
      | _ => fail AssertFailed
      end
  end.
Fixpoint unify_tail (ls rs : list inst) : E unit :=
  match ls, rs with
  | [], _ => ret tt
  | l :: ls, r :: rs => unify l r ;;; unify_tail ls rs
  | _ :: _, [] => fail AssertFailed
  end.

(** An invoke against an unconditional branch that follows a call. *)
Definition before_terminator (b : block) : option inst :=
  match reverse (b_insts b) with _ :: i :: _ => Some i | _ => None end.
Definition unify_terminators (LB RB : block) : E unit :=
  match getTerminator LB, getTerminator RB with
  | Some lt, Some rt =>
      match i_kind lt, i_kind rt with
      | KBr None s0, KInvoke callee _ normal _ =>
          match before_terminator LB with
          | Some i =>
              match i_kind i with
              | KCall callee' _ =>
                  e <- equivalentAsOperands callee' callee ;;
                  if negb e then ret tt else
                  when (i_used i) (modify (fun s => set_Values (<[i_ptr i := i_ptr rt]> (Values s)) s)) ;;;
                  tryUnify s0 normal ;;; ret tt
              | _ => ret tt
              end
          | None => ret tt
          end
      | KInvoke callee _ normal _, KBr None s0 =>
          match before_terminator RB with
          | Some i =>
              match i_kind i with
              | KCall callee' _ =>
                  e <- equivalentAsOperands callee callee' ;;
                  if negb e then ret tt else
                  when (i_used lt) (modify (fun s => set_Values (<[i_ptr lt := i_ptr i]> (Values s)) s)) ;;;
                  tryUnify normal s0 ;;; ret tt
              | _ => ret tt
              end
          | None => ret tt
          end
      | _, _ => ret tt
      end
  | _, _ => ret tt
  end.

(** The log builder is destroyed when the function returns. *)
Definition runBlockDiff (LB RB : block) : E unit :=
  t <- gets TentativeValues ;;
  if negb (bool_decide (t = ∅)) then fail AssertFailed else
  path <- diff_path (b_insts LB) (b_insts RB) ;;
  modify (set_Tentative ∅) ;;;
  rpath <- of_res (drop_matches (reverse path)) ;;
  pk <- skip_matches (reverse rpath) (b_insts LB, b_insts RB) ;;
  kd <- walk_path (fst pk) (snd pk) [] ;;
  unify_tail (fst (fst kd)) (snd (fst kd)) ;;;
  unify_terminators LB RB ;;;
  lift (logd heap print_ir (snd kd)).

(** ** Blocks, functions, modules *)

(** Instruction by instruction; the answer is whether all agree. *)
Fixpoint same_insts (ls rs : list inst) : E bool :=
  match ls, rs with
  | [], _ => ret true
  | l :: ls, r :: rs =>
      d <- diff_inst l r false false ;;
      if d then ret false else
      when (i_used l)
        (modify (fun s => set_Tentative ({[ (i_ptr l, i_ptr r) ]} ∪ TentativeValues s) s)) ;;;
      same_insts ls rs
  | _ :: _, [] => fail AssertFailed
  end.
Definition diff_block (LB RB : block) : E unit :=
  in_context (CtxBlock LB RB) (
    match b_insts LB with
    | [] => fail AssertFailed
    | _ =>
        same <- same_insts (b_insts LB) (b_insts RB) ;;
        modify (set_Tentative ∅) ;;;
        if same then unify_all (b_insts LB) (b_insts RB) else runBlockDiff LB RB
    end).

Fixpoint processQueue (fuel : nat) : E unit :=
  match fuel with
  | O => fail OutOfFuel
  | S fuel =>
      q <- gets Queue ;;
      match q with
      | [] => ret tt
      | _ =>
          s <- gets (fun s => s) ;;
          pq <- of_res (PriorityQueue.remove_min (QueueSorter (Blocks s)) q) ;;
          modify (set_Queue (snd pq)) ;;;
          match find_block heap (fst (fst pq)), find_block heap (snd (fst pq)) with
          | Some l, Some r => diff_block l r ;;; processQueue fuel
          | _, _ => fail Segv
          end
      end
  end.
(** A left block is queued once. *)
Definition queue_fuel : nat := S (length (module_blocks heap)).

Definition diff_functions (L R : func) : E unit :=
  when (negb (length (f_args L) =? length (f_args R))%nat) (elog "different argument counts") ;;;
  modify (fun s => set_Values
    (foldl (fun v a => <[a_ptr (fst a) := a_ptr (snd a)]> v) (Values s) (zip (f_args L) (f_args R))) s) ;;;
  match f_blocks L, f_blocks R with
  | l :: _, r :: _ => tryUnify (b_ptr l) (b_ptr r) ;;; processQueue queue_fuel
  | _, _ => fail Segv
  end.

(** [DifferenceEngine::diff], for functions *)
Definition diff_function (L R : func) : M DiffConsumer unit :=
  enterContext (CtxFunction L R) ;;;
  (match f_blocks L, f_blocks R with
   | [], [] => ret tt
   | [], _ => log heap print_ir "left function is declaration, right function is definition"
   | _, [] => log heap print_ir "right function is declaration, left function is definition"
   | _, _ => fun c => match diff_functions L R (mkFde c ∅ ∅ ∅ []) with
                      | Ok (_, s) => Ok (tt, engine s)
                      | Fault e => Fault e
                      end
   end) ;;;
  exitContext.

Definition function_value (f : func) : value := VConst (CGlobal GlobalFunction (f_ptr f) (f_name f)).
Fixpoint left_functions (l : list func) (rm : modul) : M DiffConsumer (list (func * func)) :=
  match l with
  | [] => ret []
  | f :: l =>
      match getFunction rm (f_name f) with
      | Some g => q <- left_functions l rm ;; ret ((f, g) :: q)
      | None =>
          logf heap print_ir "function %l exists only in left module" [function_value f] ;;;
          left_functions l rm
      end
  end.
Fixpoint right_functions (l : list func) (names : list string) : M DiffConsumer unit :=
  match l with
  | [] => ret tt
  | f :: l =>
      when (negb (bool_decide (f_name f ∈ names)))
        (logf heap print_ir "function %r exists only in right module" [function_value f]) ;;;
      right_functions l names
  end.
Fixpoint diff_queue (q : list (func * func)) : M DiffConsumer unit :=
  match q with [] => ret tt | (f, g) :: q => diff_function f g ;;; diff_queue q end.
(** [DifferenceEngine::diff], for modules *)
Definition diff_module (lm rm : modul) : M DiffConsumer unit :=
  q <- left_functions lm rm ;;
  right_functions rm (f_name <$> lm) ;;;
  diff_queue q.
End Engine.

(** ** Termination

    The only unbounded loop is [processQueue].  A left block is queued when it
    gets its partner, and it keeps it; so the blocks without a partner and the
    blocks in the queue together never become more. *)

(** A computation of the consumer that does not run out of fuel. *)
Definition finishes {St X} (m : M St X) : Prop := forall c, m c <> Fault OutOfFuel.
Lemma finishes_ret {St X} (x : X) : finishes (ret (St := St) x).
Proof. done. Qed.
Lemma finishes_bind {St X Y} (m : M St X) (k : X -> M St Y) :
  finishes m -> (forall x, finishes (k x)) -> finishes (bind m k).
Proof.
  intros Hm Hk c. unfold bind. destruct (m c) as [[x c1]|e] eqn:E1; [apply Hk|].
  intros [= ->]. by apply (Hm c).
Qed.
Lemma finishes_gets {St X} (g : St -> X) : finishes (gets g).
Proof. done. Qed.
Lemma finishes_modify {St} (g : St -> St) : finishes (modify g).
Proof. done. Qed.
Lemma finishes_fail {St X} e : e <> OutOfFuel -> finishes (fail (St := St) (A := X) e).
Proof. intros He c. unfold fail. congruence. Qed.
Lemma finishes_of_res {St X} (r : res X) : r <> Fault OutOfFuel -> finishes (of_res (St := St) r).
Proof. intros Hr c. unfold of_res. destruct r; congruence. Qed.

Create HintDb finishes.
#[export] Hint Resolve finishes_ret finishes_gets finishes_modify finishes_fail finishes_of_res : finishes.
Ltac finish_step :=
  match goal with
  | |- finishes (bind _ _) => apply finishes_bind; [|intros ?]
  | |- finishes (when ?b _) => destruct b; cbn [when]
  | |- finishes (match ?x with _ => _ end) => destruct x eqn:?
  | |- finishes _ => solve [auto with finishes | apply finishes_fail; discriminate]
  end.

Section ConsumerFinishes.
Variable heap : modul.
Variable print_ir : value -> string.

(** The pointer of a store and the callee of a call are not void. *)
Definition void_ok : Prop :=
  forall i w, i ∈ module_insts heap -> printed_operand (i_kind i) = Some w -> value_void heap w = false.
Hypothesis heap_void : void_ok.

Lemma emit_finishes s : finishes (emit s).
Proof. apply finishes_modify. Qed.
Hint Resolve emit_finishes : finishes.
Lemma ComputeNumbering_finishes f : ComputeNumbering f <> Fault OutOfFuel.
Proof. unfold ComputeNumbering. by destruct (decide (numbering f = ∅)). Qed.
Hint Resolve ComputeNumbering_finishes : finishes.
Lemma print_number_finishes p isL : finishes (print_number p isL).
Proof.
  unfold print_number. repeat finish_step. unfold numbered_name. repeat finish_step.
Qed.
Hint Resolve print_number_finishes : finishes.
Lemma printValue_finishes v isL : finishes (printValue heap print_ir v isL).
Proof.
  assert (H1 : forall v, value_void heap v = false -> finishes (printValue_ heap print_ir 1 v isL)).
  { intros w Hw. cbn [printValue_]. rewrite Hw. repeat finish_step. }
  unfold printValue. remember 1%nat as n eqn:Hn. cbn [printValue_]. repeat finish_step; subst n; apply H1.
  all: match goal with H : i_kind <$> find_inst heap _ = Some _ |- _ =>
         apply fmap_Some in H as (i0 & Hf & Hk); apply find_inst_Some in Hf as [Hf _] end.
  all: eapply heap_void; [exact Hf|by rewrite <-Hk].
Qed.
Hint Resolve printValue_finishes : finishes.
Lemma header_finishes : finishes (header heap print_ir).
Proof.
  assert (H : forall n k, finishes (header_loop heap print_ir n k)).
  { induction n as [|n IH]; intros k; [apply finishes_ret|]. cbn [header_loop].
    repeat finish_step; try apply IH.
    match goal with |- finishes (header_context _ _ ?p) => destruct p end; cbn [header_context]; repeat finish_step. }
  unfold header. repeat finish_step.
Qed.
Hint Resolve header_finishes : finishes.
Lemma indent_finishes : finishes indent.
Proof. unfold indent. repeat finish_step. Qed.
Hint Resolve indent_finishes : finishes.
Lemma log_finishes text : finishes (log heap print_ir text).
Proof. unfold log. repeat finish_step. Qed.
Lemma logf_finishes format args : finishes (logf heap print_ir format args).
Proof.
  assert (H : forall n format, (String.length format < n)%nat ->
    forall args, finishes (logf_format heap print_ir format args)).
  { clear format args. induction n as [|n IH]; intros format Hn args; [lia|].
    destruct format as [|a rest]; [apply finishes_ret|]. cbn in Hn. cbn [logf_format].
    destruct (ascii_dec a "%").
    - destruct rest as [|b rest]; [by apply finishes_fail|]. cbn in Hn. repeat finish_step; apply IH; lia.
    - repeat finish_step. apply IH. lia. }
  unfold logf. repeat finish_step. eapply H. apply Nat.lt_succ_diag_r.
Qed.
Lemma logd_finishes d : finishes (logd heap print_ir d).
Proof.
  unfold logd. finish_step; [apply header_finishes|]. induction d as [|rec d IH]; [apply finishes_ret|].
  cbn [log_lines]. finish_step; [|done]. unfold log_line. repeat finish_step.
  all: apply finishes_modify.
Qed.
Lemma enterContext_finishes p : finishes (enterContext p).
Proof. apply finishes_modify. Qed.
Lemma exitContext_finishes : finishes exitContext.
Proof. unfold exitContext. repeat finish_step. Qed.
End ConsumerFinishes.

Section EngineFinishes.
Variable heap : modul.
Variable print_ir : value -> string.
Variable dense_iter : gmap Z (constant * Z) -> list (constant * Z).
Variable globalValueOracle : option (constant -> constant -> bool).
Hypothesis heap_void : void_ok heap.

Definition all_blocks : gset Z := list_to_set (b_ptr <$> module_blocks heap).
(** Terminators refer to blocks, and no block is at the null address. *)
Definition succs_ok : Prop :=
  (forall i s, i ∈ module_insts heap -> s ∈ successors (i_kind i) -> s ∈ all_blocks) /\ 0 ∉ all_blocks.
Hypothesis heap_succs : succs_ok.

Definition partnered (blocks : gmap Z Z) : gset Z := dom (filter (fun x : Z * Z => x.2 <> 0) blocks).
Definition potential (s : fde) : nat := size (all_blocks ∖ partnered (Blocks s)) + length (Queue s).

Lemma elem_of_partnered p blocks : p ∈ partnered blocks <-> exists q, blocks !! p = Some q /\ q <> 0.
Proof.
  unfold partnered. rewrite elem_of_dom. split.
  - intros [q Hq]. apply map_lookup_filter_Some in Hq as [? ?]. by exists q.
  - intros (q & Hq & Hn). exists q. by apply map_lookup_filter_Some.
Qed.
Lemma partnered_touch p blocks : partnered (touch p blocks) = partnered blocks.
Proof.
  apply set_eq. intros x. rewrite !elem_of_partnered. unfold touch. destruct (blocks !! p) eqn:E; [done|].
  destruct (decide (p = x)) as [->|Ne]; [|by rewrite lookup_insert_ne].
  rewrite lookup_insert_eq, E. split; intros (q & [= <-] & ?). done.
Qed.
Lemma partnered_insert p q blocks : q <> 0 -> partnered (<[p := q]> blocks) = {[ p ]} ∪ partnered blocks.
Proof.
  intros Hq. apply set_eq. intros x. rewrite elem_of_union, elem_of_singleton, !elem_of_partnered.
  destruct (decide (p = x)) as [->|Ne].
  - rewrite lookup_insert_eq. split; [by left|]. intros _. by exists q.
  - rewrite lookup_insert_ne by done. naive_solver.
Qed.

(** A computation of the engine that does not raise the potential. *)
Definition steady {X} (m : E X) : Prop :=
  forall s, match m s with Ok (_, s') => (potential s' <= potential s)%nat | Fault e => e <> OutOfFuel end.
Lemma steady_ret {X} (x : X) : steady (ret x).
Proof. intros s. cbn. lia. Qed.
Lemma steady_bind {X Y} (m : E X) (k : X -> E Y) :
  steady m -> (forall x, steady (k x)) -> steady (bind m k).
Proof.
  intros Hm Hk s. unfold bind. specialize (Hm s). destruct (m s) as [[x s1]|e]; [|done].
  specialize (Hk x s1). destruct (k x s1) as [[y s2]|e]; [lia|done].
Qed.
Lemma steady_gets {X} (g : fde -> X) : steady (gets g).
Proof. intros s. cbn. lia. Qed.
Lemma steady_modify g : (forall s, potential (g s) = potential s) -> steady (modify g).
Proof. intros H s. cbn. rewrite H. lia. Qed.
Lemma steady_fail {X} e : e <> OutOfFuel -> steady (fail (A := X) e).
Proof. intros He s. done. Qed.
Lemma steady_of_res {X} (r : res X) : r <> Fault OutOfFuel -> steady (of_res r).
Proof. intros Hr s. unfold of_res. destruct r; [lia|congruence]. Qed.
Lemma steady_lift m : finishes m -> steady (lift m).
Proof.
  intros Hm s. unfold lift. specialize (Hm (engine s)). destruct (m (engine s)) as [[x c]|e]; [|congruence].
  unfold potential. cbn. lia.
Qed.
Create HintDb steady.
Hint Resolve steady_ret steady_gets steady_lift steady_of_res : steady.
Hint Resolve log_finishes logf_finishes logd_finishes enterContext_finishes exitContext_finishes : steady.
Ltac steady_step :=
  match goal with
  | |- steady (bind _ _) => apply steady_bind; [|intros ?]
  | |- steady (when ?b _) => destruct b; cbn [when]
  | |- steady (modify _) => apply steady_modify; intros ?; reflexivity
  | |- steady (match ?x with _ => _ end) => destruct x eqn:?
  | |- steady _ => solve [auto with steady | apply steady_fail; discriminate]
  end.

Lemma elog_steady text : steady (elog heap print_ir text).
Proof. apply steady_lift. by apply log_finishes. Qed.
Lemma elogf_steady format args : steady (elogf heap print_ir format args).
Proof. apply steady_lift. by apply logf_finishes. Qed.
Hint Resolve elog_steady elogf_steady : steady.
Lemma complain_steady b text : steady (complain heap print_ir b text).
Proof. unfold complain. repeat steady_step. Qed.
Hint Resolve complain_steady : steady.
Lemma Values_at_steady p : steady (Values_at p).
Proof. unfold Values_at. repeat steady_step. Qed.
Lemma Blocks_at_steady p : steady (Blocks_at p).
Proof.
  unfold Blocks_at. apply steady_bind; [|intros ?; apply steady_gets]. apply steady_modify.
  intros s. unfold potential. cbn. by rewrite partnered_touch.
Qed.
Hint Resolve Values_at_steady Blocks_at_steady : steady.

Lemma tryUnify_steady L R : L ∈ all_blocks -> R <> 0 -> steady (tryUnify heap print_ir L R).
Proof.
  intros HL HR s. unfold tryUnify, Blocks_at. rewrite <-bind_assoc.
  set (s1 := set_Blocks (touch L (Blocks s)) s).
  rewrite (bind_Ok (modify _) _ s tt s1) by done.
  assert (H1 : potential s1 = potential s) by (unfold potential; cbn; by rewrite partnered_touch).
  rewrite <-H1. clearbody s1. clear s H1. set (ref := default 0 (Blocks s1 !! L)).
  rewrite (bind_Ok (gets _) _ s1 ref s1) by done.
  destruct (Z.eqb_spec ref 0) as [E0|Hne]; cbn [negb].
  - set (s2 := set_Blocks (<[L := R]> (Blocks s1)) s1).
    rewrite (bind_Ok (modify _) _ s1 tt s2) by done. cbn. unfold potential. cbn.
    rewrite (Permutation_length (insert_perm _ _ _)), partnered_insert by done. cbn.
    assert (size (all_blocks ∖ ({[ L ]} ∪ partnered (Blocks s1))) < size (all_blocks ∖ partnered (Blocks s1)))%nat;
      [|lia].
    apply subset_size. assert (L ∉ partnered (Blocks s1)); [|set_solver].
    rewrite elem_of_partnered. intros (q & Hq & Hnz). unfold ref in E0. rewrite Hq in E0. done.
  - destruct (ref =? R); [cbn; lia|].
    apply (steady_bind (elogf heap print_ir _ _) (fun _ => ret true)); [apply elogf_steady|intros; apply steady_ret].
Qed.

(** Operands do not use the queue. *)
Lemma equiv_const_steady : forall L R, steady (equiv_const globalValueOracle L R).
Proof.
  induction L as [L IH] using constant_sub_ind. intros R. rewrite list.Forall_forall in IH.
  assert (Hall : forall ls, (forall l, l ∈ ls -> forall r, steady (equiv_const globalValueOracle l r)) -> forall rs,
    steady ((fix equiv_all (ls rs : list constant) : E bool :=
      match ls, rs with
      | l :: ls, r :: rs => e <- equiv_const globalValueOracle l r ;; if e then equiv_all ls rs else ret false
      | _, _ => ret true
      end) ls rs)).
  { induction ls as [|l ls IHl]; intros Hl rs; [apply steady_ret|]. destruct rs as [|r rs]; [apply steady_ret|].
    apply steady_bind; [apply Hl; by left|]. intros []; [|apply steady_ret]. apply IHl.
    intros l' Hl'. apply Hl. by right. }
  destruct L; cbn [equiv_const]; destruct (_ =? _); try apply steady_ret; destruct (negb _);
    try apply steady_ret; destruct R; try apply steady_ret; repeat steady_step.
  all: apply Hall, IH.
Qed.
Lemma equivalentAsOperands_steady L R : steady (equivalentAsOperands globalValueOracle L R).
Proof. pose proof equiv_const_steady. unfold equivalentAsOperands. repeat steady_step. Qed.
Hint Resolve equivalentAsOperands_steady : steady.
Lemma first_difference_steady ls : forall rs, steady (first_difference globalValueOracle ls rs).
Proof. induction ls as [|l ls IH]; intros [|r rs]; cbn [first_difference]; repeat steady_step. Qed.
Hint Resolve first_difference_steady : steady.
Lemma diffCallSites_steady cl al cr ar b :
  steady (diffCallSites heap print_ir globalValueOracle cl al cr ar b).
Proof. unfold diffCallSites. repeat steady_step. Qed.
Lemma diff_operands_steady L R b : steady (diff_operands heap print_ir globalValueOracle L R b).
Proof. unfold diff_operands. repeat steady_step. Qed.
Hint Resolve diffCallSites_steady diff_operands_steady : steady.

(** Instructions only unify blocks of the module. *)
Lemma succ_block i s : i ∈ module_insts heap -> s ∈ successors (i_kind i) -> s ∈ all_blocks /\ s <> 0.
Proof. intros Hi Hs. destruct heap_succs as [H H0]. split; [by eapply H|]. intros ->. by apply H0, (H i). Qed.
Lemma unify_pair_steady L R a b : L ∈ module_insts heap -> R ∈ module_insts heap ->
  a ∈ successors (i_kind L) -> b ∈ successors (i_kind R) -> steady (tryUnify heap print_ir a b).
Proof.
  intros HL HR Ha Hb. destruct (succ_block L a HL Ha), (succ_block R b HR Hb). by apply tryUnify_steady.
Qed.
Lemma tryUnify_all_steady L R ds : forall ds', L ∈ module_insts heap -> R ∈ module_insts heap ->
  (forall a, a ∈ ds -> a ∈ successors (i_kind L)) -> (forall b, b ∈ ds' -> b ∈ successors (i_kind R)) ->
  steady (tryUnify_all heap print_ir (zip ds ds')).
Proof.
  induction ds as [|a ds IH]; intros [|b ds'] HL HR Ha Hb; try apply steady_ret. cbn.
  apply steady_bind; [|intros _].
  - apply (unify_pair_steady L R); [done|done|apply Ha; by left|apply Hb; by left].
  - apply IH; [done|done|intros; apply Ha; by right|intros; apply Hb; by right].
Qed.
Lemma switch_cases_steady L R c u rcs : forall (lcs : gmap Z (constant * Z)) d,
  L ∈ module_insts heap -> R ∈ module_insts heap ->
  (forall k x, lcs !! k = Some x -> x.2 ∈ successors (i_kind L)) ->
  (forall x, x ∈ rcs -> x.2 ∈ successors (i_kind R)) ->
  steady (switch_cases heap print_ir c u rcs lcs d).
Proof.
  induction rcs as [|[k s] rcs IH]; intros lcs d HL HR Hl Hr; cbn [switch_cases]; [apply steady_ret|].
  assert (Hr' : forall x, x ∈ rcs -> x.2 ∈ successors (i_kind R)) by (intros; apply Hr; by right).
  destruct (lcs !! const_ptr k) as [[k' ls]|] eqn:El; (apply steady_bind; [|intros _]).
  - destruct u; cbn [when]; [|apply steady_ret]. apply steady_bind; [|intros _; apply steady_ret].
    apply (unify_pair_steady L R); [done|done|exact (Hl _ _ El)|apply (Hr (k, s)); by left].
  - apply IH; [done|done| |done]. intros j x Hj. apply lookup_delete_Some in Hj as [_ Hj]. by eapply Hl.
  - repeat steady_step.
  - by apply IH.
Qed.
Lemma left_cases_steady c l : forall d, steady (left_cases heap print_ir c l d).
Proof. induction l as [|[k s] l IH]; intros d; cbn [left_cases]; repeat steady_step. Qed.
Hint Resolve left_cases_steady : steady.

Lemma diff_inst_steady L R c u : L ∈ module_insts heap -> R ∈ module_insts heap ->
  steady (diff_inst heap print_ir dense_iter globalValueOracle L R c u).
Proof.
  intros HL HR. pose proof (fun a b => unify_pair_steady L R a b HL HR) as Hu.
  pose proof (tryUnify_all_steady L R) as Ha. pose proof (switch_cases_steady L R) as Hs.
  unfold diff_inst. destruct (negb _); [apply complain_steady|].
  destruct (i_kind L) as [| | |cl al nl ul|[[cl s1]|] s0|al dl|cl dl csl| | | |] eqn:EL,
    (i_kind R) as [| | |cr ar nr ur|[[cr s1']|] s0'|ar dr|cr dr csr| | | |] eqn:ER;
    repeat steady_step; cbn [successors] in *.
  all: try (apply Hu; set_solver).
  apply Hs; [done|done| |].
  - intros k y Hy. apply elem_of_list_to_map_2 in Hy. rewrite elem_of_reverse, list_elem_of_fmap in Hy.
    destruct Hy as (z & [= -> ->] & Hz). right. apply list_elem_of_fmap. by exists z.
  - intros y Hy. right. apply list_elem_of_fmap. by exists y.
Qed.

Abbreviation ours l := (forall i, i ∈ l -> i ∈ module_insts heap).
Lemma ours_cons x l : ours (x :: l) -> x ∈ module_insts heap /\ ours l.
Proof. intros H. split; [apply H; by left|]. intros i Hi. apply H. by right. Qed.

Lemma in_context_steady {X} p (m : E X) : steady m -> steady (in_context p m).
Proof. intros Hm. unfold in_context. repeat steady_step. Qed.
Lemma unify_steady L R : L ∈ module_insts heap -> R ∈ module_insts heap ->
  steady (unify heap print_ir dense_iter globalValueOracle L R).
Proof.
  intros HL HR. apply in_context_steady. apply steady_bind; [by apply diff_inst_steady|]. intros []; repeat steady_step.
Qed.
Lemma unify_all_steady ls : forall rs, ours ls -> ours rs ->
  steady (unify_all heap print_ir dense_iter globalValueOracle ls rs) /\
  steady (unify_tail heap print_ir dense_iter globalValueOracle ls rs).
Proof.
  induction ls as [|l ls IH]; intros [|r rs] Hl Hr; cbn [unify_all unify_tail];
    try (split; (apply steady_ret || by apply steady_fail)).
  apply ours_cons in Hl as [Hl Hls], Hr as [Hr Hrs].
  split; (apply steady_bind; [by apply unify_steady|intros _; by apply IH]).
Qed.

Lemma diff_row_steady r ls : forall cur prev, r ∈ module_insts heap -> ours ls ->
  steady (diff_row heap print_ir dense_iter globalValueOracle r ls cur prev).
Proof.
  induction ls as [|l ls IH]; intros cur prev Hr Hl; [apply steady_ret|]. cbn [diff_row].
  destruct cur as [|c0 [|c1 cur]]; try apply steady_ret. apply ours_cons in Hl as [Hl Hls].
  unfold matchForBlockDiff. pose proof (diff_inst_steady l r false false Hl Hr).
  repeat steady_step.
Qed.
Lemma diff_path_steady ls rs : ours ls -> ours rs ->
  steady (diff_path heap print_ir dense_iter globalValueOracle ls rs).
Proof.
  intros Hl Hr. unfold diff_path. apply steady_bind; [|intros ?; repeat steady_step].
  generalize (first_column (length ls)) as cur. revert Hr. induction rs as [|r rs IH]; intros Hr cur;
    [apply steady_ret|]. apply ours_cons in Hr as [Hr Hrs]. destruct cur as [|c0 cur]; [apply steady_ret|].
  cbn [diff_rows]. apply steady_bind; [by apply diff_row_steady|]. intros rest. by apply IH.
Qed.

(** The parts of the path that are walked only move the cursors forward. *)
Lemma skip_matches_steady path : forall k, ours k.1 -> ours k.2 ->
  forall s, match skip_matches heap print_ir dense_iter globalValueOracle path k s with
            | Ok (r, s') => (potential s' <= potential s)%nat /\ ours r.2.1 /\ ours r.2.2
            | Fault e => e <> OutOfFuel end.
Proof.
  induction path as [|[] path IH]; intros [[|l ls] [|r rs]] Hl Hr s; cbn in *; try done.
  apply ours_cons in Hl as [Hl Hls], Hr as [Hr Hrs]. pose proof (unify_steady l r Hl Hr s) as Hu.
  unfold bind. destruct (unify _ _ _ _ l r s) as [[[] s1]|e]; [|done].
  specialize (IH (ls, rs) Hls Hrs s1). destruct (skip_matches _ _ _ _ path (ls, rs) s1) as [[]|]; [|done].
  destruct IH. split; [lia|done].
Qed.
Lemma walk_path_steady path : forall k d, ours k.1 -> ours k.2 ->
  forall s, match walk_path heap print_ir dense_iter globalValueOracle path k d s with
            | Ok (r, s') => (potential s' <= potential s)%nat /\ ours r.1.1 /\ ours r.1.2
            | Fault e => e <> OutOfFuel end.
Proof.
  induction path as [|[] path IH]; intros [ls rs] d Hl Hr s; cbn [walk_path fst snd] in *; [done| | |].
  - destruct ls as [|l ls], rs as [|r rs]; try done.
    apply ours_cons in Hl as [Hl Hls], Hr as [Hr Hrs]. pose proof (unify_steady l r Hl Hr s) as Hu.
    unfold bind. destruct (unify _ _ _ _ l r s) as [[[] s1]|e]; [|done].
    specialize (IH (ls, rs) (addMatch l r d) Hls Hrs s1).
    destruct (walk_path _ _ _ _ path (ls, rs) _ s1) as [[]|]; [|done]. destruct IH. split; [lia|done].
  - destruct ls as [|l ls]; [done|]. apply ours_cons in Hl as [Hl Hls]. by apply IH.
  - destruct rs as [|r rs]; [done|]. apply ours_cons in Hr as [Hr Hrs]. by apply IH.
Qed.

Lemma terminator_ours b t : ours (b_insts b) -> getTerminator b = Some t -> t ∈ module_insts heap.
Proof. intros H Ht. apply H. unfold getTerminator in Ht. apply head_Some_elem_of in Ht. by rewrite elem_of_reverse in Ht. Qed.
Lemma unify_terminators_steady LB RB : ours (b_insts LB) -> ours (b_insts RB) ->
  steady (unify_terminators heap print_ir globalValueOracle LB RB).
Proof.
  intros Hl Hr. unfold unify_terminators.
  destruct (getTerminator LB) as [lt|] eqn:El, (getTerminator RB) as [rt|] eqn:Er; try apply steady_ret.
  apply terminator_ours in El, Er; [|done..].
  pose proof (fun a b => unify_pair_steady lt rt a b El Er) as Hu.
  destruct (i_kind lt) as [| | |cl al nl ul|[[cl s1]|] s0| | | | | |], (i_kind rt) as [| | |cr ar nr ur|[[cr s1']|] s0'| | | | | |];
    try apply steady_ret; cbn [successors] in Hu; repeat steady_step; apply Hu; set_solver.
Qed.

Lemma drop_matches_finishes p : drop_matches p <> Fault OutOfFuel.
Proof. induction p as [|[] p IH]; done. Qed.
Lemma runBlockDiff_steady LB RB : ours (b_insts LB) -> ours (b_insts RB) ->
  steady (runBlockDiff heap print_ir dense_iter globalValueOracle LB RB).
Proof.
  intros Hl Hr. unfold runBlockDiff. apply steady_bind; [apply steady_gets|]. intros t.
  destruct (negb _); [by apply steady_fail|].
  apply steady_bind; [by apply diff_path_steady|]. intros path.
  apply steady_bind; [by apply steady_modify|]. intros _.
  apply steady_bind; [apply steady_of_res, drop_matches_finishes|]. intros rpath s. unfold bind.
  pose proof (skip_matches_steady (reverse rpath) (b_insts LB, b_insts RB) Hl Hr s) as H1.
  destruct (skip_matches _ _ _ _ _ _ s) as [[[p1 k1] s1]|]; [|done]. destruct H1 as (P1 & L1 & R1).
  pose proof (walk_path_steady p1 k1 [] L1 R1 s1) as H2. cbn [fst snd].
  destruct (walk_path _ _ _ _ p1 k1 [] s1) as [[[k2 d2] s2]|]; [|done]. destruct H2 as (P2 & L2 & R2).
  assert (Hrest : steady (unify_tail heap print_ir dense_iter globalValueOracle k2.1 k2.2 ;;;
    unify_terminators heap print_ir globalValueOracle LB RB ;;; lift (logd heap print_ir d2))).
  { apply steady_bind; [by apply unify_all_steady|intros _].
    apply steady_bind; [by apply unify_terminators_steady|intros _]. apply steady_lift. by apply logd_finishes. }
  specialize (Hrest s2). unfold bind in Hrest. cbn [fst snd]. destruct (unify_tail _ _ _ _ _ _ s2) as [[? s3]|]; [|done].
  destruct (unify_terminators _ _ _ _ _ s3) as [[? s4]|]; [|done]. destruct (lift _ s4) as [[]|]; [lia|done].
Qed.

Lemma same_insts_steady ls : forall rs, ours ls -> ours rs ->
  steady (same_insts heap print_ir dense_iter globalValueOracle ls rs).
Proof.
  induction ls as [|l ls IH]; intros [|r rs] Hl Hr; cbn [same_insts];
    try (apply steady_ret || by apply steady_fail).
  apply ours_cons in Hl as [Hl Hls], Hr as [Hr Hrs]. pose proof (diff_inst_steady l r false false Hl Hr).
  pose proof (IH rs Hls Hrs). repeat steady_step.
Qed.
Lemma diff_block_steady LB RB : ours (b_insts LB) -> ours (b_insts RB) ->
  steady (diff_block heap print_ir dense_iter globalValueOracle LB RB).
Proof.
  intros Hl Hr. apply in_context_steady. destruct (b_insts LB) as [|i l] eqn:El; [by apply steady_fail|].
  rewrite <-El in *. apply steady_bind; [by apply same_insts_steady|]. intros same.
  apply steady_bind; [by apply steady_modify|]. intros _. destruct same; [by apply unify_all_steady|].
  by apply runBlockDiff_steady.
Qed.

Lemma find_block_ours p b : find_block heap p = Some b -> ours (b_insts b).
Proof.
  unfold find_block. intros ([k b'] & F & ->)%fmap_Some. apply list_find_Some in F as (Hl & _). cbn.
  apply list_elem_of_lookup_2 in Hl. apply list_elem_of_bind in Hl as (f & Hb & Hf). intros i Hi.
  apply list_elem_of_bind. exists f. split; [|done]. apply list_elem_of_bind. by exists b'.
Qed.
Lemma processQueue_finishes fuel : forall s, (potential s < fuel)%nat ->
  processQueue heap print_ir dense_iter globalValueOracle fuel s <> Fault OutOfFuel.
Proof.
  induction fuel as [|fuel IH]; intros s Hs; [lia|]. cbn [processQueue].
  rewrite (bind_Ok (gets Queue) _ s (Queue s) s) by done. destruct (Queue s) as [|x q] eqn:Eq; [done|].
  rewrite (bind_Ok (gets _) _ s s s) by done.
  destruct (remove_min_perm (QueueSorter heap (Blocks s)) x q) as (q' & Eq' & Hp).
  unfold bind at 1. rewrite Eq'. cbn [of_res fst snd].
  rewrite (bind_Ok (modify _) _ s tt (set_Queue q' s)) by done.
  destruct (find_block heap x.1) as [l|] eqn:El; [|done]. destruct (find_block heap x.2) as [r|] eqn:Er; [|done].
  pose proof (diff_block_steady l r (find_block_ours _ _ El) (find_block_ours _ _ Er) (set_Queue q' s)) as Hd.
  unfold bind. destruct (diff_block _ _ _ _ l r _) as [[[] s1]|e]; [|congruence].
  apply IH. unfold potential in *. cbn in Hd. rewrite Eq in Hs. cbn in Hs.
  rewrite (Permutation_length Hp) in Hs. lia.
Qed.

Lemma size_list_to_set_le (l : list Z) : (size (list_to_set (C := gset Z) l) <= length l)%nat.
Proof.
  induction l as [|x l IH]; cbn [list_to_set length]; [by rewrite size_empty|].
  destruct (decide (x ∈ list_to_set (C := gset Z) l)) as [Hx|Hx].
  - replace ({[ x ]} ∪ list_to_set l : gset Z) with (list_to_set l : gset Z) by set_solver. lia.
  - rewrite size_union by set_solver. rewrite size_singleton. lia.
Qed.
Lemma entry_block f b bs : f ∈ heap -> f_blocks f = b :: bs -> b_ptr b ∈ all_blocks /\ b_ptr b <> 0.
Proof.
  intros Hf Hb. assert (b_ptr b ∈ all_blocks).
  { apply elem_of_list_to_set, list_elem_of_fmap. exists b. split; [done|]. apply list_elem_of_bind.
    exists f. rewrite Hb. split; [by left|done]. }
  split; [done|]. intros E0. destruct heap_succs as [_ H0]. by rewrite E0 in *.
Qed.
Lemma diff_functions_finishes L R c : L ∈ heap -> R ∈ heap ->
  diff_functions heap print_ir dense_iter globalValueOracle L R (mkFde c ∅ ∅ ∅ []) <> Fault OutOfFuel.
Proof.
  intros HL HR. unfold diff_functions.
  assert (H0 : steady (when (negb (length (f_args L) =? length (f_args R))%nat)
                        (elog heap print_ir "different argument counts"))) by repeat steady_step.
  specialize (H0 (mkFde c ∅ ∅ ∅ [])). unfold bind at 1. destruct (when _ _ _) as [[[] s1]|]; [|congruence].
  match goal with |- context [bind (modify ?g) _] => set (s2 := g s1); rewrite (bind_Ok (modify g) _ s1 tt s2) by done end.
  assert (P2 : potential s2 = potential s1) by done. clearbody s2.
  destruct (f_blocks L) as [|l bl] eqn:El; [done|]. destruct (f_blocks R) as [|r br] eqn:Er; [done|].
  destruct (entry_block L l bl HL El) as [Hl _], (entry_block R r br HR Er) as [_ Hr].
  pose proof (tryUnify_steady _ _ Hl Hr s2) as Hu. unfold bind.
  destruct (tryUnify _ _ _ _ s2) as [[b s3]|]; [|congruence].
  apply processQueue_finishes. unfold queue_fuel. rewrite P2 in Hu.
  enough (potential (mkFde c ∅ ∅ ∅ []) <= length (module_blocks heap))%nat by lia.
  unfold potential, all_blocks. cbn. rewrite Nat.add_0_r.
  etrans; [apply (subseteq_size _ (list_to_set (b_ptr <$> module_blocks heap))); set_solver|].
  etrans; [apply size_list_to_set_le|]. by rewrite length_fmap.
Qed.

Lemma diff_function_finishes L R : L ∈ heap -> R ∈ heap ->
  finishes (diff_function heap print_ir dense_iter globalValueOracle L R).
Proof.
  intros HL HR. unfold diff_function. apply finishes_bind; [apply enterContext_finishes|intros _].
  apply finishes_bind; [|intros _; apply exitContext_finishes].
  pose proof (diff_functions_finishes L R) as Hd.
  destruct (f_blocks L), (f_blocks R); try (apply finishes_ret || by apply log_finishes).
  intros c. specialize (Hd c HL HR). destruct (diff_functions _ _ _ _ L R _) as [[[] s]|]; congruence.
Qed.

(** C31: comparing two modules terminates.  Every block of the left function is
    queued at most once, so a number of rounds equal to the number of blocks is
    always enough, whatever the contents of the modules and however the queue is
    ordered. *)
Theorem diff_module_terminates lm rm c :
  (forall f, f ∈ lm -> f ∈ heap) -> (forall f, f ∈ rm -> f ∈ heap) ->
  diff_module heap print_ir dense_iter globalValueOracle lm rm c <> Fault OutOfFuel.
Proof.
  intros Hl Hr.
  assert (Hleft : forall l, (forall f, f ∈ l -> f ∈ heap) -> forall c,
    match left_functions heap print_ir l rm c with
    | Ok (q, _) => forall x, x ∈ q -> x.1 ∈ heap /\ x.2 ∈ heap
    | Fault e => e <> OutOfFuel end).
  { induction l as [|f l IH]; intros Hin c0; cbn [left_functions]; [by intros x ?%elem_of_nil|].
    assert (Hin' : forall f, f ∈ l -> f ∈ heap) by (intros; apply Hin; by right). unfold bind.
    destruct (getFunction rm (f_name f)) as [g|] eqn:Eg.
    - specialize (IH Hin' c0). destruct (left_functions _ _ l rm c0) as [[q c1]|]; [|done].
      intros x [->|Hx]%elem_of_cons; [|by apply IH]. split; [apply Hin; by left|]. apply Hr.
      unfold getFunction in Eg. apply fmap_Some in Eg as ([k g'] & Eg & ->).
      apply list_find_Some in Eg as (Eg & _). by eapply list_elem_of_lookup_2.
    - pose proof (logf_finishes heap print_ir heap_void "function %l exists only in left module" [function_value f] c0).
      destruct (logf _ _ _ _ c0) as [[[] c1]|]; [|congruence]. by apply IH. }
  assert (Hright : forall l names, finishes (right_functions heap print_ir l names)).
  { induction l as [|f l IH]; intros names; [apply finishes_ret|]. cbn [right_functions].
    apply finishes_bind; [|intros _; apply IH]. destruct (negb _); [by apply logf_finishes|apply finishes_ret]. }
  unfold diff_module. specialize (Hleft lm Hl c). unfold bind at 1.
  destruct (left_functions _ _ lm rm c) as [[q c1]|]; [|congruence].
  revert c1. apply finishes_bind; [apply Hright|intros _].
  induction q as [|[f g] q IH]; [apply finishes_ret|]. cbn [diff_queue]. apply finishes_bind; [|intros _].
  - destruct (Hleft (f, g) ltac:(by left)). by apply diff_function_finishes.
  - apply IH. intros x Hx. apply Hleft. by right.
Qed.
End EngineFinishes.

(** ** Alignments *)

(** A path describes how the instructions of two blocks are paired. *)
Section Alignment.
Context {T : Type}.
Variable R : T -> T -> bool.

Inductive aligned : list DiffChange -> list T -> list T -> Prop :=
| aligned_nil : aligned [] [] []
| aligned_match p A B l r : aligned p A B -> R l r = true -> aligned (p ++ [DC_match]) (A ++ [l]) (B ++ [r])
| aligned_left p A B l : aligned p A B -> aligned (p ++ [DC_left]) (A ++ [l]) B
| aligned_right p A B r : aligned p A B -> aligned (p ++ [DC_right]) A (B ++ [r]).

Definition step_cost (d : DiffChange) : Z :=
  match d with DC_match => MatchCost | DC_left => LeftCost | DC_right => RightCost end.
Fixpoint path_cost (p : list DiffChange) : Z :=
  match p with [] => 0 | d :: p => step_cost d + path_cost p end.
Ltac cost_lia :=
  cbn [path_cost step_cost length] in *; unfold MatchCost, LeftCost, RightCost in *; lia.
Lemma path_cost_app p q : path_cost (p ++ q) = path_cost p + path_cost q.
Proof. induction p as [|d p IH]; cbn [path_cost app]; lia. Qed.
Lemma path_cost_snoc p d : path_cost (p ++ [d]) = path_cost p + step_cost d.
Proof. rewrite path_cost_app. cbn [path_cost]. lia. Qed.
Lemma path_cost_nonneg p : 0 <= path_cost p.
Proof. induction p as [|[] p IH]; cost_lia. Qed.

(** An optimal path for two prefixes. *)
Definition optimal (p : list DiffChange) (A B : list T) : Prop :=
  aligned p A B /\ forall q, aligned q A B -> path_cost p <= path_cost q.

Lemma aligned_length p A B : aligned p A B ->
  path_cost p <= 2 * (Z.of_nat (length A) + Z.of_nat (length B)) /\
  2 * (Z.of_nat (length A) - Z.of_nat (length B)) <= path_cost p /\
  2 * (Z.of_nat (length B) - Z.of_nat (length A)) <= path_cost p.
Proof.
  unfold Z.sub. induction 1; rewrite ?path_cost_snoc, ?length_app; cost_lia.
Qed.
Lemma optimal_lefts A : optimal (replicate (length A) DC_left) A [].
Proof.
  split.
  - induction A as [|x A IH] using rev_ind; [constructor|].
    rewrite length_app, replicate_add. cbn. by constructor.
  - intros q Hq. apply aligned_length in Hq as (_ & H & _). cbn in H.
    enough (path_cost (replicate (length A) DC_left) = 2 * Z.of_nat (length A)) by lia.
    clear. induction A as [|x A IH]; [done|]. cbn [length replicate path_cost]. rewrite IH. cost_lia.
Qed.
Lemma optimal_rights p B r : optimal p [] B -> optimal (p ++ [DC_right]) [] (B ++ [r]).
Proof.
  intros [Hp Ho]. split; [by constructor|]. intros q Hq. rewrite path_cost_snoc. cbn.
  inversion Hq as [E1 E2 E3|? A B' l r' Hq' HR E1 E2 E3|? A B' l Hq' E1 E2 E3|? A B' r' Hq' E1 E2 E3].
  - by destruct B.
  - by destruct A.
  - by destruct A.
  - apply app_inj_tail in E3 as [-> ->]. specialize (Ho _ Hq'). rewrite path_cost_snoc. cost_lia.
Qed.

(** Leaving out the last element of one side costs at most one step. *)
Lemma aligned_drop_right q A B' : aligned q A B' -> forall B r, B' = B ++ [r] ->
  exists q', aligned q' A B /\ path_cost q' <= path_cost q + 2.
Proof.
  induction 1 as [|q A B0 l r0 Hq IH HR|q A B0 l Hq IH|q A B0 r0 Hq IH]; intros B r E.
  - by destruct B.
  - apply app_inj_tail in E as [-> ->]. exists (q ++ [DC_left]). split; [by constructor|].
    rewrite !path_cost_snoc. cost_lia.
  - destruct (IH B r E) as (q' & Hq' & Hc). exists (q' ++ [DC_left]). split; [by constructor|].
    rewrite !path_cost_snoc. cost_lia.
  - apply app_inj_tail in E as [-> ->]. exists q. split; [done|]. rewrite path_cost_snoc. cost_lia.
Qed.
Lemma aligned_drop_left q A' B : aligned q A' B -> forall A l, A' = A ++ [l] ->
  exists q', aligned q' A B /\ path_cost q' <= path_cost q + 2.
Proof.
  induction 1 as [|q A0 B l0 r Hq IH HR|q A0 B l0 Hq IH|q A0 B r Hq IH]; intros A l E.
  - by destruct A.
  - apply app_inj_tail in E as [-> ->]. exists (q ++ [DC_right]). split; [by constructor|].
    rewrite !path_cost_snoc. cost_lia.
  - apply app_inj_tail in E as [-> ->]. exists q. split; [done|]. rewrite path_cost_snoc. cost_lia.
  - destruct (IH A l E) as (q' & Hq' & Hc). exists (q' ++ [DC_right]). split; [by constructor|].
    rewrite !path_cost_snoc. cost_lia.
Qed.

(** Pairing two elements that match is never worse than leaving one out. *)
Lemma optimal_match p A B l r :
  R l r = true -> optimal p A B -> optimal (p ++ [DC_match]) (A ++ [l]) (B ++ [r]).
Proof.
  intros HR [Hp Ho]. split; [by constructor|]. intros q Hq. rewrite path_cost_snoc. cbn.
  inversion Hq as [E1 E2 E3|? A' B' l' r' Hq' HR' E1 E2 E3|? A' B' l' Hq' E1 E2 E3|? A' B' r' Hq' E1 E2 E3];
    rewrite ?path_cost_snoc; cbn.
  - by destruct A.
  - apply app_inj_tail in E2 as [-> ->], E3 as [-> ->]. specialize (Ho _ Hq'). cost_lia.
  - apply app_inj_tail in E2 as [-> ->]. destruct (aligned_drop_right _ _ _ Hq' B r eq_refl) as (q' & H1 & H2).
    specialize (Ho _ H1). cost_lia.
  - apply app_inj_tail in E3 as [-> ->]. destruct (aligned_drop_left _ _ _ Hq' A l eq_refl) as (q' & H1 & H2).
    specialize (Ho _ H1). cost_lia.
Qed.
Lemma optimal_other pl pr A B l r :
  R l r = false -> optimal pl A (B ++ [r]) -> optimal pr (A ++ [l]) B ->
  (path_cost pl <= path_cost pr -> optimal (pl ++ [DC_left]) (A ++ [l]) (B ++ [r])) /\
  (path_cost pr < path_cost pl -> optimal (pr ++ [DC_right]) (A ++ [l]) (B ++ [r])).
Proof.
  intros HR [Hl Hlo] [Hr Hro].
  assert (Hmin : forall q, aligned q (A ++ [l]) (B ++ [r]) ->
    path_cost pl + 2 <= path_cost q \/ path_cost pr + 2 <= path_cost q).
  { intros q Hq. inversion Hq as [E1 E2 E3|? A' B' l' r' Hq' HR' E1 E2 E3|? A' B' l' Hq' E1 E2 E3|? A' B' r' Hq' E1 E2 E3];
      rewrite ?path_cost_snoc; cbn.
    - by destruct A.
    - apply app_inj_tail in E2 as [-> ->], E3 as [-> ->]. congruence.
    - apply app_inj_tail in E2 as [-> ->]. left. specialize (Hlo _ Hq'). cost_lia.
    - apply app_inj_tail in E3 as [-> ->]. right. specialize (Hro _ Hq'). cost_lia. }
  split; intros Hle; (split; [by constructor|]); intros q Hq; rewrite path_cost_snoc; cbn;
    destruct (Hmin q Hq); cost_lia.
Qed.
End Alignment.

(** *** What the comparison of two instructions reads *)

(** The values the comparison of an instruction looks at. *)
Definition compared (i : inst) : list value :=
  match i_kind i with
  | KCall c args => c :: args
  | KInvoke c args _ _ => c :: args
  | KBr (Some (c, _)) _ => [c]
  | KBr None _ => []
  | KIndirectBr a _ => [a]
  | KSwitch c _ _ => [c]
  | KPhi | KUnreachable => []
  | _ => i_ops i
  end.

(** States in which the same values and blocks have partners, and the same tentative ones among
    the right instructions [P].  Null entries make no difference. *)
Record alike (P : Z -> Prop) (s s' : fde) : Prop := mkAlike {
  al_Values : forall p, default 0 (Values s !! p) = default 0 (Values s' !! p);
  al_Blocks : forall p, default 0 (Blocks s !! p) = default 0 (Blocks s' !! p);
  al_Tentative : forall p q, P q -> (p, q) ∈ TentativeValues s <-> (p, q) ∈ TentativeValues s' }.
Definition anyone (q : Z) : Prop := True.
#[export] Instance alike_equivalence P : Equivalence (alike P).
Proof.
  split; [done|intros s s' [V B T]; split; [done|done|]; intros p q Hq; symmetry; by apply T|]. intros s1 s2 s3 [V1 B1 T1] [V2 B2 T2].
  split; [intros p; by rewrite V1|intros p; by rewrite B1|]. intros p q Hq. by rewrite T1, T2.
Qed.
Lemma alike_mono (P Q : Z -> Prop) s s' : (forall q, Q q -> P q) -> alike P s s' -> alike Q s s'.
Proof. intros HPQ [V B T]. split; [done|done|]. intros p q Hq. by apply T, HPQ. Qed.
Lemma alike_touch_Values p s : alike anyone s (set_Values (touch p (Values s)) s).
Proof.
  split; [|done|done]. intros q. cbn. unfold touch. destruct (Values s !! p) eqn:E; [done|].
  destruct (decide (p = q)) as [->|Hne]; [by rewrite E, lookup_insert_eq|by rewrite lookup_insert_ne].
Qed.
Lemma alike_touch_Blocks p s : alike anyone s (set_Blocks (touch p (Blocks s)) s).
Proof.
  split; [done| |done]. intros q. cbn. unfold touch. destruct (Blocks s !! p) eqn:E; [done|].
  destruct (decide (p = q)) as [->|Hne]; [by rewrite E, lookup_insert_eq|by rewrite lookup_insert_ne].
Qed.

(** A computation that always has an answer, the same in all states that are alike, and
    changes nothing but to leave null entries. *)
Definition reads {X} (P : Z -> Prop) (m : E X) : Prop :=
  forall s t, alike P s t -> exists x s' t', m s = Ok (x, s') /\ m t = Ok (x, t') /\ alike anyone s s' /\ alike anyone t t'.
Lemma reads_ret {X} P (x : X) : reads P (ret x).
Proof. intros s t _. by exists x, s, t. Qed.
Lemma reads_bind {X Y} P (m : E X) (k : X -> E Y) : reads P m -> (forall x, reads P (k x)) -> reads P (bind m k).
Proof.
  intros Hm Hk s t Hst. destruct (Hm s t Hst) as (x & s1 & t1 & E1 & F1 & S1 & T1).
  assert (H1 : alike P s1 t1).
  { transitivity s; [symmetry; by eapply alike_mono, S1|]. transitivity t; [done|by eapply alike_mono, T1]. }
  destruct (Hk x s1 t1 H1) as (y & s2 & t2 & E2 & F2 & S2 & T2). exists y, s2, t2.
  split; [by rewrite (bind_Ok _ _ _ _ _ E1)|]. split; [by rewrite (bind_Ok _ _ _ _ _ F1)|].
  split; [by transitivity s1|by transitivity t1].
Qed.
Lemma Values_at_reads P p : reads P (Values_at p).
Proof.
  intros s t Hst. assert (R : forall u, Values_at p u = Ok (default 0 (Values u !! p), set_Values (touch p (Values u)) u)).
  { intros u. unfold Values_at, bind, modify, gets. cbn. do 2 f_equal. symmetry. apply (al_Values _ _ _ (alike_touch_Values p u) p). }
  do 3 eexists. split; [apply R|]. split; [rewrite R; by rewrite (al_Values _ _ _ Hst)|]. split; apply alike_touch_Values.
Qed.
Lemma Blocks_at_reads P p : reads P (Blocks_at p).
Proof.
  intros s t Hst. assert (R : forall u, Blocks_at p u = Ok (default 0 (Blocks u !! p), set_Blocks (touch p (Blocks u)) u)).
  { intros u. unfold Blocks_at, bind, modify, gets. cbn. do 2 f_equal. symmetry. apply (al_Blocks _ _ _ (alike_touch_Blocks p u) p). }
  do 3 eexists. split; [apply R|]. split; [rewrite R; by rewrite (al_Blocks _ _ _ Hst)|]. split; apply alike_touch_Blocks.
Qed.
Lemma tentative_reads {X} (P : Z -> Prop) p q (k : bool -> X) : P q ->
  reads P (t <- gets TentativeValues ;; ret (k (bool_decide ((p, q) ∈ t)))).
Proof.
  intros Hq s t Hst. do 3 eexists. split; [done|]. split; [|done]. unfold bind, gets, ret. do 3 f_equal.
  apply bool_decide_ext. symmetry. by apply (al_Tentative _ _ _ Hst).
Qed.
Create HintDb reads.
#[export] Hint Resolve reads_ret Values_at_reads Blocks_at_reads : reads.
Ltac reads_step :=
  match goal with
  | |- reads _ (bind _ _) => apply reads_bind; [|intros ?]
  | |- reads _ (when false _) => cbn [when]
  | |- reads _ (match ?x with _ => _ end) => destruct x eqn:?
  | |- reads _ _ => solve [eauto with reads]
  end.

Section Reads.
Variable heap : modul.
Variable print_ir : value -> string.
Variable dense_iter : gmap Z (constant * Z) -> list (constant * Z).
Variable globalValueOracle : option (constant -> constant -> bool).

(** [P] has the instructions among some operands. *)
Definition names (P : Z -> Prop) (l : list value) : Prop := forall p o, VInst p o ∈ l -> P p.
Lemma complain_reads P text : reads P (complain heap print_ir false text).
Proof. unfold complain. repeat reads_step. Qed.
Lemma equiv_const_reads P : forall L R, reads P (equiv_const globalValueOracle L R).
Proof.
  induction L as [L IH] using constant_sub_ind. intros R. rewrite list.Forall_forall in IH.
  assert (Hall : forall ls, (forall l, l ∈ ls -> forall r, reads P (equiv_const globalValueOracle l r)) -> forall rs,
    reads P ((fix equiv_all (ls rs : list constant) : E bool :=
      match ls, rs with
      | l :: ls, r :: rs => e <- equiv_const globalValueOracle l r ;; if e then equiv_all ls rs else ret false
      | _, _ => ret true
      end) ls rs)).
  { induction ls as [|l ls IHl]; intros Hl rs; [apply reads_ret|]. destruct rs as [|r rs]; [apply reads_ret|].
    apply reads_bind; [apply Hl; by left|]. intros []; [|apply reads_ret]. apply IHl.
    intros l' Hl'. apply Hl. by right. }
  destruct L; cbn [equiv_const]; destruct (_ =? _); try apply reads_ret; destruct (negb _);
    try apply reads_ret; destruct R; try apply reads_ret; repeat reads_step.
  all: apply Hall, IH.
Qed.
Hint Resolve complain_reads equiv_const_reads : reads.
Lemma operands_reads P L R : names P [R] -> reads P (equivalentAsOperands globalValueOracle L R).
Proof.
  intros HR. unfold equivalentAsOperands. destruct (negb _); [apply reads_ret|].
  destruct L as [p|p o|p|c|k p], R as [q|q o'|q|c'|k' q]; try (by repeat reads_step).
  apply reads_bind; [apply Values_at_reads|]. intros v.
  apply (tentative_reads P p q (fun b => (v =? q) || b)). apply (HR q o'). by left.
Qed.
Lemma first_reads P ls : forall rs, names P rs -> reads P (first_difference globalValueOracle ls rs).
Proof.
  induction ls as [|l ls IH]; intros [|r rs] HP; cbn [first_difference]; try apply reads_ret.
  apply reads_bind; [apply operands_reads; intros p o [<-|?%elem_of_nil]%elem_of_cons; [|done]; apply (HP p o); by left|].
  intros []; [|apply reads_ret]. apply IH. intros p o Hp. apply (HP p o). by right.
Qed.
Lemma callSites_reads P cl al cr ar : names P (cr :: ar) ->
  reads P (diffCallSites heap print_ir globalValueOracle cl al cr ar false).
Proof.
  intros HP. unfold diffCallSites. apply reads_bind.
  { apply operands_reads. intros p o [<-|?%elem_of_nil]%elem_of_cons; [|done]. apply (HP p o). by left. }
  intros e. do 2 (destruct (negb _); [apply complain_reads|]).
  apply reads_bind; [|intros [[]|]; repeat reads_step]. apply first_reads. intros p o Hp. apply (HP p o). by right.
Qed.
Lemma all_operands_reads P L R : names P (i_ops R) -> reads P (diff_operands heap print_ir globalValueOracle L R false).
Proof.
  intros HP. unfold diff_operands. destruct (negb _); [apply complain_reads|].
  apply reads_bind; [by apply first_reads|]. intros [[]|]; repeat reads_step.
Qed.
Lemma switch_reads P rcs : forall lcs d, reads P (switch_cases heap print_ir false false rcs lcs d).
Proof. induction rcs as [|[k x] rcs IH]; intros lcs d; cbn [switch_cases when]; repeat reads_step; apply IH. Qed.
Lemma left_reads P l : forall d, reads P (left_cases heap print_ir false l d).
Proof. induction l as [|[k x] l IH]; intros d; cbn [left_cases when]; repeat reads_step; apply IH. Qed.
Hint Resolve switch_reads left_reads : reads.
(** Comparing two instructions always has an answer, which depends on the tentative partners of
    the right operands only. *)
Lemma match_reads P L R : names P (compared R) -> reads P (matchForBlockDiff heap print_ir dense_iter globalValueOracle L R).
Proof.
  intros HP. unfold matchForBlockDiff. apply reads_bind; [|intros; apply reads_ret]. unfold diff_inst.
  pose proof (all_operands_reads P L R) as Hops. unfold compared in HP.
  case_bool_decide as Eop; cbn [negb]; [|apply complain_reads].
  destruct (i_kind L) as [[] pl|cl al| |cl al nl ul|[[cl s1]|] s0|al dl|cl dl csl| |pl|vl pl|ol] eqn:EL,
    (i_kind R) as [[] pr|cr ar| |cr ar nr ur|[[cr s1']|] s0'|ar dr|cr dr csr| |pr|vr pr|or] eqn:ER; try discriminate Eop;
    cbn [when].
  all: try (by apply callSites_reads); try (by apply Hops).
  all: repeat first [by apply Hops|by apply callSites_reads|by apply operands_reads|reads_step].
Qed.

(** What the comparison answers in a state. *)
Definition found_same (s : fde) (L R : inst) : bool :=
  match matchForBlockDiff heap print_ir dense_iter globalValueOracle L R s with Ok (b, _) => b | Fault _ => false end.
Lemma match_answers s L R : exists s', matchForBlockDiff heap print_ir dense_iter globalValueOracle L R s = Ok (found_same s L R, s') /\
  alike anyone s s'.
Proof.
  destruct (match_reads anyone L R) with s s as (b & s' & t' & E & _ & Ha & _); [done|done|]. exists s'. split; [|done].
  unfold found_same. by rewrite E.
Qed.
Lemma found_same_alike P s t L R : names P (compared R) -> alike P s t -> found_same s L R = found_same t L R.
Proof.
  intros HP Hst. destruct (match_reads P L R HP s t Hst) as (b & s' & t' & E & F & _). unfold found_same. by rewrite E, F.
Qed.
End Reads.

(** *** The dynamic program *)

Section BlockAlignment.
Variable heap : modul.
Variable print_ir : value -> string.
Variable dense_iter : gmap Z (constant * Z) -> list (constant * Z).
Variable globalValueOracle : option (constant -> constant -> bool).
Abbreviation row := (diff_row heap print_ir dense_iter globalValueOracle).
Abbreviation rows := (diff_rows heap print_ir dense_iter globalValueOracle).
Abbreviation found := (found_same heap print_ir dense_iter globalValueOracle).

(** A run only adds tentative partners of the right instructions [rs]. *)
Definition outside (rs : list inst) (q : Z) : Prop := q ∉ i_ptr <$> rs.
Lemma tentative_outside l r s : alike (outside [r]) s (set_Tentative ({[ (i_ptr l, i_ptr r) ]} ∪ TentativeValues s) s).
Proof.
  split; [done|done|]. intros p q Hq. cbn. rewrite elem_of_union, elem_of_singleton. split; [by right|].
  intros [[= -> ->]|?]; [|done]. destruct Hq. by left.
Qed.
Lemma diff_row_runs r ls : forall cur prev s, exists next s', row r ls cur prev s = Ok (next, s') /\ alike (outside [r]) s s'.
Proof.
  induction ls as [|l ls IH]; intros cur prev s; [by exists [], s|].
  destruct cur as [|c0 [|c1 cur]]; [by exists [], s|by exists [], s|]. cbn [diff_row].
  destruct (match_answers heap print_ir dense_iter globalValueOracle s l r) as (s1 & E1 & A1). rewrite (bind_Ok _ _ _ _ _ E1).
  apply (alike_mono _ (outside [r])) in A1; [|done].
  match goal with |- context [bind ?m _ s1] => assert (H2 : exists e s2, m s1 = Ok (e, s2) /\ alike (outside [r]) s1 s2) end.
  { destruct (found s l r); [|by destruct (_ <=? _); do 2 eexists]. do 2 eexists. split; [done|]. apply tentative_outside. }
  destruct H2 as (e & s2 & E2 & A2). rewrite (bind_Ok _ _ _ _ _ E2).
  destruct (IH (c1 :: cur) e s2) as (next & s3 & E3 & A3). rewrite (bind_Ok _ _ _ _ _ E3).
  do 2 eexists. split; [done|]. by rewrite A1, A2.
Qed.
Lemma diff_rows_run ls rs : forall cur s, exists cur' s', rows rs ls cur s = Ok (cur', s') /\ alike (outside rs) s s'.
Proof.
  induction rs as [|r rs IH]; intros cur s; [by exists cur, s|]. destruct cur as [|c0 cur]; [by exists [], s|]. cbn [diff_rows].
  destruct (diff_row_runs r ls (c0 :: cur) (extend c0 RightCost DC_right) s) as (next & s1 & E1 & A1). rewrite (bind_Ok _ _ _ _ _ E1).
  destruct (IH (extend c0 RightCost DC_right :: next) s1) as (cur' & s2 & E2 & A2). exists cur', s2. split; [done|].
  transitivity s1; (eapply alike_mono; [|done]); intros q Hq Hin; apply Hq; [|by right].
  apply list_elem_of_singleton in Hin as ->. by left.
Qed.

Section Rows.
Variable same : inst -> inst -> bool.
Definition entry_ok (e : DiffEntry) (A B : list inst) : Prop :=
  optimal same (Path e) A B /\ Cost e = path_cost (Path e).
(** The entries of a row, from the prefix [A] on. *)
Fixpoint row_ok (cur : list DiffEntry) (A ls B : list inst) : Prop :=
  match cur, ls with
  | [e], [] => entry_ok e A B
  | e :: cur, l :: ls => entry_ok e A B /\ row_ok cur (A ++ [l]) ls B
  | _, _ => False
  end.
Lemma row_ok_head e cur A ls B : row_ok (e :: cur) A ls B -> entry_ok e A B.
Proof. destruct cur, ls; cbn; tauto. Qed.
Lemma row_ok_last cur : forall A ls B, row_ok cur A ls B ->
  exists e, cur !! length ls = Some e /\ entry_ok e (A ++ ls) B.
Proof.
  induction cur as [|e cur IH]; intros A ls B H; [done|]. destruct ls as [|l ls].
  - destruct cur; [|done]. exists e. by rewrite app_nil_r.
  - destruct (cur) as [|e' cur'] eqn:Ec; [by destruct H|]. rewrite <-Ec in *. cbn in H.
    destruct (IH (A ++ [l]) ls B) as (e1 & H1 & H2); [destruct cur; tauto|].
    exists e1. rewrite <-app_assoc in H2. by split.
Qed.
Lemma row_ok_cons e cur A l ls B : row_ok (e :: cur) A (l :: ls) B <->
  entry_ok e A B /\ row_ok cur (A ++ [l]) ls B.
Proof. cbn. destruct cur; [tauto|done]. Qed.

Lemma extend_ok e c d A B A' B' :
  Cost e = path_cost (Path e) -> c = step_cost d -> optimal same (Path e ++ [d]) A' B' ->
  2 * (Z.of_nat (length A') + Z.of_nat (length B')) < 2 ^ 32 -> aligned same (Path e) A B ->
  entry_ok (extend e c d) A' B'.
Proof.
  intros Hc -> Ho Hb _. split; [done|]. cbn [Cost Path extend]. rewrite path_cost_snoc, Hc.
  apply u32_small. destruct Ho as [Ha _]. apply aligned_length in Ha as [Ha _].
  pose proof (path_cost_nonneg (Path e ++ [d])). rewrite path_cost_snoc in *. lia.
Qed.

Lemma first_column_ok ls : 2 * Z.of_nat (length ls) < 2 ^ 32 -> row_ok (first_column (length ls)) [] ls [].
Proof.
  intros Hb. unfold first_column.
  enough (H : forall ls A, 2 * Z.of_nat (length A + length ls) < 2 ^ 32 ->
    row_ok ((fun i => mkEntry (u32 (Z.of_nat i * LeftCost)) (replicate i DC_left)) <$> seq (length A) (S (length ls)))
      A ls []) by (apply (H ls []); cbn; lia).
  clear. induction ls as [|l ls IH]; intros A Hb.
  - cbn -[u32]. split; [apply optimal_lefts|]. cbn [Cost Path]. rewrite u32_small by (unfold LeftCost; cbn in Hb; lia).
    induction (length A) as [|n IHn]; [done|]. cbn [replicate path_cost step_cost]. unfold LeftCost in *. lia.
  - cbn [length seq fmap list_fmap]. apply row_ok_cons. split.
    + split; [apply optimal_lefts|]. cbn [Cost Path]. cbn in Hb. rewrite u32_small by (unfold LeftCost; lia). clear.
      induction (length A) as [|n IHn]; [done|]. cbn [replicate path_cost step_cost]. unfold LeftCost in *. lia.
    + specialize (IH (A ++ [l])). rewrite length_app, Nat.add_1_r in IH. apply IH. cbn in Hb |- *. lia.
Qed.

(** The pairs a run found, among [ls] and [rs]. *)
Definition pairs_found (ls rs : list inst) (s s' : fde) : Prop :=
  forall x, x ∈ TentativeValues s' <-> x ∈ TentativeValues s \/
    exists l r, l ∈ ls /\ r ∈ rs /\ same l r = true /\ x = (i_ptr l, i_ptr r).

Lemma diff_row_optimal r B ls : forall A cur prev s,
  (forall l t, l ∈ ls -> alike (outside [r]) s t -> found t l r = same l r) ->
  row_ok cur A ls B -> entry_ok prev A (B ++ [r]) ->
  2 * (Z.of_nat (length A + length ls) + Z.of_nat (S (length B))) < 2 ^ 32 ->
  exists next s', row r ls cur prev s = Ok (next, s') /\ row_ok (prev :: next) A ls (B ++ [r]) /\ pairs_found ls [r] s s'.
Proof.
  induction ls as [|l ls IH]; intros A cur prev s Hd Hc Hp Hb.
  { exists [], s. split; [done|]. split; [by destruct cur|]. intros x. split; [by left|]. by intros [?|(? & ? & ?%elem_of_nil & _)]. }
  destruct cur as [|c0 cur]; [done|]. apply row_ok_cons in Hc as [H0 Hc].
  destruct cur as [|c1 cur]; [done|]. pose proof (row_ok_head _ _ _ _ _ Hc) as H1.
  cbn [diff_row]. destruct (match_answers heap print_ir dense_iter globalValueOracle s l r) as (s1 & Em & A1).
  rewrite Hd in Em by (by left || done). rewrite (bind_Ok _ _ _ _ _ Em).
  cbn [length] in Hb.
  assert (Hlen : 2 * (Z.of_nat (length (A ++ [l])) + Z.of_nat (length (B ++ [r]))) < 2 ^ 32)
    by (rewrite !length_app; cbn; lia).
  assert (Hnext : exists e s2, (if same l r then
      modify (fun s => set_Tentative ({[ (i_ptr l, i_ptr r) ]} ∪ TentativeValues s) s) ;;;
      ret (extend c0 MatchCost DC_match)
    else if Cost prev <=? Cost c1 then ret (extend prev LeftCost DC_left)
    else ret (extend c1 RightCost DC_right)) s1 = Ok (e, s2) /\ entry_ok e (A ++ [l]) (B ++ [r]) /\
      s2 = if same l r then set_Tentative ({[ (i_ptr l, i_ptr r) ]} ∪ TentativeValues s1) s1 else s1).
  { destruct H0 as [O0 C0], H1 as [O1 C1], Hp as [Op Cp]. destruct (same l r) eqn:Es.
    - eexists _, _. split; [reflexivity|]. split; [|done].
      eapply extend_ok; [done|done|by apply optimal_match|done|exact (proj1 O0)].
    - destruct (optimal_other same _ _ A B l r Es Op O1) as [HL HR].
      destruct (Z.leb_spec (Cost prev) (Cost c1)); eexists _, _; (split; [reflexivity|]); (split; [|done]).
      + eapply extend_ok; [done|done|apply HL; lia|done|exact (proj1 Op)].
      + eapply extend_ok; [done|done|apply HR; lia|done|exact (proj1 O1)]. }
  destruct Hnext as (e & s2 & E2 & He & Es2). rewrite (bind_Ok _ _ _ _ _ E2).
  assert (A2 : alike (outside [r]) s s2).
  { transitivity s1; [by eapply alike_mono, A1|]. rewrite Es2. destruct (same l r); [apply tentative_outside|done]. }
  destruct (IH (A ++ [l]) (c1 :: cur) e s2) as (next & s3 & E3 & H3 & T3); [|done|done| |].
  { intros l' t Hl' Ht. apply Hd; [by right|by transitivity s2]. }
  { rewrite length_app. cbn. lia. }
  rewrite (bind_Ok _ _ _ _ _ E3). eexists _, _. split; [reflexivity|]. split; [by apply row_ok_cons|].
  assert (T2 : forall x, x ∈ TentativeValues s2 <-> x ∈ TentativeValues s \/ same l r = true /\ x = (i_ptr l, i_ptr r)).
  { intros [p q]. assert (T1 := al_Tentative _ _ _ A1 p q I). rewrite Es2.
    destruct (same l r); cbn; [rewrite elem_of_union, elem_of_singleton|]; rewrite <-T1; naive_solver. }
  intros x. rewrite (T3 x), (T2 x). clear -T2. setoid_rewrite elem_of_cons. setoid_rewrite elem_of_nil. naive_solver.
Qed.
End Rows.

(** No instruction of a block uses itself or one after it; phis, which may, are compared without
    their operands. *)
Definition operands_before (rs : list inst) : Prop :=
  forall k r, rs !! k = Some r -> names (outside (drop k rs)) (compared r).
Lemma diff_rows_optimal ls rs : forall B cur s cur' sf,
  operands_before rs -> rows rs ls cur s = Ok (cur', sf) -> row_ok (found sf) cur [] ls B ->
  2 * (Z.of_nat (length ls) + Z.of_nat (length B + length rs)) < 2 ^ 32 ->
  row_ok (found sf) cur' [] ls (B ++ rs) /\ pairs_found (found sf) ls rs s sf.
Proof.
  induction rs as [|r rs IH]; intros B cur s cur' sf Hop Hrun Hc Hb.
  { assert (cur' = cur /\ sf = s) as [-> ->] by (destruct cur; cbn in Hrun; by injection Hrun). rewrite app_nil_r.
    split; [done|]. intros x. split; [by left|]. by intros [?|(? & ? & _ & ?%elem_of_nil & _)]. }
  destruct cur as [|c0 cur]; [done|]. cbn [length] in Hb.
  destruct (diff_rows_run ls (r :: rs) (c0 :: cur) s) as (cur2 & sf2 & Erun & Asf).
  assert (sf2 = sf) as -> by congruence. clear cur2 Erun.
  cbn [diff_rows] in Hrun. pose proof (row_ok_head _ _ _ _ _ _ Hc) as [O0 C0].
  assert (Hn : entry_ok (found sf) (extend c0 RightCost DC_right) [] (B ++ [r])).
  { eapply extend_ok; [done|done|by apply optimal_rights| |exact (proj1 O0)]. rewrite length_app. cbn. lia. }
  assert (Hr : forall q, outside (r :: rs) q -> outside [r] q).
  { intros q Hq ->%list_elem_of_singleton. apply Hq. by left. }
  destruct (diff_row_optimal (found sf) r B ls [] (c0 :: cur) (extend c0 RightCost DC_right) s)
    as (next & s1 & E1 & H1 & T1); [|done|done|cbn; lia|].
  { intros l t Hl Ht. apply (found_same_alike _ _ _ _ (outside (r :: rs))); [exact (Hop 0%nat r eq_refl)|].
    transitivity s; [symmetry; by eapply alike_mono, Ht|done]. }
  rewrite (bind_Ok _ _ _ _ _ E1) in Hrun.
  destruct (IH (B ++ [r]) (extend c0 RightCost DC_right :: next) s1 cur' sf) as [H2 T2]; [|done|done| |].
  { intros k r' Hk. exact (Hop (S k) r' Hk). }
  { rewrite length_app. cbn. lia. }
  split; [by rewrite <-app_assoc in H2|]. intros x. rewrite (T2 x), (T1 x). clear.
  setoid_rewrite elem_of_cons. setoid_rewrite elem_of_nil. naive_solver.
Qed.

(** C32: aligning two blocks.  Take blocks of any instructions in which, phis aside, the right ones
    use only what is defined before them, in any state of the engine.  The dynamic program
    then always gives a path, for less than 2^31 instructions.  It pairs the instructions of both blocks in order,
    pairs only instructions that are the same, and no other such path costs less.  Here two
    instructions are the same if comparing them, with the tentative partners there are at the end,
    finds no difference; and at the end the tentative partners are those there were before and
    just the pairs of instructions of the two blocks that are the same. *)
Theorem block_alignment_optimal ls rs s :
  operands_before rs -> 2 * (Z.of_nat (length ls) + Z.of_nat (length rs)) < 2 ^ 32 ->
  exists path s', diff_path heap print_ir dense_iter globalValueOracle ls rs s = Ok (path, s') /\
    aligned (found s') path ls rs /\ (forall q, aligned (found s') q ls rs -> path_cost path <= path_cost q) /\
    forall x, x ∈ TentativeValues s' <-> x ∈ TentativeValues s \/
      exists l r, l ∈ ls /\ r ∈ rs /\ found s' l r = true /\ x = (i_ptr l, i_ptr r).
Proof.
  intros Hop Hb. unfold diff_path. destruct (diff_rows_run ls rs (first_column (length ls)) s) as (cur & s1 & E1 & _).
  rewrite (bind_Ok _ _ _ _ _ E1).
  destruct (diff_rows_optimal ls rs [] (first_column (length ls)) s cur s1) as [H1 T1];
    [done|done|apply first_column_ok; lia|cbn; lia|].
  destruct (row_ok_last _ _ _ _ _ H1) as (e & -> & [Ho1 Ho2] & _). exists (Path e), s1. by split_and!.
Qed.
End BlockAlignment.

(** ** Concrete comparisons *)

Module ExDiff.
Definition pr (v : value) : string := "?".
Definition ii (p opc : Z) (used : bool) (ops : list value) (bb : Z) : inst :=
  mkInst p "" false 7 false (KOther opc) ops used bb None.
Definition ret_ (p bb : Z) : inst := mkInst p "" true 0 false (KOther 1) [] false bb None.
Definition use1 : value := VConst (CInt 500 1).

(** [a = x + 1; b = x + 1; use a] against [a' = x + 1; b' = x + 1; use b']. *)
Definition fl : func := mkFunc 1 "f" [mkArg 2 ""]
  [mkBlock 10 "" [ii 11 13 true [VArgument 2; use1] 10; ii 12 13 false [VArgument 2; use1] 10;
                  ii 13 20 false [VInst 11 (OpOther 13)] 10; ret_ 14 10]].
Definition fr : func := mkFunc 101 "f" [mkArg 102 ""]
  [mkBlock 110 "" [ii 111 13 false [VArgument 102; use1] 110; ii 112 13 true [VArgument 102; use1] 110;
                   ii 113 20 false [VInst 112 (OpOther 13)] 110; ret_ 114 110]].
Definition order (m : gmap Z (constant * Z)) : list (constant * Z) := snd <$> map_to_list m.

(** Every right instruction tentatively matches, so that the path is made of
    matches only and dropping its tail empties it. *)
Example all_matches_crash :
  diff_module [fl; fr] pr order None [fl] [fr] (consumer0 ids0) = Fault AssertFailed.
Proof. vm_compute. reflexivity. Qed.

(** [a = x + 1; b = a + a; use b; return] against [a' = x + 1; c' = x + 1; b' = a' + a'; use b'; return]. *)
Definition la : list inst :=
  [ii 11 13 true [VArgument 2; use1] 10; ii 12 13 true [VInst 11 (OpOther 13); VInst 11 (OpOther 13)] 10;
   ii 13 20 false [VInst 12 (OpOther 13)] 10; ret_ 14 10].
Definition ra : list inst :=
  [ii 111 13 true [VArgument 102; use1] 110; ii 115 13 false [VArgument 102; use1] 110;
   ii 112 13 true [VInst 111 (OpOther 13); VInst 111 (OpOther 13)] 110; ii 113 20 false [VInst 112 (OpOther 13)] 110; ret_ 114 110].
Definition s2 : fde := mkFde (consumer0 ids0) (<[2 := 102]> ∅) ∅ ∅ [].
Lemma ra_before : operands_before ra.
Proof.
  intros k r Hk. do 5 (destruct k as [|k]; [injection Hk as <-; intros p o Hp; cbn in Hp;
    repeat (apply elem_of_cons in Hp as [[= -> ->]|Hp]; [unfold outside; cbn; set_solver|]);
    repeat (apply elem_of_cons in Hp as [Hp|Hp]; [discriminate|]); by apply elem_of_nil in Hp|]). done.
Qed.
Lemma block_alignment_optimal_witness :
  operands_before ra /\
  exists path s', diff_path [fl; fr] pr order None la ra s2 = Ok (path, s') /\
    aligned (found_same [fl; fr] pr order None s') path la ra /\ (12, 112) ∈ TentativeValues s'.
Proof.
  split; [exact ra_before|].
  destruct (block_alignment_optimal [fl; fr] pr order None la ra s2 ra_before) as (path & s' & E & Ha & _); [cbn; lia|].
  exists path, s'. split; [exact E|]. split; [exact Ha|]. vm_compute in E. injection E as _ <-.
  apply (bool_decide_unpack _). vm_compute. exact I.
Defined.
End ExDiff.
