(* ===== verification/DiffIdentical.v ===== *)
(** * Identical modules have no differences

    The same program read twice gives two modules whose functions, blocks,
    instructions and global values are at different addresses, while constants
    without any of these in them are shared.  The engine of
    [DifferenceEngine.cpp] finds no difference between the two and leaves the consumer as
    it was, as long as no compared operand is one it cannot compare across modules:
    the address of a block, a block, or an array or structure that holds
    addresses.  Examples show that it reports these. *)

From S2P Require Import PriorityQueue Prelude Ir IDAssigner DiffConsumer DiffEngine.

Local Open Scope Z_scope.

(** ** The second copy of a program *)

Section Copy.
Variable rho : Z -> Z.          (* where the copy of an object is *)
Variable shared : Z -> bool.    (* the arrays, structures and the like that both modules use *)

Fixpoint copy_const (c : constant) : constant :=
  match c with
  | CGlobal k p n => CGlobal k (rho p) n
  | CExpr p o pr ops => CExpr (rho p) o pr (map copy_const ops)
  | CPointerNull p => CPointerNull (rho p)
  | CUndef p => CUndef (rho p)
  | CAggregateZero p => CAggregateZero (rho p)
  | CBlockAddress p bb => CBlockAddress (rho p) (rho bb)
  | CVector p els => CVector (rho p) (map copy_const els)
  | CInt p v => CInt p v
  | CData k p => CData k (if shared p then p else rho p)
  end.
Definition copy_value (v : value) : value :=
  match v with
  | VArgument p => VArgument (rho p)
  | VInst p o => VInst (rho p) o
  | VBlock p => VBlock (rho p)
  | VConst c => VConst (copy_const c)
  | VOther k p => VOther k (rho p)
  end.
Definition copy_kind (k : ikind) : ikind :=
  match k with
  | KCmp f p => KCmp f p
  | KCall c args => KCall (copy_value c) (copy_value <$> args)
  | KPhi => KPhi
  | KInvoke c args n u => KInvoke (copy_value c) (copy_value <$> args) (rho n) (rho u)
  | KBr None s0 => KBr None (rho s0)
  | KBr (Some (c, s1)) s0 => KBr (Some (copy_value c, rho s1)) (rho s0)
  | KIndirectBr a ds => KIndirectBr (copy_value a) (rho <$> ds)
  | KSwitch c d cs => KSwitch (copy_value c) (rho d) ((fun x => (copy_const x.1, rho x.2)) <$> cs)
  | KUnreachable => KUnreachable
  | KLoad p => KLoad (copy_value p)
  | KStore v p => KStore (copy_value v) (copy_value p)
  | KOther o => KOther o
  end.
Definition copy_inst (i : inst) : inst :=
  mkInst (rho (i_ptr i)) (i_name i) (i_void i) (i_type i) (i_type_ptr i) (copy_kind (i_kind i))
    (copy_value <$> i_ops i) (i_used i) (rho (i_parent i)) (i_loc i).
Definition copy_block (b : block) : block :=
  mkBlock (rho (b_ptr b)) (b_name b) (copy_inst <$> b_insts b).
Definition copy_func (f : func) : func :=
  mkFunc (rho (f_ptr f)) (f_name f) ((fun a => mkArg (rho (a_ptr a)) (a_name a)) <$> f_args f)
    (copy_block <$> f_blocks f).
End Copy.

(** ** Programs in SSA form *)

(** The operands the engine can compare across modules.  It takes the address of a block
    for the same only if it has met the block before, it compares blocks as operands the wrong
    way round, and arrays and structures are the same only if they are the same object. *)
Fixpoint const_comparable (shared : Z -> bool) (c : constant) : bool :=
  match c with
  | CBlockAddress _ _ => false
  | CData _ p => shared p
  | CExpr _ _ _ ops => forallb (const_comparable shared) ops
  | CVector _ els => forallb (const_comparable shared) els
  | _ => true
  end.
Definition comparable (shared : Z -> bool) (v : value) : bool :=
  match v with VConst c => const_comparable shared c | VBlock _ => false | _ => true end.
Definition comparable_operands (shared : Z -> bool) (f : func) : Prop :=
  forall b i v, b ∈ f_blocks f -> i ∈ b_insts b -> v ∈ compared i -> comparable shared v = true.

(** The paths of the control flow from the entry block. *)
Inductive cfg_path (f : func) : list Z -> Prop :=
| path_entry b bs : f_blocks f = b :: bs -> cfg_path f [b_ptr b]
| path_step l b i x :
    cfg_path f (l ++ [b_ptr b]) -> b ∈ f_blocks f -> i ∈ b_insts b -> x ∈ successors (i_kind i) ->
    cfg_path f ((l ++ [b_ptr b]) ++ [x]).
Definition dominates (f : func) (d b : Z) : Prop := forall l, cfg_path f (l ++ [b]) -> d ∈ l.

(** An operand of the [k]-th instruction of block [b]: its definition comes
    before it in the block, or is in a block that strictly dominates [b]. *)
Definition ssa_operand (f : func) (b : block) (k : nat) (v : value) : Prop :=
  match v with
  | VArgument p => p ∈ a_ptr <$> f_args f
  | VInst p _ => exists j, i_ptr j = p /\ i_used j = true /\
      ((exists k', (k' < k)%nat /\ b_insts b !! k' = Some j) \/
       (exists b', b' ∈ f_blocks f /\ j ∈ b_insts b' /\ dominates f (b_ptr b') (b_ptr b)))
  | VConst _ | VBlock _ | VOther _ _ => True
  end.
(** The values of the cases of a switch are distinct integers. *)
Definition cases_ok (k : ikind) : Prop :=
  match k with
  | KSwitch _ _ cs => NoDup ((fun x => const_ptr x.1) <$> cs) /\ forall x, x ∈ cs -> exists p v, x.1 = CInt p v
  | _ => True
  end.
Record ssa_func (f : func) : Prop := {
  ssa_blocks : forall b, b ∈ f_blocks f -> b_insts b <> [];
  ssa_operands : forall b k i v, b ∈ f_blocks f -> b_insts b !! k = Some i -> v ∈ compared i ->
                   ssa_operand f b k v;
  ssa_cases : forall b i, b ∈ f_blocks f -> i ∈ b_insts b -> cases_ok (i_kind i);
  ssa_succs : forall b i x, b ∈ f_blocks f -> i ∈ b_insts b -> x ∈ successors (i_kind i) ->
                x ∈ b_ptr <$> f_blocks f }.

Section Identical.
Variable heap : modul.
Variable print_ir : value -> string.
Variable dense_iter : gmap Z (constant * Z) -> list (constant * Z).
Hypothesis dense_iter_perm : forall m, dense_iter m ≡ₚ (map_to_list m).*2.
Variable rho : Z -> Z.
Variable shared : Z -> bool.

(** ** Operands *)

Lemma const_id_copy c : const_id (copy_const rho shared c) = const_id c.
Proof. by destruct c. Qed.

Lemma equiv_const_copy c : const_comparable shared c = true ->
  forall s, equiv_const None c (copy_const rho shared c) s = Ok (true, s).
Proof.
  induction c as [c IH] using constant_sub_ind. intros Hp s. rewrite list.Forall_forall in IH.
  assert (Hall : forall cs, (forall c, c ∈ cs -> const_comparable shared c = true -> forall s, equiv_const None c (copy_const rho shared c) s = Ok (true, s)) ->
    forallb (const_comparable shared) cs = true ->
    (fix equiv_all (ls rs : list constant) : M fde bool :=
      match ls, rs with
      | l :: ls, r :: rs => e <- equiv_const None l r ;; if e then equiv_all ls rs else ret false
      | _, _ => ret true
      end) cs (map (copy_const rho shared) cs) s = Ok (true, s)).
  { induction cs as [|x cs IHc]; intros H Hf; [done|]. cbn in Hf. apply andb_true_iff in Hf as [H1 H2].
    cbn [map]. unfold bind. rewrite H by (by left || done). apply IHc; [|done]. intros y Hy. apply H. by right. }
  destruct c; cbn [equiv_const copy_const const_ptr const_id const_comparable] in *;
    rewrite ?Z.eqb_refl; try done; try (rewrite Hp, Z.eqb_refl; done); (destruct (_ =? _); [done|]); rewrite bool_decide_true by done; cbn [negb].
  - unfold ret, equiv_global. by rewrite String.eqb_refl.
  - rewrite bool_decide_true by done. cbn [negb]. rewrite andb_false_r, length_map, Nat.eqb_refl. by apply Hall.
  - done.
  - done.
  - done.
  - rewrite length_map, Nat.eqb_refl. by apply Hall.
Qed.

(** Computations that keep all but create entries of [Values]. *)
Definition keeps (s s' : fde) : Prop :=
  engine s' = engine s /\ Blocks s' = Blocks s /\ TentativeValues s' = TentativeValues s /\
  Queue s' = Queue s /\ forall p, Values s !! p = Some (rho p) -> Values s' !! p = Some (rho p).
#[local] Instance keeps_preorder : PreOrder keeps.
Proof.
  split; [done|]. intros a b c (? & ? & ? & ? & ?) (? & ? & ? & ? & ?).
  repeat split; try congruence. auto.
Qed.
Definition known (s : fde) (v : value) : Prop :=
  match v with
  | VArgument p => Values s !! p = Some (rho p)
  | VInst p _ => Values s !! p = Some (rho p) \/ (p, rho p) ∈ TentativeValues s
  | VConst c => const_comparable shared c = true
  | VOther _ _ => True
  | VBlock _ => False
  end.
Lemma known_keeps s s' v : keeps s s' -> known s v -> known s' v.
Proof.
  intros (_ & _ & T & _ & V). destruct v; cbn; try done; [apply V|]. rewrite T. intros [H|H]; [left; by apply V|by right].
Qed.
Lemma Values_at_keeps p s :
  exists s', Values_at p s = Ok (default 0 (Values s !! p), s') /\ keeps s s'.
Proof.
  exists (set_Values (touch p (Values s)) s). split.
  - unfold Values_at, bind, modify, gets. cbn. unfold touch.
    destruct (Values s !! p) eqn:E; [by rewrite E|]. by rewrite lookup_insert_eq.
  - repeat split. intros q Hq. cbn. eapply lookup_weaken; [exact Hq|apply touch_sub].
Qed.
Lemma equiv_copy v s : known s v ->
  exists s', equivalentAsOperands None v (copy_value rho shared v) s = Ok (true, s') /\ keeps s s'.
Proof.
  intros Hk. unfold equivalentAsOperands. destruct v as [p|p o|p|c|k p]; cbn [copy_value getValueID].
  - rewrite bool_decide_true by done. cbn [negb]. destruct (Values_at_keeps p s) as (s1 & E1 & K1).
    cbn in Hk. rewrite Hk in E1. exists s1. rewrite (bind_Ok _ _ _ _ _ E1). cbn. by rewrite Z.eqb_refl.
  - rewrite bool_decide_true by done. cbn [negb]. destruct (Values_at_keeps p s) as (s1 & E1 & K1).
    exists s1. rewrite (bind_Ok _ _ _ _ _ E1), (bind_Ok (gets _) _ s1 (TentativeValues s1) s1) by done.
    split; [|done]. unfold ret. do 2 f_equal. destruct Hk as [->|Hk]; [cbn; by rewrite Z.eqb_refl|].
    destruct K1 as (_ & _ & -> & _). rewrite (bool_decide_true _ Hk). apply orb_true_r.
  - done.
  - rewrite const_id_copy, bool_decide_true by done. cbn [negb]. exists s. split; [by apply equiv_const_copy|done].
  - rewrite bool_decide_true by done. by exists s.
Qed.
Lemma first_difference_copy l : forall s, (forall v, v ∈ l -> known s v) ->
  exists s', first_difference None l (copy_value rho shared <$> l) s = Ok (None, s') /\ keeps s s'.
Proof.
  induction l as [|v l IH]; intros s Hk; [by exists s|]. cbn [fmap list_fmap first_difference].
  destruct (equiv_copy v s) as (s1 & E1 & K1); [apply Hk; by left|]. rewrite (bind_Ok _ _ _ _ _ E1).
  destruct (IH s1) as (s2 & E2 & K2).
  { intros w Hw. eapply known_keeps; [exact K1|]. apply Hk. by right. }
  exists s2. split; [done|by etrans].
Qed.
Lemma diffCallSites_copy c args b s : (forall v, v ∈ c :: args -> known s v) ->
  exists s', diffCallSites heap print_ir None c args (copy_value rho shared c) (copy_value rho shared <$> args) b s = Ok (false, s') /\
    keeps s s'.
Proof.
  intros Hk. unfold diffCallSites. destruct (equiv_copy c s) as (s1 & E1 & K1); [apply Hk; by left|].
  rewrite (bind_Ok _ _ _ _ _ E1). cbn [negb]. rewrite length_fmap, Nat.eqb_refl. cbn [negb].
  destruct (first_difference_copy args s1) as (s2 & E2 & K2).
  { intros w Hw. eapply known_keeps; [exact K1|]. apply Hk. by right. }
  exists s2. rewrite (bind_Ok _ _ _ _ _ E2). split; [done|by etrans].
Qed.
Lemma diff_operands_copy i b s : (forall v, v ∈ i_ops i -> known s v) ->
  exists s', diff_operands heap print_ir None i (copy_inst rho shared i) b s = Ok (false, s') /\ keeps s s'.
Proof.
  intros Hk. unfold diff_operands. cbn [copy_inst i_ops]. rewrite length_fmap, Nat.eqb_refl. cbn [negb].
  destruct (first_difference_copy (i_ops i) s Hk) as (s2 & E2 & K2).
  exists s2. by rewrite (bind_Ok _ _ _ _ _ E2).
Qed.

(** ** Unifying blocks with their copies *)

(** [s'] may have more blocks and queue entries, all pairs of a block of [xs] and
    its copy. *)
Definition blocks_ok (s : fde) : Prop := forall x q, Blocks s !! x = Some q -> q = rho x.
Definition grows (xs : list Z) (s s' : fde) : Prop :=
  engine s' = engine s /\ TentativeValues s' = TentativeValues s /\
  (forall p, Values s !! p = Some (rho p) -> Values s' !! p = Some (rho p)) /\
  (blocks_ok s -> blocks_ok s') /\
  forall pr, pr ∈ Queue s' -> pr ∈ Queue s \/ exists x, x ∈ xs /\ pr = (x, rho x).
Lemma keeps_grows xs s s' : keeps s s' -> grows xs s s'.
Proof. intros (? & HB & ? & HQ & ?). unfold grows, blocks_ok. rewrite HB, HQ. by repeat split; [..|left]. Qed.
Lemma grows_refl xs s : grows xs s s.
Proof. by apply keeps_grows. Qed.
Lemma grows_trans xs s1 s2 s3 : grows xs s1 s2 -> grows xs s2 s3 -> grows xs s1 s3.
Proof.
  intros (? & ? & ? & ? & Q1) (? & ? & ? & ? & Q2). repeat split; try congruence; [auto|auto|].
  intros pr Hp. destruct (Q2 pr Hp) as [Hp2|]; [by apply Q1|by right].
Qed.

Lemma tryUnify_copy x xs s :
  x ∈ xs -> rho x <> 0 -> blocks_ok s ->
  exists s', tryUnify heap print_ir x (rho x) s = Ok (false, s') /\ grows xs s s'.
Proof.
  intros Hx Hr Hb. unfold tryUnify, Blocks_at. rewrite <-bind_assoc.
  set (s1 := set_Blocks (touch x (Blocks s)) s). rewrite (bind_Ok (modify _) _ s tt s1) by done.
  assert (H1 : default 0 (Blocks s1 !! x) = default 0 (Blocks s !! x)).
  { cbn. unfold touch. destruct (Blocks s !! x) eqn:E; [by rewrite E|]. by rewrite lookup_insert_eq. }
  rewrite (bind_Ok (gets _) _ s1 (default 0 (Blocks s1 !! x)) s1) by done. rewrite H1.
  destruct (Blocks s !! x) as [q|] eqn:Eq; cbn [from_option]; unfold id.
  - rewrite (Hb x q Eq). destruct (Z.eqb_spec (rho x) 0); [done|]. cbn [negb]. rewrite Z.eqb_refl.
    exists s1. split; [done|]. assert (s1 = s) as ->; [|apply grows_refl].
    unfold s1. rewrite (touch_id _ _ _ Eq). by destruct s.
  - cbn [Z.eqb negb]. eexists. split; [reflexivity|]. split; [done|]. split; [done|]. split; [done|]. split.
    + intros _ y q. cbn. rewrite lookup_insert_Some. intros [[<- <-]|[Ne Hq]]; [done|].
      unfold touch in Hq. rewrite Eq, lookup_insert_ne in Hq by done. by apply Hb.
    + cbn. intros pr. rewrite (insert_perm _ _ _). intros [->|?]%elem_of_cons; [right; by exists x|by left].
Qed.
Lemma tryUnify_all_copy ds : forall xs s,
  (forall x, x ∈ ds -> x ∈ xs /\ rho x <> 0) -> blocks_ok s ->
  exists s', tryUnify_all heap print_ir (zip ds (rho <$> ds)) s = Ok (tt, s') /\ grows xs s s'.
Proof.
  induction ds as [|x ds IH]; intros xs s Hx Hb; [exists s; split; [done|apply grows_refl]|].
  cbn. destruct (Hx x ltac:(by left)) as [Hin Hr]. destruct (tryUnify_copy x xs s Hin Hr Hb) as (s1 & E1 & G1).
  rewrite (bind_Ok _ _ _ _ _ E1). destruct (IH xs s1) as (s2 & E2 & G2).
  { intros y Hy. apply Hx. by right. } { by apply G1. }
  exists s2. split; [done|by eapply grows_trans].
Qed.

(** ** Instructions *)

Lemma when_unify_copy u x xs s :
  x ∈ xs -> rho x <> 0 -> blocks_ok s ->
  exists s', when u (tryUnify heap print_ir x (rho x) ;;; ret tt) s = Ok (tt, s') /\ grows xs s s'.
Proof.
  intros Hx Hr Hb. destruct u; cbn [when]; [|exists s; split; [done|apply grows_refl]].
  destruct (tryUnify_copy x xs s Hx Hr Hb) as (s1 & E1 & G1). exists s1. by rewrite (bind_Ok _ _ _ _ _ E1).
Qed.
Lemma when_unify2_copy u x y xs s :
  x ∈ xs -> y ∈ xs -> rho x <> 0 -> rho y <> 0 -> blocks_ok s ->
  exists s', when u (tryUnify heap print_ir x (rho x) ;;; tryUnify heap print_ir y (rho y) ;;; ret tt) s
             = Ok (tt, s') /\ grows xs s s'.
Proof.
  intros Hx Hy Hrx Hry Hb. destruct u; cbn [when]; [|exists s; split; [done|apply grows_refl]].
  destruct (tryUnify_copy x xs s Hx Hrx Hb) as (s1 & E1 & G1).
  destruct (tryUnify_copy y xs s1) as (s2 & E2 & G2); [done|done|by apply G1|].
  exists s2. rewrite (bind_Ok _ _ _ _ _ E1), (bind_Ok _ _ _ _ _ E2). split; [done|by eapply grows_trans].
Qed.

Abbreviation keyed cs := ((fun x : constant * Z => (const_ptr x.1, x)) <$> cs).
Lemma switch_cases_copy c u xs cs : forall s,
  NoDup ((fun x => const_ptr x.1) <$> cs) -> (forall x, x ∈ cs -> exists p v, x.1 = CInt p v) ->
  (forall x, x ∈ cs -> x.2 ∈ xs /\ rho x.2 <> 0) -> blocks_ok s ->
  exists s', switch_cases heap print_ir c u ((fun x => (copy_const rho shared x.1, rho x.2)) <$> cs)
               (list_to_map (keyed cs)) false s = Ok ((∅, false), s') /\ grows xs s s'.
Proof.
  induction cs as [|[k t] cs IH]; intros s Hnd Hint Hx Hb; [exists s; split; [done|apply grows_refl]|].
  cbn [fmap list_fmap] in Hnd |- *. apply list.NoDup_cons in Hnd as [Hn Hnd].
  destruct (Hint (k, t) ltac:(by left)) as (p & v & Hk). cbn in Hk. subst k. cbn [fst snd copy_const const_ptr] in *.
  destruct (Hx (CInt p v, t) ltac:(by left)) as [Ht Hr]. cbn [fst snd] in Ht, Hr.
  assert (Hno : list_to_map (M := gmap Z (constant * Z)) (keyed cs) !! p = None).
  { apply not_elem_of_list_to_map_1. by rewrite <-list_fmap_compose. }
  cbn [switch_cases list_to_map foldr const_ptr fst snd uncurry]. rewrite lookup_insert_eq.
  destruct (when_unify_copy u t xs s Ht Hr Hb) as (s1 & E1 & G1).
  rewrite (bind_Ok _ _ _ _ _ E1). rewrite delete_insert_id by done.
  destruct (IH s1) as (s2 & E2 & G2); [done| | |by apply G1|].
  { intros x Hin. apply Hint. by right. } { intros x Hin. apply Hx. by right. }
  exists s2. split; [done|by eapply grows_trans].
Qed.

Lemma diff_inst_copy i c u s :
  (forall v, v ∈ compared i -> known s v) -> cases_ok (i_kind i) -> blocks_ok s ->
  (forall x, x ∈ successors (i_kind i) -> rho x <> 0) ->
  exists s', diff_inst heap print_ir dense_iter None i (copy_inst rho shared i) c u s = Ok (false, s') /\
    grows (successors (i_kind i)) s s'.
Proof.
  intros Hk Hc Hb Hr. pose proof (diff_operands_copy i c s) as Hops. unfold compared in Hk.
  assert (Hop : getOpcode (copy_kind rho shared (i_kind i)) = getOpcode (i_kind i)).
  { destruct (i_kind i) as [[] ?| | | |[[]|]| | | | | |]; done. }
  unfold diff_inst. cbn [copy_inst i_kind]. rewrite Hop, bool_decide_true by done. cbn [negb].
  assert (Hgen : (forall v, v ∈ i_ops i -> known s v) -> forall xs,
    exists s', diff_operands heap print_ir None i (copy_inst rho shared i) c s = Ok (false, s') /\ grows xs s s').
  { intros Hv xs. destruct (Hops Hv) as (s' & E' & K'). exists s'. split; [done|by apply keeps_grows]. }
  destruct (i_kind i) as [fc p|cl args| |cl args n un|[[cl s1]|] s0|a ds|cl d cs| |ptr|val ptr|o] eqn:Ek;
    cbn [copy_kind successors] in *.
  - rewrite Z.eqb_refl. cbn [negb]. by apply Hgen.
  - destruct (diffCallSites_copy cl args c s Hk) as (s' & E' & K'). exists s'. split; [done|by apply keeps_grows].
  - rewrite Z.eqb_refl. cbn. exists s. split; [done|apply grows_refl].
  - destruct (diffCallSites_copy cl args c s Hk) as (s1 & E1 & K1). rewrite (bind_Ok _ _ _ _ _ E1).
    destruct (when_unify2_copy u n un [n; un] s1) as (s2 & E2 & G2); [set_solver|set_solver|apply Hr; set_solver|apply Hr; set_solver| |].
    { destruct K1 as (_ & HB & _). unfold blocks_ok. by rewrite HB. }
    exists s2. rewrite (bind_Ok _ _ _ _ _ E2). split; [done|]. eapply grows_trans; [by apply keeps_grows|done].
  - destruct (equiv_copy cl s) as (s2 & E2 & K2); [apply Hk; by left|]. rewrite (bind_Ok _ _ _ _ _ E2). cbn [negb].
    destruct (when_unify2_copy u s1 s0 [s0; s1] s2) as (s3 & E3 & G3); [set_solver|set_solver|apply Hr; set_solver|apply Hr; set_solver| |].
    { destruct K2 as (_ & HB & _). unfold blocks_ok. by rewrite HB. }
    exists s3. rewrite (bind_Ok _ _ _ _ _ E3). split; [done|]. eapply grows_trans; [by apply keeps_grows|done].
  - destruct (when_unify_copy u s0 [s0] s) as (s3 & E3 & G3); [by left|apply Hr; by left|done|].
    exists s3. by rewrite (bind_Ok _ _ _ _ _ E3).
  - rewrite length_fmap, Nat.eqb_refl. cbn [negb].
    destruct (equiv_copy a s) as (s2 & E2 & K2); [apply Hk; by left|]. rewrite (bind_Ok _ _ _ _ _ E2). cbn [negb].
    assert (H3 : exists s3, when u (tryUnify_all heap print_ir (zip ds (rho <$> ds))) s2 = Ok (tt, s3) /\ grows ds s2 s3).
    { destruct u; cbn [when]; [|exists s2; split; [done|apply grows_refl]]. apply tryUnify_all_copy; [by auto|].
      destruct K2 as (_ & HB & _). unfold blocks_ok. by rewrite HB. }
    destruct H3 as (s3 & E3 & G3). exists s3. rewrite (bind_Ok _ _ _ _ _ E3). split; [done|].
    eapply grows_trans; [by apply keeps_grows|done].
  - destruct (equiv_copy cl s) as (s2 & E2 & K2); [apply Hk; by left|]. rewrite (bind_Ok _ _ _ _ _ E2). cbn [negb].
    assert (Hb2 : blocks_ok s2) by (destruct K2 as (_ & HB & _); unfold blocks_ok; by rewrite HB).
    destruct (when_unify_copy u d (d :: cs.*2) s2) as (s3 & E3 & G3); [by left|apply Hr; by left|done|].
    rewrite (bind_Ok _ _ _ _ _ E3). destruct Hc as [Hnd Hint].
    rewrite <-(list_to_map_proper (keyed cs) (reverse (keyed cs)));
      [|by rewrite <-list_fmap_compose|symmetry; apply reverse_Permutation].
    destruct (switch_cases_copy c u (d :: cs.*2) cs s3) as (s4 & E4 & G4); [done|done| |by apply G3|].
    { intros x Hx. assert (x.2 ∈ d :: cs.*2) by (right; apply list_elem_of_fmap; by exists x). auto. }
    rewrite (bind_Ok _ _ _ _ _ E4). cbn [fst snd].
    assert (dense_iter ∅ = []) as ->.
    { apply Permutation_nil_r. by rewrite (dense_iter_perm ∅), map_to_list_empty. }
    exists s4. split; [done|]. eapply grows_trans; [by apply keeps_grows|by eapply grows_trans].
  - exists s. split; [done|apply grows_refl].
  - by apply Hgen.
  - by apply Hgen.
  - by apply Hgen.
Qed.

(** ** Contexts that report nothing *)

Definition with_engine (c : DiffConsumer) (s : fde) : fde :=
  mkFde c (Values s) (Blocks s) (TentativeValues s) (Queue s).
Definition entered (p : pair_ctx) (c : DiffConsumer) : DiffConsumer :=
  mkConsumer (out c) (dbg c) (contexts c ++ [new_DiffContext p]) (Differences c) (u32 (Indent c + 2))
    (IdAssigner c) (DiffIdSet c).
Definition engine_ok (s : fde) : Prop := 0 <= Indent (engine s) < 2 ^ 32.
Lemma exit_entered p c : 0 <= Indent c < 2 ^ 32 -> exitContext (entered p c) = Ok (tt, c).
Proof.
  intros Hi. unfold exitContext. rewrite (bind_Ok (gets contexts) _ _ (contexts (entered p c)) (entered p c)) by done.
  cbn [contexts entered]. rewrite reverse_snoc. cbn [modify]. unfold modify, entered. cbn.
  rewrite reverse_involutive, orb_false_r.
  replace (u32 (u32 (Indent c + 2) - 2)) with (Indent c); [by destruct c|].
  unfold u32, wrap. rewrite Zminus_mod_idemp_l. replace (Indent c + 2 - 2) with (Indent c) by lia.
  by rewrite Z.mod_small.
Qed.
Lemma in_context_silent {X} p (m : M fde X) s x s1 :
  engine_ok s -> m (with_engine (entered p (engine s)) s) = Ok (x, s1) ->
  engine s1 = entered p (engine s) ->
  in_context p m s = Ok (x, with_engine (engine s) s1).
Proof.
  intros Hi Em Ee. unfold in_context.
  rewrite (bind_Ok (lift _) _ s tt (with_engine (entered p (engine s)) s)) by done.
  rewrite (bind_Ok _ _ _ _ _ Em). rewrite (bind_Ok (lift _) _ s1 tt (with_engine (engine s) s1)); [done|].
  unfold lift. by rewrite Ee, exit_entered.
Qed.

(** ** Blocks *)

Variable f : func.
Hypothesis ssa : ssa_func f.
Hypothesis operands_comparable : comparable_operands shared f.
Hypothesis rho_block : forall x, x ∈ b_ptr <$> f_blocks f -> rho x <> 0.

Hypothesis block_ptr_inj : forall b b', b ∈ f_blocks f -> b' ∈ f_blocks f -> b_ptr b = b_ptr b' -> b = b'.

Definition block_succs (b : block) : list Z := i ← b_insts b; successors (i_kind i).
(** What comparing a block with its copy may change. *)
Definition loose (xs : list Z) (s s' : fde) : Prop :=
  engine s' = engine s /\ blocks_ok s' /\
  (forall p, Values s !! p = Some (rho p) -> Values s' !! p = Some (rho p)) /\
  forall pr, pr ∈ Queue s' -> pr ∈ Queue s \/ exists x, x ∈ xs /\ pr = (x, rho x).
Lemma loose_trans xs s1 s2 s3 : loose xs s1 s2 -> loose xs s2 s3 -> loose xs s1 s3.
Proof.
  intros (? & ? & ? & Q1) (? & ? & ? & Q2). split; [congruence|]. split; [done|]. split; [auto|].
  intros pr Hp. destruct (Q2 pr Hp) as [Hp2|]; [by apply Q1|by right].
Qed.
Lemma grows_loose xs ys s s' :
  blocks_ok s -> (forall x, x ∈ xs -> x ∈ ys) -> grows xs s s' -> loose ys s s'.
Proof.
  intros Hb Hxy (? & _ & ? & HB & Q). split; [done|]. split; [auto|]. split; [done|].
  intros pr Hp. destruct (Q pr Hp) as [|(x & Hx & ->)]; [by left|]. right. exists x. auto.
Qed.

(** Arguments, and the instructions of the blocks of [D], have their copies. *)
Definition values_ok (D : gset Z) (s : fde) : Prop :=
  (forall a, a ∈ f_args f -> Values s !! a_ptr a = Some (rho (a_ptr a))) /\
  (forall b j, b ∈ f_blocks f -> b_ptr b ∈ D -> j ∈ b_insts b -> i_used j = true ->
     Values s !! i_ptr j = Some (rho (i_ptr j))).
Lemma values_ok_mono D s s' :
  (forall p, Values s !! p = Some (rho p) -> Values s' !! p = Some (rho p)) -> values_ok D s -> values_ok D s'.
Proof. intros H [H1 H2]. split; [auto|]. intros b j ? ? ? ?. apply H. by eapply H2. Qed.
Definition reached (D : gset Z) (b : block) : Prop :=
  exists l, cfg_path f (l ++ [b_ptr b]) /\ forall y, y ∈ l -> y ∈ D.

(** The operands of an instruction are known when those before it are. *)
Lemma operands_known D b pre i suf s :
  b ∈ f_blocks f -> b_insts b = pre ++ i :: suf -> reached D b -> values_ok D s ->
  (forall j, j ∈ pre -> i_used j = true -> known s (VInst (i_ptr j) OpBr)) ->
  forall v, v ∈ compared i -> known s v.
Proof.
  intros Hb Hi (l & Hp & Hl) [Ha Hv] Hpre v Hin.
  assert (Hk : b_insts b !! length pre = Some i) by (rewrite Hi; by apply list_lookup_middle).
  pose proof (ssa_operands f ssa b (length pre) i v Hb Hk Hin) as Ho.
  assert (Hcmp : comparable shared v = true).
  { eapply operands_comparable; [exact Hb| |exact Hin]. by eapply list_elem_of_lookup_2. }
  destruct v as [p|p o|p|c|k p]; cbn in Ho, Hcmp |- *; try done.
  - apply list_elem_of_fmap in Ho as (a & -> & Hin'). by apply Ha.
  - destruct Ho as (j & <- & Hu & [(k' & Hlt & Hj)|(b' & Hb' & Hj & Hd)]).
    + apply (Hpre j); [|done]. rewrite Hi, lookup_app_l in Hj by done. by eapply list_elem_of_lookup_2.
    + left. eapply Hv; [exact Hb'| |exact Hj|done]. apply Hl. by apply Hd.
Qed.

Lemma inst_facts b pre i suf : b ∈ f_blocks f -> b_insts b = pre ++ i :: suf ->
  cases_ok (i_kind i) /\ (forall x, x ∈ successors (i_kind i) -> rho x <> 0) /\
  (forall x, x ∈ successors (i_kind i) -> x ∈ block_succs b).
Proof.
  intros Hb Hi. assert (Hin : i ∈ b_insts b) by (rewrite Hi; set_solver). split; [by eapply ssa_cases|]. split.
  - intros x Hx. apply rho_block. by eapply ssa_succs.
  - intros x Hx. apply list_elem_of_bind. by exists i.
Qed.

Lemma same_insts_copy D b suf : forall pre s,
  b ∈ f_blocks f -> b_insts b = pre ++ suf -> reached D b -> values_ok D s -> blocks_ok s ->
  (forall j, j ∈ pre -> i_used j = true -> (i_ptr j, rho (i_ptr j)) ∈ TentativeValues s) ->
  exists s', same_insts heap print_ir dense_iter None suf (copy_inst rho shared <$> suf) s = Ok (true, s') /\
    loose (block_succs b) s s'.
Proof.
  induction suf as [|i suf IH]; intros pre s Hb Hi Hr Hv HB Ht.
  { exists s. split; [done|]. split; [done|]. split; [done|]. split; [done|by left]. }
  destruct (inst_facts b pre i suf Hb Hi) as (Hc & Hnz & Hsub).
  destruct (diff_inst_copy i false false s) as (s1 & E1 & G1); [|done|done|done|].
  { eapply operands_known; [done|exact Hi|done|done|]. intros j Hj Hu. right. by apply Ht. }
  cbn [fmap list_fmap same_insts]. rewrite (bind_Ok _ _ _ _ _ E1).
  assert (L1 : loose (block_succs b) s s1) by by eapply grows_loose.
  set (s2 := if i_used i then set_Tentative ({[ (i_ptr i, rho (i_ptr i)) ]} ∪ TentativeValues s1) s1 else s1).
  rewrite (bind_Ok (when _ _) _ s1 tt s2) by (unfold s2; by destruct (i_used i)).
  assert (L2 : loose (block_succs b) s s2) by (unfold s2; by destruct (i_used i)).
  destruct (IH (pre ++ [i]) s2) as (s3 & E3 & L3); [done|by rewrite <-app_assoc|done| | | |].
  - eapply values_ok_mono; [|exact Hv]. apply L2.
  - apply L2.
  - destruct G1 as (_ & HT & _). intros j [Hj|Hj%list_elem_of_singleton]%elem_of_app Hu; unfold s2.
    + assert ((i_ptr j, rho (i_ptr j)) ∈ TentativeValues s1) by (rewrite HT; by apply Ht).
      destruct (i_used i); cbn; set_solver.
    + subst j. rewrite Hu. cbn. set_solver.
  - exists s3. split; [done|by eapply loose_trans].
Qed.

Lemma unify_copy D b pre i suf s :
  b ∈ f_blocks f -> b_insts b = pre ++ i :: suf -> reached D b -> values_ok D s -> blocks_ok s -> engine_ok s ->
  (forall j, j ∈ pre -> i_used j = true -> Values s !! i_ptr j = Some (rho (i_ptr j))) ->
  exists s', unify heap print_ir dense_iter None i (copy_inst rho shared i) s = Ok (tt, s') /\
    loose (block_succs b) s s' /\ TentativeValues s' = TentativeValues s /\
    (i_used i = true -> Values s' !! i_ptr i = Some (rho (i_ptr i))).
Proof.
  intros Hb Hi Hr Hv HB He Hpre. destruct (inst_facts b pre i suf Hb Hi) as (Hc & Hnz & Hsub).
  set (s0 := with_engine (entered (CtxInst i (copy_inst rho shared i)) (engine s)) s).
  destruct (diff_inst_copy i true true s0) as (s1 & E1 & G1); [|done|done|done|].
  { eapply operands_known; [done|exact Hi|done|exact Hv|]. intros j Hj Hu. left. by apply Hpre. }
  assert (L1 : loose (block_succs b) s0 s1) by (eapply grows_loose; [done|exact Hsub|done]).
  destruct G1 as (_ & HT & _). destruct L1 as (Le & LB & LV & LQ).
  set (s2 := if i_used i then set_Values (<[i_ptr i := rho (i_ptr i)]> (Values s1)) s1 else s1).
  assert (Em : (d <- diff_inst heap print_ir dense_iter None i (copy_inst rho shared i) true true ;;
    if d then fail AssertFailed else
    when (i_used i) (modify (fun s => set_Values (<[i_ptr i := i_ptr (copy_inst rho shared i)]> (Values s)) s))) s0
    = Ok (tt, s2)).
  { rewrite (bind_Ok _ _ _ _ _ E1). unfold s2. by destruct (i_used i). }
  assert (Ee : engine s2 = entered (CtxInst i (copy_inst rho shared i)) (engine s)).
  { unfold s2. by destruct (i_used i). }
  exists (with_engine (engine s) s2). split; [by apply (in_context_silent _ _ _ _ _ He Em Ee)|].
  unfold s2. split; [|destruct (i_used i); (split; [done|])]; [|intros _; cbn; by rewrite lookup_insert_eq|done].
  destruct (i_used i); [|by split; [done|split]]. split; [done|]. split; [done|]. split; [|done].
  intros p Hp. cbn. destruct (decide (i_ptr i = p)) as [->|Ne]; [by rewrite lookup_insert_eq|].
  rewrite lookup_insert_ne by done. by apply LV.
Qed.

Lemma unify_all_copy D b suf : forall pre s,
  b ∈ f_blocks f -> b_insts b = pre ++ suf -> reached D b -> values_ok D s -> blocks_ok s -> engine_ok s ->
  (forall j, j ∈ pre -> i_used j = true -> Values s !! i_ptr j = Some (rho (i_ptr j))) ->
  exists s', unify_all heap print_ir dense_iter None suf (copy_inst rho shared <$> suf) s = Ok (tt, s') /\
    loose (block_succs b) s s' /\ TentativeValues s' = TentativeValues s /\
    (forall j, j ∈ pre ++ suf -> i_used j = true -> Values s' !! i_ptr j = Some (rho (i_ptr j))).
Proof.
  induction suf as [|i suf IH]; intros pre s Hb Hi Hr Hv HB He Hpre.
  { exists s. rewrite app_nil_r. split; [done|]. split; [|done]. split; [done|]. split; [done|]. split; [done|by left]. }
  destruct (unify_copy D b pre i suf s) as (s1 & E1 & L1 & T1 & U1); [done..|].
  cbn [fmap list_fmap unify_all]. rewrite (bind_Ok _ _ _ _ _ E1).
  destruct (IH (pre ++ [i]) s1) as (s2 & E2 & L2 & T2 & U2); [done|by rewrite <-app_assoc|done| | | | |].
  - eapply values_ok_mono; [|exact Hv]. apply L1.
  - apply L1.
  - unfold engine_ok. destruct L1 as [-> _]. exact He.
  - intros j [Hj|Hj%list_elem_of_singleton]%elem_of_app Hu; [apply L1; by apply Hpre|subst j; auto].
  - exists s2. rewrite <-app_assoc in U2. split; [done|]. split; [by eapply loose_trans|]. split; [congruence|done].
Qed.

Lemma diff_block_copy D b s :
  b ∈ f_blocks f -> reached D b -> values_ok D s -> blocks_ok s -> engine_ok s -> TentativeValues s = ∅ ->
  exists s', diff_block heap print_ir dense_iter None b (copy_block rho shared b) s = Ok (tt, s') /\
    loose (block_succs b) s s' /\ TentativeValues s' = ∅ /\ values_ok ({[ b_ptr b ]} ∪ D) s'.
Proof.
  intros Hb Hr Hv HB He Ht.
  set (c1 := entered (CtxBlock b (copy_block rho shared b)) (engine s)). set (s0 := with_engine c1 s).
  destruct (same_insts_copy D b (b_insts b) [] s0) as (s1 & E1 & L1); [done|done|done|exact Hv|exact HB|by intros j ?%elem_of_nil|].
  set (s2 := set_Tentative ∅ s1).
  destruct (unify_all_copy D b (b_insts b) [] s2) as (s3 & E3 & L3 & T3 & U3); [done|done|done| | | |by intros j ?%elem_of_nil|].
  { eapply values_ok_mono; [|exact Hv]. apply L1. }
  { apply L1. }
  { unfold engine_ok. cbn. destruct L1 as [-> _]. cbn. unfold u32. apply wrap_range. lia. }
  assert (Em : (match b_insts b with
    | [] => fail AssertFailed
    | _ => same <- same_insts heap print_ir dense_iter None (b_insts b) (b_insts (copy_block rho shared b)) ;;
           modify (set_Tentative ∅) ;;;
           if same then unify_all heap print_ir dense_iter None (b_insts b) (b_insts (copy_block rho shared b))
           else runBlockDiff heap print_ir dense_iter None b (copy_block rho shared b)
    end) s0 = Ok (tt, s3)).
  { pose proof (ssa_blocks f ssa b Hb). cbn [copy_block b_insts].
    destruct (b_insts b) as [|i l] eqn:El; [done|]. rewrite (bind_Ok _ _ _ _ _ E1).
    by rewrite (bind_Ok (modify _) _ s1 tt s2). }
  assert (L : loose (block_succs b) s0 s3) by (eapply loose_trans; [exact L1|exact L3]).
  exists (with_engine (engine s) s3). split; [|split; [|split]].
  - apply (in_context_silent _ _ _ _ _ He Em). by destruct L as [-> _].
  - destruct L as (_ & ? & ? & ?). by split.
  - exact T3.
  - destruct (values_ok_mono D s s3) as [V1 V2]; [apply L|done|]. split; [exact V1|].
    intros b' j Hb' [E%elem_of_singleton|HD]%elem_of_union Hj Hu; [|by eapply V2].
    assert (b' = b) as ->; [|by apply U3]. by apply (block_ptr_inj b' b).
Qed.

(** ** The queue *)

(** Queued pairs are blocks with their copies, each reached through compared
    blocks. *)
Definition queue_ok (D : gset Z) (s : fde) : Prop :=
  forall pr, pr ∈ Queue s -> exists b, b ∈ f_blocks f /\ pr = (b_ptr b, rho (b_ptr b)) /\ reached D b.
Lemma reached_mono D D' b : D ⊆ D' -> reached D b -> reached D' b.
Proof. intros HD (l & Hp & Hl). exists l. split; [done|]. intros y Hy. apply HD. by apply Hl. Qed.
Lemma reached_succ D b x :
  b ∈ f_blocks f -> reached D b -> x ∈ block_succs b ->
  exists b', b' ∈ f_blocks f /\ x = b_ptr b' /\ reached ({[ b_ptr b ]} ∪ D) b'.
Proof.
  intros Hb (l & Hp & Hl) (i & Hx & Hi)%list_elem_of_bind.
  pose proof (ssa_succs f ssa b i x Hb Hi Hx) as Hin. apply list_elem_of_fmap in Hin as (b' & -> & Hb').
  exists b'. split; [done|]. split; [done|]. exists (l ++ [b_ptr b]). split; [by eapply path_step|].
  intros y [Hy|Hy%list_elem_of_singleton]%elem_of_app; [|set_solver]. apply elem_of_union. right. by apply Hl.
Qed.

Hypothesis heap_left : forall b, b ∈ f_blocks f -> find_block heap (b_ptr b) = Some b.
Hypothesis heap_right : forall b, b ∈ f_blocks f -> find_block heap (rho (b_ptr b)) = Some (copy_block rho shared b).

Lemma processQueue_copy fuel : forall D s,
  queue_ok D s -> values_ok D s -> blocks_ok s -> engine_ok s -> TentativeValues s = ∅ ->
  processQueue heap print_ir dense_iter None fuel s = Fault OutOfFuel \/
  exists s', processQueue heap print_ir dense_iter None fuel s = Ok (tt, s') /\ engine s' = engine s.
Proof.
  induction fuel as [|fuel IH]; intros D s HQ Hv HB He Ht; [by left|]. cbn [processQueue].
  rewrite (bind_Ok (gets Queue) _ s (Queue s) s) by done.
  destruct (Queue s) as [|x q] eqn:Eq; [right; by exists s|].
  rewrite (bind_Ok (gets _) _ s s s) by done.
  destruct (remove_min_perm (QueueSorter heap (Blocks s)) x q) as (q' & Eq' & Hp).
  unfold bind at 1 4. rewrite Eq'. cbn [of_res fst snd].
  set (s1 := set_Queue q' s). rewrite (bind_Ok (modify _) _ s tt s1) by done.
  destruct (HQ x) as (b & Hb & -> & Hr); [rewrite Eq; by left|]. cbn [fst snd].
  rewrite (heap_left b Hb), (heap_right b Hb).
  destruct (diff_block_copy D b s1) as (s2 & E2 & L2 & T2 & V2); [done..|].
  rewrite (bind_Ok _ _ _ _ _ E2).
  destruct (IH ({[ b_ptr b ]} ∪ D) s2) as [Hf|(s' & E' & Ee)]; [|done|by apply L2| |done|by left|].
  - intros pr Hpr. destruct L2 as (_ & _ & _ & Q2). destruct (Q2 pr Hpr) as [Hin|(y & Hy & ->)].
    + destruct (HQ pr) as (b' & Hb' & -> & Hr').
      { rewrite Eq. right. rewrite Hp. exact Hin. }
      exists b'. split; [done|]. split; [done|]. eapply reached_mono; [|exact Hr']. set_solver.
    + destruct (reached_succ D b y Hb Hr Hy) as (b' & Hb' & -> & Hr'). by exists b'.
  - unfold engine_ok. destruct L2 as [-> _]. exact He.
  - right. exists s'. split; [done|]. rewrite Ee. by destruct L2 as [-> _].
Qed.
End Identical.

(** ** Functions and modules *)

Section IdenticalModules.
Variable print_ir : value -> string.
Variable dense_iter : gmap Z (constant * Z) -> list (constant * Z).
Hypothesis dense_iter_perm : forall m, dense_iter m ≡ₚ (map_to_list m).*2.
Variable rho : Z -> Z.
Variable shared : Z -> bool.
Variable lm : modul.

(** Both modules, and what makes them well formed. *)
Definition rm : modul := copy_func rho shared <$> lm.
Definition both : modul := lm ++ rm.
Record copies_ok : Prop := {
  ok_ssa : forall f, f ∈ lm -> ssa_func f;
  ok_names : NoDup (f_name <$> lm);
  ok_blocks : NoDup (b_ptr <$> module_blocks both);
  ok_void : void_ok both;
  ok_succs : succs_ok both }.
Hypothesis ok : copies_ok.
Hypothesis comparable_lm : forall f, f ∈ lm -> comparable_operands shared f.

Lemma left_both f : f ∈ lm -> f ∈ both.
Proof. intros. apply elem_of_app. by left. Qed.
Lemma right_both f : f ∈ lm -> copy_func rho shared f ∈ both.
Proof. intros. apply elem_of_app. right. apply list_elem_of_fmap. by exists f. Qed.
Lemma block_both f b : f ∈ both -> b ∈ f_blocks f -> b ∈ module_blocks both.
Proof. intros. apply list_elem_of_bind. by exists f. Qed.
Lemma block_inj b b' : b ∈ module_blocks both -> b' ∈ module_blocks both -> b_ptr b = b_ptr b' -> b = b'.
Proof.
  intros (i & Hi)%list_elem_of_lookup_1 (j & Hj)%list_elem_of_lookup_1 E.
  assert (i = j) as ->; [|congruence]. eapply (NoDup_lookup (b_ptr <$> module_blocks both)); [apply ok| |].
  - by rewrite list_lookup_fmap, Hi.
  - by rewrite list_lookup_fmap, Hj, E.
Qed.
Lemma find_block_both b : b ∈ module_blocks both -> find_block both (b_ptr b) = Some b.
Proof.
  intros Hb. unfold find_block. change (f ← both; f_blocks f) with (module_blocks both).
  destruct (list_find_elem_of (fun x => b_ptr x = b_ptr b) (module_blocks both) b) as [[k x] E]; [done|done|].
  rewrite E. cbn. f_equal. apply list_find_Some in E as (Hk & Hp & _).
  apply block_inj; [by eapply list_elem_of_lookup_2|done|done].
Qed.
Lemma block_nonzero b : b ∈ module_blocks both -> b_ptr b <> 0.
Proof.
  intros Hb E. destruct (ok_succs ok) as [_ H0]. apply H0. rewrite <-E.
  apply elem_of_list_to_set, list_elem_of_fmap. by exists b.
Qed.
Lemma copy_block_both f b : f ∈ lm -> b ∈ f_blocks f -> copy_block rho shared b ∈ module_blocks both.
Proof.
  intros Hf Hb. apply (block_both (copy_func rho shared f)); [by apply right_both|].
  apply list_elem_of_fmap. by exists b.
Qed.

Lemma args_values args : forall v : gmap Z Z,
  (forall p q, v !! p = Some q -> q = rho p) ->
  let v' := foldl (fun v a => <[a_ptr a.1 := a_ptr a.2]> v) v
              (zip args ((fun a => mkArg (rho (a_ptr a)) (a_name a)) <$> args)) in
  (forall p q, v' !! p = Some q -> q = rho p) /\
  (forall p, p ∈ dom v -> p ∈ dom v') /\ forall a, a ∈ args -> a_ptr a ∈ dom v'.
Proof.
  induction args as [|a args IH]; intros v Hv; [split; [done|]; split; [done|]; by intros a ?%elem_of_nil|].
  cbn. destruct (IH (<[a_ptr a := rho (a_ptr a)]> v)) as (H1 & H2 & H3).
  { intros p q. rewrite lookup_insert_Some. intros [[<- <-]|[_ Hp]]; [done|by apply Hv]. }
  split; [exact H1|]. split; [intros p Hp; apply H2; set_solver|].
  intros x [->|Hx]%elem_of_cons; [apply H2; set_solver|by apply H3].
Qed.

Lemma diff_functions_copy f c : f ∈ lm -> f_blocks f <> [] -> 0 <= Indent c < 2 ^ 32 ->
  exists s, diff_functions both print_ir dense_iter None f (copy_func rho shared f) (mkFde c ∅ ∅ ∅ []) = Ok (tt, s) /\
    engine s = c.
Proof.
  intros Hf Hne Hc.
  pose proof (diff_functions_finishes both print_ir dense_iter None (ok_void ok) (ok_succs ok) f (copy_func rho shared f) c
    (left_both f Hf) (right_both f Hf)) as Hfin. revert Hfin. unfold diff_functions.
  cbn [copy_func f_args f_blocks]. rewrite length_fmap, Nat.eqb_refl. cbn [negb when].
  set (s0 := mkFde c ∅ ∅ ∅ []). rewrite (bind_Ok (ret tt) _ s0 tt s0) by done.
  match goal with |- context [bind (modify ?g) _] => set (s1 := g s0); rewrite (bind_Ok (modify g) _ s0 tt s1) by done end.
  destruct (args_values (f_args f) ∅) as (Hv1 & _ & Hv3); [by intros p q; rewrite lookup_empty|].
  destruct (f_blocks f) as [|b bs] eqn:Eb; [done|]. cbn [fmap list_fmap].
  assert (Hb : b ∈ f_blocks f) by (rewrite Eb; by left).
  assert (Hz : forall x, x ∈ b_ptr <$> f_blocks f -> rho x <> 0).
  { intros x (y & -> & Hy)%list_elem_of_fmap. apply (block_nonzero (copy_block rho shared y)). by eapply copy_block_both. }
  assert (HB : blocks_ok rho s1) by (intros x q; cbn; by rewrite lookup_empty).
  destruct (tryUnify_copy both print_ir rho (b_ptr b) [b_ptr b] s1) as (s2 & E2 & G2);
    [by left|apply Hz, list_elem_of_fmap; by exists b|done|].
  cbn [copy_block b_ptr]. rewrite (bind_Ok _ _ _ _ _ E2). destruct G2 as (Ee & HT & HV & HB2 & HQ).
  destruct (processQueue_copy both print_ir dense_iter dense_iter_perm rho shared f (ok_ssa ok f Hf) (comparable_lm f Hf)) with
    (fuel := queue_fuel both) (D := ∅ : gset Z) (s := s2) as [->|(s3 & -> & E3)]; try done.
  - intros x y Hx Hy. apply block_inj; (apply (block_both f); [by apply left_both|done]).
  - intros x Hx. apply find_block_both. apply (block_both f); [by apply left_both|done].
  - intros x Hx. apply (find_block_both (copy_block rho shared x)). by eapply copy_block_both.
  - intros pr Hpr. destruct (HQ pr Hpr) as [Hin|(x & Hx & ->)]; [by apply elem_of_nil in Hin|].
    apply list_elem_of_singleton in Hx as ->. exists b. split; [done|]. split; [done|].
    exists []. split; [by eapply path_entry|]. by intros y ?%elem_of_nil.
  - split; [|set_solver]. intros a Ha. apply HV. specialize (Hv3 a Ha). apply elem_of_dom in Hv3 as [q Hq].
    cbn. by rewrite Hq, (Hv1 _ _ Hq).
  - by apply HB2.
  - unfold engine_ok. by rewrite Ee.
  - exists s3. split; [done|]. by rewrite E3, Ee.
Qed.

Lemma diff_function_copy f c : f ∈ lm -> 0 <= Indent c < 2 ^ 32 ->
  diff_function both print_ir dense_iter None f (copy_func rho shared f) c = Ok (tt, c).
Proof.
  intros Hf Hc. unfold diff_function. set (c1 := entered (CtxFunction f (copy_func rho shared f)) c).
  rewrite (bind_Ok (enterContext _) _ c tt c1) by done.
  assert (Hx : exitContext c1 = Ok (tt, c)) by by apply exit_entered.
  pose proof (diff_functions_copy f c1 Hf) as Hd.
  destruct (f_blocks f) as [|b bs] eqn:Eb.
  - cbn [copy_func f_blocks]. rewrite Eb. cbn [fmap list_fmap]. by rewrite (bind_Ok (ret tt) _ c1 tt c1).
  - destruct Hd as (s & E & Ee); [done|cbn; unfold u32; apply wrap_range; lia|].
    assert (Er : f_blocks (copy_func rho shared f) = copy_block rho shared b :: (copy_block rho shared <$> bs)) by (cbn; by rewrite Eb).
    rewrite Er. match goal with |- bind ?m _ _ = _ => assert (Em : m c1 = Ok (tt, c1)) end.
    { cbv beta. by rewrite E, Ee. }
    by rewrite (bind_Ok _ _ _ _ _ Em).
Qed.

Lemma identical_modules_silent c : 0 <= Indent c < 2 ^ 32 ->
  diff_module both print_ir dense_iter None lm rm c = Ok (tt, c).
Proof.
  intros Hc.
  assert (Hget : forall f, f ∈ lm -> getFunction rm (f_name f) = Some (copy_func rho shared f)).
  { intros f Hf. unfold getFunction.
    destruct (list_find_elem_of (fun g => f_name g = f_name f) rm (copy_func rho shared f)) as [[k g] E];
      [apply list_elem_of_fmap; by exists f|done|].
    rewrite E. cbn. f_equal. apply list_find_Some in E as (Hk & Hn & _). apply list_elem_of_lookup_2 in Hk.
    apply list_elem_of_fmap in Hk as (h & -> & Hh). f_equal. cbn in Hn.
    apply list_elem_of_lookup_1 in Hh as [i Hi], Hf as [j Hj].
    assert (i = j) as ->; [|congruence]. eapply (NoDup_lookup (f_name <$> lm)); [apply ok| |].
    - by rewrite list_lookup_fmap, Hi.
    - by rewrite list_lookup_fmap, Hj, Hn. }
  assert (Hl : forall l, (forall f, f ∈ l -> f ∈ lm) ->
    left_functions both print_ir l rm c = Ok ((fun f => (f, copy_func rho shared f)) <$> l, c)).
  { induction l as [|f l IH]; intros Hin; [done|]. cbn [left_functions]. rewrite Hget by (apply Hin; by left).
    rewrite (bind_Ok _ _ _ _ _ (IH ltac:(intros; apply Hin; by right))). done. }
  assert (Hr : forall l, (forall f, f ∈ l -> f_name f ∈ f_name <$> lm) ->
    right_functions both print_ir l (f_name <$> lm) c = Ok (tt, c)).
  { induction l as [|f l IH]; intros Hin; [done|]. cbn [right_functions].
    rewrite bool_decide_true by (apply Hin; by left). cbn [negb when].
    rewrite (bind_Ok (ret tt) _ c tt c) by done. apply IH. intros g Hg. apply Hin. by right. }
  assert (Hq : forall l, (forall f, f ∈ l -> f ∈ lm) ->
    diff_queue both print_ir dense_iter None ((fun f => (f, copy_func rho shared f)) <$> l) c = Ok (tt, c)).
  { induction l as [|f l IH]; intros Hin; [done|]. cbn [fmap list_fmap diff_queue].
    rewrite (bind_Ok _ _ _ _ _ (diff_function_copy f c (Hin f ltac:(by left)) Hc)).
    apply IH. intros g Hg. apply Hin. by right. }
  unfold diff_module. rewrite (bind_Ok _ _ _ _ _ (Hl lm ltac:(done))).
  rewrite (bind_Ok (right_functions _ _ _ _) _ c tt c); [by apply Hq|]. apply Hr.
  intros f (g & -> & Hg)%list_elem_of_fmap. apply list_elem_of_fmap. by exists g.
Qed.

(** A program read twice has no differences.  For every module in SSA form
    and a copy of it at other addresses, the engine runs to its end without
    failing an assertion and leaves the consumer exactly as it was: nothing is
    printed, no block identifier is collected, no difference is reported.  This
    needs that no instruction the engine compares has among its operands a block, the address
    of a block, or an array, structure or other aggregate that is not shared by both modules,
    as one that holds the address of a global value is not. *)
Theorem identical_modules_no_differences c : 0 <= Indent c < 2 ^ 32 ->
  diff_module both print_ir dense_iter None lm rm c = Ok (tt, c).
Proof. apply identical_modules_silent. Qed.
End IdenticalModules.

(** ** A concrete program and its copy *)

(** Executable checks of the two conditions on a module. *)
Definition void_check (heap : modul) : bool :=
  forallb (fun i => match printed_operand (i_kind i) with Some w => negb (value_void heap w) | None => true end)
    (module_insts heap).
Lemma void_check_ok heap : void_check heap = true -> void_ok heap.
Proof.
  unfold void_check. rewrite forallb_forall. intros H i w Hi Hw. apply list_elem_of_In in Hi.
  specialize (H i Hi). rewrite Hw in H. by destruct (value_void heap w).
Qed.
Definition succs_check (heap : modul) : bool :=
  forallb (fun i => forallb (fun s => bool_decide (s ∈ all_blocks heap)) (successors (i_kind i))) (module_insts heap) &&
  bool_decide (0 ∉ all_blocks heap).
Lemma succs_check_ok heap : succs_check heap = true -> succs_ok heap.
Proof.
  unfold succs_check. intros [H H0]%andb_true_iff. apply bool_decide_eq_true in H0. split; [|done].
  rewrite forallb_forall in H. intros i s Hi Hs. apply list_elem_of_In in Hi. specialize (H i Hi).
  rewrite forallb_forall in H. apply list_elem_of_In in Hs. specialize (H s Hs). by apply bool_decide_eq_true in H.
Qed.

(** The entry block dominates every other block. *)
Lemma entry_dominates f b bs x : f_blocks f = b :: bs -> x <> b_ptr b -> dominates f (b_ptr b) x.
Proof.
  intros Hb Hx l Hp. assert (H : forall l, cfg_path f l -> head l = Some (b_ptr b)).
  { induction 1 as [b' bs' Hb'|l' b' i y Hp' IH _ _ _]; [rewrite Hb in Hb'; by injection Hb' as -> _|]. by destruct l'. }
  apply H in Hp. destruct l as [|y l]; cbn in Hp; injection Hp as Hp; [done|]. rewrite Hp. by left.
Qed.

Module ExIdentical.
(** [c = x < 1; if (c) { y = x + 1 }; use c] *)
Definition one : value := VConst (CInt 500 1).
Definition cmp : inst := mkInst 21 "" false 1 false (KCmp false 40) [VArgument 3; one] true 10 None.
Definition br : inst := mkInst 22 "" true 0 false (KBr (Some (VInst 21 OpICmp, 12)) 11) [VInst 21 OpICmp] false 10 None.
Definition add : inst := mkInst 23 "" false 7 false (KOther 13) [VArgument 3; one] false 11 None.
Definition jmp : inst := mkInst 24 "" true 0 false (KBr None 12) [] false 11 None.
Definition use_ : inst := mkInst 25 "" true 0 false (KOther 20) [VInst 21 OpICmp] false 12 None.
Definition ret_ : inst := mkInst 26 "" true 0 false (KOther 1) [] false 12 None.
Definition f : func :=
  mkFunc 1 "f" [mkArg 3 ""] [mkBlock 10 "" [cmp; br]; mkBlock 11 "" [add; jmp]; mkBlock 12 "" [use_; ret_]].
Definition md : modul := [f].
Definition shift (p : Z) : Z := p + 1000.
(** Nothing in the program is shared by the two modules, but integers. *)
Definition shared (p : Z) : bool := false.
Definition order (m : gmap Z (constant * Z)) : list (constant * Z) := (map_to_list m).*2.
Definition pr (v : value) : string := "?".

Lemma f_ssa : ssa_func f.
Proof.
  split.
  - intros b Hb. by repeat (apply elem_of_cons in Hb as [->|Hb]; [done|]); apply elem_of_nil in Hb.
  - assert (Hc : forall o, ssa_operand f (mkBlock 12 "" [use_; ret_]) 0 (VInst 21 o)).
    { intros o. exists cmp. split; [done|]. split; [done|]. right. exists (mkBlock 10 "" [cmp; br]).
      split; [by left|]. split; [by left|]. by eapply entry_dominates. }
    intros b k i v Hb Hk Hv. cbn in Hb.
    repeat (apply elem_of_cons in Hb as [->|Hb]; [|]); [| | |by apply elem_of_nil in Hb];
      (destruct k as [|[|k]]; [| |done]); injection Hk as <-; cbn in Hv;
      repeat (apply elem_of_cons in Hv as [->|Hv]); try by apply elem_of_nil in Hv.
    all: try (by apply list_elem_of_singleton); try done; try (by apply Hc).
    exists cmp. split; [done|]. split; [done|]. left. exists 0%nat. split; [lia|done].
  - intros b i Hb Hi. by repeat (apply elem_of_cons in Hb as [->|Hb]; [by repeat (apply elem_of_cons in Hi as [->|Hi]; [done|]); apply elem_of_nil in Hi|]); apply elem_of_nil in Hb.
  - intros b i x Hb Hi Hx.
    repeat (apply elem_of_cons in Hb as [->|Hb]); [..|by apply elem_of_nil in Hb];
      (repeat (apply elem_of_cons in Hi as [->|Hi]); [..|by apply elem_of_nil in Hi]); cbn in Hx; set_solver.
Qed.
Lemma md_ok : copies_ok shift shared md.
Proof.
  split.
  - intros g [->|?%elem_of_nil]%elem_of_cons; [exact f_ssa|done].
  - apply (bool_decide_unpack _). vm_compute. exact I.
  - apply (bool_decide_unpack _). vm_compute. exact I.
  - apply void_check_ok. vm_compute. reflexivity.
  - apply succs_check_ok. vm_compute. reflexivity.
Qed.

Lemma md_comparable g : g ∈ md -> comparable_operands shared g.
Proof.
  intros [->|?%elem_of_nil]%elem_of_cons b i v Hb Hi Hv; [|done].
  repeat (apply elem_of_cons in Hb as [->|Hb]); [..|by apply elem_of_nil in Hb];
    (repeat (apply elem_of_cons in Hi as [->|Hi]); [..|by apply elem_of_nil in Hi]); cbn in Hv;
    repeat (apply elem_of_cons in Hv as [->|Hv]); try done; by apply elem_of_nil in Hv.
Qed.

Lemma identical_modules_no_differences_witness :
  copies_ok shift shared md /\
  diff_module (both shift shared md) pr order None md (rm shift shared md) (consumer0 ids0) = Ok (tt, consumer0 ids0).
Proof.
  split; [exact md_ok|].
  apply (identical_modules_no_differences pr order (fun m => reflexivity _) shift shared md md_ok md_comparable (consumer0 ids0)).
  cbn. lia.
Defined.

Lemma diff_module_terminates_witness :
  void_ok (both shift shared md) /\ succs_ok (both shift shared md) /\
  diff_module (both shift shared md) pr order None md (rm shift shared md) (consumer0 ids0) <> Fault OutOfFuel.
Proof.
  split; [exact (ok_void _ _ _ md_ok)|]. split; [exact (ok_succs _ _ _ md_ok)|].
  apply (diff_module_terminates (both shift shared md) pr order None (ok_void _ _ _ md_ok) (ok_succs _ _ _ md_ok)).
  - intros g Hg. apply elem_of_app. by left.
  - intros g Hg. apply elem_of_app. by right.
Defined.

(** What the engine cannot compare: [f(x) { store v, x; goto l; l: return }] with the address of
    the block [l], not met before, and with a structure that holds the address of [f], an
    object of its own in each module.  Both programs differ from themselves. *)
Definition stores (v : value) : func :=
  mkFunc 1 "f" [mkArg 3 ""]
    [mkBlock 10 "" [mkInst 21 "" true 0 false (KStore v (VArgument 3)) [v; VArgument 3] false 10 None;
                    mkInst 22 "" true 0 false (KBr None 11) [] false 10 None];
     mkBlock 11 "" [mkInst 23 "" true 0 false (KOther 1) [] false 11 None]].
Definition reports (v : value) : option bool :=
  match diff_module (both shift shared [stores v]) pr order None [stores v] (rm shift shared [stores v]) (consumer0 ids0) with
  | Ok (_, c) => Some (hadDifferences c)
  | Fault _ => None
  end.
Example block_address_differs : reports (VConst (CBlockAddress 600 11)) = Some true.
Proof. vm_compute. reflexivity. Qed.
Example aggregate_differs : reports (VConst (CData 0 601)) = Some true.
Proof. vm_compute. reflexivity. Qed.
Example global_same : reports (VConst (CGlobal 0 602 "g")) = Some false.
Proof. vm_compute. reflexivity. Qed.
End ExIdentical.
