(* ===== verification/LlvmDiff.v ===== *)
(** * The command-line driver

    [tools/llvm-diff-parmesan/llvm-diff.cpp]: read two modules, number the left
    one, compare, print the statistics and write the targets. *)

From S2P Require Import Prelude Ir IDAssigner DiffConsumer DiffEngine DiffIdentical.

Local Open Scope Z_scope.

(** The command line; [follow] and [targets_file] are options of the pass, the
    latter being the lines of the file if it was given and could be opened. *)
Record options := mkOptions {
  GlobalsToCompare : list string;
  EmitJson : bool;
  follow : bool;
  targets_file : option (list string);
}.

Section Driver.
Variable print_ir : value -> string.
Variable dense_iter : gmap Z (constant * Z) -> list (constant * Z).
Variable uninit : Z.

Definition drop_sigil (name : string) : string :=
  match name with
  | String a rest => if String.eqb (String a EmptyString) "@" then rest else name
  | EmptyString => EmptyString
  end.
Definition diffGlobal (heap L R : modul) (name : string) : M DiffConsumer unit :=
  let name := drop_sigil name in
  match getFunction L name, getFunction R name with
  | Some l, Some r => diff_function heap print_ir dense_iter None l r
  | None, None => emit ("No function named @" +:+ name +:+ " in either module" +:+ nl)
  | None, Some _ => emit ("No function named @" +:+ name +:+ " in left module" +:+ nl)
  | Some _, None => emit ("No function named @" +:+ name +:+ " in right module" +:+ nl)
  end.
Fixpoint diffGlobals (heap L R : modul) (names : list string) : M DiffConsumer unit :=
  match names with
  | [] => ret tt
  | n :: names => diffGlobal heap L R n ;;; diffGlobals heap L R names
  end.

(** The pass runs on the left module, which it may change; its result holds the
    maps. *)
Definition collectIds (o : options) (L : modul) : res (modul * ids) :=
  runOnModule (follow o) uninit (targets_file o) L ids0.

(** The exit code, what the consumer printed, and the contents of
    [targets.json]; [None] modules are those that could not be parsed. *)
Definition main (o : options) (lfile rfile : option modul) : res (Z * DiffConsumer * option string) :=
  match lfile, rfile with
  | Some L, Some R =>
      res_bind (collectIds o L) (fun '(L, a) =>
      let heap := L ++ R in
      res_bind ((setIdAssigner a ;;;
                 (if bool_decide (GlobalsToCompare o = [])
                  then diff_module heap print_ir dense_iter None L R
                  else diffGlobals heap L R (GlobalsToCompare o)) ;;;
                 printStats ;;;
                 if EmitJson o then json <- printStatsJson ;; ret (Some json) else ret None)
                new_DiffConsumer) (fun '(json, c) =>
      Ok ((if hadDifferences c then 1 else 0), c, json)))
  | _, _ => Ok (1, new_DiffConsumer, None)
  end.
End Driver.

(** ** Two readings of one program *)

Section SameFile.
Variable print_ir : value -> string.
Variable dense_iter : gmap Z (constant * Z) -> list (constant * Z).
Hypothesis dense_iter_perm : forall m, dense_iter m ≡ₚ (map_to_list m).*2.
Variable uninit : Z.
Variable rho : Z -> Z.
Variable shared : Z -> bool.

(** The pass leaves the module alone without a file of custom targets. *)
Lemma collectIds_ok o L : targets_file o = None -> wf_module L ->
  exists a, collectIds uninit o L = Ok (L, a).
Proof.
  intros Ht wf. destruct (pass_functions_inv L wf (follow o) uninit L [] ∅ ids0) as (w & s & E & _);
    [done|by apply pass_inv_start|].
  exists s. unfold collectIds, runOnModule. rewrite (bind_Ok _ _ _ tt ids0) by done.
  rewrite (bind_Ok _ _ _ _ _ E). by rewrite Ht.
Qed.

(** C30: comparing a program with itself.  For a well-formed program in SSA form,
    [llvm-diff] on two readings of it, without names of functions or a file of targets
    and with [targets.json] asked for, exits with status zero, reports no
    difference and writes a [targets.json] without any target, if no compared
    operand in it is a block, the address of a block, or an array, structure or other
    aggregate that the two readings do not share.  An aggregate that holds the address of a
    global value is not shared, and [ExIdentical.aggregate_differs] and
    [ExIdentical.block_address_differs] show that programs with such operands differ
    from themselves. *)
Theorem self_diff_no_targets o L :
  GlobalsToCompare o = [] -> EmitJson o = true -> targets_file o = None ->
  wf_module L -> copies_ok rho shared L -> (forall f, f ∈ L -> comparable_operands shared f) ->
  exists a c, main print_ir dense_iter uninit o (Some L) (Some (rm rho shared L)) = Ok (0, c, Some (json_text a ∅)) /\
    DiffIdSet c = ∅ /\ sorted (diff_cmps a ∅) = [].
Proof.
  intros Hg Hj Ht wf ok Hcmp. destruct (collectIds_ok o L Ht wf) as [a Ea].
  unfold main. rewrite Ea. cbn [res_bind]. change (L ++ rm rho shared L) with (both rho shared L).
  rewrite (bind_Ok (setIdAssigner a) _ _ tt (consumer0 a)) by done.
  rewrite bool_decide_true by done.
  rewrite (bind_Ok _ _ _ _ _ (identical_modules_silent print_ir dense_iter dense_iter_perm rho shared L ok Hcmp (consumer0 a) ltac:(cbn; lia))).
  rewrite Hj. eexists a, _. split; [reflexivity|]. split; [reflexivity|].
  assert (diff_cmps a ∅ = ∅) as ->; [|done]. apply set_eq. intros x. rewrite diff_cmps_spec. set_solver.
Qed.
End SameFile.

Module ExDriver.
Import ExIdentical.
Definition opts : options := mkOptions [] true false None.
Lemma driver_md_wf : wf_module md.
Proof.
  split.
  - apply (bool_decide_unpack _). vm_compute. exact I.
  - vm_compute. reflexivity.
  - intros i Hi. apply list_elem_of_lookup_1 in Hi as [k Hk].
    do 6 (destruct k as [|k]; [vm_compute in Hk; injection Hk as <-; eexists; vm_compute; reflexivity|]).
    vm_compute in Hk. done.
  - intros g b s [->|?%elem_of_nil]%elem_of_cons Hb Hs; [|done].
    apply list_elem_of_lookup_1 in Hb as [k Hk].
    do 3 (destruct k as [|k]; [vm_compute in Hk; injection Hk as <-; vm_compute in Hs; set_solver|]).
    vm_compute in Hk. done.
Qed.
Lemma self_diff_no_targets_witness :
  wf_module md /\ copies_ok shift shared md /\
  exists a c, main pr order 0 opts (Some md) (Some (rm shift shared md)) = Ok (0, c, Some (json_text a ∅)).
Proof.
  split; [exact driver_md_wf|]. split; [exact md_ok|].
  destruct (self_diff_no_targets pr order (fun m => reflexivity _) 0 shift shared opts md eq_refl eq_refl eq_refl driver_md_wf md_ok md_comparable)
    as (a & c & E & _). exists a, c. exact E.
Defined.
(** A program with a changed comparison has a target. *)
Definition cmp' : inst := mkInst 21 "" false 1 false (KCmp false 41) [VArgument 3; one] true 10 None.
Definition traced (c : inst) : func :=
  mkFunc 1 "f" [mkArg 3 ""] [mkBlock 10 "" [ExModule.trace 20 5; c; ret_]].
Example changed_predicate_is_target :
  match main pr order 0 opts (Some [traced cmp]) (Some [copy_func shift shared (traced cmp')]) with
  | Ok (code, c, _) => code = 1 /\ DiffIdSet c = {[ 3 ]}
  | Fault _ => False
  end.
Proof. vm_compute. split; reflexivity. Qed.
End ExDriver.
