(* ===== verification/PassIr.v ===== *)
(** * The representation of programs that the instrumentation pass rewrites

    The pass of [llvm_mode/pass/AngoraPass.cc] changes functions through LLVM's
    [IRBuilder].  This file has the part of LLVM that it uses: typed operands,
    instructions and blocks with an identity, the builder (which folds constants,
    checks its casts and inserts before an instruction), the splitting of a block,
    and an interpreter for the code the pass emits.  The pass itself is in
    AngoraPass.v. *)

From S2P Require Import Prelude.
Local Open Scope Z_scope.

(** ** Types and operands *)

Inductive ty :=
| TVoid
| TInt (w : Z)
| TFloat
| TDouble
| TPtr
| TOther (scalar_bits : Z).   (* vectors, structs, labels, ... *)

#[export] Instance ty_eq_dec : EqDecision ty.
Proof. solve_decision. Defined.

Definition isIntegerTy (t : ty) : bool := match t with TInt _ => true | _ => false end.
Definition isPointerTy (t : ty) : bool := match t with TPtr => true | _ => false end.
Definition isFloatTy (t : ty) : bool := match t with TFloat => true | _ => false end.
Definition isDoubleTy (t : ty) : bool := match t with TDouble => true | _ => false end.
Definition getIntegerBitWidth (t : ty) : Z := match t with TInt w => w | _ => 0 end.
(** [Type::getScalarSizeInBits]: zero for pointers. *)
Definition getScalarSizeInBits (t : ty) : Z :=
  match t with
  | TInt w => w | TFloat => 32 | TDouble => 64 | TOther n => n | TVoid | TPtr => 0
  end.

Inductive castop := CZExt | CFPToUI | CPtrToInt | CBitCast.

Inductive operand :=
| OReg (p : Z) (t : ty) (cmp : bool)   (* the instruction p; [cmp]: it is a CmpInst *)
| OArg (p : Z) (t : ty)                (* a parameter of the function *)
| OInt (w z : Z)                       (* ConstantInt *)
| OConst (k : Z) (t : ty)              (* another constant *)
| OCast (c : castop) (o : operand) (t : ty)  (* a constant expression *)
| OGlobal (n : string)                 (* the address of a global variable *)
| OArray (p : Z)                       (* the address of the global array p *)
| OFun (n : string)                    (* a function *)
| OAsm                                 (* inline assembler *)
| OBlock (b : Z).

Definition getType (o : operand) : ty :=
  match o with
  | OReg _ t _ | OArg _ t | OConst _ t | OCast _ _ t => t
  | OInt w _ => TInt w
  | OGlobal _ | OArray _ | OFun _ | OAsm => TPtr
  | OBlock _ => TOther 0
  end.
Definition isConstant (o : operand) : bool :=
  match o with
  | OInt _ _ | OConst _ _ | OCast _ _ _ | OGlobal _ | OArray _ | OFun _ => true
  | _ => false
  end.
Definition isConstantInt (o : operand) : bool :=
  match o with OInt _ _ => true | _ => false end.

(** ** Instructions, blocks, functions *)

Inductive binop := BAdd | BXor | BLShr.

Inductive ikind :=
| KLoad (p : operand)
| KStore (v p : operand)
| KBin (b : binop) (x y : operand)
| KCmp (pred : Z) (x y : operand)
| KCast (c : castop) (x : operand)
| KGEP (base idx : operand)
| KCall (callee : operand) (args : list operand)
| KInvoke (callee : operand) (args : list operand) (normal unwind : Z)
| KBr (b : Z)
| KCondBr (c : operand) (t f : Z)
| KSwitch (c : operand) (default : Z) (cases : list (operand * Z))
| KRet (ops : list operand)
| KResume (op : operand)
| KPhi (incoming : list (operand * Z))
| KEHPad
| KOther (opcode : string) (ops : list operand).

Record inst := mkInst {
  i_id : Z;               (* the address of the instruction *)
  i_kind : ikind;
  i_ty : ty;
  i_nosan : bool;         (* it has the metadata nosanitize *)
  i_loc : option (string * Z * Z)  (* file, line and column of its DILocation *)
}.
Record block := mkBlock { b_id : Z; b_insts : list inst }.
Record func := mkFunc { f_name : string; f_blocks : list block }.

Definition isCmpInst (k : ikind) : bool := match k with KCmp _ _ _ => true | _ => false end.
Definition isCallInst (k : ikind) : bool := match k with KCall _ _ => true | _ => false end.
Definition isInvokeInst (k : ikind) : bool :=
  match k with KInvoke _ _ _ _ => true | _ => false end.
Definition isBranchInst (k : ikind) : bool :=
  match k with KBr _ | KCondBr _ _ _ => true | _ => false end.
Definition isSwitchInst (k : ikind) : bool :=
  match k with KSwitch _ _ _ => true | _ => false end.
Definition isReturnInst (k : ikind) : bool := match k with KRet _ => true | _ => false end.
Definition isResumeInst (k : ikind) : bool := match k with KResume _ => true | _ => false end.

Definition getOperands (k : ikind) : list operand :=
  match k with
  | KLoad p => [p]
  | KStore v p => [v; p]
  | KBin _ x y | KCmp _ x y | KGEP x y => [x; y]
  | KCast _ x => [x]
  | KCall c args => args ++ [c]
  | KInvoke c args n u => args ++ [OBlock n; OBlock u; c]
  | KBr b => [OBlock b]
  | KCondBr c t f => [c; OBlock f; OBlock t]
  | KSwitch c d cs => [c; OBlock d] ++ (x ← cs; [x.1; OBlock x.2])
  | KRet ops => ops
  | KResume op => [op]
  | KPhi inc => inc.*1
  | KEHPad => []
  | KOther _ ops => ops
  end.
Definition getOpcodeName (k : ikind) : string :=
  match k with
  | KLoad _ => "load" | KStore _ _ => "store"
  | KBin BAdd _ _ => "add" | KBin BXor _ _ => "xor" | KBin BLShr _ _ => "lshr"
  | KCmp p _ _ => if (p <? 32)%Z then "fcmp" else "icmp"
  | KCast CZExt _ => "zext" | KCast CFPToUI _ => "fptoui"
  | KCast CPtrToInt _ => "ptrtoint" | KCast CBitCast _ => "bitcast"
  | KGEP _ _ => "getelementptr" | KCall _ _ => "call" | KInvoke _ _ _ _ => "invoke"
  | KBr _ | KCondBr _ _ _ => "br" | KSwitch _ _ _ => "switch" | KRet _ => "ret"
  | KResume _ => "resume" | KPhi _ => "phi" | KEHPad => "landingpad" | KOther o _ => o
  end%string.
Definition getCalledFunction (callee : operand) : option string :=
  match callee with OFun n => Some n | _ => None end.
Definition isInlineAsm (callee : operand) : bool :=
  match callee with OAsm => true | _ => false end.
(** [Function::isIntrinsic]. *)
Definition isIntrinsic (name : string) : bool := String.prefix "llvm." name.

(** The instruction as a value, for its users. *)
Definition inst_value (i : inst) : operand := OReg (i_id i) (i_ty i) (isCmpInst (i_kind i)).

(** [BasicBlock::getFirstInsertionPt]: past the phis and one pad. *)
Fixpoint skip_phis (l : list inst) : list inst :=
  match l with
  | i :: r => match i_kind i with KPhi _ => skip_phis r | _ => l end
  | [] => []
  end.
Definition getFirstInsertionPt (b : block) : option inst :=
  match skip_phis (b_insts b) with
  | i :: r => match i_kind i with KEHPad => head r | _ => Some i end
  | [] => None
  end.
Definition getTerminator (b : block) : option inst := list.last (b_insts b).

Definition block_insts (bs : list block) : list inst := b ← bs; b_insts b.
Definition find_inst (bs : list block) (p : Z) : option inst :=
  head (filter (fun i => i_id i = p) (block_insts bs)).
Definition find_block (bs : list block) (p : Z) : option block :=
  head (filter (fun b => b_id b = p) bs).

(** [Value::use_empty] of the instruction [p]. *)
Fixpoint uses (p : Z) (o : operand) : bool :=
  match o with OReg q _ _ => p =? q | OCast _ o' _ => uses p o' | _ => false end.
Definition use_empty (bs : list block) (p : Z) : bool :=
  negb (existsb (fun i => existsb (uses p) (getOperands (i_kind i))) (block_insts bs)).

(** ** Changing a function *)

Fixpoint ins_before (p : Z) (x : inst) (l : list inst) : list inst :=
  match l with
  | [] => []
  | i :: r => if i_id i =? p then x :: i :: r else i :: ins_before p x r
  end.
Definition on_insts (f : list inst -> list inst) (b : block) : block :=
  mkBlock (b_id b) (f (b_insts b)).
Definition set_nosan (p : Z) (i : inst) : inst :=
  if i_id i =? p then mkInst (i_id i) (i_kind i) (i_ty i) true (i_loc i) else i.
(** [Instruction::eraseFromParent]. *)
Definition erase_inst (p : Z) (l : list inst) : list inst := filter (fun i => i_id i <> p) l.

(** [splitBasicBlock] lets the phis of the successors name the new block. *)
Definition phi_rename (from to : Z) (i : inst) : inst :=
  match i_kind i with
  | KPhi inc => mkInst (i_id i) (KPhi ((fun x => (x.1, if x.2 =? from then to else x.2)) <$> inc))
                  (i_ty i) (i_nosan i) (i_loc i)
  | _ => i
  end.
Fixpoint split_at (p : Z) (l : list inst) : option (list inst * list inst) :=
  match l with
  | [] => None
  | i :: r => if i_id i =? p then Some ([], l)
              else match split_at p r with
                   | Some (a, b) => Some (i :: a, b)
                   | None => None
                   end
  end.
(** The three blocks that [SplitBlockAndInsertIfThen] makes of one. *)
Definition split_block (p : Z) (tailb : Z) (headterm checkterm : inst) (thenb : Z)
  (b : block) : list block :=
  match split_at p (b_insts b) with
  | Some (pre, post) =>
      [ mkBlock (b_id b) (pre ++ [headterm]);
        mkBlock thenb [checkterm];
        mkBlock tailb post ]
  | None => [b]
  end.
Definition block_of (p : Z) (bs : list block) : option block :=
  head (filter (fun b => p ∈ (i_id <$> b_insts b)) bs).
