(* ===== verification/AngoraPass.v ===== *)
(** * The instrumentation pass

    [llvm_mode/pass/AngoraPass.cc], with the part of [llvm_mode/include/abilist.h]
    it uses.  The pass is modelled as the function [runOnModule] on modules of
    PassIr.v: it names comparisons, emits the edge counters, the calling-context
    updates and the calls of the tracing functions.  Theorems about it are in
    AngoraPassIds.v and AngoraPassCode.v. *)

From S2P Require Import Prelude PassIr.
Local Open Scope Z_scope.

(** ** Constants of [defs.h] *)

Definition MAP_SIZE : Z := Z.shiftl 1 20.
Definition COND_EQ_OP : Z := 32.
Definition COND_SIGN_MASK : Z := 256.
Definition COND_BOOL_MASK : Z := 512.
Definition COND_EXPLOIT_MASK : Z := 16384.

Definition MAX_EXPLOIT_CATEGORY : nat := 5.
Definition ExploitCategoryAll : string := "all".
Definition ExploitCategory : list string := ["i0"; "i1"; "i2"; "i3"; "i4"]%string.
Definition CompareFuncCat : string := "cmpfn".

(** ** State *)

(** A function and its type. *)
Record callee := mkCallee { c_name : string; c_ret : ty; c_args : list ty }.

(** What the pass adds to the module. *)
Inductive global :=
| GVar (name : string) (t : ty) (tls : bool)
| GFun (f : callee)
| GArr (id : Z) (elems : list operand).

(** Lines on the error output when [output_cond_loc] is set. *)
Inductive message :=
| MContext (c : Z)
| MId (h : Z)
| MIns (inst : Z)
| MLoc (file : string) (line col : Z).

Record config := mkConfig {
  FastMode : bool;
  TrackMode : bool;
  ModId : Z;
  is_bc : bool;
  inst_ratio : Z;
  gen_id_random : bool;
  output_cond_loc : bool;
  num_fn_ctx : Z
}.

Record pass := mkPass {
  blocks : list block;        (* the function being changed *)
  fresh : Z;                  (* the next unused address *)
  RandSeed : Z;
  rand_calls : nat;           (* how often random() was called *)
  CidCounter : Z;
  UniqCidSet : gset Z;
  IdMap : gmap Z Z;
  globals : list global;
  errs : list message
}.
Abbreviation P := (M pass).

Definition with_blocks (f : list block -> list block) (s : pass) : pass :=
  mkPass (f (blocks s)) (fresh s) (RandSeed s) (rand_calls s) (CidCounter s) (UniqCidSet s)
    (IdMap s) (globals s) (errs s).
Definition with_fresh (s : pass) : pass :=
  mkPass (blocks s) (fresh s + 1) (RandSeed s) (rand_calls s) (CidCounter s) (UniqCidSet s)
    (IdMap s) (globals s) (errs s).
Definition with_seed (x : Z) (s : pass) : pass :=
  mkPass (blocks s) (fresh s) x (rand_calls s) (CidCounter s) (UniqCidSet s) (IdMap s)
    (globals s) (errs s).
Definition with_calls (s : pass) : pass :=
  mkPass (blocks s) (fresh s) (RandSeed s) (S (rand_calls s)) (CidCounter s) (UniqCidSet s)
    (IdMap s) (globals s) (errs s).
Definition with_ids (c : Z) (u : gset Z) (m : gmap Z Z) (s : pass) : pass :=
  mkPass (blocks s) (fresh s) (RandSeed s) (rand_calls s) c u m (globals s) (errs s).
Definition with_global (g : global) (s : pass) : pass :=
  mkPass (blocks s) (fresh s) (RandSeed s) (rand_calls s) (CidCounter s) (UniqCidSet s)
    (IdMap s) (globals s ++ [g]) (errs s).
Definition with_err (e : message) (s : pass) : pass :=
  mkPass (blocks s) (fresh s) (RandSeed s) (rand_calls s) (CidCounter s) (UniqCidSet s)
    (IdMap s) (globals s) (errs s ++ [e]).

(** ** The builder

    [IRBuilder<> IRB(Inst)] inserts before [Inst] and gives what it inserts the
    location of [Inst].  Constants are folded and a cast to the same type is the
    value itself, so that no instruction is made. *)

Record IRBuilder := mkIRB { ir_point : Z; ir_loc : option (string * Z * Z) }.
Definition IRB_at (i : inst) : IRBuilder := mkIRB (i_id i) (i_loc i).

Definition new_id : P Z := fun s => Ok (fresh s, with_fresh s).
Definition emit (b : IRBuilder) (k : ikind) (t : ty) : P operand :=
  p <- new_id ;;
  modify (with_blocks (fmap (on_insts (ins_before (ir_point b) (mkInst p k t false (ir_loc b)))))) ;;;
  ret (OReg p t (isCmpInst k)).

Definition setInsNonSan_id (p : Z) : P unit :=
  modify (with_blocks (fmap (on_insts (fmap (set_nosan p))))).
(** [setValueNonSan] and [setInsNonSan]: nothing for what is not an instruction. *)
Definition setValueNonSan (v : operand) : P unit :=
  match v with OReg p _ _ => setInsNonSan_id p | _ => ret tt end.
Definition setInsNonSan (v : operand) : P unit := setValueNonSan v.

Definition CreateLoad (b : IRBuilder) (p : operand) (t : ty) : P operand := emit b (KLoad p) t.
Definition CreateStore (b : IRBuilder) (v p : operand) : P operand := emit b (KStore v p) TVoid.
(** [CallInst] asserts that the arguments have the types of the parameters; pointer
    types are not told apart here. *)
Definition CreateCall (b : IRBuilder) (f : callee) (args : list operand) : P operand :=
  if bool_decide (getType <$> args = c_args f)
  then emit b (KCall (OFun (c_name f)) args) (c_ret f)
  else fail AssertFailed.
Definition fold_bin (o : binop) (w x y : Z) : option Z :=
  match o with
  | BAdd => Some (wrap w (x + y))
  | BXor => Some (Z.lxor x y)
  | BLShr => if y <? w then Some (Z.shiftr x y) else None
  end.
Definition CreateBin (b : IRBuilder) (o : binop) (x y : operand) : P operand :=
  match x, y with
  | OInt w a, OInt _ c =>
      match fold_bin o w a c with
      | Some z => ret (OInt w z)
      | None => ret (OConst 0 (TInt w))
      end
  | _, _ => emit b (KBin o x y) (getType x)
  end.
Definition CreateXor (b : IRBuilder) (x y : operand) : P operand := CreateBin b BXor x y.
Definition CreateAdd (b : IRBuilder) (x y : operand) : P operand := CreateBin b BAdd x y.
Definition CreateLShr (b : IRBuilder) (x : operand) (n : Z) : P operand :=
  CreateBin b BLShr x (OInt (getIntegerBitWidth (getType x)) n).
Definition CreateICmpEQ (b : IRBuilder) (x y : operand) : P operand :=
  match x, y with
  | OInt _ a, OInt _ c => ret (OInt 1 (if a =? c then 1 else 0))
  | _, _ => emit b (KCmp 32 x y) (TInt 1)
  end.
Definition CreateGEP (b : IRBuilder) (base idx : operand) : P operand :=
  emit b (KGEP base idx) TPtr.

(** [CastInst::castIsValid] for the casts of the pass, on scalars. *)
Definition castIsValid (c : castop) (src dst : ty) : bool :=
  match c, src, dst with
  | CZExt, TInt a, TInt b => a <? b
  | CFPToUI, (TFloat | TDouble), TInt _ => true
  | CPtrToInt, TPtr, TInt _ => true
  | CBitCast, TPtr, TPtr => true
  | _, _, _ => false
  end.
Definition fold_cast (c : castop) (v : operand) (t : ty) : operand :=
  match c, v, t with
  | CZExt, OInt _ z, TInt w => OInt w z
  | _, _, _ => OCast c v t
  end.
Definition CreateCast (b : IRBuilder) (c : castop) (v : operand) (t : ty) : P operand :=
  if decide (getType v = t) then ret v
  else if negb (castIsValid c (getType v) t) then fail AssertFailed
  else if isConstant v then ret (fold_cast c v t)
  else emit b (KCast c v) t.
Definition CreateZExt (b : IRBuilder) (v : operand) (t : ty) : P operand := CreateCast b CZExt v t.
(** [ConstantExpr::getCast], which asserts that the cast is valid. *)
Definition getCast (c : castop) (v : operand) (t : ty) : P operand :=
  if castIsValid c (getType v) t then ret (fold_cast c v t) else fail AssertFailed.

Definition split_function (p from tailb thenb : Z) (headterm checkterm : inst) (bs : list block)
  : list block :=
  on_insts (fmap (phi_rename from tailb)) <$>
    (b ← bs; split_block p tailb headterm checkterm thenb b).

(** [SplitBlockAndInsertIfThen(Cond, SplitBefore, false, Weights)]: the new
    terminator of the then-block is returned. *)
Definition SplitBlockAndInsertIfThen (cond : operand) (before : inst) : P inst :=
  tailb <- new_id ;; thenb <- new_id ;; c <- new_id ;; h <- new_id ;;
  let checkterm := mkInst c (KBr tailb) TVoid false (i_loc before) in
  let headterm := mkInst h (KCondBr cond thenb tailb) TVoid false (i_loc before) in
  bs <- gets blocks ;;
  match block_of (i_id before) bs with
  | Some b =>
      modify (with_blocks
        (split_function (i_id before) (b_id b) tailb thenb headterm checkterm)) ;;;
      ret checkterm
  | None => fail AssertFailed
  end.

(** ** Names of globals *)

Definition AngoraContext : operand := OGlobal "__angora_context".
Definition AngoraCallSite : operand := OGlobal "__angora_call_site".
Definition ParmeSanIndCallSite : operand := OGlobal "__angora_indirect_call_site".
Definition AngoraMapPtr : operand := OGlobal "__angora_area_ptr".
Definition AngoraCondId : operand := OGlobal "__angora_cond_cmpid".
Definition AngoraPrevLoc : operand := OGlobal "__angora_prev_loc".
Definition Int1Ty := TInt 1.
Definition Int8Ty := TInt 8.
Definition Int32Ty := TInt 32.
Definition Int64Ty := TInt 64.

(** The tracing functions with the types [initVariables] gives them. *)
Definition TraceCmp := mkCallee "__angora_trace_cmp" Int32Ty
  [Int32Ty; Int32Ty; Int32Ty; Int64Ty; Int64Ty].
Definition TraceSw := mkCallee "__angora_trace_switch" Int64Ty [Int32Ty; Int32Ty; Int64Ty].
Definition TraceCmpTT := mkCallee "__angora_trace_cmp_tt" TVoid
  [Int32Ty; Int32Ty; Int32Ty; Int32Ty; Int32Ty; Int64Ty; Int64Ty; Int32Ty].
Definition TraceSwTT := mkCallee "__angora_trace_switch_tt" TVoid
  [Int32Ty; Int32Ty; Int32Ty; Int32Ty; Int64Ty; Int32Ty; TPtr].
Definition TraceFnTT := mkCallee "__angora_trace_fn_tt" TVoid
  [Int32Ty; Int32Ty; Int32Ty; Int32Ty; TPtr; TPtr].
Definition TraceExploitTT := mkCallee "__angora_trace_exploit_val_tt" TVoid
  [Int32Ty; Int32Ty; Int32Ty; Int32Ty; Int32Ty; Int64Ty].

(** ** Identifiers *)

(** One step of [hashName]'s loop: hash * 33 + c on 32 bits. *)
Definition hash_step (hash c : Z) : Z := u32 (u32 (u32 (Z.shiftl hash 5) + hash) + u8 c).
Definition hashName (fsize : string -> Z) (str : string) : Z :=
  fold_left hash_step
    ((fun a => Z.of_nat (Ascii.nat_of_ascii a)) <$> String.list_ascii_of_string str)
    (u32 (5381 + u32 (u32 (fsize str) * 223))).

(** [DenseSet<u32>] keeps two keys for itself. *)
Definition reserved_key (h : Z) : bool := (h =? 2 ^ 32 - 1) || (h =? 2 ^ 32 - 2).
Definition uniq_count (h : Z) : P bool :=
  s <- gets UniqCidSet ;;
  if decide (s = ∅) then ret false
  else if reserved_key h then fail AssertFailed
  else ret (bool_decide (h ∈ s)).
Definition uniq_insert (h : Z) : P unit :=
  if reserved_key h then fail AssertFailed
  else modify (fun s => with_ids (CidCounter s) ({[ h ]} ∪ UniqCidSet s) (IdMap s) s).

(** [while (UniqCidSet.count(h) > 0) h = h * 3 + 1]. *)
Definition next_cid (h : Z) : Z := u32 (h * 3 + 1).
Fixpoint probe (fuel : nat) (h : Z) : P Z :=
  match fuel with
  | O => fail OutOfFuel
  | S n => c <- uniq_count h ;; if (c : bool) then probe n (next_cid h) else ret h
  end.

Section Pass.
Context (cfg : config).
(** libc's [random] after [srandom(ModId)], LLVM's rule files and its numbering of
    opcodes. *)
Context (rnd : nat -> Z).
Context (inSection : string -> string -> string -> bool).
Context (opcodeNum : string -> Z).

Definition random : P Z := fun s => Ok (rnd (rand_calls s), with_calls s).
Definition getRandomBasicBlockId : P Z := r <- random ;; ret (u32 (r mod MAP_SIZE)).
Definition skipBasicBlock : P bool := r <- random ;; ret (inst_ratio cfg <=? r mod 100).
Definition getRandomNum : P Z := fun s =>
  let seed := u64 (RandSeed s * 1103515245 + 12345) in Ok (u32 seed, with_seed seed s).
Definition getRandomContextId : P Z :=
  r <- getRandomNum ;;
  let context := r mod MAP_SIZE in
  when (output_cond_loc cfg) (modify (with_err (MContext context))) ;;;
  ret context.
Definition getRandomInstructionId : P Z := getRandomNum.

Definition location_id (line col : Z) : Z :=
  u32 (u32 (u32 (u32 (u32 col * 33) + u32 line) * 33) + ModId cfg).

Definition log_id (Inst : inst) (h : Z) : P unit :=
  modify (with_err (MId h)) ;;;
  modify (with_err (MIns (i_id Inst))) ;;;
  match i_loc Inst with
  | Some (f, l, c) => modify (with_err (MLoc f l c))
  | None => ret tt
  end.

Definition getInstructionId (Inst : inst) : P Z :=
  h <- (if is_bc cfg then
          c <- gets CidCounter ;;
          modify (fun s => with_ids (u32 (c + 1)) (UniqCidSet s) (IdMap s) s) ;;;
          ret (u32 (c + 1))
        else
          h0 <- (if gen_id_random cfg then getRandomInstructionId
                 else match i_loc Inst with
                      | Some (_, line, col) => ret (location_id line col)
                      | None => getRandomInstructionId
                      end) ;;
          used <- gets UniqCidSet ;;
          h <- probe (S (size used)) h0 ;;
          uniq_insert h ;;;
          ret h) ;;
  when (output_cond_loc cfg) (log_id Inst h) ;;;
  modify (fun s => with_ids (CidCounter s) (UniqCidSet s) (<[ i_id Inst := h ]> (IdMap s)) s) ;;;
  ret h.

(** [AngoraABIList::isIn] on the exploitation list.  An indirect call has no name
    to look up. *)
Definition isIn (Inst : inst) (category : string) : P bool :=
  match i_kind Inst with
  | KCall callee _ =>
      match getCalledFunction callee with
      | Some n => ret (inSection "fun" n category)
      | None => fail Segv
      end
  | k => ret (inSection "ins" (getOpcodeName k) category)
  end.

(** ** Edge counters and calling context *)

Definition nosan (m : P operand) : P operand := v <- m ;; setValueNonSan v ;;; ret v.

Definition countEdge (BB : Z) : P unit :=
  if negb (FastMode cfg) then ret tt else
  skip <- skipBasicBlock ;;
  if (skip : bool) then ret tt else
  cur_loc <- getRandomBasicBlockId ;;
  let CurLoc := OInt 32 cur_loc in
  bs <- gets blocks ;;
  match find_block bs BB ≫= getFirstInsertionPt with
  | None => fail AssertFailed
  | Some IP =>
    let IRB := IRB_at IP in
    PrevLoc <- nosan (CreateLoad IRB AngoraPrevLoc Int32Ty) ;;
    PrevLocCasted <- nosan (CreateZExt IRB PrevLoc Int32Ty) ;;
    MapPtr <- nosan (CreateLoad IRB AngoraMapPtr TPtr) ;;
    BrId <- nosan (CreateXor IRB PrevLocCasted CurLoc) ;;
    MapPtrIdx <- nosan (CreateGEP IRB MapPtr BrId) ;;
    Counter <- nosan (CreateLoad IRB MapPtrIdx Int8Ty) ;;
    IncRet <- nosan (CreateAdd IRB Counter (OInt 8 1)) ;;
    IsZero <- nosan (CreateICmpEQ IRB IncRet (OInt 8 0)) ;;
    IncVal <- nosan (CreateZExt IRB IsZero Int8Ty) ;;
    IncRet <- nosan (CreateAdd IRB IncRet IncVal) ;;
    _ <- nosan (CreateStore IRB IncRet MapPtrIdx) ;;
    NewPrevLoc <-
      (if num_fn_ctx cfg =? 0 then ret (OInt 32 (Z.shiftr cur_loc 1))
       else
         CtxVal <- nosan (CreateLoad IRB AngoraContext Int32Ty) ;;
         CtxValCasted <- nosan (CreateZExt IRB CtxVal Int32Ty) ;;
         CreateXor IRB CtxValCasted (OInt 32 (Z.shiftr cur_loc 1))) ;;
    setValueNonSan NewPrevLoc ;;;
    _ <- nosan (CreateStore IRB NewPrevLoc AngoraPrevLoc) ;;
    ret tt
  end.

Definition resetIndirectCallContext (IRB : IRBuilder) : P unit :=
  _ <- nosan (CreateStore IRB (OInt 32 0) ParmeSanIndCallSite) ;; ret tt.

(** The loop of [addFnWrap] over the blocks of the function. *)
Fixpoint restore_contexts (OriCtxVal : operand) (bbs : list block) : P unit :=
  match bbs with
  | [] => ret tt
  | bb :: rest =>
      match getTerminator bb with
      | None => fail AssertFailed
      | Some Inst =>
          (if isReturnInst (i_kind Inst) || isResumeInst (i_kind Inst) then
             let Post_IRB := IRB_at Inst in
             _ <- nosan (CreateStore Post_IRB OriCtxVal AngoraContext) ;;
             resetIndirectCallContext Post_IRB
           else ret tt) ;;;
          restore_contexts OriCtxVal rest
      end
  end.

Definition addFnWrap : P unit :=
  if num_fn_ctx cfg =? 0 then ret tt else
  bs <- gets blocks ;;
  match head bs ≫= getFirstInsertionPt with
  | None => fail AssertFailed
  | Some InsertPoint =>
    let IRB := IRB_at InsertPoint in
    CallSite <- nosan (CreateLoad IRB AngoraCallSite Int32Ty) ;;
    OriCtxVal <- nosan (CreateLoad IRB AngoraContext Int32Ty) ;;
    OriCtxVal <-
      (if 0 <? num_fn_ctx cfg
       then nosan (CreateLShr IRB OriCtxVal (32 / num_fn_ctx cfg))
       else ret OriCtxVal) ;;
    UpdatedCtx <- nosan (CreateXor IRB OriCtxVal CallSite) ;;
    _ <- nosan (CreateStore IRB UpdatedCtx AngoraContext) ;;
    bbs <- gets blocks ;;
    restore_contexts OriCtxVal bbs
  end.

(** ** Comparisons *)

(** [castArgType]: an operand as 64 bits for the tracing functions. *)
Definition castArgType (IRB : IRBuilder) (V : operand) : P operand :=
  let OpType := getType V in
  if isFloatTy OpType then
    NV <- nosan (CreateCast IRB CFPToUI V Int32Ty) ;;
    nosan (CreateZExt IRB NV Int64Ty)
  else if isDoubleTy OpType then nosan (CreateCast IRB CFPToUI V Int64Ty)
  else if isPointerTy OpType then CreateCast IRB CPtrToInt V Int64Ty
  else if isIntegerTy OpType && (getIntegerBitWidth OpType <? 64)
  then CreateZExt IRB V Int64Ty
  else ret V.

(** The guard of the fast mode: the code that the returned builder emits runs
    only when the comparison [Cid] is the one the fuzzer works on. *)
Definition if_cond_selected (IRB : IRBuilder) (Cid : operand) (InsertPoint : inst)
  : P IRBuilder :=
  CurCid <- nosan (CreateLoad IRB AngoraCondId Int32Ty) ;;
  CmpEq <- nosan (CreateICmpEQ IRB Cid CurCid) ;;
  BI <- SplitBlockAndInsertIfThen CmpEq InsertPoint ;;
  setInsNonSan_id (i_id BI) ;;;
  ret (IRB_at BI).

(** The call that reports a comparison in the track mode. *)
Definition call_trace_cmp_tt (IRB : IRBuilder) (Cid SizeArg TypeArg a b CondExt : operand)
  : P unit :=
  CurCtx <- nosan (CreateLoad IRB AngoraContext Int32Ty) ;;
  CallSite <- nosan (CreateLoad IRB ParmeSanIndCallSite Int32Ty) ;;
  _ <- nosan (CreateCall IRB TraceCmpTT
                [Cid; CurCtx; CallSite; SizeArg; TypeArg; a; b; CondExt]) ;;
  resetIndirectCallContext IRB.

Definition processBoolCmp (Cond Cid : operand) (InsertPoint : inst) : P unit :=
  if negb (isIntegerTy (getType Cond)) || (32 <? getIntegerBitWidth (getType Cond))
  then ret tt else
  let IRB := IRB_at InsertPoint in
  let OpArg1 := OInt 64 1 in
  if FastMode cfg then
    ThenB <- if_cond_selected IRB Cid InsertPoint ;;
    CondExt <- nosan (CreateZExt ThenB Cond Int32Ty) ;;
    OpArg0 <- nosan (CreateZExt ThenB CondExt Int64Ty) ;;
    CurCtx <- nosan (CreateLoad ThenB AngoraContext Int32Ty) ;;
    _ <- nosan (CreateCall ThenB TraceCmp [CondExt; Cid; CurCtx; OpArg0; OpArg1]) ;;
    ret tt
  else if TrackMode cfg then
    let SizeArg := OInt 32 1 in
    let TypeArg := OInt 32 (Z.lor COND_EQ_OP COND_BOOL_MASK) in
    CondExt <- nosan (CreateZExt IRB Cond Int32Ty) ;;
    OpArg0 <- nosan (CreateZExt IRB CondExt Int64Ty) ;;
    call_trace_cmp_tt IRB Cid SizeArg TypeArg OpArg0 OpArg1 CondExt
  else ret tt.

(** [ConstantInt::isNegative]. *)
Definition isNegative (o : operand) : bool :=
  match o with OInt w z => Z.testbit z (w - 1) | _ => false end.

Definition processCmp (Cond : inst) (Cid : operand) (InsertPoint : inst) : P unit :=
  match i_kind Cond with
  | KCmp pred OpArg0 OpArg1 =>
    let OpType := getType OpArg0 in
    let CondV := inst_value Cond in
    if negb ((isIntegerTy OpType && (getIntegerBitWidth OpType <=? 64)) ||
             isFloatTy OpType || isDoubleTy OpType || isPointerTy OpType)
    then processBoolCmp CondV Cid InsertPoint
    else
    let num_bytes0 := getScalarSizeInBits OpType / 8 in
    if (num_bytes0 =? 0) && negb (isPointerTy OpType) then ret tt else
    let num_bytes := if num_bytes0 =? 0 then 8 else num_bytes0 in
    let IRB := IRB_at InsertPoint in
    if FastMode cfg then
      ThenB <- if_cond_selected IRB Cid InsertPoint ;;
      a <- castArgType ThenB OpArg0 ;;
      b <- castArgType ThenB OpArg1 ;;
      CondExt <- nosan (CreateZExt ThenB CondV Int32Ty) ;;
      CurCtx <- nosan (CreateLoad ThenB AngoraContext Int32Ty) ;;
      _ <- nosan (CreateCall ThenB TraceCmp [CondExt; Cid; CurCtx; a; b]) ;;
      ret tt
    else if TrackMode cfg then
      let SizeArg := OInt 32 num_bytes in
      let predicate := if isNegative OpArg1 then Z.lor pred COND_SIGN_MASK else pred in
      let TypeArg := OInt 32 predicate in
      CondExt <- nosan (CreateZExt IRB CondV Int32Ty) ;;
      a <- castArgType IRB OpArg0 ;;
      b <- castArgType IRB OpArg1 ;;
      call_trace_cmp_tt IRB Cid SizeArg TypeArg a b CondExt
    else ret tt
  | _ => fail Segv
  end.

(** [Instruction::getNextNode]. *)
Fixpoint next_in (p : Z) (l : list inst) : option inst :=
  match l with
  | [] => None
  | i :: r => if i_id i =? p then head r else next_in p r
  end.
Definition getNextNode (Inst : inst) : P (option inst) :=
  bs <- gets blocks ;;
  ret (block_of (i_id Inst) bs ≫= fun b => next_in (i_id Inst) (b_insts b)).

Definition visitCmpInst (Inst : inst) : P unit :=
  o <- getNextNode Inst ;;
  match o with
  | None => ret tt
  | Some InsertPoint =>
      h <- getInstructionId Inst ;;
      processCmp Inst (OInt 32 h) InsertPoint
  end.

Definition isa_CmpInst (v : operand) : bool := match v with OReg _ _ c => c | _ => false end.

Definition visitBranchInst (Inst : inst) : P unit :=
  match i_kind Inst with
  | KCondBr Cond _ _ =>
      if isIntegerTy (getType Cond) && negb (isConstantInt Cond) && negb (isa_CmpInst Cond)
      then h <- getInstructionId Inst ;; processBoolCmp Cond (OInt 32 h) Inst
      else ret tt
  | _ => ret tt
  end.

(** The case values of a switch that fit into 64 bits. *)
Fixpoint case_args (cases : list (operand * Z)) : P (list operand) :=
  match cases with
  | [] => ret []
  | (C, _) :: r =>
      if 64 <? getScalarSizeInBits (getType C) then case_args r
      else c <- getCast CZExt C Int64Ty ;; cs <- case_args r ;; ret (c :: cs)
  end.

Definition visitSwitchInst (Inst : inst) : P unit :=
  match i_kind Inst with
  | KSwitch Cond _ cases =>
    if negb (isIntegerTy (getType Cond) && negb (isConstantInt Cond)) then ret tt else
    let num_bits := getScalarSizeInBits (getType Cond) in
    let num_bytes := num_bits / 8 in
    if (num_bytes =? 0) || (0 <? num_bits mod 8) then ret tt else
    h <- getInstructionId Inst ;;
    let Cid := OInt 32 h in
    let IRB := IRB_at Inst in
    if FastMode cfg then
      ThenB <- if_cond_selected IRB Cid Inst ;;
      CondExt <- nosan (CreateZExt ThenB Cond Int64Ty) ;;
      CurCtx <- nosan (CreateLoad ThenB AngoraContext Int32Ty) ;;
      _ <- nosan (CreateCall ThenB TraceSw [Cid; CurCtx; CondExt]) ;;
      ret tt
    else if TrackMode cfg then
      let SizeArg := OInt 32 num_bytes in
      ArgList <- case_args cases ;;
      g <- new_id ;;
      modify (with_global (GArr g ArgList)) ;;;
      let SwNum := OInt 32 (Z.of_nat (length ArgList)) in
      let ArrPtr := OCast CBitCast (OArray g) TPtr in
      setValueNonSan ArrPtr ;;;
      CondExt <- nosan (CreateZExt IRB Cond Int64Ty) ;;
      CurCtx <- nosan (CreateLoad IRB AngoraContext Int32Ty) ;;
      CallSite <- nosan (CreateLoad IRB ParmeSanIndCallSite Int32Ty) ;;
      _ <- nosan (CreateCall IRB TraceSwTT
                    [Cid; CurCtx; CallSite; SizeArg; CondExt; SwNum; ArrPtr]) ;;
      resetIndirectCallContext IRB
    else ret tt
  | _ => fail Segv
  end.

(** ** Calls and exploitable operands *)

Definition visitCompareFunc (Inst : inst) : P unit :=
  if negb (isCallInst (i_kind Inst)) then ret tt else
  listed <- isIn Inst CompareFuncCat ;;
  if negb listed then ret tt else
  h <- getInstructionId Inst ;;
  let Cid := OInt 32 h in
  if negb (TrackMode cfg) then ret tt else
  match i_kind Inst with
  | KCall _ (a0 :: a1 :: more) =>
    if negb (isPointerTy (getType a0)) || negb (isPointerTy (getType a1)) then ret tt else
    let ArgSize := match more with a2 :: _ => a2 | [] => OInt 32 0 end in
    let IRB := IRB_at Inst in
    CurCtx <- nosan (CreateLoad IRB AngoraContext Int32Ty) ;;
    CallSite <- nosan (CreateLoad IRB ParmeSanIndCallSite Int32Ty) ;;
    _ <- nosan (CreateCall IRB TraceFnTT [Cid; CurCtx; CallSite; ArgSize; a0; a1]) ;;
    ret tt
  | _ => fail AssertFailed
  end.

(** The body of the loop of [visitExploitation] for one operand. *)
Definition exploit_operand (Inst : inst) (TypeArg ParamVal : operand) : P unit :=
  let ParamType := getType ParamVal in
  if negb (isIntegerTy ParamType || isPointerTy ParamType) || isConstantInt ParamVal
  then ret tt else
  let IRB := IRB_at Inst in
  h <- getInstructionId Inst ;;
  let Cid := OInt 32 h in
  let size := if isPointerTy ParamType then 8 else getScalarSizeInBits ParamType / 8 in
  ParamVal' <-
    (if isPointerTy ParamType then ret ParamVal
     else if negb (bool_decide (ParamType = Int64Ty)) then CreateZExt IRB ParamVal Int64Ty
     else ret ParamVal) ;;
  let SizeArg := OInt 32 size in
  if TrackMode cfg then
    CurCtx <- nosan (CreateLoad IRB AngoraContext Int32Ty) ;;
    CallSite <- nosan (CreateLoad IRB ParmeSanIndCallSite Int32Ty) ;;
    _ <- nosan (CreateCall IRB TraceExploitTT
                  [Cid; CurCtx; CallSite; SizeArg; TypeArg; ParamVal']) ;;
    ret tt
  else ret tt.

Fixpoint exploit_operands (Inst : inst) (TypeArg : operand) (exploit_all : bool)
  (params : list (operand * string)) : P unit :=
  match params with
  | [] => ret tt
  | (ParamVal, category) :: r =>
      listed <- (if exploit_all then ret true else isIn Inst category) ;;
      when listed (exploit_operand Inst TypeArg ParamVal) ;;;
      exploit_operands Inst TypeArg exploit_all r
  end.

Definition exploit_params (k : ikind) : list operand :=
  match k with KCall _ args => args | _ => getOperands k end.

Definition visitExploitation (Inst : inst) : P unit :=
  exploit_all <- isIn Inst ExploitCategoryAll ;;
  let TypeArg := OInt 32 (Z.lor COND_EXPLOIT_MASK (opcodeNum (getOpcodeName (i_kind Inst)))) in
  exploit_operands Inst TypeArg exploit_all
    (zip (take MAX_EXPLOIT_CATEGORY (exploit_params (i_kind Inst))) ExploitCategory).

Definition callee_of (k : ikind) : option operand :=
  match k with KCall c _ | KInvoke c _ _ _ => Some c | _ => None end.

Definition processCall (Inst : inst) : P unit :=
  let fp := callee_of (i_kind Inst) ≫= getCalledFunction in
  when (bool_decide (is_Some fp)) (visitCompareFunc Inst ;;; visitExploitation Inst) ;;;
  csid <- getRandomContextId ;;
  let CallSite := OInt 32 csid in
  let IRB := IRB_at Inst in
  when (negb (num_fn_ctx cfg =? 0))
    (_ <- nosan (CreateStore IRB CallSite AngoraCallSite) ;; ret tt) ;;;
  when (negb (bool_decide (is_Some fp)))
    (_ <- nosan (CreateStore IRB CallSite ParmeSanIndCallSite) ;; ret tt).

Definition unfold_branch_fn : string := "__unfold_branch_fn".

(** [if (Caller->use_empty()) Caller->eraseFromParent()]. *)
Definition erase_unused (Inst : inst) : P unit :=
  bs <- gets blocks ;;
  when (use_empty bs (i_id Inst))
    (modify (with_blocks (fmap (on_insts (erase_inst (i_id Inst)))))).

Definition visitCallInst (Inst : inst) : P unit :=
  match i_kind Inst with
  | KCall callee _ =>
    let Callee := getCalledFunction callee in
    if (match Callee with Some n => isIntrinsic n | None => false end) || isInlineAsm callee
    then ret tt else
    if bool_decide (Callee = Some unfold_branch_fn) then
      erase_unused Inst
    else processCall Inst
  | _ => fail Segv
  end.

Definition visitInvokeInst (Inst : inst) : P unit :=
  match i_kind Inst with
  | KInvoke callee _ _ _ =>
    match getCalledFunction callee with
    | None => ret tt
    | Some n => if isIntrinsic n || isInlineAsm callee then ret tt else processCall Inst
    end
  | _ => fail Segv
  end.

(** ** The pass *)

Definition visit (Inst : inst) : P unit :=
  let k := i_kind Inst in
  if isCallInst k then visitCallInst Inst
  else if isInvokeInst k then visitInvokeInst Inst
  else if isBranchInst k then visitBranchInst Inst
  else if isSwitchInst k then visitSwitchInst Inst
  else if isCmpInst k then visitCmpInst Inst
  else visitExploitation Inst.

(** The metadata is read when the instruction is reached: an earlier visit may
    have set it. *)
Definition is_nosan (Inst : inst) : P bool :=
  bs <- gets blocks ;;
  ret (match find_inst bs (i_id Inst) with Some i => i_nosan i | None => i_nosan Inst end).
Definition is_first (BB : Z) (Inst : inst) : P bool :=
  bs <- gets blocks ;;
  ret (match find_block bs BB ≫= getFirstInsertionPt with
       | Some i => i_id i =? i_id Inst
       | None => false
       end).

Fixpoint instrument_insts (BB : Z) (insts : list inst) : P unit :=
  match insts with
  | [] => ret tt
  | Inst :: r =>
      skip <- is_nosan Inst ;;
      (if (skip : bool) then ret tt else
         first <- is_first BB Inst ;;
         when first (countEdge BB) ;;;
         visit Inst) ;;;
      instrument_insts BB r
  end.

(** [bb_list] is taken before the blocks are visited; the instructions of a block
    are listed when it is reached. *)
Fixpoint instrument_blocks (bb_list : list Z) : P unit :=
  match bb_list with
  | [] => ret tt
  | BB :: r =>
      bs <- gets blocks ;;
      instrument_insts BB (match find_block bs BB with Some b => b_insts b | None => [] end) ;;;
      instrument_blocks r
  end.

Definition instrument_function (F : func) : P func :=
  if bool_decide (f_blocks F = []) || String.prefix "asan.module" (f_name F) then ret F else
  modify (with_blocks (fun _ => f_blocks F)) ;;;
  addFnWrap ;;;
  bs <- gets blocks ;;
  instrument_blocks (b_id <$> bs) ;;;
  bs' <- gets blocks ;;
  ret (mkFunc (f_name F) bs').

Fixpoint instrument_functions (Fs : list func) : P (list func) :=
  match Fs with
  | [] => ret []
  | F :: r => F' <- instrument_function F ;; r' <- instrument_functions r ;; ret (F' :: r')
  end.
End Pass.

(** ** Starting the pass *)

(** What the pass gets from outside: libc, the file system and LLVM. *)
Record host := mkHost {
  getenv : string -> option string;
  fsize : string -> Z;                               (* size of a file, -1 if there is none *)
  random_seq : Z -> nat -> Z;                        (* random() after srandom(seed) *)
  in_section : string -> string -> string -> bool;   (* SpecialCaseList::inSection *)
  opcode_num : string -> Z                           (* Instruction::getOpcode *)
}.

(** The number at the start of a text, as [strtol] and [strtoul] read it: blanks,
    a sign, digits. *)
Definition is_blank (c : Z) : bool := (c =? 32) || ((9 <=? c) && (c <=? 13)).
Definition is_digit (c : Z) : bool := (48 <=? c) && (c <=? 57).
Fixpoint read_digits (acc : Z) (l : list Z) : Z :=
  match l with
  | c :: r => if is_digit c then read_digits (acc * 10 + (c - 48)) r else acc
  | [] => acc
  end.
Definition read_magnitude (l : list Z) : option Z :=
  match l with c :: _ => if is_digit c then Some (read_digits 0 l) else None | [] => None end.
Fixpoint read_number (l : list Z) : option (bool * Z) :=
  match l with
  | [] => None
  | c :: r =>
      if is_blank c then read_number r
      else if c =? 45 then (fun n => (true, n)) <$> read_magnitude r
      else if c =? 43 then (fun n => (false, n)) <$> read_magnitude r
      else (fun n => (false, n)) <$> read_magnitude l
  end.
Definition codes (s : string) : list Z :=
  (fun a => Z.of_nat (Ascii.nat_of_ascii a)) <$> String.list_ascii_of_string s.
(** [sscanf(s, "%u", &x)]: what is stored, if a number is found. *)
Definition sscanf_u (s : string) : option Z :=
  (fun '(neg, n) => if 2 ^ 64 <=? n then 2 ^ 32 - 1 else u32 (if (neg : bool) then - n else n))
    <$> read_number (codes s).
Definition atoi (s : string) : Z :=
  match read_number (codes s) with
  | Some (neg, n) =>
      s32 (if (neg : bool) then Z.max (- 2 ^ 63) (- n) else Z.min (2 ^ 63 - 1) n)
  | None => 0
  end.

Definition ends_with_bc (name : string) : bool :=
  bool_decide (String.substring (String.length name - 3) 3 name = ".bc"%string).

(** The variables and functions that [initVariables] declares in each mode. *)
Definition declarations (fast track : bool) : list global :=
  [ GVar "__angora_context" Int32Ty true;
    GVar "__angora_call_site" Int32Ty true;
    GVar "__angora_indirect_call_site" Int32Ty true ] ++
  (if fast then
     [ GVar "__angora_area_ptr" TPtr false;
       GVar "__angora_cond_cmpid" Int32Ty false;
       GVar "__angora_prev_loc" Int32Ty true;
       GFun TraceCmp; GFun TraceSw ]
   else if track then
     [ GFun TraceCmpTT; GFun TraceSwTT; GFun TraceFnTT; GFun TraceExploitTT ]
   else []).

Definition initVariables (H : host) (fast track : bool) (ModName : string) (first : Z)
  : res (config * pass) :=
  if bool_decide (ModName = ""%string) then Fault DieCalled else
  let id := hashName (fsize H) ModName in
  (* basic_string::compare throws when its position is past the end *)
  if (String.length ModName <? 3)%nat then Fault AbortCalled else
  res_bind
    (match getenv H "ANGORA_INST_RATIO" with
     | None => Ok 100
     | Some t =>
         match sscanf_u t with
         | Some r => if (r =? 0) || (100 <? r) then Fault DieCalled else Ok r
         | None => Fault DieCalled
         end
     end) (fun ratio =>
  res_bind
    (match getenv H "ANGORA_CUSTOM_FN_CONTEXT" with
     | None => Ok (-1)
     | Some t => let n := atoi t in if (n <? 0) || (32 <=? n) then Fault DieCalled else Ok n
     end) (fun ctx =>
  Ok (mkConfig fast track id (ends_with_bc ModName) ratio
        (bool_decide (is_Some (getenv H "ANGORA_GEN_ID_RANDOM")))
        (bool_decide (is_Some (getenv H "ANGORA_OUTPUT_COND_LOC"))) ctx,
      mkPass [] first id 0 0 ∅ ∅ (declarations fast track) []))).

(** An address above those of the module. *)
Definition addresses (m : list func) : list Z :=
  F ← m; B ← f_blocks F; b_id B :: (i_id <$> b_insts B).
Definition first_fresh (m : list func) : Z := 1 + fold_right Z.max 0 (addresses m).

Record result := mkResult { r_functions : list func; r_pass : pass }.

Definition runOnModule (H : host) (Track DFSan : bool) (ModName : string) (m : list func)
  : res result :=
  let fast := negb Track && negb DFSan in
  res_bind (initVariables H fast Track ModName (first_fresh m)) (fun '(cfg, s) =>
  if DFSan then Ok (mkResult m s) else
  res_bind (instrument_functions cfg (random_seq H (ModId cfg)) (in_section H) (opcode_num H) m s)
    (fun '(m', s') => Ok (mkResult m' s'))).
