(* ===== verification/AngoraPassLogic.v ===== *)
(** * Reasoning about the instrumentation pass as a whole

    The pass is a long program over few primitives: emitting an instruction,
    setting metadata, splitting a block, taking an identifier or a random number,
    erasing a call.  [PassStep Good R] says that each of them respects the relation
    [R] between states, where [Good] is what [R] may assume of the instructions of
    the function; the lemmas of this file conclude that the visitors and the loops
    of the pass do. *)

From S2P Require Import Prelude PassIr AngoraPass.
Local Open Scope Z_scope.

(** The pass emits no call of the function that marks unfolded branches. *)
Definition is_unfold (k : ikind) : bool :=
  match k with KCall (OFun n) _ => bool_decide (n = unfold_branch_fn) | _ => false end.

Class PassStep (cfg : config) (rnd : nat -> Z) (Good : inst -> Prop) (R : relation pass)
  : Prop := {
  ps_pre :: PreOrder R;
  ps_guard s s' :
    ((forall i, i ∈ block_insts (blocks s) -> Good i) -> R s s') -> R s s';
  ps_new : always R new_id;
  ps_emit b k t : is_unfold k = false -> always R (emit b k t);
  ps_nosan p : always R (setInsNonSan_id p);
  ps_split c i : always R (SplitBlockAndInsertIfThen c i);
  ps_random : always R (random rnd);
  ps_seed : always R getRandomNum;
  ps_err e : always R (modify (with_err e));
  ps_global g : always R (modify (with_global g));
  ps_id i : always R (getInstructionId cfg i);
  ps_erase i : Good i -> is_unfold (i_kind i) = true -> always R (erase_unused i)
}.

#[export] Hint Resolve ps_new ps_emit ps_nosan ps_split ps_random ps_seed ps_err ps_global
  ps_id : always.
#[export] Hint Extern 1 (is_unfold _ = false) => reflexivity : always.

Section Logic.
Context (cfg : config) (rnd : nat -> Z) (inS : string -> string -> string -> bool)
  (opn : string -> Z) (Good : inst -> Prop) (R : relation pass)
  `{HR : !PassStep cfg rnd Good R}.

Ltac go := always_auto.

Lemma always_setValueNonSan v : always R (setValueNonSan v).
Proof. destruct v; cbn; go. Qed.
Hint Resolve always_setValueNonSan : always.
Lemma always_nosan m : always R m -> always R (nosan m).
Proof. intros. unfold nosan. go. Qed.
Hint Resolve always_nosan : always.
Lemma always_CreateBin b o x y : always R (CreateBin b o x y).
Proof. unfold CreateBin. go. Qed.
Lemma always_CreateICmpEQ b x y : always R (CreateICmpEQ b x y).
Proof. unfold CreateICmpEQ. go. Qed.
Lemma always_CreateCast b c v t : always R (CreateCast b c v t).
Proof. unfold CreateCast. go. Qed.
Lemma always_CreateCall b f args :
  is_unfold (KCall (OFun (c_name f)) args) = false -> always R (CreateCall b f args).
Proof. unfold CreateCall. go. Qed.
Lemma always_getCast c v t : always R (getCast c v t).
Proof. unfold getCast. go. Qed.
Hint Resolve always_CreateBin always_CreateICmpEQ always_CreateCast always_CreateCall always_getCast : always.
Hint Unfold CreateLoad CreateStore CreateXor CreateAdd CreateLShr CreateGEP CreateZExt
  : always.

Lemma always_isIn i c : always R (isIn inS i c).
Proof. unfold isIn. go. Qed.
Lemma always_skip : always R (skipBasicBlock cfg rnd).
Proof. unfold skipBasicBlock. go. Qed.
Lemma always_bbid : always R (getRandomBasicBlockId rnd).
Proof. unfold getRandomBasicBlockId. go. Qed.
Lemma always_ctxid : always R (getRandomContextId cfg).
Proof. unfold getRandomContextId. go. Qed.
Lemma always_getNextNode i : always R (getNextNode i).
Proof. unfold getNextNode. go. Qed.
Hint Resolve always_isIn always_skip always_bbid always_ctxid always_getNextNode : always.

Lemma always_countEdge BB : always R (countEdge cfg rnd BB).
Proof. unfold countEdge. go. Qed.
Lemma always_reset b : always R (resetIndirectCallContext b).
Proof. unfold resetIndirectCallContext. go. Qed.
Hint Resolve always_countEdge always_reset : always.
Lemma always_restore v bbs : always R (restore_contexts v bbs).
Proof. induction bbs; cbn [restore_contexts]; go. Qed.
Hint Resolve always_restore : always.
Lemma always_addFnWrap : always R (addFnWrap cfg).
Proof. unfold addFnWrap. go. Qed.
Lemma always_castArgType b v : always R (castArgType b v).
Proof. unfold castArgType. go. Qed.
Lemma always_if_cond_selected b c i : always R (if_cond_selected b c i).
Proof. unfold if_cond_selected. go. Qed.
Lemma always_trace_tt b x1 x2 x3 x4 x5 x6 : always R (call_trace_cmp_tt b x1 x2 x3 x4 x5 x6).
Proof. unfold call_trace_cmp_tt. go. Qed.
Hint Resolve always_castArgType always_if_cond_selected always_trace_tt : always.
Lemma always_processBoolCmp c i p : always R (processBoolCmp cfg c i p).
Proof. unfold processBoolCmp. go. Qed.
Hint Resolve always_processBoolCmp : always.
Lemma always_processCmp c i p : always R (processCmp cfg c i p).
Proof. unfold processCmp. go. Qed.
Hint Resolve always_processCmp : always.
Lemma always_case_args cs : always R (case_args cs).
Proof. induction cs; cbn [case_args]; go. Qed.
Hint Resolve always_case_args : always.
Lemma always_visitSwitchInst i : always R (visitSwitchInst cfg i).
Proof. unfold visitSwitchInst. go. Qed.
Lemma always_visitCmpInst i : always R (visitCmpInst cfg i).
Proof. unfold visitCmpInst. go. Qed.
Lemma always_visitBranchInst i : always R (visitBranchInst cfg i).
Proof. unfold visitBranchInst. go. Qed.
Lemma always_visitCompareFunc i : always R (visitCompareFunc cfg inS i).
Proof. unfold visitCompareFunc. go. Qed.
Lemma always_exploit_operand i t v : always R (exploit_operand cfg i t v).
Proof. unfold exploit_operand. go. Qed.
Hint Resolve always_visitSwitchInst always_visitCmpInst always_visitBranchInst
  always_visitCompareFunc always_exploit_operand : always.
Lemma always_exploit_operands i t e ps : always R (exploit_operands cfg inS i t e ps).
Proof. induction ps; cbn [exploit_operands]; go. Qed.
Hint Resolve always_exploit_operands : always.
Lemma always_visitExploitation i : always R (visitExploitation cfg inS opn i).
Proof. unfold visitExploitation. go. Qed.
Hint Resolve always_visitExploitation : always.
Lemma always_processCall i : always R (processCall cfg inS opn i).
Proof. unfold processCall. go. Qed.
Hint Resolve always_processCall : always.
Lemma always_visitInvokeInst i : always R (visitInvokeInst cfg inS opn i).
Proof. unfold visitInvokeInst. go. Qed.
Lemma always_visitCallInst i : Good i -> always R (visitCallInst cfg inS opn i).
Proof.
  intros Hi. unfold visitCallInst. destruct (i_kind i) eqn:E; try solve [go].
  always_step; [go|]. case_bool_decide as Hc; [|go].
  apply ps_erase; [done|]. rewrite E. by destruct callee; simplify_eq/=.
Qed.
Hint Resolve always_visitInvokeInst always_visitCallInst : always.
Lemma always_visit i : Good i -> always R (visit cfg inS opn i).
Proof. unfold visit. go. Qed.
Lemma always_is_nosan i : always R (is_nosan i).
Proof. unfold is_nosan. go. Qed.
Lemma always_is_first b i : always R (is_first b i).
Proof. unfold is_first. go. Qed.
Hint Resolve always_visit always_is_nosan always_is_first : always.
Lemma always_instrument_insts b l :
  (forall i, i ∈ l -> Good i) -> always R (instrument_insts cfg rnd inS opn b l).
Proof.
  induction l as [|i l IH]; cbn [instrument_insts]; intros Hl; [go|].
  pose proof (Hl i ltac:(left)). assert (forall j, j ∈ l -> Good j) by (intros; apply Hl; by right).
  go.
Qed.
Hint Resolve always_instrument_insts : always.

Lemma find_block_insts bs p b i : find_block bs p = Some b -> i ∈ b_insts b -> i ∈ block_insts bs.
Proof.
  unfold find_block, block_insts. intros Hb Hi. apply list_elem_of_bind. exists b. split; [done|].
  apply head_Some_elem_of, list_elem_of_filter in Hb as [_ ?]. done.
Qed.

Lemma always_instrument_blocks l : always R (instrument_blocks cfg rnd inS opn l).
Proof.
  induction l as [|b l IH]; cbn [instrument_blocks]; [go|].
  apply always_gets_bind. intros s c s' E. apply ps_guard. intros Hgood. revert E.
  set (k := match find_block (blocks s) b with Some b => b_insts b | None => [] end).
  assert (Hk : forall i, i ∈ k -> Good i).
  { subst k. destruct (find_block (blocks s) b) eqn:Eb; [|by intros i ?%not_elem_of_nil].
    intros i Hi. eapply Hgood, find_block_insts; eauto. }
  intros (a1 & s1 & E1 & E2)%bind_Ok_inv. etrans; [by eapply always_instrument_insts|by eapply IH].
Qed.
End Logic.
#[export] Hint Resolve always_addFnWrap always_instrument_blocks : always.
