(* ===== verification/AngoraPassIds.v ===== *)
(** * Identifiers of the instrumentation pass

    The search for an unused identifier ([getInstructionId] of [AngoraPass.cc])
    walks the orbit of [h -> 3 h + 1] on 32 bits.  Every orbit has at least 2^31
    elements, so that the search ends as long as fewer identifiers are in use.
    Over a whole module no two instructions get the same identifier. *)

From Stdlib Require Import Zdivisibility.
From S2P Require Import Prelude PassIr AngoraPass AngoraPassLogic.
Local Open Scope Z_scope.

(** ** The orbits of [next_cid] *)

Module Orbit.

(** Powers of three modulo powers of two. *)
Lemma pow_one_plus (a : nat) (x q : Z) :
  0 <= q -> (2 ^ (Z.of_nat a + 3) | x - (1 + 2 ^ (Z.of_nat a + 2))) ->
  (2 ^ (Z.of_nat a + 3) | x ^ q - (1 + q * 2 ^ (Z.of_nat a + 2))).
Proof.
  intros Hq Hx. set (m := 2 ^ (Z.of_nat a + 3)) in *. set (u := 2 ^ (Z.of_nat a + 2)) in *.
  assert (Hu : (m | u * u)).
  { exists (2 ^ (Z.of_nat a + 1)). subst u m. rewrite <-!Z.pow_add_r by lia. f_equal. lia. }
  revert q Hq. apply natlike_ind.
  - exists 0. rewrite Z.pow_0_r. lia.
  - intros q Hq IH. rewrite Z.pow_succ_r by done.
    destruct Hx as [k Hk], IH as [l Hl], Hu as [v Hv].
    exists (x * l + k * (1 + q * u) + q * v). nia.
Qed.

Lemma three_pow_pow (a : nat) :
  (2 ^ (Z.of_nat (S a) + 3) | 3 ^ (2 ^ Z.of_nat (S a)) - (1 + 2 ^ (Z.of_nat (S a) + 2))).
Proof.
  induction a as [|a [k IH]]; [by exists 0|].
  set (x := 3 ^ 2 ^ Z.of_nat (S a)) in *.
  assert (3 ^ 2 ^ Z.of_nat (S (S a)) = x * x) as ->.
  { subst x. rewrite <-Z.pow_add_r by (apply Z.pow_nonneg; lia). f_equal.
    rewrite (Nat2Z.inj_succ (S a)), Z.pow_succ_r by lia. lia. }
  set (b := Z.of_nat (S a)) in *. assert (1 <= b) by lia.
  replace (Z.of_nat (S (S a))) with (b + 1) by lia.
  assert (E : 2 ^ (b + 3) = 2 * 2 ^ (b + 2)).
  { rewrite <-Z.pow_succ_r by lia. f_equal. lia. }
  replace (2 ^ (b + 1 + 3)) with (4 * 2 ^ (b + 2)).
  2:{ change 4 with (2 ^ 2). rewrite <-Z.pow_add_r by lia. f_equal. lia. }
  replace (2 ^ (b + 1 + 2)) with (2 * 2 ^ (b + 2)).
  2:{ rewrite <-Z.pow_succ_r by lia. f_equal. lia. }
  assert (E4 : exists v, 2 ^ (b + 2) = 4 * v).
  { exists (2 ^ b). change 4 with (2 ^ 2). rewrite <-Z.pow_add_r by lia. f_equal. lia. }
  destruct E4 as [v Hv].
  assert (Hx : x = 1 + 2 ^ (b + 2) * (1 + 2 * k)) by nia.
  exists (k + v * (1 + 2 * k) * (1 + 2 * k)). rewrite Hx, Hv. ring.
Qed.

(** 3 has order 2^(a) modulo 2^(a+2), from a = 1 on. *)
Lemma three_pow_order (a : nat) (d : Z) :
  0 <= d -> (2 ^ (Z.of_nat (S a) + 2) | 3 ^ d - 1) -> (2 ^ Z.of_nat (S a) | d).
Proof.
  intros Hd. induction a as [|a IH]; intros Hdiv.
  - assert (Hp : 3 ^ d mod 8 = if Z.even d then 1 else 3).
    { clear Hdiv. revert d Hd. apply natlike_ind; [done|].
      intros d Hd IHd. rewrite Z.pow_succ_r, Z.even_succ, <-Z.negb_even by done.
      rewrite <-Z.mul_mod_idemp_r, IHd by lia. by destruct (Z.even d). }
    destruct Hdiv as [k Hk]. change (2 ^ (Z.of_nat 1 + 2)) with 8 in Hk.
    assert (H1 : 3 ^ d mod 8 = 1) by (replace (3 ^ d) with (1 + k * 8) by lia; by rewrite Z.mod_add).
    rewrite H1 in Hp. destruct (Z.even d) eqn:E; [|done].
    apply Z.even_spec in E as [e ->]. exists e. change (2 ^ Z.of_nat 1) with 2. lia.
  - destruct IH as [q ->].
    { eapply Z.divide_trans; [|exact Hdiv]. exists 2.
      rewrite <-Z.pow_succ_r by lia. f_equal. lia. }
    set (b := Z.of_nat (S a)) in *.
    assert (Hb : 0 < 2 ^ b) by (apply Z.pow_pos_nonneg; lia).
    assert (Hq : 0 <= q) by nia.
    pose proof (pow_one_plus (S a) (3 ^ 2 ^ b) q Hq (three_pow_pow a)) as [k Hk].
    fold b in Hk. rewrite <-Z.pow_mul_r, (Z.mul_comm (2 ^ b) q) in Hk by lia.
    replace (Z.of_nat (S (S a)) + 2) with (b + 3) in Hdiv by lia.
    destruct Hdiv as [l Hl].
    assert (E : 2 ^ (b + 3) = 2 * 2 ^ (b + 2)).
    { rewrite <-Z.pow_succ_r by lia. f_equal. lia. }
    assert (0 < 2 ^ (b + 2)) by (apply Z.pow_pos_nonneg; lia).
    assert (Hev : q = 2 * (l - k)) by nia.
    exists (l - k). replace (Z.of_nat (S (S a))) with (b + 1) by lia.
    rewrite Z.pow_add_r by lia. change (2 ^ 1) with 2. nia.
Qed.

Definition iter (k : nat) (h : Z) : Z := Nat.iter k next_cid h.

Lemma next_cid_range h : 0 <= next_cid h < 2 ^ 32.
Proof. by apply wrap_range. Qed.

(** Doubling and adding one turns the walk into a multiplication by three. *)
Lemma iter_pow k h :
  0 <= h < 2 ^ 32 -> (2 ^ 33 | 3 ^ Z.of_nat k * (2 * h + 1) - (2 * iter k h + 1)).
Proof.
  intros Hh. induction k as [|k [l IH]]; [exists 0; cbn; lia|].
  rewrite Nat2Z.inj_succ, Z.pow_succ_r by lia.
  change (iter (S k) h) with (next_cid (iter k h)). unfold next_cid, u32, wrap.
  pose proof (Z.div_mod (iter k h * 3 + 1) (2 ^ 32) ltac:(lia)) as E.
  exists (3 * l + (iter k h * 3 + 1) / 2 ^ 32). lia.
Qed.

Lemma odd_coprime_pow2 n x : 0 <= n -> Z.odd x = true -> Z.coprime (2 ^ n) x.
Proof.
  intros Hn Hx. apply Z.coprime_pow_l; [done|].
  apply Z.coprime_prime_l; [apply Z.prime_2|].
  intros [k ->]. by rewrite Z.odd_mul, andb_false_r in Hx.
Qed.

Lemma iter_inj h i j :
  0 <= h < 2 ^ 32 -> (i < j)%nat -> Z.of_nat j < 2 ^ 31 -> iter i h <> iter j h.
Proof.
  intros Hh Hij Hj E.
  destruct (iter_pow i h Hh) as [k Hk], (iter_pow j h Hh) as [l Hl]. rewrite <-E in Hl.
  assert (exists d, 0 < d < 2 ^ 31 /\ Z.of_nat j = d + Z.of_nat i) as (d & Hd0 & Ej).
  { exists (Z.of_nat j - Z.of_nat i). lia. }
  assert (Hd : (2 ^ 33 | (3 ^ Z.of_nat i * (2 * h + 1)) * (3 ^ d - 1))).
  { exists (l - k). rewrite Ej, Z.pow_add_r in Hl by lia. nia. }
  assert (Hodd : Z.odd (3 ^ Z.of_nat i * (2 * h + 1)) = true).
  { rewrite Z.odd_mul. apply andb_true_intro. split.
    - destruct i; [done|]. by rewrite Z.odd_pow.
    - rewrite Z.odd_add, Z.odd_mul. done. }
  apply Z.gauss in Hd.
  - apply (three_pow_order 30) in Hd as [q Hq]; [|lia].
    change (2 ^ Z.of_nat 31) with (2 ^ 31) in Hq. nia.
  - by apply odd_coprime_pow2.
Qed.

(** A set cannot hold more of an orbit than it has elements. *)
Lemma orbit_escapes (U : gset Z) h n :
  0 <= h < 2 ^ 32 -> Z.of_nat n <= 2 ^ 31 ->
  (forall k, (k < n)%nat -> iter k h ∈ U) -> (n <= size U)%nat.
Proof.
  intros Hh Hn Hin. trans (length ((fun k => iter k h) <$> seq 0 n)).
  { by rewrite length_fmap, length_seq. }
  rewrite <-(size_list_to_set (C := gset Z)).
  - apply subseteq_size. intros x. rewrite elem_of_list_to_set, list_elem_of_fmap.
    intros (k & -> & Hk%elem_of_seq). apply Hin. lia.
  - apply NoDup_alt. intros i j x. rewrite !list_lookup_fmap, !fmap_Some.
    intros (k & [-> Hi]%lookup_seq & ->) (l & [-> Hj]%lookup_seq & E). cbn in E.
    destruct (lt_eq_lt_dec i j) as [[Hlt| ->]|Hlt]; [|done|].
    + by apply iter_inj in E; [|done|lia|lia].
    + by symmetry in E; apply iter_inj in E; [|done|lia|lia].
Qed.
End Orbit.
Import Orbit.

(** ** The search *)

(** The search ends at the first element of the orbit that is not in use, unless
    it meets a key that [DenseSet] does not admit. *)
Lemma probe_spec (fuel : nat) : forall h s,
  0 <= h < 2 ^ 32 ->
  (exists k, (k < fuel)%nat /\ iter k h ∉ UniqCidSet s) ->
  match probe fuel h s with
  | Ok (h', s') => s' = s /\ (h' ∉ UniqCidSet s) /\ 0 <= h' < 2 ^ 32 /\
      (exists k, (k < fuel)%nat /\ h' = iter k h /\ (forall j, (j < k)%nat -> iter j h ∈ UniqCidSet s))
  | Fault e => e = AssertFailed /\ exists k, (k < fuel)%nat /\ reserved_key (iter k h) = true
  end.
Proof.
  induction fuel as [|n IH]; intros h s Hh (k & Hk & Hfree); [lia|].
  cbn [probe]. unfold uniq_count, bind, gets, ret, fail.
  assert (Hstop : h ∉ UniqCidSet s ->
    s = s /\ (h ∉ UniqCidSet s) /\ 0 <= h < 2 ^ 32 /\
    (exists k, (k < S n)%nat /\ h = iter k h /\ (forall j, (j < k)%nat -> iter j h ∈ UniqCidSet s))).
  { intros. split_and!; [done..|lia|lia|]. exists O. split_and!; [lia|done|lia]. }
  destruct (decide (UniqCidSet s = ∅)) as [E|_].
  { apply Hstop. rewrite E. apply not_elem_of_empty. }
  destruct (reserved_key h) eqn:Er; cbv beta iota.
  { split; [done|]. exists O. split; [lia|done]. }
  case_bool_decide as Hin; [|by apply Hstop].
  destruct k as [|k]; [done|].
  specialize (IH (next_cid h) s (next_cid_range h)).
  assert (Eit : forall j, iter j (next_cid h) = iter (S j) h).
  { intros j. unfold iter. by rewrite <-Nat.iter_succ_r. }
  destruct (probe n (next_cid h) s) as [[h' s']|e].
  - destruct IH as (-> & ? & ? & k' & ? & -> & Hk'). { exists k. rewrite Eit. split; [lia|done]. }
    split_and!; [done..|lia|lia|]. exists (S k'). rewrite Eit. split_and!; [lia|done|].
    intros [|j] Hj; [done|]. rewrite <-Eit. apply Hk'. lia.
  - destruct IH as (-> & k' & ? & ?). { exists k. rewrite Eit. split; [lia|done]. }
    split; [done|]. exists (S k'). rewrite <-Eit. split; [lia|done].
Qed.

Lemma free_in_orbit (U : gset Z) h :
  0 <= h < 2 ^ 32 -> Z.of_nat (size U) < 2 ^ 31 ->
  exists k, (k < S (size U))%nat /\ iter k h ∉ U.
Proof.
  intros Hh HU.
  destruct (decide (Exists (fun k => iter k h ∉ U) (seq 0 (S (size U))))) as [He|Hn].
  - apply Exists_exists in He as (k & Hk%in_seq & ?). exists k. split; [lia|done].
  - exfalso. assert (S (size U) <= size U)%nat; [|lia].
    apply (orbit_escapes U h); [done|lia|].
    intros k Hk. destruct (decide (iter k h ∈ U)) as [|Hno]; [done|]. exfalso. apply Hn.
    apply Exists_exists. exists k. split; [apply in_seq; lia|done].
Qed.

(** The identifier that is tried first. *)
Definition candidate (cfg : config) (Inst : inst) (s : pass) : Z :=
  let r := u32 (u64 (RandSeed s * 1103515245 + 12345)) in
  if gen_id_random cfg then r
  else match i_loc Inst with Some (_, line, col) => location_id cfg line col | None => r end.

Lemma candidate_range cfg Inst s : 0 <= candidate cfg Inst s < 2 ^ 32.
Proof.
  unfold candidate, location_id. repeat case_match; by apply wrap_range.
Qed.

(** The record of an identifier: what is left of [getInstructionId] after the
    search. *)
Lemma record_id cfg Inst (h : Z) s :
  exists s',
    (when (output_cond_loc cfg) (log_id Inst h) ;;;
     modify (fun s => with_ids (CidCounter s) (UniqCidSet s) (<[ i_id Inst := h ]> (IdMap s)) s) ;;;
     ret h) s = Ok (h, s') /\
    UniqCidSet s' = UniqCidSet s /\ IdMap s' = <[ i_id Inst := h ]> (IdMap s) /\
    blocks s' = blocks s /\ fresh s' = fresh s /\ CidCounter s' = CidCounter s.
Proof.
  unfold log_id, when. destruct (output_cond_loc cfg); cbn; [|eauto 10].
  destruct (i_loc Inst) as [[[f l] c]|]; cbn; eauto 10.
Qed.

(** As long as fewer than 2^31 identifiers are in use, [getInstructionId]
    terminates on a source module.  It gives the instruction an identifier of 32
    bits that was not in use, records it, and leaves the code as it is.  It can
    only fail on the keys that [DenseSet] reserves: then one of the first
    candidates is 2^32-1 or 2^32-2, and the assertion of LLVM fails. *)
Theorem getInstructionId_fresh cfg Inst s :
  is_bc cfg = false -> Z.of_nat (size (UniqCidSet s)) < 2 ^ 31 ->
  match getInstructionId cfg Inst s with
  | Ok (h, s') =>
      (h ∉ UniqCidSet s) /\ 0 <= h < 2 ^ 32 /\
      UniqCidSet s' = {[ h ]} ∪ UniqCidSet s /\
      IdMap s' = <[ i_id Inst := h ]> (IdMap s) /\
      blocks s' = blocks s /\ fresh s' = fresh s
  | Fault e =>
      e = AssertFailed /\
      exists k, (k <= size (UniqCidSet s))%nat /\
        reserved_key (iter k (candidate cfg Inst s)) = true
  end.
Proof.
  intros Hbc Hs. unfold getInstructionId. rewrite Hbc.
  assert (exists s1, (if gen_id_random cfg then getRandomInstructionId
     else match i_loc Inst with
          | Some (_, line, col) => ret (location_id cfg line col)
          | None => getRandomInstructionId
          end) s = Ok (candidate cfg Inst s, s1) /\
    UniqCidSet s1 = UniqCidSet s /\ IdMap s1 = IdMap s /\
    blocks s1 = blocks s /\ fresh s1 = fresh s) as (s1 & E1 & EU & EM & EB & EF).
  { unfold candidate. destruct (gen_id_random cfg), (i_loc Inst) as [[[f l] c]|];
      eexists; split_and!; reflexivity. }
  unfold bind at 1. rewrite (bind_Ok _ _ _ _ _ E1), (bind_Ok (gets UniqCidSet) _ s1 _ _ eq_refl).
  pose proof (probe_spec (S (size (UniqCidSet s1))) (candidate cfg Inst s) s1
    (candidate_range _ _ _)) as Hp.
  rewrite EU in Hp |- *. specialize (Hp (free_in_orbit _ _ (candidate_range _ _ _) Hs)).
  unfold bind at 1. destruct (probe _ _ s1) as [[h s2]|e].
  - destruct Hp as (-> & Hfree & Hr & k & Hk & -> & _).
    unfold bind at 1, uniq_insert. destruct (reserved_key _) eqn:Er; cbn.
    { split; [done|]. exists k. split; [lia|done]. }
    set (h := iter k _) in *.
    destruct (record_id cfg Inst h (with_ids (CidCounter s1) ({[h]} ∪ UniqCidSet s1) (IdMap s1) s1))
      as (s3 & -> & ? & ? & ? & ? & ?); cbn in *.
    split_and!; [done|lia|lia|congruence..].
  - destruct Hp as (-> & k & Hk & ?). split; [done|]. exists k. split; [lia|done].
Qed.

(** ** Identifiers of a module *)

(** Every identifier handed out is in the set, and no two instructions share one. *)
Definition IdOk (s : pass) : Prop :=
  (forall i h, IdMap s !! i = Some h -> h ∈ UniqCidSet s) /\
  (forall i j h, IdMap s !! i = Some h -> IdMap s !! j = Some h -> i = j).
Definition ids_step (s s' : pass) : Prop := IdOk s -> IdOk s'.

#[export] Instance ids_step_preorder : PreOrder ids_step.
Proof. split; [intros s H; exact H|]. intros s1 s2 s3 H1 H2 H. by apply H2, H1. Qed.

(** What does not touch the identifiers keeps them in order. *)
Lemma ids_step_same s s' :
  UniqCidSet s' = UniqCidSet s -> IdMap s' = IdMap s -> ids_step s s'.
Proof. intros EU EM [H1 H2]. split; rewrite EM; [by rewrite EU|done]. Qed.

Lemma ids_step_insert s s' i h :
  h ∉ UniqCidSet s -> UniqCidSet s' = {[ h ]} ∪ UniqCidSet s ->
  IdMap s' = <[ i := h ]> (IdMap s) -> ids_step s s'.
Proof.
  intros Hh EU EM [H1 H2]. split; rewrite EM, ?EU.
  - intros j h' [[-> ->]|[? Hj]]%lookup_insert_Some; [set_solver|]. apply H1 in Hj. set_solver.
  - intros j k h' [[-> ->]|[? Hj]]%lookup_insert_Some [[-> E]|[? Hk]]%lookup_insert_Some;
      [done| | |by eapply H2].
    + by apply H1 in Hk.
    + subst. by apply H1 in Hj.
Qed.

Lemma probe_Ok fuel h s h' s' : probe fuel h s = Ok (h', s') -> s' = s /\ h' ∉ UniqCidSet s.
Proof.
  revert h. induction fuel as [|n IH]; [done|]. intros h. cbn [probe].
  unfold uniq_count. intros (c & s1 & E1 & E2)%bind_Ok_inv.
  unfold bind, gets, ret, fail in E1.
  destruct (decide _) as [E|_]; [|destruct (reserved_key h); [done|]].
  - injection E1 as <- <-. injection E2 as <- <-. split; [done|]. rewrite E. set_solver.
  - injection E1 as <- <-. case_bool_decide; [by apply IH in E2|]. by injection E2 as <- <-.
Qed.

Lemma ids_getInstructionId cfg Inst :
  is_bc cfg = false -> always ids_step (getInstructionId cfg Inst).
Proof.
  intros Hbc s a s' E. unfold getInstructionId in E. rewrite Hbc in E.
  apply bind_Ok_inv in E as (h & s1 & E & E').
  destruct (record_id cfg Inst h s1) as (s2 & E2 & EU & EM & _).
  rewrite E2 in E'. injection E' as <- <-.
  apply bind_Ok_inv in E as (h0 & s3 & E3 & E).
  apply bind_Ok_inv in E as (U & s4 & [= <- <-] & E).
  apply bind_Ok_inv in E as (h1 & s5 & [-> Hfree]%probe_Ok & E).
  assert (UniqCidSet s3 = UniqCidSet s /\ IdMap s3 = IdMap s) as [EU3 EM3].
  { destruct (gen_id_random cfg), (i_loc Inst) as [[[f l] c]|]; by injection E3 as <- <-. }
  unfold uniq_insert, bind in E. destruct (reserved_key h1); [done|].
  injection E as <- <-. cbn in EU, EM.
  eapply ids_step_insert; [by rewrite <-EU3|by rewrite EU, EU3|by rewrite EM, EM3].
Qed.

Lemma ids_passstep cfg rnd : is_bc cfg = false -> PassStep cfg rnd (fun _ => True) ids_step.
Proof.
  intros Hbc. split; try exact _; intros; try by apply ids_getInstructionId.
  1: eauto.
  all: unfold new_id, emit, setInsNonSan_id, SplitBlockAndInsertIfThen, random, getRandomNum,
         erase_unused.
  all: intros s a s' E; apply ids_step_same; unfold bind, new_id, modify, gets, when, ret, fail in E;
    repeat case_match; by simplify_eq/=.
Qed.

Lemma ids_functions cfg rnd inS opn Fs :
  is_bc cfg = false -> always ids_step (instrument_functions cfg rnd inS opn Fs).
Proof.
  intros Hbc. pose proof (ids_passstep cfg rnd Hbc).
  assert (Hload : forall f, always ids_step (modify (with_blocks f))).
  { intros f. apply always_modify. intros s. by apply ids_step_same. }
  induction Fs as [|F Fs IH]; cbn [instrument_functions]; unfold instrument_function; always_auto.
Qed.

(** C25: when a source module has been instrumented, no two of its instructions
    have the same comparison identifier, and every identifier is in the set of
    those in use. *)
Theorem instrumented_ids_unique H Track DFSan name m r :
  ends_with_bc name = false ->
  runOnModule H Track DFSan name m = Ok r -> IdOk (r_pass r).
Proof.
  intros Hname E. unfold runOnModule in E.
  destruct (initVariables H _ Track name (first_fresh m)) as [[cfg s]|e] eqn:Ei; [|done].
  assert (IdOk s /\ is_bc cfg = false) as [Hok Hbc].
  { unfold initVariables, res_bind in Ei. repeat case_match; simplify_eq/=.
    all: split; [by split|done]. }
  cbn in E. destruct DFSan; [by injection E as <-|].
  destruct (instrument_functions _ _ _ _ m s) as [[m' s']|e] eqn:Em; [|done].
  injection E as <-. by apply (ids_functions _ _ _ _ _ Hbc _ _ _ Em).
Qed.
