(* ===== verification/AngoraPassKeep.v ===== *)
(** * The instrumentation pass keeps the program

    What the pass of [AngoraPass.cc] adds is interleaved with the code of the
    program; nothing of the program is lost, changed or reordered, except that
    unused calls of the function that marks unfolded branches are erased. *)

From S2P Require Import Prelude PassIr AngoraPass AngoraPassLogic.
Local Open Scope Z_scope.

Lemma filter_all_true {A} (P : A -> Prop) `{!forall x, Decision (P x)} (l : list A) :
  (forall x, x ∈ l -> P x) -> filter P l = l.
Proof.
  induction l as [|x l IH]; intros Hl; [done|].
  rewrite filter_cons_True by (apply Hl; left). f_equal. apply IH. intros y Hy.
  apply Hl. by right.
Qed.

(** An instruction without its metadata and without the block names of a phi,
    which change when a predecessor is split. *)
Definition strip (k : ikind) : ikind :=
  match k with KPhi inc => KPhi ((fun x => (x.1, 0)) <$> inc) | _ => k end.
Definition core (i : inst) : inst := mkInst (i_id i) (strip (i_kind i)) (i_ty i) false (i_loc i).

(** The instructions of the program in a function: those with addresses below [n]. *)
Definition program_code (n : Z) (bs : list block) : list inst :=
  core <$> filter (fun i => i_id i < n) (block_insts bs).

Lemma filter_core (D : list Z) (l : list inst) :
  filter (fun i => i_id i ∉ D) (core <$> l) = core <$> filter (fun i => i_id i ∉ D) l.
Proof.
  induction l as [|i l IH]; [done|]. rewrite fmap_cons, !filter_cons. cbn [i_id core].
  case_decide; [by rewrite fmap_cons, IH|done].
Qed.

Section Keep.
Context (n : Z) (E : list Z).

Definition Good (i : inst) : Prop := is_unfold (i_kind i) = true -> i_id i ∈ E.
Definition Goods (s : pass) : Prop := forall i, i ∈ block_insts (blocks s) -> Good i.

(** [s'] has the program code of [s] except for some of the instructions [E]. *)
Definition keeps (s s' : pass) : Prop :=
  Goods s -> n <= fresh s ->
  Goods s' /\ n <= fresh s' /\
  exists D, D ⊆ E /\
    program_code n (blocks s') = filter (fun i => i_id i ∉ D) (program_code n (blocks s)).

#[export] Instance keeps_preorder : PreOrder keeps.
Proof.
  split.
  - intros s Hg Hn. split_and!; [done..|]. exists []. split; [apply list_subseteq_nil|].
    symmetry. apply filter_all_true. set_solver.
  - intros s1 s2 s3 H1 H2 Hg Hn.
    destruct (H1 Hg Hn) as (Hg2 & Hn2 & D1 & HD1 & E1).
    destruct (H2 Hg2 Hn2) as (Hg3 & Hn3 & D2 & HD2 & E2).
    split_and!; [done..|]. exists (D1 ++ D2). split; [set_solver|].
    rewrite E2, E1, list_filter_filter. apply list_filter_iff. set_solver.
Qed.

(** Enough for a step that erases nothing. *)
Lemma keeps_intro s s' :
  (Goods s -> Goods s') -> fresh s <= fresh s' ->
  (n <= fresh s -> program_code n (blocks s') = program_code n (blocks s)) -> keeps s s'.
Proof.
  intros HG Hf Hc Hg Hn. split_and!; [by apply HG|lia|]. exists [].
  split; [apply list_subseteq_nil|].
  rewrite Hc by done. symmetry. apply filter_all_true. set_solver.
Qed.
Lemma keeps_same s s' : blocks s' = blocks s -> fresh s <= fresh s' -> keeps s s'.
Proof. intros Eb Hf. apply keeps_intro; [|done|by rewrite Eb]. unfold Goods. by rewrite Eb. Qed.

(** *** Changing the blocks one by one *)

Definition code_of (l : list inst) : list inst := core <$> filter (fun i => i_id i < n) l.

Lemma program_code_bind bs : program_code n bs = (b ← bs; code_of (b_insts b)).
Proof.
  unfold program_code, block_insts, code_of. induction bs as [|b bs IH]; [done|].
  cbn. by rewrite list.filter_app, fmap_app, IH.
Qed.

(** A change that keeps the code and the quality of every block. *)
Definition fine (f : list inst -> list inst) : Prop :=
  forall l, code_of (f l) = code_of l /\
    ((forall i, i ∈ l -> Good i) -> forall i, i ∈ f l -> Good i).

Lemma block_insts_map f bs : block_insts (on_insts f <$> bs) = (b ← bs; f (b_insts b)).
Proof. unfold block_insts. induction bs as [|b bs IH]; [done|]. cbn. by rewrite IH. Qed.

Lemma goods_map f bs :
  fine f -> (forall i, i ∈ block_insts bs -> Good i) ->
  forall i, i ∈ block_insts (on_insts f <$> bs) -> Good i.
Proof.
  intros Hf Hg i. rewrite block_insts_map, list_elem_of_bind. intros (b & Hi & Hb).
  apply (Hf (b_insts b)); [|done]. intros j Hj. apply Hg, list_elem_of_bind. eauto.
Qed.

Lemma code_map f bs : fine f -> program_code n (on_insts f <$> bs) = program_code n bs.
Proof.
  intros Hf. rewrite !program_code_bind. induction bs as [|b bs IH]; [done|].
  rewrite fmap_cons, !bind_cons, IH. f_equal. apply (proj1 (Hf (b_insts b))).
Qed.

Lemma keeps_map f s : fine f -> keeps s (with_blocks (fmap (on_insts f)) s).
Proof.
  intros Hf. apply keeps_intro; [|done|]; cbn.
  - intros Hg. exact (goods_map f _ Hf Hg).
  - intros _. by apply code_map.
Qed.

Lemma fine_map f : (forall i, core (f i) = core i /\ is_unfold (i_kind (f i)) = is_unfold (i_kind i)) ->
  fine (fmap f).
Proof.
  intros Hf l. assert (Hid : forall i, i_id (f i) = i_id i).
  { intros i. destruct (Hf i) as [E1 _]. by injection E1. }
  split.
  - unfold code_of. induction l as [|i l IH]; [done|]. rewrite fmap_cons, !filter_cons, Hid.
    case_decide; [|done]. cbn. by rewrite IH, (proj1 (Hf i)).
  - intros Hg i (j & -> & Hj)%list_elem_of_fmap. intros Hu. rewrite Hid.
    apply Hg; [done|]. by rewrite <-(proj2 (Hf j)).
Qed.

Lemma fine_nosan p : fine (fmap (set_nosan p)).
Proof. apply fine_map. intros i. unfold set_nosan. by destruct (i_id i =? p). Qed.

Lemma fine_phi_rename a b : fine (fmap (phi_rename a b)).
Proof.
  apply fine_map. intros i. unfold phi_rename, core. destruct (i_kind i) eqn:Ek; rewrite ?Ek; try done.
  cbn. split; [|done]. f_equal. f_equal. rewrite <-list_fmap_compose. by apply list_fmap_ext.
Qed.

Lemma fine_ins_before p x : n <= i_id x -> is_unfold (i_kind x) = false -> fine (ins_before p x).
Proof.
  intros Hn Hu l. unfold code_of. induction l as [|i l [IH1 IH2]]; [done|]. cbn [ins_before].
  destruct (i_id i =? p).
  - split; [by rewrite filter_cons_False by lia|].
    intros Hg j [->|Hj]%elem_of_cons; [unfold Good; by rewrite Hu|by apply Hg].
  - split.
    + rewrite !filter_cons. case_decide; [|done]. cbn. by rewrite IH1.
    + intros Hg j [->|Hj]%elem_of_cons; [apply Hg; left|].
      apply IH2; [|done]. intros k Hk. apply Hg. by right.
Qed.

(** *** The primitives of the pass *)

Lemma keeps_trans s1 s2 s3 : keeps s1 s2 -> keeps s2 s3 -> keeps s1 s3.
Proof. apply PreOrder_Transitive. Qed.

Lemma keeps_emit b k t : is_unfold k = false -> always keeps (emit b k t).
Proof.
  intros Hk s a s' [= <- <-] Hg Hn.
  assert (Hf : fine (ins_before (ir_point b) (mkInst (fresh s) k t false (ir_loc b))))
    by (by apply fine_ins_before).
  pose proof (keeps_map _ (with_fresh s) Hf) as Hm.
  apply (keeps_trans _ (with_fresh s)); [|exact Hm|done|done].
  apply keeps_same; [done|cbn; lia].
Qed.

Lemma split_at_app p l a b : split_at p l = Some (a, b) -> l = a ++ b.
Proof.
  revert a b. induction l as [|i l IH]; intros a b; [done|]. cbn.
  destruct (i_id i =? p); [by intros [= <- <-]|].
  destruct (split_at p l) as [[a' b']|]; [|done]. intros [= <- <-]. cbn. by rewrite (IH a' b').
Qed.

Lemma split_block_code p tailb h c thenb b :
  n <= i_id h -> n <= i_id c ->
  code_of (block_insts (split_block p tailb h c thenb b)) = code_of (b_insts b).
Proof.
  intros Hh Hc. unfold split_block. destruct (split_at p (b_insts b)) as [[pre post]|] eqn:E1.
  2:{ cbn. by rewrite app_nil_r. }
  apply split_at_app in E1. rewrite E1.
  assert (block_insts [mkBlock (b_id b) (pre ++ [h]); mkBlock thenb [c]; mkBlock tailb post] =
    (pre ++ [h]) ++ [c] ++ post) as -> by (cbn; by rewrite app_nil_r).
  unfold code_of. rewrite !list.filter_app, !filter_cons, !filter_nil, !decide_False by lia.
  by rewrite app_nil_r.
Qed.

Lemma split_block_insts p tailb h c thenb b i :
  i ∈ block_insts (split_block p tailb h c thenb b) -> i = h \/ i = c \/ i ∈ b_insts b.
Proof.
  unfold split_block. destruct (split_at p (b_insts b)) as [[pre post]|] eqn:E1.
  2:{ cbn. rewrite app_nil_r. auto. }
  apply split_at_app in E1. rewrite E1. unfold block_insts. cbn. set_solver.
Qed.

Lemma keeps_split_function p from tailb thenb h c s :
  n <= i_id h -> n <= i_id c -> is_unfold (i_kind h) = false -> is_unfold (i_kind c) = false ->
  keeps s (with_blocks (split_function p from tailb thenb h c) s).
Proof.
  intros Hh Hc Hkh Hkc. unfold split_function. apply keeps_intro; [|done|]; cbn [blocks with_blocks].
  - intros Hg. refine (goods_map _ _ (fine_phi_rename _ _) _). intros i.
    unfold block_insts at 1. rewrite list_elem_of_bind. intros (b & Hi & Hb).
    apply list_elem_of_bind in Hb as (b0 & Hb & Hb0).
    assert (Hin : i ∈ block_insts (split_block p tailb h c thenb b0)).
    { apply list_elem_of_bind. eauto. }
    apply split_block_insts in Hin as [->|[->|Hin]]; unfold Good; [by rewrite Hkh|by rewrite Hkc|].
    apply Hg, list_elem_of_bind. eauto.
  - intros _. rewrite code_map by apply fine_phi_rename. unfold program_code.
    induction (blocks s) as [|b bs IH]; [done|].
    rewrite bind_cons. unfold block_insts at 1 2. rewrite bind_app, bind_cons.
    rewrite !list.filter_app, !fmap_app. f_equal; [by apply split_block_code|apply IH].
Qed.

Lemma keeps_split cnd i : always keeps (SplitBlockAndInsertIfThen cnd i).
Proof.
  intros s a s' E1 Hg Hn. unfold SplitBlockAndInsertIfThen, bind, new_id, gets in E1. cbn in E1.
  destruct (block_of (i_id i) (blocks s)) as [b|]; [|done]. injection E1 as <- <-.
  set (s4 := with_fresh (with_fresh (with_fresh (with_fresh s)))).
  apply (keeps_trans _ s4); [by apply keeps_same; [|cbn; lia]| |done|done].
  apply keeps_split_function; cbn; try lia; done.
Qed.

Lemma erase_code p l :
  code_of (erase_inst p l) = filter (fun i => i_id i ∉ [p]) (code_of l).
Proof.
  unfold code_of, erase_inst. induction l as [|j l IH]; [done|].
  rewrite (filter_cons _ j l), (filter_cons (fun i => i_id i < n) j l).
  destruct (decide (i_id j ≠ p)) as [Hp|Hp]; destruct (decide (i_id j < n)) as [Hn|Hn].
  - rewrite (filter_cons_True _ j) by done. rewrite !fmap_cons, filter_cons_True, IH; [done|].
    cbn. set_solver.
  - rewrite (filter_cons_False _ j) by done. exact IH.
  - rewrite fmap_cons, filter_cons_False, IH; [done|]. cbn. set_solver.
  - exact IH.
Qed.

Lemma keeps_erase i : Good i -> is_unfold (i_kind i) = true -> always keeps (erase_unused i).
Proof.
  intros Hi Hu s a s' E1. unfold erase_unused, bind, gets, when in E1.
  destruct (use_empty _ _); [|by injection E1 as <- <-]. injection E1 as <- <-.
  intros Hg Hn. split_and!; cbn [blocks with_blocks fresh]; [|done|].
  - intros j. cbn [blocks with_blocks]. rewrite block_insts_map, list_elem_of_bind. intros (b & Hj & Hb).
    apply list_elem_of_filter in Hj as [_ Hj]. apply Hg, list_elem_of_bind. eauto.
  - exists [i_id i]. split; [intros d ->%list_elem_of_singleton; by apply Hi|].
    rewrite !program_code_bind. clear. induction (blocks s) as [|b bs IH]; [done|].
    rewrite fmap_cons, !bind_cons, list.filter_app, IH. f_equal. clear IH.
    apply erase_code.
Qed.

Lemma keeps_modify f : (forall s, blocks (f s) = blocks s /\ fresh (f s) = fresh s) ->
  always keeps (modify f).
Proof.
  intros Hf. apply always_modify. intros s. destruct (Hf s). apply keeps_same; [done|lia].
Qed.
Lemma keeps_seed : always keeps getRandomNum.
Proof. intros s a s' [= <- <-]. by apply keeps_same. Qed.
Lemma keeps_probe fuel h : always keeps (probe fuel h).
Proof.
  revert h. induction fuel as [|m IH]; intros h; cbn [probe]; unfold uniq_count; always_auto.
Qed.
Lemma keeps_getInstructionId cfg i : always keeps (getInstructionId cfg i).
Proof.
  unfold getInstructionId, log_id, uniq_insert, getRandomInstructionId.
  always_auto; first [by apply keeps_modify | apply keeps_seed | apply keeps_probe].
Qed.

Lemma keeps_passstep cfg rnd : PassStep cfg rnd Good keeps.
Proof.
  split; try exact _; intros.
  - intros Hg Hn. by apply (H Hg).
  - intros s a s' [= <- <-]. apply keeps_same; [done|cbn; lia].
  - by apply keeps_emit.
  - apply always_modify. intros s. apply keeps_map, fine_nosan.
  - apply keeps_split.
  - intros s a s' [= <- <-]. by apply keeps_same.
  - apply keeps_seed.
  - by apply keeps_modify.
  - by apply keeps_modify.
  - apply keeps_getInstructionId.
  - by apply keeps_erase.
Qed.
End Keep.

(** ** Functions and modules *)

Definition unfold_calls (F : func) : list Z :=
  i_id <$> filter (fun i => is_unfold (i_kind i) = true) (block_insts (f_blocks F)).

(** [F'] is [F] with additions: below the address [n] it has the code of [F], in
    order, except for some calls of the unfolding marker. *)
Definition extends (n : Z) (F F' : func) : Prop :=
  f_name F' = f_name F /\
  exists D, D ⊆ unfold_calls F /\
    program_code n (f_blocks F') =
      filter (fun i => i_id i ∉ D) (program_code n (f_blocks F)).

Lemma extends_refl n F : extends n F F.
Proof.
  split; [done|]. exists []. split; [apply list_subseteq_nil|].
  symmetry. apply filter_all_true. set_solver.
Qed.

Lemma extends_function cfg rnd inS opn n F s F' s' :
  n <= fresh s -> instrument_function cfg rnd inS opn F s = Ok (F', s') ->
  extends n F F' /\ n <= fresh s'.
Proof.
  intros Hn E. unfold instrument_function in E.
  destruct (_ || _); [injection E as <- <-; split; [apply extends_refl|done]|].
  set (s0 := with_blocks (fun _ => f_blocks F) s) in *.
  pose proof (keeps_passstep n (unfold_calls F) cfg rnd) as HR.
  assert (Hk : always (keeps n (unfold_calls F))
    (addFnWrap cfg ;;; (bs <- gets blocks ;; instrument_blocks cfg rnd inS opn (b_id <$> bs)))).
  { always_auto. }
  apply bind_Ok_inv in E as (? & s1 & [= <- <-] & E).
  apply bind_Ok_inv in E as (? & s2 & E2 & E). apply bind_Ok_inv in E as (bs & s3 & [= <- <-] & E).
  apply bind_Ok_inv in E as ([] & s4 & E4 & E). injection E as <- <-.
  destruct (Hk s0 tt s4) as (_ & Hn4 & D & HD & HE).
  - unfold bind at 1. fold s0 in E2. rewrite E2. exact E4.
  - intros i Hi Hu. apply list_elem_of_fmap. exists i. split; [done|].
    by apply list_elem_of_filter.
  - done.
  - split; [|done]. split; [done|]. by exists D.
Qed.

Lemma extends_functions cfg rnd inS opn n Fs : forall s Fs' s',
  n <= fresh s -> instrument_functions cfg rnd inS opn Fs s = Ok (Fs', s') ->
  Forall2 (extends n) Fs Fs'.
Proof.
  induction Fs as [|F Fs IH]; intros s Fs' s' Hn E; [by injection E as <- <-|].
  apply bind_Ok_inv in E as (F' & s1 & E1 & E).
  apply bind_Ok_inv in E as (Fs1 & s2 & E2 & E). injection E as <- <-.
  apply (extends_function _ _ _ _ n) in E1 as [? ?]; [|done]. constructor; [done|]. eauto.
Qed.

Lemma addresses_below m F i :
  F ∈ m -> i ∈ block_insts (f_blocks F) -> i_id i < first_fresh m.
Proof.
  intros HF Hi. unfold first_fresh. assert (Ha : i_id i ∈ addresses m).
  { unfold addresses. apply list_elem_of_bind. exists F. split; [|done].
    apply list_elem_of_bind in Hi as (b & Hi & Hb). apply list_elem_of_bind. exists b.
    split; [|done]. right. apply list_elem_of_fmap. eauto. }
  clear Hi. induction (addresses m) as [|x l IH]; [by apply not_elem_of_nil in Ha|].
  cbn. apply elem_of_cons in Ha as [->|Ha]; [lia|]. specialize (IH Ha). lia.
Qed.

(** C10: the instrumented module has the functions of the program under their
    names.  Without what the pass added, each has the instructions it had, in the
    same order, with the same operands, types and locations.  The only
    exceptions are calls of the function that marks unfolded branches, which may
    have been erased. *)
Theorem instrumentation_keeps_program H Track DFSan name m r :
  runOnModule H Track DFSan name m = Ok r ->
  Forall2 (fun F F' =>
    f_name F' = f_name F /\
    exists erased : list Z,
      (forall d, d ∈ erased -> exists i args, i ∈ block_insts (f_blocks F) /\ i_id i = d /\
         i_kind i = KCall (OFun unfold_branch_fn) args) /\
      program_code (first_fresh m) (f_blocks F') =
        core <$> filter (fun i => i_id i ∉ erased) (block_insts (f_blocks F)))
    m (r_functions r).
Proof.
  intros E. unfold runOnModule in E.
  destruct (initVariables H _ Track name (first_fresh m)) as [[cfg s]|e] eqn:Ei; [|done].
  assert (Hn : first_fresh m <= fresh s).
  { unfold initVariables, res_bind in Ei. repeat case_match; simplify_eq/=; lia. }
  assert (Hx : Forall2 (extends (first_fresh m)) m (r_functions r)).
  { cbn in E. destruct DFSan.
    - injection E as <-. apply Forall_Forall2_diag, Forall_forall. intros F _. apply extends_refl.
    - destruct (instrument_functions _ _ _ _ m s) as [[m' s']|e] eqn:Em; [|done].
      injection E as <-. by eapply extends_functions. }
  apply Forall2_same_length_lookup in Hx as [Hlen Hx]. apply Forall2_same_length_lookup.
  split; [done|]. intros k F F' HF HF'. destruct (Hx k F F' HF HF') as (Hname & D & HD & Ec).
  split; [done|]. exists D. split.
  - intros d Hd. apply HD in Hd. unfold unfold_calls in Hd.
    apply list_elem_of_fmap in Hd as (i & -> & [Hu Hi]%list_elem_of_filter).
    unfold is_unfold in Hu. destruct (i_kind i) as [| | | | | |c args| | | | | | | | |] eqn:Ek; try done.
    destruct c; try done. apply bool_decide_eq_true in Hu as ->. by exists i, args.
  - rewrite Ec. unfold program_code. rewrite (filter_all_true (fun i => i_id i < first_fresh m)).
    + apply filter_core.
    + intros i Hi. eapply addresses_below; [by eapply list_elem_of_lookup_2|done].
Qed.
