(* ===== verification/AngoraPassCode.v ===== *)
(** * The code that the instrumentation pass emits

    A machine that runs the instructions of PassIr.v that the pass of
    [AngoraPass.cc] emits, and what the emitted code does: the edge counters, the
    calling context and the calls of the tracing functions. *)

From S2P Require Import Prelude PassIr AngoraPass.
Local Open Scope Z_scope.

(** ** The machine *)

Record mach := mkMach {
  regs : gmap Z Z;                      (* results of instructions *)
  params : gmap Z Z;                    (* parameters of the function *)
  gvars : gmap string Z;                (* contents of the global variables *)
  area : gmap Z Z;                      (* the bytes of the branch-count map *)
  calls : list (string * list Z)        (* calls of the tracing functions *)
}.

Definition set_reg (p v : Z) (m : mach) : mach :=
  mkMach (<[ p := v ]> (regs m)) (params m) (gvars m) (area m) (calls m).
Definition set_gvar (n : string) (v : Z) (m : mach) : mach :=
  mkMach (regs m) (params m) (<[ n := v ]> (gvars m)) (area m) (calls m).
Definition set_area (a v : Z) (m : mach) : mach :=
  mkMach (regs m) (params m) (gvars m) (<[ a := v ]> (area m)) (calls m).
Definition add_call (f : string) (args : list Z) (m : mach) : mach :=
  mkMach (regs m) (params m) (gvars m) (area m) (calls m ++ [(f, args)]).

Fixpoint eval (m : mach) (o : operand) : option Z :=
  match o with
  | OReg p _ _ => regs m !! p
  | OArg p _ => params m !! p
  | OInt _ z => Some z
  | OArray p => Some p
  | OCast (CZExt | CPtrToInt | CBitCast) o' _ => eval m o'
  | _ => None
  end.

(** [None] is undefined behaviour: a poison value or an access outside the map. *)
Definition exec_inst (i : inst) (m : mach) : option mach :=
  match i_kind i with
  | KLoad (OGlobal n) => v ← gvars m !! n; Some (set_reg (i_id i) v m)
  | KLoad o => a ← eval m o; v ← area m !! a; Some (set_reg (i_id i) v m)
  | KStore v (OGlobal n) => x ← eval m v; Some (set_gvar n x m)
  | KStore v o =>
      x ← eval m v; a ← eval m o; _ ← area m !! a; Some (set_area a x m)
  | KBin b x y =>
      p ← eval m x; q ← eval m y;
      z ← fold_bin b (getIntegerBitWidth (i_ty i)) p q; Some (set_reg (i_id i) z m)
  | KCmp 32 x y =>
      p ← eval m x; q ← eval m y; Some (set_reg (i_id i) (if p =? q then 1 else 0) m)
  | KCast (CZExt | CPtrToInt) x => p ← eval m x; Some (set_reg (i_id i) p m)
  | KGEP base idx =>
      p ← eval m base; q ← eval m idx;
      Some (set_reg (i_id i) (p + signed (getIntegerBitWidth (getType idx)) q) m)
  | KCall (OFun f) args => xs ← mapM (eval m) args; Some (add_call f xs m)
  | _ => None
  end.
Fixpoint exec_list (l : list inst) (m : mach) : option mach :=
  match l with
  | [] => Some m
  | i :: r => m' ← exec_inst i m; exec_list r m'
  end.
(** Execution up to the instruction [stop], through branches. *)
Fixpoint run (fuel : nat) (bs : list block) (stop : Z) (l : list inst) (m : mach)
  : option mach :=
  match fuel, l with
  | S n, i :: r =>
      if i_id i =? stop then Some m else
      match i_kind i with
      | KBr b => t ← find_block bs b; run n bs stop (b_insts t) m
      | KCondBr c x y =>
          v ← eval m c; t ← find_block bs (if v =? 0 then y else x);
          run n bs stop (b_insts t) m
      | _ => m' ← exec_inst i m; run n bs stop r m'
      end
  | _, _ => None
  end.

(** ** Emitting code at a point *)

Definition wf (s : pass) : Prop :=
  NoDup (i_id <$> block_insts (blocks s)) /\
  (forall i, i ∈ block_insts (blocks s) -> i_id i < fresh s) /\
  NoDup (b_id <$> blocks s) /\
  (forall b, b ∈ blocks s -> b_id b < fresh s).

(** The function of [s], seen from the instruction [ip]. *)
Record at_point (s : pass) (A : list block) (b : Z) (pre : list inst) (ip : inst)
  (post : list inst) (C : list block) : Prop := {
  ap_blocks : blocks s = A ++ mkBlock b (pre ++ ip :: post) :: C;
  ap_wf : wf s
}.

Lemma ins_before_notin p x l : p ∉ (i_id <$> l) -> ins_before p x l = l.
Proof.
  induction l as [|i l IH]; [done|]. rewrite fmap_cons, not_elem_of_cons. intros [Hi Hl]. cbn.
  destruct (Z.eqb_spec (i_id i) p); [congruence|]. by rewrite IH.
Qed.
Lemma ins_before_at p x pre ip post :
  p = i_id ip -> p ∉ (i_id <$> pre) ->
  ins_before p x (pre ++ ip :: post) = pre ++ x :: ip :: post.
Proof.
  intros ->. induction pre as [|i pre IH]; cbn; [by rewrite Z.eqb_refl|].
  rewrite not_elem_of_cons. intros [Hi Hp].
  destruct (Z.eqb_spec (i_id i) (i_id ip)); [congruence|]. by rewrite IH.
Qed.

Lemma block_insts_app bs cs : block_insts (bs ++ cs) = block_insts bs ++ block_insts cs.
Proof. apply bind_app. Qed.
Lemma block_insts_cons b bs : block_insts (b :: bs) = b_insts b ++ block_insts bs.
Proof. apply bind_cons. Qed.

Lemma blocks_map_id f (bs : list block) :
  (forall b, b ∈ bs -> f (b_insts b) = b_insts b) -> on_insts f <$> bs = bs.
Proof.
  induction bs as [|b bs IH]; intros Hf; [done|]. rewrite fmap_cons, IH.
  - f_equal. unfold on_insts. rewrite Hf by left. by destruct b.
  - intros c Hc. apply Hf. by right.
Qed.

Lemma ids_of_block (bs : list block) b (p : Z) :
  b ∈ bs -> p ∈ (i_id <$> b_insts b) -> p ∈ (i_id <$> block_insts bs).
Proof.
  intros Hb (i & -> & Hi)%list_elem_of_fmap. apply list_elem_of_fmap. exists i. split; [done|].
  apply list_elem_of_bind. eauto.
Qed.

(** Where the point is, and where it is not. *)
Lemma at_point_unique s A b pre ip post C :
  at_point s A b pre ip post C ->
  (i_id ip ∉ (i_id <$> pre)) /\ (i_id ip ∉ (i_id <$> block_insts A)) /\
  (i_id ip ∉ (i_id <$> block_insts C)).
Proof.
  intros [Eb (Hnd & _)]. rewrite Eb, block_insts_app, block_insts_cons, !fmap_app in Hnd.
  cbn [b_insts] in Hnd. rewrite fmap_app, fmap_cons in Hnd.
  apply list.NoDup_app in Hnd as (_ & H1 & H2). apply list.NoDup_app in H2 as (H2 & H3 & _).
  apply list.NoDup_app in H2 as (_ & H4 & _).
  split_and!.
  - intros Hin. apply (H4 _ Hin). by left.
  - intros Hin. apply (H1 _ Hin). set_solver.
  - intros Hin. by apply (H3 (i_id ip)); [set_solver|].
Qed.

Lemma insert_blocks s A b pre ip post C x :
  at_point s A b pre ip post C ->
  on_insts (ins_before (i_id ip) x) <$> blocks s = A ++ mkBlock b (pre ++ x :: ip :: post) :: C.
Proof.
  intros Hp. destruct (at_point_unique _ _ _ _ _ _ _ Hp) as (H1 & H2 & H3).
  rewrite (ap_blocks _ _ _ _ _ _ _ Hp), fmap_app, fmap_cons. unfold on_insts at 2. cbn.
  rewrite ins_before_at by done.
  rewrite !blocks_map_id; [done| |];
    intros c Hc; apply ins_before_notin; intros Hin; [apply H3|apply H2]; by eapply ids_of_block.
Qed.

(** A new instruction at the point keeps the function well formed. *)
Lemma wf_insert s s' A b pre ip post C x :
  at_point s A b pre ip post C ->
  blocks s' = A ++ mkBlock b (pre ++ x :: ip :: post) :: C ->
  i_id x = fresh s -> fresh s' = fresh s + 1 -> wf s'.
Proof.
  intros [Eb (Hnd & Hlt & Hbnd & Hblt)] Eb' Hx Hf.
  assert (Hperm : block_insts (blocks s') ≡ₚ x :: block_insts (blocks s)).
  { rewrite Eb, Eb', !block_insts_app, !block_insts_cons. cbn [b_insts]. solve_Permutation. }
  assert (Hids : b_id <$> blocks s' = b_id <$> blocks s).
  { by rewrite Eb, Eb', !fmap_app, !fmap_cons. }
  unfold wf. rewrite Hids, Hf. split_and!.
  - rewrite Hperm, fmap_cons. constructor; [|done]. rewrite Hx.
    intros (i & Ei & Hi)%list_elem_of_fmap. apply Hlt in Hi. lia.
  - intros i. rewrite Hperm. intros [->|Hi]%elem_of_cons; [lia|]. apply Hlt in Hi. lia.
  - done.
  - intros c Hc. assert (Hc' : b_id c ∈ (b_id <$> blocks s')) by (apply list_elem_of_fmap; eauto).
    rewrite Hids in Hc'. apply list_elem_of_fmap in Hc' as (c0 & -> & Hc0).
    apply Hblt in Hc0. lia.
Qed.

Lemma set_nosan_blocks A b pre x l C :
  NoDup (i_id <$> block_insts (A ++ mkBlock b (pre ++ x :: l) :: C)) ->
  on_insts (fmap (set_nosan (i_id x))) <$> (A ++ mkBlock b (pre ++ x :: l) :: C) =
    A ++ mkBlock b (pre ++ set_nosan (i_id x) x :: l) :: C.
Proof.
  intros Hnd. rewrite block_insts_app, block_insts_cons, !fmap_app in Hnd. cbn [b_insts] in Hnd.
  rewrite fmap_app, fmap_cons in Hnd.
  assert (Hmap : forall k : list inst, i_id x ∉ (i_id <$> k) -> set_nosan (i_id x) <$> k = k).
  { induction k as [|i k IH]; [done|]. rewrite !fmap_cons, not_elem_of_cons. intros [Hi Hk].
    rewrite IH by done. unfold set_nosan. by destruct (Z.eqb_spec (i_id i) (i_id x)). }
  apply list.NoDup_app in Hnd as (_ & HA & Hnd). apply list.NoDup_app in Hnd as (Hnd & HC & _).
  apply list.NoDup_app in Hnd as (_ & Hpre & Hl). apply list.NoDup_cons in Hl as [Hl _].
  rewrite fmap_app, fmap_cons. unfold on_insts at 2. cbn [b_insts b_id].
  rewrite fmap_app, fmap_cons, !Hmap; [|done|intros Hin; apply (Hpre _ Hin); left].
  rewrite !blocks_map_id; [done| |]; intros c Hc; apply Hmap; intros Hin.
  - by apply (HC (i_id x)); [set_solver|eapply ids_of_block].
  - by apply (HA (i_id x)); [eapply ids_of_block|set_solver].
Qed.

Section Point.
Context (A : list block) (b : Z) (ip : inst) (post : list inst) (C : list block).
Notation "s '@' pre" := (at_point s A b pre ip post C) (at level 70).
Let IRB := IRB_at ip.

Definition new_inst (id : Z) (ns : bool) (k : ikind) (t : ty) : inst := mkInst id k t ns (i_loc ip).

Lemma emit_at s pre k t :
  s @ pre ->
  exists s', emit IRB k t s = Ok (OReg (fresh s) t (isCmpInst k), s') /\
    s' @ (pre ++ [new_inst (fresh s) false k t]) /\ fresh s' = fresh s + 1.
Proof.
  intros Hp. eexists. split; [reflexivity|].
  assert (Eb : blocks (with_blocks (fmap (on_insts (ins_before (i_id ip)
      (new_inst (fresh s) false k t)))) (with_fresh s)) =
    A ++ mkBlock b (pre ++ new_inst (fresh s) false k t :: ip :: post) :: C)
    by (cbn [blocks with_blocks with_fresh]; by apply insert_blocks).
  split; [|done]. split; [by rewrite <-app_assoc|]. by eapply wf_insert.
Qed.

(** Setting metadata changes neither the ids nor the freshness. *)
Lemma wf_same_ids s s' :
  wf s -> i_id <$> block_insts (blocks s') = i_id <$> block_insts (blocks s) ->
  b_id <$> blocks s' = b_id <$> blocks s -> fresh s' = fresh s -> wf s'.
Proof.
  intros (H1 & H2 & H3 & H4) E1 E2 Ef. unfold wf. rewrite E1, E2, Ef. split_and!; [done| |done|].
  - intros i Hi. assert (Hin : i_id i ∈ (i_id <$> block_insts (blocks s'))) by (apply list_elem_of_fmap; eauto).
    rewrite E1 in Hin. apply list_elem_of_fmap in Hin as (j & -> & Hj). by apply H2.
  - intros c Hc. assert (Hin : b_id c ∈ (b_id <$> blocks s')) by (apply list_elem_of_fmap; eauto).
    rewrite E2 in Hin. apply list_elem_of_fmap in Hin as (j & -> & Hj). by apply H4.
Qed.

Lemma nosan_at s pre x ns l :
  i_id x = l -> s @ (pre ++ [mkInst l (i_kind x) (i_ty x) ns (i_loc x)]) ->
  exists s', setInsNonSan_id l s = Ok (tt, s') /\
    s' @ (pre ++ [mkInst l (i_kind x) (i_ty x) true (i_loc x)]) /\ fresh s' = fresh s.
Proof.
  intros Hl Hp. eexists. split; [reflexivity|]. split; [|done].
  destruct Hp as [Eb Hwf]. rewrite <-app_assoc in Eb.
  set (y := mkInst l (i_kind x) (i_ty x) ns (i_loc x)) in *.
  change ([y] ++ ip :: post) with (y :: ip :: post) in Eb.
  assert (Eb' : blocks (with_blocks (fmap (on_insts (fmap (set_nosan l)))) s) =
     A ++ mkBlock b (pre ++ mkInst l (i_kind x) (i_ty x) true (i_loc x) :: ip :: post) :: C).
  { cbn [blocks with_blocks]. rewrite Eb. change (set_nosan l) with (set_nosan (i_id y)).
    rewrite (set_nosan_blocks A b pre y (ip :: post) C).
    - unfold set_nosan. cbn. by rewrite Z.eqb_refl.
    - rewrite <-Eb. apply Hwf. }
  split; [by rewrite <-app_assoc|].
  apply (wf_same_ids s); [done| | |done]; rewrite Eb', Eb.
  - by rewrite !block_insts_app, !block_insts_cons, !fmap_app; cbn [b_insts]; rewrite !fmap_app, !fmap_cons.
  - by rewrite !fmap_app, !fmap_cons.
Qed.

Lemma nosan_emit_at s pre k t :
  s @ pre ->
  exists s', nosan (emit IRB k t) s = Ok (OReg (fresh s) t (isCmpInst k), s') /\
    s' @ (pre ++ [new_inst (fresh s) true k t]) /\ fresh s' = fresh s + 1.
Proof.
  intros Hp. destruct (emit_at s pre k t Hp) as (s1 & E1 & Hp1 & F1).
  destruct (nosan_at s1 pre (new_inst (fresh s) false k t) false (fresh s) eq_refl Hp1)
    as (s2 & E2 & Hp2 & F2).
  exists s2. split_and!; [|exact Hp2|lia].
  unfold nosan. rewrite (bind_Ok _ _ _ _ _ E1). cbn [setValueNonSan]. by rewrite (bind_Ok _ _ _ _ _ E2).
Qed.

(** What is emitted for an edge: see [countEdge]. *)
Definition edge_counter (f cur : Z) : list inst :=
  let N k := new_inst k true in
  let f1 := f + 1 in let f2 := f1 + 1 in let f3 := f2 + 1 in let f4 := f3 + 1 in
  let f5 := f4 + 1 in let f6 := f5 + 1 in let f7 := f6 + 1 in let f8 := f7 + 1 in
  let f9 := f8 + 1 in
  [ N f (KLoad AngoraPrevLoc) Int32Ty;
    N f1 (KLoad AngoraMapPtr) TPtr;
    N f2 (KBin BXor (OReg f Int32Ty false) (OInt 32 cur)) Int32Ty;
    N f3 (KGEP (OReg f1 TPtr false) (OReg f2 Int32Ty false)) TPtr;
    N f4 (KLoad (OReg f3 TPtr false)) Int8Ty;
    N f5 (KBin BAdd (OReg f4 Int8Ty false) (OInt 8 1)) Int8Ty;
    N f6 (KCmp 32 (OReg f5 Int8Ty false) (OInt 8 0)) (TInt 1);
    N f7 (KCast CZExt (OReg f6 (TInt 1) true)) Int8Ty;
    N f8 (KBin BAdd (OReg f5 Int8Ty false) (OReg f7 Int8Ty false)) Int8Ty;
    N f9 (KStore (OReg f8 Int8Ty false) (OReg f3 TPtr false)) TVoid ].
Definition edge_prev_loc (ctx : Z) (f cur : Z) : list inst :=
  let N k := new_inst k true in
  if ctx =? 0 then [ N f (KStore (OInt 32 (Z.shiftr cur 1)) AngoraPrevLoc) TVoid ]
  else
    [ N f (KLoad AngoraContext) Int32Ty;
      N (f + 1) (KBin BXor (OReg f Int32Ty false) (OInt 32 (Z.shiftr cur 1))) Int32Ty;
      N (f + 1 + 1) (KStore (OReg (f + 1) Int32Ty false) AngoraPrevLoc) TVoid ].
End Point.

Lemma bind_nosan {B} (m : P operand) (k : operand -> P B) s :
  bind m (fun v => bind (setValueNonSan v) (fun _ => k v)) s = bind (nosan m) k s.
Proof.
  unfold nosan, bind, ret. destruct (m s) as [[v s1]|e]; [|done].
  by destruct (setValueNonSan v s1) as [[[] s2]|e].
Qed.

(** One emission of the program text: the point moves past the new instruction. *)
Ltac emit_step :=
  match goal with
  | Hp : at_point ?s ?A ?b ?pre ?ip ?post ?C |- context [bind ?m ?k ?s] =>
      let s' := fresh "s" in let E := fresh "E" in let Hp' := fresh "Hp" in
      let F := fresh "F" in
      edestruct (nosan_emit_at A b ip post C s pre) as (s' & E & Hp' & F); [exact Hp|];
      rewrite (bind_Ok m k s _ _ E); clear E Hp
  end.

(** A cast to the same type gives the value just emitted, and sets its metadata
    once more. *)
Ltac same_step :=
  match goal with
  | Hp : at_point ?s ?A ?b (?pre ++ [?x]) ?ip ?post ?C |- context [bind ?m ?k ?s] =>
      let s' := fresh "s" in let E := fresh "E" in let Hp' := fresh "Hp" in
      let F := fresh "F" in
      destruct (nosan_at A b ip post C s pre x true _ eq_refl Hp) as (s' & E & Hp' & F);
      rewrite (bind_Ok m k s (inst_value x) s' (bind_Ok _ _ _ _ _ E)); clear E Hp
  end.

(** The new addresses in terms of the first one. *)
Ltac point_done :=
  repeat match goal with
  | F : fresh ?x = ?y |- _ =>
      match goal with Hp : at_point _ _ _ _ _ _ _ |- _ => try rewrite F in Hp end; try rewrite F;
      clear F
  end;
  match goal with Hp : at_point _ _ _ _ _ _ _ |- _ => rewrite <-!app_assoc in Hp; exact Hp end.

Section CountEdge.
Context (cfg : config) (rnd : nat -> Z).

Lemma countEdge_emits s A b pre ip post C cur s1 :
  FastMode cfg = true ->
  (skip <- skipBasicBlock cfg rnd ;; if (skip : bool) then fail OutOfFuel else
   getRandomBasicBlockId rnd) s = Ok (cur, s1) ->
  at_point s1 A b pre ip post C ->
  find_block (blocks s1) b ≫= getFirstInsertionPt = Some ip ->
  exists s', countEdge cfg rnd b s = Ok (tt, s') /\
    at_point s' A b
      (pre ++ edge_counter ip (fresh s1) cur ++
       edge_prev_loc ip (num_fn_ctx cfg) (fresh s1 + 1 + 1 + 1 + 1 + 1 + 1 + 1 + 1 + 1 + 1) cur)
      ip post C.
Proof.
  intros Hfast Hr Hp Hip. unfold countEdge. rewrite Hfast. cbn [negb].
  apply bind_Ok_inv in Hr as ([] & s0 & E0 & Hr); [done|].
  rewrite (bind_Ok _ _ _ _ _ E0). cbv beta iota. rewrite (bind_Ok _ _ _ _ _ Hr). cbv zeta.
  unfold gets at 1. unfold bind at 1. rewrite Hip.
  emit_step. same_step. do 9 emit_step.
  unfold edge_prev_loc. destruct (num_fn_ctx cfg =? 0).
  - unfold ret at 1. unfold bind at 1. cbn [setValueNonSan]. unfold ret at 1. unfold bind at 1.
    emit_step. eexists. split; [reflexivity|]. point_done.
  - rewrite <-bind_assoc. emit_step. rewrite <-bind_assoc. same_step.
    rewrite bind_nosan. do 2 emit_step. eexists. split; [reflexivity|]. point_done.
Qed.
End CountEdge.

Lemma at_point_ext s s' A b pre ip post C :
  blocks s' = blocks s -> fresh s' = fresh s ->
  at_point s A b pre ip post C -> at_point s' A b pre ip post C.
Proof. intros Eb Ef [H1 H2]. split; [congruence|]. unfold wf in *. by rewrite Eb, Ef. Qed.

Lemma find_block_at s A b pre ip post C :
  at_point s A b pre ip post C -> find_block (blocks s) b = Some (mkBlock b (pre ++ ip :: post)).
Proof.
  intros [Eb (_ & _ & Hnd & _)]. rewrite Eb in Hnd |- *. unfold find_block.
  rewrite fmap_app, fmap_cons in Hnd. apply list.NoDup_app in Hnd as (_ & HA & _).
  rewrite list.filter_app. assert (filter (fun c => b_id c = b) A = []) as ->.
  { destruct (filter _ A) as [|c l] eqn:E; [done|]. exfalso.
    assert (Hc : c ∈ filter (fun c => b_id c = b) A) by (rewrite E; left).
    apply list_elem_of_filter in Hc as [Hc1 Hc2].
    apply (HA b); [apply list_elem_of_fmap; eauto|by left]. }
  by rewrite filter_cons_True.
Qed.

(** ** What the edge counters do *)

(** The map of branch counts is mapped, and the location and context variables
    are indices into it. *)
Record MapOk (m : mach) : Prop := {
  mo_area : exists base, gvars m !! "__angora_area_ptr"%string = Some base /\
    forall k, 0 <= k < MAP_SIZE -> exists c, area m !! (base + k) = Some c /\ 0 <= c < 256;
  mo_vars : forall n, n ∈ ["__angora_prev_loc"; "__angora_context"; "__angora_call_site"]%string ->
    exists v, gvars m !! n = Some v /\ 0 <= v < MAP_SIZE
}.

(** The counter after one more visit: it never becomes zero again. *)
Definition never_zero (c : Z) : Z := if c =? 255 then 1 else c + 1.

Lemma lxor_range n a c : 0 <= n -> 0 <= a < 2 ^ n -> 0 <= c < 2 ^ n -> 0 <= Z.lxor a c < 2 ^ n.
Proof.
  intros Hn Ha Hc. assert (H0 : 0 <= Z.lxor a c) by (apply Z.lxor_nonneg; lia).
  split; [done|]. destruct (decide (Z.lxor a c = 0)) as [->|Hz]; [lia|].
  apply Z.log2_lt_pow2; [lia|]. destruct (decide (n = 0)) as [->|]; [exfalso; apply Hz|].
  { assert (a = 0) as -> by (cbn in Ha; lia). assert (c = 0) as -> by (cbn in Hc; lia). done. }
  assert (Hlog : forall x, 0 <= x < 2 ^ n -> Z.log2 x < n).
  { intros x Hx. destruct (decide (x = 0)) as [->|]; [cbn; lia|]. apply Z.log2_lt_pow2; lia. }
  pose proof (Z.log2_lxor a c ltac:(lia) ltac:(lia)). pose proof (Hlog a Ha).
  pose proof (Hlog c Hc). lia.
Qed.

Lemma map_lxor a c : 0 <= a < MAP_SIZE -> 0 <= c < MAP_SIZE -> 0 <= Z.lxor a c < MAP_SIZE.
Proof. change MAP_SIZE with (2 ^ 20). by apply lxor_range. Qed.
Lemma map_shiftr a k : 0 <= k -> 0 <= a < MAP_SIZE -> 0 <= Z.shiftr a k < MAP_SIZE.
Proof.
  intros Hk Ha. rewrite Z.shiftr_div_pow2 by done.
  assert (0 < 2 ^ k) by (apply Z.pow_pos_nonneg; lia).
  split; [apply Z.div_pos; lia|]. apply (Z.le_lt_trans _ a); [|lia]. apply Z.div_le_upper_bound; nia.
Qed.

(** Look a register up after the assignments of a piece of code. *)
Ltac reg_lookup :=
  repeat first [ rewrite lookup_insert_eq | rewrite lookup_insert_ne by lia
               | rewrite lookup_insert_ne by done ].
Ltac exec_step :=
  cbn [exec_list exec_inst i_kind i_id i_ty new_inst eval fold_bin getIntegerBitWidth getType
       AngoraPrevLoc AngoraMapPtr AngoraContext AngoraCallSite ParmeSanIndCallSite AngoraCondId
       set_reg set_gvar set_area add_call regs params gvars area calls mbind option_bind] in *;
  reg_lookup.

Lemma exec_edge_counter ip f cur m base prev c :
  gvars m !! "__angora_prev_loc"%string = Some prev ->
  gvars m !! "__angora_area_ptr"%string = Some base ->
  0 <= prev < MAP_SIZE -> 0 <= cur < MAP_SIZE ->
  area m !! (base + Z.lxor prev cur) = Some c -> 0 <= c < 256 ->
  exists r, exec_list (edge_counter ip f cur) m =
    Some (mkMach r (params m) (gvars m)
            (<[ base + Z.lxor prev cur := never_zero c ]> (area m)) (calls m)) /\
    (forall p, p < f -> r !! p = regs m !! p).
Proof.
  intros Hprev Hbase Hp Hc Ha Hcr. pose proof (map_lxor _ _ Hp Hc) as Hx.
  unfold edge_counter. cbv zeta.
  exec_step. rewrite Hprev. exec_step. rewrite Hbase. do 4 exec_step.
  assert (Es : signed (getIntegerBitWidth Int32Ty) (Z.lxor prev cur) = Z.lxor prev cur).
  { apply s32_small. change MAP_SIZE with (2 ^ 20) in Hx. lia. }
  rewrite Es, Ha. do 12 exec_step. rewrite Ha. exec_step.
  assert (Ec : wrap (getIntegerBitWidth Int8Ty)
      (wrap (getIntegerBitWidth Int8Ty) (c + 1) +
       (if wrap (getIntegerBitWidth Int8Ty) (c + 1) =? 0 then 1 else 0)) = never_zero c).
  { unfold never_zero. cbn [getIntegerBitWidth Int8Ty]. destruct (Z.eqb_spec c 255) as [->|]; [done|].
    rewrite (wrap_small 8 (c + 1)) by lia. destruct (Z.eqb_spec (c + 1) 0); [lia|].
    rewrite Z.add_0_r. apply wrap_small. lia. }
  rewrite Ec. eexists. split; [reflexivity|]. intros p Hlt. exec_step. done.
Qed.

Lemma exec_edge_prev_loc ip n f cur m ctx :
  gvars m !! "__angora_context"%string = Some ctx ->
  exists r, exec_list (edge_prev_loc ip n f cur) m =
    Some (mkMach r (params m)
      (<[ "__angora_prev_loc"%string := Z.lxor (if n =? 0 then 0 else ctx) (Z.shiftr cur 1) ]> (gvars m))
      (area m) (calls m)) /\
    (forall p, p < f -> r !! p = regs m !! p).
Proof.
  intros Hctx. unfold edge_prev_loc. destruct (n =? 0).
  - exec_step. rewrite Z.lxor_0_l. eexists. split; [reflexivity|done].
  - exec_step. rewrite Hctx. do 6 exec_step. eexists. split; [reflexivity|].
    intros p Hp. exec_step. done.
Qed.

Lemma exec_list_app l k m : exec_list (l ++ k) m = exec_list l m ≫= exec_list k.
Proof.
  revert m. induction l as [|i l IH]; intros m; [done|]. cbn.
  destruct (exec_inst i m) as [m'|]; [|done]. cbn. apply IH.
Qed.

Lemma MapOk_update m r a v ps ks p :
  MapOk m -> (forall base, gvars m !! "__angora_area_ptr"%string = Some base ->
     exists k, a = base + k /\ 0 <= k < MAP_SIZE) -> 0 <= v < 256 -> 0 <= p < MAP_SIZE ->
  MapOk (mkMach r ps (<[ "__angora_prev_loc"%string := p ]> (gvars m)) (<[ a := v ]> (area m)) ks).
Proof.
  intros [(base & Hb & Hk) Hv] Ha Hvr Hp. split; cbn.
  - exists base. rewrite lookup_insert_ne by done. split; [done|]. intros k Hkr.
    destruct (decide (a = base + k)) as [->|Hne].
    + rewrite lookup_insert_eq. by exists v.
    + rewrite lookup_insert_ne by done. by apply Hk.
  - intros n Hn. destruct (decide (n = "__angora_prev_loc"%string)) as [->|Hne].
    + rewrite lookup_insert_eq. by exists p.
    + rewrite lookup_insert_ne by done. by apply Hv.
Qed.

Lemma never_zero_range c : 0 <= c < 256 -> 1 <= never_zero c < 256.
Proof. unfold never_zero. destruct (Z.eqb_spec c 255); lia. Qed.

(** C22: edge coverage in the fast mode.  For a block that is not skipped,
    [countEdge] puts code before the first insertion point and changes nothing
    else of the function.  That code, run on any state in which the map of branch
    counts is mapped, is defined: it never accesses a byte outside the map.  It
    adds one to the counter of the edge from the previous block to this one
    without ever leaving it at zero, sets the previous location to half the
    location of this block combined with the calling context, and does nothing
    else that the program can see. *)
Theorem countEdge_correct cfg rnd s A b pre ip post C :
  FastMode cfg = true ->
  (forall k, 0 <= rnd k) ->
  rnd (rand_calls s) mod 100 < inst_ratio cfg ->
  at_point s A b pre ip post C ->
  getFirstInsertionPt (mkBlock b (pre ++ ip :: post)) = Some ip ->
  let cur := rnd (S (rand_calls s)) mod MAP_SIZE in
  exists code s', countEdge cfg rnd b s = Ok (tt, s') /\
    at_point s' A b (pre ++ code) ip post C /\
    forall m, MapOk m ->
      exists m' base prev ctx c, exec_list code m = Some m' /\ MapOk m' /\
        gvars m !! "__angora_area_ptr"%string = Some base /\
        gvars m !! "__angora_prev_loc"%string = Some prev /\
        gvars m !! "__angora_context"%string = Some ctx /\
        area m !! (base + Z.lxor prev cur) = Some c /\
        area m' = <[ base + Z.lxor prev cur := never_zero c ]> (area m) /\
        gvars m' = <[ "__angora_prev_loc"%string :=
          Z.lxor (if num_fn_ctx cfg =? 0 then 0 else ctx) (Z.shiftr cur 1) ]> (gvars m) /\
        calls m' = calls m /\ params m' = params m /\
        (forall p, p < fresh s -> regs m' !! p = regs m !! p).
Proof.
  intros Hfast Hrnd Hratio Hp Hip cur.
  assert (Hcur : 0 <= cur < MAP_SIZE) by (by apply Z.mod_pos_bound).
  set (s1 := with_calls (with_calls s)).
  assert (Hp1 : at_point s1 A b pre ip post C) by (by apply (at_point_ext s)).
  destruct (countEdge_emits cfg rnd s A b pre ip post C cur s1) as (s' & E & Hp'); [done| |done| |].
  - unfold skipBasicBlock, getRandomBasicBlockId, random, bind, ret, with_calls. cbn.
    destruct (Z.leb_spec (inst_ratio cfg) (rnd (rand_calls s) mod 100)); [lia|].
    do 2 f_equal. apply u32_small. change MAP_SIZE with (2 ^ 20) in *. fold cur. lia.
  - by rewrite (find_block_at _ _ _ _ _ _ _ Hp1).
  - eexists _, s'. split; [exact E|]. split; [exact Hp'|]. intros m Hm.
    destruct Hm as [(base & Hb & Hk) Hv] eqn:Em. clear Em.
    destruct (Hv "__angora_prev_loc"%string ltac:(set_solver)) as (prev & Hprev & Hpr).
    destruct (Hv "__angora_context"%string ltac:(set_solver)) as (ctx & Hctx & Hcr).
    pose proof (map_lxor _ _ Hpr Hcur) as Hx. destruct (Hk _ Hx) as (c & Ha & Hc).
    destruct (exec_edge_counter ip (fresh s1) cur m base prev c Hprev Hb Hpr Hcur Ha Hc)
      as (r1 & E1 & Hr1).
    destruct (exec_edge_prev_loc ip (num_fn_ctx cfg)
      (fresh s1 + 1 + 1 + 1 + 1 + 1 + 1 + 1 + 1 + 1 + 1) cur
      (mkMach r1 (params m) (gvars m) (<[ base + Z.lxor prev cur := never_zero c ]> (area m)) (calls m))
      ctx Hctx) as (r2 & E2 & Hr2).
    exists (mkMach r2 (params m)
      (<[ "__angora_prev_loc"%string :=
          Z.lxor (if num_fn_ctx cfg =? 0 then 0 else ctx) (Z.shiftr cur 1) ]> (gvars m))
      (<[ base + Z.lxor prev cur := never_zero c ]> (area m)) (calls m)), base, prev, ctx, c.
    split_and!; try done.
    + rewrite exec_list_app, E1. cbn [mbind option_bind]. exact E2.
    + apply MapOk_update; [done| | |].
      * intros base' Hb'. exists (Z.lxor prev cur). split; [congruence|done].
      * pose proof (never_zero_range c Hc). lia.
      * apply map_lxor; [|by apply map_shiftr]. destruct (num_fn_ctx cfg =? 0); [done|done].
    + intros p Hlt. cbn. rewrite Hr2 by (cbn; lia). cbn. by rewrite Hr1.
Qed.

(** ** The calling context *)

(** What [addFnWrap] emits at the entry of a function, and the register that
    keeps the value to go back to. *)
Definition prologue (ip : inst) (n f : Z) : list inst :=
  let N k := new_inst ip k true in
  [ N f (KLoad AngoraCallSite) Int32Ty; N (f + 1) (KLoad AngoraContext) Int32Ty ] ++
  if 0 <? n then
    [ N (f + 1 + 1) (KBin BLShr (OReg (f + 1) Int32Ty false) (OInt 32 (32 / n))) Int32Ty;
      N (f + 1 + 1 + 1) (KBin BXor (OReg (f + 1 + 1) Int32Ty false) (OReg f Int32Ty false)) Int32Ty;
      N (f + 1 + 1 + 1 + 1) (KStore (OReg (f + 1 + 1 + 1) Int32Ty false) AngoraContext) TVoid ]
  else
    [ N (f + 1 + 1) (KBin BXor (OReg (f + 1) Int32Ty false) (OReg f Int32Ty false)) Int32Ty;
      N (f + 1 + 1 + 1) (KStore (OReg (f + 1 + 1) Int32Ty false) AngoraContext) TVoid ].
Definition saved_context (n f : Z) : operand :=
  if 0 <? n then OReg (f + 1 + 1) Int32Ty false else OReg (f + 1) Int32Ty false.

(** What it emits before the instruction [t] that leaves the function. *)
Definition epilogue (t : inst) (v : operand) (f : Z) : list inst :=
  [ new_inst t f true (KStore v AngoraContext) TVoid;
    new_inst t (f + 1) true (KStore (OInt 32 0) ParmeSanIndCallSite) TVoid ].

(** A block before and after the loop of [addFnWrap]. *)
Definition restored (v : operand) (B B' : block) : Prop :=
  exists pre t, b_insts B = pre ++ [t] /\
    if isReturnInst (i_kind t) || isResumeInst (i_kind t)
    then exists f, B' = mkBlock (b_id B) (pre ++ epilogue t v f ++ [t])
    else B' = B.

Lemma last_snoc_block B t : getTerminator B = Some t -> exists pre, b_insts B = pre ++ [t].
Proof. intros Ht. by apply last_Some in Ht. Qed.

Lemma restore_contexts_spec v rest : forall acc s,
  blocks s = acc ++ rest -> wf s -> (forall B, B ∈ rest -> b_insts B <> []) ->
  exists s' rest', restore_contexts v rest s = Ok (tt, s') /\ wf s' /\
    blocks s' = acc ++ rest' /\ Forall2 (restored v) rest rest'.
Proof.
  induction rest as [|B rest IH]; intros acc s Eb Hwf Hne.
  { exists s, []. split_and!; [done..|constructor]. }
  cbn [restore_contexts].
  destruct (getTerminator B) as [t|] eqn:Et.
  2:{ exfalso. apply (Hne B ltac:(left)). by apply last_None in Et. }
  destruct (last_snoc_block B t Et) as [pre Epre].
  assert (Hrest : forall B, B ∈ rest -> b_insts B <> []) by (intros; apply Hne; by right).
  destruct (isReturnInst (i_kind t) || isResumeInst (i_kind t)) eqn:Er.
  - assert (Hp : at_point s acc (b_id B) pre t [] rest).
    { split; [|done]. rewrite Eb, <-Epre. by destruct B. }
    rewrite <-bind_assoc. emit_step.
    unfold resetIndirectCallContext. rewrite <-bind_assoc. emit_step.
    unfold ret at 1. unfold bind at 1.
    destruct (IH (acc ++ [mkBlock (b_id B) (pre ++ epilogue t v (fresh s) ++ [t])]) s1)
      as (s' & rest' & E & Hwf' & Eb' & Hall).
    + rewrite (ap_blocks _ _ _ _ _ _ _ Hp). rewrite F. unfold epilogue.
      by rewrite <-!app_assoc.
    + apply Hp.
    + done.
    + exists s', (mkBlock (b_id B) (pre ++ epilogue t v (fresh s) ++ [t]) :: rest').
      split_and!; [exact E|done|by rewrite Eb', <-app_assoc|].
      constructor; [|done]. exists pre, t. rewrite Er. split; [done|]. by exists (fresh s).
  - unfold ret at 1. unfold bind at 1.
    destruct (IH (acc ++ [B]) s) as (s' & rest' & E & Hwf' & Eb' & Hall);
      [by rewrite <-app_assoc|done|done|].
    exists s', (B :: rest'). split_and!; [exact E|done|by rewrite Eb', <-app_assoc|].
    constructor; [|done]. exists pre, t. by rewrite Er.
Qed.

Lemma addFnWrap_emits cfg s b pre ip post C :
  num_fn_ctx cfg <> 0 ->
  at_point s [] b pre ip post C ->
  getFirstInsertionPt (mkBlock b (pre ++ ip :: post)) = Some ip ->
  (forall B, B ∈ C -> b_insts B <> []) ->
  exists s', addFnWrap cfg s = Ok (tt, s') /\ wf s' /\
    Forall2 (restored (saved_context (num_fn_ctx cfg) (fresh s)))
      (mkBlock b (pre ++ prologue ip (num_fn_ctx cfg) (fresh s) ++ ip :: post) :: C) (blocks s').
Proof.
  intros Hn Hp Hip Hne. unfold addFnWrap.
  destruct (Z.eqb_spec (num_fn_ctx cfg) 0); [done|].
  unfold gets at 1. unfold bind at 1. rewrite (ap_blocks _ _ _ _ _ _ _ Hp).
  cbn [app head mbind option_bind]. rewrite Hip.
  assert (Hfin : forall s1 v, at_point s1 [] b (pre ++ prologue ip (num_fn_ctx cfg) (fresh s)) ip post C ->
    exists s', (bbs <- gets blocks ;; restore_contexts v bbs) s1 = Ok (tt, s') /\ wf s' /\
    Forall2 (restored v)
      (mkBlock b (pre ++ prologue ip (num_fn_ctx cfg) (fresh s) ++ ip :: post) :: C) (blocks s')).
  { intros s1 v [Eb1 Hwf1]. rewrite <-app_assoc in Eb1.
    destruct (restore_contexts_spec v (blocks s1) [] s1) as (s' & rest' & E & Hwf' & Eb' & Hall);
      [done|done| |].
    - rewrite Eb1. cbn. intros B [->|HB]%elem_of_cons; [|by apply Hne].
      cbn. by intros [_ ?]%app_nil.
    - exists s'. split_and!; [exact E|done|]. cbn [app] in Eb1, Eb'. by rewrite Eb', <-Eb1. }
  do 2 emit_step. unfold prologue, saved_context in *. destruct (0 <? num_fn_ctx cfg).
  - emit_step. do 2 emit_step. rewrite F, F0 in *. apply Hfin. point_done.
  - unfold ret at 1. unfold bind at 1. do 2 emit_step. rewrite F, F0 in *. apply Hfin. point_done.
Qed.

(** The context that a function returns to. *)
Definition outer_context (n ctx : Z) : Z := if 0 <? n then Z.shiftr ctx (32 / n) else ctx.

Lemma exec_prologue ip n f m ctx cs :
  n <> 1 -> n < 32 ->
  gvars m !! "__angora_context"%string = Some ctx ->
  gvars m !! "__angora_call_site"%string = Some cs ->
  exists r, exec_list (prologue ip n f) m =
    Some (mkMach r (params m)
      (<[ "__angora_context"%string := Z.lxor (outer_context n ctx) cs ]> (gvars m))
      (area m) (calls m)) /\
    eval (mkMach r (params m) (gvars m) (area m) (calls m)) (saved_context n f) =
      Some (outer_context n ctx) /\
    (forall p, p < f -> r !! p = regs m !! p).
Proof.
  intros Hn1 Hn Hctx Hcs. unfold prologue, saved_context, outer_context.
  destruct (Z.ltb_spec 0 n) as [Hpos|Hneg].
  - cbn [app]. exec_step. rewrite Hcs. exec_step. rewrite Hctx. do 2 exec_step.
    assert (Hdiv : (32 / n <? getIntegerBitWidth Int32Ty) = true).
    { apply Z.ltb_lt. cbn. apply Z.div_lt_upper_bound; lia. }
    rewrite Hdiv. do 8 exec_step.
    eexists. split; [reflexivity|]. split; [by exec_step|]. intros p Hp. by exec_step.
  - cbn [app]. exec_step. rewrite Hcs. exec_step. rewrite Hctx. do 8 exec_step.
    eexists. split; [reflexivity|]. split; [by exec_step|]. intros p Hp. by exec_step.
Qed.

Lemma exec_epilogue t v f m x :
  eval m v = Some x ->
  exec_list (epilogue t v f) m =
    Some (mkMach (regs m) (params m)
      (<[ "__angora_indirect_call_site"%string := 0 ]>
        (<[ "__angora_context"%string := x ]> (gvars m))) (area m) (calls m)).
Proof. intros Hv. unfold epilogue. cbn. by rewrite Hv. Qed.

(** A custom context of one function shifts by 32 bits, which gives a poison
    value: the prologue is undefined in every state. *)
Lemma prologue_one_undefined ip f m : exec_list (prologue ip 1 f) m = None.
Proof.
  unfold prologue. change (0 <? 1) with true. cbv iota. cbn [app]. exec_step.
  destruct (gvars m !! "__angora_call_site"%string) as [cs|]; [|done]. exec_step.
  destruct (gvars m !! "__angora_context"%string) as [ctx|]; [|done]. by do 3 exec_step.
Qed.

Lemma outer_context_range n ctx :
  n < 32 -> 0 <= ctx < MAP_SIZE -> 0 <= outer_context n ctx < MAP_SIZE.
Proof.
  intros Hn Hc. unfold outer_context. destruct (Z.ltb_spec 0 n); [|done].
  apply map_shiftr; [|done]. apply Z.div_pos; lia.
Qed.

(** Calling contexts.  [addFnWrap] puts code at the entry of the function and
    before every return and resume, and changes nothing else.  The code at the
    entry is defined, keeps the context an index into the map of branch counts, and
    combines it with the call site.  Whatever the body does, the code at the exit
    sets the context to the one saved at the entry and clears the indirect call
    site.  With the default setting (a negative [num_fn_ctx]) what is saved is the
    context of the caller; with a custom number of frames it is the shifted
    context, so that the context of the caller is not restored. *)
Theorem addFnWrap_context cfg s b pre ip post C :
  num_fn_ctx cfg <> 0 -> num_fn_ctx cfg <> 1 -> num_fn_ctx cfg < 32 ->
  at_point s [] b pre ip post C ->
  getFirstInsertionPt (mkBlock b (pre ++ ip :: post)) = Some ip ->
  (forall B, B ∈ C -> b_insts B <> []) ->
  exists s' enter saved, addFnWrap cfg s = Ok (tt, s') /\
    Forall2 (restored saved) (mkBlock b (pre ++ enter ++ ip :: post) :: C) (blocks s') /\
    forall m, MapOk m ->
      exists m1 ctx cs, exec_list enter m = Some m1 /\ MapOk m1 /\
        gvars m !! "__angora_context"%string = Some ctx /\
        gvars m !! "__angora_call_site"%string = Some cs /\
        gvars m1 = <[ "__angora_context"%string :=
          Z.lxor (outer_context (num_fn_ctx cfg) ctx) cs ]> (gvars m) /\
        area m1 = area m /\ calls m1 = calls m /\
        (forall p, p < fresh s -> regs m1 !! p = regs m !! p) /\
        forall t f m2, eval m2 saved = eval m1 saved ->
          exec_list (epilogue t saved f) m2 =
            Some (mkMach (regs m2) (params m2)
              (<[ "__angora_indirect_call_site"%string := 0 ]>
                (<[ "__angora_context"%string :=
                   if num_fn_ctx cfg <? 0 then ctx else outer_context (num_fn_ctx cfg) ctx ]>
                  (gvars m2))) (area m2) (calls m2)).
Proof.
  intros Hn0 Hn1 Hn Hp Hip Hne.
  destruct (addFnWrap_emits cfg s b pre ip post C Hn0 Hp Hip Hne) as (s' & E & _ & Hall).
  exists s'. do 2 eexists. split; [exact E|]. split; [exact Hall|]. intros m Hm.
  pose proof (mo_vars m Hm) as Hv.
  destruct (Hv "__angora_context"%string ltac:(set_solver)) as (ctx & Hctx & Hcr).
  destruct (Hv "__angora_call_site"%string ltac:(set_solver)) as (cs & Hcs & Hsr).
  destruct (exec_prologue ip (num_fn_ctx cfg) (fresh s) m ctx cs Hn1 Hn Hctx Hcs)
    as (r & Er & Hsaved & Hr).
  eexists _, ctx, cs. split; [exact Er|]. split_and!; try done.
  - pose proof (outer_context_range _ _ Hn Hcr) as Ho.
    destruct (mo_area m Hm) as (base & Hb & Hk). split; cbn.
    + exists base. by rewrite lookup_insert_ne.
    + intros n Hnm. destruct (decide (n = "__angora_context"%string)) as [->|Hne'].
      * rewrite lookup_insert_eq. eexists. split; [done|]. by apply map_lxor.
      * rewrite lookup_insert_ne by done. by apply Hv.
  - intros t f m2 Hm2. rewrite (exec_epilogue t _ f m2 (outer_context (num_fn_ctx cfg) ctx)).
    + destruct (Z.ltb_spec (num_fn_ctx cfg) 0); [|done]. unfold outer_context.
      destruct (Z.ltb_spec 0 (num_fn_ctx cfg)); [lia|done].
    + rewrite Hm2. unfold saved_context in *. by destruct (0 <? num_fn_ctx cfg).
Qed.
