(* ===== verification/AngoraPassTrace.v ===== *)
(** * Calls of the tracing functions

    What the code that [processCmp] and [visitSwitchInst] of [AngoraPass.cc] emit
    reports to the runtime: in the track mode every comparison, in the fast mode
    the comparison the fuzzer has selected. *)

From S2P Require Import Prelude PassIr AngoraPass AngoraPassCode.
Local Open Scope Z_scope.

(** ** Pieces of code with a result *)

Definition with_regs (r : gmap Z Z) (m : mach) : mach :=
  mkMach r (params m) (gvars m) (area m) (calls m).
(** An operand that exists before the address [f] is used. *)
Fixpoint below (f : Z) (v : operand) : Prop :=
  match v with OReg p _ _ => p < f | OCast _ v' _ => below f v' | _ => True end.

Lemma below_le f g v : f <= g -> below f v -> below g v.
Proof. intros Hfg. induction v; cbn; auto; lia. Qed.
Lemma eval_below f v m r :
  below f v -> (forall p, p < f -> r !! p = regs m !! p) -> eval (with_regs r m) v = eval m v.
Proof. intros Hb Hr. induction v; cbn in *; auto. by destruct c; auto. Qed.

(** [code] computes into [v'] the value of [v] and keeps what is below [f]. *)
Definition computes (f : Z) (code : list inst) (v v' : operand) : Prop :=
  forall m x, eval m v = Some x ->
    exists r, exec_list code m = Some (with_regs r m) /\
      eval (with_regs r m) v' = Some x /\ (forall p, p < f -> r !! p = regs m !! p).

Lemma computes_nil f v : computes f [] v v.
Proof. intros m x Hx. exists (regs m). split_and!; [by destruct m|by destruct m|done]. Qed.
Lemma computes_one ip f ns c t v cmp :
  c = CZExt \/ c = CPtrToInt ->
  computes f [new_inst ip f ns (KCast c v) t] v (OReg f t cmp).
Proof.
  intros Hc m x Hx. exists (<[ f := x ]> (regs m)). split_and!.
  - destruct Hc as [-> | ->]; cbn; by rewrite Hx.
  - cbn. by rewrite lookup_insert_eq.
  - intros p Hp. by rewrite lookup_insert_ne by lia.
Qed.

(** The types that are compared as 64-bit numbers without a conversion from
    floating point. *)
Definition word_type (t : ty) : bool :=
  match t with TInt w => (0 <? w) && (w <=? 64) | TPtr => true | _ => false end.

Lemma CreateCall_typed b f args :
  getType <$> args = c_args f -> CreateCall b f args = emit b (KCall (OFun (c_name f)) args) (c_ret f).
Proof. intros Ht. unfold CreateCall. by rewrite bool_decide_eq_true_2. Qed.

Section At.
Context (A : list block) (b : Z) (ip : inst) (post : list inst) (C : list block).
Notation "s '@' pre" := (at_point s A b pre ip post C) (at level 70).

(** A cast that is not folded away is one instruction; a folded one is none. *)
Lemma cast_at s pre c v w :
  s @ pre -> c = CZExt \/ c = CPtrToInt -> below (fresh s) v -> castIsValid c (getType v) (TInt w) = true ->
  exists v' code s', CreateCast (IRB_at ip) c v (TInt w) s = Ok (v', s') /\
    s' @ (pre ++ code) /\ fresh s <= fresh s' /\ below (fresh s') v' /\ getType v' = TInt w /\
    computes (fresh s) code v v'.
Proof.
  intros Hp Hc Hb Hvalid. unfold CreateCast.
  destruct (decide (getType v = TInt w)) as [E|_].
  { rewrite E in Hvalid. destruct Hc as [-> | ->]; cbn in Hvalid; breflect; [lia|done]. }
  rewrite Hvalid. cbn [negb]. destruct (isConstant v) eqn:Ec.
  - exists (fold_cast c v (TInt w)), [], s. rewrite app_nil_r.
    split_and!; [done|done|lia|by destruct Hc as [-> | ->], v|by destruct Hc as [-> | ->], v|].
    intros m x Hx. exists (regs m). assert (with_regs (regs m) m = m) as -> by (by destruct m).
    split_and!; [done| |done]. by destruct Hc as [-> | ->], v.
  - destruct (emit_at A b ip post C s pre (KCast c v) (TInt w) Hp) as (s' & E & Hp' & F).
    eexists _, _, s'. split; [exact E|]. split_and!; [exact Hp'|lia|cbn; lia|done|].
    by apply computes_one.
Qed.

Lemma castArgType_at s pre v :
  s @ pre -> word_type (getType v) = true -> below (fresh s) v ->
  exists v' code s', castArgType (IRB_at ip) v s = Ok (v', s') /\
    s' @ (pre ++ code) /\ fresh s <= fresh s' /\ below (fresh s') v' /\ getType v' = Int64Ty /\
    computes (fresh s) code v v'.
Proof.
  intros Hp Hw Hb. unfold castArgType.
  destruct (getType v) as [|w| | | |] eqn:Et; try done; cbn [isFloatTy isDoubleTy isPointerTy isIntegerTy].
  - cbn [getIntegerBitWidth andb]. destruct (Z.ltb_spec w 64) as [Hlt|Hge].
    + apply cast_at; [done|by left|done|]. rewrite Et. by apply Z.ltb_lt.
    + exists v, [], s. rewrite app_nil_r. cbn in Hw. breflect.
      split_and!; [done|done|lia|done|rewrite Et; unfold Int64Ty; f_equal; lia|apply computes_nil].
  - apply cast_at; [done|by right|done|]. by rewrite Et.
Qed.

(** The extension of a condition is one instruction without sanitizing. *)
Lemma cond_ext_at s pre p cmp w :
  s @ pre -> 1 < w ->
  exists s', nosan (CreateZExt (IRB_at ip) (OReg p Int1Ty cmp) (TInt w)) s =
      Ok (OReg (fresh s) (TInt w) false, s') /\
    s' @ (pre ++ [new_inst ip (fresh s) true (KCast CZExt (OReg p Int1Ty cmp)) (TInt w)]) /\
    fresh s' = fresh s + 1.
Proof.
  intros Hp Hw.
  destruct (nosan_emit_at A b ip post C s pre (KCast CZExt (OReg p Int1Ty cmp)) (TInt w) Hp)
    as (s' & E & Hp' & F).
  exists s'. split_and!; [|done|done]. cbn [isCmpInst] in E. rewrite <-E. unfold nosan, CreateZExt, CreateCast, bind.
  destruct (decide _) as [Ed|_]; [injection Ed; lia|]. cbn [castIsValid getType Int1Ty].
  by destruct (Z.ltb_spec 1 w); [|lia].
Qed.
End At.

(** ** The track mode *)

(** A comparison of two words (integers of 8 to 64 bits, or pointers) that exist
    before the address [f] is used. *)
Record word_cmp (f : Z) (Cond : inst) (pred : Z) (a1 a2 : operand) : Prop := {
  wc_kind : i_kind Cond = KCmp pred a1 a2;
  wc_ty : i_ty Cond = Int1Ty;
  wc_word : word_type (getType a1) = true /\ word_type (getType a2) = true;
  wc_size : isPointerTy (getType a1) = false -> 8 <= getIntegerBitWidth (getType a1);
  wc_below : i_id Cond < f /\ below f a1 /\ below f a2
}.
(** What the comparison and its operands are worth in [m]. *)
Definition cmp_values (m : mach) (Cond : inst) (a1 a2 : operand) (x y c : Z) : Prop :=
  regs m !! i_id Cond = Some c /\ eval m a1 = Some x /\ eval m a2 = Some y.

(** The type that is reported: the predicate, and whether the constant it compares
    with is negative. *)
Definition reported_type (pred : Z) (a2 : operand) : Z :=
  if isNegative a2 then Z.lor pred COND_SIGN_MASK else pred.

Definition size_of (t : ty) : Z := if isPointerTy t then 8 else getScalarSizeInBits t / 8.

Section Trace.
Context (A : list block) (b : Z) (ip : inst) (post : list inst) (C : list block).
Notation "s '@' pre" := (at_point s A b pre ip post C) (at level 70).

(** The trace call at the end of [processCmp]. *)
Definition trace_tt_code (f : Z) (args : Z -> Z -> list operand) : list inst :=
  [ new_inst ip f true (KLoad AngoraContext) Int32Ty;
    new_inst ip (f + 1) true (KLoad ParmeSanIndCallSite) Int32Ty;
    new_inst ip (f + 1 + 1) true (KCall (OFun (c_name TraceCmpTT)) (args f (f + 1))) TVoid;
    new_inst ip (f + 1 + 1 + 1) true (KStore (OInt 32 0) ParmeSanIndCallSite) TVoid ].

Lemma call_trace_cmp_tt_at s pre Cid Sz Ty a1 a2 Ce :
  s @ pre ->
  getType <$> [Cid; Sz; Ty; a1; a2; Ce] = [Int32Ty; Int32Ty; Int32Ty; Int64Ty; Int64Ty; Int32Ty] ->
  exists s', call_trace_cmp_tt (IRB_at ip) Cid Sz Ty a1 a2 Ce s = Ok (tt, s') /\
    s' @ (pre ++ trace_tt_code (fresh s) (fun c k =>
      [Cid; OReg c Int32Ty false; OReg k Int32Ty false; Sz; Ty; a1; a2; Ce])).
Proof.
  intros Hp [= T1 T2 T3 T4 T5 T6]. unfold call_trace_cmp_tt, resetIndirectCallContext.
  do 2 emit_step. rewrite CreateCall_typed by (cbn; congruence). do 2 emit_step. eexists. split; [reflexivity|]. point_done.
Qed.

Lemma exec_trace_tt f m cid sz ty' a1 a2 x1 x2 c k e x y z :
  gvars m !! "__angora_context"%string = Some c ->
  gvars m !! "__angora_indirect_call_site"%string = Some k ->
  below f a1 -> below f a2 -> below f e ->
  eval m a1 = Some x -> eval m a2 = Some y -> eval m e = Some z ->
  exists r, exec_list (trace_tt_code f (fun c k =>
      [OInt 32 cid; OReg c Int32Ty false; OReg k Int32Ty false; OInt x1 sz; OInt x2 ty'; a1; a2; e])) m =
    Some (mkMach r (params m) (<[ "__angora_indirect_call_site"%string := 0 ]> (gvars m)) (area m)
      (calls m ++ [(c_name TraceCmpTT, [cid; c; k; sz; ty'; x; y; z])])) /\
    (forall p, p < f -> r !! p = regs m !! p).
Proof.
  intros Hc Hk H1 H2 H3 E1 E2 E3. unfold trace_tt_code.
  exec_step. rewrite Hc. exec_step. rewrite Hk. exec_step.
  assert (Hev : forall v, below f v ->
    eval (set_reg (f + 1) k (set_reg f c m)) v = eval m v).
  { intros v Hv. apply (eval_below f v m (<[ f + 1 := k ]> (<[ f := c ]> (regs m))) Hv).
    intros p Hp. by reg_lookup. }
  cbn [mapM]. rewrite !Hev, E1, E2, E3 by done.
  do 3 exec_step. eexists. split; [reflexivity|]. intros p Hp. by exec_step.
Qed.

(** The tests of [processCmp] on the type of the operands. *)
Lemma word_cmp_tests (t : ty) :
  word_type t = true -> (isPointerTy t = false -> 8 <= getIntegerBitWidth t) ->
  ((isIntegerTy t && (getIntegerBitWidth t <=? 64)) || isFloatTy t || isDoubleTy t ||
     isPointerTy t = true) /\
  (getScalarSizeInBits t / 8 =? 0) && negb (isPointerTy t) = false /\
  (if getScalarSizeInBits t / 8 =? 0 then 8 else getScalarSizeInBits t / 8) = size_of t.
Proof.
  intros Hw Hs. destruct t as [|w| | | |]; try done. cbn in *. breflect.
  specialize (Hs eq_refl). assert (1 <= w / 8) by (apply Z.div_le_lower_bound; lia).
  destruct (Z.eqb_spec (w / 8) 0); [lia|]. destruct (Z.leb_spec w 64); [done|lia].
Qed.

(** In the track mode, [processCmp] puts code at the insertion point of a
    comparison of words and changes nothing else.  In every state in which the
    operands are worth [x] and [y] and the result [c], that code makes exactly one
    call, which reports the identifier, the calling context, the indirect call
    site, the size in bytes, the predicate (with a mark for a negative constant),
    both operands and the result, and then clears the indirect call site. *)
Theorem processCmp_track_reports cfg s pre Cond h pred a1 a2 :
  FastMode cfg = false -> TrackMode cfg = true ->
  s @ pre -> word_cmp (fresh s) Cond pred a1 a2 ->
  exists code s', processCmp cfg Cond (OInt 32 h) ip s = Ok (tt, s') /\
    s' @ (pre ++ code) /\
    forall m x y c ctx site,
      cmp_values m Cond a1 a2 x y c ->
      gvars m !! "__angora_context"%string = Some ctx ->
      gvars m !! "__angora_indirect_call_site"%string = Some site ->
      exists r, exec_list code m =
        Some (mkMach r (params m) (<[ "__angora_indirect_call_site"%string := 0 ]> (gvars m)) (area m)
          (calls m ++ [(c_name TraceCmpTT,
             [h; ctx; site; size_of (getType a1); reported_type pred a2; x; y; c])])) /\
        (forall p, p < fresh s -> r !! p = regs m !! p).
Proof.
  intros Hfast Htrack Hp [Hk Hty [Hw1 Hw2] Hs (Hb0 & Hb1 & Hb2)].
  destruct (word_cmp_tests _ Hw1 Hs) as (T1 & T2 & T3).
  unfold processCmp. rewrite Hk, T1, T2, T3, Hfast, Htrack. cbn [negb].
  unfold inst_value. rewrite Hty, Hk. cbn [isCmpInst].
  destruct (cond_ext_at A b ip post C s pre (i_id Cond) true 32 Hp)
    as (s1 & E1 & Hp1 & F1); [done|].
  rewrite (bind_Ok _ _ _ _ _ E1).
  destruct (castArgType_at A b ip post C s1 _ a1 Hp1 Hw1) as (v1 & c1 & s2 & E2 & Hp2 & F2 & B1 & Y1 & X1).
  { eapply below_le, Hb1. lia. }
  rewrite (bind_Ok _ _ _ _ _ E2).
  destruct (castArgType_at A b ip post C s2 _ a2 Hp2 Hw2) as (v2 & c2 & s3 & E3 & Hp3 & F3 & B2 & Y2 & X2).
  { eapply below_le, Hb2. lia. }
  rewrite (bind_Ok _ _ _ _ _ E3). fold (reported_type pred a2).
  destruct (call_trace_cmp_tt_at s3 _ (OInt 32 h) (OInt 32 (size_of (getType a1)))
    (OInt 32 (reported_type pred a2)) v1 v2 (OReg (fresh s) Int32Ty false) Hp3) as (s4 & E4 & Hp4); [cbn; by rewrite Y1, Y2|].
  eexists _, s4. split; [exact E4|]. split; [rewrite <-!app_assoc in Hp4; exact Hp4|].
  intros m x y c ctx site (Hc & Hx & Hy) Hctx Hsite.
  destruct (computes_one ip (fresh s) true CZExt (TInt 32) (OReg (i_id Cond) Int1Ty true) false
    ltac:(by left) m c Hc) as (r1 & G1 & Gc1 & R1).
  destruct (X1 (with_regs r1 m) x) as (r2 & G2 & Gx2 & R2).
  { by rewrite (eval_below (fresh s)). }
  destruct (X2 (with_regs r2 m) y) as (r3 & G3 & Gy3 & R3).
  { rewrite (eval_below (fresh s)); [done|done|]. intros p Hlt. rewrite R2 by lia. cbn. by apply R1. }
  destruct (exec_trace_tt (fresh s3) (with_regs r3 m) h (size_of (getType a1)) (reported_type pred a2)
    v1 v2 32 32 ctx site (OReg (fresh s) Int32Ty false) x y c) as (r4 & G4 & R4);
    [done|done| |done|cbn; lia| |done| |].
  { eapply below_le, B1. lia. }
  { rewrite <-Gx2. apply (eval_below (fresh s2) v1 (with_regs r2 m) r3); [done|]. exact R3. }
  { cbn. rewrite R3 by lia. cbn. rewrite R2 by lia. exact Gc1. }
  exists r4. split.
  - rewrite exec_list_app, G1. cbn [mbind option_bind]. rewrite exec_list_app, G2.
    cbn [mbind option_bind]. rewrite exec_list_app. change (with_regs r2 (with_regs r1 m)) with (with_regs r2 m).
    rewrite G3. exact G4.
  - intros p Hlt. rewrite R4 by lia. cbn. rewrite R3 by lia. cbn. rewrite R2 by lia. cbn. by apply R1.
Qed.
End Trace.

(** ** Splitting a block *)

Definition rename_insts (b t : Z) (l : list inst) : list inst := phi_rename b t <$> l.
Definition rename_blocks (b t : Z) (bs : list block) : list block :=
  on_insts (fmap (phi_rename b t)) <$> bs.

Lemma phi_rename_id b t i : i_id (phi_rename b t i) = i_id i.
Proof. unfold phi_rename. by destruct (i_kind i). Qed.
Lemma rename_insts_ids b t l : i_id <$> rename_insts b t l = i_id <$> l.
Proof.
  unfold rename_insts. rewrite <-list_fmap_compose. apply list_fmap_ext.
  intros ? i _. apply phi_rename_id.
Qed.
Lemma rename_blocks_ids b t bs :
  i_id <$> block_insts (rename_blocks b t bs) = i_id <$> block_insts bs.
Proof.
  induction bs as [|B bs IH]; [done|]. unfold rename_blocks in *. rewrite fmap_cons, !block_insts_cons.
  rewrite !fmap_app, IH. f_equal. apply (rename_insts_ids b t).
Qed.
Lemma rename_blocks_bids b t bs : b_id <$> rename_blocks b t bs = b_id <$> bs.
Proof. unfold rename_blocks. rewrite <-list_fmap_compose. by apply list_fmap_ext. Qed.

Lemma split_at_notin p l : p ∉ (i_id <$> l) -> split_at p l = None.
Proof.
  induction l as [|i l IH]; [done|]. rewrite fmap_cons, not_elem_of_cons. intros [Hi Hl]. cbn.
  destruct (Z.eqb_spec (i_id i) p); [congruence|]. by rewrite IH.
Qed.
Lemma split_at_pre pre ip post :
  i_id ip ∉ (i_id <$> pre) -> split_at (i_id ip) (pre ++ ip :: post) = Some (pre, ip :: post).
Proof.
  induction pre as [|i pre IH]; cbn; [by rewrite Z.eqb_refl|].
  rewrite not_elem_of_cons. intros [Hi Hp].
  destruct (Z.eqb_spec (i_id i) (i_id ip)); [congruence|]. by rewrite IH.
Qed.

Lemma split_blocks_notin p t h c tb bs :
  p ∉ (i_id <$> block_insts bs) -> (B ← bs; split_block p t h c tb B) = bs.
Proof.
  induction bs as [|B bs IH]; [done|]. rewrite block_insts_cons, fmap_app, not_elem_of_app.
  intros [HB Hbs]. rewrite bind_cons, IH by done. unfold split_block. by rewrite split_at_notin.
Qed.

Lemma block_of_at s A b pre ip post C :
  at_point s A b pre ip post C ->
  block_of (i_id ip) (blocks s) = Some (mkBlock b (pre ++ ip :: post)).
Proof.
  intros Hp. destruct (at_point_unique _ _ _ _ _ _ _ Hp) as (_ & HA & _).
  rewrite (ap_blocks _ _ _ _ _ _ _ Hp). unfold block_of. rewrite list.filter_app.
  assert (filter (fun B => i_id ip ∈ (i_id <$> b_insts B)) A = []) as ->.
  { destruct (filter _ A) as [|B l] eqn:E; [done|]. exfalso.
    assert (HB : B ∈ filter (fun B => i_id ip ∈ (i_id <$> b_insts B)) A) by (rewrite E; left).
    apply list_elem_of_filter in HB as [HB1 HB2]. by eapply HA, ids_of_block. }
  rewrite filter_cons_True; [done|]. cbn. rewrite fmap_app, fmap_cons. set_solver.
Qed.

Section Split.
Context (s : pass) (A : list block) (b : Z) (pre : list inst) (ip : inst) (post : list inst)
  (C : list block) (Hp : at_point s A b pre ip post C).
Let tailb := fresh s.
Let thenb := tailb + 1.

Definition check_term (ns : bool) : inst :=
  mkInst (fresh s + 1 + 1) (KBr (fresh s)) TVoid ns (i_loc ip).
Definition head_term (cond : operand) : inst :=
  mkInst (fresh s + 1 + 1 + 1) (KCondBr cond (fresh s + 1) (fresh s)) TVoid false (i_loc ip).
(** The blocks before the then-block, and those after it. *)
Definition split_front (cond : operand) : list block :=
  rename_blocks b tailb A ++ [mkBlock b (rename_insts b tailb pre ++ [head_term cond])].
Definition split_back : list block :=
  mkBlock tailb (rename_insts b tailb (ip :: post)) :: rename_blocks b tailb C.

Lemma split_point cond :
  exists s', SplitBlockAndInsertIfThen cond ip s = Ok (check_term false, s') /\
    at_point s' (split_front cond) thenb [] (check_term false) [] split_back /\
    fresh s' = fresh s + 4.
Proof.
  unfold SplitBlockAndInsertIfThen, new_id, bind, gets. cbn [fresh with_fresh blocks].
  rewrite (block_of_at _ _ _ _ _ _ _ Hp). eexists. split; [reflexivity|].
  split; [|cbn; lia]. destruct (at_point_unique _ _ _ _ _ _ _ Hp) as (H1 & H2 & H3).
  cbn [b_id].
  match goal with |- at_point (with_blocks ?f ?s4) _ _ _ _ _ _ =>
    assert (Eb : blocks (with_blocks f s4) = split_front cond ++
      mkBlock thenb [check_term false] :: split_back) end.
  { cbn [blocks with_blocks with_fresh]. rewrite (ap_blocks _ _ _ _ _ _ _ Hp). unfold split_function.
    rewrite bind_app, bind_cons, !split_blocks_notin by done. unfold split_block. cbn [b_insts].
    rewrite split_at_pre by done. rewrite !fmap_app. unfold split_front, split_back, rename_blocks.
    rewrite <-app_assoc. f_equal. cbn. unfold on_insts. cbn. rewrite fmap_app. done. }
  split; [exact Eb|]. destruct Hp as [Eb0 (Hnd & Hlt & Hbnd & Hblt)].
  unfold wf. rewrite Eb.
  assert (Hids : i_id <$> block_insts (split_front cond ++ mkBlock thenb [check_term false] :: split_back)
    ≡ₚ i_id (head_term cond) :: i_id (check_term false) :: (i_id <$> block_insts (blocks s))).
  { rewrite Eb0. unfold split_front, split_back.
    rewrite !block_insts_app, !block_insts_cons, !fmap_app, !rename_blocks_ids. cbn [b_insts].
    rewrite !fmap_app, !rename_insts_ids. cbn. solve_Permutation. }
  assert (Hbids : b_id <$> (split_front cond ++ mkBlock thenb [check_term false] :: split_back)
    ≡ₚ thenb :: tailb :: (b_id <$> blocks s)).
  { rewrite Eb0. unfold split_front, split_back.
    rewrite !fmap_app, !fmap_cons, !rename_blocks_bids. cbn. solve_Permutation. }
  assert (Hold : forall p, p ∈ (i_id <$> block_insts (blocks s)) -> p < fresh s).
  { intros p (i & -> & Hi)%list_elem_of_fmap. by apply Hlt. }
  assert (Hbold : forall p, p ∈ (b_id <$> blocks s) -> p < fresh s).
  { intros p (B & -> & HB)%list_elem_of_fmap. by apply Hblt. }
  cbn [fresh with_blocks with_fresh]. split_and!.
  - rewrite Hids. constructor; [|constructor; [|done]].
    + rewrite elem_of_cons. intros [E|Hin%Hold]; cbn in *; lia.
    + intros Hin%Hold. cbn in *. lia.
  - intros i Hi. assert (Hin : i_id i ∈ (i_id <$> block_insts
      (split_front cond ++ mkBlock thenb [check_term false] :: split_back)))
      by (apply list_elem_of_fmap; eauto).
    rewrite Hids, !elem_of_cons in Hin. destruct Hin as [->|[->|Hin%Hold]]; cbn; lia.
  - rewrite Hbids. constructor; [|constructor; [|done]].
    + rewrite elem_of_cons. intros [E|Hin%Hbold]; unfold thenb, tailb in *; lia.
    + intros Hin%Hbold. unfold tailb in *. lia.
  - intros B HB. assert (Hin : b_id B ∈ (b_id <$>
      (split_front cond ++ mkBlock thenb [check_term false] :: split_back)))
      by (apply list_elem_of_fmap; eauto).
    rewrite Hbids, !elem_of_cons in Hin. destruct Hin as [->|[->|Hin%Hbold]]; unfold thenb, tailb in *; lia.
Qed.
End Split.

(** ** The fast mode *)

Lemma find_block_elem bs B :
  NoDup (b_id <$> bs) -> B ∈ bs -> find_block bs (b_id B) = Some B.
Proof.
  intros Hnd HB. unfold find_block. induction bs as [|B' bs IH]; [by apply not_elem_of_nil in HB|].
  rewrite fmap_cons in Hnd. apply list.NoDup_cons in Hnd as [Hn Hnd]. rewrite filter_cons.
  case_decide as Hd.
  - apply elem_of_cons in HB as [->|HB]; [done|]. exfalso. apply Hn. rewrite Hd.
    apply list_elem_of_fmap. eauto.
  - apply elem_of_cons in HB as [->|HB]; [done|]. by apply IH.
Qed.

Lemma nosan_point s A b pre ip post C :
  at_point s A b pre ip post C ->
  exists s', setInsNonSan_id (i_id ip) s = Ok (tt, s') /\
    at_point s' A b pre (set_nosan (i_id ip) ip) post C /\ fresh s' = fresh s.
Proof.
  intros [Eb Hwf]. eexists. split; [reflexivity|]. split; [|done].
  assert (Eb' : blocks (with_blocks (fmap (on_insts (fmap (set_nosan (i_id ip))))) s) =
    A ++ mkBlock b (pre ++ set_nosan (i_id ip) ip :: post) :: C).
  { cbn [blocks with_blocks]. rewrite Eb. apply set_nosan_blocks. rewrite <-Eb. apply Hwf. }
  split; [exact Eb'|]. apply (wf_same_ids s); [done| | |done]; rewrite Eb', Eb.
  - rewrite !block_insts_app, !block_insts_cons, !fmap_app; cbn [b_insts].
    rewrite !fmap_app, !fmap_cons. unfold set_nosan. by rewrite Z.eqb_refl.
  - by rewrite !fmap_app, !fmap_cons.
Qed.

(** The test of the selected comparison. *)
Definition guard_code (ip : inst) (f h : Z) : list inst :=
  [ new_inst ip f true (KLoad AngoraCondId) Int32Ty;
    new_inst ip (f + 1) true (KCmp 32 (OInt 32 h) (OReg f Int32Ty false)) (TInt 1) ].

(** The function after [if_cond_selected], seen from the end of the new block. *)
Definition selected_at (s' s : pass) A b pre ip post C (h : Z) (code : list inst) : Prop :=
  exists s2, fresh s2 = fresh s + 1 + 1 /\
    at_point s' (split_front s2 A b (pre ++ guard_code ip (fresh s) h) ip
                   (OReg (fresh s + 1) (TInt 1) true))
      (fresh s2 + 1) code (check_term s2 ip true) [] (split_back s2 b ip post C) /\
    fresh s2 + 4 <= fresh s'.

Lemma if_cond_selected_at s A b pre ip post C h :
  at_point s A b pre ip post C ->
  exists s' BI, if_cond_selected (IRB_at ip) (OInt 32 h) ip s = Ok (IRB_at BI, s') /\
    BI = mkInst (fresh s + 1 + 1 + 1 + 1) (KBr (fresh s + 1 + 1)) TVoid true (i_loc ip) /\
    selected_at s' s A b pre ip post C h [].
Proof.
  intros Hp. unfold if_cond_selected. do 2 emit_step. rename s1 into s2. rewrite F in *.
  rewrite <-app_assoc in Hp.
  destruct (split_point s2 A b _ ip post C Hp (OReg (fresh s + 1) (TInt 1) true))
    as (s3 & E3 & Hp3 & F3).
  rewrite (bind_Ok _ _ _ _ _ E3).
  destruct (nosan_point _ _ _ _ _ _ _ Hp3) as (s4 & E4 & Hp4 & F4).
  rewrite (bind_Ok _ _ _ _ _ E4).
  exists s4, (check_term s2 ip true). split; [done|]. split.
  - unfold check_term. by rewrite F0.
  - exists s2. split; [done|]. split; [|lia].
    unfold set_nosan in Hp4. cbn [check_term i_id] in Hp4. by rewrite Z.eqb_refl in Hp4.
Qed.

Lemma run_exec code : forall rest bs stop n m m',
  exec_list code m = Some m' -> (forall x, x ∈ code -> i_id x <> stop) ->
  run (length code + n) bs stop (code ++ rest) m = run n bs stop rest m'.
Proof.
  induction code as [|i code IH]; intros rest bs stop n m m' E Hs; [by injection E as <-|].
  cbn in E. destruct (exec_inst i m) as [m1|] eqn:E1; [|done]. cbn in E |- *.
  destruct (Z.eqb_spec (i_id i) stop) as [Hst|_]; [by destruct (Hs i ltac:(left))|].
  rewrite E1. cbn.
  assert (Hrec : run (length code + n) bs stop (code ++ rest) m1 = run n bs stop rest m').
  { apply IH; [done|]. intros x Hx. apply Hs. by right. }
  unfold exec_inst in E1. by destruct (i_kind i).
Qed.

(** Registers of the guard. *)
Definition guard_regs (f sel h : Z) (m : mach) : mach :=
  with_regs (<[ f + 1 := if h =? sel then 1 else 0 ]> (<[ f := sel ]> (regs m))) m.

Lemma run_selected s' s A b pre ip post C h code :
  at_point s A b pre ip post C ->
  selected_at s' s A b pre ip post C h code ->
  exists guard, find_block (blocks s') b = Some (mkBlock b (rename_insts b (fresh s + 1 + 1) pre ++ guard)) /\
    forall m sel m', gvars m !! "__angora_cond_cmpid"%string = Some sel ->
      exec_list code (guard_regs (fresh s) sel h m) = Some m' ->
      exists fuel, run fuel (blocks s') (i_id ip) guard m =
        Some (if h =? sel then m' else guard_regs (fresh s) sel h m).
Proof.
  intros Hp (s2 & F2 & Hp' & Hf').
  destruct (ap_wf _ _ _ _ _ _ _ Hp) as (_ & Hlt & _).
  assert (Hip : i_id ip < fresh s).
  { apply Hlt. rewrite (ap_blocks _ _ _ _ _ _ _ Hp), block_insts_app, block_insts_cons. cbn [b_insts].
    set_solver. }
  destruct Hp' as [Eb (Hnd & _ & Hbnd & _)].
  set (cond := OReg (fresh s + 1) (TInt 1) true) in *.
  exists (guard_code ip (fresh s) h ++ [head_term s2 ip cond]).
  assert (Hin : forall p l, mkBlock p l ∈ split_front s2 A b (pre ++ guard_code ip (fresh s) h) ip cond ++
      mkBlock (fresh s2 + 1) (code ++ [check_term s2 ip true]) :: split_back s2 b ip post C ->
    find_block (blocks s') p = Some (mkBlock p l)).
  { intros p l HB. rewrite <-Eb in HB. by apply (find_block_elem _ (mkBlock p l)). }
  split.
  - rewrite (Hin b (rename_insts b (fresh s2) (pre ++ guard_code ip (fresh s) h) ++ [head_term s2 ip cond])).
    + rewrite F2. unfold rename_insts. rewrite fmap_app, <-app_assoc. done.
    + unfold split_front. set_solver.
  - intros m sel m' Hsel Ecode. exists (length (guard_code ip (fresh s) h) + S (length code + 2))%nat.
    rewrite (run_exec _ _ _ _ _ m (guard_regs (fresh s) sel h m)).
    2:{ unfold guard_code. cbn. rewrite Hsel. cbn. by rewrite lookup_insert_eq. }
    2:{ intros x. unfold guard_code. rewrite !elem_of_cons. intros [->|[->|[]%not_elem_of_nil]]; cbn; lia. }
    cbn [run]. assert (Hne : (i_id (head_term s2 ip cond) =? i_id ip) = false).
    { apply Z.eqb_neq. cbn. lia. }
    rewrite Hne. cbn [i_kind head_term eval cond guard_regs with_regs regs mbind option_bind].
    rewrite lookup_insert_eq. cbn [mbind option_bind].
    set (tail := mkBlock (fresh s2) (rename_insts b (fresh s2) (ip :: post))).
    assert (Htail : find_block (blocks s') (fresh s2) = Some tail).
    { apply Hin. unfold split_back, tail. set_solver. }
    assert (Hstop : forall n k, run (S n) (blocks s') (i_id ip) (b_insts tail) k = Some k).
    { intros n k. cbn. by rewrite phi_rename_id, Z.eqb_refl. }
    destruct (Z.eqb_spec h sel) as [->|Hneq].
    + cbn [Z.eqb]. rewrite (Hin (fresh s2 + 1) (code ++ [check_term s2 ip true])) by set_solver.
      cbn [mbind option_bind b_insts]. rewrite (run_exec _ _ _ _ _ _ m' Ecode).
      * cbn [run]. destruct (Z.eqb_spec (i_id (check_term s2 ip true)) (i_id ip)) as [E|_].
        { exfalso. cbn in E. lia. }
        cbn [i_kind check_term]. rewrite Htail. cbn [mbind option_bind]. exact (Hstop O m').
      * intros x Hx Ex. rewrite Eb, block_insts_app, block_insts_cons, !fmap_app in Hnd.
        apply list.NoDup_app in Hnd as (_ & _ & Hnd). apply list.NoDup_app in Hnd as (_ & Hdis & _).
        apply (Hdis (i_id x)).
        { cbn [b_insts]. rewrite fmap_app. apply elem_of_app. left. apply list_elem_of_fmap. eauto. }
        unfold split_back. rewrite block_insts_cons, fmap_app. apply elem_of_app. left. cbn [b_insts].
        rewrite rename_insts_ids, fmap_cons, Ex. left.
    + cbn [Z.eqb]. rewrite Htail. cbn [mbind option_bind]. rewrite Nat.add_succ_r. apply Hstop.
Qed.

Section Fast.
Context (A : list block) (b : Z) (ip : inst) (post : list inst) (C : list block).
Notation "s '@' pre" := (at_point s A b pre ip post C) (at level 70).

(** The code of the new block, from its pieces. *)
Definition fast_call (i : inst) (f : Z) (e : operand) (h : Z) (v1 v2 : operand) : list inst :=
  [ new_inst i f true (KLoad AngoraContext) Int32Ty;
    new_inst i (f + 1) true
      (KCall (OFun (c_name TraceCmp)) [e; OInt 32 h; OReg f Int32Ty false; v1; v2]) Int32Ty ].

Lemma exec_fast_code i f1 f2 f3 cond h c1 c2 a1 a2 v1 v2 m x y c ctx :
  f1 <= f2 -> f2 <= f3 -> cond < f1 -> below f1 a1 -> below f1 a2 ->
  computes f1 c1 a1 v1 -> below f2 v1 -> computes f2 c2 a2 v2 -> below f3 v2 ->
  regs m !! cond = Some c -> eval m a1 = Some x -> eval m a2 = Some y ->
  gvars m !! "__angora_context"%string = Some ctx ->
  exists r, exec_list (c1 ++ c2 ++
      [new_inst i f3 true (KCast CZExt (OReg cond Int1Ty true)) (TInt 32)] ++
      fast_call i (f3 + 1) (OReg f3 (TInt 32) false) h v1 v2) m =
    Some (mkMach r (params m) (gvars m) (area m) (calls m ++ [(c_name TraceCmp, [c; h; ctx; x; y])])) /\
    (forall p, p < f1 -> r !! p = regs m !! p).
Proof.
  intros H12 H23 Hcf Hb1 Hb2 X1 B1 X2 B2 Hc Hx Hy Hctx.
  destruct (X1 m x Hx) as (r1 & G1 & V1 & R1).
  destruct (X2 (with_regs r1 m) y) as (r2 & G2 & V2 & R2). { by rewrite (eval_below f1). }
  destruct (computes_one i f3 true CZExt (TInt 32) (OReg cond Int1Ty true) false
    ltac:(by left) (with_regs r2 m) c) as (r3 & G3 & V3 & R3).
  { cbn. rewrite R2 by lia. cbn. by rewrite R1. }
  assert (Hev : forall v, below (f3 + 1) v ->
    eval (set_reg (f3 + 1) ctx (with_regs r3 m)) v = eval (with_regs r3 m) v).
  { intros v Hv. apply (eval_below (f3 + 1) v (with_regs r3 m) (<[ f3 + 1 := ctx ]> r3) Hv).
    intros p Hp. by reg_lookup. }
  assert (Hv1 : eval (with_regs r3 m) v1 = Some x).
  { rewrite <-V1. apply (eval_below f2 v1 (with_regs r1 m) r3); [done|]. intros p Hp.
    rewrite R3 by lia. cbn. by rewrite R2 by lia. }
  assert (Hv2 : eval (with_regs r3 m) v2 = Some y).
  { rewrite <-V2. by apply (eval_below f3 v2 (with_regs r2 m) r3). }
  exists (<[ f3 + 1 := ctx ]> r3). split.
  - rewrite exec_list_app, G1. cbn [mbind option_bind]. rewrite exec_list_app, G2.
    cbn [mbind option_bind]. rewrite exec_list_app.
    change (with_regs r2 (with_regs r1 m)) with (with_regs r2 m). rewrite G3.
    change (with_regs r3 (with_regs r2 m)) with (with_regs r3 m). cbn [mbind option_bind].
    unfold fast_call. exec_step. cbn [with_regs gvars]. rewrite Hctx. exec_step.
    cbn [mapM]. rewrite !Hev, Hv1, Hv2 by (done || (eapply below_le; [|done]; lia)).
    cbn in V3. exec_step. cbn [regs with_regs]. reg_lookup. rewrite V3. by cbn.
  - intros p Hp. reg_lookup. rewrite R3 by lia. cbn. rewrite R2 by lia. cbn. by apply R1.
Qed.

(** C23: in the fast mode, [processCmp] splits the block at the insertion point of
    a comparison of words.  Execution from the new code reaches the insertion
    point.  If the comparison is the one the fuzzer has selected, the tracing
    function has been called once, with the result, the identifier, the calling
    context and both operands; otherwise there was no call.  Nothing else that
    the program can see has changed. *)
Theorem processCmp_fast_selected cfg s pre Cond h pred a1 a2 :
  FastMode cfg = true ->
  s @ pre -> word_cmp (fresh s) Cond pred a1 a2 ->
  exists s' t guard, processCmp cfg Cond (OInt 32 h) ip s = Ok (tt, s') /\
    find_block (blocks s') b = Some (mkBlock b (rename_insts b t pre ++ guard)) /\
    forall m x y c ctx sel,
      cmp_values m Cond a1 a2 x y c ->
      gvars m !! "__angora_context"%string = Some ctx ->
      gvars m !! "__angora_cond_cmpid"%string = Some sel ->
      exists fuel m', run fuel (blocks s') (i_id ip) guard m = Some m' /\
        calls m' = calls m ++ (if h =? sel then [(c_name TraceCmp, [c; h; ctx; x; y])] else []) /\
        gvars m' = gvars m /\ area m' = area m /\ params m' = params m /\
        (forall p, p < fresh s -> regs m' !! p = regs m !! p).
Proof.
  intros Hfast Hp [Hk Hty [Hw1 Hw2] Hs (Hb0 & Hb1 & Hb2)].
  destruct (word_cmp_tests _ Hw1 Hs) as (T1 & T2 & T3).
  unfold processCmp. rewrite Hk, T1, T2, T3, Hfast. cbn [negb].
  unfold inst_value. rewrite Hty, Hk. cbn [isCmpInst].
  destruct (if_cond_selected_at s A b pre ip post C h Hp) as (s1 & BI & E1 & EBI & s2 & F2 & Hp1 & F1).
  rewrite (bind_Ok _ _ _ _ _ E1).
  assert (IRB_at BI = IRB_at (check_term s2 ip true)) as -> by (rewrite EBI; cbn; unfold IRB_at, check_term; cbn; by rewrite F2).
  destruct (castArgType_at _ _ _ _ _ s1 [] a1 Hp1 Hw1) as (v1 & c1 & s3 & E3 & Hp3 & F3 & B1 & Y1 & X1).
  { eapply below_le, Hb1. lia. }
  rewrite (bind_Ok _ _ _ _ _ E3).
  destruct (castArgType_at _ _ _ _ _ s3 _ a2 Hp3 Hw2) as (v2 & c2 & s4 & E4 & Hp4 & F4 & B2 & Y2 & X2).
  { eapply below_le, Hb2. lia. }
  rewrite (bind_Ok _ _ _ _ _ E4).
  destruct (cond_ext_at _ _ _ _ _ s4 _ (i_id Cond) true 32 Hp4) as (s5 & E5 & Hp5 & F5); [done|].
  rewrite (bind_Ok _ _ _ _ _ E5). clear Hp1 Hp3 Hp4.
  pose proof Hp as Hp0. clear Hp. emit_step. rewrite CreateCall_typed by (cbn; by rewrite Y1, Y2). emit_step.
  match goal with Hp : at_point ?sf _ _ _ _ _ _ |- _ => rename sf into s' end.
  assert (Hsel : selected_at s' s A b pre ip post C h (c1 ++ c2 ++
      [new_inst (check_term s2 ip true) (fresh s4) true (KCast CZExt (OReg (i_id Cond) Int1Ty true)) (TInt 32)] ++
      fast_call (check_term s2 ip true) (fresh s4 + 1) (OReg (fresh s4) (TInt 32) false) h v1 v2)).
  { exists s2. split; [done|]. split; [|lia]. rewrite F, F5 in Hp1. rewrite <-!app_assoc in Hp1. exact Hp1. }
  destruct (run_selected s' s A b pre ip post C h _ Hp0 Hsel) as (guard & Hfind & Hrun).
  exists s', (fresh s + 1 + 1), guard. split_and!; [done|done|].
  intros m x y c ctx sel (Hc & Hx & Hy) Hctx Hcid.
  set (m1 := guard_regs (fresh s) sel h m).
  assert (Hold : forall p, p < fresh s -> regs m1 !! p = regs m !! p).
  { intros p Hlt. cbn. by reg_lookup. }
  destruct (exec_fast_code (check_term s2 ip true) (fresh s1) (fresh s3) (fresh s4) (i_id Cond) h c1 c2
    a1 a2 v1 v2 m1 x y c ctx) as (r & Er & Hr); try done; try lia;
    try (eapply below_le; [|done]; lia).
  { by rewrite Hold. }
  { rewrite <-Hx. by apply (eval_below (fresh s) a1 m). }
  { rewrite <-Hy. by apply (eval_below (fresh s) a2 m). }
  destruct (Hrun m sel _ Hcid Er) as [fuel Hfuel].
  exists fuel. eexists. split; [exact Hfuel|]. destruct (Z.eqb_spec h sel); cbn [calls gvars area params regs].
  - split_and!; try done. intros p Hlt. rewrite Hr by lia. by apply Hold.
  - split_and!; try done. by rewrite app_nil_r.
Qed.
End Fast.
