(* ===== verification/UnfoldBranch.v ===== *)
(** * The pass that keeps branches apart

    [llvm_mode/pass/UnfoldBranchPass.cc] runs early.  It puts a call of
    [__unfold_branch_fn] at the start of both successors of every conditional
    branch, so that the optimiser does not merge them; the instrumentation pass
    erases these calls again (AngoraPass.v).  The pass is modelled over the state
    and the builder of AngoraPass.v. *)

From S2P Require Import Prelude PassIr AngoraPass AngoraPassCode AngoraPassTrace.
Local Open Scope Z_scope.

Definition UnfoldBranchFn : callee := mkCallee unfold_branch_fn TVoid [Int32Ty].

Section Unfold.
(** libc's [random] after [srandom(1851655)]. *)
Context (rnd : nat -> Z).

(** [RRR(x)] of [defs.h]. *)
Definition RRR (x : Z) : P Z := r <- random rnd ;; ret (r mod x).

(** The body of the loop over the successors of a branch. *)
Definition unfold_successor (VisitedBB : gset Z) (B0 : Z) : P (gset Z) :=
  if decide (B0 ∈ VisitedBB) then ret VisitedBB else
  bs <- gets blocks ;;
  match find_block bs B0 ≫= getFirstInsertionPt with
  | None => fail AssertFailed
  | Some IP =>
      cur_loc <- RRR 1048576 ;;
      _ <- CreateCall (IRB_at IP) UnfoldBranchFn [OInt 32 (u32 cur_loc)] ;;
      ret ({[ B0 ]} ∪ VisitedBB)
  end.
Fixpoint unfold_successors (VisitedBB : gset Z) (succs : list Z) : P (gset Z) :=
  match succs with
  | [] => ret VisitedBB
  | B0 :: r => V <- unfold_successor VisitedBB B0 ;; unfold_successors V r
  end.

(** The successors that a block asks to mark: those of a conditional branch. *)
Definition unfold_targets (BB : block) : list Z :=
  match i_kind <$> getTerminator BB with
  | Some (KCondBr _ t f) => [t; f]
  | _ => []
  end.
Fixpoint unfold_blocks (VisitedBB : gset Z) (bbs : list block) : P (gset Z) :=
  match bbs with
  | [] => ret VisitedBB
  | BB :: r => V <- unfold_successors VisitedBB (unfold_targets BB) ;; unfold_blocks V r
  end.

Definition UnfoldBranch_runOnFunction : P bool :=
  bs <- gets blocks ;;
  if bool_decide (bs = []) then ret false else
  _ <- unfold_blocks ∅ bs ;; ret true.

(** ** What it does *)

(** The marker, with its number. *)
Definition marker (id c : Z) (ip : inst) : inst :=
  new_inst ip id false (KCall (OFun unfold_branch_fn) [OInt 32 c]) TVoid.

(** A block before and after: a marked block has the call at its first insertion
    point. *)
Definition marked (V : gset Z) (B B' : block) : Prop :=
  if decide (b_id B ∈ V) then
    exists pre ip post id c, b_insts B = pre ++ ip :: post /\
      getFirstInsertionPt B = Some ip /\ 0 <= c < 1048576 /\
      B' = mkBlock (b_id B) (pre ++ marker id c ip :: ip :: post)
  else B' = B.

Lemma first_insertion_split B ip :
  getFirstInsertionPt B = Some ip -> exists pre post, b_insts B = pre ++ ip :: post.
Proof.
  unfold getFirstInsertionPt. intros H.
  assert (Hs : exists pre, b_insts B = pre ++ skip_phis (b_insts B)).
  { clear H. induction (b_insts B) as [|i l [pre IH]]; [by exists []|]. cbn.
    destruct (i_kind i); try (by exists []). exists (i :: pre). cbn. by f_equal. }
  destruct Hs as [pre Hs]. destruct (skip_phis (b_insts B)) as [|i r]; [done|].
  destruct (i_kind i); try (injection H as <-; by exists pre, r).
  destruct r as [|j r]; [done|]. injection H as <-. exists (pre ++ [i]), r.
  by rewrite <-app_assoc.
Qed.

Lemma marked_ids V bs bs' : Forall2 (marked V) bs bs' -> b_id <$> bs' = b_id <$> bs.
Proof.
  induction 1 as [|B B' bs bs' H _ IH]; [done|]. rewrite !fmap_cons, IH. f_equal.
  unfold marked in H. case_decide; [|by subst]. by destruct H as (?&?&?&?&?&?&?&?& ->).
Qed.

Context (Hrnd : forall k, 0 <= rnd k).

Lemma unfold_successor_spec V B0 bs s :
  wf s -> Forall2 (marked V) bs (blocks s) -> B0 ∈ (b_id <$> bs) ->
  (forall B, B ∈ bs -> is_Some (getFirstInsertionPt B)) ->
  exists s', unfold_successor V B0 s = Ok ({[ B0 ]} ∪ V, s') /\ wf s' /\
    Forall2 (marked ({[ B0 ]} ∪ V)) bs (blocks s').
Proof.
  intros Hwf Hall HB Hip. unfold unfold_successor. case_decide as Hin.
  { exists s. assert ({[B0]} ∪ V = V) as -> by set_solver. done. }
  apply list_elem_of_fmap in HB as (B & -> & HB).
  apply list_elem_of_lookup in HB as [k Hk].
  destruct (Forall2_lookup_l _ _ _ _ _ Hall Hk) as (B' & Hk' & Hm).
  unfold marked in Hm. rewrite decide_False in Hm by done. subst B'.
  destruct (Hip B) as [ip Hfirst]. { by eapply list_elem_of_lookup_2. }
  destruct (first_insertion_split B ip Hfirst) as (pre & post & EB).
  pose proof (take_drop_middle _ _ _ Hk') as Hsplit.
  assert (Hp : at_point s (take k (blocks s)) (b_id B) pre ip post (drop (S k) (blocks s))).
  { split; [|done]. rewrite <-Hsplit at 1. do 2 f_equal. destruct B; cbn in *. by rewrite EB. }
  unfold gets at 1. unfold bind at 1.
  assert (Hfind : find_block (blocks s) (b_id B) = Some B).
  { rewrite (find_block_at _ _ _ _ _ _ _ Hp), <-EB. by destruct B. }
  rewrite Hfind. cbn [mbind option_bind]. rewrite Hfirst.
  set (c := rnd (rand_calls s) mod 1048576).
  assert (Hc : 0 <= c < 1048576) by (by apply Z.mod_pos_bound).
  assert (Hu : u32 c = c) by (apply u32_small; lia).
  rewrite (bind_Ok (RRR 1048576) _ s c (with_calls s)) by done. rewrite Hu.
  apply (at_point_ext _ (with_calls s)) in Hp; [|done|done].
  rewrite CreateCall_typed by done.
  destruct (emit_at _ _ _ _ _ _ _ (KCall (OFun unfold_branch_fn) [OInt 32 c]) TVoid Hp)
    as (s' & E & Hp' & F').
  rewrite (bind_Ok _ _ _ _ _ E). exists s'. split; [done|]. split; [apply Hp'|].
  rewrite (ap_blocks _ _ _ _ _ _ _ Hp'), <-app_assoc.
  rewrite <-insert_take_drop by (by eapply lookup_lt_Some).
  apply Forall2_same_length_lookup. split.
  { rewrite length_insert. by eapply Forall2_length. }
  intros j B1 B1' Hj Hj'. destruct (decide (j = k)) as [->|Hne].
  - rewrite list_lookup_insert_eq in Hj' by (by eapply lookup_lt_Some).
    assert (B1 = B) as -> by congruence. injection Hj' as <-.
    unfold marked. rewrite decide_True by set_solver.
    exists pre, ip, post, (fresh s), c. split_and!; [done|done|lia|lia|done].
  - rewrite list_lookup_insert_ne in Hj' by done.
    assert (Hid : b_id B1 <> b_id B).
    { intros Eid. apply Hne. destruct Hwf as (_ & _ & Hnd & _).
      rewrite (marked_ids V bs _ Hall) in Hnd.
      apply (NoDup_lookup _ j k (b_id B)) in Hnd; [done| |];
        rewrite list_lookup_fmap, ?Hj, ?Hk; cbn; congruence. }
    pose proof (Forall2_lookup_lr _ _ _ _ _ _ Hall Hj Hj') as Hm. unfold marked in *.
    case_decide; case_decide; try done; set_solver.
Qed.

Lemma unfold_successors_spec succs : forall V bs s,
  wf s -> Forall2 (marked V) bs (blocks s) -> (forall p, p ∈ succs -> p ∈ (b_id <$> bs)) ->
  (forall B, B ∈ bs -> is_Some (getFirstInsertionPt B)) ->
  exists s', unfold_successors V succs s = Ok (list_to_set succs ∪ V, s') /\ wf s' /\
    Forall2 (marked (list_to_set succs ∪ V)) bs (blocks s').
Proof.
  induction succs as [|B0 succs IH]; intros V bs s Hwf Hall Hin Hip.
  { exists s. replace (list_to_set [] ∪ V) with V by set_solver. done. }
  destruct (unfold_successor_spec V B0 bs s Hwf Hall) as (s1 & E1 & Hwf1 & Hall1);
    [apply Hin; left|done|].
  destruct (IH ({[B0]} ∪ V) bs s1 Hwf1 Hall1) as (s' & E & Hwf' & Hall');
    [intros p Hp; apply Hin; by right|done|].
  exists s'. cbn [unfold_successors]. rewrite (bind_Ok _ _ _ _ _ E1), E.
  assert (list_to_set (C := gset Z) succs ∪ ({[B0]} ∪ V) = list_to_set (B0 :: succs) ∪ V) as E2
    by set_solver.
  by rewrite <-E2.
Qed.

Lemma unfold_blocks_spec bbs : forall V bs s,
  wf s -> Forall2 (marked V) bs (blocks s) ->
  (forall BB p, BB ∈ bbs -> p ∈ unfold_targets BB -> p ∈ (b_id <$> bs)) ->
  (forall B, B ∈ bs -> is_Some (getFirstInsertionPt B)) ->
  exists s', unfold_blocks V bbs s = Ok (list_to_set (bbs ≫= unfold_targets) ∪ V, s') /\ wf s' /\
    Forall2 (marked (list_to_set (bbs ≫= unfold_targets) ∪ V)) bs (blocks s').
Proof.
  induction bbs as [|BB bbs IH]; intros V bs s Hwf Hall Hin Hip.
  { exists s. replace (list_to_set ([] ≫= unfold_targets) ∪ V) with V by set_solver. done. }
  destruct (unfold_successors_spec (unfold_targets BB) V bs s Hwf Hall) as (s1 & E1 & Hwf1 & Hall1);
    [intros p; apply Hin; left|done|].
  destruct (IH _ bs s1 Hwf1 Hall1) as (s' & E & Hwf' & Hall');
    [intros BB' p HBB; apply Hin; by right|done|].
  exists s'. cbn [unfold_blocks]. rewrite (bind_Ok _ _ _ _ _ E1), E.
  assert (Es : list_to_set (C := gset Z) (bbs ≫= unfold_targets) ∪ (list_to_set (unfold_targets BB) ∪ V) =
    list_to_set ((BB :: bbs) ≫= unfold_targets) ∪ V).
  { rewrite bind_cons, list_to_set_app_L. set_solver. }
  by rewrite <-Es.
Qed.

(** The pass terminates on every function whose branches lead to its own
    blocks.  It puts one call of the marker at the first insertion point of every
    successor of a conditional branch, however many branches lead there, and
    leaves every other block as it is. *)
Theorem unfold_marks_exactly s :
  wf s -> blocks s <> [] ->
  (forall BB p, BB ∈ blocks s -> p ∈ unfold_targets BB -> p ∈ (b_id <$> blocks s)) ->
  (forall B, B ∈ blocks s -> is_Some (getFirstInsertionPt B)) ->
  exists s', UnfoldBranch_runOnFunction s = Ok (true, s') /\ wf s' /\
    Forall2 (fun B B' =>
      if decide (b_id B ∈ (blocks s ≫= unfold_targets)) then
        exists pre ip post id c, b_insts B = pre ++ ip :: post /\
          getFirstInsertionPt B = Some ip /\ 0 <= c < 1048576 /\
          B' = mkBlock (b_id B) (pre ++ marker id c ip :: ip :: post)
      else B' = B) (blocks s) (blocks s').
Proof.
  intros Hwf Hne Hin Hip. unfold UnfoldBranch_runOnFunction, gets. unfold bind at 1.
  rewrite bool_decide_eq_false_2 by done.
  destruct (unfold_blocks_spec (blocks s) ∅ (blocks s) s Hwf) as (s' & E & Hwf' & Hall);
    [by apply Forall_Forall2_diag, Forall_forall|done|done|].
  rewrite (bind_Ok _ _ _ _ _ E). exists s'. split; [done|]. split; [done|].
  eapply list.Forall2_impl; [exact Hall|]. intros B B' Hm. unfold marked in Hm.
  case_decide as H1; case_decide as H2; try done; set_solver.
Qed.
End Unfold.
