(* ===== verification/AngoraPassEx.v ===== *)
(** * The instrumentation pass on a small module

    A module on which the theorems about [AngoraPass.cc] are used, and runs of the
    pass that show some of its behaviour. *)

From S2P Require Import Prelude PassIr AngoraPass AngoraPassLogic AngoraPassIds.
From S2P Require Import AngoraPassKeep AngoraPassCode AngoraPassTrace UnfoldBranch.
Local Open Scope Z_scope.

Module ExPass.

(** [int main(p) { if ( *p == 5) foo(); return; }] with a marker of an unfolded
    branch. *)
Definition I (id : Z) (k : ikind) (t : ty) : inst :=
  mkInst id k t false (Some ("a.c"%string, id, 1)).
Definition load10 := I 10 (KLoad (OArg 90 TPtr)) Int32Ty.
Definition cmp11 := I 11 (KCmp 32 (OReg 10 Int32Ty false) (OInt 32 5)) Int1Ty.
Definition br12 := I 12 (KCondBr (OReg 11 Int1Ty true) 2 3) TVoid.
Definition call20 := I 20 (KCall (OFun "foo") []) TVoid.
Definition mark21 := I 21 (KCall (OFun unfold_branch_fn) [OInt 32 0]) TVoid.
Definition br22 := I 22 (KBr 3) TVoid.
Definition ret30 := I 30 (KRet []) TVoid.
Definition entry := mkBlock 1 [load10; cmp11; br12].
Definition then_block := mkBlock 2 [call20; mark21; br22].
Definition exit_block := mkBlock 3 [ret30].
Definition main_fn := mkFunc "main" [entry; then_block; exit_block].
Definition the_module := [main_fn].

Definition the_host : host :=
  mkHost (fun _ => None) (fun _ => 100) (fun seed k => (seed + Z.of_nat k) mod 2 ^ 31)
    (fun _ _ _ => false) (fun _ => 1).

Definition fast_cfg := mkConfig true false 7 false 100 false false (-1).
Definition track_cfg := mkConfig false true 7 false 100 false false (-1).
Definition start := mkPass (f_blocks main_fn) 100 1 0 0 ∅ ∅ [] [].

(** The blocks of an instrumented module that count edges. *)
Definition counts_edges (B : block) : bool :=
  existsb (fun i => match i_kind i with KLoad (OGlobal n) => bool_decide (n = "__angora_prev_loc"%string) | _ => false end) (b_insts B).
Definition counting_blocks (r : res result) : list (list (Z * bool)) :=
  match r with
  | Ok r => (fun F => (fun B => (b_id B, counts_edges B)) <$> f_blocks F) <$> r_functions r
  | Fault _ => []
  end.

(** Neither the entry block nor a block that only returns counts its edges in the
    fast mode with contexts: their first instruction is then one that [addFnWrap]
    inserted, which [runOnModule] skips before it compares with the insertion
    point. *)
Example entry_and_exit_not_counted :
  counting_blocks (runOnModule the_host false false "a.c" the_module) =
    [[(1, false); (40, false); (39, false); (2, true); (3, false)]].
Proof. vm_compute. reflexivity. Qed.

(** A switch on 64 bits in the track mode: [ConstantExpr::getCast] is asked for an
    extension from 64 to 64 bits and fails its assertion. *)
Definition switch_fn := mkFunc "main"
  [mkBlock 1 [I 10 (KSwitch (OArg 90 Int64Ty) 2 [(OInt 64 5, 2)]) TVoid]; mkBlock 2 [ret30]].
Example switch_64_asserts :
  runOnModule the_host true false "a.c" [switch_fn] = Fault AssertFailed.
Proof. vm_compute. reflexivity. Qed.

(** A switch on 128 bits in the fast mode: the condition cannot be extended to 64
    bits. *)
Definition switch_128_fn := mkFunc "main"
  [mkBlock 1 [I 10 (KSwitch (OArg 90 (TInt 128)) 2 [(OInt 128 5, 2)]) TVoid]; mkBlock 2 [ret30]].
Example switch_128_asserts :
  runOnModule the_host false false "a.c" [switch_128_fn] = Fault AssertFailed.
Proof. vm_compute. reflexivity. Qed.

(** A listed comparison function whose third argument is a 64-bit size: the trace
    function takes 32 bits, and building the call fails its assertion. *)
Definition listing_host (cat : string) : host :=
  mkHost (fun _ => None) (fun _ => 100) (fun seed k => (seed + Z.of_nat k) mod 2 ^ 31)
    (fun _ _ c => bool_decide (c = cat)) (fun _ => 1).
Definition memcmp_fn (size : operand) := mkFunc "main"
  [mkBlock 1 [I 10 (KCall (OFun "memcmp") [OArg 90 TPtr; OArg 91 TPtr; size]) Int32Ty; ret30]].
Example memcmp_size_asserts :
  runOnModule (listing_host "cmpfn") true false "a.c" [memcmp_fn (OArg 92 Int64Ty)] = Fault AssertFailed /\
  exists r, runOnModule (listing_host "cmpfn") true false "a.c" [memcmp_fn (OArg 92 Int32Ty)] = Ok r.
Proof. split; [vm_compute; reflexivity|]. eexists. vm_compute. reflexivity. Qed.

(** An exploitable operand that is a pointer: the trace function takes 64 bits, and
    the pointer is not converted. *)
Example exploit_pointer_asserts :
  runOnModule (listing_host "i0") true false "a.c"
    [mkFunc "main" [mkBlock 1 [load10; ret30]]] = Fault AssertFailed.
Proof. vm_compute. reflexivity. Qed.

(** An indirect call records its call site, an indirect invoke does not. *)
Definition stores_site (B : block) : bool :=
  existsb (fun i => match i_kind i with
    | KStore (OInt _ z) (OGlobal n) =>
        bool_decide (n = "__angora_indirect_call_site"%string) && negb (z =? 0)
    | _ => false end) (b_insts B).
Definition indirect_fn (k : ikind) := mkFunc "main" [mkBlock 1 [I 10 k TVoid; I 11 (KBr 2) TVoid]; mkBlock 2 [ret30]].
Example indirect_invoke_not_recorded :
  (fun k => match runOnModule the_host true false "a.c" [indirect_fn k] with
            | Ok r => existsb (fun F => existsb stores_site (f_blocks F)) (r_functions r)
            | Fault _ => false end) <$>
    [KCall (OArg 90 TPtr) []; KInvoke (OArg 90 TPtr) [] 2 2] = [true; false].
Proof. vm_compute. reflexivity. Qed.

(** ** The theorems on this module *)

Definition the_result (Track : bool) : result :=
  match runOnModule the_host Track false "a.c" the_module with
  | Ok r => r
  | Fault _ => mkResult [] start
  end.

Lemma getInstructionId_fresh_witness :
  is_bc fast_cfg = false /\
  exists h s', getInstructionId fast_cfg cmp11 start = Ok (h, s') /\ (h ∉ UniqCidSet start).
Proof.
  split; [done|].
  pose proof (getInstructionId_fresh fast_cfg cmp11 start eq_refl ltac:(vm_compute; done)) as H.
  destruct (getInstructionId fast_cfg cmp11 start) as [[h s']|e] eqn:E; [|vm_compute in E; done].
  exists h, s'. split; [done|apply H].
Defined.

Lemma instrumented_ids_unique_witness :
  runOnModule the_host true false "a.c" the_module = Ok (the_result true) /\
  IdMap (r_pass (the_result true)) !! 11 <> None /\
  forall i j h, IdMap (r_pass (the_result true)) !! i = Some h ->
    IdMap (r_pass (the_result true)) !! j = Some h -> i = j.
Proof.
  assert (E : runOnModule the_host true false "a.c" the_module = Ok (the_result true))
    by (vm_compute; reflexivity).
  split; [exact E|]. split; [vm_compute; done|].
  exact (proj2 (instrumented_ids_unique the_host true false "a.c" the_module (the_result true) eq_refl E)).
Defined.

(** The marker is erased, everything else is kept. *)
Lemma instrumentation_keeps_program_witness :
  runOnModule the_host false false "a.c" the_module = Ok (the_result false) /\
  (fun F' => i_id <$> program_code (first_fresh the_module) (f_blocks F')) <$>
    r_functions (the_result false) = [[10; 11; 12; 20; 22; 30]] /\
  exists erased : list Z, forall F', r_functions (the_result false) = [F'] ->
    program_code (first_fresh the_module) (f_blocks F') =
      core <$> filter (fun i => i_id i ∉ erased) (block_insts (f_blocks main_fn)).
Proof.
  assert (E : runOnModule the_host false false "a.c" the_module = Ok (the_result false))
    by (vm_compute; reflexivity).
  split; [exact E|]. split.
  - vm_compute. reflexivity.
  - pose proof (instrumentation_keeps_program the_host false false "a.c" the_module _ E) as H.
    apply Forall2_cons_inv_l in H as (F0 & l & (_ & D & _ & HD) & _ & EF).
    exists D. intros F' EF'. rewrite EF' in EF. injection EF as <- _. exact HD.
Defined.

(** A state of the machine with the whole map of branch counts. *)
Lemma area_exists :
  { a : gmap Z Z | forall k, 0 <= k < MAP_SIZE -> a !! (1000 + k) = Some 255 }.
Proof.
  exists (list_to_map ((fun k => (1000 + k, 255)) <$> seqZ 0 MAP_SIZE)).
  intros k Hk. apply elem_of_list_to_map_1.
  - rewrite <-list_fmap_compose. apply NoDup_fmap_2; [|apply NoDup_seqZ].
    intros x y E. cbn in E. lia.
  - apply list_elem_of_fmap. exists k. split; [done|]. apply elem_of_seqZ. lia.
Qed.
Definition the_area : gmap Z Z := proj1_sig area_exists.
Definition the_mach : mach :=
  mkMach (<[ 10 := 5 ]> (<[ 11 := 1 ]> ∅)) ∅
    (<[ "__angora_area_ptr"%string := 1000 ]> (<[ "__angora_prev_loc"%string := 3 ]>
      (<[ "__angora_context"%string := 6 ]> (<[ "__angora_call_site"%string := 9 ]>
      (<[ "__angora_indirect_call_site"%string := 4 ]> (<[ "__angora_cond_cmpid"%string := 77 ]> ∅))))))
    the_area [].

Lemma the_area_lookup k : 0 <= k < MAP_SIZE -> the_area !! (1000 + k) = Some 255.
Proof. apply (proj2_sig area_exists). Qed.
Lemma the_mach_ok : MapOk the_mach.
Proof.
  split.
  - exists 1000. split; [done|]. intros k Hk. exists 255. split; [by apply the_area_lookup|lia].
  - intros n. rewrite !elem_of_cons. intros [->|[->|[->|[]%not_elem_of_nil]]].
    + by exists 3.
    + by exists 6.
    + by exists 9.
Qed.

Lemma start_at_load : at_point start [] 1 [] load10 [cmp11; br12] [then_block; exit_block].
Proof.
  split; [done|]. split_and!.
  - apply (bool_decide_unpack _). vm_compute. exact Logic.I.
  - intros i Hi. unfold block_insts in Hi. cbn in Hi.
    repeat (apply elem_of_cons in Hi as [->|Hi]; [cbn; lia|]). by apply not_elem_of_nil in Hi.
  - apply (bool_decide_unpack _). vm_compute. exact Logic.I.
  - intros B HB. cbn in HB.
    repeat (apply elem_of_cons in HB as [->|HB]; [cbn; lia|]). by apply not_elem_of_nil in HB.
Qed.
Lemma start_at_branch : at_point start [] 1 [load10; cmp11] br12 [] [then_block; exit_block].
Proof. split; [done|]. apply start_at_load. Qed.

Lemma countEdge_correct_witness :
  MapOk the_mach /\
  exists code s' m', countEdge fast_cfg Z.of_nat 1 start = Ok (tt, s') /\
    at_point s' [] 1 ([] ++ code) load10 [cmp11; br12] [then_block; exit_block] /\
    exec_list code the_mach = Some m' /\
    area m' = <[ 1000 + Z.lxor 3 1 := 1 ]> the_area.
Proof.
  split; [apply the_mach_ok|].
  destruct (countEdge_correct fast_cfg Z.of_nat start [] 1 [] load10 [cmp11; br12]
    [then_block; exit_block] eq_refl Nat2Z.is_nonneg eq_refl start_at_load eq_refl)
    as (code & s' & E & Hp & Hm).
  destruct (Hm the_mach the_mach_ok)
    as (m' & base & prev & ctx & c & Hx & _ & [= <-] & [= <-] & _ & Hc & Ha & _).
  change (area the_mach) with the_area in Hc, Ha.
  rewrite the_area_lookup in Hc by (vm_compute; split; congruence || done). injection Hc as <-.
  exists code, s', m'. split; [exact E|]. split; [exact Hp|]. split; [exact Hx|exact Ha].
Defined.

Lemma addFnWrap_context_witness :
  MapOk the_mach /\
  exists s' enter saved m1, addFnWrap fast_cfg start = Ok (tt, s') /\
    exec_list enter the_mach = Some m1 /\
    gvars m1 !! "__angora_context"%string = Some (Z.lxor 6 9) /\
    forall t f, gvars <$> exec_list (epilogue t saved f) m1 =
      Some (<[ "__angora_indirect_call_site"%string := 0 ]>
              (<[ "__angora_context"%string := 6 ]> (gvars m1))).
Proof.
  split; [apply the_mach_ok|].
  destruct (addFnWrap_context fast_cfg start 1 [] load10 [cmp11; br12] [then_block; exit_block]
    ltac:(done) ltac:(done) ltac:(done) start_at_load eq_refl) as (s' & enter & saved & E & _ & Hm).
  { intros B HB. repeat (apply elem_of_cons in HB as [->|HB]; [done|]). by apply not_elem_of_nil in HB. }
  destruct (Hm the_mach the_mach_ok)
    as (m1 & ctx & cs & Hx & _ & [= <-] & [= <-] & Hg & _ & _ & _ & Hepi).
  exists s', enter, saved, m1. split; [exact E|]. split; [exact Hx|]. split; [by rewrite Hg|].
  intros t f. by rewrite (Hepi t f m1 eq_refl).
Defined.

Lemma cmp11_word : word_cmp (fresh start) cmp11 32 (OReg 10 Int32Ty false) (OInt 32 5).
Proof. split; [done|done|done|by cbn|cbn; lia]. Qed.

Lemma processCmp_track_reports_witness :
  exists code s' m', processCmp track_cfg cmp11 (OInt 32 77) br12 start = Ok (tt, s') /\
    exec_list code the_mach = Some m' /\
    calls m' = [("__angora_trace_cmp_tt"%string, [77; 6; 4; 4; 32; 5; 5; 1])].
Proof.
  destruct (processCmp_track_reports [] 1 br12 [] [then_block; exit_block] track_cfg start
    [load10; cmp11] cmp11 77 32 _ _ eq_refl eq_refl start_at_branch cmp11_word)
    as (code & s' & E & _ & Hm).
  destruct (Hm the_mach 5 5 1 6 4 ltac:(done) eq_refl eq_refl) as (r & Hx & _).
  exists code, s'. eexists. split; [exact E|]. split; [exact Hx|]. reflexivity.
Defined.

Lemma processCmp_fast_selected_witness :
  exists s' guard fuel m', processCmp fast_cfg cmp11 (OInt 32 77) br12 start = Ok (tt, s') /\
    run fuel (blocks s') 12 guard the_mach = Some m' /\
    calls m' = [("__angora_trace_cmp"%string, [1; 77; 6; 5; 5])].
Proof.
  destruct (processCmp_fast_selected [] 1 br12 [] [then_block; exit_block] fast_cfg start
    [load10; cmp11] cmp11 77 32 _ _ eq_refl start_at_branch cmp11_word)
    as (s' & t & guard & E & _ & Hm).
  destruct (Hm the_mach 5 5 1 6 77 ltac:(done) eq_refl eq_refl) as (fuel & m' & Hx & Hc & _).
  exists s', guard, fuel, m'. split; [exact E|]. split; [exact Hx|]. exact Hc.
Defined.

Lemma unfold_marks_exactly_witness :
  exists s', UnfoldBranch_runOnFunction Z.of_nat start = Ok (true, s') /\
    (i_id <$> block_insts (blocks s')) = [10; 11; 12; 100; 20; 21; 22; 101; 30].
Proof.
  destruct (unfold_marks_exactly Z.of_nat Nat2Z.is_nonneg start) as (s' & E & _ & _).
  - apply start_at_load.
  - done.
  - intros BB p HB. cbn in HB.
    repeat (apply elem_of_cons in HB as [->|HB]; [cbn; set_solver|]). by apply not_elem_of_nil in HB.
  - intros B HB. cbn in HB.
    repeat (apply elem_of_cons in HB as [->|HB]; [by eexists|]). by apply not_elem_of_nil in HB.
  - exists s'. split; [exact E|]. vm_compute in E. by injection E as <-.
Defined.
End ExPass.
