(* ===== verification/DfsanIr.v ===== *)
(** * The representation of programs that the data-flow pass rewrites

    The pass of [llvm_mode/pass/DFSanPass.cc] changes the types, names and calls of
    the functions of a module, so that it needs more of LLVM than the pass of
    PassIr.v: structural types, functions with an identity that outlives their
    name, aliases, constant expressions and the dominator tree.  This file has
    that part of LLVM.  Attributes, metadata and debug locations are left out.  The
    pass itself is in DfsanPass.v. *)

From S2P Require Import Prelude.
Local Open Scope Z_scope.

(** ** Types *)

Inductive ty :=
| TVoid
| TInt (w : Z)
| TFP (w : Z)
| TLabel
| TPtr (t : ty)
| TArray (n : Z) (t : ty)
| TVec (n : Z) (t : ty)
| TStruct (name : option string) (ts : list ty)   (* [None]: a literal struct *)
| TFun (r : ty) (ps : list ty) (va : bool).

(** Types are compared structurally: LLVM keeps one copy of each. *)
Fixpoint ty_eqb (a b : ty) : bool :=
  let list_eqb :=
    fix go (l k : list ty) : bool :=
      match l, k with
      | [], [] => true
      | x :: l', y :: k' => ty_eqb x y && go l' k'
      | _, _ => false
      end in
  match a, b with
  | TVoid, TVoid | TLabel, TLabel => true
  | TInt v, TInt w | TFP v, TFP w => v =? w
  | TPtr s, TPtr t => ty_eqb s t
  | TArray n s, TArray m t | TVec n s, TVec m t => (n =? m) && ty_eqb s t
  | TStruct n l, TStruct m k => bool_decide (n = m) && list_eqb l k
  | TFun r l v, TFun q k w => ty_eqb r q && list_eqb l k && Bool.eqb v w
  | _, _ => false
  end.

Section TyInd.
Variable P : ty -> Prop.
Hypotheses (Hvoid : P TVoid) (Hint : forall w, P (TInt w)) (Hfp : forall w, P (TFP w))
  (Hlabel : P TLabel) (Hptr : forall t, P t -> P (TPtr t))
  (Harray : forall n t, P t -> P (TArray n t)) (Hvec : forall n t, P t -> P (TVec n t))
  (Hstruct : forall n ts, Forall P ts -> P (TStruct n ts))
  (Hfun : forall r ps va, P r -> Forall P ps -> P (TFun r ps va)).
Fixpoint ty_ind' (t : ty) : P t :=
  let all := fix go (l : list ty) : Forall P l :=
    match l with [] => Forall_nil_2 _ | x :: r => Forall_cons_2 _ _ _ (ty_ind' x) (go r) end in
  match t with
  | TVoid => Hvoid | TInt w => Hint w | TFP w => Hfp w | TLabel => Hlabel
  | TPtr s => Hptr s (ty_ind' s)
  | TArray n s => Harray n s (ty_ind' s)
  | TVec n s => Hvec n s (ty_ind' s)
  | TStruct n ts => Hstruct n ts (all ts)
  | TFun r ps va => Hfun r ps va (ty_ind' r) (all ps)
  end.
End TyInd.

Lemma ty_eqb_eq a : forall b, ty_eqb a b = true <-> a = b.
Proof.
  induction a as [| w | w | | t IH | n t IH | n t IH | n ts IH | r ps va IHr IH] using ty_ind';
    intros b; destruct b; cbn; try (split; [discriminate|congruence]); try tauto.
  - rewrite Z.eqb_eq. naive_solver.
  - rewrite Z.eqb_eq. naive_solver.
  - rewrite IH. naive_solver.
  - rewrite andb_true_iff, Z.eqb_eq, IH. naive_solver.
  - rewrite andb_true_iff, Z.eqb_eq, IH. naive_solver.
  - rewrite andb_true_iff, bool_decide_eq_true. revert ts0.
    enough (Hl : forall k, (fix go (l k : list ty) : bool :=
      match l, k with [], [] => true | x :: l', y :: k' => ty_eqb x y && go l' k' | _, _ => false
      end) ts k = true <-> ts = k) by (intros k; rewrite Hl; naive_solver).
    induction IH as [|x l Hx _ IHl]; intros [|y k]; cbn; try (split; congruence).
    rewrite andb_true_iff, Hx, IHl. naive_solver.
  - rewrite !andb_true_iff, IHr, Bool.eqb_true_iff. revert ps0.
    enough (Hl : forall k, (fix go (l k : list ty) : bool :=
      match l, k with [], [] => true | x :: l', y :: k' => ty_eqb x y && go l' k' | _, _ => false
      end) ps k = true <-> ps = k) by (intros k; rewrite Hl; naive_solver).
    induction IH as [|x l Hx _ IHl]; intros [|y k]; cbn; try (split; congruence).
    rewrite andb_true_iff, Hx, IHl. naive_solver.
Qed.
#[export] Instance ty_eq_dec : EqDecision ty.
Proof.
  intros a b. destruct (ty_eqb a b) eqn:E.
  - left. by apply ty_eqb_eq.
  - right. intros ->. by rewrite (proj2 (ty_eqb_eq b b) eq_refl) in E.
Defined.

Definition isVoidTy (t : ty) : bool := match t with TVoid => true | _ => false end.
Definition isIntegerTy (t : ty) : bool := match t with TInt _ => true | _ => false end.
Definition isVectorTy (t : ty) : bool := match t with TVec _ _ => true | _ => false end.
(** [Type::getScalarSizeInBits]: of the element type of a vector; zero for pointers. *)
Definition getScalarSizeInBits (t : ty) : Z :=
  match t with
  | TInt w | TFP w | TVec _ (TInt w) | TVec _ (TFP w) => w
  | _ => 0
  end.
(** The function type a pointer type points to. *)
Definition pointee_fun (t : ty) : option ty :=
  match t with TPtr (TFun r ps va) => Some (TFun r ps va) | _ => None end.

Record FunctionType := mkFT { ft_ret : ty; ft_params : list ty; ft_va : bool }.
Definition fun_ty (t : FunctionType) : ty := TFun (ft_ret t) (ft_params t) (ft_va t).
Definition as_ft (t : ty) : option FunctionType :=
  match t with TFun r ps va => Some (mkFT r ps va) | _ => None end.
Definition getPointerTo (t : FunctionType) : ty := TPtr (fun_ty t).

(** ** Values *)

Inductive castop := Trunc | ZExt | SExt | PtrToInt | IntToPtr | BitCast | OtherCast (n : Z).
Inductive binop :=
| Add | Sub | Mul | UDiv | SDiv | URem | SRem | Shl | LShr | AShr | And | Or | Xor
| FBin (n : Z).

Inductive value :=
| VInst (p : Z) (t : ty)                  (* the instruction p *)
| VArg (n : Z) (t : ty)                   (* parameter n of the function *)
| VInt (w z : Z)                          (* ConstantInt *)
| VUndef (t : ty)
| VConst (k : Z) (t : ty)                 (* another constant *)
| VGlobal (n : string) (t : ty) (const : bool)  (* the address of a variable of type t *)
| VStr (s : string)                       (* the address of a string literal *)
| VFun (f : Z) (t : ty)                   (* the function f, of function type t *)
| VAlias (a : Z) (t : ty)
| VAsm (t : ty)
| VBlock (b : Z)
| VBlockAddress (f b : Z)
| VCast (c : castop) (v : value) (t : ty)          (* constant expressions *)
| VBin (o : binop) (x y : value)
| VGEP (elt : ty) (base : value) (i : Z) (j : option Z) (t : ty)
| VInsert (agg v : value) (i : Z).

#[export] Instance castop_eq_dec : EqDecision castop.
Proof. solve_decision. Defined.
#[export] Instance binop_eq_dec : EqDecision binop.
Proof. solve_decision. Defined.
#[export] Instance value_eq_dec : EqDecision value.
Proof. solve_decision. Defined.

Fixpoint typeOf (v : value) : ty :=
  match v with
  | VInst _ t | VArg _ t | VUndef t | VConst _ t | VCast _ _ t | VGEP _ _ _ _ t | VAsm t => t
  | VInt w _ => TInt w
  | VGlobal _ t _ | VFun _ t | VAlias _ t => TPtr t
  | VStr _ | VBlockAddress _ _ => TPtr (TInt 8)
  | VBlock _ => TLabel
  | VBin _ x _ => typeOf x
  | VInsert a _ _ => typeOf a
  end.
Definition isConstant (v : value) : bool :=
  match v with
  | VInst _ _ | VArg _ _ | VAsm _ | VBlock _ => false
  | _ => true
  end.
Definition isConstantInt (v : value) : bool := match v with VInt _ _ => true | _ => false end.
Definition isInstruction (v : value) : bool := match v with VInst _ _ => true | _ => false end.
Definition isArgument (v : value) : bool := match v with VArg _ _ => true | _ => false end.
Definition isInlineAsm (v : value) : bool := match v with VAsm _ => true | _ => false end.

(** ** Instructions, functions, modules *)

Inductive ikind :=
| IBin (o : binop) (nsw nuw : bool) (x y : value)
| ICast (c : castop) (x : value)
| ICmp (pred : Z) (x y : value)
| IGEP (elt : ty) (base : value) (idx : list value)
| ILoad (p : value) (align : Z)
| IStore (v p : value) (align : Z)
| IAlloca (t : ty) (count : value)
| ISelect (c x y : value)
| IExtractElement (v idx : value)
| IInsertElement (v x idx : value)
| IShuffleVector (a b mask : value)
| IExtractValue (agg : value) (i : Z)
| IInsertValue (agg v : value) (i : Z)
| ICall (callee : value) (args : list value)
| IInvoke (callee : value) (args : list value) (normal unwind : Z)
| IPhi (inc : list (value * Z))
| IRet (v : option value)
| IBr (b : Z)
| ICondBr (c : value) (t f : Z)
| ISwitch (c : value) (default : Z) (cases : list (value * Z))
| IUnreachable
| IOther (opcode : string) (ops : list value) (succs : list Z) (term : bool).

Record inst := mkInst { i_id : Z; i_kind : ikind; i_ty : ty }.
Record block := mkBlock { b_id : Z; b_insts : list inst }.

Inductive linkage := ExternalLinkage | InternalLinkage | PrivateLinkage | LinkOnceODRLinkage
| WeakAnyLinkage | LinkOnceAnyLinkage | OtherLinkage (n : Z).
Definition isLocalLinkage (l : linkage) : bool :=
  match l with InternalLinkage | PrivateLinkage => true | _ => false end.
(** Another definition may replace it when the program is linked. *)
Definition isInterposableLinkage (l : linkage) : bool :=
  match l with WeakAnyLinkage | LinkOnceAnyLinkage => true | _ => false end.

Record func := mkFunc {
  fn_id : Z; fn_name : string; fn_type : FunctionType; fn_linkage : linkage;
  fn_blocks : list block       (* none: a declaration *)
}.
Record alias := mkAlias {
  ga_id : Z; ga_name : string; ga_type : ty; ga_linkage : linkage; ga_base : value
}.
Inductive tarch := x86_64 | mips64 | mips64el | aarch64 | aarch64_be | other_arch.
Record module := mkModule {
  m_name : string; m_arch : tarch; m_asm : string;
  m_funs : list func; m_aliases : list alias;
  m_globals : list (string * ty * bool)    (* name, type, thread local *)
}.

Definition inst_value (i : inst) : value := VInst (i_id i) (i_ty i).
Definition func_value (f : func) : value := VFun (fn_id f) (fun_ty (fn_type f)).
Definition alias_value (a : alias) : value := VAlias (ga_id a) (ga_type a).
Definition isDeclaration (f : func) : bool :=
  match fn_blocks f with [] => true | _ => false end.
Definition isIntrinsic (n : string) : bool := String.prefix "llvm." n.

Definition getOperands (k : ikind) : list value :=
  match k with
  | IBin _ _ _ x y | ICmp _ x y => [x; y]
  | ICast _ x | ILoad x _ => [x]
  | IGEP _ b idx => b :: idx
  | IStore v p _ => [v; p]
  | IAlloca _ c => [c]
  | ISelect c x y => [c; x; y]
  | IExtractElement v i => [v; i]
  | IInsertElement v x i => [v; x; i]
  | IShuffleVector a b m => [a; b; m]
  | IExtractValue a _ => [a]
  | IInsertValue a v _ => [a; v]
  | ICall c args => args ++ [c]
  | IInvoke c args n u => args ++ [VBlock n; VBlock u; c]
  | IPhi inc => inc.*1
  | IRet v => match v with Some v => [v] | None => [] end
  | IBr b => [VBlock b]
  | ICondBr c t f => [c; VBlock f; VBlock t]
  | ISwitch c d cs => [c; VBlock d] ++ (x ← cs; [x.1; VBlock x.2])
  | IUnreachable => []
  | IOther _ ops succs _ => ops ++ (VBlock <$> succs)
  end.
Definition isTerminator (k : ikind) : bool :=
  match k with
  | IInvoke _ _ _ _ | IRet _ | IBr _ | ICondBr _ _ _ | ISwitch _ _ _ | IUnreachable => true
  | IOther _ _ _ t => t
  | _ => false
  end.
Definition successors (k : ikind) : list Z :=
  match k with
  | IInvoke _ _ n u => [n; u]
  | IBr b => [b]
  | ICondBr _ t f => [t; f]
  | ISwitch _ d cs => d :: cs.*2
  | IOther _ _ succs _ => succs
  | _ => []
  end.

(** ** Looking things up *)

Definition block_insts (bs : list block) : list inst := b ← bs; b_insts b.
Definition mod_blocks (m : module) : list block := f ← m_funs m; fn_blocks f.
Definition mod_insts (m : module) : list inst := block_insts (mod_blocks m).
Definition find_inst (m : module) (p : Z) : option inst :=
  head (filter (fun i => i_id i = p) (mod_insts m)).
Definition block_of (m : module) (p : Z) : option block :=
  head (filter (fun b => p ∈ (i_id <$> b_insts b)) (mod_blocks m)).
Definition find_block (m : module) (b : Z) : option block :=
  head (filter (fun c => b_id c = b) (mod_blocks m)).
Definition find_fun (m : module) (f : Z) : option func :=
  head (filter (fun g => fn_id g = f) (m_funs m)).
Definition find_alias (m : module) (a : Z) : option alias :=
  head (filter (fun g => ga_id g = a) (m_aliases m)).
Definition fun_named (m : module) (n : string) : option func :=
  head (filter (fun g => fn_name g = n) (m_funs m)).
Fixpoint next_in (p : Z) (l : list inst) : option inst :=
  match l with
  | [] => None
  | i :: r => if i_id i =? p then head r else next_in p r
  end.
(** [Instruction::getNextNode]. *)
Definition getNextNode (m : module) (p : Z) : option inst :=
  b ← block_of m p; next_in p (b_insts b).
Definition block_succs (b : block) : list Z :=
  match list.last (b_insts b) with Some i => successors (i_kind i) | None => [] end.
Definition fun_succs (bs : list block) (b : Z) : list Z :=
  match head (filter (fun c => b_id c = b) bs) with Some c => block_succs c | None => [] end.
(** [BasicBlock::getSinglePredecessor]: exactly one edge comes in. *)
Definition pred_edges (bs : list block) (b : Z) : list Z :=
  c ← bs; (fun _ => b_id c) <$> filter (fun s => s = b) (block_succs c).
Definition getSinglePredecessor (bs : list block) (b : Z) : option Z :=
  match pred_edges bs b with [p] => Some p | _ => None end.
(** Instructions that have [v] as an operand. *)
Definition users (m : module) (v : value) : list inst :=
  filter (fun i => v ∈ getOperands (i_kind i)) (mod_insts m).

(** ** Substituting a value: [Value::replaceAllUsesWith] *)

(** [ConstantExpr::getBitCast]: a cast of a cast is one cast, and a cast to the
    same type is the value. *)
Definition getBitCast (v : value) (t : ty) : value :=
  let v' := match v with VCast BitCast u _ => u | _ => v end in
  if decide (typeOf v' = t) then v' else VCast BitCast v' t.

Section Subst.
Variables from to : value.
Fixpoint subst_value (v : value) : value :=
  if decide (v = from) then to else
  match v with
  | VCast BitCast u t => getBitCast (subst_value u) t
  | VCast c u t => VCast c (subst_value u) t
  | VBin o x y => VBin o (subst_value x) (subst_value y)
  | VGEP e b i j t => VGEP e (subst_value b) i j t
  | VInsert a x i => VInsert (subst_value a) (subst_value x) i
  | _ => v
  end.
Definition subst_kind (k : ikind) : ikind :=
  let r := subst_value in
  match k with
  | IBin o s u x y => IBin o s u (r x) (r y)
  | ICast c x => ICast c (r x)
  | ICmp p x y => ICmp p (r x) (r y)
  | IGEP e b idx => IGEP e (r b) (r <$> idx)
  | ILoad p a => ILoad (r p) a
  | IStore v p a => IStore (r v) (r p) a
  | IAlloca t c => IAlloca t (r c)
  | ISelect c x y => ISelect (r c) (r x) (r y)
  | IExtractElement v i => IExtractElement (r v) (r i)
  | IInsertElement v x i => IInsertElement (r v) (r x) (r i)
  | IShuffleVector a b m => IShuffleVector (r a) (r b) (r m)
  | IExtractValue a i => IExtractValue (r a) i
  | IInsertValue a v i => IInsertValue (r a) (r v) i
  | ICall c args => ICall (r c) (r <$> args)
  | IInvoke c args n u => IInvoke (r c) (r <$> args) n u
  | IPhi inc => IPhi ((fun x => (r x.1, x.2)) <$> inc)
  | IRet v => IRet (r <$> v)
  | ICondBr c t f => ICondBr (r c) t f
  | ISwitch c d cs => ISwitch (r c) d cs
  | IOther o ops s t => IOther o (r <$> ops) s t
  | IBr _ | IUnreachable => k
  end.
End Subst.

Definition on_kind (f : ikind -> ikind) (i : inst) : inst := mkInst (i_id i) (f (i_kind i)) (i_ty i).
Definition on_insts (f : list inst -> list inst) (b : block) : block :=
  mkBlock (b_id b) (f (b_insts b)).
Definition on_blocks (f : list block -> list block) (g : func) : func :=
  mkFunc (fn_id g) (fn_name g) (fn_type g) (fn_linkage g) (f (fn_blocks g)).
Definition with_funs (f : list func -> list func) (m : module) : module :=
  mkModule (m_name m) (m_arch m) (m_asm m) (f (m_funs m)) (m_aliases m) (m_globals m).
Definition with_aliases (f : list alias -> list alias) (m : module) : module :=
  mkModule (m_name m) (m_arch m) (m_asm m) (m_funs m) (f (m_aliases m)) (m_globals m).
Definition with_asm (a : string) (m : module) : module :=
  mkModule (m_name m) (m_arch m) a (m_funs m) (m_aliases m) (m_globals m).
Definition with_globals (f : list (string * ty * bool) -> list (string * ty * bool)) (m : module)
  : module :=
  mkModule (m_name m) (m_arch m) (m_asm m) (m_funs m) (m_aliases m) (f (m_globals m)).
(** Change the instruction lists of all blocks, or the blocks of all functions. *)
Definition map_insts (f : list inst -> list inst) (m : module) : module :=
  with_funs (fmap (on_blocks (fmap (on_insts f)))) m.
Definition map_blocks (f : list block -> list block) (m : module) : module :=
  with_funs (fmap (on_blocks f)) m.

Definition replaceAllUsesWith (from to : value) (m : module) : module :=
  with_aliases
    (fmap (fun a => mkAlias (ga_id a) (ga_name a) (ga_type a) (ga_linkage a)
                      (subst_value from to (ga_base a))))
    (map_insts (fmap (on_kind (subst_kind from to))) m).

(** ** Changing instruction lists *)

Fixpoint ins_before (p : Z) (x : inst) (l : list inst) : list inst :=
  match l with
  | [] => []
  | i :: r => if i_id i =? p then x :: i :: r else i :: ins_before p x r
  end.
Definition erase_inst (p : Z) (l : list inst) : list inst := filter (fun i => i_id i <> p) l.
Definition set_kind (p : Z) (f : ikind -> ikind) (i : inst) : inst :=
  if i_id i =? p then on_kind f i else i.
Definition phi_rename (from to : Z) (k : ikind) : ikind :=
  match k with
  | IPhi inc => IPhi ((fun x => (x.1, if x.2 =? from then to else x.2)) <$> inc)
  | _ => k
  end.
Fixpoint split_at (p : Z) (l : list inst) : option (list inst * list inst) :=
  match l with
  | [] => None
  | i :: r => if i_id i =? p then Some ([], l)
              else match split_at p r with
                   | Some (a, b) => Some (i :: a, b)
                   | None => None
                   end
  end.
(** [BasicBlock::splitBasicBlock] at [p]: the rest goes to the new block [tailb],
    [mids] are further blocks put between the two, [term] ends the first part. *)
Definition split_block (p tailb : Z) (term : inst) (mids : list block) (b : block) : list block :=
  match split_at p (b_insts b) with
  | Some (pre, post) => mkBlock (b_id b) (pre ++ [term]) :: mids ++ [mkBlock tailb post]
  | None => [b]
  end.
(** The phis of the successors of [tailb] now come from there. *)
Definition rename_phis (from to : Z) (bs : list block) : list block :=
  let ss := fun_succs bs to in
  (fun b => if bool_decide (b_id b ∈ ss) then on_insts (fmap (on_kind (phi_rename from to))) b else b)
    <$> bs.
Definition split_fun (p from tailb : Z) (term : inst) (mids : list block) (bs : list block)
  : list block :=
  rename_phis from tailb (b ← bs; split_block p tailb term mids b).

(** ** The order and the dominators of blocks *)

(** Preorder of a depth-first search ([depth_first]); [ws] is the stack. *)
Fixpoint dfs_from (fuel : nat) (succs : Z -> list Z) (seen ws : list Z) : list Z :=
  match fuel, ws with
  | S n, b :: ws' =>
      if bool_decide (b ∈ seen) then dfs_from n succs seen ws'
      else b :: dfs_from n succs (b :: seen) (succs b ++ ws')
  | _, _ => []
  end.
Definition dfs_fuel (bs : list block) : nat :=
  S (length bs + length (b ← bs; block_succs b)).
Definition entry_block (bs : list block) : option block := head bs.
Definition depth_first (bs : list block) : list Z :=
  match entry_block bs with
  | Some b => dfs_from (dfs_fuel bs) (fun_succs bs) [] [b_id b]
  | None => []
  end.
(** The blocks reachable from the entry without passing through [d]. *)
Definition reach_without (bs : list block) (d : Z) : list Z :=
  match entry_block bs with
  | Some b => if b_id b =? d then [] else dfs_from (dfs_fuel bs) (fun_succs bs) [d] [b_id b]
  | None => []
  end.
Definition strictly_dominates (bs : list block) (d b : Z) : bool :=
  negb (d =? b) && bool_decide (b ∈ depth_first bs) && bool_decide (d ∈ depth_first bs) &&
  bool_decide (b ∉ reach_without bs d).
(** The tree: each reachable block but the entry with its immediate dominator, the
    strict dominator that all others dominate. *)
Definition recalculate (bs : list block) : list (Z * Z) :=
  b ← depth_first bs;
  (fun d => (b, d)) <$>
    filter (fun d => strictly_dominates bs d b = true /\
                     forallb (fun e => (e =? d) || negb (strictly_dominates bs e b) ||
                                       strictly_dominates bs e d) (depth_first bs) = true)
      (depth_first bs).

Definition idom (dt : list (Z * Z)) (b : Z) : option Z :=
  snd <$> head (filter (fun e => e.1 = b) dt).
Fixpoint dom_walk (fuel : nat) (dt : list (Z * Z)) (a b : Z) : bool :=
  (a =? b) ||
  match fuel with
  | O => false
  | S n => match idom dt b with Some c => dom_walk n dt a c | None => false end
  end.
(** [DominatorTree::dominates] on blocks of the tree. *)
Definition dominates (dt : list (Z * Z)) (a b : Z) : bool := dom_walk (length dt) dt a b.
Definition addNewBlock (b d : Z) (dt : list (Z * Z)) : list (Z * Z) := (b, d) :: dt.
Definition changeImmediateDominator (b d : Z) (dt : list (Z * Z)) : list (Z * Z) :=
  (fun e => if e.1 =? b then (b, d) else e) <$> dt.
Definition dom_children (dt : list (Z * Z)) (d : Z) : list Z :=
  (filter (fun e => e.2 = d) dt).*1.
