(* ===== verification/DfsanPass.v ===== *)
(** * The data-flow pass

    [llvm_mode/pass/DFSanPass.cc]: every function of a module is changed to carry,
    for each of its values, a second value, the value's shadow, and to keep the
    shadow memory of the runtime (Dfsan.v) up to date.  The pass is the function
    [runOnModule] on the modules of DfsanIr.v.  Theorems about it are in
    DfsanPassLoad.v (labels of loads and stores), DfsanPassCombine.v (labels of
    operations), DfsanPassSetup.v (addresses), DfsanPassCustom.v and DfsanPassCalls.v
    (calls) and DfsanPassModule.v (the module as a whole). *)

From stdpp Require Import pretty functions.
From S2P Require Import Prelude DfsanIr.
Local Open Scope Z_scope.

(** ** Parameters of the pass

    The flags of the command line, the functions of the constructor, and what the
    pass calls in LLVM: the rule files ([SpecialCaseList]), the data layout,
    [GetUnderlyingObjects], [removeUnreachableBlocks], the renaming of a symbol
    whose name is taken, and the order of addresses.  [NDEBUG]: LLVM was built
    without assertions. *)
Record config := mkConfig {
  ClPreserveAlignment : bool;
  ClArgsABI : bool;
  ClCombinePointerLabelsOnLoad : bool;
  ClCombinePointerLabelsOnStore : bool;
  ClDebugNonzeroLabels : bool;
  GetArgTLSPtr : option Z;
  GetRetvalTLSPtr : option Z;
  SCL : string -> string -> string -> bool;
  IntptrWidth : Z;
  getTypeStoreSize : ty -> Z;
  getABITypeAlignment : ty -> Z;
  GetUnderlyingObjects : module -> value -> list value;
  removeUnreachableBlocks : list block -> list block;
  makeUniqueName : list string -> string -> string;
  addr_gt : value -> value -> bool;
  LLVM7 : bool;
  NDEBUG : bool
}.

Definition ShadowWidth : Z := 32.
Definition ShadowTy : ty := TInt ShadowWidth.
Definition ShadowPtrTy : ty := TPtr ShadowTy.
Definition Int8PtrTy : ty := TPtr (TInt 8).
Definition ZeroShadow : value := VInt ShadowWidth 0.
Definition ArgTLSTy : ty := TArray 64 ShadowTy.

Inductive InstrumentedABI := IA_Args | IA_TLS.
Inductive WrapperKind := WK_Warning | WK_Discard | WK_Functional | WK_Custom.
#[export] Instance InstrumentedABI_eq_dec : EqDecision InstrumentedABI.
Proof. solve_decision. Defined.
#[export] Instance WrapperKind_eq_dec : EqDecision WrapperKind.
Proof. solve_decision. Defined.

(** ** State *)

(** The members of [DataFlowSanitizer] that [doInitialization] and the first part of
    [runOnModule] set. *)
Record tables := mkTables {
  ShadowPtrMask : value;
  DFSanRuntimeShadowMask : bool;
  ArgTLS : option value;
  RetvalTLS : option value;
  GetArgTLS : option value;
  GetRetvalTLS : option value;
  ExternalShadowMask : value;
  DFSanMarkSignedFn : value;
  DFSanCombineAndFn : value;
  DFSanInferShapeFn : value;
  DFSanUnionFn : value;
  DFSanCheckedUnionFn : value;
  DFSanUnionLoadFn : value;
  DFSanUnimplementedFn : value;
  DFSanSetLabelFn : value;
  DFSanNonzeroLabelFn : value;
  DFSanVarargWrapperFn : value
}.

(** [DFSanFunction].  A map of the source is a function here: [None] where it has no
    entry.  [ValShadowMap] has null entries, because [operator[]] makes them. *)
Record dfsf := mkDFSF {
  F : Z;
  IsNativeABI : bool;
  AvoidNewBlocks : bool;
  DT : list (Z * Z);
  ArgTLSPtr : option value;
  RetvalTLSPtr : option value;
  LabelReturnAlloca : option value;
  ValShadowMap : value -> option (option value);
  AllocaShadowMap : Z -> option value;
  PHIFixups : list (Z * Z);
  SkipInsts : list Z;
  NonZeroChecks : list value;
  CachedCombinedShadows : value * value -> option (Z * value);
  ShadowElements : value -> option (list value)
}.

Record dst := mkDst {
  Mod : module;
  fresh : Z;                              (* the next unused address *)
  tab : tables;
  UnwrappedFnMap : value -> option Z;
  fn : dfsf                               (* the function being changed *)
}.
Abbreviation D := (M dst).

Definition with_mod (f : module -> module) (s : dst) : dst :=
  mkDst (f (Mod s)) (fresh s) (tab s) (UnwrappedFnMap s) (fn s).
Definition with_fresh (s : dst) : dst :=
  mkDst (Mod s) (fresh s + 1) (tab s) (UnwrappedFnMap s) (fn s).
Definition with_tab (t : tables) (s : dst) : dst :=
  mkDst (Mod s) (fresh s) t (UnwrappedFnMap s) (fn s).
Definition with_unwrapped (v : value) (f : Z) (s : dst) : dst :=
  mkDst (Mod s) (fresh s) (tab s) (<[ v := Some f ]> (UnwrappedFnMap s)) (fn s).
Definition with_fn (f : dfsf -> dfsf) (s : dst) : dst :=
  mkDst (Mod s) (fresh s) (tab s) (UnwrappedFnMap s) (f (fn s)).

Definition set_DT (f : list (Z * Z) -> list (Z * Z)) (d : dfsf) : dfsf :=
  mkDFSF (F d) (IsNativeABI d) (AvoidNewBlocks d) (f (DT d)) (ArgTLSPtr d) (RetvalTLSPtr d)
    (LabelReturnAlloca d) (ValShadowMap d) (AllocaShadowMap d) (PHIFixups d) (SkipInsts d)
    (NonZeroChecks d) (CachedCombinedShadows d) (ShadowElements d).
Definition set_ArgTLSPtr (v : value) (d : dfsf) : dfsf :=
  mkDFSF (F d) (IsNativeABI d) (AvoidNewBlocks d) (DT d) (Some v) (RetvalTLSPtr d)
    (LabelReturnAlloca d) (ValShadowMap d) (AllocaShadowMap d) (PHIFixups d) (SkipInsts d)
    (NonZeroChecks d) (CachedCombinedShadows d) (ShadowElements d).
Definition set_RetvalTLSPtr (v : value) (d : dfsf) : dfsf :=
  mkDFSF (F d) (IsNativeABI d) (AvoidNewBlocks d) (DT d) (ArgTLSPtr d) (Some v)
    (LabelReturnAlloca d) (ValShadowMap d) (AllocaShadowMap d) (PHIFixups d) (SkipInsts d)
    (NonZeroChecks d) (CachedCombinedShadows d) (ShadowElements d).
Definition set_LabelReturnAlloca (v : value) (d : dfsf) : dfsf :=
  mkDFSF (F d) (IsNativeABI d) (AvoidNewBlocks d) (DT d) (ArgTLSPtr d) (RetvalTLSPtr d)
    (Some v) (ValShadowMap d) (AllocaShadowMap d) (PHIFixups d) (SkipInsts d)
    (NonZeroChecks d) (CachedCombinedShadows d) (ShadowElements d).
Definition set_ValShadowMap (v : value) (s : option value) (d : dfsf) : dfsf :=
  mkDFSF (F d) (IsNativeABI d) (AvoidNewBlocks d) (DT d) (ArgTLSPtr d) (RetvalTLSPtr d)
    (LabelReturnAlloca d) (<[ v := Some s ]> (ValShadowMap d)) (AllocaShadowMap d) (PHIFixups d)
    (SkipInsts d) (NonZeroChecks d) (CachedCombinedShadows d) (ShadowElements d).
Definition set_AllocaShadowMap (p : Z) (a : value) (d : dfsf) : dfsf :=
  mkDFSF (F d) (IsNativeABI d) (AvoidNewBlocks d) (DT d) (ArgTLSPtr d) (RetvalTLSPtr d)
    (LabelReturnAlloca d) (ValShadowMap d) (<[ p := Some a ]> (AllocaShadowMap d)) (PHIFixups d)
    (SkipInsts d) (NonZeroChecks d) (CachedCombinedShadows d) (ShadowElements d).
Definition add_PHIFixup (p q : Z) (d : dfsf) : dfsf :=
  mkDFSF (F d) (IsNativeABI d) (AvoidNewBlocks d) (DT d) (ArgTLSPtr d) (RetvalTLSPtr d)
    (LabelReturnAlloca d) (ValShadowMap d) (AllocaShadowMap d) (PHIFixups d ++ [(p, q)])
    (SkipInsts d) (NonZeroChecks d) (CachedCombinedShadows d) (ShadowElements d).
Definition add_SkipInst (p : Z) (d : dfsf) : dfsf :=
  mkDFSF (F d) (IsNativeABI d) (AvoidNewBlocks d) (DT d) (ArgTLSPtr d) (RetvalTLSPtr d)
    (LabelReturnAlloca d) (ValShadowMap d) (AllocaShadowMap d) (PHIFixups d)
    (p :: SkipInsts d) (NonZeroChecks d) (CachedCombinedShadows d) (ShadowElements d).
Definition add_NonZeroCheck (v : value) (d : dfsf) : dfsf :=
  mkDFSF (F d) (IsNativeABI d) (AvoidNewBlocks d) (DT d) (ArgTLSPtr d) (RetvalTLSPtr d)
    (LabelReturnAlloca d) (ValShadowMap d) (AllocaShadowMap d) (PHIFixups d)
    (SkipInsts d) (NonZeroChecks d ++ [v]) (CachedCombinedShadows d) (ShadowElements d).
Definition set_Cached (k : value * value) (b : Z) (v : value) (d : dfsf) : dfsf :=
  mkDFSF (F d) (IsNativeABI d) (AvoidNewBlocks d) (DT d) (ArgTLSPtr d) (RetvalTLSPtr d)
    (LabelReturnAlloca d) (ValShadowMap d) (AllocaShadowMap d) (PHIFixups d)
    (SkipInsts d) (NonZeroChecks d) (<[ k := Some (b, v) ]> (CachedCombinedShadows d))
    (ShadowElements d).
Definition set_ShadowElements (v : value) (l : list value) (d : dfsf) : dfsf :=
  mkDFSF (F d) (IsNativeABI d) (AvoidNewBlocks d) (DT d) (ArgTLSPtr d) (RetvalTLSPtr d)
    (LabelReturnAlloca d) (ValShadowMap d) (AllocaShadowMap d) (PHIFixups d)
    (SkipInsts d) (NonZeroChecks d) (CachedCombinedShadows d)
    (<[ v := Some l ]> (ShadowElements d)).

(** The constructor of [DFSanFunction]. *)
Definition new_dfsf (f : func) (native : bool) : dfsf :=
  mkDFSF (fn_id f) native (1000 <? Z.of_nat (length (fn_blocks f))) (recalculate (fn_blocks f))
    None None None (fun _ => None) (fun _ => None) [] [] [] (fun _ => None) (fun _ => None).

(** ** The builder *)

Inductive point := Before (p : Z) | AtEnd (b : Z).

Definition new_id : D Z := fun s => Ok (fresh s, with_fresh s).
Definition insert_at (pt : point) (x : inst) (m : module) : module :=
  match pt with
  | Before p => map_insts (ins_before p x) m
  | AtEnd b =>
      map_blocks (fmap (fun c => if b_id c =? b then on_insts (fun l => l ++ [x]) c else c)) m
  end.
Definition emit (pt : point) (k : ikind) (t : ty) : D value :=
  p <- new_id ;; modify (with_mod (insert_at pt (mkInst p k t))) ;;; ret (VInst p t).

Definition pointee (t : ty) : ty := match t with TPtr t' => t' | _ => TVoid end.
Definition CreateLoad (pt : point) (p : value) (align : Z) : D value :=
  emit pt (ILoad p align) (pointee (typeOf p)).
Definition CreateStore (pt : point) (v p : value) (align : Z) : D value :=
  emit pt (IStore v p align) TVoid.

Definition fold_bin (o : binop) (w x y : Z) : option Z :=
  match o with
  | Add => Some (wrap w (x + y))
  | Mul => Some (wrap w (x * y))
  | And => Some (Z.land x y)
  | Or => Some (Z.lor x y)
  | Shl => if y <? w then Some (wrap w (Z.shiftl x y)) else None
  | LShr => if y <? w then Some (Z.shiftr x y) else None
  | _ => None
  end.
Definition CreateBin (pt : point) (o : binop) (x y : value) : D value :=
  if isConstant x && isConstant y then
    match x, y with
    | VInt w a, VInt _ b =>
        match fold_bin o w a b with Some z => ret (VInt w z) | None => ret (VBin o x y) end
    | _, _ => ret (VBin o x y)
    end
  else emit pt (IBin o false false x y) (typeOf x).
(** Of an integer constant, the folded constant; of another, an expression. *)
Definition fold_cast (c : castop) (v : value) (t : ty) : value :=
  match c, v, t with
  | (Trunc | ZExt), VInt _ z, TInt w => VInt w (wrap w z)
  | BitCast, _, _ => getBitCast v t
  | _, _, _ => VCast c v t
  end.
Definition CreateCast (pt : point) (c : castop) (v : value) (t : ty) : D value :=
  if decide (typeOf v = t) then ret v
  else if isConstant v then ret (fold_cast c v t)
  else emit pt (ICast c v) t.
Definition CreateZExtOrTrunc (pt : point) (v : value) (t : ty) : D value :=
  match typeOf v, t with
  | TInt a, TInt b => CreateCast pt (if a <? b then ZExt else Trunc) v t
  | _, _ => ret v
  end.
(** Integer comparisons: 32 is [eq], 33 is [ne]. *)
Definition CreateICmp (pt : point) (pred : Z) (x y : value) : D value :=
  match x, y with
  | VInt _ a, VInt _ b => ret (VInt 1 (if Bool.eqb (a =? b) (pred =? 32) then 1 else 0))
  | _, _ => emit pt (ICmp pred x y) (TInt 1)
  end.
Definition CreateConstGEP (pt : point) (elt : ty) (w : Z) (base : value) (i : Z) (j : option Z)
  (t : ty) : D value :=
  if isConstant base then ret (VGEP elt base i j t)
  else emit pt (IGEP elt base (VInt w i :: match j with Some j => [VInt w j] | None => [] end)) t.
Definition CreateInsertValue (pt : point) (agg v : value) (i : Z) : D value :=
  if isConstant agg && isConstant v then ret (VInsert agg v i)
  else emit pt (IInsertValue agg v i) (typeOf agg).
Definition CreateGlobalStringPtr (s : string) : D value := ret (VStr s).

Section Pass.
Context (cfg : config).

(** [assert]: nothing where assertions are compiled out. *)
Definition assert (b : bool) : D unit := if b || NDEBUG cfg then ret tt else fail AssertFailed.
(** A dereference of what may be null. *)
Definition deref {A} (o : option A) : D A :=
  match o with Some a => ret a | None => fail Segv end.

(** [CallInst] asserts that the arguments have the types of the parameters. *)
Definition good_signature (t : FunctionType) (args : list value) : bool :=
  bool_decide (typeOf <$> take (length (ft_params t)) args = ft_params t) &&
  (ft_va t || (length args =? length (ft_params t))%nat).
Definition callee_type (f : value) : option FunctionType :=
  match pointee_fun (typeOf f) with Some t => as_ft t | None => None end.
Definition CreateCall (pt : point) (f : value) (args : list value) : D value :=
  t <- deref (callee_type f) ;;
  assert (good_signature t args) ;;;
  emit pt (ICall f args) (ft_ret t).
Definition CreateInvoke (pt : point) (f : value) (args : list value) (n u : Z) : D value :=
  t <- deref (callee_type f) ;;
  assert (good_signature t args) ;;;
  emit pt (IInvoke f args n u) (ft_ret t).

Definition IntptrTy : ty := TInt (IntptrWidth cfg).

(** *** Blocks *)

Definition entry_front : D Z :=
  m <- gets Mod ;; d <- gets fn ;;
  f <- deref (find_fun m (F d)) ;;
  b <- deref (head (fn_blocks f)) ;;
  i <- deref (head (b_insts b)) ;;
  ret (i_id i).
Definition parent_of (p : Z) : D Z :=
  m <- gets Mod ;; b <- deref (block_of m p) ;; ret (b_id b).
Definition block_front (b : Z) : D Z :=
  m <- gets Mod ;; c <- deref (find_block m b) ;; i <- deref (head (b_insts c)) ;; ret (i_id i).
(** [BasicBlock::Create(Ctx, "", F)]: at the end of the function. *)
Definition new_block : D Z :=
  b <- new_id ;; d <- gets fn ;;
  modify (with_mod (with_funs (fmap (fun f =>
    if fn_id f =? F d then on_blocks (fun bs => bs ++ [mkBlock b []]) f else f)))) ;;;
  ret b.

(** The part of the tree below [head] moves below its second half. *)
Definition dt_split (headb tailb : Z) (dt : list (Z * Z)) : list (Z * Z) :=
  fold_left (fun t c => changeImmediateDominator c tailb t) (dom_children dt headb)
    (addNewBlock tailb headb dt).

(** [SplitBlockAndInsertIfThen(Cond, SplitBefore, false, Weights, DT)]: gives the
    terminator of the then-block and the blocks then and tail. *)
Definition SplitBlockAndInsertIfThen (cond : value) (before : Z) (upd : bool) : D (Z * Z * Z) :=
  tailb <- new_id ;; thenb <- new_id ;; c <- new_id ;; h <- new_id ;;
  headb <- parent_of before ;;
  modify (with_mod (map_blocks (split_fun before headb tailb
    (mkInst h (ICondBr cond thenb tailb) TVoid)
    [mkBlock thenb [mkInst c (IBr tailb) TVoid]]))) ;;;
  when upd (modify (with_fn (set_DT (fun dt => addNewBlock thenb headb (dt_split headb tailb dt))))) ;;;
  ret (c, thenb, tailb).

(** ** The rule files ([DFSanABIList]) *)

Definition GetGlobalTypeString (t : ty) : string :=
  match t with TStruct (Some n) _ => n | _ => "<unknown type>" end.
Definition isIn_module (m : module) (cat : string) : bool := SCL cfg "src" (m_name m) cat.
Definition isIn_fun (m : module) (f : func) (cat : string) : bool :=
  isIn_module m cat || SCL cfg "fun" (fn_name f) cat.
Definition isIn_alias (m : module) (a : alias) (cat : string) : bool :=
  if isIn_module m cat then true
  else match ga_type a with
       | TFun _ _ _ => SCL cfg "fun" (ga_name a) cat
       | t => SCL cfg "global" (ga_name a) cat || SCL cfg "type" (GetGlobalTypeString t) cat
       end.

Definition isInstrumented (m : module) (f : func) : bool := negb (isIn_fun m f "uninstrumented").
Definition isInstrumented_alias (m : module) (a : alias) : bool :=
  negb (isIn_alias m a "uninstrumented").
Definition getInstrumentedABI : InstrumentedABI := if ClArgsABI cfg then IA_Args else IA_TLS.
Definition getWrapperKind (m : module) (f : func) : WrapperKind :=
  if isIn_fun m f "functional" then WK_Functional
  else if isIn_fun m f "discard" then WK_Discard
  else if isIn_fun m f "custom" then WK_Custom
  else WK_Warning.

(** ** Function types *)

Definition getArgsFunctionType (t : FunctionType) : FunctionType :=
  let ArgTypes := ft_params t ++ replicate (length (ft_params t)) ShadowTy in
  let ArgTypes := if ft_va t then ArgTypes ++ [ShadowPtrTy] else ArgTypes in
  let RetType := if isVoidTy (ft_ret t) then ft_ret t else TStruct None [ft_ret t; ShadowTy] in
  mkFT RetType ArgTypes (ft_va t).

Definition getTrampolineFunctionType (t : FunctionType) : D FunctionType :=
  assert (negb (ft_va t)) ;;;
  let ArgTypes := [getPointerTo t] ++ ft_params t ++ replicate (length (ft_params t)) ShadowTy in
  let ArgTypes := if isVoidTy (ft_ret t) then ArgTypes else ArgTypes ++ [ShadowPtrTy] in
  ret (mkFT (ft_ret t) ArgTypes false).

(** [TransformedFunction]. *)
Record TransformedFunction := mkTransformed {
  OriginalType : FunctionType;
  TransformedType : FunctionType;
  ArgumentIndexMapping : list nat
}.

(** The loop over the parameters: [args] and [map] are [ArgTypes] and
    [ArgumentIndexMapping] so far. *)
Fixpoint custom_params (ps : list ty) (args : list ty) (map : list nat)
  : D (list ty * list nat) :=
  match ps with
  | [] => ret (args, map)
  | p :: r =>
      match pointee_fun p with
      | Some t =>
          ft <- deref (as_ft t) ;;
          tt <- getTrampolineFunctionType ft ;;
          custom_params r (args ++ [getPointerTo tt; Int8PtrTy]) (map ++ [length args])
      | None => custom_params r (args ++ [p]) (map ++ [length args])
      end
  end.
Definition getCustomFunctionType (t : FunctionType) : D TransformedFunction :=
  r <- custom_params (ft_params t) [] [] ;;
  let '(ArgTypes, map) := r in
  let ArgTypes := ArgTypes ++ replicate (length (ft_params t)) ShadowTy in
  let ArgTypes := if ft_va t then ArgTypes ++ [ShadowPtrTy] else ArgTypes in
  let ArgTypes := if isVoidTy (ft_ret t) then ArgTypes else ArgTypes ++ [ShadowPtrTy] in
  ret (mkTransformed t (mkFT (ft_ret t) ArgTypes (ft_va t)) map).

(** [TransformFunctionAttributes] on the attribute sets of the parameters.  [attrs]
    are the sets that the call site has, [numSets] is its [getNumAttrSets]. *)
Definition TransformFunctionAttributes {A} (tf : TransformedFunction) (attrs : nat -> A)
  (empty : A) (numSets : nat) : list A :=
  let ArgumentAttributes := replicate (length (ft_params (TransformedType tf))) empty in
  let ArgumentAttributes :=
    fold_left (fun l im => <[ im.2 := attrs im.1 ]> l)
      (zip (seq 0 (length (ArgumentIndexMapping tf))) (ArgumentIndexMapping tf))
      ArgumentAttributes in
  let n := length (ft_params (OriginalType tf)) in
  ArgumentAttributes ++ (attrs <$> seq n (numSets - n)).

(** ** Initialisation *)

Definition DFSanUnionFnTy := mkFT ShadowTy [ShadowTy; ShadowTy] false.
Definition DFSanUnionLoadFnTy := mkFT ShadowTy [ShadowPtrTy; IntptrTy] false.
Definition DFSanUnimplementedFnTy := mkFT TVoid [Int8PtrTy] false.
Definition DFSanSetLabelFnTy := mkFT TVoid [ShadowTy; Int8PtrTy; IntptrTy] false.
Definition DFSanNonzeroLabelFnTy := mkFT TVoid [] false.
Definition DFSanVarargWrapperFnTy := mkFT TVoid [Int8PtrTy] false.
Definition DFSanCombineAndFnTy := mkFT TVoid [ShadowPtrTy] false.
Definition DFSanInferShapeFnTy := mkFT TVoid [ShadowTy; ShadowTy; ShadowTy] false.

Definition ShadowPtrMul : value := VInt (IntptrWidth cfg) (ShadowWidth / 8).
Definition getSigned (z : Z) : value := VInt (IntptrWidth cfg) (wrap (IntptrWidth cfg) z).
Definition unset : value := VUndef TVoid.

Definition doInitialization (m : module) : res tables :=
  let mk mask rt :=
    Ok (mkTables mask rt None None
      ((fun p => VCast IntToPtr (VInt (IntptrWidth cfg) p)
                   (getPointerTo (mkFT (TPtr ArgTLSTy) [] false))) <$> GetArgTLSPtr cfg)
      ((fun p => VCast IntToPtr (VInt (IntptrWidth cfg) p)
                   (getPointerTo (mkFT ShadowPtrTy [] false))) <$> GetRetvalTLSPtr cfg)
      unset unset unset unset unset unset unset unset unset unset unset) in
  match m_arch m with
  | x86_64 => mk (getSigned (Z.lnot 0x700000000000)) false
  | mips64 | mips64el => mk (getSigned (Z.lnot 0xF000000000)) false
  | aarch64 | aarch64_be => mk unset true
  | other_arch => Fault DieCalled
  end.

(** ** Names *)

Definition mod_names (m : module) : list string :=
  (fn_name <$> m_funs m) ++ (ga_name <$> m_aliases m) ++ ((fun g => g.1.1) <$> m_globals m).
Definition free_name (m : module) (n : string) : string :=
  if bool_decide (n ∈ mod_names m) then makeUniqueName cfg (mod_names m) n else n.
Definition rename_fun (f : Z) (n : string) (m : module) : module :=
  with_funs (fmap (fun g => if fn_id g =? f
    then mkFunc (fn_id g) n (fn_type g) (fn_linkage g) (fn_blocks g) else g)) m.
Definition rename_alias (a : Z) (n : string) (m : module) : module :=
  with_aliases (fmap (fun g => if ga_id g =? a
    then mkAlias (ga_id g) n (ga_type g) (ga_linkage g) (ga_base g) else g)) m.

(** The replacement in the module's assembler text, at the first match. *)
Definition prefix_symver (n asm : string) : string :=
  let SearchStr := (".symver " ++ n ++ ",")%string in
  match String.index 0 SearchStr asm with
  | Some pos =>
      (String.substring 0 pos asm ++ ".symver dfs$" ++ n ++ ",dfs$" ++
       String.substring (pos + String.length SearchStr)
         (String.length asm - (pos + String.length SearchStr)) asm)%string
  | None => asm
  end.
Definition addGlobalNamePrefix_fun (f : Z) : D unit :=
  m <- gets Mod ;; g <- deref (find_fun m f) ;;
  modify (with_mod (fun m => rename_fun f (free_name m ("dfs$" ++ fn_name g)) m)) ;;;
  modify (with_mod (fun m => with_asm (prefix_symver (fn_name g) (m_asm m)) m)).
Definition addGlobalNamePrefix_alias (a : alias) : D unit :=
  modify (with_mod (fun m => rename_alias (ga_id a) (free_name m ("dfs$" ++ ga_name a)) m)) ;;;
  modify (with_mod (fun m => with_asm (prefix_symver (ga_name a) (m_asm m)) m)).

Definition getOrInsertFunction (n : string) (t : FunctionType) : D value :=
  m <- gets Mod ;;
  match fun_named m n with
  | Some f => ret (getBitCast (func_value f) (getPointerTo t))
  | None =>
      p <- new_id ;;
      modify (with_mod (with_funs (fun l => l ++ [mkFunc p n t ExternalLinkage []]))) ;;;
      ret (VFun p (fun_ty t))
  end.
(** [getOrInsertGlobal], and [setThreadLocalMode] if what it gave is a variable. *)
Definition getOrInsertGlobal (n : string) (t : ty) (tls : bool) : D value :=
  m <- gets Mod ;;
  match head (filter (fun g => g.1.1 = n) (m_globals m)) with
  | Some (_, t', _) =>
      let v := getBitCast (VGlobal n t' false) (TPtr t) in
      when (tls && bool_decide (t = t'))
        (modify (with_mod (with_globals (fmap (fun g =>
           if bool_decide (g.1.1 = n) then (n, t', true) else g))))) ;;;
      ret v
  | None =>
      modify (with_mod (with_globals (fun l => l ++ [(n, t, tls)]))) ;;;
      ret (VGlobal n t false)
  end.

(** ** Wrappers *)

Definition fun_args (ps : list ty) : list value :=
  imap (fun i t => VArg (Z.of_nat i) t) ps.
Definition add_fun (f : func) : D unit := modify (with_mod (with_funs (fun l => l ++ [f]))).
Definition buildWrapperFunction (f : func) (NewFName : string) (NewFLink : linkage)
  (NewFT : FunctionType) : D func :=
  m <- gets Mod ;; t <- gets tab ;;
  p <- new_id ;; b <- new_id ;; c <- new_id ;; r <- new_id ;;
  let FT := fn_type f in
  let name := if decide (NewFName = "") then "" else free_name m NewFName in
  let body :=
    if ft_va FT && negb (bool_decide (getWrapperKind m f = WK_Discard)) then
      [mkInst c (ICall (DFSanVarargWrapperFn t) [VStr (fn_name f)]) TVoid;
       mkInst r IUnreachable TVoid]
    else
      let Args := fun_args (take (length (ft_params FT)) (ft_params NewFT)) in
      [mkInst c (ICall (func_value f) Args) (ft_ret FT);
       mkInst r (IRet (if isVoidTy (ft_ret FT) then None else Some (VInst c (ft_ret FT)))) TVoid] in
  let NewF := mkFunc p name NewFT NewFLink [mkBlock b body] in
  add_fun NewF ;;; ret NewF.

(** ** Shadows of values *)

Definition getArgTLSPtr : D value :=
  d <- gets fn ;; t <- gets tab ;;
  match ArgTLSPtr d, ArgTLS t with
  | Some p, _ => ret p
  | None, Some p => modify (with_fn (set_ArgTLSPtr p)) ;;; ret p
  | None, None =>
      pos <- entry_front ;; g <- deref (GetArgTLS t) ;;
      p <- CreateCall (Before pos) g [] ;;
      modify (with_fn (set_ArgTLSPtr p)) ;;; ret p
  end.
Definition getRetvalTLS : D value :=
  d <- gets fn ;; t <- gets tab ;;
  match RetvalTLSPtr d, RetvalTLS t with
  | Some p, _ => ret p
  | None, Some p => modify (with_fn (set_RetvalTLSPtr p)) ;;; ret p
  | None, None =>
      pos <- entry_front ;; g <- deref (GetRetvalTLS t) ;;
      p <- CreateCall (Before pos) g [] ;;
      modify (with_fn (set_RetvalTLSPtr p)) ;;; ret p
  end.
Definition getArgTLS (Idx : Z) (Pos : Z) : D value :=
  p <- getArgTLSPtr ;; CreateConstGEP (Before Pos) ArgTLSTy 64 p 0 (Some Idx) ShadowPtrTy.

(** The shadow of parameter [A], which is loaded at the entry of the function or is
    a parameter itself. *)
Definition getArgShadow (A : Z) : D value :=
  match getInstrumentedABI with
  | IA_TLS =>
      p <- getArgTLSPtr ;; t <- gets tab ;; m <- gets Mod ;;
      pos <- match ArgTLS t, p with
             | Some _, _ => entry_front
             | None, VInst q _ => n <- deref (getNextNode m q) ;; ret (i_id n)
             | None, _ => fail AssertFailed
             end ;;
      g <- getArgTLS A pos ;; CreateLoad (Before pos) g 0
  | IA_Args =>
      m <- gets Mod ;; d <- gets fn ;; f <- deref (find_fun m (F d)) ;;
      let ArgIdx := A + Z.of_nat (length (ft_params (fn_type f))) / 2 in
      s <- deref (fun_args (ft_params (fn_type f)) !! Z.to_nat ArgIdx) ;;
      assert (bool_decide (typeOf s = ShadowTy)) ;;; ret s
  end.
Definition getShadow (V : value) : D value :=
  if negb (isArgument V) && negb (isInstruction V) then ret ZeroShadow else
  d <- gets fn ;;
  match ValShadowMap d V with
  | Some (Some s) => ret s
  | _ =>
      modify (with_fn (set_ValShadowMap V None)) ;;;
      match V with
      | VArg A _ =>
          if IsNativeABI d then ret ZeroShadow else
          s <- getArgShadow A ;;
          modify (with_fn (set_ValShadowMap V (Some s))) ;;;
          modify (with_fn (add_NonZeroCheck s)) ;;; ret s
      | _ => modify (with_fn (set_ValShadowMap V (Some ZeroShadow))) ;;; ret ZeroShadow
      end
  end.
Definition setShadow (I : value) (Shadow : value) : D unit :=
  d <- gets fn ;;
  assert (match ValShadowMap d I with Some _ => false | None => true end) ;;;
  assert (bool_decide (typeOf Shadow = ShadowTy)) ;;;
  modify (with_fn (set_ValShadowMap I (Some Shadow))).

Definition getShadowAddress (Addr : value) (Pos : Z) : D value :=
  t <- gets tab ;;
  assert (bool_decide (RetvalTLS t <> Some Addr)) ;;;
  mask <- (if DFSanRuntimeShadowMask t then CreateLoad (Before Pos) (ExternalShadowMask t) 0
           else ret (ShadowPtrMask t)) ;;
  a <- CreateCast (Before Pos) PtrToInt Addr IntptrTy ;;
  k <- CreateCast (Before Pos) PtrToInt mask IntptrTy ;;
  x <- CreateBin (Before Pos) And a k ;;
  y <- CreateBin (Before Pos) Mul x ShadowPtrMul ;;
  CreateCast (Before Pos) IntToPtr y ShadowPtrTy.

(** ** Combining shadows *)

(** [CmpInst::isSigned]. *)
Definition isSignedPred (p : Z) : bool := (38 <=? p) && (p <=? 41).
Definition is_signed_op (k : ikind) : bool :=
  match k with
  | IBin (SDiv | SRem | AShr) _ _ _ _ => true
  | IBin And _ _ _ _ => false
  | IBin (Add | Sub | Mul | Shl) nsw nuw _ _ => nsw && negb nuw
  | ICmp p _ _ => isSignedPred p
  | _ => false
  end.
Definition note_and (V1 V2 : value) (Pos : inst) : D unit :=
  match i_kind Pos with
  | IBin And _ _ Arg1 Arg2 =>
      when (isIntegerTy (typeOf Arg1) && isIntegerTy (typeOf Arg2))
        (t <- gets tab ;;
         if isConstantInt Arg1 && negb (bool_decide (V2 = ZeroShadow))
         then CreateCall (Before (i_id Pos)) (DFSanCombineAndFn t) [V2] ;;; ret tt
         else if isConstantInt Arg2 && negb (bool_decide (V1 = ZeroShadow))
         then CreateCall (Before (i_id Pos)) (DFSanCombineAndFn t) [V1] ;;; ret tt
         else ret tt)
  | _ => ret tt
  end.
Definition note_signed (V1 V2 : value) (Pos : inst) : D unit :=
  when (is_signed_op (i_kind Pos))
    (t <- gets tab ;;
     CreateCall (Before (i_id Pos)) (DFSanMarkSignedFn t) [V1; V2] ;;; ret tt).
Definition note_shape (V1 V2 : value) (Pos : inst) : D unit :=
  match i_kind Pos with
  | IBin (Add | Sub | Mul | UDiv | SDiv | SRem) _ _ Arg1 _ =>
      let num_bits := getScalarSizeInBits (typeOf Arg1) in
      let num_bytes := num_bits / 8 in
      when ((0 <? num_bytes) && (num_bits mod 8 =? 0))
        (t <- gets tab ;;
         CreateCall (Before (i_id Pos)) (DFSanInferShapeFn t)
           [V1; V2; VInt ShadowWidth num_bytes] ;;; ret tt)
  | _ => ret tt
  end.

(** [std::includes] on the sets of elements. *)
Definition includes (l k : list value) : bool := forallb (fun v => bool_decide (v ∈ l)) k.
Definition elements_shortcut (d : dfsf) (V1 V2 : value) : option value :=
  match ShadowElements d V1, ShadowElements d V2 with
  | Some e1, Some e2 => if includes e1 e2 then Some V1 else if includes e2 e1 then Some V2 else None
  | Some e1, None => if bool_decide (V2 ∈ e1) then Some V1 else None
  | None, Some e2 => if bool_decide (V1 ∈ e2) then Some V2 else None
  | None, None => None
  end.
Definition elems_of (d : dfsf) (V : value) : list value := default [V] (ShadowElements d V).
Definition cache_key (V1 V2 : value) : value * value :=
  if addr_gt cfg V1 V2 then (V2, V1) else (V1, V2).

(** The code that joins two labels at run time: the block it ends in, its result. *)
Definition emit_union (V1 V2 : value) (Pos : Z) : D (Z * value) :=
  d <- gets fn ;; t <- gets tab ;;
  if AvoidNewBlocks d then
    c <- CreateCall (Before Pos) (DFSanCheckedUnionFn t) [V1; V2] ;;
    b <- parent_of Pos ;; ret (b, c)
  else
    Head <- parent_of Pos ;;
    Ne <- CreateICmp (Before Pos) 33 V1 V2 ;;
    r <- SplitBlockAndInsertIfThen Ne Pos true ;;
    let '(BI, thenb, Tail) := r in
    Call <- CreateCall (Before BI) (DFSanUnionFn t) [V1; V2] ;;
    front <- block_front Tail ;;
    Phi <- emit (Before front) (IPhi [(Call, thenb); (V1, Head)]) ShadowTy ;;
    ret (Tail, Phi).
Definition join_shadows (V1 V2 : value) (Pos : Z) : D value :=
  if decide (V1 = ZeroShadow) then ret V2
  else if decide (V2 = ZeroShadow) then ret V1
  else if decide (V1 = V2) then ret V1
  else
    d <- gets fn ;;
    match elements_shortcut d V1 V2 with
    | Some v => ret v
    | None =>
        b <- parent_of Pos ;;
        let Key := cache_key V1 V2 in
        let fresh_union :=
          r <- emit_union V1 V2 Pos ;;
          modify (with_fn (set_Cached Key r.1 r.2)) ;;;
          modify (with_fn (set_ShadowElements r.2 (elems_of d V1 ++ elems_of d V2))) ;;;
          ret r.2 in
        match CachedCombinedShadows d Key with
        | Some (cb, v) => if dominates (DT d) cb b then ret v else fresh_union
        | None => fresh_union
        end
    end.
Definition combineShadows (V1 V2 : value) (Pos : inst) : D value :=
  note_and V1 V2 Pos ;;;
  note_signed V1 V2 Pos ;;;
  note_shape V1 V2 Pos ;;;
  join_shadows V1 V2 (i_id Pos).

Fixpoint combine_rest (Shadow : value) (ops : list value) (I : inst) : D value :=
  match ops with
  | [] => ret Shadow
  | o :: r => s <- getShadow o ;; c <- combineShadows Shadow s I ;; combine_rest c r I
  end.
Definition combineOperandShadows (I : inst) : D value :=
  match getOperands (i_kind I) with
  | [] => ret ZeroShadow
  | o :: r =>
      Shadow <- getShadow o ;;
      t <- gets tab ;;
      match i_kind I with
      | ICast SExt _ =>
          CreateCall (Before (i_id I)) (DFSanMarkSignedFn t) [Shadow; ZeroShadow] ;;; ret tt
      | _ => ret tt
      end ;;;
      combine_rest Shadow r I
  end.
Definition visitOperandShadowInst (I : inst) : D unit :=
  s <- combineOperandShadows I ;; setShadow (inst_value I) s.

(** ** Shadow memory *)

Definition constant_object (o : value) : bool :=
  match o with
  | VFun _ _ | VBlockAddress _ _ => true
  | VGlobal _ _ c => c
  | _ => false
  end.
Definition alloca_shadow (Addr : value) : D (option value) :=
  d <- gets fn ;; ret (match Addr with VInst p _ => AllocaShadowMap d p | _ => None end).

(** The rest of the wide comparisons: [Ofs] bytes are compared; [LastBr] is the last
    conditional branch, in block [LastBB]. *)
Fixpoint wide_compare (fuel : nat) (Ofs Size ShadowAlign : Z) (WideAddr WideShadow : value)
  (FallbackBB LastBr LastBB : Z) : D (Z * Z) :=
  match fuel with
  | O => fail OutOfFuel
  | S n =>
      if Ofs =? Size then ret (LastBr, LastBB) else
      NextBB <- new_block ;;
      modify (with_fn (set_DT (addNewBlock NextBB LastBB))) ;;;
      WideAddr <- (if isConstant WideAddr
                   then ret (VGEP (TInt 64) WideAddr 1 None (TPtr (TInt 64)))
                   else emit (AtEnd NextBB) (IGEP (TInt 64) WideAddr [VInt (IntptrWidth cfg) 1])
                          (TPtr (TInt 64))) ;;
      NextWideShadow <- CreateLoad (AtEnd NextBB) WideAddr ShadowAlign ;;
      ShadowsEq <- CreateICmp (AtEnd NextBB) 32 WideShadow NextWideShadow ;;
      modify (with_mod (map_insts (fmap (set_kind LastBr (fun k =>
        match k with ICondBr c _ f => ICondBr c NextBB f | _ => k end))))) ;;;
      br <- emit (AtEnd NextBB) (ICondBr ShadowsEq FallbackBB FallbackBB) TVoid ;;
      match br with
      | VInst p _ =>
          wide_compare n (Ofs + 64 / ShadowWidth) Size ShadowAlign WideAddr WideShadow FallbackBB p
            NextBB
      | _ => fail Segv
      end
  end.

(** The fast path compares the shadow 64 bits at a time.  The first word is compared
    with itself rotated: gives the address, the word, its lower half and whether its
    halves are equal. *)
Definition wide_head (ShadowAddr : value) (ShadowAlign Pos : Z) : D (value * value * value * value) :=
  WideAddr <- CreateCast (Before Pos) BitCast ShadowAddr (TPtr (TInt 64)) ;;
  WideShadow <- CreateLoad (Before Pos) WideAddr ShadowAlign ;;
  TruncShadow <- CreateCast (Before Pos) Trunc WideShadow ShadowTy ;;
  ShlShadow <- CreateBin (Before Pos) Shl WideShadow (VInt 64 ShadowWidth) ;;
  ShrShadow <- CreateBin (Before Pos) LShr WideShadow (VInt 64 (64 - ShadowWidth)) ;;
  RotShadow <- CreateBin (Before Pos) Or ShlShadow ShrShadow ;;
  ShadowsEq <- CreateICmp (Before Pos) 32 WideShadow RotShadow ;;
  ret (WideAddr, WideShadow, TruncShadow, ShadowsEq).
Definition load_fast (ShadowAddr : value) (Size ShadowAlign : Z) (Pos : Z) : D value :=
  t <- gets tab ;;
  FallbackBB <- new_block ;;
  FallbackCall <- CreateCall (AtEnd FallbackBB) (DFSanUnionLoadFn t)
                    [ShadowAddr; VInt (IntptrWidth cfg) Size] ;;
  h <- wide_head ShadowAddr ShadowAlign Pos ;;
  let '(WideAddr, WideShadow, TruncShadow, ShadowsEq) := h in
  Head <- parent_of Pos ;;
  Tail <- new_id ;;
  LastBr <- new_id ;;
  modify (with_mod (map_blocks (split_fun Pos Head Tail
    (mkInst LastBr (ICondBr ShadowsEq FallbackBB FallbackBB) TVoid) []))) ;;;
  modify (with_fn (set_DT (dt_split Head Tail))) ;;;
  modify (with_fn (set_DT (addNewBlock FallbackBB Head))) ;;;
  r <- wide_compare (Z.to_nat Size) (64 / ShadowWidth) Size ShadowAlign WideAddr WideShadow
         FallbackBB LastBr Head ;;
  modify (with_mod (map_insts (fmap (set_kind r.1 (fun k =>
    match k with ICondBr c _ f => ICondBr c Tail f | _ => k end))))) ;;;
  emit (AtEnd FallbackBB) (IBr Tail) TVoid ;;;
  front <- block_front Tail ;;
  emit (Before front) (IPhi [(FallbackCall, FallbackBB); (TruncShadow, r.2)]) ShadowTy.

Definition loadShadow (Addr : value) (Size Align : Z) (Pos : Z) : D value :=
  a <- alloca_shadow Addr ;;
  match a with
  | Some sa => CreateLoad (Before Pos) sa 0
  | None =>
      let ShadowAlign := Align * ShadowWidth / 8 in
      m <- gets Mod ;; d <- gets fn ;; t <- gets tab ;;
      if forallb constant_object (GetUnderlyingObjects cfg m Addr) then ret ZeroShadow else
      ShadowAddr <- getShadowAddress Addr Pos ;;
      if Size =? 0 then ret ZeroShadow
      else if Size =? 1 then CreateLoad (Before Pos) ShadowAddr ShadowAlign
      else if negb (AvoidNewBlocks d) && (Size mod (64 / ShadowWidth) =? 0)
      then load_fast ShadowAddr Size ShadowAlign Pos
      else CreateCall (Before Pos) (DFSanUnionLoadFn t)
             [ShadowAddr; VInt (IntptrWidth cfg) Size]
  end.

Definition ShadowVecSize : Z := 128 / ShadowWidth.
Definition ShadowVecTy : ty := TVec ShadowVecSize ShadowTy.
Fixpoint splat (n : nat) (i : Z) (vec Shadow : value) (Pos : Z) : D value :=
  match n with
  | O => ret vec
  | S k =>
      v <- emit (Before Pos) (IInsertElement vec Shadow (VInt 32 i)) ShadowVecTy ;;
      splat k (i + 1) v Shadow Pos
  end.
(** [do ... while (Size >= ShadowVecSize)]: gives the size left and the offset. *)
Fixpoint store_vectors (fuel : nat) (Size Offset ShadowAlign : Z) (ShadowVec ShadowVecAddr : value)
  (Pos : Z) : D (Z * Z) :=
  match fuel with
  | O => fail OutOfFuel
  | S n =>
      a <- CreateConstGEP (Before Pos) ShadowVecTy 32 ShadowVecAddr (u32 Offset) None
             (TPtr ShadowVecTy) ;;
      CreateStore (Before Pos) ShadowVec a ShadowAlign ;;;
      let Size := Size - ShadowVecSize in
      let Offset := Offset + 1 in
      if ShadowVecSize <=? Size
      then store_vectors n Size Offset ShadowAlign ShadowVec ShadowVecAddr Pos
      else ret (Size, Offset)
  end.
(** [while (Size > 0)]. *)
Fixpoint store_singles (fuel : nat) (Size Offset ShadowAlign : Z) (Shadow ShadowAddr : value)
  (Pos : Z) : D unit :=
  match fuel with
  | O => if 0 <? Size then fail OutOfFuel else ret tt
  | S n =>
      if 0 <? Size then
        a <- CreateConstGEP (Before Pos) ShadowTy 32 ShadowAddr (u32 Offset) None ShadowPtrTy ;;
        CreateStore (Before Pos) Shadow a ShadowAlign ;;;
        store_singles n (Size - 1) (Offset + 1) ShadowAlign Shadow ShadowAddr Pos
      else ret tt
  end.
Definition MAX_INT_BITS : Z := 2 ^ 24 - 1.
Definition storeShadow (Addr : value) (Size Align : Z) (Shadow : value) (Pos : Z) : D unit :=
  a <- alloca_shadow Addr ;;
  match a with
  | Some sa => CreateStore (Before Pos) Shadow sa 0 ;;; ret tt
  | None =>
      let ShadowAlign := Align * ShadowWidth / 8 in
      ShadowAddr <- getShadowAddress Addr Pos ;;
      if decide (Shadow = ZeroShadow) then
        let bits := u32 (Size * ShadowWidth) in
        assert ((1 <=? bits) && (bits <=? MAX_INT_BITS)) ;;;
        e <- CreateCast (Before Pos) BitCast ShadowAddr (TPtr (TInt bits)) ;;
        CreateStore (Before Pos) (VInt bits 0) e ShadowAlign ;;; ret tt
      else
        r <- (if ShadowVecSize <=? Size then
                vec <- splat (Z.to_nat ShadowVecSize) 0 (VUndef ShadowVecTy) Shadow Pos ;;
                va <- CreateCast (Before Pos) BitCast ShadowAddr (TPtr ShadowVecTy) ;;
                r <- store_vectors (Z.to_nat Size) Size 0 ShadowAlign vec va Pos ;;
                ret (r.1, r.2 * ShadowVecSize)
              else ret (Size, 0)) ;;
        store_singles (Z.to_nat r.1) r.1 r.2 ShadowAlign Shadow ShadowAddr Pos
  end.

(** ** Visitors *)

Definition access_align (align : Z) (t : ty) : Z :=
  if ClPreserveAlignment cfg then if align =? 0 then getABITypeAlignment cfg t else align else 1.
Definition visitLoadInst (I : inst) : D unit :=
  match i_kind I with
  | ILoad p align =>
      let Size := getTypeStoreSize cfg (i_ty I) in
      if Size =? 0 then setShadow (inst_value I) ZeroShadow else
      Shadow <- loadShadow p Size (access_align align (i_ty I)) (i_id I) ;;
      Shadow <- (if ClCombinePointerLabelsOnLoad cfg
                 then PtrShadow <- getShadow p ;; combineShadows Shadow PtrShadow I
                 else ret Shadow) ;;
      when (negb (bool_decide (Shadow = ZeroShadow))) (modify (with_fn (add_NonZeroCheck Shadow))) ;;;
      setShadow (inst_value I) Shadow
  | _ => ret tt
  end.
Definition visitStoreInst (I : inst) : D unit :=
  match i_kind I with
  | IStore v p align =>
      let Size := getTypeStoreSize cfg (typeOf v) in
      if Size =? 0 then ret tt else
      Shadow <- getShadow v ;;
      Shadow <- (if ClCombinePointerLabelsOnStore cfg
                 then PtrShadow <- getShadow p ;; combineShadows Shadow PtrShadow I
                 else ret Shadow) ;;
      storeShadow p Size (access_align align (typeOf v)) Shadow (i_id I)
  | _ => ret tt
  end.

Definition only_accessed (I : inst) (u : inst) : bool :=
  match i_kind u with
  | ILoad _ _ => true
  | IStore _ p _ => bool_decide (p = inst_value I)
  | _ => false
  end.
Definition visitAllocaInst (I : inst) : D unit :=
  m <- gets Mod ;;
  when (forallb (only_accessed I) (users m (inst_value I)))
    (a <- emit (Before (i_id I)) (IAlloca ShadowTy (VInt 32 1)) ShadowPtrTy ;;
     modify (with_fn (set_AllocaShadowMap (i_id I) a))) ;;;
  setShadow (inst_value I) ZeroShadow.
Definition visitSelectInst (I : inst) : D unit :=
  match i_kind I with
  | ISelect c x y =>
      CondShadow <- getShadow c ;;
      TrueShadow <- getShadow x ;;
      FalseShadow <- getShadow y ;;
      if isVectorTy (typeOf c) then
        s <- combineShadows TrueShadow FalseShadow I ;;
        s <- combineShadows CondShadow s I ;; setShadow (inst_value I) s
      else
        ShadowSel <- (if decide (TrueShadow = FalseShadow) then ret TrueShadow
                      else emit (Before (i_id I)) (ISelect c TrueShadow FalseShadow)
                             (typeOf TrueShadow)) ;;
        s <- combineShadows CondShadow ShadowSel I ;; setShadow (inst_value I) s
  | _ => ret tt
  end.
Definition visitMemSetInst (I : inst) : D unit :=
  match i_kind I with
  | ICall _ (dest :: val :: len :: _) =>
      t <- gets tab ;;
      ValShadow <- getShadow val ;;
      d <- CreateCast (Before (i_id I)) BitCast dest Int8PtrTy ;;
      n <- CreateZExtOrTrunc (Before (i_id I)) len IntptrTy ;;
      CreateCall (Before (i_id I)) (DFSanSetLabelFn t) [ValShadow; d; n] ;;; ret tt
  | _ => ret tt
  end.
Definition visitMemTransferInst (I : inst) : D unit :=
  match i_kind I with
  | ICall callee (dest :: src :: len :: rest) =>
      let pt := Before (i_id I) in
      DestShadow <- getShadowAddress dest (i_id I) ;;
      SrcShadow <- getShadowAddress src (i_id I) ;;
      let w := getScalarSizeInBits (typeOf len) in
      LenShadow <- CreateBin pt Mul len (VInt w (ShadowWidth / 8)) ;;
      if LLVM7 cfg then
        vol <- deref (rest !! 0%nat) ;;
        d <- CreateCast pt BitCast DestShadow Int8PtrTy ;;
        s <- CreateCast pt BitCast SrcShadow Int8PtrTy ;;
        CreateCall pt callee [d; s; LenShadow; vol] ;;; ret tt
      else
        al <- deref (rest !! 0%nat) ;; vol <- deref (rest !! 1%nat) ;;
        let wa := getScalarSizeInBits (typeOf al) in
        AlignShadow <- (if ClPreserveAlignment cfg
                        then CreateBin pt Mul al (VInt wa (ShadowWidth / 8))
                        else ret (VInt wa (ShadowWidth / 8))) ;;
        d <- CreateCast pt BitCast DestShadow Int8PtrTy ;;
        s <- CreateCast pt BitCast SrcShadow Int8PtrTy ;;
        CreateCall pt callee [d; s; LenShadow; AlignShadow; vol] ;;; ret tt
  | _ => ret tt
  end.
Definition visitReturnInst (I : inst) : D unit :=
  d <- gets fn ;;
  match i_kind I with
  | IRet (Some v) =>
      if IsNativeABI d then ret tt else
      match getInstrumentedABI with
      | IA_TLS =>
          S <- getShadow v ;;
          p <- getRetvalTLS ;; CreateStore (Before (i_id I)) S p 0 ;;; ret tt
      | IA_Args =>
          m <- gets Mod ;; f <- deref (find_fun m (F d)) ;;
          InsVal <- CreateInsertValue (Before (i_id I)) (VUndef (ft_ret (fn_type f))) v 0 ;;
          S <- getShadow v ;;
          InsShadow <- CreateInsertValue (Before (i_id I)) InsVal S 1 ;;
          modify (with_mod (map_insts (fmap (set_kind (i_id I) (fun _ => IRet (Some InsShadow))))))
      end
  | _ => ret tt
  end.
Definition visitPHINode (I : inst) : D unit :=
  match i_kind I with
  | IPhi inc =>
      s <- emit (Before (i_id I)) (IPhi ((fun x => (VUndef ShadowTy, x.2)) <$> inc)) ShadowTy ;;
      match s with
      | VInst q _ => modify (with_fn (add_PHIFixup (i_id I) q)) ;;; setShadow (inst_value I) s
      | _ => ret tt
      end
  | _ => ret tt
  end.

(** ** Calls *)

Definition erase (p : Z) : D unit := modify (with_mod (map_insts (erase_inst p))).
Definition set_callee (p : Z) (f : value) : D unit :=
  modify (with_mod (map_insts (fmap (set_kind p (fun k =>
    match k with
    | ICall _ args => ICall f args
    | IInvoke _ args n u => IInvoke f args n u
    | _ => k
    end))))).
Definition call_parts (k : ikind) : option (value * list value) :=
  match k with ICall c args | IInvoke c args _ _ => Some (c, args) | _ => None end.
Definition cur_inst (p : Z) : D inst := m <- gets Mod ;; deref (find_inst m p).
Fixpoint get_shadows (vs : list value) : D (list value) :=
  match vs with
  | [] => ret []
  | v :: r => s <- getShadow v ;; ss <- get_shadows r ;; ret (s :: ss)
  end.
(** A new slot at the entry of the function. *)
Definition entry_alloca (t : ty) : D value :=
  pos <- entry_front ;; emit (Before pos) (IAlloca t (VInt 32 1)) (TPtr t).

(** Labels of variable arguments go to an array. *)
Fixpoint store_va_labels (arr : value) (t : ty) (w : Z) (n : Z) (vs : list value) (Pos : Z)
  : D unit :=
  match vs with
  | [] => ret tt
  | v :: r =>
      p <- CreateConstGEP (Before Pos) t w arr 0 (Some n) ShadowPtrTy ;;
      s <- getShadow v ;;
      CreateStore (Before Pos) s p 0 ;;;
      store_va_labels arr t w (n + 1) r Pos
  end.

(** The labels of the arguments go to [__dfsan_arg_tls]. *)
Fixpoint store_arg_labels (i : Z) (n : nat) (args : list value) (Pos : Z) : D unit :=
  match n, args with
  | O, _ => ret tt
  | S k, a :: r =>
      s <- getShadow a ;; p <- getArgTLS i Pos ;;
      CreateStore (Before Pos) s p 0 ;;;
      store_arg_labels (i + 1) k r Pos
  | S _, [] => fail Segv
  end.

(** [SplitEdge(BB, Succ, DT)] on the edge from an invoke to its normal destination,
    which has other predecessors: a new block in between. *)
Definition SplitEdge (from to : Z) : D Z :=
  b <- new_id ;; i <- new_id ;;
  m <- gets Mod ;; d <- gets fn ;;
  c <- deref (find_block m from) ;;
  modify (with_mod (with_funs (fmap (fun f => if fn_id f =? F d then on_blocks (fun bs =>
    ((fun k => if b_id k =? from then
         on_insts (fmap (on_kind (fun k => match k with
           | IInvoke g args n u => IInvoke g args (if n =? to then b else n) u
           | _ => k end))) k
       else if b_id k =? to then on_insts (fmap (on_kind (phi_rename from b))) k
       else k) <$> bs) ++ [mkBlock b [mkInst i (IBr to) TVoid]]) f else f)))) ;;;
  m <- gets Mod ;; f <- deref (find_fun m (F d)) ;;
  modify (with_fn (set_DT (fun _ => recalculate (fn_blocks f)))) ;;;
  ret b.
(** Where the label of the result is read. *)
Definition after_call (I : inst) : D Z :=
  match i_kind I with
  | IInvoke _ _ n _ =>
      m <- gets Mod ;; d <- gets fn ;; f <- deref (find_fun m (F d)) ;;
      match getSinglePredecessor (fn_blocks f) n with
      | Some _ => block_front n
      | None => b <- parent_of (i_id I) ;; nb <- SplitEdge b n ;; block_front nb
      end
  | _ => m <- gets Mod ;; n <- deref (getNextNode m (i_id I)) ;; ret (i_id n)
  end.

(** The part of [visitCallSite] for calls of instrumented functions. *)
Definition call_args_abi (I : inst) (callee : value) (args : list value) (FT : FunctionType)
  (Next : option Z) : D unit :=
  let NewFT := getArgsFunctionType FT in
  let n := length (ft_params FT) in
  Func <- CreateCast (Before (i_id I)) BitCast callee (getPointerTo NewFT) ;;
  ss <- get_shadows (take n args) ;;
  va <- (if ft_va FT then
           let t := TArray (Z.of_nat (length args - n)) ShadowTy in
           arr <- entry_alloca t ;;
           p <- CreateConstGEP (Before (i_id I)) t 32 arr 0 (Some 0) ShadowPtrTy ;;
           store_va_labels arr t 32 0 (drop n args) (i_id I) ;;;
           ret (p :: drop n args)
         else ret []) ;;
  let Args := take n args ++ ss ++ va in
  NewCS <- match i_kind I with
           | IInvoke _ _ nd ud => CreateInvoke (Before (i_id I)) Func Args nd ud
           | _ => CreateCall (Before (i_id I)) Func Args
           end ;;
  match Next with
  | Some nx =>
      ExVal <- emit (Before nx) (IExtractValue NewCS 0) (ft_ret FT) ;;
      ExShadow <- emit (Before nx) (IExtractValue NewCS 1) ShadowTy ;;
      match ExVal, ExShadow with
      | VInst a _, VInst b _ =>
          modify (with_fn (add_SkipInst a)) ;;; modify (with_fn (add_SkipInst b)) ;;;
          setShadow ExVal ExShadow ;;;
          modify (with_fn (add_NonZeroCheck ExShadow)) ;;;
          modify (with_mod (replaceAllUsesWith (inst_value I) ExVal))
      | _, _ => ret tt
      end
  | None => ret tt
  end ;;;
  erase (i_id I).
Definition visit_instrumented_call (I : inst) (callee : value) (args : list value) : D unit :=
  FT <- deref (callee_type callee) ;;
  match getInstrumentedABI with
  | IA_TLS => store_arg_labels 0 (length (ft_params FT)) args (i_id I)
  | IA_Args => ret tt
  end ;;;
  Next <- (if isVoidTy (i_ty I) then ret None
           else n <- after_call I ;;
                match getInstrumentedABI with
                | IA_TLS =>
                    p <- getRetvalTLS ;; LI <- CreateLoad (Before n) p 0 ;;
                    match LI with
                    | VInst q _ => modify (with_fn (add_SkipInst q))
                    | _ => ret tt
                    end ;;;
                    setShadow (inst_value I) LI ;;;
                    modify (with_fn (add_NonZeroCheck LI)) ;;; ret (Some n)
                | IA_Args => ret (Some n)
                end) ;;
  match getInstrumentedABI with
  | IA_Args =>
      I' <- cur_inst (i_id I) ;;
      call_args_abi I' callee args FT Next
  | IA_TLS => ret tt
  end.

(** [getOrBuildTrampolineFunction].  The trampoline's own call goes through its first
    parameter, so that of [visitCallSite] only the part for instrumented functions
    applies to it. *)
Definition getOrBuildTrampolineFunction (FT : FunctionType) (FName : string) : D value :=
  FTT <- getTrampolineFunctionType FT ;;
  C <- getOrInsertFunction FName FTT ;;
  m <- gets Mod ;;
  match C with
  | VFun p _ =>
      f <- deref (find_fun m p) ;;
      if isDeclaration f then
        b <- new_id ;; c <- new_id ;; r <- new_id ;;
        let n := length (ft_params FT) in
        let all := fun_args (ft_params FTT) in
        let Args := take n (drop 1 all) in
        let CI := mkInst c (ICall (VArg 0 (getPointerTo FT)) Args) (ft_ret FT) in
        let void := isVoidTy (ft_ret FT) in
        let RI := mkInst r (IRet (if void then None else Some (inst_value CI))) TVoid in
        let g := mkFunc p (fn_name f) (fn_type f) LinkOnceODRLinkage [mkBlock b [CI; RI]] in
        modify (with_mod (with_funs (fmap (fun h => if fn_id h =? p then g else h)))) ;;;
        outer <- gets fn ;;
        modify (with_fn (fun _ =>
          fold_left (fun d vs => set_ValShadowMap vs.1 (Some vs.2) d)
            (zip Args (take n (drop (1 + n) all))) (new_dfsf g true))) ;;;
        visit_instrumented_call CI (VArg 0 (getPointerTo FT)) Args ;;;
        (if void then ret tt else
           cur <- cur_inst r ;;
           match i_kind cur, list.last all with
           | IRet (Some v), Some lastarg =>
               s <- getShadow v ;; CreateStore (Before r) s lastarg 0 ;;; ret tt
           | _, _ => fail Segv
           end) ;;;
        modify (with_fn (fun _ => outer)) ;;;
        ret C
      else ret C
  | _ => ret C
  end.

(** The arguments of the call of a custom wrapper that stand for the parameters. *)
Fixpoint custom_args (fname : string) (i : nat) (n : nat) (args : list value) (Pos : Z)
  : D (list value) :=
  match n, args with
  | O, _ => ret []
  | S k, a :: r =>
      hd <- match pointee_fun (typeOf a) with
            | Some t =>
                ParamFT <- deref (as_ft t) ;;
                T <- getOrBuildTrampolineFunction ParamFT
                       ("dfst" ++ pretty i ++ "$" ++ fname)%string ;;
                c <- CreateCast (Before Pos) BitCast a Int8PtrTy ;;
                ret [T; c]
            | None => ret [a]
            end ;;
      tl <- custom_args fname (S i) k r Pos ;;
      ret (hd ++ tl)
  | S _, [] => fail Segv
  end.
(** The operands of that call, and the slot for the label of the result. *)
Definition custom_operands (I : inst) (args : list value) (f : func)
  : D (list value * option value) :=
  let FT := fn_type f in
  let n := length (ft_params FT) in
  vals <- custom_args (fn_name f) 0 n args (i_id I) ;;
  shadows <- get_shadows (take n args) ;;
  va <- (if ft_va FT then
           let t := TArray (Z.of_nat (length args - n)) ShadowTy in
           arr <- entry_alloca t ;;
           store_va_labels arr t 32 0 (drop n args) (i_id I) ;;;
           p <- CreateConstGEP (Before (i_id I)) t 32 arr 0 (Some 0) ShadowPtrTy ;; ret [p]
         else ret []) ;;
  rl <- (if isVoidTy (ft_ret FT) then ret None else
           d <- gets fn ;;
           match LabelReturnAlloca d with
           | Some a => ret (Some a)
           | None => a <- entry_alloca ShadowTy ;;
                     modify (with_fn (set_LabelReturnAlloca a)) ;;; ret (Some a)
           end) ;;
  ret (vals ++ shadows ++ va ++ (match rl with Some a => [a] | None => [] end) ++ drop n args, rl).
Definition visit_custom_call (I : inst) (args : list value) (f : func) : D unit :=
  CustomFn <- getCustomFunctionType (fn_type f) ;;
  CustomF <- getOrInsertFunction ("__dfsw_" ++ fn_name f)%string (TransformedType CustomFn) ;;
  ops <- custom_operands I args f ;;
  CustomCI <- CreateCall (Before (i_id I)) CustomF ops.1 ;;
  match ops.2 with
  | Some a => LabelLoad <- CreateLoad (Before (i_id I)) a 0 ;; setShadow CustomCI LabelLoad
  | None => ret tt
  end ;;;
  modify (with_mod (replaceAllUsesWith (inst_value I) CustomCI)) ;;;
  erase (i_id I).

Definition isFunction (v : value) : bool := match v with VFun _ _ => true | _ => false end.
Definition called_fun (m : module) (callee : value) : option func :=
  match callee with VFun p _ => find_fun m p | _ => None end.
Definition visitCallSite (I : inst) : D unit :=
  m <- gets Mod ;; t <- gets tab ;;
  match call_parts (i_kind I) with
  | None => ret tt
  | Some (callee, args) =>
      if match called_fun m callee with Some f => isIntrinsic (fn_name f) | None => false end
         || isInlineAsm callee
      then visitOperandShadowInst I
      else if isFunction callee && bool_decide (callee = DFSanVarargWrapperFn t) then ret tt
      else
        u <- gets UnwrappedFnMap ;;
        match u callee with
        | Some p =>
            f <- deref (find_fun m p) ;;
            match getWrapperKind m f with
            | WK_Warning =>
                set_callee (i_id I) (func_value f) ;;;
                s <- CreateGlobalStringPtr (fn_name f) ;;
                CreateCall (Before (i_id I)) (DFSanUnimplementedFn t) [s] ;;;
                setShadow (inst_value I) ZeroShadow
            | WK_Discard =>
                set_callee (i_id I) (func_value f) ;;;
                setShadow (inst_value I) ZeroShadow
            | WK_Functional =>
                set_callee (i_id I) (func_value f) ;;;
                I' <- cur_inst (i_id I) ;; visitOperandShadowInst I'
            | WK_Custom =>
                match i_kind I with
                | ICall _ _ => visit_custom_call I args f
                | _ => visit_instrumented_call I callee args
                end
            end
        | None => visit_instrumented_call I callee args
        end
  end.

(** [InstVisitor::visit]: the visitor for the kind of instruction, none for the rest. *)
Definition visit (I : inst) : D unit :=
  m <- gets Mod ;;
  match i_kind I with
  | IBin _ _ _ _ _ | ICast _ _ | ICmp _ _ _ | IGEP _ _ _ | IExtractElement _ _
  | IInsertElement _ _ _ | IShuffleVector _ _ _ | IExtractValue _ _ | IInsertValue _ _ _ =>
      visitOperandShadowInst I
  | ILoad _ _ => visitLoadInst I
  | IStore _ _ _ => visitStoreInst I
  | IAlloca _ _ => visitAllocaInst I
  | ISelect _ _ _ => visitSelectInst I
  | IRet _ => visitReturnInst I
  | IPhi _ => visitPHINode I
  | IInvoke _ _ _ _ => visitCallSite I
  | ICall c _ =>
      match called_fun m c with
      | Some f =>
          if String.prefix "llvm.memset." (fn_name f) then visitMemSetInst I
          else if String.prefix "llvm.memcpy." (fn_name f) || String.prefix "llvm.memmove." (fn_name f)
          then visitMemTransferInst I
          else visitCallSite I
      | None => visitCallSite I
      end
  | IBr _ | ICondBr _ _ _ | ISwitch _ _ _ | IUnreachable | IOther _ _ _ _ => ret tt
  end.

(** ** The module *)

(** The first part of [runOnModule]: the globals and functions of the runtime. *)
Definition declare_runtime : D unit :=
  t <- gets tab ;;
  arg <- (match GetArgTLSPtr cfg with
          | None => g <- getOrInsertGlobal "__dfsan_arg_tls" ArgTLSTy true ;; ret (Some g)
          | Some _ => ret (ArgTLS t)
          end) ;;
  rv <- (match GetRetvalTLSPtr cfg with
         | None => g <- getOrInsertGlobal "__dfsan_retval_tls" ShadowTy true ;; ret (Some g)
         | Some _ => ret (RetvalTLS t)
         end) ;;
  mask <- getOrInsertGlobal "__dfsan_shadow_ptr_mask" IntptrTy false ;;
  signed <- getOrInsertFunction "dfsan_mark_signed" DFSanUnionFnTy ;;
  and_ <- getOrInsertFunction "dfsan_combine_and_ins" DFSanCombineAndFnTy ;;
  shape <- getOrInsertFunction "dfsan_infer_shape_in_math_op" DFSanInferShapeFnTy ;;
  un <- getOrInsertFunction "__dfsan_union" DFSanUnionFnTy ;;
  cun <- getOrInsertFunction "dfsan_union" DFSanUnionFnTy ;;
  ul <- getOrInsertFunction "__dfsan_union_load" DFSanUnionLoadFnTy ;;
  ui <- getOrInsertFunction "__dfsan_unimplemented" DFSanUnimplementedFnTy ;;
  sl <- getOrInsertFunction "__dfsan_set_label" DFSanSetLabelFnTy ;;
  nz <- getOrInsertFunction "__dfsan_nonzero_label" DFSanNonzeroLabelFnTy ;;
  vw <- getOrInsertFunction "__dfsan_vararg_wrapper" DFSanVarargWrapperFnTy ;;
  modify (with_tab (mkTables (ShadowPtrMask t) (DFSanRuntimeShadowMask t) arg rv (GetArgTLS t)
    (GetRetvalTLS t) mask signed and_ shape un cun ul ui sl nz vw)).

Definition runtime_fns (t : tables) : list value :=
  [DFSanUnionFn t; DFSanCheckedUnionFn t; DFSanUnionLoadFn t; DFSanUnimplementedFn t;
   DFSanSetLabelFn t; DFSanNonzeroLabelFn t; DFSanVarargWrapperFn t; DFSanMarkSignedFn t;
   DFSanCombineAndFn t; DFSanInferShapeFn t].
Definition to_instrument (t : tables) (m : module) : list func :=
  filter (fun f => isIntrinsic (fn_name f) = false /\ func_value f ∉ runtime_fns t) (m_funs m).

(** [GlobalAlias::getBaseObject]: through casts, offsets and aliases that the linker
    cannot replace. *)
Fixpoint strip_alias (fuel : nat) (m : module) (v : value) : value :=
  match fuel with
  | O => v
  | S n =>
      match v with
      | VCast _ u _ | VGEP _ u _ _ _ => strip_alias n m u
      | VAlias a _ =>
          match find_alias m a with
          | Some g => if isInterposableLinkage (ga_linkage g) then v else strip_alias n m (ga_base g)
          | None => v
          end
      | _ => v
      end
  end.
Fixpoint value_depth (v : value) : nat :=
  match v with VCast _ u _ | VGEP _ u _ _ _ => S (value_depth u) | _ => 1%nat end.
Definition getBaseObject (m : module) (v : value) : value :=
  strip_alias (value_depth v + sum_list ((fun g => S (value_depth (ga_base g))) <$> m_aliases m)) m v.
Definition erase_alias (a : Z) : D unit :=
  modify (with_mod (with_aliases (filter (fun g => ga_id g <> a)))).
(** One round of the loop over the aliases: gives the functions to add. *)
Definition fix_alias (p : Z) : D (list Z) :=
  m <- gets Mod ;; a <- deref (find_alias m p) ;;
  match called_fun m (getBaseObject m (ga_base a)) with
  | Some f =>
      let GAInst := isInstrumented_alias m a in
      let FInst := isInstrumented m f in
      if GAInst && FInst then addGlobalNamePrefix_alias a ;;; ret []
      else if negb (Bool.eqb GAInst FInst) then
        NewF <- buildWrapperFunction f "" (ga_linkage a) (fn_type f) ;;
        modify (with_mod (replaceAllUsesWith (alias_value a)
          (getBitCast (func_value NewF) (TPtr (ga_type a))))) ;;;
        erase_alias (ga_id a) ;;;
        modify (with_mod (rename_fun (fn_id NewF) (ga_name a))) ;;;
        ret [fn_id NewF]
      else ret []
  | None => ret []
  end.
Fixpoint fix_aliases (l : list Z) : D (list Z) :=
  match l with
  | [] => ret []
  | a :: r => x <- fix_alias a ;; y <- fix_aliases r ;; ret (x ++ y)
  end.

Definition isZeroArgsVoidRet (t : FunctionType) : bool :=
  (length (ft_params t) =? 0)%nat && negb (ft_va t) && isVoidTy (ft_ret t).
(** The function takes the type of the argument ABI: a new function has its body. *)
Definition change_abi (f : func) : D Z :=
  let FT := fn_type f in
  let NewFT := getArgsFunctionType FT in
  p <- new_id ;;
  let NewF := mkFunc p "" NewFT (fn_linkage f) (fn_blocks f) in
  modify (with_mod (with_funs (fun l =>
    (fun g => if fn_id g =? fn_id f then on_blocks (fun _ => []) g else g) <$> l))) ;;;
  add_fun NewF ;;;
  modify (with_mod (fun m =>
    fold_left (fun m b => replaceAllUsesWith (VBlockAddress (fn_id f) (b_id b))
                            (VBlockAddress p (b_id b)) m) (fn_blocks f) m)) ;;;
  modify (with_mod (replaceAllUsesWith (func_value f)
    (getBitCast (func_value NewF) (getPointerTo FT)))) ;;;
  modify (with_mod (fun m => rename_fun p (fn_name f)
    (with_funs (filter (fun g => fn_id g <> fn_id f)) m))) ;;;
  ret p.
(** The function keeps its type and gets a wrapper. *)
Definition wrap_function (f : func) : D Z :=
  let FT := fn_type f in
  let NewFT := match getInstrumentedABI with IA_Args => getArgsFunctionType FT | IA_TLS => FT end in
  let wrapperLinkage := if isLocalLinkage (fn_linkage f) then fn_linkage f else LinkOnceODRLinkage in
  NewF <- buildWrapperFunction f ("dfsw$" ++ fn_name f)%string wrapperLinkage NewFT ;;
  let WrappedFnCst := getBitCast (func_value NewF) (getPointerTo FT) in
  modify (with_mod (replaceAllUsesWith (func_value f) WrappedFnCst)) ;;;
  modify (with_unwrapped WrappedFnCst (fn_id f)) ;;;
  ret (fn_id NewF).
(** One round of the loop that changes the ABI: what stands in the place of the
    function, what is added at the end, and which functions have the native ABI. *)
Definition abi_step (p : Z) : D (option Z * list Z) :=
  m <- gets Mod ;; f <- deref (find_fun m p) ;;
  let FT := fn_type f in
  if isInstrumented m f then
    if bool_decide (getInstrumentedABI = IA_Args) && negb (isZeroArgsVoidRet FT) then
      q <- change_abi f ;; addGlobalNamePrefix_fun q ;;; ret (Some q, [])
    else addGlobalNamePrefix_fun p ;;; ret (Some p, [])
  else if negb (isZeroArgsVoidRet FT) || bool_decide (getWrapperKind m f = WK_Custom) then
    q <- wrap_function f ;;
    ret (Some q, if isDeclaration f then [] else [p])
  else if ft_va FT then
    modify (with_unwrapped (func_value f) p) ;;; ret (None, [])
  else ret (Some p, []).
Fixpoint abi_loop (l : list Z) : D (list (option Z) * list Z) :=
  match l with
  | [] => ret ([], [])
  | p :: r => x <- abi_step p ;; y <- abi_loop r ;; ret (x.1 :: y.1, x.2 ++ y.2)
  end.

(** The instructions of a block, from [p] on: the next one is looked up before an
    instruction is visited. *)
Fixpoint visit_from (fuel : nat) (p : Z) : D unit :=
  match fuel with
  | O => fail OutOfFuel
  | S k =>
      I <- cur_inst p ;; m <- gets Mod ;; d <- gets fn ;;
      let Next := getNextNode m p in
      when (bool_decide (p ∉ SkipInsts d)) (visit I) ;;;
      if isTerminator (i_kind I) then ret tt
      else match Next with Some n => visit_from k (i_id n) | None => fail Segv end
  end.
Fixpoint visit_blocks (l : list Z) : D unit :=
  match l with
  | [] => ret tt
  | b :: r =>
      m <- gets Mod ;; c <- deref (find_block m b) ;;
      p <- block_front b ;;
      visit_from (length (b_insts c)) p ;;;
      visit_blocks r
  end.
Fixpoint fix_phis (l : list (Z * Z)) : D unit :=
  match l with
  | [] => ret tt
  | (p, q) :: r =>
      I <- cur_inst p ;;
      match i_kind I with
      | IPhi inc =>
          ss <- get_shadows (inc.*1) ;;
          modify (with_mod (map_insts (fmap (set_kind q (fun k =>
            match k with
            | IPhi inc' => IPhi (zip (ss ++ drop (length ss) inc'.*1) inc'.*2)
            | _ => k
            end)))))
      | _ => ret tt
      end ;;;
      fix_phis r
  end.

(** [while (isa<PHINode>(Pos) || isa<AllocaInst>(Pos)) Pos = Pos->getNextNode();] *)
Fixpoint skip_pos (l : list inst) : option inst :=
  match l with
  | [] => None
  | i :: r => match i_kind i with IPhi _ | IAlloca _ _ => skip_pos r | _ => Some i end
  end.
Fixpoint after_inst (p : Z) (l : list inst) : list inst :=
  match l with [] => [] | i :: r => if i_id i =? p then r else after_inst p r end.
Fixpoint check_nonzero (l : list value) : D unit :=
  match l with
  | [] => ret tt
  | V :: r =>
      m <- gets Mod ;; d <- gets fn ;; t <- gets tab ;;
      rest <- (match V with
               | VInst p _ => b <- deref (block_of m p) ;; ret (after_inst p (b_insts b))
               | _ => f <- deref (find_fun m (F d)) ;; b <- deref (head (fn_blocks f)) ;;
                      ret (b_insts b)
               end) ;;
      Pos <- deref (skip_pos rest) ;;
      Ne <- CreateICmp (Before (i_id Pos)) 33 V ZeroShadow ;;
      x <- SplitBlockAndInsertIfThen Ne (i_id Pos) false ;;
      CreateCall (Before x.1.1) (DFSanNonzeroLabelFn t) [] ;;;
      check_nonzero r
  end.

Definition instrument_function (native : list Z) (p : Z) : D unit :=
  m <- gets Mod ;; f <- deref (find_fun m p) ;;
  if isDeclaration f then ret tt else
  let f := on_blocks (removeUnreachableBlocks cfg) f in
  modify (with_mod (with_funs (fmap (fun g => if fn_id g =? p then f else g)))) ;;;
  modify (with_fn (fun _ => new_dfsf f (bool_decide (p ∈ native)))) ;;;
  visit_blocks (depth_first (fn_blocks f)) ;;;
  d <- gets fn ;; fix_phis (PHIFixups d) ;;;
  d <- gets fn ;; when (ClDebugNonzeroLabels cfg) (check_nonzero (NonZeroChecks d)).
Fixpoint instrument_functions (native : list Z) (l : list (option Z)) : D unit :=
  match l with
  | [] => ret tt
  | o :: r => match o with Some p => instrument_function native p | None => ret tt end ;;;
              instrument_functions native r
  end.

Definition runOnModule : D bool :=
  m <- gets Mod ;;
  if isIn_module m "skip" then ret false else
  declare_runtime ;;;
  t <- gets tab ;; m <- gets Mod ;;
  let FnsToInstrument := fn_id <$> to_instrument t m in
  added <- fix_aliases (ga_id <$> m_aliases m) ;;
  r <- abi_loop (FnsToInstrument ++ added) ;;
  instrument_functions r.2 (r.1 ++ (Some <$> r.2)) ;;;
  ret false.

(** The pass on a module whose addresses are below [n]. *)
Definition run_dfsan (m : module) (n : Z) : res (bool * dst) :=
  match doInitialization m with
  | Ok t => runOnModule (mkDst m n t (fun _ => None) (new_dfsf (mkFunc 0 "" (mkFT TVoid [] false)
              ExternalLinkage []) false))
  | Fault e => Fault e
  end.
End Pass.
