(* ===== verification/DfsanPassMach.v ===== *)
(** * Running the code that the data-flow pass emits

    A machine for the instructions of DfsanIr.v that [DFSanPass.cc] emits.  Its memory
    is the state of the runtime (Dfsan.v), so that a load or a store of shadow
    memory and a call of [__dfsan_union] do what the runtime defines.  The second
    half is a program logic for code generators: [spec] says what a generator
    inserts before an instruction and what the inserted code does. *)

From S2P Require Import Prelude CMem Dfsan DfsanIr DfsanPass.
Local Open Scope Z_scope.

(** ** The machine *)

(** Variables outside shadow memory: of a frame, and elements of thread-local ones. *)
Inductive loc := Local (p : Z) | Tls (n : string) (j : Z).
#[export] Instance loc_eq_dec : EqDecision loc.
Proof. solve_decision. Defined.
#[export] Instance loc_countable : Countable loc.
Proof.
  apply (inj_countable' (fun x => match x with Local p => inl p | Tls n j => inr (n, j) end)
    (fun y => match y with inl p => Local p | inr (n, j) => Tls n j end)).
  by intros [].
Defined.

Inductive mval :=
| MI (z : Z)                      (* an integer or an address *)
| MV (l : list (option Z))        (* a vector, with its undefined elements *)
| MSlot (p : loc).                (* the address of a variable *)

(** What the code finds in place: parameters, the addresses of globals, the contents
    of those that are constant, and which ones are thread local. *)
Record menv := mkMenv {
  argv : Z -> option Z;
  gaddr : string -> Z;
  gvals : string -> option Z;
  gtls : string -> bool
}.

Section Machine.
Context {T OS : Type} `{LabelStore T}.

Record mach := mkMach {
  regs : gmap Z mval;
  slots : gmap loc Z;
  rt : st T OS
}.
Definition set_reg (p : Z) (v : mval) (m : mach) : mach :=
  mkMach (<[ p := v ]> (regs m)) (slots m) (rt m).
Definition set_slot (p : loc) (v : Z) (m : mach) : mach :=
  mkMach (regs m) (<[ p := v ]> (slots m)) (rt m).
Definition set_rt (s : st T OS) (m : mach) : mach := mkMach (regs m) (slots m) s.

(** Sizes of the types through which the pass addresses shadow memory. *)
Definition ty_size (t : ty) : Z :=
  match t with
  | TInt w => w / 8
  | TVec n (TInt w) | TArray n (TInt w) => n * (w / 8)
  | _ => 8
  end.

Context (env : menv) (t : tables).

Fixpoint eval (m : mach) (v : value) : option mval :=
  match v with
  | VInst p _ => regs m !! p
  | VArg n _ => MI <$> argv env n
  | VInt _ z => Some (MI z)
  | VUndef (TVec n _) => Some (MV (replicate (Z.to_nat n) None))
  | VGlobal n _ _ => Some (if gtls env n then MSlot (Tls n 0) else MI (gaddr env n))
  | VCast (PtrToInt | IntToPtr | BitCast) u _ => eval m u
  | VBin o x y =>
      match eval m x, eval m y, typeOf x with
      | Some (MI a), Some (MI b), TInt w => MI <$> fold_bin o w a b
      | _, _, _ => None
      end
  | VGEP elt b i j _ =>
      match j, eval m b with
      | None, Some (MI a) => Some (MI (u64 (a + ty_size elt * signed 32 i)))
      | Some j, Some (MSlot (Tls n 0)) =>
          match elt with
          | TArray k _ => if (i =? 0) && (0 <=? j) && (j <? k) then Some (MSlot (Tls n j)) else None
          | _ => None
          end
      | _, _ => None
      end
  | _ => None
  end.
Definition eval_int (m : mach) (v : value) : option Z :=
  match eval m v with Some (MI z) => Some z | _ => None end.

(** A load of [TInt 32] or [TInt 64] from shadow memory: the machine is little-endian. *)
Definition load_shadow (w a : Z) : M (st T OS) Z :=
  if w =? 32 then read_shadow a
  else if w =? 64 then
    x <- read_shadow a ;; y <- read_shadow (a + 4) ;; ret (x + 2 ^ 32 * y)
  else fail Segv.
(** A store of the words [l], from the first on. *)
Fixpoint store_words (a : Z) (l : list Z) : M (st T OS) unit :=
  match l with
  | [] => ret tt
  | x :: r => write_label a x ;;; store_words (a + 4) r
  end.
Definition with_rt {A} (m : mach) (f : M (st T OS) A) (k : A -> mach -> mach) : res mach :=
  match f (rt m) with Ok (a, s) => Ok (k a (set_rt s m)) | Fault e => Fault e end.
Definition undefined : res mach := Fault Segv.

Definition exec_call (p : Z) (f : value) (args : list Z) (m : mach) : res mach :=
  match args with
  | [a; b] =>
      if decide (f = DFSanUnionFn t) then with_rt m (__dfsan_union a b) (fun l => set_reg p (MI l))
      else if decide (f = DFSanCheckedUnionFn t)
      then with_rt m (dfsan_union a b) (fun l => set_reg p (MI l))
      else if decide (f = DFSanUnionLoadFn t)
      then with_rt m (__dfsan_union_load a b) (fun l => set_reg p (MI l))
      else if decide (f = DFSanMarkSignedFn t)
      then with_rt m (dfsan_mark_signed a b) (fun l => set_reg p (MI l))
      else undefined
  | [a; b; c] =>
      if decide (f = DFSanInferShapeFn t)
      then with_rt m (dfsan_infer_shape_in_math_op a b c) (fun _ m => m)
      else if decide (f = DFSanSetLabelFn t)
      then with_rt m (__dfsan_set_label a b c) (fun _ m => m)
      else undefined
  | [a] =>
      if decide (f = DFSanCombineAndFn t)
      then with_rt m (dfsan_combine_and_ins a) (fun _ m => m) else undefined
  | _ => undefined
  end.

Definition const_global (q : value) : option Z :=
  match q with VGlobal n _ _ => gvals env n | _ => None end.
(** One instruction that is neither a phi nor a branch. *)
Definition exec_inst (i : inst) (m : mach) : res mach :=
  let p := i_id i in
  match i_kind i with
  | IBin o _ _ x y =>
      match eval_int m x, eval_int m y, i_ty i with
      | Some a, Some b, TInt w =>
          match fold_bin o w a b with Some z => Ok (set_reg p (MI z) m) | None => undefined end
      | _, _, _ => undefined
      end
  | ICast Trunc x =>
      match eval_int m x, i_ty i with
      | Some a, TInt w => Ok (set_reg p (MI (wrap w a)) m)
      | _, _ => undefined
      end
  | ICast (PtrToInt | IntToPtr | BitCast) x =>
      match eval m x with Some v => Ok (set_reg p v m) | None => undefined end
  | ICmp pred x y =>
      match eval_int m x, eval_int m y with
      | Some a, Some b =>
          Ok (set_reg p (MI (if Bool.eqb (a =? b) (pred =? 32) then 1 else 0)) m)
      | _, _ => undefined
      end
  | IGEP elt b [VInt w i] =>
      match eval_int m b with
      | Some a => Ok (set_reg p (MI (u64 (a + ty_size elt * signed w i))) m)
      | None => undefined
      end
  | ILoad q _ =>
      match const_global q, eval m q, i_ty i with
      | Some z, _, _ => Ok (set_reg p (MI z) m)
      | None, Some (MSlot s), _ =>
          match slots m !! s with Some z => Ok (set_reg p (MI z) m) | None => undefined end
      | None, Some (MI a), TInt w => with_rt m (load_shadow w a) (fun z => set_reg p (MI z))
      | _, _, _ => undefined
      end
  | IStore v q _ =>
      match eval m q, eval m v, typeOf v with
      | Some (MSlot s), Some (MI z), _ => Ok (set_slot s z m)
      | Some (MI a), Some (MI z), TInt w =>
          if w =? 32 then with_rt m (store_words a [z]) (fun _ m => m)
          else if z =? 0 then with_rt m (store_words a (replicate (Z.to_nat (w / 32)) 0)) (fun _ m => m)
          else undefined
      | Some (MI a), Some (MV l), _ =>
          match mapM id l with
          | Some zs => with_rt m (store_words a zs) (fun _ m => m)
          | None => undefined
          end
      | _, _, _ => undefined
      end
  | IInsertElement v x (VInt _ n) =>
      match eval m v, eval_int m x with
      | Some (MV l), Some z => Ok (set_reg p (MV (<[ Z.to_nat n := Some z ]> l)) m)
      | _, _ => undefined
      end
  | ICall f args =>
      match mapM (eval_int m) args with Some xs => exec_call p f xs m | None => undefined end
  | IAlloca _ _ => Ok (set_reg p (MSlot (Local p)) m)
  | _ => undefined
  end.
Fixpoint exec_list (l : list inst) (m : mach) : res mach :=
  match l with
  | [] => Ok m
  | i :: r => match exec_inst i m with Ok m' => exec_list r m' | Fault e => Fault e end
  end.

(** The phis at the head of a block take their values together, from the edge taken. *)
Definition phi_value (m : mach) (from : Z) (inc : list (value * Z)) : option mval :=
  match head (filter (fun x => x.2 = from) inc) with Some x => eval m x.1 | None => None end.
Fixpoint enter_block (m0 m : mach) (from : Z) (l : list inst) : option (mach * list inst) :=
  match l with
  | i :: r =>
      match i_kind i with
      | IPhi inc => match phi_value m0 from inc with
                    | Some v => enter_block m0 (set_reg (i_id i) v m) from r
                    | None => None
                    end
      | _ => Some (m, l)
      end
  | [] => Some (m, [])
  end.
(** Execution of the rest [l] of block [cur], through branches, up to the
    instruction [stop]. *)
Fixpoint run (fuel : nat) (md : module) (stop cur : Z) (l : list inst) (m : mach) : res mach :=
  match fuel, l with
  | S n, i :: r =>
      if i_id i =? stop then Ok m else
      let goto b :=
        match find_block md b with
        | Some c => match enter_block m m cur (b_insts c) with
                    | Some (m', l') => run n md stop b l' m'
                    | None => undefined
                    end
        | None => undefined
        end in
      match i_kind i with
      | IBr b => goto b
      | ICondBr c x y =>
          match eval_int m c with
          | Some v => goto (if v =? 0 then y else x)
          | None => undefined
          end
      | _ => match exec_inst i m with
             | Ok m' => run n md stop cur r m'
             | Fault e => Fault e
             end
      end
  | _, _ => Fault OutOfFuel
  end.

Lemma df_exec_list_app l k m :
  exec_list (l ++ k) m = res_bind (exec_list l m) (exec_list k).
Proof.
  revert m. induction l as [|i l IH]; intros m; [done|]. cbn.
  destruct (exec_inst i m); [apply IH|done].
Qed.
End Machine.
Arguments mach : clear implicits.
Arguments set_reg {T OS}.
Arguments set_rt {T OS}.
Arguments regs {T OS}.
Arguments slots {T OS}.
Arguments rt {T OS}.
Arguments mkMach {T OS}.

(** ** A logic for code generators *)

(** The module with the instructions [L] before [Pos], in this order. *)
Definition inserted (Pos : Z) (L : list inst) (m : module) : module :=
  fold_left (fun m x => insert_at (Before Pos) x m) L m.

(** What a generator of straight-line code does to the state: it inserts [L], with
    new addresses, and nothing else. *)
Record straight (Pos : Z) (s : dst) (L : list inst) (s' : dst) : Prop := {
  sl_eq : s' = mkDst (inserted Pos L (Mod s)) (fresh s') (tab s) (UnwrappedFnMap s) (fn s);
  sl_fresh : fresh s <= fresh s';
  sl_ids : Forall (fun i => fresh s <= i_id i < fresh s') L
}.

Lemma inserted_app Pos L K m : inserted Pos (L ++ K) m = inserted Pos K (inserted Pos L m).
Proof. apply fold_left_app. Qed.
Lemma straight_nil Pos s : straight Pos s [] s.
Proof. split; [by destruct s|lia|constructor]. Qed.
Lemma straight_app Pos s L s1 K s2 :
  straight Pos s L s1 -> straight Pos s1 K s2 -> straight Pos s (L ++ K) s2.
Proof.
  intros [E1 F1 I1] [E2 F2 I2]. split.
  - rewrite E2, E1, inserted_app. done.
  - lia.
  - apply Forall_app. split; eapply Forall_impl; eauto; cbn; lia.
Qed.

(** A value that uses no instruction with an address of [n] or more. *)
Fixpoint below (n : Z) (v : value) : Prop :=
  match v with
  | VInst p _ => p < n
  | VCast _ u _ | VGEP _ u _ _ _ => below n u
  | VBin _ x y | VInsert x y _ => below n x /\ below n y
  | _ => True
  end.
Lemma below_mono n n' v : n <= n' -> below n v -> below n' v.
Proof. intros Hn. induction v; cbn; try done; [lia|naive_solver..]. Qed.
Lemma getBitCast_below n v t : below n v -> below n (getBitCast v t).
Proof.
  unfold getBitCast. intros Hv.
  assert (Hu : below n (match v with VCast BitCast u _ => u | _ => v end)) by (destruct v as [| | | | | | | | | | | |[]| | |]; done).
  by case_decide.
Qed.

Section Logic.
Context {T OS : Type} `{LabelStore T} (cfg : config) (env : menv).
Abbreviation mc := (mach T OS).
Implicit Types (s : dst) (m : mc).

(** The code leaves older registers alone. *)
Definition keep (n : Z) (m m' : mc) : Prop := forall p, p < n -> regs m' !! p = regs m !! p.
Lemma keep_refl n m : keep n m m.
Proof. done. Qed.
Lemma keep_trans n n1 m m1 m2 : n <= n1 -> keep n m m1 -> keep n1 m1 m2 -> keep n m m2.
Proof. intros Hn H1 H2 p Hp. rewrite H2 by lia. by apply H1. Qed.
Lemma keep_eval n m m' v : keep n m m' -> below n v -> eval env m' v = eval env m v.
Proof.
  intros Hk. induction v; cbn; try done; intros Hb.
  - by apply Hk.
  - by destruct c; try apply IHv.
  - destruct Hb. by rewrite IHv1, IHv2.
  - by rewrite IHv.
Qed.
Lemma keep_eval_int n m m' v : keep n m m' -> below n v -> eval_int env m' v = eval_int env m v.
Proof. unfold eval_int. intros. by erewrite keep_eval. Qed.
Lemma keep_set_reg n m p v : n <= p -> keep n m (set_reg p v m).
Proof. intros Hn q Hq. cbn. by rewrite lookup_insert_ne by lia. Qed.

(** The generator [g] inserts code before [Pos] that takes the machine from [m] to a
    state that [Q] describes. *)
Definition spec {A} (Pos : Z) (g : D A) (s : dst) (m : mc) (Q : A -> dst -> mc -> Prop) : Prop :=
  exists a L s' m', g s = Ok (a, s') /\ straight Pos s L s' /\
    exec_list env (tab s) L m = Ok m' /\ keep (fresh s) m m' /\ Q a s' m'.

Lemma spec_ret {A} Pos (a : A) s m (Q : A -> dst -> mc -> Prop) :
  Q a s m -> spec Pos (ret a) s m Q.
Proof. intros HQ. exists a, [], s, m. eauto using straight_nil, keep_refl. Qed.
Lemma spec_gets {A} Pos (f : dst -> A) s m (Q : A -> dst -> mc -> Prop) :
  Q (f s) s m -> spec Pos (gets f) s m Q.
Proof. intros HQ. exists (f s), [], s, m. eauto using straight_nil, keep_refl. Qed.
Lemma spec_bind {A B} Pos (g : D A) (k : A -> D B) s m (Q : B -> dst -> mc -> Prop) :
  spec Pos g s m (fun a s1 m1 => spec Pos (k a) s1 m1 Q) -> spec Pos (bind g k) s m Q.
Proof.
  intros (a & L & s1 & m1 & Eg & Hl & El & Hk & b & K & s2 & m2 & Ek & Hl2 & El2 & Hk2 & HQ).
  exists b, (L ++ K), s2, m2. split_and!.
  - by rewrite (bind_Ok _ _ _ _ _ Eg).
  - by eapply straight_app.
  - rewrite df_exec_list_app, El. cbn. rewrite (sl_eq _ _ _ _ Hl) in El2. done.
  - eapply keep_trans; eauto. apply Hl.
  - done.
Qed.
Lemma spec_mono {A} Pos (g : D A) s m (Q Q' : A -> dst -> mc -> Prop) :
  spec Pos g s m Q ->
  (forall a L s' m', straight Pos s L s' -> keep (fresh s) m m' -> Q a s' m' -> Q' a s' m') ->
  spec Pos g s m Q'.
Proof. intros (a & L & s' & m' & ? & ? & ? & ? & ?) HQ. exists a, L, s', m'. eauto 10. Qed.
Lemma spec_assert Pos b s m (Q : unit -> dst -> mc -> Prop) :
  b || NDEBUG cfg = true -> Q tt s m -> spec Pos (assert cfg b) s m Q.
Proof. intros Hb HQ. unfold assert. rewrite Hb. by apply spec_ret. Qed.

Definition emitted (Pos : Z) (k : ikind) (t : ty) s : dst :=
  mkDst (insert_at (Before Pos) (mkInst (fresh s) k t) (Mod s)) (fresh s + 1) (tab s)
    (UnwrappedFnMap s) (fn s).
Lemma spec_emit Pos k t s m m' (Q : value -> dst -> mc -> Prop) :
  exec_inst env (tab s) (mkInst (fresh s) k t) m = Ok m' ->
  keep (fresh s) m m' ->
  Q (VInst (fresh s) t) (emitted Pos k t s) m' ->
  spec Pos (emit (Before Pos) k t) s m Q.
Proof.
  intros E Hk HQ.
  exists (VInst (fresh s) t), [mkInst (fresh s) k t], (emitted Pos k t s), m'. split_and!; try done.
  - split; [done|cbn; lia|]. constructor; [cbn; lia|constructor].
  - cbn. by rewrite E.
Qed.
Lemma straight_fields Pos s L s' :
  straight Pos s L s' -> tab s' = tab s /\ UnwrappedFnMap s' = UnwrappedFnMap s /\ fn s' = fn s.
Proof. by intros [-> _ _]. Qed.

(** *** The builder *)

(** The result of a computation that leaves memory alone. *)
Definition gives (x : mval) (t : ty) m (v : value) (s' : dst) (m' : mc) : Prop :=
  eval env m' v = Some x /\ typeOf v = t /\ below (fresh s') v /\ rt m' = rt m /\ slots m' = slots m.

Lemma gives_here x t m v s : eval env m v = Some x -> typeOf v = t -> below (fresh s) v ->
  gives x t m v s m.
Proof. unfold gives. intros. by split_and!. Qed.
Lemma gives_reg x t m Pos k s :
  gives x t m (VInst (fresh s) t) (emitted Pos k t s) (set_reg (fresh s) x m).
Proof. unfold gives. split_and!; try done; cbn; [by rewrite lookup_insert_eq|lia]. Qed.

Definition address_cast (c : castop) : bool :=
  match c with PtrToInt | IntToPtr | BitCast => true | _ => false end.

Lemma getBitCast_type v t : typeOf (getBitCast v t) = t.
Proof. unfold getBitCast. by case_decide. Qed.
Lemma getBitCast_eval m v t : eval env m (getBitCast v t) = eval env m v.
Proof.
  unfold getBitCast.
  assert (Hu : eval env m (match v with VCast BitCast u _ => u | _ => v end) = eval env m v)
    by (destruct v as [| | | | | | | | | | | |[]| | |]; done).
  by case_decide.
Qed.
Lemma fold_cast_address c v t m n :
  address_cast c = true ->
  eval env m (fold_cast c v t) = eval env m v /\ typeOf (fold_cast c v t) = t /\
  (below n v -> below n (fold_cast c v t)).
Proof.
  intros Hc. destruct c; try done; cbn.
  - rewrite getBitCast_eval, getBitCast_type. eauto using getBitCast_below.
Qed.

Lemma spec_cast Pos c v t x s m :
  address_cast c = true -> eval env m v = Some x -> below (fresh s) v ->
  spec Pos (CreateCast (Before Pos) c v t) s m (gives x t m).
Proof.
  intros Hc Hv Hb. unfold CreateCast. case_decide as Ht; [by apply spec_ret, gives_here|].
  destruct (isConstant v).
  - destruct (fold_cast_address c v t m (fresh s) Hc) as (E & Et & Hbl).
    apply spec_ret, gives_here; [by rewrite E|done|auto].
  - eapply spec_emit; [|by apply keep_set_reg|apply gives_reg].
    cbn. by destruct c; try done; cbn; rewrite Hv.
Qed.
Lemma spec_bin Pos o x y w a b z s m :
  eval env m x = Some (MI a) -> eval env m y = Some (MI b) -> typeOf x = TInt w ->
  fold_bin o w a b = Some z -> below (fresh s) x -> below (fresh s) y ->
  spec Pos (CreateBin (Before Pos) o x y) s m (gives (MI z) (TInt w) m).
Proof.
  intros Hx Hy Ht Hz Bx By. unfold CreateBin.
  assert (Hconst : gives (MI z) (TInt w) m (VBin o x y) s m).
  { apply gives_here; [|done|done]. cbn. by rewrite Hx, Hy, Ht, Hz. }
  destruct (isConstant x && isConstant y).
  - destruct x; try (by apply spec_ret). destruct y; try (by apply spec_ret).
    simplify_eq/=. rewrite Hz. by apply spec_ret, gives_here.
  - eapply spec_emit; [|by apply keep_set_reg|rewrite Ht; apply gives_reg].
    cbn. unfold eval_int. by rewrite Hx, Hy, Ht, Hz.
Qed.
Lemma spec_gep Pos elt base i t a s m :
  eval env m base = Some (MI a) -> below (fresh s) base ->
  spec Pos (CreateConstGEP (Before Pos) elt 32 base i None t) s m
    (gives (MI (u64 (a + ty_size elt * signed 32 i))) t m).
Proof.
  intros Hv Hb. unfold CreateConstGEP. destruct (isConstant base).
  - apply spec_ret, gives_here; [cbn; by rewrite Hv|done|done].
  - eapply spec_emit; [|by apply keep_set_reg|apply gives_reg].
    cbn. unfold eval_int. by rewrite Hv.
Qed.
End Logic.
