(* ===== verification/DfsanPassMem.v ===== *)
(** * Shadow memory accesses of instrumented code

    What the code does that [getShadowAddress], [storeShadow] and [loadShadow] of
    [DFSanPass.cc] emit: the address is the one the runtime uses, a store labels the
    bytes it writes and no others, a load gives the join of the labels of the bytes
    it reads. *)

From S2P Require Import Prelude CMem Dfsan DfsanIr DfsanPass DfsanPassMach.
Local Open Scope Z_scope.

Ltac spec_step := first [apply spec_bind | apply spec_gets].

Section Address.
Context {T OS : Type} `{LabelStore T} (cfg : config) (env : menv).
Abbreviation mc := (mach T OS).
Implicit Types (s : dst) (m : mc).

(** The pass knows the mask of the target [a], or the program will find it in
    [__dfsan_shadow_ptr_mask]. *)
Definition mask_ready (a : arch) (t : tables) : Prop :=
  if DFSanRuntimeShadowMask t then
    ExternalShadowMask t = VGlobal "__dfsan_shadow_ptr_mask" (TInt 64) false /\
    gvals env "__dfsan_shadow_ptr_mask" = Some (ShadowMask a)
  else ShadowPtrMask t = VInt 64 (ShadowMask a).

(** The machine has loaded the mask or the pass has put it in place. *)
Lemma spec_mask Pos a s m :
  mask_ready a (tab s) ->
  spec env Pos
    (if DFSanRuntimeShadowMask (tab s) then CreateLoad (Before Pos) (ExternalShadowMask (tab s)) 0
     else ret (ShadowPtrMask (tab s))) s m (gives env (MI (ShadowMask a)) (TInt 64) m).
Proof.
  unfold mask_ready. destruct (DFSanRuntimeShadowMask (tab s)).
  - intros [-> Hg]. unfold CreateLoad. eapply spec_emit; [|by apply keep_set_reg|apply gives_reg].
    cbn. by rewrite Hg.
  - intros ->. by apply spec_ret, gives_here.
Qed.

(** A pointer made from an integer. *)
Definition shadow_ptr (v : value) : bool :=
  match v with
  | VInst _ _ | VCast IntToPtr _ _ | VCast BitCast (VCast IntToPtr _ _) _ => true
  | _ => false
  end.
Lemma spec_int_to_ptr Pos y z s m :
  eval env m y = Some (MI z) -> typeOf y = TInt 64 -> below (fresh s) y ->
  spec env Pos (CreateCast (Before Pos) IntToPtr y ShadowPtrTy) s m
    (fun v s' m' => gives env (MI z) ShadowPtrTy m v s' m' /\ shadow_ptr v = true).
Proof.
  intros Ey Ty By. unfold CreateCast. rewrite decide_False by by rewrite Ty.
  destruct (isConstant y).
  - apply spec_ret. split; [|done]. by apply gives_here.
  - eapply spec_emit; [|by apply keep_set_reg|split; [apply gives_reg|done]]. cbn. by rewrite Ey.
Qed.
Lemma getShadowAddress_spec Pos a Addr p s m :
  IntptrWidth cfg = 64 -> mask_ready a (tab s) -> RetvalTLS (tab s) <> Some Addr ->
  eval env m Addr = Some (MI p) -> below (fresh s) Addr ->
  spec env Pos (getShadowAddress cfg Addr Pos) s m
    (fun v s' m' => gives env (MI (shadow_for_on a p)) ShadowPtrTy m v s' m' /\ shadow_ptr v = true).
Proof.
  intros Hw Hm Hr Hp Hb. unfold getShadowAddress, IntptrTy, ShadowPtrMul. rewrite Hw.
  do 2 spec_step. spec_step. apply spec_assert; [by rewrite bool_decide_eq_true_2|].
  spec_step. eapply spec_mono; [by eapply spec_mask|].
  intros mask L1 s1 m1 HL1 K1 (Emask & Tmask & Bmask & R1 & S1).
  spec_step. eapply spec_mono.
  { apply (spec_cast env Pos PtrToInt Addr (TInt 64) (MI p)); [done| |].
    - by erewrite keep_eval.
    - eapply below_mono; [apply HL1|done]. }
  intros av L2 s2 m2 HL2 K2 (Ea & Ta & Ba & R2 & S2).
  spec_step. eapply spec_mono.
  { apply (spec_cast env Pos PtrToInt mask (TInt 64) (MI (ShadowMask a))); [done| |].
    - by erewrite keep_eval.
    - eapply below_mono; [apply HL2|done]. }
  intros kv L3 s3 m3 HL3 K3 (Ek & Tk & Bk & R3 & S3).
  spec_step. eapply spec_mono.
  { eapply (spec_bin env Pos And av kv 64 p (ShadowMask a)); try done.
    - by erewrite keep_eval.
    - eapply below_mono; [apply HL3|done]. }
  intros x L4 s4 m4 HL4 K4 (Ex & Tx & Bx & R4 & S4).
  spec_step. eapply spec_mono.
  { by eapply (spec_bin env Pos Mul x (VInt 64 (ShadowWidth / 8)) 64). }
  intros y L5 s5 m5 HL5 K5 (Ey & Ty & By & R5 & S5).
  eapply spec_mono; [by apply (spec_int_to_ptr Pos y _ s5 m5 Ey Ty By)|].
  intros z L6 s6 m6 _ _ [(Ez & Tz & Bz & R6 & S6) Hz]. unfold gives. split_and!; try done; [|congruence..].
  rewrite Ez. do 2 f_equal. unfold shadow_for_on, u64.
  by rewrite Z.shiftl_mul_pow2 by lia.
Qed.
End Address.

Section Store.
Context {T OS : Type} `{LabelStore T} (cfg : config) (env : menv).
Abbreviation mc := (mach T OS).
Implicit Types (s : dst) (m : mc).

(** The first [k] bytes of the range are labelled. *)
Definition stored (p l k : Z) (r r' : st T OS) : Prop :=
  exists h, r' = set_shadow h r /\ relabelled r h p k (fun _ => l).

Lemma stored_zero p l r : stored p l 0 r r.
Proof.
  exists (shadow r). split; [by destruct r|]. intros b Hb. unfold in_range.
  by rewrite bool_decide_eq_false_2 by lia.
Qed.
Lemma stored_word p l n k r r' :
  app_range p n -> 0 <= k < n -> stored p l k r r' ->
  exists r2, write_label (shadow_for p + 4 * k) l r' = Ok (tt, r2) /\ stored p l (k + 1) r r2.
Proof.
  intros Hr Hk (h & -> & HP). rewrite (app_range_shadow p n) by done.
  assert (Hka : is_app (p + k)) by (eapply app_range_in; eauto; lia).
  eexists. split; [by apply write_label_app|].
  exists (<[shadow_for (p + k) := l]> h). split; [done|].
  intros b Hb. destruct (decide (b = p + k)) as [->|Hne].
  - rewrite lookup_insert_eq. unfold in_range. by rewrite bool_decide_eq_true_2 by lia.
  - rewrite lookup_insert_ne by (rewrite !shadow_for_app by done; lia).
    rewrite HP by done. unfold in_range. repeat case_bool_decide; try done; lia.
Qed.
Lemma stored_words p l n (j : nat) : forall k r r',
  app_range p n -> 0 <= k -> k + Z.of_nat j <= n -> stored p l k r r' ->
  exists r2, store_words (shadow_for p + 4 * k) (replicate j l) r' = Ok (tt, r2) /\
    stored p l (k + Z.of_nat j) r r2.
Proof.
  induction j as [|j IH]; intros k r r' Hr Hk Hn Hs; cbn [replicate store_words].
  - exists r'. split; [done|]. by rewrite Z.add_0_r.
  - destruct (stored_word p l n k r r' Hr ltac:(lia) Hs) as (r2 & E & Hs2).
    destruct (IH (k + 1) r r2 Hr ltac:(lia) ltac:(lia) Hs2) as (r3 & E3 & Hs3).
    exists r3. rewrite (bind_Ok _ _ _ _ _ E).
    replace (shadow_for p + 4 * k + 4) with (shadow_for p + 4 * (k + 1)) by lia.
    split; [done|]. by replace (k + Z.of_nat (S j)) with (k + 1 + Z.of_nat j) by lia.
Qed.

(** The address of the word or vector with index [i]. *)
Lemma shadow_index p n i c :
  app_range p n -> 0 <= i -> 0 < c -> c * i < n -> n < 2 ^ 31 ->
  u64 (shadow_for p + 4 * c * signed 32 (u32 i)) = shadow_for p + 4 * (c * i).
Proof.
  intros Hr Hi Hc Hn Hs. assert (Hp : is_app p) by (unfold app_range, is_app in *; nia).
  rewrite u32_small by nia. change (signed 32 i) with (s32 i). rewrite s32_small by nia.
  rewrite shadow_for_app by done.
  change (0x700000008000 <= p < 140737488355328) in Hp. unfold app_range in Hr.
  rewrite u64_small by nia. lia.
Qed.

Lemma store_singles_spec Pos p l n al v sa (fuel : nat) : forall Size Offset s m r,
  app_range p n -> n < 2 ^ 31 -> 0 <= Offset -> 0 <= Size -> Offset + Size = n ->
  (Z.to_nat Size <= fuel)%nat ->
  eval env m v = Some (MI l) -> typeOf v = ShadowTy -> below (fresh s) v ->
  eval env m sa = Some (MI (shadow_for p)) -> below (fresh s) sa ->
  stored p l Offset r (rt m) ->
  spec env Pos (store_singles fuel Size Offset al v sa Pos) s m
    (fun _ _ m' => slots m' = slots m /\ stored p l n r (rt m')).
Proof.
  induction fuel as [|fuel IH]; intros Size Offset s m r Hr Hn Ho Hsz Hsum Hf Ev Tv Bv Ea Ba Hst;
    cbn [store_singles]; case (Z.ltb_spec 0 Size); intros Hpos; try lia.
  - apply spec_ret. split; [done|]. by replace n with Offset by lia.
  - spec_step. eapply spec_mono; [by apply spec_gep|].
    intros g L1 s1 m1 HL1 K1 (Eg & Tg & Bg & R1 & S1).
    pose proof (shadow_index p n Offset 1 Hr Ho ltac:(lia) ltac:(lia) Hn) as Hi.
    change (ty_size ShadowTy) with (4 * 1) in Eg. rewrite Hi, Z.mul_1_l in Eg.
    destruct (stored_word p l n Offset r (rt m1) Hr ltac:(lia) ltac:(by rewrite R1))
      as (r2 & E2 & Hs2).
    assert (Ev1 : eval env m1 v = Some (MI l)) by by erewrite keep_eval.
    pose proof (sl_fresh _ _ _ _ HL1).
    spec_step. unfold CreateStore. eapply (spec_emit _ _ _ _ _ _ (set_rt r2 m1)); [|done|].
    { cbn. rewrite Eg, Ev1, Tv. cbn. unfold with_rt. cbn. by rewrite (bind_Ok _ _ _ _ _ E2). }
    eapply spec_mono.
    { apply (IH _ _ _ _ r); try done; try lia; try (eapply below_mono; [|done]; cbn; lia);
        by rewrite (keep_eval env (fresh s) m). }
    intros [] L3 s3 m3 _ _ [S3 Hs3]. split; [by rewrite S3|done].
  - apply spec_ret. split; [done|]. by replace n with Offset by lia.
Qed.

Fixpoint fill (n : nat) (i l : Z) (lst : list (option Z)) : list (option Z) :=
  match n with O => lst | S k => fill k (i + 1) l (<[ Z.to_nat i := Some l ]> lst) end.
Lemma splat_spec Pos v l (n : nat) : forall i vec lst s m,
  eval env m vec = Some (MV lst) -> typeOf vec = ShadowVecTy -> below (fresh s) vec ->
  eval env m v = Some (MI l) -> below (fresh s) v ->
  spec env Pos (splat n i vec v Pos) s m (gives env (MV (fill n i l lst)) ShadowVecTy m).
Proof.
  induction n as [|n IH]; intros i vec lst s m Evec Tvec Bvec Ev Bv; cbn [splat].
  - by apply spec_ret, gives_here.
  - spec_step. eapply (spec_emit _ _ _ _ _ _ (set_reg (fresh s) (MV (<[Z.to_nat i := Some l]> lst)) m)).
    { cbn. unfold eval_int. by rewrite Evec, Ev. }
    { by apply keep_set_reg. }
    eapply spec_mono; [apply IH; cbn; try lia|].
    + by rewrite lookup_insert_eq.
    + done.
    + erewrite keep_eval; [done|by apply keep_set_reg|done].
    + eapply below_mono; [|done]. lia.
    + done.
Qed.

Lemma store_vectors_spec Pos p l n al vec va (fuel : nat) : forall Size Offset s m r,
  app_range p n -> n < 2 ^ 31 -> 0 <= Offset -> 4 <= Size -> 4 * Offset + Size = n ->
  (Z.to_nat Size <= fuel)%nat ->
  eval env m vec = Some (MV (replicate 4 (Some l))) -> below (fresh s) vec ->
  eval env m va = Some (MI (shadow_for p)) -> below (fresh s) va ->
  stored p l (4 * Offset) r (rt m) ->
  spec env Pos (store_vectors fuel Size Offset al vec va Pos) s m
    (fun so s' m' => slots m' = slots m /\ 0 <= so.1 < 4 /\ 0 <= so.2 /\ 4 * so.2 + so.1 = n /\
       stored p l (4 * so.2) r (rt m')).
Proof.
  induction fuel as [|fuel IH]; intros Size Offset s m r Hr Hn Ho Hsz Hsum Hf Ev Bv Ea Ba Hst;
    cbn [store_vectors]; [lia|].
  spec_step. eapply spec_mono; [by apply spec_gep|].
  intros g L1 s1 m1 HL1 K1 (Eg & Tg & Bg & R1 & S1).
  pose proof (shadow_index p n Offset 4 Hr Ho ltac:(lia) ltac:(lia) Hn) as Hi.
  change (ty_size ShadowVecTy) with (4 * 4) in Eg. rewrite Hi in Eg.
  destruct (stored_words p l n 4 (4 * Offset) r (rt m1) Hr ltac:(lia) ltac:(lia) ltac:(by rewrite R1))
    as (r2 & E2 & Hs2).
  assert (Ev1 : eval env m1 vec = Some (MV (replicate 4 (Some l)))) by by erewrite keep_eval.
  pose proof (sl_fresh _ _ _ _ HL1).
  spec_step. unfold CreateStore. eapply (spec_emit _ _ _ _ _ _ (set_rt r2 m1)); [|done|].
  { cbn [replicate] in E2. cbn -[store_words Z.mul]. rewrite Eg, Ev1. cbn -[store_words Z.mul].
    unfold with_rt. by rewrite E2. }
  change ShadowVecSize with 4. replace (4 * Offset + Z.of_nat 4) with (4 * (Offset + 1)) in Hs2 by lia.
  case (Z.leb_spec 4 (Size - 4)); intros Hle.
  - eapply spec_mono.
    { apply (IH _ _ _ _ r); try done; try lia; try (eapply below_mono; [|done]; cbn; lia);
        by rewrite (keep_eval env (fresh s) m). }
    intros so L3 s3 m3 _ _ [S3 Hs3]. split; [by rewrite S3|done].
  - apply spec_ret. cbn. split_and!; try done; lia.
Qed.

(** The label goes to the bytes [p .. p+Size-1]. *)
Lemma storeShadow_spec Pos Addr p l Size al v s m :
  IntptrWidth cfg = 64 -> mask_ready env X86_64 (tab s) -> RetvalTLS (tab s) <> Some Addr ->
  (forall q t, Addr = VInst q t -> AllocaShadowMap (fn s) q = None) ->
  eval env m Addr = Some (MI p) -> below (fresh s) Addr ->
  eval env m v = Some (MI l) -> typeOf v = ShadowTy -> below (fresh s) v ->
  app_range p Size -> 0 < Size -> Size * ShadowWidth <= MAX_INT_BITS ->
  spec env Pos (storeShadow cfg Addr Size al v Pos) s m
    (fun _ _ m' => slots m' = slots m /\ stored p l Size (rt m) (rt m')).
Proof.
  intros Hw Hm Hr Hal Ea Ba Ev Tv Bv Hrng Hpos Hmax. unfold storeShadow, alloca_shadow.
  assert (Hs31 : Size < 2 ^ 31) by (change (Size * 32 <= 16777215) in Hmax; lia).
  spec_step. apply spec_bind, spec_gets, spec_ret.
  replace (match Addr with VInst q _ => AllocaShadowMap (fn s) q | _ => None end) with (@None value)
    by (destruct Addr; try done; by erewrite Hal).
  spec_step. eapply spec_mono; [by apply getShadowAddress_spec|].
  intros sa L1 s1 m1 HL1 K1 [(Esa & Tsa & Bsa & R1 & S1) _]. pose proof (sl_fresh _ _ _ _ HL1) as F1.
  assert (Ev1 : eval env m1 v = Some (MI l)) by by rewrite (keep_eval env (fresh s) m).
  assert (Bv1 : below (fresh s1) v) by by eapply below_mono.
  change (shadow_for_on X86_64 p) with (shadow_for p) in Esa.
  rewrite <-R1, <-S1. clear R1 S1 Ev Bv K1. case_decide as Hz.
  - subst v. injection Ev1 as <-. change (Size * 32 <= 16777215) in Hmax.
    assert (Hu : u32 (Size * ShadowWidth) = Size * 32) by (apply u32_small; change ShadowWidth with 32; lia).
    rewrite Hu. spec_step. apply spec_assert.
    { change MAX_INT_BITS with 16777215.
      by rewrite (proj2 (Z.leb_le 1 (Size * 32)) ltac:(lia)), (proj2 (Z.leb_le (Size * 32) 16777215) Hmax). }
    spec_step. eapply spec_mono; [by apply (spec_cast env Pos BitCast sa _ _ s1 m1 eq_refl Esa Bsa)|].
    intros e L2 s2 m2 _ _ (Ee & Te & Be & R2 & S2).
    destruct (stored_words p 0 Size (Z.to_nat Size) 0 (rt m1) (rt m2)) as (r2 & E2 & Hs2);
      [done|lia|lia|rewrite R2; apply stored_zero|].
    rewrite Z.mul_0_r, Z.add_0_r in E2. rewrite Z.add_0_l, Z2Nat.id in Hs2 by lia.
    spec_step. unfold CreateStore. eapply (spec_emit _ _ _ _ _ _ (set_rt r2 m2)); [|done|].
    + cbn -[store_words]. rewrite Ee. unfold with_rt. destruct (Z.eqb_spec (Size * 32) 32) as [Hone|_].
      * assert (Size = 1) as -> by lia. change (replicate (Z.to_nat 1) 0) with [0] in E2. by rewrite E2.
      * rewrite Z.div_mul by lia. by rewrite E2.
    + by apply spec_ret.
  - spec_step. eapply spec_mono with (Q := fun so s' m' => slots m' = slots m1 /\ 0 <= so.1 /\
      0 <= so.2 /\ so.2 + so.1 = Size /\ stored p l so.2 (rt m1) (rt m')).
    + change ShadowVecSize with 4. case (Z.leb_spec 4 Size); intros Hle.
      * spec_step. eapply spec_mono; [by apply (splat_spec Pos v l 4 0 (VUndef ShadowVecTy) (replicate 4 None))|].
        intros vec L2 s2 m2 HL2 K2 (Evec & Tvec & Bvec & R2 & S2). pose proof (sl_fresh _ _ _ _ HL2).
        spec_step. eapply spec_mono.
        { apply (spec_cast env Pos BitCast sa (TPtr ShadowVecTy) (MI (shadow_for p))); [done| |].
          - by rewrite (keep_eval env (fresh s1) m1).
          - by eapply below_mono. }
        intros va L3 s3 m3 HL3 K3 (Eva & Tva & Bva & R3 & S3). pose proof (sl_fresh _ _ _ _ HL3).
        spec_step. eapply spec_mono.
        { apply (store_vectors_spec Pos p l Size _ vec va _ Size 0 s3 m3 (rt m1)); try done; try lia.
          - by rewrite (keep_eval env (fresh s2) m2).
          - by eapply below_mono.
          - rewrite R3, R2. apply stored_zero. }
        intros so L4 s4 m4 _ _ (S4 & H4 & H5 & H6 & H7). apply spec_ret. cbn.
        rewrite Z.mul_comm in H7. split_and!; try done; [congruence|lia..].
      * apply spec_ret. cbn. split_and!; try done; [lia|apply stored_zero].
    + intros [sz off] L2 s2 m2 HL2 K2 (S2 & H1 & H2 & H3 & H4). cbn [fst snd] in *.
      pose proof (sl_fresh _ _ _ _ HL2).
      eapply spec_mono.
      { apply (store_singles_spec Pos p l Size _ v sa _ sz off s2 m2 (rt m1)); try done; try lia;
          try (by eapply below_mono); by rewrite (keep_eval env (fresh s1) m1). }
      intros [] L3 s3 m3 _ _ [S3 Hs3]. split; [by rewrite S3|done].
Qed.
End Store.
