(* ===== verification/DfsanPassBlocks.v ===== *)
(** * Blocks of the function that the data-flow pass changes

    The generators of [DFSanPass.cc] that split blocks change the whole function.
    [is_block] says what a block of the module is; the lemmas of this file follow a
    block through the operations of the builder.  [reaches] relates the code that a
    generator leaves in place to what it does when it runs. *)

From S2P Require Import Prelude CMem Dfsan DfsanIr DfsanPass DfsanPassMach.
Local Open Scope Z_scope.

Definition ids (l : list inst) : list Z := i_id <$> l.

(** The block [b] of the module, and no other has this address. *)
Definition is_block (m : module) (b : Z) (l : list inst) : Prop :=
  mkBlock b l ∈ mod_blocks m /\ forall c, c ∈ mod_blocks m -> b_id c = b -> c = mkBlock b l.

Lemma is_block_find m b l : is_block m b l -> find_block m b = Some (mkBlock b l).
Proof.
  intros [Hin Hun]. unfold find_block.
  destruct (filter (fun c => b_id c = b) (mod_blocks m)) as [|c r] eqn:E.
  - assert (Hf : mkBlock b l ∈ filter (fun c => b_id c = b) (mod_blocks m))
      by by apply list_elem_of_filter.
    rewrite E in Hf. by apply elem_of_nil in Hf.
  - assert (Hc : c ∈ filter (fun c => b_id c = b) (mod_blocks m)) by (rewrite E; left).
    apply list_elem_of_filter in Hc as [Hc1 Hc2]. cbn. by rewrite (Hun c).
Qed.

Lemma mod_blocks_map_blocks f m :
  mod_blocks (map_blocks f m) = g ← m_funs m; f (fn_blocks g).
Proof.
  unfold mod_blocks, map_blocks, with_funs. cbn. induction (m_funs m) as [|g l IH]; [done|].
  cbn. by rewrite IH.
Qed.
Lemma mod_blocks_map f m : mod_blocks (map_blocks (fmap f) m) = f <$> mod_blocks m.
Proof.
  rewrite mod_blocks_map_blocks. unfold mod_blocks.
  induction (m_funs m) as [|g l IH]; [done|]. cbn. by rewrite IH, fmap_app.
Qed.
Lemma is_block_map f m b l l' :
  (forall c, b_id (f c) = b_id c) -> f (mkBlock b l) = mkBlock b l' ->
  is_block m b l -> is_block (map_blocks (fmap f) m) b l'.
Proof.
  intros Hid Hf [Hin Hun]. unfold is_block. rewrite mod_blocks_map. split.
  - apply list_elem_of_fmap. eexists. split; [by rewrite Hf|done].
  - intros c (c0 & -> & Hc0)%list_elem_of_fmap Hb. rewrite Hid in Hb. by rewrite (Hun c0).
Qed.
Lemma is_block_map_insts g m b l : is_block m b l -> is_block (map_insts g m) b (g l).
Proof. by apply is_block_map. Qed.
Lemma is_block_end_same x m b l :
  is_block m b l -> is_block (insert_at (AtEnd b) x m) b (l ++ [x]).
Proof.
  apply is_block_map; cbn; [intros c; by destruct (b_id c =? b)|by rewrite Z.eqb_refl].
Qed.
Lemma is_block_end_other x m b b' l :
  b' <> b -> is_block m b l -> is_block (insert_at (AtEnd b') x m) b l.
Proof.
  intros Hne. apply is_block_map; cbn; [intros c; by destruct (b_id c =? b')|].
  by destruct (Z.eqb_spec b b'); [congruence|].
Qed.

(** *** Instruction lists *)

Lemma df_ins_before_notin p x l : p ∉ ids l -> ins_before p x l = l.
Proof.
  induction l as [|i l IH]; [done|]. unfold ids. rewrite fmap_cons, not_elem_of_cons. intros [Hi Hl].
  cbn. destruct (Z.eqb_spec (i_id i) p); [congruence|]. by rewrite IH.
Qed.
Lemma df_ins_before_at p x pre ip post :
  i_id ip = p -> p ∉ ids pre -> ins_before p x (pre ++ ip :: post) = pre ++ x :: ip :: post.
Proof.
  intros <-. induction pre as [|i pre IH]; cbn; [by rewrite Z.eqb_refl|].
  rewrite not_elem_of_cons. intros [Hi Hp].
  destruct (Z.eqb_spec (i_id i) (i_id ip)); [congruence|]. by rewrite IH.
Qed.
Lemma split_at_here p pre ip post :
  i_id ip = p -> p ∉ ids pre -> split_at p (pre ++ ip :: post) = Some (pre, ip :: post).
Proof.
  intros <-. induction pre as [|i pre IH]; cbn; [by rewrite Z.eqb_refl|].
  rewrite not_elem_of_cons. intros [Hi Hp].
  destruct (Z.eqb_spec (i_id i) (i_id ip)); [congruence|]. by rewrite IH.
Qed.
Lemma df_split_at_notin p l : p ∉ ids l -> split_at p l = None.
Proof.
  induction l as [|i l IH]; [done|]. unfold ids. rewrite fmap_cons, not_elem_of_cons. intros [Hi Hl].
  cbn. destruct (Z.eqb_spec (i_id i) p); [congruence|]. by rewrite IH.
Qed.
Lemma split_at_Some p l a b : split_at p l = Some (a, b) -> l = a ++ b /\ p ∈ ids l.
Proof.
  revert a b. induction l as [|i l IH]; [done|]. intros a b. cbn.
  destruct (Z.eqb_spec (i_id i) p) as [<-|].
  - intros [= <- <-]. split; [done|left].
  - destruct (split_at p l) as [[a' b']|]; [|done]. intros [= <- <-].
    destruct (IH a' b' eq_refl) as [-> Hin]. split; [done|by right].
Qed.
Lemma set_kind_notin p f l : p ∉ ids l -> set_kind p f <$> l = l.
Proof.
  induction l as [|i l IH]; [done|]. unfold ids. rewrite fmap_cons, not_elem_of_cons. intros [Hi Hl].
  rewrite fmap_cons, IH by done. unfold set_kind. by destruct (Z.eqb_spec (i_id i) p); [congruence|].
Qed.
Lemma ids_app l k : ids (l ++ k) = ids l ++ ids k.
Proof. apply fmap_app. Qed.
Lemma ids_below n l p : Forall (fun i => i_id i < n) l -> n <= p -> p ∉ ids l.
Proof.
  intros Hl Hp (i & -> & Hi)%list_elem_of_fmap. rewrite list.Forall_forall in Hl. apply Hl in Hi. lia.
Qed.

(** *** A point of the function *)

(** The instruction [ip] in its block, in a module all of whose addresses are below
    [n]. *)
Record at_point (m : module) (n : Z) (b : Z) (pre : list inst) (ip : inst) (post : list inst)
  : Prop := {
  ap_block : is_block m b (pre ++ ip :: post);
  ap_first : i_id ip ∉ ids pre;
  ap_only : forall c, c ∈ mod_blocks m -> i_id ip ∈ ids (b_insts c) -> b_id c = b;
  ap_blocks : forall c, c ∈ mod_blocks m -> b_id c < n;
  ap_insts : forall c, c ∈ mod_blocks m -> Forall (fun i => i_id i < n) (b_insts c);
  ap_succs : Forall (fun c => c < n) (block_succs (mkBlock b (pre ++ ip :: post)))
}.

Lemma at_point_ip m n b pre ip post : at_point m n b pre ip post -> i_id ip < n.
Proof.
  intros [[Hin _] _ _ _ Hi _]. apply Hi in Hin. cbn in Hin.
  apply Forall_app in Hin as [_ Hin]. by apply list.Forall_cons in Hin as [? _].
Qed.
Lemma block_succs_tail l i r k : block_succs (mkBlock k (l ++ i :: r)) = block_succs (mkBlock 0 (i :: r)).
Proof. unfold block_succs. cbn. by rewrite last_app_cons. Qed.

Lemma mod_blocks_insert p x m :
  mod_blocks (insert_at (Before p) x m) = on_insts (ins_before p x) <$> mod_blocks m.
Proof. unfold insert_at, map_insts. apply mod_blocks_map. Qed.
Lemma ins_before_ids p x l q : q ∈ ids (ins_before p x l) -> q = i_id x \/ q ∈ ids l.
Proof.
  induction l as [|i l IH]; cbn; [set_solver|]. destruct (i_id i =? p); cbn; [set_solver|].
  rewrite !elem_of_cons. naive_solver.
Qed.
Lemma ins_before_below p x l n :
  Forall (fun i => i_id i < n) l -> i_id x < n -> Forall (fun i => i_id i < n) (ins_before p x l).
Proof.
  intros Hl Hx. induction Hl as [|i l Hi Hl IH]; cbn; [done|].
  destruct (i_id i =? p); repeat constructor; done.
Qed.
Lemma at_point_insert m n b pre ip post x :
  at_point m n b pre ip post -> i_id x <> i_id ip -> i_id x < n ->
  at_point (insert_at (Before (i_id ip)) x m) n b (pre ++ [x]) ip post.
Proof.
  intros [Hb Hf Ho Hbs Hi Hs] Hne Hx. split.
  - rewrite <-app_assoc. change ([x] ++ ip :: post) with (x :: ip :: post).
    rewrite <-(df_ins_before_at (i_id ip) x pre ip post) by done. by apply is_block_map_insts.
  - rewrite ids_app, not_elem_of_app. split; [done|]. cbn. rewrite list_elem_of_singleton. congruence.
  - intros c. rewrite mod_blocks_insert. intros (c0 & -> & Hc)%list_elem_of_fmap. cbn.
    intros [E|Hin]%ins_before_ids; [congruence|eauto].
  - intros c. rewrite mod_blocks_insert. intros (c0 & -> & Hc)%list_elem_of_fmap. by apply (Hbs c0).
  - intros c. rewrite mod_blocks_insert. intros (c0 & -> & Hc)%list_elem_of_fmap. cbn.
    apply ins_before_below; [|done]. by apply Hi.
  - by rewrite block_succs_tail in *.
Qed.
Lemma at_point_mono m n n' b pre ip post : n <= n' ->
  at_point m n b pre ip post -> at_point m n' b pre ip post.
Proof.
  intros Hn [Hb Hf Ho Hbs Hi Hs]. split; try done.
  - intros c Hc. apply Hbs in Hc. lia.
  - intros c Hc. eapply list.Forall_impl; [exact (Hi c Hc)|]. cbn. lia.
  - eapply list.Forall_impl; [exact Hs|]. cbn. lia.
Qed.
Lemma at_point_inserted' L : forall m n b pre ip post,
  at_point m n b pre ip post -> Forall (fun i => i_id i <> i_id ip /\ i_id i < n) L ->
  at_point (inserted (i_id ip) L m) n b (pre ++ L) ip post.
Proof.
  induction L as [|x L IH]; intros m n b pre ip post Hap HL; [by rewrite app_nil_r|].
  apply list.Forall_cons in HL as [[Hne Hx] HL].
  replace (pre ++ x :: L) with ((pre ++ [x]) ++ L) by by rewrite <-app_assoc.
  apply (IH (insert_at (Before (i_id ip)) x m)); [|done]. by apply at_point_insert.
Qed.
(** Straight-line code appears just before the point. *)
Lemma at_point_straight s L s' b pre ip post :
  at_point (Mod s) (fresh s) b pre ip post -> straight (i_id ip) s L s' ->
  at_point (Mod s') (fresh s') b (pre ++ L) ip post.
Proof.
  intros Hap [-> Hf HL]. pose proof (at_point_ip _ _ _ _ _ _ Hap).
  apply at_point_inserted'; [by eapply at_point_mono|].
  eapply list.Forall_impl; [exact HL|]. cbn. lia.
Qed.

(** *** Splitting a block *)

Lemma head_filter_unique {A} (P : A -> Prop) `{!forall x, Decision (P x)} (l : list A) x :
  x ∈ l -> P x -> (forall y, y ∈ l -> P y -> y = x) -> head (filter P l) = Some x.
Proof.
  intros Hx Px Hu. destruct (filter P l) as [|y r] eqn:E.
  - assert (Hf : x ∈ filter P l) by by apply list_elem_of_filter.
    rewrite E in Hf. by apply elem_of_nil in Hf.
  - assert (Hy : y ∈ filter P l) by (rewrite E; left).
    apply list_elem_of_filter in Hy as [??]. cbn. by rewrite (Hu y).
Qed.

Definition is_phi (i : inst) : bool := match i_kind i with IPhi _ => true | _ => false end.
Definition no_phi (l : list inst) : Prop := Forall (fun i => is_phi i = false) l.
Lemma rename_no_phi f t l : no_phi l -> on_kind (phi_rename f t) <$> l = l.
Proof.
  induction 1 as [|i l Hi _ IH]; [done|]. rewrite fmap_cons, IH. f_equal.
  destruct i as [p k ty]. unfold is_phi in Hi. cbn in *. by destruct k.
Qed.
Lemma rename_ids f t l : ids (on_kind (phi_rename f t) <$> l) = ids l.
Proof. unfold ids. rewrite <-list_fmap_compose. by apply list_fmap_ext. Qed.

(** A change that touches phis only. *)
Record phi_only (r : list inst -> list inst) : Prop := {
  po_same l : no_phi l -> r l = l;
  po_app l k : r (l ++ k) = r l ++ r k;
  po_ids l : ids (r l) = ids l
}.
Lemma phi_only_id : phi_only (fun l => l).
Proof. done. Qed.

Section Split.
Context (m : module) (n b : Z) (pre : list inst) (ip : inst) (post : list inst)
  (Hap : at_point m n b pre ip post) (tailb : Z) (term : inst) (mids : list block)
  (Htail : n <= tailb) (Hmids : Forall (fun c => n <= b_id c /\ b_id c <> tailb) mids).

Let split := split_block (i_id ip) tailb term mids.

Lemma split_here : split (mkBlock b (pre ++ ip :: post)) =
  mkBlock b (pre ++ [term]) :: mids ++ [mkBlock tailb (ip :: post)].
Proof.
  unfold split, split_block. cbn [b_insts]. rewrite split_at_here; [done|done|]. apply Hap.
Qed.
Lemma split_elsewhere c : c ∈ mod_blocks m -> c <> mkBlock b (pre ++ ip :: post) -> split c = [c].
Proof.
  intros Hc Hne. unfold split, split_block. rewrite df_split_at_notin; [done|].
  intros Hin. pose proof (ap_only _ _ _ _ _ _ Hap c Hc Hin) as Hb.
  by apply Hne, (ap_block _ _ _ _ _ _ Hap).
Qed.
(** Where a block of the split function comes from. *)
Lemma split_origin c0 c1 :
  c0 ∈ mod_blocks m -> c1 ∈ split c0 ->
  (c0 = mkBlock b (pre ++ ip :: post) /\
    (c1 = mkBlock b (pre ++ [term]) \/ c1 ∈ mids \/ c1 = mkBlock tailb (ip :: post))) \/
  (c0 <> mkBlock b (pre ++ ip :: post) /\ c1 = c0 /\ b_id c1 <> b /\ b_id c1 < n).
Proof.
  intros Hc0 Hc1. destruct (decide (b_id c0 = b)) as [Hb|Hb].
  - left. assert (c0 = mkBlock b (pre ++ ip :: post)) as ->
      by by apply (ap_block _ _ _ _ _ _ Hap).
    split; [done|]. rewrite split_here, elem_of_cons, elem_of_app, list_elem_of_singleton in Hc1.
    naive_solver.
  - right. assert (Hne : c0 <> mkBlock b (pre ++ ip :: post)) by (intros ->; by apply Hb).
    rewrite split_elsewhere, list_elem_of_singleton in Hc1 by done. subst c1.
    split_and!; try done. by apply (ap_blocks _ _ _ _ _ _ Hap).
Qed.
Lemma fun_blocks_mod g c : g ∈ m_funs m -> c ∈ fn_blocks g -> c ∈ mod_blocks m.
Proof. intros. apply list_elem_of_bind. eauto. Qed.

Lemma split_succs g :
  g ∈ m_funs m -> mkBlock b (pre ++ ip :: post) ∈ fn_blocks g ->
  fun_succs (c ← fn_blocks g; split c) tailb = block_succs (mkBlock b (pre ++ ip :: post)).
Proof.
  intros Hg Hb. unfold fun_succs.
  rewrite (head_filter_unique _ _ (mkBlock tailb (ip :: post))).
  - by rewrite block_succs_tail.
  - apply list_elem_of_bind. eexists. split; [|exact Hb]. rewrite split_here.
    apply elem_of_cons. right. apply elem_of_app. right. by apply list_elem_of_singleton.
  - done.
  - intros c1 (c0 & Hc1 & Hc0)%list_elem_of_bind Hid.
    pose proof (ap_blocks _ _ _ _ _ _ Hap _ (proj1 (ap_block _ _ _ _ _ _ Hap))) as Hbn. cbn in Hbn.
    destruct (split_origin c0 c1) as [(_ & [->|[Hm| ->]])|(_ & -> & _ & ?)]; try done.
    + by eapply fun_blocks_mod.
    + cbn in Hid. lia.
    + rewrite list.Forall_forall in Hmids. by apply Hmids in Hm as [_ ?].
    + lia.
Qed.

Let m' := map_blocks (split_fun (i_id ip) b tailb term mids) m.
Let ren := on_insts (fmap (on_kind (phi_rename b tailb))).

Lemma split_member c :
  c ∈ mod_blocks m' <-> exists g c0 c1, g ∈ m_funs m /\ c0 ∈ fn_blocks g /\ c1 ∈ split c0 /\
    c = (if bool_decide (b_id c1 ∈ fun_succs (c ← fn_blocks g; split c) tailb) then ren c1 else c1).
Proof.
  unfold m'. rewrite mod_blocks_map_blocks, list_elem_of_bind. unfold split_fun, rename_phis.
  setoid_rewrite list_elem_of_fmap. setoid_rewrite list_elem_of_bind. naive_solver.
Qed.
Lemma owner : exists g, g ∈ m_funs m /\ mkBlock b (pre ++ ip :: post) ∈ fn_blocks g.
Proof.
  pose proof (proj1 (ap_block _ _ _ _ _ _ Hap)) as Hin.
  apply list_elem_of_bind in Hin as (g & Hg & Hin). eauto.
Qed.

(** The first half ends in the new terminator; its phis may have been renamed. *)
Lemma split_head : is_phi term = false ->
  exists r, phi_only r /\ is_block m' b (r pre ++ [term]).
Proof.
  intros Ht.
  pose proof (ap_blocks _ _ _ _ _ _ Hap _ (proj1 (ap_block _ _ _ _ _ _ Hap))) as Hbn. cbn in Hbn.
  set (S := block_succs (mkBlock b (pre ++ ip :: post))).
  exists (if bool_decide (b ∈ S) then fmap (on_kind (phi_rename b tailb)) else id).
  split.
  - split; [intros l Hl|intros l k|intros l]; case_bool_decide; try done;
      [by apply rename_no_phi|by rewrite fmap_app|by apply rename_ids].
  - assert (Hren : forall c1 : block, c1 = mkBlock b (pre ++ [term]) ->
      (if bool_decide (b_id c1 ∈ S) then ren c1 else c1) =
      mkBlock b ((if bool_decide (b ∈ S) then fmap (on_kind (phi_rename b tailb)) else id) pre ++ [term])).
    { intros c1 ->. cbn [b_id]. case_bool_decide; [|done]. unfold ren, on_insts. cbn [b_id b_insts].
      rewrite fmap_app, (rename_no_phi _ _ [term]); [done|]. by constructor. }
    split.
    + apply split_member. destruct owner as (g & Hg & Hb). exists g, (mkBlock b (pre ++ ip :: post)), (mkBlock b (pre ++ [term])).
      rewrite split_succs by done. split_and!; [done..| |by rewrite Hren]. rewrite split_here. left.
    + intros c (g & c0 & c1 & Hg & Hc0 & Hc1 & Ec)%split_member Hid.
      assert (Hid1 : b_id c1 = b) by (subst c; by case_bool_decide).
      destruct (split_origin c0 c1) as [(-> & [->|[Hm| ->]])|(_ & _ & ? & _)];
        [by eapply fun_blocks_mod|done| | | |done].
      * by rewrite split_succs, Hren in Ec.
      * rewrite list.Forall_forall in Hmids. apply Hmids in Hm as [? _]. lia.
      * cbn in Hid1. lia.
Qed.

(** A block without phis that is unchanged, or new, is a block of the result. *)
Lemma split_same c l :
  (forall g c0 c1, g ∈ m_funs m -> c0 ∈ fn_blocks g -> c1 ∈ split c0 -> b_id c1 = c ->
     c1 = mkBlock c l) ->
  (exists g c0, g ∈ m_funs m /\ c0 ∈ fn_blocks g /\ mkBlock c l ∈ split c0) ->
  (no_phi l \/ n <= c /\ c <> b) -> is_block m' c l.
Proof.
  intros Hall (g & c0 & Hg & Hc0 & Hin) Hp.
  assert (Hren : forall h k1, h ∈ m_funs m -> mkBlock c l = k1 ->
    (exists k0, k0 ∈ fn_blocks h /\ k1 ∈ split k0) ->
    (if bool_decide (b_id k1 ∈ fun_succs (c ← fn_blocks h; split c) tailb) then ren k1 else k1) =
    mkBlock c l).
  { intros h k1 Hh <- (k0 & Hk0 & Hk1). cbn [b_id]. case_bool_decide as Hs; [|done].
    destruct Hp as [Hp|[Hc Hcb]].
    - unfold ren, on_insts. cbn. by rewrite rename_no_phi.
    - exfalso. destruct (split_origin k0 (mkBlock c l)) as [(-> & _)|(_ & _ & _ & ?)];
        [by eapply fun_blocks_mod|done| |cbn in *; lia].
      rewrite split_succs in Hs by done. pose proof (ap_succs _ _ _ _ _ _ Hap) as Hsu.
      rewrite list.Forall_forall in Hsu. apply Hsu in Hs. lia. }
  split.
  - apply split_member. exists g, c0, (mkBlock c l). split_and!; try done. symmetry. apply Hren; eauto.
  - intros d (h & k0 & k1 & Hh & Hk0 & Hk1 & ->)%split_member Hid.
    assert (Hid1 : b_id k1 = c) by (revert Hid; by case_bool_decide).
    pose proof (Hall h k0 k1 Hh Hk0 Hk1 Hid1) as E. apply Hren; eauto.
Qed.
Lemma split_tail : is_block m' tailb (ip :: post).
Proof.
  pose proof (ap_blocks _ _ _ _ _ _ Hap _ (proj1 (ap_block _ _ _ _ _ _ Hap))) as Hbn. cbn in Hbn.
  apply split_same; [| |right; lia].
  - intros g c0 c1 Hg Hc0 Hc1 Hid.
    destruct (split_origin c0 c1) as [(_ & [->|[Hm| ->]])|(_ & _ & _ & ?)];
      [by eapply fun_blocks_mod|done|cbn in Hid; lia| |done|lia].
    rewrite list.Forall_forall in Hmids. by apply Hmids in Hm as [_ ?].
  - destruct owner as (g & Hg & Hb). eexists g, _. split_and!; [done|exact Hb|].
    rewrite split_here. apply elem_of_cons. right. apply elem_of_app. right.
    by apply list_elem_of_singleton.
Qed.
Lemma split_mid c l :
  mkBlock c l ∈ mids -> (forall d, d ∈ mids -> b_id d = c -> d = mkBlock c l) -> is_block m' c l.
Proof.
  intros Hin Hun.
  pose proof (ap_blocks _ _ _ _ _ _ Hap _ (proj1 (ap_block _ _ _ _ _ _ Hap))) as Hbn. cbn in Hbn.
  destruct (proj1 (list.Forall_forall _ _) Hmids _ Hin) as [H1 H2]. cbn in H1, H2.
  apply split_same; [| |right; lia].
  - intros g c0 c1 Hg Hc0 Hc1 Hid.
    destruct (split_origin c0 c1) as [(_ & [->|[Hm| ->]])|(_ & _ & _ & ?)];
      [by eapply fun_blocks_mod|done|cbn in Hid; lia|by apply Hun|by cbn in Hid|lia].
  - destruct owner as (g & Hg & Hb). eexists g, _. split_and!; [done|exact Hb|].
    rewrite split_here. apply elem_of_cons. right. apply elem_of_app. by left.
Qed.
Lemma split_other c l : c <> b -> no_phi l -> is_block m c l -> is_block m' c l.
Proof.
  intros Hne Hp [Hin Hun]. apply split_same; [| |by left].
  - intros g c0 c1 Hg Hc0 Hc1 Hid. pose proof (ap_blocks _ _ _ _ _ _ Hap _ Hin) as Hcn. cbn in Hcn.
    destruct (split_origin c0 c1) as [(_ & [->|[Hm| ->]])|(_ & -> & _ & ?)];
      [by eapply fun_blocks_mod|done|by cbn in Hid| |cbn in Hid; lia|].
    + rewrite list.Forall_forall in Hmids. apply Hmids in Hm as [? _]. lia.
    + apply Hun; [by eapply fun_blocks_mod|done].
  - apply list_elem_of_bind in Hin as (g & Hb & Hg). exists g, (mkBlock c l). split_and!; [done..|].
    rewrite split_elsewhere; [by left| |intros [= ? _]; congruence].
    by eapply fun_blocks_mod.
Qed.
End Split.

(** *** New blocks *)

(** All addresses of the module are below [n]. *)
Definition mod_below (m : module) (n : Z) : Prop :=
  forall c, c ∈ mod_blocks m -> b_id c < n /\ Forall (fun i => i_id i < n) (b_insts c).
Lemma at_point_below m n b pre ip post : at_point m n b pre ip post -> mod_below m n.
Proof. intros Hap c Hc. split; [by apply Hap|by apply Hap]. Qed.
Lemma is_block_below m n b l :
  mod_below m n -> is_block m b l -> b < n /\ Forall (fun i => i_id i < n) l.
Proof. intros Hm [Hin _]. apply Hm in Hin. done. Qed.
Lemma mod_below_mono m n n' : n <= n' -> mod_below m n -> mod_below m n'.
Proof.
  intros Hn Hm c Hc. destruct (Hm c Hc) as [H1 H2]. split; [lia|].
  eapply list.Forall_impl; [exact H2|]. cbn. lia.
Qed.
Lemma mod_below_map f m n :
  mod_below m n -> (forall c, c ∈ mod_blocks m -> b_id (f c) < n /\ Forall (fun i => i_id i < n) (b_insts (f c))) ->
  mod_below (map_blocks (fmap f) m) n.
Proof. intros Hm Hf c. rewrite mod_blocks_map. intros (c0 & -> & Hc)%list_elem_of_fmap. auto. Qed.

Definition has_fun (m : module) (f : Z) : Prop := exists g, g ∈ m_funs m /\ fn_id g = f.
Lemma has_fun_map (h : func -> func) m f :
  (forall g, fn_id (h g) = fn_id g) -> has_fun m f -> has_fun (with_funs (fmap h) m) f.
Proof.
  intros Hh (g & Hg & <-). exists (h g). split; [|done]. apply list_elem_of_fmap. eauto.
Qed.

Definition add_block (f nb : Z) (m : module) : module :=
  with_funs (fmap (fun g => if fn_id g =? f then on_blocks (fun bs => bs ++ [mkBlock nb []]) g else g)) m.
Lemma add_block_member f nb m c :
  c ∈ mod_blocks (add_block f nb m) <-> c ∈ mod_blocks m \/ c = mkBlock nb [] /\ has_fun m f.
Proof.
  unfold mod_blocks, add_block, with_funs, has_fun. cbn. induction (m_funs m) as [|g l IH].
  - cbn. setoid_rewrite elem_of_nil. naive_solver.
  - cbn. rewrite !elem_of_app, IH. setoid_rewrite elem_of_cons.
    destruct (Z.eqb_spec (fn_id g) f) as [<-|Hne]; cbn; rewrite ?elem_of_app, ?list_elem_of_singleton;
      naive_solver.
Qed.
Lemma add_block_new f nb m n :
  mod_below m n -> n <= nb -> has_fun m f -> is_block (add_block f nb m) nb [].
Proof.
  intros Hm Hn Hf. split; [by apply add_block_member; right|].
  intros c [Hc|[-> _]]%add_block_member Hid; [|done]. apply Hm in Hc as [? _]. lia.
Qed.
Lemma add_block_old f nb m b l : nb <> b -> is_block m b l -> is_block (add_block f nb m) b l.
Proof.
  intros Hne [Hin Hun]. split; [by apply add_block_member; left|].
  intros c [Hc|[-> _]]%add_block_member Hid; [by apply Hun|done].
Qed.
Lemma add_block_below f nb m n n' :
  mod_below m n -> nb < n' -> n <= n' -> mod_below (add_block f nb m) n'.
Proof.
  intros Hm Hb Hn c [Hc|[-> _]]%add_block_member; [|by split; [|constructor]].
  by apply (mod_below_mono m n n').
Qed.
Lemma add_block_point f nb m n b pre ip post :
  at_point m n b pre ip post -> n <= nb -> at_point (add_block f nb m) (nb + 1) b pre ip post.
Proof.
  intros Hap Hn.
  pose proof (at_point_mono m n (nb + 1) b pre ip post ltac:(lia) Hap) as [Hb Hf Ho Hbs Hi Hs].
  pose proof (ap_blocks _ _ _ _ _ _ Hap _ (proj1 Hb)) as Hbn. cbn in Hbn.
  split; try done.
  - apply add_block_old; [lia|done].
  - intros c [Hc|[-> _]]%add_block_member; [by apply Ho|]. cbn. by intros ?%elem_of_nil.
  - intros c [Hc|[-> _]]%add_block_member; [by apply Hbs|cbn; lia].
  - intros c [Hc|[-> _]]%add_block_member; [by apply Hi|constructor].
Qed.

(** Code that is inserted before [Pos] leaves other blocks alone. *)
Lemma is_block_inserted Pos L : forall m b l,
  is_block m b l -> Pos ∉ ids l -> is_block (inserted Pos L m) b l.
Proof.
  unfold inserted. induction L as [|x L IH]; intros m b l Hb HP; cbn [fold_left]; [done|].
  apply IH; [|done]. rewrite <-(df_ins_before_notin Pos x l) by done. by apply is_block_map_insts.
Qed.
Lemma has_fun_inserted Pos L : forall m f, has_fun m f -> has_fun (inserted Pos L m) f.
Proof.
  unfold inserted. induction L as [|x L IH]; intros m f Hf; cbn [fold_left]; [done|].
  apply IH. by apply has_fun_map.
Qed.

(** An instruction at the end of another block. *)
Definition at_end (c : Z) (x : inst) (d : block) : block :=
  if b_id d =? c then on_insts (fun l => l ++ [x]) d else d.
Lemma at_end_id c x d : b_id (at_end c x d) = b_id d.
Proof. unfold at_end. by destruct (b_id d =? c). Qed.
Lemma at_end_ids c x d : b_insts (at_end c x d) = b_insts d \/ b_insts (at_end c x d) = b_insts d ++ [x].
Proof. unfold at_end. destruct (b_id d =? c); auto. Qed.
Lemma insert_end_below c x m n :
  mod_below m n -> i_id x < n -> mod_below (insert_at (AtEnd c) x m) n.
Proof.
  intros Hm Hx. apply (mod_below_map (at_end c x)); [done|]. intros d Hd. destruct (Hm d Hd) as [H1 H2].
  rewrite at_end_id. split; [done|]. destruct (at_end_ids c x d) as [-> | ->]; [done|].
  apply Forall_app. split; [done|by constructor].
Qed.
Lemma insert_before_below p x m n :
  mod_below m n -> i_id x < n -> mod_below (insert_at (Before p) x m) n.
Proof.
  intros Hm Hx. apply mod_below_map; [done|]. intros d Hd. destruct (Hm d Hd) as [H1 H2].
  split; [done|]. by apply ins_before_below.
Qed.
Lemma set_kind_below p f m n : mod_below m n -> mod_below (map_insts (fmap (set_kind p f)) m) n.
Proof.
  intros Hm. apply mod_below_map; [done|]. intros d Hd. destruct (Hm d Hd) as [H1 H2].
  split; [done|]. cbn. apply Forall_fmap. eapply list.Forall_impl; [exact H2|].
  intros i Hi. cbn. unfold set_kind. by destruct (i_id i =? p).
Qed.
Lemma insert_end_point c x m n b pre ip post :
  at_point m n b pre ip post -> c <> b -> i_id x <> i_id ip -> i_id x < n ->
  at_point (insert_at (AtEnd c) x m) n b pre ip post.
Proof.
  intros Hap Hc Hne Hx. pose proof (insert_end_below c x m n (at_point_below _ _ _ _ _ _ Hap) Hx) as Hbel.
  destruct Hap as [Hb Hf Ho Hbs Hi Hs]. split; try done.
  - by apply is_block_end_other.
  - intros d. unfold insert_at. rewrite mod_blocks_map. intros (d0 & -> & Hd)%list_elem_of_fmap.
    change (i_id ip ∈ ids (b_insts (at_end c x d0)) -> b_id (at_end c x d0) = b). rewrite at_end_id.
    destruct (at_end_ids c x d0) as [-> | ->]; [by apply Ho|].
    rewrite ids_app, elem_of_app. intros [Hin|Hin]; [by apply Ho|]. cbn in Hin.
    rewrite list_elem_of_singleton in Hin. congruence.
  - intros d Hd. by apply Hbel.
  - intros d Hd. by apply Hbel.
Qed.

(** *** Running *)

Section Run.
Context {T OS : Type} `{LabelStore T} (env : menv) (t : tables).
Implicit Types (m : mach T OS).

Definition is_branch (k : ikind) : bool :=
  match k with IBr _ | ICondBr _ _ _ | IPhi _ => true | _ => false end.
Lemma exec_inst_branch i m m' : exec_inst env t i m = Ok m' -> is_branch (i_kind i) = false.
Proof. unfold exec_inst. by destruct (i_kind i). Qed.
(** Straight-line code runs to its end and goes on. *)
Lemma run_straight md stop cur L : forall rest m m' k,
  exec_list env t L m = Ok m' -> stop ∉ ids L ->
  run env t (length L + k) md stop cur (L ++ rest) m = run env t k md stop cur rest m'.
Proof.
  induction L as [|i L IH]; intros rest m m' k; cbn [exec_list].
  - by intros [= <-].
  - intros E Hs. unfold ids in Hs. rewrite fmap_cons, not_elem_of_cons in Hs. destruct Hs as [Hne Hs].
    destruct (exec_inst env t i m) as [m1|] eqn:E1; [|done].
    change ((i :: L) ++ rest) with (i :: (L ++ rest)).
    cbn [length Nat.add run]. destruct (Z.eqb_spec (i_id i) stop); [congruence|].
    rewrite <-(IH rest m1 m' k) by done. pose proof (exec_inst_branch _ _ _ E1).
    rewrite E1. by destruct (i_kind i).
Qed.
Lemma exec_no_phi L : forall m m', exec_list env t L m = Ok m' -> no_phi L.
Proof.
  induction L as [|i L IH]; intros m m'; cbn [exec_list]; [constructor|].
  destruct (exec_inst env t i m) as [m1|] eqn:E1; [|done]. intros E. constructor; [|by eapply IH].
  apply exec_inst_branch in E1. unfold is_phi. by destruct (i_kind i).
Qed.
Lemma run_stop md stop cur i rest m k : i_id i = stop -> run env t (S k) md stop cur (i :: rest) m = Ok m.
Proof. intros <-. cbn. by rewrite Z.eqb_refl. Qed.
End Run.

(** Running the module of [s'] from where the code begins that was put before the
    instruction [Pos] of block [b], the machine arrives at [Pos] in a state that [Q]
    describes.  [pre] is what was in front of [Pos]; phis in it may have new names of
    blocks. *)
Definition reaches {T OS} `{LabelStore T} (env : menv) (s s' : dst) (b : Z) (pre : list inst)
  (Pos : Z) (m : mach T OS) (Q : mach T OS -> Prop) : Prop :=
  exists r code fuel m', phi_only r /\ is_block (Mod s') b (r pre ++ code) /\
    run env (tab s) fuel (Mod s') Pos b code m = Ok m' /\ keep (fresh s) m m' /\ Q m'.

Lemma spec_reaches {T OS A} `{LabelStore T} (env : menv) (g : D A) s b pre ip post (m : mach T OS)
  (Q : A -> dst -> mach T OS -> Prop) :
  at_point (Mod s) (fresh s) b pre ip post -> spec env (i_id ip) g s m Q ->
  exists a s', g s = Ok (a, s') /\ reaches env s s' b pre (i_id ip) m (Q a s').
Proof.
  intros Hap (a & L & s' & m' & E & HL & EL & Hk & HQ). exists a, s'. split; [done|].
  exists (fun l => l), (L ++ ip :: post), (length L + 1)%nat, m'.
  pose proof (at_point_straight _ _ _ _ _ _ _ Hap HL) as Hap'.
  pose proof (ap_first _ _ _ _ _ _ Hap') as Hf. rewrite ids_app, not_elem_of_app in Hf.
  split_and!; try done.
  - pose proof (ap_block _ _ _ _ _ _ Hap') as Hb. by rewrite <-app_assoc in Hb.
  - rewrite (run_straight _ _ _ _ _ _ _ _ m') by naive_solver. by apply run_stop.
Qed.
Lemma reaches_mono {T OS} `{LabelStore T} (env : menv) s s' b pre Pos (m : mach T OS)
  (Q Q' : mach T OS -> Prop) :
  reaches env s s' b pre Pos m Q -> (forall m', Q m' -> Q' m') -> reaches env s s' b pre Pos m Q'.
Proof. intros (r & code & fuel & m' & H1 & H2 & H3 & H4 & H5) HQ. exists r, code, fuel, m'. auto 10. Qed.
(** Straight-line code first. *)
Lemma reaches_prefix {T OS} `{LabelStore T} (env : menv) s L s1 s' b pre ip post (m m1 : mach T OS) Q :
  at_point (Mod s) (fresh s) b pre ip post -> straight (i_id ip) s L s1 ->
  exec_list env (tab s) L m = Ok m1 -> keep (fresh s) m m1 ->
  reaches env s1 s' b (pre ++ L) (i_id ip) m1 Q -> reaches env s s' b pre (i_id ip) m Q.
Proof.
  intros Hap HL EL Hk (r & code & fuel & m' & Hr & Hb & Hrun & Hk2 & HQ).
  exists r, (L ++ code), (length L + fuel)%nat, m'.
  pose proof (at_point_straight _ _ _ _ _ _ _ Hap HL) as Hap'.
  pose proof (ap_first _ _ _ _ _ _ Hap') as Hf. rewrite ids_app, not_elem_of_app in Hf.
  split_and!; try done.
  - rewrite (po_app _ Hr), (po_same _ Hr L), <-app_assoc in Hb; [done|]. by eapply exec_no_phi.
  - rewrite (run_straight _ _ _ _ _ _ _ _ m1) by naive_solver.
    by rewrite (proj1 (straight_fields _ _ _ _ HL)) in Hrun.
  - eapply keep_trans; eauto. apply HL.
Qed.

Lemma at_point_block_of m n b pre ip post :
  at_point m n b pre ip post -> block_of m (i_id ip) = Some (mkBlock b (pre ++ ip :: post)).
Proof.
  intros Hap. apply head_filter_unique.
  - apply Hap.
  - cbn. rewrite fmap_app, elem_of_app. right. left.
  - intros c Hc Hin. by apply Hap, Hap.
Qed.
Lemma is_block_front m b i l : is_block m b (i :: l) ->
  forall s, Mod s = m -> block_front b s = Ok (i_id i, s).
Proof.
  intros Hb s <-. unfold block_front, bind, gets, deref. by rewrite (is_block_find _ _ _ Hb).
Qed.

Section SplitBelow.
Context (m : module) (n b : Z) (pre : list inst) (ip : inst) (post : list inst)
  (Hap : at_point m n b pre ip post) (tailb : Z) (term : inst) (mids : list block)
  (Htail : n <= tailb) (Hmids : Forall (fun c => n <= b_id c /\ b_id c <> tailb) mids).
Lemma split_below n' :
  tailb < n' -> i_id term < n' -> n <= n' ->
  Forall (fun c => b_id c < n' /\ Forall (fun i => i_id i < n') (b_insts c)) mids ->
  mod_below (map_blocks (split_fun (i_id ip) b tailb term mids) m) n'.
Proof.
  intros H1 H2 H3 H4 c (g & c0 & c1 & Hg & Hc0 & Hc1 & ->)%split_member.
  pose proof (at_point_below _ _ _ _ _ _ Hap) as Hm. apply (mod_below_mono _ _ n') in Hm; [|done].
  assert (Hall : b_id c1 < n' /\ Forall (fun i => i_id i < n') (b_insts c1)).
  { pose proof (Hm _ (proj1 (ap_block _ _ _ _ _ _ Hap))) as [Hb Hl]. cbn in Hb, Hl.
    rewrite Forall_app in Hl. destruct Hl as [Hpre Hpost].
    destruct (split_origin m n b pre ip post Hap tailb term mids c0 c1) as [(_ & [->|[Hin| ->]])|(_ & -> & _ & _)];
      [by eapply fun_blocks_mod|done| | | |by apply Hm; eapply fun_blocks_mod].
    - cbn. split; [done|]. apply Forall_app. split; [done|by constructor].
    - by apply (proj1 (list.Forall_forall _ _) H4).
    - by cbn. }
  case_bool_decide; [|done]. destruct Hall as [Hb Hl]. split; [done|]. cbn.
  apply Forall_fmap. eapply list.Forall_impl; [exact Hl|]. by intros.
Qed.
(** The point is now at the head of the second half. *)
Lemma df_split_point n' :
  tailb < n' -> i_id term < n' -> n <= n' -> i_id term <> i_id ip ->
  Forall (fun c => b_id c < n' /\ Forall (fun i => i_id i < n') (b_insts c) /\ i_id ip ∉ ids (b_insts c)) mids ->
  at_point (map_blocks (split_fun (i_id ip) b tailb term mids) m) n' tailb [] ip post.
Proof.
  intros H1 H2 H3 H4 H5.
  assert (Hbel : mod_below (map_blocks (split_fun (i_id ip) b tailb term mids) m) n').
  { apply split_below; try done. eapply list.Forall_impl; [exact H5|]. naive_solver. }
  split.
  - by apply split_tail with (1 := Hap).
  - apply not_elem_of_nil.
  - intros c (g & c0 & c1 & Hg & Hc0 & Hc1 & ->)%split_member Hin.
    assert (Hin1 : i_id ip ∈ ids (b_insts c1)).
    { revert Hin. case_bool_decide; [|done]. cbn. by rewrite rename_ids. }
    enough (E : b_id c1 = tailb) by by case_bool_decide.
    destruct (split_origin m n b pre ip post Hap tailb term mids c0 c1) as [(_ & [->|[Hm| ->]])|(Hne & -> & _ & _)];
      [by eapply fun_blocks_mod|done| | |done|].
    + cbn in Hin1. rewrite ids_app, elem_of_app in Hin1. destruct Hin1 as [Hin1|Hin1].
      * by apply (ap_first _ _ _ _ _ _ Hap) in Hin1.
      * cbn in Hin1. rewrite list_elem_of_singleton in Hin1. by rewrite Hin1 in H4.
    + by apply (proj1 (list.Forall_forall _ _) H5) in Hm as (_ & _ & ?).
    + assert (Hc : c0 ∈ mod_blocks m) by by eapply fun_blocks_mod.
      destruct Hne. apply (ap_block _ _ _ _ _ _ Hap); [done|]. by eapply ap_only with (1 := Hap).
  - intros c Hc. by apply Hbel.
  - intros c Hc. by apply Hbel.
  - pose proof (ap_succs _ _ _ _ _ _ Hap) as Hs. rewrite block_succs_tail in Hs.
    cbn [Datatypes.app]. eapply list.Forall_impl; [exact Hs|]. cbn. lia.
Qed.
End SplitBelow.

(** An instruction in front of one of another block. *)
Lemma insert_elsewhere_point q x m n b pre ip post :
  at_point m n b pre ip post -> q ∉ ids (pre ++ ip :: post) -> i_id x <> i_id ip -> i_id x < n ->
  at_point (insert_at (Before q) x m) n b pre ip post.
Proof.
  intros Hap Hq Hne Hx. pose proof (insert_before_below q x m n (at_point_below _ _ _ _ _ _ Hap) Hx) as Hbel.
  destruct Hap as [Hb Hf Ho Hbs Hi Hs]. split; try done.
  - rewrite <-(df_ins_before_notin q x (pre ++ ip :: post)) by done. by apply is_block_map_insts.
  - intros c. rewrite mod_blocks_insert. intros (c0 & -> & Hc)%list_elem_of_fmap. cbn.
    intros [E|Hin]%ins_before_ids; [congruence|eauto].
  - intros c Hc. by apply Hbel.
  - intros c Hc. by apply Hbel.
Qed.
