(* ===== verification/DfsanPassLoad.v ===== *)
(** * Loads of instrumented code

    The code that [loadShadow] of [DFSanPass.cc] emits.  Its fast path compares the
    shadow two labels at a time in a chain of blocks and falls back on a call of
    [__dfsan_union_load]; the theorem says that on every path the result is a label
    for exactly the offsets of the bytes that are loaded. *)

From S2P Require Import Prelude CMem Dfsan DfsanIr DfsanPass DfsanPassMach.
From S2P Require Import DfsanPassBlocks DfsanPassMem.
Local Open Scope Z_scope.

(** ** The chain of blocks *)

Definition retarget (nb : Z) (k : ikind) : ikind :=
  match k with ICondBr c _ f => ICondBr c nb f | _ => k end.

(** A round of the chain: its block, the code in front of the branch, the condition
    and the branch. *)
Record round := mkRound { r_bb : Z; r_body : list inst; r_cond : value; r_br : Z }.

(** The blocks of the chain: each goes on to the next one or to [FB], the last one to
    [Tail]. *)
Fixpoint linked (m : module) (FB Tail bb : Z) (hd : list inst) (br : Z) (c : value)
  (chain : list round) : Prop :=
  match chain with
  | [] => is_block m bb (hd ++ [mkInst br (ICondBr c Tail FB) TVoid])
  | r :: rest =>
      is_block m bb (hd ++ [mkInst br (ICondBr c (r_bb r) FB) TVoid]) /\
      linked m FB Tail (r_bb r) (r_body r) (r_br r) (r_cond r) rest
  end.
Fixpoint chain_end (bb br : Z) (chain : list round) : Z * Z :=
  match chain with [] => (br, bb) | r :: rest => chain_end (r_bb r) (r_br r) rest end.

(** Keeping track of a block while others change. *)
Definition frame (m m' : module) (n bb br : Z) : Prop :=
  forall X l, is_block m X l -> X <> bb -> br ∉ ids l -> Forall (fun i => i_id i < n) l -> X < n ->
    is_block m' X l.

Lemma linked_mono (m m' : module) FB Tail chain : forall bb hd br c,
  (forall X l, is_block m X l -> X ∈ bb :: (r_bb <$> chain) -> is_block m' X l) ->
  linked m FB Tail bb hd br c chain -> linked m' FB Tail bb hd br c chain.
Proof.
  induction chain as [|r chain IH]; intros bb hd br c Hm; cbn [linked].
  - intros Hb. apply Hm; [done|left].
  - intros [Hb Hl]. split; [apply Hm; [done|left]|].
    apply (IH (r_bb r)); [|done]. intros X l HX Hin. apply Hm; [done|]. by right.
Qed.

(** *** Code at the end of a block *)

Lemma end_list_same L : forall m b l,
  is_block m b l -> is_block (fold_left (fun m x => insert_at (AtEnd b) x m) L m) b (l ++ L).
Proof.
  induction L as [|x L IH]; intros m b l Hb; cbn [fold_left]; [by rewrite app_nil_r|].
  replace (l ++ x :: L) with ((l ++ [x]) ++ L) by by rewrite <-app_assoc.
  by apply IH, is_block_end_same.
Qed.
Lemma end_list_other L : forall m b b' l,
  b' <> b -> is_block m b l -> is_block (fold_left (fun m x => insert_at (AtEnd b') x m) L m) b l.
Proof.
  induction L as [|x L IH]; intros m b b' l Hne Hb; cbn [fold_left]; [done|].
  by apply IH, is_block_end_other.
Qed.
Lemma end_list_below L : forall m b n,
  mod_below m n -> Forall (fun i => i_id i < n) L ->
  mod_below (fold_left (fun m x => insert_at (AtEnd b) x m) L m) n.
Proof.
  induction L as [|x L IH]; intros m b n Hm HL; cbn [fold_left]; [done|].
  apply list.Forall_cons in HL as [Hx HL]. apply IH; [by apply insert_end_below|done].
Qed.
Lemma end_list_fun L : forall m b f,
  has_fun m f -> has_fun (fold_left (fun m x => insert_at (AtEnd b) x m) L m) f.
Proof.
  induction L as [|x L IH]; intros m b f Hf; cbn [fold_left]; [done|].
  apply IH. by apply has_fun_map.
Qed.
Lemma retarget_br m bb hd br c x y z :
  is_block m bb (hd ++ [mkInst br (ICondBr c x y) TVoid]) -> br ∉ ids hd ->
  is_block (map_insts (fmap (set_kind br (retarget z))) m) bb (hd ++ [mkInst br (ICondBr c z y) TVoid]).
Proof.
  intros Hb Hn. apply (is_block_map_insts (fmap (set_kind br (retarget z)))) in Hb.
  rewrite fmap_app, set_kind_notin in Hb by done. cbn in Hb. unfold set_kind in Hb. cbn in Hb.
  by rewrite Z.eqb_refl in Hb.
Qed.
Lemma retarget_other m X l br z :
  is_block m X l -> br ∉ ids l -> is_block (map_insts (fmap (set_kind br (retarget z))) m) X l.
Proof.
  intros Hb Hn. apply (is_block_map_insts (fmap (set_kind br (retarget z)))) in Hb.
  by rewrite set_kind_notin in Hb.
Qed.

Section Chain.
Context (cfg : config).

(** The code of a round: next address, load, comparison. *)
Definition next_addr (WA : value) (p : Z) : value :=
  if isConstant WA then VGEP (TInt 64) WA 1 None (TPtr (TInt 64)) else VInst p (TPtr (TInt 64)).
Definition round_code (al : Z) (WA WS : value) (p : Z) : list inst :=
  (if isConstant WA then []
   else [mkInst p (IGEP (TInt 64) WA [VInt (IntptrWidth cfg) 1]) (TPtr (TInt 64))]) ++
  [mkInst (p + 1) (ILoad (next_addr WA p) al) (TInt 64);
   mkInst (p + 2) (ICmp 32 WS (VInst (p + 1) (TInt 64))) (TInt 1)].

Definition round_start (WA : value) (n : Z) : Z := if isConstant WA then n else n + 1.
Definition round_mod (al : Z) (WA WS : value) (FB LastBr : Z) (s : dst) : module :=
  let nb := fresh s in
  let p := round_start WA nb in
  let m := fold_left (fun m x => insert_at (AtEnd nb) x m) (round_code al WA WS p)
             (add_block (F (fn s)) nb (Mod s)) in
  insert_at (AtEnd nb) (mkInst (p + 3) (ICondBr (VInst (p + 2) (TInt 1)) FB FB) TVoid)
    (map_insts (fmap (set_kind LastBr (retarget nb))) m).
Definition round_state (al : Z) (WA WS : value) (FB LastBr LastBB : Z) (s : dst) : dst :=
  mkDst (round_mod al WA WS FB LastBr s) (round_start WA (fresh s) + 4) (tab s) (UnwrappedFnMap s)
    (set_DT (addNewBlock (fresh s) LastBB) (fn s)).

Lemma wide_round fuel Ofs Size al WA ws FB LastBr LastBB s :
  Ofs <> Size ->
  let WS := VInst ws (TInt 64) in
  let p := round_start WA (fresh s) in
  wide_compare cfg (S fuel) Ofs Size al WA WS FB LastBr LastBB s =
  wide_compare cfg fuel (Ofs + 2) Size al (next_addr WA p) WS FB (p + 3) (fresh s)
    (round_state al WA WS FB LastBr LastBB s).
Proof.
  intros Hne WS p. cbn [wide_compare]. destruct (Z.eqb_spec Ofs Size); [done|].
  unfold round_state, round_mod, round_code, next_addr, p, round_start. destruct (isConstant WA);
    unfold bind, emit, CreateLoad, CreateICmp, new_block, new_id, modify, ret, gets, with_mod,
      with_fresh, with_fn; cbn; rewrite <-!Z.add_assoc; reflexivity.
Qed.

Lemma round_code_ids al WA WS p :
  Forall (fun i => p <= i_id i < p + 3) (round_code al WA WS p).
Proof. unfold round_code. destruct (isConstant WA); repeat constructor; cbn; lia. Qed.
Lemma ids_range p q l x : Forall (fun i => p <= i_id i < q) l -> x < p \/ q <= x -> x ∉ ids l.
Proof.
  intros Hl Hx (i & -> & Hi)%list_elem_of_fmap. rewrite list.Forall_forall in Hl. apply Hl in Hi. lia.
Qed.

(** What one round leaves behind. *)
Lemma round_facts al WA WS FB LastBr LastBB hd c s :
  mod_below (Mod s) (fresh s) -> has_fun (Mod s) (F (fn s)) ->
  is_block (Mod s) LastBB (hd ++ [mkInst LastBr (ICondBr c FB FB) TVoid]) -> LastBr ∉ ids hd ->
  let p := round_start WA (fresh s) in
  let s1 := round_state al WA WS FB LastBr LastBB s in
  mod_below (Mod s1) (fresh s1) /\ has_fun (Mod s1) (F (fn s1)) /\
  is_block (Mod s1) LastBB (hd ++ [mkInst LastBr (ICondBr c (fresh s) FB) TVoid]) /\
  is_block (Mod s1) (fresh s)
    (round_code al WA WS p ++ [mkInst (p + 3) (ICondBr (VInst (p + 2) (TInt 1)) FB FB) TVoid]) /\
  frame (Mod s) (Mod s1) (fresh s) LastBB LastBr.
Proof.
  intros Hm Hf Hb Hn p s1.
  assert (Hp : fresh s <= p <= fresh s + 1) by (unfold p, round_start; destruct (isConstant WA); lia).
  pose proof (round_code_ids al WA WS p) as Hc.
  destruct (is_block_below _ _ _ _ Hm Hb) as [Hbb Hbr].
  apply Forall_app in Hbr as [_ Hbr]. apply list.Forall_cons in Hbr as [Hbr _]. cbn in Hbr.
  unfold s1, round_state, round_mod. fold p. cbn [Mod fresh fn].
  assert (Hkeep : forall X l, is_block (Mod s) X l -> X <> fresh s ->
    is_block (fold_left (fun m x => insert_at (AtEnd (fresh s)) x m) (round_code al WA WS p)
                (add_block (F (fn s)) (fresh s) (Mod s))) X l).
  { intros X l HX Hne. apply end_list_other; [done|]. by apply add_block_old. }
  split_and!.
  - apply insert_end_below; [|cbn; lia]. apply set_kind_below, end_list_below.
    + apply (add_block_below _ _ _ (fresh s)); [done|lia..].
    + eapply list.Forall_impl; [exact Hc|]. cbn. lia.
  - apply has_fun_map; [done|]. apply has_fun_map; [done|]. apply end_list_fun.
    apply has_fun_map; [|done]. intros g. by destruct (fn_id g =? F (fn s)).
  - apply is_block_end_other; [lia|]. eapply retarget_br; [|done]. apply Hkeep; [done|lia].
  - apply is_block_end_same, retarget_other; [|by apply (ids_range p (p + 3)); [|lia]].
    apply (end_list_same _ _ _ []), (add_block_new _ _ _ (fresh s)); [done|lia|done].
  - intros X l HX Hne Hbrn Hl HXn. apply is_block_end_other; [lia|]. apply retarget_other; [|done].
    apply Hkeep; [done|lia].
Qed.

(** The rounds of a chain that starts at address [WA], with addresses from [n] on. *)
Fixpoint rounds_ok (al : Z) (WA WS : value) (n : Z) (chain : list round) : Prop :=
  match chain with
  | [] => True
  | r :: rest =>
      let p := round_start WA n in
      r = mkRound n (round_code al WA WS p) (VInst (p + 2) (TInt 1)) (p + 3) /\
      rounds_ok al (next_addr WA p) WS (p + 4) rest
  end.
Lemma rounds_bbs al WA WS n chain : rounds_ok al WA WS n chain -> Forall (fun r => n <= r_bb r) chain.
Proof.
  revert WA n. induction chain as [|r chain IH]; intros WA n; cbn [rounds_ok]; [constructor|].
  intros [-> Hr]. constructor; [cbn; lia|]. eapply list.Forall_impl; [by eapply IH|]. cbn.
  unfold round_start. destruct (isConstant WA); lia.
Qed.

(** Running the loop, and then pointing its last branch to [Tail]. *)
Lemma wide_chain al ws FB Tail Size (k : nat) : forall fuel Ofs WA LastBr LastBB hd c s,
  Ofs + 2 * Z.of_nat k = Size -> (k < fuel)%nat ->
  mod_below (Mod s) (fresh s) -> has_fun (Mod s) (F (fn s)) ->
  is_block (Mod s) LastBB (hd ++ [mkInst LastBr (ICondBr c FB FB) TVoid]) -> LastBr ∉ ids hd ->
  let WS := VInst ws (TInt 64) in
  exists chain s1, length chain = k /\ rounds_ok al WA WS (fresh s) chain /\
    wide_compare cfg fuel Ofs Size al WA WS FB LastBr LastBB s =
      Ok (chain_end LastBB LastBr chain, s1) /\
    let m2 := map_insts (fmap (set_kind (chain_end LastBB LastBr chain).1 (retarget Tail))) (Mod s1) in
    linked m2 FB Tail LastBB hd LastBr c chain /\ frame (Mod s) m2 (fresh s) LastBB LastBr /\
    mod_below (Mod s1) (fresh s1) /\ has_fun (Mod s1) (F (fn s1)) /\ fresh s <= fresh s1 /\
    tab s1 = tab s /\ UnwrappedFnMap s1 = UnwrappedFnMap s /\ exists f, fn s1 = set_DT f (fn s).
Proof.
  induction k as [|k IH]; intros fuel Ofs WA LastBr LastBB hd c s Hsz Hfuel Hm Hf Hb Hn WS.
  - exists [], s. destruct fuel as [|fuel]; [lia|]. cbv zeta. split_and!; try done; cbn [wide_compare chain_end linked fst].
    + destruct (Z.eqb_spec Ofs Size); [done|lia].
    + by eapply retarget_br.
    + intros X l HX Hne Hbr _ _. by apply retarget_other.
    + exists id. by destruct (fn s).
  - destruct fuel as [|fuel]; [lia|].
    destruct (round_facts al WA WS FB LastBr LastBB hd c s Hm Hf Hb Hn) as (Hm1 & Hf1 & Hb1 & Hnb & Hfr).
    set (p := round_start WA (fresh s)) in *. set (s1 := round_state al WA WS FB LastBr LastBB s) in *.
    assert (Hp : fresh s <= p <= fresh s + 1) by (unfold p, round_start; destruct (isConstant WA); lia).
    assert (Hfs : fresh s1 = p + 4) by done.
    pose proof (round_code_ids al WA WS p) as Hc.
    destruct (IH fuel (Ofs + 2) (next_addr WA p) (p + 3) (fresh s) (round_code al WA WS p) _ s1
      ltac:(lia) ltac:(lia) Hm1 Hf1 Hnb) as (chain & s2 & Hlen & Hro & E & Hl & Hfr2 & Hm2 & Hf2 & Hfs2 & Ht & Hu & g & Hg).
    { apply (ids_range p (p + 3)); [done|lia]. }
    exists (mkRound (fresh s) (round_code al WA WS p) (VInst (p + 2) (TInt 1)) (p + 3) :: chain), s2.
    cbv zeta. split_and!; try done; cbn [length chain_end linked r_bb r_body r_cond r_br]; try lia.
    + unfold WS. rewrite wide_round by lia. exact E.
    + split; [|exact Hl]. destruct (is_block_below _ _ _ _ Hm Hb) as [HbbN HbrN].
      rewrite Forall_app, list.Forall_cons in HbrN. destruct HbrN as (Hhd & Hbr & _). cbn in Hbr.
      apply Hfr2; [done|lia| | |lia].
      * rewrite ids_app, not_elem_of_app. split; [eapply ids_below; [exact Hhd|lia]|].
        cbn. rewrite list_elem_of_singleton. lia.
      * rewrite Forall_app, list.Forall_singleton. split; [|cbn; lia].
        eapply list.Forall_impl; [exact Hhd|]. cbn. lia.
    + intros X l HX Hne Hbr Hlt HXn. apply Hfr2; [by apply Hfr|lia| | |lia].
      * eapply ids_below; [exact Hlt|lia].
      * eapply list.Forall_impl; [exact Hlt|]. cbn. lia.
    + rewrite Hg. exists (g ∘ addNewBlock (fresh s) LastBB). done.
Qed.
End Chain.

(** ** Running the chain *)

Section RunChain.
Context {T OS : Type} `{LabelStore T} (cfg : config) (env : menv) (t : tables).
Abbreviation mc := (mach T OS).
Implicit Types (m : mc).

(** Entering block [b] from block [cur]. *)
Definition goto (fuel : nat) (md : module) (stop cur b : Z) m : res mc :=
  match find_block md b with
  | Some c => match enter_block env m m cur (b_insts c) with
              | Some (m', l') => run env t fuel md stop b l' m'
              | None => undefined
              end
  | None => undefined
  end.
Lemma run_condbr fuel md stop cur br c x y m v :
  br <> stop -> eval_int env m c = Some v ->
  run env t (S fuel) md stop cur [mkInst br (ICondBr c x y) TVoid] m =
  goto fuel md stop cur (if v =? 0 then y else x) m.
Proof. intros Hne Hc. cbn. destruct (Z.eqb_spec br stop); [done|]. by rewrite Hc. Qed.
Lemma goto_block fuel md stop cur b l m :
  is_block md b l -> no_phi l -> goto fuel md stop cur b m = run env t fuel md stop b l m.
Proof.
  intros Hb Hp. unfold goto. rewrite (is_block_find _ _ _ Hb). cbn [b_insts].
  destruct Hp as [|i l Hi Hp]; [done|]. cbn. unfold is_phi in Hi. by destruct (i_kind i).
Qed.

(** The two labels of a pair of bytes as one 64-bit word. *)
Definition wide (r : st T OS) (p : Z) (j : Z) : Z := lbl r (p + 2 * j) + 2 ^ 32 * lbl r (p + 2 * j + 1).
Lemma load_wide (r : st T OS) p n j :
  app_range p n -> 0 <= j -> 2 * j + 2 <= n ->
  load_shadow 64 (shadow_for p + 8 * j) r = Ok (wide r p j, r).
Proof.
  intros Hr Hj Hn. unfold load_shadow. change (64 =? 32) with false.
  change (64 =? 64) with true. cbv iota. unfold bind.
  replace (shadow_for p + 8 * j) with (shadow_for p + 4 * (2 * j)) by lia.
  replace (shadow_for p + 4 * (2 * j) + 4) with (shadow_for p + 4 * (2 * j + 1)) by lia.
  rewrite !(app_range_shadow p n) by (done || lia).
  rewrite read_shadow_app by (eapply app_range_in; eauto; lia). cbn beta iota.
  rewrite read_shadow_app by (eapply app_range_in; eauto; lia).
  unfold ret, wide. by replace (p + (2 * j + 1)) with (p + 2 * j + 1) by lia.
Qed.
Lemma app_word_addr p n j : app_range p n -> 0 <= j -> 2 * j < n ->
  u64 (shadow_for p + 8 * j) = shadow_for p + 8 * j.
Proof.
  intros Hr Hj Hn. assert (Hp : is_app p) by (unfold app_range, is_app in *; lia).
  apply u64_small. rewrite shadow_for_app by done.
  change (0x700000008000 <= p < 140737488355328) in Hp. unfold app_range in Hr. lia.
Qed.

(** One round: the next word is compared with the first. *)
Lemma round_exec al WA ws p a w x m :
  IntptrWidth cfg = 64 -> eval env m WA = Some (MI a) -> below p WA ->
  regs m !! ws = Some (MI w) -> ws < p ->
  load_shadow 64 (u64 (a + 8)) (rt m) = Ok (x, rt m) ->
  exists m', exec_list env t (round_code cfg al WA (VInst ws (TInt 64)) p) m = Ok m' /\
    eval_int env m' (VInst (p + 2) (TInt 1)) = Some (if w =? x then 1 else 0) /\
    eval env m' (next_addr WA p) = Some (MI (u64 (a + 8))) /\
    rt m' = rt m /\ slots m' = slots m /\ keep p m m'.
Proof.
  intros Hw HA HbA HS Hws Hload. unfold round_code, next_addr. rewrite Hw.
  assert (Hcmp : forall y : Z, (if Bool.eqb (w =? y) (32 =? 32) then 1 else 0) = if w =? y then 1 else 0)
    by (intros y; by destruct (w =? y)).
  destruct (isConstant WA) eqn:HC.
  - eexists. split_and!.
    + cbn -[load_shadow]. rewrite HA. change (64 / 8 * signed 32 1) with 8.
      unfold with_rt. rewrite Hload. cbn. unfold eval_int. cbn.
      rewrite lookup_insert_ne, HS by lia. rewrite lookup_insert_eq. done.
    + unfold eval_int. cbn. rewrite lookup_insert_eq. f_equal. by destruct (w =? x).
    + change (eval env ?m (VGEP ?e ?b 1 None ?ty)) with
        (match eval env m b with Some (MI a) => Some (MI (u64 (a + ty_size e * signed 32 1))) | _ => None end).
      erewrite (keep_eval env p m); [|intros q Hq; cbn; by rewrite !lookup_insert_ne by lia|done].
      by rewrite HA.
    + by destruct m.
    + done.
    + intros q Hq. cbn. by rewrite !lookup_insert_ne by lia.
  - eexists. split_and!.
    + cbn -[load_shadow signed]. unfold eval_int. rewrite HA. cbn -[load_shadow signed].
      rewrite lookup_insert_eq. change (64 / 8 * signed 64 1) with 8. unfold with_rt. cbn -[load_shadow].
      rewrite Hload. cbn. rewrite !lookup_insert_ne, HS by lia. rewrite lookup_insert_eq. done.
    + unfold eval_int. cbn. rewrite lookup_insert_eq. f_equal. by destruct (w =? x).
    + cbn. by rewrite !lookup_insert_ne, lookup_insert_eq by lia.
    + by destruct m.
    + done.
    + intros q Hq. cbn. by rewrite !lookup_insert_ne by lia.
Qed.

Definition chain_next (Tail : Z) (chain : list round) : Z :=
  match chain with [] => Tail | r :: _ => r_bb r end.
Lemma linked_block md FB Tail bb hd br c chain :
  linked md FB Tail bb hd br c chain ->
  is_block md bb (hd ++ [mkInst br (ICondBr c (chain_next Tail chain) FB) TVoid]).
Proof. destruct chain; [done|]. by intros [? _]. Qed.
Lemma round_no_phi al WA WS p c x y br :
  no_phi (round_code cfg al WA WS p ++ [mkInst br (ICondBr c x y) TVoid]).
Proof. unfold round_code, no_phi. destruct (isConstant WA); repeat constructor. Qed.

(** From the first branch of the chain, the machine gets to the fallback, or to the
    tail after all words were found equal. *)
Lemma chain_run md FB Tail Pos al ws p N w chain : forall WA n bb hd br c m j v,
  IntptrWidth cfg = 64 -> app_range p N ->
  linked md FB Tail bb hd br c chain -> rounds_ok cfg al WA (VInst ws (TInt 64)) n chain ->
  1 <= j -> 2 * (j + Z.of_nat (length chain)) = N ->
  eval env m WA = Some (MI (shadow_for p + 8 * (j - 1))) -> below n WA ->
  regs m !! ws = Some (MI w) -> ws < n -> Pos < n -> br <> Pos ->
  eval_int env m c = Some v ->
  exists k m1, keep n m m1 /\ rt m1 = rt m /\ slots m1 = slots m /\
    let code := [mkInst br (ICondBr c (chain_next Tail chain) FB) TVoid] in
    (((v = 0 \/ exists i, j <= i < j + Z.of_nat (length chain) /\ wide (rt m) p i <> w) /\
      exists cur, forall fuel, run env t (k + fuel) md Pos bb code m = goto fuel md Pos cur FB m1) \/
     (v <> 0 /\ (forall i, j <= i < j + Z.of_nat (length chain) -> wide (rt m) p i = w) /\
      forall fuel, run env t (k + fuel) md Pos bb code m =
        goto fuel md Pos (chain_end bb br chain).2 Tail m1)).
Proof.
  induction chain as [|r chain IH]; intros WA n bb hd br c m j v Hw Hr Hl Hro Hj HN HA HbA HS Hws HP Hbr Hc;
    cbv zeta; destruct (Z.eqb_spec v 0) as [Hv|Hv].
  - exists 1%nat, m. split_and!; try done. left. split; [by left|]. exists bb. intros fuel. cbn [Nat.add].
    rewrite (run_condbr _ _ _ _ _ _ _ _ _ v) by done. by rewrite Hv.
  - exists 1%nat, m. split_and!; try done. right. cbn [length]. split_and!; [done|lia|].
    intros fuel. cbn [Nat.add chain_next chain_end snd].
    rewrite (run_condbr _ _ _ _ _ _ _ _ _ v) by done. by destruct (Z.eqb_spec v 0).
  - exists 1%nat, m. split_and!; try done. left. split; [by left|]. exists bb. intros fuel. cbn [Nat.add].
    rewrite (run_condbr _ _ _ _ _ _ _ _ _ v) by done. by rewrite Hv.
  - destruct Hl as [_ Hl]. pose proof (linked_block _ _ _ _ _ _ _ _ Hl) as Hb.
    destruct Hro as [-> Hro]. cbn [r_bb r_body r_br r_cond length] in *.
    set (q := round_start WA n) in *.
    assert (Hq : n <= q <= n + 1) by (unfold q, round_start; destruct (isConstant WA); lia).
    pose proof (round_code_ids cfg al WA (VInst ws (TInt 64)) q) as Hids.
    destruct (round_exec al WA ws q (shadow_for p + 8 * (j - 1)) w (wide (rt m) p j) m)
      as (m2 & E2 & Ec & EA & R2 & S2 & K2); [done|done|by eapply below_mono; [|done]; lia|done|lia| |].
    { replace (shadow_for p + 8 * (j - 1) + 8) with (shadow_for p + 8 * j) by lia.
      rewrite (app_word_addr p N) by (done || lia). apply (load_wide _ p N); (done || lia). }
    replace (shadow_for p + 8 * (j - 1) + 8) with (shadow_for p + 8 * j) in EA by lia.
    rewrite (app_word_addr p N) in EA by (done || lia).
    destruct (IH (next_addr WA q) (q + 4) n (round_code cfg al WA (VInst ws (TInt 64)) q) (q + 3) _ m2
      (j + 1) (if w =? wide (rt m) p j then 1 else 0) Hw Hr Hl Hro) as (k & m3 & K3 & R3 & S3 & Hk); try done; try lia.
    { by replace (j + 1 - 1) with j by lia. }
    { unfold next_addr. destruct (isConstant WA); cbn; [by eapply below_mono; [|done]; lia|lia]. }
    { rewrite K2; [done|lia]. }
    exists (S (length (round_code cfg al WA (VInst ws (TInt 64)) q) + k)), m3.
    assert (Hrun : forall fuel code, code = [mkInst br (ICondBr c n FB) TVoid] ->
      run env t (S (length (round_code cfg al WA (VInst ws (TInt 64)) q) + k) + fuel) md Pos bb code m =
      run env t (k + fuel) md Pos n [mkInst (q + 3) (ICondBr (VInst (q + 2) (TInt 1)) (chain_next Tail chain) FB) TVoid] m2).
    { intros fuel code ->. cbn [Nat.add]. rewrite (run_condbr _ _ _ _ _ _ _ _ _ v) by done.
      destruct (Z.eqb_spec v 0); [done|]. rewrite (goto_block _ _ _ _ _ _ _ Hb) by apply round_no_phi.
      rewrite <-Nat.add_assoc. apply run_straight; [done|]. apply (ids_range q (q + 3)); [done|lia]. }
    split_and!; [|congruence|congruence|].
    + eapply keep_trans; [|intros x Hx; apply K2; lia|intros x Hx; apply K3; exact Hx]. lia.
    + destruct Hk as [(Hd & cur & Hk)|(Hv1 & Hall & Hk)].
      * left. split; [|exists cur; intros fuel; by rewrite Hrun]. right. rewrite R2 in Hd.
        destruct Hd as [Hd|(i & Hi & Hd)]; [|exists i; split; [lia|done]].
        exists j. split; [lia|]. by destruct (Z.eqb_spec w (wide (rt m) p j)).
      * right. split; [done|]. split; [|intros fuel; rewrite Hrun by done; apply Hk].
        intros i Hi. rewrite R2 in Hall. destruct (decide (i = j)) as [->|Hne]; [|apply Hall; lia].
        by destruct (Z.eqb_spec w (wide (rt m) p j)).
Qed.
End RunChain.

(** ** The fast path *)

(** Comparing a word with itself rotated compares its halves. *)
Lemma rot_compare x y :
  0 <= x < 2 ^ 32 -> 0 <= y < 2 ^ 32 ->
  let w := x + 2 ^ 32 * y in
  (w =? Z.lor (wrap 64 (Z.shiftl w 32)) (Z.shiftr w 32)) = (x =? y) /\ wrap 32 w = x.
Proof.
  intros Hx Hy w.
  assert (Hl : wrap 64 (Z.shiftl w 32) = Z.shiftl x 32).
  { rewrite !Z.shiftl_mul_pow2 by lia. unfold wrap, w.
    replace ((x + 2 ^ 32 * y) * 2 ^ 32) with (x * 2 ^ 32 + y * 2 ^ 64) by lia.
    rewrite Z_mod_plus_full. apply Z.mod_small. lia. }
  assert (Hr : Z.shiftr w 32 = y).
  { rewrite Z.shiftr_div_pow2 by lia. unfold w. rewrite (Z.mul_comm (2 ^ 32)), Z_div_plus_full by lia.
    rewrite Z.div_small; lia. }
  assert (Hor : Z.lor (Z.shiftl x 32) y = x * 2 ^ 32 + y).
  { rewrite Z.lor_comm. assert (H0 : Z.land y (Z.shiftl x 32) = 0) by (apply land_shiftl_small; lia).
    rewrite <-Z.lxor_lor, <-Z.add_nocarry_lxor by done. rewrite Z.shiftl_mul_pow2 by lia. lia. }
  rewrite Hl, Hr, Hor. split.
  - destruct (Z.eqb_spec x y) as [->|Hne]; [apply Z.eqb_eq; unfold w; lia|].
    apply Z.eqb_neq. unfold w. lia.
  - unfold wrap, w. rewrite (Z.mul_comm (2 ^ 32)), Z_mod_plus_full. by apply Z.mod_small.
Qed.

Section Fast.
Context {T OS : Type} `{LabelStore T} (cfg : config) (env : menv).
Abbreviation mc := (mach T OS).
Implicit Types (s : dst) (m : mc).

(** Labels in shadow memory have 32 bits. *)
Definition labels32 (r : st T OS) : Prop := forall q, 0 <= label_at q r < 2 ^ 32.

Lemma bitcast_shadow_ptr v t : isConstant v = true -> shadow_ptr v = true ->
  shadow_ptr (getBitCast v t) = true.
Proof.
  intros Hc Hv. unfold getBitCast. destruct v as [| | | | | | | | | | | |c u ty| | |]; try done.
  destruct c; try done; [by case_decide|]. destruct u as [| | | | | | | | | | | |[] ? ?| | |]; try done.
  by case_decide.
Qed.
Lemma spec_ptr_cast Pos v t x s m :
  eval env m v = Some x -> below (fresh s) v -> shadow_ptr v = true ->
  spec env Pos (CreateCast (Before Pos) BitCast v t) s m
    (fun v' s' m' => gives env x t m v' s' m' /\ shadow_ptr v' = true).
Proof.
  intros Hv Hb Hp. unfold CreateCast. case_decide as Ht; [apply spec_ret; split; [by apply gives_here|done]|].
  destruct (isConstant v) eqn:Hc.
  - destruct (fold_cast_address env BitCast v t m (fresh s) eq_refl) as (E & Et & Hbl).
    apply spec_ret. split; [apply gives_here; [by rewrite E|done|auto]|]. by apply bitcast_shadow_ptr.
  - eapply spec_emit; [|by apply keep_set_reg|split; [apply gives_reg|done]]. cbn. by rewrite Hv.
Qed.

Definition head_result (p : Z) (m : mc) (h : value * value * value * value) (s' : dst) (m' : mc) : Prop :=
  let '(WA, WS, TS, EQ) := h in
  exists ws, WS = VInst ws (TInt 64) /\ ws < fresh s' /\
    regs m' !! ws = Some (MI (wide (rt m) p 0)) /\
    eval env m' WA = Some (MI (shadow_for p)) /\ below (fresh s') WA /\
    eval env m' TS = Some (MI (lbl (rt m) p)) /\ below (fresh s') TS /\
    eval_int env m' EQ = Some (if lbl (rt m) p =? lbl (rt m) (p + 1) then 1 else 0) /\
    rt m' = rt m /\ slots m' = slots m.

Lemma wide_head_spec Pos al sa p n s m :
  labels32 (rt m) -> app_range p n -> 2 <= n ->
  eval env m sa = Some (MI (shadow_for p)) -> below (fresh s) sa -> shadow_ptr sa = true ->
  spec env Pos (wide_head sa al Pos) s m (head_result p m).
Proof.
  intros H32 Hr Hn Esa Bsa Psa. unfold wide_head.
  spec_step. eapply spec_mono; [by apply spec_ptr_cast|].
  intros WA L1 s1 m1 HL1 K1 [(EA & TA & BA & R1 & S1) PA].
  pose proof (load_wide (rt m) p n 0 Hr ltac:(lia) ltac:(lia)) as Hld.
  rewrite Z.mul_0_r, Z.add_0_r in Hld.
  set (w := wide (rt m) p 0) in *.
  destruct (rot_compare (lbl (rt m) p) (lbl (rt m) (p + 1)) (H32 _) (H32 _)) as [Hrot Htr].
  assert (Hw : lbl (rt m) p + 2 ^ 32 * lbl (rt m) (p + 1) = w).
  { unfold w, wide. by rewrite Z.mul_0_r, Z.add_0_r. }
  cbv zeta in Hrot. rewrite Hw in Hrot, Htr.
  spec_step. unfold CreateLoad. rewrite TA. cbn [pointee].
  eapply (spec_emit _ _ _ _ _ _ (set_reg (fresh s1) (MI w) m1)); [|by apply keep_set_reg|].
  { cbn -[load_shadow]. destruct WA; try done; rewrite EA; unfold with_rt; rewrite R1, Hld;
      destruct m1; cbn in *; by subst. }
  set (s2 := emitted Pos (ILoad WA al) (TInt 64) s1). set (ws := fresh s1).
  assert (Fs2 : fresh s2 = ws + 1) by done.
  spec_step. unfold CreateCast. cbn [typeOf isConstant]. rewrite decide_False by done.
  eapply (spec_emit _ _ _ _ _ _ (set_reg (fresh s2) (MI (lbl (rt m) p)) (set_reg ws (MI w) m1)));
    [|by apply keep_set_reg|].
  { cbn. unfold eval_int. cbn. rewrite lookup_insert_eq. by rewrite <-Htr. }
  set (s3 := emitted Pos (ICast Trunc (VInst ws (TInt 64))) ShadowTy s2).
  set (m3 := set_reg (fresh s2) (MI (lbl (rt m) p)) (set_reg ws (MI w) m1)).
  assert (Ews3 : regs m3 !! ws = Some (MI w)).
  { unfold m3. cbn. rewrite lookup_insert_ne by lia. by rewrite lookup_insert_eq. }
  assert (Fs3 : fresh s3 = ws + 2) by (cbn; lia).
  spec_step. eapply spec_mono; [by apply (spec_bin env Pos Shl (VInst ws (TInt 64)) (VInt 64 ShadowWidth) 64 w 32); cbn; try done; lia|].
  intros shl L4 s4 m4 HL4 K4 (E4 & T4 & B4 & R4 & S4). pose proof (sl_fresh _ _ _ _ HL4) as F4.
  assert (Ews4 : regs m4 !! ws = Some (MI w)) by (rewrite K4 by lia; done).
  spec_step. eapply spec_mono; [by apply (spec_bin env Pos LShr (VInst ws (TInt 64)) (VInt 64 (64 - ShadowWidth)) 64 w 32); cbn; try done; lia|].
  intros shr L5 s5 m5 HL5 K5 (E5 & T5 & B5 & R5 & S5). pose proof (sl_fresh _ _ _ _ HL5) as F5.
  spec_step. eapply spec_mono.
  { eapply (spec_bin env Pos Or shl shr 64); [|exact E5|done|reflexivity| |done].
    - rewrite (keep_eval env (fresh s4) m4); [exact E4|done|done].
    - by eapply below_mono. }
  intros rot L6 s6 m6 HL6 K6 (E6 & T6 & B6 & R6 & S6). pose proof (sl_fresh _ _ _ _ HL6) as F6.
  assert (Ews6 : regs m6 !! ws = Some (MI w)) by (rewrite K6, K5 by lia; done).
  spec_step. unfold CreateICmp.
  eapply (spec_emit _ _ _ _ _ _ (set_reg (fresh s6) (MI (if lbl (rt m) p =? lbl (rt m) (p + 1) then 1 else 0)) m6));
    [|by apply keep_set_reg|].
  { cbn. unfold eval_int. cbn [eval]. rewrite Ews6, E6. rewrite <-Hrot. repeat f_equal.
    by destruct (w =? _). }
  assert (K36 : keep (fresh s3) m3 m6).
  { intros q Hq. rewrite K6, K5, K4 by lia. done. }
  assert (K16 : keep (fresh s1) m1 m6).
  { intros q Hq. rewrite K36 by lia. unfold m3. cbn. by rewrite !lookup_insert_ne by lia. }
  apply spec_ret. exists ws. cbn [fresh emitted]. split_and!; try done; try lia.
  - cbn. rewrite lookup_insert_ne by lia. done.
  - rewrite (keep_eval env (fresh s1) m1); [done| |done].
    intros q Hq. cbn. rewrite lookup_insert_ne by lia. by apply K16.
  - eapply below_mono; [|done]. lia.
  - cbn. rewrite lookup_insert_ne by lia. rewrite K36 by lia. unfold m3. cbn. by rewrite lookup_insert_eq.
  - cbn. lia.
  - unfold eval_int. cbn. by rewrite lookup_insert_eq.
  - cbn. rewrite R6, R5, R4. exact R1.
  - cbn. rewrite S6, S5, S4. exact S1.
Qed.
End Fast.

Section LoadFast.
Context {T OS : Type} `{!LabelStore T, !LabelStoreView T, !LabelStoreSpec T} (cfg : config) (env : menv).
Abbreviation mc := (mach T OS).
Implicit Types (s : dst) (m : mc).

(** The functions of the runtime are declared with their types, and are different
    values. *)
Definition tables_ok (t : tables) : Prop :=
  typeOf (DFSanUnionFn t) = getPointerTo DFSanUnionFnTy /\
  typeOf (DFSanCheckedUnionFn t) = getPointerTo DFSanUnionFnTy /\
  typeOf (DFSanUnionLoadFn t) = getPointerTo (DFSanUnionLoadFnTy cfg) /\
  NoDup (runtime_fns t).

Lemma create_call_ok pt f args ft s :
  callee_type f = Some ft -> good_signature ft args = true ->
  CreateCall cfg pt f args s = emit pt (ICall f args) (ft_ret ft) s.
Proof.
  intros Hf Hg. unfold CreateCall, deref. rewrite Hf. unfold bind, ret, assert. by rewrite Hg.
Qed.

(** The label in [v] stands for offsets of the bytes [p .. p+n-1], and for all of them if no
    join has lost one ([taint_is]). *)
Definition load_result (p n : Z) (v : value) m (m' : mc) : Prop :=
  exists l t', eval env m' v = Some (MI l) /\ rt m' = set_tags t' (rt m) /\ slots m' = slots m /\
    tags_ext (Z.to_nat n) (tags (rt m)) t' /\ ls_valid t' l /\
    taint_is t' l (fun o => exists b, p <= b < p + n /\ o ∈ taint (tags (rt m)) (lbl (rt m) b)).

(** The labels of the bytes are those of a variable if they look so. *)
Definition shapes (r : st T OS) (p n : Z) : Prop :=
  shape_sound (taint (tags r) <$> labels_at r (shadow_for p) (Z.to_nat n)).

Lemma load_equal p n v m m' :
  st_ok (rt m) -> 0 < n -> (forall b, p <= b < p + n -> lbl (rt m) b = lbl (rt m) p) ->
  eval env m' v = Some (MI (lbl (rt m) p)) -> rt m' = rt m -> slots m' = slots m ->
  load_result p n v m m'.
Proof.
  intros [Hok Hv] Hn Heq Ev Hr Hs. exists (lbl (rt m) p), (tags (rt m)).
  split_and!; try done; [by rewrite Hr; destruct (rt m)|eapply tags_ext_le; [by apply tags_ext_refl|lia]|apply Hv|].
  eapply taint_is_iff; [apply taint_is_refl|]. intros o. split.
  - intros Ho. exists p. split; [lia|done].
  - intros (b & Hb & Ho). by rewrite Heq in Ho.
Qed.

Lemma exec_union_load (t : tables) call sa p n m l t' :
  tables_ok t -> eval env m sa = Some (MI (shadow_for p)) ->
  __dfsan_union_load (shadow_for p) n (rt m) = Ok (l, set_tags t' (rt m)) ->
  exec_inst env t (mkInst call (ICall (DFSanUnionLoadFn t) [sa; VInt 64 n]) ShadowTy) m =
    Ok (set_reg call (MI l) (set_rt (set_tags t' (rt m)) m)).
Proof.
  intros (_ & _ & _ & Hnd) Esa El. unfold exec_inst. cbn -[decide]. unfold eval_int. rewrite Esa. cbn -[decide].
  unfold runtime_fns in Hnd. apply list.NoDup_cons in Hnd as [H1 Hnd].
  apply list.NoDup_cons in Hnd as [H2 _]. rewrite !not_elem_of_cons in H1, H2.
  destruct H1 as (_ & H1 & _), H2 as (H2 & _).
  rewrite (decide_False (P := DFSanUnionLoadFn t = DFSanUnionFn t)) by congruence.
  rewrite (decide_False (P := DFSanUnionLoadFn t = DFSanCheckedUnionFn t)) by congruence.
  rewrite decide_True by done. unfold with_rt. by rewrite El.
Qed.

(** The fallback: the call, and the way to the tail. *)
Lemma run_fallback (t : tables) md FB Tail Pos cur call br phi ts lastBB sa p n ip post m fuel :
  tables_ok t -> st_ok (rt m) -> app_range p n -> 0 < n < 2 ^ 32 -> ls_room (tags (rt m)) (Z.to_nat n) -> shapes (rt m) p n ->
  is_block md FB [mkInst call (ICall (DFSanUnionLoadFn t) [sa; VInt 64 n]) ShadowTy; mkInst br (IBr Tail) TVoid] ->
  is_block md Tail (mkInst phi (IPhi [(VInst call ShadowTy, FB); (ts, lastBB)]) ShadowTy :: ip :: post) ->
  eval env m sa = Some (MI (shadow_for p)) -> i_id ip = Pos -> is_phi ip = false ->
  call <> Pos -> br <> Pos ->
  exists m', goto env t (3 + fuel) md Pos cur FB m = Ok m' /\
    (forall q, q <> call -> q <> phi -> regs m' !! q = regs m !! q) /\
    load_result p n (VInst phi ShadowTy) m m'.
Proof.
  intros Ht Hok Hr Hn Hro Hsh HFB HT Esa Hip Hph Hcall Hbr.
  destruct (dfsan_union_load_spec p n (rt m) Hok Hr Hn Hro Hsh) as (l & t' & El & Hext & Hval & Htn).
  pose proof (exec_union_load t call sa p n m l t' Ht Esa El) as Ex.
  exists (set_reg phi (MI l) (set_reg call (MI l) (set_rt (set_tags t' (rt m)) m))). split_and!.
  - rewrite (goto_block env t _ _ _ _ _ _ _ HFB) by repeat constructor.
    cbn [Nat.add run i_id i_kind]. destruct (Z.eqb_spec call Pos); [done|].
    rewrite Ex. destruct (Z.eqb_spec br Pos); [done|].
    rewrite (is_block_find _ _ _ HT). cbn [b_insts enter_block i_kind]. unfold phi_value.
    rewrite filter_cons_True by done. cbn [head fst eval i_id]. cbn. rewrite lookup_insert_eq.
    unfold is_phi in Hph. destruct (i_kind ip); try done; by rewrite Hip, Z.eqb_refl.
  - intros q H1 H2. cbn. by rewrite !lookup_insert_ne.
  - exists l, t'. split_and!; try done. cbn. by rewrite lookup_insert_eq.
Qed.

(** After the loop: the fallback is closed and the phi put in front of the point. *)
Definition close_fast (FB Tail brid Pos phi : Z) (ph : ikind) (m : module) : module :=
  insert_at (Before Pos) (mkInst phi ph ShadowTy) (insert_at (AtEnd FB) (mkInst brid (IBr Tail) TVoid) m).
Lemma close_other FB Tail brid Pos phi ph md X l :
  is_block md X l -> X <> FB -> Pos ∉ ids l -> is_block (close_fast FB Tail brid Pos phi ph md) X l.
Proof.
  intros HX Hne HP. unfold close_fast. rewrite <-(df_ins_before_notin Pos (mkInst phi ph ShadowTy) l) by done.
  by apply is_block_map_insts, is_block_end_other.
Qed.
Lemma close_linked FB Tail brid Pos phi ph md al WS chain : forall WA n bb hd br c,
  linked md FB Tail bb hd br c chain -> rounds_ok cfg al WA WS n chain ->
  bb <> FB -> FB < n -> Pos < n -> Pos ∉ ids hd -> br <> Pos ->
  linked (close_fast FB Tail brid Pos phi ph md) FB Tail bb hd br c chain.
Proof.
  assert (Hids : forall hd br k, Pos ∉ ids hd -> br <> Pos -> Pos ∉ ids (hd ++ [mkInst br k TVoid])).
  { intros hd br k H1 H2. rewrite ids_app, not_elem_of_app. split; [done|]. cbn.
    rewrite list_elem_of_singleton. congruence. }
  induction chain as [|r chain IH]; intros WA n bb hd br c; cbn [linked rounds_ok].
  - intros Hb _ Hbb _ _ Hhd Hbr. apply close_other; auto.
  - intros [Hb Hl] [-> Hro] Hbb HF HP Hhd Hbr. cbn [r_bb r_body r_br r_cond] in *.
    pose proof (round_code_ids cfg al WA WS (round_start WA n)) as Hc.
    assert (Hq : n <= round_start WA n <= n + 1) by (unfold round_start; destruct (isConstant WA); lia).
    split; [apply close_other; auto|]. eapply IH; try done; try lia.
    apply (ids_range (round_start WA n) (round_start WA n + 3)); [done|lia].
Qed.
Lemma chain_end_bb al WA WS n bb br chain FB :
  rounds_ok cfg al WA WS n chain -> bb <> FB -> FB < n -> (chain_end bb br chain).2 <> FB.
Proof.
  revert WA n bb br. induction chain as [|r chain IH]; intros WA n bb br; cbn [rounds_ok chain_end]; [done|].
  intros [-> Hro] Hbb HF. cbn [r_bb r_br]. eapply IH; [done|lia|].
  unfold round_start. destruct (isConstant WA); lia.
Qed.

(** The state after the part of [load_fast] that precedes the loop. *)
Definition fast_start (sa : value) (n : Z) s : dst :=
  mkDst (insert_at (AtEnd (fresh s)) (mkInst (fresh s + 1)
           (ICall (DFSanUnionLoadFn (tab s)) [sa; VInt 64 n]) ShadowTy)
           (add_block (F (fn s)) (fresh s) (Mod s)))
    (fresh s + 2) (tab s) (UnwrappedFnMap s) (fn s).
Lemma fast_start_ok sa n al Pos s :
  IntptrWidth cfg = 64 -> tables_ok (tab s) -> typeOf sa = ShadowPtrTy ->
  load_fast cfg sa n al Pos s =
  (h <- wide_head sa al Pos ;;
   let '(WideAddr, WideShadow, TruncShadow, ShadowsEq) := h in
   Head <- parent_of Pos ;;
   Tail <- new_id ;;
   LastBr <- new_id ;;
   modify (with_mod (map_blocks (split_fun Pos Head Tail
     (mkInst LastBr (ICondBr ShadowsEq (fresh s) (fresh s)) TVoid) []))) ;;;
   modify (with_fn (set_DT (dt_split Head Tail))) ;;;
   modify (with_fn (set_DT (addNewBlock (fresh s) Head))) ;;;
   r <- wide_compare cfg (Z.to_nat n) 2 n al WideAddr WideShadow (fresh s) LastBr Head ;;
   modify (with_mod (map_insts (fmap (set_kind r.1 (retarget Tail))))) ;;;
   emit (AtEnd (fresh s)) (IBr Tail) TVoid ;;;
   front <- block_front Tail ;;
   emit (Before front) (IPhi [(VInst (fresh s + 1) ShadowTy, fresh s); (TruncShadow, r.2)]) ShadowTy)
  (fast_start sa n s).
Proof.
  intros Hw (_ & _ & Hty & _) Hsa. unfold load_fast. rewrite Hw.
  pose (s1 := mkDst (add_block (F (fn s)) (fresh s) (Mod s)) (fresh s + 1) (tab s) (UnwrappedFnMap s) (fn s)).
  assert (E1 : new_block s = Ok (fresh s, s1)) by done.
  assert (E2 : CreateCall cfg (AtEnd (fresh s)) (DFSanUnionLoadFn (tab s)) [sa; VInt 64 n] s1 =
    Ok (VInst (fresh s + 1) ShadowTy, fast_start sa n s)).
  { rewrite (create_call_ok _ _ _ (DFSanUnionLoadFnTy cfg)).
    - unfold fast_start. replace (fresh s + 2) with (fresh s + 1 + 1) by lia. done.
    - unfold callee_type. by rewrite Hty.
    - unfold good_signature. cbn. unfold IntptrTy. rewrite Hsa, Hw. by rewrite bool_decide_eq_true_2. }
  rewrite (bind_Ok _ _ s (tab s) s) by done. rewrite (bind_Ok _ _ _ _ _ E1).
  rewrite (bind_Ok _ _ _ _ _ E2). done.
Qed.

(** All words equal, and the halves of the first: all labels equal. *)
Lemma wide_equal (r : st T OS) p n :
  labels32 r -> n mod 2 = 0 ->
  (forall b, p <= b < p + n -> lbl r b = lbl r p) <->
  (0 < n -> lbl r p = lbl r (p + 1)) /\ (forall i, 1 <= i < n / 2 -> wide r p i = wide r p 0).
Proof.
  intros H32 Hn. pose proof (Z_div_mod_eq_full n 2) as Hdiv.
  split.
  - intros Heq. split; [intros; symmetry; apply Heq; lia|]. intros i Hi. unfold wide.
    rewrite !(Heq (p + _)) by lia. rewrite !(Heq (p + 2 * _ + 1)) by lia. done.
  - intros [H1 Hw] b Hb. specialize (H1 ltac:(lia)).
    assert (Hb2 : b = p + 2 * ((b - p) / 2) \/ b = p + 2 * ((b - p) / 2) + 1).
    { pose proof (Z_div_mod_eq_full (b - p) 2). pose proof (Z.mod_pos_bound (b - p) 2). lia. }
    generalize dependent ((b - p) / 2). intros q Hb2.
    assert (Hi : lbl r (p + 2 * q) = lbl r p /\ lbl r (p + 2 * q + 1) = lbl r p).
    { destruct (decide (q = 0)) as [E|Hi0]; [by rewrite E, Z.mul_0_r, Z.add_0_r|].
      specialize (Hw q ltac:(lia)). unfold wide in Hw. rewrite Z.mul_0_r, Z.add_0_r in Hw.
      pose proof (H32 (shadow_for (p + 2 * q))). pose proof (H32 (shadow_for (p + 2 * q + 1))).
      pose proof (H32 (shadow_for p)). pose proof (H32 (shadow_for (p + 1))).
      unfold lbl in *. lia. }
    destruct Hb2 as [-> | ->]; apply Hi.
Qed.

Lemma fast_start_point sa n s b pre ip post :
  at_point (Mod s) (fresh s) b pre ip post -> has_fun (Mod s) (F (fn s)) ->
  at_point (Mod (fast_start sa n s)) (fresh s + 2) b pre ip post /\
  has_fun (Mod (fast_start sa n s)) (F (fn s)) /\
  is_block (Mod (fast_start sa n s)) (fresh s)
    [mkInst (fresh s + 1) (ICall (DFSanUnionLoadFn (tab s)) [sa; VInt 64 n]) ShadowTy].
Proof.
  intros Hap Hf. pose proof (at_point_ip _ _ _ _ _ _ Hap).
  pose proof (ap_blocks _ _ _ _ _ _ Hap _ (proj1 (ap_block _ _ _ _ _ _ Hap))) as Hb. cbn in Hb.
  unfold fast_start. cbn [Mod]. split_and!.
  - apply insert_end_point; [|lia|cbn; lia|cbn; lia].
    apply (at_point_mono _ (fresh s + 1)); [lia|]. by apply (add_block_point _ _ _ (fresh s)).
  - apply has_fun_map; [done|]. apply has_fun_map; [|done].
    intros g. by destruct (fn_id g =? F (fn s)).
  - apply (is_block_end_same _ _ _ []). apply (add_block_new _ _ _ (fresh s)); [|lia|done].
    by eapply at_point_below.
Qed.

(** The code that the fast path leaves behind. *)
Lemma load_fast_code b pre ip post sa n al s WA ws TS EQ L s3 :
  IntptrWidth cfg = 64 -> tables_ok (tab s) -> typeOf sa = ShadowPtrTy ->
  at_point (Mod s) (fresh s) b pre ip post -> has_fun (Mod s) (F (fn s)) ->
  2 <= n -> n mod 2 = 0 ->
  wide_head sa al (i_id ip) (fast_start sa n s) = Ok ((WA, VInst ws (TInt 64), TS, EQ), s3) ->
  straight (i_id ip) (fast_start sa n s) L s3 -> no_phi L ->
  exists chain r brid phi s', phi_only r /\
    load_fast cfg sa n al (i_id ip) s = Ok (VInst phi ShadowTy, s') /\
    Z.of_nat (length chain) = n / 2 - 1 /\
    rounds_ok cfg al WA (VInst ws (TInt 64)) (fresh s3 + 1 + 1) chain /\
    linked (Mod s') (fresh s) (fresh s3) b (r pre ++ L) (fresh s3 + 1) EQ chain /\
    is_block (Mod s') (fresh s)
      [mkInst (fresh s + 1) (ICall (DFSanUnionLoadFn (tab s)) [sa; VInt 64 n]) ShadowTy;
       mkInst brid (IBr (fresh s3)) TVoid] /\
    is_block (Mod s') (fresh s3)
      (mkInst phi (IPhi [(VInst (fresh s + 1) ShadowTy, fresh s);
                         (TS, (chain_end b (fresh s3 + 1) chain).2)]) ShadowTy :: ip :: post) /\
    fresh s3 <= brid /\ fresh s3 <= phi.
Proof.
  intros Hw Ht Hsa Hap0 Hf0 Hn2 Heven Eh HL Hnp.
  destruct (fast_start_point sa n s b pre ip post Hap0 Hf0) as (Hap2 & Hf2 & HFB2).
  pose proof (at_point_straight _ _ _ _ _ _ _ Hap2 HL) as Hap3. pose proof (at_point_ip _ _ _ _ _ _ Hap0) as Hip.
  pose proof (ap_blocks _ _ _ _ _ _ Hap0 _ (proj1 (ap_block _ _ _ _ _ _ Hap0))) as Hb. cbn in Hb.
  pose proof (sl_fresh _ _ _ _ HL) as F3. cbn [fresh fast_start] in F3.
  set (Pos := i_id ip) in *. set (FB := fresh s) in *. set (Tail := fresh s3) in *.
  set (call := mkInst (FB + 1) (ICall (DFSanUnionLoadFn (tab s)) [sa; VInt 64 n]) ShadowTy) in *.
  assert (HPc : Pos ∉ ids [call]) by (cbn; rewrite list_elem_of_singleton; cbn; lia).
  assert (HFB3 : is_block (Mod s3) FB [call]).
  { rewrite (sl_eq _ _ _ _ HL). by apply is_block_inserted. }
  assert (Hf3 : has_fun (Mod s3) (F (fn s))).
  { rewrite (sl_eq _ _ _ _ HL). by apply has_fun_inserted. }
  set (term := mkInst (Tail + 1) (ICondBr EQ FB FB) TVoid).
  pose proof (split_head _ _ _ _ _ _ Hap3 Tail term [] ltac:(lia) ltac:(constructor) eq_refl) as (r & Hr & Hhd).
  pose proof (split_tail _ _ _ _ _ _ Hap3 Tail term [] ltac:(lia) ltac:(constructor)) as HTail.
  pose proof (split_other _ _ _ _ _ _ Hap3 Tail term [] ltac:(lia) ltac:(constructor) FB [call] ltac:(lia)
    ltac:(repeat constructor) HFB3) as HFB4.
  pose proof (split_below _ _ _ _ _ _ Hap3 Tail term [] (Tail + 1 + 1) ltac:(lia) ltac:(cbn; lia) ltac:(lia) ltac:(constructor)) as Hm4.
  rewrite (po_app _ Hr), (po_same _ Hr L) in Hhd by done.
  set (m4 := map_blocks (split_fun Pos b Tail term []) (Mod s3)) in *.
  set (s4 := mkDst m4 (Tail + 1 + 1) (tab s3) (UnwrappedFnMap s3)
    (set_DT (addNewBlock FB b) (set_DT (dt_split b Tail) (fn s3)))).
  pose proof (Z_div_mod_eq_full n 2) as Hdiv.
  assert (Hpre' : Pos ∉ ids (r pre ++ L)).
  { rewrite ids_app, (po_ids _ Hr), <-ids_app. apply Hap3. }
  destruct (wide_chain cfg al ws FB Tail n (Z.to_nat (n / 2 - 1)) (Z.to_nat n) 2 WA (Tail + 1) b (r pre ++ L) EQ s4)
    as (chain & s5 & Hlen & Hro & Ew & Hl & Hfr & Hm5 & Hf5 & F5 & Ht5 & _); [lia|lia|done| |done| |].
  { unfold s4. cbn [Mod fn F set_DT]. destruct (straight_fields _ _ _ _ HL) as (_ & _ & ->). by apply has_fun_map. }
  { apply (ids_below Tail); [|lia]. pose proof (is_block_below _ _ _ _ (at_point_below _ _ _ _ _ _ Hap3) (ap_block _ _ _ _ _ _ Hap3)) as [_ Hall].
    rewrite Forall_app in Hall. destruct Hall as [Hall _]. clear -Hall Hr.
    rewrite Forall_app in *. destruct Hall as [H1 H2]. split; [|done].
    rewrite <-(Forall_fmap i_id (fun x => x < Tail)) in *. pose proof (po_ids _ Hr pre) as Hids. unfold ids in Hids. by rewrite Hids. }
  cbn [fresh s4] in F5.
  set (m6 := map_insts (fmap (set_kind (chain_end b (Tail + 1) chain).1 (retarget Tail))) (Mod s5)) in *.
  assert (Hbel : Forall (fun i => i_id i < Tail) (ip :: post)).
  { pose proof (is_block_below _ _ _ _ (at_point_below _ _ _ _ _ _ Hap3) (ap_block _ _ _ _ _ _ Hap3)) as [_ Hall].
    by apply Forall_app in Hall as [_ ?]. }
  assert (HT6 : is_block m6 Tail (ip :: post)).
  { apply Hfr; [done|lia| | |cbn; lia].
    - eapply ids_below; [exact Hbel|lia].
    - eapply list.Forall_impl; [exact Hbel|]. cbn. lia. }
  assert (HF6 : is_block m6 FB [call]).
  { apply Hfr; [done|lia| | |cbn; lia].
    - cbn. rewrite list_elem_of_singleton. lia.
    - repeat constructor. cbn. lia. }
  set (ph := IPhi [(VInst (FB + 1) ShadowTy, FB); (TS, (chain_end b (Tail + 1) chain).2)]).
  exists chain, r, (fresh s5), (fresh s5 + 1),
    (mkDst (close_fast FB Tail (fresh s5) Pos (fresh s5 + 1) ph m6) (fresh s5 + 1 + 1) (tab s5)
      (UnwrappedFnMap s5) (fn s5)).
  split_and!; try lia; [done| |exact Hro| | |].
  - rewrite fast_start_ok by done. rewrite (bind_Ok _ _ _ _ _ Eh).
    assert (Epar : parent_of Pos s3 = Ok (b, s3)).
    { unfold parent_of, bind, gets, deref, Pos. by rewrite (at_point_block_of _ _ _ _ _ _ Hap3). }
    cbn beta iota. rewrite (bind_Ok _ _ _ _ _ Epar).
    change (bind (wide_compare cfg (Z.to_nat n) 2 n al WA (VInst ws (TInt 64)) FB (Tail + 1) b)
      (fun r => modify (with_mod (map_insts (fmap (set_kind r.1 (retarget Tail))))) ;;;
        emit (AtEnd FB) (IBr Tail) TVoid ;;;
        front <- block_front Tail ;;
        emit (Before front) (IPhi [(VInst (FB + 1) ShadowTy, FB); (TS, r.2)]) ShadowTy) s4 =
      Ok (VInst (fresh s5 + 1) ShadowTy, mkDst (close_fast FB Tail (fresh s5) Pos (fresh s5 + 1) ph m6)
        (fresh s5 + 1 + 1) (tab s5) (UnwrappedFnMap s5) (fn s5))).
    rewrite (bind_Ok _ _ _ _ _ Ew).
    set (s7 := mkDst (insert_at (AtEnd FB) (mkInst (fresh s5) (IBr Tail) TVoid) m6) (fresh s5 + 1)
      (tab s5) (UnwrappedFnMap s5) (fn s5)).
    change (bind (block_front Tail) (fun front => emit (Before front) ph ShadowTy) s7 =
      Ok (VInst (fresh s5 + 1) ShadowTy, mkDst (close_fast FB Tail (fresh s5) Pos (fresh s5 + 1) ph m6)
        (fresh s5 + 1 + 1) (tab s5) (UnwrappedFnMap s5) (fn s5))).
    assert (HT7 : is_block (Mod s7) Tail (ip :: post)) by (apply is_block_end_other; [lia|done]).
    rewrite (bind_Ok _ _ _ _ _ (is_block_front _ _ _ _ HT7 s7 eq_refl)). reflexivity.
  - cbn [Mod]. by eapply close_linked; try done; try (cbn; lia).
  - cbn [Mod]. unfold close_fast.
    rewrite <-(df_ins_before_notin Pos (mkInst (fresh s5 + 1) ph ShadowTy) [call; mkInst (fresh s5) (IBr Tail) TVoid]).
    + by apply is_block_map_insts, (is_block_end_same _ _ _ [call]).
    + cbn. rewrite not_elem_of_cons, list_elem_of_singleton. cbn. lia.
  - cbn [Mod]. unfold close_fast.
    pose proof (df_ins_before_at Pos (mkInst (fresh s5 + 1) ph ShadowTy) [] ip post eq_refl
      ltac:(apply not_elem_of_nil)) as E. cbn [Datatypes.app] in E. fold ph. rewrite <-E.
    apply is_block_map_insts, is_block_end_other; [lia|done].
Qed.

(** What a load needs to find: the point in the function, the runtime, the address. *)
Record load_ready (s : dst) (b : Z) (pre : list inst) (ip : inst) (post : list inst) (p n : Z) m
  : Prop := {
  lr_width : IntptrWidth cfg = 64;
  lr_tables : tables_ok (tab s);
  lr_point : at_point (Mod s) (fresh s) b pre ip post;
  lr_fun : has_fun (Mod s) (F (fn s));
  lr_phi : is_phi ip = false;
  lr_rt : st_ok (rt m);
  lr_32 : labels32 (rt m);
  lr_range : app_range p n;
  lr_size : 0 < n < 2 ^ 32;
  lr_room : ls_room (tags (rt m)) (Z.to_nat n);
  lr_shape : (forall b, p <= b < p + n -> lbl (rt m) b = lbl (rt m) p) \/ shapes (rt m) p n
}.

Lemma load_fast_reaches b pre ip post sa p n al s m :
  load_ready s b pre ip post p n m -> n mod 2 = 0 ->
  eval env m sa = Some (MI (shadow_for p)) -> below (fresh s) sa -> shadow_ptr sa = true ->
  typeOf sa = ShadowPtrTy ->
  exists v s', load_fast cfg sa n al (i_id ip) s = Ok (v, s') /\
    reaches env s s' b pre (i_id ip) m (load_result p n v m).
Proof.
  intros [Hw Ht Hap Hf Hphi Hok H32 Hr Hn Hroom Hsh] Heven Esa Bsa Psa Tsa.
  pose proof (Z_div_mod_eq_full n 2) as Hdiv. assert (Hn2 : 2 <= n) by lia.
  pose proof (at_point_ip _ _ _ _ _ _ Hap) as Hip.
  destruct (wide_head_spec env (i_id ip) al sa p n (fast_start sa n s) m H32 Hr Hn2 Esa) as
    (h & L & s3 & m3 & Eh & HL & EL & K3 & Hres); [eapply below_mono; [|done]; cbn; lia|done|].
  destruct h as [[[WA WS] TS] EQ].
  destruct Hres as (ws & -> & Hws & Ews & EA & BA & ETS & BTS & EEQ & R3 & S3).
  pose proof (sl_fresh _ _ _ _ HL) as F3. cbn [fresh fast_start] in F3.
  destruct (load_fast_code b pre ip post sa n al s WA ws TS EQ L s3 Hw Ht Tsa Hap Hf Hn2 Heven Eh HL
    ltac:(by eapply exec_no_phi)) as
    (chain & r & brid & phi & s' & Hpr & El & Hlen & Hro & Hl & HFB & HT & Hbrid & Hph).
  exists (VInst phi ShadowTy), s'. split; [done|].
  destruct (chain_run cfg env (tab s) (Mod s') (fresh s) (fresh s3) (i_id ip) al ws p n (wide (rt m) p 0) chain
    WA (fresh s3 + 1 + 1) b (r pre ++ L) (fresh s3 + 1) EQ m3 1
    (if lbl (rt m) p =? lbl (rt m) (p + 1) then 1 else 0) Hw Hr Hl Hro) as
    (k & m1 & K1 & R1 & S1 & Hcase); try done; try lia.
  { by rewrite Z.mul_0_r, Z.add_0_r. }
  { eapply below_mono; [|done]. lia. }
  rewrite R3 in Hcase.
  assert (Hb : is_block (Mod s') b (r pre ++ L ++ [mkInst (fresh s3 + 1) (ICondBr EQ (chain_next (fresh s3) chain) (fresh s)) TVoid])).
  { rewrite app_assoc. by apply linked_block. }
  pose proof (at_point_straight _ _ _ _ _ _ _ (proj1 (fast_start_point sa n s b pre ip post Hap Hf)) HL) as Hap3.
  pose proof (ap_first _ _ _ _ _ _ Hap3) as HposL. rewrite ids_app, not_elem_of_app in HposL.
  assert (Hrun : forall fuel, run env (tab s) (length L + (k + fuel)) (Mod s') (i_id ip) b
     (L ++ [mkInst (fresh s3 + 1) (ICondBr EQ (chain_next (fresh s3) chain) (fresh s)) TVoid]) m =
     run env (tab s) (k + fuel) (Mod s') (i_id ip) b
       [mkInst (fresh s3 + 1) (ICondBr EQ (chain_next (fresh s3) chain) (fresh s)) TVoid] m3).
  { intros fuel. apply run_straight; [exact EL|apply HposL]. }
  assert (Ksm : keep (fresh s) m m1).
  { intros q Hq. rewrite K1 by lia. apply K3. cbn. lia. }
  pose proof (wide_equal (rt m) p n H32 Heven) as Heq.
  destruct Hcase as [(Hd & cur & Hk)|(Hv & Hall & Hk)].
  - destruct Hsh as [Hsh|Hsh].
    { exfalso. apply Heq in Hsh as [He1 He2]. destruct Hd as [Hd|(i & Hi & Hd)].
      - by rewrite (He1 ltac:(lia)), Z.eqb_refl in Hd.
      - apply Hd, He2. lia. }
    destruct (run_fallback (tab s) (Mod s') (fresh s) (fresh s3) (i_id ip) cur (fresh s + 1) brid phi TS
      (chain_end b (fresh s3 + 1) chain).2 sa p n ip post m1 0 Ht) as (m2 & Eg & Hregs & Hload);
      try done; try lia; try (by rewrite R1, R3); try (by rewrite (keep_eval env (fresh s) m)).
    exists r, (L ++ [mkInst (fresh s3 + 1) (ICondBr EQ (chain_next (fresh s3) chain) (fresh s)) TVoid]), (length L + (k + 3))%nat, m2.
    split_and!; try done.
    + by rewrite Hrun, Hk.
    + intros q Hq. rewrite Hregs by lia. by apply Ksm.
    + destruct Hload as (l & t' & H1 & H2 & H3 & H4 & H5 & H6). rewrite R1, R3 in *. rewrite S1, S3 in *.
      exists l, t'. done.
  - assert (Hlbls : forall c, p <= c < p + n -> lbl (rt m) c = lbl (rt m) p).
    { apply Heq. split; [intros _; by destruct (Z.eqb_spec (lbl (rt m) p) (lbl (rt m) (p + 1)))|].
      intros i Hi. apply Hall. lia. }
    set (m2 := set_reg phi (MI (lbl (rt m) p)) m1).
    exists r, (L ++ [mkInst (fresh s3 + 1) (ICondBr EQ (chain_next (fresh s3) chain) (fresh s)) TVoid]), (length L + (k + 1))%nat, m2.
    split_and!; try done.
    + rewrite Hrun, Hk. unfold goto. rewrite (is_block_find _ _ _ HT).
      cbn [b_insts enter_block i_kind]. unfold phi_value.
      assert (Hne : (chain_end b (fresh s3 + 1) chain).2 <> fresh s).
      { eapply chain_end_bb; [done| |lia].
        pose proof (ap_blocks _ _ _ _ _ _ Hap _ (proj1 (ap_block _ _ _ _ _ _ Hap))) as Hbb. cbn in Hbb. lia. }
      rewrite filter_cons_False by (cbn; congruence). rewrite filter_cons_True by done. cbn [head fst].
      rewrite (keep_eval env (fresh s3 + 1 + 1) m3), ETS; [|done|by eapply below_mono; [|done]; lia].
      cbn. unfold is_phi in Hphi. destruct (i_kind ip); try done; by rewrite Z.eqb_refl.
    + intros q Hq. unfold m2. cbn. rewrite lookup_insert_ne by lia. by apply Ksm.
    + apply load_equal; try done; [lia| | |].
      * cbn. by rewrite lookup_insert_eq.
      * cbn. by rewrite R1.
      * cbn. by rewrite S1.
Qed.

(** ** Loads *)

Lemma load_ready_straight s L s1 b pre ip post p n m m1 :
  load_ready s b pre ip post p n m -> straight (i_id ip) s L s1 -> rt m1 = rt m ->
  load_ready s1 b (pre ++ L) ip post p n m1.
Proof.
  intros [Hw Ht Hap Hf Hphi Hok H32 Hr Hn Hroom Hsh] HL R1. destruct (straight_fields _ _ _ _ HL) as (E1 & _ & E3).
  split; rewrite ?R1, ?E1, ?E3; try done.
  - by apply at_point_straight with (1 := Hap).
  - rewrite (sl_eq _ _ _ _ HL). by apply has_fun_inserted.
Qed.
Lemma load_result_rt p n v m m1 m2 : rt m1 = rt m -> slots m1 = slots m ->
  load_result p n v m1 m2 -> load_result p n v m m2.
Proof. intros R S (l & t' & H1 & H2 & H3 & H4 & H5 & H6). rewrite R in *. rewrite S in *. by exists l, t'. Qed.

(** A single byte, and the call where there is no fast path. *)
Lemma load_one_spec Pos al sa p s m :
  st_ok (rt m) -> app_range p 1 -> eval env m sa = Some (MI (shadow_for p)) -> below (fresh s) sa ->
  shadow_ptr sa = true -> typeOf sa = ShadowPtrTy ->
  spec env Pos (CreateLoad (Before Pos) sa al) s m (fun v _ m' => load_result p 1 v m m').
Proof.
  intros Hok Hr Esa Bsa Psa Tsa. unfold CreateLoad. rewrite Tsa. cbn [pointee].
  assert (Hp : is_app p) by (unfold app_range, is_app in *; lia).
  eapply (spec_emit _ _ _ _ _ _ (set_reg (fresh s) (MI (lbl (rt m) p)) m)); [|by apply keep_set_reg|].
  - pose proof (read_shadow_app p (rt m) Hp) as Hld.
    cbn -[load_shadow]. destruct sa; try done; rewrite Esa; unfold with_rt, load_shadow, ShadowWidth;
      change (32 =? 32) with true; cbv iota; rewrite Hld; by destruct m.
  - apply load_equal; try done.
    + intros b Hb. by replace b with p by lia.
    + cbn. by rewrite lookup_insert_eq.
Qed.
Lemma load_call_spec Pos sa p n s m :
  IntptrWidth cfg = 64 -> tables_ok (tab s) -> st_ok (rt m) -> app_range p n -> 0 < n < 2 ^ 32 ->
  ls_room (tags (rt m)) (Z.to_nat n) -> shapes (rt m) p n -> eval env m sa = Some (MI (shadow_for p)) -> typeOf sa = ShadowPtrTy ->
  spec env Pos (CreateCall cfg (Before Pos) (DFSanUnionLoadFn (tab s)) [sa; VInt 64 n]) s m
    (fun v _ m' => load_result p n v m m').
Proof.
  intros Hw Ht Hok Hr Hn Hro Hsh Esa Tsa. pose proof Ht as (_ & _ & Hty & Hnd).
  destruct (dfsan_union_load_spec p n (rt m) Hok Hr Hn Hro Hsh) as (l & t' & El & Hext & Hval & Htn).
  assert (Hc : spec env Pos (emit (Before Pos) (ICall (DFSanUnionLoadFn (tab s)) [sa; VInt 64 n]) ShadowTy) s m
    (fun v _ m' => load_result p n v m m')).
  { eapply (spec_emit _ _ _ _ _ _ (set_reg (fresh s) (MI l) (set_rt (set_tags t' (rt m)) m))).
    - by apply (exec_union_load (tab s) (fresh s) sa p n m).
    - apply (keep_set_reg _ (set_rt (set_tags t' (rt m)) m)). done.
    - exists l, t'. split_and!; try done. cbn. by rewrite lookup_insert_eq. }
  destruct Hc as (a & L & s' & m' & E & Hc). exists a, L, s', m'. split; [|done].
  rewrite (create_call_ok _ _ _ (DFSanUnionLoadFnTy cfg)); [done| |].
  - unfold callee_type. by rewrite Hty.
  - unfold good_signature. cbn. unfold IntptrTy. rewrite Tsa, Hw. by rewrite bool_decide_eq_true_2.
Qed.

(** The address operand, and what the pass knows of it. *)
Record addr_ready (s : dst) (Addr : value) (p : Z) m : Prop := {
  ar_mask : mask_ready env X86_64 (tab s);
  ar_tls : RetvalTLS (tab s) <> Some Addr;
  ar_alloca : forall q t, Addr = VInst q t -> AllocaShadowMap (fn s) q = None;
  ar_eval : eval env m Addr = Some (MI p);
  ar_below : below (fresh s) Addr
}.
Lemma alloca_none s Addr p m : addr_ready s Addr p m -> alloca_shadow Addr s = Ok (None, s).
Proof.
  intros Har. unfold alloca_shadow, bind, gets, ret. do 2 f_equal.
  destruct Addr; try done. by apply (ar_alloca _ _ _ _ Har _ t).
Qed.

(** The variable that holds the label of a promoted one, if [Addr] is promoted. *)
Definition promoted (s : dst) (Addr : value) : option value :=
  match Addr with VInst q _ => AllocaShadowMap (fn s) q | _ => None end.
(** The variable has been written: it holds the label [l]. *)
Definition slot_holds (sa : value) (l : Z) (m : mc) : Prop :=
  const_global env sa = None /\ typeOf sa = ShadowPtrTy /\ exists q, eval env m sa = Some (MSlot q) /\ slots m !! q = Some l.
Lemma load_promoted_spec Pos sa l s m : slot_holds sa l m ->
  spec env Pos (CreateLoad (Before Pos) sa 0) s m (fun v _ m' => eval env m' v = Some (MI l) /\ rt m' = rt m /\ slots m' = slots m).
Proof.
  intros (Hc & Ht & q & Hq & Hl). unfold CreateLoad. rewrite Ht. cbn [pointee].
  eapply (spec_emit _ _ _ _ _ _ (set_reg (fresh s) (MI l) m)); [|by apply keep_set_reg|].
  - cbn [exec_inst i_kind i_id i_ty]. by rewrite Hc, Hq, Hl.
  - split; [cbn; by rewrite lookup_insert_eq|done].
Qed.

(** C1: the label of a load.  [loadShadow] returns and puts code in front of the load that
    leaves a label in its result, on every path through that code.  For [n] bytes of
    application memory (a single byte, the comparison of wide words, the fallback, the
    direct call) the input offsets of the label are offsets of the [n] bytes, and all of
    them as long as no join of the tag set has lost an offset, which [ls_exact] says; shadow
    memory is not changed and existing labels keep their meaning.  For a variable
    that the pass keeps the label of in a variable of its own, the label is what
    that variable holds.  A load from constant memory has the zero label and no code.
    Where the runtime is called, the labels must not look like one variable without
    being one. *)
Theorem loadShadow_exact s b pre ip post Addr p n al m :
  load_ready s b pre ip post p n m -> (promoted s Addr = None -> addr_ready s Addr p m) ->
  (AvoidNewBlocks (fn s) = true -> shapes (rt m) p n) ->
  (forall sa, promoted s Addr = Some sa -> exists l, slot_holds sa l m) ->
  exists v s', loadShadow cfg Addr n al (i_id ip) s = Ok (v, s') /\
    match promoted s Addr with
    | Some sa => reaches env s s' b pre (i_id ip) m (fun m' => rt m' = rt m /\ slots m' = slots m /\
        forall l, slot_holds sa l m -> eval env m' v = Some (MI l))
    | None =>
        if forallb constant_object (GetUnderlyingObjects cfg (Mod s) Addr)
        then v = ZeroShadow /\ s' = s
        else reaches env s s' b pre (i_id ip) m (load_result p n v m)
    end.
Proof.
  intros Hlr Haddr Havoid Hslot. pose proof Hlr as [Hw Ht Hap Hf Hphi Hok H32 Hr Hn Hroom Hsh].
  destruct (promoted s Addr) as [sa|] eqn:Epr.
  { destruct (Hslot sa eq_refl) as [l Hl]. unfold loadShadow, alloca_shadow.
    rewrite (bind_Ok _ _ s (Some sa) s) by (unfold bind, gets, ret; fold (promoted s Addr); by rewrite Epr).
    destruct (spec_reaches env _ s b pre ip post m _ Hap (load_promoted_spec (i_id ip) sa l s m Hl)) as (v & s' & E & Hre).
    exists v, s'. split; [done|]. eapply reaches_mono; [exact Hre|]. intros m2 (E2 & R2 & S2). split; [done|]. split; [done|].
    intros l' (_ & _ & q & Hq & Hl'). destruct Hl as (_ & _ & q0 & Hq0 & Hl0). congruence. }
  pose proof (Haddr eq_refl) as Har.
  unfold loadShadow. rewrite (bind_Ok _ _ _ _ _ (alloca_none _ _ _ _ Har)).
  rewrite !(bind_Ok (gets _) _ s _ s) by done.
  destruct (forallb constant_object _); [by exists ZeroShadow, s|].
  destruct (getShadowAddress_spec cfg env (i_id ip) X86_64 Addr p s m Hw (ar_mask _ _ _ _ Har)
    (ar_tls _ _ _ _ Har) (ar_eval _ _ _ _ Har) (ar_below _ _ _ _ Har)) as
    (sa & L & s1 & m1 & Esa & HL & EL & K1 & (Ev & Tv & Bv & R1 & S1) & Pv).
  change (shadow_for_on X86_64 p) with (shadow_for p) in Ev.
  rewrite (bind_Ok _ _ _ _ _ Esa). destruct (straight_fields _ _ _ _ HL) as (Etab & _ & Efn).
  pose proof (load_ready_straight _ _ _ _ _ _ _ _ _ _ m1 Hlr HL R1) as Hlr1.
  pose proof (lr_point _ _ _ _ _ _ _ _ Hlr1) as Hap1.
  enough (Hcont : exists v s', (if n =? 0 then ret ZeroShadow
      else if n =? 1 then CreateLoad (Before (i_id ip)) sa (al * ShadowWidth / 8)
      else if negb (AvoidNewBlocks (fn s)) && (n mod (64 / ShadowWidth) =? 0)
      then load_fast cfg sa n (al * ShadowWidth / 8) (i_id ip)
      else CreateCall cfg (Before (i_id ip)) (DFSanUnionLoadFn (tab s)) [sa; VInt (IntptrWidth cfg) n]) s1 =
        Ok (v, s') /\ reaches env s1 s' b (pre ++ L) (i_id ip) m1 (load_result p n v m)).
  { destruct Hcont as (v & s' & E & Hre). exists v, s'. split; [exact E|]. by eapply reaches_prefix. }
  destruct (Z.eqb_spec n 0); [lia|]. destruct (Z.eqb_spec n 1) as [->|Hn1].
  - destruct (spec_reaches env _ s1 b (pre ++ L) ip post m1 _ Hap1
      (load_one_spec (i_id ip) (al * ShadowWidth / 8) sa p s1 m1 (lr_rt _ _ _ _ _ _ _ _ Hlr1) Hr Ev Bv Pv Tv))
      as (v & s' & E & Hre). exists v, s'. split; [done|].
    eapply reaches_mono; [exact Hre|]. intros m2. by apply load_result_rt.
  - change (64 / ShadowWidth) with 2. rewrite Hw.
    destruct (negb (AvoidNewBlocks (fn s)) && (n mod 2 =? 0)) eqn:Hfast.
    + apply andb_true_iff in Hfast as [_ Heven]. apply Z.eqb_eq in Heven.
      destruct (load_fast_reaches b (pre ++ L) ip post sa p n (al * ShadowWidth / 8) s1 m1 Hlr1 Heven Ev Bv Pv Tv)
        as (v & s' & E & Hre). exists v, s'. split; [done|].
      eapply reaches_mono; [exact Hre|]. intros m2. by apply load_result_rt.
    + rewrite <-Etab. assert (Hshape : shapes (rt m1) p n).
      { rewrite R1. destruct (AvoidNewBlocks (fn s)) eqn:Hav; [by apply Havoid|]. cbn in Hfast.
        apply Z.eqb_neq in Hfast. unfold shapes, shape_sound. rewrite length_fmap. unfold labels_at.
        rewrite length_fmap, length_seq, Z2Nat.id by lia. intros [E|[E|E]]; by rewrite E in Hfast. }
      destruct (spec_reaches env _ s1 b (pre ++ L) ip post m1 _ Hap1
        (load_call_spec (i_id ip) sa p n s1 m1 Hw (lr_tables _ _ _ _ _ _ _ _ Hlr1)
          (lr_rt _ _ _ _ _ _ _ _ Hlr1) Hr Hn (lr_room _ _ _ _ _ _ _ _ Hlr1) Hshape Ev Tv)) as (v & s' & E & Hre).
      exists v, s'. split; [done|]. eapply reaches_mono; [exact Hre|]. intros m2. by apply load_result_rt.
Qed.

End LoadFast.
