(* ===== verification/DfsanPassCombine.v ===== *)
(** * Joins of labels in instrumented code

    The code that [combineShadows] of [DFSanPass.cc] emits.  The pass avoids code
    where it knows that a label contains another, from the elements it has noted for
    labels that it has joined, and uses an earlier join whose block dominates.  The
    theorems say that on every path the result stands for the offsets of both
    operands, and that the notes of the pass stay true. *)

From stdpp Require Import functions.
From S2P Require Import Prelude CMem Dfsan DfsanIr DfsanPass DfsanPassMach.
From S2P Require Import DfsanPassBlocks DfsanPassMem DfsanPassLoad.
Local Open Scope Z_scope.

(** ** The dominator tree *)

Inductive dom_path (dt : list (Z * Z)) (a : Z) : Z -> list Z -> Prop :=
| dom_here : dom_path dt a a []
| dom_up b c l : idom dt b = Some c -> dom_path dt a c l -> dom_path dt a b (b :: l).

Lemma idom_elem dt b c : idom dt b = Some c -> (b, c) ∈ dt.
Proof.
  unfold idom. destruct (filter _ dt) as [|[x y] r] eqn:E; [done|]. cbn. intros [= <-].
  assert (Hin : (x, y) ∈ filter (fun e => e.1 = b) dt) by (rewrite E; left).
  apply list_elem_of_filter in Hin as [Hx Hin]. cbn in Hx. by subst.
Qed.
Lemma dom_path_suffix dt a b l : dom_path dt a b l ->
  forall x, x ∈ l -> NoDup l -> exists k, dom_path dt a x k /\ NoDup k.
Proof.
  induction 1 as [|b c l Hb Hp IH]; intros x Hx Hn; [by apply elem_of_nil in Hx|].
  apply elem_of_cons in Hx as [->|Hx]; [exists (b :: l); split; [by econstructor|done]|].
  apply list.NoDup_cons in Hn as [_ Hn]. eauto.
Qed.
Lemma dom_path_nodup dt a b l : dom_path dt a b l -> exists k, dom_path dt a b k /\ NoDup k.
Proof.
  induction 1 as [|b c l Hb Hp (k & Hk & Hn)]; [exists []; split; constructor|].
  destruct (decide (b ∈ k)) as [Hin|Hin]; [by eapply dom_path_suffix|].
  exists (b :: k). split; [by econstructor|by constructor].
Qed.
Lemma dom_path_nodes dt a b l : dom_path dt a b l -> l ⊆ dt.*1.
Proof.
  induction 1 as [|b c l Hb Hp IH]; [by intros x ?%elem_of_nil|].
  intros x [->|Hx]%elem_of_cons; [|by apply IH]. apply idom_elem in Hb.
  apply list_elem_of_fmap. by exists (b, c).
Qed.
Lemma dom_walk_path dt a b l : dom_path dt a b l -> forall n, (length l <= n)%nat -> dom_walk n dt a b = true.
Proof.
  induction 1 as [|b c l Hb Hp IH]; intros n Hn; [destruct n; cbn; by rewrite Z.eqb_refl|].
  destruct n as [|n]; [cbn in Hn; lia|]. cbn in *. rewrite Hb, IH by lia. apply orb_true_r.
Qed.
Lemma path_dom_walk dt a n : forall b, dom_walk n dt a b = true -> exists l, dom_path dt a b l.
Proof.
  induction n as [|n IH]; intros b; cbn; rewrite orb_true_iff, Z.eqb_eq.
  - intros [->|?]; [|done]. exists []. constructor.
  - intros [->|Hw]; [exists []; constructor|]. destruct (idom dt b) as [c|] eqn:E; [|done].
    destruct (IH _ Hw) as [l Hl]. exists (b :: l). by econstructor.
Qed.
(** The fuel of [dominates] is enough. *)
Lemma dominates_path dt a b : dominates dt a b = true <-> exists l, dom_path dt a b l.
Proof.
  split; [apply path_dom_walk|]. intros [l Hl]. apply dom_path_nodup in Hl as (k & Hk & Hn).
  eapply dom_walk_path; [exact Hk|]. rewrite <-(length_fmap fst dt).
  apply submseteq_length, NoDup_submseteq; [done|]. by eapply dom_path_nodes.
Qed.

Definition dt_below (n : Z) (dt : list (Z * Z)) : Prop := Forall (fun e => e.1 < n /\ e.2 < n) dt.

Lemma idom_cons b d dt x : idom ((b, d) :: dt) x = if decide (b = x) then Some d else idom dt x.
Proof. unfold idom. rewrite filter_cons. cbn. by case_decide. Qed.
Lemma idom_change b d dt x :
  idom (changeImmediateDominator b d dt) x =
  if decide (b = x) then (fun _ => d) <$> idom dt x else idom dt x.
Proof.
  induction dt as [|[p q] dt IH]; [by case_decide|]. unfold changeImmediateDominator in *.
  rewrite fmap_cons. cbn [fst].
  destruct (Z.eqb_spec p b) as [->|Hne]; rewrite !idom_cons.
  - repeat case_decide; try done; rewrite IH; by repeat case_decide.
  - repeat case_decide; subst; try done; rewrite IH; by repeat case_decide.
Qed.
Lemma idom_change_all cs d x : forall dt,
  idom (fold_left (fun t c => changeImmediateDominator c d t) cs dt) x =
  if decide (x ∈ cs) then (fun _ => d) <$> idom dt x else idom dt x.
Proof.
  induction cs as [|c cs IH]; intros dt; cbn [fold_left].
  { rewrite decide_False; [done|apply not_elem_of_nil]. }
  rewrite IH, idom_change. pose proof (elem_of_cons cs x c) as Hc.
  repeat case_decide; try tauto; destruct (idom dt x); naive_solver.
Qed.

(** After a split the blocks that dominate the second half are those that dominated
    the block, and the half itself. *)
Lemma dominates_split dt n headb tailb thenb a :
  dt_below n dt -> n <= tailb -> n <= thenb -> thenb <> tailb -> headb < n ->
  dominates (addNewBlock thenb headb (dt_split headb tailb dt)) a tailb = true ->
  a = tailb \/ dominates dt a headb = true.
Proof.
  unfold dt_below. intros Hdt Ht Hth Hne Hh [l Hl]%dominates_path.
  assert (Hc : tailb ∉ dom_children dt headb).
  { intros ([x y] & E & Hin)%list_elem_of_fmap. cbn in E. subst.
    apply list_elem_of_filter in Hin as [_ Hin]. rewrite list.Forall_forall in Hdt.
    apply Hdt in Hin. cbn in Hin. lia. }
  set (dt' := addNewBlock thenb headb (dt_split headb tailb dt)) in *.
  assert (Hid : forall x, x <> thenb -> idom dt' x =
    if decide (x = tailb) then Some headb else
    if decide (x ∈ dom_children dt headb) then (fun _ => tailb) <$> idom dt x else idom dt x).
  { intros x Hx. unfold dt', dt_split, addNewBlock. rewrite idom_cons, decide_False by congruence.
    rewrite idom_change_all, idom_cons. repeat case_decide; subst; done. }
  enough (Hgen : forall x l, dom_path dt' a x l -> x = tailb \/ x < n ->
    a = tailb \/ (exists k, dom_path dt a headb k) \/ exists k, dom_path dt a x k /\ x < n).
  { destruct (Hgen _ _ Hl ltac:(by left)) as [?|[[k Hk]|(k & Hk & Hn)]]; [by left| |lia].
    right. apply dominates_path. eauto. }
  clear l Hl. intros x l. induction 1 as [|x y l Hy Hp IH]; intros Hx.
  - destruct Hx as [->|Hx]; [by left|]. right. right. exists []. split; [constructor|done].
  - rewrite Hid in Hy by lia. case_decide as Hxt.
    + injection Hy as <-. destruct (IH ltac:(by right)) as [?|[?|(k & Hk & _)]]; eauto.
    + assert (Hxn : x < n) by lia. case_decide as Hch.
      * destruct (idom dt x); [|done]. injection Hy as <-.
        destruct (IH ltac:(by left)) as [?|[?|(k & _ & ?)]]; [eauto..|lia].
      * pose proof (idom_elem _ _ _ Hy) as Hin. rewrite list.Forall_forall in Hdt.
        pose proof (Hdt _ Hin) as [_ Hyn]. cbn in Hyn.
        destruct (IH ltac:(by right)) as [?|[?|(k & Hk & _)]]; eauto.
        right. right. exists (x :: k). split; [by econstructor|done].
Qed.

(** ** What the pass knows *)

Section Notes.
Context {T OS : Type} `{!LabelStore T, !LabelStoreView T, !LabelStoreSpec T} (env : menv).
Abbreviation mc := (mach T OS).
Implicit Types (s : dst) (m : mc) (d : dfsf).

(** The value holds a label for the offsets [X]. *)
Definition means m (v : value) (X : gset Z) : Prop :=
  exists l, eval env m v = Some (MI l) /\ ls_valid (tags (rt m)) l /\ taint (tags (rt m)) l = X.
(** [Z] has no offset that [W] does not have, and all of them if no join has lost one. *)
Definition holds m (Z W : gset Z) : Prop := Z ⊆ W /\ (ls_exact (tags (rt m)) -> Z = W).

(** A shadow, and the elements that the pass has noted for it. *)
Record shadow_ok d (n : Z) m (v : value) (X : gset Z) : Prop := {
  so_type : typeOf v = ShadowTy;
  so_below : below n v;
  so_means : means m v X;
  so_elems : forall e, ShadowElements d v = Some e ->
    Forall (below n) e /\ exists Xs, Forall2 (means m) e Xs /\ holds m X (⋃ Xs)
}.
(** The notes of the pass are true at block [b]: a join that it would use again there
    is the join of its operands. *)
Record cache_ok d (n : Z) (b : Z) m : Prop := {
  co_dt : dt_below n (DT d);
  co_block k cb v : CachedCombinedShadows d k = Some (cb, v) -> cb < n;
  co_join k cb v : CachedCombinedShadows d k = Some (cb, v) -> dominates (DT d) cb b = true ->
    exists X Y Z, shadow_ok d n m k.1 X /\ shadow_ok d n m k.2 Y /\ shadow_ok d n m v Z /\ holds m Z (X ∪ Y)
}.

(** The machine has moved on, with [j] joins: older values are as before, labels keep
    their meaning. *)
Definition moved (j : nat) (n : Z) m (m' : mc) : Prop :=
  keep n m m' /\ slots m' = slots m /\
  exists t', rt m' = set_tags t' (rt m) /\ tags_ext j (tags (rt m)) t'.

Lemma moved_refl n m : st_ok (rt m) -> moved 0 n m m.
Proof.
  intros [Hok _]. split; [apply keep_refl|]. split; [done|]. exists (tags (rt m)).
  split; [by destruct (rt m)|by apply tags_ext_refl].
Qed.
Lemma moved_le i j n m m' : moved i n m m' -> (i <= j)%nat -> moved j n m m'.
Proof.
  intros (K & S & t' & R & E) Hle. split; [done|]. split; [done|]. exists t'. split; [done|by eapply tags_ext_le].
Qed.
Lemma moved_trans i j n n1 m m1 m2 : n <= n1 -> moved i n m m1 -> moved j n1 m1 m2 -> moved (i + j) n m m2.
Proof.
  intros Hn (K1 & S1 & t1 & R1 & E1) (K2 & S2 & t2 & R2 & E2).
  split; [by eapply keep_trans|]. split; [congruence|]. exists t2. rewrite R1 in R2, E2. split.
  - by rewrite R2, set_tags_set_tags.
  - by eapply tags_ext_trans.
Qed.
Lemma moved_ok j n m m' : st_ok (rt m) -> moved j n m m' -> st_ok (rt m').
Proof. intros Hok (_ & _ & t' & -> & E). by eapply st_ok_ext. Qed.
Lemma moved_room j n m m' k : moved j n m m' -> ls_room (tags (rt m)) (j + k) -> ls_room (tags (rt m')) k.
Proof. intros (_ & _ & t' & -> & E). apply (te_room _ _ _ E). Qed.
Lemma moved_holds j n m m' Z W : moved j n m m' -> holds m Z W -> holds m' Z W.
Proof. intros (_ & _ & t' & R & E) [H1 H2]. split; [done|]. rewrite R. intros He. by apply H2, (te_exact _ _ _ E). Qed.
Lemma moved_means j n m m' v X : moved j n m m' -> below n v -> means m v X -> means m' v X.
Proof.
  intros (K & _ & t' & R & E) Hb (l & Ev & Hv & <-). exists l. rewrite R. cbn [tags set_tags].
  destruct (te_label _ _ _ E l Hv) as [Hv' Ht]. by rewrite (keep_eval env n m).
Qed.
Lemma moved_shadow j d d' n n' m m' v X :
  moved j n m m' -> n <= n' -> ShadowElements d' v = ShadowElements d v ->
  shadow_ok d n m v X -> shadow_ok d' n' m' v X.
Proof.
  intros Hm Hn He [Ht Hb Hv Hel]. split.
  - done.
  - by eapply below_mono.
  - by eapply moved_means.
  - rewrite He. intros e Ee. destruct (Hel e Ee) as [Hbs (Xs & HXs & Hh)]. split.
    + eapply list.Forall_impl; [exact Hbs|]. intros x. by apply below_mono.
    + exists Xs. split; [|by eapply moved_holds]. clear He Ee Hel Hv Hh. induction HXs as [|x Y e Xs Hx _ IH]; [constructor|].
      apply list.Forall_cons in Hbs as [Hx' Hbs]. constructor; [by eapply moved_means|by apply IH].
Qed.
Lemma means_fun m v X Y : means m v X -> means m v Y -> X = Y.
Proof. intros (l & E & _ & <-) (l' & E' & _ & <-). congruence. Qed.
Lemma means_all_fun m e Xs Ys : Forall2 (means m) e Xs -> Forall2 (means m) e Ys -> Xs = Ys.
Proof.
  intros HX. revert Ys. induction HX as [|v X e Xs HX _ IH]; intros Ys HY; inversion HY; [done|].
  subst. f_equal; [by eapply means_fun|by apply IH].
Qed.

Lemma elem_means m e Xs v X : Forall2 (means m) e Xs -> v ∈ e -> means m v X -> X ⊆ ⋃ Xs.
Proof.
  induction 1 as [|u Y e Xs Hu _ IH]; intros Hin Hv; [by apply elem_of_nil in Hin|]. cbn.
  apply elem_of_cons in Hin as [->|Hin]; [|set_solver]. rewrite (means_fun m u X Y Hv Hu). set_solver.
Qed.
Lemma includes_means m e1 e2 Xs Ys :
  includes e1 e2 = true -> Forall2 (means m) e1 Xs -> Forall2 (means m) e2 Ys -> ⋃ Ys ⊆ ⋃ Xs.
Proof.
  intros Hi HX HY. induction HY as [|v Y e2 Ys Hv _ IH]; cbn in *; [set_solver|].
  apply andb_true_iff in Hi as [Hi1 Hi2]. apply bool_decide_eq_true in Hi1.
  pose proof (elem_means m e1 Xs v Y HX Hi1 Hv). specialize (IH Hi2). set_solver.
Qed.

(** The elements show that one of the two contains the other. *)
Lemma elements_shortcut_ok d n m V1 V2 X1 X2 v :
  shadow_ok d n m V1 X1 -> shadow_ok d n m V2 X2 -> elements_shortcut d V1 V2 = Some v ->
  exists Z, shadow_ok d n m v Z /\ holds m Z (X1 ∪ X2).
Proof.
  intros H1 H2. unfold elements_shortcut.
  assert (Hl : (ls_exact (tags (rt m)) -> X2 ⊆ X1) -> exists Z, shadow_ok d n m V1 Z /\ holds m Z (X1 ∪ X2)).
  { intros Hs. exists X1. split; [done|]. split; [set_solver|]. intros He. specialize (Hs He). set_solver. }
  assert (Hr : (ls_exact (tags (rt m)) -> X1 ⊆ X2) -> exists Z, shadow_ok d n m V2 Z /\ holds m Z (X1 ∪ X2)).
  { intros Hs. exists X2. split; [done|]. split; [set_solver|]. intros He. specialize (Hs He). set_solver. }
  destruct (ShadowElements d V1) as [e1|] eqn:E1; destruct (ShadowElements d V2) as [e2|] eqn:E2; try done.
  - destruct (so_elems _ _ _ _ _ H1 _ E1) as [_ (Xs & HX & _ & Ex1)], (so_elems _ _ _ _ _ H2 _ E2) as [_ (Ys & HY & Ex2 & _)].
    destruct (includes e1 e2) eqn:I1; [intros [= <-]|destruct (includes e2 e1) eqn:I2; [intros [= <-]|done]].
    + apply Hl. intros He. rewrite (Ex1 He). etrans; [exact Ex2|by eapply includes_means].
    + apply Hr. intros He. destruct (so_elems _ _ _ _ _ H2 _ E2) as [_ (Ys' & HY' & _ & Ex2')].
      destruct (so_elems _ _ _ _ _ H1 _ E1) as [_ (Xs' & HX' & Ex1' & _)].
      rewrite (Ex2' He). etrans; [exact Ex1'|by eapply includes_means].
  - case_bool_decide as Hin; [intros [= <-]|done].
    destruct (so_elems _ _ _ _ _ H1 _ E1) as [_ (Xs & HX & _ & Ex1)]. apply Hl. intros He. rewrite (Ex1 He).
    eapply elem_means; [done|done|apply H2].
  - case_bool_decide as Hin; [intros [= <-]|done].
    destruct (so_elems _ _ _ _ _ H2 _ E2) as [_ (Xs & HX & _ & Ex2)]. apply Hr. intros He. rewrite (Ex2 He).
    eapply elem_means; [done|done|apply H1].
Qed.
(** The elements of a value, its own if it is not a join. *)
Lemma elems_of_ok d n m v X : shadow_ok d n m v X ->
  Forall (below n) (elems_of d v) /\ exists Xs, Forall2 (means m) (elems_of d v) Xs /\ holds m X (⋃ Xs).
Proof.
  intros Hv. unfold elems_of. destruct (ShadowElements d v) as [e|] eqn:E; cbn [default].
  - by apply (so_elems _ _ _ _ _ Hv).
  - split; [constructor; [apply Hv|constructor]|]. exists [X]. split; [|by split; [|intros _]; cbn; set_solver].
    constructor; [apply Hv|constructor].
Qed.
Lemma union_all_app (Xs Ys : list (gset Z)) : ⋃ (Xs ++ Ys) = ⋃ Xs ∪ ⋃ Ys.
Proof. induction Xs as [|X Xs IH]; cbn; [|rewrite IH]; set_solver. Qed.
End Notes.

(** ** The code of a join *)

Section Union.
Context {T OS : Type} `{!LabelStore T, !LabelStoreView T, !LabelStoreSpec T} (cfg : config) (env : menv).
Abbreviation mc := (mach T OS).
Implicit Types (s : dst) (m : mc) (d : dfsf).

Lemma spec_icmp Pos pred x y a b s m :
  eval env m x = Some (MI a) -> eval env m y = Some (MI b) ->
  spec env Pos (CreateICmp (Before Pos) pred x y) s m
    (gives env (MI (if Bool.eqb (a =? b) (pred =? 32) then 1 else 0)) (TInt 1) m).
Proof.
  intros Hx Hy. unfold CreateICmp.
  assert (He : spec env Pos (emit (Before Pos) (ICmp pred x y) (TInt 1)) s m
    (gives env (MI (if Bool.eqb (a =? b) (pred =? 32) then 1 else 0)) (TInt 1) m)).
  { eapply spec_emit; [|by apply keep_set_reg|apply gives_reg]. cbn. unfold eval_int. by rewrite Hx, Hy. }
  destruct x; try exact He. destruct y; try exact He. simplify_eq/=. by apply spec_ret, gives_here.
Qed.

(** The call of the runtime, in either form. *)
Lemma exec_union (t : tables) f q V1 V2 X1 X2 d n m :
  tables_ok cfg t -> st_ok (rt m) ->
  shadow_ok env d n m V1 X1 -> shadow_ok env d n m V2 X2 -> n <= q ->
  (f = DFSanCheckedUnionFn t \/ f = DFSanUnionFn t /\ eval env m V1 <> eval env m V2) ->
  ls_room (tags (rt m)) 1 ->
  exists m', exec_inst env t (mkInst q (ICall f [V1; V2]) ShadowTy) m = Ok m' /\
    moved 1 n m m' /\ exists Z, means env m' (VInst q ShadowTy) Z /\ holds m' Z (X1 ∪ X2).
Proof.
  intros (_ & _ & _ & Hnd) [Hok _] [_ B1 (l1 & E1 & V1v & <-) _] [_ B2 (l2 & E2 & V2v & <-) _] Hq Hf Hroom.
  destruct (dfsan_union_spec l1 l2 (rt m) Hok V1v V2v Hroom) as (l & t' & El & Hext & Hv & Ht1 & Ht2).
  exists (set_reg q (MI l) (set_rt (set_tags t' (rt m)) m)). split_and!.
  - cbn -[decide]. unfold eval_int. rewrite E1, E2. cbn -[decide].
    unfold runtime_fns in Hnd. apply list.NoDup_cons in Hnd as [Hnd _]. rewrite !not_elem_of_cons in Hnd.
    destruct Hf as [->|[-> Hne]].
    + rewrite decide_False by naive_solver. rewrite decide_True by done. unfold with_rt. by rewrite El.
    + rewrite decide_True by done. unfold with_rt. unfold dfsan_union in El.
      destruct (Z.eqb_spec l1 l2); [congruence|]. by rewrite El.
  - split; [apply (keep_set_reg n (set_rt (set_tags t' (rt m)) m)); done|]. split; [done|]. by exists t'.
  - exists (taint t' l). split; [exists l; cbn [eval regs set_reg rt set_rt tags set_tags]; by rewrite lookup_insert_eq|].
    split; [set_solver|]. cbn [rt set_reg set_rt tags set_tags]. intros He. apply set_eq. intros o.
    rewrite elem_of_union. split; [apply Ht1|by apply Ht2].
Qed.

Lemma union_call_ok (t : tables) pt f V1 V2 s :
  tables_ok cfg t -> f = DFSanCheckedUnionFn t \/ f = DFSanUnionFn t ->
  typeOf V1 = ShadowTy -> typeOf V2 = ShadowTy ->
  CreateCall cfg pt f [V1; V2] s = emit pt (ICall f [V1; V2]) ShadowTy s.
Proof.
  intros (Hu & Hc & _) Hf T1 T2. apply (create_call_ok cfg pt f _ DFSanUnionFnTy).
  - unfold callee_type. destruct Hf as [-> | ->]; [by rewrite Hc|by rewrite Hu].
  - unfold good_signature. cbn. rewrite T1, T2. by rewrite bool_decide_eq_true_2.
Qed.

(** What [emit_union] leaves behind: the point is in block [b'] now. *)
Record union_state s (b b' : Z) (ip : inst) (post : list inst) (q : Z) (s' : dst) : Prop := {
  us_point : exists pre', at_point (Mod s') (fresh s') b' pre' ip post;
  us_fresh : fresh s <= q < fresh s';
  us_tab : tab s' = tab s;
  us_map : UnwrappedFnMap s' = UnwrappedFnMap s;
  us_fn : exists f, fn s' = set_DT f (fn s);
  us_block : b' < fresh s';
  us_below : dt_below (fresh s) (DT (fn s)) -> dt_below (fresh s') (DT (fn s'));
  us_dom a : dt_below (fresh s) (DT (fn s)) -> a < fresh s -> dominates (DT (fn s')) a b' = true ->
    dominates (DT (fn s)) a b = true
}.

Lemma dt_split_below n n' headb tailb thenb dt :
  dt_below n dt -> n <= n' -> headb < n' -> tailb < n' -> thenb < n' ->
  dt_below n' (addNewBlock thenb headb (dt_split headb tailb dt)).
Proof.
  intros Hd Hn Hh Ht Hth. constructor; [by cbn|]. unfold dt_split. generalize (dom_children dt headb).
  assert (Hd' : dt_below n' (addNewBlock tailb headb dt)).
  { constructor; [by cbn|]. eapply list.Forall_impl; [exact Hd|]. cbn. lia. }
  intros cs. revert Hd'. generalize (addNewBlock tailb headb dt).
  induction cs as [|c cs IH]; intros l Hl; cbn [fold_left]; [done|]. apply IH.
  apply Forall_fmap. eapply list.Forall_impl; [exact Hl|]. intros [x y] Hxy. cbn in *.
  destruct (Z.eqb_spec x c); cbn; lia.
Qed.

Lemma set_DT_id d : set_DT id d = d.
Proof. by destruct d. Qed.
Lemma parent_of_point s b pre ip post :
  at_point (Mod s) (fresh s) b pre ip post -> parent_of (i_id ip) s = Ok (b, s).
Proof. intros Hap. unfold parent_of, bind, gets, deref. by rewrite (at_point_block_of _ _ _ _ _ _ Hap). Qed.

(** Without new blocks: the call. *)
Lemma emit_union_call V1 V2 X1 X2 s b pre ip post m :
  tables_ok cfg (tab s) -> at_point (Mod s) (fresh s) b pre ip post -> st_ok (rt m) ->
  shadow_ok env (fn s) (fresh s) m V1 X1 -> shadow_ok env (fn s) (fresh s) m V2 X2 ->
  AvoidNewBlocks (fn s) = true -> ls_room (tags (rt m)) 1 ->
  exists q s', emit_union cfg V1 V2 (i_id ip) s = Ok ((b, VInst q ShadowTy), s') /\
    union_state s b b ip post q s' /\
    reaches env s s' b pre (i_id ip) m (fun m' =>
      moved 1 (fresh s) m m' /\ exists Z, means env m' (VInst q ShadowTy) Z /\ holds m' Z (X1 ∪ X2)).
Proof.
  intros Ht Hap Hok H1 H2 Hav Hroom. exists (fresh s).
  destruct (exec_union (tab s) (DFSanCheckedUnionFn (tab s)) (fresh s) V1 V2 X1 X2 (fn s) (fresh s) m)
    as (m' & E & Hm & Hv); try done; [by left|].
  set (L := [mkInst (fresh s) (ICall (DFSanCheckedUnionFn (tab s)) [V1; V2]) ShadowTy]).
  set (s' := emitted (i_id ip) (ICall (DFSanCheckedUnionFn (tab s)) [V1; V2]) ShadowTy s).
  assert (HL : straight (i_id ip) s L s').
  { split; [done|cbn; lia|]. repeat constructor; cbn; lia. }
  pose proof (at_point_straight _ _ _ _ _ _ _ Hap HL) as Hap'.
  pose proof (ap_blocks _ _ _ _ _ _ Hap' _ (proj1 (ap_block _ _ _ _ _ _ Hap'))) as Hb. cbn in Hb.
  assert (Ee : emit_union cfg V1 V2 (i_id ip) s = Ok ((b, VInst (fresh s) ShadowTy), s')).
  { unfold emit_union. rewrite !(bind_Ok (gets _) _ s _ s) by done. rewrite Hav.
    rewrite (bind_Ok _ _ s (VInst (fresh s) ShadowTy) s').
    2: { rewrite (union_call_ok (tab s)); [reflexivity|done|by left|apply H1|apply H2]. }
    by rewrite (bind_Ok _ _ _ _ _ (parent_of_point _ _ _ _ _ Hap')). }
  exists s'. split; [exact Ee|]. split.
  - split; try done; [by eexists|cbn; lia|exists id; by rewrite set_DT_id|].
    intros Hd. eapply list.Forall_impl; [exact Hd|]. cbn. lia.
  - destruct (spec_reaches env (fun s => Ok (tt, s')) s b pre ip post m
      (fun _ _ m' => moved 1 (fresh s) m m' /\ exists Z, means env m' (VInst (fresh s) ShadowTy) Z /\ holds m' Z (X1 ∪ X2)) Hap)
      as (u & s1 & [= _ <-] & Hre); [|exact Hre].
    exists tt, L, s', m'. split_and!; try done; [|apply Hm]. cbn [exec_list L]. by rewrite E.
Qed.

(** With new blocks: a comparison, the call in a block of its own, a phi. *)
Section Diamond.
Context (V1 V2 Ne : value) (t : tables) (md : module) (n b : Z) (pre : list inst) (ip : inst)
  (post : list inst) (Hap : at_point md n b pre ip post).

Definition d_term : inst := mkInst (n + 3) (ICondBr Ne (n + 1) n) TVoid.
Definition d_br : inst := mkInst (n + 2) (IBr n) TVoid.
Definition d_call : inst := mkInst (n + 4) (ICall (DFSanUnionFn t) [V1; V2]) ShadowTy.
Definition d_phi : inst := mkInst (n + 5) (IPhi [(VInst (n + 4) ShadowTy, n + 1); (V1, b)]) ShadowTy.
Definition d_split : module :=
  map_blocks (split_fun (i_id ip) b n d_term [mkBlock (n + 1) [d_br]]) md.
Definition diamond : module :=
  insert_at (Before (i_id ip)) d_phi (insert_at (Before (n + 2)) d_call d_split).

Lemma diamond_mids : Forall (fun c => n <= b_id c /\ b_id c <> n) [mkBlock (n + 1) [d_br]].
Proof. repeat constructor; cbn; lia. Qed.
Lemma diamond_call_point : at_point (insert_at (Before (n + 2)) d_call d_split) (n + 6) n [] ip post.
Proof.
  pose proof (at_point_ip _ _ _ _ _ _ Hap) as Hip.
  apply insert_elsewhere_point; [|change ([] ++ ip :: post) with (ip :: post)|cbn; lia..].
  - apply (df_split_point md n b pre ip post Hap); try (cbn; lia); [apply diamond_mids|].
    repeat constructor; cbn; try lia. rewrite list_elem_of_singleton. cbn. lia.
  - pose proof (is_block_below _ _ _ _ (at_point_below _ _ _ _ _ _ Hap) (ap_block _ _ _ _ _ _ Hap)) as [_ Hall].
    apply Forall_app in Hall as [_ Hall]. eapply ids_below; [exact Hall|lia].
Qed.
Lemma diamond_point : at_point diamond (n + 6) n [d_phi] ip post.
Proof.
  pose proof (at_point_ip _ _ _ _ _ _ Hap) as Hip.
  apply (at_point_insert _ _ _ []); [apply diamond_call_point|cbn; lia..].
Qed.
Lemma diamond_head : exists r, phi_only r /\ is_block diamond b (r pre ++ [d_term]).
Proof.
  pose proof (at_point_ip _ _ _ _ _ _ Hap) as Hip.
  destruct (split_head md n b pre ip post Hap n d_term [mkBlock (n + 1) [d_br]] ltac:(lia) diamond_mids eq_refl)
    as (r & Hr & Hb).
  exists r. split; [done|]. pose proof (is_block_below _ _ _ _ (at_point_below _ _ _ _ _ _ Hap) (ap_block _ _ _ _ _ _ Hap)) as [_ Hall].
  apply Forall_app in Hall as [Hall _]. unfold diamond.
  assert (Hn : ((n + 2) ∉ ids (r pre ++ [d_term])) /\ (i_id ip ∉ ids (r pre ++ [d_term]))).
  { rewrite ids_app, (po_ids _ Hr). rewrite !not_elem_of_app. cbn. rewrite !list_elem_of_singleton.
    split; (split; [|cbn; lia]); [eapply ids_below; [exact Hall|lia]|apply Hap]. }
  rewrite <-(df_ins_before_notin (i_id ip) d_phi (r pre ++ [d_term])) by apply Hn. apply is_block_map_insts.
  rewrite <-(df_ins_before_notin (n + 2) d_call (r pre ++ [d_term])) by apply Hn. by apply is_block_map_insts.
Qed.
Lemma diamond_then : is_block diamond (n + 1) [d_call; d_br].
Proof.
  pose proof (at_point_ip _ _ _ _ _ _ Hap) as Hip.
  assert (Hm : is_block d_split (n + 1) [d_br]).
  { apply (split_mid md n b pre ip post Hap); [lia|apply diamond_mids|left|].
    intros d Hd _. by apply list_elem_of_singleton in Hd. }
  unfold diamond. rewrite <-(df_ins_before_notin (i_id ip) d_phi [d_call; d_br]).
  - apply is_block_map_insts.
    pose proof (df_ins_before_at (n + 2) d_call [] d_br [] eq_refl ltac:(apply not_elem_of_nil)) as E.
    cbn [Datatypes.app] in E. rewrite <-E. by apply is_block_map_insts.
  - cbn. rewrite not_elem_of_cons, list_elem_of_singleton. cbn. lia.
Qed.
End Diamond.

Lemma emit_union_code V1 V2 Ne s s1 b pre pre1 ip post :
  tables_ok cfg (tab s) -> typeOf V1 = ShadowTy -> typeOf V2 = ShadowTy ->
  AvoidNewBlocks (fn s) = false ->
  at_point (Mod s) (fresh s) b pre ip post -> tab s1 = tab s ->
  CreateICmp (Before (i_id ip)) 33 V1 V2 s = Ok (Ne, s1) ->
  at_point (Mod s1) (fresh s1) b pre1 ip post ->
  let n := fresh s1 in
  emit_union cfg V1 V2 (i_id ip) s =
  Ok ((n, VInst (n + 5) ShadowTy),
      mkDst (diamond V1 V2 Ne (tab s) (Mod s1) n b ip) (n + 6) (tab s1) (UnwrappedFnMap s1)
        (set_DT (fun dt => addNewBlock (n + 1) b (dt_split b n dt)) (fn s1))).
Proof.
  intros Ht T1 T2 Hav Hap Etab Ene Hap1 n.
  unfold emit_union. rewrite !(bind_Ok (gets _) _ s _ s) by done. rewrite Hav.
  rewrite (bind_Ok _ _ _ _ _ (parent_of_point _ _ _ _ _ Hap)), (bind_Ok _ _ _ _ _ Ene).
  set (s2 := mkDst (d_split Ne (Mod s1) n b ip) (n + 4) (tab s1) (UnwrappedFnMap s1)
    (set_DT (fun dt => addNewBlock (n + 1) b (dt_split b n dt)) (fn s1))).
  assert (E2 : SplitBlockAndInsertIfThen Ne (i_id ip) true s1 = Ok ((n + 2, n + 1, n), s2)).
  { unfold SplitBlockAndInsertIfThen, new_id.
    set (s1' := with_fresh (with_fresh (with_fresh (with_fresh s1)))).
    assert (Ep : parent_of (i_id ip) s1' = Ok (b, s1')).
    { unfold parent_of, bind, gets, deref. cbn [Mod s1' with_fresh].
      by rewrite (at_point_block_of _ _ _ _ _ _ Hap1). }
    unfold bind at 1 2 3 4. fold s1'. rewrite (bind_Ok _ _ _ _ _ Ep). unfold bind, modify, when, ret, s2, s1', with_fn, with_mod, with_fresh.
    cbn. fold n. rewrite <-!Z.add_assoc. reflexivity. }
  rewrite (bind_Ok _ _ _ _ _ E2). cbn beta iota.
  set (s3 := mkDst (insert_at (Before (n + 2)) (d_call V1 V2 (tab s) n) (Mod s2)) (n + 5) (tab s1)
    (UnwrappedFnMap s1) (fn s2)).
  rewrite (bind_Ok _ _ s2 (VInst (n + 4) ShadowTy) s3).
  2: { rewrite (union_call_ok (tab s)); [|done|by right|done|done].
       unfold emit, bind, new_id, modify, ret, s3, with_mod, with_fresh. cbn. rewrite <-!Z.add_assoc. reflexivity. }
  pose proof (diamond_call_point V1 V2 Ne (tab s) (Mod s1) n b pre1 ip post Hap1) as Hp.
  rewrite (bind_Ok _ _ _ _ _ (is_block_front _ _ _ _ (ap_block _ _ _ _ _ _ Hp) s3 eq_refl)).
  unfold emit, bind, new_id, modify, ret, diamond, d_phi, with_mod, with_fresh. cbn. rewrite <-!Z.add_assoc. reflexivity.
Qed.

(** Entering the tail from block [cur]. *)
Lemma goto_tail (t : tables) md' n phi call thenb V1 b ip post cur m x k :
  is_block md' n (mkInst phi (IPhi [(VInst call ShadowTy, thenb); (V1, b)]) ShadowTy :: ip :: post) ->
  is_phi ip = false -> phi_value env m cur [(VInst call ShadowTy, thenb); (V1, b)] = Some x ->
  goto env t (S k) md' (i_id ip) cur n m = Ok (set_reg phi x m).
Proof.
  intros Hb Hp Hx. unfold goto. rewrite (is_block_find _ _ _ Hb). cbn [b_insts enter_block i_kind i_id].
  rewrite Hx. unfold is_phi in Hp. cbn [run]. destruct (i_kind ip); try done; by rewrite Z.eqb_refl.
Qed.

Lemma diamond_run (t : tables) V1 V2 Ne md n b pre ip post X1 X2 d n0 m v :
  tables_ok cfg t -> at_point md n b pre ip post -> is_phi ip = false -> st_ok (rt m) ->
  n0 <= n -> b <> n + 1 ->
  shadow_ok env d n0 m V1 X1 -> shadow_ok env d n0 m V2 X2 ->
  eval_int env m Ne = Some v -> (v = 0 <-> eval env m V1 = eval env m V2) -> ls_room (tags (rt m)) 1 ->
  exists k m', run env t k (diamond V1 V2 Ne t md n b ip) (i_id ip) b [d_term Ne n] m = Ok m' /\
    moved 1 n0 m m' /\ exists Z, means env m' (VInst (n + 5) ShadowTy) Z /\ holds m' Z (X1 ∪ X2).
Proof.
  intros Ht Hap Hp Hok Hn0 Hb H1 H2 Ev Hv Hroom.
  pose proof (at_point_ip _ _ _ _ _ _ Hap) as Hip.
  pose proof (ap_block _ _ _ _ _ _ (diamond_point V1 V2 Ne t md n b pre ip post Hap)) as Htl.
  pose proof (diamond_then V1 V2 Ne t md n b pre ip post Hap) as Hth.
  assert (Hmv : forall q x m1, n0 <= q -> moved 1 n0 m m1 -> moved 1 n0 m (set_reg q x m1)).
  { intros q x m1 Hq (K & S & t' & R). split; [|split; [done|by exists t']].
    intros y Hy. rewrite <-K by done. cbn. by rewrite lookup_insert_ne by lia. }
  destruct (decide (v = 0)) as [Hv0|Hv0].
  - destruct (so_means _ _ _ _ _ _ H1) as (l & E1 & Vl & Tl).
    destruct (so_means _ _ _ _ _ _ H2) as (l2 & E2 & _ & Tl2).
    assert (l2 = l) as -> by (apply Hv in Hv0; congruence).
    exists 2%nat, (set_reg (n + 5) (MI l) m). split_and!.
    + unfold d_term. rewrite (run_condbr _ _ _ _ _ _ _ _ _ _ _ v) by (done || lia). rewrite Hv0. cbn [Z.eqb].
      eapply goto_tail; [exact Htl|done|]. unfold phi_value.
      rewrite filter_cons_False by (cbn; congruence). rewrite filter_cons_True by done. exact E1.
    + apply Hmv; [lia|]. eapply moved_le; [by apply moved_refl|lia].
    + exists X1. split; [exists l; cbn [eval regs set_reg rt]; by rewrite lookup_insert_eq|].
      split; [set_solver|]. intros _. set_solver.
  - destruct (exec_union t (DFSanUnionFn t) (n + 4) V1 V2 X1 X2 d n0 m) as (m1 & E & Hm & Hmn);
      try done; [lia|by right; split; [|tauto]|].
    destruct Hmn as (Z & (l & El & Vl & Tl) & HZ).
    exists 4%nat, (set_reg (n + 5) (MI l) m1). split_and!.
    + unfold d_term. rewrite (run_condbr _ _ _ _ _ _ _ _ _ _ _ v) by (done || lia).
      destruct (Z.eqb_spec v 0); [done|].
      rewrite (goto_block env t _ _ _ _ _ _ _ Hth) by repeat constructor.
      unfold d_call, d_br in *. cbn [run i_id i_kind]. destruct (Z.eqb_spec (n + 4) (i_id ip)); [lia|].
      rewrite E. destruct (Z.eqb_spec (n + 2) (i_id ip)); [lia|].
      change (goto env t 1 (diamond V1 V2 Ne t md n b ip) (i_id ip) (n + 1) n m1 = Ok (set_reg (n + 5) (MI l) m1)).
      eapply goto_tail; [exact Htl|done|]. unfold phi_value. rewrite filter_cons_True by done. exact El.
    + apply Hmv; [lia|done].
    + exists Z. split; [|done]. exists l. cbn [eval regs set_reg rt]. by rewrite lookup_insert_eq.
Qed.

Lemma emit_union_branch V1 V2 X1 X2 s b pre ip post m :
  tables_ok cfg (tab s) -> at_point (Mod s) (fresh s) b pre ip post -> is_phi ip = false ->
  st_ok (rt m) ->
  shadow_ok env (fn s) (fresh s) m V1 X1 -> shadow_ok env (fn s) (fresh s) m V2 X2 ->
  AvoidNewBlocks (fn s) = false -> ls_room (tags (rt m)) 1 ->
  exists b' q s', emit_union cfg V1 V2 (i_id ip) s = Ok ((b', VInst q ShadowTy), s') /\
    union_state s b b' ip post q s' /\
    reaches env s s' b pre (i_id ip) m (fun m' =>
      moved 1 (fresh s) m m' /\ exists Z, means env m' (VInst q ShadowTy) Z /\ holds m' Z (X1 ∪ X2)).
Proof.
  intros Ht Hap Hp Hok H1 H2 Hav Hroom.
  destruct (so_means _ _ _ _ _ _ H1) as (l1 & E1 & _), (so_means _ _ _ _ _ _ H2) as (l2 & E2 & _).
  destruct (spec_icmp (i_id ip) 33 V1 V2 l1 l2 s m E1 E2) as (Ne & L & s1 & m1 & Ec & HL & EL & K1 & (Ev & _ & _ & R1 & S1)).
  pose proof (at_point_straight _ _ _ _ _ _ _ Hap HL) as Hap1. pose proof (sl_fresh _ _ _ _ HL) as F1.
  destruct (straight_fields _ _ _ _ HL) as (Et & Eu & Ef).
  pose proof (ap_blocks _ _ _ _ _ _ Hap _ (proj1 (ap_block _ _ _ _ _ _ Hap))) as Hb. cbn in Hb.
  assert (Hmv1 : moved 0 (fresh s) m m1).
  { split; [done|]. split; [done|]. exists (tags (rt m)). rewrite R1. split; [by destruct (rt m)|].
    apply tags_ext_refl, Hok. }
  set (n := fresh s1) in *.
  set (s' := mkDst (diamond V1 V2 Ne (tab s) (Mod s1) n b ip) (n + 6) (tab s1) (UnwrappedFnMap s1)
        (set_DT (fun dt => addNewBlock (n + 1) b (dt_split b n dt)) (fn s1))).
  exists n, (n + 5), s'. split; [|split].
  - by apply (emit_union_code V1 V2 Ne s s1 b pre (pre ++ L) ip post Ht (so_type _ _ _ _ _ _ H1) (so_type _ _ _ _ _ _ H2)).
  - split; cbn [Mod fresh tab UnwrappedFnMap fn s' DT set_DT]; try done; try lia.
    + eexists. by apply diamond_point with (1 := Hap1).
    + rewrite Ef. by eexists.
    + intros Hd. rewrite Ef. apply (dt_split_below (fresh s)); (done || lia).
    + intros a Hd Ha Hdom. rewrite Ef in Hdom.
      destruct (dominates_split (DT (fn s)) (fresh s) b n (n + 1) a) as [->|?]; try done; lia.
  - destruct (diamond_run (tab s) V1 V2 Ne (Mod s1) n b (pre ++ L) ip post X1 X2 (fn s) (fresh s) m1
      (if Bool.eqb (l1 =? l2) false then 1 else 0)) as (k & m' & Er & Hm & Hmn); try done; try lia.
    { by apply (moved_ok 0 (fresh s) m). }
    { by eapply moved_shadow; [exact Hmv1|lia|done|]. }
    { by eapply moved_shadow; [exact Hmv1|lia|done|]. }
    { unfold eval_int. by rewrite Ev. }
    { rewrite !(keep_eval env (fresh s) m m1) by (done || apply H1 || apply H2). rewrite E1, E2.
      destruct (Z.eqb_spec l1 l2) as [->|Hne]; cbn; [done|]. split; [done|]. congruence. }
    { by rewrite R1. }
    destruct (diamond_head V1 V2 Ne (tab s) (Mod s1) n b (pre ++ L) ip post Hap1) as (r & Hr & Hh).
    pose proof (ap_first _ _ _ _ _ _ Hap1) as Hf. rewrite ids_app, not_elem_of_app in Hf.
    exists r, (L ++ [d_term Ne n]), (length L + k)%nat, m'.
    pose proof (moved_trans _ _ _ _ _ _ _ (Z.le_refl _) Hmv1 Hm) as Hmv.
    split_and!; try done; [| |apply Hmv].
    + rewrite (po_app _ Hr), (po_same _ Hr L), <-app_assoc in Hh; [done|]. by eapply exec_no_phi.
    + rewrite (run_straight _ _ _ _ _ _ _ _ m1) by (done || apply Hf). done.
Qed.

(** *** The join *)

(** Everything is in place for a join at the point [ip]. *)
Record join_ready s (b : Z) (pre : list inst) (ip : inst) (post : list inst) m : Prop := {
  jr_tables : tables_ok cfg (tab s);
  jr_point : at_point (Mod s) (fresh s) b pre ip post;
  jr_phi : is_phi ip = false;
  jr_rt : st_ok (rt m);
  jr_cache : cache_ok env (fn s) (fresh s) b m
}.

(** The state after a join: the point is in block [b'], and what was known of other
    values is still known. *)
Record join_done s (b' : Z) (ip : inst) (post : list inst) m (v : value) (X : gset Z) s' (m' : mc) : Prop := {
  jd_moved : moved 1 (fresh s) m m';
  jd_value : exists Z, shadow_ok env (fn s') (fresh s') m' v Z /\ holds m' Z X;
  jd_ready : exists pre', join_ready s' b' pre' ip post m';
  jd_known V Y : shadow_ok env (fn s) (fresh s) m V Y -> shadow_ok env (fn s') (fresh s') m' V Y
}.

(** Nothing to do. *)
Lemma join_here s b pre ip post v Z X m :
  join_ready s b pre ip post m -> shadow_ok env (fn s) (fresh s) m v Z -> holds m Z X ->
  reaches env s s b pre (i_id ip) m (join_done s b ip post m v X s).
Proof.
  intros Hj Hv Hh. destruct (spec_reaches env (ret tt) s b pre ip post m
    (fun _ s' m' => s' = s /\ m' = m) (jr_point _ _ _ _ _ _ Hj)) as (u & s1 & E & Hre); [by apply spec_ret|].
  unfold ret in E. injection E as _ <-. eapply reaches_mono; [exact Hre|]. intros m' [_ ->].
  split; [eapply moved_le; [apply moved_refl, Hj|lia]|by exists Z|by exists pre|done].
Qed.

(** The notes after new code for the join of [V1] and [V2]. *)
Lemma join_noted s b ip post V1 V2 X1 X2 Z m b' q s1 (k : value * value) m' :
  cache_ok env (fn s) (fresh s) b m -> tables_ok cfg (tab s) -> is_phi ip = false -> st_ok (rt m) ->
  shadow_ok env (fn s) (fresh s) m V1 X1 -> shadow_ok env (fn s) (fresh s) m V2 X2 ->
  union_state s b b' ip post q s1 -> k = (V1, V2) \/ k = (V2, V1) ->
  moved 1 (fresh s) m m' -> means env m' (VInst q ShadowTy) Z -> holds m' Z (X1 ∪ X2) ->
  join_done s b' ip post m (VInst q ShadowTy) (X1 ∪ X2)
    (mkDst (Mod s1) (fresh s1) (tab s1) (UnwrappedFnMap s1)
      (set_ShadowElements (VInst q ShadowTy) (elems_of (fn s) V1 ++ elems_of (fn s) V2)
        (set_Cached k b' (VInst q ShadowTy) (fn s1)))) m'.
Proof.
  intros [Cd Cb Cj] Ht Hp Hok H1 H2 [(pre' & Hap) Hq Etab _ (f & Ef) Hb' Hbel Hdom] Hk Hm Hv Hh.
  set (v := VInst q ShadowTy) in *. set (d' := set_ShadowElements _ _ _).
  assert (Helse : forall u, u <> v -> ShadowElements d' u = ShadowElements (fn s) u).
  { intros u Hu. unfold d'. rewrite Ef. cbn. by rewrite fn_lookup_insert_ne. }
  assert (Hknown : forall u Y, shadow_ok env (fn s) (fresh s) m u Y -> shadow_ok env d' (fresh s1) m' u Y).
  { intros u Y Hu. eapply moved_shadow; [exact Hm|lia| |exact Hu]. apply Helse. intros ->.
    pose proof (so_below _ _ _ _ _ _ Hu) as Hbu. cbn in Hbu. lia. }
  assert (Hnew : shadow_ok env d' (fresh s1) m' v Z).
  { split; [done|cbn; lia|done|]. intros e. unfold d'. cbn. rewrite fn_lookup_insert. intros [= <-].
    destruct (elems_of_ok env (fn s) (fresh s) m V1 X1 H1) as [B1 (Xs & HXs & E1)].
    destruct (elems_of_ok env (fn s) (fresh s) m V2 X2 H2) as [B2 (Ys & HYs & E2)].
    split; [apply Forall_app; split; (eapply list.Forall_impl; [eassumption|]; intros x; apply below_mono; lia)|].
    exists (Xs ++ Ys). split.
    2: { rewrite union_all_app. destruct Hh as [Hh1 Hh2]. destruct (moved_holds _ _ _ _ _ _ Hm E1), (moved_holds _ _ _ _ _ _ Hm E2).
         split; [set_solver|]. intros He. rewrite Hh2 by done. f_equal; auto. }
    apply Forall2_app; [clear -HXs B1 Hm|clear -HYs B2 Hm].
    - induction HXs; [constructor|]. apply list.Forall_cons in B1 as [? ?]. constructor; [by eapply moved_means|auto].
    - induction HYs; [constructor|]. apply list.Forall_cons in B2 as [? ?]. constructor; [by eapply moved_means|auto]. }
  split; try done; [by exists Z|]. exists pre'. split; try done; cbn [tab fn fresh Mod].
  - by rewrite Etab.
  - by eapply moved_ok.
  - split.
    + by apply Hbel.
    + intros k0 cb u. unfold d'. cbn. rewrite Ef. cbn. destruct (decide (k = k0)) as [->|Hne].
      * rewrite fn_lookup_insert. intros [= <- _]. done.
      * rewrite fn_lookup_insert_ne by done. intros E. apply Cb in E. lia.
    + intros k0 cb u. change (DT d') with (DT (fn s1)). unfold d' at 1. cbn [CachedCombinedShadows set_ShadowElements set_Cached].
      rewrite Ef at 1. cbn [CachedCombinedShadows set_DT]. destruct (decide (k = k0)) as [->|Hne].
      * rewrite fn_lookup_insert. intros [= <- <-] _.
        destruct Hk as [-> | ->]; [by exists X1, X2, Z; auto|]. exists X2, X1, Z. cbn.
        rewrite (comm_L (∪) X2 X1). auto.
      * rewrite fn_lookup_insert_ne by done. intros E Hd. pose proof (Cb _ _ _ E) as Hcb.
        destruct (Cj _ _ _ E (Hdom cb Cd Hcb Hd)) as (X & Y & W & HA & HB & HU & HW). exists X, Y, W.
        split_and!; auto. by eapply moved_holds.
Qed.

Lemma zero_means m X : st_ok (rt m) -> means env m ZeroShadow X -> X = ∅.
Proof. intros [Hok _] (l & [= <-] & _ & <-). by apply taint_zero. Qed.
Lemma cache_key_cases V1 V2 : cache_key cfg V1 V2 = (V1, V2) \/ cache_key cfg V1 V2 = (V2, V1).
Proof. unfold cache_key. destruct (addr_gt cfg V1 V2); auto. Qed.
Lemma emit_union_reaches V1 V2 X1 X2 s b pre ip post m :
  join_ready s b pre ip post m ->
  shadow_ok env (fn s) (fresh s) m V1 X1 -> shadow_ok env (fn s) (fresh s) m V2 X2 ->
  ls_room (tags (rt m)) 1 ->
  exists b' q s', emit_union cfg V1 V2 (i_id ip) s = Ok ((b', VInst q ShadowTy), s') /\
    union_state s b b' ip post q s' /\
    reaches env s s' b pre (i_id ip) m (fun m' =>
      moved 1 (fresh s) m m' /\ exists Z, means env m' (VInst q ShadowTy) Z /\ holds m' Z (X1 ∪ X2)).
Proof.
  intros [Ht Hap Hp Hok _] H1 H2 Hroom. destruct (AvoidNewBlocks (fn s)) eqn:Hav.
  - destruct (emit_union_call V1 V2 X1 X2 s b pre ip post m) as (q & s' & ?); try done. by exists b, q, s'.
  - by apply emit_union_branch.
Qed.

Lemma join_shadows_reaches V1 V2 X1 X2 s b pre ip post m :
  join_ready s b pre ip post m ->
  shadow_ok env (fn s) (fresh s) m V1 X1 -> shadow_ok env (fn s) (fresh s) m V2 X2 ->
  ls_room (tags (rt m)) 1 ->
  exists v b' s', join_shadows cfg V1 V2 (i_id ip) s = Ok (v, s') /\
    ValShadowMap (fn s') = ValShadowMap (fn s) /\
    reaches env s s' b pre (i_id ip) m (join_done s b' ip post m v (X1 ∪ X2) s').
Proof.
  intros Hj H1 H2 Hroom. unfold join_shadows.
  assert (Hhere : forall v Z, shadow_ok env (fn s) (fresh s) m v Z -> holds m Z (X1 ∪ X2) ->
    exists v' b' s', ret v s = Ok (v', s') /\ ValShadowMap (fn s') = ValShadowMap (fn s) /\
      reaches env s s' b pre (i_id ip) m (join_done s b' ip post m v' (X1 ∪ X2) s')).
  { intros v Z Hv Hh. exists v, b, s. split; [done|]. split; [done|]. by eapply join_here. }
  assert (Hheq : forall v Z, shadow_ok env (fn s) (fresh s) m v Z -> Z = X1 ∪ X2 ->
    exists v' b' s', ret v s = Ok (v', s') /\ ValShadowMap (fn s') = ValShadowMap (fn s) /\
      reaches env s s' b pre (i_id ip) m (join_done s b' ip post m v' (X1 ∪ X2) s')).
  { intros v Z Hv ->. by apply (Hhere v (X1 ∪ X2)). }
  case_decide as Hz1; [|case_decide as Hz2; [|case_decide as He]].
  - apply (Hheq V2 X2); [done|]. subst. pose proof (zero_means m X1 (jr_rt _ _ _ _ _ _ Hj) (so_means _ _ _ _ _ _ H1)).
    set_solver.
  - apply (Hheq V1 X1); [done|]. subst. pose proof (zero_means m X2 (jr_rt _ _ _ _ _ _ Hj) (so_means _ _ _ _ _ _ H2)).
    set_solver.
  - apply (Hheq V1 X1); [done|]. subst. rewrite (means_fun env m V2 X1 X2 (so_means _ _ _ _ _ _ H1) (so_means _ _ _ _ _ _ H2)).
    set_solver.
  - rewrite (bind_Ok (gets fn) _ s (fn s) s) by done.
    destruct (elements_shortcut (fn s) V1 V2) as [v|] eqn:Es.
    { destruct (elements_shortcut_ok env _ _ _ _ _ _ _ _ H1 H2 Es) as (Z & HZ & Hh). by apply (Hhere v Z). }
    rewrite (bind_Ok _ _ _ _ _ (parent_of_point _ _ _ _ _ (jr_point _ _ _ _ _ _ Hj))).
    set (fu := bind (emit_union cfg V1 V2 (i_id ip)) _).
    assert (Hfu : exists v b' s', fu s = Ok (v, s') /\ ValShadowMap (fn s') = ValShadowMap (fn s) /\
      reaches env s s' b pre (i_id ip) m (join_done s b' ip post m v (X1 ∪ X2) s')).
    { destruct (emit_union_reaches V1 V2 X1 X2 s b pre ip post m Hj H1 H2 Hroom) as (b' & q & s1 & Eu & Hus & Hre).
      exists (VInst q ShadowTy), b', (mkDst (Mod s1) (fresh s1) (tab s1) (UnwrappedFnMap s1)
        (set_ShadowElements (VInst q ShadowTy) (elems_of (fn s) V1 ++ elems_of (fn s) V2)
          (set_Cached (cache_key cfg V1 V2) b' (VInst q ShadowTy) (fn s1)))).
      split; [unfold fu; by rewrite (bind_Ok _ _ _ _ _ Eu)|].
      split; [by destruct (us_fn _ _ _ _ _ _ _ Hus) as (f & Ef); cbn; rewrite Ef|].
      eapply reaches_mono; [exact Hre|]. intros m' (Hm & Z & Hv & Hh).
      eapply join_noted; try apply Hj; try done; apply cache_key_cases. }
    destruct (CachedCombinedShadows (fn s) (cache_key cfg V1 V2)) as [[cb v]|] eqn:Ec; [|done].
    destruct (dominates (DT (fn s)) cb b) eqn:Hd; [|done].
    destruct (co_join _ _ _ _ _ (jr_cache _ _ _ _ _ _ Hj) _ _ _ Ec Hd) as (X & Y & Z & HX & HY & HU & HZ).
    apply (Hhere v Z); [done|].
    destruct (cache_key_cases V1 V2) as [E|E]; rewrite E in HX, HY; cbn in HX, HY.
    + by rewrite (means_fun env m V1 X1 X), (means_fun env m V2 X2 Y) by (apply HX || apply HY || apply H1 || apply H2).
    + rewrite (means_fun env m V1 X1 Y), (means_fun env m V2 X2 X) by (apply HX || apply HY || apply H1 || apply H2).
      by rewrite (comm_L (∪)).
Qed.

(** *** Notes on labels *)

Lemma on_tags_note (f : T -> res T) (r : st T OS) t' :
  f (tags r) = Ok t' -> on_tags_ f r = Ok (tt, set_tags t' r).
Proof. unfold on_tags_. by intros ->. Qed.
(** A note on each of two labels that are not zero. *)
Lemma note_two (f : Z -> T -> res T) l1 l2 (r : st T OS) :
  (forall t l, ls_ok t -> ls_valid t l -> exists t', f l t = Ok t' /\ tags_ext 0 t t') ->
  ls_ok (tags r) -> ls_valid (tags r) l1 -> ls_valid (tags r) l2 ->
  exists t1 t', when (0 <? l1) (on_tags_ (f l1)) r = Ok (tt, set_tags t1 r) /\
    when (0 <? l2) (on_tags_ (f l2)) (set_tags t1 r) = Ok (tt, set_tags t' r) /\ tags_ext 0 (tags r) t'.
Proof.
  intros Hf Hok H1 H2.
  assert (Hone : forall l t, ls_ok t -> ls_valid t l -> exists t',
    when (0 <? l) (on_tags_ (f l)) (set_tags t r) = Ok (tt, set_tags t' r) /\ tags_ext 0 t t').
  { intros l t Hokt Hl. unfold when. destruct (0 <? l); [|exists t; split; [done|by apply tags_ext_refl]].
    destruct (Hf t l Hokt Hl) as (t' & E & He). exists t'. split; [|done].
    by rewrite (on_tags_note _ _ t'), set_tags_set_tags. }
  destruct (Hone l1 (tags r) Hok H1) as (t1 & E1 & He1). destruct (He1) as [Hok1 Hv1 _ _].
  destruct (Hone l2 t1 Hok1 (proj1 (Hv1 _ H2))) as (t2 & E2 & He2).
  exists t1, t2. replace (set_tags (tags r) r) with r in E1 by by destruct r.
  split; [done|]. split; [done|]. by apply (tags_ext_trans 0 0 _ t1).
Qed.
Lemma mark_signed_run l1 l2 (r : st T OS) :
  ls_ok (tags r) -> ls_valid (tags r) l1 -> ls_valid (tags r) l2 ->
  exists t', dfsan_mark_signed l1 l2 r = Ok (0, set_tags t' r) /\ tags_ext 0 (tags r) t'.
Proof.
  intros Hok H1 H2. destruct (note_two tag_set_mark_sign l1 l2 r) as (t1 & t' & E1 & E2 & He); try done.
  { intros t l Ht Hl. destruct (mark_sign_spec t l Ht Hl) as (t' & E & ?). by exists t'. }
  exists t'. split; [|done]. unfold dfsan_mark_signed. by rewrite (bind_Ok _ _ _ _ _ E1), (bind_Ok _ _ _ _ _ E2).
Qed.
Lemma infer_shape_run l1 l2 k (r : st T OS) :
  ls_ok (tags r) -> ls_valid (tags r) l1 -> ls_valid (tags r) l2 -> 0 < k ->
  exists t', dfsan_infer_shape_in_math_op l1 l2 k r = Ok (tt, set_tags t' r) /\ tags_ext 0 (tags r) t'.
Proof.
  intros Hok H1 H2 Hk. destruct (note_two (fun l => tag_set_infer_shape_in_math_op l k) l1 l2 r)
    as (t1 & t' & E1 & E2 & He); try done.
  { intros t l Ht Hl. destruct (math_op_spec t l k Ht Hl Hk) as (t' & E & ?). by exists t'. }
  exists t'. split; [|done]. unfold dfsan_infer_shape_in_math_op. by rewrite (bind_Ok _ _ _ _ _ E1).
Qed.

(** The functions for notes are declared with their types. *)
Definition notes_ok (t : tables) : Prop :=
  typeOf (DFSanMarkSignedFn t) = getPointerTo DFSanUnionFnTy /\
  typeOf (DFSanInferShapeFn t) = getPointerTo DFSanInferShapeFnTy /\
  typeOf (DFSanCombineAndFn t) = getPointerTo DFSanCombineAndFnTy.

(** A call of the runtime that makes a note. *)
Lemma note_call Pos f args ft s m t' m1 :
  callee_type f = Some ft -> good_signature ft args || NDEBUG cfg = true ->
  exec_inst env (tab s) (mkInst (fresh s) (ICall f args) (ft_ret ft)) m = Ok m1 ->
  keep (fresh s) m m1 -> slots m1 = slots m -> rt m1 = set_tags t' (rt m) -> tags_ext 0 (tags (rt m)) t' ->
  spec env Pos (CreateCall cfg (Before Pos) f args ;;; ret tt) s m (fun _ _ m' => moved 0 (fresh s) m m').
Proof.
  intros Hf Hg Ex Hk Hs Hr He. apply spec_bind. unfold CreateCall, deref. rewrite Hf.
  apply spec_bind, spec_ret, spec_bind, spec_assert; [done|].
  eapply spec_emit; [exact Ex|done|]. apply spec_ret. split; [done|]. split; [done|]. by exists t'.
Qed.

Lemma note_signed_spec V1 V2 X1 X2 ip s m :
  tables_ok cfg (tab s) -> notes_ok (tab s) -> st_ok (rt m) ->
  shadow_ok env (fn s) (fresh s) m V1 X1 -> shadow_ok env (fn s) (fresh s) m V2 X2 ->
  spec env (i_id ip) (note_signed cfg V1 V2 ip) s m (fun _ _ m' => moved 0 (fresh s) m m').
Proof.
  intros (_ & _ & _ & Hnd) (Hty & _) Hok [T1 B1 (l1 & E1 & Hv1 & _) _] [T2 B2 (l2 & E2 & Hv2 & _) _].
  unfold note_signed, when. destruct (is_signed_op (i_kind ip)); [|by apply spec_ret, moved_refl].
  destruct (mark_signed_run l1 l2 (rt m) (proj1 Hok) Hv1 Hv2) as (t' & El & He). apply spec_bind, spec_gets.
  eapply (note_call _ _ _ DFSanUnionFnTy _ _ t' (set_reg (fresh s) (MI 0) (set_rt (set_tags t' (rt m)) m))); try done.
  - unfold callee_type. by rewrite Hty.
  - unfold good_signature. cbn. rewrite T1, T2. by rewrite bool_decide_eq_true_2.
  - cbn -[decide]. unfold eval_int. rewrite E1, E2. cbn -[decide]. unfold runtime_fns in Hnd.
    apply list.NoDup_cons in Hnd as [N1 Hnd]. apply list.NoDup_cons in Hnd as [N2 Hnd].
    apply list.NoDup_cons in Hnd as [N3 _]. rewrite !not_elem_of_cons in N1, N2, N3.
    destruct N1 as (_ & _ & _ & _ & _ & _ & N1 & _), N2 as (_ & _ & _ & _ & _ & N2 & _), N3 as (_ & _ & _ & _ & N3 & _).
    rewrite 3!decide_False by congruence. rewrite decide_True by done. unfold with_rt. by rewrite El.
  - by apply (keep_set_reg _ (set_rt (set_tags t' (rt m)) m)).
Qed.
Lemma note_shape_spec V1 V2 X1 X2 ip s m :
  notes_ok (tab s) -> st_ok (rt m) ->
  shadow_ok env (fn s) (fresh s) m V1 X1 -> shadow_ok env (fn s) (fresh s) m V2 X2 ->
  spec env (i_id ip) (note_shape cfg V1 V2 ip) s m (fun _ _ m' => moved 0 (fresh s) m m').
Proof.
  intros (_ & Hty & _) Hok [T1 B1 (l1 & E1 & Hv1 & _) _] [T2 B2 (l2 & E2 & Hv2 & _) _].
  assert (Hc : forall k, spec env (i_id ip) (when ((0 <? k / 8) && (k mod 8 =? 0))
      (t <- gets tab ;; CreateCall cfg (Before (i_id ip)) (DFSanInferShapeFn t) [V1; V2; VInt ShadowWidth (k / 8)] ;;; ret tt))
      s m (fun _ _ m' => moved 0 (fresh s) m m')).
  { intros k. unfold when. destruct ((0 <? k / 8) && _) eqn:Hk; [|by apply spec_ret, moved_refl].
    apply andb_true_iff in Hk as [Hk _]. apply Z.ltb_lt in Hk. apply spec_bind, spec_gets.
    destruct (infer_shape_run l1 l2 (k / 8) (rt m) (proj1 Hok) Hv1 Hv2 Hk) as (t' & El & He).
    eapply (note_call _ _ _ DFSanInferShapeFnTy _ _ t' (set_rt (set_tags t' (rt m)) m)); try done.
    - unfold callee_type. by rewrite Hty.
    - unfold good_signature. cbn. rewrite T1, T2. by rewrite bool_decide_eq_true_2.
    - cbn -[decide]. unfold eval_int. rewrite E1, E2. cbn -[decide]. rewrite decide_True by done.
      unfold with_rt. by rewrite El. }
  unfold note_shape. destruct (i_kind ip); try (by apply spec_ret, moved_refl).
  destruct o; try (by apply spec_ret, moved_refl); apply Hc.
Qed.
Definition is_and (k : ikind) : bool := match k with IBin And _ _ _ _ => true | _ => false end.
Lemma note_and_spec V1 V2 X1 X2 ip s m :
  notes_ok (tab s) -> st_ok (rt m) -> NDEBUG cfg || negb (is_and (i_kind ip)) = true ->
  shadow_ok env (fn s) (fresh s) m V1 X1 -> shadow_ok env (fn s) (fresh s) m V2 X2 ->
  spec env (i_id ip) (note_and cfg V1 V2 ip) s m (fun _ _ m' => moved 0 (fresh s) m m').
Proof.
  intros (_ & _ & Hty) Hok Hnd H1 H2. unfold note_and.
  destruct (i_kind ip) as [o ? ? a1 a2| | | | | | | | | | | | | | | | | | | | |];
    try (by apply spec_ret, moved_refl).
  destruct o; try (by apply spec_ret, moved_refl). cbn in Hnd. rewrite orb_false_r in Hnd.
  assert (Hc : forall V X, shadow_ok env (fn s) (fresh s) m V X ->
    spec env (i_id ip) (CreateCall cfg (Before (i_id ip)) (DFSanCombineAndFn (tab s)) [V] ;;; ret tt) s m
      (fun _ _ m' => moved 0 (fresh s) m m')).
  { intros V X [_ B (l & E & Hv & _) _]. destruct (combine_and_spec (tags (rt m)) l (proj1 Hok) Hv) as (t' & El & He).
    eapply (note_call _ _ _ DFSanCombineAndFnTy _ _ t' (set_rt (set_tags t' (rt m)) m)); try done.
    - unfold callee_type. by rewrite Hty.
    - by rewrite Hnd, orb_true_r.
    - cbn -[decide]. unfold eval_int. rewrite E. cbn -[decide]. rewrite decide_True by done.
      unfold with_rt, dfsan_combine_and_ins. by rewrite (on_tags_note _ _ t'). }
  unfold when. destruct (isIntegerTy (typeOf a1) && _); [|by apply spec_ret, moved_refl].
  apply spec_bind, spec_gets. destruct (isConstantInt a1 && _); [by eapply Hc|].
  destruct (isConstantInt a2 && _); [by eapply Hc|by apply spec_ret, moved_refl].
Qed.

(** *** Combining shadows *)

Lemma cache_moved j d n n' b m m' :
  moved j n m m' -> n <= n' -> cache_ok env d n b m -> cache_ok env d n' b m'.
Proof.
  intros Hm Hn [Cd Cb Cj]. split.
  - eapply list.Forall_impl; [exact Cd|]. cbn. lia.
  - intros k cb v E. apply Cb in E. lia.
  - intros k cb v E Hd. destruct (Cj _ _ _ E Hd) as (X & Y & Z & HX & HY & HU & HZ). exists X, Y, Z.
    split_and!; [by eapply moved_shadow..|by eapply moved_holds].
Qed.
(** After straight-line code that makes notes. *)
Lemma ready_straight s b pre ip post m L s1 m1 :
  join_ready s b pre ip post m -> straight (i_id ip) s L s1 -> moved 0 (fresh s) m m1 ->
  join_ready s1 b (pre ++ L) ip post m1.
Proof.
  intros [Ht Hap Hp Hok Hc] HL Hm. destruct (straight_fields _ _ _ _ HL) as (E1 & _ & E3).
  split; rewrite ?E1, ?E3; try done.
  - by apply at_point_straight with (1 := Hap).
  - by eapply moved_ok.
  - eapply cache_moved; [exact Hm|apply HL|done].
Qed.
Lemma done_straight s ip L s1 m m1 b' post v X s' m' :
  straight (i_id ip) s L s1 -> moved 0 (fresh s) m m1 ->
  join_done s1 b' ip post m1 v X s' m' -> join_done s b' ip post m v X s' m'.
Proof.
  intros HL Hm [Dm Dv Dr Dk]. pose proof (sl_fresh _ _ _ _ HL) as Hf.
  destruct (straight_fields _ _ _ _ HL) as (_ & _ & E3). split; try done.
  - by apply (moved_trans 0 1 _ (fresh s1) _ m1).
  - intros V Y HV. apply Dk. rewrite E3. by eapply moved_shadow.
Qed.

Lemma notes_spec V1 V2 X1 X2 ip s m :
  tables_ok cfg (tab s) -> notes_ok (tab s) -> st_ok (rt m) ->
  NDEBUG cfg || negb (is_and (i_kind ip)) = true ->
  shadow_ok env (fn s) (fresh s) m V1 X1 -> shadow_ok env (fn s) (fresh s) m V2 X2 ->
  spec env (i_id ip) (note_and cfg V1 V2 ip ;;; note_signed cfg V1 V2 ip ;;; note_shape cfg V1 V2 ip) s m
    (fun _ _ m' => moved 0 (fresh s) m m').
Proof.
  intros Ht Hn Hok Hnd H1 H2. apply spec_bind.
  eapply spec_mono; [by eapply note_and_spec|]. intros [] L1 s1 m1 HL1 _ M1. apply spec_bind.
  destruct (straight_fields _ _ _ _ HL1) as (E1 & _ & F1). pose proof (sl_fresh _ _ _ _ HL1).
  eapply spec_mono; [eapply (note_signed_spec V1 V2 X1 X2); rewrite ?E1, ?F1; try done;
    [by eapply moved_ok|by eapply moved_shadow..]|].
  intros [] L2 s2 m2 HL2 _ M2. destruct (straight_fields _ _ _ _ HL2) as (E2 & _ & F2).
  pose proof (sl_fresh _ _ _ _ HL2).
  pose proof (moved_trans _ _ _ _ _ _ _ (sl_fresh _ _ _ _ HL1) M1 M2) as M12.
  eapply spec_mono; [eapply (note_shape_spec V1 V2 X1 X2); rewrite ?E2, ?E1, ?F2, ?F1; try done;
    [by eapply moved_ok|eapply moved_shadow; [exact M12|lia|done|done]..]|].
  intros [] L3 s3 m3 _ _ M3. apply (moved_trans 0 0 _ (fresh s2) _ m2); [lia|exact M12|exact M3].
Qed.

Lemma combineShadows_reaches V1 V2 X1 X2 s b pre ip post m :
  join_ready s b pre ip post m -> notes_ok (tab s) -> NDEBUG cfg || negb (is_and (i_kind ip)) = true ->
  shadow_ok env (fn s) (fresh s) m V1 X1 -> shadow_ok env (fn s) (fresh s) m V2 X2 ->
  ls_room (tags (rt m)) 1 ->
  exists v b' s', combineShadows cfg V1 V2 ip s = Ok (v, s') /\
    ValShadowMap (fn s') = ValShadowMap (fn s) /\
    reaches env s s' b pre (i_id ip) m (join_done s b' ip post m v (X1 ∪ X2) s').
Proof.
  intros Hj Hn Hnd H1 H2 Hroom.
  destruct (notes_spec V1 V2 X1 X2 ip s m (jr_tables _ _ _ _ _ _ Hj) Hn (jr_rt _ _ _ _ _ _ Hj) Hnd H1 H2)
    as ([] & L & s1 & m1 & E & HL & EL & K & Hm).
  pose proof (ready_straight _ _ _ _ _ _ _ _ _ Hj HL Hm) as Hj1.
  destruct (straight_fields _ _ _ _ HL) as (_ & _ & F1). pose proof (sl_fresh _ _ _ _ HL).
  destruct (join_shadows_reaches V1 V2 X1 X2 s1 b (pre ++ L) ip post m1 Hj1) as (v & b' & s' & Ej & Em & Hre);
    [by rewrite F1; eapply moved_shadow..|by apply (moved_room 0 (fresh s) m)|].
  exists v, b', s'. split_and!; [|by rewrite Em, F1|].
  - unfold combineShadows. revert E. unfold bind. destruct (note_and cfg V1 V2 ip s) as [[[] sa]|]; [|done].
    destruct (note_signed cfg V1 V2 ip sa) as [[[] sb]|]; [|done]. intros ->. exact Ej.
  - eapply reaches_prefix; [apply Hj|done|done|done|]. eapply reaches_mono; [exact Hre|].
    intros m'. by apply done_straight with (1 := HL).
Qed.

(** *** Binary operations and comparisons *)

Definition binary_operands (k : ikind) : option (value * value) :=
  match k with IBin _ _ _ x y | ICmp _ x y => Some (x, y) | _ => None end.
(** The shadow that [getShadow] gives without new code: of a constant, or of a value
    that has one. *)
Definition known_shadow d (x V : value) : Prop :=
  if negb (isArgument x) && negb (isInstruction x) then V = ZeroShadow
  else ValShadowMap d x = Some (Some V).
Lemma getShadow_known x V s : known_shadow (fn s) x V -> getShadow cfg x s = Ok (V, s).
Proof.
  unfold known_shadow, getShadow. destruct (negb (isArgument x) && _); [by intros ->|].
  intros E. rewrite (bind_Ok (gets fn) _ s (fn s) s) by done. by rewrite E.
Qed.

(** The shadow of the instruction is noted. *)
Lemma done_setShadow s b' ip post m V X s' m' I :
  join_done s b' ip post m V X s' m' ->
  join_done s b' ip post m V X (with_fn (set_ValShadowMap I (Some V)) s') m'.
Proof.
  intros [Dm Dv (pre' & [Rt Rp Ri Rr [Cd Cb Cj]]) Dk].
  pose proof (moved_refl (fresh s') m' Rr) as Hr.
  assert (Hs : forall U Y, shadow_ok env (fn s') (fresh s') m' U Y ->
    shadow_ok env (set_ValShadowMap I (Some V) (fn s')) (fresh s') m' U Y).
  { intros U Y HU. by apply (moved_shadow env 0 (fn s') _ (fresh s') _ m' m' U Y Hr). }
  split; [done|destruct Dv as (Z & HZ & Hh); exists Z; by split; [apply Hs|]| |by intros U Y HU; apply Hs, Dk].
  exists pre'. split; try done. split; try done.
  intros k cb v E Hd. destruct (Cj _ _ _ E Hd) as (A & B & Z & HA & HB & HU & HZ). exists A, B, Z.
  split_and!; [by apply Hs..|done].
Qed.
End Union.

Section Binary.
Context {T OS : Type} `{!LabelStore T, !LabelStoreView T, !LabelStoreSpec T} (cfg : config) (env : menv).

(** C2: for a binary operation or a comparison whose operands [x] and [y] have shadows
    for the offsets [X] and [Y], [visitOperandShadowInst] gives the instruction a
    shadow, and the code in front of it leaves there a label for [X ∪ Y] (for part of it
    only if a join of the tag set has lost an offset): on the path
    that calls the runtime, on the path where the labels are equal, and where the pass
    emits nothing because of what it knows.  Older labels keep their meaning, and
    what the pass has noted, with the cache of joins, stays true.  (With assertions
    [dfsan_combine_and_ins] cannot be called; the theorem leaves out [and] then.) *)
Theorem binary_shadow_exact s b pre ip post (m : mach T OS) x y V1 V2 X Y :
  join_ready cfg env s b pre ip post m -> notes_ok (tab s) ->
  NDEBUG cfg || negb (is_and (i_kind ip)) = true ->
  binary_operands (i_kind ip) = Some (x, y) ->
  known_shadow (fn s) x V1 -> known_shadow (fn s) y V2 ->
  shadow_ok env (fn s) (fresh s) m V1 X -> shadow_ok env (fn s) (fresh s) m V2 Y ->
  ValShadowMap (fn s) (inst_value ip) = None -> ls_room (tags (rt m)) 1 ->
  exists V b' s', visitOperandShadowInst cfg ip s = Ok (tt, s') /\
    ValShadowMap (fn s') (inst_value ip) = Some (Some V) /\
    reaches env s s' b pre (i_id ip) m (join_done cfg env s b' ip post m V (X ∪ Y) s').
Proof.
  intros Hj Hn Hnd Hop K1 K2 H1 H2 Hnew Hroom.
  destruct (combineShadows_reaches cfg env V1 V2 X Y s b pre ip post m Hj Hn Hnd H1 H2 Hroom)
    as (V & b' & s' & Ec & Em & Hre).
  exists V, b', (with_fn (set_ValShadowMap (inst_value ip) (Some V)) s'). split_and!.
  - assert (Ed : combineOperandShadows cfg ip s = Ok (V, s')).
    { unfold combineOperandShadows. replace (getOperands (i_kind ip)) with [x; y] by (by destruct (i_kind ip); simplify_eq/=).
      rewrite (bind_Ok _ _ _ _ _ (getShadow_known cfg x V1 s K1)), (bind_Ok (gets tab) _ s (tab s) s) by done.
      rewrite (bind_Ok _ _ s tt s) by (by destruct (i_kind ip)).
      cbn [combine_rest]. rewrite (bind_Ok _ _ _ _ _ (getShadow_known cfg y V2 s K2)).
      by rewrite (bind_Ok _ _ _ _ _ Ec). }
    destruct Hre as (r & code & fuel & m' & _ & _ & _ & _ & HD).
    unfold visitOperandShadowInst. rewrite (bind_Ok _ _ _ _ _ Ed). unfold setShadow.
    rewrite (bind_Ok (gets fn) _ s' (fn s') s') by done. rewrite Em, Hnew. unfold assert at 1.
    rewrite (bind_Ok _ _ s' tt s') by done. unfold assert.
    destruct (jd_value _ _ _ _ _ _ _ _ _ _ _ HD) as (Z & HZ & _).
    by rewrite bool_decide_eq_true_2 by apply HZ.
  - cbn. by rewrite fn_lookup_insert.
  - eapply reaches_mono; [exact Hre|]. intros m'. by apply done_setShadow.
Qed.
End Binary.
