(* ===== verification/DfsanPassSetup.v ===== *)
(** * The start of the data-flow pass

    [doInitialization] and the first part of [runOnModule] of [DFSanPass.cc]: the mask
    of the target and the globals and functions of the runtime.  After them, the
    address that instrumented code computes for the shadow of a byte is the address
    that the runtime uses ([shadow_for] of dfsan.h, with the mapping of
    dfsan_platform.h), on every supported target. *)

From S2P Require Import Prelude CMem Dfsan DfsanIr DfsanPass DfsanPassMach.
From S2P Require Import DfsanPassBlocks DfsanPassMem DfsanPassLoad DfsanPassCombine.
Local Open Scope Z_scope.

(** ** Declarations *)

(** Functions have addresses of their own, below the next unused one. *)
Definition ids_ok (s : dst) : Prop :=
  NoDup (fn_id <$> m_funs (Mod s)) /\ Forall (fun f => fn_id f < fresh s) (m_funs (Mod s)).

Definition fn_root (v : value) : option Z :=
  match v with VFun p _ | VCast BitCast (VFun p _) _ => Some p | _ => None end.
(** [v] is the function with name [n], cast to the type that the pass uses. *)
Definition declared (m : module) (n : string) (v : value) : Prop :=
  exists f, fun_named m n = Some f /\ fn_root v = Some (fn_id f).

(** The module gets functions and globals. *)
Record grow (s s' : dst) : Prop := {
  gr_named k f : fun_named (Mod s) k = Some f -> fun_named (Mod s') k = Some f;
  gr_ids : ids_ok s -> ids_ok s';
  gr_tab : tab s' = tab s
}.
Lemma grow_refl s : grow s s.
Proof. done. Qed.
Lemma grow_trans s s1 s2 : grow s s1 -> grow s1 s2 -> grow s s2.
Proof. intros [A1 B1 C1] [A2 B2 C2]. split; [auto|auto|congruence]. Qed.
Lemma grow_declared s s' n v : grow s s' -> declared (Mod s) n v -> declared (Mod s') n v.
Proof. intros Hg (f & Hf & Hr). exists f. split; [by apply Hg|done]. Qed.

Lemma fun_named_Some m n f : fun_named m n = Some f -> f ∈ m_funs m /\ fn_name f = n.
Proof.
  unfold fun_named. intros E. destruct (filter _ _) as [|g l] eqn:Ef; [done|]. injection E as ->.
  assert (Hin : f ∈ filter (fun g => fn_name g = n) (m_funs m)) by (rewrite Ef; left).
  by apply list_elem_of_filter in Hin as [??].
Qed.
Lemma fun_named_app m l k f : fun_named m k = Some f ->
  fun_named (with_funs (fun fs => fs ++ l) m) k = Some f.
Proof.
  unfold fun_named, with_funs. cbn. intros E. rewrite list.filter_app.
  destruct (filter (fun g => fn_name g = k) (m_funs m)); [done|]. exact E.
Qed.
Lemma fun_named_last m n f : fun_named m n = None -> fn_name f = n ->
  fun_named (with_funs (fun fs => fs ++ [f]) m) n = Some f.
Proof.
  unfold fun_named, with_funs. cbn. intros E Hn. rewrite list.filter_app.
  destruct (filter (fun g => fn_name g = n) (m_funs m)); [|done]. by rewrite filter_cons_True.
Qed.

Lemma getOrInsertFunction_ok n t s :
  exists v s', getOrInsertFunction n t s = Ok (v, s') /\ grow s s' /\ declared (Mod s') n v /\
    typeOf v = getPointerTo t /\ m_globals (Mod s') = m_globals (Mod s).
Proof.
  unfold getOrInsertFunction. rewrite (bind_Ok (gets Mod) _ s (Mod s) s) by done.
  destruct (fun_named (Mod s) n) as [f|] eqn:E.
  - exists (getBitCast (func_value f) (getPointerTo t)), s.
    split; [done|]. split; [apply grow_refl|]. split; [|split; [apply getBitCast_type|done]].
    exists f. split; [done|]. unfold getBitCast, func_value. by case_decide.
  - set (f := mkFunc (fresh s) n t ExternalLinkage []).
    exists (VFun (fresh s) (fun_ty t)), (mkDst (with_funs (fun l => l ++ [f]) (Mod s)) (fresh s + 1) (tab s)
      (UnwrappedFnMap s) (fn s)).
    split; [done|]. split; [|split; [|done]].
    + split; [|intros [Hn Hb]|done]; cbn [Mod].
      * intros k g. apply fun_named_app.
      * split; cbn.
        -- rewrite fmap_app. apply list.NoDup_app. split_and!; [done| |apply NoDup_singleton].
           intros x (g & -> & Hg)%list_elem_of_fmap. rewrite list.Forall_forall in Hb. apply Hb in Hg.
           cbn. rewrite list_elem_of_singleton. lia.
        -- apply Forall_app. split; [|constructor; [cbn; lia|constructor]].
           eapply list.Forall_impl; [exact Hb|]. cbn. lia.
    + exists f. split; [by apply fun_named_last|done].
Qed.
(** A global of type [t]: the variable itself, unless there was one of another type. *)
Lemma getOrInsertGlobal_ok n t tls s :
  exists v s', getOrInsertGlobal n t tls s = Ok (v, s') /\ grow s s' /\
    ((forall g, g ∈ m_globals (Mod s) -> g.1.1 = n -> g.1.2 = t) -> v = VGlobal n t false) /\
    (forall k u, (forall g, g ∈ m_globals (Mod s) -> g.1.1 = k -> g.1.2 = u) -> k <> n ->
       forall g, g ∈ m_globals (Mod s') -> g.1.1 = k -> g.1.2 = u).
Proof.
  unfold getOrInsertGlobal. rewrite (bind_Ok (gets Mod) _ s (Mod s) s) by done.
  destruct (filter _ (m_globals (Mod s))) as [|[[n' t'] b] l] eqn:E; cbn [head].
  - eexists _, _. split; [reflexivity|]. split; [done|]. split; [done|].
    intros k u Hall Hk g. cbn. rewrite elem_of_app, list_elem_of_singleton. intros [Hg| ->]; [by apply Hall|].
    cbn. congruence.
  - assert (Hin : (n', t', b) ∈ filter (fun g => g.1.1 = n) (m_globals (Mod s))) by (rewrite E; left).
    apply list_elem_of_filter in Hin as [Hn Hin]. cbn in Hn. subst n'.
    set (v := getBitCast (VGlobal n t' false) (TPtr t)).
    assert (Hv : (forall g, g ∈ m_globals (Mod s) -> g.1.1 = n -> g.1.2 = t) -> v = VGlobal n t false).
    { intros Hall. apply Hall in Hin; [|done]. cbn in Hin. subst t'. unfold v, getBitCast. cbn. by case_decide. }
    unfold when. destruct (tls && _).
    + eexists v, _. split; [reflexivity|]. split; [done|]. split; [done|].
      intros k u Hall Hk g (g0 & -> & Hg)%list_elem_of_fmap. case_bool_decide; [cbn; congruence|by apply Hall].
    + exists v, s. by split_and!.
Qed.

(** Different names are different values. *)
Lemma declared_NoDup m ns vs :
  NoDup (fn_id <$> m_funs m) -> NoDup ns -> Forall2 (declared m) ns vs -> NoDup vs.
Proof.
  intros Hm Hns HD. induction HD as [|n v ns vs Hv HD IH]; [constructor|].
  apply list.NoDup_cons in Hns as [Hn Hns]. constructor; [|by apply IH]. intros Hin. apply Hn. clear IH Hns Hn.
  induction HD as [|n' v' ns vs Hv' _ IH]; [by apply elem_of_nil in Hin|].
  apply elem_of_cons in Hin as [<-|Hin]; [|right; by apply IH]. apply elem_of_cons. left.
  destruct Hv as (f & Hf & Er), Hv' as (g & Hg & Er'). rewrite Er in Er'. injection Er' as Eid.
  apply fun_named_Some in Hf as [Hf <-], Hg as [Hg <-]. f_equal.
  apply list_elem_of_lookup in Hf as [i Hi], Hg as [j Hj].
  assert (i = j) as <-; [|congruence]. eapply NoDup_lookup; [exact Hm|..]; rewrite list_lookup_fmap.
  - by rewrite Hi.
  - rewrite Hj. cbn. by rewrite Eid.
Qed.

(** ** The tables *)

Section Declare.
Context (cfg : config).

(** Running a declaration and going on. *)
Definition wp {A} (g : D A) (s : dst) (Q : A -> dst -> Prop) : Prop :=
  exists a s', g s = Ok (a, s') /\ Q a s'.
Lemma wp_bind {A B} (g : D A) (k : A -> D B) s (Q : B -> dst -> Prop) :
  wp g s (fun a s1 => wp (k a) s1 Q) -> wp (bind g k) s Q.
Proof. intros (a & s1 & E & b & s2 & E2 & HQ). exists b, s2. by rewrite (bind_Ok _ _ _ _ _ E). Qed.
Lemma wp_declare {A} n t (k : value -> D A) s (Q : A -> dst -> Prop) :
  (forall v s1, grow s s1 -> declared (Mod s1) n v -> typeOf v = getPointerTo t -> wp (k v) s1 Q) ->
  wp (bind (getOrInsertFunction n t) k) s Q.
Proof.
  intros Hk. apply wp_bind. destruct (getOrInsertFunction_ok n t s) as (v & s' & E & Hg & Hd & Ht & _).
  exists v, s'. eauto.
Qed.

Definition runtime_names : list string :=
  ["__dfsan_union"; "dfsan_union"; "__dfsan_union_load"; "__dfsan_unimplemented";
   "__dfsan_set_label"; "__dfsan_nonzero_label"; "__dfsan_vararg_wrapper"; "dfsan_mark_signed";
   "dfsan_combine_and_ins"; "dfsan_infer_shape_in_math_op"]%string.

(** What [declare_runtime] makes of the tables. *)
Record declared_tables (s : dst) (t0 t : tables) : Prop := {
  dt_fns : Forall2 (declared (Mod s)) runtime_names (runtime_fns t);
  dt_ok : typeOf (DFSanUnionFn t) = getPointerTo DFSanUnionFnTy /\
    typeOf (DFSanCheckedUnionFn t) = getPointerTo DFSanUnionFnTy /\
    typeOf (DFSanUnionLoadFn t) = getPointerTo (DFSanUnionLoadFnTy cfg);
  dt_notes : notes_ok t;
  dt_mask : ShadowPtrMask t = ShadowPtrMask t0 /\ DFSanRuntimeShadowMask t = DFSanRuntimeShadowMask t0
}.
Definition mask_global : string := "__dfsan_shadow_ptr_mask".
Definition globals_ok (s : dst) : Prop :=
  forall g, g ∈ m_globals (Mod s) -> g.1.1 = mask_global -> g.1.2 = IntptrTy cfg.

Lemma wp_global {A} n t tls (k : value -> D A) s (Q : A -> dst -> Prop) :
  (forall v s1, grow s s1 -> (n <> mask_global -> globals_ok s -> globals_ok s1) ->
     ((n, t) = (mask_global, IntptrTy cfg) -> globals_ok s -> v = VGlobal n t false) -> wp (k v) s1 Q) ->
  wp (bind (getOrInsertGlobal n t tls) k) s Q.
Proof.
  intros Hk. apply wp_bind. destruct (getOrInsertGlobal_ok n t tls s) as (v & s' & E & Hg & Hv & Ho).
  exists v, s'. split; [done|]. apply Hk; [done| |].
  - intros Hn Hok. exact (Ho mask_global (IntptrTy cfg) Hok (fun e => Hn (eq_sym e))).
  - intros [= -> ->] Hok. by apply Hv.
Qed.
Lemma wp_tls {A} (o : option Z) n t d (k : option value -> D A) s (Q : A -> dst -> Prop) :
  n <> mask_global ->
  (forall v s1, grow s s1 -> (globals_ok s -> globals_ok s1) -> wp (k v) s1 Q) ->
  wp (bind (match o with None => g <- getOrInsertGlobal n t true ;; ret (Some g) | Some _ => ret d end) k) s Q.
Proof.
  intros Hn Hk. apply wp_bind. destruct o.
  - exists d, s. split; [done|]. by apply Hk.
  - apply wp_global. intros v s1 Hg Hok _. exists (Some v), s1. split; [done|]. apply Hk; [done|auto].
Qed.

Lemma declare_runtime_ok s :
  wp (declare_runtime cfg) s (fun _ s' => declared_tables s' (tab s) (tab s') /\ (ids_ok s -> ids_ok s') /\
    (globals_ok s -> ExternalShadowMask (tab s') = VGlobal mask_global (IntptrTy cfg) false)).
Proof.
  unfold declare_runtime. apply wp_bind. exists (tab s), s. split; [done|].
  apply wp_tls; [done|]. intros a s1 G1 O1. apply wp_tls; [done|]. intros r s2 G2 O2.
  apply wp_global. intros mv s3 G3 _ O3.
  apply wp_declare. intros v4 s4 G4 D4 T4. apply wp_declare. intros v5 s5 G5 D5 T5.
  apply wp_declare. intros v6 s6 G6 D6 T6. apply wp_declare. intros v7 s7 G7 D7 T7.
  apply wp_declare. intros v8 s8 G8 D8 T8. apply wp_declare. intros v9 s9 G9 D9 T9.
  apply wp_declare. intros v10 s10 G10 D10 T10. apply wp_declare. intros v11 s11 G11 D11 T11.
  apply wp_declare. intros v12 s12 G12 D12 T12. apply wp_declare. intros v13 s13 G13 D13 T13.
  eexists _, _. split; [reflexivity|].
  pose proof (grow_trans _ _ _ (grow_trans _ _ _ G1 G2) G3) as G03.
  pose proof (grow_trans _ _ _ G12 G13) as H12. pose proof (grow_trans _ _ _ G11 H12) as H11.
  pose proof (grow_trans _ _ _ G10 H11) as H10. pose proof (grow_trans _ _ _ G9 H10) as H9.
  pose proof (grow_trans _ _ _ G8 H9) as H8. pose proof (grow_trans _ _ _ G7 H8) as H7.
  pose proof (grow_trans _ _ _ G6 H7) as H6. pose proof (grow_trans _ _ _ G5 H6) as H5.
  pose proof (grow_trans _ _ _ G4 H5) as H4.
  split; [split|split]; cbn [Mod with_tab tab].
  - repeat constructor; cbn; (eapply grow_declared; [|eassumption]); first [eassumption|apply grow_refl].
  - done.
  - done.
  - done.
  - intros Hi. destruct (grow_trans _ _ _ G03 H4) as [_ Hids _]. exact (Hids Hi).
  - intros Hok. cbn. apply O3; [done|]. by apply O2, O1.
Qed.

Lemma declared_tables_ok s t0 t : declared_tables s t0 t -> ids_ok s -> tables_ok cfg t.
Proof.
  intros [Hf (H1 & H2 & H3) _ _] [Hn _]. split_and!; try done.
  eapply declared_NoDup; [exact Hn| |exact Hf]. by apply (bool_decide_unpack (NoDup runtime_names)); vm_compute.
Qed.
End Declare.

(** ** The address of a shadow *)

(** The runtime of a target: which mapping of dfsan_platform.h it has.  An AArch64
    program finds out at run time how large its address space is. *)
Definition runs_on (t : tarch) (a : arch) : Prop :=
  match t, a with
  | x86_64, X86_64 | (mips64 | mips64el), MIPS64 => True
  | (aarch64 | aarch64_be), (AARCH64_39 | AARCH64_42 | AARCH64_48) => True
  | _, _ => False
  end.
(** On AArch64, [__dfsan_shadow_ptr_mask] holds the mask. *)
Definition mask_stored (t : tarch) (a : arch) (env : menv) : Prop :=
  match t with
  | aarch64 | aarch64_be => gvals env mask_global = Some (ShadowMask a)
  | _ => True
  end.

Section Address.
Context {T OS : Type} `{LabelStore T} (cfg : config) (env : menv).

Lemma init_mask m t0 a : IntptrWidth cfg = 64 -> runs_on (m_arch m) a -> mask_stored (m_arch m) a env ->
  doInitialization cfg m = Ok t0 ->
  forall t, ShadowPtrMask t = ShadowPtrMask t0 -> DFSanRuntimeShadowMask t = DFSanRuntimeShadowMask t0 ->
    (DFSanRuntimeShadowMask t0 = true -> ExternalShadowMask t = VGlobal mask_global (TInt 64) false) ->
    mask_ready env a t.
Proof.
  intros Hw Hr Hs E t H1 H2 H3. unfold doInitialization, getSigned in E. rewrite Hw in E. unfold mask_ready.
  destruct (m_arch m), a; try done; injection E as <-; cbn in H1, H2, H3; rewrite H2; auto.
Qed.

(** C6: on each supported target, the pass gets its tables, and from then on the code
    that [getShadowAddress] emits computes, for the address [p] of a byte, the address
    [shadow_for p] at which the runtime of that target keeps the label of the byte.
    Memory is not touched. *)
Theorem shadow_address_agrees md n d a :
  IntptrWidth cfg = 64 -> runs_on (m_arch md) a -> mask_stored (m_arch md) a env ->
  NoDup (fn_id <$> m_funs md) -> Forall (fun f => fn_id f < n) (m_funs md) ->
  (forall g, g ∈ m_globals md -> g.1.1 = mask_global -> g.1.2 = TInt 64) ->
  exists t0 s1, doInitialization cfg md = Ok t0 /\
    declare_runtime cfg (mkDst md n t0 (fun _ => None) d) = Ok (tt, s1) /\
    tables_ok cfg (tab s1) /\ notes_ok (tab s1) /\
    forall s (m : mach T OS) Pos Addr p, tab s = tab s1 -> RetvalTLS (tab s1) <> Some Addr ->
      eval env m Addr = Some (MI p) -> below (fresh s) Addr ->
      spec env Pos (getShadowAddress cfg Addr Pos) s m
        (gives env (MI (shadow_for_on a p)) ShadowPtrTy m).
Proof.
  intros Hw Hr Hs Hids Hbel Hg.
  assert (exists t0, doInitialization cfg md = Ok t0) as [t0 E0].
  { unfold doInitialization. destruct (m_arch md); [eexists; reflexivity..|by destruct a]. }
  destruct (declare_runtime_ok cfg (mkDst md n t0 (fun _ => None) d)) as ([] & s1 & E1 & Hd & Hi & Hm).
  exists t0, s1. split; [done|]. split; [done|].
  pose proof (declared_tables_ok cfg s1 _ _ Hd (Hi (conj Hids Hbel))) as Ht.
  assert (Hmr : mask_ready env a (tab s1)).
  { destruct (dt_mask _ _ _ _ Hd) as [M1 M2]. apply (init_mask md t0 a Hw Hr Hs E0 (tab s1) M1 M2).
    intros _. rewrite Hm; unfold globals_ok, IntptrTy; rewrite Hw; [done|exact Hg]. }
  split; [done|]. split; [exact (dt_notes _ _ _ _ Hd)|]. intros s m Pos Addr p Et Hrv Ev Hb.
  rewrite <-Et in Hmr, Hrv.
  destruct (getShadowAddress_spec cfg env Pos a Addr p s m Hw Hmr Hrv Ev Hb)
    as (v & L & s' & m' & H1 & H2 & H3 & H4 & H5 & _).
  by exists v, L, s', m'.
Qed.
End Address.
