(* ===== verification/DfsanPassCustom.v ===== *)
(** * Calls of custom wrappers

    A function of the category [custom] is replaced by its wrapper [__dfsw_F], which
    takes the labels of the arguments after the arguments ([DFSanPass.cc],
    [getCustomFunctionType], [TransformFunctionAttributes] and the part of
    [visitCallSite] for such functions).  The theorems say that the call has the type
    of the wrapper, and that attributes stay with their parameters. *)

From stdpp Require Import functions.
From S2P Require Import Prelude CMem Dfsan DfsanIr DfsanPass DfsanPassMach.
Local Open Scope Z_scope.

(** ** Types of shadows *)

(** Values that the pass keeps as shadows have the type of labels. *)
Definition typed (d : dfsf) : Prop :=
  (forall v s, ValShadowMap d v = Some (Some s) -> typeOf s = ShadowTy) /\
  (forall a, LabelReturnAlloca d = Some a -> typeOf a = ShadowPtrTy).
Definition stays_typed (s s' : dst) : Prop := typed (fn s) -> typed (fn s').
#[export] Instance stays_typed_pre : PreOrder stays_typed.
Proof. split; [by intros s ?|intros x y z H1 H2 H; by apply H2, H1]. Qed.
Definition same_fn (s s' : dst) : Prop := fn s' = fn s.
#[export] Instance same_fn_pre : PreOrder same_fn.
Proof. split; [done|intros x y z H1 H2; unfold same_fn in *; congruence]. Qed.

Section Types.
Context (cfg : config).

Lemma same_typed {A} (g : D A) : always same_fn g -> always stays_typed g.
Proof. intros Hg s a s' E. apply Hg in E. unfold stays_typed. by rewrite E. Qed.
Lemma emit_fn pt k t : always same_fn (emit pt k t).
Proof. by intros s a s' [= <- <-]. Qed.
Lemma assert_fn b : always same_fn (assert cfg b).
Proof. unfold assert. destruct (b || _); [apply always_ret|apply always_fail]; exact _. Qed.
Lemma deref_fn {A} (o : option A) : always same_fn (deref o).
Proof. destruct o; [apply always_ret|apply always_fail]; exact _. Qed.
Lemma new_id_fn : always same_fn new_id.
Proof. by intros s a s' [= <- <-]. Qed.
Lemma with_mod_fn f : always same_fn (modify (with_mod f)).
Proof. by intros s a s' [= <- <-]. Qed.
#[local] Hint Resolve emit_fn assert_fn deref_fn new_id_fn with_mod_fn : always.

Lemma CreateCast_fn pt c v t : always same_fn (CreateCast pt c v t).
Proof. unfold CreateCast. always_auto. Qed.
Lemma CreateConstGEP_fn pt e w b i j t : always same_fn (CreateConstGEP pt e w b i j t).
Proof. unfold CreateConstGEP. always_auto. Qed.
Lemma CreateStore_fn pt v p a : always same_fn (CreateStore pt v p a).
Proof. apply emit_fn. Qed.
Lemma CreateLoad_fn pt p a : always same_fn (CreateLoad pt p a).
Proof. apply emit_fn. Qed.
Lemma CreateCall_fn pt f args : always same_fn (CreateCall cfg pt f args).
Proof. unfold CreateCall. always_auto. Qed.
Lemma entry_front_fn : always same_fn entry_front.
Proof. unfold entry_front. always_auto. Qed.
Lemma getOrInsertFunction_fn n t : always same_fn (getOrInsertFunction n t).
Proof. unfold getOrInsertFunction. always_auto. Qed.
#[local] Hint Resolve CreateCast_fn CreateConstGEP_fn CreateStore_fn CreateLoad_fn CreateCall_fn
  entry_front_fn getOrInsertFunction_fn : always.
Lemma entry_alloca_fn t : always same_fn (entry_alloca t).
Proof. unfold entry_alloca. always_auto. Qed.
Lemma trampoline_type_fn t : always same_fn (getTrampolineFunctionType cfg t).
Proof. unfold getTrampolineFunctionType. always_auto. Qed.
#[local] Hint Resolve entry_alloca_fn trampoline_type_fn : always.

(** Building a trampoline leaves the function at hand alone. *)
Lemma trampoline_fn t n : always same_fn (getOrBuildTrampolineFunction cfg t n).
Proof.
  unfold getOrBuildTrampolineFunction. do 3 (apply always_bind; [exact _|auto with always|intros ?]).
  { apply always_gets, _. }
  destruct a0; try (apply always_ret; exact _).
  apply always_bind; [exact _|auto with always|intros g]. destruct (isDeclaration g); [|apply always_ret; exact _].
  do 3 (apply always_bind; [exact _|auto with always|intros ?]). cbv zeta.
  apply always_bind; [exact _|auto with always|intros []]. apply always_gets_bind.
  intros s b s' E. do 3 (apply bind_Ok_inv in E as (? & ? & _ & E)).
  apply bind_Ok_inv in E as (? & ? & [= <- <-] & E). injection E as <- <-.
  reflexivity.
Qed.
#[local] Hint Resolve trampoline_fn : always.

(** *** Types of values *)

Definition gives_type {A} (g : D A) (P : A -> Prop) : Prop :=
  forall s a s', g s = Ok (a, s') -> typed (fn s) -> typed (fn s') /\ P a.
Lemma type_bind {A B} (g : D A) (k : A -> D B) P Q :
  gives_type g P -> (forall a, P a -> gives_type (k a) Q) -> gives_type (bind g k) Q.
Proof.
  intros Hg Hk s b s' (a & s1 & E1 & E2)%bind_Ok_inv Ht. destruct (Hg _ _ _ E1 Ht) as [Ht1 Ha].
  exact (Hk a Ha _ _ _ E2 Ht1).
Qed.
Lemma type_same {A} (g : D A) (P : A -> Prop) :
  always same_fn g -> (forall s a s', g s = Ok (a, s') -> P a) -> gives_type g P.
Proof. intros Hf HP s a s' E Ht. split; [by rewrite (Hf _ _ _ E)|eauto]. Qed.
Lemma type_ret {A} (a : A) (P : A -> Prop) : P a -> gives_type (ret a) P.
Proof. by intros Ha s b s' [= <- <-]. Qed.
Lemma type_gets {A} (f : dst -> A) : gives_type (gets f) (fun _ => True).
Proof. by intros s a s' [= <- <-]. Qed.
Lemma type_any {A} (g : D A) : always same_fn g -> gives_type g (fun _ => True).
Proof. intros Hg. by apply type_same. Qed.
Lemma type_fail {A} e (P : A -> Prop) : gives_type (fail e) P.
Proof. by intros s a s'. Qed.

Lemma emit_type pt k t : gives_type (emit pt k t) (fun v => typeOf v = t).
Proof. apply type_same; [apply emit_fn|]. by intros s a s' [= <- <-]. Qed.
Lemma CreateConstGEP_type pt e w b i j t : gives_type (CreateConstGEP pt e w b i j t) (fun v => typeOf v = t).
Proof. unfold CreateConstGEP. destruct (isConstant b); [by apply type_ret|apply emit_type]. Qed.
Lemma CreateCast_type pt v t : gives_type (CreateCast pt BitCast v t) (fun v => typeOf v = t).
Proof.
  unfold CreateCast. case_decide; [by apply type_ret|]. destruct (isConstant v); [|apply emit_type].
  apply type_ret. cbn. unfold getBitCast. by case_decide.
Qed.
Lemma entry_alloca_type t : gives_type (entry_alloca t) (fun v => typeOf v = TPtr t).
Proof.
  unfold entry_alloca. eapply type_bind; [by apply type_any, entry_front_fn|].
  intros pos _. apply emit_type.
Qed.
Lemma function_type n t : gives_type (getOrInsertFunction n t) (fun v => typeOf v = getPointerTo t).
Proof.
  apply type_same; [apply getOrInsertFunction_fn|]. intros s v s' (m & s1 & [= <- <-] & E)%bind_Ok_inv.
  destruct (fun_named (Mod s) n) as [f|]; [injection E as <- _; apply getBitCast_type|].
  by injection E as <- _.
Qed.
Lemma deref_type {A} (o : option A) : gives_type (deref o) (fun a => o = Some a).
Proof. destruct o; [by apply type_ret|apply type_fail]. Qed.

Lemma getArgTLSPtr_type : gives_type (getArgTLSPtr cfg) (fun _ => True).
Proof.
  unfold getArgTLSPtr. eapply type_bind; [apply type_gets|intros d _].
  eapply type_bind; [apply type_gets|intros t _].
  assert (Hset : forall p, gives_type (modify (with_fn (set_ArgTLSPtr p)) ;;; ret p) (fun _ => True))
    by (intros p s a s' [= <- <-] Ht; done).
  destruct (ArgTLSPtr d); [by apply type_ret|]. destruct (ArgTLS t); [apply Hset|].
  eapply type_bind; [by apply type_any, entry_front_fn|intros pos _].
  eapply type_bind; [apply deref_type|intros g _].
  eapply type_bind; [by apply type_any, CreateCall_fn|intros p _]. apply Hset.
Qed.
Lemma getArgShadow_type A : NDEBUG cfg && ClArgsABI cfg = false ->
  gives_type (getArgShadow cfg A) (fun v => typeOf v = ShadowTy).
Proof.
  intros Hnd. unfold getArgShadow, getInstrumentedABI. destruct (ClArgsABI cfg).
  - do 2 (eapply type_bind; [apply type_gets|intros ? _]). do 2 (eapply type_bind; [apply deref_type|intros ? _]).
    rewrite andb_true_r in Hnd. unfold assert. rewrite Hnd, orb_false_r. case_bool_decide.
    + eapply type_bind; [by apply (type_ret tt (fun _ => True))|]. intros _ _. by apply type_ret.
    + eapply type_bind; [by apply (type_fail AssertFailed (fun _ => False))|done].
  - eapply type_bind; [apply getArgTLSPtr_type|intros p _].
    do 2 (eapply type_bind; [apply type_gets|intros ? _]).
    eapply type_bind with (P := fun _ => True); [|intros pos _].
    { destruct (ArgTLS a); [by apply type_any, entry_front_fn|]. destruct p; try apply type_fail.
      eapply type_bind; [apply deref_type|intros n _]. by apply type_ret. }
    eapply type_bind with (P := fun v => typeOf v = ShadowPtrTy).
    + unfold getArgTLS. eapply type_bind; [apply getArgTLSPtr_type|intros q _]. apply CreateConstGEP_type.
    + intros g Hg. unfold CreateLoad. rewrite Hg. apply emit_type.
Qed.
Lemma set_shadow_type v s : typeOf s = ShadowTy ->
  gives_type (modify (with_fn (set_ValShadowMap v (Some s)))) (fun _ => True).
Proof.
  intros Hs s0 a s' [= <- <-] [Ht Hl]. split; [|done]. split; [|done]. cbn. intros u w.
  destruct (decide (v = u)) as [->|Hne]; [rewrite fn_lookup_insert|rewrite fn_lookup_insert_ne by done].
  - by intros [= <-].
  - apply Ht.
Qed.
Lemma getShadow_type V : NDEBUG cfg && ClArgsABI cfg = false ->
  gives_type (getShadow cfg V) (fun v => typeOf v = ShadowTy).
Proof.
  intros Hnd. unfold getShadow. destruct (negb _ && _); [by apply type_ret|].
  intros s v s' (d & s1 & [= <- <-] & E)%bind_Ok_inv Ht. revert E Ht.
  assert (Hnone : forall k : D value, gives_type k (fun v => typeOf v = ShadowTy) ->
    gives_type (modify (with_fn (set_ValShadowMap V None)) ;;; k) (fun v => typeOf v = ShadowTy)).
  { intros k Hk. eapply type_bind with (P := fun _ => True); [|by intros [] _].
    intros s0 a s1 [= <- <-] [Ht Hl]. split; [|done]. split; [|done]. cbn. intros u w.
    destruct (decide (V = u)) as [->|Hne]; [by rewrite fn_lookup_insert|].
    rewrite fn_lookup_insert_ne by done. apply Ht. }
  assert (Hzero : gives_type (modify (with_fn (set_ValShadowMap V (Some ZeroShadow))) ;;; ret ZeroShadow)
    (fun v => typeOf v = ShadowTy)).
  { eapply type_bind; [by apply set_shadow_type|]. intros _ _. by apply type_ret. }
  destruct (ValShadowMap (fn s) V) as [[sh|]|] eqn:E0.
  - intros [= <- <-] Ht. split; [done|]. by apply (proj1 Ht V).
  - apply Hnone. destruct V; try exact Hzero. destruct (IsNativeABI (fn s)); [by apply type_ret|].
    eapply type_bind; [by apply getArgShadow_type|intros sh Hsh].
    eapply type_bind; [by apply set_shadow_type|intros [] _].
    by intros s0 a s1 [= <- <-].
  - apply Hnone. destruct V; try exact Hzero. destruct (IsNativeABI (fn s)); [by apply type_ret|].
    eapply type_bind; [by apply getArgShadow_type|intros sh Hsh].
    eapply type_bind; [by apply set_shadow_type|intros [] _].
    by intros s0 a s1 [= <- <-].
Qed.
Lemma get_shadows_type vs : NDEBUG cfg && ClArgsABI cfg = false ->
  gives_type (get_shadows cfg vs) (fun l => typeOf <$> l = replicate (length vs) ShadowTy).
Proof.
  intros Hnd. induction vs as [|v vs IH]; cbn [get_shadows]; [by apply type_ret|].
  eapply type_bind; [by apply getShadow_type|intros s Hs]. eapply type_bind; [exact IH|intros l Hl].
  apply type_ret. rewrite fmap_cons, Hs, Hl. done.
Qed.
End Types.

(** ** The type of the wrapper *)

Definition trampoline_type (t : FunctionType) : FunctionType :=
  mkFT (ft_ret t)
    ([getPointerTo t] ++ ft_params t ++ replicate (length (ft_params t)) ShadowTy ++
     (if isVoidTy (ft_ret t) then [] else [ShadowPtrTy])) false.
(** The parameters that stand for one parameter: a function pointer is passed with
    a trampoline. *)
Definition slots_of (p : ty) : list ty :=
  match pointee_fun p with
  | Some t => match as_ft t with
              | Some ft => [getPointerTo (trampoline_type ft); Int8PtrTy]
              | None => []
              end
  | None => [p]
  end.
Definition all_slots (ps : list ty) : list ty := p ← ps; slots_of p.
(** All parameters of the wrapper of a function of type [t]. *)
Definition wrapper_params (t : FunctionType) : list ty :=
  all_slots (ft_params t) ++ replicate (length (ft_params t)) ShadowTy ++
  (if ft_va t then [ShadowPtrTy] else []) ++ (if isVoidTy (ft_ret t) then [] else [ShadowPtrTy]).

Section Wrapper.
Context (cfg : config).

Lemma trampoline_type_ok t s r s' :
  getTrampolineFunctionType cfg t s = Ok (r, s') -> r = trampoline_type t /\ s' = s.
Proof.
  unfold getTrampolineFunctionType, assert, trampoline_type. destruct (_ || _); [|done].
  unfold bind, ret. cbv zeta. intros [= <- <-]. split; [|done]. f_equal.
  destruct (isVoidTy (ft_ret t)); cbn; rewrite ?app_nil_r, <-?app_assoc; done.
Qed.
Lemma pointee_fun_ft p t : pointee_fun p = Some t -> exists ft, as_ft t = Some ft.
Proof. destruct p as [| | | |q| | | |]; try done. destruct q; try done. intros [= <-]. by eexists. Qed.

Lemma custom_params_ok ps : forall args map s r s',
  custom_params cfg ps args map s = Ok (r, s') ->
  s' = s /\ r.1 = args ++ all_slots ps /\
  r.2 = map ++ imap (fun i _ => length (args ++ all_slots (take i ps))) ps.
Proof.
  induction ps as [|p ps IH]; intros args map s r s'; cbn [custom_params].
  - intros [= <- <-]. cbn. by rewrite !app_nil_r.
  - assert (Hstep : forall l, slots_of p = l ->
      custom_params cfg ps (args ++ l) (map ++ [length args]) s = Ok (r, s') ->
      s' = s /\ r.1 = args ++ all_slots (p :: ps) /\
      r.2 = map ++ imap (fun i _ => length (args ++ all_slots (take i (p :: ps)))) (p :: ps)).
    { intros l Hl (-> & E1 & E2)%IH. split; [done|]. unfold all_slots in *. cbn [mbind list_bind]. rewrite Hl.
      split; [by rewrite E1, <-app_assoc|]. rewrite E2, imap_cons, <-app_assoc. cbn [take mbind list_bind].
      rewrite app_nil_r. cbn. do 2 f_equal. apply imap_ext. intros i x _. cbn. rewrite Hl.
      by rewrite <-app_assoc. }
    destruct (pointee_fun p) as [t|] eqn:Ep.
    + destruct (pointee_fun_ft _ _ Ep) as [ft Eft]. intros (ft' & s1 & E1 & E)%bind_Ok_inv.
      rewrite Eft in E1. injection E1 as <- <-.
      apply bind_Ok_inv in E as (tt' & s2 & [-> ->]%trampoline_type_ok & E).
      apply (Hstep _ ltac:(unfold slots_of; by rewrite Ep, Eft) E).
    + apply Hstep. unfold slots_of. by rewrite Ep.
Qed.
Lemma getCustomFunctionType_ok t s c s' :
  getCustomFunctionType cfg t s = Ok (c, s') ->
  s' = s /\ OriginalType c = t /\
  TransformedType c = mkFT (ft_ret t) (wrapper_params t) (ft_va t) /\
  ArgumentIndexMapping c = imap (fun i _ => length (all_slots (take i (ft_params t)))) (ft_params t).
Proof.
  intros ([args map] & s1 & (-> & E1 & E2)%custom_params_ok & E)%bind_Ok_inv. cbn in E1, E2.
  injection E as <- <-. cbn. split_and!; try done. f_equal. unfold wrapper_params. subst.
  destruct (ft_va t), (isVoidTy (ft_ret t)); cbn; rewrite ?app_nil_r, <-?app_assoc; done.
Qed.

Lemma trampoline_value_type t n :
  gives_type (getOrBuildTrampolineFunction cfg t n) (fun v => typeOf v = getPointerTo (trampoline_type t)).
Proof.
  apply type_same; [apply trampoline_fn|]. intros s v s' (ftt & s1 & [-> ->]%trampoline_type_ok & E)%bind_Ok_inv.
  apply bind_Ok_inv in E as (C & s2 & E1 & E).
  assert (HC : typeOf C = getPointerTo (trampoline_type t)).
  { apply bind_Ok_inv in E1 as (m & s3 & [= <- <-] & E1).
    destruct (fun_named (Mod s) n) as [f|]; [injection E1 as <- _; apply getBitCast_type|].
    by injection E1 as <- _. }
  enough (v = C) as -> by done. apply bind_Ok_inv in E as (m & s3 & [= <- <-] & E).
  destruct C; try (by injection E as <- _). apply bind_Ok_inv in E as (g & s3 & _ & E).
  destruct (isDeclaration g); [|by injection E as <- _].
  do 9 (apply bind_Ok_inv in E as (? & ? & _ & E)). by injection E as <- _.
Qed.
Lemma custom_args_type fname n : forall i args Pos, (n <= length args)%nat ->
  gives_type (custom_args cfg fname i n args Pos)
    (fun l => typeOf <$> l = all_slots (typeOf <$> take n args)).
Proof.
  induction n as [|n IH]; intros i args Pos Hn; cbn [custom_args]; [by apply type_ret|].
  destruct args as [|a r]; [cbn in Hn; lia|].
  eapply type_bind with (P := fun hd => typeOf <$> hd = slots_of (typeOf a)).
  - unfold slots_of. destruct (pointee_fun (typeOf a)) as [t|]; [|by apply type_ret].
    eapply type_bind; [apply deref_type|intros ft ->].
    eapply type_bind; [apply trampoline_value_type|intros T HT].
    eapply type_bind; [apply CreateCast_type|intros c Hc]. apply type_ret. cbn. by rewrite HT, Hc.
  - intros hd Hhd. eapply type_bind; [apply IH; cbn in Hn; lia|intros tl Htl]. apply type_ret.
    unfold all_slots in *. rewrite fmap_app, Hhd, Htl. done.
Qed.
Lemma store_va_type arr t w vs Pos : NDEBUG cfg && ClArgsABI cfg = false ->
  forall n, gives_type (store_va_labels cfg arr t w n vs Pos) (fun _ => True).
Proof.
  intros Hnd. induction vs as [|v vs IH]; intros n; cbn [store_va_labels]; [by apply type_ret|].
  eapply type_bind; [apply CreateConstGEP_type|intros p _]. eapply type_bind; [by apply getShadow_type|intros s _].
  eapply type_bind; [by apply type_any, CreateStore_fn|intros u _]. apply IH.
Qed.

Lemma custom_operands_type I args f : NDEBUG cfg && ClArgsABI cfg = false ->
  (length (ft_params (fn_type f)) <= length args)%nat ->
  typeOf <$> take (length (ft_params (fn_type f))) args = ft_params (fn_type f) ->
  gives_type (custom_operands cfg I args f) (fun r =>
    typeOf <$> r.1 = wrapper_params (fn_type f) ++ (typeOf <$> drop (length (ft_params (fn_type f))) args)).
Proof.
  intros Hnd Hn Hty. unfold custom_operands. cbv zeta. set (n := length (ft_params (fn_type f))) in *.
  eapply type_bind; [by apply custom_args_type|intros vals Hvals].
  eapply type_bind; [by apply get_shadows_type|intros ss Hss].
  eapply type_bind with (P := fun va => typeOf <$> va = if ft_va (fn_type f) then [ShadowPtrTy] else []).
  { destruct (ft_va (fn_type f)); [|by apply type_ret].
    eapply type_bind; [apply entry_alloca_type|intros arr _].
    eapply type_bind; [by apply store_va_type|intros [] _].
    eapply type_bind; [apply CreateConstGEP_type|intros p Hp]. apply type_ret. cbn. by rewrite Hp. }
  intros va Hva.
  eapply type_bind with (P := fun rl => typeOf <$> (match rl with Some a => [a] | None => [] end) =
    if isVoidTy (ft_ret (fn_type f)) then [] else [ShadowPtrTy]).
  { destruct (isVoidTy (ft_ret (fn_type f))); [by apply type_ret|].
    intros s rl s' (d & s1 & [= <- <-] & E)%bind_Ok_inv Ht. revert E Ht.
    destruct (LabelReturnAlloca (fn s)) as [a|] eqn:El.
    - intros [= <- <-] Ht. split; [done|]. cbn. by rewrite (proj2 Ht a El).
    - refine (type_bind _ _ _ (fun rl => typeOf <$> (match rl with Some a => [a] | None => [] end) =
        [ShadowPtrTy]) (entry_alloca_type ShadowTy) _ s rl s').
      intros a Ha s0 b s1 [= <- <-] [Hv _]. cbn. rewrite Ha. split; [|done]. split; [done|].
      cbn. by intros a' [= <-]. }
  intros rl Hrl. apply type_ret. cbn [fst]. unfold wrapper_params. fold n.
  rewrite !fmap_app, Hvals, Hss, Hva, Hrl, Hty, length_take, Nat.min_l by done.
  by rewrite <-!app_assoc.
Qed.
End Wrapper.

(** ** Attributes *)

Lemma slots_of_nonempty p : slots_of p <> [].
Proof.
  unfold slots_of. destruct (pointee_fun p) as [t|] eqn:E; [|done].
  destruct (pointee_fun_ft _ _ E) as [ft ->]. done.
Qed.
Definition slot_index (ps : list ty) (i : nat) : nat := length (all_slots (take i ps)).
Lemma slot_index_S ps i p : ps !! i = Some p -> slot_index ps (S i) = (slot_index ps i + length (slots_of p))%nat.
Proof.
  intros E. unfold slot_index, all_slots. rewrite (take_S_r _ _ _ E), bind_app, length_app. cbn.
  by rewrite app_nil_r.
Qed.
Lemma slot_index_mono ps i j : (i < j <= length ps)%nat -> (slot_index ps i < slot_index ps j)%nat.
Proof.
  intros [Hij Hj]. induction j as [|j IH]; [lia|].
  destruct (lookup_lt_is_Some_2 ps j ltac:(lia)) as [p Hp]. rewrite (slot_index_S _ _ _ Hp).
  assert (0 < length (slots_of p))%nat by (pose proof (slots_of_nonempty p); destruct (slots_of p); [done|cbn; lia]).
  destruct (decide (i = j)) as [->|Hne]; [lia|]. specialize (IH ltac:(lia) ltac:(lia)). lia.
Qed.
(** The first slot of parameter [i] is at its index. *)
Lemma slot_at ps i p q r :
  ps !! i = Some p -> slots_of p = q :: r -> all_slots ps !! slot_index ps i = Some q.
Proof.
  intros Hp Hq. unfold slot_index.
  assert (E : all_slots ps = all_slots (take i ps) ++ slots_of p ++ all_slots (drop (S i) ps)).
  { unfold all_slots. rewrite <-(take_drop_middle ps i p Hp) at 1. by rewrite bind_app. }
  by rewrite E, lookup_app_r, Nat.sub_diag, Hq by done.
Qed.

Lemma attribute_loop {A} (attrs : nat -> A) (M : list nat) : forall k l0 j,
  NoDup M -> Forall (fun i => (i < length l0)%nat) M ->
  fold_left (fun l im => <[ im.2 := attrs im.1 ]> l) (zip (seq k (length M)) M) l0 !! j =
  match list_find (fun x => x = j) M with Some (i, _) => Some (attrs (k + i)%nat) | None => l0 !! j end.
Proof.
  induction M as [|x M IH]; intros k l0 j Hnd Hb; [done|].
  apply list.NoDup_cons in Hnd as [Hx Hnd]. apply list.Forall_cons in Hb as [Hb0 Hb].
  cbn [length seq zip zip_with fold_left fst snd]. rewrite IH; [|done|].
  - cbn [list_find]. case_decide as Hxj.
    + subst x. destruct (list_find (fun x => x = j) M) as [[i y]|] eqn:E.
      * apply list_find_Some in E as (E & -> & _). destruct Hx. by apply list_elem_of_lookup_2 in E.
      * cbn. rewrite list_lookup_insert_eq by done. by rewrite Nat.add_0_r.
    + destruct (list_find (fun x => x = j) M) as [[i y]|]; cbn; [f_equal; f_equal; lia|].
      by rewrite list_lookup_insert_ne.
  - eapply list.Forall_impl; [exact Hb|]. intros y Hy. cbn. by rewrite length_insert.
Qed.

Definition slot_map (ps : list ty) : list nat := imap (fun i _ => slot_index ps i) ps.
Lemma slot_map_lookup ps i : slot_map ps !! i = (fun _ => slot_index ps i) <$> ps !! i.
Proof. unfold slot_map. apply list_lookup_imap. Qed.
Lemma slot_map_NoDup ps : NoDup (slot_map ps).
Proof.
  apply NoDup_alt. intros i j x Hi Hj. rewrite slot_map_lookup in Hi, Hj.
  destruct (ps !! i) eqn:Ei; [|done]. destruct (ps !! j) eqn:Ej; [|done]. injection Hi as <-. injection Hj as E.
  apply lookup_lt_Some in Ei, Ej. destruct (Nat.lt_trichotomy i j) as [Hlt|[->|Hlt]]; [|done|].
  - pose proof (slot_index_mono ps i j ltac:(lia)). lia.
  - pose proof (slot_index_mono ps j i ltac:(lia)). lia.
Qed.

Section Claims.
Context (cfg : config).

(** C21: the call of a custom wrapper [__dfsw_F] has the type of the wrapper.  If the
    call of [F] was well typed and shadows have the type of labels, then the operands
    that [visitCallSite] puts together (arguments, with a trampoline and an opaque
    pointer for each function pointer, a label for each parameter, the array of
    variadic labels, the slot for the label of the result, the variadic arguments)
    match the parameters that [getCustomFunctionType] declares for it. *)
Theorem custom_call_typed I args f s c s0 s1 r :
  NDEBUG cfg && ClArgsABI cfg = false -> typed (fn s0) ->
  typeOf <$> take (length (ft_params (fn_type f))) args = ft_params (fn_type f) ->
  ft_va (fn_type f) = true \/ length args = length (ft_params (fn_type f)) ->
  getCustomFunctionType cfg (fn_type f) s = Ok (c, s) ->
  custom_operands cfg I args f s0 = Ok (r, s1) ->
  good_signature (TransformedType c) r.1 = true /\ typed (fn s1).
Proof.
  intros Hnd Ht Hty Hlen (_ & _ & Ec & _)%getCustomFunctionType_ok Eo.
  assert (Hn : (length (ft_params (fn_type f)) <= length args)%nat).
  { apply (f_equal length) in Hty. rewrite length_fmap, length_take in Hty. lia. }
  destruct (custom_operands_type cfg I args f Hnd Hn Hty _ _ _ Eo Ht) as [Ht1 Hr]. split; [|done].
  rewrite Ec. unfold good_signature. cbn [ft_params ft_va]. apply andb_true_iff. split.
  - apply bool_decide_eq_true. rewrite fmap_take, Hr. by rewrite take_app_length.
  - destruct Hlen as [->|Hlen]; [done|]. apply orb_true_iff. right. apply Nat.eqb_eq.
    apply (f_equal length) in Hr. rewrite length_app, !length_fmap, length_drop in Hr. lia.
Qed.

(** The list [TransformFunctionAttributes] fills, before what is appended to it. *)
Definition filled {A} (attrs : nat -> A) (empty : A) (t : FunctionType) : list A :=
  fold_left (fun l x => <[ x.2 := attrs x.1 ]> l)
    (zip (seq 0 (length (slot_map (ft_params t)))) (slot_map (ft_params t)))
    (replicate (length (wrapper_params t)) empty).
Lemma filled_length {A} (attrs : nat -> A) empty t :
  length (filled attrs empty t) = length (wrapper_params t).
Proof.
  unfold filled. rewrite <- (length_replicate (length (wrapper_params t)) empty) at 2.
  generalize (replicate (length (wrapper_params t)) empty) as k.
  induction (zip _ _) as [|x z IH]; intros k; cbn; [done|]. by rewrite IH, length_insert.
Qed.
Lemma slot_index_lt ps i p : ps !! i = Some p -> (slot_index ps i < length (all_slots ps))%nat.
Proof.
  intros Hp. destruct (slots_of p) as [|q r] eqn:Hq; [by apply slots_of_nonempty in Hq|].
  eapply lookup_lt_Some, slot_at; done.
Qed.
Lemma filled_lookup {A} (attrs : nat -> A) empty t j :
  filled attrs empty t !! j =
    match list_find (fun x => x = j) (slot_map (ft_params t)) with
    | Some (i, _) => Some (attrs i)
    | None => replicate (length (wrapper_params t)) empty !! j
    end.
Proof.
  unfold filled. apply (attribute_loop attrs (slot_map (ft_params t)) 0); [apply slot_map_NoDup|].
  apply Forall_lookup. intros i x Hx. rewrite slot_map_lookup in Hx.
  destruct (ft_params t !! i) as [p|] eqn:Hp; [|done].
  injection Hx as <-. apply slot_index_lt in Hp. unfold wrapper_params.
  rewrite length_replicate, length_app. lia.
Qed.
Lemma filled_slot {A} (attrs : nat -> A) empty t i p :
  ft_params t !! i = Some p ->
  filled attrs empty t !! slot_index (ft_params t) i = Some (attrs i).
Proof.
  intros Hp. rewrite filled_lookup.
  assert (Hi : slot_map (ft_params t) !! i = Some (slot_index (ft_params t) i)) by by rewrite slot_map_lookup, Hp.
  destruct (list_find _ _) as [[i' y]|] eqn:Ef.
  - apply list_find_Some in Ef as (Ef & -> & _). f_equal. f_equal.
    eapply NoDup_lookup; [apply slot_map_NoDup|exact Ef|exact Hi].
  - apply list_find_None in Ef. rewrite list.Forall_forall in Ef.
    exfalso. eapply Ef; [|reflexivity]. by eapply list_elem_of_lookup_2.
Qed.
Lemma filled_other {A} (attrs : nat -> A) empty t j :
  (j < length (wrapper_params t))%nat ->
  (forall i, (i < length (ft_params t))%nat -> j <> slot_index (ft_params t) i) ->
  filled attrs empty t !! j = Some empty.
Proof.
  intros Hj Hne. rewrite filled_lookup.
  destruct (list_find _ _) as [[i' y]|] eqn:Ef; [|by apply lookup_replicate].
  apply list_find_Some in Ef as (Ef & -> & _). rewrite slot_map_lookup in Ef.
  destruct (ft_params t !! i') eqn:Hp; [|done]. injection Ef as Ef. apply lookup_lt_Some in Hp. by destruct (Hne i').
Qed.

(** [TransformFunctionAttributes] keeps attributes with what they describe: those
    of parameter [i] go to the parameter of the wrapper that has its value (or its
    trampoline), those of the variadic arguments to the end of the call, and the
    parameters for labels and opaque pointers have none. *)
Theorem custom_attributes_follow {A} (attrs : nat -> A) empty numSets t s c s' :
  getCustomFunctionType cfg t s = Ok (c, s') ->
  let ps := ft_params t in
  let qs := ft_params (TransformedType c) in
  let l := TransformFunctionAttributes c attrs empty numSets in
  (forall i p q r, ps !! i = Some p -> slots_of p = q :: r ->
     qs !! slot_index ps i = Some q /\ l !! slot_index ps i = Some (attrs i)) /\
  (forall j, (j < length qs)%nat -> (forall i, (i < length ps)%nat -> j <> slot_index ps i) ->
     l !! j = Some empty) /\
  (forall k, (length ps + k < numSets)%nat -> l !! (length qs + k)%nat = Some (attrs (length ps + k)%nat)).
Proof.
  intros (_ & Eo & Ec & Em)%getCustomFunctionType_ok. cbv zeta. unfold TransformFunctionAttributes.
  rewrite Eo, Em, Ec. cbn [ft_params].
  change (imap (fun i _ => length (all_slots (take i (ft_params t)))) (ft_params t))
    with (slot_map (ft_params t)).
  fold (filled attrs empty t).
  assert (Hall : (length (all_slots (ft_params t)) <= length (wrapper_params t))%nat).
  { unfold wrapper_params. rewrite length_app. lia. }
  split_and!.
  - intros i p q r Hp Hq. pose proof (slot_at _ i p q r Hp Hq) as Hs.
    pose proof (lookup_lt_Some _ _ _ Hs). split; [unfold wrapper_params; by rewrite lookup_app_l|].
    rewrite lookup_app_l by (rewrite filled_length; lia). by eapply filled_slot.
  - intros j Hj Hne. rewrite lookup_app_l by (by rewrite filled_length). by apply filled_other.
  - intros k Hk. rewrite lookup_app_r by (rewrite filled_length; lia).
    rewrite filled_length, list_lookup_fmap, lookup_seq_lt by lia. cbn. do 2 f_equal. lia.
Qed.

(** The call in a trampoline goes through a parameter, which is never in the table of
    wrapped functions: the visitor takes the branch for instrumented functions. *)
Lemma trampoline_call_visit p t args ty s :
  UnwrappedFnMap s (VArg 0 t) = None ->
  visitCallSite cfg (mkInst p (ICall (VArg 0 t) args) ty) s =
    visit_instrumented_call cfg (mkInst p (ICall (VArg 0 t) args) ty) (VArg 0 t) args s.
Proof. intros Hu. unfold visitCallSite. cbn. by rewrite Hu. Qed.
End Claims.
