(* ===== verification/DfsanPassCalls.v ===== *)
(** * Labels across calls

    Between instrumented functions labels travel in two thread-local variables
    ([DFSanPass.cc], the TLS form of the ABI): [visitCallSite] stores the labels of the
    arguments in [__dfsan_arg_tls], [getShadow] loads them at the entry of the callee,
    [visitReturnInst] stores the label of the result in [__dfsan_retval_tls], and the
    caller loads it after the call.  The theorems join the two sides: the callee sees
    the labels of the caller's arguments, the caller sees the label of the result. *)

From stdpp Require Import functions.
From S2P Require Import Prelude CMem Dfsan DfsanIr DfsanPass DfsanPassMach.
From S2P Require Import DfsanPassBlocks DfsanPassMem DfsanPassLoad DfsanPassCombine.
Local Open Scope Z_scope.

Definition arg_name : string := "__dfsan_arg_tls".
Definition retval_name : string := "__dfsan_retval_tls".
Definition arg_tls : value := VGlobal arg_name ArgTLSTy false.
Definition retval_tls : value := VGlobal retval_name ShadowTy false.

(** The thread-local variables are declared, and known as such. *)
Record tls_ok (t : tables) (env : menv) : Prop := {
  tl_arg : ArgTLS t = Some arg_tls;
  tl_ret : RetvalTLS t = Some retval_tls;
  tl_env n : n = arg_name \/ n = retval_name -> gtls env n = true /\ gvals env n = None
}.
(** The function has asked for them, or not yet. *)
Definition tls_fn (d : dfsf) : Prop :=
  (ArgTLSPtr d = None \/ ArgTLSPtr d = Some arg_tls) /\
  (RetvalTLSPtr d = None \/ RetvalTLSPtr d = Some retval_tls).

(** *** Instructions after a point *)

Lemma at_point_next m n b pre ip nx post :
  at_point m n b pre ip (nx :: post) -> i_id nx <> i_id ip -> getNextNode m (i_id ip) = Some nx.
Proof.
  intros Hap Hne. unfold getNextNode. rewrite (at_point_block_of _ _ _ _ _ _ Hap). cbn [mbind option_bind b_insts].
  pose proof (ap_first _ _ _ _ _ _ Hap) as Hf. clear Hap. induction pre as [|i pre IH]; cbn.
  - by rewrite Z.eqb_refl.
  - unfold ids in Hf. rewrite fmap_cons, not_elem_of_cons in Hf. destruct Hf as [H1 H2].
    destruct (Z.eqb_spec (i_id i) (i_id ip)); [congruence|]. by apply IH.
Qed.
Lemma insert_after_block m n b pre ip nx post x :
  at_point m n b pre ip (nx :: post) -> i_id nx <> i_id ip -> i_id nx ∉ ids pre ->
  is_block (insert_at (Before (i_id nx)) x m) b (pre ++ ip :: x :: nx :: post).
Proof.
  intros Hap Hne Hn. pose proof (ap_block _ _ _ _ _ _ Hap) as Hb.
  replace (pre ++ ip :: nx :: post) with ((pre ++ [ip]) ++ nx :: post) in Hb by by rewrite <-app_assoc.
  apply (is_block_map_insts (ins_before (i_id nx) x)) in Hb. rewrite df_ins_before_at in Hb.
  - by rewrite <-app_assoc in Hb.
  - done.
  - rewrite ids_app, not_elem_of_app. split; [done|]. cbn. rewrite list_elem_of_singleton. congruence.
Qed.

Section Calls.
Context {T OS : Type} `{LabelStore T} (cfg : config) (env : menv).
Abbreviation mc := (mach T OS).
Implicit Types (s : dst) (m : mc).

(** ** The caller *)

(** The slots after the labels [ls] are stored from index [i] on. *)
Fixpoint put_labels (i : Z) (ls : list Z) (sl : gmap loc Z) : gmap loc Z :=
  match ls with [] => sl | l :: r => put_labels (i + 1) r (<[ Tls arg_name i := l ]> sl) end.
Lemma put_labels_below ls : forall i j sl, j < i -> put_labels i ls sl !! Tls arg_name j = sl !! Tls arg_name j.
Proof.
  induction ls as [|l ls IH]; intros i j sl Hj; cbn; [done|]. rewrite IH by lia.
  rewrite lookup_insert_ne; [done|]. intros [=]. lia.
Qed.
Lemma put_labels_at ls : forall i (k : nat) l sl, ls !! k = Some l ->
  put_labels i ls sl !! Tls arg_name (i + Z.of_nat k) = Some l.
Proof.
  induction ls as [|l0 ls IH]; intros i k l sl E; [done|]. destruct k as [|k]; cbn in *.
  - injection E as ->. rewrite Z.add_0_r, put_labels_below by lia. by rewrite lookup_insert_eq.
  - replace (i + Z.of_nat (S k)) with (i + 1 + Z.of_nat k) by lia. by apply IH.
Qed.

(** An argument whose label is [l]. *)
Definition arg_label s m (a : value) (l : Z) : Prop :=
  exists V, known_shadow (fn s) a V /\ eval env m V = Some (MI l) /\ below (fresh s) V.

Lemma getArgTLS_spec Pos i s m :
  tls_ok (tab s) env -> ArgTLSPtr (fn s) = Some arg_tls ->
  getArgTLS cfg i Pos s = Ok (VGEP ArgTLSTy arg_tls 0 (Some i) ShadowPtrTy, s).
Proof.
  intros Ht Hp. unfold getArgTLS, getArgTLSPtr. unfold bind, gets. by rewrite Hp.
Qed.
Lemma eval_arg_tls (t : tables) i m : tls_ok t env -> 0 <= i < 64 ->
  eval env m (VGEP ArgTLSTy arg_tls 0 (Some i) ShadowPtrTy) = Some (MSlot (Tls arg_name i)).
Proof.
  intros Ht Hi. cbn. rewrite (proj1 (tl_env _ _ Ht arg_name ltac:(by left))).
  by rewrite (proj2 (Z.leb_le 0 i) ltac:(lia)), (proj2 (Z.ltb_lt i 64) ltac:(lia)).
Qed.

Lemma store_arg_labels_spec Pos ls : forall n args i s m,
  tls_ok (tab s) env -> ArgTLSPtr (fn s) = Some arg_tls -> 0 <= i -> i + Z.of_nat n <= 64 ->
  Forall2 (arg_label s m) (take n args) ls -> length ls = n ->
  spec env Pos (store_arg_labels cfg i n args Pos) s m
    (fun _ _ m' => rt m' = rt m /\ slots m' = put_labels i ls (slots m)).
Proof.
  induction ls as [|l ls IH]; intros n args i s m Ht Hp Hi Hn Hl <-; cbn [length store_arg_labels].
  { by apply spec_ret. }
  destruct args as [|a args]; [by inversion Hl|]. cbn [length take] in Hl.
  inversion Hl as [|? ? ? ? (V & HV & EV & BV) Hr]; subst.
  apply spec_bind. exists V, [], s, m. split; [by apply getShadow_known|]. split; [apply straight_nil|].
  split; [done|]. split; [apply keep_refl|].
  apply spec_bind. eexists _, [], s, m. split; [by apply getArgTLS_spec|]. split; [apply straight_nil|].
  split; [done|]. split; [apply keep_refl|].
  apply spec_bind. cbn [length] in Hn.
  eapply (spec_emit _ _ _ _ _ _ (set_slot (Tls arg_name i) l m)); [|done|].
  { cbn [exec_inst i_kind]. rewrite (eval_arg_tls (tab s)) by (done || lia). by rewrite EV. }
  eapply spec_mono; [apply (IH (length ls) args (i + 1)); try done; try lia|].
  - eapply list.Forall2_impl; [exact Hr|]. intros x y (W & HW & EW & BW). exists W. split_and!; try done.
    + rewrite <-EW. apply (keep_eval env (fresh s)); done.
    + eapply below_mono; [|done]. cbn. lia.
  - intros [] L s' m' _ _ [R S]. split; [done|]. by rewrite S.
Qed.

(** The first use of [__dfsan_arg_tls] is noted. *)
Lemma arg_stores Pos n args ls s m :
  tls_ok (tab s) env -> tls_fn (fn s) -> Z.of_nat n <= 64 ->
  Forall2 (arg_label s m) (take n args) ls -> length ls = n ->
  exists f L s1 m1, (f = id \/ f = set_ArgTLSPtr arg_tls) /\
    store_arg_labels cfg 0 n args Pos s = Ok (tt, s1) /\ straight Pos (with_fn f s) L s1 /\
    exec_list env (tab s) L m = Ok m1 /\ keep (fresh s) m m1 /\ rt m1 = rt m /\
    slots m1 = put_labels 0 ls (slots m).
Proof.
  intros Ht [Hf _] Hn Hl Hlen. destruct n as [|n].
  { exists id, [], s, m. split; [by left|]. split; [done|]. split; [|by destruct ls].
    replace (with_fn id s) with s by (by destruct s). apply straight_nil. }
  set (s0 := with_fn (set_ArgTLSPtr arg_tls) s).
  assert (E0 : store_arg_labels cfg 0 (S n) args Pos s = store_arg_labels cfg 0 (S n) args Pos s0).
  { destruct args as [|a args]; [by inversion Hl; subst|]. cbn [take] in Hl.
    inversion Hl as [|? l ? ls' (V & HV & _) _]; subst. cbn [store_arg_labels].
    rewrite (bind_Ok _ _ _ _ _ (getShadow_known cfg a V s HV)).
    rewrite (bind_Ok _ _ _ _ _ (getShadow_known cfg a V s0 HV)).
    unfold getArgTLS. rewrite <-!(bind_assoc (getArgTLSPtr cfg)).
    assert (E1 : getArgTLSPtr cfg s = Ok (arg_tls, s0)).
    { unfold getArgTLSPtr, bind, gets. rewrite (tl_arg _ _ Ht).
      destruct Hf as [Hf|Hf]; rewrite Hf; [done|]. unfold ret. do 2 f_equal. unfold s0, with_fn, set_ArgTLSPtr.
      rewrite <-Hf. by destruct s as [? ? ? ? []]. }
    assert (E2 : getArgTLSPtr cfg s0 = Ok (arg_tls, s0)) by done.
    by rewrite (bind_Ok _ _ _ _ _ E1), (bind_Ok _ _ _ _ _ E2). }
  destruct (store_arg_labels_spec Pos ls (S n) args 0 s0 m) as ([] & L & s1 & m1 & E & HL & EL & K & R & S); try done.
  exists (set_ArgTLSPtr arg_tls), L, s1, m1. rewrite E0. split; [by right|]. done.
Qed.
Lemma getRetvalTLS_ok s : tls_ok (tab s) env -> tls_fn (fn s) ->
  exists f, (f = id \/ f = set_RetvalTLSPtr retval_tls) /\ getRetvalTLS cfg s = Ok (retval_tls, with_fn f s).
Proof.
  intros Ht [_ Hf]. unfold getRetvalTLS, bind, gets. rewrite (tl_ret _ _ Ht). destruct Hf as [Hf|Hf]; rewrite Hf.
  - exists (set_RetvalTLSPtr retval_tls). by split; [right|].
  - exists id. split; [by left|]. unfold ret. do 2 f_equal. by destruct s.
Qed.

(** A call in its block, with the labels of its arguments. *)
Record call_ready s (b : Z) (pre : list inst) (ip nx : inst) (post : list inst) m (callee : value)
  (args : list value) (FT : FunctionType) (ls : list Z) : Prop := {
  cr_abi : ClArgsABI cfg = false;
  cr_tls : tls_ok (tab s) env;
  cr_fn : tls_fn (fn s);
  cr_point : at_point (Mod s) (fresh s) b pre ip (nx :: post);
  cr_next : i_id nx <> i_id ip /\ i_id nx ∉ ids pre;
  cr_kind : i_kind ip = ICall callee args;
  cr_type : callee_type callee = Some FT;
  cr_room : Z.of_nat (length (ft_params FT)) <= 64;
  cr_args : Forall2 (arg_label s m) (take (length (ft_params FT)) args) ls;
  cr_len : length ls = length (ft_params FT);
  cr_new : ValShadowMap (fn s) (inst_value ip) = None
}.
(** The instruction that reads the label of the result. *)
Definition result_load (q : Z) : inst := mkInst q (ILoad retval_tls 0) ShadowTy.
Definition call_block (void : bool) (pre L : list inst) (ip nx : inst) (post : list inst) (q : Z) : list inst :=
  pre ++ L ++ ip :: (if void then [] else [result_load q]) ++ nx :: post.

Lemma call_code s b pre ip nx post m callee args FT ls :
  call_ready s b pre ip nx post m callee args FT ls ->
  exists L q s' m1, visit_instrumented_call cfg ip callee args s = Ok (tt, s') /\
    is_block (Mod s') b (call_block (isVoidTy (i_ty ip)) pre L ip nx post q) /\
    (isVoidTy (i_ty ip) = false ->
       ValShadowMap (fn s') (inst_value ip) = Some (Some (VInst q ShadowTy))) /\ fresh s <= q /\
    exec_list env (tab s) L m = Ok m1 /\ keep (fresh s) m m1 /\ rt m1 = rt m /\
    slots m1 = put_labels 0 ls (slots m) /\ i_id ip ∉ ids L.
Proof.
  intros [Habi Ht Hfn Hap [Hnx Hnp] Hk Hty Hroom Hargs Hlen Hnew].
  destruct (arg_stores (i_id ip) _ args ls s m Ht Hfn Hroom Hargs Hlen)
    as (f & L & s1 & m1 & Hf & Es & HL & EL & K & R & S).
  assert (Hap1 : at_point (Mod s1) (fresh s1) b (pre ++ L) ip (nx :: post))
    by (by apply (at_point_straight (with_fn f s) L s1)).
  pose proof (sl_fresh _ _ _ _ HL) as Hfr. cbn in Hfr.
  destruct (straight_fields _ _ _ _ HL) as (Et & _ & Ef). cbn in Et, Ef.
  pose proof (ap_first _ _ _ _ _ _ Hap1) as Hfirst. rewrite ids_app, not_elem_of_app in Hfirst.
  unfold visit_instrumented_call, getInstrumentedABI. rewrite Habi, Hty.
  rewrite (bind_Ok (deref (Some FT)) _ s FT s) by done. rewrite (bind_Ok _ _ _ _ _ Es).
  destruct (isVoidTy (i_ty ip)) eqn:Hv.
  - exists L, (fresh s), s1, m1. split_and!; try done; [|naive_solver].
    pose proof (ap_block _ _ _ _ _ _ Hap1) as Hb. by rewrite <-app_assoc in Hb.
  - assert (En : after_call ip s1 = Ok (i_id nx, s1)).
    { unfold after_call. rewrite Hk. unfold bind, gets, deref. by rewrite (at_point_next _ _ _ _ _ _ _ Hap1). }
    assert (Ht1 : tls_ok (tab s1) env) by by rewrite Et.
    assert (Hfn1 : tls_fn (fn s1)).
    { rewrite Ef. destruct Hf as [-> | ->]; [done|]. split; [by right|apply Hfn]. }
    destruct (getRetvalTLS_ok s1 Ht1 Hfn1) as (f2 & Hf2 & Er).
    set (q := fresh s1).
    set (s2 := mkDst (insert_at (Before (i_id nx)) (result_load q) (Mod s1)) (q + 1) (tab s1)
      (UnwrappedFnMap s1) (add_SkipInst q (f2 (fn s1)))).
    assert (Hnew2 : ValShadowMap (f2 (fn s1)) (inst_value ip) = None).
    { replace (ValShadowMap (f2 (fn s1))) with (ValShadowMap (fn s)); [done|].
      rewrite Ef. by destruct Hf as [-> | ->], Hf2 as [-> | ->]. }
    exists L, q, (with_fn (add_NonZeroCheck (VInst q ShadowTy))
      (with_fn (set_ValShadowMap (inst_value ip) (Some (VInst q ShadowTy))) s2)), m1.
    split_and!; try done; [| | |naive_solver].
    + rewrite <-(bind_assoc (after_call ip)), (bind_Ok _ _ _ _ _ En).
      rewrite <-(bind_assoc (getRetvalTLS cfg)), (bind_Ok _ _ _ _ _ Er).
      assert (El : forall k : value -> D unit, (bind (CreateLoad (Before (i_id nx)) retval_tls 0) k) (with_fn f2 s1) =
        k (VInst q ShadowTy) (mkDst (insert_at (Before (i_id nx)) (result_load q) (Mod s1)) (q + 1) (tab s1)
          (UnwrappedFnMap s1) (f2 (fn s1)))) by done.
      rewrite <-(bind_assoc (CreateLoad _ _ _)), El. unfold setShadow. unfold bind at 1 2 3 4 5. cbn -[insert_at s2].
      rewrite Hnew2. unfold assert. rewrite bool_decide_eq_true_2 by done. reflexivity.
    + cbn [Mod with_fn s2]. unfold call_block. rewrite app_assoc. cbn [Datatypes.app].
      apply (insert_after_block _ _ _ _ _ _ _ _ Hap1); [done|]. rewrite ids_app, not_elem_of_app. split; [done|].
      pose proof (is_block_below _ _ _ _ (at_point_below _ _ _ _ _ _ Hap) (ap_block _ _ _ _ _ _ Hap)) as [_ Hall].
      rewrite Forall_app, !list.Forall_cons in Hall. destruct Hall as (_ & _ & Hnx2 & _).
      intros (i & E & Hi)%list_elem_of_fmap. pose proof (sl_ids _ _ _ _ HL) as Hids.
      rewrite list.Forall_forall in Hids. apply Hids in Hi. cbn in Hi. lia.
    + intros _. cbn. by rewrite fn_lookup_insert.
Qed.

(** ** The callee *)

(** The entry of a function that has a body and the TLS form of the ABI. *)
Record entry_ready s (b : Z) (ip : inst) (post : list inst) : Prop := {
  er_fun : exists g bs, find_fun (Mod s) (F (fn s)) = Some g /\ fn_blocks g = mkBlock b (ip :: post) :: bs;
  er_point : at_point (Mod s) (fresh s) b [] ip post;
  er_abi : ClArgsABI cfg = false /\ IsNativeABI (fn s) = false;
  er_tls : tls_ok (tab s) env;
  er_fn : tls_fn (fn s)
}.
Lemma entry_front_ok s b ip post : entry_ready s b ip post -> forall s', Mod s' = Mod s -> F (fn s') = F (fn s) ->
  entry_front s' = Ok (i_id ip, s').
Proof.
  intros [(g & bs & Hg & Hb) _ _ _ _] s' Em Ef. unfold entry_front, bind, gets, deref.
  rewrite Em, Ef, Hg. unfold ret. cbv beta iota. by rewrite Hb.
Qed.

(** A parameter gets its label from the slot with its number. *)
Lemma parameter_code s b ip post A t :
  entry_ready s b ip post -> 0 <= A < 64 -> ValShadowMap (fn s) (VArg A t) = None ->
  exists V s', getShadow cfg (VArg A t) s = Ok (V, s') /\
    ValShadowMap (fn s') (VArg A t) = Some (Some V) /\
    forall m l, slots m !! Tls arg_name A = Some l ->
      reaches env s s' b [] (i_id ip) m (fun m' =>
        eval env m' V = Some (MI l) /\ rt m' = rt m /\ slots m' = slots m).
Proof.
  intros He HA Hnew. pose proof He as [_ Hap [Habi Hnat] Ht [Hfn _]].
  set (gep := VGEP ArgTLSTy arg_tls 0 (Some A) ShadowPtrTy). set (V := VInst (fresh s) ShadowTy).
  set (d0 := set_ArgTLSPtr arg_tls (set_ValShadowMap (VArg A t) None (fn s))).
  set (s0 := mkDst (Mod s) (fresh s) (tab s) (UnwrappedFnMap s) d0).
  set (s1 := emitted (i_id ip) (ILoad gep 0) ShadowTy s).
  set (s' := mkDst (Mod s1) (fresh s1) (tab s) (UnwrappedFnMap s)
    (add_NonZeroCheck V (set_ValShadowMap (VArg A t) (Some V) d0))).
  exists V, s'. split_and!.
  - unfold getShadow. cbn [isArgument isInstruction negb andb]. rewrite (bind_Ok (gets fn) _ s (fn s) s) by done.
    rewrite Hnew, Hnat. rewrite (bind_Ok _ _ s tt (with_fn (set_ValShadowMap (VArg A t) None) s)) by done.
    assert (Ep : getArgTLSPtr cfg (with_fn (set_ValShadowMap (VArg A t) None) s) = Ok (arg_tls, s0)).
    { unfold getArgTLSPtr, bind, gets. cbn [tab fn with_fn ArgTLSPtr set_ValShadowMap]. rewrite (tl_arg _ _ Ht).
      destruct Hfn as [Hf|Hf]; rewrite Hf; [done|]. unfold ret, s0, d0, with_fn, set_ArgTLSPtr. cbn.
      rewrite <-Hf. done. }
    assert (Ef : entry_front s0 = Ok (i_id ip, s0)) by by apply (entry_front_ok _ _ _ _ He).
    unfold getArgShadow, getInstrumentedABI. rewrite Habi.
    rewrite <-(bind_assoc (getArgTLSPtr cfg)), (bind_Ok _ _ _ _ _ Ep).
    rewrite <-(bind_assoc (gets tab)), (bind_Ok (gets tab) _ s0 (tab s) s0) by done.
    rewrite <-(bind_assoc (gets Mod)), (bind_Ok (gets Mod) _ s0 (Mod s) s0) by done.
    rewrite (tl_arg _ _ Ht). rewrite <-(bind_assoc entry_front), (bind_Ok _ _ _ _ _ Ef). done.
  - cbn. by rewrite fn_lookup_insert.
  - intros m l Hl. destruct (spec_reaches env (emit (Before (i_id ip)) (ILoad gep 0) ShadowTy) s b [] ip post m
      (fun v _ m' => eval env m' v = Some (MI l) /\ rt m' = rt m /\ slots m' = slots m) Hap)
      as (v & s2 & E & Hre).
    + eapply (spec_emit _ _ _ _ _ _ (set_reg (fresh s) (MI l) m)); [|by apply keep_set_reg|].
      * unfold exec_inst. cbn [i_kind i_id i_ty const_global gep]. unfold gep.
        rewrite (eval_arg_tls (tab s)) by done. by rewrite Hl.
      * split; [cbn; by rewrite lookup_insert_eq|done].
    + injection E as <- <-. exact Hre.
Qed.

(** The label of the result goes to its slot. *)
Lemma return_code s b pre ip post m v V l :
  at_point (Mod s) (fresh s) b pre ip post -> ClArgsABI cfg = false -> IsNativeABI (fn s) = false ->
  tls_ok (tab s) env -> tls_fn (fn s) -> i_kind ip = IRet (Some v) ->
  known_shadow (fn s) v V -> eval env m V = Some (MI l) -> below (fresh s) V ->
  exists s', visitReturnInst cfg ip s = Ok (tt, s') /\
    reaches env s s' b pre (i_id ip) m (fun m' =>
      rt m' = rt m /\ slots m' = <[ Tls retval_name 0 := l ]> (slots m)).
Proof.
  intros Hap Habi Hnat Ht Hfn Hk HV EV BV. destruct (getRetvalTLS_ok s Ht Hfn) as (f & Hf & Er).
  set (s1 := emitted (i_id ip) (IStore V retval_tls 0) TVoid s).
  exists (mkDst (Mod s1) (fresh s1) (tab s1) (UnwrappedFnMap s1) (f (fn s))). split.
  - unfold visitReturnInst, getInstrumentedABI. rewrite (bind_Ok (gets fn) _ s (fn s) s) by done.
    rewrite Hk, Hnat, Habi. rewrite (bind_Ok _ _ _ _ _ (getShadow_known cfg v V s HV)).
    by rewrite (bind_Ok _ _ _ _ _ Er).
  - destruct (spec_reaches env (emit (Before (i_id ip)) (IStore V retval_tls 0) TVoid) s b pre ip post m
      (fun _ _ m' => rt m' = rt m /\ slots m' = <[ Tls retval_name 0 := l ]> (slots m)) Hap)
      as (u & s2 & E & Hre).
    + eapply (spec_emit _ _ _ _ _ _ (set_slot (Tls retval_name 0) l m)); [|done|done].
      cbn [exec_inst i_kind eval retval_tls]. unfold retval_tls. cbn [eval].
      rewrite (proj1 (tl_env _ _ Ht retval_name ltac:(by right))). by rewrite EV.
    + injection E as _ <-. exact Hre.
Qed.
End Calls.

(** ** Both sides *)

Section Both.
Context {T OS : Type} `{LabelStore T} (cfg : config).

(** C8: labels of arguments arrive.  At a call of an instrumented function with at most
    64 parameters, the code that [visitCallSite] puts in front of the call, followed by
    the code that [getShadow] puts at the entry of the callee for parameter [A], leaves
    in the shadow of the parameter the label of argument [A]; it does not touch shadow
    memory and labels. *)
Theorem argument_labels_arrive env s b pre ip nx post (m : mach T OS) callee args FT ls
  env2 s2 b2 ip2 post2 A t l :
  call_ready cfg env s b pre ip nx post m callee args FT ls ->
  entry_ready cfg env2 s2 b2 ip2 post2 -> ValShadowMap (fn s2) (VArg (Z.of_nat A) t) = None ->
  ls !! A = Some l ->
  exists s' V s2', visit_instrumented_call cfg ip callee args s = Ok (tt, s') /\
    getShadow cfg (VArg (Z.of_nat A) t) s2 = Ok (V, s2') /\
    reaches env s s' b pre (i_id ip) m (fun m1 => rt m1 = rt m /\
      forall m2 : mach T OS, slots m2 = slots m1 ->
        reaches env2 s2 s2' b2 [] (i_id ip2) m2 (fun m3 =>
          eval env2 m3 V = Some (MI l) /\ rt m3 = rt m2)).
Proof.
  intros Hc He Hnew Hl. pose proof (lookup_lt_Some _ _ _ Hl) as HA.
  pose proof (cr_len _ _ _ _ _ _ _ _ _ _ _ _ _ Hc) as Hlen. pose proof (cr_room _ _ _ _ _ _ _ _ _ _ _ _ _ Hc) as Hroom.
  destruct (call_code cfg env s b pre ip nx post m callee args FT ls Hc)
    as (L & q & s' & m1 & E & Hb & _ & _ & EL & K & R & S & Hni).
  destruct (parameter_code (T := T) (OS := OS) cfg env2 s2 b2 ip2 post2 (Z.of_nat A) t He ltac:(lia) Hnew)
    as (V & s2' & E2 & _ & Hre).
  exists s', V, s2'. split_and!; try done.
  eexists (fun l => l), _, (length L + 1)%nat, m1. split; [apply phi_only_id|]. split; [exact Hb|].
  split; [rewrite (run_straight _ _ _ _ _ _ _ _ m1) by done; by apply run_stop|].
  split; [done|]. split; [done|]. intros m2 Hs. eapply reaches_mono; [apply (Hre m2 l)|].
  - rewrite Hs, S. apply (put_labels_at ls 0 A l). done.
  - by intros m3 (H1 & H2 & _).
Qed.

(** The label of the result comes back.  The code that [visitReturnInst] puts in
    front of a return, followed by the load that [visitCallSite] puts after the call,
    leaves in the shadow of the call the label of the value that is returned. *)
Theorem result_label_returns env s b pre ip nx post (m : mach T OS) callee args FT ls
  env2 s2 b2 pre2 ip2 post2 (m2 : mach T OS) v V l :
  call_ready cfg env s b pre ip nx post m callee args FT ls -> isVoidTy (i_ty ip) = false ->
  at_point (Mod s2) (fresh s2) b2 pre2 ip2 post2 -> IsNativeABI (fn s2) = false ->
  tls_ok (tab s2) env2 -> tls_fn (fn s2) -> i_kind ip2 = IRet (Some v) ->
  known_shadow (fn s2) v V -> eval env2 m2 V = Some (MI l) -> below (fresh s2) V ->
  exists s' L q s2', visit_instrumented_call cfg ip callee args s = Ok (tt, s') /\
    visitReturnInst cfg ip2 s2 = Ok (tt, s2') /\
    ValShadowMap (fn s') (inst_value ip) = Some (Some (VInst q ShadowTy)) /\
    is_block (Mod s') b (pre ++ L ++ ip :: result_load q :: nx :: post) /\
    reaches env2 s2 s2' b2 pre2 (i_id ip2) m2 (fun m3 => rt m3 = rt m2 /\
      forall m4 : mach T OS, slots m4 = slots m3 ->
        exists m5, exec_inst env (tab s) (result_load q) m4 = Ok m5 /\
          eval env m5 (VInst q ShadowTy) = Some (MI l) /\ rt m5 = rt m4).
Proof.
  intros Hc Hv Hap Hnat Ht Hfn Hk HV EV BV.
  destruct (call_code cfg env s b pre ip nx post m callee args FT ls Hc)
    as (L & q & s' & m1 & E & Hb & Hsh & _).
  destruct (return_code cfg env2 s2 b2 pre2 ip2 post2 m2 v V l Hap (cr_abi _ _ _ _ _ _ _ _ _ _ _ _ _ Hc) Hnat Ht Hfn Hk HV EV BV)
    as (s2' & E2 & Hre).
  exists s', L, q, s2'. rewrite Hv in Hb, Hsh. split_and!; try done; [by apply Hsh|].
  eapply reaches_mono; [exact Hre|]. intros m3 [R S]. split; [done|]. intros m4 H4.
  exists (set_reg q (MI l) m4). split_and!; [|cbn; by rewrite lookup_insert_eq|done].
  pose proof (tl_env _ _ (cr_tls _ _ _ _ _ _ _ _ _ _ _ _ _ Hc) retval_name ltac:(by right)) as [G1 G2].
  cbn [exec_inst i_kind i_id i_ty result_load]. unfold const_global, retval_tls. cbn [eval]. rewrite G1, G2.
  rewrite H4, S. by rewrite lookup_insert_eq.
Qed.
End Both.
