(* ===== verification/DfsanPassModule.v ===== *)
(** * Functions of an instrumented module

    What [runOnModule] of [DFSanPass.cc] as a whole does to the functions of a module:
    separately compiled modules refer to functions by name and type, so that a
    function must keep its type, and an uninstrumented one its name. *)

From S2P Require Import Prelude DfsanIr DfsanPass.
Local Open Scope Z_scope.

Section Kept.
Context (cfg : config) (Habi : ClArgsABI cfg = false).

Definition own_ids (s : dst) : Prop :=
  NoDup (fn_id <$> m_funs (Mod s)) /\ Forall (fun f => fn_id f < fresh s) (m_funs (Mod s)).
(** [f'] is what became of [f]. *)
Definition kept_as (m : module) (f f' : func) : Prop :=
  fn_id f' = fn_id f /\ fn_type f' = fn_type f /\
  (isInstrumented cfg m f = false -> fn_name f' = fn_name f).
Definition kept (s s' : dst) : Prop :=
  own_ids s -> own_ids s' /\ m_name (Mod s') = m_name (Mod s) /\ fresh s <= fresh s' /\
    forall f, f ∈ m_funs (Mod s) -> exists f', f' ∈ m_funs (Mod s') /\ kept_as (Mod s) f f'.

Lemma isInstrumented_name m m' f f' :
  m_name m' = m_name m -> fn_name f' = fn_name f -> isInstrumented cfg m' f' = isInstrumented cfg m f.
Proof. unfold isInstrumented, isIn_fun, isIn_module. by intros -> ->. Qed.
#[local] Instance kept_pre : PreOrder kept.
Proof.
  split.
  - intros s Hi. split_and!; try done. intros f Hf. by exists f.
  - intros x y z Hxy Hyz Hi. destruct (Hxy Hi) as (Hi1 & N1 & F1 & K1).
    destruct (Hyz Hi1) as (Hi2 & N2 & F2 & K2). split_and!; [done|congruence|lia|].
    intros f Hf. destruct (K1 f Hf) as (f1 & Hf1 & A1 & B1 & C1).
    destruct (K2 f1 Hf1) as (f2 & Hf2 & A2 & B2 & C2). exists f2. split; [done|].
    split; [congruence|]. split; [congruence|]. intros Hn. rewrite C2, C1; [done|done|].
    rewrite (isInstrumented_name (Mod x) (Mod y) f f1); auto.
Qed.

(** *** Steps that leave identity, type and name of functions alone *)

Definition sig (f : func) : Z * FunctionType * string := (fn_id f, fn_type f, fn_name f).
Definition same_sigs (g : module -> module) : Prop :=
  forall m, m_name (g m) = m_name m /\ sig <$> m_funs (g m) = sig <$> m_funs m.

Lemma sigs_kept s s' :
  (own_ids s -> m_name (Mod s') = m_name (Mod s) /\ sig <$> m_funs (Mod s') = sig <$> m_funs (Mod s)) ->
  fresh s <= fresh s' -> kept s s'.
Proof.
  intros Hg Hfr [Hn Hb]. destruct (Hg (conj Hn Hb)) as [Hnm Hsig].
  assert (Hids : fn_id <$> m_funs (Mod s') = fn_id <$> m_funs (Mod s)).
  { apply (f_equal (fmap (fun x => x.1.1))) in Hsig. by rewrite <-!list_fmap_compose in Hsig. }
  split_and!; [|done|done|].
  - split; [by rewrite Hids|]. apply (Forall_fmap fn_id (fun x => x < fresh s')). rewrite Hids.
    apply Forall_fmap. eapply list.Forall_impl; [exact Hb|]. cbn. lia.
  - intros f [i Hi]%list_elem_of_lookup. apply (f_equal (fun l => l !! i)) in Hsig.
    rewrite !list_lookup_fmap, Hi in Hsig. destruct (m_funs (Mod s') !! i) as [f'|] eqn:Hf'; [|done].
    exists f'. split; [by eapply list_elem_of_lookup_2|]. unfold sig in Hsig. cbn in Hsig.
    injection Hsig as E1 E2 E3. done.
Qed.
Lemma same_sigs_kept g s s' :
  same_sigs g -> Mod s' = g (Mod s) -> fresh s <= fresh s' -> kept s s'.
Proof. intros Hg Em Hfr. apply sigs_kept; [|done]. intros _. rewrite Em. apply Hg. Qed.
(** One function is replaced by one with the same identity, type and name. *)
Lemma find_fun_Some m p f : find_fun m p = Some f -> f ∈ m_funs m /\ fn_id f = p.
Proof.
  unfold find_fun. intros E. destruct (filter _ _) as [|g l] eqn:Ef; [done|]. injection E as ->.
  assert (Hin : f ∈ filter (fun g => fn_id g = p) (m_funs m)) by (rewrite Ef; left).
  by apply list_elem_of_filter in Hin as [??].
Qed.
Lemma own_unique s f g : own_ids s -> f ∈ m_funs (Mod s) -> g ∈ m_funs (Mod s) -> fn_id f = fn_id g -> f = g.
Proof.
  intros [Hn _] [i Hi]%list_elem_of_lookup [j Hj]%list_elem_of_lookup E.
  assert (i = j) as <-; [|congruence]. eapply NoDup_lookup; [exact Hn|..]; rewrite list_lookup_fmap.
  - by rewrite Hi.
  - rewrite Hj. cbn. by rewrite E.
Qed.
Lemma replace_fun_kept s p f g s1 :
  find_fun (Mod s) p = Some f -> sig g = sig f ->
  Mod s1 = with_funs (fmap (fun h => if fn_id h =? p then g else h)) (Mod s) -> fresh s <= fresh s1 ->
  kept s s1.
Proof.
  intros Hf Hg Em Hfr. apply sigs_kept; [|done]. intros Hi. rewrite Em. split; [done|]. cbn.
  rewrite <-list_fmap_compose. apply list_fmap_ext. intros i h Hh. cbn.
  destruct (Z.eqb_spec (fn_id h) p) as [E|]; [|done]. apply find_fun_Some in Hf as [Hf Hp].
  rewrite Hg. f_equal. apply (own_unique s); try done; [by eapply list_elem_of_lookup_2|congruence].
Qed.
Lemma with_mod_kept g : same_sigs g -> always kept (modify (with_mod g)).
Proof. intros Hg s a s' [= <- <-]. eapply same_sigs_kept; [exact Hg|done|cbn; lia]. Qed.
Lemma with_fn_kept g : always kept (modify (with_fn g)).
Proof. intros s a s' [= <- <-]. apply (same_sigs_kept id); [done|by destruct s|cbn; lia]. Qed.
Lemma new_id_kept : always kept new_id.
Proof. intros s a s' [= <- <-]. apply (same_sigs_kept id); [done|by destruct s|cbn; lia]. Qed.
Lemma with_tab_kept t : always kept (modify (with_tab t)).
Proof. intros s a s' [= <- <-]. apply (same_sigs_kept id); [done|by destruct s|cbn; lia]. Qed.
Lemma with_unwrapped_kept v p : always kept (modify (with_unwrapped v p)).
Proof. intros s a s' [= <- <-]. apply (same_sigs_kept id); [done|by destruct s|cbn; lia]. Qed.

Lemma sigs_funs h : (forall f, sig (h f) = sig f) -> same_sigs (with_funs (fmap h)).
Proof.
  intros Hh m. split; [done|]. cbn. rewrite <-list_fmap_compose. apply list_fmap_ext. intros i f _. apply Hh.
Qed.
Lemma sigs_map_blocks f : same_sigs (map_blocks f).
Proof. by apply sigs_funs. Qed.
Lemma sigs_map_insts f : same_sigs (map_insts f).
Proof. by apply sigs_funs. Qed.
Lemma sigs_insert pt x : same_sigs (insert_at pt x).
Proof. destruct pt; [apply sigs_map_insts|apply sigs_map_blocks]. Qed.
Lemma sigs_rauw v w : same_sigs (replaceAllUsesWith v w).
Proof. intros m. destruct (sigs_map_insts (fmap (on_kind (subst_kind v w))) m). done. Qed.
Lemma sigs_aliases f : same_sigs (with_aliases f).
Proof. done. Qed.
Lemma sigs_globals f : same_sigs (with_globals f).
Proof. done. Qed.
Lemma sigs_asm (f : module -> string) : same_sigs (fun m => with_asm (f m) m).
Proof. done. Qed.
Lemma sigs_on_blocks p f : same_sigs (with_funs (fmap (fun g => if fn_id g =? p then on_blocks f g else g))).
Proof. apply sigs_funs. intros g. by destruct (fn_id g =? p). Qed.
#[local] Hint Resolve with_mod_kept with_fn_kept new_id_kept with_tab_kept with_unwrapped_kept sigs_map_blocks
  sigs_map_insts sigs_insert sigs_rauw sigs_aliases sigs_globals sigs_asm sigs_on_blocks : always.

(** *** The builder and the visitors *)

Lemma assert_kept b : always kept (assert cfg b).
Proof. unfold assert. destruct (b || _); [apply always_ret|apply always_fail]; exact _. Qed.
Lemma deref_kept {A} (o : option A) : always kept (deref o).
Proof. destruct o; [apply always_ret|apply always_fail]; exact _. Qed.
#[local] Hint Resolve assert_kept deref_kept : always.
Lemma emit_kept pt k t : always kept (emit pt k t).
Proof. unfold emit. always_auto. Qed.
#[local] Hint Resolve emit_kept : always.
Lemma CreateLoad_kept pt p a : always kept (CreateLoad pt p a).
Proof. apply emit_kept. Qed.
Lemma CreateStore_kept pt v p a : always kept (CreateStore pt v p a).
Proof. apply emit_kept. Qed.
Lemma CreateBin_kept pt o x y : always kept (CreateBin pt o x y).
Proof. unfold CreateBin. always_auto. Qed.
Lemma CreateCast_kept pt c v t : always kept (CreateCast pt c v t).
Proof. unfold CreateCast. always_auto. Qed.
#[local] Hint Resolve CreateLoad_kept CreateStore_kept CreateBin_kept CreateCast_kept : always.
Lemma CreateZExtOrTrunc_kept pt v t : always kept (CreateZExtOrTrunc pt v t).
Proof. unfold CreateZExtOrTrunc. always_auto. Qed.
Lemma CreateICmp_kept pt p x y : always kept (CreateICmp pt p x y).
Proof. unfold CreateICmp. always_auto. Qed.
Lemma CreateConstGEP_kept pt e w b i j t : always kept (CreateConstGEP pt e w b i j t).
Proof. unfold CreateConstGEP. always_auto. Qed.
Lemma CreateInsertValue_kept pt a v i : always kept (CreateInsertValue pt a v i).
Proof. unfold CreateInsertValue. always_auto. Qed.
Lemma CreateCall_kept pt f args : always kept (CreateCall cfg pt f args).
Proof. unfold CreateCall. always_auto. Qed.
Lemma CreateInvoke_kept pt f args n u : always kept (CreateInvoke cfg pt f args n u).
Proof. unfold CreateInvoke. always_auto. Qed.
Lemma entry_front_kept : always kept entry_front.
Proof. unfold entry_front. always_auto. Qed.
Lemma parent_of_kept p : always kept (parent_of p).
Proof. unfold parent_of. always_auto. Qed.
Lemma block_front_kept b : always kept (block_front b).
Proof. unfold block_front. always_auto. Qed.
Lemma new_block_kept : always kept new_block.
Proof. unfold new_block. always_auto. Qed.
Lemma cur_inst_kept p : always kept (cur_inst p).
Proof. unfold cur_inst. always_auto. Qed.
#[local] Hint Resolve CreateZExtOrTrunc_kept CreateICmp_kept CreateConstGEP_kept CreateInsertValue_kept
  CreateCall_kept CreateInvoke_kept entry_front_kept parent_of_kept block_front_kept new_block_kept
  cur_inst_kept : always.
Lemma split_then_kept c p u : always kept (SplitBlockAndInsertIfThen c p u).
Proof. unfold SplitBlockAndInsertIfThen. always_auto. Qed.
Lemma entry_alloca_kept t : always kept (entry_alloca t).
Proof. unfold entry_alloca. always_auto. Qed.
Lemma trampoline_type_kept t : always kept (getTrampolineFunctionType cfg t).
Proof. unfold getTrampolineFunctionType. always_auto. Qed.
Lemma getArgTLSPtr_kept : always kept (getArgTLSPtr cfg).
Proof. unfold getArgTLSPtr. always_auto. Qed.
Lemma getRetvalTLS_kept : always kept (getRetvalTLS cfg).
Proof. unfold getRetvalTLS. always_auto. Qed.
#[local] Hint Resolve split_then_kept entry_alloca_kept trampoline_type_kept getArgTLSPtr_kept
  getRetvalTLS_kept : always.
Lemma getArgTLS_kept i p : always kept (getArgTLS cfg i p).
Proof. unfold getArgTLS. always_auto. Qed.
#[local] Hint Resolve getArgTLS_kept : always.
Lemma getArgShadow_kept A : always kept (getArgShadow cfg A).
Proof. unfold getArgShadow. always_auto. Qed.
#[local] Hint Resolve getArgShadow_kept : always.
Lemma getShadow_kept v : always kept (getShadow cfg v).
Proof. unfold getShadow. always_auto. Qed.
Lemma setShadow_kept i v : always kept (setShadow cfg i v).
Proof. unfold setShadow. always_auto. Qed.
Lemma getShadowAddress_kept v p : always kept (getShadowAddress cfg v p).
Proof. unfold getShadowAddress. always_auto. Qed.
#[local] Hint Resolve getShadow_kept setShadow_kept getShadowAddress_kept : always.
Lemma get_shadows_kept vs : always kept (get_shadows cfg vs).
Proof. induction vs; cbn; always_auto. Qed.
Lemma emit_union_kept x y p : always kept (emit_union cfg x y p).
Proof. unfold emit_union. always_auto. Qed.
#[local] Hint Resolve get_shadows_kept emit_union_kept : always.
Lemma join_shadows_kept x y p : always kept (join_shadows cfg x y p).
Proof. unfold join_shadows. always_auto. Qed.
#[local] Hint Resolve join_shadows_kept : always.
Lemma combineShadows_kept x y i : always kept (combineShadows cfg x y i).
Proof. unfold combineShadows, note_and, note_signed, note_shape. always_auto. Qed.
#[local] Hint Resolve combineShadows_kept : always.
Lemma combine_rest_kept v ops i : always kept (combine_rest cfg v ops i).
Proof. revert v. induction ops; intros v; cbn; always_auto. Qed.
#[local] Hint Resolve combine_rest_kept : always.
Lemma combineOperandShadows_kept i : always kept (combineOperandShadows cfg i).
Proof. unfold combineOperandShadows. always_auto. Qed.
#[local] Hint Resolve combineOperandShadows_kept : always.
Lemma visitOperandShadowInst_kept i : always kept (visitOperandShadowInst cfg i).
Proof. unfold visitOperandShadowInst. always_auto. Qed.
Lemma wide_compare_kept fuel : forall o z a wa ws f br bb, always kept (wide_compare cfg fuel o z a wa ws f br bb).
Proof. induction fuel; intros; cbn [wide_compare]; always_auto. Qed.
Lemma wide_head_kept v a p : always kept (wide_head v a p).
Proof. unfold wide_head. always_auto. Qed.
#[local] Hint Resolve visitOperandShadowInst_kept wide_compare_kept wide_head_kept : always.
Lemma load_fast_kept v z a p : always kept (load_fast cfg v z a p).
Proof. unfold load_fast. always_auto. Qed.
Lemma alloca_shadow_kept v : always kept (alloca_shadow v).
Proof. unfold alloca_shadow. always_auto. Qed.
#[local] Hint Resolve load_fast_kept alloca_shadow_kept : always.
Lemma loadShadow_kept v z a p : always kept (loadShadow cfg v z a p).
Proof. unfold loadShadow. always_auto. Qed.
Lemma splat_kept n : forall i v s p, always kept (splat n i v s p).
Proof. induction n; intros; cbn [splat]; always_auto. Qed.
Lemma store_vectors_kept n : forall z o a v w p, always kept (store_vectors n z o a v w p).
Proof. induction n; intros; cbn [store_vectors]; always_auto. Qed.
Lemma store_singles_kept n : forall z o a v w p, always kept (store_singles n z o a v w p).
Proof. induction n; intros; cbn [store_singles]; always_auto. Qed.
#[local] Hint Resolve loadShadow_kept splat_kept store_vectors_kept store_singles_kept : always.
Lemma storeShadow_kept v z a w p : always kept (storeShadow cfg v z a w p).
Proof. unfold storeShadow. always_auto. Qed.
#[local] Hint Resolve storeShadow_kept : always.
Lemma visitLoadInst_kept i : always kept (visitLoadInst cfg i).
Proof. unfold visitLoadInst. always_auto. Qed.
Lemma visitStoreInst_kept i : always kept (visitStoreInst cfg i).
Proof. unfold visitStoreInst. always_auto. Qed.
Lemma visitAllocaInst_kept i : always kept (visitAllocaInst cfg i).
Proof. unfold visitAllocaInst. always_auto. Qed.
Lemma visitSelectInst_kept i : always kept (visitSelectInst cfg i).
Proof. unfold visitSelectInst. always_auto. Qed.
Lemma visitMemSetInst_kept i : always kept (visitMemSetInst cfg i).
Proof. unfold visitMemSetInst. always_auto. Qed.
Lemma visitMemTransferInst_kept i : always kept (visitMemTransferInst cfg i).
Proof. unfold visitMemTransferInst. always_auto. Qed.
Lemma visitReturnInst_kept i : always kept (visitReturnInst cfg i).
Proof. unfold visitReturnInst. always_auto. Qed.
Lemma visitPHINode_kept i : always kept (visitPHINode cfg i).
Proof. unfold visitPHINode. always_auto. Qed.
#[local] Hint Resolve visitLoadInst_kept visitStoreInst_kept visitAllocaInst_kept visitSelectInst_kept
  visitMemSetInst_kept visitMemTransferInst_kept visitReturnInst_kept visitPHINode_kept : always.

(** *** Calls *)

Lemma store_va_labels_kept a t w vs p : forall n, always kept (store_va_labels cfg a t w n vs p).
Proof. induction vs; intros; cbn [store_va_labels]; always_auto. Qed.
Lemma store_arg_labels_kept p : forall n i args, always kept (store_arg_labels cfg i n args p).
Proof. induction n; intros i args; cbn [store_arg_labels]; always_auto. Qed.
Lemma SplitEdge_kept x y : always kept (SplitEdge x y).
Proof. unfold SplitEdge. always_auto. Qed.
#[local] Hint Resolve store_va_labels_kept store_arg_labels_kept SplitEdge_kept : always.
Lemma after_call_kept i : always kept (after_call i).
Proof. unfold after_call. always_auto. Qed.
Lemma erase_kept p : always kept (erase p).
Proof. unfold erase. always_auto. Qed.
Lemma set_callee_kept p f : always kept (set_callee p f).
Proof. unfold set_callee. always_auto. Qed.
#[local] Hint Resolve after_call_kept erase_kept set_callee_kept : always.
Lemma call_args_abi_kept i c a t n : always kept (call_args_abi cfg i c a t n).
Proof. unfold call_args_abi. always_auto. Qed.
#[local] Hint Resolve call_args_abi_kept : always.
Lemma visit_instrumented_call_kept i c a : always kept (visit_instrumented_call cfg i c a).
Proof. unfold visit_instrumented_call. always_auto. Qed.
#[local] Hint Resolve visit_instrumented_call_kept : always.

(** A function is added at the end, under an address that was not used. *)
Lemma add_fun_kept s s' f :
  Mod s' = with_funs (fun l => l ++ [f]) (Mod s) -> fresh s <= fn_id f < fresh s' -> kept s s'.
Proof.
  intros Em Hf [Hn Hb]. split_and!; [|by rewrite Em|lia|].
  - rewrite list.Forall_forall in Hb. split; rewrite Em; cbn.
    + rewrite fmap_app. apply list.NoDup_app. split_and!; [done| |apply NoDup_singleton].
      intros x (g & -> & Hg)%list_elem_of_fmap. apply Hb in Hg. cbn. rewrite list_elem_of_singleton. lia.
    + apply Forall_app. split; [|constructor; [lia|constructor]]. apply list.Forall_forall. intros g Hg. apply Hb in Hg. lia.
  - intros g Hg. exists g. split; [|done]. rewrite Em. cbn. apply elem_of_app. by left.
Qed.
Lemma getOrInsertFunction_kept n t : always kept (getOrInsertFunction n t).
Proof.
  intros s v s' (m & s1 & [= <- <-] & E)%bind_Ok_inv. destruct (fun_named (Mod s) n).
  - injection E as _ <-. reflexivity.
  - injection E as _ <-. by apply (add_fun_kept _ _ (mkFunc (fresh s) n t ExternalLinkage [])); [|cbn; lia].
Qed.
Lemma getOrInsertGlobal_kept n t b : always kept (getOrInsertGlobal n t b).
Proof. unfold getOrInsertGlobal. always_auto. Qed.
#[local] Hint Resolve getOrInsertFunction_kept getOrInsertGlobal_kept : always.

(** The body of a trampoline. *)
Lemma trampoline_kept t n : always kept (getOrBuildTrampolineFunction cfg t n).
Proof.
  unfold getOrBuildTrampolineFunction. do 2 (apply always_bind; [exact _|auto with always|intros ?]).
  apply always_gets_bind. intros s v s'. destruct a0; try (by intros [= <- <-]; reflexivity).
  intros (g & s1 & E1 & E)%bind_Ok_inv.
  destruct (find_fun (Mod s) f) as [g'|] eqn:Hg; [|done]. injection E1 as -> ->.
  destruct (isDeclaration g); [|by injection E as <- <-; reflexivity].
  do 3 (apply bind_Ok_inv in E as (? & ? & [= <- <-] & E)). cbv zeta in E.
  apply bind_Ok_inv in E as ([] & s2 & [= <-] & E).
  etrans; [|revert E; match goal with |- ?k ?s0 = _ -> _ => intros E; assert (Hk : always kept k); [always_auto|exact (Hk _ _ _ E)] end].
  eapply (replace_fun_kept _ f g); [exact Hg| |reflexivity|cbn; lia].
  apply find_fun_Some in Hg as [_ <-]. done.
Qed.
#[local] Hint Resolve trampoline_kept : always.
Lemma custom_args_kept f p : forall n i args, always kept (custom_args cfg f i n args p).
Proof. induction n; intros i args; cbn [custom_args]; always_auto. Qed.
Lemma custom_params_kept ps : forall a m, always kept (custom_params cfg ps a m).
Proof. induction ps; intros; cbn [custom_params]; always_auto. Qed.
#[local] Hint Resolve custom_args_kept custom_params_kept : always.
Lemma getCustomFunctionType_kept t : always kept (getCustomFunctionType cfg t).
Proof. unfold getCustomFunctionType. always_auto. Qed.
Lemma custom_operands_kept i a f : always kept (custom_operands cfg i a f).
Proof. unfold custom_operands. always_auto. Qed.
#[local] Hint Resolve getCustomFunctionType_kept custom_operands_kept : always.
Lemma visit_custom_call_kept i a f : always kept (visit_custom_call cfg i a f).
Proof. unfold visit_custom_call. always_auto. Qed.
#[local] Hint Resolve visit_custom_call_kept : always.
Lemma visitCallSite_kept i : always kept (visitCallSite cfg i).
Proof. unfold visitCallSite, CreateGlobalStringPtr. always_auto. Qed.
#[local] Hint Resolve visitCallSite_kept : always.
Lemma visit_kept i : always kept (visit cfg i).
Proof. unfold visit. always_auto. Qed.
#[local] Hint Resolve visit_kept : always.

(** *** Names *)

Lemma renamed_ids p n m : fn_id <$> m_funs (rename_fun p n m) = fn_id <$> m_funs m.
Proof.
  cbn. rewrite <-list_fmap_compose. apply list_fmap_ext. intros i f _. cbn. by destruct (fn_id f =? p).
Qed.
Lemma rename_own s s' p n : own_ids s -> Mod s' = rename_fun p n (Mod s) -> fresh s <= fresh s' -> own_ids s'.
Proof.
  intros [Hn Hb] Em Hfr. unfold own_ids. rewrite Em. split; [by rewrite renamed_ids|].
  apply (Forall_fmap fn_id (fun x => x < fresh s')). rewrite renamed_ids. apply Forall_fmap.
  eapply list.Forall_impl; [exact Hb|]. cbn. lia.
Qed.
(** An instrumented function gets another name. *)
Lemma rename_kept s s' p f n :
  find_fun (Mod s) p = Some f -> isInstrumented cfg (Mod s) f = true ->
  Mod s' = rename_fun p n (Mod s) -> fresh s <= fresh s' -> kept s s'.
Proof.
  intros Hf Hins Em Hfr Hi. split_and!; [by eapply rename_own|by rewrite Em|done|].
  intros g Hg. exists (if fn_id g =? p then mkFunc (fn_id g) n (fn_type g) (fn_linkage g) (fn_blocks g) else g).
  split; [rewrite Em; cbn; apply list_elem_of_fmap; eauto|].
  destruct (Z.eqb_spec (fn_id g) p) as [E|]; [|done]. split; [done|]. split; [done|]. intros Hni.
  apply find_fun_Some in Hf as [Hf Hp]. rewrite (own_unique s g f) in Hni; [congruence|done..|congruence].
Qed.
(** A new function gets its name. *)
Lemma rename_new_kept s s1 s' p n :
  kept s s1 -> fresh s <= p -> Mod s' = rename_fun p n (Mod s1) -> fresh s1 <= fresh s' -> kept s s'.
Proof.
  intros Hk Hp Em Hfr Hi. destruct (Hk Hi) as (Hi1 & N1 & F1 & K1).
  split_and!; [by eapply rename_own|by rewrite Em|lia|]. intros f Hf. destruct (K1 f Hf) as (f1 & Hf1 & E1 & E2 & E3).
  exists f1. split; [|done]. rewrite Em. cbn. apply list_elem_of_fmap. exists f1. split; [|done].
  destruct Hi as [_ Hb]. rewrite list.Forall_forall in Hb. apply Hb in Hf.
  destruct (Z.eqb_spec (fn_id f1) p); [lia|done].
Qed.

Lemma buildWrapper_ok f n l t s g s' :
  buildWrapperFunction cfg f n l t s = Ok (g, s') ->
  fn_id g = fresh s /\ fn_type g = t /\ Mod s' = with_funs (fun fs => fs ++ [g]) (Mod s) /\ fresh s' = fresh s + 4.
Proof.
  intros E. unfold buildWrapperFunction, bind, gets, new_id, add_fun, modify, ret in E. cbv zeta in E.
  injection E as <- <-. cbn. split_and!; try done. lia.
Qed.
Lemma buildWrapper_kept f n l t : always kept (buildWrapperFunction cfg f n l t).
Proof.
  intros s g s' (E1 & _ & E2 & E3)%buildWrapper_ok. eapply add_fun_kept; [exact E2|lia].
Qed.
#[local] Hint Resolve buildWrapper_kept : always.
Lemma addGlobalNamePrefix_alias_kept a : always kept (addGlobalNamePrefix_alias cfg a).
Proof.
  unfold addGlobalNamePrefix_alias. apply always_bind; [exact _| |intros _; always_auto].
  apply with_mod_kept. intros m. done.
Qed.
#[local] Hint Resolve addGlobalNamePrefix_alias_kept : always.
Lemma fix_alias_kept p : always kept (fix_alias cfg p).
Proof.
  unfold fix_alias. apply always_bind; [exact _|always_auto|intros m].
  apply always_bind; [exact _|always_auto|intros a]. destruct (called_fun m _) as [f|]; [|always_auto].
  destruct (isInstrumented_alias cfg m a && isInstrumented cfg m f); [always_auto|].
  destruct (negb _); [|always_auto].
  intros s r s' (NewF & s1 & Eb & E)%bind_Ok_inv. pose proof (buildWrapper_kept _ _ _ _ _ _ _ Eb) as Hk.
  apply buildWrapper_ok in Eb as (Eid & _).
  apply bind_Ok_inv in E as ([] & s2 & E2 & E). apply (with_mod_kept _ (sigs_rauw _ _)) in E2.
  apply bind_Ok_inv in E as ([] & s3 & E3 & E). apply (with_mod_kept _ (sigs_aliases _)) in E3.
  apply bind_Ok_inv in E as ([] & s4 & [= <-] & E). injection E as _ <-.
  apply (rename_new_kept s s3 _ (fn_id NewF) (ga_name a)); [by etrans; [exact Hk|etrans]|lia|reflexivity|cbn; lia].
Qed.
#[local] Hint Resolve fix_alias_kept : always.
Lemma fix_aliases_kept l : always kept (fix_aliases cfg l).
Proof. induction l; cbn [fix_aliases]; always_auto. Qed.
Lemma wrap_function_kept f : always kept (wrap_function cfg f).
Proof. unfold wrap_function. always_auto. Qed.
#[local] Hint Resolve fix_aliases_kept wrap_function_kept : always.
Lemma abi_step_kept p : always kept (abi_step cfg p).
Proof.
  unfold abi_step. intros s r s' (m & s1 & [= <- <-] & E)%bind_Ok_inv.
  destruct (find_fun (Mod s) p) as [f|] eqn:Hf; [|done].
  apply bind_Ok_inv in E as (f' & s1 & [= <- <-] & E). cbv zeta in E.
  destruct (isInstrumented cfg (Mod s) f) eqn:Hins.
  - unfold getInstrumentedABI in E. rewrite Habi, bool_decide_eq_false_2 in E by done. cbn [andb] in E.
    apply bind_Ok_inv in E as ([] & s1 & E1 & E). injection E as _ <-.
    apply bind_Ok_inv in E1 as (m & s2 & [= <- <-] & E1). apply bind_Ok_inv in E1 as (g & s2 & Eg & E1).
    rewrite Hf in Eg. injection Eg as <- <-. apply bind_Ok_inv in E1 as ([] & s2 & E2 & E1).
    apply (with_mod_kept _ (sigs_asm _)) in E1. etrans; [|exact E1]. injection E2 as <-.
    by eapply (rename_kept s _ p f); [| |reflexivity|cbn; lia].
  - assert (Hk : forall g : D (option Z * list Z), always kept g -> g s = Ok (r, s') -> kept s s') by eauto.
    revert E. apply Hk. always_auto.
Qed.
#[local] Hint Resolve abi_step_kept : always.
Lemma abi_loop_kept l : always kept (abi_loop cfg l).
Proof. induction l; cbn [abi_loop]; always_auto. Qed.
#[local] Hint Resolve abi_loop_kept : always.

(** *** The pass *)

Lemma visit_from_kept n : forall p, always kept (visit_from cfg n p).
Proof. induction n; intros; cbn [visit_from]; always_auto. Qed.
#[local] Hint Resolve visit_from_kept : always.
Lemma visit_blocks_kept l : always kept (visit_blocks cfg l).
Proof. induction l; cbn [visit_blocks]; always_auto. Qed.
Lemma fix_phis_kept l : always kept (fix_phis cfg l).
Proof. induction l as [|[p q] l IH]; cbn [fix_phis]; always_auto. Qed.
Lemma check_nonzero_kept l : always kept (check_nonzero cfg l).
Proof. induction l; cbn [check_nonzero]; always_auto. Qed.
#[local] Hint Resolve visit_blocks_kept fix_phis_kept check_nonzero_kept : always.
Lemma instrument_function_kept n p : always kept (instrument_function cfg n p).
Proof.
  unfold instrument_function. intros s r s' (m & s1 & [= <- <-] & E)%bind_Ok_inv.
  destruct (find_fun (Mod s) p) as [f|] eqn:Hf; [|done].
  apply bind_Ok_inv in E as (f' & s1 & [= <- <-] & E). cbv zeta in E.
  destruct (isDeclaration f); [by injection E as _ <-; reflexivity|].
  apply bind_Ok_inv in E as ([] & s1 & E1 & E). trans s1.
  { injection E1 as <-. by eapply (replace_fun_kept s p f (on_blocks (removeUnreachableBlocks cfg) f)); [| |reflexivity|cbn; lia]. }
  revert E. match goal with |- ?k ?s0 = _ -> _ => intros E; assert (Hk : always kept k); [always_auto|exact (Hk _ _ _ E)] end.
Qed.
#[local] Hint Resolve instrument_function_kept : always.
Lemma instrument_functions_kept n l : always kept (instrument_functions cfg n l).
Proof. induction l; cbn [instrument_functions]; always_auto. Qed.
Lemma declare_runtime_kept : always kept (declare_runtime cfg).
Proof. unfold declare_runtime. always_auto. Qed.
#[local] Hint Resolve instrument_functions_kept declare_runtime_kept : always.
Lemma runOnModule_kept : always kept (runOnModule cfg).
Proof. unfold runOnModule. always_auto. Qed.
End Kept.

(** Every function has something in its place after the first loop: the branch for
    variadic functions without wrappers is never taken, because a variadic function
    always gets a wrapper. *)
Lemma abi_step_some cfg p s r s' : abi_step cfg p s = Ok (r, s') -> is_Some r.1.
Proof.
  unfold abi_step. intros (m & s1 & _ & (f & s2 & _ & E)%bind_Ok_inv)%bind_Ok_inv. cbv zeta in E.
  repeat case_match; repeat match goal with
    | H : bind _ _ _ = Ok _ |- _ => apply bind_Ok_inv in H as (? & ? & _ & H)
    | H : ret _ _ = Ok _ |- _ => injection H as <- _
    end; try done.
  exfalso. unfold isZeroArgsVoidRet in *. destruct (ft_va (fn_type f)); [|done].
  match goal with H : negb _ || _ = false |- _ => rewrite andb_false_r in H; done end.
Qed.

(** C24: whatever the pass does to a module in the TLS form of the ABI, every function of
    the module is still there under its address and with its type, and a function
    that the rule files call uninstrumented still has its name, so that code compiled
    elsewhere finds it.  Functions keep different addresses. *)
Theorem functions_kept cfg m n r s :
  ClArgsABI cfg = false -> NoDup (fn_id <$> m_funs m) -> Forall (fun f => fn_id f < n) (m_funs m) ->
  run_dfsan cfg m n = Ok (r, s) ->
  NoDup (fn_id <$> m_funs (Mod s)) /\
  forall f, f ∈ m_funs m -> exists f', f' ∈ m_funs (Mod s) /\ kept_as cfg m f f'.
Proof.
  intros Habi Hn Hb. unfold run_dfsan. destruct (doInitialization cfg m) as [t|]; [|done]. intros E.
  destruct (runOnModule_kept cfg Habi _ _ _ E (conj Hn Hb)) as ([Hn' _] & _ & _ & Hk). by split.
Qed.
