(* ===== verification/DfsanPassEx.v ===== *)
(** * Examples for the data-flow pass

    Concrete modules and states at which the theorems on [DFSanPass.cc] apply. *)

From S2P Require Import Prelude CMem Dfsan DfsanIr DfsanPass DfsanPassMach.
From S2P Require Import DfsanPassBlocks DfsanPassMem DfsanPassLoad DfsanPassCombine DfsanPassSetup.
From S2P Require Import DfsanPassCustom DfsanPassCalls DfsanPassModule.
Local Open Scope Z_scope.

(** ** A module *)

(** [memcpy] and [qsort] have custom wrappers, the labels of [puts] are discarded. *)
Definition ex_rules (sec q cat : string) : bool :=
  bool_decide (sec = "fun"%string) &&
  bool_decide ((q, cat) ∈ [("memcpy", "uninstrumented"); ("memcpy", "custom"); ("qsort", "uninstrumented");
    ("qsort", "custom"); ("puts", "uninstrumented"); ("puts", "discard")])%string.
Definition ex_size (t : ty) : Z := match t with TInt w => (w + 7) / 8 | TPtr _ => 8 | _ => 4 end.
Definition ex_cfg : config :=
  mkConfig false false true false false None None ex_rules 64 ex_size (fun _ => 8) (fun _ v => [v])
    (fun l => l) (fun _ n => (n ++ ".1")%string) (fun _ _ => false) false true.

Definition i8p : ty := TPtr (TInt 8).
Definition i32 : ty := TInt 32.
Definition memcpy_ty : FunctionType := mkFT i8p [i8p; i8p; TInt 64] false.
Definition ex_fun : func :=
  mkFunc 1 "f" (mkFT i32 [i32; TPtr (TInt 16)] false) ExternalLinkage
    [mkBlock 2 [mkInst 3 (ILoad (VArg 1 (TPtr (TInt 16))) 0) (TInt 16);
       mkInst 4 (ICast ZExt (VInst 3 (TInt 16))) i32;
       mkInst 5 (IBin Add true false (VInst 4 i32) (VArg 0 i32)) i32;
       mkInst 6 (ICall (VFun 10 (fun_ty memcpy_ty)) [VUndef i8p; VUndef i8p; VInt 64 5]) i8p;
       mkInst 7 (IRet (Some (VInst 5 i32))) TVoid]].
Definition ex_mod : module :=
  mkModule "m" x86_64 "" [ex_fun; mkFunc 10 "memcpy" memcpy_ty ExternalLinkage []] [] [].

Lemma functions_kept_witness :
  exists r s, run_dfsan ex_cfg ex_mod 100 = Ok (r, s) /\
    exists f', f' ∈ m_funs (Mod s) /\ fn_id f' = 10 /\ fn_name f' = "memcpy"%string.
Proof.
  destruct (run_dfsan ex_cfg ex_mod 100) as [[r s]|] eqn:E; [|vm_compute in E; discriminate].
  exists r, s. split; [done|].
  assert (Hn : NoDup (fn_id <$> m_funs ex_mod)) by (apply (bool_decide_unpack _); vm_compute; exact I).
  assert (Hb : Forall (fun f => fn_id f < 100) (m_funs ex_mod)) by (repeat constructor).
  destruct (proj2 (functions_kept ex_cfg ex_mod 100 r s eq_refl Hn Hb E)
    (mkFunc 10 "memcpy" memcpy_ty ExternalLinkage [])) as (f' & Hf & H1 & _ & H2).
  - right. left.
  - exists f'. split; [done|]. split; [done|]. apply H2. vm_compute. reflexivity.
Defined.
(** The instrumented function has a new name, the wrapper is called. *)
Example ex_names :
  match run_dfsan ex_cfg ex_mod 100 with
  | Ok (_, s) => fun_named (Mod s) "dfs$f" <> None /\ fun_named (Mod s) "__dfsw_memcpy" <> None
  | Fault _ => False
  end.
Proof. vm_compute. split; discriminate. Qed.

(** ** Points of a function *)

Definition one_block (b : Z) (l : list inst) : module :=
  mkModule "m" x86_64 "" [mkFunc 1 "f" (mkFT i32 [i32] false) ExternalLinkage [mkBlock b l]] [] [].
Lemma one_block_point b pre ip post n :
  i_id ip ∉ ids pre -> b < n -> Forall (fun i => i_id i < n) (pre ++ ip :: post) ->
  Forall (fun c => c < n) (block_succs (mkBlock b (pre ++ ip :: post))) ->
  at_point (one_block b (pre ++ ip :: post)) n b pre ip post.
Proof.
  intros H1 H2 H3 H4.
  assert (Hm : mod_blocks (one_block b (pre ++ ip :: post)) = [mkBlock b (pre ++ ip :: post)]).
  { unfold mod_blocks. cbn. done. }
  split; try done; rewrite ?Hm.
  - split; rewrite Hm; [left|]. by intros c ->%list_elem_of_singleton.
  - by intros c ->%list_elem_of_singleton.
  - by intros c ->%list_elem_of_singleton.
  - by intros c ->%list_elem_of_singleton.
Qed.

Definition rt_fun (k : Z) (t : FunctionType) : value := VFun k (fun_ty t).
Definition ex_tables : tables :=
  mkTables (VInt 64 (ShadowMask X86_64)) false (Some arg_tls) (Some retval_tls) None None
    (VGlobal mask_global (TInt 64) false) (rt_fun 50 DFSanUnionFnTy) (rt_fun 51 DFSanCombineAndFnTy)
    (rt_fun 52 DFSanInferShapeFnTy) (rt_fun 53 DFSanUnionFnTy) (rt_fun 54 DFSanUnionFnTy)
    (rt_fun 55 (DFSanUnionLoadFnTy ex_cfg)) (rt_fun 56 DFSanUnimplementedFnTy)
    (rt_fun 57 (DFSanSetLabelFnTy ex_cfg)) (rt_fun 58 DFSanNonzeroLabelFnTy)
    (rt_fun 59 DFSanVarargWrapperFnTy).
Lemma ex_tables_ok : tables_ok ex_cfg ex_tables.
Proof. split_and!; try done. apply (bool_decide_unpack _). vm_compute. exact I. Qed.
Lemma ex_notes_ok : notes_ok ex_tables.
Proof. done. Qed.

Definition ex_shadows (v : value) : option (option value) :=
  if decide (v = VInst 20 i32) then Some (Some (VInst 30 ShadowTy))
  else if decide (v = VInst 21 i32) then Some (Some (VInst 31 ShadowTy)) else None.
Definition ex_fn : dfsf :=
  mkDFSF 1 false false [] None None None ex_shadows (fun _ => None) [] [] [] (fun _ => None) (fun _ => None).
Definition ex_env : menv :=
  mkMenv (fun n => if n =? 0 then Some SetStore.a0 else None) (fun _ => 0) (fun _ => None)
    (fun n => bool_decide (n = arg_name \/ n = retval_name)).
Definition ex_regs : gmap Z mval := <[ 30 := MI 1 ]> (<[ 31 := MI 2 ]> ∅).
Definition ex_mach : mach SetStore.T unit := mkMach ex_regs ∅ SetStore.ex.
Definition ex_dst (l : list inst) : dst := mkDst (one_block 2 l) 100 ex_tables (fun _ => None) ex_fn.

(** ** Loads and stores *)

Lemma ex_labels32 : labels32 SetStore.ex.
Proof.
  intros q. unfold label_at. cbn [shadow SetStore.ex]. destruct (_ !! q) as [l|] eqn:E; [|cbn; lia].
  apply elem_of_list_to_map_2 in E. cbn [zip_with] in E.
  repeat (apply elem_of_cons in E as [E|E]; [injection E as -> ->; cbn; lia|]). by apply elem_of_nil in E.
Qed.
(** The two bytes come from offsets 4 and 9: they are not the bytes of one variable. *)
Lemma ex_not_one : shapes SetStore.ex SetStore.a0 2.
Proof.
  assert (E : taint (tags SetStore.ex) <$> labels_at SetStore.ex (shadow_for SetStore.a0) (Z.to_nat 2) =
    [{[ 4 ]}; {[ 9 ]}]) by (vm_compute; reflexivity).
  unfold shapes. rewrite E. intros _ X Y b HX HY Hb _ Hl.
  rewrite filter_cons_True in HX by set_solver. injection HX as <-. injection HY as <-.
  cbn [length] in *. set_solver by lia.
Qed.
Definition ex_load : inst := mkInst 3 (ILoad (VArg 0 (TPtr (TInt 16))) 0) (TInt 16).
Definition ex_ret : inst := mkInst 4 (IRet None) TVoid.
Lemma ex_point k t : at_point (one_block 2 [mkInst 3 k t; ex_ret]) 100 2 [] (mkInst 3 k t) [ex_ret].
Proof.
  apply (one_block_point 2 [] (mkInst 3 k t) [ex_ret] 100); [apply not_elem_of_nil|lia| |constructor]. repeat constructor; cbn; lia.
Qed.
Lemma ex_addr l : addr_ready ex_env (ex_dst l) (VArg 0 (TPtr (TInt 16))) SetStore.a0 ex_mach.
Proof. split; try done. Qed.

Lemma loadShadow_exact_witness :
  exists v s', loadShadow ex_cfg (VArg 0 (TPtr (TInt 16))) 2 1 3 (ex_dst [ex_load; ex_ret]) = Ok (v, s') /\
    reaches ex_env (ex_dst [ex_load; ex_ret]) s' 2 [] 3 ex_mach (load_result ex_env SetStore.a0 2 v ex_mach).
Proof.
  refine (loadShadow_exact ex_cfg ex_env (ex_dst [ex_load; ex_ret]) 2 [] ex_load [ex_ret]
    (VArg 0 (TPtr (TInt 16))) SetStore.a0 2 1 ex_mach _ (fun _ => ex_addr _) (fun _ => ex_not_one) (fun _ E => ltac:(done))).
  split; try done.
  - apply ex_tables_ok.
  - apply ex_point.
  - eexists. split; [left|done].
  - apply SetStore.ex_ok.
  - apply ex_labels32.
  - right. apply ex_not_one.
Defined.

(** ** Joins *)

Definition ex_add : inst := mkInst 3 (IBin Add true false (VInst 20 i32) (VInst 21 i32)) i32.
Lemma ex_join_ready : join_ready ex_cfg ex_env (ex_dst [ex_add; ex_ret]) 2 [] ex_add [ex_ret] ex_mach.
Proof.
  split; try done; [apply ex_tables_ok|apply ex_point|apply SetStore.ex_ok|].
  split; [constructor|done|done].
Qed.
Lemma ex_shadow_ok p l X : ex_regs !! p = Some (MI l) -> p < 100 -> ls_valid (tags SetStore.ex) l ->
  taint (tags SetStore.ex) l = X -> shadow_ok ex_env ex_fn 100 ex_mach (VInst p ShadowTy) X.
Proof. intros H1 H2 H3 H4. split; try done. by exists l. Qed.
Lemma binary_shadow_exact_witness :
  exists V b' s', visitOperandShadowInst ex_cfg ex_add (ex_dst [ex_add; ex_ret]) = Ok (tt, s') /\
    ValShadowMap (fn s') (inst_value ex_add) = Some (Some V) /\
    reaches ex_env (ex_dst [ex_add; ex_ret]) s' 2 [] 3 ex_mach
      (join_done ex_cfg ex_env (ex_dst [ex_add; ex_ret]) b' ex_add [ex_ret] ex_mach V ({[ 4 ]} ∪ {[ 9 ]}) s').
Proof.
  apply (binary_shadow_exact ex_cfg ex_env (ex_dst [ex_add; ex_ret]) 2 [] ex_add [ex_ret] ex_mach
    (VInst 20 i32) (VInst 21 i32) (VInst 30 ShadowTy) (VInst 31 ShadowTy)); try done.
  - apply ex_join_ready.
  - by apply (ex_shadow_ok 30 1); vm_compute.
  - by apply (ex_shadow_ok 31 2); vm_compute.
Defined.

(** ** The start of the pass *)

Lemma shadow_address_agrees_witness :
  exists t0 s1, doInitialization ex_cfg ex_mod = Ok t0 /\
    declare_runtime ex_cfg (mkDst ex_mod 100 t0 (fun _ => None) ex_fn) = Ok (tt, s1) /\
    spec ex_env 3 (getShadowAddress ex_cfg (VArg 0 i8p) 3) s1 ex_mach
      (gives ex_env (MI (shadow_for SetStore.a0)) ShadowPtrTy ex_mach).
Proof.
  destruct (shadow_address_agrees (T := SetStore.T) (OS := unit) ex_cfg ex_env ex_mod 100 ex_fn X86_64
    eq_refl I I) as (t0 & s1 & H1 & H2 & _ & _ & H3).
  - apply (bool_decide_unpack _). vm_compute. exact I.
  - repeat constructor.
  - by intros g ?%elem_of_nil.
  - exists t0, s1. split; [done|]. split; [done|]. apply H3; try done.
    vm_compute in H1. injection H1 as <-. vm_compute in H2. injection H2 as <-. discriminate.
Defined.

(** ** Custom wrappers *)

Definition cmp_ty : FunctionType := mkFT i32 [i8p; i8p] false.
Definition qsort : func :=
  mkFunc 10 "qsort" (mkFT TVoid [i8p; TInt 64; TInt 64; getPointerTo cmp_ty] false) ExternalLinkage [].
Definition cmp_fun : value := VFun 11 (fun_ty cmp_ty).
Definition qsort_args : list value := [VUndef i8p; VInst 20 (TInt 64); VInt 64 4; cmp_fun].
Definition ex_call : inst := mkInst 3 (ICall (func_value qsort) qsort_args) TVoid.
Definition ex_custom : TransformedFunction :=
  match getCustomFunctionType ex_cfg (fn_type qsort) (ex_dst []) with
  | Ok (c, _) => c
  | Fault _ => mkTransformed (fn_type qsort) (fn_type qsort) []
  end.
Definition ex_typed_fn : dfsf :=
  mkDFSF 1 false false [] None None None (fun _ => None) (fun _ => None) [] [] [] (fun _ => None) (fun _ => None).
Definition ex_call_dst : dst :=
  mkDst (one_block 2 [ex_call; ex_ret]) 100 ex_tables (fun _ => None) ex_typed_fn.
Lemma custom_call_typed_witness :
  exists r s1, custom_operands ex_cfg ex_call qsort_args qsort ex_call_dst = Ok (r, s1) /\
    length r.1 = 9%nat /\ good_signature (TransformedType ex_custom) r.1 = true.
Proof.
  destruct (custom_operands ex_cfg ex_call qsort_args qsort ex_call_dst) as [[r s1]|] eqn:E;
    [|vm_compute in E; discriminate].
  exists r, s1. split; [done|]. split.
  - vm_compute in E. injection E as <- _. reflexivity.
  - apply (custom_call_typed ex_cfg ex_call qsort_args qsort (ex_dst []) ex_custom ex_call_dst s1 r); try done.
    by right.
Defined.
Lemma custom_attributes_follow_witness :
  let l := TransformFunctionAttributes ex_custom (fun i => Some i) None 4 in
  l !! 3%nat = Some (Some 3%nat) /\ l !! 4%nat = Some None /\ l !! 5%nat = Some None.
Proof.
  destruct (custom_attributes_follow ex_cfg (fun i => Some i) None 4 (fn_type qsort) (ex_dst []) ex_custom
    (ex_dst []) eq_refl) as (H1 & H2 & _). cbv zeta. split_and!.
  - by apply (H1 3%nat (getPointerTo cmp_ty) (getPointerTo (trampoline_type cmp_ty)) [Int8PtrTy]).
  - apply H2; [vm_compute; lia|]. intros [|[|[|[|i]]]] Hi; vm_compute; (lia || (cbn in Hi; lia)).
  - apply H2; [vm_compute; lia|]. intros [|[|[|[|i]]]] Hi; vm_compute; (lia || (cbn in Hi; lia)).
Defined.

(** ** Calls *)

Definition callee_ty : FunctionType := mkFT i32 [i32; i32] false.
Definition ex_callee : value := VFun 12 (fun_ty callee_ty).
Definition ex_ccall : inst := mkInst 3 (ICall ex_callee [VInst 20 i32; VInst 21 i32]) i32.
Lemma ex_tls : tls_ok ex_tables ex_env.
Proof. split; try done. by intros n [-> | ->]. Qed.
Lemma ex_call_ready : call_ready ex_cfg ex_env (ex_dst [ex_ccall; ex_ret]) 2 [] ex_ccall ex_ret [] ex_mach
  ex_callee [VInst 20 i32; VInst 21 i32] callee_ty [1; 2].
Proof.
  split; try done.
  - apply ex_tls.
  - split; by left.
  - apply ex_point.
  - split; [done|apply not_elem_of_nil].
  - repeat constructor.
    + exists (VInst 30 ShadowTy). done.
    + exists (VInst 31 ShadowTy). done.
Qed.
(** The callee returns its second argument. *)
Definition ex_body : inst := mkInst 3 (IRet (Some (VInst 21 i32))) TVoid.
Lemma ex_entry_ready : entry_ready ex_cfg ex_env (ex_dst [ex_body; ex_ret]) 2 ex_body [ex_ret].
Proof.
  split; try done.
  - by eexists _, [].
  - apply ex_point.
  - apply ex_tls.
  - split; by left.
Qed.
Lemma argument_labels_arrive_witness :
  exists s' V s2', visit_instrumented_call ex_cfg ex_ccall ex_callee [VInst 20 i32; VInst 21 i32]
      (ex_dst [ex_ccall; ex_ret]) = Ok (tt, s') /\
    getShadow ex_cfg (VArg 1 i32) (ex_dst [ex_body; ex_ret]) = Ok (V, s2') /\
    reaches ex_env (ex_dst [ex_ccall; ex_ret]) s' 2 [] 3 ex_mach (fun m1 => rt m1 = rt ex_mach /\
      forall m2 : mach SetStore.T unit, slots m2 = slots m1 ->
        reaches ex_env (ex_dst [ex_body; ex_ret]) s2' 2 [] 3 m2 (fun m3 =>
          eval ex_env m3 V = Some (MI 2) /\ rt m3 = rt m2)).
Proof.
  apply (argument_labels_arrive ex_cfg ex_env (ex_dst [ex_ccall; ex_ret]) 2 [] ex_ccall ex_ret [] ex_mach
    ex_callee [VInst 20 i32; VInst 21 i32] callee_ty [1; 2] ex_env (ex_dst [ex_body; ex_ret]) 2 ex_body [ex_ret]
    1%nat i32 2); try done.
  - apply ex_call_ready.
  - apply ex_entry_ready.
Defined.
Lemma result_label_returns_witness :
  exists s' L q s2', visit_instrumented_call ex_cfg ex_ccall ex_callee [VInst 20 i32; VInst 21 i32]
      (ex_dst [ex_ccall; ex_ret]) = Ok (tt, s') /\
    visitReturnInst ex_cfg ex_body (ex_dst [ex_body; ex_ret]) = Ok (tt, s2') /\
    ValShadowMap (fn s') (inst_value ex_ccall) = Some (Some (VInst q ShadowTy)) /\
    is_block (Mod s') 2 ([] ++ L ++ ex_ccall :: result_load q :: ex_ret :: []) /\
    reaches ex_env (ex_dst [ex_body; ex_ret]) s2' 2 [] 3 ex_mach (fun m3 => rt m3 = rt ex_mach /\
      forall m4 : mach SetStore.T unit, slots m4 = slots m3 ->
        exists m5, exec_inst ex_env ex_tables (result_load q) m4 = Ok m5 /\
          eval ex_env m5 (VInst q ShadowTy) = Some (MI 2) /\ rt m5 = rt m4).
Proof.
  apply (result_label_returns ex_cfg ex_env (ex_dst [ex_ccall; ex_ret]) 2 [] ex_ccall ex_ret [] ex_mach
    ex_callee [VInst 20 i32; VInst 21 i32] callee_ty [1; 2] ex_env (ex_dst [ex_body; ex_ret]) 2 [] ex_body [ex_ret]
    ex_mach (VInst 21 i32) (VInst 31 ShadowTy) 2); try done.
  - apply ex_call_ready.
  - apply ex_point.
  - apply ex_tls.
  - split; by left.
Defined.

(** ** What the pass does not do *)

(** With assertions, the mask of a labelled value by a constant stops the pass: the
    function for such notes is declared with a pointer and called with a label. *)
Definition ex_assert_cfg : config :=
  mkConfig false false true false false None None ex_rules 64 ex_size (fun _ => 8) (fun _ v => [v])
    (fun l => l) (fun _ n => (n ++ ".1")%string) (fun _ _ => false) false false.
Definition ex_and : inst := mkInst 3 (IBin And false false (VInst 20 i32) (VInt 32 255)) i32.
Example and_note_asserts :
  visitOperandShadowInst ex_assert_cfg ex_and (ex_dst [ex_and; ex_ret]) = Fault AssertFailed.
Proof. vm_compute. reflexivity. Qed.
(** The label of argument 64 is stored behind the end of [__dfsan_arg_tls]. *)
Example arg_64_out_of_bounds : forall m : mach SetStore.T unit,
  getArgTLS ex_cfg 64 3 (ex_dst [ex_add; ex_ret]) =
    Ok (VGEP ArgTLSTy arg_tls 0 (Some 64) ShadowPtrTy, with_fn (set_ArgTLSPtr arg_tls) (ex_dst [ex_add; ex_ret])) /\
  eval ex_env m (VGEP ArgTLSTy arg_tls 0 (Some 64) ShadowPtrTy) = None.
Proof. done. Qed.
