(* ===== verification/FuzzCond.v ===== *)
(** * Conditions, their outputs, and the shared condition

    [common/src/cond_stmt_base.rs], [fuzzer/src/cond_stmt/output.rs] and the two sides of
    the shared condition: [fuzzer/src/cond_stmt/shm_conds.rs] in the fuzzer, and
    [runtime_fast/src/shm_conds.rs] and [fast.rs] in the program under test.  The fuzzer
    writes the condition it works on to shared memory; the program writes the operands of
    one execution of it back; the output says by how much the goal was missed.
    Arithmetic is that of a release build, which wraps around. *)

From S2P Require Import Prelude TrackLog.
Local Open Scope Z_scope.

(** ** Conditions *)

Definition COND_ICMP_NE_OP : Z := 33.
Definition COND_ICMP_UGT_OP : Z := 34.
Definition COND_ICMP_UGE_OP : Z := 35.
Definition COND_ICMP_ULT_OP : Z := 36.
Definition COND_ICMP_ULE_OP : Z := 37.
Definition COND_ICMP_SGT_OP : Z := 38.
Definition COND_ICMP_SGE_OP : Z := 39.
Definition COND_ICMP_SLT_OP : Z := 40.
Definition COND_ICMP_SLE_OP : Z := 41.
Definition COND_FCMP_TRUE : Z := 15.
Definition COND_BASIC_MASK : Z := 0xFF.
Definition COND_BOOL_MASK : Z := 0x200.
Definition COND_MAX_EXPLORE_OP : Z := 0x4000 - 1.
Definition COND_MAX_EXPLOIT_OP : Z := 0x5000 - 1.
Definition COND_TRUE_ST : Z := 1.
Definition UNREACHABLE : Z := 2 ^ 64 - 1.

Definition flip_condition (c : CondStmtBase) : CondStmtBase :=
  set_condition (if condition c =? COND_FALSE_ST then COND_TRUE_ST else COND_FALSE_ST) c.
Definition is_explore (c : CondStmtBase) : bool := op c <=? COND_MAX_EXPLORE_OP.
Definition is_exploitable (c : CondStmtBase) : bool := (COND_MAX_EXPLORE_OP <? op c) && (op c <=? COND_MAX_EXPLOIT_OP).
Definition is_signed (c : CondStmtBase) : bool :=
  (0 <? Z.land (op c) COND_SIGN_MASK)
  || ((COND_ICMP_SGT_OP <=? Z.land (op c) COND_BASIC_MASK) && (Z.land (op c) COND_BASIC_MASK <=? COND_ICMP_SLE_OP)).
Definition is_afl (c : CondStmtBase) : bool := op c =? COND_AFL_OP.
Definition may_be_bool (c : CondStmtBase) : bool :=
  (Z.land (op c) 0xFF =? COND_ICMP_EQ_OP) && (arg1 c <=? 1) && (arg2 c <=? 1).
Definition is_done (c : CondStmtBase) : bool := condition c =? COND_DONE_ST.

(** ** Outputs *)

Definition EPS : Z := 1.
Definition sub_abs (a b : Z) : Z := if a <? b then b - a else a - b.
(** One arm of [translate_signed_value], for [w] bits.  [s + MAX] and [s + 1] are computed
    in the signed type. *)
Definition translate_w (w v : Z) : Z :=
  let s := signed w v in
  if s <? 0 then wrap w (signed w (signed w (s + (2 ^ (w - 1) - 1)) + 1))
  else u64 (v + (2 ^ (w - 1) - 1 + 1)).
Definition translate_signed_value (v size : Z) : Z :=
  if size =? 1 then translate_w 8 v
  else if size =? 2 then translate_w 16 v
  else if size =? 4 then translate_w 32 v
  else if size =? 8 then translate_w 64 v
  else v.
(** The opposite of a comparison. *)
Definition opposite (op : Z) : Z :=
  if op =? COND_ICMP_EQ_OP then COND_ICMP_NE_OP
  else if op =? COND_ICMP_NE_OP then COND_ICMP_EQ_OP
  else if op =? COND_ICMP_UGT_OP then COND_ICMP_ULE_OP
  else if op =? COND_ICMP_UGE_OP then COND_ICMP_ULT_OP
  else if op =? COND_ICMP_ULT_OP then COND_ICMP_UGE_OP
  else if op =? COND_ICMP_ULE_OP then COND_ICMP_UGT_OP
  else if op =? COND_ICMP_SGT_OP then COND_ICMP_SLE_OP
  else if op =? COND_ICMP_SGE_OP then COND_ICMP_SLT_OP
  else if op =? COND_ICMP_SLT_OP then COND_ICMP_SGE_OP
  else if op =? COND_ICMP_SLE_OP then COND_ICMP_SGT_OP
  else op.
Definition output_for (op a b : Z) : Z :=
  if op =? COND_ICMP_EQ_OP then sub_abs a b
  else if op =? COND_ICMP_NE_OP then (if a =? b then 1 else 0)
  else if (op =? COND_ICMP_SGT_OP) || (op =? COND_ICMP_UGT_OP) then (if b <? a then 0 else u64 (b - a + EPS))
  else if (op =? COND_ICMP_UGE_OP) || (op =? COND_ICMP_SGE_OP) then (if b <=? a then 0 else b - a)
  else if (op =? COND_ICMP_ULT_OP) || (op =? COND_ICMP_SLT_OP) then (if a <? b then 0 else u64 (a - b + EPS))
  else if (op =? COND_ICMP_ULE_OP) || (op =? COND_ICMP_SLE_OP) then (if a <=? b then 0 else a - b)
  else sub_abs a b.
Definition get_output (c : CondStmtBase) : Z :=
  let a := if is_signed c then translate_signed_value (arg1 c) (size c) else arg1 c in
  let b := if is_signed c then translate_signed_value (arg2 c) (size c) else arg2 c in
  let o := Z.land (op c) COND_BASIC_MASK in
  let o := if o =? COND_SW_OP then COND_ICMP_EQ_OP else o in
  let o := if is_explore c && (condition c =? COND_TRUE_ST) then opposite o else o in
  output_for o a b.

(** ** The shared condition *)

(** The memory, and what the program keeps beside it: [rt_order] and
    [__angora_cond_cmpid]. *)
Record shm := mkShm { cond : CondStmtBase; rt_order : Z; angora_cond_cmpid : Z }.
Definition put (c : CondStmtBase) (s : shm) : shm := mkShm c (rt_order s) (angora_cond_cmpid s).

Definition set_level (n : Z) (c : CondStmtBase) : CondStmtBase :=
  mkCond (cmpid c) (context c) (last_callsite c) (order c) (belong c) (condition c) n (op c) (size c)
    (lb1 c) (lb2 c) (arg1 c) (arg2 c).
Definition set_lb1 (l : Z) (c : CondStmtBase) : CondStmtBase := set_labels l (lb2 c) c.
Definition set_arg1 (a : Z) (c : CondStmtBase) : CondStmtBase :=
  mkCond (cmpid c) (context c) (last_callsite c) (order c) (belong c) (condition c) (level c) (op c) (size c)
    (lb1 c) (lb2 c) a (arg2 c).

(** *** The fuzzer's side *)

Definition get_len (s : shm) : Z := level (cond s).
Definition set_len (n : Z) (s : shm) : shm := put (set_level (u32 n) (cond s)) s.
Definition reset_reachable_state (s : shm) : shm := put (set_lb1 (2 ^ 32 - 1) (cond s)) s.
Definition is_cond_reachable (s : shm) : bool := lb1 (cond s) <? 2 ^ 32 - 1.
Definition set (base : CondStmtBase) (s : shm) : bool * shm :=
  if get_len s =? 0 then (true, reset_reachable_state (set_len 1 (put base s)))
  else (false, reset_reachable_state s).
Definition clear (s : shm) : shm :=
  let c := cond s in
  set_len 0 (put (mkCond 0 0 (last_callsite c) 0 (belong c) (condition c) (level c) (op c) (size c)
    (lb1 c) (lb2 c) (arg1 c) (arg2 c)) s).
Definition get_cond_output (s : shm) : Z :=
  if negb (is_cond_reachable s) then UNREACHABLE
  else let output := get_output (cond s) in if output =? UNREACHABLE then output - 1 else output.

(** *** The program's side *)

Definition set_cmpid (cid : Z) (s : shm) : shm := mkShm (cond s) (rt_order s) cid.
Definition set_rt_order (o : Z) (s : shm) : shm := mkShm (cond s) o (angora_cond_cmpid s).
Definition mark_reachable (condition : Z) (s : shm) : shm := put (set_lb1 condition (cond s)) s.
Definition check_match (cid ctx : Z) (s : shm) : bool * shm :=
  if (cmpid (cond s) =? cid) && (context (cond s) =? ctx) then
    let s := set_rt_order (u32 (rt_order s + 1)) s in
    (Z.land (order (cond s)) 0xFFFF =? rt_order s, s)
  else (false, s).
Definition update_cmp (condition a b : Z) (s : shm) : shm :=
  set_cmpid 0 (mark_reachable condition (set_rt_order 0x8000 (put (set_arg2 b (set_arg1 a (cond s))) s))).
Definition update_switch (condition : Z) (s : shm) : shm :=
  let s := set_rt_order 0x8000 (put (set_arg1 condition (cond s)) s) in
  set_cmpid 0 (mark_reachable (if condition =? arg2 (cond s) then 1 else 0) s).
Definition reset (s : shm) : shm := set_cmpid (cmpid (cond s)) (set_rt_order 0 s).

(** [__angora_trace_cmp] and [__angora_trace_switch], which answer their condition, when the
    program is attached to shared memory. *)
Definition angora_trace_cmp (condition cid ctx a b : Z) (s : shm) : Z * shm :=
  let m := check_match cid ctx s in
  (condition, if m.1 then update_cmp condition a b m.2 else m.2).
Definition angora_trace_switch (cid ctx condition : Z) (s : shm) : Z * shm :=
  let m := check_match cid ctx s in
  (condition, if m.1 then update_switch condition m.2 else m.2).

(** ** What outputs mean *)

(** The number that an operand of [n] bytes stands for. *)
Definition operand (sgn : bool) (n v : Z) : Z := if sgn then signed (8 * n) v else v.
(** By how much [op] fails for two numbers. *)
Definition shortfall (op x y : Z) : Z :=
  if op =? COND_ICMP_EQ_OP then Z.abs (x - y)
  else if op =? COND_ICMP_NE_OP then Z.b2z (x =? y)
  else if (op =? COND_ICMP_UGT_OP) || (op =? COND_ICMP_SGT_OP) then Z.max 0 (y - x + 1)
  else if (op =? COND_ICMP_UGE_OP) || (op =? COND_ICMP_SGE_OP) then Z.max 0 (y - x)
  else if (op =? COND_ICMP_ULT_OP) || (op =? COND_ICMP_SLT_OP) then Z.max 0 (x - y + 1)
  else Z.max 0 (x - y).
Definition holds (op x y : Z) : bool :=
  if op =? COND_ICMP_EQ_OP then x =? y
  else if op =? COND_ICMP_NE_OP then negb (x =? y)
  else if (op =? COND_ICMP_UGT_OP) || (op =? COND_ICMP_SGT_OP) then y <? x
  else if (op =? COND_ICMP_UGE_OP) || (op =? COND_ICMP_SGE_OP) then y <=? x
  else if (op =? COND_ICMP_ULT_OP) || (op =? COND_ICMP_SLT_OP) then x <? y
  else x <=? y.
(** The comparison of a condition, and whether the fuzzer wants it to fail. *)
Definition cmp_op (c : CondStmtBase) : Z :=
  let o := Z.land (op c) COND_BASIC_MASK in if o =? COND_SW_OP then COND_ICMP_EQ_OP else o.
Definition wants_opposite (c : CondStmtBase) : bool := is_explore c && (condition c =? COND_TRUE_ST).
Definition goal_op (c : CondStmtBase) : Z := if wants_opposite c then opposite (cmp_op c) else cmp_op c.
Definition value1 (c : CondStmtBase) : Z := operand (is_signed c) (size c) (arg1 c).
Definition value2 (c : CondStmtBase) : Z := operand (is_signed c) (size c) (arg2 c).

(** An integer comparison of operands that fit their size. *)
Record int_cond (c : CondStmtBase) : Prop := mkIntCond {
  ic_op : COND_ICMP_EQ_OP <= cmp_op c <= COND_ICMP_SLE_OP;
  ic_size : size c = 1 \/ size c = 2 \/ size c = 4 \/ size c = 8;
  ic_arg1 : 0 <= arg1 c < 2 ^ (8 * size c);
  ic_arg2 : 0 <= arg2 c < 2 ^ (8 * size c) }.

Lemma translate_w_spec w v : w = 8 \/ w = 16 \/ w = 32 \/ w = 64 -> 0 <= v < 2 ^ w ->
  translate_w w v = signed w v + 2 ^ (w - 1).
Proof.
  intros Hw Hv. unfold translate_w.
  assert (Hs : signed w v = if v <? 2 ^ (w - 1) then v else v - 2 ^ w) by (unfold signed; by rewrite wrap_small).
  assert (Hp : 2 ^ w = 2 * 2 ^ (w - 1)) by (rewrite <-Z.pow_succ_r by lia; f_equal; lia).
  assert (H2 : 2 ^ w <= 2 ^ 64) by (apply Z.pow_le_mono_r; lia).
  assert (Hid : forall z, - (2 ^ (w - 1)) <= z < 2 ^ (w - 1) -> signed w z = z).
  { intros z Hz. unfold signed. destruct (Z.ltb_spec z 0) as [Hn|Hn].
    - replace (wrap w z) with (z + 2 ^ w); [destruct (Z.ltb_spec (z + 2 ^ w) (2 ^ (w - 1))); lia|].
      unfold wrap. rewrite <-(Z.mod_add _ 1) by lia. rewrite Z.mul_1_l. by rewrite Z.mod_small by lia.
    - rewrite wrap_small by lia. rewrite (proj2 (Z.ltb_lt z (2 ^ (w - 1)))) by lia. done. }
  rewrite Hs. destruct (Z.ltb_spec v (2 ^ (w - 1))) as [Hl|Hl].
  - rewrite (proj2 (Z.ltb_ge v 0)) by lia. rewrite u64_small by lia. lia.
  - rewrite (proj2 (Z.ltb_lt (v - 2 ^ w) 0)) by lia. rewrite (Hid (v - 2 ^ w + _)) by lia.
    rewrite Hid by lia. rewrite wrap_small by lia. lia.
Qed.
Lemma translate_spec v n : n = 1 \/ n = 2 \/ n = 4 \/ n = 8 -> 0 <= v < 2 ^ (8 * n) ->
  translate_signed_value v n = operand true n v + 2 ^ (8 * n - 1).
Proof.
  intros Hn Hv. unfold operand. rewrite <-translate_w_spec by lia. by destruct Hn as [-> |[-> |[-> | ->]]].
Qed.

(** The comparisons by their number. *)
Ltac cmp_cases H :=
  match type of H with _ <= ?o <= _ =>
    let H' := fresh in
    assert (H' : o = 32 \/ o = 33 \/ o = 34 \/ o = 35 \/ o = 36 \/ o = 37 \/ o = 38 \/ o = 39 \/ o = 40 \/ o = 41)
      by (unfold COND_ICMP_EQ_OP, COND_ICMP_SLE_OP in H; lia);
    clear H; destruct H' as [-> |[-> |[-> |[-> |[-> |[-> |[-> |[-> |[-> | ->]]]]]]]]]
  end.
Ltac order_cases x y :=
  destruct (Z.lt_trichotomy x y) as [?|[?|?]];
  repeat match goal with
  | |- context [x =? y] => destruct (Z.eqb_spec x y); try lia
  | |- context [x <? y] => destruct (Z.ltb_spec x y); try lia
  | |- context [y <? x] => destruct (Z.ltb_spec y x); try lia
  | |- context [x <=? y] => destruct (Z.leb_spec x y); try lia
  | |- context [y <=? x] => destruct (Z.leb_spec y x); try lia
  end.
Lemma opposite_range o : COND_ICMP_EQ_OP <= o <= COND_ICMP_SLE_OP -> COND_ICMP_EQ_OP <= opposite o <= COND_ICMP_SLE_OP.
Proof. intros Ho. cmp_cases Ho; by vm_compute. Qed.
Lemma opposite_holds o x y : COND_ICMP_EQ_OP <= o <= COND_ICMP_SLE_OP -> holds (opposite o) x y = negb (holds o x y).
Proof. intros Ho. cmp_cases Ho; cbn; rewrite ?negb_involutive, ?Z.ltb_antisym, ?negb_involutive; done. Qed.
Lemma shortfall_zero o x y : COND_ICMP_EQ_OP <= o <= COND_ICMP_SLE_OP -> shortfall o x y = 0 <-> holds o x y = true.
Proof. intros Ho. cmp_cases Ho; cbn; order_cases x y; cbn; split; intros; done || lia. Qed.
Lemma shortfall_range o x y : Z.abs (x - y) < 2 ^ 64 -> 0 <= shortfall o x y <= 2 ^ 64.
Proof.
  intros Hd. unfold shortfall, Z.b2z. repeat match goal with |- context [if ?b then _ else _] => destruct b end; lia.
Qed.
(** The same amount is added to both operands, so that only their difference matters. *)
Lemma output_shift o a b k : COND_ICMP_EQ_OP <= o <= COND_ICMP_SLE_OP -> Z.abs (a - b) < 2 ^ 64 ->
  output_for o (a + k) (b + k) = u64 (shortfall o a b).
Proof.
  intros Ho Hd. cmp_cases Ho; cbn -[u64]; unfold sub_abs, EPS; order_cases (a + k) (b + k); order_cases a b; cbn -[u64];
    first [rewrite u64_small by lia; lia | f_equal; lia].
Qed.
Lemma goal_range c : int_cond c -> COND_ICMP_EQ_OP <= goal_op c <= COND_ICMP_SLE_OP.
Proof. intros []. unfold goal_op. destruct (wants_opposite c); [by apply opposite_range|done]. Qed.

(** Operands of at most 64 bits differ by less than 2^64. *)
Lemma operand_apart c : int_cond c -> Z.abs (value1 c - value2 c) < 2 ^ 64.
Proof.
  intros [_ Hs H1 H2]. unfold value1, value2, operand.
  assert (Hp : 2 ^ (8 * size c) <= 2 ^ 64) by (apply Z.pow_le_mono_r; lia).
  destruct (is_signed c); [|lia].
  assert (Hh : 2 ^ (8 * size c) = 2 * 2 ^ (8 * size c - 1)) by (rewrite <-Z.pow_succ_r by lia; f_equal; lia).
  unfold signed. rewrite !wrap_small by lia. destruct (Z.ltb_spec (arg1 c) (2 ^ (8 * size c - 1))), (Z.ltb_spec (arg2 c) (2 ^ (8 * size c - 1))); lia.
Qed.
(** C18: the output of a condition on integers is the amount by which its goal was missed, on
    the numbers that the operands stand for, modulo 2^64.  The amount is at most 2^64, so
    that the output is zero exactly if the goal was reached, or if it was missed by 2^64,
    which only a strict comparison of the least with the greatest number of 64 bits does.
    The goal of a branch that was taken is the opposite of its comparison. *)
Theorem get_output_measures (c : CondStmtBase) :
  int_cond c ->
  let missed := shortfall (goal_op c) (value1 c) (value2 c) in
  get_output c = missed mod 2 ^ 64 /\ 0 <= missed <= 2 ^ 64 /\
  (missed = 0 <-> xorb (wants_opposite c) (holds (cmp_op c) (value1 c) (value2 c)) = true) /\
  (get_output c = 0 <-> missed = 0 \/ missed = 2 ^ 64).
Proof.
  intros Hc missed. pose proof (operand_apart c Hc) as Hd. pose proof (shortfall_range (goal_op c) _ _ Hd : 0 <= missed <= 2 ^ 64) as Hr.
  assert (E : get_output c = missed mod 2 ^ 64).
  { pose proof (goal_range c Hc) as Hg. destruct Hc as [Ho Hs H1 H2]. unfold missed.
    change (get_output c) with (output_for (goal_op c)
      (if is_signed c then translate_signed_value (arg1 c) (size c) else arg1 c)
      (if is_signed c then translate_signed_value (arg2 c) (size c) else arg2 c)).
    unfold value1, value2 in *. destruct (is_signed c).
    - rewrite !translate_spec by done. by apply output_shift.
    - by rewrite <-(Z.add_0_r (arg1 c)), <-(Z.add_0_r (arg2 c)), output_shift, !Z.add_0_r. }
  split; [done|]. split; [done|]. split.
  - unfold missed. rewrite shortfall_zero by (by apply goal_range). unfold goal_op.
    destruct (wants_opposite c); [by rewrite opposite_holds by apply Hc|done].
  - rewrite E. split; [|intros [-> | ->]; done]. intros Hz. destruct (Z.eq_dec missed (2 ^ 64)); [by right|]. left.
    rewrite Z.mod_small in Hz by lia. done.
Qed.
(** A strict comparison of the least with the greatest number of 64 bits counts as reached,
    because the amount wraps around. *)
Theorem output_wraps (c : CondStmtBase) :
  int_cond c -> goal_op c = COND_ICMP_UGT_OP -> is_signed c = false -> arg1 c = 0 -> arg2 c = 2 ^ 64 - 1 ->
  get_output c = 0.
Proof. intros Hc Hg Hs E1 E2. change (get_output c) with (output_for (goal_op c) (if is_signed c then translate_signed_value (arg1 c) (size c) else arg1 c) (if is_signed c then translate_signed_value (arg2 c) (size c) else arg2 c)). rewrite Hg, Hs, E1, E2. by vm_compute. Qed.

(** ** What one run of the program leaves in shared memory *)

(** The comparisons and switches that a run executes, in order. *)
Inductive event :=
| Cmp (condition cid ctx a b : Z)
| Switch (cid ctx condition : Z).
Definition event_id (e : event) : Z := match e with Cmp _ i _ _ _ => i | Switch i _ _ => i end.
Definition event_context (e : event) : Z := match e with Cmp _ _ x _ _ => x | Switch _ x _ => x end.
Definition trace (e : event) (s : shm) : shm :=
  match e with
  | Cmp k i x a b => (angora_trace_cmp k i x a b s).2
  | Switch i x k => (angora_trace_switch i x k s).2
  end.
(** The instrumented code calls the tracing function if the identifier is the selected one. *)
Definition step (e : event) (s : shm) : shm := if angora_cond_cmpid s =? event_id e then trace e s else s.
Definition run (es : list event) (s : shm) : shm := fold_left (fun s e => step e s) es s.

Definition matches (c : CondStmtBase) (e : event) : bool := (cmpid c =? event_id e) && (context c =? event_context e).
(** The condition with the operands of an event. *)
Definition observed (e : event) (c : CondStmtBase) : CondStmtBase :=
  match e with
  | Cmp k _ _ a b => set_lb1 k (set_arg2 b (set_arg1 a c))
  | Switch _ _ k => set_lb1 (if k =? arg2 c then 1 else 0) (set_arg1 k c)
  end.
Definition turn (c : CondStmtBase) : Z := Z.land (order c) 0xFFFF.

Lemma trace_miss e s : matches (cond s) e = false -> trace e s = s.
Proof.
  unfold matches. destruct e; cbn [trace event_id event_context]; unfold angora_trace_cmp, angora_trace_switch, check_match;
    cbn [snd]; intros ->; by destruct s.
Qed.
Lemma trace_early e s : matches (cond s) e = true -> 0 <= rt_order s -> rt_order s + 1 < 2 ^ 32 -> turn (cond s) <> rt_order s + 1 ->
  trace e s = set_rt_order (rt_order s + 1) s.
Proof.
  unfold matches, turn. intros Hm H0 H1 Ht.
  destruct e; cbn [trace event_id event_context] in *; unfold angora_trace_cmp, angora_trace_switch, check_match; rewrite Hm;
    cbn [fst snd set_rt_order cond rt_order]; rewrite u32_small by lia; by rewrite (proj2 (Z.eqb_neq _ _) Ht).
Qed.
Lemma trace_hit e s : matches (cond s) e = true -> 0 <= rt_order s -> rt_order s + 1 < 2 ^ 32 -> turn (cond s) = rt_order s + 1 ->
  trace e s = mkShm (observed e (cond s)) 0x8000 0.
Proof.
  unfold matches, turn. intros Hm H0 H1 Ht.
  destruct e; cbn [trace event_id event_context] in *; unfold angora_trace_cmp, angora_trace_switch, check_match; rewrite Hm;
    cbn [fst snd set_rt_order cond rt_order]; rewrite u32_small by lia; rewrite (proj2 (Z.eqb_eq _ _) Ht); done.
Qed.
(** Once its turn is over, the condition stays as it is. *)
Lemma run_after es : forall s, turn (cond s) <= rt_order s -> 0 <= rt_order s -> rt_order s + Z.of_nat (length es) < 2 ^ 32 ->
  cond (run es s) = cond s.
Proof.
  induction es as [|e es IH]; intros s Ht H0 Hl; [done|]. cbn [run fold_left length] in *. change (fold_left _ es ?x) with (run es x).
  unfold step. destruct (angora_cond_cmpid s =? event_id e); [|apply IH; lia].
  destruct (matches (cond s) e) eqn:Em; [|rewrite trace_miss by done; apply IH; lia].
  rewrite trace_early by (done || lia). rewrite IH; cbn; done || lia.
Qed.
Lemma run_before es : forall s, angora_cond_cmpid s = cmpid (cond s) -> 0 <= rt_order s < turn (cond s) -> turn (cond s) <= 0x8000 ->
  0x8000 + Z.of_nat (length es) < 2 ^ 32 ->
  cond (run es s) = match filter (fun e => matches (cond s) e) es !! Z.to_nat (turn (cond s) - rt_order s - 1) with
                    | Some e => observed e (cond s) | None => cond s end.
Proof.
  induction es as [|e es IH]; intros s Ha Hr Ht Hl; [done|]. cbn [run fold_left length] in *. change (fold_left _ es ?x) with (run es x).
  unfold step. destruct (matches (cond s) e) eqn:Em.
  - rewrite filter_cons_True by (by rewrite Em).
    assert (Hi : (cmpid (cond s) =? event_id e) = true) by (unfold matches in Em; by destruct (_ =? _)).
    rewrite Ha, Hi. destruct (Z.eq_dec (turn (cond s)) (rt_order s + 1)) as [E|E].
    + rewrite trace_hit by (done || lia). rewrite run_after; cbn [cond rt_order]; [|by destruct e|lia|lia].
      by replace (Z.to_nat (turn (cond s) - rt_order s - 1)) with 0%nat by lia.
    + rewrite trace_early by (done || lia). rewrite IH; cbn [set_rt_order cond rt_order angora_cond_cmpid]; [|done|lia|lia|lia].
      by replace (Z.to_nat (turn (cond s) - rt_order s - 1)) with (S (Z.to_nat (turn (cond s) - (rt_order s + 1) - 1))) by lia.
  - rewrite filter_cons_False by (rewrite Em; by intros []). destruct (_ =? _); [rewrite trace_miss by done|]; apply IH; done || lia.
Qed.

Lemma observed_output e c l : get_output (observed e (set_lb1 l (set_level 1 c))) = get_output (observed e c).
Proof. by destruct e. Qed.

(** C19: after the fuzzer selected a condition, one run of the program leaves the operands of
    the execution that the order of the condition names, counted among the executions of the
    same comparison in the same context; the fuzzer reads their output, and reads
    [UNREACHABLE] if there are not that many. *)
Theorem selected_execution (base : CondStmtBase) (s : shm) (es : list event) :
  get_len s = 0 -> 1 <= turn base <= 0x8000 -> Z.of_nat (length es) < 2 ^ 31 ->
  Forall (fun e => 0 <= lb1 (observed e base) < 2 ^ 32 - 1) es ->
  let s' := run es (reset (set base s).2) in
  match filter (fun e => matches base e) es !! Z.to_nat (turn base - 1) with
  | Some e => get_cond_output s' <> UNREACHABLE /\
              (get_output (observed e base) <> UNREACHABLE -> get_cond_output s' = get_output (observed e base))
  | None => get_cond_output s' = UNREACHABLE
  end.
Proof.
  intros Hl Ht Hn Hk s'. set (c := set_lb1 (2 ^ 32 - 1) (set_level 1 base)).
  assert (E : reset (set base s).2 = mkShm c 0 (cmpid base)) by (unfold set; rewrite Hl; done).
  assert (Ec : cond s' = match filter (fun e => matches base e) es !! Z.to_nat (turn base - 1) with Some e => observed e c | None => c end).
  { unfold s'. rewrite E, run_before; cbn [cond rt_order angora_cond_cmpid]; [by rewrite Z.sub_0_r|done|change (turn c) with (turn base); lia|apply Ht|lia]. }
  destruct (filter _ es !! _) as [e|] eqn:Ee.
  - apply list_elem_of_lookup_2, list_elem_of_filter in Ee as [_ He]. rewrite Forall_forall in Hk. specialize (Hk e).
    assert (Hr : is_cond_reachable s' = true).
    { unfold is_cond_reachable. rewrite Ec. apply Z.ltb_lt. apply list_elem_of_In in He. specialize (Hk He). destruct e; apply Hk. }
    unfold get_cond_output. rewrite Hr. cbn [negb]. rewrite Ec. unfold c. rewrite observed_output.
    destruct (Z.eqb_spec (get_output (observed e base)) UNREACHABLE) as [->|Hu]; [|done]. split; [unfold UNREACHABLE; lia|done].
  - unfold get_cond_output, is_cond_reachable. by rewrite Ec.
Qed.
(** The condition stays selected until the fuzzer clears it: a second one is not taken. *)
Lemma set_keeps base s : get_len s <> 0 -> (set base s).1 = false /\ cond (set base s).2 = set_lb1 (2 ^ 32 - 1) (cond s).
Proof. intros Hl. unfold set. by rewrite (proj2 (Z.eqb_neq _ _) Hl). Qed.
Lemma clear_then_set base s : (set base (clear s)).1 = true.
Proof. done. Qed.

(** ** Examples *)

Module CondEx.
(** The second execution of comparison 7 in context 0, of signed bytes; it was true before. *)
Definition c7 : CondStmtBase := mkCond 7 0 0 2 0 1 0 COND_ICMP_SLT_OP 1 3 0 0 0.
Definition s0 : shm := mkShm (mkCond 0 0 0 0 0 0 0 0 0 0 0 0 0) 0 0.
Definition ev : list event := [Cmp 1 7 0 255 5; Switch 9 0 4; Cmp 0 7 1 1 2; Cmp 1 7 0 254 5; Cmp 1 7 0 0 0].
End CondEx.
Lemma get_output_measures_witness :
  get_output (observed (Cmp 1 7 0 254 5) CondEx.c7) = 7 /\
  shortfall COND_ICMP_SGE_OP (-2) 5 = 7.
Proof.
  split; [|done].
  destruct (get_output_measures (observed (Cmp 1 7 0 254 5) CondEx.c7)) as [E _]; [|by rewrite E].
  split; [by vm_compute|by left|by vm_compute|by vm_compute].
Defined.
Lemma output_wraps_witness : get_output (mkCond 1 0 0 1 0 0 0 COND_ICMP_UGT_OP 8 1 0 0 (2 ^ 64 - 1)) = 0.
Proof. apply output_wraps; [split; [by vm_compute|by right; right; right|by vm_compute|by vm_compute]|done|done|done|done]. Defined.
Lemma selected_execution_witness : get_cond_output (run CondEx.ev (reset (set CondEx.c7 CondEx.s0).2)) = 7.
Proof.
  assert (E := selected_execution CondEx.c7 CondEx.s0 CondEx.ev eq_refl ltac:(by vm_compute) ltac:(by vm_compute)
    ltac:(repeat constructor; by vm_compute)).
  cbn [CondEx.ev] in E. by apply E.
Defined.
