(* ===== verification/FuzzInput.v ===== *)
(** * Inputs under mutation

    [fuzzer/src/mut_input]: the bytes of an input that a condition depends on are cut out
    of the input, changed by the searches, and written back.  Indexing out of range panics;
    an access through a cast pointer that leaves the vector is [Segv]. *)

From Stdlib Require Import Sorted.
From S2P Require Import Prelude TagSet.
Local Open Scope Z_scope.

(** ** Offsets ([offsets.rs]) *)

Fixpoint merge_loop (v1 : list TagSeg) : list TagSeg -> list TagSeg :=
  fix go (v2 : list TagSeg) : list TagSeg :=
    match v1, v2 with
    | o1 :: r1, o2 :: r2 =>
        if seg_begin o1 =? seg_begin o2 then
          (if seg_end o2 <=? seg_end o1 then o1 else o2) :: merge_loop r1 r2
        else if seg_begin o1 <? seg_begin o2 then o1 :: merge_loop r1 v2
        else o2 :: go r2
    | [], _ => v2
    | _, [] => v1
    end.
Definition merge_offsets (v1 v2 : list TagSeg) : list TagSeg :=
  match v1, v2 with
  | [], _ => v2
  | _, [] => v1
  | _, _ => merge_loop v1 v2
  end.

(** ** Reading and writing values ([rw.rs], [serialize.rs]) *)

Fixpoint le_val (l : list Z) : Z := match l with [] => 0 | b :: r => b + 256 * le_val r end.
Fixpoint le_bytes (n : nat) (v : Z) : list Z :=
  match n with O => [] | S k => v mod 256 :: le_bytes k (v / 256) end.
Definition write_as_ule (val size : Z) : list Z :=
  if size =? 1 then le_bytes 1 (wrap 8 val)
  else if size =? 2 then le_bytes 2 (wrap 16 val)
  else if size =? 4 then le_bytes 4 (wrap 32 val)
  else if size =? 8 then le_bytes 8 (wrap 64 val)
  else [].

(** [&buf[off]] as a pointer to [n] bytes. *)
Definition slot (buf : list Z) (off n : nat) : res (list Z) :=
  if (off <? length buf)%nat then
    if (off + n <=? length buf)%nat then Ok (take n (drop off buf)) else Fault Segv
  else Fault Panicked.
Definition store_slot (buf : list Z) (off : nat) (bytes : list Z) : list Z :=
  take off buf ++ bytes ++ drop (off + length bytes) buf.
Definition is_size (n : nat) : bool := (n =? 1)%nat || (n =? 2)%nat || (n =? 4)%nat || (n =? 8)%nat.
Definition bits (n : nat) : Z := 8 * Z.of_nat n.

Definition read_val_from_buf (buf : list Z) (off n : nat) : res (option Z) :=
  if is_size n then res_bind (slot buf off n) (fun l => Ok (Some (le_val l))) else Ok None.
Definition set_val_in_buf (buf : list Z) (off n : nat) (val : Z) : res (list Z) :=
  if is_size n then res_bind (slot buf off n) (fun _ => Ok (store_slot buf off (le_bytes n (wrap (bits n) val))))
  else Fault Panicked.
(** [wrapping_add] and [wrapping_sub], in the signed and in the unsigned type of [w] bits. *)
Definition wrapping (w : Z) (sign direction : bool) (v delta : Z) : Z :=
  if sign then
    let v := signed w v in
    if direction then signed w (v + signed w delta) else signed w (v - signed w delta)
  else if direction then wrap w (v + wrap w delta) else wrap w (v - wrap w delta).
Definition update_val_in_buf (buf : list Z) (sign : bool) (off n : nat) (direction : bool) (delta : Z) : res (list Z) :=
  if is_size n then
    res_bind (slot buf off n) (fun l =>
      Ok (store_slot buf off (le_bytes n (wrap (bits n) (wrapping (bits n) sign direction (le_val l) delta)))))
  else Fault Panicked.

(** [&buf[b..e]] *)
Definition slice (buf : list Z) (b e : Z) : res (list Z) :=
  if (b <=? e) && (e <=? Z.of_nat (length buf)) then Ok (take (Z.to_nat (e - b)) (drop (Z.to_nat b) buf)) else Fault Panicked.
Fixpoint get_bytes_by_offsets (offsets : list TagSeg) (buf : list Z) : res (list Z) :=
  match offsets with
  | [] => Ok []
  | off :: r =>
      if seg_begin off <? seg_end off then
        res_bind (slice buf (seg_begin off) (seg_end off)) (fun l => res_bind (get_bytes_by_offsets r buf) (fun k => Ok (l ++ k)))
      else get_bytes_by_offsets r buf
  end.
(** [pos] is [cmp_off.1]. *)
Fixpoint set_bytes_loop (offsets : list TagSeg) (bytes : list Z) (pos : Z) (buf : list Z) : res (list Z) :=
  match offsets with
  | [] => Ok buf
  | off :: r =>
      if seg_begin off <? seg_end off then
        res_bind (slice buf (seg_begin off) (seg_end off)) (fun _ =>
        res_bind (slice bytes pos (pos + (seg_end off - seg_begin off))) (fun l =>
        set_bytes_loop r bytes (pos + (seg_end off - seg_begin off)) (store_slot buf (Z.to_nat (seg_begin off)) l)))
      else set_bytes_loop r bytes pos buf
  end.
Definition set_bytes_by_offsets (offsets : list TagSeg) (bytes buf : list Z) : res (list Z) :=
  set_bytes_loop offsets bytes 0 buf.

(** ** [MutInput] *)

Record InputMeta := mkMeta { m_sign : bool; m_offset : nat; m_size : nat }.
Record MutInput := mkMut { value : list Z; meta : list InputMeta }.
Definition MutInput_new : MutInput := mkMut [] [].

Definition push (ele : list Z) (sign : bool) (m : MutInput) : MutInput :=
  mkMut (value m ++ ele)
    (meta m ++ if is_size (length ele) then [mkMeta sign (length (value m)) (length ele)]
               else replicate (length ele) (mkMeta sign (length (value m)) 1)).
Definition zeros (n : Z) : list Z := replicate (Z.to_nat n) 0.
(** The bytes of one segment. *)
Definition segment_bytes (off : TagSeg) (input : list Z) : res (list Z) :=
  let len := Z.of_nat (length input) in
  let begin := seg_begin off in
  let end_ := seg_end off in
  if end_ <=? len then slice input begin end_
  else if len <=? begin then (if begin <=? end_ then Ok (zeros (end_ - begin)) else Fault Panicked)
  else res_bind (slice input begin len) (fun v => Ok (v ++ zeros (end_ - len))).
Fixpoint from_loop (offsets : list TagSeg) (input : list Z) (m : MutInput) : res MutInput :=
  match offsets with
  | [] => Ok m
  | off :: r =>
      if seg_begin off =? seg_end off then from_loop r input m
      else res_bind (segment_bytes off input) (fun v => from_loop r input (push v (seg_sign off) m))
  end.
Definition from (offsets : list TagSeg) (input : list Z) : res MutInput := from_loop offsets input MutInput_new.

Definition meta_at (m : MutInput) (index : nat) : res InputMeta :=
  match meta m !! index with Some i => Ok i | None => Fault Panicked end.
Definition update (m : MutInput) (index : nat) (direction : bool) (delta : Z) : res MutInput :=
  res_bind (meta_at m index) (fun info =>
  res_bind (update_val_in_buf (value m) (m_sign info) (m_offset info) (m_size info) direction delta) (fun v => Ok (mkMut v (meta m)))).
Definition get_entry (m : MutInput) (index : nat) : res Z :=
  res_bind (meta_at m index) (fun info =>
  res_bind (read_val_from_buf (value m) (m_offset info) (m_size info)) (fun o =>
  match o with Some v => Ok v | None => Fault Panicked end)).
Definition get_entry_len (m : MutInput) (index : nat) : res nat :=
  res_bind (meta_at m index) (fun info => Ok (m_size info)).
Definition set (m : MutInput) (index : nat) (val : Z) : res MutInput :=
  res_bind (meta_at m index) (fun info =>
  res_bind (set_val_in_buf (value m) (m_offset info) (m_size info) val) (fun v => Ok (mkMut v (meta m)))).
Definition assign (m : MutInput) (val : list Z) : MutInput :=
  let l := Nat.min (length val) (length (value m)) in
  if (0 <? l)%nat then mkMut (store_slot (value m) 0 (take l val)) (meta m) else m.
Definition set_value_from_input (m input : MutInput) : MutInput := mkMut (value input) (meta m).
Definition bitflip (m : MutInput) (i : Z) : res MutInput :=
  let byte_i := Z.to_nat (Z.shiftr i 3) in
  let bit_i := Z.land i 7 in
  match value m !! byte_i with
  | Some b => Ok (mkMut (<[ byte_i := Z.lxor b (Z.shiftr 128 bit_i) ]> (value m)) (meta m))
  | None => Fault Panicked
  end.
Definition extend_input (offsets : list TagSeg) (input : list Z) : list Z :=
  match list.last offsets with
  | Some o => if Z.of_nat (length input) <? seg_end o then input ++ zeros (seg_end o - Z.of_nat (length input)) else input
  | None => input
  end.
Definition write_to_input (m : MutInput) (offsets : list TagSeg) (input : list Z) : res (list Z) :=
  set_bytes_by_offsets offsets (value m) (extend_input offsets input).

(** ** Merging offsets *)

(** The offset [x] is in one of the segments. *)
Definition covers (l : list TagSeg) (x : Z) : Prop := exists s, s ∈ l /\ seg_begin s <= x < seg_end s.
Lemma covers_cons s l x : covers (s :: l) x <-> seg_begin s <= x < seg_end s \/ covers l x.
Proof.
  unfold covers. split.
  - intros (t & [-> |Ht]%elem_of_cons & Hx); [by left|right; eauto].
  - intros [Hx|(t & Ht & Hx)]; [exists s; split; [by left|done]|exists t; split; [by right|done]].
Qed.
Lemma covers_nil x : covers [] x <-> False.
Proof. split; [|done]. by intros (s & Hs%elem_of_nil & _). Qed.
Lemma merge_covers v1 : forall v2 x, covers (merge_loop v1 v2) x <-> covers v1 x \/ covers v2 x.
Proof.
  induction v1 as [|o1 r1 IH1]; [intros [|o2 r2] x; cbn; rewrite covers_nil; tauto|].
  induction v2 as [|o2 r2 IH2]; intros x; [cbn; rewrite covers_nil; tauto|].
  cbn [merge_loop]. destruct (Z.eqb_spec (seg_begin o1) (seg_begin o2)) as [E|E].
  - rewrite !covers_cons, IH1. destruct (Z.leb_spec (seg_end o2) (seg_end o1)); intuition lia.
  - destruct (Z.ltb_spec (seg_begin o1) (seg_begin o2)); rewrite covers_cons.
    + rewrite IH1, !covers_cons. tauto.
    + rewrite (IH2 x), !covers_cons. tauto.
Qed.
(** [begin] increases along a list. *)
Definition by_begin : list TagSeg -> Prop := StronglySorted (fun a b => seg_begin a < seg_begin b).
Lemma merge_begins v1 : forall v2 b, Forall (fun s => b < seg_begin s) v1 -> Forall (fun s => b < seg_begin s) v2 ->
  Forall (fun s => b < seg_begin s) (merge_loop v1 v2).
Proof.
  induction v1 as [|o1 r1 IH1]; [by intros [|? ?]|].
  induction v2 as [|o2 r2 IH2]; intros b H1 H2; [done|]. cbn [merge_loop].
  pose proof (Forall_inv H1). pose proof (Forall_inv H2). pose proof (Forall_inv_tail H1). pose proof (Forall_inv_tail H2).
  destruct (_ =? _); [constructor; [by destruct (_ <=? _)|by apply IH1]|].
  destruct (_ <? _); constructor; [done|by apply IH1|done|by apply IH2].
Qed.
Lemma later_begins b s l : seg_begin s = b \/ b < seg_begin s -> Forall (fun t => seg_begin s < seg_begin t) l -> Forall (fun t => b < seg_begin t) l.
Proof. intros Hb. apply Forall_impl. intros t Ht. lia. Qed.
Lemma merge_sorted v1 : forall v2, by_begin v1 -> by_begin v2 -> by_begin (merge_loop v1 v2).
Proof.
  induction v1 as [|o1 r1 IH1]; [by intros [|? ?]|].
  induction v2 as [|o2 r2 IH2]; intros S1 S2; [done|]. cbn [merge_loop].
  inversion S1 as [|? ? S1' H1 [E1 E2]]. inversion S2 as [|? ? S2' H2 [E3 E4]]. subst.
  destruct (Z.eqb_spec (seg_begin o1) (seg_begin o2)) as [E|E].
  - constructor; [by apply IH1|]. destruct (_ <=? _); apply merge_begins; eauto using later_begins; (eapply later_begins; [|done]; lia).
  - destruct (Z.ltb_spec (seg_begin o1) (seg_begin o2)).
    + constructor; [by apply IH1|]. apply merge_begins; [done|]. constructor; [done|]. eapply later_begins; [|done]. lia.
    + constructor; [by apply IH2|]. apply (merge_begins (o1 :: r1)); [|done]. constructor; [lia|]. eapply later_begins; [|done]. lia.
Qed.

Lemma merge_offsets_covers v1 v2 x : covers (merge_offsets v1 v2) x <-> covers v1 x \/ covers v2 x.
Proof. rewrite <-merge_covers. by destruct v1, v2. Qed.
(** Merging two lists of segments covers the offsets of both and no others, and keeps the
    order of the segments. *)
Theorem merge_offsets_union (v1 v2 : list TagSeg) :
  (forall x, covers (merge_offsets v1 v2) x <-> covers v1 x \/ covers v2 x) /\
  (by_begin v1 -> by_begin v2 -> by_begin (merge_offsets v1 v2)).
Proof.
  split; [intros x; apply merge_offsets_covers|]. intros H1 H2.
  replace (merge_offsets v1 v2) with (merge_loop v1 v2) by (by destruct v1, v2). by apply merge_sorted.
Qed.

(** ** Values in little-endian order *)

Definition is_byte (b : Z) : Prop := 0 <= b < 256.
Lemma le_bytes_length n : forall v, length (le_bytes n v) = n.
Proof. induction n as [|n IH]; intros v; [done|]. cbn. by rewrite IH. Qed.
Lemma le_bytes_bytes n : forall v, Forall is_byte (le_bytes n v).
Proof. induction n as [|n IH]; intros v; constructor; [|done]. unfold is_byte. pose proof (Z.mod_pos_bound v 256). lia. Qed.
Lemma bits_S n : 2 ^ bits (S n) = 256 * 2 ^ bits n.
Proof. unfold bits. replace (8 * Z.of_nat (S n)) with (8 + 8 * Z.of_nat n) by lia. rewrite Z.pow_add_r by lia. done. Qed.
Lemma le_val_bytes n : forall v, le_val (le_bytes n v) = wrap (bits n) v.
Proof.
  unfold wrap. induction n as [|n IH]; intros v; [by rewrite Z.mod_1_r|]. cbn [le_bytes le_val]. rewrite IH, bits_S.
  assert (0 < 2 ^ bits n) by (apply Z.pow_pos_nonneg; unfold bits; lia). by rewrite Z.rem_mul_r by lia.
Qed.
Lemma le_bytes_val l : Forall is_byte l -> le_bytes (length l) (le_val l) = l.
Proof.
  induction 1 as [|b l Hb _ IH]; [done|]. cbn [length le_bytes le_val]. unfold is_byte in Hb.
  rewrite (Z.mul_comm 256), Z.mod_add, Z.mod_small, Z.div_add, Z.div_small, Z.add_0_l, IH by lia. done.
Qed.
Lemma le_val_range l : Forall is_byte l -> 0 <= le_val l < 2 ^ bits (length l).
Proof.
  induction 1 as [|b l Hb _ IH]; [done|]. cbn [length le_val]. rewrite bits_S. unfold is_byte in Hb. lia.
Qed.

(** Signed and unsigned arithmetic give the same bytes. *)
Lemma wrap_signed w z : 0 < w -> wrap w (signed w z) = wrap w z.
Proof.
  intros Hw. unfold signed. destruct (_ <? _).
  - apply wrap_small. apply wrap_range. lia.
  - unfold wrap. rewrite Zminus_mod, Z.mod_same, Z.sub_0_r, !Z.mod_mod by (apply Z.pow_nonzero; lia). done.
Qed.
Lemma wrap_mod w z : wrap w z = z mod 2 ^ w.
Proof. done. Qed.
Lemma wrapping_spec w sign direction v delta : 0 < w ->
  wrap w (wrapping w sign direction v delta) = wrap w (if direction then v + delta else v - delta).
Proof.
  intros Hw. assert (H2 : 2 ^ w <> 0) by (apply Z.pow_nonzero; lia).
  assert (Ha : forall a b, wrap w (a + b) = wrap w (wrap w a + wrap w b)) by (intros; unfold wrap; by rewrite Zplus_mod).
  assert (Hs : forall a b, wrap w (a - b) = wrap w (wrap w a - wrap w b)) by (intros; unfold wrap; by rewrite Zminus_mod).
  assert (Hi : forall a, wrap w (wrap w a) = wrap w a) by (intros; unfold wrap; by rewrite Z.mod_mod).
  unfold wrapping. destruct sign, direction; rewrite ?wrap_signed, ?Hi by done.
  - rewrite Ha, !wrap_signed by done. by rewrite <-Ha.
  - rewrite Hs, !wrap_signed by done. by rewrite <-Hs.
  - rewrite Ha, !Hi. by rewrite <-Ha.
  - rewrite Hs, !Hi. by rewrite <-Hs.
Qed.

(** *** Slots *)

Lemma store_length buf off l : (off + length l <= length buf)%nat -> length (store_slot buf off l) = length buf.
Proof. intros Hl. unfold store_slot. rewrite !length_app, length_take, length_drop. lia. Qed.
Lemma store_lookup buf off l i : (off + length l <= length buf)%nat ->
  store_slot buf off l !! i = if ((off <=? i) && (i <? off + length l))%nat then l !! (i - off)%nat else buf !! i.
Proof.
  intros Hl. unfold store_slot. assert (Ht : length (take off buf) = off) by (rewrite length_take; lia).
  destruct (Nat.leb_spec off i) as [H1|H1]; cbn [andb].
  - rewrite lookup_app_r by lia. rewrite Ht. destruct (Nat.ltb_spec i (off + length l)).
    + by rewrite lookup_app_l by lia.
    + rewrite lookup_app_r, lookup_drop by lia. f_equal. lia.
  - rewrite lookup_app_l, lookup_take by lia. by rewrite decide_True by lia.
Qed.
Definition seg_of (buf : list Z) (off n : nat) : list Z := take n (drop off buf).
Lemma seg_length buf off n : (off + n <= length buf)%nat -> length (seg_of buf off n) = n.
Proof. intros. unfold seg_of. rewrite length_take, length_drop. lia. Qed.
Lemma seg_lookup buf off n i : seg_of buf off n !! i = if (i <? n)%nat then buf !! (off + i)%nat else None.
Proof.
  unfold seg_of. rewrite lookup_take. destruct (Nat.ltb_spec i n); [rewrite decide_True by done; by rewrite lookup_drop|by rewrite decide_False by lia].
Qed.
Lemma store_seg buf off n : (off + n <= length buf)%nat -> store_slot buf off (seg_of buf off n) = buf.
Proof.
  intros Hl. apply list_eq. intros i. rewrite store_lookup by (rewrite seg_length; lia). rewrite seg_length by lia.
  destruct (Nat.leb_spec off i), (Nat.ltb_spec i (off + n)); cbn [andb]; try done.
  rewrite seg_lookup. destruct (Nat.ltb_spec (i - off) n); [f_equal; lia|lia].
Qed.
Lemma seg_store buf off l : (off + length l <= length buf)%nat -> seg_of (store_slot buf off l) off (length l) = l.
Proof.
  intros Hl. apply list_eq. intros i. rewrite seg_lookup. destruct (Nat.ltb_spec i (length l)).
  - rewrite store_lookup by done. destruct (Nat.leb_spec off (off + i)); [|lia]. destruct (Nat.ltb_spec (off + i) (off + length l)); [|lia].
    cbn. f_equal. lia.
  - symmetry. by apply lookup_ge_None_2.
Qed.
Lemma seg_store_other buf off l o n : (off + length l <= length buf)%nat -> (o + n <= off \/ off + length l <= o)%nat ->
  seg_of (store_slot buf off l) o n = seg_of buf o n.
Proof.
  intros Hl Hd. apply list_eq. intros i. rewrite !seg_lookup. destruct (Nat.ltb_spec i n); [|done].
  rewrite store_lookup by done. destruct (Nat.leb_spec off (o + i)), (Nat.ltb_spec (o + i) (off + length l)); cbn; done || lia.
Qed.
Lemma store_store buf off l k : (off + length l <= length buf)%nat -> length k = length l ->
  store_slot (store_slot buf off l) off k = store_slot buf off k.
Proof.
  intros Hl Hk. apply list_eq. intros i. rewrite !store_lookup by (rewrite ?store_length; lia). rewrite Hk. by destruct (_ && _).
Qed.
Lemma store_bytes buf off l : Forall is_byte buf -> Forall is_byte l -> Forall is_byte (store_slot buf off l).
Proof. intros. unfold store_slot. rewrite !Forall_app. auto using Forall_take, Forall_drop. Qed.
Lemma slot_Ok buf off n : (off + n <= length buf)%nat -> (0 < n)%nat -> slot buf off n = Ok (seg_of buf off n).
Proof. intros. unfold slot. destruct (Nat.ltb_spec off (length buf)); [|lia]. by destruct (Nat.leb_spec (off + n) (length buf)); [|lia]. Qed.
Lemma is_size_cases n : is_size n = true -> n = 1%nat \/ n = 2%nat \/ n = 4%nat \/ n = 8%nat.
Proof. unfold is_size. rewrite !orb_true_iff, !Nat.eqb_eq. tauto. Qed.

(** ** Entries *)

(** Every entry lies inside the bytes. *)
Definition meta_ok (n : nat) (i : InputMeta) : Prop := is_size (m_size i) = true /\ (m_offset i + m_size i <= n)%nat.
Record wf (m : MutInput) : Prop := mkWf {
  wf_bytes : Forall is_byte (value m);
  wf_meta : Forall (meta_ok (length (value m))) (meta m) }.

Lemma meta_ok_mono n k i : (n <= k)%nat -> meta_ok n i -> meta_ok k i.
Proof. intros ? []. split; [done|lia]. Qed.
Lemma push_wf ele sign m : wf m -> Forall is_byte ele -> wf (push ele sign m).
Proof.
  intros [Hb Hm] He. split; cbn [push value meta]; [by apply Forall_app|]. rewrite length_app. apply Forall_app. split.
  - eapply Forall_impl; [|exact Hm]. intros i. apply meta_ok_mono. lia.
  - destruct (is_size (length ele)) eqn:E; [by repeat constructor|]. destruct ele as [|b ele]; [constructor|].
    apply Forall_replicate. split; [done|]. cbn. lia.
Qed.
Lemma wf_entry m index : wf m -> (index < length (meta m))%nat ->
  exists i, meta_at m index = Ok i /\ is_size (m_size i) = true /\ (m_offset i + m_size i <= length (value m))%nat /\ (0 < m_size i)%nat.
Proof.
  intros [_ Hm] Hi. apply lookup_lt_is_Some in Hi as [i Hi]. exists i. unfold meta_at. rewrite Hi. split; [done|].
  rewrite Forall_forall in Hm. destruct (Hm i) as [Hs Ho]; [apply list_elem_of_In; by eapply list_elem_of_lookup_2|].
  split; [done|]. split; [done|]. apply is_size_cases in Hs. lia.
Qed.
Lemma wf_store m off l : wf m -> (off + length l <= length (value m))%nat -> Forall is_byte l -> wf (mkMut (store_slot (value m) off l) (meta m)).
Proof. intros [Hb Hm] Hl Hk. split; cbn; [by apply store_bytes|by rewrite store_length]. Qed.
(** The bytes of an entry, replaced by a value. *)
Definition put (m : MutInput) (i : InputMeta) (v : Z) : MutInput :=
  mkMut (store_slot (value m) (m_offset i) (le_bytes (m_size i) v)) (meta m).
Definition entry_val (m : MutInput) (i : InputMeta) : Z := le_val (seg_of (value m) (m_offset i) (m_size i)).
Lemma put_put m i v w : (m_offset i + m_size i <= length (value m))%nat -> put (put m i v) i w = put m i w.
Proof. intros Hl. unfold put. cbn. by rewrite store_store by (rewrite !le_bytes_length; done). Qed.
Lemma put_wf m i v : wf m -> (m_offset i + m_size i <= length (value m))%nat -> wf (put m i v).
Proof. intros. apply wf_store; [done|by rewrite le_bytes_length|apply le_bytes_bytes]. Qed.
Lemma entry_put m i v : (m_offset i + m_size i <= length (value m))%nat -> entry_val (put m i v) i = wrap (bits (m_size i)) v.
Proof.
  intros Hl. unfold entry_val, put. cbn. rewrite <-(le_bytes_length (m_size i) v) at 2.
  rewrite seg_store by (by rewrite le_bytes_length). apply le_val_bytes.
Qed.
Lemma put_entry m i : wf m -> (m_offset i + m_size i <= length (value m))%nat -> put m i (entry_val m i) = m.
Proof.
  intros [Hb _] Hl. unfold put, entry_val. rewrite <-(seg_length (value m) (m_offset i) (m_size i)) at 1 by done.
  rewrite le_bytes_val, store_seg by (done || by apply Forall_take, Forall_drop). by destruct m.
Qed.
Lemma put_wrap m i v : put m i (wrap (bits (m_size i)) v) = put m i v.
Proof.
  unfold put. do 2 f_equal. set (n := m_size i). clearbody n. revert v. induction n as [|n IH]; intros v; [done|].
  assert (0 < 2 ^ bits n) by (apply Z.pow_pos_nonneg; unfold bits; lia).
  cbn [le_bytes]. unfold wrap in *. rewrite bits_S, Z.rem_mul_r by lia. f_equal.
  - rewrite (Z.mul_comm 256), Z.mod_add, Z.mod_mod by lia. done.
  - rewrite (Z.mul_comm 256), Z.div_add by lia. rewrite (Z.div_small (v mod 256)) by (apply Z.mod_pos_bound; lia). by rewrite Z.add_0_l, IH.
Qed.
Section Entry.
Context (m : MutInput) (index : nat) (i : InputMeta) (Hw : wf m) (Hi : meta_at m index = Ok i).
Context (Hs : is_size (m_size i) = true) (Hl : (m_offset i + m_size i <= length (value m))%nat) (H0 : (0 < m_size i)%nat).
Lemma get_entry_spec : get_entry m index = Ok (entry_val m i).
Proof. unfold get_entry. rewrite Hi. cbn. unfold read_val_from_buf. rewrite Hs, slot_Ok by done. done. Qed.
Lemma set_spec v : set m index v = Ok (put m i v).
Proof.
  unfold set. rewrite Hi. cbn. unfold set_val_in_buf. rewrite Hs, slot_Ok by done. cbn. f_equal.
  change (put m i (wrap (bits (m_size i)) v) = put m i v). apply put_wrap.
Qed.
Lemma update_spec direction delta : update m index direction delta =
  Ok (put m i (if direction then entry_val m i + delta else entry_val m i - delta)).
Proof.
  unfold update. rewrite Hi. cbn. unfold update_val_in_buf. rewrite Hs, slot_Ok by done. cbn. f_equal.
  rewrite wrapping_spec by (unfold bits; lia). change (put m i (wrap (bits (m_size i)) (if direction then entry_val m i + delta else entry_val m i - delta)) = put m i (if direction then entry_val m i + delta else entry_val m i - delta)).
  apply put_wrap.
Qed.
End Entry.

(** On well-formed inputs reading, setting and moving an entry never leave the bytes; what
    is set is read back at the width of the entry, and a move in one direction is undone by
    the same move in the other, whether the entry is signed or not. *)
Theorem entry_laws (m : MutInput) (index : nat) (v delta : Z) (direction : bool) :
  wf m -> (index < length (meta m))%nat ->
  exists n e m1 m2,
    get_entry_len m index = Ok n /\ get_entry m index = Ok e /\ 0 <= e < 2 ^ bits n /\
    set m index v = Ok m1 /\ wf m1 /\ get_entry m1 index = Ok (wrap (bits n) v) /\ set m1 index e = Ok m /\
    update m index direction delta = Ok m2 /\ wf m2 /\
    get_entry m2 index = Ok (wrap (bits n) (if direction then e + delta else e - delta)) /\
    update m2 index (negb direction) delta = Ok m.
Proof.
  intros Hw Hi. destruct (wf_entry m index Hw Hi) as (i & E & Hs & Hl & H0).
  assert (Hp : forall x, wf (put m i x) /\ meta_at (put m i x) index = Ok i /\ (m_offset i + m_size i <= length (value (put m i x)))%nat).
  { intros x. split; [by apply put_wf|]. split; [done|]. cbn. by rewrite store_length by (by rewrite le_bytes_length). }
  exists (m_size i), (entry_val m i), (put m i v), (put m i (if direction then entry_val m i + delta else entry_val m i - delta)).
  split; [unfold get_entry_len; by rewrite E|]. split; [by apply get_entry_spec|].
  split. { unfold entry_val. rewrite <-(seg_length (value m) (m_offset i) (m_size i)) at 3 by done. apply le_val_range. apply Forall_take, Forall_drop, Hw. }
  split; [by apply set_spec|]. split; [apply Hp|]. split; [rewrite (get_entry_spec _ _ i) by (done || apply Hp); by rewrite entry_put|].
  split; [rewrite (set_spec _ _ i) by (done || apply Hp); by rewrite put_put, put_entry|].
  split; [by apply update_spec|]. split; [apply Hp|]. split; [rewrite (get_entry_spec _ _ i) by (done || apply Hp); by rewrite entry_put|].
  rewrite (update_spec _ _ i) by (done || apply Hp). rewrite entry_put, put_put by done. f_equal.
  transitivity (put m i (wrap (bits (m_size i)) (entry_val m i))); [|by rewrite put_wrap, put_entry].
  rewrite <-put_wrap. f_equal. unfold wrap. destruct direction; cbn [negb].
  - rewrite Zminus_mod_idemp_l. f_equal. lia.
  - rewrite Zplus_mod_idemp_l. f_equal. lia.
Qed.

(** ** Cutting out and writing back *)

(** Segments from left to right that do not overlap, as labels have them; merged lists of
    segments need not be like this. *)
Definition segs_ok (l : list TagSeg) : Prop :=
  Forall (fun s => 0 <= seg_begin s <= seg_end s) l /\ StronglySorted (fun a b => seg_end a <= seg_begin b) l.
Definition seg_size (s : TagSeg) : nat := Z.to_nat (seg_end s - seg_begin s).
Definition seg_off (s : TagSeg) : nat := Z.to_nat (seg_begin s).
Definition seg_at (buf : list Z) (s : TagSeg) : list Z := seg_of buf (seg_off s) (seg_size s).
Definition fits (n : nat) (s : TagSeg) : Prop := 0 <= seg_begin s <= seg_end s /\ seg_end s <= Z.of_nat n.
(** Segments that share no byte. *)
Definition apart (s t : TagSeg) : Prop := seg_end s <= seg_begin t \/ seg_end t <= seg_begin s.
(** No segment after the [k]th overlaps it. *)
Definition last_writer (offsets : list TagSeg) (k : nat) (s : TagSeg) : Prop :=
  offsets !! k = Some s /\ Forall (apart s) (drop (S k) offsets).

Lemma segs_cons s l : segs_ok (s :: l) -> 0 <= seg_begin s <= seg_end s /\ segs_ok l /\ Forall (fun t => seg_end s <= seg_begin t) l.
Proof. intros [Hf Hs]. inversion Hs; subst. split; [exact (Forall_inv Hf)|]. split; [|done]. split; [exact (Forall_inv_tail Hf)|done]. Qed.
Lemma segs_last s l t : segs_ok (s :: l) -> list.last (s :: l) = Some t -> seg_end s <= seg_end t.
Proof.
  revert s. induction l as [|u l IH]; intros s Hs Ht; [cbn in Ht; injection Ht as <-; lia|].
  rewrite last_cons_cons in Ht. apply segs_cons in Hs as (H1 & H2 & H3). pose proof (IH u H2 Ht). pose proof (Forall_inv H3).
  apply segs_cons in H2. cbn in *. lia.
Qed.
Lemma segs_fit l n : segs_ok l -> (forall t, list.last l = Some t -> seg_end t <= Z.of_nat n) -> Forall (fits n) l.
Proof.
  induction l as [|s l IH]; intros Hs Hn; [constructor|]. pose proof Hs as (H1 & H2 & H3)%segs_cons. constructor.
  - split; [done|]. destruct (list.last (s :: l)) as [t|] eqn:E; [|by apply last_None in E].
    pose proof (segs_last _ _ _ Hs E). specialize (Hn t eq_refl). lia.
  - apply IH; [done|]. intros t Ht. apply Hn. rewrite last_cons, Ht. done.
Qed.
Lemma extend_spec offsets input : exists k, extend_input offsets input = input ++ replicate k 0 /\
  forall t, list.last offsets = Some t -> seg_end t <= Z.of_nat (length (input ++ replicate k 0)).
Proof.
  unfold extend_input. destruct (list.last offsets) as [t|]; [|exists 0%nat; cbn; by rewrite app_nil_r].
  destruct (Z.ltb_spec (Z.of_nat (length input)) (seg_end t)).
  - exists (Z.to_nat (seg_end t - Z.of_nat (length input))). split; [done|]. intros ? [= <-]. rewrite length_app, length_replicate. lia.
  - exists 0%nat. cbn. rewrite app_nil_r. split; [done|]. by intros ? [= <-].
Qed.

(** Beyond its end an input counts as zeros. *)
Lemma slice_Ok buf s : fits (length buf) s -> slice buf (seg_begin s) (seg_end s) = Ok (seg_at buf s).
Proof. intros [H1 H2]. unfold slice. rewrite !(proj2 (Z.leb_le _ _)) by lia. done. Qed.
Lemma segment_bytes_Ok input k s : fits (length (input ++ replicate k 0)) s ->
  segment_bytes s input = Ok (seg_at (input ++ replicate k 0) s).
Proof.
  intros [H1 H2]. rewrite length_app, length_replicate in H2. unfold segment_bytes, seg_at, seg_of, seg_off, seg_size, zeros.
  destruct (Z.leb_spec (seg_end s) (Z.of_nat (length input))).
  - rewrite slice_Ok by (by split). unfold seg_at, seg_of, seg_off, seg_size. rewrite drop_app_le, take_app_le by (rewrite ?length_drop; lia). done.
  - destruct (Z.leb_spec (Z.of_nat (length input)) (seg_begin s)).
    + rewrite (proj2 (Z.leb_le _ _)) by lia. rewrite drop_app_ge, drop_replicate, take_replicate by lia. f_equal. f_equal. lia.
    + unfold slice. rewrite !(proj2 (Z.leb_le _ _)) by lia. cbn. f_equal. rewrite drop_app_le by lia.
      rewrite take_app, take_replicate, length_drop. rewrite (take_ge _ (Z.to_nat (Z.of_nat _ - _))) by (rewrite length_drop; lia).
      rewrite take_ge by (rewrite length_drop; lia). f_equal. f_equal. lia.
Qed.

(** The entries that a list of segments gives, from position [pos] on. *)
Fixpoint metas (offsets : list TagSeg) (pos : nat) : list InputMeta :=
  match offsets with
  | [] => []
  | s :: r =>
      if seg_begin s =? seg_end s then metas r pos
      else (if is_size (seg_size s) then [mkMeta (seg_sign s) pos (seg_size s)]
            else replicate (seg_size s) (mkMeta (seg_sign s) pos 1)) ++ metas r (pos + seg_size s)
  end.
Lemma from_spec input k offsets : Forall (fits (length (input ++ replicate k 0))) offsets -> forall m,
  from_loop offsets input m =
    Ok (mkMut (value m ++ concat (seg_at (input ++ replicate k 0) <$> offsets)) (meta m ++ metas offsets (length (value m)))).
Proof.
  set (buf := input ++ replicate k 0). induction 1 as [|s l Hs _ IH]; intros m; cbn [from_loop metas fmap list_fmap concat].
  { rewrite !app_nil_r. by destruct m. }
  assert (Hz : length (seg_at buf s) = seg_size s) by (apply seg_length; destruct Hs; unfold seg_off, seg_size; lia).
  destruct (Z.eqb_spec (seg_begin s) (seg_end s)) as [E|E].
  - rewrite IH. replace (seg_at buf s) with (@nil Z); [done|]. symmetry. apply nil_length_inv. rewrite Hz. unfold seg_size. lia.
  - rewrite (segment_bytes_Ok _ k) by done. cbn [res_bind]. rewrite IH. unfold push. cbn [value meta]. fold buf.
    rewrite length_app, Hz, <-!app_assoc. done.
Qed.
Fixpoint store_all (offsets : list TagSeg) (vs : list (list Z)) (buf : list Z) : list Z :=
  match offsets, vs with s :: r, v :: ws => store_all r ws (store_slot buf (seg_off s) v) | _, _ => buf end.
Definition sized (s : TagSeg) (v : list Z) : Prop := length v = seg_size s.
Lemma set_bytes_spec offsets vs : Forall2 sized offsets vs -> forall pre buf, Forall (fits (length buf)) offsets ->
  set_bytes_loop offsets (pre ++ concat vs) (Z.of_nat (length pre)) buf = Ok (store_all offsets vs buf).
Proof.
  induction 1 as [|s v l ws Hv _ IH]; intros pre buf Hf; [done|]. cbn [set_bytes_loop store_all concat].
  pose proof (Forall_inv Hf) as Hs. pose proof (Forall_inv_tail Hf) as Hl. unfold sized, seg_size in Hv. destruct Hs as [H1 H2].
  destruct (Z.ltb_spec (seg_begin s) (seg_end s)).
  - rewrite slice_Ok by (by split). cbn [res_bind].
    assert (E : slice (pre ++ v ++ concat ws) (Z.of_nat (length pre)) (Z.of_nat (length pre) + (seg_end s - seg_begin s)) = Ok v).
    { unfold slice. rewrite !(proj2 (Z.leb_le _ _)) by (rewrite ?length_app; lia). f_equal. cbn [andb]. rewrite drop_app_length' by lia.
      by rewrite take_app_length' by lia. }
    rewrite E. cbn [res_bind]. rewrite (app_assoc pre). specialize (IH (pre ++ v) (store_slot buf (Z.to_nat (seg_begin s)) v)).
    rewrite length_app in IH. replace (Z.of_nat (length pre + length v)) with (Z.of_nat (length pre) + (seg_end s - seg_begin s)) in IH by lia.
    apply IH. by rewrite store_length by lia.
  - assert (v = []) as -> by (apply nil_length_inv; lia). cbn [app].
    assert (E : store_slot buf (seg_off s) [] = buf) by (unfold store_slot; cbn; by rewrite Nat.add_0_r, take_drop).
    rewrite E. by apply IH.
Qed.
Lemma fits_off n s (v : list Z) : fits n s -> sized s v -> (seg_off s + length v <= n)%nat.
Proof. intros [H1 H2] Hv. unfold sized, seg_size in Hv. unfold seg_off. lia. Qed.
Lemma store_all_length offsets vs : Forall2 sized offsets vs -> forall buf, Forall (fits (length buf)) offsets ->
  length (store_all offsets vs buf) = length buf.
Proof.
  induction 1 as [|s v l ws Hv _ IH]; intros buf Hf; [done|]. cbn [store_all]. inversion Hf as [|? ? Hs Hl]; subst.
  pose proof (fits_off _ _ _ Hs Hv). rewrite IH; by rewrite store_length.
Qed.
Lemma store_all_same offsets : forall buf, Forall (fits (length buf)) offsets -> store_all offsets (seg_at buf <$> offsets) buf = buf.
Proof.
  induction offsets as [|s l IH]; intros buf Hf; [done|]. cbn. inversion Hf as [|? ? [H1 H2] Hl]; subst. unfold seg_at at 2.
  rewrite store_seg by (unfold seg_off, seg_size; lia). by apply IH.
Qed.
Lemma store_all_frame offsets vs : Forall2 sized offsets vs -> forall buf i, Forall (fits (length buf)) offsets ->
  ~ covers offsets (Z.of_nat i) -> store_all offsets vs buf !! i = buf !! i.
Proof.
  induction 1 as [|s v l ws Hv _ IH]; intros buf i Hf Hc; [done|]. cbn [store_all]. inversion Hf as [|? ? Hs Hl]; subst.
  pose proof (fits_off _ _ _ Hs Hv) as Ho. rewrite covers_cons in Hc. rewrite IH; [|by rewrite store_length|tauto].
  rewrite store_lookup by done. destruct Hs as [H1 H2]. unfold sized, seg_size in Hv. unfold seg_off in *.
  destruct (Nat.leb_spec (Z.to_nat (seg_begin s)) i), (Nat.ltb_spec i (Z.to_nat (seg_begin s) + length v)); cbn; try done.
  exfalso. apply Hc. left. lia.
Qed.
Lemma store_all_other offsets vs s : Forall2 sized offsets vs -> forall buf, Forall (fits (length buf)) offsets ->
  0 <= seg_begin s <= seg_end s -> Forall (apart s) offsets -> seg_at (store_all offsets vs buf) s = seg_at buf s.
Proof.
  induction 1 as [|t v l ws Hv _ IH]; intros buf Hf Hs Hd; [done|]. cbn [store_all]. inversion Hf as [|? ? Ht Hl]; subst.
  inversion Hd as [|? ? Ha Hd']; subst. pose proof (fits_off _ _ _ Ht Hv) as Ho. rewrite IH; [|by rewrite store_length|done|done].
  apply seg_store_other; [done|]. unfold apart in Ha. unfold seg_off, seg_size. unfold sized, seg_size in Hv. destruct Ht. lia.
Qed.
Lemma store_all_at offsets vs : Forall2 sized offsets vs -> forall buf k s, Forall (fits (length buf)) offsets -> last_writer offsets k s ->
  vs !! k = Some (seg_at (store_all offsets vs buf) s).
Proof.
  induction 1 as [|t v l ws Hv Hl' IH]; intros buf k s Hf [Hk Hd]; [done|]. cbn [store_all].
  inversion Hf as [|? ? Ht Hl]; subst. pose proof (fits_off _ _ _ Ht Hv) as Ho. destruct k as [|k].
  - injection Hk as <-. cbn [lookup list_lookup drop] in *. f_equal. rewrite drop_0 in Hd.
    rewrite store_all_other by (rewrite ?store_length; done || apply Ht). unfold seg_at. unfold sized in Hv. rewrite <-Hv. symmetry. by apply seg_store.
  - cbn. apply IH; [by rewrite store_length|by split].
Qed.
Lemma store_all_read offsets vs : Forall2 sized offsets vs -> forall buf, Forall (fits (length buf)) offsets ->
  (forall k s, offsets !! k = Some s -> last_writer offsets k s) -> seg_at (store_all offsets vs buf) <$> offsets = vs.
Proof.
  intros Hv buf Hf Hd. apply list_eq. intros k. rewrite list_lookup_fmap. destruct (offsets !! k) as [s|] eqn:E; cbn.
  - symmetry. apply store_all_at; [done|done|by apply Hd].
  - symmetry. apply lookup_ge_None. rewrite <-(Forall2_length Hv). by apply lookup_ge_None.
Qed.
(** Bytes as long as the segments, cut into pieces. *)
Fixpoint cut (offsets : list TagSeg) (v : list Z) : list (list Z) :=
  match offsets with [] => [] | s :: r => take (seg_size s) v :: cut r (drop (seg_size s) v) end.
Lemma cut_spec offsets : forall v, length v = sum_list (seg_size <$> offsets) -> Forall2 sized offsets (cut offsets v) /\ concat (cut offsets v) = v.
Proof.
  induction offsets as [|s l IH]; intros v Hv; cbn in *; [split; [constructor|by apply nil_length_inv in Hv]|].
  destruct (IH (drop (seg_size s) v)) as [I1 I2]; [rewrite length_drop; lia|]. split.
  - constructor; [|done]. unfold sized. rewrite length_take. lia.
  - by rewrite I2, take_drop.
Qed.
Lemma segs_sized buf offsets : Forall (fits (length buf)) offsets -> Forall2 sized offsets (seg_at buf <$> offsets).
Proof. induction 1 as [|s l [H1 H2] _ IH]; constructor; [|done]. apply seg_length. unfold seg_off, seg_size. lia. Qed.
Lemma segs_length buf offsets : Forall (fits (length buf)) offsets ->
  length (concat (seg_at buf <$> offsets)) = sum_list (seg_size <$> offsets).
Proof.
  induction 1 as [|s l [H1 H2] _ IH]; [done|]. cbn. rewrite length_app, IH. f_equal. apply seg_length. unfold seg_off, seg_size. lia.
Qed.

(** C27: the bytes under mutation are a view of the input.  Segments that lie in the input,
    extended by zeros up to the end of the last one, can be cut out and, left alone, are written
    back without a change, whether they overlap or not.  Other bytes of the same number are
    written back, too: the bytes of each segment that no later segment overlaps are found at
    its offsets again, and every byte outside the segments is kept.  If no two segments
    overlap, cutting out what was written gives the bytes and entries back. *)
Theorem mutation_view (offsets : list TagSeg) (input : list Z) :
  Forall (fits (length (extend_input offsets input))) offsets ->
  exists m, from offsets input = Ok m /\ value m = concat (seg_at (extend_input offsets input) <$> offsets) /\
    write_to_input m offsets input = Ok (extend_input offsets input) /\
    forall v, length v = length (value m) -> exists out,
      write_to_input (mkMut v (meta m)) offsets input = Ok out /\ length out = length (extend_input offsets input) /\
      (forall i, ~ covers offsets (Z.of_nat i) -> out !! i = extend_input offsets input !! i) /\
      (forall k s, last_writer offsets k s -> cut offsets v !! k = Some (seg_at out s)) /\
      ((forall k s, offsets !! k = Some s -> last_writer offsets k s) -> from offsets out = Ok (mkMut v (meta m))).
Proof.
  destruct (extend_spec offsets input) as (k & E & _). unfold write_to_input. rewrite E. set (buf := input ++ replicate k 0). intros Hf.
  unfold from. rewrite (from_spec input k) by done. eexists. split; [done|]. cbn [value meta app length MutInput_new]. split; [done|]. split.
  - etrans; [apply (set_bytes_spec _ _ (segs_sized buf offsets Hf) [] buf Hf)|]. by rewrite store_all_same.
  - intros v Hv. rewrite segs_length in Hv by done. destruct (cut_spec _ _ Hv) as [Hc Ev].
    exists (store_all offsets (cut offsets v) buf). split; [rewrite <-Ev at 1; by apply (set_bytes_spec _ _ Hc [])|].
    assert (Hl : length (store_all offsets (cut offsets v) buf) = length buf) by (by apply store_all_length).
    split; [done|]. split; [intros i Hi; by apply store_all_frame|]. split; [intros j s Hj; by apply store_all_at|]. intros Hd.
    rewrite (from_spec _ 0); cbn [replicate value meta MutInput_new app length]; rewrite app_nil_r; [|by rewrite Hl].
    rewrite store_all_read by done. by rewrite Ev.
Qed.
(** Cutting out never fails on such segments, and gives well-formed bytes and entries. *)
Lemma from_total offsets input : segs_ok offsets -> Forall is_byte input -> exists m, from offsets input = Ok m /\ wf m.
Proof.
  intros Hs Hb. destruct (extend_spec offsets input) as (k & E & Hlast). pose proof (segs_fit _ _ Hs Hlast) as Hf.
  unfold from. assert (W : forall m, wf m -> exists m', from_loop offsets input m = Ok m' /\ wf m'); [|apply W; by repeat constructor].
  clear Hs Hlast E. induction Hf as [|s l Hs _ IH]; intros m Hm; cbn [from_loop]; [by exists m|].
  destruct (_ =? _); [by apply IH|]. rewrite (segment_bytes_Ok _ k) by done. cbn. apply IH, push_wf; [done|].
  apply Forall_take, Forall_drop, Forall_app. split; [done|]. apply Forall_replicate. by unfold is_byte.
Qed.

(** ** Flipping bits *)

Lemma byte_xor b k : is_byte b -> 0 <= k < 8 -> is_byte (Z.lxor b (Z.shiftr 128 k)).
Proof.
  intros Hb Hk. unfold is_byte in *. assert (Hs : 0 <= Z.shiftr 128 k < 2 ^ 8).
  { assert (Hk' : k = 0 \/ k = 1 \/ k = 2 \/ k = 3 \/ k = 4 \/ k = 5 \/ k = 6 \/ k = 7) by lia.
    destruct Hk' as [-> |[-> |[-> |[-> |[-> |[-> |[-> | ->]]]]]]]; by vm_compute. }
  assert (H0 : 0 <= Z.lxor b (Z.shiftr 128 k)) by (apply Z.lxor_nonneg; lia). split; [done|].
  destruct (Z.eq_dec (Z.lxor b (Z.shiftr 128 k)) 0) as [E|E]; [lia|]. change 256 with (2 ^ 8). apply Z.log2_lt_pow2; [lia|].
  pose proof (Z.log2_lxor b (Z.shiftr 128 k) ltac:(lia) ltac:(lia)).
  assert (Hlog : forall z, 0 <= z < 2 ^ 8 -> Z.log2 z < 8).
  { intros z Hz. destruct (Z.eq_dec z 0) as [->|]; [done|]. apply Z.log2_lt_pow2; lia. }
  pose proof (Hlog b ltac:(lia)). pose proof (Hlog _ Hs). lia.
Qed.
(** Flipping a bit of the bytes changes exactly that bit and flipping it again restores them;
    the bits of all bytes can be flipped, and no others. *)
Theorem bitflip_involutive (m : MutInput) (i : Z) :
  wf m -> 0 <= i ->
  (bitflip m i = Fault Panicked <-> 8 * Z.of_nat (length (value m)) <= i) /\
  (i < 8 * Z.of_nat (length (value m)) ->
   exists m', bitflip m i = Ok m' /\ wf m' /\ bitflip m' i = Ok m /\
     forall j b, value m !! j = Some b -> exists b', value m' !! j = Some b' /\
       forall k, 0 <= k < 8 -> Z.testbit b' k = xorb (Z.testbit b k) (bool_decide (i = 8 * Z.of_nat j + (7 - k)))).
Proof.
  intros [Hb Hm] Hi. unfold bitflip. change (Z.land i 7) with (Z.land i (Z.ones 3)). rewrite Z.shiftr_div_pow2, Z.land_ones by lia. change (2 ^ 3) with 8.
  pose proof (Z.div_mod i 8 ltac:(lia)) as Hdm. pose proof (Z.mod_pos_bound i 8 ltac:(lia)) as Hr. set (q := i / 8) in *. set (r := i mod 8) in *.
  assert (Hq : 0 <= q) by (unfold q; apply Z.div_pos; lia). split.
  - destruct (value m !! Z.to_nat q) as [b|] eqn:E.
    + apply lookup_lt_Some in E. split; [done|lia].
    + apply lookup_ge_None in E. split; [lia|done].
  - intros Hl. destruct (value m !! Z.to_nat q) as [b|] eqn:E; [|apply lookup_ge_None in E; lia].
    assert (Hbb : is_byte b) by (rewrite Forall_forall in Hb; apply Hb, list_elem_of_In; by eapply list_elem_of_lookup_2).
    eexists. split; [done|]. split.
    { split; cbn; [|by rewrite length_insert]. apply Forall_insert; [done|by apply byte_xor]. }
    cbn [value meta]. rewrite list_lookup_insert_eq by (by eapply lookup_lt_Some). split.
    { rewrite Z.lxor_assoc, Z.lxor_nilpotent, Z.lxor_0_r, list_insert_insert_eq, list_insert_id by done. by destruct m. }
    intros j c Hj. destruct (decide (j = Z.to_nat q)) as [->|Hne].
    + rewrite E in Hj. injection Hj as <-. eexists. rewrite list_lookup_insert_eq by (by eapply lookup_lt_Some). split; [done|]. intros k Hk.
      rewrite Z.lxor_spec, Z.shiftr_spec by lia. f_equal. change 128 with (2 ^ 7). rewrite Z.pow2_bits_eqb by lia.
      destruct (Z.eqb_spec 7 (k + r)); [rewrite bool_decide_eq_true_2 by lia|rewrite bool_decide_eq_false_2 by lia]; done.
    + exists c. rewrite list_lookup_insert_ne by done. split; [done|]. intros k Hk. rewrite bool_decide_eq_false_2 by lia. by rewrite xorb_false_r.
Qed.

(** ** Segments of other sizes

    A segment of 1, 2, 4 or 8 bytes is one entry.  Any other gets an entry for each byte, but
    [push] gives all of them the offset of the first byte. *)

(** No entry of such a segment reaches a byte behind the first. *)
Theorem odd_segment_aliases (s : TagSeg) (input : list Z) (m m' : MutInput) (index : nat) (val : Z) :
  0 <= seg_begin s <= seg_end s -> is_size (seg_size s) = false ->
  from [s] input = Ok m -> set m index val = Ok m' -> drop 1 (value m') = drop 1 (value m).
Proof.
  intros Hs Hz Hm. unfold set. destruct (meta_at m index) as [i|] eqn:Hi; [|done]. cbn.
  assert (Hk : segs_ok [s]) by (split; repeat constructor; lia).
  destruct (extend_spec [s] input) as (k & _ & Hlast). pose proof (segs_fit _ _ Hk Hlast) as Hf.
  unfold from in Hm. rewrite (from_spec input k _ Hf) in Hm. injection Hm as <-. cbn [value meta MutInput_new app length] in *.
  set (buf := seg_at _ s ++ []) in *. unfold meta_at in Hi. cbn [meta metas] in Hi. rewrite Hz, app_nil_r in Hi.
  assert (Ei : m_offset i = 0%nat /\ m_size i = 1%nat).
  { destruct (_ =? _); [done|]. destruct (replicate _ _ !! index) as [j|] eqn:Ej; [|done]. injection Hi as ->.
    apply lookup_replicate in Ej as [-> _]. done. }
  destruct Ei as [-> ->]. unfold set_val_in_buf. cbn [is_size Nat.eqb orb].
  destruct (slot buf 0 1) as [l|]; [|done]. intros [= <-]. cbn [value]. unfold store_slot. by destruct buf.
Qed.

(** ** Examples *)

Module InputEx.
Definition offs : list TagSeg := [mkSeg false 1 3; mkSeg true 4 8].
Definition inp : list Z := [10; 20; 30; 40; 50; 60].
Definition mi : MutInput := mkMut [20; 30; 50; 60; 0; 0] [mkMeta false 0 2; mkMeta true 2 4].
Lemma offs_ok : segs_ok offs.
Proof. split; repeat constructor; by vm_compute. Qed.
Lemma mi_wf : wf mi.
Proof. split; repeat constructor; by vm_compute. Qed.
Lemma mi_from : from offs inp = Ok mi.
Proof. by vm_compute. Qed.
End InputEx.
Lemma merge_offsets_union_witness : by_begin (merge_offsets InputEx.offs [mkSeg false 4 9]).
Proof.
  apply (proj2 (merge_offsets_union InputEx.offs [mkSeg false 4 9])); repeat constructor; by vm_compute.
Defined.
Lemma entry_laws_witness : exists m2, update InputEx.mi 1 false 61 = Ok m2 /\ update m2 1 true 61 = Ok InputEx.mi.
Proof.
  destruct (entry_laws InputEx.mi 1 0 61 false InputEx.mi_wf) as (n & e & m1 & m2 & _ & _ & _ & _ & _ & _ & _ & E1 & _ & _ & E2); [cbn; lia|].
  by exists m2.
Defined.
(** Two segments that overlap in two bytes; the input ends before the second. *)
Lemma mutation_view_witness : exists m out, from [mkSeg false 0 4; mkSeg false 2 6] [10; 20; 30; 40; 50] = Ok m /\
  write_to_input (mkMut [1; 2; 3; 4; 5; 6; 7; 8] (meta m)) [mkSeg false 0 4; mkSeg false 2 6] [10; 20; 30; 40; 50] = Ok out /\
  out = [1; 2; 5; 6; 7; 8] /\ seg_at out (mkSeg false 2 6) = [5; 6; 7; 8].
Proof.
  destruct (mutation_view [mkSeg false 0 4; mkSeg false 2 6] [10; 20; 30; 40; 50]) as (m & E & _ & _ & W).
  { apply Forall_cons; [by vm_compute|]. apply Forall_cons; [by vm_compute|by apply Forall_nil]. }
  vm_compute in E. injection E as <-. destruct (W [1; 2; 3; 4; 5; 6; 7; 8]) as (out & Eo & _ & _ & Hs & _); [done|].
  eexists _, out. split; [by vm_compute|]. split; [exact Eo|]. split; [vm_compute in Eo; by injection Eo|].
  assert (Hw : last_writer [mkSeg false 0 4; mkSeg false 2 6] 1 (mkSeg false 2 6)) by (split; [done|by apply Forall_nil]).
  assert (Hq : Some [5; 6; 7; 8] = Some (seg_at out (mkSeg false 2 6))) by exact (Hs _ _ Hw). by injection Hq.
Defined.
Lemma bitflip_involutive_witness : exists m', bitflip InputEx.mi 9 = Ok m' /\ bitflip m' 9 = Ok InputEx.mi.
Proof.
  destruct (proj2 (bitflip_involutive InputEx.mi 9 InputEx.mi_wf ltac:(lia))) as (m' & E & _ & E' & _); [by vm_compute|].
  by exists m'.
Defined.
Lemma odd_segment_aliases_witness : exists m m', from [mkSeg false 0 3] InputEx.inp = Ok m /\ set m 2 7 = Ok m' /\ drop 1 (value m') = drop 1 (value m).
Proof.
  eexists _, _. split; [by vm_compute|]. split; [by vm_compute|].
  apply (odd_segment_aliases (mkSeg false 0 3) InputEx.inp _ _ 2 7); by vm_compute.
Defined.
