(* ===== verification/FuzzCfg.v ===== *)
(** * The dynamic control-flow graph

    [fuzzer/src/dyncfg/cfg.rs]: the graph of comparisons that steers the fuzzer to its
    targets.  Every edge carries the score of the comparison it leads to; new edges are added
    while inputs are tracked.  The graph is petgraph's [DiGraphMap], of which the class
    [GraphMap] has the operations used and their documented behaviour; the harmonic mean of
    the crate [libmath] is a parameter.  The order in which a [HashSet] is iterated is not
    specified; sets are iterated in the order of [elements]. *)


From S2P Require Import Prelude TagSet.
Local Open Scope Z_scope.

Abbreviation CmpId := Z.
Abbreviation CallSiteId := Z.
Abbreviation Edge := (Z * Z)%type.
Abbreviation Score := Z.
Abbreviation FixedBytes := (list (nat * Z)).

(** ** petgraph *)

(** [Bfs] and [Dfs]: [w_new] puts a node in the list of nodes to visit, [w_next] gives the next
    node.  [w_visits g v l]: called again and again on [g], the visitor [v] gives [l]. *)
Record Walker (G : Type) := mkWalker {
  w_state : Type;
  w_new : G -> CmpId -> w_state;
  w_next : w_state -> G -> option (CmpId * w_state);
  w_visits : G -> w_state -> list CmpId -> Prop }.
Arguments w_state {G}. Arguments w_new {G}. Arguments w_next {G}. Arguments w_visits {G}.

Class GraphMap := {
  graph_map : Type;
  g_new : graph_map;
  g_add_edge : graph_map -> CmpId -> CmpId -> Score -> graph_map;
  g_contains_edge : graph_map -> CmpId -> CmpId -> bool;
  g_edge_weight : graph_map -> CmpId -> CmpId -> option Score;
  g_neighbors_out : graph_map -> CmpId -> list CmpId;
  g_neighbors_in : graph_map -> CmpId -> list CmpId;
  g_nodes : graph_map -> list CmpId;
  g_bfs : Walker graph_map;
  g_dfs : Walker graph_map }.

Section Laws.
Context `{GraphMap}.
Definition has (g : graph_map) (e : Edge) : Prop := is_Some (g_edge_weight g e.1 e.2).
Definition same_edges (g g' : graph_map) : Prop := forall e, has g e <-> has g' e.
Definition reach (g : graph_map) : relation CmpId := rtc (fun a b => has g (a, b)).
(** A traversal visits each node that can be reached, once; a change of weights on the way does
    not disturb it. *)
Class WalkerSpec (w : Walker graph_map) := {
  walk_new : forall g g0 s, exists l, w_visits w g (w_new w g0 s) l /\ NoDup l /\ (forall x, x ∈ l <-> reach g s x) /\ head l = Some s;
  walk_done : forall g v, w_visits w g v [] -> w_next w v g = None;
  walk_next : forall g v x l, w_visits w g v (x :: l) -> exists v', w_next w v g = Some (x, v') /\ w_visits w g v' l;
  walk_weights : forall g a b k v l, has g (a, b) -> w_visits w g v l -> w_visits w (g_add_edge g a b k) v l }.
Class GraphMapSpec := {
  law_new : forall a b, g_edge_weight g_new a b = None;
  law_add_edge : forall g a b w a' b',
    g_edge_weight (g_add_edge g a b w) a' b' = if decide ((a, b) = (a', b')) then Some w else g_edge_weight g a' b';
  (* for an edge that exists only the weight changes, and other nodes are not touched *)
  law_update : forall g a b w x, x <> a \/ has g (a, b) -> g_neighbors_out (g_add_edge g a b w) x = g_neighbors_out g x;
  law_contains : forall g a b, g_contains_edge g a b = true <-> is_Some (g_edge_weight g a b);
  law_out : forall g a, NoDup (g_neighbors_out g a) /\ forall b, b ∈ g_neighbors_out g a <-> has g (a, b);
  law_in : forall g b, NoDup (g_neighbors_in g b) /\ forall a, a ∈ g_neighbors_in g b <-> has g (a, b);
  law_nodes : forall g a b, has g (a, b) -> a ∈ g_nodes g /\ b ∈ g_nodes g;
  law_bfs :: WalkerSpec g_bfs;
  law_dfs :: WalkerSpec g_dfs }.
End Laws.

(** [mean::harmonic] on numbers of 32 bits, cast back to 32 bits. *)
Class Mean := { harmonic : list Score -> Score }.

(** ** The graph *)

Definition TARGET_SCORE : Score := 0.
Definition UNDEF_SCORE : Score := 2 ^ 32 - 1.

Record ControlFlowGraph `{GraphMap} := mkCfg {
  graph : graph_map;
  targets : gset CmpId;
  solved_targets : gset CmpId;
  indirect_edges : gset Edge;
  callsite_edges : gmap CallSiteId (gset Edge);
  callsite_dominators : gmap CallSiteId (gset CmpId);
  dominator_cmps : gset CmpId;
  magic_bytes : gmap Edge FixedBytes }.
(** [CfgFile] of [fparse.rs]; the edges in the order in which they are iterated. *)
Record CfgFile := mkCfgFile { f_targets : gset CmpId; f_edges : list Edge; f_dominators : gmap CallSiteId (gset CmpId) }.

Section Cfg.
Context `{GraphMap} `{Mean}.
Implicit Types c : ControlFlowGraph.

Definition set_graph (g : graph_map) (c : ControlFlowGraph) : ControlFlowGraph :=
  mkCfg _ g (targets c) (solved_targets c) (indirect_edges c) (callsite_edges c) (callsite_dominators c) (dominator_cmps c) (magic_bytes c).

Definition has_edge (c : ControlFlowGraph) (edge : Edge) : bool := g_contains_edge (graph c) edge.1 edge.2.

Definition score_harmonic_mean (ovals : list Score) : Score :=
  match ovals with
  | [] => UNDEF_SCORE
  | _ => u32 (harmonic (filter (fun v => v <> UNDEF_SCORE) ovals) + 1)
  end.
Definition score_greedy (ovals : list Score) : Score :=
  match filter (fun v => v <> UNDEF_SCORE) ovals with
  | [] => UNDEF_SCORE
  | v :: r => u32 (fold_left Z.min r v + 1)
  end.
Definition score_coverage (ovals : list Score) : Score :=
  match ovals with
  | [] => UNDEF_SCORE
  | _ => u32 (fold_right Z.add 0 ((fun v => if v =? TARGET_SCORE then 1 else v) <$> filter (fun v => v <> UNDEF_SCORE) ovals))
  end.
Definition aggregate_score (ovals : list Score) : Score := score_harmonic_mean ovals.

(** The loop over the fixed bytes of an edge. *)
Fixpoint fixed_equal (fixed : FixedBytes) (inp : list Z) : bool :=
  match fixed with
  | [] => true
  | (i, v) :: r =>
      match inp !! i with
      | Some b => if negb (b =? v) then false else fixed_equal r inp
      | None => fixed_equal r inp
      end
  end.
Definition should_count_edge (c : ControlFlowGraph) (edge : Edge) (inp : list Z) : bool :=
  if negb (bool_decide (edge ∈ indirect_edges c)) then true
  else match magic_bytes c !! edge with
       | Some fixed => fixed_equal fixed inp
       | None => true
       end.
Definition edge_scores (c : ControlFlowGraph) (cmp : CmpId) (inp : list Z) : list Score :=
  omap (fun n => if should_count_edge c (cmp, n) inp then g_edge_weight (graph c) cmp n else None)
       (g_neighbors_out (graph c) cmp).
Definition score_for_cmp_inp (c : ControlFlowGraph) (cmp : CmpId) (inp : list Z) : Score :=
  if bool_decide (cmp ∈ targets c) then TARGET_SCORE else aggregate_score (edge_scores c cmp inp).
Definition score_for_cmp (c : ControlFlowGraph) (cmp : CmpId) : Score := score_for_cmp_inp c cmp [].
Definition has_score (c : ControlFlowGraph) (cmp : CmpId) : bool := negb (score_for_cmp c cmp =? UNDEF_SCORE).

(** The body of the loop of [propagate_score]: every edge to the visited node gets its score. *)
Definition rescore (c : ControlFlowGraph) (visited : CmpId) : ControlFlowGraph :=
  let new_score := score_for_cmp c visited in
  set_graph (fold_left (fun g p => g_add_edge g p visited new_score) (g_neighbors_in (graph c) visited) (graph c)) c.
Fixpoint propagate_loop (fuel : nat) (visitor : w_state g_bfs) (c : ControlFlowGraph) : res ControlFlowGraph :=
  match fuel with
  | O => Fault OutOfFuel
  | S k =>
      match w_next g_bfs visitor (graph c) with
      | Some (visited, visitor) => propagate_loop k visitor (rescore c visited)
      | None => Ok c
      end
  end.
(** The visitor is made from the reversed graph, but asked for the next node of the graph
    itself. *)
Definition propagate_score (c : ControlFlowGraph) (cmp : CmpId) : res ControlFlowGraph :=
  propagate_loop (S (S (length (g_nodes (graph c))))) (w_new g_bfs (graph c) cmp) c.

Definition handle_new_edge (c : ControlFlowGraph) (edge : Edge) : res ControlFlowGraph :=
  let src := edge.1 in
  let dst := edge.2 in
  let dst_score := score_for_cmp c dst in
  let old_src_score := score_for_cmp c src in
  let c := set_graph (g_add_edge (graph c) src dst dst_score) c in
  let new_src_score := score_for_cmp c src in
  if old_src_score =? new_src_score then Ok c
  else propagate_score (set_graph (g_add_edge (graph c) src dst dst_score) c) src.
Definition add_edge (c : ControlFlowGraph) (edge : Edge) : res (bool * ControlFlowGraph) :=
  res_bind (handle_new_edge c edge) (fun c' => Ok (negb (has_edge c edge), c')).
Fixpoint add_edges (es : list Edge) (c : ControlFlowGraph) : res ControlFlowGraph :=
  match es with
  | [] => Ok c
  | e :: r => res_bind (add_edge c e) (fun x => add_edges r x.2)
  end.
Definition ControlFlowGraph_new (data : CfgFile) : res ControlFlowGraph :=
  add_edges (f_edges data)
    (mkCfg _ g_new (f_targets data) ∅ ∅ ∅ (f_dominators data)
       (⋃ (snd <$> map_to_list (f_dominators data))) ∅).

Definition set_edge_indirect (c : ControlFlowGraph) (edge : Edge) (callsite : CallSiteId) : ControlFlowGraph :=
  mkCfg _ (graph c) (targets c) (solved_targets c) ({[ edge ]} ∪ indirect_edges c)
    (<[ callsite := {[ edge ]} ∪ default ∅ (callsite_edges c !! callsite) ]> (callsite_edges c))
    (callsite_dominators c) (dominator_cmps c) (magic_bytes c).
(** The offsets of the segments. *)
Definition indices (offsets : list TagSeg) : gset nat :=
  list_to_set (concat ((fun t => seq (Z.to_nat (seg_begin t)) (Z.to_nat (seg_end t - seg_begin t))) <$> offsets)).
Fixpoint fix_bytes (is_ : list nat) (buf : list Z) : res FixedBytes :=
  match is_ with
  | [] => Ok []
  | i :: r => match buf !! i with
              | Some b => res_bind (fix_bytes r buf) (fun f => Ok ((i, b) :: f))
              | None => Fault Panicked
              end
  end.
Definition set_magic_bytes (c : ControlFlowGraph) (edge : Edge) (buf : list Z) (offsets : list TagSeg) : res ControlFlowGraph :=
  res_bind (fix_bytes (elements (indices offsets)) buf) (fun fixed =>
    Ok (mkCfg _ (graph c) (targets c) (solved_targets c) (indirect_edges c) (callsite_edges c) (callsite_dominators c)
          (dominator_cmps c) (<[ edge := fixed ]> (magic_bytes c)))).
Definition get_magic_bytes (c : ControlFlowGraph) (edge : Edge) : FixedBytes := default [] (magic_bytes c !! edge).
Definition dominates_indirect_call (c : ControlFlowGraph) (cmp : CmpId) : bool := bool_decide (cmp ∈ dominator_cmps c).
Definition get_callsite_dominators (c : ControlFlowGraph) (cs : CallSiteId) : gset CmpId := default ∅ (callsite_dominators c !! cs).

Definition remove_target (c : ControlFlowGraph) (cmp : CmpId) : res ControlFlowGraph :=
  if bool_decide (cmp ∈ targets c) then
    res_bind (propagate_score
      (mkCfg _ (graph c) (targets c ∖ {[ cmp ]}) (solved_targets c) (indirect_edges c) (callsite_edges c) (callsite_dominators c)
         (dominator_cmps c) (magic_bytes c)) cmp) (fun c =>
    Ok (mkCfg _ (graph c) (targets c) ({[ cmp ]} ∪ solved_targets c) (indirect_edges c) (callsite_edges c) (callsite_dominators c)
          (dominator_cmps c) (magic_bytes c)))
  else Ok c.
Definition is_target (c : ControlFlowGraph) (cmp : CmpId) : bool :=
  bool_decide (cmp ∈ targets c) || bool_decide (cmp ∈ solved_targets c).

Fixpoint path_loop (fuel : nat) (dfs : w_state g_dfs) (c : ControlFlowGraph) : res bool :=
  match fuel with
  | O => Fault OutOfFuel
  | S k =>
      match w_next g_dfs dfs (graph c) with
      | Some (visited, dfs) => if bool_decide (visited ∈ targets c) then Ok true else path_loop k dfs c
      | None => Ok false
      end
  end.
Definition has_path_to_target (c : ControlFlowGraph) (cmp : CmpId) : res bool :=
  path_loop (S (S (length (g_nodes (graph c))))) (w_new g_dfs (graph c) cmp) c.
End Cfg.

(** ** Weights and edges *)

Section Proofs.
Context `{GS : GraphMapSpec} `{Mean}.
Implicit Types c : ControlFlowGraph.
Definition weight (c : ControlFlowGraph) (a b : CmpId) : option Score := g_edge_weight (graph c) a b.

(** Everything but the weights is kept. *)
Record keeps (c c' : ControlFlowGraph) : Prop := mkKeeps {
  k_edges : same_edges (graph c) (graph c');
  k_targets : targets c' = targets c;
  k_solved : solved_targets c' = solved_targets c;
  k_indirect : indirect_edges c' = indirect_edges c;
  k_callsites : callsite_edges c' = callsite_edges c;
  k_dominators : callsite_dominators c' = callsite_dominators c;
  k_cmps : dominator_cmps c' = dominator_cmps c;
  k_magic : magic_bytes c' = magic_bytes c }.
#[local] Instance same_edges_equiv : Equivalence same_edges.
Proof. split; [done|intros x y E e; specialize (E e); tauto|intros x y z E1 E2 e; specialize (E1 e); specialize (E2 e); tauto]. Qed.
#[local] Instance keeps_preorder : PreOrder keeps.
Proof. split; [done|]. intros x y z [] []. split; [by etrans|congruence..]. Qed.

Lemma has_edge_iff c e : has_edge c e = true <-> has (graph c) e.
Proof. apply law_contains. Qed.
Lemma has_add g a b w e : has (g_add_edge g a b w) e <-> e = (a, b) \/ has g e.
Proof.
  unfold has. destruct e as [a' b']. cbn. rewrite law_add_edge. case_decide as E; [injection E as -> ->; split; [by left|by eexists]|].
  split; [by right|]. intros [E'|]; [congruence|done].
Qed.
Lemma weights_fold ps v w g : forall a b,
  g_edge_weight (fold_left (fun g p => g_add_edge g p v w) ps g) a b =
    if bool_decide (a ∈ ps /\ b = v) then Some w else g_edge_weight g a b.
Proof.
  revert g. induction ps as [|p ps IH]; intros g a b; cbn [fold_left].
  - rewrite bool_decide_eq_false_2; [done|]. by intros [Ha%elem_of_nil _].
  - rewrite IH, law_add_edge. case_bool_decide as E1; [rewrite bool_decide_eq_true_2; [done|]; destruct E1; split; [by right|done]|].
    case_decide as E2; [injection E2 as -> ->; rewrite bool_decide_eq_true_2; [done|split; [by left|done]]|].
    rewrite bool_decide_eq_false_2; [done|]. intros [[Hp|Hin]%elem_of_cons Hb]; [by subst|by apply E1].
Qed.
Lemma rescore_weight c v a b : weight (rescore c v) a b =
  if bool_decide (has (graph c) (a, v) /\ b = v) then Some (score_for_cmp c v) else weight c a b.
Proof.
  unfold weight, rescore. cbn [graph set_graph]. rewrite weights_fold.
  assert (E : bool_decide (a ∈ g_neighbors_in (graph c) v /\ b = v) = bool_decide (has (graph c) (a, v) /\ b = v));
    [|by rewrite E].
  apply bool_decide_ext. by rewrite (proj2 (law_in (graph c) v)).
Qed.
Lemma rescore_keeps c v : keeps c (rescore c v).
Proof.
  split; try done. intros [a b]. unfold has. cbn [fst snd]. change (is_Some (weight c a b) <-> is_Some (weight (rescore c v) a b)).
  rewrite rescore_weight. case_bool_decide as E; [|done]. destruct E as [E ->]. split; [by eexists|done].
Qed.

(** Scores are made from the targets and the weights of the edges. *)
Lemma score_ext c c' x : keeps c c' -> (forall y, g_neighbors_out (graph c') y = g_neighbors_out (graph c) y) ->
  (forall a b, weight c' a b = weight c a b) -> score_for_cmp c' x = score_for_cmp c x.
Proof.
  intros K Hn Hw. unfold score_for_cmp, score_for_cmp_inp, edge_scores, should_count_edge. rewrite (k_targets _ _ K), Hn.
  case_bool_decide; [done|]. f_equal. apply list_omap_ext, Forall_Forall2_diag, Forall_true. intros n. rewrite (k_indirect _ _ K), (k_magic _ _ K).
  change (g_edge_weight (graph ?d) x n) with (weight d x n). by rewrite Hw.
Qed.

(** *** Propagation *)

Lemma fold_visits (w : Walker graph_map) `{!WalkerSpec w} ps v k x l : forall g, Forall (fun p => has g (p, v)) ps -> w_visits w g x l ->
  w_visits w (fold_left (fun g p => g_add_edge g p v k) ps g) x l.
Proof.
  induction ps as [|p ps IH]; intros g Hp Hv; [done|]. inversion Hp as [|? ? H1 H2]; subst. cbn [fold_left]. apply IH.
  - eapply Forall_impl; [|exact H2]. intros q Hq. apply has_add. by right.
  - by apply walk_weights.
Qed.
Lemma in_edges c v : Forall (fun p => has (graph c) (p, v)) (g_neighbors_in (graph c) v).
Proof. apply Forall_forall. intros p Hp%list_elem_of_In. by apply (proj2 (law_in (graph c) v)). Qed.
Lemma rescore_visits (w : Walker graph_map) `{!WalkerSpec w} c v x l : w_visits w (graph c) x l -> w_visits w (graph (rescore c v)) x l.
Proof. apply fold_visits; [done|apply in_edges]. Qed.

Lemma propagate_spec l : forall c visitor fuel, w_visits g_bfs (graph c) visitor l -> (length l < fuel)%nat -> NoDup l ->
  exists c', propagate_loop fuel visitor c = Ok c' /\ keeps c c' /\
    (forall a b, b ∉ l -> weight c' a b = weight c a b) /\
    (forall s r a, l = s :: r -> has (graph c) (a, s) -> weight c' a s = Some (score_for_cmp c s)).
Proof.
  induction l as [|x l IH]; intros c visitor fuel Hv Hf Hd; (destruct fuel as [|fuel]; [cbn in Hf; lia|]); cbn [propagate_loop].
  - rewrite (walk_done _ _ Hv). exists c. done.
  - destruct (walk_next _ _ _ _ Hv) as (v' & -> & Hv'). apply list.NoDup_cons in Hd as [Hx Hd].
    pose proof (rescore_keeps c x) as Hk.
    destruct (IH (rescore c x) v' fuel) as (c' & E & K & W & _); [by apply rescore_visits; [exact _|]|cbn in Hf; lia|done|].
    exists c'. split; [done|]. split; [by etrans|]. split.
    + intros a b [Hb1 Hb2]%not_elem_of_cons. rewrite W by done. rewrite rescore_weight, bool_decide_eq_false_2; [done|]. by intros [_ ->].
    + intros s r a [= <- <-] Ha. rewrite W by done. by rewrite rescore_weight, bool_decide_eq_true_2.
Qed.
Lemma visit_bound g s l : NoDup l -> (forall x, x ∈ l <-> reach g s x) -> (length l <= S (length (g_nodes g)))%nat.
Proof.
  intros Hd Hl. change (S (length (g_nodes g))) with (length (s :: g_nodes g)). apply submseteq_length, NoDup_submseteq; [done|].
  intros x [->|Hx]%Hl%rtc_inv_r; [by left|]. right. destruct Hx as (y & _ & Hy). by apply law_nodes in Hy as [_ ?].
Qed.
Lemma propagate_total c s : exists c', propagate_score c s = Ok c' /\ keeps c c' /\
  (forall a b, ~ reach (graph c) s b -> weight c' a b = weight c a b) /\
  (forall a, has (graph c) (a, s) -> weight c' a s = Some (score_for_cmp c s)).
Proof.
  destruct (walk_new (w := g_bfs) (graph c) (graph c) s) as (l & Hv & Hd & Hl & Hh).
  destruct (propagate_spec l c _ (S (S (length (g_nodes (graph c))))) Hv) as (c' & E & K & W & F); [|done|].
  - pose proof (visit_bound _ _ _ Hd Hl). lia.
  - exists c'. split; [done|]. split; [done|]. split; [intros a b Hb; apply W; by rewrite Hl|].
    intros a Ha. destruct l as [|x r]; [done|]. injection Hh as ->. by eapply F.
Qed.

(** ** Adding edges *)

Lemma set_graph_twice g g' c : set_graph g (set_graph g' c) = set_graph g c.
Proof. done. Qed.
Definition linked (c : ControlFlowGraph) (e : Edge) : ControlFlowGraph :=
  set_graph (g_add_edge (graph c) e.1 e.2 (score_for_cmp c e.2)) c.
(** Only the edge itself is added, and the targets are kept. *)
Record adds (e : Edge) (c c' : ControlFlowGraph) : Prop := mkAdds {
  a_edges : forall x, has (graph c') x <-> x = e \/ has (graph c) x;
  a_targets : targets c' = targets c;
  a_solved : solved_targets c' = solved_targets c;
  a_indirect : indirect_edges c' = indirect_edges c;
  a_magic : magic_bytes c' = magic_bytes c;
  a_callsites : callsite_edges c' = callsite_edges c;
  a_dominators : callsite_dominators c' = callsite_dominators c;
  a_cmps : dominator_cmps c' = dominator_cmps c }.
Lemma linked_adds c e : adds e c (linked c e).
Proof. split; try done. intros x. cbn. rewrite has_add. by destruct e. Qed.
Lemma adds_keeps e c c1 c2 : adds e c c1 -> keeps c1 c2 -> adds e c c2.
Proof. intros [] []. split; [intros x; by rewrite <-(k_edges0 x)|congruence..]. Qed.

Lemma add_edge_run (c : ControlFlowGraph) (src dst : CmpId) :
  exists c', add_edge c (src, dst) = Ok (negb (has_edge c (src, dst)), c') /\ adds (src, dst) c c' /\
    let new := score_for_cmp (linked c (src, dst)) src in
    (score_for_cmp c src <> new -> forall p, has (graph c') (p, src) -> weight c' p src = Some new) /\
    (score_for_cmp c src = new -> c' = linked c (src, dst)) /\
    (forall p x, (p, x) <> (src, dst) -> ~ reach (graph c') src x -> weight c' p x = weight c p x).
Proof.
  pose proof (linked_adds c (src, dst)) as Ha. set (c1 := linked c (src, dst)) in *.
  assert (W1 : forall p x, (p, x) <> (src, dst) -> weight c1 p x = weight c p x).
  { intros p x Hp. unfold weight. cbn. rewrite law_add_edge. by case_decide; [congruence|]. }
  unfold add_edge, handle_new_edge. cbn [fst snd].
  change (set_graph (g_add_edge (graph c) src dst (score_for_cmp c dst)) c) with c1.
  destruct (Z.eqb_spec (score_for_cmp c src) (score_for_cmp c1 src)) as [E|E].
  - exists c1. split; [done|]. split; [done|]. split; [by intros []|]. split; [done|]. intros p x Hp _. by apply W1.
  - set (c2 := set_graph _ c1). assert (K12 : keeps c1 c2).
    { split; try done. intros x. cbn. rewrite !has_add. tauto. }
    assert (W2 : forall p x, weight c2 p x = weight c1 p x).
    { intros p x. unfold weight. cbn. rewrite !law_add_edge. by case_decide. }
    assert (S2 : score_for_cmp c2 src = score_for_cmp c1 src).
    { apply score_ext; [done| |apply W2]. intros x. cbn. apply law_update. right. apply has_add. by left. }
    destruct (propagate_total c2 src) as (c3 & -> & K & W & F). exists c3. split; [done|].
    assert (Ha3 : adds (src, dst) c c3) by (eapply adds_keeps; [done|by etrans]). split; [done|].
    split; [|split; [done|]].
    + intros _ p Hp. rewrite F by (by apply (k_edges _ _ K)). by rewrite S2.
    + intros p x Hp Hx. rewrite W, W2; [by apply W1|]. intros Hr. apply Hx. eapply rtc_subrel; [|exact Hr].
      intros y z Hyz. by apply (k_edges _ _ K).
Qed.

(** C28: adding an edge answers whether it is new and adds it and no other edge.  If the score of
    its source changes, the edges to the source get the new score; the edges to comparisons
    that cannot be reached from the source keep theirs, so that the change goes no further
    back than the direct predecessors. *)
Theorem add_edge_scores (c : ControlFlowGraph) (src dst : CmpId) :
  exists c', add_edge c (src, dst) = Ok (negb (has_edge c (src, dst)), c') /\ adds (src, dst) c c' /\
    let new := score_for_cmp (linked c (src, dst)) src in
    (score_for_cmp c src <> new -> forall p, has (graph c') (p, src) -> weight c' p src = Some new) /\
    (score_for_cmp c src = new -> c' = linked c (src, dst)) /\
    (forall p x, (p, x) <> (src, dst) -> ~ reach (graph c') src x -> weight c' p x = weight c p x).
Proof. apply add_edge_run. Qed.
(** *** Scores that are up to date *)

Record alike (c c' : ControlFlowGraph) : Prop := mkAlike {
  al_keeps : keeps c c';
  al_out : forall y, g_neighbors_out (graph c') y = g_neighbors_out (graph c) y;
  al_weight : forall a b, weight c' a b = weight c a b }.
#[local] Instance alike_preorder : PreOrder alike.
Proof. split; [done|]. intros x y z [] []. split; [by etrans|congruence..]. Qed.


(** ** Targets *)

Lemma add_edges_spec es : forall c, exists c', add_edges es c = Ok c' /\ (forall x, has (graph c') x <-> x ∈ es \/ has (graph c) x) /\
  targets c' = targets c /\ solved_targets c' = solved_targets c.
Proof.
  induction es as [|[a b] es IH]; intros c; cbn [add_edges].
  { exists c. split; [done|]. split; [|done]. intros x. rewrite elem_of_nil. tauto. }
  destruct (add_edge_run c a b) as (c1 & -> & [A1 A2 A3 _ _ _ _ _] & _). cbn.
  destruct (IH c1) as (c2 & E & I1 & I2 & I3). exists c2. split; [exact E|]. split; [|by rewrite I2, I3].
  intros x. rewrite I1, A1, elem_of_cons. tauto.
Qed.
Lemma path_loop_spec l : forall c dfs fuel, w_visits g_dfs (graph c) dfs l -> (length l < fuel)%nat ->
  path_loop fuel dfs c = Ok (existsb (fun x => bool_decide (x ∈ targets c)) l).
Proof.
  induction l as [|x l IH]; intros c dfs fuel Hv Hf; (destruct fuel as [|fuel]; [cbn in Hf; lia|]); cbn [path_loop existsb].
  - by rewrite (walk_done _ _ Hv).
  - destruct (walk_next _ _ _ _ Hv) as (v' & -> & Hv'). case_bool_decide; [done|]. apply IH; [done|cbn in Hf; lia].
Qed.

Lemma has_path_total c cmp : exists b, has_path_to_target c cmp = Ok b /\ (b = true <-> exists t, t ∈ targets c /\ reach (graph c) cmp t).
Proof.
  destruct (walk_new (w := g_dfs) (graph c) (graph c) cmp) as (l & Hv & Hd & Hl & _). eexists.
  split; [apply (path_loop_spec l); [done|]; pose proof (visit_bound _ _ _ Hd Hl); lia|].
  rewrite existsb_exists. split.
  - intros (t & Hin%list_elem_of_In & Htt%bool_decide_eq_true). exists t. split; [done|]. by apply Hl.
  - intros (t & Htt & Hr). exists t. split; [by apply list_elem_of_In, Hl|]. by apply bool_decide_eq_true.
Qed.

(** The search for a target ends, and finds one exactly if one can be reached; the graph it
    runs on has exactly the edges of the file with the targets. *)
Theorem has_path_exact (data : CfgFile) (cmp : CmpId) :
  exists c b, ControlFlowGraph_new data = Ok c /\ (forall e, has_edge c e = true <-> e ∈ f_edges data) /\
    has_path_to_target c cmp = Ok b /\
    (b = true <-> exists t, t ∈ f_targets data /\ rtc (fun x y => (x, y) ∈ f_edges data) cmp t).
Proof.
  unfold ControlFlowGraph_new. set (c0 := mkCfg _ _ _ _ _ _ _ _ _).
  destruct (add_edges_spec (f_edges data) c0) as (c & E & He & Ht & _). exists c.
  assert (He' : forall e, has (graph c) e <-> e ∈ f_edges data).
  { intros e. rewrite He. unfold has. cbn. rewrite law_new. split; [intros [|[? ?]]; done|by left]. }
  destruct (has_path_total c cmp) as (b & Eb & Hb). exists b. split; [done|]. split; [intros e; by rewrite has_edge_iff|].
  split; [done|]. rewrite Hb. rewrite Ht. cbn [c0 targets].
  split; intros (t & Htt & Hr); exists t; (split; [done|]); (eapply rtc_subrel; [|exact Hr]); intros x y; by rewrite He'.
Qed.

(** Removing a target takes it out of the targets, keeps the edges, and leaves it known as a
    target: the answers of [is_target] do not change. *)
Lemma remove_target_keeps (c : ControlFlowGraph) (cmp : CmpId) :
  exists c', remove_target c cmp = Ok c' /\ targets c' = targets c ∖ {[ cmp ]} /\
    (forall x, is_target c' x = is_target c x) /\ (forall e, has_edge c' e = has_edge c e) /\
    (cmp ∈ targets c -> forall p, has_edge c (p, cmp) = true ->
       weight c' p cmp = Some (aggregate_score (edge_scores c cmp []))).
Proof.
  unfold remove_target. case_bool_decide as Hin.
  - set (c1 := mkCfg _ _ _ _ _ _ _ _ _). destruct (propagate_total c1 cmp) as (c2 & -> & K & _ & F). cbn. eexists. split; [done|].
    split; [cbn; by rewrite (k_targets _ _ K)|]. split; [|split].
    + intros x. unfold is_target. cbn [targets solved_targets]. rewrite (k_targets _ _ K), (k_solved _ _ K). cbn [targets solved_targets].
      apply eq_true_iff_eq. rewrite !orb_true_iff, !bool_decide_eq_true. destruct (decide (x = cmp)) as [->|]; set_solver.
    + intros e. apply eq_true_iff_eq. rewrite !has_edge_iff. cbn [graph]. symmetry. apply (k_edges _ _ K).
    + intros _ p Hp%has_edge_iff. unfold weight. cbn [graph]. change (weight c2 p cmp = Some (aggregate_score (edge_scores c cmp []))).
      rewrite F by done. f_equal. unfold score_for_cmp, score_for_cmp_inp. rewrite bool_decide_eq_false_2; [done|]. cbn. set_solver.
  - exists c. split; [done|]. split; [set_solver|done].
Qed.

(** ** Fixed bytes *)

Lemma fix_bytes_spec is_ buf : Forall (fun i => i < length buf)%nat is_ ->
  exists f, fix_bytes is_ buf = Ok f /\ forall i b, (i, b) ∈ f <-> i ∈ is_ /\ buf !! i = Some b.
Proof.
  induction 1 as [|i is_ Hi _ IH]; cbn [fix_bytes].
  { exists []. split; [done|]. intros i b. rewrite !elem_of_nil. tauto. }
  apply lookup_lt_is_Some in Hi as [b Hb]. rewrite Hb. destruct IH as (f & -> & If). eexists. split; [done|].
  intros j d. rewrite !elem_of_cons, If. split; [intros [[= -> ->]|[? ?]]; auto|].
  intros [[->|Hj] Hd]; [left; congruence|by right].
Qed.
Lemma fixed_equal_iff f inp : fixed_equal f inp = true <-> forall i b v, (i, v) ∈ f -> inp !! i = Some b -> b = v.
Proof.
  induction f as [|[i v] f IH]; cbn [fixed_equal].
  { split; [|done]. by intros _ i b v Hi%elem_of_nil. }
  destruct (inp !! i) as [b|] eqn:E; [destruct (Z.eqb_spec b v) as [->|Hne]; cbn [negb]|].
  - rewrite IH. split; [intros Hf j d w [[= -> ->]|Hj]%elem_of_cons Hd; [congruence|by eapply Hf]|intros Hf j d w Hj; apply Hf; by right].
  - split; [done|]. intros Hf. exfalso. apply Hne, (Hf i); [by left|done].
  - rewrite IH. split; [intros Hf j d w [[= -> ->]|Hj]%elem_of_cons Hd; [congruence|by eapply Hf]|intros Hf j d w Hj; apply Hf; by right].
Qed.
(** After an indirect edge was taken on an input, the edge counts for another input exactly if
    both agree on the bytes that lead to the call site, as far as the other input goes. *)
Theorem indirect_edge_counts (c : ControlFlowGraph) (edge : Edge) (cs : CallSiteId) (buf inp : list Z) (offsets : list TagSeg) :
  Forall (fun i => i < length buf)%nat (elements (indices offsets)) ->
  exists c', set_magic_bytes (set_edge_indirect c edge cs) edge buf offsets = Ok c' /\
    (should_count_edge c' edge inp = true <->
     forall i a b, i ∈ indices offsets -> buf !! i = Some a -> inp !! i = Some b -> a = b) /\
    (forall e, e <> edge -> should_count_edge c' e inp = should_count_edge c e inp) /\
    should_count_edge c' edge [] = true.
Proof.
  intros Hb. unfold set_magic_bytes. destruct (fix_bytes_spec _ buf Hb) as (f & -> & Hf). cbn. eexists. split; [done|].
  unfold should_count_edge. cbn [indirect_edges magic_bytes set_edge_indirect]. rewrite bool_decide_eq_true_2 by set_solver. cbn [negb].
  rewrite lookup_insert_eq, !fixed_equal_iff. split; [|split].
  - split.
    + intros Hi i a b Hin Ha Hd. symmetry. apply (Hi i); [|done]. apply Hf. by rewrite elem_of_elements.
    + intros Hi i b v [Hin Hv]%Hf Hd. symmetry. by apply (Hi i); [rewrite elem_of_elements in Hin|..].
  - intros e He. rewrite lookup_insert_ne by done.
    replace (bool_decide (e ∈ {[edge]} ∪ indirect_edges c)) with (bool_decide (e ∈ indirect_edges c)); [done|].
    apply bool_decide_ext. set_solver.
  - by intros i b v _.
Qed.
(** A comparison whose successors all have no score still gets one. *)
Theorem undefined_successors_scored (c : ControlFlowGraph) (cmp : CmpId) :
  cmp ∉ targets c -> edge_scores c cmp [] <> [] -> Forall (fun s => s = UNDEF_SCORE) (edge_scores c cmp []) ->
  score_for_cmp c cmp = u32 (harmonic [] + 1) /\ score_greedy (edge_scores c cmp []) = UNDEF_SCORE.
Proof.
  intros Ht Hne Hu. unfold score_for_cmp, score_for_cmp_inp. rewrite bool_decide_eq_false_2 by done.
  assert (E : filter (fun v => v <> UNDEF_SCORE) (edge_scores c cmp []) = []).
  { induction Hu as [|x l -> _ IH]; [done|]. rewrite filter_cons_False by (by intros []). destruct l; [done|by apply IH]. }
  unfold aggregate_score, score_harmonic_mean, score_greedy. rewrite E. by destruct (edge_scores c cmp []).
Qed.
End Proofs.

(** ** A graph for examples

    Edges with their weights in a list, and a breadth-first traversal. *)

Module ListGraph.
Definition G : Type := list ((Z * Z) * Z).
Fixpoint find (g : G) (e : Z * Z) : option Z :=
  match g with [] => None | (k, w) :: r => if decide (k = e) then Some w else find r e end.
Fixpoint upd (g : G) (e : Z * Z) (w : Z) : G :=
  match g with [] => [(e, w)] | (k, v) :: r => if decide (k = e) then (k, w) :: r else (k, v) :: upd r e w end.
Definition out (g : G) (a : Z) : list Z := remove_dups (snd <$> filter (fun e => e.1 = a) g.*1).
Definition inn (g : G) (b : Z) : list Z := remove_dups (fst <$> filter (fun e => e.2 = b) g.*1).
Definition nodes (g : G) : list Z := (fst <$> g.*1) ++ (snd <$> g.*1).
Definition state : Type := list Z * list Z.
Definition next (v : state) (g : G) : option (Z * state) :=
  match v.1 with
  | [] => None
  | x :: t => let new := filter (fun y => y ∉ v.2) (out g x) in Some (x, (t ++ new, v.2 ++ new))
  end.
Inductive visits (g : G) : state -> list Z -> Prop :=
| visits_done v : next v g = None -> visits g v []
| visits_next v x v' l : next v g = Some (x, v') -> visits g v' l -> visits g v (x :: l).
Definition walker : Walker G := mkWalker G state (fun _ s => ([s], [s])) next visits.

#[export] Instance list_graph : GraphMap := {|
  graph_map := G; g_new := []; g_add_edge g a b w := upd g (a, b) w;
  g_contains_edge g a b := bool_decide (is_Some (find g (a, b)));
  g_edge_weight g a b := find g (a, b);
  g_neighbors_out := out; g_neighbors_in := inn; g_nodes := nodes; g_bfs := walker; g_dfs := walker |}.

Lemma find_keys (g : G) e : is_Some (find g e) <-> e ∈ g.*1.
Proof.
  induction g as [|[k w] g IH]; cbn; [rewrite elem_of_nil; split; [by intros []|done]|].
  rewrite elem_of_cons. case_decide as E; [split; [by left|by eexists]|]. rewrite IH. split; [by right|]. intros [?|]; [congruence|done].
Qed.
Lemma find_upd (g : G) e w e' : find (upd g e w) e' = if decide (e = e') then Some w else find g e'.
Proof.
  induction g as [|[k v] g IH]; cbn; [done|]. destruct (decide (k = e)) as [->|Hk]; cbn; [by case_decide|].
  rewrite IH. destruct (decide (k = e')) as [->|]; [by rewrite decide_False by done|done].
Qed.
Lemma upd_keys (g : G) e w : (upd g e w).*1 = if decide (is_Some (find g e)) then g.*1 else g.*1 ++ [e].
Proof.
  induction g as [|[k v] g IH]; cbn; [done|]. destruct (decide (k = e)) as [->|Hk]; cbn.
  - by rewrite decide_True by eauto.
  - rewrite IH. by case_decide.
Qed.
Lemma out_spec g a : NoDup (out g a) /\ forall b, b ∈ out g a <-> is_Some (find g (a, b)).
Proof.
  split; [apply NoDup_remove_dups|]. intros b. unfold out. rewrite elem_of_remove_dups, list_elem_of_fmap, find_keys. split.
  - intros ([a' b'] & -> & [Ha Hin]%list_elem_of_filter). cbn in *. by subst.
  - intros Hin. exists (a, b). split; [done|]. by apply list_elem_of_filter.
Qed.
Lemma inn_spec g b : NoDup (inn g b) /\ forall a, a ∈ inn g b <-> is_Some (find g (a, b)).
Proof.
  split; [apply NoDup_remove_dups|]. intros a. unfold inn. rewrite elem_of_remove_dups, list_elem_of_fmap, find_keys. split.
  - intros ([a' b'] & -> & [Ha Hin]%list_elem_of_filter). cbn in *. by subst.
  - intros Hin. exists (a, b). split; [done|]. by apply list_elem_of_filter.
Qed.
Lemma out_upd (g : G) a b w x : x <> a \/ is_Some (find g (a, b)) -> out (upd g (a, b) w) x = out g x.
Proof.
  intros Hx. unfold out. rewrite upd_keys. case_decide as E; [done|]. destruct Hx as [Hx|]; [|done].
  rewrite list.filter_app, filter_cons_False by (cbn; congruence). by rewrite filter_nil, app_nil_r.
Qed.

(** *** The traversal *)

Definition edge (g : G) (a b : Z) : Prop := is_Some (find g (a, b)).
(** [done] were visited, [v.1] are to be visited, [v.2] are both. *)
Record walking (g : G) (s : Z) (done : list Z) (v : state) : Prop := mkWalking {
  wk_nodup : NoDup (done ++ v.1);
  wk_seen : forall x, x ∈ v.2 <-> x ∈ done ++ v.1;
  wk_start : s ∈ v.2;
  wk_closed : forall x y, x ∈ done -> edge g x y -> y ∈ v.2;
  wk_reach : forall x, x ∈ v.2 -> rtc (edge g) s x }.
Lemma walking_next g s d v x v' : walking g s d v -> next v g = Some (x, v') -> walking g s (d ++ [x]) v'.
Proof.
  intros [W1 W2 W3 W4 W5]. unfold next. destruct v as [[|y t] seen]; cbn in *; [done|]. intros [= -> <-].
  set (new := filter (fun y => y ∉ seen) (out g x)).
  assert (Hnew : forall y, y ∈ new <-> (y ∉ seen) /\ edge g x y) by (intros y; unfold new; rewrite list_elem_of_filter; by rewrite (proj2 (out_spec g x))).
  assert (Hx : x ∈ seen) by (apply W2; set_solver).
  split; cbn.
  - replace ((d ++ [x]) ++ t ++ new) with ((d ++ x :: t) ++ new) by (by rewrite <-!app_assoc). apply list.NoDup_app. split; [done|]. split.
    + intros y Hy%W2 Hn%Hnew. by destruct Hn.
    + unfold new. apply list.NoDup_filter, out_spec.
  - intros y. rewrite elem_of_app, W2. set_solver.
  - set_solver.
  - intros y z [Hy|Hy%list_elem_of_singleton]%elem_of_app Hz; [apply elem_of_app; left; by eapply W4|]. subst. apply elem_of_app.
    destruct (decide (z ∈ seen)); [by left|right; by apply Hnew].
  - intros y [Hy|Hy%Hnew]%elem_of_app; [by apply W5|]. destruct Hy as [_ Hy]. eapply rtc_r; [by apply W5|done].
Qed.
Lemma walking_bound g s d v : walking g s d v -> (length (d ++ v.1) <= S (length (nodes g)))%nat.
Proof.
  intros [W1 W2 W3 W4 W5]. change (S (length (nodes g))) with (length (s :: nodes g)). apply submseteq_length, NoDup_submseteq; [done|].
  intros x Hx%W2%W5. apply rtc_inv_r in Hx as [->|(y & _ & Hy)]; [by left|]. right. apply find_keys in Hy. unfold nodes.
  apply elem_of_app. right. apply list_elem_of_fmap. by exists (y, x).
Qed.
Lemma walking_visits g s k : forall d v, walking g s d v -> (S (length (nodes g)) <= k + length d)%nat ->
  exists l, visits g v l /\ NoDup (d ++ l) /\ (forall x, x ∈ d ++ l <-> rtc (edge g) s x) /\ (forall y t, v.1 = y :: t -> head l = Some y).
Proof.
  assert (Hdone : forall d v, walking g s d v -> v.1 = [] -> NoDup (d ++ []) /\ forall x, x ∈ d ++ [] <-> rtc (edge g) s x).
  { intros d v [W1 W2 W3 W4 W5] E. rewrite E in *. split; [done|]. intros x. rewrite <-W2. split; [apply W5|].
    intros Hx. revert x Hx. apply (rtc_ind_r (fun x => x ∈ v.2) s); [done|]. intros y z _ Hyz Hy. eapply W4; [|exact Hyz].
    rewrite app_nil_r in W2. by apply W2. }
  induction k as [|k IH]; intros d v Hw Hk; destruct (v.1) as [|x t] eqn:E.
  1,3: exists []; destruct (Hdone d v Hw E); split; [constructor; unfold next; by rewrite E|done].
  - exfalso. pose proof (walking_bound _ _ _ _ Hw) as Hb. rewrite E, length_app in Hb. cbn in Hb. lia.
  - assert (exists v', next v g = Some (x, v')) as [v' En] by (unfold next; rewrite E; by eexists).
    destruct (IH (d ++ [x]) v') as (l & Hl & Hn & Hr & _); [by eapply walking_next|rewrite length_app; cbn; lia|].
    exists (x :: l). rewrite <-app_assoc in Hn, Hr. split; [by econstructor|]. split; [done|]. split; [done|]. by intros y t' [= -> _].
Qed.
Lemma next_keys v (g g' : G) : (forall a, out g' a = out g a) -> next v g' = next v g.
Proof. intros Ho. unfold next. destruct v as [[|x t] seen]; cbn; [done|]. by rewrite Ho. Qed.
Lemma visits_upd g a b w v l : edge g a b -> visits g v l -> visits (upd g (a, b) w) v l.
Proof.
  intros He. assert (Hn : forall v, next v (upd g (a, b) w) = next v g) by (intros; apply next_keys; intros x; apply out_upd; by right).
  induction 1; econstructor; rewrite ?Hn; done.
Qed.
Lemma visits_inv g v x l : visits g v (x :: l) -> exists v', next v g = Some (x, v') /\ visits g v' l.
Proof. intros Hv. inversion Hv; subst. by eexists. Qed.
#[export] Instance walker_spec : WalkerSpec walker.
Proof.
  split.
  - intros g g0 s. destruct (walking_visits g s (S (length (nodes g))) [] ([s], [s])) as (l & Hv & Hn & Hr & Hh); cbn [app length] in *.
    + split; cbn; [apply NoDup_singleton|done|by left|by intros ? ? ?%elem_of_nil|].
      intros x ->%list_elem_of_singleton. done.
    + lia.
    + exists l. split; [done|]. split; [done|]. split; [exact Hr|]. by eapply Hh.
  - intros g v Hv. by inversion Hv.
  - intros g v x l Hv. by apply visits_inv.
  - intros g a b k v l. apply visits_upd.
Qed.
#[export] Instance graph_spec : GraphMapSpec.
Proof.
  split; try exact _.
  - done.
  - intros g a b w a' b'. cbn. rewrite find_upd. done.
  - intros g a b w x. apply out_upd.
  - intros g a b. cbn. by rewrite bool_decide_eq_true.
  - apply out_spec.
  - apply inn_spec.
  - intros g a b He. apply find_keys in He. unfold g_nodes, list_graph, nodes. rewrite !elem_of_app, !list_elem_of_fmap.
    split; [left|right]; by exists (a, b).
Qed.
End ListGraph.

(** ** Examples *)

Module CfgEx.
Import ListGraph.
(** The mean of a single number is the number; the mean of none is not a number, which is zero as
    an integer. *)
#[export] Instance mean : Mean := {| harmonic l := match l with [] => 0 | v :: _ => v end |}.
Definition data (es : list Edge) : CfgFile := mkCfgFile {[ 4 ]} es ∅.
(** Comparisons in a row before a target.  If the edges are added towards the target, the last
    one changes the score of comparison 3, which reaches the edge from 2, but not the edge
    from 1: it keeps the score that 2 had without any successor. *)
Lemma far_edges_stay_behind :
  exists c, ControlFlowGraph_new (data [(1, 2); (2, 3); (3, 4)]) = Ok c /\
    weight c 3 4 = Some 0 /\ weight c 2 3 = Some 1 /\ weight c 1 2 = Some 1.
Proof. eexists. split; [by vm_compute|]. by repeat split; vm_compute. Qed.
(** The same edges in the other order: every edge has the distance to the target. *)
Lemma far_edges_in_order :
  exists c, ControlFlowGraph_new (data [(3, 4); (2, 3); (1, 2)]) = Ok c /\
    weight c 3 4 = Some 0 /\ weight c 2 3 = Some 1 /\ weight c 1 2 = Some 2.
Proof. eexists. split; [by vm_compute|]. by repeat split; vm_compute. Qed.
Definition c0 : ControlFlowGraph := mkCfg _ [((3, 4), 0)] {[ 4 ]} ∅ ∅ ∅ ∅ ∅ ∅.

Lemma add_edge_scores_witness :
  exists c', add_edge c0 (2, 3) = Ok (true, c') /\ weight c' 3 4 = Some 0.
Proof.
  destruct (add_edge_scores c0 2 3) as (c' & E & _ & _ & _ & W). exists c'. split; [exact E|].
  assert (E' : add_edge c0 (2, 3) = Ok (true, c')) by exact E. vm_compute in E'. injection E' as <-. by vm_compute.
Defined.
Lemma indirect_edge_counts_witness : exists c', set_magic_bytes (set_edge_indirect c0 (3, 4) 9) (3, 4) [5; 6; 7] [mkSeg false 1 3] = Ok c' /\
  should_count_edge c' (3, 4) [] = true.
Proof.
  destruct (indirect_edge_counts c0 (3, 4) 9 [5; 6; 7] [] [mkSeg false 1 3]) as (c' & E & _ & _ & U).
  - apply (bool_decide_eq_true_1 _). by vm_compute.
  - by exists c'.
Defined.
Lemma remove_target_keeps_witness : exists c', remove_target c0 4 = Ok c' /\ is_target c' 4 = true /\ targets c' = ∅.
Proof.
  destruct (remove_target_keeps c0 4) as (c' & E & T & I & _). exists c'. split; [exact E|]. split; [by rewrite I|]. rewrite T. by vm_compute.
Defined.
Lemma has_path_exact_witness : exists c b, ControlFlowGraph_new (data [(1, 2); (2, 3); (3, 4)]) = Ok c /\ has_path_to_target c 1 = Ok b /\ b = true.
Proof.
  destruct (has_path_exact (data [(1, 2); (2, 3); (3, 4)]) 1) as (c & b & E & _ & P & B). exists c, b. split; [exact E|]. split; [exact P|].
  apply B. exists 4. split; [apply (bool_decide_eq_true_1 _); by vm_compute|].
  apply (rtc_l _ 1 2 4); [|apply (rtc_l _ 2 3 4); [|apply (rtc_l _ 3 4 4); [|done]]]; apply (bool_decide_eq_true_1 _); by vm_compute.
Defined.
End CfgEx.
