(* ===== verification/FuzzBranches.v ===== *)
(** * Coverage

    [fuzzer/src/branches.rs]: the counters of a run, in shared memory, are compared with
    everything that earlier runs have covered.  A counter falls into one of eight buckets; the
    global maps have a bit for each bucket of each edge, which is set until a run reaches it. *)

From S2P Require Import Prelude FuzzInput FuzzCfg.
Local Open Scope Z_scope.

(** ** Buckets *)

Definition COUNT_LOOKUP : list Z :=
  [
   0; 1; 2; 4; 8; 8; 8; 8; 16; 16; 16; 16; 16; 16; 16; 16; 32; 32; 32; 32; 32; 32; 32; 32; 32; 32; 32; 32; 32; 32; 32; 32;
   64; 64; 64; 64; 64; 64; 64; 64; 64; 64; 64; 64; 64; 64; 64; 64; 64; 64; 64; 64; 64; 64; 64; 64; 64; 64; 64; 64; 64; 64; 64; 64;
   64; 64; 64; 64; 64; 64; 64; 64; 64; 64; 64; 64; 64; 64; 64; 64; 64; 64; 64; 64; 64; 64; 64; 64; 64; 64; 64; 64; 64; 64; 64; 64;
   64; 64; 64; 64; 64; 64; 64; 64; 64; 64; 64; 64; 64; 64; 64; 64; 64; 64; 64; 64; 64; 64; 64; 64; 64; 64; 64; 64; 64; 64; 64; 64;
   128; 128; 128; 128; 128; 128; 128; 128; 128; 128; 128; 128; 128; 128; 128; 128; 128; 128; 128; 128; 128; 128; 128; 128; 128; 128; 128; 128; 128; 128; 128; 128;
   128; 128; 128; 128; 128; 128; 128; 128; 128; 128; 128; 128; 128; 128; 128; 128; 128; 128; 128; 128; 128; 128; 128; 128; 128; 128; 128; 128; 128; 128; 128; 128;
   128; 128; 128; 128; 128; 128; 128; 128; 128; 128; 128; 128; 128; 128; 128; 128; 128; 128; 128; 128; 128; 128; 128; 128; 128; 128; 128; 128; 128; 128; 128; 128;
   128; 128; 128; 128; 128; 128; 128; 128; 128; 128; 128; 128; 128; 128; 128; 128; 128; 128; 128; 128; 128; 128; 128; 128; 128; 128; 128; 128; 128; 128; 128; 128 ].
Definition count_lookup (v : Z) : Z := nth (Z.to_nat v) COUNT_LOOKUP 0.

(** ** The maps *)

Definition BRANCHES_SIZE : Z := Z.shiftl 1 20.
Definition ENTRY_SIZE : nat := 8.
Inductive StatusType := Normal | Timeout | Crash | Skip | Error.
#[export] Instance status_eq_dec : EqDecision StatusType.
Proof. solve_decision. Defined.

Record GlobalBranches `{GraphMap} := mkGlobal {
  virgin_branches : list Z; tmouts_branches : list Z; crashes_branches : list Z; density : Z; cfg : ControlFlowGraph }.
Definition full_map : list Z := replicate (Z.to_nat BRANCHES_SIZE) 255.
Definition GlobalBranches_new `{GraphMap} (c : ControlFlowGraph) : GlobalBranches :=
  mkGlobal _ full_map full_map full_map 0 c.

(** ** A run *)

(** The bytes of a word that is not zero, from index [idx] on. *)
Fixpoint run_loop (idx : nat) (buf : list Z) : list (nat * Z) :=
  match buf with
  | [] => []
  | v :: r => if 0 <? v then (idx, count_lookup v) :: run_loop (S idx) r else run_loop (S idx) r
  end.
(** The words of the trace, of eight bytes each. *)
Fixpoint words_loop (n base : nat) (buf : list Z) : list (nat * Z) :=
  match n with
  | O => []
  | S k =>
      (if 0 <? le_val (take ENTRY_SIZE buf) then run_loop base (take ENTRY_SIZE buf) else [])
      ++ words_loop k (base + ENTRY_SIZE) (drop ENTRY_SIZE buf)
  end.
Definition get_path (trace : list Z) : list (nat * Z) := words_loop (length trace / ENTRY_SIZE) 0 trace.

Section HasNew.
Context `{GraphMap}.

(** The loop that only reads: the number of new edges, and what is to be written. *)
Fixpoint read_loop (path : list (nat * Z)) (gb_map : list Z) : res (nat * list (nat * Z)) :=
  match path with
  | [] => Ok (0%nat, [])
  | br :: r =>
      match gb_map !! br.1 with
      | Some gb_v =>
          res_bind (read_loop r gb_map) (fun x =>
            Ok (((if (gb_v =? 255)%Z then 1 else 0) + x.1)%nat,
                if 0 <? Z.land br.2 gb_v then (br.1, Z.land gb_v (u8 (Z.lnot br.2))) :: x.2 else x.2))
      | None => Fault Panicked
      end
  end.
Definition write_loop (to_write : list (nat * Z)) (gb_map : list Z) : list Z :=
  fold_left (fun m br => <[ br.1 := br.2 ]> m) to_write gb_map.
Fixpoint directed_loop (to_write : list (nat * Z)) (c : ControlFlowGraph) : res bool :=
  match to_write with
  | [] => Ok false
  | br :: r => res_bind (has_path_to_target c (u32 (Z.of_nat br.1))) (fun b => if b : bool then Ok true else directed_loop r c)
  end.
Definition gb_map (status : StatusType) (g : GlobalBranches) : option (list Z) :=
  match status with
  | Normal => Some (virgin_branches g)
  | Timeout => Some (tmouts_branches g)
  | Crash => Some (crashes_branches g)
  | _ => None
  end.
Definition set_gb_map (status : StatusType) (l : list Z) (g : GlobalBranches) : GlobalBranches :=
  match status with
  | Normal => mkGlobal _ l (tmouts_branches g) (crashes_branches g) (density g) (cfg g)
  | Timeout => mkGlobal _ (virgin_branches g) l (crashes_branches g) (density g) (cfg g)
  | Crash => mkGlobal _ (virgin_branches g) (tmouts_branches g) l (density g) (cfg g)
  | _ => g
  end.
Definition add_density (n : nat) (g : GlobalBranches) : GlobalBranches :=
  mkGlobal _ (virgin_branches g) (tmouts_branches g) (crashes_branches g) (u64 (density g + Z.of_nat n)) (cfg g).
Definition has_new (trace : list Z) (status : StatusType) (directed : bool) (g : GlobalBranches)
  : res ((bool * bool * nat) * GlobalBranches) :=
  match gb_map status g with
  | None => Ok ((false, false, 0%nat), g)
  | Some m =>
      let path := get_path trace in
      let edge_num := length path in
      res_bind (read_loop path m) (fun x =>
      let num_new_edge := x.1 in
      let to_write := x.2 in
      let g := if (0 <? num_new_edge)%nat && bool_decide (status = Normal) then add_density num_new_edge g else g in
      let has_new_edge := (0 <? num_new_edge)%nat in
      match to_write with
      | [] => Ok ((false, false, edge_num), g)
      | _ =>
          let g := set_gb_map status (write_loop to_write m) g in
          res_bind (directed_loop to_write (cfg g)) (fun has_new_directed_edge =>
          Ok ((if negb directed then true else has_new_directed_edge, has_new_edge, edge_num), g))
      end)
  end.
End HasNew.

(** ** Buckets and paths *)

(** The buckets of the comment: 1, 2, 3, 4 to 7, 8 to 15, 16 to 31, 32 to 127, and more. *)
Definition bucket (v : Z) : Z :=
  if v <=? 0 then 0 else if v <=? 1 then 1 else if v <=? 2 then 2 else if v <=? 3 then 4 else if v <=? 7 then 8
  else if v <=? 15 then 16 else if v <=? 31 then 32 else if v <=? 127 then 64 else 128.
Definition is_bucket (b : Z) : bool := existsb (Z.eqb b) [1; 2; 4; 8; 16; 32; 64; 128].
Lemma count_lookup_bucket v : 0 <= v < 256 -> count_lookup v = bucket v.
Proof.
  intros Hv. assert (E : forallb (fun n => count_lookup (Z.of_nat n) =? bucket (Z.of_nat n)) (seq 0 256) = true) by (by vm_compute).
  rewrite forallb_forall in E. specialize (E (Z.to_nat v)). rewrite in_seq in E. apply Z.eqb_eq. rewrite <-(Z2Nat.id v) by lia. apply E. lia.
Qed.
Lemma count_lookup_is_bucket v : 0 < v < 256 -> is_bucket (count_lookup v) = true.
Proof.
  intros Hv. assert (E : forallb (fun n => is_bucket (count_lookup (Z.of_nat n))) (seq 1 255) = true) by (by vm_compute).
  rewrite forallb_forall in E. specialize (E (Z.to_nat v)). rewrite in_seq in E. rewrite <-(Z2Nat.id v) by lia. apply E. lia.
Qed.
Lemma run_loop_app l1 : forall idx l2, run_loop idx (l1 ++ l2) = run_loop idx l1 ++ run_loop (idx + length l1) l2.
Proof.
  induction l1 as [|v l1 IH]; intros idx l2; cbn; [by rewrite Nat.add_0_r|]. rewrite IH, Nat.add_succ_r. by destruct (0 <? v).
Qed.
Lemma zero_word l : Forall is_byte l -> le_val l = 0 -> forall idx, run_loop idx l = [].
Proof.
  induction 1 as [|v l Hv Hl IH]; intros E idx; [done|]. cbn in *. unfold is_byte in Hv. pose proof (le_val_range l Hl).
  assert (v = 0) as -> by lia. apply IH. lia.
Qed.
Lemma words_loop_spec n : forall base l, Forall is_byte l -> length l = (n * ENTRY_SIZE)%nat -> words_loop n base l = run_loop base l.
Proof.
  unfold ENTRY_SIZE. induction n as [|n IH]; intros base l Hb Hl; [by apply nil_length_inv in Hl as ->|]. cbn [words_loop]. unfold ENTRY_SIZE.
  rewrite IH; [|by apply Forall_drop|rewrite length_drop; lia].
  transitivity (run_loop base (take 8 l ++ drop 8 l)); [|by rewrite take_drop]. rewrite run_loop_app, length_take, Nat.min_l by lia.
  f_equal. destruct (Z.ltb_spec 0 (le_val (take 8 l))) as [|Hz]; [done|]. symmetry. apply zero_word; [by apply Forall_take|].
  pose proof (le_val_range (take 8 l) (Forall_take _ _ _ Hb)). unfold ENTRY_SIZE in *. lia.
Qed.
(** The trace of a run: as many bytes as the maps have, in whole words. *)
Record is_trace (n : nat) (trace : list Z) : Prop := mkTrace {
  t_bytes : Forall is_byte trace; t_length : length trace = n; t_words : exists k, n = (k * ENTRY_SIZE)%nat }.
(** Skipping the words that are zero changes nothing. *)
Lemma get_path_spec n trace : is_trace n trace -> get_path trace = run_loop 0 trace.
Proof.
  intros [Hb Hl [k Hk]]. unfold get_path. apply words_loop_spec; [done|]. rewrite Hl, Hk, Nat.div_mul; [done|]. unfold ENTRY_SIZE. lia.
Qed.
Lemma run_loop_elem l : forall idx i b, (i, b) ∈ run_loop idx l <-> exists v, (idx <= i)%nat /\ l !! (i - idx)%nat = Some v /\ 0 < v /\ b = count_lookup v.
Proof.
  induction l as [|v l IH]; intros idx i b; cbn [run_loop].
  { rewrite elem_of_nil. split; [done|]. by intros (? & _ & ? & _). }
  assert (Hs : (i, b) ∈ run_loop (S idx) l <-> exists w, (S idx <= i)%nat /\ (v :: l) !! (i - idx)%nat = Some w /\ 0 < w /\ b = count_lookup w).
  { rewrite IH. split; intros (w & Hi & E & Hw); exists w; (split; [done|]).
    - replace (i - idx)%nat with (S (i - S idx)) by lia. done.
    - replace (i - idx)%nat with (S (i - S idx)) in E by lia. done. }
  assert (Hh : forall w, (idx <= i)%nat -> (v :: l) !! (i - idx)%nat = Some w -> i = idx /\ w = v \/ (S idx <= i)%nat).
  { intros w Hi E. destruct (decide (i = idx)) as [->|]; [|right; lia]. rewrite Nat.sub_diag in E. injection E as ->. by left. }
  destruct (Z.ltb_spec 0 v) as [Hv|Hv]; [rewrite elem_of_cons|]; rewrite Hs; split.
  - intros [[= -> ->]|(w & Hi & E & Hw)]; [exists v; rewrite Nat.sub_diag; auto|exists w; split; [lia|done]].
  - intros (w & Hi & E & Hw & ->). destruct (Hh w Hi E) as [[-> ->]|]; [by left|right; eauto].
  - intros (w & Hi & E & Hw). exists w. split; [lia|done].
  - intros (w & Hi & E & Hw & ->). destruct (Hh w Hi E) as [[-> ->]|]; [lia|eauto].
Qed.
Lemma run_loop_nodup l : forall idx, NoDup (run_loop idx l).*1.
Proof.
  induction l as [|v l IH]; intros idx; cbn; [constructor|]. destruct (0 <? v); [|done]. cbn. constructor; [|done].
  intros ([i b] & -> & Hi)%list_elem_of_fmap. apply run_loop_elem in Hi as (w & Hi & _). cbn in Hi. lia.
Qed.

(** ** What a run adds *)

(** A bucket of an edge that an earlier run reached. *)
Definition covered (m : list Z) (i : nat) (b : Z) : Prop := exists v, m !! i = Some v /\ Z.land b v = 0.
(** The buckets of the edges of a run. *)
Definition hits (trace : list Z) (i : nat) (b : Z) : Prop := exists v, trace !! i = Some v /\ 0 < v /\ b = bucket v.

(** A byte of a map after a hit. *)
Definition clear_bit (v b : Z) : Z := Z.land v (u8 (Z.lnot b)).
Definition byte_ok (v b : Z) : bool :=
  let v' := clear_bit v b in
  (0 <=? v') && (v' <? 256) && (Z.land b v' =? 0) && negb (v' =? 255)
  && (if Z.land b v =? 0 then v' =? v else 0 <? Z.land b v)
  && implb (v =? 255) (0 <? Z.land b v)
  && forallb (fun b' => (b' =? b) || (Z.land b' v' =? Z.land b' v)) [1; 2; 4; 8; 16; 32; 64; 128].
Lemma byte_facts v b : is_byte v -> is_bucket b = true -> byte_ok v b = true.
Proof.
  intros Hv Hb. assert (E : forallb (fun n => forallb (byte_ok (Z.of_nat n)) [1; 2; 4; 8; 16; 32; 64; 128]) (seq 0 256) = true) by (by vm_compute).
  unfold is_bucket in Hb. apply existsb_exists in Hb as (b' & Hin & ->%Z.eqb_eq). unfold is_byte in Hv.
  rewrite forallb_forall in E. specialize (E (Z.to_nat v)). rewrite in_seq, Z2Nat.id in E by lia. specialize (E ltac:(lia)).
  rewrite forallb_forall in E. by apply E.
Qed.
Lemma clear_facts v b : is_byte v -> is_bucket b = true ->
  is_byte (clear_bit v b) /\ Z.land b (clear_bit v b) = 0 /\ clear_bit v b <> 255 /\
  (Z.land b v = 0 -> clear_bit v b = v) /\ (Z.land b v <> 0 -> 0 < Z.land b v) /\ (v = 255 -> 0 < Z.land b v) /\
  (forall b', is_bucket b' = true -> b' <> b -> Z.land b' (clear_bit v b) = Z.land b' v).
Proof.
  intros Hv Hb. pose proof (byte_facts v b Hv Hb) as E. unfold byte_ok in E. cbv zeta in E.
  rewrite !andb_true_iff, negb_true_iff, Z.leb_le, Z.ltb_lt, Z.eqb_eq, Z.eqb_neq in E. destruct E as ((((((E1 & E2) & E3) & E4) & E5) & E6) & E7).
  split; [done|]. split; [done|]. split; [done|]. split; [|split; [|split]].
  - intros Hz. rewrite Hz in E5. cbn in E5. by apply Z.eqb_eq.
  - intros Hz. rewrite (proj2 (Z.eqb_neq _ _) Hz) in E5. by apply Z.ltb_lt.
  - intros ->. apply Z.ltb_lt. exact E6.
  - intros b' Hb' Hne. rewrite forallb_forall in E7. unfold is_bucket in Hb'. apply existsb_exists in Hb' as (b'' & Hin & ->%Z.eqb_eq).
    specialize (E7 b'' Hin). apply orb_true_iff in E7 as [E7%Z.eqb_eq|E7%Z.eqb_eq]; done.
Qed.

(** The loops, as functions of the bytes of the map and of the trace. *)
Definition after (v t : Z) : Z := if 0 <? t then clear_bit v (count_lookup t) else v.
Fixpoint new_edges (m t : list Z) : nat :=
  match m, t with v :: m, x :: t => ((if ((0 <? x) && (v =? 255))%Z then 1 else 0) + new_edges m t)%nat | _, _ => 0%nat end.
Fixpoint changes (idx : nat) (m t : list Z) : list (nat * Z) :=
  match m, t with
  | v :: m, x :: t =>
      if (0 <? x) && (0 <? Z.land (count_lookup x) v) then (idx, clear_bit v (count_lookup x)) :: changes (S idx) m t
      else changes (S idx) m t
  | _, _ => []
  end.
Section Spec.
Context `{GraphMapSpec}.
Lemma read_loop_spec t : forall idx m, (idx + length t <= length m)%nat ->
  read_loop (run_loop idx t) m = Ok (new_edges (drop idx m) t, changes idx (drop idx m) t).
Proof.
  induction t as [|x t IH]; intros idx m Hl; cbn [run_loop].
  { by destruct (drop idx m). }
  cbn in Hl. destruct (lookup_lt_is_Some_2 m idx ltac:(lia)) as [v Hv]. rewrite (drop_S m v idx Hv). cbn [new_edges changes].
  specialize (IH (S idx) m ltac:(lia)). destruct (Z.ltb_spec 0 x) as [Hx|Hx]; cbn [andb]; [|exact IH].
  cbn [read_loop fst snd]. rewrite Hv, IH. cbn [res_bind fst snd]. reflexivity.
Qed.
Lemma changes_ge t : forall idx m i w, (i, w) ∈ changes idx m t -> (idx <= i)%nat.
Proof.
  induction t as [|x t IH]; intros idx [|v m] i w; cbn [changes]; try (by rewrite elem_of_nil). destruct (_ && _).
  - rewrite elem_of_cons. intros [[= -> _]|Hi%IH]; lia.
  - intros Hi%IH. lia.
Qed.
Lemma write_loop_app l1 m l : Forall (fun br => (length l1 <= br.1)%nat) l ->
  write_loop l (l1 ++ m) = l1 ++ write_loop ((fun br => ((br.1 - length l1)%nat, br.2)) <$> l) m.
Proof.
  unfold write_loop. revert m. induction l as [|[i w] l IH]; intros m Hl; [done|]. inversion Hl; subst. cbn in *. rewrite insert_app_r_alt by done. by apply IH.
Qed.
Lemma changes_shift k t : forall idx m, changes (idx + k) m t = (fun br => ((br.1 + k)%nat, br.2)) <$> changes idx m t.
Proof.
  induction t as [|x t IH]; intros idx [|v m]; cbn [changes]; try done. rewrite <-Nat.add_succ_l, IH. by destruct (_ && _).
Qed.
Lemma write_cons m t y M : write_loop (changes 1 m t) (y :: M) = y :: write_loop (changes 0 m t) M.
Proof.
  change (y :: M) with ([y] ++ M). rewrite write_loop_app.
  - change 1%nat with (0 + 1)%nat. rewrite changes_shift, <-list_fmap_compose. cbn [app length]. do 2 f_equal.
    etrans; [|apply list_fmap_id]. apply list_fmap_ext. intros j [k w] _. cbn. f_equal. lia.
  - apply Forall_forall. intros [j w] Hj%list_elem_of_In%changes_ge. done.
Qed.
Lemma write_loop_spec m : forall t, Forall is_byte m -> Forall is_byte t -> length t = length m ->
  write_loop (changes 0 m t) m = zip_with after m t.
Proof.
  induction m as [|v m IH]; intros [|x t] Hm Ht Hl; try done. inversion Hm; inversion Ht; subst. cbn [changes zip_with]. injection Hl as Hl.
  unfold after at 1. unfold is_byte in *. destruct (Z.ltb_spec 0 x) as [Hx|Hx]; cbn [andb]; [|by rewrite write_cons, IH].
  destruct (clear_facts v (count_lookup x)) as (_ & _ & _ & C & D & _); [done|apply count_lookup_is_bucket; lia|].
  destruct (Z.ltb_spec 0 (Z.land (count_lookup x) v)) as [Hf|Hf].
  - transitivity (write_loop (changes 1 m t) (clear_bit v (count_lookup x) :: m)); [done|]. by rewrite write_cons, IH.
  - rewrite write_cons, IH by done. rewrite C; [done|]. destruct (Z.eq_dec (Z.land (count_lookup x) v) 0) as [|Hne]; [done|]. specialize (D Hne). lia.
Qed.
(** The number of edges that were reached. *)
Definition reached (m : list Z) : nat := length (filter (fun v => v <> 255) m).
Lemma reached_after m : forall t, Forall is_byte m -> Forall is_byte t -> length t = length m ->
  reached (zip_with after m t) = (reached m + new_edges m t)%nat.
Proof.
  unfold reached. induction m as [|v m IH]; intros [|x t] Hm Ht Hl; try done. inversion Hm; inversion Ht; subst. injection Hl as Hl.
  cbn [zip_with new_edges]. unfold is_byte in *. unfold after at 1. specialize (IH t ltac:(done) ltac:(done) Hl).
  destruct (Z.ltb_spec 0 x) as [Hx|Hx]; cbn [andb].
  - destruct (clear_facts v (count_lookup x)) as (_ & _ & N & _); [done|apply count_lookup_is_bucket; lia|].
    rewrite (filter_cons_True _ (clear_bit v _)) by done. cbn [length]. rewrite IH.
    destruct (Z.eqb_spec v 255) as [->|Hv]; [rewrite (filter_cons_False _ 255) by (by intros [])|rewrite (filter_cons_True _ v) by done; cbn]; lia.
  - destruct (decide (v <> 255)); [rewrite !filter_cons_True by done; cbn|rewrite !filter_cons_False by done]; lia.
Qed.
Lemma new_edges_pos m : forall t, (0 <? new_edges m t)%nat = true <-> exists i x, t !! i = Some x /\ 0 < x /\ m !! i = Some 255.
Proof.
  induction m as [|v m IH]; intros [|x t]; cbn [new_edges]; try (split; [done|by intros ([|i] & y & ? & _ & ?)]).
  rewrite Nat.ltb_lt. destruct ((0 <? x) && (v =? 255)) eqn:E.
  - split; [|lia]. intros _. exists 0%nat, x. apply andb_true_iff in E as [E1%Z.ltb_lt ->%Z.eqb_eq]. done.
  - cbn [Nat.add]. rewrite <-Nat.ltb_lt, IH. split.
    + intros (i & y & E1 & E2). by exists (S i), y.
    + intros ([|i] & y & E1 & E2 & E3); [|by exists i, y]. cbn in *. injection E1 as ->. injection E3 as ->.
      rewrite (proj2 (Z.ltb_lt 0 y) E2) in E. done.
Qed.
Lemma changes_elem m : forall t idx i w, (i, w) ∈ changes idx m t ->
  exists v x, (idx <= i)%nat /\ m !! (i - idx)%nat = Some v /\ t !! (i - idx)%nat = Some x /\ 0 < x /\ 0 < Z.land (count_lookup x) v.
Proof.
  induction m as [|v m IH]; intros [|x t] idx i w; cbn [changes]; try (by rewrite elem_of_nil).
  assert (Hn : (i, w) ∈ changes (S idx) m t -> exists v0 x0, (idx <= i)%nat /\ (v :: m) !! (i - idx)%nat = Some v0 /\ (x :: t) !! (i - idx)%nat = Some x0 /\ 0 < x0 /\ 0 < Z.land (count_lookup x0) v0).
  { intros (v0 & x0 & Hi & E)%IH. exists v0, x0. replace (i - idx)%nat with (S (i - S idx)) by lia. split; [lia|done]. }
  destruct ((0 <? x) && _) eqn:E; [|done]. rewrite elem_of_cons. intros [[= -> ->]|]; [|by apply Hn].
  apply andb_true_iff in E as [E1%Z.ltb_lt E2%Z.ltb_lt]. exists v, x. rewrite Nat.sub_diag. done.
Qed.
Lemma changes_elem_2 m : forall t idx i v x, m !! i = Some v -> t !! i = Some x -> 0 < x -> 0 < Z.land (count_lookup x) v ->
  ((idx + i)%nat, clear_bit v (count_lookup x)) ∈ changes idx m t.
Proof.
  induction m as [|v0 m IH]; intros [|x0 t] idx [|i] v x E1 E2 H1 H2; try done; cbn in E1, E2; cbn [changes].
  - injection E1 as ->. injection E2 as ->. rewrite !(proj2 (Z.ltb_lt _ _)) by done. cbn. rewrite Nat.add_0_r. by left.
  - rewrite Nat.add_succ_r, <-Nat.add_succ_l. destruct (_ && _); [right|]; by apply IH.
Qed.

Definition map_ok (n : nat) (m : list Z) : Prop := Forall is_byte m /\ length m = n.
Section Run.
Context (n : nat) (trace m : list Z) (Ht : is_trace n trace) (Hm : map_ok n m).
Lemma byte_at l i v : Forall is_byte l -> l !! i = Some v -> is_byte v.
Proof. intros Hl Hi. rewrite Forall_forall in Hl. apply Hl, list_elem_of_In. by eapply list_elem_of_lookup_2. Qed.
Lemma hits_lookup i b : hits trace i b <-> exists x, trace !! i = Some x /\ 0 < x /\ b = count_lookup x.
Proof.
  unfold hits. split; intros (x & E & Hx & ->); exists x; (split; [done|]); (split; [done|]);
    rewrite count_lookup_bucket; try done; by apply (byte_at trace i), E; apply Ht.
Qed.
Lemma hits_bucket i b : hits trace i b -> is_bucket b = true.
Proof.
  intros (x & E & Hx & ->)%hits_lookup. apply count_lookup_is_bucket. pose proof (byte_at _ _ _ (t_bytes _ _ Ht) E) as Hb. unfold is_byte in Hb. lia.
Qed.
Lemma changes_hits i : (exists w, (i, w) ∈ changes 0 m trace) <-> exists b, hits trace i b /\ ~ covered m i b.
Proof.
  destruct Hm as [Hb Hl]. split.
  - intros (w & (v & x & _ & E1 & E2 & Hx & Hf)%changes_elem). rewrite Nat.sub_0_r in *. exists (count_lookup x). split; [apply hits_lookup; eauto|].
    intros (v' & E & Hz). rewrite E in E1. injection E1 as ->. lia.
  - intros (b & Hh & Hc). pose proof (hits_bucket _ _ Hh) as Hk. apply hits_lookup in Hh as (x & E & Hx & ->).
    destruct (lookup_lt_is_Some_2 m i) as [v Hv]; [rewrite Hl, <-(t_length _ _ Ht); by eapply lookup_lt_Some|].
    exists (clear_bit v (count_lookup x)). apply (changes_elem_2 m trace 0 i v x); [done|done|done|].
    destruct (clear_facts v (count_lookup x) (byte_at _ _ _ Hb Hv) Hk) as (_ & _ & _ & _ & D & _). apply D. intros Hz. apply Hc. by exists v.
Qed.
Lemma after_covered i b : is_bucket b = true -> covered (zip_with after m trace) i b <-> covered m i b \/ hits trace i b.
Proof.
  intros Hb. destruct Hm as [Hmb Hml]. rewrite hits_lookup. unfold covered. split.
  - intros (w & (v & x & -> & Ev & Ex)%lookup_zip_with_Some & Hz). unfold after in Hz.
    destruct (Z.ltb_spec 0 x) as [Hx|Hx]; [|left; eauto]. destruct (Z.eq_dec b (count_lookup x)) as [->|Hne]; [right; eauto|]. left. exists v. split; [done|].
    destruct (clear_facts v (count_lookup x)) as (_ & _ & _ & _ & _ & _ & O); [by eapply byte_at|eapply hits_bucket, hits_lookup; eauto|].
    by rewrite O in Hz.
  - assert (Hlen : forall j, is_Some (m !! j) <-> is_Some (trace !! j)) by (intros j; rewrite !lookup_lt_is_Some, Hml, (t_length _ _ Ht); done).
    intros [(v & Ev & Hz)|(x & Ex & Hx & ->)].
    + destruct (proj1 (Hlen i) ltac:(by eexists)) as [x Ex]. exists (after v x). split; [apply lookup_zip_with_Some; eauto|]. unfold after.
      destruct (Z.ltb_spec 0 x) as [Hx|]; [|done].
      destruct (clear_facts v (count_lookup x)) as (_ & C0 & _ & _ & _ & _ & O); [by eapply byte_at|eapply hits_bucket, hits_lookup; eauto|].
      destruct (Z.eq_dec b (count_lookup x)) as [->|]; [done|]. by rewrite O.
    + destruct (proj2 (Hlen i) ltac:(by eexists)) as [v Ev]. exists (after v x). split; [apply lookup_zip_with_Some; eauto|]. unfold after.
      rewrite (proj2 (Z.ltb_lt 0 x)) by done.
      by destruct (clear_facts v (count_lookup x)) as (_ & C0 & _); [by eapply byte_at|eapply hits_bucket, hits_lookup; eauto|].
Qed.
Lemma after_ok : map_ok n (zip_with after m trace).
Proof.
  destruct Hm as [Hb Hl]. split; [|rewrite length_zip_with, Hl, (t_length _ _ Ht); lia].
  apply Forall_forall. intros w Hw%list_elem_of_In. apply list_elem_of_lookup in Hw as (i & (v & x & -> & Ev & Ex)%lookup_zip_with_Some).
  unfold after. destruct (Z.ltb_spec 0 x) as [Hx|]; [|by eapply byte_at].
  by destruct (clear_facts v (count_lookup x)) as (B & _); [by eapply byte_at|eapply hits_bucket, hits_lookup; eauto|].
Qed.
End Run.
Lemma directed_loop_spec l c : exists b, directed_loop l c = Ok b /\
  (b = true <-> exists i w, (i, w) ∈ l /\ has_path_to_target c (u32 (Z.of_nat i)) = Ok true).
Proof.
  induction l as [|[i w] l IH]; cbn [directed_loop].
  { exists false. split; [done|]. split; [done|]. by intros (i & w & Hi%elem_of_nil & _). }
  destruct (has_path_total c (u32 (Z.of_nat i))) as (b & E & _). cbn [fst]. rewrite E. cbn [res_bind]. destruct b.
  - exists true. split; [done|]. split; [|done]. intros _. exists i, w. split; [by left|done].
  - destruct IH as (b & -> & IH). exists b. split; [done|]. rewrite IH. split; intros (j & v & Hj & Hp); exists j, v; (split; [|done]).
    + by right.
    + apply elem_of_cons in Hj as [[= -> ->]|]; [congruence|done].
Qed.
Lemma run_loop_length l : forall idx, length (run_loop idx l) = length (filter (fun v => 0 < v) l).
Proof.
  induction l as [|v l IH]; intros idx; cbn [run_loop]; [done|]. destruct (Z.ltb_spec 0 v).
  - rewrite filter_cons_True by done. cbn. by rewrite IH.
  - rewrite filter_cons_False by lia. apply IH.
Qed.

(** What [has_new] computes on a map and a trace that fit. *)
Lemma has_new_eq n trace status directed g m : gb_map status g = Some m -> is_trace n trace -> map_ok n m ->
  exists d, (d = true <-> exists i b, hits trace i b /\ ~ covered m i b /\ has_path_to_target (cfg g) (u32 (Z.of_nat i)) = Ok true) /\
  let k := new_edges m trace in
  let g1 := if (0 <? k)%nat && bool_decide (status = Normal) then add_density k g else g in
  has_new trace status directed g =
    Ok ((match changes 0 m trace with [] => false | _ => if directed then d else true end, (0 <? k)%nat, length (filter (fun v => 0 < v) trace)),
        set_gb_map status (zip_with after m trace) g1).
Proof.
  intros Hg Ht Hm. pose proof Hm as [Hb Hl]. unfold has_new. rewrite Hg, (get_path_spec n) by done.
  rewrite read_loop_spec by (rewrite Hl, (t_length _ _ Ht); lia). rewrite drop_0. cbn [res_bind fst snd]. rewrite run_loop_length.
  set (k := new_edges m trace). set (g1 := if (0 <? k)%nat && bool_decide (status = Normal) then add_density k g else g). assert (Ec : cfg (set_gb_map status (zip_with after m trace) g1) = cfg g).
  { unfold g1. by destruct (_ && _), status. }
  rewrite <-(write_loop_spec m trace) in Ec by (try apply Ht; try done; rewrite Hl; apply Ht).
  destruct (directed_loop_spec (changes 0 m trace) (cfg g)) as (d & Ed & Hd). exists d. split.
  { rewrite Hd. split.
    - intros (i & w & Hi & Hp). destruct (proj1 (changes_hits n trace m Ht Hm i)) as (b & H1 & H2); [by eexists|]. by exists i, b.
    - intros (i & b & H1 & H2 & Hp). destruct (proj2 (changes_hits n trace m Ht Hm i)) as [w Hw]; [by eexists|]. by exists i, w. }
  cbv zeta. rewrite <-(write_loop_spec m trace) by (try apply Ht; try done; rewrite Hl; apply Ht).
  destruct (changes 0 m trace) as [|br l] eqn:E.
  - assert (Hk : (0 <? k)%nat = false).
    { apply not_true_is_false. intros (i & x & E1 & E2 & E3)%new_edges_pos.
      destruct (proj2 (changes_hits n trace m Ht Hm i)) as [w Hw]; [|rewrite E in Hw; by apply elem_of_nil in Hw].
      exists (count_lookup x). assert (Hh : hits trace i (count_lookup x)) by (apply (hits_lookup n); eauto). split; [done|].
      intros (v & Ev & Hz). rewrite E3 in Ev. injection Ev as <-.
      destruct (clear_facts 255 (count_lookup x)) as (_ & _ & _ & _ & _ & F & _); [by unfold is_byte|by eapply hits_bucket|]. specialize (F eq_refl). lia. }
    rewrite Hk. unfold g1. rewrite Hk. cbn [andb write_loop fold_left]. do 2 f_equal. destruct status; cbn in Hg; try done; injection Hg as <-; by destruct g.
  - rewrite Ec, Ed. cbn [res_bind]. by destruct directed.
Qed.

Lemma has_new_run (n : nat) (trace m : list Z) (status : StatusType) (directed : bool) (g : GlobalBranches) :
  gb_map status g = Some m -> is_trace n trace -> map_ok n m ->
  exists path edge g' m', has_new trace status directed g = Ok ((path, edge, length (filter (fun v => 0 < v) trace)), g') /\
    gb_map status g' = Some m' /\ map_ok n m' /\
    (forall i b, is_bucket b = true -> covered m' i b <-> covered m i b \/ hits trace i b) /\
    (path = true <-> exists i b, hits trace i b /\ ~ covered m i b /\
       (directed = true -> has_path_to_target (cfg g) (u32 (Z.of_nat i)) = Ok true)) /\
    (edge = true <-> exists i b, hits trace i b /\ m !! i = Some 255) /\
    (forall st, st <> status -> gb_map st g' = gb_map st g).
Proof.
  intros Hg Ht Hm. destruct (has_new_eq n trace status directed g m Hg Ht Hm) as (d & Hd & E). cbv zeta in E. do 4 eexists. split; [exact E|].
  assert (Eg : forall g1, gb_map status (set_gb_map status (zip_with after m trace) g1) = Some (zip_with after m trace)) by (intros g1; by destruct status).
  split; [apply Eg|]. split; [by apply after_ok|]. split; [intros i b; by apply (after_covered n)|].
  split; [|split].
  - split.
    + intros Hp. destruct (changes 0 m trace) as [|[i w] l] eqn:Ec; [done|]. destruct directed.
      * apply Hd in Hp as (j & b & H1 & H2 & H3). by exists j, b.
      * destruct (proj1 (changes_hits n trace m Ht Hm i)) as (b & H1 & H2); [exists w; rewrite Ec; by left|]. exists i, b. done.
    + intros (i & b & H1 & H2 & H3). destruct (proj2 (changes_hits n trace m Ht Hm i)) as [w Hw]; [by exists b|].
      destruct (changes 0 m trace) as [|br l]; [by apply elem_of_nil in Hw|]. destruct directed; [|done]. apply Hd. exists i, b. auto.
  - rewrite new_edges_pos. split; intros (i & x & Hx).
    + destruct Hx as (E1 & E2 & E3). exists i, (count_lookup x). split; [apply (hits_lookup n); eauto|done].
    + destruct Hx as [(y & E1 & E2 & _)%(hits_lookup n) E3]; [|done]. by exists i, y.
  - intros st Hst. destruct (_ && _); by destruct st, status.
Qed.

(** C14: a run reports something new exactly if it reaches a bucket of an edge that no earlier run
    with the same outcome reached (in directed mode, of an edge from which a target can be
    reached), and a new edge exactly if no bucket of the edge was reached before; afterwards
    the map has the buckets of earlier runs and of this one. *)
Theorem has_new_exact (n : nat) (trace m : list Z) (status : StatusType) (directed : bool) (g : GlobalBranches) :
  gb_map status g = Some m -> is_trace n trace -> map_ok n m ->
  exists path edge g' m', has_new trace status directed g = Ok ((path, edge, length (filter (fun v => 0 < v) trace)), g') /\
    gb_map status g' = Some m' /\ map_ok n m' /\
    (forall i b, is_bucket b = true -> covered m' i b <-> covered m i b \/ hits trace i b) /\
    (path = true <-> exists i b, hits trace i b /\ ~ covered m i b /\
       (directed = true -> has_path_to_target (cfg g) (u32 (Z.of_nat i)) = Ok true)) /\
    (edge = true <-> exists i b, hits trace i b /\ m !! i = Some 255) /\
    (forall st, st <> status -> gb_map st g' = gb_map st g).
Proof. apply has_new_run. Qed.
Lemma density_run (n : nat) (trace : list Z) (status : StatusType) (directed : bool) (g g' : GlobalBranches) r :
  is_trace n trace -> map_ok n (virgin_branches g) -> (forall m, gb_map status g = Some m -> map_ok n m) -> Z.of_nat n < 2 ^ 64 ->
  density g = Z.of_nat (reached (virgin_branches g)) -> has_new trace status directed g = Ok (r, g') ->
  density g' = Z.of_nat (reached (virgin_branches g')).
Proof.
  intros Ht Hv Hm Hn Hd. destruct (gb_map status g) as [m|] eqn:Eg; [|unfold has_new; rewrite Eg; by intros [= _ <-]].
  specialize (Hm m eq_refl). destruct (has_new_eq n trace status directed g m Eg Ht Hm) as (d & _ & E). cbv zeta in E. rewrite E. intros [= _ <-].
  assert (Hr : status = Normal -> reached (zip_with after m trace) = (reached (virgin_branches g) + new_edges m trace)%nat).
  { intros ->. cbn in Eg. injection Eg as ->. destruct Hm as [Hb Hl]. apply reached_after; [done|apply Ht|]. rewrite Hl. apply Ht. }
  destruct status; cbn in Eg; try done; cbn [set_gb_map].
  - rewrite bool_decide_eq_true_2, andb_true_r by done. cbn [virgin_branches density]. rewrite Hr by done.
    assert (Hb : (reached (zip_with after m trace) <= n)%nat).
    { unfold reached. etrans; [apply length_filter|]. rewrite length_zip_with. destruct Hm as [_ ->]. lia. }
    rewrite Hr in Hb by done. destruct (Nat.ltb_spec 0 (new_edges m trace)); cbn [add_density density virgin_branches].
    + rewrite Hd, u64_small by lia. lia.
    + rewrite Hd. lia.
  - rewrite bool_decide_eq_false_2, andb_false_r by done. cbn. done.
  - rewrite bool_decide_eq_false_2, andb_false_r by done. cbn. done.
Qed.

(** The density of a coverage report is the number of edges that normal runs have reached. *)
Theorem density_counts (n : nat) (trace : list Z) (status : StatusType) (directed : bool) (g g' : GlobalBranches) r :
  is_trace n trace -> map_ok n (virgin_branches g) -> (forall m, gb_map status g = Some m -> map_ok n m) -> Z.of_nat n < 2 ^ 64 ->
  density g = Z.of_nat (reached (virgin_branches g)) -> has_new trace status directed g = Ok (r, g') ->
  density g' = Z.of_nat (reached (virgin_branches g')).
Proof. apply density_run. Qed.
End Spec.

(** ** Examples *)

Module BranchEx.
Import ListGraph CfgEx.
Definition g0 : GlobalBranches := mkGlobal _ (replicate 16 255) (replicate 16 255) (replicate 16 255) 0 c0.
Definition t0 : list Z := [0; 0; 0; 0; 1; 1; 0; 0; 3; 0; 0; 0; 0; 0; 0; 0].
Lemma t0_trace : is_trace 16 t0.
Proof. split; [repeat constructor; by vm_compute|done|by exists 2%nat]. Qed.
Lemma map0_ok : map_ok 16 (replicate 16 255).
Proof. split; [|done]. apply Forall_replicate. by unfold is_byte. Qed.
Lemma has_new_exact_witness : exists g', has_new t0 Normal false g0 = Ok ((true, true, 3%nat), g') /\
  exists g'', has_new t0 Normal false g' = Ok ((false, false, 3%nat), g'').
Proof.
  destruct (has_new_exact 16 t0 (replicate 16 255) Normal false g0 eq_refl t0_trace map0_ok) as (p & e & g' & m' & E & Em & Hm & C & P & D & _).
  exists g'. split.
  - replace p with true in E; [replace e with true in E; [exact E|]|]; symmetry.
    + apply D. exists 4%nat, 1. split; [by exists 1|done].
    + apply P. exists 4%nat, 1. split; [by exists 1|]. split; [|done]. intros (v & Hv & Hz). vm_compute in Hv. injection Hv as <-. done.
  - destruct (has_new_exact 16 t0 m' Normal false g' Em t0_trace Hm) as (p2 & e2 & g2 & m2 & E2 & _ & _ & _ & P2 & D2 & _).
    exists g2. replace p2 with false in E2; [replace e2 with false in E2; [exact E2|]|]; symmetry; apply not_true_is_false.
    + intros (i & b & Hh & H255)%D2. assert (Hc : covered m' i b) by (apply C; [by eapply hits_bucket, Hh; apply t0_trace|by right]).
      destruct Hc as (v & Ev & Hz). rewrite H255 in Ev. injection Ev as <-.
      assert (Hb : is_bucket b = true) by (by eapply hits_bucket, Hh; apply t0_trace).
      destruct (clear_facts 255 b) as (_ & _ & _ & _ & _ & F & _); [by unfold is_byte|done|]. specialize (F eq_refl). lia.
    + intros (i & b & Hh & Hc & _)%P2. apply Hc, C; [by eapply hits_bucket, Hh; apply t0_trace|by right].
Defined.
Lemma density_counts_witness : exists r g', has_new t0 Normal false g0 = Ok (r, g') /\ density g' = 3.
Proof.
  destruct (has_new t0 Normal false g0) as [[r g']|] eqn:E; [|exfalso; by vm_compute in E].
  exists r, g'. split; [done|]. rewrite (density_counts 16 t0 Normal false g0 g' r t0_trace map0_ok); [| |by vm_compute|done|exact E].
  - vm_compute in E. injection E as <- <-. by vm_compute.
  - intros m [= <-]. apply map0_ok.
Defined.
End BranchEx.
