(* ===== verification/FuzzDepot.v ===== *)
(** * The queue of conditions

    [fuzzer/src/depot] ([qpriority.rs], [depot.rs]), [fuzzer/src/cond_stmt] ([cond_stmt.rs],
    [cond_state.rs]) and the loop of [fuzzer/src/fuzz_loop.rs]: conditions wait in a priority
    queue, each goes through the states of its search, and the loop takes them in turns.  The
    queue is the crate [priority-queue], of which the class [PriorityQueue] has the operations
    used; the searches are a parameter of the loop.  One thread is modelled. *)

From S2P Require Import Prelude TagSet TrackLog FuzzCond FuzzInput FuzzCfg FuzzBranches.
Local Open Scope Z_scope.

(** ** Conditions ([cond_stmt.rs]) *)

Inductive CondState := Offset | OffsetOpt | OffsetAll | OffsetAllEnd | OneByte | Unsolvable | Deterministic | Timeout.
#[export] Instance cond_state_eq_dec : EqDecision CondState.
Proof. solve_decision. Defined.
Record CondStmt := mkStmt {
  base : CondStmtBase;
  offsets : list TagSeg;
  offsets_opt : list TagSeg;
  variables : list Z;
  speed : Z;
  is_desirable : bool;
  is_consistent : bool;
  cond_is_target : bool;
  fuzz_times : Z;
  state : CondState;
  num_minimal_optima : Z;
  linear : bool }.
Definition CondStmt_from (b : CondStmtBase) : CondStmt :=
  mkStmt b [] [] [] 0 true true false 0 Offset 0 false.

Definition set_base (b : CondStmtBase) (c : CondStmt) : CondStmt :=
  mkStmt b (offsets c) (offsets_opt c) (variables c) (speed c) (is_desirable c) (is_consistent c) (cond_is_target c)
    (fuzz_times c) (state c) (num_minimal_optima c) (linear c).
Definition set_offsets (o opt : list TagSeg) (c : CondStmt) : CondStmt :=
  mkStmt (base c) o opt (variables c) (speed c) (is_desirable c) (is_consistent c) (cond_is_target c)
    (fuzz_times c) (state c) (num_minimal_optima c) (linear c).
Definition set_variables (v : list Z) (c : CondStmt) : CondStmt :=
  mkStmt (base c) (offsets c) (offsets_opt c) v (speed c) (is_desirable c) (is_consistent c) (cond_is_target c)
    (fuzz_times c) (state c) (num_minimal_optima c) (linear c).
Definition set_state (s : CondState) (c : CondStmt) : CondStmt :=
  mkStmt (base c) (offsets c) (offsets_opt c) (variables c) (speed c) (is_desirable c) (is_consistent c) (cond_is_target c)
    (fuzz_times c) s (num_minimal_optima c) (linear c).
Definition set_speed (s : Z) (c : CondStmt) : CondStmt :=
  mkStmt (base c) (offsets c) (offsets_opt c) (variables c) s (is_desirable c) (is_consistent c) (cond_is_target c)
    (fuzz_times c) (state c) (num_minimal_optima c) (linear c).
Definition set_fuzz_times (n : Z) (c : CondStmt) : CondStmt :=
  mkStmt (base c) (offsets c) (offsets_opt c) (variables c) (speed c) (is_desirable c) (is_consistent c) (cond_is_target c)
    n (state c) (num_minimal_optima c) (linear c).

Inductive FuzzType := ExploreFuzz | ExploitFuzz | CmpFnFuzz | LenFuzz | AFLFuzz | OtherFuzz.
Definition get_fuzz_type (c : CondStmt) : FuzzType :=
  if op (base c) =? COND_AFL_OP then AFLFuzz
  else if op (base c) =? COND_LEN_OP then LenFuzz
  else if op (base c) =? COND_FN_OP then CmpFnFuzz
  else if is_explore (base c) then ExploreFuzz
  else if is_exploitable (base c) then ExploitFuzz
  else OtherFuzz.
Definition is_tainted (c : CondStmt) : bool := (0 <? length (offsets c))%nat.
Definition is_bool (c : CondStmt) : bool :=
  (may_be_bool (base c) && negb (is_desirable c)) || (0 <? Z.land (op (base c)) COND_BOOL_MASK).
Definition cond_is_done (c : CondStmt) : bool := is_done (base c).
Definition clear (c : CondStmt) : CondStmt := set_variables [] (set_offsets [] [] c).
Definition mark_as_done (c : CondStmt) : CondStmt := clear (set_base (set_condition COND_DONE_ST (base c)) c).
Definition is_discarded (c : CondStmt) : bool :=
  cond_is_done c || bool_decide (state c = Unsolvable) || bool_decide (state c = Timeout).
Definition is_first_time (c : CondStmt) : bool := fuzz_times c =? 1.
Definition get_afl_cond (id speed edge_num : Z) : CondStmt :=
  set_speed speed (CondStmt_from (mkCond (u32 id) 0 0 0 0 0 0 COND_AFL_OP 0 0 0 (u64 edge_num) 0)).

(** *** States ([cond_state.rs]) *)

Definition LONG_FUZZ_TIME : Z := 8.
Definition SLOW_SPEED : Z := 888888.
Definition is_det (s : CondState) : bool := bool_decide (s = Deterministic).
Definition is_one_byte (s : CondState) : bool := bool_decide (s = OneByte).
Definition is_time_expired (c : CondStmt) : bool :=
  ((is_det (state c) || is_one_byte (state c)) && negb (is_first_time c)) || (LONG_FUZZ_TIME <=? fuzz_times c).
Definition to_offsets_opt (c : CondStmt) : CondStmt := set_offsets (offsets_opt c) (offsets c) (set_state OffsetOpt c).
Definition to_offsets_all (c : CondStmt) : CondStmt :=
  set_offsets (merge_offsets (offsets c) (offsets_opt c)) (offsets_opt c) (set_state OffsetAll c).
Definition to_det (c : CondStmt) : CondStmt := set_state Deterministic c.
Definition to_offsets_all_end (c : CondStmt) : CondStmt := set_state OffsetAllEnd c.
Definition to_unsolvable (c : CondStmt) : CondStmt := set_state Unsolvable c.
Definition to_timeout (c : CondStmt) : CondStmt := set_state Timeout (set_speed SLOW_SPEED c).
Definition next_state (c : CondStmt) : CondStmt :=
  match state c with
  | Offset => if (0 <? length (offsets_opt c))%nat then to_offsets_opt c else to_det c
  | OneByte => if (0 <? length (offsets_opt c))%nat then to_offsets_opt c else to_unsolvable c
  | OffsetOpt => to_offsets_all c
  | OffsetAll => to_det c
  | Deterministic => to_offsets_all_end c
  | _ => c
  end.

(** ** Priorities ([qpriority.rs]) *)

Definition INIT_PRIORITY : Z := 0.
Definition AFL_INIT_PRIORITY : Z := 0.
Definition DONE_PRIORITY : Z := 2 ^ 16 - 1.
Definition INIT_DISTANCE : Z := 2 ^ 32 - 1.
Record QPriority := mkQ { q0 : Z; q1 : Z }.
Definition base_inc (p : QPriority) : QPriority := mkQ (wrap 16 (q0 p + 1)) (q1 p).
Definition afl_inc (p : QPriority) : QPriority := mkQ (wrap 16 (q0 p + 2)) (q1 p).
Definition inc (p : QPriority) (o : Z) : QPriority := if o =? COND_AFL_OP then afl_inc p else base_inc p.
Definition new_distance (p : QPriority) (distance : Z) : QPriority := mkQ (q0 p) distance.
Definition init_distance (o distance : Z) : QPriority :=
  if o =? COND_AFL_OP then mkQ AFL_INIT_PRIORITY distance else mkQ INIT_PRIORITY distance.
Definition done_priority : QPriority := mkQ DONE_PRIORITY INIT_DISTANCE.
Definition q_is_done (p : QPriority) : bool := q0 p =? DONE_PRIORITY.
(** [Ord for QPriority] *)
Definition cmp (p q : QPriority) : comparison :=
  match q0 p ?= q0 q with
  | Gt => Lt
  | Lt => Gt
  | Eq => match q1 p ?= q1 q with Gt => Lt | Lt => Gt | Eq => Eq end
  end.

(** ** The queue *)

(** What makes two conditions equal. *)
Abbreviation key := (Z * Z * Z)%type.
Definition key_of (c : CondStmt) : key := (cmpid (base c), context (base c), order (base c)).

(** The crate [priority-queue]; [pq_view] is its content. *)
Class PriorityQueue := {
  pq : Type;
  pq_new : pq;
  pq_peek : pq -> option (CondStmt * QPriority);
  pq_get : pq -> CondStmt -> option (CondStmt * QPriority);
  pq_replace : pq -> CondStmt -> pq;
  pq_push : pq -> CondStmt -> QPriority -> pq;
  pq_change_priority : pq -> CondStmt -> QPriority -> pq;
  pq_view : pq -> gmap key (CondStmt * QPriority) }.
(** [get_mut] is [pq_get], and [pq_replace] the assignment through it. *)
Class PriorityQueueSpec `{PriorityQueue} := {
  pq_new_law : pq_view pq_new = ∅;
  pq_peek_none : forall q, pq_peek q = None <-> pq_view q = ∅;
  pq_peek_some : forall q c p, pq_peek q = Some (c, p) ->
    pq_view q !! key_of c = Some (c, p) /\
    forall k c' p', pq_view q !! k = Some (c', p') -> cmp p' p <> Gt;
  pq_get_law : forall q c, pq_get q c = pq_view q !! key_of c;
  pq_replace_law : forall q c, pq_view (pq_replace q c) =
    match pq_view q !! key_of c with Some e => <[ key_of c := (c, e.2) ]> (pq_view q) | None => pq_view q end;
  pq_push_law : forall q c p, pq_view q !! key_of c = None -> pq_view (pq_push q c p) = <[ key_of c := (c, p) ]> (pq_view q);
  pq_change_law : forall q c p, pq_view (pq_change_priority q c p) =
    match pq_view q !! key_of c with Some e => <[ key_of c := (e.1, p) ]> (pq_view q) | None => pq_view q end }.

(** ** The depot *)

Definition PREFER_FAST_COND : bool := true.
(** The directories of saved inputs are lists; the number of an input is its position. *)
Record Depot `{GraphMap} `{PriorityQueue} := mkDepot {
  queue : pq; inputs : list (list Z); hangs : list (list Z); crashes : list (list Z); depot_cfg : ControlFlowGraph }.
Definition Depot_new `{GraphMap} `{PriorityQueue} (c : ControlFlowGraph) : Depot := mkDepot _ _ pq_new [] [] [] c.

Section Depot.
Context `{GraphMap} `{Mean} `{PriorityQueue}.
Implicit Types d : Depot.
Definition with_queue (q : pq) (d : Depot) : Depot := mkDepot _ _ q (inputs d) (hangs d) (crashes d) (depot_cfg d).
Definition with_cfg (c : ControlFlowGraph) (d : Depot) : Depot := mkDepot _ _ (queue d) (inputs d) (hangs d) (crashes d) c.

(** [save] gives the number of the input. *)
Definition save (status : FuzzBranches.StatusType) (buf : list Z) (d : Depot) : Z * Depot :=
  match status with
  | FuzzBranches.Normal => (Z.of_nat (length (inputs d)), mkDepot _ _ (queue d) (inputs d ++ [buf]) (hangs d) (crashes d) (depot_cfg d))
  | FuzzBranches.Timeout => (Z.of_nat (length (hangs d)), mkDepot _ _ (queue d) (inputs d) (hangs d ++ [buf]) (crashes d) (depot_cfg d))
  | FuzzBranches.Crash => (Z.of_nat (length (crashes d)), mkDepot _ _ (queue d) (inputs d) (hangs d) (crashes d ++ [buf]) (depot_cfg d))
  | _ => (0, d)
  end.
Definition get_input_buf (d : Depot) (id : Z) : res (list Z) :=
  match inputs d !! Z.to_nat id with Some b => Ok b | None => Fault Panicked end.

Definition get_entry (d : Depot) : option (CondStmt * QPriority) * Depot :=
  match pq_peek (queue d) with
  | None => (None, d)
  | Some x =>
      (Some x, if negb (q_is_done x.2)
               then with_queue (pq_change_priority (queue d) x.1 (inc x.2 (op (base x.1)))) d else d)
  end.

Definition add_entry (c : CondStmt) (d : Depot) : Depot :=
  if is_desirable c then
    let distance := score_for_cmp_inp (depot_cfg d) (cmpid (base c)) (variables c) in
    let q := queue d in
    match pq_get q c with
    | Some v =>
        if negb (cond_is_done v.1) then
          if negb (condition (base v.1) =? condition (base c)) then
            with_queue (pq_change_priority (pq_replace q (mark_as_done v.1)) c done_priority) d
          else if PREFER_FAST_COND && (speed c <? speed v.1) then
            with_queue (pq_change_priority (pq_replace q c) v.1 (init_distance (op (base v.1)) distance)) d
          else d
        else d
    | None => with_queue (pq_push q c (init_distance (op (base c)) distance)) d
    end
  else d.
Definition add_entries (conds : list CondStmt) (d : Depot) : Depot := fold_left (fun d c => add_entry c d) conds d.

Definition update_entry (c : CondStmt) (d : Depot) : res Depot :=
  let q := match pq_get (queue d) c with
           | Some v =>
               let q := pq_replace (queue d) c in
               let distance := score_for_cmp (depot_cfg d) (cmpid (base c)) in
               pq_change_priority q c (new_distance v.2 distance)
           | None => queue d
           end in
  if is_discarded c then
    res_bind (remove_target (depot_cfg d) (cmpid (base c))) (fun g =>
    Ok (with_cfg g (with_queue (pq_change_priority q c done_priority) d)))
  else Ok (with_queue q d).

(** ** The loop ([fuzz_loop.rs]) *)

Inductive search_kind := SOneByte | SDet | SMethod | SExploit | SAfl | SLen | SFn.
(** What a search does to the condition it works on and to the depot. *)
Context (search : search_kind -> CondStmt -> list Z -> Depot -> res (CondStmt * Depot)).

Definition fuzz_cond (c : CondStmt) (buf : list Z) (d : Depot) : res (CondStmt * Depot) :=
  (* SearchHandler::new *)
  let c := set_fuzz_times (u64 (fuzz_times c + 1)) c in
  match get_fuzz_type c with
  | ExploreFuzz =>
      let c := if is_time_expired c then next_state c else c in
      if is_one_byte (state c) then search SOneByte c buf d
      else if is_det (state c) then search SDet c buf d
      else search SMethod c buf d
  | ExploitFuzz =>
      if is_one_byte (state c) then res_bind (search SOneByte c buf d) (fun x => Ok (to_unsolvable x.1, x.2))
      else search SExploit c buf d
  | AFLFuzz => search SAfl c buf d
  | LenFuzz => search SLen c buf d
  | CmpFnFuzz => search SFn c buf d
  | OtherFuzz => Ok (c, d)
  end.
(** One round: [None] when the loop is left. *)
Definition fuzz_round (d : Depot) : res (option (CondStmt * Depot)) :=
  let e := get_entry d in
  match e.1 with
  | None => Ok None
  | Some (c, priority) =>
      let d := e.2 in
      if q_is_done priority then Ok None
      else if cond_is_done c then res_bind (update_entry c d) (fun d => Ok (Some (c, d)))
      else res_bind (get_input_buf d (belong (base c))) (fun buf =>
           res_bind (fuzz_cond c buf d) (fun x =>
           res_bind (update_entry x.1 x.2) (fun d => Ok (Some (c, d)))))
  end.
End Depot.

(** ** The states of a search *)

Definition final (s : CondState) : bool := match s with OffsetAllEnd | Unsolvable | Timeout => true | _ => false end.
Lemma next_final c : final (state c) = true -> next_state c = c.
Proof. unfold next_state. by destruct (state c). Qed.
Lemma iter_final n c : final (state c) = true -> Nat.iter n next_state c = c.
Proof. intros Hc. induction n as [|n IH]; [done|]. rewrite Nat.iter_succ, IH. by apply next_final. Qed.
Lemma iter_split k n c : (k <= n)%nat -> Nat.iter n next_state c = Nat.iter (n - k) next_state (Nat.iter k next_state c).
Proof. intros Hk. rewrite <-Nat.iter_add. f_equal. lia. Qed.
Lemma next_key c : key_of (next_state c) = key_of c.
Proof. unfold next_state. by destruct (state c); repeat case_match. Qed.
Lemma covers_empty l x : (0 <? length l)%nat = false -> covers l x <-> False.
Proof. intros Hl. destruct l; [apply covers_nil|done]. Qed.

(** C26: whatever a condition depends on comes under mutation.  A new condition is in a final state
    after at most four changes of state; from the second change on, unless it was given up,
    exactly the offsets of both operands are mutated. *)
Theorem search_states_end (c : CondStmt) (n : nat) :
  state c = Offset \/ state c = OneByte ->
  let s := Nat.iter n next_state c in
  ((4 <= n)%nat -> state s = OffsetAllEnd \/ state s = Unsolvable) /\
  (state s = Unsolvable -> state c = OneByte /\ offsets_opt c = []) /\
  ((2 <= n)%nat -> forall x, covers (offsets s) x <-> covers (offsets c) x \/ covers (offsets_opt c) x) /\
  key_of s = key_of c.
Proof.
  intros Hc s. assert (Hk : key_of s = key_of c).
  { unfold s. clear s. induction n as [|n IH]; [done|]. by rewrite Nat.iter_succ, next_key. }
  destruct c as [b o oo va sp de co ta fu st nm li]; cbn [state offsets offsets_opt] in *.
  destruct oo as [|o1 oo].
  - assert (E2 : forall k, (2 <= k)%nat -> Nat.iter k next_state (mkStmt b o [] va sp de co ta fu st nm li) =
      mkStmt b o [] va sp de co ta fu (if decide (st = Offset) then OffsetAllEnd else Unsolvable) nm li).
    { intros k Hk2. rewrite (iter_split 2) by done. destruct Hc as [-> | ->]; cbn; by rewrite iter_final. }
    split; [intros Hn; unfold s; rewrite E2 by lia; case_decide; [by left|by right]|]. split.
    + intros Hs. split; [|done]. destruct Hc as [-> |]; [|done]. exfalso. unfold s in Hs.
      destruct n as [|[|n]]; [done|done|]. by rewrite E2 in Hs by lia.
    + split; [|done]. intros Hn x. unfold s. rewrite E2 by lia. cbn. rewrite covers_nil. tauto.
  - set (c0 := mkStmt b o (o1 :: oo) va sp de co ta fu st nm li) in *.
    assert (E1 : Nat.iter 1 next_state c0 = mkStmt b (o1 :: oo) o va sp de co ta fu OffsetOpt nm li) by (destruct Hc as [-> | ->]; done).
    set (u := merge_offsets (o1 :: oo) o).
    assert (E2 : Nat.iter 2 next_state c0 = mkStmt b u o va sp de co ta fu OffsetAll nm li).
    { change (Nat.iter 2 next_state c0) with (next_state (Nat.iter 1 next_state c0)). by rewrite E1. }
    assert (E4 : forall k, (4 <= k)%nat -> Nat.iter k next_state c0 = mkStmt b u o va sp de co ta fu OffsetAllEnd nm li).
    { intros k Hk4. rewrite (iter_split 2) by lia. rewrite E2. rewrite (iter_split 2) by lia. cbn. by rewrite iter_final. }
    assert (Hu : forall x, covers u x <-> covers o x \/ covers (o1 :: oo) x) by (intros x; unfold u; rewrite merge_offsets_covers; tauto).
    assert (E3 : forall k, (2 <= k)%nat -> offsets (Nat.iter k next_state c0) = u /\ state (Nat.iter k next_state c0) <> Unsolvable).
    { intros k Hk2. assert (k = 2 \/ k = 3 \/ 4 <= k)%nat as [-> |[-> |Hk4]] by lia; [by rewrite E2|by rewrite Nat.iter_succ, E2|by rewrite E4]. }
    split; [intros Hn; unfold s; rewrite E4 by done; by left|]. split; [|split; [|done]].
    + intros Hs. exfalso. unfold s in Hs. destruct n as [|[|n]]; [by destruct Hc as [Hc|Hc]; cbn in *; congruence|by rewrite E1 in Hs|].
      destruct (E3 (S (S n)) ltac:(lia)) as [_ Hn]. done.
    + intros Hn x. unfold s. destruct (E3 n Hn) as [-> _]. apply Hu.
Qed.

(** ** Priorities *)

Lemma cmp_le p q : cmp p q <> Gt -> q0 q <= q0 p.
Proof. unfold cmp. destruct (Z.compare_spec (q0 p) (q0 q)); [lia|done|lia]. Qed.
(** Picking a condition raises its priority, as long as it stays clear of the greatest ones. *)
Lemma inc_raises p o : 0 <= q0 p < 65534 -> q0 p + 1 <= q0 (inc p o) <= 65535.
Proof. intros Hp. unfold inc, afl_inc, base_inc. destruct (_ =? _); cbn; rewrite wrap_small by lia; lia. Qed.
(** After 32767 rounds the condition of a whole input is back in front. *)
Theorem afl_priority_wraps (p : QPriority) : q0 p = 65534 -> q0 (inc p COND_AFL_OP) = 0.
Proof. intros Hp. unfold inc. cbn. by rewrite Hp. Qed.
(** A condition that was picked 65535 times counts as done, explored or not. *)
Theorem picked_until_done (p : QPriority) (o : Z) : q0 p = 65534 -> o <> COND_AFL_OP -> q_is_done (inc p o) = true.
Proof. intros Hp Ho. unfold inc. rewrite (proj2 (Z.eqb_neq _ _) Ho). unfold q_is_done, base_inc. cbn. by rewrite Hp. Qed.

(** ** The queue, by its content *)

Section Queue.
Context `{GS : GraphMapSpec} `{Mean} `{PS : PriorityQueueSpec}.
Implicit Types d : Depot.
Definition view (d : Depot) : gmap key (CondStmt * QPriority) := pq_view (queue d).

(** Entries are filed under their key, with a priority of 16 bits, and belong to a saved input. *)
Definition entry_ok (d : Depot) (k : key) (e : CondStmt * QPriority) : Prop :=
  key_of e.1 = k /\ 0 <= q0 e.2 <= DONE_PRIORITY /\ 0 <= belong (base e.1) < Z.of_nat (length (inputs d)).
Definition depot_ok (d : Depot) : Prop := map_Forall (entry_ok d) (view d).

Lemma inc_range p o : 0 <= q0 (inc p o) <= DONE_PRIORITY.
Proof.
  unfold inc, afl_inc, base_inc, DONE_PRIORITY. pose proof (wrap_range 16 (q0 p + 2) ltac:(lia)). pose proof (wrap_range 16 (q0 p + 1) ltac:(lia)).
  destruct (_ =? _); cbn; lia.
Qed.
Lemma get_entry_some d c p d' : get_entry d = (Some (c, p), d') ->
  view d !! key_of c = Some (c, p) /\ (forall k e, view d !! k = Some e -> q0 p <= q0 e.2) /\
  (if q_is_done p then d' = d
   else d' = with_queue (queue d') d /\ view d' = <[ key_of c := (c, inc p (op (base c))) ]> (view d)).
Proof.
  unfold get_entry. destruct (pq_peek (queue d)) as [[c' p']|] eqn:E; [|done]. cbn [fst snd]. intros [= -> -> <-].
  destruct (pq_peek_some _ _ _ E) as [Hv Hm]. split; [done|]. split; [intros k [c' p'] Hk; by eapply cmp_le, Hm|].
  destruct (q_is_done p); [done|]. cbn [negb]. split; [done|]. unfold view. cbn. rewrite pq_change_law. by rewrite Hv.
Qed.
Lemma get_entry_none d d' : get_entry d = (None, d') -> view d = ∅.
Proof. unfold get_entry. destruct (pq_peek (queue d)) eqn:E; [done|]. intros _. by apply pq_peek_none. Qed.

(** Updating the condition of an entry stores it with its new distance; a condition that was
    explored or given up goes to the end of the queue and is no target any more.  Other entries
    are not touched. *)
Lemma update_entry_exact (c : CondStmt) (d : Depot) (old : CondStmt) (p : QPriority) :
  view d !! key_of c = Some (old, p) ->
  exists d', update_entry c d = Ok d' /\
    view d' = <[ key_of c := (c, if is_discarded c then done_priority
                                 else mkQ (q0 p) (score_for_cmp (depot_cfg d) (cmpid (base c)))) ]> (view d) /\
    inputs d' = inputs d /\
    (is_discarded c = true -> targets (depot_cfg d') = targets (depot_cfg d) ∖ {[ cmpid (base c) ]}) /\
    (forall x, is_target (depot_cfg d') x = is_target (depot_cfg d) x).
Proof.
  intros Hv. unfold update_entry, view in *. rewrite pq_get_law, Hv. cbn [snd]. set (s := score_for_cmp _ _).
  assert (E1 : pq_view (pq_replace (queue d) c) = <[ key_of c := (c, p) ]> (pq_view (queue d))) by (by rewrite pq_replace_law, Hv).
  assert (E2 : pq_view (pq_change_priority (pq_replace (queue d) c) c (new_distance p s)) = <[ key_of c := (c, new_distance p s) ]> (pq_view (queue d))).
  { rewrite pq_change_law, E1, lookup_insert_eq. cbn. by rewrite insert_insert_eq. }
  destruct (is_discarded c).
  - destruct (remove_target_keeps (depot_cfg d) (cmpid (base c))) as (g & -> & T & I & _). cbn. eexists. split; [done|]. cbn.
    split; [|done]. rewrite pq_change_law, E2, lookup_insert_eq. cbn. by rewrite insert_insert_eq.
  - eexists. split; [done|]. done.
Qed.

(** ** Every condition is served *)

(** The rounds that the condition with priority [a] waits at most: each entry before it can be
    picked until it is behind. *)
Definition lead (a : Z) (e : CondStmt * QPriority) : nat := Z.to_nat (a + 1 - q0 e.2).
Definition waiting (a : Z) (m : gmap key (CondStmt * QPriority)) : nat := map_fold (fun _ e n => (lead a e + n)%nat) 0%nat m.
Lemma waiting_delete a m k e : m !! k = Some e -> waiting a m = (lead a e + waiting a (delete k m))%nat.
Proof.
  intros Hk. unfold waiting. apply (map_fold_delete_L (fun _ e n => (lead a e + n)%nat)); [|done]. intros; lia.
Qed.
Lemma waiting_insert a m k e e' : m !! k = Some e -> (waiting a (<[ k := e' ]> m) + lead a e = waiting a m + lead a e')%nat.
Proof.
  intros Hk. rewrite (waiting_delete a m k e Hk), (waiting_delete a (<[ k := e' ]> m) k e') by (by rewrite lookup_insert_eq).
  rewrite delete_insert_eq. lia.
Qed.

(** *** Adding conditions *)

Lemma mark_key c : key_of (mark_as_done c) = key_of c.
Proof. done. Qed.
(** The entry of a condition after the same comparison was tracked again. *)
Definition merge_entry (d : Depot) (c : CondStmt) (v : CondStmt * QPriority) : CondStmt * QPriority :=
  if cond_is_done v.1 then v
  else if negb (condition (base v.1) =? condition (base c)) then (mark_as_done v.1, done_priority)
  else if speed c <? speed v.1
  then (c, init_distance (op (base v.1)) (score_for_cmp_inp (depot_cfg d) (cmpid (base c)) (variables c)))
  else v.
Definition add_view (d : Depot) (c : CondStmt) : gmap key (CondStmt * QPriority) :=
  if is_desirable c then
    <[ key_of c := match view d !! key_of c with
                   | Some v => merge_entry d c v
                   | None => (c, init_distance (op (base c)) (score_for_cmp_inp (depot_cfg d) (cmpid (base c)) (variables c)))
                   end ]> (view d)
  else view d.
Lemma add_entry_view c d : depot_ok d -> view (add_entry c d) = add_view d c.
Proof.
  intros Hd. unfold add_entry, add_view, view. destruct (is_desirable c); [|done]. rewrite pq_get_law.
  destruct (pq_view (queue d) !! key_of c) as [[v p]|] eqn:E; [|cbn; by apply pq_push_law].
  pose proof (Hd _ _ E) as (Kv & _). cbn in Kv. unfold merge_entry. cbn [fst snd]. destruct (cond_is_done v); [cbn; by rewrite insert_id|]. cbn [negb].
  destruct (negb (condition (base v) =? condition (base c))).
  - cbn. rewrite pq_change_law, pq_replace_law, mark_key, Kv, E. cbn. rewrite lookup_insert_eq. cbn. by rewrite insert_insert_eq.
  - cbn. destruct (speed c <? speed v); [|by rewrite insert_id]. cbn. rewrite pq_change_law, pq_replace_law, E, Kv. cbn.
    rewrite lookup_insert_eq. cbn. by rewrite insert_insert_eq.
Qed.
Lemma add_entry_inputs c d : inputs (add_entry c d) = inputs d.
Proof. unfold add_entry. by repeat case_match. Qed.
Lemma init_range o x : 0 <= q0 (init_distance o x) <= DONE_PRIORITY.
Proof. unfold init_distance. destruct (_ =? _); by vm_compute. Qed.
(** A condition that is done, with the priority of such conditions. *)
Definition settled (e : CondStmt * QPriority) : Prop := cond_is_done e.1 = true.
Record grows (d d' : Depot) : Prop := mkGrows {
  gr_ok : depot_ok d';
  gr_inputs : inputs d' = inputs d;
  gr_keys : forall k, is_Some (view d !! k) -> is_Some (view d' !! k);
  gr_done : forall k e, view d !! k = Some e -> settled e -> view d' !! k = Some e }.
Definition belongs (d : Depot) (c : CondStmt) : Prop := 0 <= belong (base c) < Z.of_nat (length (inputs d)).
Lemma merge_ok d c v : entry_ok d (key_of c) v -> belongs d c -> entry_ok d (key_of c) (merge_entry d c v).
Proof.
  intros (K & P & B) Hb. unfold merge_entry. destruct (cond_is_done v.1); [done|]. destruct (negb _); [split; [done|split; [by vm_compute|done]]|].
  destruct (_ <? _); [split; [done|split; [apply init_range|done]]|done].
Qed.
Lemma add_entry_grows c d : depot_ok d -> belongs d c -> grows d (add_entry c d).
Proof.
  intros Hd Hb. assert (Ei := add_entry_inputs c d).
  assert (Hok : forall k e, entry_ok d k e -> entry_ok (add_entry c d) k e) by (intros k e; unfold entry_ok; by rewrite Ei).
  split; [|done|..]; unfold depot_ok; rewrite add_entry_view by done; unfold add_view; destruct (is_desirable c).
  - intros k e [[<- <-]|[Hne He]]%lookup_insert_Some; apply Hok; [|by apply Hd].
    destruct (view d !! key_of c) as [v|] eqn:E; [by apply merge_ok; [apply Hd|]|]. split; [done|split; [apply init_range|done]].
  - intros k e He. by apply Hok, Hd.
  - intros k Hk. destruct (decide (key_of c = k)) as [<-|]; [rewrite lookup_insert_eq; by eexists|by rewrite lookup_insert_ne].
  - done.
  - intros k e He Hs. destruct (decide (key_of c = k)) as [<-|]; [|by rewrite lookup_insert_ne]. rewrite lookup_insert_eq, He.
    unfold merge_entry. unfold settled in Hs. by rewrite Hs.
  - done.
Qed.
Lemma both_seen c d v p : depot_ok d -> is_desirable c = true -> view d !! key_of c = Some (v, p) -> condition (base v) <> condition (base c) ->
  exists e, view (add_entry c d) !! key_of c = Some e /\ settled e.
Proof.
  intros Hd Hdes Hv Hne. rewrite add_entry_view by done. unfold add_view. rewrite Hdes, lookup_insert_eq, Hv. eexists. split; [done|].
  unfold merge_entry. cbn [fst]. destruct (cond_is_done v) eqn:Ed; [done|]. by rewrite (proj2 (Z.eqb_neq _ _) Hne).
Qed.
Lemma depot_grows_trans d1 d2 d3 : grows d1 d2 -> grows d2 d3 -> grows d1 d3.
Proof. intros [] []. split; [done|congruence|auto|eauto]. Qed.

Lemma add_entries_run (conds : list CondStmt) (d : Depot) :
  depot_ok d -> Forall (belongs d) conds ->
  grows d (add_entries conds d) /\
  (forall c, c ∈ conds -> is_desirable c = true -> is_Some (view (add_entries conds d) !! key_of c)) /\
  (forall c v p, c ∈ conds -> is_desirable c = true -> (forall c', c' ∈ conds -> key_of c' = key_of c -> c' = c) ->
     view d !! key_of c = Some (v, p) -> condition (base v) <> condition (base c) ->
     exists e, view (add_entries conds d) !! key_of c = Some e /\ settled e).
Proof.
  unfold add_entries. revert d. induction conds as [|c0 conds IH]; intros d Hd Hb.
  { split; [by split|]. split; [by intros c Hc%elem_of_nil|by intros c v p Hc%elem_of_nil]. }
  inversion Hb as [|? ? Hb0 Hb1]; subst. pose proof (add_entry_grows c0 d Hd Hb0) as G. cbn [fold_left].
  destruct (IH (add_entry c0 d)) as (G2 & K2 & D2); [apply G|eapply Forall_impl; [|exact Hb1]; intros c; unfold belongs; by rewrite (gr_inputs _ _ G)|].
  split; [by eapply depot_grows_trans|]. split.
  - intros c [->|Hc]%elem_of_cons Hdes; [|by apply K2]. apply (gr_keys _ _ G2). rewrite add_entry_view by done. unfold add_view. rewrite Hdes, lookup_insert_eq. by eexists.
  - intros c v p Hc Hdes Huniq Hv Hne. apply elem_of_cons in Hc as [->|Hc].
    + destruct (both_seen c0 d v p) as (e & He & Hs); [done..|]. exists e. split; [by apply (gr_done _ _ G2)|done].
    + destruct (decide (key_of c0 = key_of c)) as [E|E].
      * assert (c0 = c) as -> by (apply Huniq; [by left|done]).
        destruct (both_seen c d v p) as (e & He & Hs); [done..|]. exists e. split; [by apply (gr_done _ _ G2)|done].
      * apply (D2 c v p); [done|done|intros c' Hc' Hk; apply Huniq; [by right|done]| |done].
        rewrite add_entry_view by done. unfold add_view. destruct (is_desirable c0); [|done]. by rewrite lookup_insert_ne.
Qed.

(** Adding the conditions of a tracked run keeps the queue well formed, drops no entry, and
    leaves conditions that are done alone; a condition of which both branches were seen is
    done, and every other desirable one has an entry. *)
Theorem add_entries_keep (conds : list CondStmt) (d : Depot) :
  depot_ok d -> Forall (belongs d) conds ->
  grows d (add_entries conds d) /\
  (forall c, c ∈ conds -> is_desirable c = true -> is_Some (view (add_entries conds d) !! key_of c)) /\
  (forall c v p, c ∈ conds -> is_desirable c = true -> (forall c', c' ∈ conds -> key_of c' = key_of c -> c' = c) ->
     view d !! key_of c = Some (v, p) -> condition (base v) <> condition (base c) ->
     exists e, view (add_entries conds d) !! key_of c = Some e /\ settled e).
Proof. apply add_entries_run. Qed.

Context (search : search_kind -> CondStmt -> list Z -> Depot -> res (CondStmt * Depot)).
(** A search that returns, finds no new input and keeps the condition that it works on. *)
Definition quiet : Prop := forall s c buf d, exists c', search s c buf d = Ok (c', d) /\
  key_of c' = key_of c /\ belong (base c') = belong (base c).
Context (Hq : quiet).
Lemma fuzz_cond_quiet c buf d : exists c', fuzz_cond search c buf d = Ok (c', d) /\ key_of c' = key_of c /\ belong (base c') = belong (base c).
Proof.
  unfold fuzz_cond. set (c1 := set_fuzz_times _ c).
  assert (Hn : forall x, key_of (next_state x) = key_of x /\ belong (base (next_state x)) = belong (base x)).
  { intros x. split; [apply next_key|]. unfold next_state. by destruct (state x); repeat case_match. }
  assert (Hs : forall s x, key_of x = key_of c -> belong (base x) = belong (base c) ->
    exists c', search s x buf d = Ok (c', d) /\ key_of c' = key_of c /\ belong (base c') = belong (base c)).
  { intros s x E1 E2. destruct (Hq s x buf d) as (c' & E & K & B). exists c'. split; [done|]. split; congruence. }
  destruct (get_fuzz_type c1); try (by apply Hs).
  - set (c2 := if is_time_expired c1 then next_state c1 else c1). assert (key_of c2 = key_of c /\ belong (base c2) = belong (base c)) as [K B].
    { unfold c2. destruct (is_time_expired c1); [|done]. destruct (Hn c1) as [-> ->]. done. }
    destruct (is_one_byte _); [by apply Hs|]. destruct (is_det _); by apply Hs.
  - destruct (is_one_byte _); [|by apply Hs]. destruct (Hs SOneByte c1) as (c' & -> & K & B); [done|done|]. cbn. by eexists.
  - by eexists.
Qed.

(** The conditions picked in [n] rounds. *)
Fixpoint rounds (n : nat) (d : Depot) : res (list key * Depot) :=
  match n with
  | O => Ok ([], d)
  | S m => res_bind (fuzz_round search d) (fun o =>
           match o with
           | None => Ok ([], d)
           | Some (c, d') => res_bind (rounds m d') (fun x => Ok (key_of c :: x.1, x.2))
           end)
  end.
(** One round picks an entry with the least priority, and raises it. *)
Lemma round_spec d k e : depot_ok d -> view d !! k = Some e -> q0 e.2 < 65534 ->
  exists c p e' d', fuzz_round search d = Ok (Some (c, d')) /\ view d !! key_of c = Some (c, p) /\ q0 p <= q0 e.2 /\
    view d' = <[ key_of c := e' ]> (view d) /\ q0 p + 1 <= q0 e'.2 /\ depot_ok d'.
Proof.
  intros Hd Hk He. unfold fuzz_round. destruct (get_entry d) as [o d1] eqn:Eg. cbn [fst snd]. destruct o as [[c p]|].
  2: { apply get_entry_none in Eg. rewrite Eg in Hk. done. }
  destruct (get_entry_some _ _ _ _ Eg) as (Hc & Hmin & Hd1). pose proof (Hmin k e Hk) as Hle.
  pose proof (Hd _ _ Hc) as (_ & Hp & Hb). cbn [fst snd] in *.
  assert (Hnd : q_is_done p = false) by (apply Z.eqb_neq; unfold DONE_PRIORITY; lia). rewrite Hnd in *. destruct Hd1 as [Ed1 Ev1].
  set (p1 := inc p (op (base c))) in *. pose proof (inc_raises p (op (base c)) ltac:(lia)) as Hr. fold p1 in Hr.
  assert (Ei : inputs d1 = inputs d) by (by rewrite Ed1).
  assert (U : forall c', key_of c' = key_of c -> belong (base c') = belong (base c) ->
    exists e' d', update_entry c' d1 = Ok d' /\ view d' = <[ key_of c := e' ]> (view d) /\ q0 p + 1 <= q0 e'.2 /\ depot_ok d').
  { intros c' K B. destruct (update_entry_exact c' d1 c p1) as (d' & E & V & I & _); [by rewrite Ev1, K, lookup_insert_eq|].
    rewrite K, Ev1, insert_insert_eq in V. eexists _, d'. split; [done|]. split; [exact V|]. split.
    - cbn [snd]. destruct (is_discarded c'); cbn; unfold DONE_PRIORITY; lia.
    - intros k' e'' H'. rewrite V in H'. apply lookup_insert_Some in H' as [[<- <-]|[Hne H']].
      + split; [done|]. rewrite I, Ei. cbn [fst snd]. rewrite B. split; [|done]. destruct (is_discarded c'); cbn; unfold DONE_PRIORITY; lia.
      + destruct (Hd _ _ H') as (A1 & A2 & A3). split; [done|]. split; [done|]. by rewrite I, Ei. }
  destruct (cond_is_done c).
  - destruct (U c eq_refl eq_refl) as (e' & d' & E & V). rewrite E. cbn. exists c, p, e', d'. split; [done|]. split; [done|]. split; [lia|done].
  - unfold get_input_buf. rewrite Ei. destruct (lookup_lt_is_Some_2 (inputs d) (Z.to_nat (belong (base c)))) as [buf ->]; [lia|]. cbn.
    destruct (fuzz_cond_quiet c buf d1) as (c' & -> & K & B). cbn. destruct (U c' K B) as (e' & d' & E & V). rewrite E. cbn.
    exists c, p, e', d'. split; [done|]. split; [done|]. split; [lia|done].
Qed.

(** C11: no condition starves.  As long as no new conditions come in, a condition is picked before
    the others were picked more often than their lead allows, whatever the searches do to
    the conditions they work on. *)
Theorem every_condition_served (d : Depot) (k : key) (c : CondStmt) (p : QPriority) :
  depot_ok d -> view d !! k = Some (c, p) -> q0 p < 65534 ->
  exists n ks d', (n <= waiting (q0 p) (view d))%nat /\ rounds n d = Ok (ks, d') /\ k ∈ ks.
Proof.
  remember (waiting (q0 p) (view d)) as n eqn:En. assert (Hn : (waiting (q0 p) (view d) <= n)%nat) by lia. clear En. revert d Hn.
  induction n as [|n IH]; intros d Hn Hd Hk Hp.
  - exfalso. rewrite (waiting_delete _ _ _ _ Hk) in Hn. unfold lead in Hn. cbn in Hn. lia.
  - destruct (round_spec d k (c, p) Hd Hk Hp) as (c1 & p1 & e' & d' & E & Hc1 & Hle & V & Hr & Hd'). cbn [snd] in *.
    destruct (decide (key_of c1 = k)) as [<-|Hne].
    + exists 1%nat, [key_of c1], d'. split; [lia|]. cbn [rounds]. rewrite E. cbn. split; [done|by left].
    + destruct (IH d') as (m & ks & d2 & Hm & E2 & Hin); [|done|by rewrite V, lookup_insert_ne|done|].
      * pose proof (waiting_insert (q0 p) (view d) (key_of c1) (c1, p1) e' Hc1) as W. rewrite <-V in W. unfold lead in W. cbn [snd] in W. lia.
      * exists (S m), (key_of c1 :: ks), d2. split; [lia|]. cbn [rounds]. rewrite E. cbn [res_bind]. rewrite E2. cbn. split; [done|by right].
Qed.
End Queue.

(** ** A queue for examples *)

Module MapQueue.
Abbreviation Q := (gmap key (CondStmt * QPriority)).
Definition better (e f : CondStmt * QPriority) : bool := match cmp e.2 f.2 with Gt => true | _ => false end.
Definition pick (l : list (CondStmt * QPriority)) : option (CondStmt * QPriority) :=
  match l with [] => None | e :: r => Some (fold_left (fun a b => if better b a then b else a) r e) end.
(** Items are filed under their own key. *)
Record keyed := mkKeyed { content : Q; content_ok : bool_decide (map_Forall (fun k e => key_of e.1 = k) content) = true }.
Lemma keyed_all q k e : content q !! k = Some e -> key_of e.1 = k.
Proof. intros He. exact (bool_decide_eq_true_1 _ (content_ok q) k e He). Qed.
Lemma cmp_refl p : cmp p p = Eq.
Proof. unfold cmp. by rewrite !Z.compare_refl. Qed.
Lemma cmp_trans p q r : cmp p q <> Gt -> cmp q r <> Gt -> cmp p r <> Gt.
Proof.
  unfold cmp. destruct (Z.compare_spec (q0 p) (q0 q)), (Z.compare_spec (q0 q) (q0 r)), (Z.compare_spec (q0 p) (q0 r)); try done; try lia;
  destruct (Z.compare_spec (q1 p) (q1 q)), (Z.compare_spec (q1 q) (q1 r)), (Z.compare_spec (q1 p) (q1 r)); try done; lia.
Qed.
Lemma cmp_total p q : cmp p q = Gt -> cmp q p <> Gt.
Proof.
  unfold cmp. destruct (Z.compare_spec (q0 p) (q0 q)), (Z.compare_spec (q0 q) (q0 p)); try done; try lia.
  destruct (Z.compare_spec (q1 p) (q1 q)), (Z.compare_spec (q1 q) (q1 p)); try done; lia.
Qed.
Lemma fold_best l : forall e, let r := fold_left (fun a b => if better b a then b else a) l e in
  (r = e \/ r ∈ l) /\ cmp e.2 r.2 <> Gt /\ forall x, x ∈ l -> cmp x.2 r.2 <> Gt.
Proof.
  induction l as [|y l IH]; intros e; cbn [fold_left].
  { split; [by left|]. split; [by rewrite cmp_refl|by intros x Hx%elem_of_nil]. }
  destruct (IH (if better y e then y else e)) as (I1 & I2 & I3). cbn zeta in *. set (r := fold_left _ l _) in *.
  assert (Hy : cmp y.2 (if better y e then y else e).2 <> Gt /\ cmp e.2 (if better y e then y else e).2 <> Gt).
  { unfold better. destruct (cmp y.2 e.2) eqn:E; rewrite ?cmp_refl, ?E; (split; [done|]); try done. by apply cmp_total. }
  split; [|split].
  - destruct I1 as [->|]; [|right; by right]. destruct (better y e); [right; by left|by left].
  - eapply cmp_trans; [apply Hy|done].
  - intros x [->|Hx]%elem_of_cons; [eapply cmp_trans; [apply Hy|done]|by apply I3].
Qed.
Definition peek (q : keyed) : option (CondStmt * QPriority) := pick (snd <$> map_to_list (content q)).
Lemma put_ok (q : keyed) c x : key_of x.1 = key_of c ->
  bool_decide (map_Forall (fun k (e : CondStmt * QPriority) => key_of e.1 = k) (<[ key_of c := x ]> (content q))) = true.
Proof.
  intros Hx. apply bool_decide_eq_true. intros k e [[<- <-]|[_ He]]%lookup_insert_Some; [done|by eapply keyed_all].
Qed.
Definition put (q : keyed) (c : CondStmt) (x : CondStmt * QPriority) (Hx : key_of x.1 = key_of c) : keyed :=
  mkKeyed (<[ key_of c := x ]> (content q)) (put_ok q c x Hx).
Definition change (q : keyed) (c : CondStmt) (p : QPriority) : keyed :=
  match content q !! key_of c as o return content q !! key_of c = o -> keyed with
  | Some e => fun E => put q c (e.1, p) (keyed_all q (key_of c) e E)
  | None => fun _ => q
  end eq_refl.
Lemma change_view q c p : content (change q c p) =
  match content q !! key_of c with Some e => <[ key_of c := (e.1, p) ]> (content q) | None => content q end.
Proof.
  assert (G : forall o (E : content q !! key_of c = o),
    content (match o as o' return content q !! key_of c = o' -> keyed with
             | Some e => fun E => put q c (e.1, p) (keyed_all q (key_of c) e E)
             | None => fun _ => q
             end E) = match o with Some e => <[ key_of c := (e.1, p) ]> (content q) | None => content q end) by (by intros [e|] E).
  apply G.
Qed.
#[export] Instance map_queue : PriorityQueue := {|
  pq := keyed; pq_new := mkKeyed ∅ eq_refl; pq_peek := peek; pq_get q c := content q !! key_of c;
  pq_replace q c := match content q !! key_of c with Some e => put q c (c, e.2) eq_refl | None => q end;
  pq_push q c p := put q c (c, p) eq_refl; pq_change_priority := change; pq_view := content |}.
#[export] Instance map_queue_spec : PriorityQueueSpec.
Proof.
  split.
  - done.
  - intros q. cbn. unfold peek. destruct (map_to_list (content q)) as [|x l] eqn:E; cbn.
    + by apply map_to_list_empty_iff in E as ->.
    + split; [done|]. intros E0. apply map_to_list_empty_iff in E0. by rewrite E0 in E.
  - intros q c p Hp. cbn in *. unfold peek in Hp.
    assert (Hin : forall k e, content q !! k = Some e -> e ∈ snd <$> map_to_list (content q)).
    { intros k e He. apply list_elem_of_fmap. exists (k, e). split; [done|]. by apply elem_of_map_to_list. }
    assert (Hout : forall e, e ∈ snd <$> map_to_list (content q) -> content q !! key_of e.1 = Some e).
    { intros e ([k e'] & -> & He%elem_of_map_to_list)%list_elem_of_fmap. cbn. by rewrite (keyed_all q k e'). }
    destruct (snd <$> map_to_list (content q)) as [|x l] eqn:E; [done|]. cbn in Hp. injection Hp as Hp.
    destruct (fold_best l x) as (F1 & F2 & F3). cbn zeta in *. rewrite Hp in *. split.
    + apply (Hout (c, p)). destruct F1 as [->|]; [by left|by right].
    + intros k c' p' He. apply Hin in He as [<-|He]%elem_of_cons; [done|]. by apply (F3 (c', p')).
  - done.
  - intros q c. cbn. by destruct (content q !! key_of c).
  - done.
  - intros q c p. apply change_view.
Qed.
End MapQueue.

(** ** Examples *)

Module DepotEx.
Import ListGraph CfgEx MapQueue.
(** Three conditions that were picked a different number of times. *)
Definition cnd (id : Z) : CondStmt :=
  set_offsets [mkSeg false 0 2] [mkSeg false 1 4] (CondStmt_from (mkCond id 0 0 1 0 0 0 COND_ICMP_EQ_OP 4 1 2 7 9)).
Definition q3 : pq := pq_push (pq_push (pq_push pq_new (cnd 1) (mkQ 0 5)) (cnd 2) (mkQ 2 5)) (cnd 3) (mkQ 1 9).
Definition d3 : Depot := mkDepot _ _ q3 [[1; 2; 3; 4]] [] [] c0.
Lemma d3_ok : depot_ok d3.
Proof.
  intros k e. unfold view, d3, q3, queue. rewrite !pq_push_law by (by vm_compute). rewrite pq_new_law.
  intros [[<- <-]|[_ [[<- <-]|[_ [[<- <-]|[_ ?]]%lookup_insert_Some]]%lookup_insert_Some]]%lookup_insert_Some; [..|done]; by vm_compute.
Qed.
(** A search that gives up. *)
Definition give_in (s : search_kind) (c : CondStmt) (buf : list Z) (d : Depot) : res (CondStmt * Depot) := Ok (to_unsolvable c, d).
Lemma give_in_quiet : quiet give_in.
Proof. intros s c buf d. by exists (to_unsolvable c). Qed.
Lemma search_states_end_witness : covers (offsets (Nat.iter 3 next_state (cnd 1))) 3 /\ FuzzDepot.state (Nat.iter 4 next_state (cnd 1)) = OffsetAllEnd.
Proof.
  split; [|done]. apply (search_states_end (cnd 1) 3 ltac:(by left)); [lia|]. right. exists (mkSeg false 1 4). split; [by left|cbn; lia].
Defined.
Lemma update_entry_exact_witness : exists d', update_entry (mark_as_done (cnd 2)) d3 = Ok d' /\ targets (depot_cfg d') = {[ 4 ]}.
Proof.
  destruct (update_entry_exact (mark_as_done (cnd 2)) d3 (cnd 2) (mkQ 2 5)) as (d' & E & _ & _ & T & _); [by vm_compute|].
  exists d'. split; [exact E|]. rewrite T by done. by vm_compute.
Defined.
Lemma every_condition_served_witness : exists n ks d', (n <= 6)%nat /\ rounds give_in n d3 = Ok (ks, d') /\ (2, 0, 1) ∈ ks.
Proof.
  destruct (every_condition_served give_in give_in_quiet d3 (2, 0, 1) (cnd 2) (mkQ 2 5) d3_ok) as (n & ks & d' & Hn & E & Hin); [by vm_compute|by vm_compute|].
  exists n, ks, d'. split; [|done]. etrans; [exact Hn|]. apply Nat.leb_le. by vm_compute.
Defined.
Lemma add_entries_keep_witness :
  is_Some (view (add_entries [cnd 7; cnd 1] d3) !! (7, 0, 1)) /\
  exists e, view (add_entries [set_base (flip_condition (base (cnd 1))) (cnd 1)] d3) !! (1, 0, 1) = Some e /\ settled e.
Proof.
  split.
  - apply (add_entries_keep [cnd 7; cnd 1] d3 d3_ok) with (c := cnd 7); [by repeat constructor; vm_compute|by left|done].
  - apply (add_entries_keep [set_base (flip_condition (base (cnd 1))) (cnd 1)] d3 d3_ok) with
      (c := set_base (flip_condition (base (cnd 1))) (cnd 1)) (v := cnd 1) (p := mkQ 0 5); [by repeat constructor; vm_compute|by left|done| |by vm_compute|done].
    by intros c' ->%list_elem_of_singleton.
Defined.
End DepotEx.
