(* ===== verification/FuzzExec.v ===== *)
(** * Executions, and what the fuzzer learns from them

    [fuzzer/src/track] ([fparser.rs], [filter.rs]), [fuzzer/src/executor/executor.rs] and
    [fuzzer/src/search/handler.rs].  The log of a tracked run becomes a list of conditions,
    which go to the queue; coverage decides which inputs are kept; a search spends a number
    of executions.  What the programs under test do when they are run is a parameter
    ([Target]), and so are the clock and the averages behind the speed of a run. *)

From S2P Require Import Prelude Dfsan TagSet TagSetFind TagStore TrackLog FuzzCond FuzzInput FuzzCfg FuzzBranches FuzzDepot.
Local Open Scope Z_scope.

(** ** The log of a tracked run ([fparser.rs]) *)

Definition get_offsets_and_variables (m : gmap Z (list TagSeg)) (magic : option (list Z * list Z)) (c : CondStmt) : CondStmt :=
  let b := base c in
  let offsets1 := default [] (m !! lb1 b) in
  let offsets2 := default [] (m !! lb2 b) in
  if (length offsets2 =? 0)%nat || ((0 <? length offsets1)%nat && (length offsets1 <=? length offsets2)%nat) then
    set_variables (match magic with Some args => args.2 ++ args.1 | None => write_as_ule (arg2 b) (size b) end)
      (set_offsets offsets1 (if (0 <? lb2 b) && negb (lb1 b =? lb2 b) then offsets2 else offsets_opt c) c)
  else
    set_variables (match magic with Some args => args.1 ++ args.2 | None => write_as_ule (arg1 b) (size b) end)
      (set_offsets offsets2 (if (0 <? lb1 b) && negb (lb1 b =? lb2 b) then offsets1 else offsets_opt c) c).

(** The condition that is made from the [i]th record. *)
Definition parse_cond (log : Logger) (i : nat) (b : CondStmtBase) : CondStmt :=
  if negb (op b =? COND_LEN_OP) && ((0 <? lb1 b) || (0 <? lb2 b))
  then get_offsets_and_variables (log_tags log) (TrackLog.magic_bytes log !! i) (CondStmt_from b)
  else CondStmt_from b.
Fixpoint parse_loop (enable_exploitation : bool) (log : Logger) (i : nat) (l : list CondStmtBase) : list CondStmt :=
  match l with
  | [] => []
  | b :: r =>
      if negb enable_exploitation && is_exploitable b then parse_loop enable_exploitation log (S i) r
      else parse_cond log i b :: parse_loop enable_exploitation log (S i) r
  end.
(** [log] is the content of the file, unless reading it fails. *)
Definition read_and_parse (log : option Logger) (enable_exploitation : bool) : option (list CondStmt) :=
  match log with
  | Some log => Some (parse_loop enable_exploitation log 0 (cond_list log))
  | None => None
  end.

(** ** Duplicates ([filter.rs]) *)

Definition set_desirable (b : bool) (c : CondStmt) : CondStmt :=
  mkStmt (base c) (offsets c) (offsets_opt c) (variables c) (speed c) b (is_consistent c) (cond_is_target c)
    (fuzz_times c) (state c) (num_minimal_optima c) (linear c).
Abbreviation CondArgs := (Z * Z * Z * Z * Z)%type.
Definition cond_args (b : CondStmtBase) : CondArgs := (cmpid b, lb1 b, lb2 b, arg1 b, arg2 b).
Definition has_no_taint (c : CondStmt) : bool := negb (op (base c) =? COND_LEN_OP) && (length (offsets c) =? 0)%nat.
Definition exceed_max_order (c : CondStmt) : bool := MAX_COND_ORDER <? Z.land (order (base c)) 0xFFFF.
Definition size_not_match (c : CondStmt) : bool :=
  let n := size (base c) in
  (is_explore (base c) || is_exploitable (base c))
  && (negb (n =? 1) && negb (n =? 2) && negb (n =? 4) && negb (n =? 8)).
Definition filter_eof (c : CondStmt) : bool :=
  (Z.land (op (base c)) 0xFF =? COND_ICMP_EQ_OP) && (arg2 (base c) =? 18446744073709551615)
  && (length (offsets c) =? 1)%nat && (arg1 (base c) <? 256) && (size (base c) =? 4).
Definition unusable (c : CondStmt) : bool := has_no_taint c || exceed_max_order c || size_not_match c || filter_eof c.
Fixpoint filter_loop (exploitable_labels : gset Z) (unique_conds : gset CondArgs) (l : list CondStmt) : list CondStmt :=
  match l with
  | [] => []
  | c :: r =>
      if unusable c then set_desirable false c :: filter_loop exploitable_labels unique_conds r
      else if is_exploitable (base c) then
        if bool_decide (lb1 (base c) ∈ exploitable_labels)
        then set_desirable false c :: filter_loop exploitable_labels unique_conds r
        else c :: filter_loop ({[ lb1 (base c) ]} ∪ exploitable_labels) unique_conds r
      else if is_explore (base c) || (op (base c) =? COND_LEN_OP) then
        if bool_decide (cond_args (base c) ∈ unique_conds)
        then set_desirable false c :: filter_loop exploitable_labels unique_conds r
        else c :: filter_loop exploitable_labels ({[ cond_args (base c) ]} ∪ unique_conds) r
      else c :: filter_loop exploitable_labels unique_conds r
  end.
Definition filter_cond_list (l : list CondStmt) : list CondStmt := filter_loop ∅ ∅ l.

Definition set_belong (id : Z) (b : CondStmtBase) : CondStmtBase :=
  mkCond (cmpid b) (context b) (last_callsite b) (order b) id (condition b) (level b) (op b) (size b)
    (lb1 b) (lb2 b) (arg1 b) (arg2 b).
Definition one_byte_offset (c : CondStmt) : bool :=
  match offsets c with [o] => u32 (seg_end o - seg_begin o) =? 1 | _ => false end.
(** The loop body of [load_track_data]. *)
Definition assign_input (id speed : Z) (c : CondStmt) : CondStmt :=
  let c := set_speed speed (set_base (set_belong id (base c)) c) in
  if one_byte_offset c then set_state OneByte c else c.
Definition load_track_data (log : option Logger) (id speed : Z) (enable_exploitation : bool) : list CondStmt :=
  filter_cond_list (assign_input id speed <$> default [] (read_and_parse log enable_exploitation)).

(** ** Tracking ([executor.rs]) *)

Definition set_target (b : bool) (c : CondStmt) : CondStmt :=
  mkStmt (base c) (offsets c) (offsets_opt c) (variables c) (speed c) (is_desirable c) (is_consistent c) b
    (fuzz_times c) (state c) (num_minimal_optima c) (linear c).
(** The loop that overwrites variables with fixed bytes; [var_len - 1] wraps around. *)
Fixpoint fix_variables (var_len : Z) (fixed : list (nat * Z)) (vars : list Z) : res (list Z) :=
  match fixed with
  | [] => Ok vars
  | (i, v) :: r =>
      if Z.of_nat i <? u64 (var_len - 1) then
        if (i <? length vars)%nat then fix_variables var_len r (<[ i := v ]> vars) else Fault Panicked
      else fix_variables var_len r vars
  end.
(** [tuple_windows]. *)
Fixpoint windows {A} (l : list A) : list (A * A) :=
  match l with
  | a :: (b :: _) as r => (a, b) :: windows r
  | _ => []
  end.

Section Track.
Context `{GraphMap} `{Mean}.
Implicit Types c : ControlFlowGraph.

(** The offsets known for the comparisons that lead to the call site; the set is iterated
    in the order of [elements]. *)
Definition dominator_offsets (ds : gset CmpId) (known : gmap CmpId (list TagSeg)) : list TagSeg :=
  concat ((fun d => default [] (known !! d)) <$> elements ds).
(** The body for an edge into code behind an indirect call. *)
Definition indirect_step (buf : list Z) (edge : Edge) (b : CondStmt) (known : gmap CmpId (list TagSeg)) (g : ControlFlowGraph)
  : res (CondStmt * ControlFlowGraph) :=
  let cs := last_callsite (base b) in
  let g := set_edge_indirect g edge cs in
  let fixed_offsets := dominator_offsets (get_callsite_dominators g cs) known in
  res_bind (set_magic_bytes g edge buf fixed_offsets) (fun g =>
  res_bind (fix_variables (Z.of_nat (length (variables b))) (get_magic_bytes g edge) (variables b)) (fun vars =>
  Ok (set_variables vars (set_offsets (offsets b ++ fixed_offsets) (offsets_opt b) b), g))).
Fixpoint track_loop (buf : list Z) (ws : list (CondStmt * CondStmt)) (known : gmap CmpId (list TagSeg)) (g : ControlFlowGraph)
  : res (list CondStmt * ControlFlowGraph) :=
  match ws with
  | [] => Ok ([], g)
  | (a, b) :: r =>
      let edge := (cmpid (base a), cmpid (base b)) in
      res_bind (add_edge g edge) (fun x =>
      let g := x.2 in
      let known := if dominates_indirect_call g (cmpid (base a)) then <[ cmpid (base a) := offsets a ]> known else known in
      if negb (last_callsite (base b) =? 0) then
        res_bind (indirect_step buf edge b known g) (fun y =>
        res_bind (track_loop buf r known y.2) (fun z => Ok (y.1 :: z.1, z.2)))
      else track_loop buf r known g)
  end.
Definition mark_target (g : ControlFlowGraph) (c : CondStmt) : CondStmt :=
  if is_target g (cmpid (base c)) then set_target true c else c.
(** [status] and [log] are what the tracking program did. *)
Definition track (status : StatusType) (log : option Logger) (enable_exploitation : bool)
  (id : Z) (buf : list Z) (speed : Z) (g : ControlFlowGraph) : res (list CondStmt * ControlFlowGraph) :=
  if negb (bool_decide (status = Normal)) then Ok ([], g) else
  let l := load_track_data log (u32 id) speed enable_exploitation in
  res_bind (track_loop buf (windows l) ∅ g) (fun x => Ok ((mark_target x.2 <$> l) ++ x.1, x.2)).
End Track.

(** ** Executions *)

Definition TMOUT_SKIP : Z := 3.
Definition MAX_INVARIABLE_NUM : Z := 16.
Definition MAX_SEARCH_EXEC_NUM : Z := 376.
Definition BONUS_EXEC_NUM : Z := 66.
Definition is_initial (s : CondState) : bool := bool_decide (s = Offset) || is_one_byte s.

(** What the programs do with one input: the outcome of the run, its coverage and what it
    does to the shared condition; what the runs that measure its speed do to it; the speed and how it
    compares to the average; the run without a limit on memory; the tracked run. *)
Record Target := mkTarget {
  t_status : StatusType; t_trace : list Z; t_conds : shm -> shm;
  t_again : shm -> shm; t_speed : Z; t_ratio : Z;
  t_unmem_status : StatusType; t_unmem_trace : list Z; t_unmem_conds : shm -> shm;
  t_track_status : StatusType; t_log : option Logger }.

Record Executor `{GraphMap} `{PriorityQueue} := mkExec {
  ex_branches : GlobalBranches;
  ex_conds : shm;
  ex_depot : Depot;
  tmout_cnt : Z; invariable_cnt : Z; last_f : Z; has_new_path : bool;
  num_exec : Z }.

Section Exec.
Context `{GraphMap} `{Mean} `{PriorityQueue}.
(** The command line. *)
Context (is_directed enable_exploitation enable_afl : bool).
Implicit Types e : Executor.

Definition with_branches (g : GlobalBranches) (e : Executor) : Executor :=
  mkExec _ _ g (ex_conds e) (ex_depot e) (tmout_cnt e) (invariable_cnt e) (last_f e) (has_new_path e) (num_exec e).
Definition with_conds (s : shm) (e : Executor) : Executor :=
  mkExec _ _ (ex_branches e) s (ex_depot e) (tmout_cnt e) (invariable_cnt e) (last_f e) (has_new_path e) (num_exec e).
Definition with_depot (d : Depot) (e : Executor) : Executor :=
  mkExec _ _ (ex_branches e) (ex_conds e) d (tmout_cnt e) (invariable_cnt e) (last_f e) (has_new_path e) (num_exec e).
Definition with_tmout (n : Z) (e : Executor) : Executor :=
  mkExec _ _ (ex_branches e) (ex_conds e) (ex_depot e) n (invariable_cnt e) (last_f e) (has_new_path e) (num_exec e).
Definition with_output (n f : Z) (e : Executor) : Executor :=
  mkExec _ _ (ex_branches e) (ex_conds e) (ex_depot e) (tmout_cnt e) n f (has_new_path e) (num_exec e).
Definition with_new_path (b : bool) (e : Executor) : Executor :=
  mkExec _ _ (ex_branches e) (ex_conds e) (ex_depot e) (tmout_cnt e) (invariable_cnt e) (last_f e) b (num_exec e).
Definition count_exec (n : Z) (e : Executor) : Executor :=
  mkExec _ _ (ex_branches e) (ex_conds e) (ex_depot e) (tmout_cnt e) (invariable_cnt e) (last_f e) (has_new_path e) n.

Definition run_init (e : Executor) : Executor := count_exec (u64 (num_exec e + 1)) (with_new_path false e).
(** The run itself. *)
Definition run_inner (t : Target) (e : Executor) : Executor := with_conds (t_conds t (ex_conds e)) e.

Definition set_inconsistent (c : CondStmt) : CondStmt :=
  mkStmt (base c) (offsets c) (offsets_opt c) (variables c) (speed c) (is_desirable c) false (cond_is_target c)
    (fuzz_times c) (state c) (num_minimal_optima c) (linear c).
Definition check_consistent (output : Z) (c : CondStmt) (e : Executor) : CondStmt :=
  if (output =? UNREACHABLE) && is_first_time c && (num_exec e =? 1) && is_initial (state c)
  then set_inconsistent c else c.
Definition check_invariable (output : Z) (c : CondStmt) (e : Executor) : bool * CondStmt * Executor :=
  if output =? last_f e then
    let n := u64 (invariable_cnt e + 1) in
    if MAX_INVARIABLE_NUM <=? n then
      (negb (is_det (state c)) && negb (is_one_byte (state c)), set_desirable false c, with_output n output e)
    else (false, c, with_output n output e)
  else (false, c, with_output 0 output e).
Definition check_explored (output : Z) (c : CondStmt) : bool * CondStmt :=
  if (output =? 0) && negb (cond_is_done c) then (true, mark_as_done c) else (false, c).
Definition check_timeout (status : StatusType) (c : CondStmt) (e : Executor) : StatusType * CondStmt * Executor :=
  let status := if bool_decide (status = Error) then FuzzBranches.Timeout else status in
  if bool_decide (status = FuzzBranches.Timeout) then
    let n := u64 (tmout_cnt e + 1) in
    if TMOUT_SKIP <=? n then (Skip, to_timeout c, with_tmout 0 e) else (status, c, with_tmout n e)
  else (status, c, with_tmout 0 e).

Definition try_unlimited_memory (t : Target) (buf : list Z) (e : Executor) : res (bool * Executor) :=
  let e := with_conds (t_unmem_conds t (ex_conds e)) e in
  if bool_decide (t_unmem_status t = Normal) then Ok (false, e) else
  res_bind (has_new (t_unmem_trace t) (t_unmem_status t) is_directed (ex_branches e)) (fun x =>
  let e := with_branches x.2 e in
  Ok (true, if x.1.1.1 then with_depot (save (t_unmem_status t) buf (ex_depot e)).2 e else e)).
(** The part for an input that is tracked. *)
Definition track_input (t : Target) (id : Z) (buf : list Z) (edge_num : nat) (e : Executor) : res Executor :=
  res_bind (track (t_track_status t) (t_log t) enable_exploitation id buf (t_speed t) (depot_cfg (ex_depot e))) (fun x =>
  let d := with_cfg x.2 (ex_depot e) in
  Ok (with_depot
    (if (0 <? length x.1)%nat then
       let d := add_entries x.1 d in
       if enable_afl then add_entries [get_afl_cond id (t_speed t) (Z.of_nat edge_num)] d else d
     else d) e)).
Definition too_slow (t : Target) (has_new_edge : bool) (id : Z) : bool :=
  (negb has_new_edge && (10 <? t_ratio t) && (10 <? id)) || ((25 <? t_ratio t) && (10 <? id)).
Definition do_if_has_new (t : Target) (buf : list Z) (status : StatusType) (e : Executor) : res Executor :=
  res_bind (has_new (t_trace t) status is_directed (ex_branches e)) (fun x =>
  let '(new_path, new_edge, edge_num) := x.1 in
  let e := with_branches x.2 e in
  if new_path : bool then
    let e := with_new_path true e in
    let s := save status buf (ex_depot e) in
    let id := s.1 in
    let e := with_depot s.2 e in
    if bool_decide (status = Normal) then
      let e := with_conds (t_again t (ex_conds e)) e in
      if too_slow t new_edge id then Ok e else
      res_bind (try_unlimited_memory t buf e) (fun y =>
      if y.1 : bool then Ok y.2 else track_input t id buf edge_num y.2)
    else Ok e
  else Ok e).

Definition run_with_cond (t : Target) (buf : list Z) (c : CondStmt) (e : Executor)
  : res (StatusType * Z * CondStmt * Executor) :=
  let e := run_init e in
  let e := with_conds (FuzzCond.set (base c) (ex_conds e)).2 e in
  let e := run_inner t e in
  let output := get_cond_output (ex_conds e) in
  let x := check_explored output c in
  let '(skip2, c2, e) := check_invariable output x.2 e in
  let c := check_consistent output c2 e in
  res_bind (do_if_has_new t buf (t_status t) e) (fun e =>
  let '(status, c, e) := check_timeout (t_status t) c e in
  Ok (if x.1 || skip2 then Skip else status, output, c, e)).
Definition run (t : Target) (buf : list Z) (c : CondStmt) (e : Executor) : res (StatusType * CondStmt * Executor) :=
  let e := run_inner t (run_init e) in
  res_bind (do_if_has_new t buf (t_status t) e) (fun e => Ok (check_timeout (t_status t) c e)).
Definition run_sync (t : Target) (buf : list Z) (e : Executor) : res Executor :=
  do_if_has_new t buf (t_status t) (run_inner t (run_init e)).
Definition update_log (e : Executor) : Executor :=
  with_output 0 UNREACHABLE (with_tmout 0 (with_conds (FuzzCond.clear (ex_conds e)) e)).
End Exec.

(** ** Searches ([handler.rs]) *)

Record Handler `{GraphMap} `{PriorityQueue} := mkHandler {
  h_exec : Executor; h_cond : CondStmt; h_buf : list Z; max_times : Z; h_skip : bool }.

Section Search.
Context `{GraphMap} `{Mean} `{PriorityQueue}.
Context (is_directed enable_exploitation enable_afl : bool).
Implicit Types (e : Executor) (h : Handler).

(** [register] sets the number of executions back. *)
Definition SearchHandler_new (e : Executor) (c : CondStmt) (buf : list Z) : Handler :=
  mkHandler _ _ (count_exec 0 e) (set_fuzz_times (u64 (fuzz_times c + 1)) c) buf MAX_SEARCH_EXEC_NUM false.
Definition is_stopped_or_skip (running : bool) (h : Handler) : bool := negb running || h_skip h.
Definition process_status (status : StatusType) (h : Handler) : Handler :=
  let skip := if bool_decide (status = Skip) then true else h_skip h in
  let max := if has_new_path (h_exec h) then u64 (max_times h + BONUS_EXEC_NUM) else max_times h in
  mkHandler _ _ (h_exec h) (h_cond h) (h_buf h) max (if max <? num_exec (h_exec h) then true else skip).
Definition with_run (c : CondStmt) (e : Executor) (h : Handler) : Handler :=
  mkHandler _ _ e c (h_buf h) (max_times h) (h_skip h).
Definition with_buf (buf : list Z) (h : Handler) : Handler :=
  mkHandler _ _ (h_exec h) (h_cond h) buf (max_times h) (h_skip h).

Definition execute (t : Target) (buf : list Z) (h : Handler) : res Handler :=
  res_bind (run is_directed enable_exploitation enable_afl t buf (h_cond h) (h_exec h)) (fun x =>
  Ok (process_status x.1.1 (with_run x.1.2 x.2 h))).
Definition execute_input_direct (t : Target) (h : Handler) : res Handler := execute t (h_buf h) h.
Definition execute_input (t : Target) (input : MutInput) (h : Handler) : res Handler :=
  res_bind (write_to_input input (offsets (h_cond h)) (h_buf h)) (fun buf => execute_input_direct t (with_buf buf h)).
Definition execute_cond_direct (t : Target) (h : Handler) : res (Z * Handler) :=
  res_bind (run_with_cond is_directed enable_exploitation enable_afl t (h_buf h) (h_cond h) (h_exec h)) (fun x =>
  let '(status, f_output, c, e) := x in Ok (f_output, process_status status (with_run c e h))).
Definition execute_cond (t : Target) (input : MutInput) (h : Handler) : res (Z * Handler) :=
  res_bind (write_to_input input (offsets (h_cond h)) (h_buf h)) (fun buf => execute_cond_direct t (with_buf buf h)).
Definition get_f_input (h : Handler) : res MutInput := from (offsets (h_cond h)) (h_buf h).
(** [drop] *)
Definition drop_handler (h : Handler) : Handler := with_run (h_cond h) (update_log (h_exec h)) h.

(** What a search does between two looks at the handler: it may ask whether to stop, it may edit
    what it keeps in the condition, and it executes an input in one of the five ways the handler
    has.  What the programs do depends on the input they are run with. *)
Inductive action :=
| Execute (buf : list Z) | ExecuteInput (input : MutInput) | ExecuteInputDirect
| ExecuteCond (input : MutInput) | ExecuteCondDirect.
Record step := mkStep { s_asks : bool; s_edit : CondStmt -> CondStmt; s_action : action; s_target : list Z -> Target }.
Definition perform (a : action) (t : list Z -> Target) (h : Handler) : res Handler :=
  match a with
  | Execute buf => execute (t buf) buf h
  | ExecuteInputDirect => execute_input_direct (t (h_buf h)) h
  | ExecuteInput input =>
      res_bind (write_to_input input (offsets (h_cond h)) (h_buf h)) (fun buf => execute_input (t buf) input h)
  | ExecuteCondDirect => res_bind (execute_cond_direct (t (h_buf h)) h) (fun x => Ok x.2)
  | ExecuteCond input =>
      res_bind (write_to_input input (offsets (h_cond h)) (h_buf h)) (fun buf =>
      res_bind (execute_cond (t buf) input h) (fun x => Ok x.2))
  end.
(** A search: it ends where it asks and is told to stop. *)
Fixpoint executions (ts : list step) (h : Handler) : res Handler :=
  match ts with
  | [] => Ok h
  | x :: r =>
      if s_asks x && is_stopped_or_skip true h then Ok h else
      res_bind (perform (s_action x) (s_target x) (with_run (s_edit x (h_cond h)) (h_exec h) h)) (executions r)
  end.
End Search.

(** ** From the comparison to the condition *)

(** The segments the log has for a label. *)
Definition segs_for (log : Logger) (lb : Z) : list TagSeg := default [] (log_tags log !! lb).
Lemma covers_none l x : (length l =? 0)%nat = true -> covers l x <-> False.
Proof. destruct l; [intros _; apply covers_nil|done]. Qed.
Lemma parse_base log i b : base (parse_cond log i b) = b.
Proof. unfold parse_cond, get_offsets_and_variables. by repeat case_match. Qed.
Lemma parse_state log i b : state (parse_cond log i b) = Offset.
Proof. unfold parse_cond, get_offsets_and_variables. by repeat case_match. Qed.
(** The offsets of a condition are those of its labels. *)
Lemma parse_offsets log i b x : op b <> COND_LEN_OP -> 0 <= lb1 b -> 0 <= lb2 b -> ~ covers (segs_for log 0) x ->
  covers (offsets (parse_cond log i b)) x \/ covers (offsets_opt (parse_cond log i b)) x <->
  covers (segs_for log (lb1 b)) x \/ covers (segs_for log (lb2 b)) x.
Proof.
  intros Hop H1 H2 Hz. unfold parse_cond. rewrite (proj2 (Z.eqb_neq _ _) Hop). cbn [negb andb].
  assert (E : forall lb, 0 <= lb -> (0 <? lb) = false -> ~ covers (segs_for log lb) x)
    by (intros lb Hlb Hf; by replace lb with 0 by (apply Z.ltb_ge in Hf; lia)).
  destruct (0 <? lb1 b) eqn:E1; [|destruct (0 <? lb2 b) eqn:E2]; cbn [orb].
  3: { cbn. rewrite covers_nil. apply E in E1, E2; tauto. }
  all: unfold get_offsets_and_variables; cbn [base CondStmt_from offsets_opt]; fold (segs_for log (lb1 b)) (segs_for log (lb2 b));
    rewrite ?E1, ?E2; cbn [andb].
  all: destruct (_ || _) eqn:C; cbn [offsets offsets_opt set_variables set_offsets].
  - destruct (0 <? lb2 b) eqn:E2; cbn [andb]; [|apply E in E2; [|done]; rewrite covers_nil; tauto].
    destruct (Z.eqb_spec (lb1 b) (lb2 b)) as [->|]; cbn [negb]; rewrite ?covers_nil; tauto.
  - destruct (Z.eqb_spec (lb1 b) (lb2 b)) as [->|]; cbn [negb]; rewrite ?covers_nil; tauto.
  - apply E in E1; [|done]. destruct (Z.eqb_spec (lb1 b) (lb2 b)) as [->|]; cbn [negb]; rewrite ?covers_nil; tauto.
  - apply E in E1; [|done]. rewrite covers_nil. tauto.
Qed.

Lemma parse_loop_elem ex log b l : b ∈ l -> is_exploitable b = false -> forall i, exists j, parse_cond log j b ∈ parse_loop ex log i l.
Proof.
  induction l as [|b' l IH]; [by intros ?%elem_of_nil|]. intros [<-|Hb]%elem_of_cons Hx i; cbn [parse_loop].
  - rewrite Hx, andb_false_r. exists i. by left.
  - destruct (IH Hb Hx (S i)) as [j Hj]. exists j. destruct (_ && _); [done|by right].
Qed.
Lemma parse_loop_inv ex log l : forall i c, c ∈ parse_loop ex log i l -> exists j b, l !! j = Some b /\ c = parse_cond log (i + j) b.
Proof.
  induction l as [|b l IH]; intros i c; cbn [parse_loop]; [by intros ?%elem_of_nil|].
  assert (Hr : c ∈ parse_loop ex log (S i) l -> exists j b', (b :: l) !! j = Some b' /\ c = parse_cond log (i + j) b').
  { intros (j & b' & Hb & ->)%IH. exists (S j), b'. split; [done|]. f_equal. lia. }
  destruct (_ && _); [done|]. intros [->|Hc]%elem_of_cons; [|by apply Hr]. exists 0%nat, b. split; [done|]. by rewrite Nat.add_0_r.
Qed.

(** Filtering only changes whether conditions are desirable. *)
Definition marked (c c' : CondStmt) : Prop := c' = set_desirable (is_desirable c') c.
Lemma desirable_id c : set_desirable (is_desirable c) c = c.
Proof. by destruct c. Qed.
Lemma filter_marks l : forall xs us, Forall2 marked l (filter_loop xs us l).
Proof.
  induction l as [|c l IH]; intros xs us; cbn [filter_loop]; [constructor|].
  assert (H0 : marked c (set_desirable false c)) by done. assert (H1 : marked c c) by (symmetry; apply desirable_id).
  repeat case_match; constructor; auto.
Qed.
Lemma marked_elem l xs us c : c ∈ l -> exists c', c' ∈ filter_loop xs us l /\ marked c c'.
Proof.
  intros (i & Hi)%list_elem_of_lookup. destruct (Forall2_lookup_l _ _ _ _ _ (filter_marks l xs us) Hi) as (c' & Hc & Hm).
  exists c'. split; [by eapply list_elem_of_lookup_2|done].
Qed.
Lemma assign_fields id sp c : base (assign_input id sp c) = set_belong id (base c) /\ offsets (assign_input id sp c) = offsets c /\
  offsets_opt (assign_input id sp c) = offsets_opt c /\ variables (assign_input id sp c) = variables c /\
  speed (assign_input id sp c) = sp /\ is_desirable (assign_input id sp c) = is_desirable c.
Proof. unfold assign_input. by destruct (one_byte_offset _). Qed.

Section Logged.
Context (lim : Z) (Hlim : 0 <= lim < 2 ^ 31 - 8).
#[local] Instance log_view : LabelStoreView tag_state := tag_view lim.
#[local] Instance log_laws : LabelStoreSpec tag_state := tag_store_spec lim Hlim.
Context {OS : Type}.
Implicit Types tr : TrackLog.track OS.
Abbreviation tags_of tr := (tags (IoFunc.rt (tio tr))).

Lemma shows_covers t d lb l : ~ (exists x, covers (segs_for d 0) x) -> shows lim t d lb l -> 0 <= lb /\ forall x, covers (segs_for d lb) x <-> x ∈ taint t l.
Proof.
  intros Hz [[-> E]|[Hpos (segs & E & Hs)]].
  - change (taint t l = ∅) in E. split; [lia|]. intros x. rewrite E. split; [|set_solver]. intros Hx. destruct Hz. by exists x.
  - split; [lia|]. intros x. unfold segs_for. rewrite E. apply Hs.
Qed.

(** C3: a comparison reaches the fuzzer with what it depends on.  If the instrumented program
    compares two tainted values and has done so less than sixteen times in this context, the
    conditions that the fuzzer loads from the log have one for this comparison, with the
    values compared and assigned to the input, whose offsets together are exactly the input
    offsets that the two values are tainted with. *)
Theorem tracked_comparison_loaded tr d cid ctx callsite n o a1 a2 cond k0 k1 k2 k3 k4 l1 l2 k7 :
  track_ok lim tr -> LC tr = Some d -> ls_valid (tags_of tr) l1 -> ls_valid (tags_of tr) l2 -> l1 <> 0 \/ l2 <> 0 ->
  len_known (IoFunc.len_info (tio tr)) l1 -> len_known (IoFunc.len_info (tio tr)) l2 -> ls_room (tags_of tr) 2 ->
  0 < n -> 0 <= o <= COND_MAX_EXPLORE_OP -> 0 <= default 0 (order_map d !! (cid, ctx)) < MAX_COND_ORDER ->
  exists tr' d', __dfsw___angora_trace_cmp_tt cid ctx callsite n o a1 a2 cond k0 k1 k2 k3 k4 l1 l2 k7 tr = Ok (tt, tr') /\
    track_ok lim tr' /\ LC tr' = Some d' /\
    forall id sp ex, exists c, c ∈ load_track_data (Some d') id sp ex /\
      cmpid (base c) = cid /\ context (base c) = ctx /\ order (base c) = default 0 (order_map d !! (cid, ctx)) + 1 /\
      arg1 (base c) = a1 /\ arg2 (base c) = a2 /\ condition (base c) = cond /\ belong (base c) = id /\ speed c = sp /\
      (forall x, covers (offsets c) x \/ covers (offsets_opt c) x <-> x ∈ taint (tags_of tr) l1 \/ x ∈ taint (tags_of tr) l2).
Proof.
  intros Hok EL H1 H2 Hnz K1 K2 Hroom Hn Ho Hseen.
  destruct (trace_cmp_logged lim Hlim tr d cid ctx callsite n o a1 a2 cond k0 k1 k2 k3 k4 l1 l2 k7)
    as (tr' & d' & b & E & Hok' & EL' & Hb & F1 & F2 & F3 & F4 & F5 & F6 & F7 & _ & _ & S1 & S2); try done.
  { unfold COND_MAX_EXPLORE_OP, COND_AFL_OP in *. lia. }
  exists tr', d'. split; [done|]. split; [done|]. split; [done|]. intros id sp ex.
  assert (Hop : 0 <= op b <= COND_MAX_EXPLORE_OP) by (destruct F7 as [-> |[_ ->]]; [done|by vm_compute]).
  assert (Hz : ~ exists x, covers (segs_for d' 0) x).
  { intros [x Hx]. destruct Hok' as [[Hst _] Hlog]. rewrite EL' in Hlog. unfold segs_for in Hx.
    destruct (log_tags d' !! 0) as [segs|] eqn:Es; [|by apply covers_nil in Hx].
    destruct (lo_tags _ _ _ Hlog 0 segs Es) as [_ [HD _]]. apply HD in Hx.
    assert (Hx' := taint_zero (LabelStoreSpec := log_laws) _ Hst). change (x ∈ taint (tags_of tr') 0) in Hx. rewrite Hx' in Hx. set_solver. }
  destruct (shows_covers _ _ _ _ Hz S1) as [P1 C1], (shows_covers _ _ _ _ Hz S2) as [P2 C2].
  assert (Hx : is_exploitable b = false) by (unfold is_exploitable; apply andb_false_iff; left; apply Z.ltb_ge; lia).
  destruct (parse_loop_elem ex d' b (cond_list d') Hb Hx 0) as [j Hj].
  destruct (marked_elem (assign_input id sp <$> parse_loop ex d' 0 (cond_list d')) ∅ ∅ (assign_input id sp (parse_cond d' j b))) as (c & Hc & Hm);
    [by apply list_elem_of_fmap_2|].
  destruct (assign_fields id sp (parse_cond d' j b)) as (A1 & A2 & A3 & A4 & A5 & _). rewrite parse_base in A1.
  exists c. split; [done|]. rewrite Hm. cbn [base offsets offsets_opt speed set_desirable]. rewrite A1, A2, A3, A5. cbn.
  split_and!; try done. intros x. rewrite parse_offsets; [by rewrite C1, C2| |done|done|by intros ?; apply Hz; exists x].
  unfold COND_LEN_OP, COND_MAX_EXPLORE_OP in *. lia.
Qed.
End Logged.

(** ** One condition of each kind *)

(** Conditions of the same class are the same to the fuzzer. *)
Definition class_of (c : CondStmt) : option (Z + CondArgs) :=
  if is_exploitable (base c) then Some (inl (lb1 (base c)))
  else if is_explore (base c) || (op (base c) =? COND_LEN_OP) then Some (inr (cond_args (base c)))
  else None.
Definition usable_of (k : Z + CondArgs) (l : list CondStmt) : Prop :=
  exists d, d ∈ l /\ unusable d = false /\ class_of d = Some k.
Definition repeats (c : CondStmt) (l : list CondStmt) : Prop := exists k, class_of c = Some k /\ usable_of k l.
Record seen_sets (pre : list CondStmt) (xs : gset Z) (us : gset CondArgs) : Prop := mkSeen {
  ss_labels a : a ∈ xs <-> usable_of (inl a) pre;
  ss_args a : a ∈ us <-> usable_of (inr a) pre }.
Lemma usable_snoc k pre c : usable_of k (pre ++ [c]) <-> usable_of k pre \/ unusable c = false /\ class_of c = Some k.
Proof.
  unfold usable_of. split.
  - intros (d & [Hd|Hd%list_elem_of_singleton]%elem_of_app & H); [left; by exists d|subst d; by right].
  - intros [(d & Hd & H)|H]; [exists d|exists c]; (split; [apply elem_of_app|done]); [by left|right; by apply list_elem_of_singleton].
Qed.
Lemma seen_snoc pre xs us c xs' us' : seen_sets pre xs us ->
  (forall a, a ∈ xs' <-> a ∈ xs \/ unusable c = false /\ class_of c = Some (inl a)) ->
  (forall a, a ∈ us' <-> a ∈ us \/ unusable c = false /\ class_of c = Some (inr a)) -> seen_sets (pre ++ [c]) xs' us'.
Proof. intros [L A] H1 H2. split; intros a; rewrite usable_snoc, <-?L, <-?A; auto. Qed.

(** The body of the loop. *)
Lemma filter_step pre xs us c r : seen_sets pre xs us -> is_desirable c = true ->
  exists c' xs' us', filter_loop xs us (c :: r) = c' :: filter_loop xs' us' r /\ seen_sets (pre ++ [c]) xs' us' /\
    (is_desirable c' = true <-> unusable c = false /\ ~ repeats c pre).
Proof.
  intros HS Hc. pose proof (ss_labels _ _ _ HS) as SL. pose proof (ss_args _ _ _ HS) as SA. cbn [filter_loop].
  destruct (unusable c) eqn:Eu; [|destruct (is_exploitable (base c)) eqn:E1; [|destruct (is_explore (base c) || (op (base c) =? COND_LEN_OP)) eqn:E2]].
  all: assert (Ec := eq_refl (class_of c)); unfold class_of in Ec at 2; rewrite ?E1, ?E2 in Ec.
  - do 3 eexists. split; [done|]. split; [eapply seen_snoc; [done|intros a; rewrite Eu; intuition done..]|]. by split; [|intros []].
  - assert (Hr : repeats c pre <-> lb1 (base c) ∈ xs).
    { rewrite SL. unfold repeats. rewrite Ec. split; [by intros (k & [= <-] & Hk)|]. intros Hk. by eexists. }
    case_bool_decide as Hi; do 3 eexists; (split; [done|]); (split; [eapply seen_snoc; [done|..]; intros a; rewrite Eu, Ec|]).
    + split; [by left|]. intros [?|[_ [= <-]]]; done.
    + intuition done.
    + by split; [|intros [_ []]; apply Hr].
    + rewrite elem_of_union, elem_of_singleton. split; [intros [->|]; auto|intros [?|[_ [= <-]]]; auto].
    + intuition done.
    + rewrite Hr. tauto.
  - assert (Hr : repeats c pre <-> cond_args (base c) ∈ us).
    { rewrite SA. unfold repeats. rewrite Ec. split; [by intros (k & [= <-] & Hk)|]. intros Hk. by eexists. }
    case_bool_decide as Hi; do 3 eexists; (split; [done|]); (split; [eapply seen_snoc; [done|..]; intros a; rewrite Eu, Ec|]).
    + intuition done.
    + split; [by left|]. intros [?|[_ E]]; [done|]. by injection E as <-.
    + by split; [|intros [_ []]; apply Hr].
    + intuition done.
    + rewrite elem_of_union, elem_of_singleton. split; [intros [->|]; auto|intros [?|[_ E]]; [by auto|injection E as <-; auto]].
    + rewrite Hr. tauto.
  - do 3 eexists. split; [done|]. split; [eapply seen_snoc; [done|intros a; rewrite Ec; intuition done..]|].
    unfold repeats. rewrite Ec. split; [intros _; split; [done|by intros (k & ? & _)]|done].
Qed.
Lemma filter_loop_spec l : forall pre xs us i c, seen_sets pre xs us -> Forall (fun c => is_desirable c = true) l -> l !! i = Some c ->
  exists c', filter_loop xs us l !! i = Some c' /\ (is_desirable c' = true <-> unusable c = false /\ ~ repeats c (pre ++ take i l)).
Proof.
  induction l as [|c l IH]; intros pre xs us i c0 HS Hd Hi; [done|]. inversion_clear Hd as [|? ? Hc Hl].
  destruct (filter_step pre xs us c l HS Hc) as (c' & xs' & us' & -> & HS' & Hc'). destruct i as [|i].
  - injection Hi as <-. exists c'. cbn [take]. by rewrite app_nil_r.
  - cbn in Hi |- *. destruct (IH _ _ _ i c0 HS' Hl Hi) as (c2 & E & H2). exists c2. by rewrite <-app_assoc in H2.
Qed.

(** C17: filtering removes duplicates and keeps one of each.  A condition that was loaded stays
    desirable exactly if the fuzzer can work on it and no usable condition before it is of the same
    class, so that every class with a usable condition keeps one; nothing else is changed. *)
Theorem filter_keeps_one (l : list CondStmt) :
  Forall (fun c => is_desirable c = true) l ->
  Forall2 marked l (filter_cond_list l) /\
  (forall i c, l !! i = Some c -> exists c', filter_cond_list l !! i = Some c' /\
     (is_desirable c' = true <-> unusable c = false /\ ~ repeats c (take i l))) /\
  (forall c k, c ∈ l -> unusable c = false -> class_of c = Some k ->
     exists c', c' ∈ filter_cond_list l /\ is_desirable c' = true /\ class_of c' = Some k).
Proof.
  intros Hd. assert (H0 : seen_sets [] ∅ ∅).
  { split; intros a; (split; [set_solver|]); by intros (d & Hn%elem_of_nil & _). }
  split; [apply filter_marks|]. assert (Hs := filter_loop_spec l [] ∅ ∅). split; [intros i c Hi; by apply Hs|].
  intros c k (i & Hi)%list_elem_of_lookup Hu Hk. revert c Hi Hu Hk. induction (lt_wf i) as [i _ IH]. intros c Hi Hu Hk.
  destruct (Hs i c H0 Hd Hi) as (c' & Ec & Hc). cbn [app] in Hc.
  destruct (decide (is_desirable c' = true)) as [Hdes|Hnd].
  - exists c'. split; [by eapply list_elem_of_lookup_2|]. split; [done|].
    destruct (Forall2_lookup_l _ _ _ _ _ (filter_marks l ∅ ∅) Hi) as (c2 & E2 & Hm). unfold filter_cond_list in *.
    rewrite Ec in E2. injection E2 as <-. rewrite Hm. done.
  - assert (Hrep : ~ ~ repeats c (take i l)) by (intros Hn; apply Hnd, Hc; done).
    assert (Hdec : Decision (repeats c (take i l))).
    { destruct (existsb (fun d => negb (unusable d) && bool_decide (class_of d = Some k)) (take i l)) eqn:Ee; [left|right].
      - apply existsb_exists in Ee as (d & Hd1%list_elem_of_In & [H1%negb_true_iff H2%bool_decide_eq_true]%andb_true_iff).
        exists k. split; [done|]. by exists d.
      - intros (k' & Ek & d & Hin & H1 & H2). assert (k' = k) as -> by congruence.
        apply not_true_iff_false in Ee. apply Ee, existsb_exists. exists d. split; [by apply list_elem_of_In|].
        by rewrite H1, bool_decide_eq_true_2. }
    destruct Hdec as [(k' & Ek & d & Hin & H1 & H2)|Hn]; [|done]. assert (k' = k) as -> by congruence.
    apply list_elem_of_lookup in Hin as [j Hj]. apply lookup_take_Some in Hj as [Hj Hlt]. by apply (IH j Hlt d).
Qed.

(** ** What tracking adds to the graph *)

(** The condition depends on bytes of the input, and has variables where an indirect call led to it. *)
Definition cond_fits (n : nat) (c : CondStmt) : Prop :=
  Forall (fits n) (offsets c) /\ (last_callsite (base c) <> 0 -> variables c <> []).
Lemma indices_fit n l : Forall (fits n) l -> Forall (fun i => (i < n)%nat) (elements (indices l)).
Proof.
  intros Hl. apply Forall_forall. intros i Hi%list_elem_of_In. apply elem_of_elements in Hi. unfold indices in Hi.
  apply elem_of_list_to_set, list_elem_of_In, in_concat in Hi as (x & (s & <- & Hs)%in_map_iff & Hi%in_seq).
  rewrite Forall_forall in Hl. specialize (Hl s Hs). unfold fits in Hl. lia.
Qed.
Lemma fix_variables_total n fixed : forall vars, vars <> [] -> Z.of_nat (length vars) = n ->
  exists vars', fix_variables n fixed vars = Ok vars' /\ length vars' = length vars.
Proof.
  induction fixed as [|[i v] fixed IH]; intros vars Hne Hn; cbn [fix_variables]; [by eexists|].
  destruct (Z.ltb_spec (Z.of_nat i) (u64 (n - 1))) as [Hi|]; [|by apply IH].
  assert (Hu : u64 (n - 1) <= n - 1) by (apply Z.mod_le; [destruct vars; [done|cbn in Hn; lia]|done]).
  rewrite (proj2 (Nat.ltb_lt _ _)) by lia. destruct (IH (<[i := v]> vars)) as (w & E & Hw).
  - intros E%(f_equal length). rewrite length_insert in E. by destruct vars.
  - by rewrite length_insert.
  - exists w. split; [done|]. by rewrite Hw, length_insert.
Qed.

Section TrackProofs.
Context `{GS : GraphMapSpec} `{Mean}.

(** The graph grows by the edges [es], and the targets are kept. *)
Record extends (es : list Edge) (g g' : ControlFlowGraph) : Prop := mkExt {
  x_edges : forall x, has (graph g') x <-> x ∈ es \/ has (graph g) x;
  x_targets : targets g' = targets g;
  x_solved : solved_targets g' = solved_targets g;
  x_dominators : callsite_dominators g' = callsite_dominators g;
  x_cmps : dominator_cmps g' = dominator_cmps g }.
Lemma extends_trans es1 es2 g1 g2 g3 : extends es1 g1 g2 -> extends es2 g2 g3 -> extends (es1 ++ es2) g1 g3.
Proof. intros [E1 ? ? ? ?] [E2 ? ? ? ?]. split; [intros x; rewrite E2, E1, elem_of_app; tauto|congruence..]. Qed.
Lemma extends_target es g g' x : extends es g g' -> is_target g' x = is_target g x.
Proof. intros E. unfold is_target. by rewrite (x_targets _ _ _ E), (x_solved _ _ _ E). Qed.

(** What is known about the comparisons that lead to call sites. *)
Definition known_ok (n : nat) (known : gmap CmpId (list TagSeg)) : Prop := map_Forall (fun _ l => Forall (fits n) l) known.
Lemma dominator_fits n ds known : known_ok n known -> Forall (fits n) (dominator_offsets ds known).
Proof.
  intros Hk. unfold dominator_offsets. apply Forall_concat, Forall_fmap, Forall_forall. intros d _. cbn.
  destruct (known !! d) as [l|] eqn:E; [by apply (Hk d)|constructor].
Qed.
(** The condition [b], with more offsets and other variables. *)
Definition fixed_from (b c : CondStmt) : Prop :=
  base c = base b /\ is_desirable c = is_desirable b /\ (exists os, offsets c = offsets b ++ os) /\ length (variables c) = length (variables b).
Lemma indirect_step_spec buf edge b known g : known_ok (length buf) known -> variables b <> [] ->
  exists c g', indirect_step buf edge b known g = Ok (c, g') /\ fixed_from b c /\ extends [] g g'.
Proof.
  intros Hk Hv. unfold indirect_step. set (os := dominator_offsets _ _). unfold set_magic_bytes.
  destruct (fix_bytes_spec (elements (indices os)) buf) as (f & -> & _); [by apply indices_fit, dominator_fits|]. cbn [res_bind].
  match goal with |- context [fix_variables ?n ?m ?v] => destruct (fix_variables_total n m v) as (vs & -> & Hl); [done|done|] end.
  cbn [res_bind].
  do 2 eexists. split; [done|]. split; [split_and!; [done|done|by exists os|done]|].
  split; try done. intros x. cbn. rewrite elem_of_nil. tauto.
Qed.

Definition edge_of (p : CondStmt * CondStmt) : Edge := (cmpid (base p.1), cmpid (base p.2)).
Definition indirect (p : CondStmt * CondStmt) : Prop := last_callsite (base p.2) <> 0.
#[local] Instance indirect_dec p : Decision (indirect p).
Proof. unfold indirect. apply _. Defined.
Lemma track_loop_spec buf ws : forall known g, known_ok (length buf) known ->
  Forall (fun p => cond_fits (length buf) p.1 /\ cond_fits (length buf) p.2) ws ->
  exists l g', track_loop buf ws known g = Ok (l, g') /\ extends (edge_of <$> ws) g g' /\ Forall2 fixed_from (snd <$> filter indirect ws) l.
Proof.
  induction ws as [|[a b] ws IH]; intros known g Hk Hws; cbn [track_loop].
  { exists [], g. split; [done|]. split; [|constructor]. split; try done. intros x. rewrite elem_of_nil. tauto. }
  inversion_clear Hws as [|? ? [Ha Hb] Hws']. destruct (add_edge_run g (cmpid (base a)) (cmpid (base b))) as (g1 & -> & A & _). cbn [res_bind snd fst] in *.
  assert (X1 : extends [edge_of (a, b)] g g1).
  { split; try apply A. intros y. rewrite (a_edges _ _ _ A), list_elem_of_singleton. done. }
  set (known1 := if dominates_indirect_call g1 _ then _ else known).
  assert (Hk1 : known_ok (length buf) known1).
  { unfold known1. destruct (dominates_indirect_call _ _); [|done]. apply map_Forall_insert_2; [apply Ha|done]. }
  destruct (Z.eqb_spec (last_callsite (base b)) 0) as [E|E]; cbn [negb].
  - destruct (IH known1 g1 Hk1 Hws') as (l & g2 & -> & X2 & F). exists l, g2. split; [done|].
    split; [exact (extends_trans _ _ _ _ _ X1 X2)|]. rewrite filter_cons_False; [done|]. by intros [].
  - destruct (indirect_step_spec buf (cmpid (base a), cmpid (base b)) b known1 g1 Hk1) as (c & g2 & -> & Fc & X2); [by apply Hb|]. cbn [res_bind fst snd].
    destruct (IH known1 g2 Hk1 Hws') as (l & g3 & -> & X3 & F). cbn [res_bind fst snd]. exists (c :: l), g3. split; [done|].
    split; [exact (extends_trans _ _ _ _ _ (extends_trans _ _ _ _ _ X1 X2) X3)|]. rewrite filter_cons_True by done. by constructor.
Qed.
Lemma windows_elem {A} (l : list A) p : p ∈ windows l <-> exists i, l !! i = Some p.1 /\ l !! S i = Some p.2.
Proof.
  induction l as [|a l IH]; [split; [by intros ?%elem_of_nil|by intros (i & ? & _)]|].
  destruct l as [|b l]; [split; [by intros ?%elem_of_nil|by intros ([|i] & ? & ?)]|].
  change (windows (a :: b :: l)) with ((a, b) :: windows (b :: l)). rewrite elem_of_cons, IH. split.
  - intros [->|(i & H1 & H2)]; [by exists 0%nat|by exists (S i)].
  - intros ([|i] & H1 & H2); [left; destruct p; cbn in *; congruence|right; by exists i].
Qed.
Lemma windows_forall {A} (P : A -> Prop) l : Forall P l -> Forall (fun p => P p.1 /\ P p.2) (windows l).
Proof.
  rewrite !Forall_forall. intros Hl p (i & H1 & H2)%list_elem_of_In%windows_elem.
  split; apply Hl, list_elem_of_In; by eapply list_elem_of_lookup_2.
Qed.

(** The log fits the input it was made with. *)
Definition log_fits (n : nat) (log : Logger) : Prop :=
  (forall lb, Forall (fits n) (segs_for log lb)) /\
  (forall i b, cond_list log !! i = Some b -> last_callsite b <> 0 -> variables (parse_cond log i b) <> []).
Lemma loaded_inv log id sp ex c : c ∈ load_track_data log id sp ex ->
  exists l i b, log = Some l /\ cond_list l !! i = Some b /\ marked (assign_input id sp (parse_cond l i b)) c.
Proof.
  unfold load_track_data. intros (k & Hk)%list_elem_of_lookup. destruct (Forall2_lookup_r _ _ _ _ _ (filter_marks _ ∅ ∅) Hk) as (c0 & Hc0 & Hm).
  apply list_elem_of_lookup_2 in Hc0. apply list_elem_of_fmap in Hc0 as (p & -> & Hp). unfold read_and_parse in Hp.
  destruct log as [l|]; [|by apply elem_of_nil in Hp]. apply parse_loop_inv in Hp as (i & b & Hb & ->). by exists l, i, b.
Qed.
Lemma parse_fits n l i b : log_fits n l -> cond_list l !! i = Some b -> cond_fits n (parse_cond l i b).
Proof.
  intros [Hl Hv] Hb. split; [|rewrite parse_base; by apply Hv]. unfold parse_cond. destruct (_ && _); [|constructor].
  unfold get_offsets_and_variables. destruct (_ || _); apply Hl.
Qed.
Lemma loaded_fits n log id sp ex : match log with Some l => log_fits n l | None => True end ->
  Forall (fun c => cond_fits n c /\ belong (base c) = id) (load_track_data log id sp ex).
Proof.
  intros Hlog. apply Forall_forall. intros c (l & i & b & -> & Hb & Hm)%list_elem_of_In%loaded_inv.
  destruct (assign_fields id sp (parse_cond l i b)) as (A1 & A2 & _ & A4 & _). destruct (parse_fits n l i b Hlog Hb) as [F1 F2].
  rewrite Hm. cbn. unfold cond_fits. cbn. rewrite A1, A2, A4. rewrite parse_base in *. done.
Qed.

(** C16: tracking teaches the graph the order in which comparisons follow each other.  On a log
    that fits the input it ends without a panic, adds exactly the edges between comparisons
    that follow each other in the log, and answers the loaded conditions, those of
    targets marked, followed by one more for each that was entered by an indirect call, with the
    bytes that led to the call among its offsets. *)
Theorem track_adds_edges (log : option Logger) (ex : bool) (id : Z) (buf : list Z) (sp : Z) (g : ControlFlowGraph) :
  match log with Some l => log_fits (length buf) l | None => True end ->
  let l := load_track_data log (u32 id) sp ex in
  exists fixed g', track Normal log ex id buf sp g = Ok ((mark_target g <$> l) ++ fixed, g') /\
    (forall e, has_edge g' e = true <-> has_edge g e = true \/
       exists i a b, l !! i = Some a /\ l !! S i = Some b /\ e = (cmpid (base a), cmpid (base b))) /\
    (forall x, is_target g' x = is_target g x) /\
    Forall2 fixed_from (snd <$> filter indirect (windows l)) fixed.
Proof.
  intros Hlog l. unfold track. rewrite bool_decide_eq_true_2 by done. cbn [negb]. fold l.
  destruct (track_loop_spec buf (windows l) ∅ g) as (fixed & g' & -> & X & F); [apply map_Forall_empty| |].
  { apply windows_forall. eapply list.Forall_impl; [apply (loaded_fits (length buf)), Hlog|]. by intros c []. }
  cbn [res_bind fst snd]. exists fixed, g'. split; [|split; [|split; [|done]]].
  - do 2 f_equal. f_equal. apply list_fmap_ext. intros _ c _. unfold mark_target. by rewrite (extends_target _ _ _ _ X).
  - intros e. rewrite !has_edge_iff, (x_edges _ _ _ X), list_elem_of_fmap. split.
    + intros [([a b] & -> & (i & H1 & H2)%windows_elem)|He]; [right; by exists i, a, b|by left].
    + intros [He|(i & a & b & H1 & H2 & ->)]; [by right|left]. exists (a, b). split; [done|]. apply windows_elem. by exists i.
  - intros x. apply (extends_target _ _ _ _ X).
Qed.
(** A condition on a length has no variables, and the bound for them wraps around: when an
    indirect call led to it and bytes are known that led to the call, the first of them is
    written to an empty vector. *)
Lemma length_variables log i b : op b = COND_LEN_OP -> variables (parse_cond log i b) = [].
Proof. intros Hb. unfold parse_cond. by rewrite Hb. Qed.
Theorem length_condition_panics (buf : list Z) (edge : Edge) (b : CondStmt) (known : gmap CmpId (list TagSeg)) (g : ControlFlowGraph) :
  known_ok (length buf) known -> Z.of_nat (length buf) < 2 ^ 64 -> variables b = [] ->
  indices (dominator_offsets (get_callsite_dominators g (last_callsite (base b))) known) <> ∅ ->
  indirect_step buf edge b known g = Fault Panicked.
Proof.
  intros Hk Hn Hv Hne. unfold indirect_step. change (get_callsite_dominators (set_edge_indirect g edge ?x) ?x) with (get_callsite_dominators g x).
  set (os := dominator_offsets _ _) in *. unfold set_magic_bytes.
  pose proof (indices_fit (length buf) os (dominator_fits _ _ _ Hk)) as Hi.
  destruct (fix_bytes_spec (elements (indices os)) buf Hi) as (f & -> & Hf). cbn [res_bind].
  unfold get_magic_bytes. cbn [magic_bytes]. rewrite lookup_insert_eq. change (default [] (Some ?x)) with x. rewrite Hv.
  destruct f as [|[i v] f].
  - exfalso. apply Hne, set_eq. intros i. split; [|set_solver]. intros Hin. apply elem_of_elements in Hin.
    pose proof Hin as Hlt. rewrite Forall_forall in Hi. apply list_elem_of_In, Hi, lookup_lt_is_Some in Hlt as [x Hx].
    exfalso. by eapply elem_of_nil, (Hf i x).
  - cbn [fix_variables]. destruct (proj1 (Hf i v)) as [Hin _]; [by left|]. rewrite Forall_forall in Hi.
    apply list_elem_of_In, Hi in Hin. replace (u64 (Z.of_nat (length (@nil Z)) - 1)) with (2 ^ 64 - 1) by by vm_compute.
    rewrite (proj2 (Z.ltb_lt _ _)) by lia. done.
Qed.
End TrackProofs.

(** ** Coverage that is left *)

Definition buckets : list Z := [1; 2; 4; 8; 16; 32; 64; 128].
Definition open_at (m : list Z) (p : nat * Z) : bool :=
  match m !! p.1 with Some v => negb (Z.land p.2 v =? 0) | None => true end.
(** The buckets of [n] edges that a map does not have. *)
Definition left_in (n : nat) (m : list Z) : nat := length (List.filter (open_at m) (list_prod (seq 0 n) buckets)).
Lemma open_at_iff m i b : open_at m (i, b) = true <-> ~ covered m i b.
Proof.
  unfold open_at, covered. cbn. destruct (m !! i) as [v|]; [|split; [by intros _ (v & ? & _)|done]].
  rewrite negb_true_iff, Z.eqb_neq. split; [by intros Hv (w & [= ->] & Hw)|]. intros Hv Hw. apply Hv. by exists v.
Qed.
Lemma count_mono {A} (p q : A -> bool) l : (forall x, In x l -> q x = true -> p x = true) ->
  (length (List.filter q l) <= length (List.filter p l))%nat /\
  ((exists x, In x l /\ p x = true /\ q x = false) -> (length (List.filter q l) < length (List.filter p l))%nat).
Proof.
  induction l as [|a l IH]; intros Hm; cbn [List.filter]; [split; [done|by intros (x & [] & _)]|].
  destruct IH as [I1 I2]; [intros x Hx; apply Hm; by right|]. pose proof (Hm a (or_introl eq_refl)) as Ha.
  destruct (q a) eqn:Eq; [rewrite Ha by done|destruct (p a) eqn:Ep]; cbn [length].
  - split; [lia|]. intros (x & [->|Hx] & H1 & H2); [congruence|]. assert (length (List.filter q l) < length (List.filter p l))%nat by (apply I2; by exists x). lia.
  - split; [lia|]. intros _. lia.
  - split; [lia|]. intros (x & [->|Hx] & H1 & H2); [congruence|]. apply I2. by exists x.
Qed.
Lemma bucket_in b : In b buckets <-> is_bucket b = true.
Proof.
  unfold is_bucket. rewrite existsb_exists. split; [intros Hb; exists b; split; [done|apply Z.eqb_refl]|].
  by intros (x & Hx & ->%Z.eqb_eq).
Qed.
Lemma left_less n m m' : (forall i b, is_bucket b = true -> covered m i b -> covered m' i b) ->
  (left_in n m' <= left_in n m)%nat /\
  ((exists i b, (i < n)%nat /\ is_bucket b = true /\ ~ covered m i b /\ covered m' i b) -> (left_in n m' < left_in n m)%nat).
Proof.
  intros Hc. unfold left_in.
  destruct (count_mono (open_at m) (open_at m') (list_prod (seq 0 n) buckets)) as [H1 H2].
  { intros [i b] [_ Hb%bucket_in]%in_prod_iff. rewrite !open_at_iff. intros Hno Hco. by apply Hno, Hc. }
  split; [done|]. intros (i & b & Hi & Hb & Ho & Hn). apply H2. exists (i, b). rewrite in_prod_iff, in_seq, bucket_in, open_at_iff.
  split; [split; [lia|done]|]. split; [done|]. apply not_true_iff_false. rewrite open_at_iff. tauto.
Qed.

Section Exec.
Context `{GS : GraphMapSpec} `{Mean} `{PS : PriorityQueueSpec}.
Context (n : nat) (Hn : Z.of_nat n < 2 ^ 64).
Record maps_ok (g : GlobalBranches) : Prop := mkMapsOk {
  mo_map st m : gb_map st g = Some m -> map_ok n m;
  mo_density : density g = Z.of_nat (reached (virgin_branches g)) }.
Definition left_of (g : GlobalBranches) : nat :=
  (left_in n (virgin_branches g) + left_in n (tmouts_branches g) + left_in n (crashes_branches g))%nat.
(** The run has a bucket that no earlier run with the same outcome had. *)
Definition is_new (directed : bool) (st : StatusType) (trace : list Z) (g : GlobalBranches) : Prop :=
  exists m i b, gb_map st g = Some m /\ hits trace i b /\ ~ covered m i b /\
    (directed = true -> has_path_to_target (cfg g) (u32 (Z.of_nat i)) = Ok true).
Lemma has_new_keeps trace st directed g : maps_ok g -> is_trace n trace ->
  exists p e k g', has_new trace st directed g = Ok ((p, e, k), g') /\ maps_ok g' /\ (left_of g' <= left_of g)%nat /\
    (p = true -> left_of g' < left_of g)%nat /\ (p = true <-> is_new directed st trace g).
Proof.
  intros Hg Ht. destruct (gb_map st g) as [m|] eqn:Em.
  2: { unfold has_new. rewrite Em. do 4 eexists. split; [done|]. split; [done|]. split; [done|]. split; [done|].
       split; [done|]. intros (m & i & b & E & _). congruence. }
  destruct (has_new_run n trace m st directed g Em Ht) as (p & e & g' & m' & E & Em' & Hm' & Hcov & Hp & _ & Hoth); [by apply (mo_map _ Hg st)|].
  do 4 eexists. split; [exact E|]. assert (Hg' : maps_ok g').
  { split; [intros st' m0 Hm0; destruct (decide (st' = st)) as [->|Hne]; [congruence|rewrite Hoth in Hm0 by done; by apply (mo_map _ Hg st')]|].
    eapply density_run; [exact Ht|by apply (mo_map _ Hg Normal)|intros; by eapply (mo_map _ Hg)|done|apply Hg|exact E]. }
  destruct (left_less n m m') as [L1 L2]; [intros i b Hb Hc; apply Hcov; auto|].
  assert (Hsplit : (left_of g' + left_in n m = left_of g + left_in n m')%nat).
  { pose proof (Hoth Normal) as O1. pose proof (Hoth FuzzBranches.Timeout) as O2. pose proof (Hoth Crash) as O3. unfold left_of.
    destruct st; cbn in *; try done; injection Em as <-; injection Em' as <-;
      repeat match goal with O : ?a <> ?b -> _ |- _ => first [specialize (O ltac:(done)); injection O as O; rewrite O; clear O | clear O] end; lia. }
  split; [done|]. split; [lia|]. split.
  - intros Hpt. apply Hp in Hpt as (i & b & Hh & Hc & _). cut (left_in n m' < left_in n m)%nat; [lia|]. apply L2. exists i, b.
    destruct Hh as (v & Hv & Hpos & Eb). assert (Hb : is_bucket b = true) by (apply (hits_bucket n trace Ht i); by exists v).
    apply lookup_lt_Some in Hv as Hi. rewrite (t_length _ _ Ht) in Hi. split; [done|]. split; [done|]. split; [done|].
    apply Hcov; [done|]. right. by exists v.
  - rewrite Hp. unfold is_new. split; [intros (i & b & Hx); by exists m, i, b|]. intros (m0 & i & b & E0 & Hx). exists i, b. congruence.
Qed.

(** *** Inputs and conditions *)

(** The depot learns: inputs are added, conditions stay, and what is done stays done. *)
Record learns (ins : list (list Z)) (d d' : Depot) : Prop := mkLearns {
  le_ok : depot_ok d';
  le_inputs : inputs d' = inputs d ++ ins;
  le_keys : forall k, is_Some (view d !! k) -> is_Some (view d' !! k);
  le_done : forall k x, view d !! k = Some x -> settled x -> view d' !! k = Some x }.
Lemma learns_refl d : depot_ok d -> learns [] d d.
Proof. split; rewrite ?app_nil_r; done. Qed.
Lemma learns_trans i1 i2 d1 d2 d3 : learns i1 d1 d2 -> learns i2 d2 d3 -> learns (i1 ++ i2) d1 d3.
Proof. intros [] []. split; [done|rewrite app_assoc; congruence|auto|eauto]. Qed.
Lemma learns_grows d d' : grows d d' -> learns [] d d'.
Proof. intros []. split; rewrite ?app_nil_r; done. Qed.
(** Changes that leave the queue alone. *)
Lemma learns_same ins d d' : depot_ok d -> queue d' = queue d -> inputs d' = inputs d ++ ins -> learns ins d d'.
Proof.
  intros Hd Hq Hi. assert (Hv : view d' = view d) by (unfold view; by rewrite Hq). split; [|done|by rewrite Hv..].
  unfold depot_ok. rewrite Hv. intros k x Hx. destruct (Hd k x Hx) as (Hk1 & Hk2 & Hk3). split; [done|]. split; [done|].
  rewrite Hi, length_app. lia.
Qed.
Lemma save_learns st buf d : depot_ok d ->
  learns (if bool_decide (st = Normal) then [buf] else []) d (save st buf d).2 /\
  (st = Normal -> (save st buf d).1 = Z.of_nat (length (inputs d))).
Proof.
  intros Hd. split; [|by intros ->]. destruct st; apply learns_same; cbn; rewrite ?app_nil_r; done.
Qed.

Context (is_directed enable_exploitation enable_afl : bool).
Record exec_ok (e : Executor) : Prop := mkExecOk {
  eo_maps : maps_ok (ex_branches e);
  eo_depot : depot_ok (ex_depot e) }.
(** The programs behave: coverage comes in maps of [n] bytes, and the log fits the input. *)
Record target_ok (buf : list Z) (t : Target) : Prop := mkTargetOk {
  to_trace : is_trace n (t_trace t);
  to_unmem : is_trace n (t_unmem_trace t);
  to_log : match t_log t with Some l => log_fits (length buf) l | None => True end }.
(** What an execution keeps of the executor beside branches and depot. *)
Definition same_counts (e e' : Executor) : Prop :=
  tmout_cnt e' = tmout_cnt e /\ invariable_cnt e' = invariable_cnt e /\ last_f e' = last_f e /\ num_exec e' = num_exec e.
Record learned (ins : list (list Z)) (e e' : Executor) : Prop := mkLearned {
  ld_maps : maps_ok (ex_branches e');
  ld_left : (left_of (ex_branches e') <= left_of (ex_branches e))%nat;
  ld_depot : learns ins (ex_depot e) (ex_depot e');
  ld_path : has_new_path e' = has_new_path e;
  ld_counts : same_counts e e' }.
Lemma learned_trans i1 i2 e1 e2 e3 : learned i1 e1 e2 -> learned i2 e2 e3 -> learned (i1 ++ i2) e1 e3.
Proof.
  intros [M1 L1 D1 P1 (C1 & C2 & C3 & C4)] [M2 L2 D2 P2 (K1 & K2 & K3 & K4)].
  split; [done|lia|by eapply learns_trans|congruence|split_and!; congruence].
Qed.

Lemma unlimited_spec t buf e : exec_ok e -> target_ok buf t ->
  exists b e', try_unlimited_memory is_directed t buf e = Ok (b, e') /\ learned [] e e'.
Proof.
  intros [Hm Hd] Ht. unfold try_unlimited_memory. set (e1 := with_conds _ e). case_bool_decide as Es.
  { exists false, e1. split; [done|]. split; [done..|by apply learns_refl|done|done]. }
  destruct (has_new_keeps (t_unmem_trace t) (t_unmem_status t) is_directed (ex_branches e) Hm (to_unmem _ _ Ht))
    as (p & ed & k & g' & E & Hg' & Hl & _ & _). change (ex_branches e1) with (ex_branches e). rewrite E. cbn [res_bind fst snd].
  eexists _, _. split; [done|]. destruct p.
  - split; [done|done| |done|done]. destruct (save_learns (t_unmem_status t) buf (ex_depot e) Hd) as [Hs _].
    by rewrite bool_decide_eq_false_2 in Hs.
  - split; [done|done|by apply learns_refl|done|done].
Qed.
Lemma entries_learn l d : depot_ok d -> Forall (belongs d) l -> learns [] d (add_entries l d).
Proof. intros Hd Hl. apply learns_grows. by apply add_entries_run. Qed.
Lemma track_input_spec t id buf k e : exec_ok e -> target_ok buf t -> 0 <= id < Z.of_nat (length (inputs (ex_depot e))) -> id < 2 ^ 32 ->
  exists e', track_input enable_exploitation enable_afl t id buf k e = Ok e' /\ learned [] e e'.
Proof.
  intros [Hm Hd] Ht Hid Hu. unfold track_input. set (d := ex_depot e) in *.
  assert (Hx : exists l g', track (t_track_status t) (t_log t) enable_exploitation id buf (t_speed t) (depot_cfg d) = Ok (l, g') /\
    Forall (fun c => belong (base c) = id) l).
  { destruct (decide (t_track_status t = Normal)) as [->|Hs]; [|unfold track; rewrite bool_decide_eq_false_2 by done; by eexists _, _].
    pose proof (loaded_fits (length buf) (t_log t) (u32 id) (t_speed t) enable_exploitation (to_log _ _ Ht)) as Hl.
    rewrite u32_small in Hl by lia. unfold track. rewrite bool_decide_eq_true_2 by done. cbn [negb]. rewrite u32_small by lia.
    set (l := load_track_data _ _ _ _) in *.
    destruct (track_loop_spec buf (windows l) ∅ (depot_cfg d)) as (fixed & g' & -> & _ & F); [apply map_Forall_empty| |].
    { apply windows_forall. eapply list.Forall_impl; [exact Hl|]. by intros c []. }
    cbn [res_bind fst snd]. eexists _, _. split; [done|]. apply list.Forall_app. split.
    - apply Forall_fmap. eapply list.Forall_impl; [exact Hl|]. intros c [_ Hc]. cbn. unfold mark_target. by destruct (is_target _ _).
    - apply Forall_lookup. intros i c Hi. destruct (Forall2_lookup_r _ _ _ _ _ F Hi) as (b & Hb & (Eb & _)). rewrite Eb.
      apply list_elem_of_lookup_2, list_elem_of_fmap in Hb as ([a b'] & -> & [_ Hw]%list_elem_of_filter).
      apply windows_elem in Hw as (j & _ & Hj). cbn in *. rewrite Forall_lookup in Hl. by apply (Hl _ _ Hj). }
  destruct Hx as (l & g' & -> & Hl). cbn [res_bind fst snd]. eexists. split; [done|]. split; [done|done| |done|done]. cbn [ex_depot with_depot]. fold d.
  set (d1 := with_cfg g' d). assert (L1 : learns [] d d1) by (apply learns_same; [done|done|by rewrite app_nil_r]).
  destruct (0 <? length l)%nat; [|done].
  assert (L2 : learns [] d1 (add_entries l d1)).
  { apply entries_learn; [apply L1|]. eapply list.Forall_impl; [exact Hl|]. intros c Hc. unfold belongs. rewrite Hc. done. }
  pose proof (learns_trans _ _ _ _ _ L1 L2) as L12. destruct enable_afl; [|done].
  refine (learns_trans [] [] _ _ _ L12 _). apply entries_learn; [apply L2|]. constructor; [|constructor].
  unfold belongs. cbn. rewrite (le_inputs _ _ _ L12), app_nil_r. fold d. lia.
Qed.

Lemma do_if_has_new_spec t buf e : exec_ok e -> target_ok buf t -> Z.of_nat (length (inputs (ex_depot e))) < 2 ^ 32 ->
  exists p e', do_if_has_new is_directed enable_exploitation enable_afl t buf (t_status t) e = Ok e' /\
    learned (if p && bool_decide (t_status t = Normal) then [buf] else []) (with_new_path (p || has_new_path e) e) e' /\
    (p = true <-> is_new is_directed (t_status t) (t_trace t) (ex_branches e)) /\
    (p = true -> left_of (ex_branches e') < left_of (ex_branches e))%nat.
Proof.
  intros [Hm Hd] Ht Hb. unfold do_if_has_new.
  destruct (has_new_keeps (t_trace t) (t_status t) is_directed (ex_branches e) Hm (to_trace _ _ Ht))
    as (p & ed & k & g' & -> & Hg' & Hl & Hlt & Hp). cbn [res_bind fst snd]. exists p.
  destruct p; cbn [andb orb].
  2: { eexists. split; [done|]. split; [split; [done|done|by apply learns_refl|done|done]|done]. }
  destruct (save_learns (t_status t) buf (ex_depot e) Hd) as [Hs Hid].
  set (e1 := with_depot _ _). assert (L1 : learned (if bool_decide (t_status t = Normal) then [buf] else []) (with_new_path true e) e1) by (split; done).
  case_bool_decide as Es; [|exists e1; split; [done|]; split; [done|]; by split].
  set (e2 := with_conds _ e1). assert (L2 : learned [buf] (with_new_path true e) e2) by (by destruct L1).
  destruct (too_slow t ed _); [exists e2; split; [done|]; split; [done|]; by split|].
  destruct (unlimited_spec t buf e2) as (b & e3 & -> & L3); [split; [done|apply L2]|done|]. cbn [res_bind fst snd].
  pose proof (learned_trans _ _ _ _ _ L2 L3) as L23. assert (Hlt3 : (left_of (ex_branches e3) < left_of (ex_branches e))%nat).
  { pose proof (ld_left _ _ _ L3) as H3. specialize (Hlt eq_refl). change (ex_branches e2) with g' in H3. lia. }
  destruct b; [exists e3; split; [done|]; split; [done|]; by split|].
  destruct (track_input_spec t (save (t_status t) buf (ex_depot e)).1 buf k e3) as (e4 & E4 & L4).
  - split; [apply L3|apply (ld_depot _ _ _ L3)].
  - done.
  - rewrite Hid by done. rewrite (le_inputs _ _ _ (ld_depot _ _ _ L23)), !length_app. cbn. lia.
  - rewrite Hid by done. done.
  - exists e4. split; [exact E4|]. split; [exact (learned_trans _ _ _ _ _ L23 L4)|]. split; [done|].
    intros _. pose proof (ld_left _ _ _ L4). lia.
Qed.

Lemma timeout_spec st c e : let '(st', c', e') := check_timeout st c e in
  ex_branches e' = ex_branches e /\ ex_depot e' = ex_depot e /\ has_new_path e' = has_new_path e /\ num_exec e' = num_exec e /\
  key_of c' = key_of c /\ cond_is_done c' = cond_is_done c.
Proof. unfold check_timeout. destruct (bool_decide (_ = FuzzBranches.Timeout)); [destruct (TMOUT_SKIP <=? _)|]; done. Qed.
Lemma invariable_spec out c e : let '(b, c', e') := check_invariable out c e in
  ex_branches e' = ex_branches e /\ ex_depot e' = ex_depot e /\ has_new_path e' = has_new_path e /\ num_exec e' = num_exec e /\
  key_of c' = key_of c /\ cond_is_done c' = cond_is_done c.
Proof. unfold check_invariable. destruct (out =? last_f e); [destruct (MAX_INVARIABLE_NUM <=? _)|]; done. Qed.

(** C7: an execution keeps the fuzzer consistent.  It ends without a panic; the coverage maps and
    the queue stay well formed and drop nothing; the input is saved exactly if the run was normal
    and new; a condition whose goal was reached is done, and the search for it ends. *)
Theorem execution_keeps (t : Target) (buf : list Z) (c : CondStmt) (e : Executor) :
  exec_ok e -> target_ok buf t -> Z.of_nat (length (inputs (ex_depot e))) < 2 ^ 32 ->
  exists status out c' e' p, run_with_cond is_directed enable_exploitation enable_afl t buf c e = Ok (status, out, c', e') /\
    exec_ok e' /\ learns (if p && bool_decide (t_status t = Normal) then [buf] else []) (ex_depot e) (ex_depot e') /\
    (p = true <-> is_new is_directed (t_status t) (t_trace t) (ex_branches e)) /\ has_new_path e' = p /\
    out = get_cond_output (t_conds t (FuzzCond.set (base c) (ex_conds e)).2) /\
    (out = 0 -> cond_is_done c' = true) /\ (out = 0 -> cond_is_done c = false -> status = Skip) /\ key_of c' = key_of c.
Proof.
  intros He Ht Hb. unfold run_with_cond. set (e1 := run_inner _ _). set (out := get_cond_output (ex_conds e1)).
  pose proof (invariable_spec out (check_explored out c).2 e1) as Hi. destruct (check_invariable _ _ _) as [[b c2] e2].
  destruct Hi as (I1 & I2 & I3 & I4 & I5 & I6).
  destruct (do_if_has_new_spec t buf e2) as (p & e3 & -> & L & Hp & _); [by split; rewrite ?I1, ?I2; apply He|done|by rewrite I2|].
  cbn [res_bind]. set (c3 := check_consistent out c2 e2). pose proof (timeout_spec (t_status t) c3 e3) as Hm.
  destruct (check_timeout _ _ _) as [[st c4] e4]. destruct Hm as (T1 & T2 & T3 & T4 & T5 & T6).
  assert (C3 : key_of c3 = key_of c2 /\ cond_is_done c3 = cond_is_done c2) by (unfold c3, check_consistent; by destruct ((out =? UNREACHABLE) && _ && _ && _)).
  destruct C3 as [C3 C4]. destruct L as [LM _ LD LP _]. rewrite I1 in Hp. cbn [ex_depot with_new_path has_new_path] in LD, LP. rewrite I2 in LD. rewrite I3 in LP.
  change (has_new_path e1) with false in LP. rewrite orb_false_r in LP. change (ex_depot e1) with (ex_depot e) in LD. change (ex_branches e1) with (ex_branches e) in Hp.
  exists (if (check_explored out c).1 || b then Skip else st), out, c4, e4, p. split; [done|].
  split; [split; rewrite ?T1, ?T2; [done|apply LD]|]. split; [by rewrite T2|]. split; [done|]. split; [congruence|]. split; [done|].
  unfold check_explored in *. split_and!.
  - intros Ho. rewrite Ho in *. cbn [Z.eqb andb] in *. rewrite T6, C4, I6. by destruct (cond_is_done c) eqn:Ed.
  - intros Ho Hd. rewrite Ho, Hd. done.
  - rewrite T5, C3, I5. by destruct (_ && _).
Qed.

(** What every execution keeps for the search. *)
Definition only_cleared (c c' : CondStmt) : Prop := offsets c' = offsets c \/ offsets c' = [].
Record ran (c : CondStmt) (e : Executor) (c' : CondStmt) (e' : Executor) : Prop := mkRan {
  rn_ok : exec_ok e';
  rn_inputs : (length (inputs (ex_depot e')) <= S (length (inputs (ex_depot e))))%nat;
  rn_num : num_exec e' = u64 (num_exec e + 1);
  rn_left : (left_of (ex_branches e') + (if has_new_path e' then 1 else 0) <= left_of (ex_branches e))%nat;
  rn_offsets : only_cleared c c' }.
Lemma timeout_offsets st c e : offsets (check_timeout st c e).1.2 = offsets c.
Proof. unfold check_timeout. destruct (bool_decide (_ = FuzzBranches.Timeout)); [destruct (TMOUT_SKIP <=? _)|]; done. Qed.
Lemma invariable_offsets out c e : offsets (check_invariable out c e).1.2 = offsets c.
Proof. unfold check_invariable. destruct (out =? last_f e); [destruct (MAX_INVARIABLE_NUM <=? _)|]; done. Qed.
Lemma explored_offsets out c : only_cleared c (check_explored out c).2.
Proof. unfold check_explored. destruct (_ && _); [by right|by left]. Qed.
(** The part that both ways to run share. *)
Lemma rest_spec t buf c c1 e e1 : exec_ok e -> target_ok buf t -> Z.of_nat (length (inputs (ex_depot e))) < 2 ^ 32 ->
  ex_branches e1 = ex_branches e -> ex_depot e1 = ex_depot e -> has_new_path e1 = false -> num_exec e1 = u64 (num_exec e + 1) -> only_cleared c c1 ->
  exists e2, do_if_has_new is_directed enable_exploitation enable_afl t buf (t_status t) e1 = Ok e2 /\
    ran c e (check_timeout (t_status t) c1 e2).1.2 (check_timeout (t_status t) c1 e2).2.
Proof.
  intros He Ht Hb E1 E2 E3 E4 Hc.
  destruct (do_if_has_new_spec t buf e1) as (p & e2 & E & L & _ & Hlt); [split; rewrite ?E1, ?E2; apply He|done|by rewrite E2|].
  exists e2. split; [done|]. pose proof (timeout_spec (t_status t) c1 e2) as Hm. pose proof (timeout_offsets (t_status t) c1 e2) as Ho.
  destruct (check_timeout _ _ _) as [[st c4] e4]. destruct Hm as (T1 & T2 & T3 & T4 & _). cbn [fst snd] in *.
  destruct L as [LM LL LD LP (_ & _ & _ & LN)]. cbn [ex_depot ex_branches has_new_path num_exec with_new_path] in *. rewrite E3, orb_false_r in LP.
  split.
  - split; rewrite ?T1, ?T2; [done|apply LD].
  - rewrite T2, (le_inputs _ _ _ LD), length_app, E2. destruct (_ && _); cbn; lia.
  - by rewrite T4, LN.
  - rewrite T1, T3, LP, <-E1. destruct p; [specialize (Hlt eq_refl)|]; lia.
  - unfold only_cleared in *. by rewrite Ho.
Qed.
Lemma run_spec t buf c e : exec_ok e -> target_ok buf t -> Z.of_nat (length (inputs (ex_depot e))) < 2 ^ 32 ->
  exists status c' e', run is_directed enable_exploitation enable_afl t buf c e = Ok (status, c', e') /\ ran c e c' e'.
Proof.
  intros He Ht Hb. unfold run. destruct (rest_spec t buf c c e (run_inner t (run_init e))) as (e2 & -> & R); [done..|by left|].
  cbn [res_bind]. destruct (check_timeout _ _ _) as [[st c4] e4]. by exists st, c4, e4.
Qed.
Lemma run_with_cond_spec t buf c e : exec_ok e -> target_ok buf t -> Z.of_nat (length (inputs (ex_depot e))) < 2 ^ 32 ->
  exists status out c' e', run_with_cond is_directed enable_exploitation enable_afl t buf c e = Ok (status, out, c', e') /\ ran c e c' e'.
Proof.
  intros He Ht Hb. unfold run_with_cond. set (e1 := run_inner _ _). set (out := get_cond_output (ex_conds e1)).
  pose proof (invariable_spec out (check_explored out c).2 e1) as Hi. pose proof (invariable_offsets out (check_explored out c).2 e1) as Ho.
  destruct (check_invariable _ _ _) as [[b c2] e2]. destruct Hi as (I1 & I2 & I3 & I4 & _). cbn [fst snd] in Ho.
  assert (Hc : only_cleared c (check_consistent out c2 e2)).
  { replace (only_cleared c _) with (only_cleared c c2) by (unfold check_consistent; by destruct (_ && _)).
    pose proof (explored_offsets out c). unfold only_cleared in *. by rewrite Ho. }
  destruct (rest_spec t buf c (check_consistent out c2 e2) e e2) as (e3 & -> & R); [done|done|done|by rewrite I1|by rewrite I2|by rewrite I3|by rewrite I4|done|].
  cbn [res_bind]. destruct (check_timeout _ _ _) as [[st c4] e4]. eexists _, out, c4, e4. by split.
Qed.
Lemma left_bound m : (left_in n m <= 8 * n)%nat.
Proof. unfold left_in. etrans; [apply List.filter_length_le|]. rewrite length_prod, length_seq. cbn. lia. Qed.
(** The buffer has the offsets of the condition, after zeros were added for the last of them. *)
Definition buffer_ok (h : Handler) : Prop :=
  Forall (fits (length (extend_input (offsets (h_cond h)) (h_buf h)))) (offsets (h_cond h)).
(** The program behaves on every input, the edits keep or clear the offsets, and an input that is
    written back has as many bytes as the offsets [os]. *)
Record step_ok (os : list TagSeg) (x : step) : Prop := mkStepOk {
  so_target : forall buf, target_ok buf (s_target x buf);
  so_edit : forall c, only_cleared c (s_edit x c);
  so_input : match s_action x with
             | ExecuteInput i | ExecuteCond i => length (value i) = sum_list (seg_size <$> os)
             | _ => True
             end }.
(** The executions a search has left. *)
Definition budget (h : Handler) : Z := max_times h + BONUS_EXEC_NUM * Z.of_nat (left_of (ex_branches (h_exec h))).
Record performed (os : list TagSeg) (h h' : Handler) : Prop := mkPerformed {
  pf_ok : exec_ok (h_exec h');
  pf_inputs : (length (inputs (ex_depot (h_exec h'))) <= S (length (inputs (ex_depot (h_exec h)))))%nat;
  pf_num : num_exec (h_exec h') = num_exec (h_exec h) + 1;
  pf_max : max_times h <= max_times h';
  pf_budget : budget h' <= budget h;
  pf_skip : h_skip h = true \/ max_times h' < num_exec (h_exec h') -> h_skip h' = true;
  pf_buffer : buffer_ok h';
  pf_offsets : offsets (h_cond h') = os \/ offsets (h_cond h') = [] }.
Lemma extend_same os buf : Forall (fits (length buf)) os -> extend_input os buf = buf.
Proof.
  intros Hf. unfold extend_input. destruct (list.last os) as [t|] eqn:E; [|done]. apply last_Some_elem_of, list_elem_of_In in E.
  rewrite Forall_forall in Hf. destruct (Hf t E). by rewrite (proj2 (Z.ltb_ge _ _)) by lia.
Qed.
Lemma buffer_cleared c' h : buffer_ok h -> only_cleared (h_cond h) c' -> buffer_ok (with_run c' (h_exec h) h).
Proof. unfold buffer_ok. cbn [h_cond h_buf with_run]. intros Hb [->| ->]; [done|apply Forall_nil]. Qed.
(** Bytes of the right number can be written to the buffer, and it has the offsets then. *)
Lemma write_total os i h : buffer_ok h -> offsets (h_cond h) = os \/ offsets (h_cond h) = [] -> length (value i) = sum_list (seg_size <$> os) ->
  exists buf, write_to_input i (offsets (h_cond h)) (h_buf h) = Ok buf /\ buffer_ok (with_buf buf h).
Proof.
  unfold buffer_ok, write_to_input, set_bytes_by_offsets. cbn [h_cond h_buf with_buf]. intros Hb Ho Hi.
  destruct Ho as [Ho|Ho]; rewrite Ho in *; [|exists (h_buf h); split; [done|by apply Forall_nil]].
  destruct (cut_spec _ _ Hi) as [Hc Ev]. set (buf := extend_input os (h_buf h)) in *. exists (store_all os (cut os (value i)) buf).
  split; [rewrite <-Ev at 1; by apply (set_bytes_spec _ _ Hc [])|].
  assert (Hl : Forall (fits (length (store_all os (cut os (value i)) buf))) os) by (by rewrite store_all_length).
  by rewrite extend_same.
Qed.
Lemma process_performed os st c' e' h : 0 <= num_exec (h_exec h) < 2 ^ 63 -> 0 <= max_times h -> budget h < 2 ^ 63 ->
  buffer_ok h -> offsets (h_cond h) = os \/ offsets (h_cond h) = [] -> ran (h_cond h) (h_exec h) c' e' ->
  performed os h (process_status st (with_run c' e' h)).
Proof.
  intros Hn0 Hm0 Hbd Hb Ho [R1 R2 R3 R4 R5]. rewrite u64_small in R3 by lia. unfold budget in Hbd.
  assert (Hmt : max_times (process_status st (with_run c' e' h)) = max_times h + (if has_new_path e' then BONUS_EXEC_NUM else 0)).
  { unfold process_status. cbn [max_times h_exec with_run]. destruct (has_new_path e'); [|lia]. apply u64_small. unfold BONUS_EXEC_NUM in *. lia. }
  split; [done|done|done| | | | |].
  - rewrite Hmt. unfold BONUS_EXEC_NUM. destruct (has_new_path e'); lia.
  - unfold budget. rewrite Hmt. cbn [h_exec process_status with_run]. unfold BONUS_EXEC_NUM. destruct (has_new_path e'); lia.
  - intros [Hs|Hlt]; unfold process_status in *; cbn [h_skip h_exec with_run max_times] in *.
    + rewrite Hs. by repeat case_match.
    + by rewrite (proj2 (Z.ltb_lt _ _) Hlt).
  - exact (buffer_cleared c' h Hb R5).
  - change (offsets c' = os \/ offsets c' = []). destruct R5 as [->|]; tauto.
Qed.
Lemma perform_spec os x h : step_ok os x -> exec_ok (h_exec h) -> buffer_ok h -> offsets (h_cond h) = os \/ offsets (h_cond h) = [] ->
  Z.of_nat (length (inputs (ex_depot (h_exec h)))) < 2 ^ 32 -> 0 <= num_exec (h_exec h) < 2 ^ 63 -> 0 <= max_times h -> budget h < 2 ^ 63 ->
  exists h', perform is_directed enable_exploitation enable_afl (s_action x) (s_target x) h = Ok h' /\ performed os h h'.
Proof.
  intros Hx He Hb Ho Hin Hn0 Hm0 Hbd. set (t := s_target x).
  assert (Hrun : forall b buf, buffer_ok (with_buf b h) ->
    exists h', execute is_directed enable_exploitation enable_afl (t buf) buf (with_buf b h) = Ok h' /\ performed os h h').
  { intros b buf Hb2. unfold execute. destruct (run_spec (t buf) buf (h_cond h) (h_exec h)) as (st & c' & e' & E & R); [done|by apply Hx|done|].
    cbn [h_cond h_exec with_buf]. rewrite E. cbn [res_bind fst snd]. eexists. split; [done|].
    by destruct (process_performed os st c' e' (with_buf b h) Hn0 Hm0 Hbd Hb2 Ho R). }
  assert (Hrunc : forall b, buffer_ok (with_buf b h) ->
    exists f h', execute_cond_direct is_directed enable_exploitation enable_afl (t b) (with_buf b h) = Ok (f, h') /\ performed os h h').
  { intros b Hb2. unfold execute_cond_direct. cbn [h_cond h_exec h_buf with_buf].
    destruct (run_with_cond_spec (t b) b (h_cond h) (h_exec h)) as (st & out & c' & e' & E & R); [done|by apply Hx|done|].
    rewrite E. cbn [res_bind]. do 2 eexists. split; [done|]. by destruct (process_performed os st c' e' (with_buf b h) Hn0 Hm0 Hbd Hb2 Ho R). }
  assert (Hid : h = with_buf (h_buf h) h) by (by destruct h). pose proof (so_input _ _ Hx) as Hi. unfold perform.
  destruct (s_action x) as [buf|i| |i|].
  - destruct (Hrun (h_buf h) buf) as (h' & E & Hp); [by rewrite <-Hid|]. rewrite <-Hid in E. by exists h'.
  - destruct (write_total os i h Hb Ho Hi) as (buf & E & Hb2). unfold execute_input. rewrite E. by apply (Hrun buf).
  - destruct (Hrun (h_buf h) (h_buf h)) as (h' & E & Hp); [by rewrite <-Hid|]. rewrite <-Hid in E. by exists h'.
  - destruct (write_total os i h Hb Ho Hi) as (buf & E & Hb2). unfold execute_cond. rewrite E. cbn [res_bind].
    destruct (Hrunc buf Hb2) as (f & h' & -> & Hp). cbn. by exists h'.
  - destruct (Hrunc (h_buf h)) as (f & h' & E & Hp); [by rewrite <-Hid|]. rewrite <-Hid in E. rewrite E. by exists h'.
Qed.

Lemma executions_spec os ts : forall h, exec_ok (h_exec h) -> buffer_ok h -> offsets (h_cond h) = os \/ offsets (h_cond h) = [] ->
  Forall (step_ok os) ts -> Z.of_nat (length (inputs (ex_depot (h_exec h))) + length ts) < 2 ^ 32 ->
  0 <= num_exec (h_exec h) -> num_exec (h_exec h) + Z.of_nat (length ts) < 2 ^ 63 -> 0 <= max_times h -> budget h < 2 ^ 63 ->
  exists h', executions is_directed enable_exploitation enable_afl ts h = Ok h' /\ exec_ok (h_exec h') /\
    (h_skip h = true \/ ts <> [] /\ budget h < num_exec (h_exec h) + Z.of_nat (length ts) -> h_skip h' = true).
Proof.
  induction ts as [|x ts IH]; intros h He Hb Ho Hts Hin Hn0 Hn1 Hm0 Hbd; cbn [executions].
  { exists h. split; [done|]. split; [done|]. by intros [?|[? _]]. }
  unfold is_stopped_or_skip. cbn [negb orb length] in *. destruct (s_asks x && h_skip h) eqn:Es.
  { apply andb_true_iff in Es as [_ Es]. by exists h. }
  inversion_clear Hts as [|? ? Hx Hts']. pose proof (so_edit _ _ Hx (h_cond h)) as Hd. set (h0 := with_run _ _ h).
  assert (Ho0 : offsets (h_cond h0) = os \/ offsets (h_cond h0) = []) by (cbn; destruct Hd as [->| ->]; tauto).
  destruct (perform_spec os x h0) as (h1 & -> & [P1 P2 P3 P4 P5 P6 P7 P8]); [done|done|by apply buffer_cleared|done|cbn; lia|cbn; lia|done|done|].
  cbn [res_bind]. change (h_exec h0) with (h_exec h) in *. change (max_times h0) with (max_times h) in *. change (budget h0) with (budget h) in *.
  destruct (IH h1) as (h' & E & H1' & H2'); [done|done|done|done|lia|lia|lia|lia|lia|]. exists h'. split; [exact E|]. split; [done|].
  intros Hor. apply H2'. destruct Hor as [Hs|[_ Hlt]]; [left; apply P6; by left|]. destruct ts as [|y ts]; [|right; split; [done|lia]].
  left. apply P6. right. cbn [length] in Hlt. unfold budget, BONUS_EXEC_NUM in P5, Hlt. lia.
Qed.

(** C15: no search goes on forever.  A search executes inputs in any of the five ways of the
    handler, with or without the condition, and edits its condition and asks the handler in
    between as it likes.  Whatever inputs it executes, no execution panics, and it is told to
    stop once it made one execution more than its budget, 66 for every bucket of coverage
    that no run had included: a new path takes at least one of them, so that their
    number is bounded.  The budget is that of the handler at the start, 376 executions
    in a new one: a search that sets its own budget starts again there.  The offsets of the
    condition lie in the buffer, extended by zeros, and stay or are cleared; bytes written to them
    are as many as the offsets; the programs report coverage in maps of one size and logs
    that fit their input; there are fewer than 2^32 inputs. *)
Theorem search_ends (ts : list step) (h : Handler) :
  Z.of_nat n <= BRANCHES_SIZE -> exec_ok (h_exec h) -> buffer_ok h -> Forall (step_ok (offsets (h_cond h))) ts ->
  Z.of_nat (length (inputs (ex_depot (h_exec h))) + length ts) < 2 ^ 32 ->
  0 <= num_exec (h_exec h) < 2 ^ 62 -> 0 <= max_times h < 2 ^ 62 ->
  exists h', executions is_directed enable_exploitation enable_afl ts h = Ok h' /\ exec_ok (h_exec h') /\
    (ts <> [] -> max_times h + BONUS_EXEC_NUM * Z.of_nat (left_of (ex_branches (h_exec h))) < num_exec (h_exec h) + Z.of_nat (length ts) ->
     h_skip h' = true).
Proof.
  intros Hsz He Hb Hts Hin Hn0 Hm0.
  assert (Hbd : budget h < 2 ^ 63).
  { unfold budget, left_of, BONUS_EXEC_NUM. change BRANCHES_SIZE with (2 ^ 20) in Hsz.
    pose proof (left_bound (virgin_branches (ex_branches (h_exec h)))). pose proof (left_bound (tmouts_branches (ex_branches (h_exec h)))).
    pose proof (left_bound (crashes_branches (ex_branches (h_exec h)))). lia. }
  destruct (executions_spec (offsets (h_cond h)) ts h) as (h' & E & H1' & H2'); [done|done|by left|done|done|lia|lia|lia|done|].
  exists h'. split; [done|]. split; [done|]. intros Hne Hlt. apply H2'. by right.
Qed.
End Exec.

(** The condition that stands for mutations of a whole input belongs to the first input, whatever
    input it was made for; the loop mutates the input that a condition belongs to. *)
Theorem afl_cond_first_input (id sp edges : Z) : belong (base (get_afl_cond id sp edges)) = 0 /\ cmpid (base (get_afl_cond id sp edges)) = u32 id.
Proof. done. Qed.

(** ** Examples *)

Module ExecEx.
Import ListGraph CfgEx MapQueue BranchEx DepotEx.
(** A log of three comparisons, the last one behind the call site 9. *)
Definition rec (id callsite o l1 l2 : Z) : CondStmtBase := mkCond id 0 callsite 1 0 0 0 o 4 l1 l2 7 9.
Definition log1 : Logger :=
  mkLogger [rec 1 0 32 1 0; rec 2 0 32 1 2; rec 5 9 32 2 2; rec 2 0 32 1 2] (<[ 1 := [mkSeg false 0 2] ]> (<[ 2 := [mkSeg true 3 4] ]> ∅)) ∅ ∅.
Definition buf4 : list Z := [1; 2; 3; 4].
Definition shm0 : shm -> shm := fun s => s.
Definition tgt : Target := mkTarget Normal t0 shm0 shm0 100 1 Normal t0 shm0 Normal (Some log1).
Definition ex0 : Executor := mkExec _ _ g0 CondEx.s0 d3 0 0 UNREACHABLE false 0.
Lemma log1_fits : log_fits 4 log1.
Proof.
  split.
  - intros lb. unfold segs_for, log1. cbn [log_tags]. destruct (decide (lb = 1)) as [->|]; [|destruct (decide (lb = 2)) as [->|]].
    + rewrite lookup_insert_eq. repeat constructor; cbn; lia.
    + rewrite lookup_insert_ne, lookup_insert_eq by done. repeat constructor; cbn; lia.
    + rewrite !lookup_insert_ne by done. rewrite lookup_empty. constructor.
  - intros i b. do 4 (destruct i as [|i]; [intros [= <-] _; by vm_compute|]). done.
Qed.
Lemma maps0_ok : maps_ok 16 g0.
Proof. split; [|by vm_compute]. intros [] m [= <-]; apply map0_ok. Qed.
Lemma ex0_ok : exec_ok 16 ex0.
Proof. split; [apply maps0_ok|apply d3_ok]. Qed.
Lemma tgt_ok : target_ok 16 buf4 tgt.
Proof. split; [apply t0_trace|apply t0_trace|apply log1_fits]. Qed.

Lemma tracked_comparison_loaded_witness :
  exists tr' d', __dfsw___angora_trace_cmp_tt 7 1 0 4 32 10 11 0 0 0 0 0 0 2 4 0 TrackEx.tr = Ok (tt, tr') /\
    LC tr' = Some d' /\ exists c, c ∈ load_track_data (Some d') 3 100 false /\ cmpid (base c) = 7 /\ belong (base c) = 3.
Proof.
  destruct (tracked_comparison_loaded 64 StoreEx.size_ok TrackEx.tr Logger_new 7 1 0 4 32 10 11 0 0 0 0 0 0 2 4 0)
    as (tr' & d' & E & _ & EL & Hc).
  - apply TrackEx.tr_ok.
  - done.
  - apply TrackEx.labels_ok. by left.
  - apply TrackEx.labels_ok. by right.
  - by left.
  - intros Hf. by vm_compute in Hf.
  - intros Hf. by vm_compute in Hf.
  - by vm_compute.
  - lia.
  - by vm_compute.
  - by vm_compute.
  - exists tr', d'. split; [exact E|]. split; [exact EL|]. destruct (Hc 3 100 false) as (c & Hin & H1 & _ & _ & _ & _ & _ & H2 & _). by exists c.
Defined.
Definition loaded : list CondStmt := assign_input 0 100 <$> parse_loop true log1 0 (cond_list log1).
Definition twice : CondStmt := assign_input 0 100 (parse_cond log1 3 (rec 2 0 32 1 2)).
Lemma filter_keeps_one_witness : is_desirable <$> filter_cond_list loaded = [true; true; true; false] /\
  exists c', filter_cond_list loaded !! 3%nat = Some c' /\ (is_desirable c' = true <-> unusable twice = false /\ ~ repeats twice (take 3 loaded)).
Proof.
  split; [by vm_compute|]. apply (filter_keeps_one loaded); [repeat constructor|by vm_compute].
Defined.
Lemma track_adds_edges_witness : exists l g', track Normal (Some log1) true 0 buf4 100 c0 = Ok (l, g') /\ length l = 5%nat /\ has_edge g' (2, 5) = true.
Proof.
  destruct (track_adds_edges (Some log1) true 0 buf4 100 c0 log1_fits) as (fixed & g' & E & He & _ & F). eexists _, g'.
  split; [exact E|]. split.
  - rewrite length_app. apply Forall2_length in F. rewrite <-F. by vm_compute.
  - apply He. right. exists 1%nat. do 2 eexists. split; [by vm_compute|]. split; by vm_compute.
Defined.
Lemma length_condition_panics_witness :
  indirect_step buf4 (4, 5) (CondStmt_from (rec 5 9 COND_LEN_OP 1 0)) (<[ 4 := [mkSeg false 0 2] ]> ∅)
    (mkCfg _ g_new ∅ ∅ ∅ ∅ (<[ 9 := {[ 4 ]} ]> ∅) {[ 4 ]} ∅) = Fault Panicked.
Proof.
  apply length_condition_panics; [|by vm_compute|done|by vm_compute].
  apply map_Forall_insert_2; [repeat constructor; cbn; lia|apply map_Forall_empty].
Defined.
Lemma execution_keeps_witness : exists status out c' e' (p : bool), run_with_cond false true true tgt buf4 (cnd 1) ex0 = Ok (status, out, c', e') /\
  learns (if p then [buf4] else []) d3 (ex_depot e') /\ out = UNREACHABLE.
Proof.
  destruct (execution_keeps 16 ltac:(lia) false true true tgt buf4 (cnd 1) ex0 ex0_ok tgt_ok) as (st & out & c' & e' & p & E & _ & L & _ & _ & Ho & _); [by vm_compute|].
  exists st, out, c', e', p. split; [exact E|]. split; [by destruct p|]. by rewrite Ho.
Defined.
(** A search on all of the coverage maps that only ever runs the comparison it is after. *)
Definition asks_again : step := mkStep true (fun c => c) ExecuteCondDirect (fun _ => mkTarget Normal t0 shm0 shm0 100 1 Normal t0 shm0 Normal None).
Lemma search_ends_witness : (0 < left_of 16 g0)%nat /\
  exists h', executions false true true (replicate (Z.to_nat 26000) asks_again) (SearchHandler_new ex0 (cnd 1) buf4) = Ok h' /\ h_skip h' = true.
Proof.
  assert (El : left_of 16 g0 = 384%nat) by by vm_compute.
  split; [rewrite El; lia|]. destruct (search_ends 16 ltac:(lia) false true true (replicate (Z.to_nat 26000) asks_again) (SearchHandler_new ex0 (cnd 1) buf4))
    as (h' & E & _ & Hs).
  - by vm_compute.
  - apply ex0_ok.
  - repeat constructor; by vm_compute.
  - apply Forall_forall. intros x Hx%list_elem_of_In%elem_of_replicate. destruct Hx as [-> _].
    split; [|by left|done]. intros buf. split; [apply t0_trace|apply t0_trace|done].
  - rewrite length_replicate. change (length (inputs (ex_depot (h_exec (SearchHandler_new ex0 (cnd 1) buf4))))) with (length (inputs d3)).
    assert (Hd : (length (inputs d3) <= 8)%nat) by (vm_compute; lia). lia.
  - done.
  - done.
  - exists h'. split; [exact E|]. apply Hs.
    + rewrite <-(Nat.succ_pred (Z.to_nat 26000)) by lia. done.
    + rewrite length_replicate. change (ex_branches _) with g0. rewrite El. unfold BONUS_EXEC_NUM. cbn [max_times SearchHandler_new num_exec h_exec count_exec].
      unfold MAX_SEARCH_EXEC_NUM. lia.
Defined.
End ExecEx.
